(* ===== verification/_CoqProject ===== *)
-Q . S2P
Prelude.v
Bytes.v
Text.v
Utf8.v
Cursor.v
Disk.v
Jenkins.v
LruFile.v
Lru.v
LruTheorems.v
Collections.v
Pages.v
IndexEntry.v
UpdateSection.v
IndexFile.v
IndexImage.v
Index.v
IndexMerge.v
IndexTheorems.v
LocalHeader.v
Segment.v
SegmentTheorems.v
Compaction.v
CompactionTheorems.v
KeyState.v
KeyStateTheorems.v
KmtFile.v
KmtTheorems.v
ResidencyContainer.v
Ciphers.v
Blte.v
BlteTheorems.v
ArchiveFile.v
ArchiveTheorems.v
Shmem.v
ShmemTheorems.v
DynamicContainer.v
DynamicTheorems.v
DynamicRestart.v
Zbsdiff.v
ZbsdiffTheorems.v
Espec.v
EspecTheorems.v
CdnIndex.v
CdnIndexTheorems.v
ArchiveGroup.v
ArchiveGroupTheorems.v
CdnArchive.v
CdnArchiveTheorems.v
Encoding.v
EncodingTheorems.v
Install.v
InstallTheorems.v
Size.v
Download.v
DownloadTheorems.v
Tvfs.v
TvfsTheorems.v
PatchChain.v
PatchIndex.v
PatchIndexTheorems.v
PatchArchive.v
PatchArchiveTheorems.v
Lines.v
Bpsv.v
BpsvTheorems.v
BuildInfo.v
Config.v
ConfigTheorems.v
Keys.v
KeysTheorems.v
Root.v
RootTheorems.v
Resolver.v
ResolverTheorems.v
Agent.v
AgentTheorems.v
