(* ===== verification/Prelude.v ===== *)
(** * Verification of cascette-rs: storage, formats and operations of game content

    cascette-rs is an implementation of Blizzard's NGDP/CASC content system.  This library
    models the parts of it that hold its own logic: the local storage
    (crates/cascette-client-storage), the content formats (crates/cascette-formats), the
    hashes, ciphers and keys below them (crates/cascette-crypto) and the operations of the
    agent on top (crates/cascette-agent).

    ** The program and its model

    Content is named by a content key and stored under a 16-byte encoding key.  A root file
    leads from paths and file ids to content keys, an encoding file from content keys to
    encoding keys; install, size and download manifests say which files an installation
    needs.  Encoded content is a BLTE file of compressed and encrypted chunks, kept in the
    archives of a CDN or in local data files that an index leads into.  Patches lead from
    one version of a file to the next.  Text files (build, CDN, patch and keyring
    configurations, BPSV tables) hold the entry points.

    Local storage:
    - [Jenkins] (cascette-crypto/src/jenkins.rs): lookup3, the guard of every format below.
    - [LruFile], [Lru], [LruTheorems] (lru/): the table that chooses what to evict, a list
      threaded through a flat array, and its checkpoint file.
    - [IndexEntry], [UpdateSection], [IndexFile], [IndexImage], [Index], [IndexMerge],
      [IndexTheorems] (index/): the 18-byte entries, the append-only update section, both
      formats of an .idx file, and the manager of up to sixteen buckets with the merge and
      the atomic save.
    - [LocalHeader], [Segment], [SegmentTheorems], [Compaction], [CompactionTheorems],
      [ArchiveFile], [ArchiveTheorems] (storage/): the header of an archive entry, the
      allocator of byte ranges, the movement of spans, and the mapped data files.
    - [KeyState], [KeyStateTheorems], [KmtFile], [KmtTheorems] (kmt/): the residency
      database and the KMT V8 file.
    - [Shmem], [ShmemTheorems] (shmem/control_block.rs): the block shared by processes.
    - [ResidencyContainer], [DynamicContainer], [DynamicTheorems], [DynamicRestart]
      (container/): the [Container] trait as a type class with its implementations; the
      dynamic container composes index, archives, allocator, residency, LRU and shared
      memory, and is opened again on the directory it left.
    - [Resolver], [ResolverTheorems] (resolver.rs): from paths and file ids to encoding
      keys, over the models of the root and the encoding file.
    - [BuildInfo] (build_info.rs): the file that says what is installed.

    Formats:
    - [Ciphers], [Blte], [BlteTheorems]: ARC4 and Salsa20 over the interface [Keystream];
      chunks, compression modes with the framing of LZ4 blocks, encryption, builder.
    - [Zbsdiff], [ZbsdiffTheorems]: binary patches, with the bsdiff algorithm.
    - [Espec], [EspecTheorems]: the language of encoding specifications.
    - [CdnIndex], [ArchiveGroup], [CdnArchive] with their theorems: the archives of the CDN
      and the indices over them.
    - [Encoding], [Install], [Size], [Download], [Root], [Tvfs] with their theorems: the
      system files, each with parser, writer, queries and builder.
    - [PatchChain], [PatchIndex], [PatchArchive] with their theorems: which patches exist
      and how they follow each other.
    - [Bpsv], [BpsvTheorems], [Config], [ConfigTheorems]: the text formats.
    - [Keys], [KeysTheorems] (cascette-crypto): the key store, and key providers as the class
      [TactKeyProvider] with the laws [KeyMap].

    Agent:
    - [Agent], [AgentTheorems] (cascette-agent/src: models/, state/, server/handlers/, executor/):
      operations and products as state machines, the queue, recovery at start, and the
      runner that executes operations.

    Shared: this file (outcomes, results, the [?] operator, vector access, machine words,
    the hint database [casc] and the tactics), [Bytes] (integer encodings, slices), [Text],
    [Utf8] and [Lines] (characters, numbers, trimming, words, lines), [Cursor] (readers over
    bytes), [Disk] (a directory of files), [Collections] ([BTreeMap], stable sort and binary
    search over a class of ordered keys) and [Pages] (the page codec of three components,
    over the interface [PageEntry]).

    ** How code becomes definitions

    A [w]-bit integer is a [Z], with the wrap-around written out where the source wraps or,
    as the release profile has no overflow checks, can overflow; a byte string is a list of
    bytes, a string its UTF-8 bytes (code points in [Espec]); a struct is a record and an
    enum an inductive type with the source's constructors.  A method takes and returns the
    state.  A panic of the source (index or slice out of range, a failing [unwrap] or
    [expect], a division by zero) is the value [Panic] of [outcome]; [Result] is [result],
    and its errors keep the constructor and the constant part of the message.  The file
    system is a [disk], a list of named contents in the order in which the operating system
    lists them.  Which system calls fail, and what a failed write leaves behind, is an
    argument [Io] over which the theorems quantify.  A call that takes a lock for its whole
    duration is one step.

    Code outside the repository is a parameter, with what the code relies on as a named
    hypothesis: MD5 (a digest has sixteen bytes), the zlib and LZ4 block codecs
    (decompression undoes compression, [codecs_ok], [patch_codecs_ok]), the suffix sort of
    bsdiff, the Unicode case maps and character classes, the order in which a hash map is
    walked (a permutation), and in [Agent] what the pipelines, the network and the process
    list answer.  The comparison of a utilisation with a threshold is floating point and a
    parameter ([below_threshold], [underused]).  The witnesses instantiate these parameters
    by concrete functions.

    ** What the theorems show

    - Storage: what the dynamic container has written is read back under its key, whatever
      is done to other keys and whatever system calls fail, also by a container opened later
      on the directory; its calls return, but for a read of bytes with a malformed BLTE
      header.  Below it: the index manager is a finite map whose operations change one answer
      and never panic, a save leaves the old or the complete new file, ranges allocated within
      the size of a segment are disjoint, a segment with room always gives some, compaction
      ends and keeps what it gathers, the LRU manager refines a sequence of keys and the
      residency database a set, and on well-formed files the resolver answers as their own
      lookups do, for canonical paths and ids with one record.
    - Formats: every builder is read back by its parser as what was put in (BLTE, archives
      and groups, encoding, root, download, TVFS, patch archive, patch index, ESpec, BPSV,
      configurations), for the inputs a named predicate describes; parsers of binary formats
      are total or panic exactly where a theorem says.
    - Algorithms: lookup3 and Salsa20 agree with reference definitions; a patch made by
      bsdiff turns the old into the new data in memory and as a stream; the k-way merge of
      indices is their union; a tag query on bit masks is a filter on files; batch and
      on-demand lookups agree with single ones; the chain search finds a chain that fits; a
      download plan holds exactly the files it should; decompression is bounded.
    - Agent: an operation goes through the states its plan allows; under every order of
      steps identifiers stay distinct and tasks within the permits, and in runs in which
      insertions are not split and spawned tasks start before the queue is read again a
      product code has at most one active operation.

    Where the code differs from what it documents or intends, a theorem says what it does.
    Among these: [allocate_overruns_segment], [evict_to_target_leaks_slots],
    [checkpoint_deletes_itself], [flush_resurrects_duplicate], [load_index_panics],
    [no_access_mode_accepts_writes], [unknown_tags_match_nothing],
    [name_of_255_bytes_is_unreadable], [long_branch_hides_patch], [long_key_panics],
    [entry_without_patches_ends_block], [rows_are_lost], [late_field_panics],
    [missing_size_shifts], [clear_caches_loses_ids], [path_is_not_normalized],
    [races_queue_two], [dispatch_revives_operation], [negative_size_disagrees].

    ** Fuel

    Loops that are not structural take fuel, and each is started with more than it can use:
    page, section and block loops with one more than the entries or bytes they read (each
    iteration consumes one at least, or ends), the binary search with the length it halves,
    the merge with more than the entries there are, the bsdiff loops with the lengths of the
    data, the ESpec parser with twice the length of the text and one (every call consumes a
    character or is one of two for it), the readers of TVFS tables with the length of the
    table and one, its numbers with five, the greatest common divisor with the smaller
    number and one, the chain search with the longest chain allowed and one, the loops over
    numbered keys with the number of keys and one ([numbered_keys_exact]), trimming with the
    length of the text.  The loops that follow links, [evict_loop] and [walk], return [None]
    when the fuel runs out, and the theorems show that it does not.

    ** What is not modelled

    Logging, progress reports, and the paths of directories (a component has one).
    Floating-point statistics.  Of the storage crate: the hard-link container, the platform
    layer of the shared memory and the storage manager, which are calls of the operating
    system and glue.  Of the formats crate: the struct of the encrypted BLTE header, which
    the reader does not use, and the product configuration, JSON that a library reads.  Of
    the crypto crate: the wrappers of the MD5 and random number libraries.  Of the agent: the
    HTTP service.  The crates for caches, protocol clients, the Ribbit server, installation
    pipelines, containerless storage, maintenance, metadata and protocol buffers are network
    and database clients, asynchronous glue or generated code. *)

From Stdlib Require Export ZArith Lia.
From stdpp Require Export base tactics strings option gmap list.

#[export] Set Default Goal Selector "!".

Declare Scope cascette_scope.
Delimit Scope cascette_scope with casc.

(** ** Outcomes

    [outcome] is the result of running a piece of Rust code: a value, or a
    panic (an index out of bounds, a slice out of range, an [unwrap]).  Rust's
    own [Result] is [result]; its [Option] is [option]. *)

Inductive outcome (A : Type) : Type :=
| Ret (a : A)
| Panic.
Arguments Ret {A} a.
Arguments Panic {A}.

#[export] Instance outcome_ret : MRet outcome := @Ret.
#[export] Instance outcome_bind : MBind outcome := fun A B f m =>
  match m with Ret a => f a | Panic => Panic end.
#[export] Instance outcome_fmap : FMap outcome := fun A B f m =>
  match m with Ret a => Ret (f a) | Panic => Panic end.

Lemma bind_Ret {A B} (m : outcome A) (f : A -> outcome B) b :
  m ≫= f = Ret b -> exists a, m = Ret a /\ f a = Ret b.
Proof. destruct m; [eauto|done]. Qed.

Inductive result (E A : Type) : Type :=
| Ok (a : A)
| Err (e : E).
Arguments Ok {E A} a.
Arguments Err {E A} e.

#[export] Instance result_bind {E} : MBind (result E) := fun A B f m =>
  match m with Ok a => f a | Err e => Err e end.

(** The [?] operator in a function that can also panic. *)
Definition try_bind {E A B} (m : outcome (result E A)) (f : A -> outcome (result E B)) :
    outcome (result E B) :=
  match m with Ret (Ok a) => f a | Ret (Err e) => Ret (Err e) | Panic => Panic end.

Notation "x ←? m ; k" := (try_bind m (fun x => k))
  (at level 20, m at level 100, k at level 200, right associativity, only parsing) : stdpp_scope.
Notation "' p ←? m ; k" := (try_bind m (fun x => match x with p => k end))
  (at level 20, p pattern, m at level 100, k at level 200, right associativity, only parsing) : stdpp_scope.

(** [Option::ok_or]. *)
Definition ok_or {E A} (o : option A) (e : E) : result E A :=
  match o with Some a => Ok a | None => Err e end.

(** The error type of the storage crate; the message of each error is cut to
    the part that does not depend on the run. *)
Inductive StorageError : Type :=
| IndexError (why : string)
| ArchiveError (why : string)
| InvalidFormat (why : string)
| AccessDenied (why : string)
| CacheError (why : string)
| TruncatedRead (why : string)
| ContainerLocked (why : string)
| NotFound (why : string)
| Config (why : string)
| SharedMemory (why : string).

(** ** Machine integers

    A [uN] value is a [Z] in [0, 2^N).  [wrap w] is the wrap-around of the
    explicit [wrapping_*] operations, of [as] casts and of the plain operators
    in the release profile, which has no overflow checks. *)

Definition wrap (w : Z) (x : Z) : Z := (x mod 2 ^ w)%Z.

Definition wrap8 (x : Z) : Z := wrap 8 x.
Definition wrap32 (x : Z) : Z := wrap 32 x.
Definition wrap64 (x : Z) : Z := wrap 64 x.

Definition in_u (w : Z) (x : Z) : Prop := (0 <= x < 2 ^ w)%Z.

#[export] Instance in_u_dec w x : Decision (in_u w x).
Proof. unfold in_u. apply _. Defined.

(** Decide a closed goal by evaluating its [Decision] instance. *)
Ltac decide_now := apply (bool_decide_unpack _); vm_compute; exact I.

Abbreviation u8 := (in_u 8).
Abbreviation u16 := (in_u 16).
Abbreviation u32 := (in_u 32).
Abbreviation u64 := (in_u 64).

(** [u32::rotate_left]. *)
Definition rotl32 (x n : Z) : Z :=
  Z.lor (wrap32 (Z.shiftl x n)) (Z.shiftr x (32 - n)).

Create HintDb casc.
Create Rewrite HintDb casc.

Lemma wrap_range (w x : Z) : (0 <= w)%Z -> in_u w (wrap w x).
Proof.
  intros. unfold in_u, wrap. apply Z.mod_pos_bound, Z.pow_pos_nonneg; lia.
Qed.

Lemma wrap_small (w x : Z) : in_u w x -> wrap w x = x.
Proof. intros H. unfold wrap. by apply Z.mod_small. Qed.

Lemma wrap8_range x : u8 (wrap8 x).
Proof. by apply wrap_range. Qed.

Lemma wrap32_range x : u32 (wrap32 x).
Proof. by apply wrap_range. Qed.

Lemma wrap64_range x : u64 (wrap64 x).
Proof. by apply wrap_range. Qed.

#[export] Hint Resolve wrap_range wrap8_range wrap32_range wrap64_range : casc.

Lemma testbit_u_high (w x i : Z) : in_u w x -> (0 <= w <= i)%Z -> Z.testbit x i = false.
Proof.
  intros Hx Hi. rewrite <- (wrap_small w x Hx). unfold wrap.
  apply Z.mod_pow2_bits_high. lia.
Qed.

(** A non-negative number whose bits from [w] on are clear is a [w]-bit value. *)
Lemma in_u_bits (w x : Z) :
  (0 <= w)%Z -> (0 <= x)%Z -> (forall i, (w <= i)%Z -> Z.testbit x i = false) -> in_u w x.
Proof.
  intros Hw Hx Hb. split; [done|].
  destruct (Z.eq_dec x 0%Z) as [->|Hne]; [apply Z.pow_pos_nonneg; lia|].
  apply Z.log2_lt_pow2; [lia|].
  destruct (Z.lt_ge_cases (Z.log2 x) w) as [|Hge]; [done|].
  specialize (Hb _ Hge). rewrite Z.bit_log2 in Hb; [done|lia].
Qed.

Lemma lxor_range (w x y : Z) : (0 <= w)%Z -> in_u w x -> in_u w y -> in_u w (Z.lxor x y).
Proof.
  intros Hw Hx Hy. apply in_u_bits; [done| |].
  - apply Z.lxor_nonneg. unfold in_u in *. lia.
  - intros i Hi. by rewrite Z.lxor_spec, (testbit_u_high w x), (testbit_u_high w y).
Qed.

Lemma lor_range (w x y : Z) : (0 <= w)%Z -> in_u w x -> in_u w y -> in_u w (Z.lor x y).
Proof.
  intros Hw Hx Hy. apply in_u_bits; [done| |].
  - apply Z.lor_nonneg. unfold in_u in *. lia.
  - intros i Hi. by rewrite Z.lor_spec, (testbit_u_high w x), (testbit_u_high w y).
Qed.

(** The guard word of an entry: a hash with bit 31 set. *)
Lemma guard_high h : u32 h -> u32 (Z.lor h 0x80000000) /\ Z.lor h 0x80000000 <> 0%Z.
Proof.
  intros Hh. split; [apply lor_range; [lia|done|unfold in_u; lia]|].
  intros E. apply (f_equal (fun z => Z.testbit z 31)) in E. rewrite Z.lor_spec in E.
  by rewrite orb_true_r in E.
Qed.

(** A field shifted above a narrower one: [(a << n) | b]. *)
Lemma lor_shiftl_add (a b n : Z) :
  (0 <= n)%Z -> in_u n b -> Z.lor (Z.shiftl a n) b = (a * 2 ^ n + b)%Z.
Proof.
  intros Hn Hb. rewrite <- Z.shiftl_mul_pow2 by done.
  assert (Z.land (Z.shiftl a n) b = 0%Z) as E.
  { apply Z.bits_inj'. intros i Hi. rewrite Z.land_spec, Z.bits_0.
    destruct (Z.lt_ge_cases i n).
    - by rewrite Z.shiftl_spec_low by done.
    - rewrite (testbit_u_high n b) by (done || lia). apply andb_false_r. }
  by rewrite Z.add_nocarry_lxor, Z.lxor_lor.
Qed.

Lemma land_ones_mod (x n : Z) : (0 <= n)%Z -> Z.land x (Z.ones n) = (x mod 2 ^ n)%Z.
Proof. apply Z.land_ones. Qed.

(** ** Vectors

    [v[i]], a read and an in-place update at a [u32]/[usize] index; out of
    range is a panic. *)

Definition vec_get {A} (v : list A) (i : Z) : outcome A :=
  match v !! Z.to_nat i with Some x => Ret x | None => Panic end.

Definition vec_modify {A} (v : list A) (i : Z) (f : A -> A) : outcome (list A) :=
  match v !! Z.to_nat i with
  | Some x => Ret (<[Z.to_nat i := f x]> v)
  | None => Panic
  end.

(** [Vec::pop]: the last element and the vector without it. *)
Definition vec_pop {A} (v : list A) : option (A * list A) :=
  match last v with
  | Some x => Some (x, take (length v - 1) v)
  | None => None
  end.

Lemma vec_get_Some {A} (v : list A) i x :
  v !! Z.to_nat i = Some x -> vec_get v i = Ret x.
Proof. intros H. unfold vec_get. by rewrite H. Qed.

Lemma vec_get_nat {A} (v : list A) (n : nat) x :
  v !! n = Some x -> vec_get v (Z.of_nat n) = Ret x.
Proof. intros H. apply vec_get_Some. by rewrite Nat2Z.id. Qed.

Lemma vec_modify_nat {A} (v : list A) (n : nat) x f :
  v !! n = Some x -> vec_modify v (Z.of_nat n) f = Ret (<[n := f x]> v).
Proof. intros H. unfold vec_modify. by rewrite Nat2Z.id, H. Qed.

Lemma vec_pop_snoc {A} (v : list A) x : vec_pop (v ++ [x]) = Some (x, v).
Proof.
  unfold vec_pop. rewrite last_snoc, length_app. simpl.
  replace (length v + 1 - 1) with (length v) by lia. by rewrite take_app_length.
Qed.

Lemma vec_pop_None {A} (v : list A) : vec_pop v = None <-> v = [].
Proof.
  split; [|by intros ->]. unfold vec_pop.
  destruct (last v) eqn:E; [done|]. intros _. by apply last_None.
Qed.

#[export] Hint Rewrite @vec_pop_snoc @last_snoc @length_app : casc.

(** ** Lists *)

(** The first element of a list with a given key. *)
Fixpoint find_by {A K} `{EqDecision K} (key : A -> K) (k : K) (l : list A) : option A :=
  match l with
  | [] => None
  | x :: l => if bool_decide (key x = k) then Some x else find_by key k l
  end.

Lemma find_by_app {A K} `{EqDecision K} (key : A -> K) k l1 l2 :
  find_by key k (l1 ++ l2) = match find_by key k l1 with Some x => Some x | None => find_by key k l2 end.
Proof. induction l1 as [|x l1 IH]; simpl; [done|]. by case_bool_decide. Qed.

Lemma find_by_Some {A K} `{EqDecision K} (key : A -> K) k l x :
  find_by key k l = Some x -> x ∈ l /\ key x = k.
Proof.
  induction l as [|y l IH]; simpl; [done|]. case_bool_decide.
  - intros [= <-]. split; [left|done].
  - intros H'. destruct (IH H'). split; [by right|done].
Qed.

Lemma find_by_none {A K} `{EqDecision K} (key : A -> K) k l : (forall x, x ∈ l -> key x <> k) -> find_by key k l = None.
Proof.
  induction l as [|x l IH]; intros Hl; [done|]. cbn [find_by]. rewrite bool_decide_eq_false_2 by (apply Hl; left).
  apply IH. intros y Hy. apply Hl. by right.
Qed.

Lemma find_by_intro {A K} `{EqDecision K} (key : A -> K) l x : NoDup (map key l) -> x ∈ l -> find_by key (key x) l = Some x.
Proof.
  induction l as [|y l IH]; intros Hn Hx; [by apply not_elem_of_nil in Hx|]. apply NoDup_cons in Hn as [Hy Hn]. cbn [find_by].
  apply elem_of_cons in Hx as [->|Hx]; [by rewrite bool_decide_eq_true_2|]. rewrite bool_decide_eq_false_2; [by apply IH|].
  intros E. apply Hy. rewrite E. by apply (list_elem_of_fmap_2 key).
Qed.

(** With distinct keys the order of the entries does not matter. *)
Lemma find_by_perm {A K} `{EqDecision K} (key : A -> K) k l l' : NoDup (map key l) -> l ≡ₚ l' -> find_by key k l = find_by key k l'.
Proof.
  intros Hn Hp. assert (NoDup (map key l')) as Hn' by by rewrite <- Hp.
  destruct (find_by key k l) as [x|] eqn:E.
  - apply find_by_Some in E as [Hx <-]. symmetry. apply find_by_intro; [done|]. by rewrite <- Hp.
  - destruct (find_by key k l') as [x|] eqn:E'; [|done]. apply find_by_Some in E' as [Hx <-]. rewrite <- Hp in Hx.
    by rewrite (find_by_intro key l x) in E.
Qed.

Lemma find_by_map {A B K} `{EqDecision K} (f : A -> B) (ka : A -> K) (kb : B -> K) k l :
  (forall x, kb (f x) = ka x) -> find_by kb k (map f l) = f <$> find_by ka k l.
Proof. intros Hk. induction l as [|x l IH]; [done|]. cbn [map find_by]. rewrite Hk, IH. by case_bool_decide. Qed.

(** ** Pairs of a list *)

Lemma ordpairs_snoc {A} (R : A -> A -> Prop) l x :
  ForallOrdPairs R l -> Forall (fun y => R y x) l -> ForallOrdPairs R (l ++ [x]).
Proof.
  induction 1 as [|y l Hy Hl IH]; intros Hx; simpl; [by repeat constructor|].
  apply Forall_cons in Hx as [Hyx Hx]. constructor; [|by apply IH]. apply Forall_app. by repeat constructor.
Qed.

Lemma ordpairs_perm {A} (R : A -> A -> Prop) l l' :
  (forall a b, R a b -> R b a) -> l ≡ₚ l' -> ForallOrdPairs R l -> ForallOrdPairs R l'.
Proof.
  intros Hsym. induction 1 as [|x l l' Hp IH|x y l|l1 l2 l3 H1 IH1 H2 IH2]; intros H; eauto.
  - inversion H as [|? ? Hx Hl]; subst. constructor; [by rewrite <- Hp|by apply IH].
  - inversion H as [|? ? Hy Hyl]; subst. inversion Hyl as [|? ? Hx Hl]; subst. apply Forall_cons in Hy as [Hyx Hy].
    constructor; [constructor; [by apply Hsym|done]|by constructor].
Qed.

Lemma list_snoc_cases {A} (l : list A) : l = [] \/ exists l' x, l = l' ++ [x].
Proof. induction l using rev_ind; eauto. Qed.

Lemma NoDup_snoc {A} (l : list A) x : NoDup l -> x ∉ l -> NoDup (l ++ [x]).
Proof.
  intros Hl Hx. apply NoDup_app. split_and!; [done| |apply NoDup_singleton].
  intros y Hy ->%list_elem_of_singleton. done.
Qed.

Lemma filter_all {A} (P : A -> Prop) `{!forall x, Decision (P x)} (l : list A) :
  (forall x, x ∈ l -> P x) -> filter P l = l.
Proof.
  induction l as [|x l IH]; intros Hl; [done|].
  rewrite filter_cons_True by (apply Hl; by left). f_equal. apply IH. intros y Hy.
  apply Hl. by right.
Qed.

(** Split the goal or a hypothesis on every [if] or [match] in sight. *)
Ltac casc_case :=
  repeat (case_match || case_decide); simplify_eq.

(** Close a goal with the hints of the development and linear arithmetic. *)
Ltac casc_auto := eauto with casc; try lia.

Lemma reverse_concat {A} (ls : list (list A)) : reverse (concat ls) = concat (reverse <$> reverse ls).
Proof.
  induction ls as [|l ls IH]; [done|]. simpl. rewrite reverse_app, IH, reverse_cons.
  rewrite fmap_app, concat_app. simpl. by rewrite app_nil_r.
Qed.
