(* ===== verification/Bytes.v ===== *)
(** * Byte strings

    A byte is a [Z] in [0, 256); a [Vec<u8>], a [&[u8]] and a [[u8; N]] are lists
    of them.  This file holds the standard library's integer encodings
    ([to_le_bytes], [from_be_bytes], ...), slices and [copy_from_slice] into a
    buffer, the ordering of byte arrays, hexadecimal formatting, and the lemmas
    the on-disk formats share. *)

From S2P Require Import Prelude.
Local Open Scope Z_scope.

Abbreviation bytes := (list Z).

Definition is_bytes (l : bytes) : Prop := Forall u8 l.

(** [[u8; n]]. *)
Definition is_array (n : nat) (l : bytes) : Prop := length l = n /\ is_bytes l.

#[export] Instance is_array_dec n l : Decision (is_array n l).
Proof. unfold is_array, is_bytes. apply _. Defined.

(** ** Integer encodings *)

Fixpoint to_le_bytes (n : nat) (v : Z) : bytes :=
  match n with
  | O => []
  | S n => v mod 256 :: to_le_bytes n (v / 256)
  end.

Fixpoint from_le_bytes (l : bytes) : Z :=
  match l with
  | [] => 0
  | b :: l => b + 256 * from_le_bytes l
  end.

Definition to_be_bytes (n : nat) (v : Z) : bytes := reverse (to_le_bytes n v).
Definition from_be_bytes (l : bytes) : Z := from_le_bytes (reverse l).

(** Two's complement, for the [i32] fields. *)
Definition i32 (x : Z) : Prop := - 2 ^ 31 <= x < 2 ^ 31.
Definition i32_to_u32 (x : Z) : Z := wrap32 x.
Definition u32_to_i32 (x : Z) : Z := if x <? 2 ^ 31 then x else x - 2 ^ 32.

Lemma length_to_le_bytes n v : length (to_le_bytes n v) = n.
Proof. revert v. induction n; simpl; auto. Qed.

Lemma length_to_be_bytes n v : length (to_be_bytes n v) = n.
Proof. unfold to_be_bytes. by rewrite length_reverse, length_to_le_bytes. Qed.

#[export] Hint Rewrite length_to_le_bytes length_to_be_bytes : casc.

Lemma to_le_bytes_bytes n v : is_bytes (to_le_bytes n v).
Proof.
  revert v. induction n; intros v; simpl; constructor; [|apply IHn].
  apply (wrap_range 8 v). lia.
Qed.

Lemma to_be_bytes_bytes n v : is_bytes (to_be_bytes n v).
Proof. apply Forall_reverse, to_le_bytes_bytes. Qed.

Lemma from_to_le_bytes n v : from_le_bytes (to_le_bytes n v) = v mod 256 ^ Z.of_nat n.
Proof.
  revert v. induction n as [|n IH]; intros v; cbn [to_le_bytes from_le_bytes].
  - by rewrite Z.mod_1_r.
  - rewrite IH, Nat2Z.inj_succ, Z.pow_succ_r by lia.
    rewrite (Z.rem_mul_r v 256 (256 ^ Z.of_nat n)); [lia|lia|].
    apply Z.pow_pos_nonneg; lia.
Qed.

Lemma from_le_bytes_range l : is_bytes l -> 0 <= from_le_bytes l < 256 ^ Z.of_nat (length l).
Proof.
  induction 1 as [|b l Hb Hl IH]; cbn [from_le_bytes length]; [lia|].
  rewrite Nat2Z.inj_succ, Z.pow_succ_r by lia. unfold in_u in Hb. lia.
Qed.

Lemma from_le_bytes_app l1 l2 :
  from_le_bytes (l1 ++ l2) = from_le_bytes l1 + 256 ^ Z.of_nat (length l1) * from_le_bytes l2.
Proof.
  induction l1 as [|b l1 IH]; cbn [app from_le_bytes length]; [rewrite Z.pow_0_r; lia|].
  rewrite IH, Nat2Z.inj_succ, Z.pow_succ_r by lia. lia.
Qed.

Lemma to_from_le_bytes l : is_bytes l -> to_le_bytes (length l) (from_le_bytes l) = l.
Proof.
  induction 1 as [|b l Hb Hl IH]; cbn [to_le_bytes from_le_bytes length]; [done|].
  unfold in_u in Hb. change (2 ^ 8) with 256 in Hb.
  rewrite (Z.mul_comm 256), Z_mod_plus_full, Z.mod_small by lia.
  rewrite Z.div_add, Z.div_small, Z.add_0_l by lia. by rewrite IH.
Qed.

(** The forms used by the formats: fixed widths. *)
Lemma le_roundtrip n w v :
  (w = 8 * Z.of_nat n)%Z -> in_u w v -> from_le_bytes (to_le_bytes n v) = v.
Proof.
  intros -> [H1 H2]. rewrite from_to_le_bytes. apply Z.mod_small. split; [done|].
  rewrite Z.pow_mul_r in H2 by lia. by change (2 ^ 8) with 256 in H2.
Qed.

Lemma be_roundtrip n w v :
  (w = 8 * Z.of_nat n)%Z -> in_u w v -> from_be_bytes (to_be_bytes n v) = v.
Proof.
  intros. unfold from_be_bytes, to_be_bytes. rewrite reverse_involutive.
  by apply (le_roundtrip n w).
Qed.

Lemma from_le_bytes_in_u n w l :
  (w = 8 * Z.of_nat n)%Z -> is_array n l -> in_u w (from_le_bytes l).
Proof.
  intros -> [Hn Hl]. apply from_le_bytes_range in Hl. rewrite Hn in Hl.
  unfold in_u. rewrite Z.pow_mul_r by lia. by change (2 ^ 8) with 256.
Qed.

Lemma from_be_bytes_in_u n w l :
  (w = 8 * Z.of_nat n)%Z -> is_array n l -> in_u w (from_be_bytes l).
Proof.
  intros Hw [Hn Hl]. apply (from_le_bytes_in_u n); [done|]. split.
  - by rewrite length_reverse.
  - by apply Forall_reverse.
Qed.

Lemma i32_roundtrip x : i32 x -> u32_to_i32 (i32_to_u32 x) = x.
Proof.
  unfold i32, i32_to_u32, wrap32, wrap, u32_to_i32. intros H.
  destruct (Z.lt_ge_cases x 0).
  - assert (x mod 2 ^ 32 = x + 2 ^ 32) as ->.
    { symmetry. apply (Z.mod_unique _ _ (-1)); lia. }
    case_match; lia.
  - rewrite Z.mod_small by lia. case_match; lia.
Qed.

(** ** Slices *)

(** [&l[a..b]], for [a <= b <= l.len()]. *)
Definition slice (a b : nat) (l : bytes) : bytes := take (b - a) (drop a l).

(** [l[a..a + x.len()].copy_from_slice(x)]. *)
Definition copy_at (a : nat) (x : bytes) (l : bytes) : bytes :=
  take a l ++ x ++ drop (a + length x) l.

(** [[0u8; n]]. *)
Definition zeros (n : nat) : bytes := replicate n 0.

Lemma length_slice a b l : (b <= length l)%nat -> length (slice a b l) = (b - a)%nat.
Proof. intros. unfold slice. rewrite length_take, length_drop. lia. Qed.

Lemma length_copy_at a x l : (a + length x <= length l)%nat -> length (copy_at a x l) = length l.
Proof.
  intros. unfold copy_at. rewrite !length_app, length_take, length_drop. lia.
Qed.

Lemma zeros_bytes n : is_bytes (zeros n).
Proof. apply Forall_replicate. done. Qed.

Lemma length_zeros n : length (zeros n) = n.
Proof. apply length_replicate. Qed.

Lemma is_bytes_app l1 l2 : is_bytes (l1 ++ l2) <-> is_bytes l1 /\ is_bytes l2.
Proof. apply Forall_app. Qed.

Lemma is_bytes_take n l : is_bytes l -> is_bytes (take n l).
Proof. apply Forall_take. Qed.

Lemma is_bytes_drop n l : is_bytes l -> is_bytes (drop n l).
Proof. apply Forall_drop. Qed.

Lemma slice_bytes a b l : is_bytes l -> is_bytes (slice a b l).
Proof. intros. by apply is_bytes_take, is_bytes_drop. Qed.

#[export] Hint Resolve to_le_bytes_bytes to_be_bytes_bytes zeros_bytes slice_bytes
  is_bytes_take is_bytes_drop : casc.
#[export] Hint Rewrite length_zeros : casc.

Lemma drop_app_ge' {A} (l1 l2 : list A) n :
  (length l1 <= n)%nat -> drop n (l1 ++ l2) = drop (n - length l1) l2.
Proof. apply drop_app_ge. Qed.

Lemma slice_app_r a b l1 l2 :
  (length l1 <= a)%nat -> slice a b (l1 ++ l2) = slice (a - length l1) (b - length l1) l2.
Proof.
  intros. unfold slice. rewrite drop_app_ge by lia. f_equal. lia.
Qed.

Lemma slice_app_exact b l1 l2 : b = length l1 -> slice 0 b (l1 ++ l2) = l1.
Proof. intros ->. unfold slice. rewrite drop_0, Nat.sub_0_r. by apply take_app_length. Qed.

(** Writing a whole row of equal blocks over a zeroed buffer. *)
Lemma copy_at_exact l1 l2 l3 x :
  length x = length l2 -> copy_at (length l1) x (l1 ++ l2 ++ l3) = l1 ++ x ++ l3.
Proof.
  intros Hx. unfold copy_at. rewrite take_app_length, Hx.
  f_equal. f_equal. rewrite drop_app_add. by rewrite drop_app_length.
Qed.

Lemma zeros_add n m : zeros (n + m) = zeros n ++ zeros m.
Proof. apply replicate_add. Qed.

(** ** Arrays of a known length

    [explode H] turns a list whose length is a numeral into an explicit list of
    variables, after which layouts compute. *)

Lemma length_S_cons {A} (l : list A) n : length l = S n -> exists x l', l = x :: l' /\ length l' = n.
Proof. destruct l; simpl; intros; [done|]. eauto. Qed.

Ltac explode H :=
  lazymatch type of H with
  | length ?l = O => apply nil_length_inv in H; subst l
  | length ?l = S _ =>
      let x := fresh "b" in let l' := fresh "l" in
      apply length_S_cons in H; destruct H as (x & l' & -> & H); explode H
  end.

Ltac explode_array H :=
  let Hl := fresh "Hlen" in let Hb := fresh "Hb" in
  destruct H as [Hl Hb]; explode Hl.

(** ** Order of byte arrays: [Ord for [u8; N]], lexicographic. *)

Fixpoint lex_compare (a b : bytes) : comparison :=
  match a, b with
  | [], [] => Eq
  | [], _ :: _ => Lt
  | _ :: _, [] => Gt
  | x :: a, y :: b =>
      match Z.compare x y with Eq => lex_compare a b | c => c end
  end.

Definition lex_lt (a b : bytes) : Prop := lex_compare a b = Lt.
Definition lex_le (a b : bytes) : Prop := lex_compare a b <> Gt.

#[export] Instance lex_lt_dec a b : Decision (lex_lt a b).
Proof. unfold lex_lt. apply _. Defined.

Lemma lex_compare_refl a : lex_compare a a = Eq.
Proof. induction a as [|x a IH]; simpl; [done|]. by rewrite Z.compare_refl. Qed.

Lemma lex_compare_eq a b : lex_compare a b = Eq <-> a = b.
Proof.
  split; [|intros ->; apply lex_compare_refl].
  revert b. induction a as [|x a IH]; intros [|y b]; simpl; try done.
  destruct (Z.compare_spec x y); try done. subst. intros. f_equal. auto.
Qed.

Lemma lex_compare_antisym a b : lex_compare b a = CompOpp (lex_compare a b).
Proof.
  revert b. induction a as [|x a IH]; intros [|y b]; simpl; try done.
  rewrite (Z.compare_antisym x y). destruct (Z.compare x y); simpl; auto.
Qed.

Lemma lex_lt_trans a b c : lex_lt a b -> lex_lt b c -> lex_lt a c.
Proof.
  unfold lex_lt. revert b c.
  induction a as [|x a IH]; intros [|y b] [|z c]; simpl; try done.
  destruct (Z.compare_spec x y), (Z.compare_spec y z); subst; try done; intros.
  - rewrite Z.compare_refl. eauto.
  - by rewrite (proj2 (Z.compare_lt_iff _ _)) by lia.
  - by rewrite (proj2 (Z.compare_lt_iff _ _)) by lia.
  - by rewrite (proj2 (Z.compare_lt_iff _ _)) by lia.
Qed.

Lemma lex_lt_irrefl a : ~ lex_lt a a.
Proof. unfold lex_lt. by rewrite lex_compare_refl. Qed.

Lemma lex_lt_gt a b : lex_compare a b = Gt <-> lex_lt b a.
Proof.
  unfold lex_lt. rewrite (lex_compare_antisym a b). destruct (lex_compare a b); done.
Qed.

Lemma lex_trichotomy a b : lex_lt a b \/ a = b \/ lex_lt b a.
Proof.
  destruct (lex_compare a b) eqn:E.
  - right; left. by apply lex_compare_eq.
  - by left.
  - right; right. by apply lex_lt_gt.
Qed.

Lemma lex_le_lt_eq a b : lex_le a b <-> lex_lt a b \/ a = b.
Proof.
  unfold lex_le, lex_lt. rewrite <- lex_compare_eq. destruct (lex_compare a b); intuition congruence.
Qed.

#[export] Hint Resolve lex_lt_trans lex_lt_irrefl : casc.

(** ** Hexadecimal text, as bytes of ASCII. *)

(** One lower-case digit of [{:x}]. *)
Definition hex_digit (d : Z) : Z := if d <? 10 then 48 + d else 87 + d.

(** [{b:02x}] of a byte. *)
Definition hex_byte (b : Z) : bytes := [hex_digit (b / 16); hex_digit (b mod 16)].

(** [{v:0Nx}] with [N = 2 * n] of an [8 * n]-bit value. *)
Definition hex_be (n : nat) (v : Z) : bytes := concat (map hex_byte (to_be_bytes n v)).

(** [char::to_digit(16)]. *)
Definition digit_val (c : Z) : option Z :=
  if (48 <=? c) && (c <=? 57) then Some (c - 48)
  else if (97 <=? c) && (c <=? 102) then Some (c - 87)
  else if (65 <=? c) && (c <=? 70) then Some (c - 55)
  else None.

Lemma digit_val_hex_digit d : 0 <= d < 16 -> digit_val (hex_digit d) = Some d.
Proof.
  intros. unfold hex_digit, digit_val.
  destruct (Z.ltb_spec d 10).
  - rewrite (proj2 (Z.leb_le 48 (48 + d))), (proj2 (Z.leb_le (48 + d) 57)) by lia.
    simpl. f_equal. lia.
  - rewrite (proj2 (Z.leb_gt (87 + d) 57)) by lia. rewrite andb_false_r.
    rewrite (proj2 (Z.leb_le 97 (87 + d))), (proj2 (Z.leb_le (87 + d) 102)) by lia.
    simpl. f_equal. lia.
Qed.

(** ** Rows of equal blocks *)

Definition blocks_of (k : nat) (bs : list bytes) : Prop := Forall (fun b => length b = k) bs.

Lemma length_concat_blocks k bs : blocks_of k bs -> length (concat bs) = (length bs * k)%nat.
Proof. induction 1 as [|b bs Hb Hbs IH]; simpl; [done|]. rewrite length_app. lia. Qed.

Lemma slice_concat k bs i b :
  blocks_of k bs -> bs !! i = Some b -> slice (i * k) (i * k + k) (concat bs) = b.
Proof.
  intros Hbs. revert i. induction Hbs as [|b' bs Hb Hbs IH]; intros [|i]; simpl; try done.
  - intros [= ->]. apply slice_app_exact. lia.
  - intros Hi. rewrite slice_app_r by lia.
    replace (k + i * k - length b')%nat with (i * k)%nat by lia.
    replace (k + i * k + k - length b')%nat with (i * k + k)%nat by lia. auto.
Qed.

(** Reading block after block behind a prefix gives the blocks back. *)
Lemma map_slices {A} (f : bytes -> A) (k off n : nat) hd bs tl :
  length hd = off -> blocks_of k bs -> n = length bs ->
  map (fun i => f (slice (off + i * k) (off + i * k + k) (hd ++ concat bs ++ tl))) (seq 0 n) =
  map f bs.
Proof.
  intros Hhd Hbs ->. apply list_eq. intros i.
  rewrite !list_lookup_fmap. destruct (bs !! i) as [b|] eqn:E.
  - pose proof (lookup_lt_Some _ _ _ E) as Hi. rewrite lookup_seq_lt by done. simpl. do 2 f_equal.
    rewrite slice_app_r by lia. replace (off + i * k - length hd)%nat with (i * k)%nat by lia.
    replace (off + i * k + k - length hd)%nat with (i * k + k)%nat by lia.
    rewrite <- (slice_concat k bs i b) by done.
    unfold slice. replace (i * k + k - i * k)%nat with k by lia.
    assert (i * k + k <= length (concat bs))%nat as Hle.
    { rewrite (length_concat_blocks k) by done. nia. }
    rewrite drop_app_le by lia. rewrite take_app_le; [done|]. rewrite length_drop. lia.
  - apply lookup_ge_None in E. by rewrite lookup_seq_ge by lia.
Qed.

(** Copying row after row into a zeroed buffer lays the rows side by side. *)
Lemma copy_rows {A} (f : A -> bytes) (k n : nat) (l : list A) :
  Forall (fun x => length (f x) = k) l -> (length l * k <= n)%nat ->
  fold_left (fun buf '(i, x) => copy_at (i * k)%nat (f x) buf) (imap pair l) (zeros n) =
  concat (map f l) ++ zeros (n - length l * k).
Proof.
  intros Hl Hn. induction l as [|x l IH] using rev_ind; [simpl; by rewrite Nat.sub_0_r|].
  apply Forall_app in Hl as [Hl [Hx _]%Forall_cons]. rewrite length_app in *. simpl in Hn.
  rewrite imap_app, fold_left_app, IH by (done || lia). simpl. rewrite Nat.add_0_r.
  assert (length (concat (map f l)) = length l * k)%nat as L.
  { rewrite (length_concat_blocks k), length_map; [done|]. by apply Forall_map. }
  replace (n - length l * k)%nat with (k + (n - (length l + 1) * k))%nat by lia.
  rewrite zeros_add, <- L, copy_at_exact by (by rewrite length_zeros).
  rewrite map_app, concat_app. simpl. by rewrite app_nil_r, <- app_assoc.
Qed.

Lemma is_bytes_concat bs : Forall is_bytes bs -> is_bytes (concat bs).
Proof. induction 1; simpl; [constructor|]. by apply Forall_app. Qed.

(** ** Folded bytes *)

Lemma fold_xor_range l x : u8 x -> is_bytes l -> u8 (fold_left Z.lxor l x).
Proof.
  intros Hx Hl. revert x Hx. induction Hl as [|b l Hb Hl IH]; intros x Hx; simpl; [done|].
  apply IH. by apply lxor_range.
Qed.

Lemma fold_xor_start l x : fold_left Z.lxor l x = Z.lxor x (fold_left Z.lxor l 0).
Proof.
  revert x. induction l as [|b l IH]; intros x; simpl; [by rewrite Z.lxor_0_r|].
  rewrite IH, (IH (Z.lxor 0 b)), Z.lxor_0_l. apply Z.lxor_assoc.
Qed.

(** ** Layout automation

    A record written field by field into a zeroed buffer and read back at the
    same offsets.  [abs_ints] replaces every encoded integer of the goal by an
    explicit list of byte variables together with the equation that decodes it;
    [layout] then evaluates buffers and slices. *)

Ltac abs_ints :=
  repeat match goal with
  | |- context [to_le_bytes ?n ?x] =>
      let E := fresh "E" in let L := fresh "L" in let B := fresh "B" in
      assert (from_le_bytes (to_le_bytes n x) = x) as E
        by (eapply le_roundtrip; [|eassumption]; reflexivity);
      pose proof (length_to_le_bytes n x) as L;
      pose proof (to_le_bytes_bytes n x) as B;
      revert E L B; generalize (to_le_bytes n x); intros ? E L B; explode L
  | |- context [to_be_bytes ?n ?x] =>
      let E := fresh "E" in let L := fresh "L" in let B := fresh "B" in
      assert (from_be_bytes (to_be_bytes n x) = x) as E
        by (eapply be_roundtrip; [|eassumption]; reflexivity);
      pose proof (length_to_be_bytes n x) as L;
      pose proof (to_be_bytes_bytes n x) as B;
      revert E L B; generalize (to_be_bytes n x); intros ? E L B; explode L
  end.

Ltac layout :=
  cbv [slice copy_at take drop app length replicate zeros Nat.add Nat.sub nth firstn skipn].

(** ** [str::from_utf8]: which byte strings are text. *)

Definition in_rng (lo hi b : Z) : bool := (lo <=? b) && (b <=? hi).
Definition is_cont (b : Z) : bool := in_rng 128 191 b.

Fixpoint utf8_valid (l : bytes) : bool :=
  match l with
  | [] => true
  | a :: l1 =>
      if a <? 128 then utf8_valid l1
      else match l1 with
      | [] => false
      | b :: l2 =>
          if in_rng 194 223 a && is_cont b then utf8_valid l2
          else match l2 with
          | [] => false
          | c :: l3 =>
              if is_cont c &&
                 ((a =? 224) && in_rng 160 191 b || in_rng 225 236 a && is_cont b ||
                  (a =? 237) && in_rng 128 159 b || in_rng 238 239 a && is_cont b)
              then utf8_valid l3
              else match l3 with
              | [] => false
              | d :: l4 =>
                  if is_cont c && is_cont d &&
                     ((a =? 240) && in_rng 144 191 b || in_rng 241 243 a && is_cont b ||
                      (a =? 244) && in_rng 128 143 b)
                  then utf8_valid l4 else false
              end
          end
      end
  end.

Lemma utf8_valid_ascii l : Forall (fun b => b < 128) l -> utf8_valid l = true.
Proof.
  induction 1 as [|b l Hb Hl IH]; simpl; [done|]. by rewrite (proj2 (Z.ltb_lt b 128)).
Qed.
