(* ===== verification/Text.v ===== *)
(** * Text

    Characters as code points, decimal and hexadecimal numbers, and the character
    classes the text formats and file names use. *)

From S2P Require Import Prelude Bytes.
Local Open Scope Z_scope.

(** ** Decimal numbers *)

(** The decimal digits of a number below 10^fuel, in front of [acc]. *)
Fixpoint decimal (fuel : nat) (n : Z) (acc : bytes) : bytes :=
  match fuel with
  | O => acc
  | S fuel => if n <? 10 then (48 + n) :: acc else decimal fuel (n / 10) ((48 + n mod 10) :: acc)
  end.

(** [{n}] of an unsigned number of at most 64 bits. *)
Definition show (n : Z) : bytes := decimal 20 n [].

Definition parse_decimal (s : bytes) : Z := fold_left (fun acc c => acc * 10 + (c - 48)) s 0.

Definition is_digit (c : Z) : bool := in_rng 48 57 c.
Definition is_alnum (c : Z) : bool := is_digit c || in_rng 65 90 c || in_rng 97 122 c.
Definition is_hexdigit (c : Z) : bool := is_digit c || in_rng 65 70 c || in_rng 97 102 c.

Lemma decimal_value fuel n acc :
  0 <= n < 10 ^ Z.of_nat fuel ->
  fold_left (fun a c => a * 10 + (c - 48)) (decimal fuel n acc) 0 = fold_left (fun a c => a * 10 + (c - 48)) acc n.
Proof.
  revert n acc. induction fuel as [|fuel IH]; intros n acc Hn; cbn [decimal].
  { change (10 ^ Z.of_nat 0) with 1 in Hn. f_equal. lia. }
  rewrite Nat2Z.inj_succ, Z.pow_succ_r in Hn by lia. destruct (n <? 10) eqn:E.
  - cbn [fold_left]. f_equal. lia.
  - apply Z.ltb_ge in E. rewrite IH.
    + cbn [fold_left]. f_equal. pose proof (Z.div_mod n 10 ltac:(lia)). lia.
    + split; [apply Z.div_pos; lia|]. apply Z.div_lt_upper_bound; lia.
Qed.

Lemma show_value n : 0 <= n < 2 ^ 64 -> parse_decimal (show n) = n.
Proof. intros Hn. apply (decimal_value 20). change (10 ^ Z.of_nat 20) with 100000000000000000000. lia. Qed.

Lemma decimal_digits fuel n acc : 0 <= n -> Forall (fun c => is_digit c = true) acc -> Forall (fun c => is_digit c = true) (decimal fuel n acc).
Proof.
  assert (forall d, 0 <= d < 10 -> is_digit (48 + d) = true) as Hd.
  { intros d Hd. unfold is_digit, in_rng. apply andb_true_iff. lia. }
  revert n acc. induction fuel as [|fuel IH]; intros n acc Hn Ha; cbn [decimal]; [done|]. destruct (Z.ltb_spec n 10).
  - constructor; [apply Hd; lia|done].
  - apply IH; [apply Z.div_pos; lia|]. constructor; [|done]. apply Hd. apply Z.mod_pos_bound. lia.
Qed.

Lemma show_digits n : 0 <= n -> Forall (fun c => is_digit c = true) (show n).
Proof. intros Hn. apply decimal_digits; [done|constructor]. Qed.

Lemma show_cons n : exists c l, show n = c :: l.
Proof.
  assert (forall fuel n acc, acc <> [] -> decimal fuel n acc <> []) as H.
  { intros fuel. induction fuel as [|fuel IH]; intros m acc Ha; cbn [decimal]; [done|]. destruct (m <? 10); [done|]. by apply IH. }
  unfold show. cbn [decimal]. destruct (n <? 10); [eauto|]. fold (decimal 19).
  match goal with |- context [if ?b then ?x else ?y] => destruct b; [eauto|] end.
  match goal with |- exists c l, ?t = _ => destruct t as [|c l] eqn:E; [|eauto] end. exfalso. revert E.
  match goal with |- ?t = [] -> False => change (t <> []) end. repeat (destruct (_ <? 10); [done|]); done.
Qed.

(** ** Hexadecimal strings *)

(** [hex::encode] and [hex::decode]. *)
Definition hex_encode (l : bytes) : bytes := concat (map hex_byte l).

Fixpoint hex_decode (s : bytes) : option bytes :=
  match s with
  | [] => Some []
  | a :: b :: s => x ← digit_val a; y ← digit_val b; l ← hex_decode s; Some (x * 16 + y :: l)
  | [_] => None
  end.

Lemma hex_roundtrip l : is_bytes l -> hex_decode (hex_encode l) = Some l.
Proof.
  intros H. induction H as [|b l Hb _ IH]; [done|]. unfold hex_encode in *. cbn [map concat hex_byte app hex_decode].
  unfold in_u in Hb. assert (0 <= b / 16 < 16) by (split; [apply Z.div_pos; lia|apply Z.div_lt_upper_bound; lia]).
  pose proof (Z.mod_pos_bound b 16 ltac:(lia)). rewrite !digit_val_hex_digit by lia. cbn. rewrite IH. cbn. do 2 f_equal.
  pose proof (Z.div_mod b 16 ltac:(lia)). lia.
Qed.

Lemma length_hex_encode l : length (hex_encode l) = (2 * length l)%nat.
Proof. induction l as [|b l IH]; [done|]. unfold hex_encode in *. cbn [map concat hex_byte app length]. lia. Qed.

Lemma hex_encode_digits l : is_bytes l -> Forall (fun c => is_hexdigit c = true) (hex_encode l).
Proof.
  assert (forall d, 0 <= d < 16 -> is_hexdigit (hex_digit d) = true) as Hd.
  { intros d Hd. assert (forallb (fun i => is_hexdigit (hex_digit (Z.of_nat i))) (seq 0 16) = true) as H by (by vm_compute).
    rewrite forallb_forall in H. specialize (H (Z.to_nat d) ltac:(apply List.in_seq; lia)). by rewrite Z2Nat.id in H by lia. }
  intros H. induction H as [|b l Hb _ IH]; [constructor|]. unfold hex_encode in *. cbn [map concat hex_byte app]. unfold in_u in Hb.
  assert (0 <= b / 16 < 16) by (split; [apply Z.div_pos; lia|apply Z.div_lt_upper_bound; lia]). pose proof (Z.mod_pos_bound b 16 ltac:(lia)).
  constructor; [by apply Hd|]. constructor; [by apply Hd|done].
Qed.

Lemma hex_decode_bytes s l : hex_decode s = Some l -> is_bytes l /\ length s = (2 * length l)%nat.
Proof.
  assert (forall c d, digit_val c = Some d -> 0 <= d < 16) as Hd.
  { intros c d. unfold digit_val. repeat match goal with |- context [if ?b then _ else _] => destruct b eqn:? end; intros [= <-];
      repeat match goal with H : _ && _ = true |- _ => apply andb_true_iff in H as [?%Z.leb_le ?%Z.leb_le] end; lia. }
  revert s l. fix IH 1. intros [|a [|b s]] l; [intros [= <-]; split; [constructor|done]|done|]. cbn [hex_decode].
  destruct (digit_val a) as [x|] eqn:Ea; [|done]. destruct (digit_val b) as [y|] eqn:Eb; [|done]. cbn.
  destruct (hex_decode s) as [l'|] eqn:Es; [|done]. cbn. intros [= <-]. destruct (IH s l' Es) as [Hb Hl].
  pose proof (Hd a x Ea). pose proof (Hd b y Eb). split; [|simpl; lia]. constructor; [unfold in_u; lia|done].
Qed.

Lemma hex_decode_some s : Forall (fun c => is_hexdigit c = true) s -> Nat.Even (length s) -> exists l, hex_decode s = Some l.
Proof.
  assert (forall c, is_hexdigit c = true -> exists d, digit_val c = Some d) as Hd.
  { intros c. unfold is_hexdigit, is_digit, in_rng, digit_val. destruct ((48 <=? c) && (c <=? 57)); [eauto|]. cbn [orb].
    destruct ((97 <=? c) && (c <=? 102)); [eauto|]. rewrite orb_false_r. intros ->. eauto. }
  revert s. fix IH 1. intros [|a [|b s]] Hs He; [by exists []|destruct He; simpl in *; lia|]. cbn [hex_decode].
  apply Forall_cons in Hs as [Ha Hs]. apply Forall_cons in Hs as [Hb Hs]. destruct (Hd a Ha) as [x ->]. destruct (Hd b Hb) as [y ->]. cbn.
  destruct (IH s Hs) as [l ->]; [|cbn; eauto]. destruct He as [k Hk]. exists (pred k). simpl in Hk. lia.
Qed.
