(* ===== verification/Utf8.v ===== *)
(** * [String::from_utf8_lossy]

    Every maximal invalid sequence is replaced by U+FFFD; valid text is unchanged. *)

From S2P Require Import Prelude Bytes.
Local Open Scope Z_scope.

Definition REPLACEMENT : bytes := [239; 191; 189].

(** Which second bytes follow a first byte of a sequence of three or of four. *)
Definition second3 (a b : Z) : bool :=
  (a =? 224) && in_rng 160 191 b || in_rng 225 236 a && is_cont b || (a =? 237) && in_rng 128 159 b || in_rng 238 239 a && is_cont b.

Definition second4 (a b : Z) : bool :=
  (a =? 240) && in_rng 144 191 b || in_rng 241 243 a && is_cont b || (a =? 244) && in_rng 128 143 b.

(** [safe_get]: zero behind the end. *)
Definition safe_get (i : nat) (l : bytes) : Z := nth i l 0.

(** One step of the decoder: whether the sequence at the front is valid, and how many
    bytes it takes; an invalid sequence ends before the first byte that does not fit. *)
Definition utf8_step (a : Z) (l : bytes) : bool * nat :=
  let b := safe_get 0 l in let c := safe_get 1 l in let d := safe_get 2 l in
  if a <? 128 then (true, 1%nat)
  else if in_rng 194 223 a then if is_cont b then (true, 2%nat) else (false, 1%nat)
  else if in_rng 224 239 a then
    if negb (second3 a b) then (false, 1%nat) else if is_cont c then (true, 3%nat) else (false, 2%nat)
  else if in_rng 240 244 a then
    if negb (second4 a b) then (false, 1%nat)
    else if negb (is_cont c) then (false, 2%nat) else if is_cont d then (true, 4%nat) else (false, 3%nat)
  else (false, 1%nat).

Fixpoint lossy (fuel : nat) (l : bytes) : bytes :=
  match fuel, l with
  | O, _ | _, [] => []
  | S fuel, a :: l' =>
      let '(valid, n) := utf8_step a l' in
      (if valid then take n l else REPLACEMENT) ++ lossy fuel (drop n l)
  end.

Definition from_utf8_lossy (l : bytes) : bytes := lossy (length l) l.

(** Valid text, read one sequence after the other. *)
Lemma utf8_valid_step a l :
  utf8_valid (a :: l) = true -> exists n, utf8_step a l = (true, n) /\ (1 <= n <= S (length l))%nat /\ utf8_valid (drop n (a :: l)) = true.
Proof.
  cbn [utf8_valid]. unfold utf8_step. destruct (a <? 128) eqn:Ea; [intros H; exists 1%nat; split_and!; [done|lia|simpl; lia|done]|].
  apply Z.ltb_ge in Ea. destruct l as [|b l2]; [done|].
  assert (forall x, safe_get 0 (b :: x) = b /\ (forall i, safe_get (S i) (b :: x) = safe_get i x)) as Hg by (by intros).
  destruct (Hg l2) as [-> Hs]. rewrite !Hs. clear Hg Hs.
  destruct (in_rng 194 223 a) eqn:E2.
  { assert (second3 a b = false /\ second4 a b = false) as [S3 S4].
    { unfold in_rng in E2. apply andb_true_iff in E2 as [? ?]. unfold second3, second4, in_rng.
      rewrite (proj2 (Z.leb_gt 225 a)), (proj2 (Z.leb_gt 238 a)), (proj2 (Z.leb_gt 241 a)) by lia.
      rewrite !(proj2 (Z.eqb_neq a _)) by lia. done. }
    rewrite andb_true_l. intros H. exists 2%nat.
    assert (is_cont b = true) as Eb.
    { destruct l2 as [|c l3]; [by destruct (is_cont b)|]. fold (second3 a b) in H. rewrite S3, andb_false_r in H.
      destruct l3 as [|d l4]; [by destruct (is_cont b)|]. fold (second4 a b) in H. rewrite S4, andb_false_r in H. by destruct (is_cont b). }
    rewrite Eb in H |- *. split_and!; [done|lia|simpl; lia|done]. }
  cbn [andb]. destruct l2 as [|c l3]; [done|]. fold (second3 a b).
  change (safe_get 0 (c :: l3)) with c. change (safe_get 1 (c :: l3)) with (safe_get 0 l3).
  destruct (in_rng 224 239 a) eqn:E3.
  { assert (second4 a b = false) as S4.
    { unfold second4, in_rng in *. apply andb_true_iff in E3 as [? ?]. rewrite !(proj2 (Z.eqb_neq a _)), (proj2 (Z.leb_gt 241 a)) by lia. done. }
    destruct (second3 a b) eqn:S3; cbn [negb].
    - rewrite andb_true_r. destruct (is_cont c) eqn:Ec; [intros H; exists 3%nat; split_and!; [done|lia|simpl; lia|done]|].
      destruct l3 as [|d l4]; [done|]. fold (second4 a b). by rewrite S4, andb_false_r.
    - rewrite andb_false_r. destruct l3 as [|d l4]; [done|]. fold (second4 a b). by rewrite S4, andb_false_r. }
  assert (second3 a b = false) as S3.
  { unfold second3, in_rng in *. apply andb_false_iff in E3. destruct (Z.eqb_spec a 224), (Z.eqb_spec a 237); subst; [destruct E3; lia..|].
    destruct (Z.leb_spec 225 a), (Z.leb_spec a 236), (Z.leb_spec 238 a), (Z.leb_spec a 239); simpl; try done; destruct E3; lia. }
  rewrite S3, andb_false_r. destruct l3 as [|d l4]; [done|]. fold (second4 a b). change (safe_get 0 (d :: l4)) with d.
  destruct (second4 a b) eqn:S4; [|by rewrite andb_false_r]. rewrite andb_true_r.
  assert (in_rng 240 244 a = true) as ->.
  { unfold second4, in_rng in *. destruct (Z.eqb_spec a 240), (Z.eqb_spec a 244); subst; [done..|]. rewrite andb_false_l, orb_false_r, orb_false_l in S4.
    apply andb_true_iff in S4 as [S4 _]. apply andb_true_iff in S4 as [? ?]. apply andb_true_iff. lia. }
  cbn [negb]. destruct (is_cont c); [|done]. cbn [negb andb]. destruct (is_cont d); [|done].
  intros H. exists 4%nat. split_and!; [done|lia|simpl; lia|done].
Qed.

Lemma lossy_valid fuel l : (length l <= fuel)%nat -> utf8_valid l = true -> lossy fuel l = l.
Proof.
  revert l. induction fuel as [|fuel IH]; intros [|a l] Hf Hv; [done|simpl in Hf; lia|done|]. cbn [lossy].
  destruct (utf8_valid_step a l Hv) as (n & -> & Hn & Hrest). rewrite IH; [apply take_drop| |done].
  rewrite length_drop. simpl in *. lia.
Qed.

Lemma from_utf8_lossy_valid l : utf8_valid l = true -> from_utf8_lossy l = l.
Proof. apply lossy_valid. done. Qed.

Lemma second_nul a : second3 a 0 = false /\ second4 a 0 = false.
Proof. unfold second3, second4. change (is_cont 0) with false. cbn -[Z.eqb in_rng]. change (in_rng _ _ 0) with false. by rewrite !andb_false_r. Qed.

(** A NUL is a character of its own: it does not cut a sequence. *)
Lemma utf8_valid_nul l1 l2 : utf8_valid (l1 ++ 0 :: l2) = true -> utf8_valid l1 = true /\ utf8_valid l2 = true.
Proof.
  remember (length l1) as n eqn:En. revert l1 En. induction (lt_wf n) as [n _ IH]. intros l1 ->.
  assert (forall l1', (length l1' < length l1)%nat -> utf8_valid (l1' ++ 0 :: l2) = true -> utf8_valid l1' = true /\ utf8_valid l2 = true) as IH'
    by (intros l1' Hl; by apply (IH (length l1'))). clear IH.
  destruct l1 as [|a l1]; [done|]. cbn [app utf8_valid]. destruct (a <? 128); [apply IH'; simpl; lia|].
  destruct l1 as [|b l1]; cbn [app].
  { assert (is_cont 0 = false) as Ec by done. destruct (in_rng 194 223 a && is_cont 0) eqn:E2; [by rewrite Ec, andb_false_r in E2|].
    destruct (second_nul a) as [E3 E4].
    destruct l2 as [|c l2]; [done|]. fold (second3 a 0). rewrite E3, andb_false_r.
    destruct l2 as [|d l2]; [done|]. fold (second4 a 0). by rewrite E4, andb_false_r. }
  destruct (in_rng 194 223 a && is_cont b); [apply IH'; simpl; lia|].
  destruct l1 as [|c l1]; cbn [app].
  { change (is_cont 0) with false. cbn [andb]. by destruct l2. }
  destruct (is_cont c && _); [apply IH'; simpl; lia|].
  destruct l1 as [|d l1]; cbn [app].
  { change (is_cont 0) with false. by rewrite andb_false_r. }
  destruct (is_cont c && is_cont d && _); [apply IH'; simpl; lia|done].
Qed.

(** Valid texts are joined to a valid text. *)
Lemma utf8_valid_app l1 l2 : utf8_valid l1 = true -> utf8_valid l2 = true -> utf8_valid (l1 ++ l2) = true.
Proof.
  intros H1 H2. revert H1. remember (length l1) as n eqn:En. revert l1 En. induction (lt_wf n) as [n _ IH]. intros l1 ->.
  assert (forall l, (length l < length l1)%nat -> utf8_valid l = true -> utf8_valid (l ++ l2) = true) as IH' by (intros l Hl; by apply (IH (length l))).
  clear IH. destruct l1 as [|a l1]; [done|]. cbn [app utf8_valid]. destruct (a <? 128); [apply IH'; simpl; lia|].
  destruct l1 as [|b l1]; [done|]. cbn [app]. destruct (in_rng 194 223 a && is_cont b); [apply IH'; simpl; lia|].
  destruct l1 as [|c l1]; [done|]. cbn [app]. destruct (is_cont c && _); [apply IH'; simpl; lia|].
  destruct l1 as [|d l1]; [done|]. cbn [app]. destruct (is_cont c && is_cont d && _); [apply IH'; simpl; lia|done].
Qed.
