(* ===== verification/Cursor.v ===== *)
(** * Cursors

    Reading from a [Cursor] over bytes: the cursor is the bytes still to be read, an
    error is the one the caller reports.  Shared by the big-endian content formats. *)

From S2P Require Import Prelude Bytes.
Local Open Scope Z_scope.

(** [read_exact]. *)
Definition read {E} (e : E) (n : nat) (input : bytes) : result E (bytes * bytes) :=
  if (length input <? n)%nat then Err e else Ok (take n input, drop n input).

(** An unsigned integer of [n] bytes, big-endian. *)
Definition read_be {E} (e : E) (n : nat) (input : bytes) : result E (Z * bytes) :=
  '(b, rest) ← read e n input; Ok (from_be_bytes b, rest).

(** ... little-endian. *)
Definition read_le {E} (e : E) (n : nat) (input : bytes) : result E (Z * bytes) :=
  '(b, rest) ← read e n input; Ok (from_le_bytes b, rest).

(** The bytes up to a NUL, which is consumed. *)
Fixpoint read_cstring {E} (e : E) (input : bytes) : result E (bytes * bytes) :=
  match input with
  | [] => Err e
  | b :: rest => if b =? 0 then Ok ([], rest) else '(s, rest) ← read_cstring e rest; Ok (b :: s, rest)
  end.

(** [count] times the same reader. *)
Fixpoint read_many {E A} (count : nat) (f : bytes -> result E (A * bytes)) (input : bytes) : result E (list A * bytes) :=
  match count with
  | O => Ok ([], input)
  | S count => '(a, i) ← f input; '(l, i) ← read_many count f i; Ok (a :: l, i)
  end.

Lemma to_from_be_bytes l : is_bytes l -> to_be_bytes (length l) (from_be_bytes l) = l.
Proof.
  intros H. unfold to_be_bytes, from_be_bytes. rewrite <- (length_reverse l), to_from_le_bytes by (by apply Forall_reverse).
  apply reverse_involutive.
Qed.

Section Readers.
Context {E : Type}.
Implicit Types e : E.

Lemma read_Ok e n input a rest : read e n input = Ok (a, rest) <-> input = a ++ rest /\ length a = n.
Proof.
  unfold read. split.
  - destruct (Nat.ltb_spec (length input) n); [done|]. intros [= <- <-]. rewrite take_drop, length_take. split; [done|lia].
  - intros [-> <-]. rewrite length_app, (proj2 (Nat.ltb_ge _ _)) by lia. by rewrite take_app_length, drop_app_length.
Qed.

Lemma read_app e n a rest : length a = n -> read e n (a ++ rest) = Ok (a, rest).
Proof. intros. by apply read_Ok. Qed.

Lemma read_be_Ok e n input v rest :
  is_bytes input -> read_be e n input = Ok (v, rest) -> input = to_be_bytes n v ++ rest /\ is_bytes rest /\ in_u (8 * Z.of_nat n) v.
Proof.
  intros Hb. unfold read_be. destruct (read e n input) as [[b r]|] eqn:Er; [|done]. cbn [mbind result_bind].
  intros [= <- <-]. apply read_Ok in Er as [-> <-]. apply is_bytes_app in Hb as [Hb Hr]. rewrite to_from_be_bytes by done.
  split_and!; [done..|]. by apply (from_be_bytes_in_u (length b)).
Qed.

Lemma read_be_app e n w v rest : w = 8 * Z.of_nat n -> in_u w v -> read_be e n (to_be_bytes n v ++ rest) = Ok (v, rest).
Proof.
  intros Hw Hv. unfold read_be. rewrite read_app by apply length_to_be_bytes. cbn [mbind result_bind]. by rewrite (be_roundtrip n w).
Qed.

Lemma read_le_app e n w v rest : w = 8 * Z.of_nat n -> in_u w v -> read_le e n (to_le_bytes n v ++ rest) = Ok (v, rest).
Proof.
  intros Hw Hv. unfold read_le. rewrite read_app by apply length_to_le_bytes. cbn [mbind result_bind]. by rewrite (le_roundtrip n w).
Qed.

(** Text without NUL. *)
Definition no_nul (s : bytes) : Prop := Forall (fun b => b <> 0) s.

Lemma read_cstring_app e s rest : no_nul s -> read_cstring e (s ++ 0 :: rest) = Ok (s, rest).
Proof.
  induction 1 as [|b s Hb H IH]; [done|]. cbn [app read_cstring]. rewrite (proj2 (Z.eqb_neq b 0)) by done. by rewrite IH.
Qed.

Lemma read_cstring_Ok e input s rest : read_cstring e input = Ok (s, rest) -> input = s ++ 0 :: rest /\ no_nul s.
Proof.
  revert s rest. induction input as [|b input IH]; intros s rest; cbn [read_cstring]; [done|].
  destruct (Z.eqb_spec b 0) as [->|Hb]; [intros [= <- <-]; split; [done|constructor]|].
  destruct (read_cstring e input) as [[s' r]|] eqn:Er; [|done]. cbn [mbind result_bind]. intros [= <- <-].
  destruct (IH s' r eq_refl) as [-> Hs]. split; [done|]. by constructor.
Qed.

Lemma read_many_app {A} (f : bytes -> result E (A * bytes)) (write : A -> bytes) l rest :
  Forall (fun a => forall rest, f (write a ++ rest) = Ok (a, rest)) l ->
  read_many (length l) f (concat (map write l) ++ rest) = Ok (l, rest).
Proof.
  induction 1 as [|a l Ha H IH]; [done|]. cbn [length map concat read_many]. rewrite <- app_assoc, Ha. cbn [mbind result_bind]. by rewrite IH.
Qed.

Lemma read_many_Ok {A} (f : bytes -> result E (A * bytes)) (write : A -> bytes) (P : A -> Prop) n input l rest :
  (forall input a rest, is_bytes input -> f input = Ok (a, rest) -> input = write a ++ rest /\ is_bytes rest /\ P a) ->
  is_bytes input -> read_many n f input = Ok (l, rest) ->
  input = concat (map write l) ++ rest /\ is_bytes rest /\ Forall P l /\ length l = n.
Proof.
  intros Hf. revert input l. induction n as [|n IH]; intros input l Hb; cbn [read_many]; [by intros [= <- <-]|].
  destruct (f input) as [[a i]|] eqn:Ef; [|done]. cbn [mbind result_bind]. apply Hf in Ef as (-> & Hi & Ha); [|done].
  destruct (read_many n f i) as [[l' i']|] eqn:Em; [|done]. cbn [mbind result_bind]. intros [= <- <-].
  apply IH in Em as (-> & Hr & Hl & Hn); [|done]. cbn [map concat length]. rewrite <- app_assoc. split_and!; [done..|by constructor|by rewrite Hn].
Qed.

End Readers.

(** Read the next big-endian integer of what was written. *)
Ltac read_next :=
  first [rewrite (read_be_app _ 1 8) by done | rewrite (read_be_app _ 2 16) by done | rewrite (read_be_app _ 4 32) by done];
  cbn [mbind result_bind].

Ltac read_next_le :=
  first [rewrite (read_le_app _ 1 8) by done | rewrite (read_le_app _ 4 32) by done | rewrite (read_le_app _ 8 64) by done];
  cbn [mbind result_bind].

(** Split the input of each reader of a successful parse. *)
Ltac read_back :=
  repeat match goal with
  | Hi : is_bytes ?i |- context [read_be ?e ?n ?i] =>
      let v := fresh "v" in let i' := fresh "i" in let E := fresh "E" in let Hu := fresh "Hu" in let Hr := fresh "Hr" in
      destruct (read_be e n i) as [[v i']|] eqn:E; [|done]; cbn [mbind result_bind];
      apply (read_be_Ok _ _ _ _ _ Hi) in E; destruct E as (-> & Hr & Hu); clear Hi
  end.
