(* ===== verification/Disk.v ===== *)
(** * A directory of files

    The file system as the storage code uses it: a list of (name, content)
    pairs, in the order in which [read_dir] yields the entries.  A name is the
    bytes the operating system returns, so it need not be UTF-8. *)

From S2P Require Import Prelude Bytes.

Abbreviation disk := (list (bytes * bytes)).

Definition disk_get (d : disk) (name : bytes) : option bytes :=
  match list_find (fun f => fst f = name) d with Some (_, f) => Some (snd f) | None => None end.

Definition disk_remove (d : disk) (name : bytes) : disk := filter (fun f => fst f <> name) d.

Definition disk_write (d : disk) (name content : bytes) : disk :=
  disk_remove d name ++ [(name, content)].

(** A file changed in place. *)
Definition disk_update (d : disk) (name content : bytes) : disk :=
  (fun f => if bool_decide (fst f = name) then (name, content) else f) <$> d.

Lemma disk_get_cons x c d n : disk_get ((x, c) :: d) n = if decide (x = n) then Some c else disk_get d n.
Proof. unfold disk_get. simpl. destruct (decide (x = n)); [done|]. by destruct (list_find _ d) as [[]|]. Qed.

Lemma disk_get_update d n c : disk_get (disk_update d n c) n = (fun _ => c) <$> disk_get d n.
Proof.
  induction d as [|[x c'] d IH]; [done|]. unfold disk_update. rewrite fmap_cons. cbn [fst]. case_bool_decide as E.
  - rewrite !disk_get_cons. by rewrite !decide_True.
  - rewrite !disk_get_cons. by rewrite !decide_False.
Qed.

Lemma disk_get_update_ne d n n' c : n <> n' -> disk_get (disk_update d n' c) n = disk_get d n.
Proof.
  intros Hne. induction d as [|[x c'] d IH]; [done|]. unfold disk_update. rewrite fmap_cons. cbn [fst]. case_bool_decide as E.
  - subst x. rewrite !disk_get_cons. by rewrite !decide_False.
  - rewrite !disk_get_cons. by destruct (decide (x = n)).
Qed.

Lemma disk_get_remove d n n' : n <> n' -> disk_get (disk_remove d n') n = disk_get d n.
Proof.
  intros Hne. unfold disk_get, disk_remove. induction d as [|[x c] d IH]; [done|].
  destruct (decide (x = n')) as [->|Hx].
  - rewrite filter_cons_False by (simpl; auto). simpl. rewrite decide_False by auto.
    rewrite IH. by destruct (list_find _ d) as [[]|].
  - rewrite filter_cons_True by done. simpl. destruct (decide (x = n)) as [->|]; [done|].
    destruct (list_find _ d) as [[? ?]|], (list_find _ (filter _ d)) as [[? ?]|]; done.
Qed.

Lemma disk_get_removed d n : disk_get (disk_remove d n) n = None.
Proof.
  unfold disk_get. destruct (list_find _ _) as [[i [x c]]|] eqn:E; [|done].
  apply list_find_Some in E as (Hi & Hx & _). simpl in Hx. subst x.
  apply list_elem_of_lookup_2, list_elem_of_filter in Hi as [? _]. done.
Qed.

Lemma disk_get_write d n c : disk_get (disk_write d n c) n = Some c.
Proof.
  pose proof (disk_get_removed d n) as H. unfold disk_get, disk_write in *.
  generalize dependent (disk_remove d n). intros d' H.
  induction d' as [|[x c'] d' IH]; simpl.
  - by rewrite decide_True.
  - simpl in H. destruct (decide (x = n)) as [->|]; [done|].
    destruct (list_find _ (d' ++ _)) as [[? ?]|]; [|destruct (list_find _ d') as [[]|]];
      simpl in *; auto.
    destruct (list_find _ d') as [[]|]; simpl in *; auto.
Qed.

Lemma disk_get_app d1 d2 n :
  disk_get (d1 ++ d2) n = match disk_get d1 n with Some c => Some c | None => disk_get d2 n end.
Proof.
  induction d1 as [|[x c] d1 IH]; [done|]. unfold disk_get in *. simpl.
  destruct (decide (x = n)); [done|].
  destruct (list_find _ (d1 ++ d2)) as [[]|], (list_find _ d1) as [[]|], (list_find _ d2) as [[]|];
    simpl in *; congruence.
Qed.

Lemma disk_get_write_ne d n n' c : n <> n' -> disk_get (disk_write d n' c) n = disk_get d n.
Proof.
  intros Hne. unfold disk_write. rewrite disk_get_app, disk_get_remove by done.
  destruct (disk_get d n); [done|]. unfold disk_get. simpl. by rewrite decide_False by auto.
Qed.
