(* ===== verification/Jenkins.v ===== *)
(** * Jenkins lookup3 hash: crates/cascette-crypto/src/jenkins.rs

    [hashlittle] and [hashlittle2] as the source writes them: the 12-byte loop
    and the byte-by-byte switch over the last block.  The index, key-state and
    local-header components use the two functions for their guards. *)

From S2P Require Import Prelude Bytes.
Local Open Scope Z_scope.

Module Jenkins.

(** The three registers [a], [b], [c]. *)
Abbreviation regs := (Z * Z * Z)%type.

Definition wrapping_add (x y : Z) : Z := wrap32 (x + y).
Definition wrapping_sub (x y : Z) : Z := wrap32 (x - y).

(** One of the six rounds of [mix]: [x -= z; x ^= z.rotate_left(n); z += y]. *)
Definition mix_round (n x y z : Z) : Z * Z :=
  (Z.lxor (wrapping_sub x z) (rotl32 z n), wrapping_add z y).

Definition mix (r : regs) : regs :=
  let '(a, b, c) := r in
  let '(a, c) := mix_round 4 a b c in
  let '(b, a) := mix_round 6 b c a in
  let '(c, b) := mix_round 8 c a b in
  let '(a, c) := mix_round 16 a b c in
  let '(b, a) := mix_round 19 b c a in
  let '(c, b) := mix_round 4 c a b in
  (a, b, c).

(** [x ^= y; x = x.wrapping_sub(y.rotate_left(n))]. *)
Definition final_round (n x y : Z) : Z := wrapping_sub (Z.lxor x y) (rotl32 y n).

Definition final_mix (r : regs) : regs :=
  let '(a, b, c) := r in
  let c := final_round 14 c b in
  let a := final_round 11 a c in
  let b := final_round 25 b a in
  let c := final_round 16 c b in
  let a := final_round 4 a c in
  let b := final_round 14 b a in
  let c := final_round 24 c b in
  (a, b, c).

(** [while k.len() > 12 { ... mix(..); k = &k[12..]; }] *)
Fixpoint blocks (r : regs) (k : bytes) : regs * bytes :=
  match k with
  | k0 :: k1 :: k2 :: k3 :: k4 :: k5 :: k6 :: k7 :: k8 :: k9 :: k10 :: k11 :: ((_ :: _) as k') =>
      let '(a, b, c) := r in
      blocks (mix (wrapping_add a (from_le_bytes [k0; k1; k2; k3]),
                   wrapping_add b (from_le_bytes [k4; k5; k6; k7]),
                   wrapping_add c (from_le_bytes [k8; k9; k10; k11]))) k'
  | _ => (r, k)
  end.

(** [x = x.wrapping_add(u32::from(k[i]) << s)], one after the other. *)
Definition add_bytes (x : Z) (l : list (Z * Z)) : Z :=
  fold_left (fun x '(b, s) => wrapping_add x (Z.shiftl b s)) l x.

(** [match k.len()]: the last block, [None] for the early return of length 0.
    The loop leaves at most 12 bytes, so the last arm is the [unreachable!]. *)
Definition tail (r : regs) (k : bytes) : outcome (option regs) :=
  let '(a, b, c) := r in
  match k with
  | [k0; k1; k2; k3; k4; k5; k6; k7; k8; k9; k10; k11] =>
      Ret (Some (add_bytes a [(k3, 24); (k2, 16); (k1, 8); (k0, 0)],
                 add_bytes b [(k7, 24); (k6, 16); (k5, 8); (k4, 0)],
                 add_bytes c [(k11, 24); (k10, 16); (k9, 8); (k8, 0)]))
  | [k0; k1; k2; k3; k4; k5; k6; k7; k8; k9; k10] =>
      Ret (Some (add_bytes a [(k3, 24); (k2, 16); (k1, 8); (k0, 0)],
                 add_bytes b [(k7, 24); (k6, 16); (k5, 8); (k4, 0)],
                 add_bytes c [(k10, 16); (k9, 8); (k8, 0)]))
  | [k0; k1; k2; k3; k4; k5; k6; k7; k8; k9] =>
      Ret (Some (add_bytes a [(k3, 24); (k2, 16); (k1, 8); (k0, 0)],
                 add_bytes b [(k7, 24); (k6, 16); (k5, 8); (k4, 0)],
                 add_bytes c [(k9, 8); (k8, 0)]))
  | [k0; k1; k2; k3; k4; k5; k6; k7; k8] =>
      Ret (Some (add_bytes a [(k3, 24); (k2, 16); (k1, 8); (k0, 0)],
                 add_bytes b [(k7, 24); (k6, 16); (k5, 8); (k4, 0)],
                 add_bytes c [(k8, 0)]))
  | [k0; k1; k2; k3; k4; k5; k6; k7] =>
      Ret (Some (add_bytes a [(k3, 24); (k2, 16); (k1, 8); (k0, 0)],
                 add_bytes b [(k7, 24); (k6, 16); (k5, 8); (k4, 0)], c))
  | [k0; k1; k2; k3; k4; k5; k6] =>
      Ret (Some (add_bytes a [(k3, 24); (k2, 16); (k1, 8); (k0, 0)],
                 add_bytes b [(k6, 16); (k5, 8); (k4, 0)], c))
  | [k0; k1; k2; k3; k4; k5] =>
      Ret (Some (add_bytes a [(k3, 24); (k2, 16); (k1, 8); (k0, 0)],
                 add_bytes b [(k5, 8); (k4, 0)], c))
  | [k0; k1; k2; k3; k4] =>
      Ret (Some (add_bytes a [(k3, 24); (k2, 16); (k1, 8); (k0, 0)],
                 add_bytes b [(k4, 0)], c))
  | [k0; k1; k2; k3] =>
      Ret (Some (add_bytes a [(k3, 24); (k2, 16); (k1, 8); (k0, 0)], b, c))
  | [k0; k1; k2] => Ret (Some (add_bytes a [(k2, 16); (k1, 8); (k0, 0)], b, c))
  | [k0; k1] => Ret (Some (add_bytes a [(k1, 8); (k0, 0)], b, c))
  | [k0] => Ret (Some (add_bytes a [(k0, 0)], b, c))
  | [] => Ret None
  | _ => Panic
  end.

(** [u32::try_from(data.len()).unwrap_or(u32::MAX)]. *)
Definition len32 (data : bytes) : Z :=
  let n := Z.of_nat (length data) in if n <? 2 ^ 32 then n else 2 ^ 32 - 1.

Definition seed (data : bytes) (init : Z) : Z :=
  wrapping_add (wrapping_add 0xdeadbeef (len32 data)) init.

Definition hashlittle (data : bytes) (initval : Z) : outcome Z :=
  let a := seed data initval in
  let c := a in
  match data with
  | [] => Ret c
  | _ =>
      let '(r, k) := blocks (a, a, a) data in
      t ← tail r k;
      match t with
      | None => Ret (snd r)
      | Some r => Ret (snd (final_mix r))
      end
  end.

(** [hashlittle2(key, &mut pc, &mut pb)]: the new [(pc, pb)]. *)
Definition hashlittle2 (key : bytes) (pc pb : Z) : outcome (Z * Z) :=
  let a := seed key pc in
  let b := a in
  let c := wrapping_add a pb in
  match key with
  | [] => Ret (c, b)
  | _ =>
      let '(r, k) := blocks (a, b, c) key in
      t ← tail r k;
      match t with
      | None => let '(_, b, c) := r in Ret (c, b)
      | Some r => let '(_, b, c) := final_mix r in Ret (c, b)
      end
  end.

Record Jenkins96 := { hash64 : Z; hash32 : Z }.

(** [Jenkins96::hash]. *)
Definition hash (data : bytes) : outcome Jenkins96 :=
  '(pc, pb) ← hashlittle2 data 0 0;
  Ret {| hash64 := Z.lor (Z.shiftl pc 32) pb; hash32 := pc |}.

(** ** Reference definition

    Bob Jenkins' description of the algorithm: the message is cut into 12-byte
    blocks, the last one padded with zero bytes; each block is added to the
    registers as three little-endian words; every block but the last is
    followed by [mix], the last one by [final_mix]. *)

Definition add_block (r : regs) (k : bytes) : regs :=
  let '(a, b, c) := r in
  (wrapping_add a (from_le_bytes (take 4 k)),
   wrapping_add b (from_le_bytes (take 4 (drop 4 k))),
   wrapping_add c (from_le_bytes (take 4 (drop 8 k)))).

Fixpoint spec_loop (fuel : nat) (r : regs) (k : bytes) : regs :=
  match fuel with
  | O => r
  | S fuel =>
      if (length k <=? 12)%nat then final_mix (add_block r k)
      else spec_loop fuel (mix (add_block r (take 12 k))) (drop 12 k)
  end.

Definition hash_spec (data : bytes) (r : regs) : regs :=
  match data with [] => r | _ => spec_loop (length data) r data end.

(** ** The loop and the switch *)

Lemma tail_ok r k : (length k <= 12)%nat -> exists t, tail r k = Ret t.
Proof.
  destruct r as [[a b] c]. intros H.
  do 13 (destruct k as [|? k]; [eexists; reflexivity|]). simpl in H. lia.
Qed.

(** Adding bytes one by one from the top is adding the little-endian word. *)
Lemma add_bytes_sum x l :
  add_bytes x l = match l with [] => x | _ => wrap32 (x + foldr (fun '(b, s) t => Z.shiftl b s + t) 0 l) end.
Proof.
  revert x. induction l as [|[b s] l IH]; intros x; [done|].
  unfold add_bytes in *. cbn [fold_left]. rewrite IH. cbn [foldr].
  unfold wrapping_add, wrap32, wrap. destruct l as [|p l].
  - simpl. f_equal. lia.
  - rewrite Zplus_mod_idemp_l. f_equal. lia.
Qed.

Ltac word_eq :=
  rewrite ?add_bytes_sum; unfold wrapping_add; cbn [foldr from_le_bytes take drop];
  rewrite ?Z.shiftl_mul_pow2 by lia; f_equal; lia.

Lemma tail_spec (a b c : Z) k :
  u32 a -> u32 b -> u32 c ->
  (0 < length k <= 12)%nat -> tail (a, b, c) k = Ret (Some (add_block (a, b, c) k)).
Proof.
  intros Ha Hb Hc [Hpos H].
  assert (forall x, u32 x -> x = wrapping_add x 0) as E0.
  { intros x Hx. unfold wrapping_add. rewrite Z.add_0_r. symmetry. by apply wrap_small. }
  do 13 (destruct k as [|? k];
    [simpl in Hpos; try lia; unfold tail, add_block; do 2 f_equal; f_equal;
     first [f_equal; word_eq | word_eq | by apply E0 | f_equal; first [word_eq | by apply E0]]|]).
  simpl in H. lia.
Qed.

Lemma blocks_small r k : (length k <= 12)%nat -> blocks r k = (r, k).
Proof.
  intros H. do 13 (destruct k as [|? k]; [reflexivity|]). simpl in H. lia.
Qed.

Lemma blocks_step r k :
  (12 < length k)%nat -> blocks r k = blocks (mix (add_block r (take 12 k))) (drop 12 k).
Proof.
  intros H. do 13 (destruct k as [|? k]; [simpl in H; lia|]).
  destruct r as [[a b] c]. reflexivity.
Qed.

(** ** Registers stay 32-bit values *)

Definition regs_ok (r : regs) : Prop :=
  let '(a, b, c) := r in u32 a /\ u32 b /\ u32 c.

Lemma wrapping_add_range x y : u32 (wrapping_add x y).
Proof. apply wrap32_range. Qed.

Lemma wrapping_sub_range x y : u32 (wrapping_sub x y).
Proof. apply wrap32_range. Qed.

Lemma rotl32_range x n : u32 x -> 0 <= n <= 32 -> u32 (rotl32 x n).
Proof.
  intros Hx Hn. apply lor_range; [lia|apply wrap32_range|].
  unfold in_u in *. rewrite Z.shiftr_div_pow2 by lia. split.
  - apply Z.div_pos; [lia|]. apply Z.pow_pos_nonneg; lia.
  - apply Z.div_lt_upper_bound; [apply Z.pow_pos_nonneg; lia|].
    assert (1 <= 2 ^ (32 - n)) by (apply (Z.pow_le_mono_r 2 0); lia). nia.
Qed.

#[local] Hint Resolve wrapping_add_range wrapping_sub_range rotl32_range wrap32_range : casc.

(** *** The inverse of [mix] *)

Definition unmix_round (n x' y z' : Z) : Z * Z :=
  let z := wrapping_sub z' y in
  (wrapping_add (Z.lxor x' (rotl32 z n)) z, z).

Definition unmix (r : regs) : regs :=
  let '(a, b, c) := r in
  let '(c, b) := unmix_round 4 c a b in
  let '(b, a) := unmix_round 19 b c a in
  let '(a, c) := unmix_round 16 a b c in
  let '(c, b) := unmix_round 8 c a b in
  let '(b, a) := unmix_round 6 b c a in
  let '(a, c) := unmix_round 4 a b c in
  (a, b, c).

Lemma sub_add_cancel z y : u32 z -> wrapping_sub (wrapping_add z y) y = z.
Proof.
  intros. unfold wrapping_sub, wrapping_add, wrap32, wrap.
  rewrite Zminus_mod_idemp_l. rewrite Z.add_simpl_r. by apply wrap_small.
Qed.

Lemma add_sub_cancel z y : u32 z -> wrapping_add (wrapping_sub z y) y = z.
Proof.
  intros. unfold wrapping_sub, wrapping_add, wrap32, wrap.
  rewrite Zplus_mod_idemp_l. rewrite Z.sub_add. by apply wrap_small.
Qed.

Lemma unmix_mix_round n x y z :
  u32 x -> u32 z ->
  unmix_round n (fst (mix_round n x y z)) y (snd (mix_round n x y z)) = (x, z).
Proof.
  intros Hx Hz. unfold unmix_round. cbn [fst snd mix_round].
  rewrite sub_add_cancel by done.
  by rewrite Z.lxor_assoc, Z.lxor_nilpotent, Z.lxor_0_r, add_sub_cancel.
Qed.

Lemma mix_round_ok n x y z :
  u32 x -> u32 z -> 0 <= n <= 32 ->
  exists x' z', mix_round n x y z = (x', z') /\ u32 x' /\ u32 z' /\
    unmix_round n x' y z' = (x, z).
Proof.
  intros Hx Hz Hn. eexists _, _. split_and!; [reflexivity| | |].
  - apply lxor_range; casc_auto.
  - casc_auto.
  - by apply unmix_mix_round.
Qed.

Lemma mix_ok r : regs_ok r -> regs_ok (mix r) /\ unmix (mix r) = r.
Proof.
  destruct r as [[a b] c]. intros (Ha & Hb & Hc). unfold mix.
  do 6 match goal with
  | |- context [mix_round ?n ?x ?y ?z] =>
      let E := fresh "E" in
      destruct (mix_round_ok n x y z) as (? & ? & -> & ? & ? & E); [assumption|assumption|lia|]
  end.
  split; [by split_and!|]. unfold unmix.
  repeat match goal with E : unmix_round _ _ _ _ = _ |- _ => rewrite E; clear E end.
  done.
Qed.

Lemma mix_regs_ok r : regs_ok r -> regs_ok (mix r).
Proof. intros. by apply mix_ok. Qed.

Lemma add_block_regs_ok r k : regs_ok (add_block r k).
Proof. destruct r as [[a b] c]. simpl. auto using wrapping_add_range. Qed.

Lemma final_mix_regs_ok r : regs_ok (final_mix r).
Proof. destruct r as [[a b] c]. simpl. unfold final_round. auto using wrapping_sub_range. Qed.

#[local] Hint Resolve mix_regs_ok add_block_regs_ok final_mix_regs_ok : casc.

(** The loop leaves between 1 and 12 bytes, and finishing that block gives the
    reference result. *)
Lemma blocks_spec n r k :
  (0 < length k <= n)%nat -> regs_ok r ->
  exists r' k', blocks r k = (r', k') /\ (0 < length k' <= 12)%nat /\ regs_ok r' /\
    spec_loop n r k = final_mix (add_block r' k').
Proof.
  revert r k. induction n as [|n IH]; intros r k Hk Hr; [lia|]. simpl.
  destruct (Nat.leb_spec (length k) 12).
  - exists r, k. rewrite blocks_small by lia. split_and!; done || lia.
  - rewrite blocks_step by lia. apply IH; [rewrite length_drop; lia|]. casc_auto.
Qed.

Lemma finish_spec data r :
  data <> [] -> regs_ok r ->
  exists r' k', blocks r data = (r', k') /\
    tail r' k' = Ret (Some (add_block r' k')) /\
    final_mix (add_block r' k') = hash_spec data r.
Proof.
  intros Hne Hr. destruct (blocks_spec (length data) r data) as (r' & k' & Hb & Hk & Hr' & Hs).
  { destruct data; simpl; [congruence|lia]. }
  { done. }
  exists r', k'. split_and!; [done| |].
  - destruct r' as [[a b] c]. destruct Hr' as (? & ? & ?). by apply tail_spec.
  - rewrite <- Hs. by destruct data.
Qed.

Lemma hashlittle_eq data init :
  hashlittle data init =
    Ret (snd (hash_spec data (seed data init, seed data init, seed data init))).
Proof.
  destruct data as [|x data]; [done|]. unfold hashlittle.
  set (s := seed (x :: data) init).
  destruct (finish_spec (x :: data) (s, s, s)) as (r' & k' & Hb & Ht & Hs); [done|simpl; unfold s, seed; auto using wrapping_add_range|].
  rewrite Hb, Ht. simpl. by rewrite Hs.
Qed.

Lemma hashlittle2_eq key pc pb :
  hashlittle2 key pc pb =
    let '(_, b, c) := hash_spec key (seed key pc, seed key pc, wrapping_add (seed key pc) pb) in
    Ret (c, b).
Proof.
  destruct key as [|x key]; [done|]. unfold hashlittle2.
  set (s := seed (x :: key) pc). set (t := wrapping_add s pb).
  destruct (finish_spec (x :: key) (s, s, t)) as (r' & k' & Hb & Ht & Hs);
    [done|simpl; unfold s, t, seed; auto using wrapping_add_range|].
  rewrite Hb, Ht. simpl. by rewrite Hs.
Qed.

Lemma hash_spec_ok data r : regs_ok r -> regs_ok (hash_spec data r).
Proof.
  intros Hr. destruct data as [|x data]; [done|].
  destruct (finish_spec (x :: data) r) as (r' & k' & _ & _ & <-); casc_auto.
Qed.

(** The hash as a total function, for the components that call it. *)
Definition jenkins (data : bytes) (init : Z) : Z :=
  snd (hash_spec data (seed data init, seed data init, seed data init)).

Lemma jenkins_range data init : u32 (jenkins data init).
Proof.
  unfold jenkins. pose proof (hash_spec_ok data (seed data init, seed data init, seed data init)) as H.
  destruct (hash_spec _ _) as [[a b] c]. apply H. simpl. unfold seed. auto using wrapping_add_range.
Qed.

Lemma hashlittle_jenkins data init : hashlittle data init = Ret (jenkins data init).
Proof. apply hashlittle_eq. Qed.

(** ** Theorems *)

(** C33: [hashlittle] never reaches its [unreachable!] arm and computes, for
    every input, the lookup3 hash of the zero-padded message: the 12-byte loop
    and the thirteen-way switch over the last block agree with the reference. *)
Theorem hashlittle_refines_reference data init :
  let s := seed data init in
  hashlittle data init = Ret (snd (hash_spec data (s, s, s))).
Proof. apply hashlittle_eq. Qed.

(** The two entry points agree: the primary value of [hashlittle2] with a
    zero secondary seed is [hashlittle], and both results are 32-bit values. *)
Theorem hashlittle2_primary data init :
  exists pb, hashlittle2 data init 0 = Ret (jenkins data init, pb) /\
    hashlittle data init = Ret (jenkins data init) /\ u32 (jenkins data init) /\ u32 pb.
Proof.
  rewrite hashlittle2_eq, hashlittle_jenkins.
  assert (wrapping_add (seed data init) 0 = seed data init) as ->.
  { unfold wrapping_add. rewrite Z.add_0_r. apply wrap_small, wrapping_add_range. }
  pose proof (jenkins_range data init) as Hj. unfold jenkins in *.
  pose proof (hash_spec_ok data (seed data init, seed data init, seed data init)) as H.
  destruct (hash_spec _ _) as [[a b] c]. exists b. split_and!; try done.
  apply H. simpl. unfold seed. auto using wrapping_add_range.
Qed.

(** [mix] loses no information ("mix 3 u32 values reversibly"): [unmix]
    recovers the three registers from its result. *)
Theorem mix_reversible r : regs_ok r -> regs_ok (mix r) /\ unmix (mix r) = r.
Proof. apply mix_ok. Qed.

Lemma mix_reversible_witness :
  regs_ok (1, 2, 0xffffffff) /\ unmix (mix (1, 2, 0xffffffff)) = (1, 2, 0xffffffff).
Proof.
  assert (regs_ok (1, 2, 0xffffffff)) as H by (unfold regs_ok, in_u; lia).
  split; [exact H|]. apply (mix_reversible (1, 2, 0xffffffff) H).
Defined.

(** Vectors of the module's own tests and of lookup3.c. *)
Example hashlittle_empty : hashlittle [] 0 = Ret 0xdeadbeef.
Proof. reflexivity. Qed.

Example hashlittle2_empty : hashlittle2 [] 0xdeadbeef 0xdeadbeef = Ret (0x9c093ccd, 0xbd5b7dde).
Proof. reflexivity. Qed.

(** "Four score and seven years ago", seed 0. *)
Example hashlittle_four_score :
  hashlittle [70; 111; 117; 114; 32; 115; 99; 111; 114; 101; 32; 97; 110; 100; 32; 115; 101; 118;
    101; 110; 32; 121; 101; 97; 114; 115; 32; 97; 103; 111] 0 = Ret 0x17770551.
Proof. vm_compute. reflexivity. Qed.

End Jenkins.
