(* ===== verification/LruFile.v ===== *)
(** * The .lru checkpoint file: crates/cascette-client-storage/src/lru/lru_file.rs

    Header and entry layout, serialisation with the embedded MD5, and the
    generation-numbered file names.  The md5 and hex crates are parameters. *)

From S2P Require Import Prelude Bytes.
Local Open Scope Z_scope.

Module LruFile.

Definition LRU_HEADER_SIZE : nat := 28.
Definition LRU_ENTRY_SIZE : nat := 20.
Definition LRU_SENTINEL : Z := 0xFFFFFFFF.
Definition LRU_MAX_VERSION : Z := 1.
Definition LRU_CURRENT_VERSION : Z := 1.
(** ".lru" *)
Definition LRU_EXTENSION : bytes := [46; 108; 114; 117].
Definition LRU_FILENAME_LEN : nat := 20.

Record LruFileHeader := {
  version : Z;
  file_hash : bytes;
  mru_head : Z;
  lru_tail : Z;
}.

Definition header_default : LruFileHeader :=
  {| version := LRU_CURRENT_VERSION; file_hash := zeros 16;
     mru_head := LRU_SENTINEL; lru_tail := LRU_SENTINEL |}.

Definition header_to_bytes (h : LruFileHeader) : bytes :=
  let buf := zeros LRU_HEADER_SIZE in
  let buf := copy_at 0 (to_le_bytes 2 (version h)) buf in
  let buf := copy_at 4 (file_hash h) buf in
  let buf := copy_at 20 (to_le_bytes 4 (mru_head h)) buf in
  copy_at 24 (to_le_bytes 4 (lru_tail h)) buf.

Definition header_from_bytes (data : bytes) : option LruFileHeader :=
  let version := from_le_bytes (slice 0 2 data) in
  if LRU_MAX_VERSION <? version then None
  else Some {| version := version;
               file_hash := slice 4 20 data;
               mru_head := from_le_bytes (slice 20 24 data);
               lru_tail := from_le_bytes (slice 24 28 data) |}.

Record LruFileEntry := {
  prev : Z;
  next : Z;
  ekey : bytes;
  flags : Z;
}.

Definition entry_empty : LruFileEntry :=
  {| prev := LRU_SENTINEL; next := LRU_SENTINEL; ekey := zeros 9; flags := 0 |}.

Definition entry_to_bytes (e : LruFileEntry) : bytes :=
  let buf := zeros LRU_ENTRY_SIZE in
  let buf := copy_at 0 (to_le_bytes 4 (prev e)) buf in
  let buf := copy_at 4 (to_le_bytes 4 (next e)) buf in
  let buf := copy_at 8 (ekey e) buf in
  copy_at 17 [flags e] buf.

Definition entry_from_bytes (data : bytes) : LruFileEntry :=
  {| prev := from_le_bytes (slice 0 4 data);
     next := from_le_bytes (slice 4 8 data);
     ekey := slice 8 17 data;
     flags := nth 17 data 0 |}.

Definition is_active (e : LruFileEntry) : bool := bool_decide (ekey e <> zeros 9).

Definition validate_file_size (size : nat) : bool :=
  (LRU_HEADER_SIZE <=? size)%nat && ((size - LRU_HEADER_SIZE) mod LRU_ENTRY_SIZE =? 0)%nat.

Definition entry_count_from_file_size (size : nat) : nat :=
  if (size <? LRU_HEADER_SIZE)%nat then 0%nat
  else ((size - LRU_HEADER_SIZE) / LRU_ENTRY_SIZE)%nat.

Definition generation_to_filename (generation : Z) : bytes :=
  concat (map hex_byte (to_be_bytes 8 generation)) ++ LRU_EXTENSION.

(** Well-formed values of the two structs. *)
Definition header_wf (h : LruFileHeader) : Prop :=
  0 <= version h <= LRU_MAX_VERSION /\ is_array 16 (file_hash h) /\
  u32 (mru_head h) /\ u32 (lru_tail h).

Definition entry_wf (e : LruFileEntry) : Prop :=
  u32 (prev e) /\ u32 (next e) /\ is_array 9 (ekey e) /\ u8 (flags e).

Lemma entry_wf_empty : entry_wf entry_empty.
Proof. by vm_compute; split_and!; try (repeat constructor). Qed.

Lemma entry_roundtrip e :
  entry_wf e ->
  length (entry_to_bytes e) = LRU_ENTRY_SIZE /\ is_bytes (entry_to_bytes e) /\
  entry_from_bytes (entry_to_bytes e) = e.
Proof.
  destruct e as [p n k f]. intros (Hp & Hn & Hk & Hf). cbn [prev next ekey flags] in *.
  unfold entry_to_bytes, LRU_ENTRY_SIZE, entry_from_bytes. cbn [prev next ekey flags].
  abs_ints. explode_array Hk. layout. split_and!; [done| |congruence].
  unfold is_bytes in *. decompose_Forall; done.
Qed.

Lemma header_roundtrip h :
  header_wf h ->
  length (header_to_bytes h) = LRU_HEADER_SIZE /\
  header_from_bytes (header_to_bytes h) = Some h.
Proof.
  destruct h as [v m a t]. intros (Hv & Hm & Ha & Ht).
  cbn [version file_hash mru_head lru_tail] in *.
  assert (u16 v) by (unfold in_u, LRU_MAX_VERSION in *; lia).
  unfold header_to_bytes, LRU_HEADER_SIZE, header_from_bytes.
  cbn [version file_hash mru_head lru_tail].
  abs_ints. explode_array Hm. layout. split; [done|].
  rewrite E, E0, E1. by rewrite (proj2 (Z.ltb_ge _ _)) by lia.
Qed.

Section Format.
(** [md5::compute] of the md5 crate and [hex::decode] of the hex crate. *)
Context (md5 : bytes -> bytes) (hex_decode : bytes -> option bytes).

Definition filename_to_generation (name : bytes) : option Z :=
  if negb (length name =? LRU_FILENAME_LEN)%nat then None
  else if negb (bool_decide (drop (length name - 4) name = LRU_EXTENSION)) then None
  else
    match hex_decode (take 16 name) with
    | None => None
    | Some bs =>
        if negb (length bs =? 8)%nat then None else Some (from_be_bytes bs)
    end.

Definition serialize (header : LruFileHeader) (entries : list LruFileEntry) : bytes :=
  let header_bytes := copy_at 4 (zeros 16) (header_to_bytes header) in
  let data := header_bytes ++ concat (map entry_to_bytes entries) in
  copy_at 4 (md5 data) data.

Definition deserialize (data : bytes) : option (LruFileHeader * list LruFileEntry) :=
  if negb (validate_file_size (length data)) then None
  else
    match header_from_bytes (slice 0 LRU_HEADER_SIZE data) with
    | None => None
    | Some header =>
        let check_data := copy_at 4 (zeros 16) data in
        if negb (bool_decide (md5 check_data = file_hash header)) then None
        else
          let entry_count := entry_count_from_file_size (length data) in
          Some (header,
            map (fun i => entry_from_bytes
                   (slice (LRU_HEADER_SIZE + i * LRU_ENTRY_SIZE)
                          (LRU_HEADER_SIZE + i * LRU_ENTRY_SIZE + LRU_ENTRY_SIZE) data))
                (seq 0 entry_count))
    end.

(** The header with its hash field cleared, split around that field. *)
Lemma header_split h :
  header_wf h ->
  exists a t, copy_at 4 (zeros 16) (header_to_bytes h) = a ++ zeros 16 ++ t /\
    length a = 4%nat /\ length t = 8%nat /\
    forall m, length m = 16%nat ->
      header_from_bytes (a ++ m ++ t) =
        Some {| version := version h; file_hash := m;
                mru_head := mru_head h; lru_tail := lru_tail h |}.
Proof.
  destruct h as [v m a t]. intros (Hv & Hm & Ha & Ht).
  cbn [version file_hash mru_head lru_tail] in *.
  assert (u16 v) by (unfold in_u, LRU_MAX_VERSION in *; lia).
  unfold header_to_bytes, LRU_HEADER_SIZE. cbn [version file_hash mru_head lru_tail].
  abs_ints. explode_array Hm.
  exists [b7; b8; 0; 0], [b3; b4; b5; b6; b; b0; b1; b2]. split_and!; [layout; reflexivity|done|done|].
  intros m' Hm'. explode Hm'. unfold header_from_bytes. layout. rewrite E, E0, E1.
  by rewrite (proj2 (Z.ltb_ge _ _)) by lia.
Qed.

Context (md5_array : forall data, is_array 16 (md5 data)).

(** Shape of a serialised file: two header parts around the MD5 of the file with
    zeros in that place, then the entries. *)
Lemma serialize_shape h es :
  header_wf h ->
  exists a t m, length a = 4%nat /\ length t = 8%nat /\ length m = 16%nat /\
    serialize h es = a ++ m ++ t ++ concat (map entry_to_bytes es) /\
    m = md5 (a ++ zeros 16 ++ t ++ concat (map entry_to_bytes es)) /\
    header_from_bytes (a ++ m ++ t) =
      Some {| version := version h; file_hash := m;
              mru_head := mru_head h; lru_tail := lru_tail h |}.
Proof.
  intros Hh. destruct (header_split h Hh) as (a & t & E & La & Lt & Hp).
  unfold serialize. rewrite E, <- !app_assoc.
  set (data := a ++ zeros 16 ++ t ++ _). exists a, t, (md5 data).
  destruct (md5_array data) as [Lm _]. split_and!; try done.
  - rewrite <- La at 1. unfold data at 2. apply copy_at_exact. by rewrite Lm.
  - by apply Hp.
Qed.

Lemma entries_blocks es : Forall entry_wf es -> blocks_of LRU_ENTRY_SIZE (map entry_to_bytes es).
Proof.
  intros H. unfold blocks_of. apply Forall_map. eapply Forall_impl; [done|].
  intros e He. apply (entry_roundtrip e He).
Qed.

Lemma map_entry_roundtrip es :
  Forall entry_wf es -> map entry_from_bytes (map entry_to_bytes es) = es.
Proof.
  induction 1 as [|e es He Hes IH]; [done|]. simpl. rewrite IH. f_equal.
  apply (entry_roundtrip e He).
Qed.

Lemma file_size_of n :
  validate_file_size (28 + n * LRU_ENTRY_SIZE) = true /\
  entry_count_from_file_size (28 + n * LRU_ENTRY_SIZE) = n.
Proof.
  unfold validate_file_size, entry_count_from_file_size, LRU_HEADER_SIZE.
  rewrite (proj2 (Nat.leb_le _ _)), (proj2 (Nat.ltb_ge _ _)) by lia.
  replace (28 + n * LRU_ENTRY_SIZE - 28)%nat with (n * LRU_ENTRY_SIZE)%nat by lia.
  rewrite Nat.Div0.mod_mul, Nat.div_mul by done. done.
Qed.

Lemma deserialize_serialize h es :
  header_wf h -> Forall entry_wf es ->
  exists m, deserialize (serialize h es) =
    Some ({| version := version h; file_hash := m;
             mru_head := mru_head h; lru_tail := lru_tail h |}, es).
Proof.
  intros Hh Hes. destruct (serialize_shape h es Hh) as (a & t & m & La & Lt & Lm & -> & Em & Hp).
  pose proof (entries_blocks es Hes) as Hb.
  assert (length (a ++ m ++ t ++ concat (map entry_to_bytes es)) =
          28 + length es * LRU_ENTRY_SIZE)%nat as L.
  { rewrite !length_app, La, Lt, Lm, (length_concat_blocks _ _ Hb), length_map. lia. }
  assert (copy_at 4 (zeros 16) (a ++ m ++ t ++ concat (map entry_to_bytes es)) =
          a ++ zeros 16 ++ t ++ concat (map entry_to_bytes es)) as Ec.
  { rewrite <- La at 1. apply copy_at_exact. by rewrite length_zeros, Lm. }
  exists m. unfold deserialize. rewrite L.
  destruct (file_size_of (length es)) as [-> ->]. simpl negb. cbv iota.
  rewrite !app_assoc. rewrite slice_app_exact.
  2: { unfold LRU_HEADER_SIZE. rewrite !length_app. lia. }
  rewrite <- !app_assoc, Hp. cbn [file_hash].
  rewrite Ec, <- Em, bool_decide_true by done. cbn [negb]. do 2 f_equal.
  rewrite !app_assoc, <- (app_nil_r (concat (map entry_to_bytes es))), <- (app_assoc a m t).
  rewrite map_slices; [|rewrite !length_app; unfold LRU_HEADER_SIZE; lia|done|by rewrite length_map].
  by apply map_entry_roundtrip.
Qed.

Context (hex_decode_lower : forall bs, is_bytes bs -> hex_decode (concat (map hex_byte bs)) = Some bs).

Lemma length_hex bs : length (concat (map hex_byte bs)) = (2 * length bs)%nat.
Proof. induction bs as [|b bs IH]; simpl; [done|]. simpl in IH. lia. Qed.

Lemma filename_roundtrip g :
  u64 g -> filename_to_generation (generation_to_filename g) = Some g.
Proof.
  intros Hg. unfold filename_to_generation, generation_to_filename.
  assert (length (concat (map hex_byte (to_be_bytes 8 g))) = 16%nat) as L
    by by rewrite length_hex, length_to_be_bytes.
  pose proof (hex_decode_lower (to_be_bytes 8 g) ltac:(casc_auto)) as Hd.
  pose proof (length_to_be_bytes 8 g) as L8.
  generalize dependent (concat (map hex_byte (to_be_bytes 8 g))). intros hx L Hd.
  rewrite length_app, L. cbn [length LRU_EXTENSION Nat.add Nat.sub Nat.eqb negb LRU_FILENAME_LEN].
  assert (drop 16 (hx ++ LRU_EXTENSION) = LRU_EXTENSION) as ->
    by (rewrite <- L; apply drop_app_length).
  assert (take 16 (hx ++ LRU_EXTENSION) = hx) as -> by (rewrite <- L; apply take_app_length).
  rewrite bool_decide_true, Hd, L8 by done. cbn [Nat.eqb negb]. f_equal.
  by apply (be_roundtrip 8 64).
Qed.

End Format.

(** ** Instances of the two crates' contracts, for the witnesses *)

Fixpoint hex_decode_ref (l : bytes) : option bytes :=
  match l with
  | [] => Some []
  | a :: b :: l =>
      match digit_val a, digit_val b, hex_decode_ref l with
      | Some x, Some y, Some r => Some (16 * x + y :: r)
      | _, _, _ => None
      end
  | _ => None
  end.

Lemma hex_decode_ref_lower bs :
  is_bytes bs -> hex_decode_ref (concat (map hex_byte bs)) = Some bs.
Proof.
  induction 1 as [|b bs Hb Hbs IH]; [done|]. simpl. simpl in IH. unfold in_u in Hb.
  change (2 ^ 8) with 256 in Hb.
  rewrite !digit_val_hex_digit, IH.
  - do 2 f_equal. pose proof (Z.div_mod b 16). lia.
  - apply Z.mod_pos_bound. lia.
  - split; [apply Z.div_pos; lia|apply Z.div_lt_upper_bound; lia].
Qed.

Definition digest_ref (data : bytes) : bytes := to_le_bytes 16 (from_le_bytes data).

Lemma digest_ref_array data : is_array 16 (digest_ref data).
Proof. split; [apply length_to_le_bytes|apply to_le_bytes_bytes]. Qed.

End LruFile.
