(* ===== verification/Lru.v ===== *)
(** * The LRU manager: crates/cascette-client-storage/src/lru/mod.rs

    A doubly-linked list threaded through a flat array, a hash map from key to
    slot, a free list, and the generation-numbered checkpoints on disk.  Every
    array access of the source is a [vec_get] or [vec_modify], so that an index
    out of range is a [Panic] of the model.

    [rep m l] says that the manager [m] represents the sequence [l] of (slot,
    key) pairs, least recently used first; the theorems are stated against the
    abstract cache [Spec], which is a sequence of keys and a number of free
    slots. *)

From S2P Require Import Prelude Bytes Disk LruFile.
Import LruFile.
Local Open Scope Z_scope.

Module Lru.

Record LruManager := {
  header : LruFileHeader;
  entries : list LruFileEntry;
  key_map : gmap bytes Z;
  free_list : list Z;
  generation : Z;
  prev_generation : Z;
  capacity : Z;
}.

Definition set_header (m : LruManager) (h : LruFileHeader) : LruManager :=
  {| header := h; entries := entries m; key_map := key_map m; free_list := free_list m;
     generation := generation m; prev_generation := prev_generation m; capacity := capacity m |}.
Definition set_entries (m : LruManager) (es : list LruFileEntry) : LruManager :=
  {| header := header m; entries := es; key_map := key_map m; free_list := free_list m;
     generation := generation m; prev_generation := prev_generation m; capacity := capacity m |}.
Definition set_key_map (m : LruManager) (km : gmap bytes Z) : LruManager :=
  {| header := header m; entries := entries m; key_map := km; free_list := free_list m;
     generation := generation m; prev_generation := prev_generation m; capacity := capacity m |}.
Definition set_free_list (m : LruManager) (f : list Z) : LruManager :=
  {| header := header m; entries := entries m; key_map := key_map m; free_list := f;
     generation := generation m; prev_generation := prev_generation m; capacity := capacity m |}.

Definition with_tail (h : LruFileHeader) (t : Z) : LruFileHeader :=
  {| version := version h; file_hash := file_hash h; mru_head := mru_head h; lru_tail := t |}.
Definition with_head (h : LruFileHeader) (x : Z) : LruFileHeader :=
  {| version := version h; file_hash := file_hash h; mru_head := x; lru_tail := lru_tail h |}.
Definition with_prev (p : Z) (e : LruFileEntry) : LruFileEntry :=
  {| prev := p; next := next e; ekey := ekey e; flags := flags e |}.
Definition with_next (n : Z) (e : LruFileEntry) : LruFileEntry :=
  {| prev := prev e; next := n; ekey := ekey e; flags := flags e |}.

(** [self.entries[i].field = v]. *)
Definition modify_entry (m : LruManager) (i : Z) (f : LruFileEntry -> LruFileEntry) : outcome LruManager :=
  es ← vec_modify (entries m) i f; Ret (set_entries m es).

(** ** Linked-list operations *)

Definition unlink (m : LruManager) (idx : Z) : outcome LruManager :=
  entry ← vec_get (entries m) idx;
  let prev := prev entry in
  let next := next entry in
  m ← (if prev =? LRU_SENTINEL then Ret (set_header m (with_tail (header m) next))
       else modify_entry m prev (with_next next));
  m ← (if next =? LRU_SENTINEL then Ret (set_header m (with_head (header m) prev))
       else modify_entry m next (with_prev prev));
  m ← modify_entry m idx (with_prev LRU_SENTINEL);
  modify_entry m idx (with_next LRU_SENTINEL).

Definition link_at_head (m : LruManager) (idx : Z) : outcome LruManager :=
  let old_head := mru_head (header m) in
  m ← modify_entry m idx (with_next LRU_SENTINEL);
  m ← modify_entry m idx (with_prev old_head);
  m ← (if old_head =? LRU_SENTINEL then Ret (set_header m (with_tail (header m) idx))
       else modify_entry m old_head (with_next idx));
  Ret (set_header m (with_head (header m) idx)).

(** ** Public operations *)

(** [LruManager::new]. *)
Definition new (cap : Z) : LruManager :=
  {| header := header_default;
     entries := replicate (Z.to_nat cap) entry_empty;
     key_map := ∅;
     free_list := Z.of_nat <$> seq 0 (Z.to_nat cap);
     generation := 1; prev_generation := 0; capacity := cap |}.

Definition evict_tail (m : LruManager) : outcome (option Z * LruManager) :=
  let tail := lru_tail (header m) in
  if tail =? LRU_SENTINEL then Ret (None, m)
  else
    entry ← vec_get (entries m) tail;
    let m := set_key_map m (delete (ekey entry) (key_map m)) in
    m ← unlink m tail;
    m ← modify_entry m tail (fun _ => entry_empty);
    Ret (Some tail, m).

Definition touch (m : LruManager) (key : bytes) : outcome (bool * LruManager) :=
  match key_map m !! key with
  | Some idx =>
      m ← unlink m idx;
      m ← link_at_head m idx;
      Ret (true, m)
  | None =>
      '(slot, m) ← (match vec_pop (free_list m) with
                    | Some (free_idx, rest) => Ret (Some free_idx, set_free_list m rest)
                    | None => evict_tail m
                    end);
      match slot with
      | None => Ret (false, m)
      | Some idx =>
          m ← modify_entry m idx (fun _ =>
                {| prev := LRU_SENTINEL; next := LRU_SENTINEL; ekey := key; flags := 0 |});
          let m := set_key_map m (<[key := idx]> (key_map m)) in
          m ← link_at_head m idx;
          Ret (true, m)
      end
  end.

Definition remove (m : LruManager) (key : bytes) : outcome (bool * LruManager) :=
  match key_map m !! key with
  | None => Ret (false, m)
  | Some idx =>
      let m := set_key_map m (delete key (key_map m)) in
      m ← unlink m idx;
      m ← modify_entry m idx (fun _ => entry_empty);
      Ret (true, set_free_list m (free_list m ++ [idx]))
  end.

Definition contains (m : LruManager) (key : bytes) : bool := bool_decide (is_Some (key_map m !! key)).

Definition len (m : LruManager) : nat := size (key_map m).

Definition is_empty (m : LruManager) : bool := (len m =? 0)%nat.

Definition bump_generation (m : LruManager) : LruManager :=
  let g := wrap64 (generation m + 1) in
  {| header := header m; entries := entries m; key_map := key_map m; free_list := free_list m;
     generation := if g =? 0 then 1 else g; prev_generation := generation m; capacity := capacity m |}.

(** [while freed < target_bytes { if self.evict_tail().is_none() { break } ... }];
    [None] is a run longer than [fuel] iterations. *)
Fixpoint evict_loop (fuel : nat) (m : LruManager) (target avg : Z) (evicted : nat) (freed : Z)
  : outcome (option (nat * Z * LruManager)) :=
  match fuel with
  | O => Ret None
  | S fuel =>
      if freed <? target then
        '(slot, m) ← evict_tail m;
        match slot with
        | None => Ret (Some (evicted, freed, m))
        | Some _ => evict_loop fuel m target avg (S evicted) (wrap64 (freed + avg))
        end
      else Ret (Some (evicted, freed, m))
  end.

(** An eviction empties one slot of the array, so one iteration per slot and one
    more for the test that ends the loop is always enough. *)
Definition evict_to_target (m : LruManager) (target avg : Z) : outcome (option (nat * Z * LruManager)) :=
  evict_loop (S (length (entries m))) m target avg 0 0.

(** The keys [for_each_entry] passes to its callback, from the tail on; [None]
    is a walk longer than [fuel]. *)
Fixpoint walk (fuel : nat) (es : list LruFileEntry) (idx : Z) : outcome (option (list bytes)) :=
  match fuel with
  | O => Ret None
  | S fuel =>
      if idx =? LRU_SENTINEL then Ret (Some [])
      else
        entry ← vec_get es idx;
        rest ← walk fuel es (next entry);
        Ret (match rest with
             | None => None
             | Some ks => Some (if is_active entry then ekey entry :: ks else ks)
             end)
  end.

Definition for_each_entry (m : LruManager) : outcome (option (list bytes)) :=
  walk (S (length (entries m))) (entries m) (lru_tail (header m)).

Definition reset (m : LruManager) : LruManager :=
  {| header := header_default;
     entries := replicate (Z.to_nat (capacity m)) entry_empty;
     key_map := ∅;
     free_list := Z.of_nat <$> seq 0 (Z.to_nat (capacity m));
     generation := generation m; prev_generation := prev_generation m; capacity := capacity m |}.

(** ** The data directory

    [Io] says which system calls fail; [partial] is what a failed write leaves
    in the file, [None] if it was not even created. *)

Record Io := {
  write_ok : bool;
  partial : option bytes;
  read_ok : bool;
  list_ok : bool;
  remove_ok : bytes -> bool;
}.

Section Disk.
Context (md5 : bytes -> bytes) (hex_decode : bytes -> option bytes).

Definition checkpoint_to_disk (io : Io) (m : LruManager) (d : disk) : result StorageError unit * disk :=
  let data := serialize md5 (header m) (entries m) in
  let name := generation_to_filename (generation m) in
  if write_ok io then
    let d := disk_write d name data in
    let d :=
      if negb (prev_generation m =? 0) then
        let prev_name := generation_to_filename (prev_generation m) in
        if remove_ok io prev_name then disk_remove d prev_name else d
      else d in
    (Ok tt, d)
  else
    (Err (CacheError "failed to write LRU checkpoint"),
     match partial io with Some p => disk_write d name p | None => d end).

(** The loop of [load_from_disk] over [entries.iter().enumerate()]. *)
Definition rebuild (es : list LruFileEntry) : gmap bytes Z * list Z :=
  fold_left (fun '(km, fl) '(i, e) =>
    if is_active e then (<[ekey e := Z.of_nat i]> km, fl) else (km, fl ++ [Z.of_nat i]))
    (imap pair es) (∅, []).

Definition load_from_disk (io : Io) (m : LruManager) (gen : Z) (d : disk) : result StorageError LruManager :=
  match (if read_ok io then disk_get d (generation_to_filename gen) else None) with
  | None => Err (CacheError "failed to read LRU file")
  | Some data =>
      match deserialize md5 data with
      | None => Err (CacheError "invalid LRU file")
      | Some (h, es) =>
          let '(km, fl) := rebuild es in
          Ok {| header := h; entries := es; key_map := km; free_list := fl;
                generation := gen; prev_generation := prev_generation m; capacity := capacity m |}
      end
  end.

(** The body of the loop in [find_latest_lru_file]; [None] is the early return
    of [name.to_str()?]. *)
Fixpoint find_latest (d : disk) (best : option (Z * bytes)) : option (Z * bytes) :=
  match d with
  | [] => best
  | (name, _) :: d =>
      if utf8_valid name then
        find_latest d
          (match filename_to_generation hex_decode name with
           | Some file_gen =>
               match best with
               | Some (best_gen, _) => if best_gen <? file_gen then Some (file_gen, name) else best
               | None => Some (file_gen, name)
               end
           | None => best
           end)
      else None
  end.

Definition find_latest_lru_file (io : Io) (d : disk) : option (Z * bytes) :=
  if list_ok io then find_latest d None else None.

(** The files [scan_directory] tries to remove. *)
Definition is_stale (m : LruManager) (name : bytes) : bool :=
  utf8_valid name &&
  match filename_to_generation hex_decode name with
  | Some file_gen => negb (file_gen =? generation m) && negb (file_gen =? prev_generation m)
  | None => false
  end.

Definition scan_directory (io : Io) (m : LruManager) (d : disk) : nat * disk :=
  if list_ok io then
    let gone name := is_stale m name && remove_ok io name in
    (length (filter (fun f => gone (fst f) = true) d), filter (fun f => gone (fst f) = false) d)
  else (0%nat, d).

Record LruCycleStats := {
  loaded_entries : nat;
  entries_evicted : nat;
  bytes_freed : Z;
  stale_files_removed : nat;
  active_entries : nat;
}.

(** [None] in the result is a loop that outran its fuel. *)
Definition run_cycle (io : Io) (m : LruManager) (d : disk) (size_limit avg : Z)
  : outcome (option (result StorageError LruCycleStats * LruManager * disk)) :=
  let loaded :=
    match find_latest_lru_file io d with
    | Some (gen, _) =>
        match load_from_disk io m gen d with Ok m => Ok (m, len m) | Err e => Err e end
    | None => Ok (m, 0%nat)
    end in
  match loaded with
  | Err e => Ret (Some (Err e, m, d))
  | Ok (m, n_loaded) =>
      ev ← (if (0 <? size_limit) && (0 <? avg) then
              let current_size := wrap64 (Z.of_nat (len m) * avg) in
              if size_limit <? current_size
              then evict_to_target m (current_size - size_limit) avg
              else Ret (Some (0%nat, 0, m))
            else Ret (Some (0%nat, 0, m)));
      match ev with
      | None => Ret None
      | Some (evicted, freed, m) =>
          let '(stale, d) := scan_directory io m d in
          ks ← for_each_entry m;
          match ks with
          | None => Ret None
          | Some ks =>
              Ret (Some (Ok {| loaded_entries := n_loaded; entries_evicted := evicted;
                               bytes_freed := freed; stale_files_removed := stale;
                               active_entries := length ks |}, m, d))
          end
      end
  end.

Definition shutdown (io : Io) (m : LruManager) (d : disk) : result StorageError unit * LruManager * disk :=
  let m := bump_generation m in
  match checkpoint_to_disk io m d with
  | (Err e, d) => (Err e, m, d)
  | (Ok _, d) => let '(_, d) := scan_directory io m d in (Ok tt, m, d)
  end.

End Disk.

(** ** The linked list

    [seg es p l q]: the slots of [l] form a chain in [es] whose first element
    points back to [p] and whose last element points on to [q]. *)

Abbreviation chain := (list (nat * bytes)).

Definition first (l : chain) (q : Z) : Z :=
  match l with [] => q | (i, _) :: _ => Z.of_nat i end.
Definition final (l : chain) (p : Z) : Z :=
  match last l with None => p | Some (i, _) => Z.of_nat i end.

Fixpoint seg (es : list LruFileEntry) (p : Z) (l : chain) (q : Z) : Prop :=
  match l with
  | [] => True
  | (i, k) :: l' =>
      (exists e, es !! i = Some e /\ prev e = p /\ next e = first l' q /\ ekey e = k) /\
      seg es (Z.of_nat i) l' q
  end.

Lemma final_cons i k l p : final ((i, k) :: l) p = final l (Z.of_nat i).
Proof. unfold final. rewrite last_cons. destruct (last l) as [[]|]; done. Qed.

Lemma final_snoc l i k p : final (l ++ [(i, k)]) p = Z.of_nat i.
Proof. unfold final. by rewrite last_snoc. Qed.

Lemma first_snoc l i k q q' : first (l ++ [(i, k)]) q = first (l ++ [(i, k)]) q'.
Proof. by destruct l as [|[]]. Qed.

Lemma seg_app es p l1 l2 q :
  seg es p (l1 ++ l2) q <-> seg es p l1 (first l2 q) /\ seg es (final l1 p) l2 q.
Proof.
  revert p. induction l1 as [|[i k] l1 IH]; intros p; simpl; [tauto|].
  rewrite IH, final_cons.
  assert (first (l1 ++ l2) q = first l1 (first l2 q)) as -> by by destruct l1 as [|[]].
  tauto.
Qed.

(** A write to a slot outside the chain leaves it alone. *)
Lemma seg_frame es p l q i e :
  i ∉ l.*1 -> seg es p l q -> seg (<[i := e]> es) p l q.
Proof.
  revert p. induction l as [|[j k] l IH]; intros p Hi; simpl; [done|].
  simpl in Hi. apply not_elem_of_cons in Hi as [Hne Hi].
  intros [Hj Hs]. split; [|by apply IH]. by rewrite list_lookup_insert_ne.
Qed.

(** Redirecting the last element. *)
Lemma seg_redirect_last es p l i k q q' :
  NoDup (l ++ [(i, k)]).*1 -> seg es p (l ++ [(i, k)]) q ->
  exists e, es !! i = Some e /\ seg (<[i := with_next q' e]> es) p (l ++ [(i, k)]) q'.
Proof.
  rewrite fmap_app. intros Hnd Hs. apply seg_app in Hs as [H1 [(e & He & Hp & Hn & Hk) _]].
  exists e. split; [done|]. apply seg_app. simpl in *. split.
  - apply seg_frame; [|done]. apply NoDup_app in Hnd as (_ & Hd & _).
    intros Hin. apply (Hd i Hin). by left.
  - split; [|done]. exists (with_next q' e). rewrite list_lookup_insert_eq by by eapply lookup_lt_Some.
    done.
Qed.

(** Redirecting the first element. *)
Lemma seg_redirect_first es p p' l i k q :
  NoDup ((i, k) :: l).*1 -> seg es p ((i, k) :: l) q ->
  exists e, es !! i = Some e /\ seg (<[i := with_prev p' e]> es) p' ((i, k) :: l) q.
Proof.
  simpl. intros Hnd [(e & He & Hp & Hn & Hk) Hs]. apply NoDup_cons in Hnd as [Hi _].
  exists e. split; [done|]. split; [|by apply seg_frame].
  exists (with_prev p' e). rewrite list_lookup_insert_eq by by eapply lookup_lt_Some. done.
Qed.

Lemma seg_lookup es p l q i k :
  seg es p l q -> (i, k) ∈ l -> exists e, es !! i = Some e /\ ekey e = k.
Proof.
  revert p. induction l as [|[j k'] l IH]; intros p; simpl; [set_solver|].
  intros [(e & He & _ & _ & Hk) Hs] [Hx|Hin]%elem_of_cons; [|eauto]. simplify_eq. eauto.
Qed.

(** The chain of a whole manager: array, header and list agree. *)
Definition small (es : list LruFileEntry) : Prop := Z.of_nat (length es) <= LRU_SENTINEL.

Definition linked (m : LruManager) (l : chain) : Prop :=
  NoDup l.*1 /\ seg (entries m) LRU_SENTINEL l LRU_SENTINEL /\
  lru_tail (header m) = first l LRU_SENTINEL /\ mru_head (header m) = final l LRU_SENTINEL /\
  small (entries m).

Lemma slot_not_sentinel (es : list LruFileEntry) i e :
  small es -> es !! i = Some e -> (Z.of_nat i =? LRU_SENTINEL) = false.
Proof.
  intros Hs He. apply lookup_lt_Some in He. unfold small in Hs. apply Z.eqb_neq. lia.
Qed.

Lemma modify_entry_ok m i e f :
  entries m !! i = Some e ->
  modify_entry m (Z.of_nat i) f = Ret (set_entries m (<[i := f e]> (entries m))).
Proof. intros He. unfold modify_entry. by rewrite (vec_modify_nat _ _ _ _ He). Qed.

(** [m'] differs from [m] in the links only, and outside [l] in nothing. *)
Definition same_rest (m m' : LruManager) (l : chain) : Prop :=
  key_map m' = key_map m /\ free_list m' = free_list m /\ generation m' = generation m /\
  prev_generation m' = prev_generation m /\ capacity m' = capacity m /\
  length (entries m') = length (entries m) /\
  (forall j, j ∉ l.*1 -> entries m' !! j = entries m !! j).

Lemma same_rest_entry m i e f l :
  entries m !! i = Some e -> i ∈ l.*1 ->
  same_rest m (set_entries m (<[i := f e]> (entries m))) l.
Proof.
  intros He Hi. split_and!; try done; simpl; [by rewrite length_insert|].
  intros j Hj. rewrite list_lookup_insert_ne; [done|]. by intros ->.
Qed.

Lemma same_rest_header m h l : same_rest m (set_header m h) l.
Proof. done. Qed.

Lemma same_rest_trans m1 m2 m3 l : same_rest m1 m2 l -> same_rest m2 m3 l -> same_rest m1 m3 l.
Proof.
  intros (?&?&?&?&?&?&HA) (?&?&?&?&?&?&HB). split_and!; try congruence.
  intros j Hj. rewrite HB, HA by done. done.
Qed.

Lemma same_rest_mono m1 m2 l l' :
  (forall j, j ∈ l.*1 -> j ∈ l'.*1) -> same_rest m1 m2 l -> same_rest m1 m2 l'.
Proof. intros Hl (?&?&?&?&?&?&HA). split_and!; auto. Qed.

Lemma same_rest_len m m' l : same_rest m m' l -> length (entries m') = length (entries m).
Proof. by intros (_&_&_&_&_&?&_). Qed.

(** A chain depends on its own slots only. *)
Lemma seg_ext es es' p l q :
  (forall j, j ∈ l.*1 -> es !! j = es' !! j) -> seg es p l q -> seg es' p l q.
Proof.
  revert p. induction l as [|[i k] l IH]; intros p Hl; simpl; [done|].
  rewrite (Hl i) by (simpl; by left). intros [He Hs]. split; [done|].
  apply IH; [|done]. intros j Hj. apply Hl. simpl. by right.
Qed.

(** The left half of [unlink] (and of [link_at_head]): whoever precedes now
    points on to [q']. *)
Lemma redirect_left m l q q' :
  NoDup l.*1 -> seg (entries m) LRU_SENTINEL l q -> small (entries m) ->
  exists m1,
    (if final l LRU_SENTINEL =? LRU_SENTINEL then Ret (set_header m (with_tail (header m) q'))
     else modify_entry m (final l LRU_SENTINEL) (with_next q')) = Ret m1 /\
    seg (entries m1) LRU_SENTINEL l q' /\ same_rest m m1 l /\
    mru_head (header m1) = mru_head (header m) /\
    lru_tail (header m1) = match l with [] => q' | _ => lru_tail (header m) end.
Proof.
  intros Hnd Hs Hsm. destruct (list_snoc_cases l) as [->|(l' & [i k] & ->)].
  - eexists. split_and!; [done..|]. done.
  - destruct (seg_redirect_last _ _ _ _ _ _ q' Hnd Hs) as (e & He & Hs').
    rewrite final_snoc, (slot_not_sentinel _ _ _ Hsm He), (modify_entry_ok _ _ _ _ He).
    eexists. split_and!; [done|done| |done|by destruct l'].
    apply same_rest_entry; [done|]. rewrite fmap_app. set_solver.
Qed.

(** The right half: whoever follows now points back to [p']. *)
Lemma redirect_right m l p p' :
  NoDup l.*1 -> seg (entries m) p l LRU_SENTINEL -> small (entries m) ->
  exists m1,
    (if first l LRU_SENTINEL =? LRU_SENTINEL then Ret (set_header m (with_head (header m) p'))
     else modify_entry m (first l LRU_SENTINEL) (with_prev p')) = Ret m1 /\
    seg (entries m1) p' l LRU_SENTINEL /\ same_rest m m1 l /\
    lru_tail (header m1) = lru_tail (header m) /\
    mru_head (header m1) = match l with [] => p' | _ => mru_head (header m) end.
Proof.
  intros Hnd Hs Hsm. destruct l as [|[i k] l].
  - eexists. split_and!; [done..|]. done.
  - destruct (seg_redirect_first _ _ p' _ _ _ _ Hnd Hs) as (e & He & Hs').
    cbn [first]. rewrite (slot_not_sentinel _ _ _ Hsm He), (modify_entry_ok _ _ _ _ He).
    eexists. split_and!; [done|done| |done..].
    apply same_rest_entry; [done|]. simpl. set_solver.
Qed.

(** [unlink] takes a slot out of the chain and clears its links. *)
Lemma unlink_ok m l1 i k l2 :
  linked m (l1 ++ (i, k) :: l2) ->
  exists m' e, unlink m (Z.of_nat i) = Ret m' /\ linked m' (l1 ++ l2) /\
    same_rest m m' (l1 ++ (i, k) :: l2) /\ entries m' !! i = Some e /\ ekey e = k.
Proof.
  intros (Hnd & Hs & Ht & Hh & Hsm).
  apply seg_app in Hs as [Hs1 [(e & He & Hp & Hn & Hk) Hs2]]. fold seg in Hs2.
  rewrite fmap_app in Hnd. simpl in Hnd.
  apply NoDup_app in Hnd as (Hnd1 & Hd & [Hi2 Hnd2]%NoDup_cons).
  assert (i ∉ l1.*1) as Hi1 by (intros Hin; apply (Hd i Hin); by left).
  assert (forall j, j ∈ l1.*1 -> j ∉ l2.*1) as Hd12
    by (intros j Hj Hj2; apply (Hd j Hj); by right).
  unfold unlink. rewrite (vec_get_nat _ _ _ He). cbn [mbind outcome_bind]. rewrite Hp, Hn.
  destruct (redirect_left m l1 _ (first l2 LRU_SENTINEL) Hnd1 Hs1 Hsm)
    as (m1 & -> & Hs1' & R1 & Hh1 & Ht1). cbn [mbind outcome_bind].
  assert (seg (entries m1) (Z.of_nat i) l2 LRU_SENTINEL) as Hs2'.
  { eapply seg_ext; [|exact Hs2]. intros j Hj. symmetry. apply R1. intros Hj1. by apply (Hd12 j). }
  assert (small (entries m1)) as Hsm1 by (unfold small; by rewrite (same_rest_len _ _ _ R1)).
  destruct (redirect_right m1 l2 _ (final l1 LRU_SENTINEL) Hnd2 Hs2' Hsm1)
    as (m2 & -> & Hs2'' & R2 & Ht2 & Hh2). cbn [mbind outcome_bind].
  assert (entries m2 !! i = Some e) as He2.
  { destruct R2 as (_&_&_&_&_&_&->); [|done]. by destruct R1 as (_&_&_&_&_&_&->). }
  rewrite (modify_entry_ok _ _ _ _ He2). cbn [mbind outcome_bind].
  erewrite modify_entry_ok.
  2: { simpl. rewrite list_lookup_insert_eq by by eapply lookup_lt_Some. done. }
  simpl. rewrite list_insert_insert_eq.
  eexists _, _. split_and!; [done| | |simpl; apply list_lookup_insert_eq; by eapply lookup_lt_Some|done].
  - split_and!; simpl.
    + rewrite fmap_app. apply NoDup_app. auto.
    + apply seg_app. split; apply seg_frame; auto.
      eapply seg_ext; [|exact Hs1']. intros j Hj. symmetry. apply R2. auto.
    + rewrite Ht2, Ht1, Ht. by destruct l1 as [|[]].
    + rewrite Hh2, Hh1, Hh. destruct (list_snoc_cases l2) as [->|(l' & [j kj] & ->)].
      * by rewrite app_nil_r.
      * rewrite app_comm_cons, !app_assoc, !final_snoc. by destruct l'.
    + unfold small. simpl. rewrite length_insert, (same_rest_len _ _ _ R2). done.
  - apply (same_rest_trans _ m1).
    { eapply same_rest_mono; [|exact R1]. intros j. rewrite fmap_app. set_solver. }
    apply (same_rest_trans _ m2).
    { eapply same_rest_mono; [|exact R2]. intros j. rewrite fmap_app. set_solver. }
    split_and!; try done; simpl; [by rewrite length_insert|].
    intros j Hj. rewrite list_lookup_insert_ne; [done|]. intros ->. apply Hj.
    rewrite fmap_app. set_solver.
Qed.

(** [link_at_head] appends a slot outside the chain at its recent end. *)
Lemma link_at_head_ok m l i e :
  linked m l -> i ∉ l.*1 -> entries m !! i = Some e ->
  exists m', link_at_head m (Z.of_nat i) = Ret m' /\ linked m' (l ++ [(i, ekey e)]) /\
    same_rest m m' (l ++ [(i, ekey e)]).
Proof.
  intros (Hnd & Hs & Ht & Hh & Hsm) Hi He. unfold link_at_head.
  rewrite (modify_entry_ok _ _ _ _ He). cbn [mbind outcome_bind].
  erewrite modify_entry_ok.
  2: { simpl. rewrite list_lookup_insert_eq by by eapply lookup_lt_Some. done. }
  cbn [mbind outcome_bind entries set_entries]. rewrite list_insert_insert_eq, Hh.
  set (e' := with_prev _ _). set (es := <[i := e']> (entries m)).
  assert (seg es LRU_SENTINEL l LRU_SENTINEL) as Hs0 by by apply seg_frame.
  assert (small es) as Hsm0 by (unfold small, es; by rewrite length_insert).
  set (m0 := set_entries (set_entries m _) es).
  destruct (redirect_left m0 l _ (Z.of_nat i) Hnd Hs0 Hsm0) as (m1 & -> & Hs1 & R1 & Hh1 & Ht1).
  cbn [mbind outcome_bind]. eexists. split; [done|].
  assert (entries m1 !! i = Some e') as Hi1.
  { destruct R1 as (_&_&_&_&_&_&->); [|done]. simpl. unfold es.
    apply list_lookup_insert_eq. by eapply lookup_lt_Some. }
  split.
  - split_and!; simpl.
    + rewrite fmap_app. by apply NoDup_snoc.
    + apply seg_app. simpl. split; [done|]. split; [|done]. by exists e'.
    + rewrite Ht1. simpl. rewrite Ht. by destruct l as [|[]].
    + by rewrite final_snoc.
    + unfold small. by rewrite (same_rest_len _ _ _ R1).
  - apply (same_rest_trans _ m0).
    + split_and!; try done; simpl; unfold es; [by rewrite length_insert|].
      intros j Hj. rewrite list_lookup_insert_ne; [done|]. intros ->. apply Hj.
      rewrite fmap_app. set_solver.
    + eapply same_rest_mono; [|exact R1]. intros j. rewrite fmap_app. set_solver.
Qed.

(** ** Representation *)

(** The free list holds slots outside the chain. *)
Definition free_ok (m : LruManager) (l : chain) : Prop :=
  exists fr : list nat, free_list m = Z.of_nat <$> fr /\ NoDup fr /\
    forall j, j ∈ fr -> (j < length (entries m))%nat /\ j ∉ l.*1.

Definition map_ok (m : LruManager) (l : chain) : Prop :=
  forall k z, key_map m !! k = Some z <-> exists i, z = Z.of_nat i /\ (i, k) ∈ l.

Record rep (m : LruManager) (l : chain) : Prop := {
  rep_linked : linked m l;
  rep_keys : NoDup l.*2;
  rep_map : map_ok m l;
  rep_free : free_ok m l;
  rep_rest : forall j e, j ∉ l.*1 -> entries m !! j = Some e -> e = entry_empty;
}.

(** The abstract cache: keys from the least to the most recently used, and the
    number of free slots. *)
Record Spec := { keys : list bytes; free : nat }.

Definition spec_touch (s : Spec) (k : bytes) : bool * Spec :=
  if decide (k ∈ keys s) then
    (true, {| keys := filter (fun k' => k' <> k) (keys s) ++ [k]; free := free s |})
  else
    match free s, keys s with
    | S f, ks => (true, {| keys := ks ++ [k]; free := f |})
    | O, _ :: ks => (true, {| keys := ks ++ [k]; free := O |})
    | O, [] => (false, s)
    end.

Definition spec_remove (s : Spec) (k : bytes) : bool * Spec :=
  if decide (k ∈ keys s) then
    (true, {| keys := filter (fun k' => k' <> k) (keys s); free := S (free s) |})
  else (false, s).

(** Eviction drops the oldest key; the slot does not become free again. *)
Definition spec_evict (s : Spec) : option bytes * Spec :=
  match keys s with
  | [] => (None, s)
  | k :: ks => (Some k, {| keys := ks; free := free s |})
  end.

Definition abs (m : LruManager) (s : Spec) : Prop :=
  exists l, rep m l /\ l.*2 = keys s /\ length (free_list m) = free s.

Lemma chain_split (l : chain) i k : (i, k) ∈ l -> exists l1 l2, l = l1 ++ (i, k) :: l2.
Proof. apply list_elem_of_split. Qed.

(** With distinct keys, filtering a key out removes exactly its pair. *)
Lemma filter_key_split (l1 l2 : chain) i k :
  NoDup (l1 ++ (i, k) :: l2).*2 ->
  filter (fun k' => k' <> k) (l1 ++ (i, k) :: l2).*2 = (l1 ++ l2).*2.
Proof.
  rewrite !fmap_app, filter_app. simpl. intros (_ & Hd & [H2 _]%NoDup_cons)%NoDup_app.
  rewrite filter_cons_False by (simpl; auto).
  rewrite !filter_all; [done| |].
  - intros k' Hk' ->. done.
  - intros k' Hk' ->. apply (Hd k); [done|]. by left.
Qed.

Lemma map_ok_lookup m l k :
  NoDup l.*2 -> map_ok m l ->
  match key_map m !! k with
  | Some z => exists i l1 l2, z = Z.of_nat i /\ l = l1 ++ (i, k) :: l2
  | None => k ∉ l.*2
  end.
Proof.
  intros Hnd Hm. destruct (key_map m !! k) as [z|] eqn:E.
  - apply Hm in E as (i & -> & Hin). destruct (chain_split _ _ _ Hin) as (l1 & l2 & ->). eauto.
  - intros Hin. apply list_elem_of_fmap in Hin as ([i k'] & -> & Hin). simpl in E.
    assert (key_map m !! k' = Some (Z.of_nat i)) by (apply Hm; eauto). congruence.
Qed.

(** *** Effect of the steps of an operation on a represented chain *)

Lemma map_ok_remove m m' l1 i k l2 :
  NoDup (l1 ++ (i, k) :: l2).*2 -> map_ok m (l1 ++ (i, k) :: l2) ->
  key_map m' = delete k (key_map m) -> map_ok m' (l1 ++ l2).
Proof.
  intros Hnd Hm E k' z. rewrite E, lookup_delete_Some, (Hm k' z).
  rewrite fmap_app in Hnd. simpl in Hnd. apply NoDup_app in Hnd as (_ & Hd & [H2 _]%NoDup_cons).
  split.
  - intros (Hne & j & -> & Hin). exists j. split; [done|].
    apply elem_of_app in Hin as [?|[?|?]%elem_of_cons]; [|congruence|]; apply elem_of_app; auto.
  - intros (j & -> & Hin). split; [|exists j; split; [done|]].
    + intros <-. apply elem_of_app in Hin as [Hin|Hin].
      * apply (Hd k); [|by left]. by apply (list_elem_of_fmap_2 snd) in Hin.
      * apply H2. by apply (list_elem_of_fmap_2 snd) in Hin.
    + apply elem_of_app in Hin as [?|?]; apply elem_of_app; [by left|right; by right].
Qed.

Lemma map_ok_insert m m' l i k :
  k ∉ l.*2 -> map_ok m l -> key_map m' = <[k := Z.of_nat i]> (key_map m) ->
  map_ok m' (l ++ [(i, k)]).
Proof.
  intros Hk Hm E k' z. rewrite E, lookup_insert_Some, (Hm k' z). setoid_rewrite elem_of_app.
  setoid_rewrite list_elem_of_singleton. split.
  - intros [[<- <-]|(Hne & j & -> & Hin)]; eauto.
  - intros (j & -> & [Hin|[= -> ->]]); [right|by left]. split; [|eauto].
    intros <-. apply Hk. by apply (list_elem_of_fmap_2 snd) in Hin.
Qed.

Lemma not_in_split (l1 l2 : chain) i k j :
  NoDup (l1 ++ (i, k) :: l2).*1 ->
  j ∉ (l1 ++ l2).*1 <-> j = i \/ j ∉ (l1 ++ (i, k) :: l2).*1.
Proof.
  rewrite !fmap_app. simpl. intros (_ & Hd & [H2 _]%NoDup_cons)%NoDup_app.
  specialize (Hd i). destruct (decide (j = i)) as [->|]; set_solver.
Qed.

(** Taking a key out: what [unlink] followed by clearing the slot achieves. *)
Lemma take_out m l1 i k l2 :
  linked m (l1 ++ (i, k) :: l2) ->
  (forall j e, j ∉ (l1 ++ (i, k) :: l2).*1 -> entries m !! j = Some e -> e = entry_empty) ->
  exists m1 m', unlink m (Z.of_nat i) = Ret m1 /\
    modify_entry m1 (Z.of_nat i) (fun _ => entry_empty) = Ret m' /\
    linked m' (l1 ++ l2) /\ same_rest m m' (l1 ++ (i, k) :: l2) /\
    entries m' !! i = Some entry_empty /\
    (forall j e, j ∉ (l1 ++ l2).*1 -> entries m' !! j = Some e -> e = entry_empty).
Proof.
  intros Hl Hrest. destruct (unlink_ok m l1 i k l2 Hl) as (m1 & e & -> & Hl1 & R & He & Hk).
  exists m1. rewrite (modify_entry_ok _ _ _ _ He). eexists. split_and!; [done..| | | |].
  - destruct Hl1 as (Hnd & Hs & Ht & Hh & Hsm). split_and!; simpl; try done.
    + apply seg_frame; [|done]. apply (not_in_split l1 l2 i k); [apply Hl|by left].
    + unfold small. by rewrite length_insert.
  - eapply same_rest_trans; [exact R|]. eapply (same_rest_entry m1 i e (fun _ => entry_empty)); [done|].
    rewrite fmap_app. set_solver.
  - simpl. apply list_lookup_insert_eq. by eapply lookup_lt_Some.
  - intros j e' Hj. apply (not_in_split l1 l2 i k) in Hj; [|apply Hl]. simpl.
    destruct (decide (j = i)) as [->|Hne].
    + rewrite list_lookup_insert_eq by by eapply lookup_lt_Some. congruence.
    + rewrite list_lookup_insert_ne by done. destruct Hj as [?|Hj]; [done|].
      destruct R as (_&_&_&_&_&_&->); [|done]. by apply Hrest.
Qed.

(** Putting a fresh key into an unused slot. *)
Lemma put_in m l i k e0 :
  linked m l -> NoDup l.*2 -> map_ok m l -> free_ok m l ->
  (forall j e, j ∉ l.*1 -> entries m !! j = Some e -> e = entry_empty) ->
  entries m !! i = Some e0 -> i ∉ l.*1 -> Z.of_nat i ∉ free_list m -> k ∉ l.*2 ->
  exists m1 m', modify_entry m (Z.of_nat i) (fun _ =>
      {| prev := LRU_SENTINEL; next := LRU_SENTINEL; ekey := k; flags := 0 |}) = Ret m1 /\
    link_at_head (set_key_map m1 (<[k := Z.of_nat i]> (key_map m1))) (Z.of_nat i) = Ret m' /\
    rep m' (l ++ [(i, k)]) /\ free_list m' = free_list m.
Proof.
  intros (Hnd & Hs & Ht & Hh & Hsm) Hndk Hm (fr & Efr & Hndf & Hf) Hrest He Hi Hif Hk.
  rewrite (modify_entry_ok _ _ _ _ He). set (e := {| ekey := k |}).
  exists (set_entries m (<[i := e]> (entries m))).
  set (m1 := set_key_map _ _).
  assert (linked m1 l) as Hl1.
  { split_and!; simpl; try done; [by apply seg_frame|]. unfold small. by rewrite length_insert. }
  destruct (link_at_head_ok m1 l i e Hl1 Hi) as (m' & Hm' & Hl' & R').
  { simpl. apply list_lookup_insert_eq. by eapply lookup_lt_Some. }
  exists m'. split_and!; [done|done| |by rewrite (proj1 (proj2 R'))]. constructor.
  - done.
  - rewrite fmap_app. by apply NoDup_snoc.
  - eapply (map_ok_insert m); [done..|]. by rewrite (proj1 R').
  - exists fr. rewrite (proj1 (proj2 R')). split_and!; [done|done|]. intros j Hj.
    rewrite (same_rest_len _ _ _ R'). simpl. rewrite length_insert.
    destruct (Hf j Hj) as [? Hj']. split; [done|]. rewrite fmap_app. simpl.
    rewrite not_elem_of_app, list_elem_of_singleton. split; [done|]. intros ->.
    apply Hif. rewrite Efr. by apply list_elem_of_fmap_2.
  - intros j e' Hj. destruct R' as (_&_&_&_&_&_&HR). rewrite HR by done. simpl.
    rewrite fmap_app, not_elem_of_app in Hj. simpl in Hj. destruct Hj as [Hj Hne].
    rewrite list_elem_of_singleton in Hne. rewrite list_lookup_insert_ne by done. eauto.
Qed.

Lemma chain_slot_not_free m l i k : rep m l -> (i, k) ∈ l -> Z.of_nat i ∉ free_list m.
Proof.
  intros Hr Hin. destruct (rep_free _ _ Hr) as (fr & -> & _ & Hf). intros Hfr.
  apply list_elem_of_fmap in Hfr as (j & Ej & Hj). apply Nat2Z.inj in Ej as <-.
  apply (Hf i Hj). by apply (list_elem_of_fmap_2 fst) in Hin.
Qed.

Lemma free_ok_remove m m' l1 i k l2 :
  free_ok m (l1 ++ (i, k) :: l2) -> free_list m' = free_list m ->
  length (entries m') = length (entries m) -> free_ok m' (l1 ++ l2).
Proof.
  intros (fr & E & Hnd & Hf) E' L. exists fr. rewrite E', L. split_and!; [done..|].
  intros j Hj. destruct (Hf j Hj) as [? Hn]. split; [done|]. intros Hin. apply Hn.
  rewrite fmap_app in *. set_solver.
Qed.

(** Removing a represented key: the map entry, the links and the slot. *)
Lemma removal_rep m l1 i k l2 :
  rep m (l1 ++ (i, k) :: l2) ->
  exists m1 m', unlink (set_key_map m (delete k (key_map m))) (Z.of_nat i) = Ret m1 /\
    modify_entry m1 (Z.of_nat i) (fun _ => entry_empty) = Ret m' /\
    rep m' (l1 ++ l2) /\ entries m' !! i = Some entry_empty /\ free_list m' = free_list m.
Proof.
  intros Hr. set (m0 := set_key_map m _).
  destruct (take_out m0 l1 i k l2) as (m1 & m' & H1 & H2 & Hl' & R & He & Hrest).
  { apply Hr. } { apply Hr. }
  exists m1, m'. split_and!; try done; [|apply R]. constructor.
  - done.
  - pose proof (rep_keys _ _ Hr) as Hnd. rewrite <- Permutation_middle in Hnd.
    simpl in Hnd. by apply NoDup_cons in Hnd as [_ ?].
  - eapply (map_ok_remove m); [apply Hr..|]. apply R.
  - eapply (free_ok_remove m); [apply Hr|apply R..].
  - done.
Qed.

Lemma evict_empty m : rep m [] -> evict_tail m = Ret (None, m).
Proof.
  intros Hr. destruct (rep_linked _ _ Hr) as (_ & _ & Ht & _). unfold evict_tail.
  by rewrite Ht.
Qed.

Lemma evict_rep m i k l :
  rep m ((i, k) :: l) ->
  exists m', evict_tail m = Ret (Some (Z.of_nat i), m') /\ rep m' l /\
    entries m' !! i = Some entry_empty /\ free_list m' = free_list m.
Proof.
  intros Hr. destruct (rep_linked _ _ Hr) as (_ & [(e & He & _ & _ & Hk) _] & Ht & _ & Hsm).
  unfold evict_tail. rewrite Ht. cbn [first].
  rewrite (slot_not_sentinel _ _ _ Hsm He), (vec_get_nat _ _ _ He). cbn [mbind outcome_bind].
  rewrite Hk. destruct (removal_rep m [] i k l Hr) as (m1 & m' & -> & H2 & Hr' & He' & Hf).
  cbn [mbind outcome_bind]. rewrite H2. exists m'. auto.
Qed.

Lemma move_rep m l1 i k l2 :
  rep m (l1 ++ (i, k) :: l2) ->
  exists m1 m', unlink m (Z.of_nat i) = Ret m1 /\ link_at_head m1 (Z.of_nat i) = Ret m' /\
    rep m' ((l1 ++ l2) ++ [(i, k)]) /\ free_list m' = free_list m.
Proof.
  intros Hr. destruct (unlink_ok m l1 i k l2) as (m1 & e & H1 & Hl1 & R1 & He & Hk); [apply Hr|].
  destruct (link_at_head_ok m1 (l1 ++ l2) i e Hl1) as (m' & H2 & Hl2 & R2).
  { apply (not_in_split l1 l2 i k); [apply Hr|by left]. } { done. }
  rewrite Hk in *.
  assert (l1 ++ (i, k) :: l2 ≡ₚ (l1 ++ l2) ++ [(i, k)]) as HP by solve_Permutation.
  assert (same_rest m m' (l1 ++ (i, k) :: l2)) as R.
  { eapply same_rest_trans; [exact R1|]. eapply same_rest_mono; [|exact R2].
    intros j. by rewrite HP. }
  exists m1, m'. split_and!; [done..| |apply R]. constructor.
  - done.
  - rewrite <- HP. apply Hr.
  - intros k' z. rewrite (proj1 R), (rep_map _ _ Hr k' z). by setoid_rewrite HP.
  - destruct (rep_free _ _ Hr) as (fr & E & Hnd & Hf). exists fr.
    rewrite (proj1 (proj2 R)), (same_rest_len _ _ _ R). split_and!; [done..|].
    intros j Hj. rewrite <- HP. auto.
  - intros j e' Hj. rewrite <- HP in Hj. destruct R as (_&_&_&_&_&_&HR). rewrite HR by done.
    by apply Hr.
Qed.

Lemma new_slot_rep m l i k e0 :
  rep m l -> entries m !! i = Some e0 -> i ∉ l.*1 -> Z.of_nat i ∉ free_list m -> k ∉ l.*2 ->
  exists m1 m', modify_entry m (Z.of_nat i) (fun _ =>
      {| prev := LRU_SENTINEL; next := LRU_SENTINEL; ekey := k; flags := 0 |}) = Ret m1 /\
    link_at_head (set_key_map m1 (<[k := Z.of_nat i]> (key_map m1))) (Z.of_nat i) = Ret m' /\
    rep m' (l ++ [(i, k)]) /\ free_list m' = free_list m.
Proof. intros [] ????. eapply put_in; eauto. Qed.

(** ** Refinement of each operation *)

Lemma touch_hit m l1 i k l2 :
  rep m (l1 ++ (i, k) :: l2) ->
  exists m', touch m k = Ret (true, m') /\ rep m' ((l1 ++ l2) ++ [(i, k)]) /\
    free_list m' = free_list m.
Proof.
  intros Hr. assert (key_map m !! k = Some (Z.of_nat i)) as E.
  { apply Hr. exists i. split; [done|]. apply elem_of_app. right. by left. }
  destruct (move_rep m l1 i k l2 Hr) as (m1 & m' & H1 & H2 & Hr' & Hf).
  unfold touch. rewrite E, H1. cbn [mbind outcome_bind]. rewrite H2. eauto.
Qed.

Lemma touch_full m i k0 l k :
  rep m ((i, k0) :: l) -> free_list m = [] -> k ∉ ((i, k0) :: l).*2 ->
  exists m', touch m k = Ret (true, m') /\ rep m' (l ++ [(i, k)]) /\ free_list m' = [].
Proof.
  intros Hr Efr Hk. pose proof (map_ok_lookup m _ k (rep_keys _ _ Hr) (rep_map _ _ Hr)) as Hlk.
  destruct (key_map m !! k) as [z|] eqn:Em.
  { destruct Hlk as (j & l1 & l2 & _ & E). rewrite E, fmap_app in Hk. set_solver. }
  destruct (evict_rep m i k0 l Hr) as (m0 & H0 & Hr0 & He0 & Hf0).
  apply not_elem_of_cons in Hk as [Hne Hk].
  destruct (new_slot_rep m0 l i k _ Hr0 He0) as (m1 & m' & H1 & H2 & Hr' & Hf').
  { destruct (rep_linked _ _ Hr) as (Hnd & _). by apply NoDup_cons in Hnd as [? _]. }
  { rewrite Hf0, Efr. set_solver. } { done. }
  unfold touch. rewrite Em, Efr. cbn [vec_pop last]. rewrite H0. cbn [mbind outcome_bind].
  rewrite H1. cbn [mbind outcome_bind]. rewrite H2. exists m'. split_and!; [done..|].
  by rewrite Hf', Hf0.
Qed.

Lemma touch_free m l fr i k :
  rep m l -> free_list m = fr ++ [Z.of_nat i] -> k ∉ l.*2 ->
  exists m', touch m k = Ret (true, m') /\ rep m' (l ++ [(i, k)]) /\ free_list m' = fr.
Proof.
  intros Hr Efr Hk. pose proof (map_ok_lookup m _ k (rep_keys _ _ Hr) (rep_map _ _ Hr)) as Hlk.
  destruct (key_map m !! k) as [z|] eqn:Em.
  { destruct Hlk as (j & l1 & l2 & _ & ->). rewrite fmap_app in Hk. set_solver. }
  destruct (rep_free _ _ Hr) as (fr0 & E & Hndf & Hf).
  destruct (list_snoc_cases fr0) as [->|(fr' & i' & ->)].
  { rewrite Efr in E. simpl in E. by destruct fr. }
  rewrite E, fmap_app in Efr. simpl in Efr.
  apply app_inj_2 in Efr as [Efr' [= Ei%Nat2Z.inj]]; [|done]. subst i'.
  apply NoDup_app in Hndf as (Hndf' & Hdf & _).
  destruct (Hf i) as [Hi Hil]; [apply elem_of_app; right; by left|].
  destruct (lookup_lt_is_Some_2 (entries m) i Hi) as [e0 He0].
  destruct (new_slot_rep (set_free_list m (Z.of_nat <$> fr')) l i k e0)
    as (m1 & m' & H1 & H2 & Hr' & Hf'); try done.
  { destruct Hr. constructor; try done. exists fr'. split_and!; [done..|].
    intros j Hj. apply Hf. apply elem_of_app. by left. }
  { simpl. rewrite list_elem_of_fmap. intros (j & Ej & Hj). apply Nat2Z.inj in Ej as <-.
    apply (Hdf i Hj). by left. }
  unfold touch. rewrite Em, E, fmap_app. simpl. rewrite vec_pop_snoc. cbn [mbind outcome_bind].
  rewrite H1. cbn [mbind outcome_bind]. rewrite H2. exists m'. split_and!; [done..|].
  by rewrite Hf'.
Qed.

Lemma touch_refines m s k :
  abs m s -> exists m', touch m k = Ret ((spec_touch s k).1, m') /\ abs m' (spec_touch s k).2.
Proof.
  intros (l & Hr & Ek & Ef). unfold spec_touch. rewrite <- Ek.
  destruct (decide (k ∈ l.*2)) as [Hin|Hk].
  - apply list_elem_of_fmap in Hin as ([i k'] & -> & Hin).
    destruct (chain_split _ _ _ Hin) as (l1 & l2 & ->).
    destruct (touch_hit m l1 i k' l2 Hr) as (m' & H & Hr' & Hf). exists m'. split; [done|].
    exists ((l1 ++ l2) ++ [(i, k')]). split_and!; [done| |by rewrite Hf].
    simpl. rewrite filter_key_split by apply Hr. by rewrite fmap_app.
  - destruct (rep_free _ _ Hr) as (fr & Efr & _ & _).
    destruct (list_snoc_cases fr) as [->|(fr' & i & ->)].
    + rewrite Efr in Ef. simpl in Ef. rewrite <- Ef. destruct l as [|[i k0] l].
      * exists m. split; [|by exists []; rewrite Efr].
        pose proof (map_ok_lookup m [] k (rep_keys _ _ Hr) (rep_map _ _ Hr)) as Hlk.
        unfold touch. destruct (key_map m !! k); [by destruct Hlk as (? & [|] & ? & ? & ?)|].
        rewrite Efr. cbn [vec_pop fmap list_fmap last]. by rewrite evict_empty.
      * destruct (touch_full m i k0 l k Hr Efr Hk) as (m' & H & Hr' & Hf). exists m'.
        split; [done|]. exists (l ++ [(i, k)]). by rewrite fmap_app, Hf.
    + rewrite fmap_app in Efr. rewrite Efr, length_app in Ef. simpl in Ef.
      destruct (touch_free m l _ i k Hr Efr Hk) as (m' & H & Hr' & Hf).
      destruct (free s) as [|f]; [lia|]. exists m'. split; [done|].
      exists (l ++ [(i, k)]). rewrite fmap_app, Hf. split_and!; [done..|]. simpl. lia.
Qed.

Lemma remove_refines m s k :
  abs m s -> exists m', remove m k = Ret ((spec_remove s k).1, m') /\ abs m' (spec_remove s k).2.
Proof.
  intros (l & Hr & Ek & Ef). unfold remove, spec_remove. rewrite <- Ek.
  pose proof (map_ok_lookup m l k (rep_keys _ _ Hr) (rep_map _ _ Hr)) as Hlk.
  destruct (key_map m !! k) as [z|].
  - destruct Hlk as (i & l1 & l2 & -> & ->).
    destruct (removal_rep m l1 i k l2 Hr) as (m1 & m' & -> & H2 & Hr' & He & Hf).
    cbn [mbind outcome_bind]. rewrite H2. cbn [mbind outcome_bind].
    rewrite decide_True by (rewrite fmap_app; set_solver).
    eexists. split; [done|]. exists (l1 ++ l2). split_and!.
    + pose proof (chain_slot_not_free m _ i k Hr) as Hnf.
      destruct Hr'. constructor; try done.
      destruct rep_free0 as (fr & E & Hnd & Hfr). exists (fr ++ [i]).
      simpl. rewrite fmap_app, E. split_and!; [done| |].
      * apply NoDup_snoc; [done|]. intros Hin. apply Hnf.
        { apply elem_of_app. right. by left. }
        rewrite <- Hf, E. by apply list_elem_of_fmap_2.
      * intros j [Hj| ->%list_elem_of_singleton]%elem_of_app; [by apply Hfr|]. split.
        -- by eapply lookup_lt_Some.
        -- apply (not_in_split l1 l2 i k); [apply Hr|by left].
    + simpl. by rewrite filter_key_split by apply Hr.
    + simpl. rewrite Hf, length_app. simpl. lia.
  - rewrite decide_False by done. exists m. split; [done|]. by exists l.
Qed.

Lemma evict_refines m s :
  abs m s -> exists o m', evict_tail m = Ret (o, m') /\ abs m' (spec_evict s).2 /\
    (o = None <-> keys s = []).
Proof.
  intros (l & Hr & Ek & Ef). unfold spec_evict. rewrite <- Ek. destruct l as [|[i k] l].
  - rewrite evict_empty by done. exists None, m. split_and!; [done| |done]. by exists [].
  - destruct (evict_rep m i k l Hr) as (m' & -> & Hr' & _ & Hf). eexists _, m'.
    split_and!; [done| |done]. exists l. split_and!; [done..|]. by rewrite Hf.
Qed.

Lemma abs_new cap : 0 <= cap < 2 ^ 32 -> abs (new cap) {| keys := []; free := Z.to_nat cap |}.
Proof.
  intros Hc. exists []. split_and!; [|done|simpl; by rewrite length_fmap, length_seq].
  constructor; simpl.
  - split_and!; simpl; try done; [constructor|]. unfold small, LRU_SENTINEL.
    rewrite length_replicate. lia.
  - constructor.
  - intros k z. simpl. rewrite lookup_empty. split; [done|]. intros (? & _ & []%not_elem_of_nil).
  - exists (seq 0 (Z.to_nat cap)). split_and!; [done|apply NoDup_seq|].
    intros j Hj%elem_of_seq. simpl. rewrite length_replicate. split; [lia|]. apply not_elem_of_nil.
  - intros j e _ He. by apply lookup_replicate in He as [-> _].
Qed.

Lemma abs_reset m s :
  abs m s -> 0 <= capacity m < 2 ^ 32 ->
  abs (reset m) {| keys := []; free := Z.to_nat (capacity m) |}.
Proof.
  intros _ Hc. destruct (abs_new (capacity m) Hc) as (l & Hr & E & Ef). exists l.
  split_and!; [|done..]. destruct Hr. by constructor.
Qed.

Lemma abs_bump m s : abs m s -> abs (bump_generation m) s.
Proof. intros (l & [] & E & Ef). exists l. by split_and!. Qed.

Lemma slots_bound m l : rep m l -> (length l <= length (entries m))%nat.
Proof.
  intros Hr. destruct (rep_linked _ _ Hr) as (Hnd & Hs & _).
  rewrite <- (length_fmap fst l), <- (length_seq (length (entries m)) 0).
  apply submseteq_length, NoDup_submseteq; [done|]. intros i Hi.
  apply list_elem_of_fmap in Hi as ([j k] & -> & Hin).
  destruct (seg_lookup _ _ _ _ _ _ Hs Hin) as (e & He%lookup_lt_Some & _).
  apply elem_of_seq. simpl. lia.
Qed.

Lemma len_ok m s : abs m s -> len m = length (keys s).
Proof.
  intros (l & Hr & <- & _). unfold len.
  assert (key_map m = list_to_map (prod_map id Z.of_nat ∘ prod_swap <$> l)) as ->.
  { apply map_eq. intros k. apply option_eq. intros z. rewrite (rep_map _ _ Hr k z).
    rewrite <- elem_of_list_to_map.
    - rewrite list_elem_of_fmap. split.
      + intros (i & -> & Hin). by exists (i, k).
      + intros ([i k'] & [= -> ->] & Hin). eauto.
    - rewrite <- list_fmap_compose. apply Hr. }
  rewrite map_size_list_to_map; [by rewrite !length_fmap|].
  rewrite <- list_fmap_compose. apply Hr.
Qed.

Lemma contains_ok m s k : abs m s -> contains m k = bool_decide (k ∈ keys s).
Proof.
  intros (l & Hr & <- & _). unfold contains. apply bool_decide_ext.
  pose proof (map_ok_lookup m l k (rep_keys _ _ Hr) (rep_map _ _ Hr)) as Hlk.
  destruct (key_map m !! k) as [z|].
  - destruct Hlk as (i & l1 & l2 & _ & ->). rewrite fmap_app. set_solver.
  - split; [by intros []|done].
Qed.

(** [for_each_entry] ends and passes every key but the all-zero one, oldest
    first. *)
Lemma walk_ok es l p fuel :
  small es -> seg es p l LRU_SENTINEL -> (length l < fuel)%nat ->
  walk fuel es (first l LRU_SENTINEL) = Ret (Some (filter (fun k => k <> zeros 9) l.*2)).
Proof.
  intros Hsm. revert p fuel. induction l as [|[i k] l IH]; intros p fuel Hs Hf.
  - destruct fuel; [simpl in Hf; lia|]. done.
  - destruct fuel as [|fuel]; [simpl in Hf; lia|].
    destruct Hs as [(e & He & _ & Hn & Hk) Hs]. cbn [first walk].
    rewrite (slot_not_sentinel _ _ _ Hsm He), (vec_get_nat _ _ _ He). cbn [mbind outcome_bind].
    rewrite Hn, (IH _ _ Hs) by (simpl in Hf; lia). cbn [mbind outcome_bind].
    unfold is_active. rewrite Hk. simpl fmap. destruct (decide (k = zeros 9)) as [->|Hne].
    + rewrite filter_cons_False by auto. by rewrite bool_decide_false by auto.
    + rewrite filter_cons_True by done. by rewrite bool_decide_true.
Qed.

Lemma for_each_ok m s :
  abs m s -> for_each_entry m = Ret (Some (filter (fun k => k <> zeros 9) (keys s))).
Proof.
  intros (l & Hr & <- & _). pose proof (slots_bound m l Hr).
  destruct (rep_linked _ _ Hr) as (_ & Hs & Ht & _ & Hsm). unfold for_each_entry. rewrite Ht.
  eapply walk_ok; [done..|lia].
Qed.

(** The eviction loop drops the shortest prefix of old keys that frees enough. *)
Lemma evict_loop_ok fuel m s target avg ev fr :
  abs m s -> (length (keys s) < fuel)%nat -> 0 <= fr -> 0 <= avg ->
  fr + Z.of_nat (length (keys s)) * avg < 2 ^ 64 ->
  exists n m', evict_loop fuel m target avg ev fr = Ret (Some ((ev + n)%nat, fr + Z.of_nat n * avg, m')) /\
    (n <= length (keys s))%nat /\ abs m' {| keys := drop n (keys s); free := free s |} /\
    (target <= fr + Z.of_nat n * avg \/ n = length (keys s)) /\
    (forall j, (j < n)%nat -> fr + Z.of_nat j * avg < target).
Proof.
  revert m s ev fr. induction fuel as [|fuel IH]; intros m s ev fr Ha Hf Hfr Hav Hov; [lia|].
  cbn [evict_loop]. destruct (Z.ltb_spec fr target) as [Hlt|Hge].
  2: { exists 0%nat, m. rewrite Nat.add_0_r, Z.add_0_r. split_and!; [done|lia| |lia|lia].
       rewrite drop_0. by destruct s. }
  destruct (evict_refines m s Ha) as (o & m1 & -> & Ha1 & Ho). cbn [mbind outcome_bind].
  destruct s as [ks f]. cbn [keys free] in *. destruct ks as [|k ks].
  - rewrite (proj2 Ho) by done. exists 0%nat, m1. rewrite Nat.add_0_r, Z.add_0_r.
    simpl in *. split_and!; [done|lia|done|lia|lia].
  - destruct o as [z|]; [|discriminate (proj1 Ho eq_refl)]. simpl length in *.
    assert (wrap64 (fr + avg) = fr + avg) as -> by (apply wrap_small; unfold in_u; nia).
    destruct (IH m1 _ (S ev) (fr + avg) Ha1) as (n & m' & -> & Hn & Ha' & Hstop & Hmin);
      simpl in *; [lia..|].
    exists (S n), m'. split_and!; [do 4 f_equal; lia|lia|done|lia|].
    intros [|j] Hj; [lia|]. specialize (Hmin j). lia.
Qed.

(** ** Persistence *)

(** What the file format needs beyond the links. *)
Definition entry_payload (e : LruFileEntry) : Prop := is_array 9 (ekey e) /\ u8 (flags e).

Definition payload_ok (m : LruManager) : Prop :=
  Forall entry_payload (entries m) /\
  0 <= version (header m) <= LRU_MAX_VERSION /\ is_array 16 (file_hash (header m)).

Lemma slot_u32 es i (e : LruFileEntry) : small es -> es !! i = Some e -> u32 (Z.of_nat i).
Proof.
  intros Hs He%lookup_lt_Some. unfold small, LRU_SENTINEL in Hs. unfold in_u. lia.
Qed.

Lemma seg_links_u32 es p l q :
  small es -> seg es p l q -> u32 p -> u32 q ->
  forall i k, (i, k) ∈ l -> exists e, es !! i = Some e /\ u32 (prev e) /\ u32 (next e).
Proof.
  intros Hsm. revert p. induction l as [|[i k] l IH]; intros p Hs Hp Hq j kj Hin.
  { by apply not_elem_of_nil in Hin. }
  destruct Hs as [(e & He & Ep & En & _) Hs]. apply elem_of_cons in Hin as [[= -> ->]|Hin].
  - exists e. split_and!; [done|by rewrite Ep|]. rewrite En. destruct l as [|[j' kj'] l]; [done|].
    destruct Hs as [(e' & He' & _) _]. by eapply slot_u32.
  - eapply IH; [done| |done|done]. by eapply slot_u32.
Qed.

Lemma sentinel_u32 : u32 LRU_SENTINEL.
Proof. unfold in_u, LRU_SENTINEL. lia. Qed.

Lemma rep_entries_wf m l : rep m l -> payload_ok m -> Forall entry_wf (entries m).
Proof.
  intros Hr [Hp _]. destruct (rep_linked _ _ Hr) as (_ & Hs & _ & _ & Hsm).
  apply Forall_lookup. intros i e He. pose proof (proj1 (Forall_lookup _ _) Hp i e He) as [? ?].
  destruct (decide (i ∈ l.*1)) as [Hi|Hi].
  - apply list_elem_of_fmap in Hi as ([j k] & -> & Hin).
    destruct (seg_links_u32 _ _ _ _ Hsm Hs sentinel_u32 sentinel_u32 _ _ Hin) as (e' & He' & ? & ?).
    simpl in *. simplify_eq. by split_and!.
  - rewrite (rep_rest _ _ Hr i e Hi He). apply entry_wf_empty.
Qed.

Lemma rep_header_wf m l : rep m l -> payload_ok m -> header_wf (header m).
Proof.
  intros Hr (_ & Hv & Hh). destruct (rep_linked _ _ Hr) as (_ & Hs & Ht & Hm & Hsm).
  split_and!; try done; try lia; rewrite ?Ht, ?Hm.
  - destruct (list_snoc_cases l) as [->|(l' & [i k] & ->)]; [apply sentinel_u32|].
    rewrite final_snoc. destruct (seg_lookup _ _ _ _ i k Hs) as (e & He & _); [|by eapply slot_u32].
    apply elem_of_app. right. by left.
  - destruct l as [|[i k] l]; [apply sentinel_u32|].
    destruct Hs as [(e & He & _) _]. by eapply slot_u32.
Qed.

(** *** Every operation keeps the payload *)

Lemma modify_payload m i f m' :
  payload_ok m -> (forall e, entry_payload e -> entry_payload (f e)) ->
  modify_entry m i f = Ret m' -> payload_ok m'.
Proof.
  intros (He & Hh) Hf (es & Hes & [= <-])%bind_Ret. split; [|done]. simpl.
  unfold vec_modify in Hes. destruct (entries m !! Z.to_nat i) as [e|] eqn:E; [|done].
  simplify_eq. apply Forall_insert; [done|]. apply Hf. by eapply Forall_lookup_1 in He.
Qed.

Lemma redirect_payload (c : bool) m1 (m2 : outcome LruManager) m' :
  payload_ok m1 -> (m2 = Ret m' -> payload_ok m') -> (if c then Ret m1 else m2) = Ret m' ->
  payload_ok m'.
Proof. destruct c; [by intros ? _ [= <-]|auto]. Qed.

Lemma unlink_payload m i m' : payload_ok m -> unlink m i = Ret m' -> payload_ok m'.
Proof.
  intros Hp H. unfold unlink in H.
  apply bind_Ret in H as (e & _ & H). apply bind_Ret in H as (m1 & H1 & H).
  apply bind_Ret in H as (m2 & H2 & H). apply bind_Ret in H as (m3 & H3 & H4).
  assert (payload_ok m1) as P1.
  { eapply redirect_payload; [| |exact H1]; [done|by apply modify_payload]. }
  assert (payload_ok m2) as P2.
  { eapply redirect_payload; [| |exact H2]; [done|by apply modify_payload]. }
  apply modify_payload in H3; [|done..]. by apply modify_payload in H4.
Qed.

Lemma link_payload m i m' : payload_ok m -> link_at_head m i = Ret m' -> payload_ok m'.
Proof.
  intros Hp H. unfold link_at_head in H.
  apply bind_Ret in H as (m1 & H1 & H). apply bind_Ret in H as (m2 & H2 & H).
  apply bind_Ret in H as (m3 & H3 & [= <-]).
  apply modify_payload in H1; [|done..]. apply modify_payload in H2; [|done..].
  assert (payload_ok m3) as P3; [|done].
  eapply redirect_payload; [| |exact H3]; [done|by apply modify_payload].
Qed.

Lemma empty_payload : entry_payload entry_empty.
Proof. split; [|done]. split; [done|]. apply (zeros_bytes 9). Qed.

Lemma evict_payload m o m' : payload_ok m -> evict_tail m = Ret (o, m') -> payload_ok m'.
Proof.
  intros Hp H. unfold evict_tail in H. case_match; [by simplify_eq|].
  apply bind_Ret in H as (e & _ & H). apply bind_Ret in H as (m1 & H1 & H).
  apply bind_Ret in H as (m2 & H2 & [= <- <-]).
  apply unlink_payload in H1; [|done]. eapply modify_payload; [exact H1| |exact H2].
  intros; apply empty_payload.
Qed.

Lemma touch_payload m k b m' :
  payload_ok m -> is_array 9 k -> touch m k = Ret (b, m') -> payload_ok m'.
Proof.
  intros Hp Hk H. unfold touch in H. destruct (key_map m !! k) as [i|].
  - apply bind_Ret in H as (m1 & H1 & H). apply bind_Ret in H as (m2 & H2 & [= <- <-]).
    apply unlink_payload in H1; [|done]. by apply link_payload in H2.
  - apply bind_Ret in H as ([slot m1] & H1 & H).
    assert (payload_ok m1) as P1.
    { destruct (vec_pop (free_list m)) as [[f rest]|]; [|by eapply evict_payload].
      injection H1 as _ <-. done. }
    destruct slot as [i|]; [|by simplify_eq].
    apply bind_Ret in H as (m2 & H2 & H). apply bind_Ret in H as (m3 & H3 & [= <- <-]).
    apply modify_payload in H2; [|done|by intros; split]. by apply link_payload in H3.
Qed.

Lemma remove_payload m k b m' : payload_ok m -> remove m k = Ret (b, m') -> payload_ok m'.
Proof.
  intros Hp H. unfold remove in H. destruct (key_map m !! k) as [i|]; [|by simplify_eq].
  apply bind_Ret in H as (m1 & H1 & H). apply bind_Ret in H as (m2 & H2 & [= <- <-]).
  apply unlink_payload in H1; [|done].
  apply modify_payload in H2; [|done|intros; apply empty_payload]. done.
Qed.

End Lru.
