(* ===== verification/LruTheorems.v ===== *)
(** * Correctness of the LRU manager

    The operations of [Lru] against the abstract cache, the sequences of
    operations a client can run, the eviction loop, and the checkpoint and
    reload of the table. *)

From S2P Require Import Prelude Bytes Disk LruFile Lru.
Import LruFile Lru.
Local Open Scope Z_scope.

(** ** Rebuilding the map and the free list from a loaded array *)

Lemma rebuild_snoc es e :
  rebuild (es ++ [e]) =
    let '(km, fl) := rebuild es in
    if is_active e then (<[ekey e := Z.of_nat (length es)]> km, fl)
    else (km, fl ++ [Z.of_nat (length es)]).
Proof.
  unfold rebuild. rewrite imap_app, fold_left_app. simpl. rewrite Nat.add_0_r.
  by destruct (fold_left _ _ _).
Qed.

Record rebuilt (es : list LruFileEntry) (km : gmap bytes Z) (fr : list nat) : Prop := {
  rebuilt_sound : forall k z, km !! k = Some z ->
    exists i e, z = Z.of_nat i /\ es !! i = Some e /\ ekey e = k /\ is_active e = true;
  rebuilt_complete : forall i e, es !! i = Some e -> is_active e = true -> is_Some (km !! ekey e);
  rebuilt_nodup : NoDup fr;
  rebuilt_free : forall i, i ∈ fr <-> exists e, es !! i = Some e /\ is_active e = false;
}.

Lemma lookup_snoc_Some' {A} (l : list A) x i y :
  (l ++ [x]) !! i = Some y <-> (l !! i = Some y) \/ (i = length l /\ x = y).
Proof.
  rewrite lookup_snoc_Some. split.
  - intros [[_ ?]|[? ?]]; auto.
  - intros [H|[-> ->]]; [left|by right]. split; [by eapply lookup_lt_Some|done].
Qed.

Lemma rebuild_ok es :
  exists km fr, rebuild es = (km, Z.of_nat <$> fr) /\ rebuilt es km fr.
Proof.
  induction es as [|e es (km & fr & E & [Hs Hc Hnd Hf])] using rev_ind.
  - exists ∅, []. split; [done|]. constructor.
    + intros k z. by rewrite lookup_empty.
    + done.
    + constructor.
    + intros i. split; [by intros ?%not_elem_of_nil|by intros (? & ? & _)].
  - rewrite rebuild_snoc, E. destruct (is_active e) eqn:Ha.
    + exists (<[ekey e := Z.of_nat (length es)]> km), fr. split; [done|]. constructor.
      * intros k z [[<- <-]|[Hne Hk]]%lookup_insert_Some.
        -- exists (length es), e. rewrite lookup_snoc_Some'. auto.
        -- destruct (Hs k z Hk) as (i & e' & -> & He & ? & ?). exists i, e'.
           rewrite lookup_snoc_Some'. auto.
      * intros i e' [He|[-> <-]]%lookup_snoc_Some' Ha'.
        -- destruct (Hc i e' He Ha') as [z Hz]. apply lookup_insert_is_Some.
           destruct (decide (ekey e = ekey e')); eauto.
        -- by rewrite lookup_insert_eq.
      * done.
      * intros i. rewrite Hf. setoid_rewrite lookup_snoc_Some'. split.
        -- intros (e' & ? & ?); eauto.
        -- intros (e' & [?|[-> <-]] & ?); [eauto|congruence].
    + exists km, (fr ++ [length es]). rewrite fmap_app. split; [done|]. constructor.
      * intros k z Hk. destruct (Hs k z Hk) as (i & e' & -> & He & ? & ?). exists i, e'.
        rewrite lookup_snoc_Some'. auto.
      * intros i e' [He|[-> <-]]%lookup_snoc_Some' Ha'; [eauto|congruence].
      * apply NoDup_snoc; [done|]. rewrite Hf. intros (e' & He%lookup_lt_Some & _). lia.
      * intros i. rewrite elem_of_app, Hf, list_elem_of_singleton.
        setoid_rewrite lookup_snoc_Some'. split.
        -- intros [(e' & ? & ?)| ->]; eauto.
        -- intros (e' & [?|[-> <-]] & ?); eauto.
Qed.

(** In a represented manager without an all-zero key the active entries are the
    chain. *)
Lemma active_iff m l i k :
  rep m l -> zeros 9 ∉ l.*2 ->
  (i, k) ∈ l <-> exists e, entries m !! i = Some e /\ ekey e = k /\ is_active e = true.
Proof.
  intros Hr Hz. destruct (rep_linked _ _ Hr) as (Hnd & Hs & _).
  split.
  - intros Hin. destruct (seg_lookup _ _ _ _ _ _ Hs Hin) as (e & He & Hk).
    exists e. split_and!; [done..|]. apply bool_decide_true. rewrite Hk. intros ->.
    apply Hz. by apply (list_elem_of_fmap_2 snd) in Hin.
  - intros (e & He & Hk & Ha). destruct (decide (i ∈ l.*1)) as [Hi|Hi].
    + apply list_elem_of_fmap in Hi as ([j k'] & Ej & Hin). simpl in Ej. subst j.
      destruct (seg_lookup _ _ _ _ _ _ Hs Hin) as (e' & He' & Hk'). congruence.
    + rewrite (rep_rest _ _ Hr i e Hi He) in Ha. done.
Qed.

Lemma length_partition (es : list LruFileEntry) (l : chain) fr :
  NoDup l.*1 -> NoDup fr ->
  (forall i, (i < length es)%nat <-> i ∈ l.*1 \/ i ∈ fr) -> (forall i, i ∈ l.*1 -> i ∉ fr) ->
  (length l + length fr = length es)%nat.
Proof.
  intros Hl Hf Hcov Hdis.
  assert (l.*1 ++ fr ≡ₚ seq 0 (length es)) as HP.
  { apply NoDup_Permutation; [by apply NoDup_app|apply NoDup_seq|].
    intros i. rewrite elem_of_app, elem_of_seq, <- Hcov. lia. }
  apply Permutation_length in HP. by rewrite length_app, length_fmap, length_seq in HP.
Qed.

Lemma rebuilt_free_iff m l km fr i :
  rep m l -> zeros 9 ∉ l.*2 -> rebuilt (entries m) km fr ->
  i ∈ fr <-> (i < length (entries m))%nat /\ i ∉ l.*1.
Proof.
  intros Hr Hz [_ _ _ Hf]. rewrite Hf. split.
  - intros (e & He & Ha). split; [by eapply lookup_lt_Some|].
    intros ([? k] & -> & Hin)%list_elem_of_fmap.
    apply (active_iff m) in Hin as (e' & He' & _ & Ha'); [|done..]. simpl in *. congruence.
  - intros [[e He]%lookup_lt_is_Some_2 Hi]. exists e. split; [done|].
    by rewrite (rep_rest _ _ Hr i e Hi He).
Qed.

Lemma rebuilt_map m l km fr k z :
  rep m l -> zeros 9 ∉ l.*2 -> rebuilt (entries m) km fr ->
  km !! k = Some z <-> exists i, z = Z.of_nat i /\ (i, k) ∈ l.
Proof.
  intros Hr Hz [Hs Hc _ _]. pose proof (active_iff m l) as Hact. split.
  - intros Hk. destruct (Hs k z Hk) as (i & e & -> & He & Hek & Ha). exists i.
    split; [done|]. apply Hact; eauto.
  - intros (i & -> & Hin). pose proof Hin as Hin'.
    apply Hact in Hin' as (e & He & <- & Ha); [|done..].
    destruct (Hc i e He Ha) as [z Hz']. rewrite Hz'. f_equal.
    destruct (Hs _ _ Hz') as (j & e' & -> & He' & Hek' & Ha').
    assert ((j, ekey e) ∈ l) as Hj by (apply Hact; eauto).
    assert (key_map m !! ekey e = Some (Z.of_nat i)) by (apply Hr; eauto).
    assert (key_map m !! ekey e = Some (Z.of_nat j)) by (apply Hr; eauto). congruence.
Qed.

(** Rebuilding from the array of a represented manager represents the same
    chain; every slot outside it is free again. *)
Lemma rebuild_rep m l km fl h gen cap pg :
  rep m l -> zeros 9 ∉ l.*2 -> rebuild (entries m) = (km, fl) ->
  mru_head h = mru_head (header m) -> lru_tail h = lru_tail (header m) ->
  rep {| header := h; entries := entries m; key_map := km; free_list := fl;
         generation := gen; prev_generation := pg; capacity := cap |} l /\
  length fl = (length (entries m) - length l)%nat.
Proof.
  intros Hr Hz E Hh Ht. destruct (rebuild_ok (entries m)) as (km' & fr & E' & Hrb).
  rewrite E in E'. simplify_eq.
  destruct (rep_linked _ _ Hr) as (Hndl & Hseg & Htl & Hhd & Hsm).
  pose proof (fun i => rebuilt_free_iff m l km' fr i Hr Hz Hrb) as Hfr. split.
  - constructor; simpl; [split_and!; simpl; congruence|apply Hr| | |apply Hr].
    + intros k z. by apply (rebuilt_map m l km' fr).
    + exists fr. split_and!; [done|apply Hrb|]. intros j. apply Hfr.
  - rewrite length_fmap.
    assert (length l + length fr = length (entries m))%nat; [|lia].
    apply length_partition; [done|apply Hrb| |].
    + intros i. rewrite Hfr. split.
      * intros Hi. destruct (decide (i ∈ l.*1)); auto.
      * intros [([? k] & -> & Hin)%list_elem_of_fmap|[? _]]; [|done].
        destruct (seg_lookup _ _ _ _ _ _ Hseg Hin) as (e & He & _). simpl.
        by eapply lookup_lt_Some.
    + intros i Hi Hif. by apply Hfr in Hif as [_ ?].
Qed.

(** ** Sequences of operations *)

Inductive op : Type :=
| Touch (k : bytes)
| Remove (k : bytes)
| EvictTail
| EvictTo (target avg : Z)
| Bump
| Reset.

(** One call of a public method on a manager. *)
Inductive step : LruManager -> op -> LruManager -> Prop :=
| step_touch m k b m' : touch m k = Ret (b, m') -> step m (Touch k) m'
| step_remove m k b m' : remove m k = Ret (b, m') -> step m (Remove k) m'
| step_evict m o m' : evict_tail m = Ret (o, m') -> step m EvictTail m'
| step_evict_to m t a n f m' :
    evict_to_target m t a = Ret (Some (n, f, m')) -> step m (EvictTo t a) m'
| step_bump m : step m Bump (bump_generation m)
| step_reset m : step m Reset (reset m).

(** Arguments of [evict_to_target] whose byte count stays within a [u64]. *)
Definition op_ok (m : LruManager) (o : op) : Prop :=
  match o with
  | EvictTo t a => 0 <= a /\ Z.of_nat (len m) * a < 2 ^ 64
  | _ => True
  end.

Inductive reachable (cap : Z) : LruManager -> Prop :=
| reach_new : reachable cap (new cap)
| reach_step m o m' : reachable cap m -> op_ok m o -> step m o m' -> reachable cap m'.

Lemma evict_to_target_ok m s target avg :
  abs m s -> 0 <= avg -> Z.of_nat (length (keys s)) * avg < 2 ^ 64 ->
  exists n m', evict_to_target m target avg = Ret (Some (n, Z.of_nat n * avg, m')) /\
    (n <= length (keys s))%nat /\ abs m' {| keys := drop n (keys s); free := free s |} /\
    (target <= Z.of_nat n * avg \/ n = length (keys s)) /\
    (forall j, (j < n)%nat -> Z.of_nat j * avg < target).
Proof.
  intros Ha Hav Hov. pose proof Ha as (l & Hr & Ek & _). pose proof (slots_bound m l Hr) as Hb.
  unfold evict_to_target.
  destruct (evict_loop_ok (S (length (entries m))) m s target avg 0 0 Ha) as (n & m' & H).
  - rewrite <- Ek, length_fmap. lia.
  - lia.
  - done.
  - lia.
  - exists n, m'. by rewrite Z.add_0_l in H.
Qed.

Lemma same_rest_capacity m m' l : same_rest m m' l -> capacity m' = capacity m.
Proof. by intros (_&_&_&_&?&_). Qed.

Lemma modify_capacity m i f m' : modify_entry m i f = Ret m' -> capacity m' = capacity m.
Proof. by intros (es & _ & [= <-])%bind_Ret. Qed.

Lemma cond_capacity (c : bool) m0 m1 (m2 : outcome LruManager) m' :
  capacity m1 = capacity m0 -> (m2 = Ret m' -> capacity m' = capacity m0) ->
  (if c then Ret m1 else m2) = Ret m' -> capacity m' = capacity m0.
Proof. destruct c; [by intros ? _ [= <-]|auto]. Qed.

Lemma unlink_capacity m i m' : unlink m i = Ret m' -> capacity m' = capacity m.
Proof.
  intros H. unfold unlink in H.
  apply bind_Ret in H as (e & _ & H). apply bind_Ret in H as (m1 & H1 & H).
  apply bind_Ret in H as (m2 & H2 & H). apply bind_Ret in H as (m3 & H3 & H4).
  apply (cond_capacity _ m) in H1; [|done|apply modify_capacity].
  apply (cond_capacity _ m1) in H2; [|done|apply modify_capacity].
  apply modify_capacity in H3, H4. congruence.
Qed.

Lemma link_capacity m i m' : link_at_head m i = Ret m' -> capacity m' = capacity m.
Proof.
  intros H. unfold link_at_head in H.
  apply bind_Ret in H as (m1 & H1 & H). apply bind_Ret in H as (m2 & H2 & H).
  apply bind_Ret in H as (m3 & H3 & [= <-]).
  apply (cond_capacity _ m2) in H3; [|done|apply modify_capacity].
  apply modify_capacity in H1, H2. simpl. congruence.
Qed.

Lemma evict_capacity m o m' : evict_tail m = Ret (o, m') -> capacity m' = capacity m.
Proof.
  intros H. unfold evict_tail in H. case_match; [by simplify_eq|].
  apply bind_Ret in H as (e & _ & H). apply bind_Ret in H as (m1 & H1 & H).
  apply bind_Ret in H as (m2 & H2 & [= <- <-]).
  apply unlink_capacity in H1. apply modify_capacity in H2. simpl in *. congruence.
Qed.

Lemma evict_loop_capacity fuel m t a n f n' f' m' :
  evict_loop fuel m t a n f = Ret (Some (n', f', m')) -> capacity m' = capacity m.
Proof.
  revert m n f. induction fuel as [|fuel IH]; intros m n f; simpl; [done|].
  case_match; [|by intros [= <- <- <-]]. intros ([o m1] & H1 & H2)%bind_Ret.
  apply evict_capacity in H1. destruct o; [apply IH in H2; congruence|].
  injection H2 as _ _ <-. done.
Qed.

Lemma step_capacity m o m' : step m o m' -> capacity m' = capacity m.
Proof.
  intros [m0 k b m1 H|m0 k b m1 H|m0 z m1 H|m0 t a n f m1 H|m0|m0]; try done.
  - unfold touch in H. destruct (key_map m0 !! k) as [i|].
    + apply bind_Ret in H as (m2 & H1 & H). apply bind_Ret in H as (m3 & H2 & [= _ <-]).
      apply unlink_capacity in H1. apply link_capacity in H2. congruence.
    + apply bind_Ret in H as ([slot m2] & H1 & H).
      assert (capacity m2 = capacity m0) as E.
      { destruct (vec_pop (free_list m0)) as [[f rest]|]; [|by eapply evict_capacity].
        injection H1 as _ <-. done. }
      destruct slot as [i|]; [|by simplify_eq].
      apply bind_Ret in H as (m3 & H2 & H). apply bind_Ret in H as (m4 & H3 & [= _ <-]).
      apply modify_capacity in H2. apply link_capacity in H3. simpl in *. congruence.
  - unfold remove in H. destruct (key_map m0 !! k) as [i|]; [|by simplify_eq].
    apply bind_Ret in H as (m2 & H1 & H). apply bind_Ret in H as (m3 & H2 & [= _ <-]).
    apply unlink_capacity in H1. apply modify_capacity in H2. simpl in *. congruence.
  - by eapply evict_capacity.
  - by eapply evict_loop_capacity.
Qed.

(** Progress and preservation of the representation. *)
Lemma step_abs m s o :
  abs m s -> op_ok m o -> 0 <= capacity m < 2 ^ 32 ->
  exists m' s', step m o m' /\ abs m' s'.
Proof.
  intros Ha Ho Hc. destruct o as [k|k| |t a| |].
  - destruct (touch_refines m s k Ha) as (m' & H & Ha'). eauto using step.
  - destruct (remove_refines m s k Ha) as (m' & H & Ha'). eauto using step.
  - destruct (evict_refines m s Ha) as (o & m' & H & Ha' & _). eauto using step.
  - destruct Ho as [Ha0 Hov]. rewrite (len_ok m s Ha) in Hov.
    destruct (evict_to_target_ok m s t a Ha Ha0 Hov) as (n & m' & H & _ & Ha' & _).
    eauto using step.
  - eauto using step, abs_bump.
  - eauto using step, abs_reset.
Qed.

Lemma step_fun m o m1 m2 : step m o m1 -> step m o m2 -> m1 = m2.
Proof. intros H1 H2. inversion H1; subst; inversion H2; subst; congruence. Qed.

(** What a client of a manager made by [new] can rely on, whatever it calls. *)
Lemma reachable_abs cap m :
  0 <= cap < 2 ^ 32 -> reachable cap m -> capacity m = cap /\ exists s, abs m s.
Proof.
  intros Hc. induction 1 as [|m o m' _ [Hcap (s & Ha)] Ho Hs].
  - split; [done|]. eexists. by apply abs_new.
  - split; [by rewrite (step_capacity _ _ _ Hs)|].
    destruct (step_abs m s o Ha Ho) as (m2 & s' & Hs2 & Ha'); [by rewrite Hcap|].
    rewrite (step_fun _ _ _ _ Hs Hs2). eauto.
Qed.

(** No sequence of [touch], [remove], [evict_tail], [evict_to_target],
    [bump_generation] and [reset] on a manager created with a [u32] capacity
    leads to a state where the next call panics or runs forever: the manager
    always represents some abstract cache, and every next call returns in a
    state that again does. *)
Theorem lru_never_panics cap m o :
  0 <= cap < 2 ^ 32 -> reachable cap m -> op_ok m o ->
  exists m' s', step m o m' /\ reachable cap m' /\ abs m' s'.
Proof.
  intros Hc Hr Ho. destruct (reachable_abs cap m Hc Hr) as [Hcap (s & Ha)].
  destruct (step_abs m s o Ha Ho) as (m' & s' & Hs & Ha'); [by rewrite Hcap|].
  exists m', s'. split_and!; [done|by eapply reach_step|done].
Qed.

Lemma lru_never_panics_witness :
  exists m' s', step (new 2) (Touch [1;2;3;4;5;6;7;8;9]) m' /\ reachable 2 m' /\ abs m' s'.
Proof.
  apply (lru_never_panics 2 (new 2) (Touch [1;2;3;4;5;6;7;8;9])); [lia|apply reach_new|exact I].
Defined.

(** C29: [touch] implements the abstract cache on every branch: a present key
    moves to the recent end; a new key takes a free slot, or else the slot of
    the least recently used key, which leaves; with neither it returns [false]
    and changes nothing.  The return value and the new contents are those of
    [spec_touch], and no index of the array is out of range. *)
Theorem touch_refinement m s k :
  abs m s ->
  exists m', touch m k = Ret ((spec_touch s k).1, m') /\ abs m' (spec_touch s k).2.
Proof. apply touch_refines. Qed.

Definition key9 (b : Z) : bytes := replicate 9 b.

Lemma touch_refinement_witness :
  exists m', touch (new 1) (key9 7) = Ret (true, m') /\ abs m' {| keys := [key9 7]; free := 0 |}.
Proof.
  apply (touch_refinement (new 1) {| keys := []; free := 1 |} (key9 7)).
  apply (abs_new 1). lia.
Defined.

(** [remove] deletes exactly the given key, gives its slot back, and reports
    whether it was there. *)
Theorem remove_refinement m s k :
  abs m s ->
  exists m', remove m k = Ret ((spec_remove s k).1, m') /\ abs m' (spec_remove s k).2.
Proof. apply remove_refines. Qed.

Lemma remove_refinement_witness :
  exists m', remove (new 1) (key9 7) = Ret (false, m') /\ abs m' {| keys := []; free := 1 |}.
Proof.
  apply (remove_refinement (new 1) {| keys := []; free := 1 |} (key9 7)). apply (abs_new 1). lia.
Defined.

(** [evict_to_target] ends and evicts, oldest first, the least number of
    entries whose estimated size reaches the target, or all of them; it reports
    that number and its estimated size. *)
Theorem evict_to_target_minimal m s target avg :
  abs m s -> 0 <= avg -> Z.of_nat (length (keys s)) * avg < 2 ^ 64 ->
  exists n m', evict_to_target m target avg = Ret (Some (n, Z.of_nat n * avg, m')) /\
    abs m' {| keys := drop n (keys s); free := free s |} /\
    (target <= Z.of_nat n * avg \/ n = length (keys s)) /\
    (forall j, (j < n)%nat -> Z.of_nat j * avg < target).
Proof.
  intros Ha Hav Hov.
  destruct (evict_to_target_ok m s target avg Ha Hav Hov) as (n & m' & ? & _ & ? & ? & ?). eauto 10.
Qed.

Definition two_keys : outcome LruManager :=
  '(_, m) ← touch (new 2) (key9 1); '(_, m) ← touch m (key9 2); Ret m.

Lemma two_keys_abs : exists m, two_keys = Ret m /\ abs m {| keys := [key9 1; key9 2]; free := 0 |}.
Proof.
  destruct (touch_refines (new 2) _ (key9 1) (abs_new 2 ltac:(lia))) as (m1 & H1 & A1).
  destruct (touch_refines m1 _ (key9 2) A1) as (m2 & H2 & A2).
  exists m2. unfold two_keys. rewrite H1. cbn [mbind outcome_bind]. rewrite H2. split; [done|].
  exact A2.
Qed.

Lemma evict_to_target_minimal_witness :
  exists m, two_keys = Ret m /\
  exists n m', evict_to_target m 10 16 = Ret (Some (n, Z.of_nat n * 16, m')) /\
    abs m' {| keys := drop n [key9 1; key9 2]; free := 0 |} /\
    (10 <= Z.of_nat n * 16 \/ n = 2%nat) /\ (forall j, (j < n)%nat -> Z.of_nat j * 16 < 10).
Proof.
  destruct two_keys_abs as (m & E & Ha). exists m. split; [exact E|].
  apply (evict_to_target_minimal m {| keys := [key9 1; key9 2]; free := 0 |} 10 16 Ha); simpl; lia.
Defined.

(** [for_each_entry] ends on every represented manager and visits its keys
    from the least to the most recently used, each once, leaving out only an
    all-zero key. *)
Theorem for_each_visits_in_order m s :
  abs m s -> for_each_entry m = Ret (Some (filter (fun k => k <> zeros 9) (keys s))).
Proof. apply for_each_ok. Qed.

Lemma for_each_visits_in_order_witness :
  exists m, two_keys = Ret m /\ for_each_entry m = Ret (Some [key9 1; key9 2]).
Proof.
  destruct two_keys_abs as (m & E & Ha). exists m. split; [exact E|].
  apply (for_each_visits_in_order m _ Ha).
Defined.

(** A slot emptied by [evict_to_target] is lost: [evict_tail] hands the slot
    index to its caller and [evict_to_target] drops it, so a manager of capacity
    one that has evicted its only entry is empty and refuses every new key. *)
Theorem evict_to_target_leaks_slots :
  exists m1 m2, touch (new 1) (key9 1) = Ret (true, m1) /\
    evict_to_target m1 1 1 = Ret (Some (1%nat, 1, m2)) /\
    len m2 = 0%nat /\ capacity m2 = 1 /\
    forall k, touch m2 k = Ret (false, m2).
Proof.
  assert (exists r, touch (new 1) (key9 1) = Ret (true, r) /\
    exists r2, evict_to_target r 1 1 = Ret (Some (1%nat, 1, r2)) /\ capacity r2 = 1 /\
      key_map r2 = ∅ /\ free_list r2 = [] /\ lru_tail (header r2) = LRU_SENTINEL) as
      (r & Hr & r2 & H2 & Hc & Hk & Hf & Ht).
  { eexists. split; [vm_compute; reflexivity|]. eexists. split; [vm_compute; reflexivity|].
    split_and!; reflexivity. }
  exists r, r2. split_and!; try done.
  - unfold len. by rewrite Hk.
  - intros k. unfold touch. rewrite Hk, lookup_empty, Hf. cbn [vec_pop last].
    unfold evict_tail. by rewrite Ht.
Qed.

(** ** Clients that do not use [evict_tail] or [evict_to_target] *)

Definition slots (s : Spec) : nat := (length (keys s) + free s)%nat.

Lemma filter_not_length (ks : list bytes) k :
  NoDup ks -> k ∈ ks -> S (length (filter (fun k' => k' <> k) ks)) = length ks.
Proof.
  intros Hnd Hin. destruct (list_elem_of_split ks k Hin) as (k1 & k2 & ->).
  apply NoDup_app in Hnd as (_ & Hd & [H2 _]%NoDup_cons).
  rewrite filter_app, filter_cons_False by auto.
  rewrite !filter_all; [rewrite !length_app; simpl; lia| |].
  - by intros k' Hk' ->.
  - intros k' Hk' ->. apply (Hd k Hk'). by left.
Qed.

Lemma abs_nodup m s : abs m s -> NoDup (keys s).
Proof. intros (l & Hr & <- & _). apply Hr. Qed.

Lemma touch_slots s k : NoDup (keys s) -> slots (spec_touch s k).2 = slots s.
Proof.
  destruct s as [ks f]. simpl. intros Hnd. unfold slots, spec_touch. simpl. case_decide as Hin.
  - simpl. rewrite length_app. pose proof (filter_not_length ks k Hnd Hin). simpl. lia.
  - destruct f, ks; simpl; rewrite ?length_app; simpl; lia.
Qed.

Lemma remove_slots s k : NoDup (keys s) -> slots (spec_remove s k).2 = slots s.
Proof.
  intros Hnd. unfold slots, spec_remove. case_decide as Hin; [|done].
  simpl. pose proof (filter_not_length (keys s) k Hnd Hin). lia.
Qed.

(** Histories of [touch] and [remove] alone. *)
Inductive plain (cap : Z) : LruManager -> Prop :=
| plain_new : plain cap (new cap)
| plain_touch m k b m' : plain cap m -> touch m k = Ret (b, m') -> plain cap m'
| plain_remove m k b m' : plain cap m -> remove m k = Ret (b, m') -> plain cap m'.

Lemma plain_abs cap m :
  0 <= cap < 2 ^ 32 -> plain cap m -> exists s, abs m s /\ slots s = Z.to_nat cap.
Proof.
  intros Hc. induction 1 as [|m k b m' _ (s & Ha & Hs) H|m k b m' _ (s & Ha & Hs) H].
  - eexists. split; [by apply abs_new|done].
  - destruct (touch_refines m s k Ha) as (m2 & H2 & Ha2). rewrite H in H2. injection H2 as _ <-.
    exists (spec_touch s k).2. split; [done|]. rewrite touch_slots; [done|]. by eapply abs_nodup.
  - destruct (remove_refines m s k Ha) as (m2 & H2 & Ha2). rewrite H in H2. injection H2 as _ <-.
    exists (spec_remove s k).2. split; [done|]. rewrite remove_slots; [done|]. by eapply abs_nodup.
Qed.

(** As long as a client only touches and removes, no slot is lost: the
    cache never holds more than [capacity] keys, [touch] always succeeds, and
    the touched key is then present. *)
Theorem touch_always_succeeds cap m k :
  0 < cap < 2 ^ 32 -> plain cap m ->
  (len m <= Z.to_nat cap)%nat /\
  exists m', touch m k = Ret (true, m') /\ contains m' k = true.
Proof.
  intros Hc Hp. destruct (plain_abs cap m ltac:(lia) Hp) as (s & Ha & Hs). split.
  - rewrite (len_ok m s Ha). unfold slots in Hs. lia.
  - destruct (touch_refines m s k Ha) as (m' & H & Ha'). exists m'.
    assert ((spec_touch s k).1 = true /\ k ∈ keys (spec_touch s k).2) as [E Hin].
    { destruct s as [ks f]. unfold spec_touch, slots in *. simpl in *.
      case_decide; [simpl; set_solver|]. destruct f, ks; simpl in *; try lia; set_solver. }
    rewrite E in H. split; [done|]. rewrite (contains_ok m' _ k Ha'). by apply bool_decide_true.
Qed.

Lemma touch_always_succeeds_witness :
  (len (new 1) <= 1)%nat /\ exists m', touch (new 1) (key9 3) = Ret (true, m') /\ contains m' (key9 3) = true.
Proof. apply (touch_always_succeeds 1 (new 1) (key9 3)); [lia|apply plain_new]. Defined.

(** ** Checkpoint and reload *)

Section Persistence.
Context (md5 : bytes -> bytes) (hex_decode : bytes -> option bytes).
Context (md5_array : forall data, is_array 16 (md5 data)).
Context (hex_decode_lower : forall bs, is_bytes bs -> hex_decode (concat (map hex_byte bs)) = Some bs).

Lemma filename_inj g1 g2 :
  u64 g1 -> u64 g2 -> generation_to_filename g1 = generation_to_filename g2 -> g1 = g2.
Proof.
  intros H1 H2 E. pose proof (filename_roundtrip hex_decode hex_decode_lower g1 H1) as R1.
  rewrite E, (filename_roundtrip hex_decode hex_decode_lower g2 H2) in R1. congruence.
Qed.

Lemma checkpoint_file io m d :
  write_ok io = true -> u64 (generation m) -> u64 (prev_generation m) ->
  generation m <> prev_generation m ->
  exists d', checkpoint_to_disk md5 io m d = (Ok tt, d') /\
    disk_get d' (generation_to_filename (generation m)) = Some (serialize md5 (header m) (entries m)).
Proof.
  intros Hw Hg Hp Hne. unfold checkpoint_to_disk. rewrite Hw. eexists. split; [done|].
  assert (generation_to_filename (generation m) <> generation_to_filename (prev_generation m)) as Hn.
  { intros E. by apply filename_inj in E. }
  destruct (negb _); [|apply disk_get_write]. destruct (remove_ok _ _); [|apply disk_get_write].
  rewrite disk_get_remove by done. apply disk_get_write.
Qed.

Lemma load_checkpoint io m0 m d s :
  read_ok io = true -> abs m s -> payload_ok m -> zeros 9 ∉ keys s ->
  disk_get d (generation_to_filename (generation m)) = Some (serialize md5 (header m) (entries m)) ->
  exists m', load_from_disk md5 io m0 (generation m) d = Ok m' /\ generation m' = generation m /\
    abs m' {| keys := keys s; free := (length (entries m) - length (keys s))%nat |}.
Proof.
  intros Hrd (l & Hr & Ek & _) Hp Hz Hd. rewrite <- Ek in Hz.
  destruct (deserialize_serialize md5 md5_array (header m) (entries m)) as (hash & E).
  { by eapply rep_header_wf. } { by eapply rep_entries_wf. }
  unfold load_from_disk. rewrite Hrd, Hd, E. destruct (rebuild (entries m)) as [km fl] eqn:Erb.
  eexists. split_and!; [done|done|]. exists l. rewrite <- Ek, length_fmap. simpl.
  edestruct (rebuild_rep m l km fl) as [Hr' L]; [done|done|done| | |].
  3: { split_and!; [exact Hr'|done|done]. } all: done.
Qed.

(** A checkpoint can be read back: after [checkpoint_to_disk] succeeds,
    [load_from_disk] of that generation (into any manager) restores the same
    keys in the same recency order, and every slot not in use is free again. *)
Theorem checkpoint_load_roundtrip io io' m0 m d s :
  abs m s -> payload_ok m -> zeros 9 ∉ keys s ->
  u64 (generation m) -> u64 (prev_generation m) -> generation m <> prev_generation m ->
  write_ok io = true -> read_ok io' = true ->
  exists d' m', checkpoint_to_disk md5 io m d = (Ok tt, d') /\
    load_from_disk md5 io' m0 (generation m) d' = Ok m' /\ generation m' = generation m /\
    abs m' {| keys := keys s; free := (length (entries m) - length (keys s))%nat |}.
Proof.
  intros Ha Hp Hz Hg Hpg Hne Hw Hrd.
  destruct (checkpoint_file io m d Hw Hg Hpg Hne) as (d' & H & Hd).
  destruct (load_checkpoint io' m0 m d' s Hrd Ha Hp Hz Hd) as (m' & H' & ? & ?). eauto 10.
Qed.

(** A checkpoint taken after [load_from_disk] of the previous generation
    removes itself: the load sets [generation] to [prev_generation], so the
    "previous" file that [checkpoint_to_disk] deletes is the one it has just
    written, and it still reports success. *)
Theorem checkpoint_deletes_itself io m m' d :
  load_from_disk md5 io m (prev_generation m) d = Ok m' -> prev_generation m <> 0 ->
  write_ok io = true -> (forall n, remove_ok io n = true) ->
  exists d', checkpoint_to_disk md5 io m' d = (Ok tt, d') /\
    disk_get d' (generation_to_filename (generation m')) = None.
Proof.
  intros Hl Hne Hw Hrm.
  assert (generation m' = prev_generation m /\ prev_generation m' = prev_generation m) as [Eg Ep].
  { unfold load_from_disk in Hl. destruct (if read_ok io then _ else _) as [data|]; [|done].
    destruct (deserialize md5 data) as [[h es]|]; [|done].
    destruct (rebuild es). by injection Hl as <-. }
  unfold checkpoint_to_disk. rewrite Hw, Eg, Ep, Hrm.
  rewrite (proj2 (Z.eqb_neq _ _)) by done. eexists. split; [done|]. apply disk_get_removed.
Qed.

End Persistence.

Section Latest.
Context (hex_decode : bytes -> option bytes).

Lemma find_latest_inv d best g name :
  Forall (fun f => utf8_valid (fst f) = true) d ->
  find_latest hex_decode d best = Some (g, name) ->
  ((best = Some (g, name)) \/ (filename_to_generation hex_decode name = Some g /\ name ∈ d.*1)) /\
  (forall n' g', n' ∈ d.*1 -> filename_to_generation hex_decode n' = Some g' -> g' <= g) /\
  (forall gb nb, best = Some (gb, nb) -> gb <= g).
Proof.
  intros Hu. revert best. induction Hu as [|[n c] d Hn Hd IH]; intros best H; simpl in *.
  - split_and!; [by left| |]; [by intros ? ? ?%not_elem_of_nil|intros; simplify_eq; lia].
  - rewrite Hn in H. destruct (IH _ H) as (Ho & Hmax & Hb). clear IH.
    destruct (filename_to_generation hex_decode n) as [gn|] eqn:En.
    + assert (gn <= g) as Hgn.
      { destruct best as [[gb nb]|]; [|by eapply Hb].
        destruct (Z.ltb_spec gb gn); [by eapply Hb|]. specialize (Hb gb nb eq_refl). lia. }
      split_and!.
      * destruct best as [[gb nb]|]; [destruct (gb <? gn)|]; destruct Ho as [Ho|[? ?]];
          simplify_eq; auto; right; split; auto; set_solver.
      * intros n' g' [-> |Hin]%elem_of_cons Hg'; [congruence|eauto].
      * intros gb nb ->. destruct (Z.ltb_spec gb gn); [lia|]. by eapply Hb.
    + split_and!; [destruct Ho as [?|[? ?]]; [by left|right; split; auto; set_solver]| |done].
      intros n' g' [-> |Hin]%elem_of_cons Hg'; [congruence|eauto].
Qed.

(** [find_latest_lru_file] returns the highest generation among the
    well-formed names of the directory, in whatever order it is listed, when
    every name in it is valid UTF-8. *)
Theorem find_latest_is_maximal io d g name :
  Forall (fun f => utf8_valid (fst f) = true) d ->
  find_latest_lru_file hex_decode io d = Some (g, name) ->
  filename_to_generation hex_decode name = Some g /\ name ∈ d.*1 /\
  forall n' g', n' ∈ d.*1 -> filename_to_generation hex_decode n' = Some g' -> g' <= g.
Proof.
  intros Hu. unfold find_latest_lru_file. destruct (list_ok io); [|done].
  intros Hf. destruct (find_latest_inv d None g name Hu Hf) as ([?|[? ?]] & ? & _); done.
Qed.

End Latest.

(** ** Witnesses of the persistence theorems *)

Definition io_ok : Io :=
  {| write_ok := true; partial := None; read_ok := true; list_ok := true; remove_ok := fun _ => true |}.

Lemma new_payload cap : payload_ok (new cap).
Proof.
  split_and!; simpl; try done.
  - apply Forall_replicate, empty_payload.
  - split; [done|apply (zeros_bytes 16)].
Qed.

Lemma checkpoint_load_roundtrip_witness :
  exists d' m', checkpoint_to_disk digest_ref io_ok (new 2) [] = (Ok tt, d') /\
    load_from_disk digest_ref io_ok (new 5) 1 d' = Ok m' /\ generation m' = 1 /\
    abs m' {| keys := []; free := 2 |}.
Proof.
  apply (checkpoint_load_roundtrip digest_ref hex_decode_ref digest_ref_array hex_decode_ref_lower
    io_ok io_ok (new 5) (new 2) [] {| keys := []; free := 2 |}).
  - apply (abs_new 2). lia.
  - apply new_payload.
  - apply not_elem_of_nil.
  - unfold in_u; simpl; lia.
  - unfold in_u; simpl; lia.
  - done.
  - done.
  - done.
Defined.

Definition sample_dir : disk :=
  [(generation_to_filename 3, []); (generation_to_filename 7, []); (key9 65, [])].

Lemma find_latest_is_maximal_witness :
  let d := sample_dir in
  filename_to_generation hex_decode_ref (generation_to_filename 7) = Some 7 /\
  generation_to_filename 7 ∈ d.*1 /\
  forall n' g', n' ∈ d.*1 -> filename_to_generation hex_decode_ref n' = Some g' -> g' <= 7.
Proof.
  apply (find_latest_is_maximal hex_decode_ref io_ok sample_dir).
  - repeat constructor.
  - vm_compute. reflexivity.
Defined.

(** A manager at generation 2 whose previous checkpoint is generation 1. *)
Lemma checkpoint_deletes_itself_witness :
  let m := bump_generation (new 1) in
  let d := (checkpoint_to_disk digest_ref io_ok (new 1) []).2 in
  exists m', load_from_disk digest_ref io_ok m 1 d = Ok m' /\
  exists d', checkpoint_to_disk digest_ref io_ok m' d = (Ok tt, d') /\
    disk_get d' (generation_to_filename (generation m')) = None.
Proof.
  intros m d.
  assert (exists m', load_from_disk digest_ref io_ok m (prev_generation m) d = Ok m') as [m' Hm'].
  { eexists. vm_compute. reflexivity. }
  exists m'. split; [exact Hm'|].
  apply (checkpoint_deletes_itself digest_ref io_ok m m' d Hm'); [done|done|done].
Defined.
