(* ===== verification/Collections.v ===== *)
(** * Ordered collections of the standard library

    [BTreeMap] as a strictly sorted association list, the stable
    [slice::sort_by_key] and [slice::binary_search_by], over any totally ordered
    key type.  The index and key-mapping components use them. *)

From stdpp Require Export sorting.
From S2P Require Import Prelude Bytes.

(** A total order given by its comparison function: [Ord]. *)
Class OrdKey (K : Type) : Type := {
  kcmp : K -> K -> comparison;
  kcmp_eq : forall a b, kcmp a b = Eq <-> a = b;
  kcmp_antisym : forall a b, kcmp b a = CompOpp (kcmp a b);
  kcmp_trans : forall a b c, kcmp a b = Lt -> kcmp b c = Lt -> kcmp a c = Lt;
}.

#[export] Instance bytes_ord : OrdKey bytes := {|
  kcmp := lex_compare;
  kcmp_eq := lex_compare_eq;
  kcmp_antisym := lex_compare_antisym;
  kcmp_trans := lex_lt_trans;
|}.

#[export, refine] Instance Z_ord : OrdKey Z := {| kcmp := Z.compare |}.
Proof.
  - intros a b. apply Z.compare_eq_iff.
  - intros a b. apply Z.compare_antisym.
  - intros a b c. rewrite !Z.compare_lt_iff. lia.
Defined.

(** ** [slice::binary_search_by]

    The loop runs while [size > 1] and halves [size]. *)

Section Search.
Context {A : Type} (f : A -> comparison).

Fixpoint bs_loop (fuel : nat) (l : list A) (base size : nat) : nat :=
  match fuel with
  | O => base
  | S fuel =>
      if size <=? 1 then base
      else
        let half := size / 2 in
        let mid := base + half in
        let base :=
          match l !! mid with
          | Some x => match f x with Gt => base | _ => mid end
          | None => base
          end in
        bs_loop fuel l base (size - half)
  end.

Definition binary_search_by (l : list A) : result nat nat :=
  match l with
  | [] => Err 0
  | _ =>
      let base := bs_loop (length l) l 0 (length l) in
      match l !! base with
      | Some x =>
          match f x with
          | Eq => Ok base
          | Lt => Err (base + 1)
          | Gt => Err base
          end
      | None => Err base
      end
  end.

(** What the documentation asks of the slice: first the elements that compare
    less, then the equal ones, then the greater ones. *)
Definition compare_ordered (l : list A) : Prop :=
  forall i j x y, l !! i = Some x -> l !! j = Some y -> i <= j ->
    (f x = Gt -> f y = Gt) /\ (f y = Lt -> f x = Lt).

(** Invariant of the loop: everything from [base + size] on is greater, and
    [base] is the start or not greater. *)
Lemma bs_loop_inv l fuel base size :
  compare_ordered l -> size <= S fuel -> 1 <= size -> base + size <= length l ->
  (forall j y, l !! j = Some y -> base + size <= j -> f y = Gt) ->
  (base = 0 \/ exists x, l !! base = Some x /\ f x <> Gt) ->
  let b := bs_loop fuel l base size in
  b < length l /\ (forall j y, l !! j = Some y -> b < j -> f y = Gt) /\
  (b = 0 \/ exists x, l !! b = Some x /\ f x <> Gt).
Proof.
  intros Hs. revert base size. induction fuel as [|fuel IH]; intros base size Hf H1 Hb Hgt Hle.
  - simpl. assert (size = 1) as -> by lia. split_and!; [lia| |done].
    intros j y Hj ?. apply (Hgt j); [done|lia].
  - cbn [bs_loop]. destruct (Nat.leb_spec size 1).
    { assert (size = 1) as -> by lia. split_and!; [lia| |done].
      intros j y Hj ?. apply (Hgt j); [done|lia]. }
    assert (0 < size / 2 /\ size / 2 < size) as [Hh1 Hh2].
    { split; [apply Nat.div_str_pos; lia|apply Nat.div_lt; lia]. }
    destruct (lookup_lt_is_Some_2 l (base + size / 2)) as [x Hx]; [lia|]. rewrite Hx.
    destruct (f x) eqn:E.
    1,2: apply IH; [lia|lia|lia| |right; exists x; split; [done|]; by rewrite E];
      intros j y Hj ?; apply (Hgt j); [done|lia].
    apply IH; [lia|lia|lia| |done].
    intros j y Hj Hjb. pose proof (Nat.div_mod_eq size 2). pose proof (Nat.mod_upper_bound size 2).
    by apply (Hs (base + size / 2) j x y Hx Hj ltac:(lia)).
Qed.

(** On such a slice the search finds an equal element, or the place that
    separates the smaller elements from the greater ones. *)
Lemma binary_search_by_spec l :
  compare_ordered l ->
  match binary_search_by l with
  | Ok i => exists x, l !! i = Some x /\ f x = Eq
  | Err i => i <= length l /\ (forall j x, l !! j = Some x -> j < i -> f x = Lt) /\
             (forall j x, l !! j = Some x -> i <= j -> f x = Gt)
  end.
Proof.
  intros Hs. destruct l as [|x0 l0]; [split_and!; [done|by intros []..]|].
  unfold binary_search_by. set (l := x0 :: l0) in *.
  destruct (bs_loop_inv l (length l) 0 (length l) Hs) as (Hb & Hgt & Hle);
    [lia|unfold l; simpl; lia|lia| |by left|].
  { intros j y Hj ?. apply lookup_lt_Some in Hj. lia. }
  set (b := bs_loop _ _ _ _) in *.
  destruct (lookup_lt_is_Some_2 l b Hb) as [x Hx]. rewrite Hx.
  destruct (f x) eqn:E; [by eauto| |].
  - split_and!; [lia| |].
    + intros j y Hj ?. by apply (Hs j b y x Hj Hx ltac:(lia)).
    + intros j y Hj ?. apply (Hgt j); [done|lia].
  - destruct Hle as [Hb0|(x' & Hx' & Hle)]; [|congruence]. rewrite Hb0 in *. split_and!; [lia|lia|].
    intros j y Hj ?. by apply (Hs 0 j x y Hx Hj ltac:(lia)).
Qed.

End Search.

Section Ordered.
Context {K : Type} `{!OrdKey K}.

Definition klt (a b : K) : Prop := kcmp a b = Lt.
Definition kle (a b : K) : Prop := kcmp a b <> Gt.

Lemma kcmp_refl a : kcmp a a = Eq.
Proof. by apply kcmp_eq. Qed.

Lemma klt_irrefl a : ~ klt a a.
Proof. unfold klt. by rewrite kcmp_refl. Qed.

Lemma klt_ne a b : klt a b -> a <> b.
Proof. intros H ->. by apply klt_irrefl in H. Qed.

Lemma kcmp_gt a b : kcmp a b = Gt <-> klt b a.
Proof. unfold klt. rewrite (kcmp_antisym a b). destruct (kcmp a b); done. Qed.

Lemma kle_cases a b : kle a b <-> klt a b \/ a = b.
Proof. unfold kle, klt. rewrite <- kcmp_eq. destruct (kcmp a b); intuition congruence. Qed.

Lemma klt_trans a b c : klt a b -> klt b c -> klt a c.
Proof. apply kcmp_trans. Qed.

Lemma kle_trans a b c : kle a b -> kle b c -> kle a c.
Proof. rewrite !kle_cases. intros [?| ->] [?| ->]; eauto using klt_trans. Qed.

Lemma klt_kle_trans a b c : klt a b -> kle b c -> klt a c.
Proof. rewrite kle_cases. intros ? [?| ->]; eauto using klt_trans. Qed.

Lemma kle_klt_trans a b c : kle a b -> klt b c -> klt a c.
Proof. rewrite kle_cases. intros [?| ->] ?; eauto using klt_trans. Qed.

Lemma kle_gt a b : ~ kle a b <-> klt b a.
Proof. unfold kle. rewrite <- kcmp_gt. destruct (kcmp a b); intuition congruence. Qed.

Lemma ord_eq_dec : EqDecision K.
Proof.
  intros a b. destruct (kcmp a b) eqn:E; [left; by apply kcmp_eq|right|right];
    intros ->; by rewrite kcmp_refl in E.
Defined.

(** ** [BTreeMap] *)

Section Map.
Context {V : Type}.

Abbreviation btree := (list (K * V)).

Fixpoint bt_get (k : K) (m : btree) : option V :=
  match m with
  | [] => None
  | (k', v) :: m => match kcmp k k' with Eq => Some v | _ => bt_get k m end
  end.

Fixpoint bt_insert (k : K) (v : V) (m : btree) : btree :=
  match m with
  | [] => [(k, v)]
  | (k', v') :: m' =>
      match kcmp k k' with
      | Lt => (k, v) :: m
      | Eq => (k, v) :: m'
      | Gt => (k', v') :: bt_insert k v m'
      end
  end.

(** The keys in increasing order. *)
Definition bt_sorted (m : btree) : Prop := StronglySorted klt m.*1.

Lemma bt_get_insert k k' v m :
  bt_get k' (bt_insert k v m) = match kcmp k' k with Eq => Some v | _ => bt_get k' m end.
Proof.
  induction m as [|[k1 v1] m IH]; simpl; [done|].
  destruct (kcmp k k1) eqn:E; simpl; try done.
  - apply kcmp_eq in E as ->. by destruct (kcmp k' k1).
  - rewrite IH. destruct (kcmp k' k1) eqn:E1; [|done|done].
    apply kcmp_eq in E1 as ->. rewrite (kcmp_antisym k k1), E. done.
Qed.

Lemma bt_insert_keys k v m x : x ∈ (bt_insert k v m).*1 -> x = k \/ x ∈ m.*1.
Proof.
  induction m as [|[k1 v1] m IH]; simpl; [set_solver|].
  destruct (kcmp k k1); simpl; set_solver.
Qed.

Lemma bt_insert_sorted k v m : bt_sorted m -> bt_sorted (bt_insert k v m).
Proof.
  unfold bt_sorted. induction m as [|[k1 v1] m IH]; simpl; intros Hs; [repeat constructor|].
  apply StronglySorted_inv in Hs as [Hs Hall].
  destruct (kcmp k k1) eqn:E; simpl.
  - apply kcmp_eq in E as ->. by constructor.
  - constructor; [by constructor|]. constructor; [done|]. eapply Forall_impl; [done|].
    intros x Hx. by eapply klt_trans.
  - constructor; [by apply IH|]. apply Forall_forall. intros x Hx.
    apply bt_insert_keys in Hx as [-> |Hx]; [by apply kcmp_gt|].
    by eapply Forall_forall in Hall.
Qed.

Lemma bt_get_In k v m : bt_sorted m -> bt_get k m = Some v <-> (k, v) ∈ m.
Proof.
  unfold bt_sorted. induction m as [|[k1 v1] m IH]; simpl; intros Hs.
  - split; [done|]. by intros ?%not_elem_of_nil.
  - apply StronglySorted_inv in Hs as [Hs Hall]. rewrite elem_of_cons.
    assert (forall v, (k, v) ∈ m -> klt k1 k) as Hlt.
    { intros v' Hin. rewrite Forall_forall in Hall. apply Hall.
      by apply (list_elem_of_fmap_2 fst) in Hin. }
    destruct (kcmp k k1) eqn:E.
    + apply kcmp_eq in E as ->. split; [intros [= ->]; by left|].
      intros [[= ->]|Hin]; [done|]. by apply Hlt, klt_irrefl in Hin.
    + rewrite (IH Hs). split; [by right|]. intros [[= -> ->]|?]; [|done].
      by rewrite kcmp_refl in E.
    + rewrite (IH Hs). split; [by right|]. intros [[= -> ->]|?]; [|done].
      by rewrite kcmp_refl in E.
Qed.

(** Inserting a sequence of bindings one after the other: the last one wins. *)
Definition bt_extend (m : btree) (l : list (K * V)) : btree :=
  fold_left (fun m '(k, v) => bt_insert k v m) l m.

Fixpoint last_of (k : K) (l : list (K * V)) : option V :=
  match l with
  | [] => None
  | (k', v) :: l =>
      match last_of k l with
      | Some w => Some w
      | None => match kcmp k k' with Eq => Some v | _ => None end
      end
  end.

Lemma last_of_elem k v l : last_of k l = Some v -> (k, v) ∈ l.
Proof.
  induction l as [|[k1 v1] l IH]; simpl; [done|]. destruct (last_of k l) as [w|].
  - intros [= ->]. right. auto.
  - destruct (kcmp k k1) eqn:E; intros; simplify_eq. apply kcmp_eq in E as ->. left.
Qed.

Lemma last_of_None k l : last_of k l = None -> forall v, (k, v) ∉ l.
Proof.
  induction l as [|[k1 v1] l IH]; simpl; intros H v; [apply not_elem_of_nil|].
  destruct (last_of k l) as [w|]; [done|]. rewrite not_elem_of_cons. split; [|by apply IH].
  intros E. simplify_eq. by rewrite kcmp_refl in H.
Qed.

Lemma bt_get_extend m l k :
  bt_get k (bt_extend m l) = match last_of k l with Some v => Some v | None => bt_get k m end.
Proof.
  revert m. induction l as [|[k1 v1] l IH]; intros m; [done|].
  change (bt_extend m ((k1, v1) :: l)) with (bt_extend (bt_insert k1 v1 m) l).
  rewrite IH. simpl. destruct (last_of k l); [done|].
  rewrite bt_get_insert. by destruct (kcmp k k1).
Qed.

Lemma bt_extend_sorted m l : bt_sorted m -> bt_sorted (bt_extend m l).
Proof.
  revert m. induction l as [|[k v] l IH]; intros m; simpl; [done|].
  intros. by apply IH, bt_insert_sorted.
Qed.

Lemma bt_insert_length k v m : length (bt_insert k v m) <= S (length m).
Proof.
  induction m as [|[k1 v1] m IH]; simpl; [lia|]. destruct (kcmp k k1); simpl; lia.
Qed.

Lemma bt_insert_vals k v m w : w ∈ (bt_insert k v m).*2 -> w = v \/ w ∈ m.*2.
Proof.
  induction m as [|[k1 v1] m IH]; simpl; [set_solver|].
  destruct (kcmp k k1); simpl; set_solver.
Qed.

Lemma bt_extend_elem m l k v : (k, v) ∈ bt_extend m l -> (k, v) ∈ m \/ (k, v) ∈ l.
Proof.
  revert m. induction l as [|[k1 v1] l IH]; intros m; simpl; [by left|].
  intros [H|H]%IH; [|right; by right].
  assert ((k, v) = (k1, v1) \/ (k, v) ∈ m) as [->|?]; [|right; by left|by left].
  clear -H. induction m as [|[k2 v2] m IH]; simpl in H.
  - apply list_elem_of_singleton in H. by left.
  - destruct (kcmp k1 k2); set_solver.
Qed.

End Map.

(** ** Sorted slices *)

Section Slices.
Context {A : Type} (key : A -> K).

(** [slice::sort_by_key]: a stable sort. *)
Fixpoint sort_insert (x : A) (l : list A) : list A :=
  match l with
  | [] => [x]
  | y :: l' => match kcmp (key x) (key y) with Gt => y :: sort_insert x l' | _ => x :: l end
  end.

Definition sort_by_key (l : list A) : list A := foldr sort_insert [] l.

Definition sorted_by (l : list A) : Prop := StronglySorted (fun a b => kle (key a) (key b)) l.
Definition strictly_sorted (l : list A) : Prop := StronglySorted (fun a b => klt (key a) (key b)) l.

Lemma sort_insert_perm x l : sort_insert x l ≡ₚ x :: l.
Proof.
  induction l as [|y l IH]; simpl; [done|]. destruct (kcmp (key x) (key y)); try done.
  rewrite IH. by rewrite Permutation_swap.
Qed.

Lemma sort_by_key_perm l : sort_by_key l ≡ₚ l.
Proof. induction l as [|x l IH]; simpl; [done|]. by rewrite sort_insert_perm, IH. Qed.

Lemma sort_insert_sorted x l : sorted_by l -> sorted_by (sort_insert x l).
Proof.
  unfold sorted_by. induction l as [|y l IH]; simpl; intros Hs; [repeat constructor|].
  destruct (kcmp (key x) (key y)) eqn:E.
  - constructor; [done|]. apply StronglySorted_inv in Hs as [Hs Hall].
    apply kcmp_eq in E. constructor; [apply kle_cases; by right|].
    eapply Forall_impl; [exact Hall|]. simpl. intros z Hz. by rewrite E.
  - constructor; [done|]. apply StronglySorted_inv in Hs as [Hs Hall].
    constructor; [apply kle_cases; by left|]. eapply Forall_impl; [exact Hall|].
    simpl. intros z Hz. eapply kle_trans; [|exact Hz]. apply kle_cases. by left.
  - apply StronglySorted_inv in Hs as [Hs Hall]. constructor; [by apply IH|].
    rewrite sort_insert_perm. constructor; [|done]. apply kle_cases. left. by apply kcmp_gt.
Qed.

Lemma sort_by_key_sorted l : sorted_by (sort_by_key l).
Proof. induction l; simpl; [constructor|]. by apply sort_insert_sorted. Qed.

Lemma strictly_sorted_sorted l : strictly_sorted l -> sorted_by l.
Proof.
  unfold strictly_sorted, sorted_by. induction 1 as [|x l Hs IH Hall]; constructor; [done|].
  eapply Forall_impl; [done|]. intros y Hy. apply kle_cases. by left.
Qed.

(** A sorted slice is left as it is. *)
Lemma sort_by_key_id l : sorted_by l -> sort_by_key l = l.
Proof.
  unfold sorted_by. induction 1 as [|x l Hs IH Hall]; simpl; [done|]. rewrite IH.
  destruct l as [|y l]; [done|]. simpl. apply Forall_cons in Hall as [Hxy _].
  unfold kle in Hxy. by destruct (kcmp (key x) (key y)).
Qed.

(** [l.binary_search_by(|x| key(x).cmp(k))]. *)
Definition binary_search (l : list A) (k : K) : result nat nat := binary_search_by (fun x => kcmp (key x) k) l.

(** [l.binary_search_by_key(k, key).ok().map(|i| l[i])]. *)
Definition search (l : list A) (k : K) : option A :=
  match binary_search l k with Ok i => l !! i | Err _ => None end.

Lemma sorted_by_lookup l i j x y :
  sorted_by l -> l !! i = Some x -> l !! j = Some y -> i <= j -> kle (key x) (key y).
Proof.
  intros Hs. revert i j. induction Hs as [|z l Hs IH Hall]; intros [|i] [|j] Hi Hj Hij;
    simpl in *; simplify_eq; try done; try lia.
  - apply kle_cases. by right.
  - eapply Forall_lookup_1 in Hall; done.
  - eapply IH; [done..|lia].
Qed.

Lemma sorted_compare_ordered l k : sorted_by l -> compare_ordered (fun x => kcmp (key x) k) l.
Proof.
  intros Hs i j x y Hi Hj Hij. pose proof (sorted_by_lookup l i j x y Hs Hi Hj Hij) as Hle. split.
  - rewrite !kcmp_gt. intros ?. by eapply klt_kle_trans.
  - intros ?. by eapply kle_klt_trans.
Qed.

(** Binary search on a sorted slice finds an element with the key if there is
    one, and otherwise reports that there is none. *)
Lemma binary_search_spec l k :
  sorted_by l ->
  match binary_search l k with
  | Ok i => exists x, l !! i = Some x /\ key x = k
  | Err _ => forall x, x ∈ l -> key x <> k
  end.
Proof.
  intros Hs. pose proof (binary_search_by_spec _ l (sorted_compare_ordered l k Hs)) as H. unfold binary_search.
  destruct (binary_search_by _ l) as [i|i].
  - destruct H as (x & Hx & E). exists x. split; [done|]. by apply kcmp_eq.
  - destruct H as (_ & Hlt & Hgt). intros x [j Hj]%list_elem_of_lookup E. apply kcmp_eq in E.
    destruct (Nat.lt_ge_cases j i) as [L|L]; [specialize (Hlt j x Hj L)|specialize (Hgt j x Hj L)]; congruence.
Qed.

Lemma strictly_sorted_inj l x y : strictly_sorted l -> x ∈ l -> y ∈ l -> key x = key y -> x = y.
Proof.
  unfold strictly_sorted. induction 1 as [|z l Hs IH Hall]; [by intros ?%not_elem_of_nil|].
  rewrite Forall_forall in Hall.
  intros [-> |Hx]%elem_of_cons [-> |Hy]%elem_of_cons E; auto.
  - specialize (Hall y Hy). rewrite E in Hall. by apply klt_irrefl in Hall.
  - specialize (Hall x Hx). rewrite E in Hall. by apply klt_irrefl in Hall.
Qed.

Lemma search_Some l k x :
  strictly_sorted l -> search l k = Some x <-> x ∈ l /\ key x = k.
Proof.
  intros Hs. unfold search. pose proof (binary_search_spec l k (strictly_sorted_sorted l Hs)) as H.
  destruct (binary_search l k) as [i|i].
  - destruct H as (y & Hy & Hk). rewrite Hy. split.
    + intros [= ->]. split; [|done]. by eapply list_elem_of_lookup_2.
    + intros [Hx Hkx]. f_equal. eapply strictly_sorted_inj; [done| |done|congruence].
      by eapply list_elem_of_lookup_2.
  - split; [done|]. intros [Hx Hk]. by destruct (H x Hx).
Qed.

Lemma search_None l k :
  strictly_sorted l -> search l k = None <-> forall x, x ∈ l -> key x <> k.
Proof.
  intros Hs. split.
  - intros H x Hx Hk. assert (search l k = Some x) by by apply search_Some. congruence.
  - intros H. destruct (search l k) as [x|] eqn:E; [|done].
    apply search_Some in E as [Hx Hk]; [|done]. by destruct (H x Hx).
Qed.

Lemma sorted_nodup_strict l : sorted_by l -> NoDup (map key l) -> strictly_sorted l.
Proof.
  unfold sorted_by, strictly_sorted. induction 1 as [|x l Hs IH Hall]; cbn [map]; [constructor|].
  intros [Hx Hn]%NoDup_cons. constructor; [by apply IH|]. rewrite Forall_forall in Hall |- *. intros y Hy.
  destruct (proj1 (kle_cases _ _) (Hall y Hy)) as [|E]; [done|]. exfalso. apply Hx. rewrite E. by apply list_elem_of_fmap_2.
Qed.

Lemma sort_strict l : NoDup (map key l) -> strictly_sorted (sort_by_key l).
Proof.
  intros Hn. apply sorted_nodup_strict; [apply sort_by_key_sorted|]. change (NoDup (key <$> sort_by_key l)). by rewrite sort_by_key_perm.
Qed.

Lemma sorted_app l1 l2 : sorted_by l1 -> sorted_by l2 -> (forall x y, x ∈ l1 -> y ∈ l2 -> kle (key x) (key y)) -> sorted_by (l1 ++ l2).
Proof.
  unfold sorted_by. induction 1 as [|x l1 Hs IH Hall]; intros H2 H; [done|]. cbn [app]. constructor.
  - apply IH; [done|]. intros y z Hy Hz. apply H; [by right|done].
  - apply Forall_app. split; [done|]. apply Forall_forall. intros y Hy. apply H; [by left|done].
Qed.

(** *** A stable sort is the only one

    Two sorted lists that agree, for every key, on the elements with that key are
    equal; sorting keeps those elements in their order. *)

Definition at_key (k : K) (l : list A) : list A := filter (fun a => kcmp (key a) k = Eq) l.

Lemma at_key_cons k x l : at_key k (x :: l) = match kcmp (key x) k with Eq => [x] | _ => [] end ++ at_key k l.
Proof. unfold at_key. rewrite filter_cons. by destruct (kcmp (key x) k). Qed.

Lemma at_key_app k l1 l2 : at_key k (l1 ++ l2) = at_key k l1 ++ at_key k l2.
Proof. apply filter_app. Qed.

Lemma elem_of_at_key k x l : x ∈ at_key k l <-> key x = k /\ x ∈ l.
Proof. unfold at_key. rewrite list_elem_of_filter. by rewrite kcmp_eq. Qed.

Lemma at_key_nil k l : (forall a, a ∈ l -> key a <> k) -> at_key k l = [].
Proof.
  intros H. destruct (at_key k l) as [|a l'] eqn:E; [done|]. assert (a ∈ at_key k l) as [Hk Ha]%elem_of_at_key by (rewrite E; by left).
  by destruct (H a Ha).
Qed.

Lemma at_key_sort_insert k x l : at_key k (sort_insert x l) = at_key k (x :: l).
Proof.
  induction l as [|y l IH]; [done|]. cbn [sort_insert]. destruct (kcmp (key x) (key y)) eqn:E; [done..|].
  rewrite (at_key_cons k y (sort_insert x l)), IH, !at_key_cons, !(assoc_L (++)). f_equal.
  destruct (kcmp (key y) k) eqn:Ey, (kcmp (key x) k) eqn:Ex; try done.
  apply kcmp_eq in Ey, Ex. by rewrite Ey, Ex, kcmp_refl in E.
Qed.

Lemma at_key_sort_by_key k l : at_key k (sort_by_key l) = at_key k l.
Proof.
  induction l as [|x l IH]; [done|]. cbn [sort_by_key foldr]. rewrite at_key_sort_insert, !at_key_cons. by f_equal.
Qed.

Lemma sorted_head_le x l y : sorted_by (x :: l) -> y ∈ x :: l -> kle (key x) (key y).
Proof.
  intros [_ H]%StronglySorted_inv [-> |Hy]%elem_of_cons; [unfold kle; by rewrite kcmp_refl|].
  rewrite Forall_forall in H. by apply H.
Qed.

Lemma stable_unique l1 l2 : sorted_by l1 -> sorted_by l2 -> (forall k, at_key k l1 = at_key k l2) -> l1 = l2.
Proof.
  revert l2. induction l1 as [|x l1 IH]; intros l2 H1 H2 H.
  - destruct l2 as [|y l2]; [done|]. assert (y ∈ at_key (key y) []) by (rewrite H; apply elem_of_at_key; split; [done|by left]).
    by apply elem_of_at_key in H0 as [_ ?%not_elem_of_nil].
  - destruct l2 as [|y l2].
    { assert (x ∈ at_key (key x) []) by (rewrite <- H; apply elem_of_at_key; split; [done|by left]).
      by apply elem_of_at_key in H0 as [_ ?%not_elem_of_nil]. }
    assert (x ∈ y :: l2 /\ y ∈ x :: l1) as [Hx Hy].
    { split; [apply (elem_of_at_key (key x)); rewrite <- H|apply (elem_of_at_key (key y)); rewrite H]; apply elem_of_at_key; (split; [done|by left]). }
    assert (key x = key y) as Hxy.
    { pose proof (sorted_head_le _ _ _ H1 Hy) as Ha. pose proof (sorted_head_le _ _ _ H2 Hx) as Hb.
      apply kle_cases in Ha as [Ha|?]; [|done]. apply kle_gt in Ha. done. }
    assert (x = y) as ->.
    { specialize (H (key y)). rewrite !at_key_cons, Hxy, kcmp_refl in H. by simplify_eq/=. }
    f_equal. apply IH; [by apply StronglySorted_inv in H1 as [? _]|by apply StronglySorted_inv in H2 as [? _]|].
    intros k. specialize (H k). rewrite !at_key_cons in H. by apply app_inv_head in H.
Qed.

Lemma sort_by_key_unique l l' : sorted_by l' -> (forall k, at_key k l' = at_key k l) -> l' = sort_by_key l.
Proof. intros. apply stable_unique; [done|apply sort_by_key_sorted|]. intros k. by rewrite at_key_sort_by_key. Qed.

End Slices.
End Ordered.

(** ** Orders on pairs *)

#[export, refine] Instance nat_ord : OrdKey nat := {| kcmp := Nat.compare |}.
Proof.
  - intros a b. apply Nat.compare_eq_iff.
  - intros a b. apply Nat.compare_antisym.
  - intros a b c. rewrite !Nat.compare_lt_iff. lia.
Defined.

#[export, refine] Instance prod_ord {K1 K2} `{!OrdKey K1, !OrdKey K2} : OrdKey (K1 * K2) :=
  {| kcmp a b := match kcmp a.1 b.1 with Eq => kcmp a.2 b.2 | c => c end |}.
Proof.
  - intros [a1 a2] [b1 b2]. simpl. destruct (kcmp a1 b1) eqn:E.
    + apply kcmp_eq in E as ->. rewrite kcmp_eq. naive_solver.
    + split; [done|]. intros [= -> _]. by rewrite kcmp_refl in E.
    + split; [done|]. intros [= -> _]. by rewrite kcmp_refl in E.
  - intros [a1 a2] [b1 b2]. simpl. rewrite (kcmp_antisym a1 b1). destruct (kcmp a1 b1); simpl; [apply kcmp_antisym|done..].
  - intros [a1 a2] [b1 b2] [c1 c2]. simpl. intros H1 H2.
    destruct (kcmp a1 b1) eqn:E1; [| |done].
    + apply kcmp_eq in E1 as ->. destruct (kcmp b1 c1); [|done..]. by eapply kcmp_trans.
    + destruct (kcmp b1 c1) eqn:E2; [| |done].
      * apply kcmp_eq in E2 as <-. by rewrite E1.
      * by rewrite (kcmp_trans _ _ _ E1 E2).
Defined.

Lemma prod_klt {K1 K2} `{!OrdKey K1, !OrdKey K2} (a b : K1 * K2) :
  klt a b <-> klt a.1 b.1 \/ (a.1 = b.1 /\ klt a.2 b.2).
Proof.
  unfold klt. destruct a as [a1 a2], b as [b1 b2]. simpl. destruct (kcmp a1 b1) eqn:E.
  - pose proof E as ->%kcmp_eq. split; [by right|]. intros [?|[_ ?]]; [congruence|done].
  - split; [by left|done].
  - split; [done|]. intros [?|[-> _]]; [done|]. by rewrite kcmp_refl in E.
Qed.

#[export] Hint Resolve klt_trans bt_insert_sorted bt_extend_sorted strictly_sorted_sorted : casc.
