(* ===== verification/Pages.v ===== *)
(** * Pages of guarded entries

    The update section of the index ([update.rs]), the residency database
    ([key_state.rs]) and the KMT file ([kmt_file.rs]) store their entries in
    fixed-size pages with the same code: entries one after the other, a guard
    word at the start of each, zero meaning "no entry from here on".  This file
    has that code once, over an interface [PageEntry] that says what a page
    expects of its entries; the three components are instances. *)

From S2P Require Import Prelude Bytes.

(** Sizes and codec of an entry type. *)
Class PageEntry (E : Type) : Type := {
  entry_size : nat;
  page_size : nat;
  enc : E -> bytes;
  dec : bytes -> E;
  entry_ok : E -> Prop;
}.

(** What the page code relies on. *)
Class PageEntryLaws (E : Type) `{!PageEntry E} : Prop := {
  sizes_ok : 4 <= entry_size /\ entry_size <= page_size;
  enc_length : forall e : E, entry_ok e -> length (enc e) = entry_size;
  enc_bytes : forall e : E, entry_ok e -> is_bytes (enc e);
  dec_enc : forall e : E, entry_ok e -> dec (enc e) = e;
  enc_guard : forall e : E, entry_ok e -> from_le_bytes (take 4 (enc e)) <> 0%Z;
}.

Section Page.
Context {E : Type} `{!PageEntry E}.

Definition per_page : nat := page_size / entry_size.

(** [to_bytes]: copy entry [i] to offset [i * entry_size] of a zeroed page. *)
Definition page_to_bytes (es : list E) : bytes :=
  fold_left (fun buf '(i, e) => copy_at (i * entry_size) (enc e) buf) (imap pair es) (zeros page_size).

(** The loop of [from_bytes]; each iteration advances by [entry_size], so
    [per_page + 1] iterations reach the end of the page. *)
Fixpoint page_loop (fuel offset : nat) (data : bytes) : list E :=
  match fuel with
  | O => []
  | S fuel =>
      if offset + entry_size <=? page_size then
        if (from_le_bytes (slice offset (offset + 4) data) =? 0)%Z then []
        else dec (slice offset (offset + entry_size) data) ::
             page_loop fuel (offset + entry_size) data
      else []
  end.

Definition page_from_bytes (data : bytes) : option (list E) :=
  if length data <? page_size then None
  else if bool_decide (slice 0 4 data = zeros 4) then None
  else
    match page_loop (S per_page) 0 data with
    | [] => None
    | es => Some es
    end.

(** A page as the code builds them: not empty, not overfull. *)
Definition page_ok (es : list E) : Prop :=
  es <> [] /\ length es <= per_page /\ Forall entry_ok es.

Context `{!PageEntryLaws E}.

Lemma entry_size_pos : 0 < entry_size.
Proof. pose proof sizes_ok. lia. Qed.

Lemma per_page_fits n : n <= per_page -> n * entry_size <= page_size.
Proof.
  intros Hn. unfold per_page in Hn. pose proof (Nat.Div0.mul_div_le page_size entry_size). nia.
Qed.

Lemma enc_blocks es : Forall entry_ok es -> blocks_of entry_size (map enc es).
Proof. intros H. apply Forall_map. eapply Forall_impl; [done|]. apply enc_length. Qed.

Lemma page_to_bytes_shape es :
  length es <= per_page -> Forall entry_ok es ->
  page_to_bytes es = concat (map enc es) ++ zeros (page_size - length es * entry_size).
Proof.
  intros Hn Hes. apply copy_rows; [|by apply per_page_fits].
  eapply Forall_impl; [done|]. apply enc_length.
Qed.

Lemma page_to_bytes_length es :
  length es <= per_page -> Forall entry_ok es -> length (page_to_bytes es) = page_size.
Proof.
  intros Hn Hes. rewrite page_to_bytes_shape, length_app, length_zeros by done.
  rewrite (length_concat_blocks _ _ (enc_blocks es Hes)), length_map.
  pose proof (per_page_fits _ Hn). lia.
Qed.

Lemma page_to_bytes_bytes es :
  length es <= per_page -> Forall entry_ok es -> is_bytes (page_to_bytes es).
Proof.
  intros Hn Hes. rewrite page_to_bytes_shape by done. apply is_bytes_app. split; [|casc_auto].
  apply is_bytes_concat, Forall_map. eapply Forall_impl; [done|]. apply enc_bytes.
Qed.

Lemma from_le_bytes_zeros n : from_le_bytes (zeros n) = 0%Z.
Proof. induction n as [|n IH]; [done|]. simpl. unfold zeros in IH. rewrite IH. lia. Qed.

Lemma slice_within a b l1 l2 :
  b <= length l1 -> slice a b (l1 ++ l2) = slice a b l1.
Proof.
  intros. unfold slice. destruct (Nat.le_gt_cases a b).
  - rewrite drop_app_le by lia. apply take_app_le. rewrite length_drop. lia.
  - by replace (b - a) with 0 by lia.
Qed.

(** The loop reads the entries written behind [hd] and stops after them. *)
Lemma page_loop_entries fuel hd es k tl :
  Forall entry_ok es -> length es < fuel ->
  length hd + length es * entry_size + k = page_size ->
  page_loop fuel (length hd) (hd ++ concat (map enc es) ++ zeros k ++ tl) = es.
Proof.
  intros Hes. revert hd fuel. induction Hes as [|e es He Hes IH]; intros hd fuel Hf Hlen.
  - destruct fuel as [|fuel]; [simpl in Hf; lia|]. simpl.
    destruct (Nat.leb_spec (length hd + entry_size) page_size); [|done].
    simpl in Hlen. pose proof sizes_ok as [H4 _].
    rewrite slice_app_r, Nat.sub_diag by lia.
    replace (length hd + 4 - length hd) with 4 by lia.
    rewrite slice_within by (rewrite length_zeros; lia).
    replace k with (4 + (k - 4)) by lia. rewrite zeros_add, slice_app_exact by done.
    by rewrite from_le_bytes_zeros.
  - destruct fuel as [|fuel]; [simpl in Hf; lia|]. simpl in Hlen, Hf |- *.
    pose proof sizes_ok as [H4 _]. pose proof (enc_length e He) as Le.
    rewrite (proj2 (Nat.leb_le _ _)) by lia. rewrite <- app_assoc.
    rewrite (slice_app_r _ (length hd + 4)), (slice_app_r _ (length hd + entry_size)) by lia.
    rewrite Nat.sub_diag. replace (length hd + 4 - length hd) with 4 by lia.
    replace (length hd + entry_size - length hd) with entry_size by lia.
    rewrite (slice_within 0 4) by lia. rewrite slice_app_exact by lia.
    assert (slice 0 4 (enc e) = take 4 (enc e)) as -> by (unfold slice; by rewrite drop_0).
    rewrite (proj2 (Z.eqb_neq _ _)) by by apply enc_guard. rewrite dec_enc by done. f_equal.
    specialize (IH (hd ++ enc e) fuel). rewrite length_app, Le in IH.
    rewrite <- app_assoc in IH. apply IH; lia.
Qed.

(** A page reads back as it was written, whatever follows it. *)
Lemma page_roundtrip es tl :
  page_ok es -> page_from_bytes (page_to_bytes es ++ tl) = Some es.
Proof.
  intros (Hne & Hn & Hes). unfold page_from_bytes.
  pose proof (page_to_bytes_length es Hn Hes) as L.
  rewrite length_app, L, (proj2 (Nat.ltb_ge _ _)) by lia.
  pose proof (per_page_fits _ Hn) as Hfit. rewrite page_to_bytes_shape by done.
  rewrite bool_decide_false.
  2: { destruct es as [|e es]; [done|]. apply Forall_cons in Hes as [He _]. simpl.
       rewrite <- !app_assoc. pose proof sizes_ok as [H4 _]. pose proof (enc_length e He).
       rewrite slice_within by lia. intros Ez. apply (enc_guard e He).
       assert (slice 0 4 (enc e) = take 4 (enc e)) as <- by (unfold slice; by rewrite drop_0).
       rewrite Ez. apply from_le_bytes_zeros. }
  pose proof (page_loop_entries (S per_page) [] es (page_size - length es * entry_size) tl Hes) as HL.
  cbn [app length] in HL. rewrite <- app_assoc, HL by lia. by destruct es.
Qed.

Lemma empty_page n : page_from_bytes (zeros n) = None.
Proof.
  unfold page_from_bytes. rewrite length_zeros. destruct (Nat.ltb_spec n page_size); [done|].
  rewrite bool_decide_true; [done|]. pose proof sizes_ok.
  replace n with (4 + (n - 4)) by lia. rewrite zeros_add. by apply slice_app_exact.
Qed.

(** The fuel of [page_from_bytes] is enough: with more, the loop returns the same. *)
Lemma page_loop_fuel fuel offset data :
  page_size < offset + fuel * entry_size ->
  page_loop (S fuel) offset data = page_loop fuel offset data.
Proof.
  revert offset. induction fuel as [|fuel IH]; intros offset Hf.
  - simpl. by rewrite (proj2 (Nat.leb_gt _ _)) by lia.
  - cbn [page_loop]. destruct (_ <=? _); [|done]. destruct (_ =? _)%Z; [done|]. f_equal.
    apply IH. lia.
Qed.

Lemma page_loop_length fuel offset data :
  length (page_loop fuel offset data) <= fuel /\
  offset + length (page_loop fuel offset data) * entry_size <= Nat.max offset page_size.
Proof.
  revert offset. induction fuel as [|fuel IH]; intros offset; simpl; [lia|].
  destruct (Nat.leb_spec (offset + entry_size) page_size); [|simpl; lia].
  destruct (_ =? _)%Z; [simpl; lia|]. simpl. specialize (IH (offset + entry_size)). lia.
Qed.

(** A page read from any bytes is not empty and not overfull. *)
Lemma page_from_bytes_bound data es :
  page_from_bytes data = Some es -> es <> [] /\ length es <= per_page.
Proof.
  unfold page_from_bytes. destruct (_ <? _); [done|]. case_bool_decide; [done|].
  pose proof (page_loop_length (S per_page) 0 data) as [_ Hl].
  destruct (page_loop (S per_page) 0 data) as [|e es'] eqn:El; [done|]. intros [= <-].
  split; [done|]. unfold per_page. apply Nat.div_le_lower_bound; [pose proof entry_size_pos; lia|].
  simpl in Hl |- *. lia.
Qed.

End Page.
