(* ===== verification/IndexEntry.v ===== *)
(** * Index entries: crates/cascette-client-storage/src/index/mod.rs

    The 18-byte entry of an .idx file and the packed 5-byte archive location:
    a high byte and a big-endian word that holds two more bits of the archive
    number above a 30-bit offset.  The derived binrw reader and writer are the
    fields in declaration order with the endianness of their attributes. *)

From S2P Require Import Prelude Bytes.
Local Open Scope Z_scope.

Module Entry.

Record ArchiveLocation := { archive_id : Z; archive_offset : Z }.

Record IndexEntry := {
  key : bytes;
  archive_location : ArchiveLocation;
  size : Z;
}.

#[global] Instance ArchiveLocation_eq_dec : EqDecision ArchiveLocation.
Proof. solve_decision. Defined.
#[global] Instance IndexEntry_eq_dec : EqDecision IndexEntry.
Proof. solve_decision. Defined.

(** The low word: [(archive_low << 30) | (offset & 0x3FFF_FFFF)]. *)
Definition pack_low (loc : ArchiveLocation) : Z :=
  Z.lor (Z.shiftl (Z.land (archive_id loc) 3) 30) (Z.land (archive_offset loc) 0x3FFFFFFF).

(** [parse_archive_location], on the five bytes. *)
Definition parse_archive_location (b : bytes) : ArchiveLocation :=
  let index_high := from_be_bytes (slice 0 1 b) in
  let index_low := from_be_bytes (slice 1 5 b) in
  {| archive_id := Z.lor (Z.shiftl index_high 2) (Z.shiftr index_low 30);
     archive_offset := Z.land index_low 0x3FFFFFFF |}.

(** [write_archive_location]; [None] is the [AssertFail] for an archive number
    whose high part is not a byte. *)
Definition write_archive_location (loc : ArchiveLocation) : option bytes :=
  let high := Z.shiftr (archive_id loc) 2 in
  if high <? 256 then Some (to_be_bytes 1 high ++ to_be_bytes 4 (pack_low loc)) else None.

Definition new (key : bytes) (id offset size : Z) : IndexEntry :=
  {| key := key; archive_location := {| archive_id := id; archive_offset := offset |}; size := size |}.

(** The derived [read_be] of the 18 bytes. *)
Definition read_be (data : bytes) : IndexEntry :=
  {| key := slice 0 9 data;
     archive_location := parse_archive_location (slice 9 14 data);
     size := from_le_bytes (slice 14 18 data) |}.

Definition from_packed (data : bytes) : result StorageError IndexEntry :=
  if (length data <? 18)%nat then Err (IndexError "Entry data too small")
  else
    let entry := read_be data in
    if bool_decide (key entry = zeros 9) then Err (IndexError "Empty entry") else Ok entry.

Definition to_packed (e : IndexEntry) : bytes :=
  match write_archive_location (archive_location e) with
  | Some loc => key e ++ loc ++ to_le_bytes 4 (size e)
  | None => zeros 18
  end.

(** ** Values that survive packing *)

Definition loc_ok (loc : ArchiveLocation) : Prop :=
  0 <= archive_id loc < 1024 /\ in_u 30 (archive_offset loc).

#[global] Instance loc_ok_dec loc : Decision (loc_ok loc).
Proof. unfold loc_ok. apply _. Defined.

Definition entry_fits (e : IndexEntry) : Prop :=
  is_array 9 (key e) /\ key e <> zeros 9 /\ loc_ok (archive_location e) /\ u32 (size e).

#[global] Instance entry_fits_dec e : Decision (entry_fits e).
Proof. unfold entry_fits. apply _. Defined.

Lemma pack_low_eq loc :
  loc_ok loc -> pack_low loc = (archive_id loc mod 4) * 2 ^ 30 + archive_offset loc.
Proof.
  intros [Hi Ho]. unfold pack_low. change 3 with (Z.ones 2). change 0x3FFFFFFF with (Z.ones 30).
  rewrite !Z.land_ones by lia. rewrite (Z.mod_small (archive_offset loc)) by done.
  by rewrite lor_shiftl_add by (done || lia).
Qed.

Lemma pack_low_range loc : loc_ok loc -> u32 (pack_low loc).
Proof.
  intros H. rewrite pack_low_eq by done. destruct H as [Hi Ho]. unfold in_u in *.
  pose proof (Z.mod_pos_bound (archive_id loc) 4). lia.
Qed.

(** Taking the two words apart again. *)
Lemma unpack_words loc :
  loc_ok loc ->
  Z.lor (Z.shiftl (Z.shiftr (archive_id loc) 2) 2) (Z.shiftr (pack_low loc) 30) = archive_id loc /\
  Z.land (pack_low loc) 0x3FFFFFFF = archive_offset loc /\
  u8 (Z.shiftr (archive_id loc) 2).
Proof.
  intros H. rewrite pack_low_eq by done. destruct H as [Hi Ho]. unfold in_u in Ho.
  pose proof (Z.mod_pos_bound (archive_id loc) 4) as Hm.
  rewrite !Z.shiftr_div_pow2 by lia. change (2 ^ 2) with 4.
  split_and!.
  - rewrite Z.div_add_l, (Z.div_small (archive_offset loc)), Z.add_0_r by lia.
    rewrite lor_shiftl_add by (unfold in_u; lia). pose proof (Z.div_mod (archive_id loc) 4). lia.
  - change 0x3FFFFFFF with (Z.ones 30). rewrite Z.land_ones by lia.
    rewrite Z.add_comm, Z_mod_plus_full. by apply Z.mod_small.
  - unfold in_u. pose proof (Z.div_mod (archive_id loc) 4). lia.
Qed.

Lemma location_roundtrip loc :
  loc_ok loc ->
  exists b, write_archive_location loc = Some b /\ is_array 5 b /\ parse_archive_location b = loc.
Proof.
  intros H. destruct (unpack_words loc H) as (E1 & E2 & Hh). pose proof (pack_low_range loc H) as Hl.
  unfold write_archive_location. rewrite (proj2 (Z.ltb_lt _ _)) by apply Hh.
  eexists. split; [done|]. split.
  - split; [by rewrite length_app, !length_to_be_bytes|]. apply is_bytes_app; casc_auto.
  - unfold parse_archive_location. rewrite slice_app_exact by by rewrite length_to_be_bytes.
    rewrite slice_app_r by (rewrite length_to_be_bytes; lia). rewrite length_to_be_bytes. simpl.
    rewrite <- (app_nil_r (to_be_bytes 4 _)), slice_app_exact by by rewrite length_to_be_bytes.
    rewrite (be_roundtrip 1 8), (be_roundtrip 4 32) by done. rewrite E1, E2. by destruct loc.
Qed.

Lemma to_packed_length e : length (key e) = 9%nat -> length (to_packed e) = 18%nat.
Proof.
  intros Hk. unfold to_packed, write_archive_location. case_match; [|done].
  rewrite !length_app. case_match; simplify_eq.
  by rewrite length_app, !length_to_be_bytes, length_to_le_bytes, Hk.
Qed.

Lemma packed_roundtrip e :
  entry_fits e -> length (to_packed e) = 18%nat /\ is_bytes (to_packed e) /\
    take 9 (to_packed e) = key e /\ from_packed (to_packed e) = Ok e.
Proof.
  destruct e as [k loc sz]. intros ([Hk Hkb] & Hne & Hloc & Hs). cbn [key archive_location size] in *.
  destruct (location_roundtrip loc Hloc) as (b & Hb & [Lb Bb] & Hp).
  unfold to_packed. cbn [key archive_location size]. rewrite Hb.
  assert (length (k ++ b ++ to_le_bytes 4 sz) = 18%nat) as L
    by by rewrite !length_app, Hk, Lb, length_to_le_bytes.
  split_and!; [done| |by rewrite <- Hk, take_app_length|].
  - apply is_bytes_app. split; [done|]. apply is_bytes_app. casc_auto.
  - unfold from_packed. rewrite L. cbn [Nat.ltb Nat.leb]. unfold read_be.
    rewrite slice_app_exact by done.
    rewrite (slice_app_r 9), (slice_app_r 14) by lia. rewrite Hk. simpl Nat.sub.
    rewrite slice_app_exact by done. rewrite (slice_app_r 5) by lia. rewrite Lb. simpl Nat.sub.
    rewrite <- (app_nil_r (to_le_bytes 4 sz)), slice_app_exact by by rewrite length_to_le_bytes.
    rewrite Hp, (le_roundtrip 4 32) by done. cbn [key]. by rewrite bool_decide_false.
Qed.

(** The 18-byte entry reads back as it was written, for every entry whose
    archive number has 10 bits and whose offset has 30; the packed location
    keeps the two fields apart. *)
Theorem entry_packed_roundtrip e :
  entry_fits e -> length (to_packed e) = 18%nat /\ from_packed (to_packed e) = Ok e.
Proof. intros H. destruct (packed_roundtrip e H) as (? & _ & _ & ?). done. Qed.

Lemma entry_packed_roundtrip_witness :
  let e := new [1;2;3;4;5;6;7;8;9] 1023 0x3FFFFFFF 0xFFFFFFFF in
  length (to_packed e) = 18%nat /\ from_packed (to_packed e) = Ok e.
Proof.
  apply (entry_packed_roundtrip (new [1;2;3;4;5;6;7;8;9] 1023 0x3FFFFFFF 0xFFFFFFFF)).
  decide_now.
Defined.

(** An archive number of 1024 or more does not survive: [to_packed] then
    returns eighteen zero bytes, which every reader of the index takes for an
    empty slot. *)
Theorem to_packed_drops_large_archive e :
  1024 <= archive_id (archive_location e) ->
  to_packed e = zeros 18 /\ from_packed (to_packed e) = Err (IndexError "Empty entry").
Proof.
  intros H. assert (to_packed e = zeros 18) as E.
  { unfold to_packed, write_archive_location.
    rewrite (proj2 (Z.ltb_ge _ _)); [done|]. rewrite Z.shiftr_div_pow2 by lia.
    apply Z.div_le_lower_bound; lia. }
  rewrite E. split; [done|]. reflexivity.
Qed.

Lemma to_packed_drops_large_archive_witness :
  let e := new [1;2;3;4;5;6;7;8;9] 1024 0 10 in
  to_packed e = zeros 18 /\ from_packed (to_packed e) = Err (IndexError "Empty entry").
Proof. apply (to_packed_drops_large_archive (new [1;2;3;4;5;6;7;8;9] 1024 0 10)). simpl. lia. Defined.

End Entry.
