(* ===== verification/UpdateSection.v ===== *)
(** * The update section: crates/cascette-client-storage/src/index/update.rs

    The append-only log in front of the sorted section of an index file: 24-byte
    entries with a hash guard, pages of 170, a section of at least twelve pages.
    The page codec is the one of [Pages]; this file gives its instance. *)

From S2P Require Import Prelude Bytes Jenkins Collections Pages IndexEntry.
Import Entry.
Local Open Scope Z_scope.

Module Update.

Definition UPDATE_ENTRY_SIZE : nat := 24.
Definition UPDATE_PAGE_SIZE : nat := 4096.
Definition ENTRIES_PER_PAGE : nat := (UPDATE_PAGE_SIZE / UPDATE_ENTRY_SIZE)%nat.
Definition MIN_UPDATE_SECTION_SIZE : nat := (12 * UPDATE_PAGE_SIZE)%nat.
Definition UPDATE_SECTION_ALIGNMENT : nat := 4096.
Definition SYNC_PAGE_INTERVAL : nat := 8.

Inductive UpdateStatus : Type :=
| Normal
| Delete
| HeaderNonResident
| DataNonResident.

#[global] Instance UpdateStatus_eq_dec : EqDecision UpdateStatus.
Proof. solve_decision. Defined.

(** [status as u8]. *)
Definition status_byte (s : UpdateStatus) : Z :=
  match s with Normal => 0 | Delete => 3 | HeaderNonResident => 6 | DataNonResident => 7 end.

Definition from_byte (b : Z) : UpdateStatus :=
  if b =? 3 then Delete else if b =? 6 then HeaderNonResident
  else if b =? 7 then DataNonResident else Normal.

Record UpdateEntry := {
  hash_guard : Z;
  ekey : bytes;
  location : ArchiveLocation;
  encoded_size : Z;
  status : UpdateStatus;
}.

Definition to_bytes (e : UpdateEntry) : bytes :=
  let buf := zeros UPDATE_ENTRY_SIZE in
  let buf := copy_at 0 (to_le_bytes 4 (hash_guard e)) buf in
  let buf := copy_at 4 (ekey e) buf in
  let index_high := wrap8 (Z.shiftr (archive_id (location e)) 2) in
  let buf := copy_at 13 [index_high] buf in
  let buf := copy_at 14 (to_be_bytes 4 (pack_low (location e))) buf in
  let buf := copy_at 18 (to_le_bytes 4 (encoded_size e)) buf in
  let buf := copy_at 22 [status_byte (status e)] buf in
  copy_at 23 [0] buf.

Definition from_bytes (data : bytes) : UpdateEntry :=
  let index_high := nth 13 data 0 in
  let packed := from_be_bytes (slice 14 18 data) in
  {| hash_guard := from_le_bytes (slice 0 4 data);
     ekey := slice 4 13 data;
     location := {| archive_id := Z.lor (Z.shiftl index_high 2) (Z.shiftr packed 30);
                    archive_offset := Z.land packed 0x3FFFFFFF |};
     encoded_size := from_le_bytes (slice 18 22 data);
     status := from_byte (nth 22 data 0) |}.

(** [hashlittle(&entry_bytes[4..23], 0) | 0x8000_0000]. *)
Definition compute_hash_guard (entry_bytes : bytes) : Z :=
  Z.lor (Jenkins.jenkins (slice 4 23 entry_bytes) 0) 0x80000000.

Definition with_guard (g : Z) (e : UpdateEntry) : UpdateEntry :=
  {| hash_guard := g; ekey := ekey e; location := location e;
     encoded_size := encoded_size e; status := status e |}.

Definition new (ekey : bytes) (loc : ArchiveLocation) (encoded_size : Z) (status : UpdateStatus) : UpdateEntry :=
  let entry := {| hash_guard := 0; ekey := ekey; location := loc;
                  encoded_size := encoded_size; status := status |} in
  with_guard (compute_hash_guard (to_bytes entry)) entry.

Definition to_index_entry (e : UpdateEntry) : IndexEntry :=
  Entry.new (ekey e) (archive_id (location e)) (archive_offset (location e)) (encoded_size e).

Definition validate_hash_guard (e : UpdateEntry) : bool :=
  hash_guard e =? compute_hash_guard (to_bytes e).

(** ** Pages *)

Abbreviation UpdatePage := (list UpdateEntry).

(** A guarded entry whose fields fit their on-disk width. *)
Definition fits (e : UpdateEntry) : Prop :=
  u32 (hash_guard e) /\ hash_guard e <> 0 /\ is_array 9 (ekey e) /\
  loc_ok (location e) /\ u32 (encoded_size e).

#[global] Instance fits_dec e : Decision (fits e).
Proof. unfold fits. apply _. Defined.

#[global] Instance update_page_entry : PageEntry UpdateEntry := {|
  entry_size := UPDATE_ENTRY_SIZE;
  page_size := UPDATE_PAGE_SIZE;
  enc := to_bytes;
  dec := from_bytes;
  entry_ok := fits;
|}.

Definition page_is_full (p : UpdatePage) : bool := (ENTRIES_PER_PAGE <=? length p)%nat.

Definition page_push (p : UpdatePage) (e : UpdateEntry) : bool * UpdatePage :=
  if page_is_full p then (false, p) else (true, p ++ [e]).

Definition update_page_to_bytes (p : UpdatePage) : bytes := page_to_bytes p.
Definition update_page_from_bytes (data : bytes) : option UpdatePage := page_from_bytes data.

(** ** The section *)

Record UpdateSection := {
  pages : list UpdatePage;
  capacity_pages : nat;
}.

Definition section_new : UpdateSection :=
  {| pages := []; capacity_pages := (MIN_UPDATE_SECTION_SIZE / UPDATE_PAGE_SIZE)%nat |}.

Definition with_capacity (size_bytes : nat) : UpdateSection :=
  {| pages := [];
     capacity_pages := (Nat.max size_bytes MIN_UPDATE_SECTION_SIZE / UPDATE_PAGE_SIZE)%nat |}.

Definition is_full (s : UpdateSection) : bool :=
  match last (pages s) with
  | None => false
  | Some p => (capacity_pages s <=? length (pages s))%nat && page_is_full p
  end.

Definition entry_count (s : UpdateSection) : nat := sum_list (length <$> pages s).

(** [all_entries]: oldest first. *)
Definition all_entries (s : UpdateSection) : list UpdateEntry := concat (pages s).

Definition append (s : UpdateSection) (e : UpdateEntry) : bool * UpdateSection :=
  let grow :=
    if (capacity_pages s <=? length (pages s))%nat then (false, s)
    else (true, {| pages := pages s ++ [[e]]; capacity_pages := capacity_pages s |}) in
  match last (pages s) with
  | Some p =>
      if page_is_full p then grow
      else (true, {| pages := <[(length (pages s) - 1)%nat := p ++ [e]]> (pages s);
                     capacity_pages := capacity_pages s |})
  | None => grow
  end.

Definition should_sync (s : UpdateSection) : bool :=
  negb (bool_decide (pages s = [])) &&
  ((length (pages s) - 1) mod SYNC_PAGE_INTERVAL =? SYNC_PAGE_INTERVAL - 1)%nat.

#[local] Notation find_entry := (find_by ekey).

(** [for page in pages.iter().rev() { for entry in page.entries().iter().rev() { .. } }] *)
Fixpoint find_pages (k : bytes) (ps : list UpdatePage) : option UpdateEntry :=
  match ps with
  | [] => None
  | p :: ps =>
      match find_entry k (reverse p) with
      | Some e => Some e
      | None => find_pages k ps
      end
  end.

Definition search (s : UpdateSection) (k : bytes) : option UpdateEntry :=
  find_pages k (reverse (pages s)).

Definition clear (s : UpdateSection) : UpdateSection :=
  {| pages := []; capacity_pages := capacity_pages s |}.

Definition section_to_bytes (s : UpdateSection) : bytes :=
  let total_pages := Nat.max (capacity_pages s) (length (pages s)) in
  fold_left (fun buf '(i, p) => copy_at (i * UPDATE_PAGE_SIZE)%nat (update_page_to_bytes p) buf)
    (imap pair (pages s)) (zeros (total_pages * UPDATE_PAGE_SIZE)).

(** The loop of [from_bytes]: one page per iteration, until an empty one. *)
Fixpoint section_loop (fuel offset : nat) (data : bytes) : list UpdatePage :=
  match fuel with
  | O => []
  | S fuel =>
      if (offset + UPDATE_PAGE_SIZE <=? length data)%nat then
        match update_page_from_bytes (slice offset (offset + UPDATE_PAGE_SIZE) data) with
        | Some p => p :: section_loop fuel (offset + UPDATE_PAGE_SIZE) data
        | None => []
        end
      else []
  end.

Definition section_from_bytes (data : bytes) : UpdateSection :=
  let capacity_pages := (length data / UPDATE_PAGE_SIZE)%nat in
  {| pages := section_loop (S capacity_pages) 0 data;
     capacity_pages := Nat.max capacity_pages (MIN_UPDATE_SECTION_SIZE / UPDATE_PAGE_SIZE) |}.

(** ** The entry codec *)

Lemma status_roundtrip s : from_byte (status_byte s) = s.
Proof. by destruct s. Qed.

Lemma status_byte_u8 s : u8 (status_byte s).
Proof. by destruct s. Qed.

Lemma entry_codec e :
  fits e ->
  length (to_bytes e) = UPDATE_ENTRY_SIZE /\ is_bytes (to_bytes e) /\ from_bytes (to_bytes e) = e /\
  from_le_bytes (take 4 (to_bytes e)) = hash_guard e.
Proof.
  destruct e as [g k loc sz st]. intros (Hg & Hg0 & Hk & Hloc & Hs).
  cbn [hash_guard ekey location encoded_size] in *.
  destruct (unpack_words loc Hloc) as (E1 & E2 & Hh). pose proof (pack_low_range loc Hloc) as Hl.
  pose proof (status_roundtrip st) as Est. pose proof (status_byte_u8 st) as Bst.
  unfold to_bytes, UPDATE_ENTRY_SIZE. cbn [hash_guard ekey location encoded_size status].
  assert (wrap8 (Z.shiftr (archive_id loc) 2) = Z.shiftr (archive_id loc) 2) as ->
    by by apply wrap_small.
  abs_ints. explode_array Hk. unfold from_bytes. layout.
  split_and!; [done| | |done].
  - unfold is_bytes in *. decompose_Forall; done.
  - repeat match goal with E : from_le_bytes _ = _ |- _ => rewrite E
      | E : from_be_bytes _ = _ |- _ => rewrite E end.
    rewrite E1, E2, Est. by destruct loc.
Qed.

#[global] Instance update_page_laws : PageEntryLaws UpdateEntry.
Proof.
  constructor.
  - simpl. unfold UPDATE_ENTRY_SIZE, UPDATE_PAGE_SIZE. lia.
  - intros e He. apply (entry_codec e He).
  - intros e He. apply (entry_codec e He).
  - intros e He. apply (entry_codec e He).
  - intros e He. cbn [enc update_page_entry].
    destruct (entry_codec e He) as (_ & _ & _ & ->). apply He.
Qed.

(** The guard does not depend on itself: it covers bytes 4 to 22. *)
Lemma guard_slice g e :
  length (ekey e) = 9%nat -> slice 4 23 (to_bytes (with_guard g e)) = slice 4 23 (to_bytes e).
Proof.
  destruct e as [g0 k loc sz st]. unfold with_guard, to_bytes, UPDATE_ENTRY_SIZE. simpl ekey.
  cbn [hash_guard ekey location encoded_size status]. intros Hk. explode Hk.
  pose proof (length_to_le_bytes 4 g) as L1. pose proof (length_to_le_bytes 4 g0) as L2.
  pose proof (length_to_be_bytes 4 (pack_low loc)) as L3. pose proof (length_to_le_bytes 4 sz) as L4.
  generalize dependent (to_le_bytes 4 g). generalize dependent (to_le_bytes 4 g0).
  generalize dependent (to_be_bytes 4 (pack_low loc)). generalize dependent (to_le_bytes 4 sz).
  intros l4 H4 l3 H3 l2 H2 l1 H1. explode H1. explode H2. explode H3. explode H4. by layout.
Qed.

Lemma new_fits k loc sz st :
  is_array 9 k -> loc_ok loc -> u32 sz -> fits (new k loc sz st) /\ validate_hash_guard (new k loc sz st) = true.
Proof.
  intros Hk Hloc Hs. split.
  - destruct (guard_high (Jenkins.jenkins (slice 4 23 (to_bytes
      {| hash_guard := 0; ekey := k; location := loc; encoded_size := sz; status := st |})) 0))
      as [? ?]; [apply Jenkins.jenkins_range|]. by split_and!.
  - unfold validate_hash_guard, new, compute_hash_guard. rewrite guard_slice by apply Hk.
    simpl. apply Z.eqb_refl.
Qed.

(** ** Operations on a well-formed section *)

(** Only the last page has room. *)
Record section_ok (s : UpdateSection) : Prop := {
  ok_pages : Forall page_ok (pages s);
  ok_length : (length (pages s) <= capacity_pages s)%nat;
  ok_capacity : (0 < capacity_pages s)%nat;
  ok_full : forall i p, pages s !! i = Some p -> (S i < length (pages s))%nat -> page_is_full p = true;
}.

Lemma section_fits s : section_ok s -> Forall fits (all_entries s).
Proof.
  intros Hs. apply Forall_concat. eapply Forall_impl; [apply Hs|]. by intros p (_ & _ & Hp).
Qed.

Lemma entries_per_page : ENTRIES_PER_PAGE = 170%nat.
Proof. reflexivity. Qed.

Lemma page_single e : fits e -> page_ok [e].
Proof.
  intros He. split_and!; [done| |by constructor]. change (@per_page UpdateEntry _) with ENTRIES_PER_PAGE.
  rewrite entries_per_page. simpl. lia.
Qed.

Lemma page_snoc p e : page_ok p -> page_is_full p = false -> fits e -> page_ok (p ++ [e]).
Proof.
  intros (Hne & Hn & Hp) Hf He. split_and!.
  - by destruct p.
  - unfold page_is_full in Hf. apply Nat.leb_gt in Hf. rewrite length_app. simpl.
    change (@per_page UpdateEntry _) with ENTRIES_PER_PAGE. lia.
  - apply Forall_app. split; [done|by constructor].
Qed.

Lemma insert_last {A} (l : list A) x y : <[(length (l ++ [x]) - 1)%nat := y]> (l ++ [x]) = l ++ [y].
Proof.
  rewrite length_app. simpl. replace (length l + 1 - 1)%nat with (length l + 0)%nat by lia.
  by rewrite insert_app_r.
Qed.

Lemma append_not_full s e :
  section_ok s -> fits e -> is_full s = false ->
  exists s', append s e = (true, s') /\ section_ok s' /\
    all_entries s' = all_entries s ++ [e] /\ capacity_pages s' = capacity_pages s.
Proof.
  intros [Hp Hl Hc Hf] He Hnf. unfold append, is_full, all_entries in *.
  destruct (list_snoc_cases (pages s)) as [E|(ps & p & E)]; rewrite E in *.
  - simpl last. cbv iota. rewrite (proj2 (Nat.leb_gt _ _)) by (simpl; lia).
    eexists. split_and!; [done| |done|done]. constructor; simpl; [|lia|done|].
    + constructor; [by apply page_single|constructor].
    + intros [|i] p Hi Hlt; simpl in *; lia.
  - rewrite last_snoc in *. apply Forall_app in Hp as [Hps [Hpp _]%Forall_cons].
    rewrite length_app in *. simpl in Hl.
    destruct (page_is_full p) eqn:Epf.
    + rewrite andb_true_r in Hnf. rewrite Hnf. apply Nat.leb_gt in Hnf.
      eexists. split_and!; [done| |by simpl; rewrite !concat_app; simpl; rewrite !app_nil_r|done].
      constructor; simpl.
      * apply Forall_app. split; [by apply Forall_app; split; [|constructor]|].
        constructor; [by apply page_single|constructor].
      * rewrite !length_app. simpl in *. lia.
      * done.
      * intros i q Hi Hlt. rewrite !length_app in Hlt. simpl in Hlt.
        rewrite lookup_app_l in Hi by (rewrite length_app; simpl; lia).
        destruct (decide (i = length ps)) as [->|].
        -- rewrite lookup_app_r, Nat.sub_diag in Hi by lia. simpl in Hi. by simplify_eq.
        -- apply (Hf i q Hi). simpl. lia.
    + rewrite <- (length_app ps [p]). rewrite insert_last.
      eexists. split_and!; [done| |by simpl; rewrite !concat_app; simpl; rewrite !app_nil_r, app_assoc|done].
      constructor; simpl.
      * apply Forall_app. split; [done|]. constructor; [by apply page_snoc|constructor].
      * rewrite length_app. simpl. lia.
      * done.
      * intros i q Hi Hlt. rewrite length_app in Hlt. simpl in Hlt.
        rewrite lookup_app_l in Hi by lia.
        apply (Hf i q); [rewrite lookup_app_l by lia; done|simpl; lia].
Qed.

Lemma append_full s e : section_ok s -> is_full s = true -> append s e = (false, s).
Proof.
  intros _ Hf. unfold is_full, append in *. destruct (last (pages s)) as [p|]; [|done].
  apply andb_true_iff in Hf as [-> ->]. done.
Qed.

Lemma section_new_capacity : capacity_pages section_new = 12%nat.
Proof. by vm_compute. Qed.

Lemma section_new_ok : section_ok section_new.
Proof.
  pose proof section_new_capacity as E. constructor; cbn [pages section_new]; rewrite ?E; simpl; try constructor; lia.
Qed.

Lemma clear_ok s : section_ok s -> section_ok (clear s).
Proof. intros []. constructor; simpl; try constructor; try lia; done. Qed.

Lemma clear_not_full s : is_full (clear s) = false.
Proof. done. Qed.

(** *** Search is "the last entry with the key" *)

Definition keyed (l : list UpdateEntry) : list (bytes * UpdateEntry) := (fun e => (ekey e, e)) <$> l.

Lemma find_pages_concat k ps : find_pages k ps = find_entry k (concat (reverse <$> ps)).
Proof. induction ps as [|p ps IH]; simpl; [done|]. by rewrite find_by_app, IH. Qed.

Lemma last_of_app (k : bytes) (l1 l2 : list (bytes * UpdateEntry)) :
  last_of k (l1 ++ l2) = match last_of k l2 with Some v => Some v | None => last_of k l1 end.
Proof.
  induction l1 as [|[k1 v1] l1 IH]; simpl; [by destruct (last_of k l2)|].
  rewrite IH. by destruct (last_of k l2).
Qed.

Lemma find_reverse_last k l : find_entry k (reverse l) = last_of k (keyed l).
Proof.
  induction l as [|e l IH] using rev_ind; [done|].
  unfold keyed in *. rewrite reverse_snoc, fmap_app, last_of_app, <- IH. simpl.
  case_bool_decide as Hk.
  - subst k. by rewrite lex_compare_refl.
  - destruct (lex_compare k (ekey e)) eqn:E; try done. apply lex_compare_eq in E. congruence.
Qed.

Lemma search_last_of s k : search s k = last_of k (keyed (all_entries s)).
Proof.
  unfold search, all_entries. rewrite <- find_reverse_last, reverse_concat. apply find_pages_concat.
Qed.

Lemma search_snoc s s' e k :
  all_entries s' = all_entries s ++ [e] ->
  search s' k = if bool_decide (ekey e = k) then Some e else search s k.
Proof.
  intros E. rewrite !search_last_of, <- !find_reverse_last, E, reverse_snoc. done.
Qed.

Lemma entry_count_length s : entry_count s = length (all_entries s).
Proof.
  unfold entry_count, all_entries. induction (pages s) as [|p ps IH]; [done|].
  rewrite fmap_cons. cbn [sum_list sum_list_with concat id]. rewrite length_app. f_equal. exact IH.
Qed.

(** *** The byte image of a section *)

Lemma pages_rows ps :
  Forall page_ok ps ->
  Forall (fun p : UpdatePage => length (update_page_to_bytes p) = UPDATE_PAGE_SIZE) ps.
Proof.
  intros H. eapply Forall_impl; [done|]. intros p (_ & Hn & He).
  unfold update_page_to_bytes. by rewrite (page_to_bytes_length (E := UpdateEntry)).
Qed.

Lemma section_to_bytes_shape s :
  section_ok s ->
  section_to_bytes s = concat (map update_page_to_bytes (pages s)) ++
    zeros ((capacity_pages s - length (pages s)) * UPDATE_PAGE_SIZE).
Proof.
  intros [Hp Hl _ _]. unfold section_to_bytes. rewrite Nat.max_l by done.
  rewrite copy_rows; [|by apply pages_rows|nia]. do 2 f_equal. nia.
Qed.

Lemma slice_zeros a n z : (a + n <= z)%nat -> slice a (a + n) (zeros z) = zeros n.
Proof.
  intros H. unfold slice, zeros. rewrite drop_replicate, take_replicate. f_equal. lia.
Qed.

Lemma section_loop_pages fuel hd ps z :
  Forall page_ok ps -> (length ps < fuel)%nat ->
  section_loop fuel (length hd) (hd ++ concat (map update_page_to_bytes ps) ++ zeros z) = ps.
Proof.
  intros Hps. revert hd fuel. induction Hps as [|p ps Hp Hps IH]; intros hd fuel Hf.
  - destruct fuel as [|fuel]; [simpl in Hf; lia|]. cbn [section_loop map concat app].
    rewrite length_app, length_zeros. destruct (Nat.leb_spec (length hd + UPDATE_PAGE_SIZE) (length hd + z)); [|done].
    rewrite slice_app_r, Nat.sub_diag by lia.
    replace (length hd + UPDATE_PAGE_SIZE - length hd)%nat with (0 + UPDATE_PAGE_SIZE)%nat by lia.
    rewrite slice_zeros by lia. unfold update_page_from_bytes. by rewrite empty_page.
  - destruct fuel as [|fuel]; [simpl in Hf; lia|]. cbn [section_loop map concat].
    pose proof (Forall_cons_1 _ _ _ (pages_rows [p] ltac:(by constructor))) as [Lp _].
    rewrite !length_app, Lp. rewrite (proj2 (Nat.leb_le _ _)) by lia.
    rewrite slice_app_r, Nat.sub_diag by lia.
    replace (length hd + UPDATE_PAGE_SIZE - length hd)%nat with UPDATE_PAGE_SIZE by lia.
    rewrite <- app_assoc, slice_app_exact by done.
    unfold update_page_from_bytes. rewrite <- (app_nil_r (update_page_to_bytes p)) at 1.
    unfold update_page_to_bytes at 1. rewrite page_roundtrip by done. f_equal.
    specialize (IH (hd ++ update_page_to_bytes p) fuel).
    rewrite length_app, Lp, <- app_assoc in IH. apply IH. simpl in Hf. lia.
Qed.

Lemma page_size_pos : (0 < UPDATE_PAGE_SIZE)%nat.
Proof. unfold UPDATE_PAGE_SIZE. lia. Qed.

Lemma section_bytes_length s :
  section_ok s -> length (section_to_bytes s) = (capacity_pages s * UPDATE_PAGE_SIZE)%nat.
Proof.
  intros Hs. rewrite section_to_bytes_shape by done. rewrite length_app, length_zeros.
  rewrite (length_concat_blocks UPDATE_PAGE_SIZE), length_map.
  - pose proof (ok_length s Hs). nia.
  - apply Forall_map, pages_rows, Hs.
Qed.

(** Reading the image back, with any zero padding of the file behind it. *)
Lemma section_image_roundtrip s z :
  section_ok s ->
  let s' := section_from_bytes (section_to_bytes s ++ zeros z) in
  pages s' = pages s /\ (capacity_pages s <= capacity_pages s')%nat /\ (12 <= capacity_pages s')%nat.
Proof.
  intros Hs. pose proof (section_bytes_length s Hs) as L. pose proof page_size_pos as Hpos.
  unfold section_from_bytes. cbn [pages capacity_pages]. rewrite length_app, length_zeros, L.
  assert (capacity_pages s <= (capacity_pages s * UPDATE_PAGE_SIZE + z) / UPDATE_PAGE_SIZE)%nat as Hc.
  { apply Nat.div_le_lower_bound; lia. }
  split_and!.
  - rewrite section_to_bytes_shape by done. rewrite <- app_assoc, <- zeros_add.
    apply (section_loop_pages _ []); [apply Hs|]. pose proof (ok_length s Hs). lia.
  - lia.
  - unfold MIN_UPDATE_SECTION_SIZE. rewrite Nat.div_mul by lia. lia.
Qed.

Lemma full_page_length p : page_ok p -> page_is_full p = true -> length p = ENTRIES_PER_PAGE.
Proof.
  intros (_ & Hn & _) Hf%Nat.leb_le. change (@per_page UpdateEntry _) with ENTRIES_PER_PAGE in Hn. lia.
Qed.

Lemma length_concat_uniform {A} n (ls : list (list A)) :
  Forall (fun l => length l = n) ls -> length (concat ls) = (n * length ls)%nat.
Proof. induction 1 as [|l ls Hl _ IH]; simpl; [lia|]. rewrite length_app. lia. Qed.

Lemma full_entry_count s :
  section_ok s -> is_full s = true -> entry_count s = (ENTRIES_PER_PAGE * capacity_pages s)%nat.
Proof.
  intros [Hp Hl _ Hf] Hfull. rewrite entry_count_length. unfold is_full in Hfull.
  destruct (last (pages s)) as [p|] eqn:El; [|done].
  apply andb_true_iff in Hfull as [Hc%Nat.leb_le Hpf].
  replace (capacity_pages s) with (length (pages s)) by lia.
  unfold all_entries. apply length_concat_uniform.
  apply Forall_lookup. intros i q Hi. pose proof (Forall_lookup_1 _ _ _ _ Hp Hi) as Hq.
  apply full_page_length; [done|]. pose proof (lookup_lt_Some _ _ _ Hi).
  destruct (decide (S i < length (pages s))%nat) as [|Hge]; [by eapply Hf|].
  rewrite last_lookup in El. replace (pred (length (pages s))) with i in El by lia. by simplify_eq.
Qed.

(** ** Theorems *)

(** An entry built by [UpdateEntry::new] survives its 24-byte encoding, its
    guard validates, and the guard is never the zero word that ends a page. *)
Theorem update_entry_guarded_roundtrip k loc sz st :
  is_array 9 k -> loc_ok loc -> u32 sz ->
  let e := new k loc sz st in
  from_bytes (to_bytes e) = e /\ validate_hash_guard (from_bytes (to_bytes e)) = true /\
  length (to_bytes e) = UPDATE_ENTRY_SIZE /\ from_le_bytes (take 4 (to_bytes e)) <> 0.
Proof.
  intros Hk Hloc Hs. destruct (new_fits k loc sz st Hk Hloc Hs) as [Hf Hv].
  destruct (entry_codec _ Hf) as (HL & _ & HR & HG). cbv zeta. rewrite HR, HG.
  split_and!; [done..|apply Hf].
Qed.

Lemma update_entry_guarded_roundtrip_witness :
  let e := new (replicate 9 7) {| archive_id := 3; archive_offset := 4096 |} 1234 Delete in
  from_bytes (to_bytes e) = e /\ validate_hash_guard (from_bytes (to_bytes e)) = true /\
  length (to_bytes e) = UPDATE_ENTRY_SIZE /\ from_le_bytes (take 4 (to_bytes e)) <> 0.
Proof.
  apply update_entry_guarded_roundtrip; decide_now.
Defined.

(** [append] on a well-formed section. While the section is not full it
    succeeds, keeps the section well-formed, and from then on [search] returns the
    new entry for its key and what it returned before for every other; on a full
    section, which holds exactly 170 entries per page of capacity, it reports
    failure and changes nothing. *)
Theorem append_behaviour s e :
  section_ok s -> fits e ->
  let '(ok, s') := append s e in
  ok = negb (is_full s) /\ section_ok s' /\ capacity_pages s' = capacity_pages s /\
  (ok = true -> entry_count s' = S (entry_count s) /\
     forall k, search s' k = if bool_decide (ekey e = k) then Some e else search s k) /\
  (ok = false -> s' = s /\ entry_count s = (170 * capacity_pages s)%nat).
Proof.
  intros Hs He. destruct (is_full s) eqn:Hf.
  - rewrite append_full by done. split_and!; try done. intros _. split; [done|]. by apply full_entry_count.
  - destruct (append_not_full s e Hs He Hf) as (s' & -> & Hs' & E & Ec). split_and!; try done.
    intros _. split; [rewrite !entry_count_length, E, length_app; simpl; lia|].
    intros k. by apply search_snoc.
Qed.

Lemma append_behaviour_witness :
  let e := new (replicate 9 7) {| archive_id := 3; archive_offset := 4096 |} 1234 Normal in
  let '(ok, s') := append section_new e in
  ok = negb (is_full section_new) /\ section_ok s' /\ capacity_pages s' = capacity_pages section_new /\
  (ok = true -> entry_count s' = S (entry_count section_new) /\
     forall k, search s' k = if bool_decide (ekey e = k) then Some e else search section_new k) /\
  (ok = false -> s' = section_new /\ entry_count section_new = (170 * capacity_pages section_new)%nat).
Proof.
  apply append_behaviour; [apply section_new_ok|decide_now].
Defined.

(** The byte image of a section, followed by any zero padding of the file,
    reads back to the same pages, so to the same answer of [search] for every
    key; the capacity never shrinks. *)
Theorem section_roundtrip s z :
  section_ok s ->
  let s' := section_from_bytes (section_to_bytes s ++ zeros z) in
  pages s' = pages s /\ (forall k, search s' k = search s k) /\
  (capacity_pages s <= capacity_pages s')%nat /\ section_ok s' /\
  length (section_to_bytes s) = (capacity_pages s * UPDATE_PAGE_SIZE)%nat.
Proof.
  intros Hs. destruct (section_image_roundtrip s z Hs) as (Hp & Hc & Hc12). cbv zeta.
  split_and!; [done|by intros k; unfold search; rewrite Hp|done| |by apply section_bytes_length].
  destruct Hs. constructor; rewrite ?Hp; auto; lia.
Qed.

Lemma section_roundtrip_witness :
  let s' := section_from_bytes (section_to_bytes section_new ++ zeros 5) in
  pages s' = pages section_new /\ (forall k, search s' k = search section_new k) /\
  (capacity_pages section_new <= capacity_pages s')%nat /\ section_ok s' /\
  length (section_to_bytes section_new) = (capacity_pages section_new * UPDATE_PAGE_SIZE)%nat.
Proof. apply (section_roundtrip section_new 5), section_new_ok. Defined.

End Update.
