(* ===== verification/IndexFile.v ===== *)
(** * The .idx file format: crates/cascette-client-storage/src/index/mod.rs

    The two formats of an index file as byte images: the current one (guarded
    header block, one block of 18-byte entries, update section at the next 4096
    byte boundary, file padded to 64 KiB) with its reader and writer, and the
    older V5 one (flat 48-byte header with a self-hash, two blocks) with its
    reader; and the file names of both.  The readers work on the content of the
    file; a panic of the source (a slice or [chunks] out of range, a string
    sliced inside a character) is [Panic]. *)

From S2P Require Import Prelude Bytes Jenkins Collections Pages IndexEntry UpdateSection.
Import Entry.
Local Open Scope Z_scope.

Module IndexFile.

Record GuardedBlockHeader := { block_size : Z; block_hash : Z }.

Inductive IndexVersion : Type := V5 | V7.

Record IndexHeaderV2 := {
  h2_version : Z;
  h2_bucket : Z;
  h2_extra_bytes : Z;
  h2_encoded_size_length : Z;
  h2_storage_offset_length : Z;
  h2_ekey_length : Z;
  h2_file_offset_bits : Z;
  h2_segment_size : Z;
}.

Record IndexHeader := {
  data_size : Z;
  data_hash : Z;
  version : Z;
  bucket : Z;
  unused : Z;
  length_size : Z;
  location_size : Z;
  key_size : Z;
  segment_bits : Z;
}.

Record IndexFile := {
  file_version : IndexVersion;
  header : IndexHeader;
  entries : list IndexEntry;
  update_section : Update.UpdateSection;
}.

(** ** The derived codecs *)

Definition guarded_to_bytes (b : GuardedBlockHeader) : bytes :=
  to_le_bytes 4 (block_size b) ++ to_le_bytes 4 (block_hash b).

Definition guarded_from_bytes (d : bytes) : GuardedBlockHeader :=
  {| block_size := from_le_bytes (slice 0 4 d); block_hash := from_le_bytes (slice 4 8 d) |}.

Definition header_v2_to_bytes (h : IndexHeaderV2) : bytes :=
  to_le_bytes 2 (h2_version h) ++
  [h2_bucket h; h2_extra_bytes h; h2_encoded_size_length h; h2_storage_offset_length h;
   h2_ekey_length h; h2_file_offset_bits h] ++
  to_le_bytes 8 (h2_segment_size h).

Definition header_v2_from_bytes (d : bytes) : IndexHeaderV2 :=
  {| h2_version := from_le_bytes (slice 0 2 d);
     h2_bucket := nth 2 d 0; h2_extra_bytes := nth 3 d 0;
     h2_encoded_size_length := nth 4 d 0; h2_storage_offset_length := nth 5 d 0;
     h2_ekey_length := nth 6 d 0; h2_file_offset_bits := nth 7 d 0;
     h2_segment_size := from_le_bytes (slice 8 16 d) |}.

(** [read_exact] and the derived readers: [n] bytes, or an error. *)
Definition read_exact (n : nat) (err : string) (d : bytes) : result StorageError (bytes * bytes) :=
  if (n <=? length d)%nat then Ok (take n d, drop n d) else Err (IndexError err).

(** ** Reading the current format *)

(** [(header.key_size + header.location_size + header.length_size) as usize], a [u8] sum. *)
Definition entry_size_of (h : IndexHeader) : nat :=
  Z.to_nat (wrap8 (wrap8 (key_size h + location_size h) + length_size h)).

Definition read_index_header (d : bytes) : result StorageError (IndexHeader * nat * bytes) :=
  '(b, d) ← read_exact 8 "Failed to read header block" d;
  let header_block := guarded_from_bytes b in
  '(b, d) ← read_exact 16 "Failed to read header" d;
  let h := header_v2_from_bytes b in
  if negb (h2_ekey_length h =? 9) && negb (h2_ekey_length h =? 16) then Err (IndexError "Invalid key size")
  else
    let header :=
      {| data_size := block_size header_block; data_hash := block_hash header_block;
         version := h2_version h; bucket := h2_bucket h; unused := h2_extra_bytes h;
         length_size := h2_encoded_size_length h; location_size := h2_storage_offset_length h;
         key_size := h2_ekey_length h; segment_bits := h2_file_offset_bits h |} in
    Ok (header, entry_size_of header, d).

Definition read_entry_block (d : bytes) : result StorageError bytes :=
  '(_, d) ← read_exact 8 "Failed to read header hash" d;
  '(b, d) ← read_exact 8 "Failed to read entry block header" d;
  let entry_block := guarded_from_bytes b in
  '(entry_data, _) ← read_exact (Z.to_nat (block_size entry_block)) "Failed to read entry data" d;
  Ok entry_data.

(** The body of the loops over entries: [entry_bytes[..9].iter().any(|&b| b != 0)]. *)
Definition nonzero_key (entry_bytes : bytes) : bool :=
  existsb (fun b => negb (b =? 0)) (take 9 entry_bytes).

Fixpoint parse_loop (fuel : nat) (entry_data : bytes) (entry_size offset : nat) : outcome (list IndexEntry) :=
  match fuel with
  | O => Ret []
  | S fuel =>
      if (offset + entry_size <=? length entry_data)%nat then
        let entry_bytes := slice offset (offset + entry_size) entry_data in
        if (length entry_bytes <? 9)%nat then Panic
        else
          let here :=
            if nonzero_key entry_bytes then
              match from_packed entry_bytes with Ok e => [e] | Err _ => [] end
            else [] in
          rest ← parse_loop fuel entry_data entry_size (offset + entry_size);
          Ret (here ++ rest)
      else Ret []
  end.

(** Each iteration moves by [entry_size], which is at least 9 if it did not panic. *)
Definition parse_entries (entry_data : bytes) (entry_size : nat) : outcome (list IndexEntry) :=
  parse_loop (S (length entry_data)) entry_data entry_size 0.

(** [(n + align - 1) & !(align - 1)] for a power of two. *)
Definition align_up (n align : Z) : Z := Z.ldiff (n + align - 1) (align - 1).

(** [load_index] on the content of the file. *)
Definition load_index (d : bytes) : outcome (result StorageError IndexFile) :=
  '(header, entry_size, rest) ←? Ret (read_index_header d);
  entry_data ←? Ret (read_entry_block rest);
  entries ← parse_entries entry_data entry_size;
  let entries := sort_by_key key entries in
  let sorted_end := (8 + 16 + 8 + 8 + length entry_data)%nat in
  let update_start := Z.to_nat (align_up (Z.of_nat sorted_end) (Z.of_nat Update.UPDATE_SECTION_ALIGNMENT)) in
  let update_section :=
    if (update_start <? length d)%nat then Update.section_from_bytes (drop update_start d)
    else Update.section_new in
  Ret (Ok {| file_version := V7; header := header; entries := entries; update_section := update_section |}).

(** ** Writing it *)

(** [chunks(n)], for [n > 0]. *)
Fixpoint chunks_loop (fuel n : nat) (d : bytes) : list bytes :=
  match fuel with
  | O => []
  | S fuel => match d with [] => [] | _ => take n d :: chunks_loop fuel n (drop n d) end
  end.

Definition chunks (n : nat) (d : bytes) : outcome (list bytes) :=
  if (n =? 0)%nat then Panic else Ret (chunks_loop (length d) n d).

(** The incremental hash of the entry block. *)
Fixpoint hash_chunks (cs : list bytes) (pc pb : Z) : outcome Z :=
  match cs with
  | [] => Ret pc
  | c :: cs => '(pc, pb) ← Jenkins.hashlittle2 c pc pb; hash_chunks cs pc pb
  end.

(** What [write_index_to_file] writes. *)
Definition write_index_to_file (header_block : GuardedBlockHeader) (header_data : bytes)
    (entry_block : GuardedBlockHeader) (entry_data : bytes) (sorted_end : nat)
    (update_data : option bytes) : bytes :=
  let out := guarded_to_bytes header_block ++ header_data ++ zeros 8 ++
             guarded_to_bytes entry_block ++ entry_data in
  let out :=
    match update_data with
    | Some update_bytes =>
        let aligned := Z.to_nat (align_up (Z.of_nat sorted_end) (Z.of_nat Update.UPDATE_SECTION_ALIGNMENT)) in
        out ++ zeros (aligned - sorted_end) ++ update_bytes
    | None => out
    end in
  let current_pos := length out in
  let padded_size := Z.to_nat (align_up (Z.of_nat current_pos) 0x10000) in
  out ++ zeros (padded_size - current_pos).

(** The header [save_index] builds. *)
Definition save_header (id : Z) (h : IndexHeader) : IndexHeaderV2 :=
  {| h2_version := 7; h2_bucket := id; h2_extra_bytes := 0;
     h2_encoded_size_length := length_size h; h2_storage_offset_length := location_size h;
     h2_ekey_length := key_size h; h2_file_offset_bits := segment_bits h;
     h2_segment_size := wrap64 (wrap64 (Z.shiftl 1 (segment_bits h mod 64)) * 256) |}.

(** The part of [save_index] before the write: the image of the file. *)
Definition index_image (id : Z) (index : IndexFile) : outcome (result StorageError bytes) :=
  let entry_size := entry_size_of (header index) in
  let header_bytes := header_v2_to_bytes (save_header id (header index)) in
  let entry_data := concat (map to_packed (entries index)) in
  header_hash ← Jenkins.hashlittle header_bytes 0;
  cs ← chunks entry_size entry_data;
  entry_hash ← hash_chunks cs 0 0;
  if 2 ^ 32 <=? Z.of_nat (length entry_data) then Ret (Err (IndexError "Entry data too large"))
  else
    let header_block := {| block_size := Z.of_nat (length header_bytes); block_hash := header_hash |} in
    let entry_block := {| block_size := Z.of_nat (length entry_data); block_hash := entry_hash |} in
    let update_data :=
      if (0 <? Update.entry_count (update_section index))%nat
      then Some (Update.section_to_bytes (update_section index)) else None in
    let sorted_end := (8 + length header_bytes + 8 + 8 + length entry_data)%nat in
    Ret (Ok (write_index_to_file header_block header_bytes entry_block entry_data sorted_end update_data)).

(** ** The V5 format *)

Definition V5_HEADER_SIZE : nat := 48.
Definition V5_ENTRY_SIZE : nat := 18.

Record IndexHeaderV5 := {
  v5_index_version : Z;
  v5_bucket_index : Z;
  v5_padding : Z;
  v5_field_4 : Z;
  v5_field_8 : Z;
  v5_segment_size : Z;
  v5_encoded_size_length : Z;
  v5_storage_offset_length : Z;
  v5_ekey_length : Z;
  v5_file_offset_bits : Z;
  v5_ekey_count1 : Z;
  v5_ekey_count2 : Z;
  v5_keys_hash1 : Z;
  v5_keys_hash2 : Z;
  v5_header_hash : Z;
}.

Definition read_v5_index_header (data : bytes) : outcome (result StorageError IndexHeaderV5) :=
  if (length data <? V5_HEADER_SIZE)%nat then Ret (Err (IndexError "V5 header too small"))
  else
    let header_bytes := take V5_HEADER_SIZE data in
    let byte i := nth i header_bytes 0 in
    let word a n := from_le_bytes (slice a (a + n) header_bytes) in
    let h :=
      {| v5_index_version := word 0 2; v5_bucket_index := byte 2; v5_padding := byte 3;
         v5_field_4 := word 4 4; v5_field_8 := word 8 8; v5_segment_size := word 16 8;
         v5_encoded_size_length := byte 24; v5_storage_offset_length := byte 25;
         v5_ekey_length := byte 26; v5_file_offset_bits := byte 27;
         v5_ekey_count1 := word 28 4; v5_ekey_count2 := word 32 4;
         v5_keys_hash1 := word 36 4; v5_keys_hash2 := word 40 4; v5_header_hash := word 44 4 |}%nat in
    if negb (v5_index_version h =? 5) then Ret (Err (IndexError "V5 header version mismatch"))
    else if v5_field_8 h =? 0 then Ret (Err (IndexError "V5 header field_8 must be non-zero"))
    else if negb (v5_encoded_size_length h =? 4) then Ret (Err (IndexError "V5 encoded_size_length must be 4"))
    else if negb (v5_storage_offset_length h =? 5) then Ret (Err (IndexError "V5 storage_offset_length must be 5"))
    else if negb (v5_ekey_length h =? 9) then Ret (Err (IndexError "V5 ekey_length must be 9"))
    else
      computed_hash ← Jenkins.hashlittle (copy_at 44 (zeros 4) header_bytes) 0;
      if negb (computed_hash =? v5_header_hash h) then Ret (Err (IndexError "V5 header hash mismatch"))
      else Ret (Ok h).

Fixpoint v5_block_loop (fuel offset : nat) (block_data : bytes) : list IndexEntry :=
  match fuel with
  | O => []
  | S fuel =>
      if (offset + V5_ENTRY_SIZE <=? length block_data)%nat then
        let entry_bytes := slice offset (offset + V5_ENTRY_SIZE) block_data in
        (if nonzero_key entry_bytes then [read_be entry_bytes] else []) ++
        v5_block_loop fuel (offset + V5_ENTRY_SIZE) block_data
      else []
  end.

Definition load_v5_entries (data : bytes) (h : IndexHeaderV5) : outcome (result StorageError (list IndexEntry)) :=
  let block1_size := (Z.to_nat (v5_ekey_count1 h) * V5_ENTRY_SIZE)%nat in
  let block2_size := (Z.to_nat (v5_ekey_count2 h) * V5_ENTRY_SIZE)%nat in
  let block1_start := V5_HEADER_SIZE in
  let block2_start := (block1_start + block1_size)%nat in
  let total_needed := (block2_start + block2_size)%nat in
  if (length data <? total_needed)%nat then Ret (Err (IndexError "V5 data too small"))
  else
    let block1_data := slice block1_start (block1_start + block1_size) data in
    let block2_data := slice block2_start (block2_start + block2_size) data in
    computed_hash1 ← Jenkins.hashlittle block1_data 0;
    if negb (computed_hash1 =? v5_keys_hash1 h) then Ret (Err (IndexError "V5 block 1 hash mismatch"))
    else
      computed_hash2 ← Jenkins.hashlittle block2_data 0;
      if negb (computed_hash2 =? v5_keys_hash2 h) then Ret (Err (IndexError "V5 block 2 hash mismatch"))
      else
        Ret (Ok (v5_block_loop (S (length block1_data)) 0 block1_data ++
                 v5_block_loop (S (length block2_data)) 0 block2_data)).

(** [load_v5_index] on the content of the file. *)
Definition load_v5_index (data : bytes) : outcome (result StorageError IndexFile) :=
  h ←? read_v5_index_header data;
  entries ←? load_v5_entries data h;
  Ret (Ok
    {| file_version := V5;
       header := {| data_size := 0; data_hash := 0; version := 5; bucket := v5_bucket_index h;
                    unused := 0; length_size := v5_encoded_size_length h;
                    location_size := v5_storage_offset_length h; key_size := v5_ekey_length h;
                    segment_bits := v5_file_offset_bits h |};
       entries := sort_by_key key entries;
       update_section := Update.section_new |}).

(** ** File names *)

(** [&s[a..b]] on a [str]: a panic off a character boundary. *)
Definition is_char_boundary (s : bytes) (i : nat) : bool :=
  if (i =? length s)%nat then true
  else match s !! i with Some b => negb (is_cont b) | None => false end.

Definition str_slice (a b : nat) (s : bytes) : outcome bytes :=
  if is_char_boundary s a && is_char_boundary s b then Ret (slice a b s) else Panic.

(** [uN::from_str_radix(s, 16)] for at most 2N/8 digits, so without overflow. *)
Fixpoint radix_digits (acc : Z) (s : bytes) : option Z :=
  match s with
  | [] => Some acc
  | c :: s => match digit_val c with Some d => radix_digits (acc * 16 + d) s | None => None end
  end.

Definition from_str_radix16 (s : bytes) : option Z :=
  match s with
  | [] => None
  | [c] => digit_val c
  | c :: r => if c =? 43 then radix_digits 0 r else radix_digits 0 s
  end.

Definition generate_index_filename (bucket version : Z) : bytes :=
  hex_be 1 bucket ++ hex_be 4 version ++ [46; 105; 100; 120].

(** [path.with_extension("tmp")]. *)
Definition temp_filename (bucket version : Z) : bytes :=
  hex_be 1 bucket ++ hex_be 4 version ++ [46; 116; 109; 112].

Definition to_lower (b : Z) : Z := if in_rng 65 90 b then b + 32 else b.

(** The name is one path component, so its extension is what follows the last dot. *)
Definition parse_index_filename (name : bytes) : outcome (option (Z * Z)) :=
  if negb (length name =? 14)%nat ||
     negb (bool_decide (map to_lower (drop 10 name) = [46; 105; 100; 120])) then Ret None
  else
    s ← str_slice 0 2 name;
    match from_str_radix16 s with
    | None => Ret None
    | Some bucket =>
        s ← str_slice 2 10 name;
        match from_str_radix16 s with
        | None => Ret None
        | Some version => Ret (Some (bucket, version))
        end
    end.

Definition parse_v5_index_filename (name : bytes) : outcome (option (Z * Z)) :=
  if negb (bool_decide (take 6 name = [100; 97; 116; 97; 46; 105])) then Ret None
  else
    let name := drop 6 name in
    if negb (length name =? 2)%nat then Ret None
    else
      s ← str_slice 0 1 name;
      match from_str_radix16 s with
      | None => Ret None
      | Some bucket =>
          s ← str_slice 1 2 name;
          match from_str_radix16 s with
          | None => Ret None
          | Some version => if 15 <? bucket then Ret None else Ret (Some (bucket, version))
          end
      end.

End IndexFile.
