(* ===== verification/IndexImage.v ===== *)
(** * Correctness of the .idx file format

    Writing an index file and reading it back; what the readers check, what
    they do not, and where they panic. *)

From S2P Require Import Prelude Bytes Jenkins Collections Pages IndexEntry UpdateSection IndexFile.
Import Entry IndexFile.
Local Open Scope Z_scope.

(** The field sizes of every index file this code writes. *)
Definition std_header (h : IndexHeader) : Prop :=
  length_size h = 4 /\ location_size h = 5 /\ key_size h = 9 /\ u8 (segment_bits h).

#[global] Instance std_header_dec h : Decision (std_header h).
Proof. unfold std_header. apply _. Defined.

Lemma std_entry_size h : std_header h -> entry_size_of h = 18%nat.
Proof. unfold entry_size_of. by intros (-> & -> & -> & _). Qed.

(** An index file whose contents fit the format. *)
Record file_ok (f : IndexFile) : Prop := {
  ok_header : std_header (header f);
  ok_sorted : strictly_sorted key (entries f);
  ok_entries : Forall entry_fits (entries f);
  ok_section : Update.section_ok (update_section f);
  ok_size : Z.of_nat (length (entries f)) * 18 < 2 ^ 32;
}.

(** ** Codecs of the headers *)

Lemma guarded_roundtrip b :
  u32 (block_size b) -> u32 (block_hash b) ->
  length (guarded_to_bytes b) = 8%nat /\ guarded_from_bytes (guarded_to_bytes b) = b.
Proof.
  intros Hs Hh. unfold guarded_to_bytes, guarded_from_bytes. split.
  - by rewrite length_app, !length_to_le_bytes.
  - rewrite slice_app_exact by by rewrite length_to_le_bytes.
    rewrite slice_app_r by (rewrite length_to_le_bytes; lia). rewrite length_to_le_bytes. simpl Nat.sub.
    rewrite <- (app_nil_r (to_le_bytes 4 (block_hash b))), slice_app_exact by by rewrite length_to_le_bytes.
    rewrite !(le_roundtrip 4 32) by done. by destruct b.
Qed.

Lemma header_v2_length h : length (header_v2_to_bytes h) = 16%nat.
Proof. unfold header_v2_to_bytes. by rewrite !length_app, !length_to_le_bytes. Qed.

Lemma header_v2_roundtrip h :
  u16 (h2_version h) -> u64 (h2_segment_size h) -> header_v2_from_bytes (header_v2_to_bytes h) = h.
Proof.
  destruct h as [v b x e s k o z]. cbn [h2_version h2_segment_size]. intros Hv Hz.
  unfold header_v2_to_bytes. cbn [h2_version h2_segment_size h2_bucket h2_extra_bytes
    h2_encoded_size_length h2_storage_offset_length h2_ekey_length h2_file_offset_bits].
  pose proof (le_roundtrip 2 16 v eq_refl Hv) as Ev. pose proof (le_roundtrip 8 64 z eq_refl Hz) as Ez.
  pose proof (length_to_le_bytes 2 v) as Lv. pose proof (length_to_le_bytes 8 z) as Lz.
  generalize dependent (to_le_bytes 2 v). generalize dependent (to_le_bytes 8 z).
  intros lz Ez Lz lv Ev Lv. explode Lv. explode Lz. unfold header_v2_from_bytes. layout.
  by rewrite Ev, Ez.
Qed.

Lemma read_exact_app n err a b : length a = n -> read_exact n err (a ++ b) = Ok (a, b).
Proof.
  intros <-. unfold read_exact. rewrite length_app, (proj2 (Nat.leb_le _ _)) by lia.
  by rewrite take_app_length, drop_app_length.
Qed.

(** ** Alignment *)

Lemma align_up_spec n k :
  0 <= n -> 0 <= k -> n <= align_up n (2 ^ k) < n + 2 ^ k /\ align_up n (2 ^ k) mod 2 ^ k = 0.
Proof.
  intros Hn Hk. unfold align_up. replace (2 ^ k - 1) with (Z.ones k) by (rewrite Z.ones_equiv; lia).
  rewrite Z.ldiff_ones_r, Z.shiftl_mul_pow2, Z.shiftr_div_pow2 by done.
  assert (0 < 2 ^ k) as Hp by by apply Z.pow_pos_nonneg.
  pose proof (Z.div_mod (n + 2 ^ k - 1) (2 ^ k)) as Hd.
  pose proof (Z.mod_pos_bound (n + 2 ^ k - 1) (2 ^ k) Hp). split; [nia|]. by apply Z_mod_mult.
Qed.

Definition pad_to (n : nat) (a : Z) : nat := Z.to_nat (align_up (Z.of_nat n) a) - n.

Lemma align_up_nat n k :
  0 <= k -> Z.to_nat (align_up (Z.of_nat n) (2 ^ k)) = (n + pad_to n (2 ^ k))%nat /\
    (Z.of_nat (n + pad_to n (2 ^ k)) mod 2 ^ k = 0).
Proof.
  intros Hk. unfold pad_to. destruct (align_up_spec (Z.of_nat n) k) as [Hb Hm]; [lia..|].
  split; [lia|]. replace (Z.of_nat _) with (align_up (Z.of_nat n) (2 ^ k)) by lia. done.
Qed.

Lemma section_alignment : Z.of_nat Update.UPDATE_SECTION_ALIGNMENT = 2 ^ 12.
Proof. by vm_compute. Qed.

(** ** The entry block *)

Lemma nonzero_key_packed e : entry_fits e -> nonzero_key (to_packed e) = true.
Proof.
  intros He. destruct (packed_roundtrip e He) as (_ & _ & Ht & _). destruct He as ([Hl _] & Hne & _).
  unfold nonzero_key. rewrite Ht. destruct (existsb _ _) eqn:E; [done|]. exfalso. apply Hne.
  rewrite <- Hl. clear -E. unfold zeros. induction (key e) as [|b l IH]; [done|]. simpl in *.
  apply orb_false_iff in E as [Hb E]. apply negb_false_iff, Z.eqb_eq in Hb as ->. f_equal. auto.
Qed.

Lemma parse_loop_packed fuel hd es :
  Forall entry_fits es -> (length es < fuel)%nat ->
  parse_loop fuel (hd ++ concat (map to_packed es)) 18 (length hd) = Ret es.
Proof.
  intros Hes. revert hd fuel. induction Hes as [|e es He Hes IH]; intros hd [|fuel] Hf; [simpl in Hf; lia| |simpl in Hf; lia|].
  - cbn [parse_loop map concat]. rewrite app_nil_r, (proj2 (Nat.leb_gt _ _)) by lia. done.
  - destruct (packed_roundtrip e He) as (L & _ & _ & R).
    cbn [parse_loop map concat]. rewrite !length_app, L, (proj2 (Nat.leb_le _ _)) by lia.
    rewrite slice_app_r, Nat.sub_diag by lia.
    replace (length hd + 18 - length hd)%nat with 18%nat by lia. rewrite slice_app_exact by done.
    rewrite L. cbn [Nat.ltb Nat.leb]. rewrite nonzero_key_packed, R by done.
    specialize (IH (hd ++ to_packed e) fuel). rewrite length_app, L, <- app_assoc in IH.
    rewrite IH by (simpl in Hf; lia). done.
Qed.

Lemma length_packed es :
  Forall entry_fits es -> length (concat (map to_packed es)) = (length es * 18)%nat.
Proof.
  intros Hes. rewrite (length_concat_blocks 18), length_map; [done|].
  apply Forall_map. eapply Forall_impl; [done|]. intros e ([? _] & _). by apply to_packed_length.
Qed.

Lemma parse_entries_packed es :
  Forall entry_fits es -> parse_entries (concat (map to_packed es)) 18 = Ret es.
Proof.
  intros Hes. unfold parse_entries. apply (parse_loop_packed _ []); [done|].
  rewrite length_packed by done. lia.
Qed.

(** ** Hashing never panics *)

Lemma hashlittle2_ret key pc pb : exists pc' pb', Jenkins.hashlittle2 key pc pb = Ret (pc', pb') /\ u32 pc'.
Proof.
  rewrite Jenkins.hashlittle2_eq.
  pose proof (Jenkins.hash_spec_ok key (Jenkins.seed key pc, Jenkins.seed key pc,
    Jenkins.wrapping_add (Jenkins.seed key pc) pb)) as H.
  destruct (Jenkins.hash_spec _ _) as [[a b] c]. exists c, b. split; [done|].
  apply H. simpl. unfold Jenkins.seed. auto using Jenkins.wrapping_add_range.
Qed.

Lemma hash_chunks_ret cs pc pb : u32 pc -> exists h, hash_chunks cs pc pb = Ret h /\ u32 h.
Proof.
  revert pc pb. induction cs as [|c cs IH]; intros pc pb Hpc; simpl; [by exists pc|].
  destruct (hashlittle2_ret c pc pb) as (pc' & pb' & -> & H). by apply IH.
Qed.

(** ** The image of a file *)

(** The sorted part of the image, with [hh] and [eh] in the two hash fields. *)
Definition sorted_part (id hh eh : Z) (f : IndexFile) : bytes :=
  guarded_to_bytes {| block_size := 16; block_hash := hh |} ++
  header_v2_to_bytes (save_header id (header f)) ++ zeros 8 ++
  guarded_to_bytes {| block_size := Z.of_nat (length (concat (map to_packed (entries f)))); block_hash := eh |} ++
  concat (map to_packed (entries f)).

(** The sorted part, the update section if there is one, and the padding. *)
Definition image_with (id hh eh : Z) (f : IndexFile) : bytes :=
  let sp := sorted_part id hh eh f in
  let body :=
    if (0 <? Update.entry_count (update_section f))%nat
    then sp ++ zeros (pad_to (length sp) (2 ^ 12)) ++ Update.section_to_bytes (update_section f) else sp in
  body ++ zeros (pad_to (length body) (2 ^ 16)).

Lemma sorted_part_length id hh eh f :
  length (sorted_part id hh eh f) = (40 + length (concat (map to_packed (entries f))))%nat.
Proof.
  unfold sorted_part, guarded_to_bytes. rewrite !length_app, !length_to_le_bytes, length_zeros.
  rewrite header_v2_length. lia.
Qed.

Lemma index_image_eq id f :
  std_header (header f) ->
  Z.of_nat (length (concat (map to_packed (entries f)))) < 2 ^ 32 ->
  exists hh eh, u32 hh /\ u32 eh /\ index_image id f = Ret (Ok (image_with id hh eh f)).
Proof.
  intros Hh Hlt. unfold index_image. rewrite std_entry_size by done.
  rewrite Jenkins.hashlittle_jenkins, header_v2_length. cbn [mbind outcome_bind chunks Nat.eqb].
  pose proof (Jenkins.jenkins_range (header_v2_to_bytes (save_header id (header f))) 0) as Hj.
  destruct (hash_chunks_ret (chunks_loop (length (concat (map to_packed (entries f)))) 18
    (concat (map to_packed (entries f)))) 0 0) as (eh & -> & Heh); [done|]. cbn [mbind outcome_bind].
  rewrite (proj2 (Z.leb_gt _ _)) by done. eexists _, eh. split_and!; [exact Hj|done|].
  do 2 f_equal. unfold write_index_to_file, image_with. rewrite section_alignment.
  change 0x10000 with (2 ^ 16).
  change (8 + 16 + 8 + 8 + length (concat (map to_packed (entries f))))%nat
    with (40 + length (concat (map to_packed (entries f))))%nat.
  rewrite <- (sorted_part_length id (Jenkins.jenkins (header_v2_to_bytes (save_header id (header f))) 0) eh f).
  destruct (0 <? _)%nat; [by rewrite <- !app_assoc|done].
Qed.

(** ** Reading the image back *)

Definition data_len (f : IndexFile) : nat := (40 + length (concat (map to_packed (entries f))))%nat.
Definition update_start (f : IndexFile) : nat := (data_len f + pad_to (data_len f) (2 ^ 12))%nat.

(** What follows the aligned end of the sorted part. *)
Definition image_tail (f : IndexFile) : bytes :=
  if (0 <? Update.entry_count (update_section f))%nat then
    Update.section_to_bytes (update_section f) ++
    zeros (pad_to (update_start f + length (Update.section_to_bytes (update_section f))) (2 ^ 16))
  else zeros (pad_to (data_len f) (2 ^ 16) - pad_to (data_len f) (2 ^ 12)).

Lemma image_prefix id hh eh f : exists tl, image_with id hh eh f = sorted_part id hh eh f ++ tl.
Proof.
  unfold image_with. destruct (0 <? _)%nat; rewrite <- ?app_assoc; eauto.
Qed.

Lemma image_drop id hh eh f : drop (update_start f) (image_with id hh eh f) = image_tail f.
Proof.
  unfold image_with, image_tail, update_start, data_len.
  rewrite <- (sorted_part_length id hh eh f). generalize (sorted_part id hh eh f). intros sp.
  destruct (0 <? _)%nat.
  - rewrite !length_app, length_zeros, Nat.add_assoc.
    replace (length sp + pad_to (length sp) (2 ^ 12))%nat
      with (length (sp ++ zeros (pad_to (length sp) (2 ^ 12)))) at 1 by by rewrite length_app, length_zeros.
    by rewrite app_assoc, <- (app_assoc (sp ++ _)), drop_app_length.
  - rewrite drop_app, drop_ge by lia. rewrite app_nil_l. unfold zeros. rewrite drop_replicate. f_equal. lia.
Qed.

Lemma image_longer id hh eh f :
  file_ok f -> (0 < Update.entry_count (update_section f))%nat ->
  (update_start f < length (image_with id hh eh f))%nat.
Proof.
  intros Hf Hc. assert (0 < length (drop (update_start f) (image_with id hh eh f)))%nat as H.
  { rewrite image_drop. unfold image_tail. rewrite (proj2 (Nat.ltb_lt _ _)) by done.
    rewrite length_app, Update.section_bytes_length by apply Hf.
    pose proof (Update.ok_capacity _ (ok_section f Hf)). pose proof Update.page_size_pos. nia. }
  rewrite length_drop in H. lia.
Qed.

Lemma section_of_zeros z : Update.pages (Update.section_from_bytes (zeros z)) = [].
Proof. apply (Update.section_loop_pages _ [] [] z); [constructor|simpl; lia]. Qed.

Lemma no_entries_no_pages s : Update.section_ok s -> Update.entry_count s = 0%nat -> Update.pages s = [].
Proof.
  intros Hs. unfold Update.entry_count. pose proof (Update.ok_pages s Hs) as Hp.
  destruct (Update.pages s) as [|p ps]; [done|]. apply Forall_cons in Hp as [(Hne & _) _].
  rewrite fmap_cons. cbn. destruct p; simpl; [done|lia].
Qed.

(** The section [load_index] finds. *)
Definition loaded_section (f : IndexFile) (len : nat) : Update.UpdateSection :=
  if (update_start f <? len)%nat then Update.section_from_bytes (image_tail f) else Update.section_new.

Lemma section_ok_pages s s' :
  Update.section_ok s -> Update.pages s' = Update.pages s ->
  (Update.capacity_pages s <= Update.capacity_pages s' \/
   Update.pages s = [] /\ 0 < Update.capacity_pages s')%nat -> Update.section_ok s'.
Proof.
  intros [Hp Hl Hc Hf] E Hcap. constructor; rewrite ?E; auto.
  - destruct Hcap as [|[-> ?]]; simpl; lia.
  - destruct Hcap as [|[_ ?]]; lia.
Qed.

Lemma loaded_section_pages id hh eh f :
  file_ok f ->
  let s' := loaded_section f (length (image_with id hh eh f)) in
  Update.pages s' = Update.pages (update_section f) /\ Update.section_ok s'.
Proof.
  intros Hf. unfold loaded_section. pose proof (ok_section f Hf) as Hs.
  destruct (decide (0 < Update.entry_count (update_section f))%nat) as [Hc|Hc]; cbv zeta.
  - rewrite (proj2 (Nat.ltb_lt _ _)) by by apply image_longer.
    unfold image_tail. rewrite (proj2 (Nat.ltb_lt _ _)) by done.
    destruct (Update.section_image_roundtrip (update_section f)
      (pad_to (update_start f + length (Update.section_to_bytes (update_section f))) (2 ^ 16)) Hs) as (Hp & Hcap & _).
    split; [done|]. eapply section_ok_pages; eauto.
  - assert (Update.pages (update_section f) = []) as E by (apply no_entries_no_pages; [done|lia]).
    assert (Hnew : forall s', Update.pages s' = [] -> (0 < Update.capacity_pages s')%nat ->
      Update.pages s' = Update.pages (update_section f) /\ Update.section_ok s').
    { intros s' Es Hc'. rewrite E. split; [done|]. eapply section_ok_pages; [exact Hs|congruence|auto]. }
    destruct (_ <? _)%nat; apply Hnew.
    + unfold image_tail. rewrite (proj2 (Nat.ltb_ge _ _)) by lia. apply section_of_zeros.
    + cbn [Update.section_from_bytes Update.capacity_pages].
      pose proof Update.section_new_capacity as E12. cbn [Update.section_new Update.capacity_pages] in E12. lia.
    + done.
    + rewrite Update.section_new_capacity. lia.
Qed.

Definition loaded_header (id hh : Z) (h : IndexHeader) : IndexHeader :=
  {| data_size := 16; data_hash := hh; version := 7; bucket := id; unused := 0;
     length_size := length_size h; location_size := location_size h; key_size := key_size h;
     segment_bits := segment_bits h |}.

Lemma load_image id hh eh f :
  file_ok f -> u32 hh -> u32 eh ->
  load_index (image_with id hh eh f) =
    Ret (Ok {| file_version := V7; header := loaded_header id hh (header f); entries := entries f;
               update_section := loaded_section f (length (image_with id hh eh f)) |}).
Proof.
  intros Hf Hhh Heh. pose proof (length_packed _ (ok_entries f Hf)) as Lp. pose proof (ok_size f Hf) as Hsz.
  assert (Hlen : Z.to_nat (align_up (Z.of_nat (data_len f)) (2 ^ 12)) = update_start f)
    by by apply align_up_nat.
  unfold load_index. rewrite section_alignment.
  destruct (image_prefix id hh eh f) as [tl E]. pose proof (image_drop id hh eh f) as Edrop.
  set (img := image_with id hh eh f) in *. rewrite E at 1.
  unfold sorted_part. rewrite <- !app_assoc. unfold read_index_header.
  destruct (guarded_roundtrip {| block_size := 16; block_hash := hh |}) as [L1 R1]; [done..|].
  rewrite read_exact_app by done. cbn [mbind result_bind].
  rewrite read_exact_app by apply header_v2_length. cbn [mbind result_bind].
  rewrite R1, header_v2_roundtrip by (done || apply wrap_range; lia).
  destruct (ok_header f Hf) as (_ & _ & Hk & _).
  cbn [save_header h2_version h2_bucket h2_extra_bytes h2_encoded_size_length h2_storage_offset_length
       h2_ekey_length h2_file_offset_bits h2_segment_size block_size block_hash].
  rewrite Hk at 1 2. cbn [Z.eqb Pos.eqb negb andb try_bind].
  change (entry_size_of _) with (entry_size_of (header f)). rewrite std_entry_size by apply Hf.
  unfold read_entry_block. rewrite read_exact_app by done. cbn [mbind result_bind].
  destruct (guarded_roundtrip {| block_size := Z.of_nat (length (concat (map to_packed (entries f))));
    block_hash := eh |}) as [L2 R2]; [unfold in_u; cbn [block_size]; lia|done|].
  rewrite read_exact_app by done. cbn [mbind result_bind]. rewrite R2. cbn [block_size].
  rewrite Nat2Z.id, read_exact_app by done. cbn [mbind result_bind try_bind].
  rewrite parse_entries_packed by apply Hf. cbn [mbind outcome_bind].
  rewrite sort_by_key_id by apply strictly_sorted_sorted, Hf.
  change (8 + 16 + 8 + 8 + length (concat (map to_packed (entries f))))%nat with (data_len f).
  rewrite Hlen, Edrop. unfold loaded_header, loaded_section. by rewrite Hk.
Qed.

(** ** Theorems *)

(** Saving an index file and loading it back.  For every file whose contents
    fit the format, [save_index] builds an image, a whole number of 64 KiB
    blocks, and [load_index] of that image gives back the sorted entries, the
    pages of the update section (so the same answer for every key) and the field
    sizes of the header. *)
Theorem index_file_roundtrip id f :
  file_ok f ->
  exists image f', index_image id f = Ret (Ok image) /\ load_index image = Ret (Ok f') /\
    Z.of_nat (length image) mod 65536 = 0 /\
    entries f' = entries f /\ Update.pages (update_section f') = Update.pages (update_section f) /\
    bucket (header f') = id /\ file_ok f'.
Proof.
  intros Hf. pose proof (length_packed _ (ok_entries f Hf)) as Lp. pose proof (ok_size f Hf) as Hsz.
  destruct (index_image_eq id f) as (hh & eh & Hhh & Heh & E); [apply Hf|lia|].
  destruct (loaded_section_pages id hh eh f Hf) as [Hpages Hok].
  eexists _, _. split_and!; [exact E|by apply load_image|..]; try done.
  - unfold image_with. rewrite length_app, length_zeros. by apply (align_up_nat _ 16).
  - destruct Hf. by constructor.
Qed.

(** The two hashes of the guarded blocks are written but never compared:
    with any other values in their place the file loads with the same entries
    and the same update section. *)
Theorem load_index_ignores_hashes id f hh eh :
  file_ok f -> u32 hh -> u32 eh ->
  exists f', load_index (image_with id hh eh f) = Ret (Ok f') /\
    entries f' = entries f /\ Update.pages (update_section f') = Update.pages (update_section f).
Proof.
  intros Hf Hhh Heh. destruct (loaded_section_pages id hh eh f Hf) as [Hpages _].
  eexists. split_and!; [by apply load_image|done|done].
Qed.

Definition sample_header : IndexHeader :=
  {| data_size := 16; data_hash := 0; version := 7; bucket := 3; unused := 0;
     length_size := 4; location_size := 5; key_size := 9; segment_bits := 30 |}.

Definition sample_file : IndexFile :=
  {| file_version := V7; header := sample_header;
     entries := [new [1;2;3;4;5;6;7;8;9] 1 4096 100; new [1;2;3;4;5;6;7;8;10] 1023 0x3FFFFFFF 7];
     update_section := {| Update.pages := [[Update.new (replicate 9 7)
       {| archive_id := 3; archive_offset := 4096 |} 1234 Update.Delete]]; Update.capacity_pages := 12 |} |}.

Lemma sample_file_ok : file_ok sample_file.
Proof.
  constructor; [decide_now|repeat constructor; decide_now|decide_now| |vm_compute; reflexivity].
  constructor; cbn [sample_file update_section Update.pages Update.capacity_pages length]; [|lia..|].
  - constructor; [|constructor]. apply Update.page_single. decide_now.
  - intros i p Hi Hlt. lia.
Qed.

Lemma index_file_roundtrip_witness :
  exists image f', index_image 3 sample_file = Ret (Ok image) /\ load_index image = Ret (Ok f') /\
    Z.of_nat (length image) mod 65536 = 0 /\ entries f' = entries sample_file /\
    Update.pages (update_section f') = Update.pages (update_section sample_file) /\
    bucket (header f') = 3 /\ file_ok f'.
Proof. apply (index_file_roundtrip 3 sample_file), sample_file_ok. Defined.

Lemma load_index_ignores_hashes_witness :
  exists f', load_index (image_with 3 0xDEADBEEF 0 sample_file) = Ret (Ok f') /\
    entries f' = entries sample_file /\
    Update.pages (update_section f') = Update.pages (update_section sample_file).
Proof. apply (load_index_ignores_hashes 3 sample_file 0xDEADBEEF 0); [apply sample_file_ok|decide_now..]. Defined.

(** ** Parsing the entry block *)

(** The rows of [n] bytes of a block. *)
Definition rows (n : nat) (d : bytes) : list bytes :=
  (fun i => slice (i * n) (i * n + n) d) <$> seq 0 (length d / n).

Definition parse_row (r : bytes) : option IndexEntry :=
  if nonzero_key r then match from_packed r with Ok e => Some e | Err _ => None end else None.

Lemma parse_loop_rows n d fuel i :
  (9 <= n)%nat -> (i <= length d / n)%nat -> (length d / n - i < fuel)%nat ->
  parse_loop fuel d n (i * n) =
    Ret (omap parse_row ((fun i => slice (i * n) (i * n + n) d) <$> seq i (length d / n - i))).
Proof.
  intros Hn. revert i. induction fuel as [|fuel IH]; intros i Hi Hf; [lia|]. cbn [parse_loop].
  pose proof (Nat.div_mod (length d) n) as Hdm. pose proof (Nat.mod_upper_bound (length d) n).
  destruct (Nat.leb_spec (i * n + n) (length d)) as [Hle|Hgt].
  - assert (i < length d / n)%nat by nia.
    rewrite length_slice, (proj2 (Nat.ltb_ge _ _)) by lia.
    replace (i * n + n)%nat with (S i * n)%nat by lia. rewrite IH by lia. cbn [mbind outcome_bind].
    replace (length d / n - i)%nat with (S (length d / n - S i)) by lia.
    rewrite <- cons_seq, fmap_cons. cbn [omap list_omap]. unfold parse_row at 2.
    replace (i * n + n)%nat with (S i * n)%nat by lia.
    destruct (nonzero_key _); [|done]. by destruct (from_packed _).
  - assert (i = length d / n)%nat as -> by nia. by rewrite Nat.sub_diag.
Qed.

Lemma parse_entries_rows n d : (9 <= n)%nat -> parse_entries d n = Ret (omap parse_row (rows n d)).
Proof.
  intros Hn. unfold parse_entries. rewrite (parse_loop_rows n d _ 0) by (lia || (pose proof (Nat.Div0.div_le_upper_bound (length d) n (length d)); nia)).
  by rewrite Nat.sub_0_r.
Qed.

(** Parsing an entry block.  With entries of nine bytes or more it reads every
    whole row of the block, keeps those with a key and skips the others, whatever
    the bytes are; with a smaller entry size, which the [u8] sum of three header
    bytes can produce, it panics on the first row. *)
Theorem parse_entries_total_or_panics d n :
  parse_entries d n =
    if (9 <=? n)%nat then Ret (omap parse_row (rows n d))
    else if (n <=? length d)%nat then Panic else Ret [].
Proof.
  destruct (Nat.leb_spec 9 n) as [Hn|Hn]; [by apply parse_entries_rows|].
  unfold parse_entries. cbn [parse_loop]. rewrite Nat.add_0_l.
  destruct (Nat.leb_spec n (length d)); [|done].
  by rewrite length_slice, (proj2 (Nat.ltb_lt _ _)) by lia.
Qed.

(** A corrupt index file that makes the loader panic: 43 bytes, with the field
    sizes 9, 250 and 0, whose [u8] sum is 3. *)
Theorem load_index_panics :
  load_index (guarded_to_bytes {| block_size := 16; block_hash := 0 |} ++
    [7; 0; 0; 0; 0; 250; 9; 30] ++ zeros 8 ++ zeros 8 ++
    guarded_to_bytes {| block_size := 3; block_hash := 0 |} ++ [1; 2; 3]) = Panic.
Proof. vm_compute. reflexivity. Qed.

(** ** The V5 loader *)

Definition v5_row (r : bytes) : option IndexEntry := if nonzero_key r then Some (read_be r) else None.

Lemma v5_loop_rows d fuel i :
  (i <= length d / 18)%nat -> (length d / 18 - i < fuel)%nat ->
  v5_block_loop fuel (i * 18) d =
    omap v5_row ((fun i => slice (i * 18) (i * 18 + 18) d) <$> seq i (length d / 18 - i)).
Proof.
  revert i. induction fuel as [|fuel IH]; intros i Hi Hf; [lia|]. cbn [v5_block_loop].
  unfold V5_ENTRY_SIZE in *. pose proof (Nat.div_mod (length d) 18) as Hdm.
  pose proof (Nat.mod_upper_bound (length d) 18).
  destruct (Nat.leb_spec (i * 18 + 18) (length d)) as [Hle|Hgt].
  - assert (i < length d / 18)%nat by nia.
    replace (i * 18 + 18)%nat with (S i * 18)%nat by lia. rewrite IH by lia.
    replace (length d / 18 - i)%nat with (S (length d / 18 - S i)) by lia.
    rewrite <- cons_seq, fmap_cons. cbn [omap list_omap]. unfold v5_row at 2.
    replace (i * 18 + 18)%nat with (S i * 18)%nat by lia. by destruct (nonzero_key _).
  - assert (i = length d / 18)%nat as -> by nia. by rewrite Nat.sub_diag.
Qed.

Lemma v5_block_rows d : v5_block_loop (S (length d)) 0 d = omap v5_row (rows 18 d).
Proof.
  rewrite (v5_loop_rows d _ 0) by (lia || (pose proof (Nat.Div0.div_le_upper_bound (length d) 18 (length d)); lia)).
  by rewrite Nat.sub_0_r.
Qed.

(** The header of a V5 file, where its fields lie in the file. *)
Definition v5_word (data : bytes) (a n : nat) : Z := from_le_bytes (slice a (a + n) data).
Definition v5_byte (data : bytes) (i : nat) : Z := nth i data 0.

Definition v5_header_of (data : bytes) : IndexHeaderV5 :=
  {| v5_index_version := v5_word data 0 2; v5_bucket_index := v5_byte data 2; v5_padding := v5_byte data 3;
     v5_field_4 := v5_word data 4 4; v5_field_8 := v5_word data 8 8; v5_segment_size := v5_word data 16 8;
     v5_encoded_size_length := v5_byte data 24; v5_storage_offset_length := v5_byte data 25;
     v5_ekey_length := v5_byte data 26; v5_file_offset_bits := v5_byte data 27;
     v5_ekey_count1 := v5_word data 28 4; v5_ekey_count2 := v5_word data 32 4;
     v5_keys_hash1 := v5_word data 36 4; v5_keys_hash2 := v5_word data 40 4; v5_header_hash := v5_word data 44 4 |}.

(** What the header of a V5 file has to say. *)
Record v5_header_ok (data : bytes) : Prop := {
  chk_len : (48 <= length data)%nat;
  chk_version : v5_word data 0 2 = 5;
  chk_field_8 : v5_word data 8 8 <> 0;
  chk_sizes : v5_byte data 24 = 4 /\ v5_byte data 25 = 5 /\ v5_byte data 26 = 9;
  chk_hash : Jenkins.jenkins (copy_at 44 (zeros 4) (take 48 data)) 0 = v5_word data 44 4;
}.

Lemma slice_of_take (data : bytes) n a b : (b <= n)%nat -> slice a b (take n data) = slice a b data.
Proof. intros H. unfold slice. rewrite skipn_firstn_comm, firstn_firstn. f_equal. lia. Qed.

Lemma nth_of_take (data : bytes) n i : (i < n)%nat -> nth i (take n data) 0 = nth i data 0.
Proof.
  intros H. destruct (Nat.lt_ge_cases i (length data)) as [Hi|Hi].
  - destruct (lookup_lt_is_Some_2 data i Hi) as [x Hx]. rewrite (nth_lookup_Some _ _ 0 x Hx). apply nth_lookup_Some. by rewrite lookup_take, decide_True.
  - rewrite !nth_overflow; [done|lia|]. rewrite length_take. lia.
Qed.

(** The header is read exactly when it says so, and then as it lies in the file. *)
Lemma read_v5_spec data :
  exists r, read_v5_index_header data = Ret r /\ (v5_header_ok data -> r = Ok (v5_header_of data)) /\
    (forall h, r = Ok h -> v5_header_ok data /\ h = v5_header_of data).
Proof.
  unfold read_v5_index_header. unfold V5_HEADER_SIZE. destruct (Nat.ltb_spec (length data) 48) as [Hs|Hl].
  { eexists. split; [done|]. split; [intros []; lia|done]. }
  cbv zeta. rewrite !slice_of_take, !nth_of_take by lia. cbn [v5_index_version v5_field_8 v5_encoded_size_length v5_storage_offset_length v5_ekey_length v5_header_hash].
  change {| v5_index_version := _; v5_bucket_index := _; v5_padding := _; v5_field_4 := _; v5_field_8 := _; v5_segment_size := _;
    v5_encoded_size_length := _; v5_storage_offset_length := _; v5_ekey_length := _; v5_file_offset_bits := _; v5_ekey_count1 := _;
    v5_ekey_count2 := _; v5_keys_hash1 := _; v5_keys_hash2 := _; v5_header_hash := _ |} with (v5_header_of data).
  rewrite Jenkins.hashlittle_jenkins. cbn [mbind outcome_bind].
  change (from_le_bytes (slice 0 (0 + 2) data)) with (v5_word data 0 2). change (from_le_bytes (slice 8 (8 + 8) data)) with (v5_word data 8 8).
  change (from_le_bytes (slice 44 (44 + 4) data)) with (v5_word data 44 4). fold (v5_byte data 24) (v5_byte data 25) (v5_byte data 26).
  repeat match goal with |- context [if negb (?x =? ?y) then _ else _] => destruct (Z.eqb_spec x y); cbn [negb]; [|eexists; split; [done|]; split; [intros [? ? ? (? & ? & ?) ?]; done|done]]
  | |- context [if ?x =? ?y then _ else _] => destruct (Z.eqb_spec x y); [eexists; split; [done|]; split; [intros []; done|done]|] end.
  eexists. split; [done|]. split; [done|]. intros h [= <-]. split; [|done]. by constructor.
Qed.

Definition v5_block (data : bytes) (start : nat) (count : Z) : bytes :=
  slice start (start + Z.to_nat count * 18) data.

(** What the blocks of entries have to say. *)
Definition v5_blocks_ok (data : bytes) (h : IndexHeaderV5) : Prop :=
  (48 + (Z.to_nat (v5_ekey_count1 h) + Z.to_nat (v5_ekey_count2 h)) * 18 <= length data)%nat /\
  Jenkins.jenkins (v5_block data 48 (v5_ekey_count1 h)) 0 = v5_keys_hash1 h /\
  Jenkins.jenkins (v5_block data (48 + Z.to_nat (v5_ekey_count1 h) * 18) (v5_ekey_count2 h)) 0 = v5_keys_hash2 h.

Lemma load_v5_entries_spec data h :
  exists r, load_v5_entries data h = Ret r /\ ((exists es, r = Ok es) <-> v5_blocks_ok data h) /\ forall es, r = Ok es ->
    es = omap v5_row (rows 18 (v5_block data 48 (v5_ekey_count1 h)) ++
                      rows 18 (v5_block data (48 + Z.to_nat (v5_ekey_count1 h) * 18) (v5_ekey_count2 h))).
Proof.
  unfold load_v5_entries, v5_blocks_ok, V5_HEADER_SIZE, V5_ENTRY_SIZE. cbv zeta. destruct (Nat.ltb_spec (length data) (48 + Z.to_nat (v5_ekey_count1 h) * 18 + Z.to_nat (v5_ekey_count2 h) * 18)).
  { eexists. split; [done|]. split; [|done]. split; [by intros []|lia]. }
  rewrite !Jenkins.hashlittle_jenkins, !v5_block_rows, <- omap_app. cbn [mbind outcome_bind].
  fold (v5_block data 48 (v5_ekey_count1 h)) (v5_block data (48 + Z.to_nat (v5_ekey_count1 h) * 18) (v5_ekey_count2 h)).
  destruct (Z.eqb_spec (Jenkins.jenkins (v5_block data 48 (v5_ekey_count1 h)) 0) (v5_keys_hash1 h)) as [E1|E1]; cbn [negb].
  2: { eexists. split; [done|]. split; [|done]. split; [by intros []|by intros (_ & ? & _)]. }
  destruct (Z.eqb_spec (Jenkins.jenkins (v5_block data (48 + Z.to_nat (v5_ekey_count1 h) * 18) (v5_ekey_count2 h)) 0) (v5_keys_hash2 h)) as [E2|E2]; cbn [negb].
  2: { eexists. split; [done|]. split; [|done]. split; [by intros []|by intros (_ & _ & ?)]. }
  eexists. split; [done|]. split; [|by intros es [= <-]]. split; [|by eexists]. intros _. split_and!; [lia|done|done].
Qed.

(** C34: the V5 loader never panics, and accepts a file exactly when the bytes where the
    header lies give version 5, a non-zero field 8 and the field sizes 4, 5 and 9, match
    the Jenkins hash stored behind them, announce no more entries than the file has, and
    both blocks of entries match the hashes the header stores for them.  It then holds the
    sizes and the bucket of the header, every row of the two blocks with a key, sorted,
    and an empty update section. *)
Theorem load_v5_checked data :
  let h := v5_header_of data in
  exists r, load_v5_index data = Ret r /\
    ((exists f, r = Ok f) <-> v5_header_ok data /\ v5_blocks_ok data h) /\
    forall f, r = Ok f ->
      file_version f = V5 /\
      header f = {| data_size := 0; data_hash := 0; version := 5; bucket := v5_byte data 2; unused := 0;
                    length_size := 4; location_size := 5; key_size := 9; segment_bits := v5_byte data 27 |} /\
      sorted_by key (entries f) /\
      entries f ≡ₚ omap v5_row (rows 18 (v5_block data 48 (v5_ekey_count1 h)) ++
                                rows 18 (v5_block data (48 + Z.to_nat (v5_ekey_count1 h) * 18) (v5_ekey_count2 h))) /\
      update_section f = Update.section_new.
Proof.
  intros h. unfold load_v5_index. destruct (read_v5_spec data) as ([h'|e] & -> & Hok & Hc); cbn [try_bind].
  2: { eexists. split; [done|]. split; [|done]. split; [by intros []|]. intros [Hh _]. by apply Hok in Hh. }
  destruct (Hc h' eq_refl) as [Hh ->]. destruct (load_v5_entries_spec data (v5_header_of data)) as ([es|e] & -> & Hb & He); cbn [try_bind].
  2: { eexists. split; [done|]. split; [|done]. split; [by intros []|]. intros [_ [? ?]%Hb]. done. }
  eexists. split; [done|]. split; [split; [|by eexists]; intros _; split; [done|apply Hb; by eexists]|]. intros f [= <-].
  rewrite (He es eq_refl). cbn [file_version header entries update_section]. destruct (chk_sizes data Hh) as (E1 & E2 & E3).
  split; [done|]. split; [|split_and!; [apply sort_by_key_sorted|apply sort_by_key_perm|done]].
  cbn [v5_header_of v5_bucket_index v5_encoded_size_length v5_storage_offset_length v5_ekey_length v5_file_offset_bits]. by rewrite E1, E2, E3.
Qed.

(** ** File names *)

Lemma radix_hex acc bs :
  is_bytes bs -> radix_digits acc (concat (map hex_byte bs)) = Some (acc * 256 ^ Z.of_nat (length bs) + from_be_bytes bs).
Proof.
  intros Hb. revert acc. induction Hb as [|b bs Hb Hbs IH]; intros acc.
  - simpl. f_equal. change (from_be_bytes []) with 0. lia.
  - cbn [map concat hex_byte app radix_digits]. unfold in_u in Hb.
    rewrite !digit_val_hex_digit by (pose proof (Z.div_mod b 16); pose proof (Z.mod_pos_bound b 16); lia).
    rewrite IH. f_equal. unfold from_be_bytes. rewrite reverse_cons, from_le_bytes_app, length_reverse.
    cbn [length from_le_bytes]. rewrite Nat2Z.inj_succ, Z.pow_succ_r by lia.
    pose proof (Z.div_mod b 16). nia.
Qed.

Lemma hex_digit_range d : 0 <= d < 16 -> 48 <= hex_digit d < 128.
Proof. intros H. unfold hex_digit. destruct (Z.ltb_spec d 10); lia. Qed.

Lemma hex_be_chars n v : Forall (fun c => 48 <= c < 128) (hex_be n v).
Proof.
  unfold hex_be. apply Forall_concat, Forall_map. eapply Forall_impl; [apply to_be_bytes_bytes|].
  intros b Hb. unfold in_u in Hb. unfold hex_byte. pose proof (Z.mod_pos_bound b 16).
  pose proof (Z.div_mod b 16). apply Forall_cons_2; [|apply Forall_cons_2; [|constructor]];
    apply hex_digit_range; lia.
Qed.

Lemma hex_be_length n v : length (hex_be n v) = (2 * n)%nat.
Proof.
  unfold hex_be. rewrite (length_concat_blocks 2), length_map, length_to_be_bytes; [lia|].
  apply Forall_map, Forall_true. done.
Qed.

Lemma from_str_radix_hex n w v :
  w = 8 * Z.of_nat n -> (0 < n)%nat -> in_u w v -> from_str_radix16 (hex_be n v) = Some v.
Proof.
  intros Hw Hn Hv. pose proof (radix_hex 0 (to_be_bytes n v) (to_be_bytes_bytes n v)) as H.
  rewrite (be_roundtrip n w v Hw Hv), Z.mul_0_l, Z.add_0_l in H.
  change (concat (map hex_byte (to_be_bytes n v))) with (hex_be n v) in H.
  pose proof (hex_be_length n v) as L. pose proof (hex_be_chars n v) as Hc. revert H L Hc.
  generalize (hex_be n v). intros [|c [|c' s]] H L Hc; simpl in L; [lia|lia|].
  apply Forall_cons in Hc as [Hc _]. cbn [from_str_radix16]. by rewrite (proj2 (Z.eqb_neq c 43)) by lia.
Qed.

Definition is_ascii (s : bytes) : Prop := Forall (fun c => 0 <= c < 128) s.

Lemma ascii_boundary s i : is_ascii s -> (i <= length s)%nat -> is_char_boundary s i = true.
Proof.
  intros Hs Hi. unfold is_char_boundary. destruct (Nat.eqb_spec i (length s)); [done|].
  destruct (lookup_lt_is_Some_2 s i ltac:(lia)) as [c Hc]. rewrite Hc.
  apply (Forall_lookup_1 _ _ _ _ Hs) in Hc. unfold is_cont, in_rng. by rewrite (proj2 (Z.leb_gt 128 c)) by lia.
Qed.

Lemma str_slice_ascii a b s :
  is_ascii s -> (a <= length s)%nat -> (b <= length s)%nat -> str_slice a b s = Ret (slice a b s).
Proof. intros Hs Ha Hb. unfold str_slice. by rewrite !ascii_boundary. Qed.

Lemma hex_be_ascii n v : is_ascii (hex_be n v).
Proof. eapply Forall_impl; [apply hex_be_chars|]. simpl. lia. Qed.

Lemma generated_ascii b v : is_ascii (generate_index_filename b v).
Proof.
  apply Forall_app. split; [apply hex_be_ascii|]. apply Forall_app. split; [apply hex_be_ascii|].
  unfold is_ascii. decide_now.
Qed.

Lemma parse_generated b v :
  u8 b -> u32 v -> parse_index_filename (generate_index_filename b v) = Ret (Some (b, v)).
Proof.
  intros Hb Hv. unfold parse_index_filename.
  pose proof (generated_ascii b v) as Ha.
  pose proof (hex_be_length 1 b) as L1. pose proof (hex_be_length 4 v) as L4. change (2 * 1)%nat with 2%nat in L1. change (2 * 4)%nat with 8%nat in L4.
  assert (length (generate_index_filename b v) = 14%nat) as L.
  { unfold generate_index_filename. by rewrite !length_app, L1, L4. }
  assert (drop 10 (generate_index_filename b v) = [46; 105; 100; 120]) as Ed.
  { unfold generate_index_filename. rewrite app_assoc.
    replace 10%nat with (length (hex_be 1 b ++ hex_be 4 v)) by by rewrite length_app, L1, L4.
    apply drop_app_length. }
  rewrite L, Ed. cbn -[str_slice generate_index_filename].
  rewrite !str_slice_ascii by (done || lia). cbn [mbind outcome_bind].
  assert (slice 0 2 (generate_index_filename b v) = hex_be 1 b) as ->.
  { unfold generate_index_filename. by rewrite slice_app_exact. }
  rewrite (from_str_radix_hex 1 8) by (done || lia).
  assert (slice 2 10 (generate_index_filename b v) = hex_be 4 v) as ->.
  { unfold generate_index_filename. rewrite slice_app_r by lia. rewrite L1. cbn [Nat.sub].
    by rewrite slice_app_exact. }
  by rewrite (from_str_radix_hex 4 32) by (done || lia).
Qed.

Lemma parse_index_ascii name : is_ascii name -> exists r, parse_index_filename name = Ret r.
Proof.
  intros Ha. unfold parse_index_filename. destruct (negb _ || negb _) eqn:E; [eauto|].
  apply orb_false_iff in E as [L%negb_false_iff%Nat.eqb_eq _].
  rewrite !str_slice_ascii by (done || lia). cbn [mbind outcome_bind]. repeat case_match; eauto.
Qed.

Lemma parse_v5_ascii name : is_ascii name -> exists r, parse_v5_index_filename name = Ret r.
Proof.
  intros Ha. unfold parse_v5_index_filename. destruct (negb _); [eauto|].
  destruct (negb (length (drop 6 name) =? 2)%nat) eqn:L; [eauto|]. apply negb_false_iff, Nat.eqb_eq in L.
  rewrite !str_slice_ascii by (by apply Forall_drop || lia). cbn [mbind outcome_bind].
  repeat case_match; eauto.
Qed.

(** The name of an index file parses back to its bucket and version. *)
Theorem index_filename_roundtrip b v :
  u8 b -> u32 v -> parse_index_filename (generate_index_filename b v) = Ret (Some (b, v)).
Proof. apply parse_generated. Qed.

Lemma index_filename_roundtrip_witness :
  parse_index_filename (generate_index_filename 10 0xDEADBEEF) = Ret (Some (10, 0xDEADBEEF)).
Proof. apply index_filename_roundtrip; decide_now. Defined.

(** A name of ASCII characters never panics the two parsers; there are UTF-8
    names, of the right length and extension, that do, since both slice the name
    by bytes. *)
Theorem filename_parsers_panic_only_off_ascii :
  (forall name, is_ascii name ->
     exists r r', parse_index_filename name = Ret r /\ parse_v5_index_filename name = Ret r') /\
  (exists name, utf8_valid name = true /\ parse_index_filename name = Panic) /\
  (exists name, utf8_valid name = true /\ parse_index_filename name = Ret None /\
     parse_v5_index_filename name = Panic).
Proof.
  split_and!.
  - intros name Ha. destruct (parse_index_ascii name Ha) as [r Hr].
    destruct (parse_v5_ascii name Ha) as [r' Hr']. eauto.
  - exists [48; 195; 169; 48; 48; 48; 48; 48; 48; 48; 46; 105; 100; 120]. by vm_compute.
  - exists [100; 97; 116; 97; 46; 105; 195; 169]. by vm_compute.
Qed.

(** A V5 file the loader accepts: two entries, one in each block. *)
Definition sample_v5 : bytes :=
  let row1 := to_packed (new [9;8;7;6;5;4;3;2;1] 1 4096 100) in
  let row2 := to_packed (new [1;2;3;4;5;6;7;8;9] 2 8192 200) in
  let hd := [5; 0; 3; 0] ++ zeros 4 ++ to_le_bytes 8 1 ++ to_le_bytes 8 0x40000000 ++ [4; 5; 9; 30] ++
    to_le_bytes 4 1 ++ to_le_bytes 4 1 ++ to_le_bytes 4 (Jenkins.jenkins row1 0) ++
    to_le_bytes 4 (Jenkins.jenkins row2 0) in
  hd ++ to_le_bytes 4 (Jenkins.jenkins (hd ++ zeros 4) 0) ++ row1 ++ row2.

Example load_v5_sample :
  match load_v5_index sample_v5 with
  | Ret (Ok f) => entries f = [new [1;2;3;4;5;6;7;8;9] 2 8192 200; new [9;8;7;6;5;4;3;2;1] 1 4096 100]
  | _ => False
  end.
Proof. vm_compute. reflexivity. Qed.
