(* ===== verification/Index.v ===== *)
(** * The index manager: crates/cascette-client-storage/src/index/mod.rs

    Up to sixteen index files by bucket, each a sorted section and an update
    section in front of it: lookup, insertion (with the flush of a full update
    section), tombstones, the merge, the atomic save and the load of a
    directory.  The directory is a [disk]; which system calls fail is the
    argument [io].  [search_both_sections] is the view of a bucket that the
    theorems are about. *)

From S2P Require Import Prelude Bytes Disk Jenkins Collections Pages IndexEntry UpdateSection IndexFile.
Import Entry IndexFile.
Local Open Scope Z_scope.

Module Index.

(** Which system calls fail.  [save_index] makes three attempts; a failed write
    may leave a partial temporary file. *)
Record Io := {
  write_ok : nat -> bool;
  partial : nat -> option bytes;
  rename_ok : nat -> bool;
  remove_ok : nat -> bool;
  read_dir_ok : bool;
  next_entry_ok : bytes -> bool;
  read_file_ok : bytes -> bool;
}.

Record IndexManager := { indices : list (Z * IndexFile) }.

Definition manager_new : IndexManager := {| indices := [] |}.

(** ** Lookup *)

Definition get_bucket_index (key : bytes) : Z :=
  if (length key <? 9)%nat then 0
  else
    let hash := fold_left Z.lxor (take 8 (drop 1 key)) (nth 0 key 0) in
    Z.lxor (Z.land hash 0x0F) (Z.shiftr hash 4).

Definition bucket_for_key (key : bytes) : Z := get_bucket_index key.

(** [search_key[..9.min(len)].copy_from_slice(..)] into nine zeros. *)
Definition truncate_key (key : bytes) : bytes := copy_at 0 (take (Nat.min 9 (length key)) key) (zeros 9).

Definition search_both_sections (index : IndexFile) (search_key : bytes) : option IndexEntry :=
  match Update.search (update_section index) search_key with
  | Some update_entry =>
      if bool_decide (Update.status update_entry = Update.Delete) then None
      else Some (Update.to_index_entry update_entry)
  | None => search key (entries index) search_key
  end.

Definition lookup (m : IndexManager) (key : bytes) : option IndexEntry :=
  match bt_get (get_bucket_index key) (indices m) with
  | Some index => search_both_sections index (truncate_key key)
  | None => None
  end.

Definition lookup_by_content_key (m : IndexManager) (key : bytes) : option IndexEntry := lookup m key.

Definition has_entry (m : IndexManager) (key : bytes) : bool := bool_decide (is_Some (lookup m key)).

(** ** Saving *)

(** One attempt of the loop of [save_index]; [None] is success. *)
Definition save_attempt (io : Io) (attempt : nat) (temp name image : bytes) (d : disk) : option string * disk :=
  let failed e d := (Some e, if remove_ok io attempt then disk_remove d temp else d) in
  if write_ok io attempt then
    let d := disk_write d temp image in
    if rename_ok io attempt then (None, disk_write (disk_remove d temp) name image)
    else failed "Failed to rename temp file" d
  else
    failed "Failed to write temp file"
      (match partial io attempt with Some p => disk_write d temp p | None => d end).

Fixpoint save_attempts (io : Io) (attempts : list nat) (temp name image : bytes) (d : disk) :
    result StorageError unit * disk :=
  match attempts with
  | [] => (Err (IndexError "Failed to save index after 3 attempts"), d)
  | a :: attempts =>
      match save_attempt io a temp name image d with
      | (None, d) => (Ok tt, d)
      | (Some _, d) => save_attempts io attempts temp name image d
      end
  end.

(** [save_index] to [generate_index_filename(id, 1)]. *)
Definition save_index (io : Io) (id : Z) (index : IndexFile) (d : disk) :
    outcome (result StorageError unit * disk) :=
  r ← index_image id index;
  match r with
  | Err e => Ret (Err e, d)
  | Ok image =>
      Ret (save_attempts io [0; 1; 2]%nat (temp_filename id 1) (generate_index_filename id 1) image d)
  end.

Fixpoint save_list (io : Io) (l : list (Z * IndexFile)) (d : disk) : outcome (result StorageError unit * disk) :=
  match l with
  | [] => Ret (Ok tt, d)
  | (id, index) :: l =>
      '(r, d) ← save_index io id index d;
      match r with Ok _ => save_list io l d | Err e => Ret (Err e, d) end
  end.

Definition save_all (io : Io) (m : IndexManager) (d : disk) : outcome (result StorageError unit * disk) :=
  save_list io (indices m) d.

(** ** The merge of the update section *)

Definition updates_of (index : IndexFile) : list (bytes * Update.UpdateEntry) :=
  bt_extend [] (Update.keyed (Update.all_entries (update_section index))).

(** [while sorted_idx < len && entries[sorted_idx].key < *update_key]; the list is
    what is left of the sorted section. *)
Fixpoint take_below (k : bytes) (es : list IndexEntry) : list IndexEntry * list IndexEntry :=
  match es with
  | [] => ([], [])
  | e :: es' =>
      match kcmp (key e) k with
      | Lt => let '(a, b) := take_below k es' in (e :: a, b)
      | _ => ([], es)
      end
  end.

Definition skip_match (k : bytes) (es : list IndexEntry) : list IndexEntry :=
  match es with
  | e :: es' => if bool_decide (key e = k) then es' else es
  | [] => []
  end.

Fixpoint merge (updates : list (bytes * Update.UpdateEntry)) (es : list IndexEntry) : list IndexEntry :=
  match updates with
  | [] => es
  | (update_key, update_entry) :: updates =>
      let '(below, es) := take_below update_key es in
      let es := skip_match update_key es in
      let here := if bool_decide (Update.status update_entry = Update.Delete) then []
                  else [Update.to_index_entry update_entry] in
      below ++ here ++ merge updates es
  end.

Definition flushed (index : IndexFile) : IndexFile :=
  {| file_version := file_version index; header := header index;
     entries := merge (updates_of index) (entries index);
     update_section := Update.clear (update_section index) |}.

Definition set_index (m : IndexManager) (id : Z) (index : IndexFile) : IndexManager :=
  {| indices := bt_insert id index (indices m) |}.

Definition flush_updates_for_bucket (io : Io) (bucket : Z) (m : IndexManager) (d : disk) :
    outcome (result StorageError unit * IndexManager * disk) :=
  match bt_get bucket (indices m) with
  | None => Ret (Ok tt, m, d)
  | Some index =>
      if (Update.entry_count (update_section index) =? 0)%nat then Ret (Ok tt, m, d)
      else
        let index := flushed index in
        '(r, d) ← save_index io bucket index d;
        Ret (r, set_index m bucket index, d)
  end.

Fixpoint flush_list (io : Io) (buckets : list Z) (m : IndexManager) (d : disk) :
    outcome (result StorageError unit * IndexManager * disk) :=
  match buckets with
  | [] => Ret (Ok tt, m, d)
  | b :: buckets =>
      '(r, m, d) ← flush_updates_for_bucket io b m d;
      match r with Ok _ => flush_list io buckets m d | Err e => Ret (Err e, m, d) end
  end.

Definition flush_all_updates (io : Io) (m : IndexManager) (d : disk) :
    outcome (result StorageError unit * IndexManager * disk) :=
  flush_list io (indices m).*1 m d.

(** ** Mutation *)

Definition new_bucket (index_id : Z) : IndexFile :=
  {| file_version := V7;
     header := {| data_size := 16; data_hash := 0; version := 7; bucket := index_id; unused := 0;
                  length_size := 4; location_size := 5; key_size := 9; segment_bits := 30 |};
     entries := []; update_section := Update.section_new |}.

Definition with_section (index : IndexFile) (s : Update.UpdateSection) : IndexFile :=
  {| file_version := file_version index; header := header index; entries := entries index;
     update_section := s |}.

(** [index.update_section.append(entry)] on the bucket in place. *)
Definition append_to (m : IndexManager) (id : Z) (index : IndexFile) (e : Update.UpdateEntry) : bool * IndexManager :=
  let '(ok, s) := Update.append (update_section index) e in
  (ok, set_index m id (with_section index s)).

Definition add_entry (io : Io) (m : IndexManager) (key : bytes) (archive_id archive_offset size : Z) (d : disk) :
    outcome (result StorageError unit * IndexManager * disk) :=
  let index_id := get_bucket_index key in
  let m :=
    match bt_get index_id (indices m) with
    | Some _ => m
    | None => set_index m index_id (new_bucket index_id)
    end in
  let entry := Update.new (truncate_key key)
    {| archive_id := archive_id; archive_offset := archive_offset |} size Update.Normal in
  match bt_get index_id (indices m) with
  | None => Panic
  | Some index =>
      let '(ok, m1) := append_to m index_id index entry in
      if ok then Ret (Ok tt, m1, d)
      else
        '(r, m, d) ← flush_updates_for_bucket io index_id m1 d;
        match r with
        | Err e => Ret (Err e, m, d)
        | Ok _ =>
            match bt_get index_id (indices m) with
            | None => Panic
            | Some index =>
                let '(ok, m) := append_to m index_id index entry in
                if ok then Ret (Ok tt, m, d)
                else Ret (Err (IndexError "update section full after flush"), m, d)
            end
        end
  end.

Definition remove_entry (m : IndexManager) (key : bytes) : bool * IndexManager :=
  match lookup m key with
  | None => (false, m)
  | Some entry =>
      let index_id := get_bucket_index key in
      match bt_get index_id (indices m) with
      | Some index =>
          let tombstone := Update.new (truncate_key key) (archive_location entry) (size entry) Update.Delete in
          let '(_, m) := append_to m index_id index tombstone in (true, m)
      | None => (false, m)
      end
  end.

Definition update_entry (m : IndexManager) (key : bytes) (archive_id archive_offset size : Z) : bool * IndexManager :=
  match lookup m key with
  | None => (false, m)
  | Some _ =>
      let index_id := get_bucket_index key in
      match bt_get index_id (indices m) with
      | Some index =>
          append_to m index_id index (Update.new (truncate_key key)
            {| archive_id := archive_id; archive_offset := archive_offset |} size Update.Normal)
      | None => (false, m)
      end
  end.

Definition update_entry_status (m : IndexManager) (key : bytes) (status : Update.UpdateStatus) : bool * IndexManager :=
  match lookup m key with
  | None => (false, m)
  | Some entry =>
      let index_id := get_bucket_index key in
      match bt_get index_id (indices m) with
      | Some index =>
          append_to m index_id index
            (Update.new (truncate_key key) (archive_location entry) (size entry) status)
      | None => (false, m)
      end
  end.

Definition cleared (index : IndexFile) : IndexFile :=
  {| file_version := file_version index; header := header index; entries := [];
     update_section := Update.clear (update_section index) |}.

Definition clear (m : IndexManager) : IndexManager :=
  {| indices := (fun '(id, index) => (id, cleared index)) <$> indices m |}.

Definition clear_bucket (m : IndexManager) (bucket : Z) : nat * IndexManager :=
  match bt_get bucket (indices m) with
  | Some index =>
      ((length (entries index) + Update.entry_count (update_section index))%nat,
       set_index m bucket (cleared index))
  | None => (0%nat, m)
  end.

(** ** Enumeration and counts *)

(** The merged view of one bucket: a [BTreeMap<[u8; 9], Option<IndexEntry>>]. *)
Definition merged_view (index : IndexFile) : list (bytes * option IndexEntry) :=
  let merged := bt_extend [] ((fun e => (key e, Some e)) <$> entries index) in
  bt_extend merged
    ((fun u => (Update.ekey u,
        if bool_decide (Update.status u = Update.Delete) then None
        else Some (Update.to_index_entry u))) <$> Update.all_entries (update_section index)).

Definition bucket_entries (index : IndexFile) : list IndexEntry := omap id (merged_view index).*2.

Definition iter_entries (m : IndexManager) : list (Z * IndexEntry) :=
  '(bucket, index) ← indices m; pair bucket <$> bucket_entries index.

Definition entry_count (m : IndexManager) : nat := length (iter_entries m).

Definition bucket_count (m : IndexManager) : nat := length (indices m).

Definition bucket_entry_count (m : IndexManager) (bucket : Z) : nat :=
  match bt_get bucket (indices m) with
  | Some index => (length (entries index) + Update.entry_count (update_section index))%nat
  | None => 0%nat
  end.

Definition loaded_buckets (m : IndexManager) : list Z := (indices m).*1.

Record IndexStats := { index_count : nat; total_entries : nat }.

Definition stats (m : IndexManager) : IndexStats :=
  {| index_count := length (indices m);
     total_entries := sum_list ((fun p => length (entries (snd p))) <$> indices m) |}.

(** ** Loading a directory *)

(** [self.load_index(bucket, &path)]; on an error the manager is as it was. *)
Definition load_file (io : Io) (err : string) (load : bytes -> outcome (result StorageError IndexFile))
    (bucket : Z) (file : bytes * bytes) (m : IndexManager) : outcome (result StorageError unit * IndexManager) :=
  if read_file_ok io (fst file) then
    r ← load (snd file);
    match r with
    | Ok index => Ret (Ok tt, set_index m bucket index)
    | Err e => Ret (Err e, m)
    end
  else Ret (Err (IndexError err), m).

(** The body of the loop of [load_all], for one directory entry. *)
Definition load_dir_entry (io : Io) (file : bytes * bytes) (m : IndexManager) :
    outcome (result StorageError unit * IndexManager) :=
  if utf8_valid (fst file) then
    p ← parse_index_filename (fst file);
    match p with
    | Some (bucket, _) => load_file io "Failed to open index" load_index bucket file m
    | None =>
        p ← parse_v5_index_filename (fst file);
        match p with
        | Some (bucket, _) => load_file io "Failed to read V5 index" load_v5_index bucket file m
        | None => Ret (Ok tt, m)
        end
    end
  else Ret (Ok tt, m).

Fixpoint load_files (io : Io) (d : disk) (m : IndexManager) : outcome (result StorageError unit * IndexManager) :=
  match d with
  | [] => Ret (Ok tt, m)
  | file :: d =>
      if next_entry_ok io (fst file) then
        '(r, m) ← load_dir_entry io file m;
        match r with Ok _ => load_files io d m | Err e => Ret (Err e, m) end
      else Ret (Err (IndexError "Failed to read entry"), m)
  end.

Definition load_all (io : Io) (m : IndexManager) (d : disk) : outcome (result StorageError unit * IndexManager) :=
  if read_dir_ok io then load_files io d m else Ret (Err (IndexError "Failed to read directory"), m).

End Index.
