(* ===== verification/IndexMerge.v ===== *)
(** * The view of a bucket

    [search_both_sections] as a finite map: the merge of the update section into
    the sorted section and the enumeration of a bucket agree with it. *)

From S2P Require Import Prelude Bytes Disk Jenkins Collections Pages IndexEntry UpdateSection IndexFile Index.
Import Entry IndexFile Index.
Local Open Scope Z_scope.

(** What an update entry says about its key. *)
Definition visible (u : Update.UpdateEntry) : option IndexEntry :=
  if bool_decide (Update.status u = Update.Delete) then None else Some (Update.to_index_entry u).

(** ** One step of the merge *)

Lemma take_below_app k es : let '(a, b) := take_below k es in es = a ++ b.
Proof.
  induction es as [|e es IH]; simpl; [done|]. destruct (lex_compare (key e) k); try done.
  destruct (take_below k es). by subst es.
Qed.

Lemma take_below_spec k es below rest :
  strictly_sorted key es -> take_below k es = (below, rest) ->
  es = below ++ rest /\ (forall x, x ∈ below -> klt (key x) k) /\ (forall x, x ∈ rest -> kle k (key x)).
Proof.
  unfold strictly_sorted. intros Hs. revert below rest.
  induction Hs as [|e es Hs IH Hall]; simpl; intros below rest E.
  - simplify_eq. split_and!; [done|by intros x ?%elem_of_nil..].
  - destruct (lex_compare (key e) k) eqn:C.
    2: { destruct (take_below k es) as [a b] eqn:E'. simplify_eq.
         destruct (IH a rest eq_refl) as (-> & Ha & Hb). split_and!; [done| |done].
         intros x [->|]%elem_of_cons; [done|auto]. }
    all: simplify_eq; split_and!; [done|by intros x ?%elem_of_nil|].
    all: assert (kle k (key e)) as Hk by
      (first [apply lex_compare_eq in C; rewrite C; apply kle_cases; by right
             |apply kle_cases; left; by apply kcmp_gt]).
    all: intros x [->|Hx]%elem_of_cons; [done|].
    all: apply kle_cases; left; eapply kle_klt_trans; [done|].
    all: by apply (proj1 (Forall_forall _ _) Hall).
Qed.

Lemma skip_match_elem k rest x :
  strictly_sorted key rest -> (forall x, x ∈ rest -> kle k (key x)) ->
  x ∈ skip_match k rest <-> x ∈ rest /\ klt k (key x).
Proof.
  unfold strictly_sorted. intros Hs Hk. destruct Hs as [|e es Hs Hall]; simpl; [set_solver|].
  rewrite Forall_forall in Hall. rewrite elem_of_cons. case_bool_decide as He.
  - subst k. split; [intros Hx; split; [by right|by apply Hall]|].
    intros [[->|] Hlt]; [by apply klt_irrefl in Hlt|done].
  - assert (klt k (key e)) as Hke.
    { destruct (proj1 (kle_cases k (key e)) (Hk e ltac:(left))) as [|E]; [done|congruence]. }
    rewrite elem_of_cons. split; [|tauto]. intros [->|Hx]; [by split; [left|]|].
    split; [by right|]. eapply klt_trans; [done|by apply Hall].
Qed.

Lemma skip_match_sorted k rest : strictly_sorted key rest -> strictly_sorted key (skip_match k rest).
Proof. destruct 1; simpl; [constructor|]. case_bool_decide; [done|by constructor]. Qed.

(** ** The merge *)

Definition keyed_ok (us : list (bytes * Update.UpdateEntry)) : Prop :=
  forall k u, (k, u) ∈ us -> Update.ekey u = k.

(** An entry comes from the newest update of its key, or from the sorted section
    if its key has none. *)
Definition from_sources (us : list (bytes * Update.UpdateEntry)) (es : list IndexEntry) (x : IndexEntry) : Prop :=
  (exists u, (key x, u) ∈ us /\ visible u = Some x) \/ (x ∈ es /\ key x ∉ us.*1).

Lemma merge_elem us es x :
  bt_sorted us -> keyed_ok us -> strictly_sorted key es ->
  x ∈ merge us es <-> from_sources us es x.
Proof.
  unfold from_sources. revert es. induction us as [|[k u] us IH]; intros es Hus Hk Hes; simpl.
  { split; [intros Hx; right; split; [done|apply not_elem_of_nil]|].
    intros [(u & []%elem_of_nil & _)|[? _]]; done. }
  destruct (take_below k es) as [below rest] eqn:E.
  destruct (take_below_spec k es below rest Hes E) as (-> & Hb & Hr).
  unfold strictly_sorted in Hes. apply StronglySorted_app in Hes as (Hbr & Hsb & Hsr).
  apply StronglySorted_cons in Hus as [Hall Hus]. rewrite Forall_forall in Hall.
  assert (keyed_ok us) as Hk' by (intros k' u' Hin; apply Hk; by right).
  rewrite !elem_of_app, (IH _ Hus Hk' (skip_match_sorted k rest Hsr)), skip_match_elem by done.
  assert (Hxu : forall u', (key x, u') ∈ us -> klt k (key x)).
  { intros u' Hin. apply Hall, list_elem_of_fmap. by exists (key x, u'). }
  assert (Hhere : x ∈ (if bool_decide (Update.status u = Update.Delete) then []
      else [Update.to_index_entry u]) <-> visible u = Some x).
  { unfold visible. case_bool_decide; [set_solver|]. rewrite list_elem_of_singleton. naive_solver. }
  rewrite Hhere, not_elem_of_cons. setoid_rewrite elem_of_cons. split.
  - intros [Hx|[Hx|[(u' & Hin & Hv)|((Hx & Hlt) & Hnot)]]].
    + right. split; [by left|]. split; [by apply klt_ne, Hb|].
      intros Hin. apply (klt_irrefl k). eapply klt_trans; [by apply Hall|by apply Hb].
    + left. exists u. split; [left|done]. f_equal. unfold visible in Hx.
      case_bool_decide; simplify_eq. apply (Hk k u). by left.
    + left. eauto.
    + right. split; [by right|]. split; [|done]. intros E'. rewrite E' in Hlt. by apply klt_irrefl in Hlt.
  - intros [(u' & [?|Hin] & Hv)|[[Hx|Hx] [Hne Hnot]]]; simplify_eq; eauto 6.
    right. right. right. split; [|done]. split; [done|].
    destruct (proj1 (kle_cases k (key x)) (Hr x Hx)); [done|congruence].
Qed.

Lemma merge_sorted us es :
  bt_sorted us -> keyed_ok us -> strictly_sorted key es -> strictly_sorted key (merge us es).
Proof.
  revert es. induction us as [|[k u] us IH]; intros es Hus Hk Hes; simpl; [done|].
  destruct (take_below k es) as [below rest] eqn:E.
  destruct (take_below_spec k es below rest Hes E) as (-> & Hb & Hr).
  unfold strictly_sorted in *. apply StronglySorted_app in Hes as (Hbr & Hsb & Hsr).
  apply StronglySorted_cons in Hus as [Hall Hus]. rewrite Forall_forall in Hall.
  assert (keyed_ok us) as Hk' by (intros k' u' Hin; apply Hk; by right).
  pose proof (skip_match_sorted k rest Hsr) as Hss.
  assert (Hup : forall x, x ∈ merge us (skip_match k rest) -> klt k (key x)).
  { intros x Hx. apply (merge_elem _ _ _ Hus Hk' Hss) in Hx as [(u' & Hin & _)|[Hx _]].
    - apply Hall, list_elem_of_fmap. by exists (key x, u').
    - by apply skip_match_elem in Hx as [_ ?]. }
  assert (Hat : forall x, x ∈ (if bool_decide (Update.status u = Update.Delete) then []
      else [Update.to_index_entry u]) -> key x = k).
  { intros x. case_bool_decide; [by intros ?%elem_of_nil|].
    intros ->%list_elem_of_singleton. apply (Hk k u). by left. }
  apply StronglySorted_app. split_and!; [|done|apply StronglySorted_app; split_and!].
  - intros x y Hx [Hy|Hy]%elem_of_app; [rewrite (Hat y Hy); by apply Hb|].
    eapply klt_trans; [by apply Hb|by apply Hup].
  - intros x y Hx Hy. rewrite (Hat x Hx). by apply Hup.
  - case_bool_decide; repeat constructor.
  - by apply IH.
Qed.

(** Searching the merged section is searching the updates, then the sorted section. *)
Lemma merge_search us es k :
  bt_sorted us -> keyed_ok us -> strictly_sorted key es ->
  search key (merge us es) k =
    match bt_get k us with Some u => visible u | None => search key es k end.
Proof.
  intros Hus Hk Hes. pose proof (merge_sorted us es Hus Hk Hes) as Hm.
  assert (Hkey : forall u x, (k, u) ∈ us -> visible u = Some x -> key x = k).
  { intros u x Hin Hv. unfold visible in Hv. case_bool_decide; simplify_eq. by apply (Hk k u). }
  destruct (bt_get k us) as [u|] eqn:Eu.
  - apply bt_get_In in Eu; [|done]. destruct (visible u) as [x|] eqn:Ev.
    + apply search_Some; [done|]. pose proof (Hkey u x Eu Ev) as <-. split; [|done].
      apply merge_elem; [done..|]. left. eauto.
    + apply search_None; [done|]. intros x Hx <-.
      apply merge_elem in Hx as [(u' & Hin & Hv)|[_ Hnot]]; [| |done..].
      * apply (bt_get_In _ _ us Hus) in Hin, Eu. congruence.
      * apply Hnot, list_elem_of_fmap. by exists (key x, u).
  - assert (Hnone : forall u, (k, u) ∉ us).
    { intros u Hin. apply bt_get_In in Hin; [congruence|done]. }
    destruct (search key es k) as [x|] eqn:Es.
    + apply search_Some in Es as [Hx <-]; [|done]. apply search_Some; [done|]. split; [|done].
      apply merge_elem; [done..|]. right. split; [done|].
      intros ([k' u] & Hk' & Hin)%list_elem_of_fmap. simpl in Hk'. subst. by eapply Hnone.
    + pose proof (proj1 (search_None key _ _ Hes) Es) as Hno. apply search_None; [done|].
      intros x Hx <-. apply merge_elem in Hx as [(u & Hin & _)|[Hx _]]; [| |done..].
      * by eapply Hnone.
      * by apply (Hno x Hx).
Qed.

(** ** The updates of a bucket *)

Lemma updates_sorted index : bt_sorted (updates_of index).
Proof. apply bt_extend_sorted. constructor. Qed.

Lemma updates_keyed index : keyed_ok (updates_of index).
Proof.
  intros k u [[]%elem_of_nil|Hin]%bt_extend_elem.
  apply list_elem_of_fmap in Hin as (u' & E & _). by simplify_eq.
Qed.

Lemma updates_get index k : bt_get k (updates_of index) = Update.search (update_section index) k.
Proof. unfold updates_of. rewrite bt_get_extend, Update.search_last_of. by destruct (last_of _ _). Qed.

Lemma search_both_visible index k :
  search_both_sections index k =
    match Update.search (update_section index) k with
    | Some u => visible u
    | None => search key (entries index) k
    end.
Proof. unfold search_both_sections, visible. by destruct (Update.search _ k). Qed.

Lemma flushed_view index k :
  strictly_sorted key (entries index) ->
  search_both_sections (flushed index) k = search_both_sections index k.
Proof.
  intros Hs. rewrite !search_both_visible. simpl update_section. cbn [Update.search].
  change (Update.search (Update.clear (update_section index)) k) with (@None Update.UpdateEntry).
  cbn [entries flushed]. rewrite merge_search by auto using updates_sorted, updates_keyed.
  by rewrite updates_get.
Qed.

(** ** The enumeration *)

Lemma last_of_fmap {A B} (f : A -> B) (k : bytes) (l : list (bytes * A)) :
  last_of k ((fun p => (fst p, f (snd p))) <$> l) = f <$> last_of k l.
Proof.
  induction l as [|[k' a] l IH]; [done|]. cbn. rewrite IH. destruct (last_of k l); [done|]. simpl.
  by destruct (lex_compare k k').
Qed.

Lemma last_of_sorted (es : list IndexEntry) k :
  strictly_sorted key es -> last_of k ((fun e => (key e, e)) <$> es) = search key es k.
Proof.
  intros Hs. destruct (last_of k _) as [x|] eqn:E; symmetry.
  - apply last_of_elem in E. apply list_elem_of_fmap in E as (y & E & Hy). simplify_eq.
    by apply search_Some.
  - apply search_None; [done|]. intros x Hx <-.
    apply (last_of_None (key x) _ E x). apply list_elem_of_fmap. by exists x.
Qed.

Lemma merged_view_get index k :
  strictly_sorted key (entries index) ->
  bt_get k (merged_view index) =
    match Update.search (update_section index) k with
    | Some u => Some (visible u)
    | None => Some <$> search key (entries index) k
    end.
Proof.
  intros Hs. unfold merged_view. rewrite !bt_get_extend.
  assert (forall us, last_of k ((fun u => (Update.ekey u, visible u)) <$> us) =
    visible <$> last_of k (Update.keyed us)) as Hu.
  { intros us. rewrite <- last_of_fmap. unfold Update.keyed. by rewrite <- list_fmap_compose. }
  assert (last_of k ((fun e => (key e, Some e)) <$> entries index) = Some <$> search key (entries index) k) as He.
  { rewrite <- last_of_sorted, <- last_of_fmap, <- list_fmap_compose by done. done. }
  change (last_of k (_ <$> Update.all_entries _)) with
    (last_of k ((fun u => (Update.ekey u, visible u)) <$> Update.all_entries (update_section index))).
  rewrite Hu, He, <- Update.search_last_of. destruct (Update.search _ k); [done|]. simpl.
  by destruct (search key _ k).
Qed.

Lemma merged_view_sorted index : bt_sorted (merged_view index).
Proof. apply bt_extend_sorted, bt_extend_sorted. constructor. Qed.

Lemma merged_view_key index k x : (k, Some x) ∈ merged_view index -> key x = k.
Proof.
  intros [[[]%elem_of_nil|Hin]%bt_extend_elem|Hin]%bt_extend_elem;
    apply list_elem_of_fmap in Hin as (y & E & _); [by simplify_eq|].
  case_bool_decide; by simplify_eq.
Qed.

Lemma bucket_entries_elem index x : x ∈ bucket_entries index <-> (key x, Some x) ∈ merged_view index.
Proof.
  unfold bucket_entries. rewrite list_elem_of_omap. split.
  - intros (o & Ho & Ex). simpl in Ex. subst o.
    apply list_elem_of_fmap in Ho as ([k o] & E & Hin). simpl in E. subst o.
    by rewrite (merged_view_key _ _ _ Hin).
  - intros Hin. exists (Some x). split; [|done]. apply list_elem_of_fmap. by exists (key x, Some x).
Qed.

Lemma bucket_entries_view index x :
  strictly_sorted key (entries index) ->
  x ∈ bucket_entries index <-> search_both_sections index (key x) = Some x.
Proof.
  intros Hs. rewrite bucket_entries_elem, <- bt_get_In by apply merged_view_sorted.
  rewrite merged_view_get, search_both_visible by done.
  destruct (Update.search _ (key x)); [split; congruence|].
  destruct (search key _ (key x)); simpl; split; congruence.
Qed.

Lemma omap_sorted (m : list (bytes * option IndexEntry)) :
  bt_sorted m -> (forall k x, (k, Some x) ∈ m -> key x = k) -> strictly_sorted key (omap id m.*2).
Proof.
  unfold bt_sorted, strictly_sorted. induction m as [|[k [x|]] m IH]; intros Hs Hk; cbn; [constructor| |].
  - apply StronglySorted_cons in Hs as [Hall Hs]. rewrite Forall_forall in Hall. constructor.
    + apply IH; [done|]. intros; apply Hk; by right.
    + apply Forall_forall. intros y (o & Ho & Ey)%list_elem_of_omap. simpl in Ey. subst o.
      apply list_elem_of_fmap in Ho as ([k' o] & E & Hin). simpl in E. subst o.
      rewrite (Hk k x), (Hk k' y) by (by constructor). apply Hall, list_elem_of_fmap. by exists (k', Some y).
  - apply StronglySorted_cons in Hs as [_ Hs]. apply IH; [done|]. intros; apply Hk; by right.
Qed.

Lemma bucket_entries_sorted index : strictly_sorted key (bucket_entries index).
Proof. apply omap_sorted; [apply merged_view_sorted|]. intros. by eapply merged_view_key. Qed.
