(* ===== verification/IndexTheorems.v ===== *)
(** * Correctness of the index manager

    Every operation as an update of the view [lookup], the invariant they keep,
    the enumeration, and the atomicity of a save. *)

From S2P Require Import Prelude Bytes Disk Jenkins Collections Pages IndexEntry UpdateSection IndexFile IndexImage Index IndexMerge.
Import Entry IndexFile Index.
Local Open Scope Z_scope.

(** ** Buckets and truncated keys *)

Lemma bucket_range k : is_bytes k -> 0 <= get_bucket_index k < 16.
Proof.
  intros Hk. unfold get_bucket_index. destruct (_ <? _)%nat eqn:E; [lia|]. apply Nat.ltb_ge in E.
  destruct k as [|b k]; [simpl in E; lia|]. apply Forall_cons in Hk as [Hb Hk].
  pose proof (fold_xor_range (take 8 k) b Hb (is_bytes_take 8 k Hk)) as Hh. cbn [drop nth].
  rewrite drop_0. generalize dependent (fold_left Z.lxor (take 8 k) b). intros h Hh. unfold in_u in Hh.
  apply (lxor_range 4); [lia| |]; unfold in_u.
  - change 0x0F with (Z.ones 4). rewrite Z.land_ones by lia. apply Z.mod_pos_bound. lia.
  - rewrite Z.shiftr_div_pow2 by lia. split; [apply Z.div_pos; lia|apply Z.div_lt_upper_bound; lia].
Qed.

Lemma truncate_take k : (9 <= length k)%nat -> truncate_key k = take 9 k.
Proof.
  intros H. unfold truncate_key, copy_at. rewrite Nat.min_l by done. rewrite length_take_le by done.
  cbn [take drop app Nat.add]. by rewrite app_nil_r.
Qed.

Lemma bucket_truncate k : (9 <= length k)%nat -> get_bucket_index (take 9 k) = get_bucket_index k.
Proof.
  intros H. unfold get_bucket_index. rewrite length_take_le by done.
  rewrite (proj2 (Nat.ltb_ge (length k) 9)) by done. cbn [Nat.ltb Nat.leb].
  destruct k as [|b k]; [simpl in H; lia|]. cbn [take drop nth]. by rewrite !drop_0, take_take.
Qed.

(** ** The invariant *)

(** An entry of the sorted section, in range and in its bucket. *)
Definition entry_wf (id : Z) (e : IndexEntry) : Prop :=
  is_array 9 (key e) /\ loc_ok (archive_location e) /\ u32 (size e) /\ get_bucket_index (key e) = id.

Record index_ok (id : Z) (f : IndexFile) : Prop := {
  idx_header : std_header (header f);
  idx_sorted : strictly_sorted key (entries f);
  idx_entries : Forall (entry_wf id) (entries f);
  idx_section : Update.section_ok (update_section f);
  idx_placed : Forall (fun u => get_bucket_index (Update.ekey u) = id) (Update.all_entries (update_section f));
}.

Record manager_ok (m : IndexManager) : Prop := {
  mgr_sorted : bt_sorted (indices m);
  mgr_indices : forall id f, bt_get id (indices m) = Some f -> index_ok id f;
}.

Lemma manager_new_ok : manager_ok manager_new.
Proof. split; [constructor|done]. Qed.

Lemma get_set_index m id f id' :
  bt_get id' (indices (set_index m id f)) = if id' =? id then Some f else bt_get id' (indices m).
Proof.
  cbn [set_index indices]. rewrite bt_get_insert. cbn [kcmp Z_ord].
  destruct (Z.compare_spec id' id); [subst; by rewrite Z.eqb_refl|..];
    by rewrite (proj2 (Z.eqb_neq id' id)) by lia.
Qed.

Lemma set_index_ok m id f : manager_ok m -> index_ok id f -> manager_ok (set_index m id f).
Proof.
  intros [Hs Hm] Hf. split; [by apply bt_insert_sorted|]. intros id' f'. rewrite get_set_index.
  destruct (Z.eqb_spec id' id); [intros; by simplify_eq|auto].
Qed.

Lemma lookup_set_index m id f k :
  lookup (set_index m id f) k =
    if get_bucket_index k =? id then search_both_sections f (truncate_key k) else lookup m k.
Proof. unfold lookup. rewrite get_set_index. by destruct (_ =? id). Qed.

(** Replacing a bucket by one with the same view does not change any lookup. *)
Lemma lookup_set_same m id f f' k :
  bt_get id (indices m) = Some f ->
  (forall k, search_both_sections f' k = search_both_sections f k) ->
  lookup (set_index m id f') k = lookup m k.
Proof.
  intros Hf Hv. rewrite lookup_set_index. destruct (Z.eqb_spec (get_bucket_index k) id) as [E|]; [|done].
  unfold lookup. by rewrite E, Hf, Hv.
Qed.

(** ** Appending to a bucket *)

Lemma search_both_snoc index s e k :
  Update.all_entries s = Update.all_entries (update_section index) ++ [e] ->
  search_both_sections (with_section index s) k =
    if bool_decide (Update.ekey e = k) then visible e else search_both_sections index k.
Proof.
  intros E. rewrite !search_both_visible. cbn [with_section update_section entries].
  rewrite (Update.search_snoc _ _ e k E). by case_bool_decide.
Qed.

Lemma append_to_spec m id f e :
  manager_ok m -> bt_get id (indices m) = Some f -> Update.fits e -> get_bucket_index (Update.ekey e) = id ->
  exists m', append_to m id f e = (negb (Update.is_full (update_section f)), m') /\ manager_ok m' /\
    (exists f', bt_get id (indices m') = Some f' /\ entries f' = entries f /\
       (Update.is_full (update_section f) = true -> f' = f)) /\
    (forall k, (9 <= length k)%nat -> lookup m' k =
       if negb (Update.is_full (update_section f)) && bool_decide (Update.ekey e = take 9 k)
       then visible e else lookup m k).
Proof.
  intros Hm Hf He Hid. pose proof (mgr_indices m Hm id f Hf) as [Hh Hso Hen Hse Hpl].
  unfold append_to. destruct (Update.is_full (update_section f)) eqn:Efull; cbn [negb andb].
  - rewrite Update.append_full by done.
    assert (with_section f (update_section f) = f) as -> by by destruct f.
    eexists. split; [done|]. split_and!.
    + by apply set_index_ok.
    + exists f. by rewrite get_set_index, Z.eqb_refl.
    + intros k _. by apply (lookup_set_same m id f f k).
  - destruct (Update.append_not_full _ e Hse He Efull) as (s' & -> & Hs' & Eall & _).
    eexists. split; [done|]. split_and!.
    + apply set_index_ok; [done|]. constructor; cbn [with_section header entries update_section]; try done.
      rewrite Eall. apply Forall_app. split; [done|by constructor].
    + eexists. split_and!; [by rewrite get_set_index, Z.eqb_refl|done|done].
    + intros k Hk. rewrite lookup_set_index, (search_both_snoc _ _ e) by done.
      rewrite truncate_take by done. unfold lookup. destruct (Z.eqb_spec (get_bucket_index k) id) as [E|Hne].
      * by rewrite E, Hf, truncate_take.
      * rewrite bool_decide_false; [done|]. intros E. apply Hne. by rewrite <- bucket_truncate, <- E.
Qed.

(** ** Flushing a bucket *)

Lemma flushed_ok id f : index_ok id f -> index_ok id (flushed f).
Proof.
  intros [Hh Hso Hen Hse Hpl]. constructor; cbn [flushed header entries update_section]; [done| | | |].
  - apply merge_sorted; auto using updates_sorted, updates_keyed.
  - apply Forall_forall. intros x Hx.
    apply merge_elem in Hx as [(u & Hu & Hv)|[Hx _]]; auto using updates_sorted, updates_keyed.
    2: by apply (proj1 (Forall_forall _ _) Hen).
    apply bt_extend_elem in Hu as [[]%elem_of_nil|Hu].
    apply list_elem_of_fmap in Hu as (u' & E & Hu). injection E as _ <-.
    unfold visible in Hv. case_bool_decide; simplify_eq.
    assert (Update.fits u) as (_ & _ & Hk & Hl & Hs).
    { by apply (proj1 (Forall_forall _ _) (Update.section_fits _ Hse)). }
    split_and!; try done. by apply (proj1 (Forall_forall _ _) Hpl).
  - by apply Update.clear_ok.
  - constructor.
Qed.

(** The errors of a save: the retries are exhausted, or the block length does not
    fit its 32-bit field. *)
Definition save_error (e : StorageError) : Prop :=
  e = IndexError "Failed to save index after 3 attempts" \/ e = IndexError "Entry data too large".

Lemma index_image_ret id f :
  std_header (header f) -> exists r, index_image id f = Ret r /\ forall e, r = Err e -> save_error e.
Proof.
  intros Hh. destruct (decide (Z.of_nat (length (concat (map to_packed (entries f)))) < 2 ^ 32)) as [Hlt|Hge].
  - destruct (index_image_eq id f Hh Hlt) as (? & ? & _ & _ & ->). eexists. split; [done|by intros e ?].
  - unfold index_image. rewrite std_entry_size, Jenkins.hashlittle_jenkins by done.
    cbn [mbind outcome_bind chunks Nat.eqb].
    destruct (hash_chunks_ret (chunks_loop (length (concat (map to_packed (entries f)))) 18
      (concat (map to_packed (entries f)))) 0 0) as (eh & -> & _); [done|]. cbn [mbind outcome_bind].
    rewrite (proj2 (Z.leb_le _ _)) by lia. eexists. split; [done|]. intros e [= <-]. by right.
Qed.

Lemma save_attempts_error io l temp name image d e :
  fst (save_attempts io l temp name image d) = Err e -> save_error e.
Proof.
  revert d. induction l as [|a l IH]; intros d; simpl; [intros [= <-]; by left|].
  destruct (save_attempt _ _ _ _ _ _) as [[err|] d']; [apply IH|done].
Qed.

Lemma save_index_ret io id f d :
  std_header (header f) ->
  exists r d', save_index io id f d = Ret (r, d') /\ forall e, r = Err e -> save_error e.
Proof.
  intros Hh. unfold save_index. destruct (index_image_ret id f Hh) as ([img|e] & -> & He); cbn [mbind outcome_bind].
  - destruct (save_attempts io [0;1;2]%nat (temp_filename id 1) (generate_index_filename id 1) img d)
      as [r d'] eqn:E. eexists _, _. split; [done|]. intros e ->.
    apply (save_attempts_error io [0;1;2]%nat (temp_filename id 1) (generate_index_filename id 1) img d).
    by rewrite E.
  - eexists _, _. split; [done|]. intros ? [= <-]. by apply He.
Qed.

Lemma flush_spec io b m d :
  manager_ok m ->
  exists r m' d', flush_updates_for_bucket io b m d = Ret (r, m', d') /\ manager_ok m' /\
    (forall k, lookup m' k = lookup m k) /\ (forall e, r = Err e -> save_error e) /\
    (forall f, bt_get b (indices m) = Some f -> Update.is_full (update_section f) = true ->
       exists f', bt_get b (indices m') = Some f' /\ Update.is_full (update_section f') = false).
Proof.
  intros Hm. unfold flush_updates_for_bucket. destruct (bt_get b (indices m)) as [f|] eqn:Ef.
  2: { eexists _, _, _. split_and!; try done. }
  pose proof (mgr_indices m Hm b f Ef) as Hok.
  destruct (Nat.eqb_spec (Update.entry_count (update_section f)) 0) as [Ec|Ec].
  - eexists _, _, _. split_and!; try done. intros ? [= <-] Hfull. exfalso.
    pose proof (Update.full_entry_count _ (idx_section _ _ Hok) Hfull) as E.
    pose proof (Update.ok_capacity _ (idx_section _ _ Hok)). rewrite Update.entries_per_page in E. lia.
  - destruct (save_index_ret io b (flushed f) d) as (r & d' & -> & He); [apply Hok|]. cbn [mbind outcome_bind].
    eexists _, _, _. split_and!; [done|by apply set_index_ok, flushed_ok| |done|].
    + intros k. apply (lookup_set_same m b f); [done|]. intros k'. apply flushed_view, Hok.
    + intros f' [= <-] _. eexists. split; [by rewrite get_set_index, Z.eqb_refl|].
      apply Update.clear_not_full.
Qed.

(** ** Inserting *)

Lemma new_bucket_ok id : index_ok id (new_bucket id).
Proof.
  split; [done|constructor|constructor|apply Update.section_new_ok|constructor].
Qed.

Lemma search_new_bucket id k : search_both_sections (new_bucket id) k = None.
Proof. done. Qed.

(** [entry(index_id).or_insert_with(..)]. *)
Lemma ensure_bucket m id :
  manager_ok m ->
  let m1 := match bt_get id (indices m) with Some _ => m | None => set_index m id (new_bucket id) end in
  exists f, bt_get id (indices m1) = Some f /\ manager_ok m1 /\ (forall k, lookup m1 k = lookup m k) /\
    (Update.is_full (update_section f) = true -> bt_get id (indices m) = Some f).
Proof.
  intros Hm. destruct (bt_get id (indices m)) as [f|] eqn:Ef; cbv zeta.
  - exists f. done.
  - exists (new_bucket id). split_and!.
    + by rewrite get_set_index, Z.eqb_refl.
    + by apply set_index_ok, new_bucket_ok.
    + intros k. rewrite lookup_set_index, search_new_bucket.
      destruct (Z.eqb_spec (get_bucket_index k) id) as [E|]; [|done]. unfold lookup. by rewrite E, Ef.
    + done.
Qed.

Definition bucket_full (m : IndexManager) (key : bytes) : bool :=
  match bt_get (get_bucket_index key) (indices m) with
  | Some f => Update.is_full (update_section f)
  | None => false
  end.

Lemma key_update k loc sz st :
  is_array 16 k -> loc_ok loc -> u32 sz ->
  let e := Update.new (truncate_key k) loc sz st in
  Update.fits e /\ Update.ekey e = take 9 k /\ get_bucket_index (Update.ekey e) = get_bucket_index k.
Proof.
  intros [Lk Bk] Hloc Hs. rewrite truncate_take by lia. cbv zeta. split_and!.
  - apply Update.new_fits; [|done|done]. split; [rewrite length_take_le by lia; done|by apply is_bytes_take].
  - done.
  - cbn [Update.new Update.with_guard Update.ekey]. apply bucket_truncate. lia.
Qed.

(** The view of the manager after a successful write of [v] under [k]. *)
Definition updated (m m' : IndexManager) (k : bytes) (v : option IndexEntry) : Prop :=
  forall k', (9 <= length k')%nat ->
    lookup m' k' = if bool_decide (take 9 k' = take 9 k) then v else lookup m k'.

Definition unchanged (m m' : IndexManager) : Prop :=
  forall k', (9 <= length k')%nat -> lookup m' k' = lookup m k'.

(** Appending an update for [k] to its bucket, as an effect on the view. *)
Lemma append_key_spec m k f e :
  manager_ok m -> (9 <= length k)%nat -> bt_get (get_bucket_index k) (indices m) = Some f ->
  Update.fits e -> Update.ekey e = take 9 k ->
  exists m', append_to m (get_bucket_index k) f e = (negb (Update.is_full (update_section f)), m') /\
    manager_ok m' /\
    (exists f', bt_get (get_bucket_index k) (indices m') = Some f' /\
       (Update.is_full (update_section f) = true -> f' = f)) /\
    if Update.is_full (update_section f) then unchanged m m' else updated m m' k (visible e).
Proof.
  intros Hm Hk Hf He Hek.
  destruct (append_to_spec m (get_bucket_index k) f e) as (m' & E & Hm' & (f' & Hf' & _ & Hsame) & Hl); try done.
  { rewrite Hek. by apply bucket_truncate. }
  exists m'. split_and!; [done|done|eauto|]. destruct (Update.is_full _); intros k' Hk'.
  - by rewrite Hl.
  - rewrite Hl, Hek by done. cbn [negb andb].
    destruct (decide (take 9 k' = take 9 k)); [by rewrite !bool_decide_true|by rewrite !bool_decide_false by auto].
Qed.

Lemma add_entry_spec io m k aid off sz d :
  manager_ok m -> is_array 16 k -> loc_ok {| archive_id := aid; archive_offset := off |} -> u32 sz ->
  exists r m' d', add_entry io m k aid off sz d = Ret (r, m', d') /\ manager_ok m' /\
    match r with
    | Ok _ => updated m m' k (Some (new (take 9 k) aid off sz))
    | Err e => unchanged m m' /\ bucket_full m k = true /\ save_error e
    end.
Proof.
  intros Hm Hk Hloc Hs. destruct (key_update k _ sz Update.Normal Hk Hloc Hs) as (Hfit & Hek & _).
  assert (9 <= length k)%nat as Hlen by (destruct Hk; lia).
  unfold add_entry. destruct (ensure_bucket m (get_bucket_index k) Hm) as (f & Hf & Hm1 & Hl1 & Hfull1).
  cbv zeta in *. set (m1 := match bt_get _ (indices m) with Some _ => m | None => _ end) in *.
  set (e := Update.new _ _ _ _) in *. assert (visible e = Some (new (take 9 k) aid off sz)) as Hv.
  { unfold visible, Update.to_index_entry. rewrite Hek. done. }
  rewrite Hf. destruct (append_key_spec m1 k f e Hm1 Hlen Hf Hfit Hek) as (m2 & -> & Hm2 & (f2 & Hf2 & Hsame) & Hl2).
  destruct (Update.is_full (update_section f)) eqn:Efull; cbn [negb].
  2: { eexists _, _, _. split_and!; [done|done|]. intros k' Hk'. by rewrite Hl2, Hv, Hl1. }
  pose proof (Hsame eq_refl) as ->.
  destruct (flush_spec io (get_bucket_index k) m2 d Hm2) as (r & m3 & d' & -> & Hm3 & Hl3 & Herr & Hroom).
  cbn [mbind outcome_bind]. destruct r as [[]|err].
  - destruct (Hroom f Hf2 Efull) as (f3 & Hf3 & Efull3). rewrite Hf3.
    destruct (append_key_spec m3 k f3 e Hm3 Hlen Hf3 Hfit Hek) as (m4 & -> & Hm4 & _ & Hl4).
    rewrite Efull3 in *. cbn [negb]. eexists _, _, _. split_and!; [done|done|].
    intros k' Hk'. by rewrite Hl4, Hv, Hl3, Hl2, Hl1.
  - exists (Err err), m3, d'. split_and!; [done|done| | |].
    + intros k' Hk'. by rewrite Hl3, Hl2, Hl1.
    + unfold bucket_full. by rewrite (Hfull1 eq_refl).
    + by apply Herr.
Qed.

(** ** Removing and updating *)

Lemma section_entry_fits f u : Update.section_ok (update_section f) -> u ∈ Update.all_entries (update_section f) -> Update.fits u.
Proof. intros Hs Hu. by apply (proj1 (Forall_forall _ _) (Update.section_fits _ Hs)). Qed.

Lemma search_in_entries s k u : Update.search s k = Some u -> u ∈ Update.all_entries s /\ Update.ekey u = k.
Proof.
  rewrite Update.search_last_of. intros H. apply last_of_elem, list_elem_of_fmap in H as (u' & E & Hu).
  by simplify_eq.
Qed.

(** What a lookup returns fits the on-disk widths. *)
Lemma lookup_fits m k x :
  manager_ok m -> (9 <= length k)%nat -> lookup m k = Some x ->
  key x = take 9 k /\ loc_ok (archive_location x) /\ u32 (size x) /\
  exists f, bt_get (get_bucket_index k) (indices m) = Some f.
Proof.
  intros Hm Hk. unfold lookup. destruct (bt_get _ (indices m)) as [f|] eqn:Ef; [|done].
  rewrite truncate_take by done. pose proof (mgr_indices m Hm _ f Ef) as Hok.
  rewrite search_both_visible. destruct (Update.search _ _) as [u|] eqn:Eu.
  - intros Hv. apply search_in_entries in Eu as [Hu Ek]. unfold visible in Hv. case_bool_decide; simplify_eq.
    destruct (section_entry_fits f u (idx_section _ _ Hok) Hu) as (_ & _ & _ & Hl & Hs).
    split_and!; [done|exact Hl|done|eauto].
  - intros Hx. apply search_Some in Hx as [Hx Ek]; [|apply Hok].
    destruct (proj1 (Forall_forall _ _) (idx_entries _ _ Hok) x Hx) as (_ & Hl & Hs & _). eauto.
Qed.

Lemma full_of_bucket m k f :
  bt_get (get_bucket_index k) (indices m) = Some f -> Update.is_full (update_section f) = bucket_full m k.
Proof. intros Hf. unfold bucket_full. by rewrite Hf. Qed.

(** One append for a key that is present, with any location and status. *)
Lemma present_append m k x loc sz st :
  manager_ok m -> is_array 16 k -> lookup m k = Some x -> loc_ok loc -> u32 sz ->
  exists f m', bt_get (get_bucket_index k) (indices m) = Some f /\
    append_to m (get_bucket_index k) f (Update.new (truncate_key k) loc sz st) = (negb (bucket_full m k), m') /\
    manager_ok m' /\
    if bucket_full m k then unchanged m m'
    else updated m m' k (if bool_decide (st = Update.Delete) then None
                         else Some (new (take 9 k) (archive_id loc) (archive_offset loc) sz)).
Proof.
  intros Hm Hk Hx Hloc Hs. destruct (key_update k loc sz st Hk Hloc Hs) as (Hfit & Hek & _).
  assert (9 <= length k)%nat as Hlen by (destruct Hk; lia).
  destruct (lookup_fits m k x Hm Hlen Hx) as (_ & _ & _ & f & Hf).
  destruct (append_key_spec m k f _ Hm Hlen Hf Hfit Hek) as (m' & E & Hm' & _ & Hl).
  rewrite (full_of_bucket m k f Hf) in *. exists f, m'. split_and!; try done.
  destruct (bucket_full m k); [done|]. unfold visible, Update.to_index_entry in Hl. by rewrite Hek in Hl.
Qed.

(** ** Theorems *)

(** C28: [add_entry] never panics and keeps the manager well-formed.  When it
    succeeds, [lookup] of every key with the same nine-byte prefix returns the new
    entry and every other lookup is as before.  It fails only if the update
    section of the bucket was full and the merged file could not be saved, and
    then no lookup has changed; the retry after a flush always finds room. *)
Theorem add_entry_updates_lookup io m k aid off sz d :
  manager_ok m -> is_array 16 k -> loc_ok {| archive_id := aid; archive_offset := off |} -> u32 sz ->
  exists r m' d', add_entry io m k aid off sz d = Ret (r, m', d') /\ manager_ok m' /\
    match r with
    | Ok _ => updated m m' k (Some (new (take 9 k) aid off sz))
    | Err e => unchanged m m' /\ bucket_full m k = true /\ save_error e
    end.
Proof. apply add_entry_spec. Qed.

Definition io_all_ok : Io :=
  {| write_ok := fun _ => true; partial := fun _ => None; rename_ok := fun _ => true;
     remove_ok := fun _ => true; read_dir_ok := true;
     next_entry_ok := fun _ => true; read_file_ok := fun _ => true |}.

Lemma add_entry_updates_lookup_witness :
  exists r m' d', add_entry io_all_ok manager_new (replicate 16 7) 3 4096 10 [] = Ret (r, m', d') /\
    manager_ok m' /\
    match r with
    | Ok _ => updated manager_new m' (replicate 16 7) (Some (new (take 9 (replicate 16 7)) 3 4096 10))
    | Err e => unchanged manager_new m' /\ bucket_full manager_new (replicate 16 7) = true /\ save_error e
    end.
Proof. apply add_entry_updates_lookup; [apply manager_new_ok|decide_now..]. Defined.

(** Flushing a bucket merges its update section into the sorted section
    without changing the answer of any lookup, whether or not the file can be
    saved, never panics, and leaves room in a section that was full. *)
Theorem flush_preserves_lookup io b m d :
  manager_ok m ->
  exists r m' d', flush_updates_for_bucket io b m d = Ret (r, m', d') /\ manager_ok m' /\
    (forall k, lookup m' k = lookup m k) /\ (forall e, r = Err e -> save_error e) /\
    (forall f, bt_get b (indices m) = Some f -> Update.is_full (update_section f) = true ->
       exists f', bt_get b (indices m') = Some f' /\ Update.is_full (update_section f') = false).
Proof. apply flush_spec. Qed.

Lemma flush_preserves_lookup_witness :
  exists r m' d', flush_updates_for_bucket io_all_ok 3 manager_new [] = Ret (r, m', d') /\ manager_ok m' /\
    (forall k, lookup m' k = lookup manager_new k) /\ (forall e, r = Err e -> save_error e) /\
    (forall f, bt_get 3 (indices manager_new) = Some f -> Update.is_full (update_section f) = true ->
       exists f', bt_get 3 (indices m') = Some f' /\ Update.is_full (update_section f') = false).
Proof. apply flush_preserves_lookup, manager_new_ok. Defined.

Lemma remove_entry_spec m k :
  manager_ok m -> is_array 16 k ->
  let '(found, m') := remove_entry m k in
  found = has_entry m k /\ manager_ok m' /\
  if found && negb (bucket_full m k) then updated m m' k None else unchanged m m'.
Proof.
  intros Hm Hk. unfold remove_entry, has_entry. destruct (lookup m k) as [x|] eqn:Ex.
  2: { by rewrite bool_decide_false by (intros [? ?]; done). }
  assert (9 <= length k)%nat as Hlen by (destruct Hk; lia).
  destruct (lookup_fits m k x Hm Hlen Ex) as (_ & Hloc & Hs & _).
  destruct (present_append m k x _ _ Update.Delete Hm Hk Ex Hloc Hs) as (f & m' & -> & -> & Hm' & Hl).
  rewrite bool_decide_true by eauto. split_and!; [done..|]. by destruct (bucket_full m k).
Qed.

(** [remove_entry] answers whether the key was present.  If the bucket's
    update section has room, the key is gone afterwards and nothing else has
    changed; if it is full the tombstone is dropped, the answer is still [true]
    and the key is still there. *)
Theorem remove_entry_behaviour m k :
  manager_ok m -> is_array 16 k ->
  let '(found, m') := remove_entry m k in
  found = has_entry m k /\ manager_ok m' /\
  if found && negb (bucket_full m k) then updated m m' k None else unchanged m m'.
Proof. apply remove_entry_spec. Qed.

Lemma update_entry_spec m k aid off sz st :
  manager_ok m -> is_array 16 k -> loc_ok {| archive_id := aid; archive_offset := off |} -> u32 sz ->
  let '(ok1, m1) := update_entry m k aid off sz in
  let '(ok2, m2) := update_entry_status m k st in
  manager_ok m1 /\ manager_ok m2 /\ ok1 = has_entry m k && negb (bucket_full m k) /\ ok2 = ok1 /\
  (if ok1 then updated m m1 k (Some (new (take 9 k) aid off sz)) else unchanged m m1) /\
  (if ok2 then updated m m2 k (if bool_decide (st = Update.Delete) then None else lookup m k)
   else unchanged m m2).
Proof.
  intros Hm Hk Hloc Hs. unfold update_entry, update_entry_status, has_entry.
  destruct (lookup m k) as [x|] eqn:Ex.
  2: { by rewrite bool_decide_false by (intros [? ?]; done). }
  assert (9 <= length k)%nat as Hlen by (destruct Hk; lia).
  destruct (lookup_fits m k x Hm Hlen Ex) as (Hkey & Hloc' & Hs' & _).
  destruct (present_append m k x _ _ Update.Normal Hm Hk Ex Hloc Hs) as (f & m1 & Hf & E1 & Hm1 & Hl1).
  destruct (present_append m k x _ _ st Hm Hk Ex Hloc' Hs') as (f' & m2 & Hf' & E2 & Hm2 & Hl2).
  simplify_eq. rewrite Hf, E1, E2, bool_decide_true by eauto. cbn [andb].
  destruct (bucket_full m k); [done|]. split_and!; try done.
  assert (new (take 9 k) (archive_id (archive_location x)) (archive_offset (archive_location x)) (size x) = x) as Enew.
  { rewrite <- Hkey. by destruct x as [? [] ?]. }
  by rewrite Enew in Hl2.
Qed.

(** [update_entry] and [update_entry_status] touch only keys that are
    present, report failure when the update section is full, and otherwise
    replace exactly the entry of the key; a status of [Delete] removes it. *)
Theorem update_entry_behaviour m k aid off sz st :
  manager_ok m -> is_array 16 k -> loc_ok {| archive_id := aid; archive_offset := off |} -> u32 sz ->
  let '(ok1, m1) := update_entry m k aid off sz in
  let '(ok2, m2) := update_entry_status m k st in
  manager_ok m1 /\ manager_ok m2 /\ ok1 = has_entry m k && negb (bucket_full m k) /\ ok2 = ok1 /\
  (if ok1 then updated m m1 k (Some (new (take 9 k) aid off sz)) else unchanged m m1) /\
  (if ok2 then updated m m2 k (if bool_decide (st = Update.Delete) then None else lookup m k)
   else unchanged m m2).
Proof. apply update_entry_spec. Qed.

(** A bucket whose update section is full, with one key. *)
Definition full_key : bytes := replicate 16 7.
Definition full_section (key : bytes) : Update.UpdateSection :=
  {| Update.pages := replicate 12 (replicate 170
       (Update.new (truncate_key key) {| archive_id := 3; archive_offset := 4096 |} 10 Update.Normal));
     Update.capacity_pages := 12 |}.

Definition full_manager : IndexManager :=
  set_index manager_new (get_bucket_index full_key)
    (with_section (new_bucket (get_bucket_index full_key)) (full_section full_key)).

Lemma full_manager_ok : manager_ok full_manager.
Proof.
  apply set_index_ok; [apply manager_new_ok|]. constructor; [decide_now|constructor|constructor| |].
  - constructor; cbn [with_section update_section full_section Update.pages Update.capacity_pages].
    + apply Forall_replicate. split_and!; [done|done|apply Forall_replicate; decide_now].
    + rewrite length_replicate. lia.
    + lia.
    + intros i p [-> _]%lookup_replicate _. done.
  - apply Forall_concat, Forall_replicate, Forall_replicate. by vm_compute.
Qed.

Lemma remove_entry_behaviour_witness :
  let '(found, m') := remove_entry full_manager full_key in
  found = has_entry full_manager full_key /\ manager_ok m' /\
  if found && negb (bucket_full full_manager full_key) then updated full_manager m' full_key None
  else unchanged full_manager m'.
Proof. apply remove_entry_behaviour; [apply full_manager_ok|decide_now]. Defined.

Lemma update_entry_behaviour_witness :
  let '(ok1, m1) := update_entry full_manager full_key 3 4096 10 in
  let '(ok2, m2) := update_entry_status full_manager full_key Update.DataNonResident in
  manager_ok m1 /\ manager_ok m2 /\ ok1 = has_entry full_manager full_key && negb (bucket_full full_manager full_key) /\
  ok2 = ok1 /\
  (if ok1 then updated full_manager m1 full_key (Some (new (take 9 full_key) 3 4096 10))
   else unchanged full_manager m1) /\
  (if ok2 then updated full_manager m2 full_key
     (if bool_decide (Update.DataNonResident = Update.Delete) then None else lookup full_manager full_key)
   else unchanged full_manager m2).
Proof. apply update_entry_behaviour; [apply full_manager_ok|decide_now..]. Defined.

(** A well-formed manager on which [remove_entry] answers [true] although the
    entry stays: the update section of its bucket is full. *)
Theorem remove_entry_true_but_kept :
  exists m k, manager_ok m /\ is_array 16 k /\ fst (remove_entry m k) = true /\
    lookup (snd (remove_entry m k)) k = lookup m k /\ is_Some (lookup m k).
Proof.
  exists full_manager, full_key. split_and!; [apply full_manager_ok|decide_now|by vm_compute..|by vm_compute; eauto].
Qed.

(** ** The enumeration *)

Lemma bucket_entries_placed id f x : index_ok id f -> x ∈ bucket_entries f -> get_bucket_index (key x) = id /\ length (key x) = 9%nat.
Proof.
  intros Hok Hx. apply bucket_entries_view in Hx; [|apply Hok].
  rewrite search_both_visible in Hx. destruct (Update.search _ _) as [u|] eqn:Eu.
  - apply search_in_entries in Eu as [Hu Ek]. rewrite <- Ek.
    pose proof (section_entry_fits f u (idx_section _ _ Hok) Hu) as (_ & _ & [? _] & _).
    split; [|done]. by apply (proj1 (Forall_forall _ _) (idx_placed _ _ Hok)).
  - apply search_Some in Hx as [Hx _]; [|apply Hok].
    by destruct (proj1 (Forall_forall _ _) (idx_entries _ _ Hok) x Hx) as ([? _] & _ & _ & ?).
Qed.

Lemma iter_entries_elem m b x :
  (b, x) ∈ iter_entries m <-> exists f, (b, f) ∈ indices m /\ x ∈ bucket_entries f.
Proof.
  unfold iter_entries. rewrite list_elem_of_bind. split.
  - intros ([id f] & (y & E & Hy)%list_elem_of_fmap & Hin). simplify_eq. eauto.
  - intros (f & Hin & Hx). exists (b, f). split; [|done]. apply list_elem_of_fmap. eauto.
Qed.

Lemma iter_keys_nodup (l : list (Z * IndexFile)) :
  bt_sorted l -> (forall id f, (id, f) ∈ l -> index_ok id f) ->
  NoDup ((fun p => key (snd p)) <$> ('(bucket, index) ← l; pair bucket <$> bucket_entries index)).
Proof.
  unfold bt_sorted. induction l as [|[id f] l IH]; intros Hs Hok; [constructor|].
  apply StronglySorted_cons in Hs as [Hall Hs]. rewrite bind_cons, fmap_app. apply NoDup_app. split_and!.
  - rewrite <- list_fmap_compose. pose proof (bucket_entries_sorted f) as Hst. unfold strictly_sorted in Hst.
    induction Hst as [|x xs Hst IHs Hx]; [constructor|]. rewrite fmap_cons. constructor; [|done].
    intros (y & E & Hy)%list_elem_of_fmap. simpl in E. apply (proj1 (Forall_forall _ _) Hx) in Hy.
    rewrite E in Hy. by apply klt_irrefl in Hy.
  - intros k (p & -> & (x & -> & Hx)%list_elem_of_fmap)%list_elem_of_fmap
      (q & E & Hq)%list_elem_of_fmap. simpl in E.
    apply list_elem_of_bind in Hq as ([id' f'] & (y & -> & Hy)%list_elem_of_fmap & Hin). simpl in E.
    destruct (bucket_entries_placed id f x) as [Eid _]; [apply Hok; left|done|].
    destruct (bucket_entries_placed id' f' y) as [Eid' _]; [apply Hok; by right|done|].
    rewrite Forall_forall in Hall. pose proof (Hall id' ltac:(apply list_elem_of_fmap; by exists (id', f'))) as Hlt.
    rewrite <- Eid, <- Eid', E in Hlt. by apply klt_irrefl in Hlt.
  - apply IH; [done|]. intros; apply Hok; by right.
Qed.

(** [iter_entries] yields exactly the entries that [lookup] finds, each once
    and with its bucket, whichever section holds them; [entry_count] is their
    number. *)
Theorem iter_entries_is_the_view m :
  manager_ok m ->
  (forall b x, (b, x) ∈ iter_entries m <->
     length (key x) = 9%nat /\ b = get_bucket_index (key x) /\ lookup m (key x) = Some x) /\
  NoDup ((fun p => key (snd p)) <$> iter_entries m) /\ entry_count m = length (iter_entries m).
Proof.
  intros Hm. pose proof (mgr_sorted m Hm) as Hs.
  assert (Hok : forall id f, (id, f) ∈ indices m -> index_ok id f).
  { intros id f Hin. apply (mgr_indices m Hm). by apply bt_get_In. }
  split_and!; [|by apply iter_keys_nodup|done]. intros b x. rewrite iter_entries_elem. split.
  - intros (f & Hin & Hx). destruct (bucket_entries_placed b f x (Hok b f Hin) Hx) as [<- L].
    split_and!; [done|done|]. unfold lookup. apply bt_get_In in Hin; [|done]. rewrite Hin.
    rewrite truncate_take, take_ge by lia. apply bucket_entries_view; [|done]. apply (mgr_indices m Hm _ _ Hin).
  - intros (L & -> & Hl). unfold lookup in Hl. destruct (bt_get _ (indices m)) as [f|] eqn:Ef; [|done].
    rewrite truncate_take, take_ge in Hl by lia. exists f. split; [by apply bt_get_In|].
    apply bucket_entries_view; [|done]. apply (mgr_indices m Hm _ _ Ef).
Qed.

Lemma iter_entries_is_the_view_witness :
  (forall b x, (b, x) ∈ iter_entries full_manager <->
     length (key x) = 9%nat /\ b = get_bucket_index (key x) /\ lookup full_manager (key x) = Some x) /\
  NoDup ((fun p => key (snd p)) <$> iter_entries full_manager) /\
  entry_count full_manager = length (iter_entries full_manager).
Proof. apply iter_entries_is_the_view, full_manager_ok. Defined.

(** ** Saving a file *)

Lemma save_attempt_get io a temp name image d n :
  n <> temp -> temp <> name ->
  let '(err, d') := save_attempt io a temp name image d in
  disk_get d' n = match err with None => if bool_decide (n = name) then Some image else disk_get d n
                  | Some _ => disk_get d n end.
Proof.
  intros Hn Hne. unfold save_attempt. destruct (write_ok io a); [destruct (rename_ok io a)|].
  - case_bool_decide as E; [subst; apply disk_get_write|].
    by rewrite disk_get_write_ne, disk_get_remove, disk_get_write_ne.
  - destruct (remove_ok io a); rewrite ?disk_get_remove by done; by apply disk_get_write_ne.
  - destruct (partial io a), (remove_ok io a); rewrite ?disk_get_remove by done; try done; by apply disk_get_write_ne.
Qed.

Lemma save_attempts_get io l temp name image d n :
  n <> temp -> temp <> name ->
  let '(r, d') := save_attempts io l temp name image d in
  disk_get d' n = match r with Ok _ => if bool_decide (n = name) then Some image else disk_get d n
                  | Err _ => disk_get d n end.
Proof.
  intros Hn Hne. revert d. induction l as [|a l IH]; intros d; simpl; [done|].
  pose proof (save_attempt_get io a temp name image d n Hn Hne) as H.
  destruct (save_attempt _ _ _ _ _ _) as [[e|] d']; [|done].
  specialize (IH d'). destruct (save_attempts _ _ _ _ _ _) as [[|] d'']; by rewrite IH, H.
Qed.

Lemma save_attempts_ok io l temp name image d :
  fst (save_attempts io l temp name image d) = Ok tt <->
  exists a, a ∈ l /\ write_ok io a = true /\ rename_ok io a = true.
Proof.
  revert d. induction l as [|a l IH]; intros d; simpl.
  - split; [done|]. intros (a & []%elem_of_nil & _).
  - unfold save_attempt. setoid_rewrite elem_of_cons.
    destruct (write_ok io a) eqn:Ew; [destruct (rename_ok io a) eqn:Er|].
    1: split; [intros _; exists a; auto|done].
    all: rewrite IH; split; [intros (b & ? & ?); eauto|intros (b & [->|] & ? & ?); [congruence|eauto]].
Qed.

Lemma temp_name_differs id v : temp_filename id v <> generate_index_filename id v.
Proof.
  unfold temp_filename, generate_index_filename. intros E.
  apply (inj (app (hex_be 1 id))), (inj (app (hex_be 4 v))) in E. done.
Qed.

(** C31: a save is all or nothing.  Whatever writes and renames fail and whatever
    a failed write leaves behind, the index file afterwards holds either the
    complete new image (exactly when the save reports success, which it does if
    one of the three attempts goes through) or its old content, and no other file
    but the temporary one is touched. *)
Theorem save_index_atomic io id f d :
  std_header (header f) ->
  exists r d', save_index io id f d = Ret (r, d') /\
    (forall n, n <> temp_filename id 1 -> n <> generate_index_filename id 1 -> disk_get d' n = disk_get d n) /\
    match r with
    | Ok _ => exists image, index_image id f = Ret (Ok image) /\
        disk_get d' (generate_index_filename id 1) = Some image /\
        exists a, (a < 3)%nat /\ write_ok io a = true /\ rename_ok io a = true
    | Err e => save_error e /\
        disk_get d' (generate_index_filename id 1) = disk_get d (generate_index_filename id 1)
    end.
Proof.
  intros Hh. pose proof (temp_name_differs id 1) as Hne. unfold save_index.
  destruct (index_image_ret id f Hh) as ([img|e] & Eimg & He); rewrite Eimg; cbn [mbind outcome_bind].
  2: { exists (Err e), d. split_and!; auto. }
  pose proof (fun n Hn => save_attempts_get io [0;1;2]%nat (temp_filename id 1) (generate_index_filename id 1) img d n Hn Hne) as Hget.
  pose proof (save_attempts_ok io [0;1;2]%nat (temp_filename id 1) (generate_index_filename id 1) img d) as Hok.
  pose proof (save_attempts_error io [0;1;2]%nat (temp_filename id 1) (generate_index_filename id 1) img d) as Herr.
  destruct (save_attempts _ _ _ _ _ _) as [r d'] eqn:E. cbn [fst] in *. exists r, d'. split_and!; [done| |].
  - intros n Hn Hn'. rewrite (Hget n Hn). destruct r; [|done]. by rewrite bool_decide_false.
  - destruct r as [[]|e].
    + exists img. split_and!; [done|by rewrite Hget, bool_decide_true by auto|].
      destruct (proj1 Hok eq_refl) as (a & Ha & ?). exists a. split; [|done]. set_unfold in Ha. lia.
    + split; [by apply Herr|]. by rewrite Hget by auto.
Qed.

Lemma save_index_atomic_witness :
  exists r d', save_index io_all_ok 3 (new_bucket 3) [] = Ret (r, d') /\
    (forall n, n <> temp_filename 3 1 -> n <> generate_index_filename 3 1 -> disk_get d' n = disk_get [] n) /\
    match r with
    | Ok _ => exists image, index_image 3 (new_bucket 3) = Ret (Ok image) /\
        disk_get d' (generate_index_filename 3 1) = Some image /\
        exists a, (a < 3)%nat /\ write_ok io_all_ok a = true /\ rename_ok io_all_ok a = true
    | Err e => save_error e /\
        disk_get d' (generate_index_filename 3 1) = disk_get [] (generate_index_filename 3 1)
    end.
Proof. apply save_index_atomic. decide_now. Defined.

(** ** Sequences of operations *)

Inductive op : Type :=
| OpAdd (key : bytes) (archive_id archive_offset size : Z)
| OpRemove (key : bytes)
| OpUpdate (key : bytes) (archive_id archive_offset size : Z)
| OpStatus (key : bytes) (status : Update.UpdateStatus)
| OpFlush (bucket : Z)
| OpFlushAll
| OpClear
| OpClearBucket (bucket : Z).

Definition op_ok (o : op) : Prop :=
  match o with
  | OpAdd k a f s | OpUpdate k a f s =>
      is_array 16 k /\ loc_ok {| archive_id := a; archive_offset := f |} /\ u32 s
  | OpRemove k | OpStatus k _ => is_array 16 k
  | _ => True
  end.

Definition run_op (io : Io) (o : op) (s : IndexManager * disk) : outcome (IndexManager * disk) :=
  let '(m, d) := s in
  match o with
  | OpAdd k a f sz => '(_, m, d) ← add_entry io m k a f sz d; Ret (m, d)
  | OpRemove k => Ret (snd (remove_entry m k), d)
  | OpUpdate k a f sz => Ret (snd (update_entry m k a f sz), d)
  | OpStatus k st => Ret (snd (update_entry_status m k st), d)
  | OpFlush b => '(_, m, d) ← flush_updates_for_bucket io b m d; Ret (m, d)
  | OpFlushAll => '(_, m, d) ← flush_all_updates io m d; Ret (m, d)
  | OpClear => Ret (clear m, d)
  | OpClearBucket b => Ret (snd (clear_bucket m b), d)
  end.

(** The system calls of each operation fail independently. *)
Fixpoint run_ops (os : list (Io * op)) (s : IndexManager * disk) : outcome (IndexManager * disk) :=
  match os with
  | [] => Ret s
  | (io, o) :: os => s ← run_op io o s; run_ops os s
  end.

Lemma flush_list_spec io bs m d :
  manager_ok m ->
  exists r m' d', flush_list io bs m d = Ret (r, m', d') /\ manager_ok m' /\ (forall k, lookup m' k = lookup m k).
Proof.
  revert m d. induction bs as [|b bs IH]; intros m d Hm; simpl; [eauto 6|].
  destruct (flush_spec io b m d Hm) as (r & m1 & d1 & -> & Hm1 & Hl & _). cbn [mbind outcome_bind].
  destruct r; [|eauto 6]. destruct (IH m1 d1 Hm1) as (r' & m2 & d2 & -> & Hm2 & Hl2).
  eexists _, _, _. split_and!; [done|done|]. intros k. by rewrite Hl2.
Qed.

Lemma cleared_ok id f : index_ok id f -> index_ok id (cleared f).
Proof. intros [Hh _ _ Hs _]. split; [done|constructor|constructor|by apply Update.clear_ok|constructor]. Qed.

Lemma cleared_view f k : search_both_sections (cleared f) k = None.
Proof. done. Qed.

Lemma clear_get m id : bt_get id (indices (clear m)) = cleared <$> bt_get id (indices m).
Proof.
  unfold clear. cbn [indices]. induction (indices m) as [|[id' f] l IH]; [done|]. cbn.
  destruct (id ?= id'); [done|apply IH..].
Qed.

Lemma manager_clear_ok m : manager_ok m -> manager_ok (clear m) /\ forall k, lookup (clear m) k = None.
Proof.
  intros [Hs Hm]. split; [split|].
  - unfold bt_sorted, clear in *. cbn [indices]. rewrite <- list_fmap_compose.
    by replace (_ <$> indices m) with (indices m).*1 by (apply list_fmap_ext; by intros ? []).
  - intros id f. rewrite clear_get. destruct (bt_get id (indices m)) eqn:E; intros [= <-].
    by apply cleared_ok, Hm.
  - intros k. unfold lookup. rewrite clear_get. by destruct (bt_get _ (indices m)).
Qed.

Lemma clear_bucket_ok m b :
  manager_ok m ->
  let '(n, m') := clear_bucket m b in
  manager_ok m' /\ n = bucket_entry_count m b /\
  forall k, lookup m' k = if get_bucket_index k =? b then None else lookup m k.
Proof.
  intros Hm. unfold clear_bucket, bucket_entry_count. destruct (bt_get b (indices m)) as [f|] eqn:E.
  - split_and!; [by eapply set_index_ok, cleared_ok, mgr_indices|done|].
    intros k. by rewrite lookup_set_index.
  - split_and!; [done..|]. intros k. destruct (Z.eqb_spec (get_bucket_index k) b) as [<-|]; [|done].
    unfold lookup. by rewrite E.
Qed.

Lemma run_op_ok io o m d :
  manager_ok m -> op_ok o -> exists m' d', run_op io o (m, d) = Ret (m', d') /\ manager_ok m'.
Proof.
  intros Hm Ho. destruct o as [k aid off sz|k|k aid off sz|k st|b| | |b]; simpl in *.
  - destruct Ho as (Hk & Hl & Hs). destruct (add_entry_spec io m k aid off sz d)
      as (r & m' & d' & -> & Hm' & _); [done..|]. cbn. eauto.
  - pose proof (remove_entry_spec m k Hm Ho) as H. destruct (remove_entry m k). destruct H as (_ & ? & _). eauto.
  - destruct Ho as (Hk & Hl & Hs). pose proof (update_entry_spec m k aid off sz Update.Normal Hm Hk Hl Hs) as H.
    destruct (update_entry _ _ _ _ _), (update_entry_status _ _ _). destruct H as (? & _). eauto.
  - pose proof (update_entry_spec m k 0 0 0 st Hm Ho ltac:(decide_now) ltac:(decide_now)) as H.
    destruct (update_entry _ _ _ _ _), (update_entry_status _ _ _). destruct H as (_ & ? & _). eauto.
  - destruct (flush_spec io b m d Hm) as (r & m' & d' & -> & Hm' & _). cbn. eauto.
  - unfold flush_all_updates. destruct (flush_list_spec io (indices m).*1 m d Hm) as (r & m' & d' & -> & Hm' & _).
    cbn. eauto.
  - eexists _, _. split; [done|]. by apply manager_clear_ok.
  - pose proof (clear_bucket_ok m b Hm) as H. destruct (clear_bucket m b). destruct H. eauto.
Qed.

(** C30: whatever operations are run on a well-formed manager, with whatever
    system calls failing, none panics and the manager stays well-formed: every
    bucket sorted without duplicate keys, every entry in its bucket and in range,
    every update section well-formed. *)
Theorem manager_never_panics os m d :
  manager_ok m -> Forall (fun p => op_ok (snd p)) os ->
  exists m' d', run_ops os (m, d) = Ret (m', d') /\ manager_ok m'.
Proof.
  intros Hm Hos. revert m d Hm. induction Hos as [|[io o] os Ho Hos IH]; intros m d Hm; cbn [run_ops]; [eauto|].
  destruct (run_op_ok io o m d Hm Ho) as (m1 & d1 & -> & Hm1). cbn [mbind outcome_bind]. by apply IH.
Qed.

Lemma manager_never_panics_witness :
  exists m' d', run_ops [(io_all_ok, OpAdd full_key 3 4096 10); (io_all_ok, OpFlushAll); (io_all_ok, OpRemove full_key)]
    (full_manager, []) = Ret (m', d') /\ manager_ok m'.
Proof.
  apply manager_never_panics; [apply full_manager_ok|].
  apply Forall_cons_2; [simpl; split_and!; decide_now|apply Forall_cons_2; [done|]].
  apply Forall_cons_2; [simpl; decide_now|constructor].
Defined.

(** ** Saving every bucket and loading the directory *)

(** Everything a bucket holds fits its file: beside the ranges of [index_ok], no
    sorted key is all zero and the entry block is under 4 GiB. *)
Definition savable (m : IndexManager) : Prop :=
  forall id f, (id, f) ∈ indices m -> u8 id /\ file_ok f.

Definition saved_file (p : Z * IndexFile) (file : bytes * bytes) : Prop :=
  fst file = generate_index_filename (fst p) 1 /\ index_image (fst p) (snd p) = Ret (Ok (snd file)).

Lemma name_inj id id' : u8 id -> u8 id' -> generate_index_filename id 1 = generate_index_filename id' 1 -> id = id'.
Proof.
  intros H H' E. pose proof (parse_generated id 1 H ltac:(decide_now)) as P.
  rewrite E, (parse_generated id' 1 H' ltac:(decide_now)) in P. congruence.
Qed.

Lemma temp_not_name id id' : temp_filename id 1 <> generate_index_filename id' 1.
Proof.
  unfold temp_filename, generate_index_filename. intros E.
  apply app_inj_1 in E as [_ E]; [|by rewrite !hex_be_length].
  by apply (inj (app (hex_be 4 1))) in E.
Qed.

Lemma disk_remove_none d n : n ∉ d.*1 -> disk_remove d n = d.
Proof.
  intros H. unfold disk_remove. apply filter_all. intros [x c] Hx E. simpl in E. subst x.
  apply H, list_elem_of_fmap. by exists (n, c).
Qed.

Lemma save_index_fresh id f d :
  file_ok f -> generate_index_filename id 1 ∉ d.*1 -> temp_filename id 1 ∉ d.*1 ->
  exists img, saved_file (id, f) (generate_index_filename id 1, img) /\
    save_index io_all_ok id f d = Ret (Ok tt, d ++ [(generate_index_filename id 1, img)]).
Proof.
  intros Hf Hn Ht. destruct (index_image_eq id f) as (hh & eh & _ & _ & E).
  { apply Hf. } { rewrite length_packed by apply Hf. pose proof (ok_size f Hf). lia. }
  eexists. split; [split; [done|exact E]|]. unfold save_index. rewrite E. cbn [mbind outcome_bind].
  cbn [save_attempts save_attempt io_all_ok write_ok rename_ok]. do 2 f_equal.
  unfold disk_write. rewrite (disk_remove_none d (temp_filename id 1)) by done.
  assert (disk_remove (d ++ [(temp_filename id 1, image_with id hh eh f)]) (temp_filename id 1) = d) as ->.
  { unfold disk_remove. rewrite filter_app, filter_cons_False by (simpl; auto). rewrite app_nil_r.
    by apply disk_remove_none. }
  by rewrite disk_remove_none.
Qed.

Lemma saved_names (l : list (Z * IndexFile)) d n :
  Forall2 saved_file l d -> n ∈ d.*1 -> exists id, id ∈ l.*1 /\ n = generate_index_filename id 1.
Proof.
  induction 1 as [|[id f] [n' c] l d [Hn _] _ IH]; [by intros ?%elem_of_nil|]. rewrite !fmap_cons.
  intros [->|Hin]%elem_of_cons; [exists id; split; [left|done]|].
  destruct (IH Hin) as (id' & ? & ?). exists id'. split; [by right|done].
Qed.

Lemma save_list_fresh l l0 d0 :
  NoDup (l0 ++ l).*1 -> (forall id f, (id, f) ∈ l0 ++ l -> u8 id /\ file_ok f) -> Forall2 saved_file l0 d0 ->
  exists d', save_list io_all_ok l d0 = Ret (Ok tt, d') /\ Forall2 saved_file (l0 ++ l) d'.
Proof.
  revert l0 d0. induction l as [|[id f] l IH]; intros l0 d0 Hnd Hok Hd0; cbn [save_list].
  - rewrite app_nil_r. eauto.
  - destruct (save_index_fresh id f d0) as (img & Himg & ->).
    + apply (Hok id f). set_solver.
    + intros (id' & Hid' & E)%(saved_names l0 d0 _ Hd0). rewrite fmap_app in Hnd.
      apply NoDup_app in Hnd as (_ & Hdis & _). apply (Hdis id' Hid').
      apply list_elem_of_fmap in Hid' as ([id2 f2] & -> & Hin2). simpl in *.
      rewrite <- (name_inj id id2); [left| | |done].
      * apply (Hok id f). set_solver.
      * apply (Hok id2 f2). set_solver.
    + intros (id' & _ & E)%(saved_names l0 d0 _ Hd0). by apply temp_not_name in E.
    + cbn [mbind outcome_bind]. rewrite (cons_middle _ l0 l), app_assoc in *.
      apply IH; [done|done|]. apply Forall2_app; [done|by constructor].
Qed.

Lemma load_saved_view id f c :
  file_ok f -> index_image id f = Ret (Ok c) ->
  exists f', load_index c = Ret (Ok f') /\ forall k, search_both_sections f' k = search_both_sections f k.
Proof.
  intros Hf E. pose proof (length_packed _ (ok_entries f Hf)) as Lp. pose proof (ok_size f Hf) as Hsz.
  destruct (index_image_eq id f) as (hh & eh & Hhh & Heh & E'); [apply Hf|lia|].
  rewrite E in E'. injection E' as ->. destruct (loaded_section_pages id hh eh f Hf) as [Hp _].
  eexists. split; [by apply load_image|]. intros k. rewrite !search_both_visible.
  cbn [update_section entries]. unfold Update.search. by rewrite Hp.
Qed.

Lemma load_one m id v f c :
  u8 id -> u32 v -> file_ok f -> index_image id f = Ret (Ok c) ->
  exists f', load_dir_entry io_all_ok (generate_index_filename id v, c) m = Ret (Ok tt, set_index m id f') /\
    forall k, search_both_sections f' k = search_both_sections f k.
Proof.
  intros Hid Hv Hf Hc. destruct (load_saved_view id f c Hf Hc) as (f' & Hload & Hview).
  exists f'. split; [|done]. unfold load_dir_entry. cbn [fst].
  rewrite utf8_valid_ascii, parse_generated by (done || (eapply Forall_impl; [apply generated_ascii|simpl; lia])).
  cbn [mbind outcome_bind]. unfold load_file. cbn [io_all_ok read_file_ok snd]. by rewrite Hload.
Qed.

Lemma load_files_saved l d m :
  Forall2 saved_file l d -> NoDup l.*1 -> (forall id f, (id, f) ∈ l -> u8 id /\ file_ok f) ->
  exists m', load_files io_all_ok d m = Ret (Ok tt, m') /\
    forall k, lookup m' k = match last_of (get_bucket_index k) l with
                            | Some f => search_both_sections f (truncate_key k)
                            | None => lookup m k
                            end.
Proof.
  intros H. revert m. induction H as [|[id f] [n c] l d [Hn Hc] _ IH]; intros m Hnd Hok; [by exists m|].
  destruct (Hok id f ltac:(left)) as [Hid Hf]. simpl in Hn, Hc. subst n.
  destruct (load_one m id 1 f c Hid ltac:(decide_now) Hf Hc) as (f' & Hload & Hview).
  cbn [load_files io_all_ok next_entry_ok]. rewrite Hload.
  cbn [mbind outcome_bind]. destruct (IH (set_index m id f')) as (m' & -> & Hl).
  { by apply NoDup_cons in Hnd as [_ ?]. } { intros. apply Hok. by right. }
  exists m'. split; [done|]. intros k. rewrite Hl. cbn [last_of].
  destruct (last_of (get_bucket_index k) l); [done|]. rewrite lookup_set_index, Hview. cbn [kcmp Z_ord].
  destruct (Z.compare_spec (get_bucket_index k) id) as [->|Hlt|Hlt]; [by rewrite Z.eqb_refl|..];
    by rewrite (proj2 (Z.eqb_neq _ _)) by lia.
Qed.

Lemma sorted_nodup (m : list (Z * IndexFile)) : bt_sorted m -> NoDup m.*1.
Proof.
  unfold bt_sorted. induction 1 as [|x l Hs IH Hall]; constructor; [|done].
  intros Hin. apply (proj1 (Forall_forall _ _) Hall) in Hin. by apply klt_irrefl in Hin.
Qed.

Lemma last_of_get (m : list (Z * IndexFile)) k : bt_sorted m -> last_of k m = bt_get k m.
Proof.
  intros Hs. destruct (last_of k m) as [v|] eqn:E; symmetry.
  - apply bt_get_In; [done|]. by apply last_of_elem.
  - destruct (bt_get k m) as [v|] eqn:Eg; [|done]. apply bt_get_In in Eg; [|done].
    by apply (last_of_None k m E) in Eg.
Qed.

(** A restart loses nothing.  Saving every bucket into an empty directory and
    loading that directory into a new manager gives back a manager with the same
    answer to every lookup, from both sections of every bucket. *)
Theorem save_all_load_all m :
  manager_ok m -> savable m ->
  exists d m', save_all io_all_ok m [] = Ret (Ok tt, d) /\ load_all io_all_ok manager_new d = Ret (Ok tt, m') /\
    forall k, lookup m' k = lookup m k.
Proof.
  intros Hm Hsv. pose proof (sorted_nodup _ (mgr_sorted m Hm)) as Hnd.
  destruct (save_list_fresh (indices m) [] []) as (d & Hsave & Hd); [done|done|constructor|].
  destruct (load_files_saved (indices m) d manager_new Hd Hnd Hsv) as (m' & Hload & Hl).
  exists d, m'. split_and!; [done|done|]. intros k. rewrite Hl, last_of_get by apply Hm.
  unfold lookup. by destruct (bt_get _ (indices m)).
Qed.

Lemma full_manager_savable : savable full_manager.
Proof.
  intros id f Hin. assert (bt_get id (indices full_manager) = Some f) as Hg.
  { apply bt_get_In; [apply full_manager_ok|done]. }
  destruct (mgr_indices _ full_manager_ok id f Hg) as [Hh _ _ Hs _].
  unfold full_manager, set_index in Hin. cbn [indices bt_insert manager_new] in Hin.
  apply list_elem_of_singleton in Hin. injection Hin as -> ->. split; [decide_now|].
  split; [done|constructor|constructor|done|done].
Qed.

Lemma save_all_load_all_witness :
  exists d m', save_all io_all_ok full_manager [] = Ret (Ok tt, d) /\
    load_all io_all_ok manager_new d = Ret (Ok tt, m') /\ forall k, lookup m' k = lookup full_manager k.
Proof. apply save_all_load_all; [apply full_manager_ok|apply full_manager_savable]. Defined.

(** Of two files of one bucket, [load_all] keeps the one the directory lists
    last; the version in the name decides nothing, so an older file can hide a
    newer one. *)
Theorem load_all_last_listed_wins id v1 v2 f1 f2 c1 c2 :
  u8 id -> u32 v1 -> u32 v2 -> file_ok f1 -> file_ok f2 ->
  index_image id f1 = Ret (Ok c1) -> index_image id f2 = Ret (Ok c2) ->
  exists m', load_all io_all_ok manager_new
      [(generate_index_filename id v1, c1); (generate_index_filename id v2, c2)] = Ret (Ok tt, m') /\
    forall k, get_bucket_index k = id -> lookup m' k = search_both_sections f2 (truncate_key k).
Proof.
  intros Hid Hv1 Hv2 Hf1 Hf2 Hc1 Hc2.
  destruct (load_one manager_new id v1 f1 c1 Hid Hv1 Hf1 Hc1) as (f1' & E1 & _).
  destruct (load_one (set_index manager_new id f1') id v2 f2 c2 Hid Hv2 Hf2 Hc2) as (f2' & E2 & Hview).
  eexists. unfold load_all. cbn [load_files io_all_ok read_dir_ok next_entry_ok]. rewrite E1. cbn [mbind outcome_bind].
  rewrite E2. split; [done|]. intros k <-. by rewrite lookup_set_index, Z.eqb_refl.
Qed.

Definition image_of (id : Z) (f : IndexFile) : bytes :=
  match index_image id f with Ret (Ok c) => c | _ => [] end.

Lemma image_of_eq id f : file_ok f -> index_image id f = Ret (Ok (image_of id f)).
Proof.
  intros Hf. destruct (index_image_eq id f) as (hh & eh & _ & _ & E).
  { apply Hf. } { rewrite length_packed by apply Hf. pose proof (ok_size f Hf). lia. }
  unfold image_of. by rewrite E.
Qed.

Lemma cleared_sample_ok : file_ok (cleared sample_file).
Proof.
  destruct sample_file_ok as [Hh _ _ Hs _].
  split; [done|constructor|constructor|by apply Update.clear_ok|done].
Qed.

Lemma load_all_last_listed_wins_witness :
  exists m', load_all io_all_ok manager_new
      [(generate_index_filename 3 2, image_of 3 sample_file); (generate_index_filename 3 1, image_of 3 (cleared sample_file))]
      = Ret (Ok tt, m') /\
    forall k, get_bucket_index k = 3 -> lookup m' k = search_both_sections (cleared sample_file) (truncate_key k).
Proof.
  apply (load_all_last_listed_wins 3 2 1 sample_file); [decide_now..|apply sample_file_ok|apply cleared_sample_ok| |].
  - apply image_of_eq, sample_file_ok.
  - apply image_of_eq, cleared_sample_ok.
Defined.

(** A V5 file with the same key in both of its blocks. *)
Definition duplicate_v5 : bytes :=
  let row1 := to_packed (new [1;2;3;4;5;6;7;8;9] 1 4096 100) in
  let row2 := to_packed (new [1;2;3;4;5;6;7;8;9] 2 8192 200) in
  let hd := [5; 0; 3; 0] ++ zeros 4 ++ to_le_bytes 8 1 ++ to_le_bytes 8 0x40000000 ++ [4; 5; 9; 30] ++
    to_le_bytes 4 1 ++ to_le_bytes 4 1 ++ to_le_bytes 4 (Jenkins.jenkins row1 0) ++
    to_le_bytes 4 (Jenkins.jenkins row2 0) in
  hd ++ to_le_bytes 4 (Jenkins.jenkins (hd ++ zeros 4) 0) ++ row1 ++ row2.

(** The merge relies on sorted keys being distinct, which no loader enforces:
    for a V5 file with a key in both blocks, a deleted key is hidden by its
    tombstone before the flush and comes back after it, since the merge skips one
    sorted entry per update. *)
Theorem flush_resurrects_duplicate :
  exists f tombstone k, load_v5_index duplicate_v5 = Ret (Ok f) /\
    let f1 := with_section f (snd (Update.append (update_section f) tombstone)) in
    search_both_sections f1 k = None /\ is_Some (search_both_sections (flushed f1) k).
Proof.
  destruct (load_v5_index duplicate_v5) as [[f|e]|] eqn:E; [|vm_compute in E; discriminate..].
  exists f, (Update.new [1;2;3;4;5;6;7;8;9] {| archive_id := 1; archive_offset := 4096 |} 100 Update.Delete),
    [1;2;3;4;5;6;7;8;9]. split; [done|].
  vm_compute in E. injection E as <-. split; [by vm_compute|vm_compute; eauto].
Qed.
