(* ===== verification/LocalHeader.v ===== *)
(** * The local BLTE entry header: crates/cascette-client-storage/src/storage/local_header.rs

    The 30 bytes in front of every blob of an archive: the reversed encoding
    key, the size, flags, a Jenkins checksum of the first 22 bytes and an XOR
    checksum of the first 26 that also depends on the position of the entry. *)

From S2P Require Import Prelude Bytes Jenkins.
Local Open Scope Z_scope.

Module LocalHeader.

Definition LOCAL_HEADER_SIZE : nat := 30.
Definition CHECKSUM_A_SEED : Z := 0x3D6BE971.

Definition CHECKSUM_B_LUT : list Z :=
  [0x049396B8; 0x72A82A9B; 0xEE626CCA; 0x9917754F; 0x15DE40B1; 0xF5A8A9B6; 0x421EAC7E; 0xA9D55C9A;
   0x317FD40C; 0x04FAF80D; 0x3D6BE971; 0x52933CFD; 0x27F64B7D; 0xC6F5C11B; 0xD5757E3A; 0x6C388745].

Record LocalHeader := {
  encoding_key : bytes;
  encoded_size : Z;
  flags : Z;
  checksum_a : Z;
  checksum_b : Z;
}.

Definition to_bytes (h : LocalHeader) : bytes :=
  let buf := zeros LOCAL_HEADER_SIZE in
  let buf := copy_at 0 (encoding_key h) buf in
  let buf := copy_at 16 (to_le_bytes 4 (encoded_size h)) buf in
  let buf := copy_at 20 (to_le_bytes 2 (flags h)) buf in
  let buf := copy_at 22 (to_le_bytes 4 (checksum_a h)) buf in
  copy_at 26 (to_le_bytes 4 (checksum_b h)) buf.

Definition from_bytes (data : bytes) : option LocalHeader :=
  if (length data <? LOCAL_HEADER_SIZE)%nat then None
  else Some
    {| encoding_key := slice 0 16 data;
       encoded_size := from_le_bytes (slice 16 20 data);
       flags := from_le_bytes (slice 20 22 data);
       checksum_a := from_le_bytes (slice 22 26 data);
       checksum_b := from_le_bytes (slice 26 30 data) |}.

Definition compute_checksum_a (header_bytes : bytes) : Z :=
  Jenkins.jenkins (take 22 header_bytes) CHECKSUM_A_SEED.

(** [(global_offset + i) & 3], in [usize]. *)
Definition lane (global_offset : Z) (i : nat) : nat := Z.to_nat (Z.land (wrap64 (global_offset + Z.of_nat i)) 3).

Definition accumulate (global_offset : Z) (l : list (nat * Z)) (accum : bytes) : bytes :=
  fold_left (fun accum '(i, byte) => alter (fun a => Z.lxor a byte) (lane global_offset i) accum) l accum.

Definition checksum_b_mask (global_offset : Z) : bytes :=
  let offset_plus_header := wrap64 (global_offset + Z.of_nat LOCAL_HEADER_SIZE) in
  let lut_index := Z.to_nat (Z.land offset_plus_header 0xF) in
  to_le_bytes 4 (Z.lxor (nth lut_index CHECKSUM_B_LUT 0) (wrap32 offset_plus_header)).

Definition compute_checksum_b (header_bytes : bytes) (global_offset : Z) : Z :=
  let accum := accumulate global_offset (imap pair (take 26 header_bytes)) (zeros 4) in
  let mask := checksum_b_mask global_offset in
  let result := (fun i => let j := lane global_offset (26 + i) in Z.lxor (nth j accum 0) (nth j mask 0)) <$> seq 0 4 in
  from_le_bytes result.

Definition validate_checksums (h : LocalHeader) (base_offset : Z) : bool :=
  let bytes := to_bytes h in
  (checksum_a h =? compute_checksum_a bytes) && (checksum_b h =? compute_checksum_b bytes base_offset).

(** The two loops that reverse a 16-byte key. *)
Definition reverse_key (key : bytes) : bytes := (fun i => nth (15 - i)%nat key 0) <$> seq 0 16.

Definition new (encoding_key : bytes) (encoded_size global_offset flags : Z) : LocalHeader :=
  let header := {| encoding_key := reverse_key encoding_key; encoded_size := encoded_size; flags := flags;
                   checksum_a := 0; checksum_b := 0 |} in
  let bytes := to_bytes header in
  let checksum_a := compute_checksum_a bytes in
  let bytes := copy_at 22 (to_le_bytes 4 checksum_a) bytes in
  {| encoding_key := reverse_key encoding_key; encoded_size := encoded_size; flags := flags;
     checksum_a := checksum_a; checksum_b := compute_checksum_b bytes global_offset |}.

Definition original_encoding_key (h : LocalHeader) : bytes := reverse_key (encoding_key h).

Definition blte_size (h : LocalHeader) : Z := encoded_size h.

(** ** The codec *)

Definition header_ok (h : LocalHeader) : Prop :=
  is_array 16 (encoding_key h) /\ u32 (encoded_size h) /\ u16 (flags h) /\
  u32 (checksum_a h) /\ u32 (checksum_b h).

Lemma to_bytes_eq h :
  length (encoding_key h) = 16%nat ->
  to_bytes h = encoding_key h ++ to_le_bytes 4 (encoded_size h) ++ to_le_bytes 2 (flags h) ++
    to_le_bytes 4 (checksum_a h) ++ to_le_bytes 4 (checksum_b h).
Proof.
  destruct h as [k s f a b]. unfold to_bytes, LOCAL_HEADER_SIZE.
  cbn [encoding_key encoded_size flags checksum_a checksum_b]. intros Hk.
  pose proof (length_to_le_bytes 4 s) as L1. pose proof (length_to_le_bytes 2 f) as L2.
  pose proof (length_to_le_bytes 4 a) as L3. pose proof (length_to_le_bytes 4 b) as L4.
  generalize dependent (to_le_bytes 4 s). generalize dependent (to_le_bytes 2 f).
  generalize dependent (to_le_bytes 4 a). generalize dependent (to_le_bytes 4 b).
  intros l4 H4 l3 H3 l2 H2 l1 H1. explode H1. explode H2. explode H3. explode H4. explode Hk. by layout.
Qed.

Lemma to_bytes_array h : header_ok h -> is_array 30 (to_bytes h).
Proof.
  intros (Hk & _). rewrite to_bytes_eq by apply Hk. split.
  - rewrite !length_app, !length_to_le_bytes. destruct Hk as [-> _]. done.
  - repeat (apply is_bytes_app; split); auto using to_le_bytes_bytes. apply Hk.
Qed.

Lemma slice_app_here a b l1 l2 l3 :
  a = length l1 -> b = (length l1 + length l2)%nat -> slice a b (l1 ++ l2 ++ l3) = l2.
Proof.
  intros -> ->. rewrite slice_app_r by lia. rewrite Nat.sub_diag. apply slice_app_exact. lia.
Qed.

Lemma local_header_codec h : header_ok h -> from_bytes (to_bytes h) = Some h.
Proof.
  intros Hh. pose proof (to_bytes_array h Hh) as [L _]. unfold from_bytes. rewrite L. cbn [Nat.ltb Nat.leb LOCAL_HEADER_SIZE].
  destruct Hh as ([Lk Bk] & Hs & Hf & Ha & Hb). rewrite to_bytes_eq by done.
  destruct h as [k s f a b]. cbn [encoding_key encoded_size flags checksum_a checksum_b] in *.
  rewrite slice_app_exact by done.
  rewrite (slice_app_here 16 20 k) by (rewrite ?length_to_le_bytes; lia).
  rewrite (app_assoc k), (slice_app_here 20 22 (k ++ _)) by (rewrite ?length_app, ?length_to_le_bytes; lia).
  rewrite (app_assoc (k ++ _)), (slice_app_here 22 26 ((k ++ _) ++ _)) by (rewrite ?length_app, ?length_to_le_bytes; lia).
  rewrite (app_assoc ((k ++ _) ++ _)), slice_app_r by (rewrite !length_app, !length_to_le_bytes; lia).
  rewrite !length_app, !length_to_le_bytes, Lk. cbn [Nat.add Nat.sub].
  rewrite <- (app_nil_r (to_le_bytes 4 b)), slice_app_exact by by rewrite length_to_le_bytes.
  by rewrite !(le_roundtrip 4 32), (le_roundtrip 2 16).
Qed.

(** Every 30-byte array is the image of the header it parses to. *)
Lemma from_to_bytes data : is_array 30 data -> exists h, from_bytes data = Some h /\ header_ok h /\ to_bytes h = data.
Proof.
  intros [L B]. unfold from_bytes. rewrite L. cbn [Nat.ltb Nat.leb LOCAL_HEADER_SIZE]. eexists. split; [done|].
  assert (forall a b, (a <= b <= 30)%nat -> is_array (b - a) (slice a b data)) as Hsl.
  { intros a b Hab. split; [apply length_slice; lia|by apply slice_bytes]. }
  split.
  - unfold header_ok. cbn [encoding_key encoded_size flags checksum_a checksum_b]. split_and!.
    + apply (Hsl 0%nat 16%nat). lia.
    + apply (from_le_bytes_in_u 4); [done|]. apply (Hsl 16%nat 20%nat). lia.
    + apply (from_le_bytes_in_u 2); [done|]. apply (Hsl 20%nat 22%nat). lia.
    + apply (from_le_bytes_in_u 4); [done|]. apply (Hsl 22%nat 26%nat). lia.
    + apply (from_le_bytes_in_u 4); [done|]. apply (Hsl 26%nat 30%nat). lia.
  - rewrite to_bytes_eq by (cbn; by destruct (Hsl 0%nat 16%nat ltac:(lia))).
    cbn [encoding_key encoded_size flags checksum_a checksum_b].
    assert (forall a n, (a + n <= 30)%nat -> to_le_bytes n (from_le_bytes (slice a (a + n) data)) = slice a (a + n) data) as E.
    { intros a n Han. destruct (Hsl a (a + n)%nat) as [Ls Bs]; [lia|].
      replace n with (length (slice a (a + n) data)) at 1 by lia. by apply to_from_le_bytes. }
    pose proof (E 16%nat 4%nat ltac:(lia)) as E1. pose proof (E 20%nat 2%nat ltac:(lia)) as E2.
    pose proof (E 22%nat 4%nat ltac:(lia)) as E3. pose proof (E 26%nat 4%nat ltac:(lia)) as E4.
    cbn [Nat.add] in E1, E2, E3, E4. rewrite E1, E2, E3, E4.
    clear -L. explode L. by layout.
Qed.

(** ** The checksums *)

Lemma lane_range g i : (lane g i < 4)%nat.
Proof.
  unfold lane. change 3 with (Z.ones 2). rewrite Z.land_ones by lia.
  pose proof (Z.mod_pos_bound (wrap64 (g + Z.of_nat i)) (2 ^ 2)). lia.
Qed.

Lemma lane_mod g i : Z.of_nat (lane g i) = (g + Z.of_nat i) mod 4.
Proof.
  unfold lane, wrap64, wrap. change 3 with (Z.ones 2). rewrite Z.land_ones by lia.
  rewrite Z2Nat.id by (apply Z.mod_pos_bound; lia). change (2 ^ 64) with (4 * 2 ^ 62).
  rewrite Z.rem_mul_r by lia. change (2 ^ 2) with 4.
  rewrite Z.mul_comm, Z_mod_plus_full. by rewrite Z.mod_mod.
Qed.

(** The four lanes of the result read the four lanes of the accumulator. *)
Lemma lane_onto g j : (j < 4)%nat -> exists i, (i < 4)%nat /\ lane g (26 + i) = j.
Proof.
  intros Hj. exists (Z.to_nat ((Z.of_nat j - g - 26) mod 4)).
  pose proof (Z.mod_pos_bound (Z.of_nat j - g - 26) 4). split; [lia|].
  apply Nat2Z.inj. rewrite lane_mod, Nat2Z.inj_add, Z2Nat.id by lia.
  rewrite Z.add_assoc, Zplus_mod_idemp_r. replace (g + Z.of_nat 26 + (Z.of_nat j - g - 26)) with (Z.of_nat j) by lia.
  apply Z.mod_small. lia.
Qed.

Definition flip (g : Z) (i : nat) (byte : Z) (accum : bytes) : bytes :=
  alter (fun a => Z.lxor a byte) (lane g i) accum.

Lemma flip_comm g i b i' b' accum : flip g i b (flip g i' b' accum) = flip g i' b' (flip g i b accum).
Proof.
  unfold flip. destruct (decide (lane g i = lane g i')) as [E|Hne].
  - rewrite E, !list_alter_alter_eq. apply list_alter_ext; [|done]. intros x _. simpl.
    by rewrite !Z.lxor_assoc, (Z.lxor_comm b).
  - by apply list_alter_alter_ne.
Qed.

Lemma accumulate_snoc g l i b accum : accumulate g (l ++ [(i, b)]) accum = flip g i b (accumulate g l accum).
Proof. unfold accumulate. by rewrite fold_left_app. Qed.

Lemma accumulate_flip g l i b accum : accumulate g l (flip g i b accum) = flip g i b (accumulate g l accum).
Proof.
  revert accum. induction l as [|[i' b'] l IH] using rev_ind; intros accum; [done|].
  by rewrite !accumulate_snoc, IH, flip_comm.
Qed.

Lemma accumulate_middle g l1 i b l2 accum :
  accumulate g (l1 ++ (i, b) :: l2) accum = flip g i b (accumulate g (l1 ++ l2) accum).
Proof.
  rewrite <- accumulate_flip. unfold accumulate at 1 2. rewrite !fold_left_app. cbn [fold_left].
  f_equal. change (flip g i b (accumulate g l1 accum) = accumulate g l1 (flip g i b accum)).
  by rewrite accumulate_flip.
Qed.

Lemma accumulate_length g l accum : length (accumulate g l accum) = length accum.
Proof.
  revert accum. induction l as [|[i b] l IH] using rev_ind; intros accum; [done|].
  rewrite accumulate_snoc. unfold flip. by rewrite length_alter.
Qed.

Lemma accumulate_array g l accum :
  Forall (fun p => u8 (snd p)) l -> is_array 4 accum -> is_array 4 (accumulate g l accum).
Proof.
  revert accum. induction l as [|[i b] l IH] using rev_ind; intros accum Hl Ha; [done|].
  apply Forall_app in Hl as [Hl [Hb _]%Forall_cons]. rewrite accumulate_snoc.
  destruct (IH accum Hl Ha) as [L B]. unfold flip. split; [by rewrite length_alter|].
  apply Forall_alter; [done|]. intros x _ Hx. apply lxor_range; [lia|done|done].
Qed.

Lemma lxor_cancel_r x b b' : Z.lxor x b = Z.lxor x b' -> b = b'.
Proof.
  intros E. apply (f_equal (Z.lxor x)) in E. by rewrite <- !Z.lxor_assoc, Z.lxor_nilpotent in E.
Qed.

Lemma mask_array g : is_array 4 (checksum_b_mask g).
Proof. split; [apply length_to_le_bytes|apply to_le_bytes_bytes]. Qed.

Definition checksum_lanes (accum : bytes) (g : Z) : bytes :=
  (fun i => let j := lane g (26 + i) in Z.lxor (nth j accum 0) (nth j (checksum_b_mask g) 0)) <$> seq 0 4.

Lemma nth_bytes j l : is_bytes l -> u8 (nth j l 0).
Proof. intros Hl. destruct (nth_in_or_default j l 0) as [Hin| ->]; [|decide_now]. apply (proj1 (Forall_forall u8 l) Hl). by apply list_elem_of_In. Qed.

Lemma lanes_array accum g : is_array 4 accum -> is_array 4 (checksum_lanes accum g).
Proof.
  intros [_ Ba]. split; [done|]. apply Forall_fmap, Forall_true. intros i. unfold compose. cbv zeta beta.
  apply lxor_range; [lia| |]; apply nth_bytes; [done|apply mask_array].
Qed.

(** The checksum determines the accumulator. *)
Lemma checksum_lanes_inj a a' g :
  is_array 4 a -> is_array 4 a' -> from_le_bytes (checksum_lanes a g) = from_le_bytes (checksum_lanes a' g) -> a = a'.
Proof.
  intros Ha Ha' E. pose proof (lanes_array a g Ha) as [L B]. pose proof (lanes_array a' g Ha') as [L' B'].
  pose proof (to_from_le_bytes _ B) as T. pose proof (to_from_le_bytes _ B') as T'. rewrite L in T. rewrite L' in T'.
  apply (f_equal (to_le_bytes 4)) in E. rewrite T, T' in E.
  assert (forall j, (j < 4)%nat -> nth j a 0 = nth j a' 0) as Hn.
  { intros j Hj. destruct (lane_onto g j Hj) as (i & Hi & <-).
    apply (f_equal (fun l => l !! i)) in E. unfold checksum_lanes in E.
    rewrite !list_lookup_fmap, !lookup_seq_lt in E by done. cbn [fmap option_fmap option_map] in E.
    injection E as E. rewrite !(Z.lxor_comm (nth _ _ 0)) in E. by apply lxor_cancel_r in E. }
  destruct Ha as [La _], Ha' as [La' _]. explode La. explode La'.
  pose proof (Hn 0%nat ltac:(lia)). pose proof (Hn 1%nat ltac:(lia)). pose proof (Hn 2%nat ltac:(lia)).
  pose proof (Hn 3%nat ltac:(lia)). simpl in *. congruence.
Qed.

Lemma imap_bytes l : is_bytes l -> Forall (fun p : nat * Z => u8 (snd p)) (imap pair l).
Proof.
  intros Hl. apply Forall_lookup. intros i [j b] Hi. apply list_lookup_imap_Some in Hi as (x & Hx & ->).
  by apply (Forall_lookup_1 _ _ _ _ Hl Hx).
Qed.

Lemma accum_array g data : is_bytes data -> is_array 4 (accumulate g (imap pair (take 26 data)) (zeros 4)).
Proof.
  intros B. apply accumulate_array; [by apply imap_bytes, is_bytes_take|].
  split; [done|apply zeros_bytes].
Qed.

(** Changing one of the first 26 bytes changes the checksum. *)
Lemma checksum_b_detects g data i b b' :
  is_bytes data -> u8 b -> (i < 26)%nat -> data !! i = Some b' -> b <> b' ->
  compute_checksum_b (<[i := b]> data) g <> compute_checksum_b data g.
Proof.
  intros B Hb Hi Hd Hne E.
  apply (checksum_lanes_inj _ _ g) in E.
  2: apply accum_array; by apply Forall_insert. 2: by apply accum_array.
  rewrite take_insert_lt in E by done.
  assert (take 26 data !! i = Some b') as Ht by (rewrite lookup_take; by case_decide).
  assert (i < length (take 26 data))%nat as Hlt by by eapply lookup_lt_Some.
  pose proof (imap_bytes (take 26 data) (is_bytes_take 26 data B)) as Hib.
  assert (forall y, imap pair (take i (take 26 data) ++ y :: drop (S i) (take 26 data)) =
    imap pair (take i (take 26 data)) ++ ((length (take i (take 26 data)) + 0)%nat, y) ::
    imap ((fun n => pair (length (take i (take 26 data)) + n)%nat) ∘ S) (drop (S i) (take 26 data))) as Em.
  { intros y. by rewrite imap_app, imap_cons. }
  rewrite insert_take_drop, Em, accumulate_middle in E by done.
  pose proof (Em b') as Eb. rewrite (take_drop_middle _ _ _ Ht) in Eb. rewrite Eb, accumulate_middle in E.
  apply (f_equal (lookup (lane g (length (take i (take 26 data)) + 0)))) in E. unfold flip in E.
  rewrite !list_lookup_alter_eq in E.
  set (acc := accumulate g _ (zeros 4)) in E.
  assert (length acc = 4%nat) as L by apply accumulate_length.
  destruct (lookup_lt_is_Some_2 acc (lane g (length (take i (take 26 data)) + 0))) as [x Hx].
  { rewrite L. apply lane_range. }
  rewrite Hx in E. simpl in E. injection E as E. by apply lxor_cancel_r in E.
Qed.

Lemma reverse_key_reverse k : length k = 16%nat -> reverse_key k = reverse k.
Proof. intros L. explode L. reflexivity. Qed.

Lemma checksum_a_range data : u32 (compute_checksum_a data).
Proof. apply Jenkins.jenkins_range. Qed.

Lemma checksum_b_range data g : is_bytes data -> u32 (compute_checksum_b data g).
Proof.
  intros B. apply (from_le_bytes_in_u 4); [done|]. apply (lanes_array _ g). by apply accum_array.
Qed.

Lemma take_header n h a' b' :
  length (encoding_key h) = 16%nat -> (n <= 22)%nat ->
  take n (to_bytes {| encoding_key := encoding_key h; encoded_size := encoded_size h; flags := flags h;
                      checksum_a := a'; checksum_b := b' |}) = take n (to_bytes h).
Proof.
  intros L Hn. rewrite !to_bytes_eq by done. cbn [encoding_key encoded_size flags checksum_a checksum_b].
  rewrite !app_assoc. rewrite <- 2!(app_assoc ((_ ++ _) ++ _)).
  rewrite !(take_app_le ((_ ++ _) ++ _)); [done|..]; rewrite !length_app, !length_to_le_bytes, L; lia.
Qed.

Lemma set_checksum_a h a' :
  length (encoding_key h) = 16%nat ->
  copy_at 22 (to_le_bytes 4 a') (to_bytes h) =
  to_bytes {| encoding_key := encoding_key h; encoded_size := encoded_size h; flags := flags h;
              checksum_a := a'; checksum_b := checksum_b h |}.
Proof.
  intros L. rewrite !to_bytes_eq by done. cbn [encoding_key encoded_size flags checksum_a checksum_b].
  rewrite !app_assoc. rewrite <- 2!(app_assoc ((_ ++ _) ++ _)).
  replace 22%nat with (length ((encoding_key h ++ to_le_bytes 4 (encoded_size h)) ++ to_le_bytes 2 (flags h)))
    by (rewrite !length_app, !length_to_le_bytes, L; lia).
  apply copy_at_exact. by rewrite !length_to_le_bytes.
Qed.

Lemma checksum_b_prefix data data' g : take 26 data = take 26 data' -> compute_checksum_b data g = compute_checksum_b data' g.
Proof. intros E. unfold compute_checksum_b. by rewrite E. Qed.

Lemma take_header_b h b' :
  length (encoding_key h) = 16%nat ->
  take 26 (to_bytes {| encoding_key := encoding_key h; encoded_size := encoded_size h; flags := flags h;
                       checksum_a := checksum_a h; checksum_b := b' |}) = take 26 (to_bytes h).
Proof.
  intros L. rewrite !to_bytes_eq by done. cbn [encoding_key encoded_size flags checksum_a checksum_b].
  rewrite !app_assoc.
  rewrite !(take_app_le (((_ ++ _) ++ _) ++ _)); [done|..]; rewrite !length_app, !length_to_le_bytes, L; lia.
Qed.

Lemma zero_u32 : u32 0.
Proof. decide_now. Qed.

Definition mk (k : bytes) (sz fl a b : Z) : LocalHeader :=
  {| encoding_key := k; encoded_size := sz; flags := fl; checksum_a := a; checksum_b := b |}.

Lemma checksums_valid k sz fl a b g :
  length k = 16%nat -> a = compute_checksum_a (to_bytes (mk k sz fl 0 0)) ->
  b = compute_checksum_b (to_bytes (mk k sz fl a 0)) g -> validate_checksums (mk k sz fl a b) g = true.
Proof.
  intros L Ha Hb. unfold validate_checksums. apply andb_true_intro. split; apply Z.eqb_eq; cbn [mk checksum_a checksum_b].
  - rewrite Ha at 1. unfold compute_checksum_a. f_equal. symmetry. by apply (take_header 22 (mk k sz fl 0 0) a b).
  - rewrite Hb at 1. apply checksum_b_prefix. symmetry. by apply (take_header_b (mk k sz fl a 0) b).
Qed.

Lemma new_mk key sz g fl :
  length (reverse_key key) = 16%nat ->
  let a := compute_checksum_a (to_bytes (mk (reverse_key key) sz fl 0 0)) in
  new key sz g fl = mk (reverse_key key) sz fl a (compute_checksum_b (to_bytes (mk (reverse_key key) sz fl a 0)) g).
Proof.
  intros L. cbv zeta. unfold new. fold (mk (reverse_key key) sz fl 0 0).
  rewrite (set_checksum_a (mk (reverse_key key) sz fl 0 0)) by done. reflexivity.
Qed.

Lemma new_valid key sz g fl :
  is_array 16 key -> u32 sz -> u16 fl ->
  let h := new key sz g fl in
  header_ok h /\ validate_checksums h g = true /\ original_encoding_key h = key.
Proof.
  intros [Lk Bk] Hs Hf. cbv zeta.
  assert (is_array 16 (reverse_key key)) as Hr.
  { rewrite reverse_key_reverse by done. split; [by rewrite length_reverse|by apply Forall_reverse]. }
  rewrite new_mk by apply Hr. cbv zeta.
  pose proof (checksum_a_range (to_bytes (mk (reverse_key key) sz fl 0 0))) as Ha.
  remember (compute_checksum_a (to_bytes (mk (reverse_key key) sz fl 0 0))) as a eqn:Ea.
  assert (header_ok (mk (reverse_key key) sz fl a 0)) as H1
    by exact (conj Hr (conj Hs (conj Hf (conj Ha zero_u32)))).
  pose proof (checksum_b_range (to_bytes (mk (reverse_key key) sz fl a 0)) g (proj2 (to_bytes_array _ H1))) as Hb.
  remember (compute_checksum_b (to_bytes (mk (reverse_key key) sz fl a 0)) g) as b eqn:Eb.
  split; [exact (conj Hr (conj Hs (conj Hf (conj Ha Hb))))|]. split; [by apply checksums_valid, Eb; [apply Hr|]|].
  unfold original_encoding_key. cbn [encoding_key mk]. rewrite (reverse_key_reverse (reverse_key key)) by apply Hr.
  rewrite reverse_key_reverse by done. apply reverse_involutive.
Qed.

(** A header built by [new] survives its 30 bytes, both checksums validate at
    the offset it was built for, and the original key is recovered. *)
Theorem local_header_roundtrip key sz g fl :
  is_array 16 key -> u32 sz -> u16 fl ->
  exists h, from_bytes (to_bytes (new key sz g fl)) = Some h /\ validate_checksums h g = true /\
    original_encoding_key h = key /\ encoded_size h = sz /\ flags h = fl /\
    length (to_bytes (new key sz g fl)) = LOCAL_HEADER_SIZE.
Proof.
  intros Hk Hs Hf. destruct (new_valid key sz g fl Hk Hs Hf) as (Hok & Hv & Ho).
  exists (new key sz g fl). split_and!; [by apply local_header_codec|done..|by apply to_bytes_array].
Qed.

Lemma local_header_roundtrip_witness :
  exists h, from_bytes (to_bytes (new (replicate 16 7) 1234 4096 1)) = Some h /\ validate_checksums h 4096 = true /\
    original_encoding_key h = replicate 16 7 /\ encoded_size h = 1234 /\ flags h = 1 /\
    length (to_bytes (new (replicate 16 7) 1234 4096 1)) = LOCAL_HEADER_SIZE.
Proof. apply local_header_roundtrip; decide_now. Defined.

Lemma checksum_b_bytes h : header_ok h -> checksum_b h = from_le_bytes (drop 26 (to_bytes h)).
Proof.
  intros ([L _] & _ & _ & _ & Hb). rewrite to_bytes_eq by done. rewrite !app_assoc.
  replace 26%nat with (length (((encoding_key h ++ to_le_bytes 4 (encoded_size h)) ++ to_le_bytes 2 (flags h)) ++
    to_le_bytes 4 (checksum_a h))) by (rewrite !length_app, !length_to_le_bytes, L; lia).
  by rewrite drop_app_length, (le_roundtrip 4 32).
Qed.

Lemma from_le_inj n l l' : is_array n l -> is_array n l' -> from_le_bytes l = from_le_bytes l' -> l = l'.
Proof.
  intros [L B] [L' B'] E. pose proof (to_from_le_bytes l B) as T. pose proof (to_from_le_bytes l' B') as T'.
  rewrite L in T. rewrite L' in T'. congruence.
Qed.

(** Validation detects every corruption of one byte: if the header validates
    at an offset, then with any one of its thirty bytes replaced by another value
    it still parses, and no longer validates there. *)
Theorem one_byte_corruption_detected h g i b :
  header_ok h -> validate_checksums h g = true -> u8 b -> (i < 30)%nat ->
  to_bytes h !! i <> Some b ->
  exists h', from_bytes (<[i := b]> (to_bytes h)) = Some h' /\ validate_checksums h' g = false.
Proof.
  intros Hh Hv Hb Hi Hne. pose proof (to_bytes_array h Hh) as [L B].
  assert (is_array 30 (<[i := b]> (to_bytes h))) as Ha.
  { split; [by rewrite length_insert|by apply Forall_insert]. }
  destruct (from_to_bytes _ Ha) as (h' & Ef & Hh' & Et). exists h'. split; [done|].
  destruct (lookup_lt_is_Some_2 (to_bytes h) i) as [b' Hb']; [lia|].
  apply andb_true_iff in Hv as [_ Hvb%Z.eqb_eq].
  apply not_true_iff_false. intros [_ Hvb'%Z.eqb_eq]%andb_true_iff. rewrite Et in Hvb'.
  assert (Hcb : checksum_b h = from_le_bytes (drop 26 (to_bytes h))) by by apply checksum_b_bytes.
  assert (Hcb' : checksum_b h' = from_le_bytes (drop 26 (<[i := b]> (to_bytes h)))).
  { rewrite <- Et. by apply checksum_b_bytes. }
  destruct (decide (i < 26)%nat) as [Hlt|Hge].
  - rewrite drop_insert_lt in Hcb' by done.
    apply (checksum_b_detects g (to_bytes h) i b b'); try done; [congruence|].
    rewrite <- Hvb', <- Hvb. congruence.
  - rewrite (checksum_b_prefix _ (to_bytes h)) in Hvb' by (by rewrite take_insert_ge by lia).
    assert (drop 26 (<[i := b]> (to_bytes h)) = drop 26 (to_bytes h)) as E.
    { apply (from_le_inj 4); [| |congruence].
      - split; [rewrite length_drop; destruct Ha; lia|by apply is_bytes_drop, Ha].
      - split; [rewrite length_drop; lia|by apply is_bytes_drop]. }
    apply Hne. apply (f_equal (lookup (i - 26)%nat)) in E. rewrite !lookup_drop in E.
    replace (26 + (i - 26))%nat with i in E by lia. rewrite <- E. apply list_lookup_insert_eq. lia.
Qed.

Lemma one_byte_corruption_detected_witness :
  exists h', from_bytes (<[5%nat := 9]> (to_bytes (new (replicate 16 7) 1234 4096 1))) = Some h' /\
    validate_checksums h' 4096 = false.
Proof.
  apply one_byte_corruption_detected; [|by vm_compute|decide_now|lia|by vm_compute].
  apply new_valid; decide_now.
Defined.

End LocalHeader.
