(* ===== verification/Segment.v ===== *)
(** * Archive segments: crates/cascette-client-storage/src/storage/segment.rs

    A data file starts with sixteen reconstruction headers, one per bucket; the
    allocator hands out byte ranges of the data files, from per-segment lists of
    freed ranges or behind the write position of a thawed segment, and creates
    segments when none has room.  The directory is a [disk]; which system calls
    fail is the argument [io].  The bucket locks guard no data and are left out. *)

From S2P Require Import Prelude Bytes Text Disk Jenkins LocalHeader.
Local Open Scope Z_scope.

Module Segment.

Definition SEGMENT_HEADER_SIZE : nat := 0x1E0.
Definition MAX_SEGMENTS : Z := 0x3FF.
Definition BUCKET_COUNT : nat := 16.
Definition SEGMENT_SIZE : Z := 0x40000000.
Definition u32_MAX : Z := 0xFFFFFFFF.

(** ** The segment header *)

(** [headers: [LocalHeader; 16]]. *)
Record SegmentHeader := { headers : list LocalHeader.LocalHeader }.

Definition bucket_hash (ekey : bytes) (seed : Z) : Z :=
  let xor := fold_left Z.lxor (take 9 ekey) 0 in
  Z.land (wrap8 (Z.lxor (Z.shiftr xor 4) xor + seed)) 0x0F.

(** [for probe in 0..=0xFFu8]. *)
Definition probes : list Z := Z.of_nat <$> seq 0 256.

Definition generate_segment_key (path_hash : bytes) (segment_count target_bucket : Z) : bytes :=
  let key := <[1%nat := Z.land segment_count 0xFF]> path_hash in
  let key := <[2%nat := Z.land (Z.shiftr segment_count 8) 0xFF]> key in
  match List.find (fun probe => bucket_hash (take 9 (<[0%nat := probe]> key)) 1 =? target_bucket) probes with
  | Some probe => <[0%nat := probe]> key
  | None => <[0%nat := 0]> key
  end.

Definition generate (segment_index : Z) (path_hash : bytes) : SegmentHeader :=
  let seg_base := segment_index * SEGMENT_SIZE in
  let enc_size := Z.of_nat LocalHeader.LOCAL_HEADER_SIZE in
  let global_offset i := seg_base + Z.of_nat (i * LocalHeader.LOCAL_HEADER_SIZE) in
  let headers := (fun i => LocalHeader.new (zeros 16) enc_size (global_offset i) 1) <$> seq 0 BUCKET_COUNT in
  {| headers := imap (fun bucket _ =>
       LocalHeader.new (generate_segment_key path_hash segment_index (Z.of_nat bucket)) enc_size
         (global_offset bucket) 1) headers |}.

Definition zeroed_headers : list LocalHeader.LocalHeader :=
  (fun i => LocalHeader.new (zeros 16) 0 (Z.of_nat (i * LocalHeader.LOCAL_HEADER_SIZE)) 1) <$> seq 0 BUCKET_COUNT.

Definition zeroed : SegmentHeader := {| headers := zeroed_headers |}.

Definition from_bytes (data : bytes) : option SegmentHeader :=
  if (length data <? SEGMENT_HEADER_SIZE)%nat then None
  else
    Some {| headers := imap (fun i header =>
      let offset := (i * LocalHeader.LOCAL_HEADER_SIZE)%nat in
      match LocalHeader.from_bytes (slice offset (offset + LocalHeader.LOCAL_HEADER_SIZE) data) with
      | Some parsed => parsed
      | None => header
      end) zeroed_headers |}.

Definition to_bytes (h : SegmentHeader) : bytes :=
  fold_left (fun buf '(i, header) =>
      copy_at (i * LocalHeader.LOCAL_HEADER_SIZE)%nat (LocalHeader.to_bytes header) buf)
    (imap pair (headers h)) (zeros SEGMENT_HEADER_SIZE).

(** [&self.headers[bucket as usize & 0x0F]]. *)
Definition bucket_header (h : SegmentHeader) (bucket : Z) : LocalHeader.LocalHeader :=
  nth (Z.to_nat (Z.land bucket 0x0F)) (headers h) (LocalHeader.new (zeros 16) 0 0 1).

Definition set_bucket_header (h : SegmentHeader) (bucket : Z) (header : LocalHeader.LocalHeader) : SegmentHeader :=
  {| headers := <[Z.to_nat (Z.land bucket 0x0F) := header]> (headers h) |}.

Definition get_bucket_header (h : SegmentHeader) (bucket : Z) : LocalHeader.LocalHeader := bucket_header h bucket.

Definition bucket_key (h : SegmentHeader) (bucket : Z) : bytes :=
  LocalHeader.original_encoding_key (bucket_header h bucket).

(** ** Segments *)

Inductive SegmentState : Type := Frozen | Thawed.

#[global] Instance SegmentState_eq_dec : EqDecision SegmentState.
Proof. solve_decision. Defined.

Record SegmentInfo := {
  index : Z;
  state : SegmentState;
  write_position : Z;
  header : SegmentHeader;
}.

Definition info_new (index : Z) (header : SegmentHeader) : SegmentInfo :=
  {| index := index; state := Thawed; write_position := Z.of_nat SEGMENT_HEADER_SIZE; header := header |}.

Definition base_offset (info : SegmentInfo) : Z := index info * SEGMENT_SIZE.

Definition has_space_for (info : SegmentInfo) (size : Z) : bool :=
  bool_decide (state info = Thawed) && (wrap64 (write_position info + size) <=? SEGMENT_SIZE).

Definition with_position (p : Z) (info : SegmentInfo) : SegmentInfo :=
  {| index := index info; state := state info; write_position := p; header := header info |}.
Definition with_state (s : SegmentState) (info : SegmentInfo) : SegmentInfo :=
  {| index := index info; state := s; write_position := write_position info; header := header info |}.

(** [{:03}]. *)
Definition format03 (n : Z) : bytes :=
  let digits := show n in
  replicate (3 - length digits) 48 ++ digits.

(** ["data."]. *)
Definition data_prefix : bytes := [100; 97; 116; 97; 46].

(** The file name in [segment_data_path]. *)
Definition segment_data_name (segment_index : Z) : bytes := data_prefix ++ format03 segment_index.

Definition parse_data_filename (filename : bytes) : option Z :=
  if negb (bool_decide (take 5 filename = data_prefix)) then None
  else
    let suffix := drop 5 filename in
    if (negb (length suffix =? 3)%nat && negb (length suffix =? 4)%nat) || negb (forallb (in_rng 48 57) suffix)
    then None
    else
      let index := parse_decimal suffix in
      if MAX_SEGMENTS <=? index then None else Some index.

Definition encode_storage_offset (segment_index file_offset : Z) : Z * Z := (segment_index, file_offset).

Definition decode_storage_offset (archive_id archive_offset : Z) : Z * Z := (archive_id, archive_offset).

(** ** Free space *)

Record FreeSpan := { offset : Z; length_ : Z }.

#[global] Instance FreeSpan_eq_dec : EqDecision FreeSpan.
Proof. solve_decision. Defined.

(** [FreeSpan::end]: a saturating addition. *)
Definition span_end (s : FreeSpan) : Z := Z.min (offset s + length_ s) u32_MAX.

Abbreviation FreeList := (list FreeSpan).

Definition total_free (l : FreeList) : Z := foldr Z.add 0 (length_ <$> l).

Fixpoint take_while {A} (p : A -> bool) (l : list A) : list A :=
  match l with
  | [] => []
  | x :: l => if p x then x :: take_while p l else []
  end.

(** [slice::partition_point], on a slice partitioned by [p]. *)
Definition partition_point {A} (p : A -> bool) (l : list A) : nat := length (take_while p l).

(** [FreeList::insert]. *)
Definition insert (offset_ length__ : Z) (spans : FreeList) : outcome FreeList :=
  if length__ =? 0 then Ret spans
  else
    let new_end := Z.min (offset_ + length__) u32_MAX in
    let pos := partition_point (fun s => offset s <? offset_) spans in
    merge_start ← (if (0 <? pos)%nat then
                     left ← vec_get spans (Z.of_nat (pos - 1));
                     Ret (if offset_ <=? span_end left then (pos - 1)%nat else pos)
                   else Ret pos);
    let right := take_while (fun s => offset s <=? new_end) (drop pos spans) in
    let merge_end := (pos + length right)%nat in
    if (merge_start <? merge_end)%nat then
      first ← vec_get spans (Z.of_nat merge_start);
      last ← vec_get spans (Z.of_nat (merge_end - 1));
      let combined_offset := Z.min (offset first) offset_ in
      let combined_end := Z.max (span_end last) new_end in
      spans ← vec_modify spans (Z.of_nat merge_start) (fun _ =>
                {| offset := combined_offset; length_ := wrap32 (combined_end - combined_offset) |});
      Ret (if (1 <? merge_end - merge_start)%nat
           then take (merge_start + 1) spans ++ drop merge_end spans else spans)
    else Ret (take pos spans ++ [{| offset := offset_; length_ := length__ |}] ++ drop pos spans).

(** [FreeList::allocate]: first fit. *)
Fixpoint allocate_first (size : Z) (spans : FreeList) : option (Z * FreeList) :=
  match spans with
  | [] => None
  | s :: spans =>
      if size <=? length_ s then
        Some (offset s,
          if length_ s =? size then spans
          else {| offset := wrap32 (offset s + size); length_ := wrap32 (length_ s - size) |} :: spans)
      else
        match allocate_first size spans with
        | Some (o, spans) => Some (o, s :: spans)
        | None => None
        end
  end.

(** ** The allocator *)

Record Allocation := { segment_index : Z; file_offset : Z }.

Record SegmentAllocator := {
  segments : list SegmentInfo;
  free_lists : list FreeList;
  max_segments : Z;
  path_hash : bytes;
}.

(** What [std::fs::read_dir] returns. *)
Inductive DirStatus : Type := DirOk | DirNotFound | DirFailed.

Record Io := {
  read_dir : DirStatus;
  stat_ok : bytes -> bool;
  read_ok : bytes -> bool;
  write_ok : bool;
  partial : option bytes;
}.

Definition set_segments (a : SegmentAllocator) (ss : list SegmentInfo) : SegmentAllocator :=
  {| segments := ss; free_lists := free_lists a; max_segments := max_segments a; path_hash := path_hash a |}.
Definition set_free_lists (a : SegmentAllocator) (fl : list FreeList) : SegmentAllocator :=
  {| segments := segments a; free_lists := fl; max_segments := max_segments a; path_hash := path_hash a |}.

Definition allocator_new (path_hash : bytes) (max_segments : Z) : SegmentAllocator :=
  {| segments := []; free_lists := []; max_segments := Z.min max_segments MAX_SEGMENTS; path_hash := path_hash |}.

(** [while self.segments.len() <= index { self.segments.push(..) }]. *)
Definition grow_segments (n : nat) (ss : list SegmentInfo) : list SegmentInfo :=
  ss ++ ((fun i => info_new (Z.of_nat i) zeroed) <$> seq (length ss) (S n - length ss)).

(** The body of the loop of [load_existing] for one file. *)
Definition load_segment (io : Io) (name content : bytes) (ss : list SegmentInfo) :
    result StorageError (list SegmentInfo) :=
  match (if utf8_valid name then parse_data_filename name else None) with
  | None => Ok ss
  | Some index =>
      if negb (stat_ok io name) then Err (ArchiveError "failed to stat")
      else if negb (read_ok io name) then Err (ArchiveError "failed to read")
      else
        let header := default zeroed (from_bytes content) in
        let info := with_state Frozen (with_position (Z.of_nat (length content)) (info_new index header)) in
        Ok (<[Z.to_nat index := info]> (grow_segments (Z.to_nat index) ss))
  end.

Fixpoint load_segments (io : Io) (d : disk) (ss : list SegmentInfo) : result StorageError unit * list SegmentInfo :=
  match d with
  | [] => (Ok tt, ss)
  | (name, content) :: d =>
      match load_segment io name content ss with
      | Ok ss => load_segments io d ss
      | Err e => (Err e, ss)
      end
  end.

Definition load_existing (io : Io) (d : disk) (a : SegmentAllocator) : result StorageError unit * SegmentAllocator :=
  match read_dir io with
  | DirNotFound => (Ok tt, a)
  | DirFailed => (Err (ArchiveError "failed to read data directory"), a)
  | DirOk => let '(r, ss) := load_segments io d (segments a) in (r, set_segments a ss)
  end.

(** The first free list that has room: its index, the offset, the updated lists. *)
Fixpoint allocate_free (size : Z) (fls : list FreeList) : option (nat * Z * list FreeList) :=
  match fls with
  | [] => None
  | l :: fls =>
      match allocate_first size l with
      | Some (o, l) => Some (0%nat, o, l :: fls)
      | None =>
          match allocate_free size fls with
          | Some (i, o, fls) => Some (S i, o, l :: fls)
          | None => None
          end
      end
  end.

(** The first segment with room behind its write position. *)
Fixpoint allocate_bump (size : Z) (ss : list SegmentInfo) : option (Z * Z * list SegmentInfo) :=
  match ss with
  | [] => None
  | info :: ss =>
      if has_space_for info size then
        Some (index info, write_position info, with_position (wrap64 (write_position info + size)) info :: ss)
      else
        match allocate_bump size ss with
        | Some (i, o, ss) => Some (i, o, info :: ss)
        | None => None
        end
  end.

(** The last part of [allocate]: a new segment. *)
Definition allocate_new (io : Io) (size : Z) (a : SegmentAllocator) (d : disk) :
    result StorageError Allocation * SegmentAllocator * disk :=
  let new_index := Z.of_nat (length (segments a)) in
  if 2 ^ 16 <=? new_index then (Err (ArchiveError "too many segments"), a, d)
  else if max_segments a <=? new_index then (Err (ArchiveError "maximum segment count reached"), a, d)
  else
    let header := generate new_index (path_hash a) in
    let name := segment_data_name new_index in
    if write_ok io then
      let d := disk_write d name (to_bytes header) in
      let info := info_new new_index header in
      let offset := write_position info in
      let info := with_position (wrap64 (write_position info + size)) info in
      let a := {| segments := segments a ++ [info]; free_lists := free_lists a ++ [[]];
                  max_segments := max_segments a; path_hash := path_hash a |} in
      (if offset <? 2 ^ 32 then Ok {| segment_index := new_index; file_offset := offset |}
       else Err (ArchiveError "segment offset exceeds u32 range"), a, d)
    else
      (Err (ArchiveError "failed to create segment file"), a,
       match partial io with Some p => disk_write d name p | None => d end).

(** [SegmentAllocator::allocate]. *)
Definition allocate (io : Io) (size : Z) (use_free_list : bool) (a : SegmentAllocator) (d : disk) :
    result StorageError Allocation * SegmentAllocator * disk :=
  if 2 ^ 32 <=? size then (Err (ArchiveError "allocation size exceeds u32 range"), a, d)
  else
    match (if use_free_list then allocate_free size (free_lists a) else None) with
    | Some (idx, offset, fls) =>
        (if Z.of_nat idx <? 2 ^ 16 then Ok {| segment_index := Z.of_nat idx; file_offset := offset |}
         else Err (ArchiveError "segment index exceeds u16 range"), set_free_lists a fls, d)
    | None =>
        match allocate_bump size (segments a) with
        | Some (idx, offset, ss) =>
            (if offset <? 2 ^ 32 then Ok {| segment_index := idx; file_offset := offset |}
             else Err (ArchiveError "segment offset exceeds u32 range"), set_segments a ss, d)
        | None => allocate_new io size a d
        end
    end.

(** [while self.free_lists.len() <= idx { self.free_lists.push(FreeList::new()) }]. *)
Definition grow_free_lists (n : nat) (fls : list FreeList) : list FreeList :=
  fls ++ replicate (S n - length fls) [].

Definition free_span (segment_index offset length_ : Z) (a : SegmentAllocator) : outcome SegmentAllocator :=
  let fls := grow_free_lists (Z.to_nat segment_index) (free_lists a) in
  l ← vec_get fls segment_index;
  l ← insert offset length_ l;
  fls ← vec_modify fls segment_index (fun _ => l);
  Ret (set_free_lists a fls).

Definition free_list (a : SegmentAllocator) (segment_index : Z) : option FreeList :=
  free_lists a !! Z.to_nat segment_index.

(** [freeze] and [thaw]: [from] is the state that is required, [to] the new one. *)
Definition switch (from to : SegmentState) (segment_index : Z) (a : SegmentAllocator) : bool * SegmentAllocator :=
  match segments a !! Z.to_nat segment_index with
  | Some info =>
      if bool_decide (state info = from)
      then (true, set_segments a (<[Z.to_nat segment_index := with_state to info]> (segments a)))
      else (false, a)
  | None => (false, a)
  end.

Definition freeze (segment_index : Z) (a : SegmentAllocator) : bool * SegmentAllocator := switch Thawed Frozen segment_index a.
Definition thaw (segment_index : Z) (a : SegmentAllocator) : bool * SegmentAllocator := switch Frozen Thawed segment_index a.

(** [segment_mut] lends out a record: [f] is what its borrower does with it. *)
Definition segment_mut (index : Z) (f : SegmentInfo -> SegmentInfo) (a : SegmentAllocator) : SegmentAllocator :=
  set_segments a (alter f (Z.to_nat index) (segments a)).

Definition segment_count (a : SegmentAllocator) : nat := length (segments a).
Definition segment (a : SegmentAllocator) (index : Z) : option SegmentInfo := segments a !! Z.to_nat index.

End Segment.
