(* ===== verification/SegmentTheorems.v ===== *)
(** * Correctness of the segment allocator

    The free list as a set of bytes, the allocator as a source of disjoint
    ranges, and the reconstruction headers of a new segment. *)

From S2P Require Import Prelude Bytes Disk Jenkins LocalHeader Segment.
Import Segment.
Local Open Scope Z_scope.

(** ** Free lists as sets of bytes *)

Definition span_has (s : FreeSpan) (x : Z) : Prop := offset s <= x < offset s + length_ s.

Definition free_at (l : FreeList) (x : Z) : Prop := exists s, s ∈ l /\ span_has s x.

(** Sorted, not empty, and with a gap between neighbours; [lo] bounds the first offset. *)
Fixpoint spans_ok (lo : Z) (l : FreeList) : Prop :=
  match l with
  | [] => True
  | s :: l => lo <= offset s /\ 0 < length_ s /\ offset s + length_ s <= u32_MAX /\
              spans_ok (offset s + length_ s + 1) l
  end.

#[global] Instance spans_ok_dec lo l : Decision (spans_ok lo l).
Proof. revert lo. induction l as [|s l IH]; intros lo; simpl; apply _. Defined.

(** The least offset a span behind [l] may have. *)
Fixpoint bound (lo : Z) (l : FreeList) : Z :=
  match l with [] => lo | s :: l => bound (offset s + length_ s + 1) l end.

Lemma spans_ok_app lo l1 l2 : spans_ok lo (l1 ++ l2) <-> spans_ok lo l1 /\ spans_ok (bound lo l1) l2.
Proof.
  revert lo. induction l1 as [|s l1 IH]; intros lo; simpl; [tauto|]. rewrite IH. tauto.
Qed.

Lemma bound_app lo l1 l2 : bound lo (l1 ++ l2) = bound (bound lo l1) l2.
Proof. revert lo. by induction l1; intros lo; simpl. Qed.

Lemma spans_ok_from lo lo' s l : spans_ok lo (s :: l) -> lo' <= offset s -> spans_ok lo' (s :: l).
Proof. simpl. tauto. Qed.

Lemma bound_le lo l : spans_ok lo l -> lo <= bound lo l.
Proof. revert lo. induction l as [|s l IH]; intros lo; simpl; [lia|]. intros (? & ? & ? & H%IH). lia. Qed.

Lemma spans_ok_elem lo l s :
  spans_ok lo l -> s ∈ l ->
  lo <= offset s /\ 0 < length_ s /\ offset s + length_ s <= u32_MAX /\ offset s + length_ s + 1 <= bound lo l.
Proof.
  revert lo. induction l as [|y l IH]; intros lo; simpl; intros H Hs; [by apply elem_of_nil in Hs|].
  destruct H as (H1 & H2 & H3 & H4). apply elem_of_cons in Hs as [->|Hs].
  - pose proof (bound_le _ _ H4). lia.
  - destruct (IH _ H4 Hs). lia.
Qed.

Lemma free_at_app l1 l2 x : free_at (l1 ++ l2) x <-> free_at l1 x \/ free_at l2 x.
Proof. unfold free_at. setoid_rewrite elem_of_app. naive_solver. Qed.

Lemma free_at_cons s l x : free_at (s :: l) x <-> span_has s x \/ free_at l x.
Proof. unfold free_at. setoid_rewrite elem_of_cons. naive_solver. Qed.

Lemma free_at_nil x : ~ free_at [] x.
Proof. intros (s & Hs & _). by apply elem_of_nil in Hs. Qed.

Lemma free_at_range lo l x : spans_ok lo l -> free_at l x -> lo <= x < bound lo l.
Proof. intros Hl (s & Hs & Hx). destruct (spans_ok_elem lo l s Hl Hs). unfold span_has in Hx. lia. Qed.

(** ** [insert] *)

Lemma take_while_split {A} (p : A -> bool) l :
  exists r, l = take_while p l ++ r /\ Forall (fun x => p x = true) (take_while p l) /\
    match r with [] => True | x :: _ => p x = false end.
Proof.
  induction l as [|x l (r & E & Hp & Hr)]; simpl; [by exists []|]. destruct (p x) eqn:Ex.
  - exists r. simpl. rewrite <- E. by split_and!; [|constructor|].
  - by exists (x :: l).
Qed.

Lemma span_end_eq lo l s : spans_ok lo l -> s ∈ l -> span_end s = offset s + length_ s.
Proof. intros Hl Hs. destruct (spans_ok_elem lo l s Hl Hs). unfold span_end. lia. Qed.

(** The span that replaces the run [G] of spans the new range touches. *)
Definition combined (g : FreeSpan) (G : FreeList) (off new_end : Z) : FreeSpan :=
  {| offset := Z.min (offset g) off;
     length_ := wrap32 (Z.max (span_end (List.last (g :: G) g)) new_end - Z.min (offset g) off) |}.

Lemma last_in {A} (g : A) G : exists G0, g :: G = G0 ++ [List.last (g :: G) g].
Proof. exists (removelast (g :: G)). by apply app_removelast_last. Qed.

(** What the merge does to the set of free bytes. *)
Lemma merged_ok P g G R off new_end :
  spans_ok 0 (P ++ (g :: G) ++ R) -> 0 <= off < new_end -> new_end <= u32_MAX ->
  bound 0 P <= off -> off <= offset g + length_ g -> spans_ok (new_end + 1) R ->
  offset (List.last (g :: G) g) <= new_end ->
  spans_ok 0 (P ++ [combined g G off new_end] ++ R) /\
  forall x, free_at (P ++ [combined g G off new_end] ++ R) x <->
            free_at (P ++ (g :: G) ++ R) x \/ off <= x < new_end.
Proof.
  intros Hl Hoff Hu Hb Hg HR Hlast. destruct (last_in g G) as [G0 EG].
  remember (List.last (g :: G) g) as z eqn:Ez.
  rewrite !spans_ok_app in *. destruct Hl as (HP & HG & HR').
  assert (z ∈ g :: G) as Hz by (rewrite EG; apply elem_of_app; right; by left).
  pose proof (spans_ok_elem _ _ z HG Hz) as Zr. pose proof (spans_ok_elem _ _ g HG ltac:(by left)) as Gr.
  assert (bound (bound 0 P) (g :: G) = offset z + length_ z + 1) as EB by (rewrite EG, bound_app; done).
  pose proof (bound_le 0 P HP) as HP0.
  unfold combined. rewrite <- Ez, (span_end_eq _ _ z HG Hz). set (ce := Z.max _ _). set (co := Z.min _ _).
  assert (wrap32 (ce - co) = ce - co) as Ew by (apply wrap_small; unfold in_u, u32_MAX in *; lia).
  rewrite Ew. split.
  - simpl. split_and!; try lia; [done|]. replace (co + (ce - co) + 1) with (ce + 1) by lia.
    destruct R as [|r R]; [done|]. eapply spans_ok_from; [exact HR|].
    destruct HR as (? & _). rewrite EB in HR'. destruct HR' as (? & _). lia.
  - intros x. rewrite !free_at_app, free_at_cons.
    assert (span_has {| offset := co; length_ := ce - co |} x <-> free_at (g :: G) x \/ off <= x < new_end) as E.
    { unfold span_has. cbn [offset length_]. split.
      - intros Hx. destruct (Z.lt_ge_cases x off); [|destruct (Z.lt_ge_cases x new_end)].
        + left. exists g. split; [by left|]. unfold span_has. lia.
        + right. lia.
        + left. exists z. split; [done|]. unfold span_has. lia.
      - intros [(s & Hs & Hx)|Hx]; [|lia]. destruct (spans_ok_elem _ _ s HG Hs). unfold span_has in Hx.
        assert (offset g <= offset s); [|lia]. apply elem_of_cons in Hs as [->|Hs]; [lia|].
        destruct HG as (_ & _ & _ & HG'). destruct (spans_ok_elem _ _ s HG' Hs). lia. }
    rewrite E. pose proof (free_at_nil x). tauto.
Qed.

Lemma last_lookup_end {A} (g d : A) G : (g :: G) !! length G = Some (List.last (g :: G) d).
Proof. revert g. induction G as [|x G IH]; intros g; [done|]. apply (IH x). Qed.

Lemma last_elem {A} (g d : A) G : List.last (g :: G) d ∈ g :: G.
Proof. apply list_elem_of_lookup. exists (length G). apply last_lookup_end. Qed.

(** The code of the merge, on a list split at the run. *)
Lemma merge_code P g G R off new_end :
  (first ← vec_get (P ++ (g :: G) ++ R) (Z.of_nat (length P));
   last ← vec_get (P ++ (g :: G) ++ R) (Z.of_nat (length P + length (g :: G) - 1));
   let combined_offset := Z.min (offset first) off in
   let combined_end := Z.max (span_end last) new_end in
   spans ← vec_modify (P ++ (g :: G) ++ R) (Z.of_nat (length P)) (fun _ =>
             {| offset := combined_offset; length_ := wrap32 (combined_end - combined_offset) |});
   Ret (if (1 <? length P + length (g :: G) - length P)%nat
        then take (length P + 1) spans ++ drop (length P + length (g :: G)) spans else spans)) =
  Ret (P ++ [combined g G off new_end] ++ R).
Proof.
  unfold vec_get, vec_modify. rewrite !Nat2Z.id.
  assert ((P ++ (g :: G) ++ R) !! length P = Some g) as E1 by by rewrite lookup_app_r, Nat.sub_diag by lia.
  assert ((P ++ (g :: G) ++ R) !! (length P + length (g :: G) - 1)%nat = Some (List.last (g :: G) g)) as E2.
  { rewrite lookup_app_r, lookup_app_l by (simpl; lia). rewrite <- (last_lookup_end g). f_equal. simpl. lia. }
  rewrite E1, E2. cbn [mbind outcome_bind]. unfold combined.
  set (c := {| offset := _; length_ := _ |}).
  assert (<[length P := c]> (P ++ (g :: G) ++ R) = P ++ [c] ++ G ++ R) as E3.
  { rewrite insert_app_r_alt, Nat.sub_diag by lia. done. }
  rewrite E3. f_equal. destruct (1 <? _)%nat eqn:E.
  - rewrite take_app_ge, drop_app_ge by (simpl; lia).
    replace (length P + 1 - length P)%nat with 1%nat by lia.
    replace (length P + length (g :: G) - length P)%nat with (S (length G)) by (simpl; lia).
    change ([c] ++ G ++ R) with (c :: G ++ R). cbn [take drop]. by rewrite drop_app_length, take_0, <- app_assoc.
  - apply Nat.ltb_ge in E. destruct G; [done|]. simpl in E. lia.
Qed.

(** The part of the list from [off] on, and from there the part behind [new_end]. *)
Lemma split_from lo l x R :
  spans_ok lo l -> l = take_while (fun s => offset s <? x) l ++ R ->
  match R with [] => True | s :: _ => (offset s <? x) = false end -> spans_ok x R.
Proof.
  intros Hl E HR. destruct R as [|r R]; [done|]. rewrite E, spans_ok_app in Hl.
  eapply spans_ok_from; [apply Hl|]. by apply Z.ltb_ge in HR.
Qed.

(** The code that decides whether the left neighbour joins the run: it splits the
    spans below [off] into those that stay and those (at most one) that touch it. *)
Lemma left_run L X off :
  spans_ok 0 L -> 0 <= off -> Forall (fun s => offset s < off) L ->
  exists P T, L = P ++ T /\ bound 0 P <= off /\ Forall (fun s => off <= offset s + length_ s) T /\
    (if (0 <? length L)%nat then
       left ← vec_get (L ++ X) (Z.of_nat (length L - 1));
       Ret (if off <=? span_end left then (length L - 1)%nat else length L)
     else Ret (length L)) = Ret (length P).
Proof.
  intros HL Hoff Hlt. destruct (list_snoc_cases L) as [->|(L' & s & ->)]; [by exists [], []|].
  apply Forall_app in Hlt as [_ [Hs _]%Forall_cons].
  pose proof (span_end_eq _ _ s HL ltac:(apply elem_of_app; right; by left)) as Es.
  rewrite length_app. cbn [length]. rewrite (proj2 (Nat.ltb_lt _ _)) by lia.
  unfold vec_get. rewrite Nat2Z.id. replace (length L' + 1 - 1)%nat with (length L') by lia.
  rewrite <- app_assoc, lookup_app_r, Nat.sub_diag by lia. cbn [lookup list_lookup app mbind outcome_bind].
  rewrite Es. apply spans_ok_app in HL as [HL' (Hs1 & _)]. destruct (off <=? _) eqn:E.
  - apply Z.leb_le in E. exists L', [s]. split_and!; [done|lia|by repeat constructor|done].
  - apply Z.leb_gt in E. exists (L' ++ [s]), []. rewrite app_nil_r, bound_app, length_app.
    split_and!; [done|simpl; lia|constructor|done].
Qed.

Lemma insert_ok off len l :
  spans_ok 0 l -> 0 <= off -> 0 <= len -> off + len <= u32_MAX ->
  exists l', insert off len l = Ret l' /\ spans_ok 0 l' /\
    forall x, free_at l' x <-> free_at l x \/ off <= x < off + len.
Proof.
  intros Hl Hoff Hlen Hu. unfold insert. destruct (len =? 0) eqn:E0.
  { apply Z.eqb_eq in E0. exists l. split_and!; [done..|]. intros x. split; [by left|]. intros [?|?]; [done|lia]. }
  apply Z.eqb_neq in E0. rewrite (Z.min_l (off + len)) by done. unfold partition_point.
  destruct (take_while_split (fun s => offset s <? off) l) as (R0 & El & HL & HR0).
  pose proof (split_from 0 l off R0 Hl El HR0) as HR0'.
  remember (take_while (fun s => offset s <? off) l) as L eqn:EL. clear EL HR0. rewrite El in *. clear El.
  rewrite drop_app_length. cbv zeta.
  destruct (take_while_split (fun s => offset s <=? off + len) R0) as (R & ER & HM & HR).
  remember (take_while (fun s => offset s <=? off + len) R0) as M eqn:EM. clear EM. subst R0.
  assert (spans_ok (off + len + 1) R) as HR'.
  { destruct R as [|r R]; [done|]. apply spans_ok_app in HR0'. eapply spans_ok_from; [apply HR0'|].
    apply Z.leb_gt in HR. lia. }
  assert (Forall (fun s => offset s < off) L) as HL' by (eapply Forall_impl; [exact HL|]; intros s; apply Z.ltb_lt).
  apply spans_ok_app in Hl as Hl2. destruct (left_run L (M ++ R) off (proj1 Hl2) Hoff HL') as (P & T & -> & HP & HT & ->).
  cbn [mbind outcome_bind]. rewrite <- app_assoc, (app_assoc T) in *. rewrite !length_app, <- Nat.add_assoc.
  assert (Forall (fun s => offset s <= off + len) (T ++ M)) as HTM.
  { apply Forall_app in HL' as [_ HT']. apply Forall_app. split.
    - eapply Forall_impl; [exact HT'|]. simpl. lia.
    - eapply Forall_impl; [exact HM|]. intros s. apply Z.leb_le. }
  rewrite <- length_app. destruct (T ++ M) as [|g G] eqn:EG.
  - apply app_eq_nil in EG as [-> ->]. cbn [length app]. rewrite !Nat.add_0_r, Nat.ltb_irrefl.
    rewrite take_app_length. eexists. split; [done|]. split.
    + apply spans_ok_app in Hl as [HPo _]. apply spans_ok_app. split; [done|]. simpl. split_and!; try lia. done.
    + intros x. rewrite !free_at_app, free_at_cons. unfold span_has. cbn [offset length_].
      pose proof (free_at_nil x). tauto.
  - rewrite (proj2 (Nat.ltb_lt _ _)) by (simpl; lia).
    pose proof (merge_code P g G R off (off + len)) as Hc. cbv zeta in Hc. rewrite Hc. eexists. split; [done|].
    apply merged_ok; try done; try lia.
    + destruct T as [|t T]; [|injection EG as -> _; by apply Forall_cons in HT as [? _]].
      cbn [app] in EG. subst M. destruct HR0' as (? & ? & _). lia.
    + rewrite Forall_forall in HTM. apply HTM, last_elem.
Qed.

(** ** First fit *)

Lemma spans_ok_weaken lo lo' l : lo' <= lo -> spans_ok lo l -> spans_ok lo' l.
Proof. destruct l as [|s l]; simpl; [done|]. intuition lia. Qed.

Lemma total_free_cons s l : total_free (s :: l) = length_ s + total_free l.
Proof. done. Qed.

Lemma allocate_first_ok lo size l :
  spans_ok lo l -> 0 <= lo -> 0 <= size ->
  match allocate_first size l with
  | Some (o, l') =>
      spans_ok lo l' /\ lo <= o /\ (forall x, o <= x < o + size -> free_at l x) /\
      (forall x, free_at l' x <-> free_at l x /\ ~ (o <= x < o + size)) /\
      total_free l' = total_free l - size /\
      exists l1 s l2, l = l1 ++ s :: l2 /\ Forall (fun s => length_ s < size) l1 /\ size <= length_ s /\ o = offset s
  | None => Forall (fun s => length_ s < size) l
  end.
Proof.
  revert lo. induction l as [|s l IH]; intros lo Hl Hlo Hsz; simpl; [constructor|].
  destruct Hl as (H1 & H2 & H3 & H4). destruct (size <=? length_ s) eqn:E.
  - apply Z.leb_le in E.
    assert (forall x, free_at l x -> offset s + length_ s < x) as Hrest.
    { intros x Hx. pose proof (free_at_range _ _ _ H4 Hx). lia. }
    assert (forall x, offset s <= x < offset s + size -> free_at (s :: l) x) as Hin.
    { intros x Hx. apply free_at_cons. left. unfold span_has. lia. }
    assert (exists l1 s0 l2, s :: l = l1 ++ s0 :: l2 /\ Forall (fun s => length_ s < size) l1 /\
              size <= length_ s0 /\ offset s = offset s0) as Hff by (exists [], s, l; split_and!; done).
    destruct (length_ s =? size) eqn:E'.
    + apply Z.eqb_eq in E'. split_and!; [|lia|done| |rewrite ?total_free_cons; cbn [length_]; lia|done].
      * eapply spans_ok_weaken; [|done]. lia.
      * intros x. rewrite free_at_cons. unfold span_has. split; [|intuition lia]. intros Hx.
        specialize (Hrest x Hx). split; [by right|lia].
    + apply Z.eqb_neq in E'. rewrite !(wrap_small 32) by (unfold in_u, u32_MAX in *; lia).
      split_and!; [|lia|done| |rewrite ?total_free_cons; cbn [length_]; lia|done].
      * simpl. split_and!; try lia. by replace (offset s + size + (length_ s - size) + 1) with (offset s + length_ s + 1) by lia.
      * intros x. rewrite !free_at_cons. unfold span_has. cbn [offset length_].
        split; [|intuition lia]. intros [Hx|Hx]; [split; [left|]; lia|].
        specialize (Hrest x Hx). split; [by right|lia].
  - apply Z.leb_gt in E. specialize (IH (offset s + length_ s + 1) H4 ltac:(lia) Hsz).
    destruct (allocate_first size l) as [[o l']|]; [|by constructor].
    destruct IH as (I1 & I2 & I3 & I4 & I5 & l1 & s0 & l2 & -> & I6 & I7 & I8).
    split_and!; [simpl; split_and!; done|lia| | |rewrite ?total_free_cons in *; lia|].
    + intros x Hx. apply free_at_cons. right. by apply I3.
    + intros x. rewrite !free_at_cons, I4. unfold span_has. split; [|tauto].
      intros [Hx|Hx]; [|tauto]. split; [by left|lia].
    + exists (s :: l1), s0, l2. split_and!; [done|by constructor|done|done].
Qed.

(** ** The allocator as a set of available bytes *)

Definition HEADER : Z := Z.of_nat SEGMENT_HEADER_SIZE.

Definition has_free (fls : list FreeList) (i : nat) (x : Z) : Prop := exists l, fls !! i = Some l /\ free_at l x.

(** Byte [x] of segment [i] may be handed out: it is in the free list, behind the
    write position, or in a segment that does not exist yet. *)
Definition avail (a : SegmentAllocator) (i : nat) (x : Z) : Prop :=
  HEADER <= x /\
  (has_free (free_lists a) i x \/
   match segments a !! i with Some info => write_position info <= x | None => True end).

Record wf (a : SegmentAllocator) : Prop := {
  wf_segments : forall i info, segments a !! i = Some info ->
    index info = Z.of_nat i /\ HEADER <= write_position info <= SEGMENT_SIZE;
  wf_max : max_segments a <= MAX_SEGMENTS /\ Z.of_nat (length (segments a)) <= MAX_SEGMENTS;
  wf_spans : Forall (spans_ok 0) (free_lists a);
  wf_free : forall i l x, free_lists a !! i = Some l -> free_at l x ->
    exists info, segments a !! i = Some info /\ HEADER <= x < write_position info;
}.

Lemma allocate_free_ok size fls :
  match allocate_free size fls with
  | Some (i, o, fls') => exists l l', fls !! i = Some l /\ allocate_first size l = Some (o, l') /\ fls' = <[i := l']> fls
  | None => Forall (fun l => allocate_first size l = None) fls
  end.
Proof.
  induction fls as [|l fls IH]; simpl; [constructor|]. destruct (allocate_first size l) as [[o l']|] eqn:E.
  - by exists l, l'.
  - destruct (allocate_free size fls) as [[[i o] fls']|]; [|by constructor].
    destruct IH as (l0 & l1 & H1 & H2 & ->). by exists l0, l1.
Qed.

Lemma allocate_bump_ok size ss :
  match allocate_bump size ss with
  | Some (ix, o, ss') => exists i info, ss !! i = Some info /\ has_space_for info size = true /\
      ix = index info /\ o = write_position info /\
      ss' = <[i := with_position (wrap64 (write_position info + size)) info]> ss
  | None => Forall (fun info => has_space_for info size = false) ss
  end.
Proof.
  induction ss as [|info ss IH]; simpl; [constructor|]. destruct (has_space_for info size) eqn:E.
  - by exists 0%nat, info.
  - destruct (allocate_bump size ss) as [[[ix o] ss']|]; [|by constructor].
    destruct IH as (i & info0 & H1 & H2 & H3 & H4 & ->). exists (S i), info0. by split_and!.
Qed.

(** The range at [o] of segment [i] is taken from the available bytes of [a]. *)
Definition grants (a a' : SegmentAllocator) (i : nat) (o size : Z) : Prop :=
  HEADER <= o /\ o + size <= SEGMENT_SIZE /\ (forall x, o <= x < o + size -> avail a i x) /\
  (forall j x, avail a' j x <-> avail a j x /\ ~ (j = i /\ o <= x < o + size)).

Lemma grant_free a i l l' o size :
  wf a -> 0 <= size -> free_lists a !! i = Some l -> allocate_first size l = Some (o, l') ->
  wf (set_free_lists a (<[i := l']> (free_lists a))) /\ Z.of_nat i < MAX_SEGMENTS /\
  grants a (set_free_lists a (<[i := l']> (free_lists a))) i o size.
Proof.
  intros Ha Hsz Hi Hal. pose proof Ha as [Hseg Hmax Hsp Hfr].
  assert (spans_ok 0 l) as Hl by (rewrite Forall_forall in Hsp; eapply Hsp, list_elem_of_lookup_2, Hi).
  pose proof (allocate_first_ok 0 size l Hl ltac:(lia) Hsz) as H. rewrite Hal in H.
  destruct H as (Hl' & _ & Hin & Hout & _ & l1 & s & l2 & El & _ & Hs & Eo).
  assert (s ∈ l) as Hsl by (rewrite El; apply elem_of_app; right; by left).
  destruct (spans_ok_elem 0 l s Hl Hsl) as (S1 & S2 & S3 & _).
  destruct (Hfr i l o Hi) as (info & Hinfo & Ho); [exists s; split; [done|unfold span_has; lia]|].
  destruct (Hseg i info Hinfo) as [_ Hwp].
  assert (forall x, o <= x < o + size -> HEADER <= x < write_position info) as Hr.
  { intros x Hx. destruct (Hfr i l x Hi (Hin x Hx)) as (info' & E & ?). congruence. }
  assert (o + size <= SEGMENT_SIZE) as Hend.
  { destruct (Z.eq_dec size 0); [lia|]. specialize (Hr (o + size - 1)). lia. }
  pose proof (lookup_lt_Some _ _ _ Hi) as Hlt. split_and!.
  - split; simpl; [done|done|by apply Forall_insert|].
    intros j l0 x Hj Hx. apply list_lookup_insert_Some in Hj as [(<- & <- & _)|[_ Hj]]; [|by apply (Hfr j l0)].
    apply Hout in Hx as [Hx _]. by apply (Hfr i l).
  - apply lookup_lt_Some in Hinfo. lia.
  - split_and!; [lia|done| |].
    + intros x Hx. split; [by apply Hr|]. left. exists l. split; [done|by apply Hin].
    + intros j x. unfold avail, has_free. cbn [set_free_lists free_lists segments].
      destruct (decide (j = i)) as [->|Hne].
      * rewrite list_lookup_insert_eq by done. rewrite Hi, Hinfo. specialize (Hr x).
        split; [|intros [[Hx [(l0 & [= <-] & Hf)|Hw]] Hn]; (split; [done|]); [left; exists l'; split; [done|]|by right];
                 apply Hout; split; [done|tauto]].
        intros [Hx [(l0 & [= <-] & Hf)|Hw]]; (split; [split; [done|]|]).
        -- left. exists l. split; [done|]. by apply Hout in Hf as [? _].
        -- apply Hout in Hf. tauto.
        -- by right.
        -- lia.
      * rewrite list_lookup_insert_ne by done. tauto.
Qed.

Lemma grant_bump a i info size :
  wf a -> 0 <= size < 2 ^ 32 -> segments a !! i = Some info -> has_space_for info size = true ->
  let a' := set_segments a (<[i := with_position (wrap64 (write_position info + size)) info]> (segments a)) in
  wf a' /\ grants a a' i (write_position info) size.
Proof.
  intros Ha Hsz Hi Hsp. pose proof Ha as [Hseg Hmax Hspans Hfr]. destruct (Hseg i info Hi) as [Hix Hwp].
  unfold has_space_for in Hsp. apply andb_true_iff in Hsp as [_ Hsp%Z.leb_le].
  assert (wrap64 (write_position info + size) = write_position info + size) as Ew.
  { apply wrap_small. unfold in_u, SEGMENT_SIZE, HEADER in *. lia. }
  rewrite Ew in *. cbv zeta. pose proof (lookup_lt_Some _ _ _ Hi) as Hlt. split.
  - split; simpl; [|by rewrite length_insert|done|].
    + intros j info' Hj. apply list_lookup_insert_Some in Hj as [(<- & <- & _)|[_ Hj]]; [|by apply Hseg].
      simpl. unfold HEADER in *. lia.
    + intros j l x Hj Hx. destruct (Hfr j l x Hj Hx) as (info' & Hj' & Hx').
      destruct (decide (j = i)) as [->|Hne].
      * rewrite list_lookup_insert_eq by done. eexists. split; [done|]. simpl. simplify_eq. lia.
      * rewrite list_lookup_insert_ne by done. eauto.
  - split_and!; [lia|done| |].
    + intros x Hx. split; [lia|]. right. rewrite Hi. lia.
    + intros j x. unfold avail, has_free. cbn [set_segments free_lists segments]. destruct (decide (j = i)) as [->|Hne].
      * rewrite list_lookup_insert_eq by done. rewrite Hi. cbn [with_position write_position].
        split; [|intros [[Hx [Hf|Hw]] Hn]; (split; [done|]); [by left|right; lia]].
        intros [Hx [(l & Hl & Hf)|Hw]]; (split; [split; [done|]|]); [left; eauto| |right; lia|lia].
        destruct (Hfr i l x Hl Hf) as (info' & E & ?). simplify_eq. lia.
      * rewrite list_lookup_insert_ne by done. tauto.
Qed.

Lemma has_free_grow fls n i x : has_free (fls ++ replicate n []) i x <-> has_free fls i x.
Proof.
  unfold has_free. split.
  - intros (l & Hl & Hx). apply lookup_app_Some in Hl as [Hl|[_ Hl]]; [eauto|].
    apply lookup_replicate in Hl as [-> _]. by apply free_at_nil in Hx.
  - intros (l & Hl & Hx). exists l. split; [|done]. by apply lookup_app_l_Some.
Qed.

Lemma allocate_new_ok io size a d r a' d' :
  wf a -> 0 <= size <= SEGMENT_SIZE - HEADER -> allocate_new io size a d = (r, a', d') ->
  match r with
  | Ok al => wf a' /\ segment_index al = Z.of_nat (length (segments a)) /\
             grants a a' (length (segments a)) (file_offset al) size
  | Err _ => a' = a
  end.
Proof.
  intros Ha Hsz. pose proof Ha as [Hseg Hmax Hspans Hfr]. unfold allocate_new.
  destruct (2 ^ 16 <=? _); [by intros [= <- <- _]|]. destruct (max_segments a <=? _) eqn:Em; [by intros [= <- <- _]|].
  apply Z.leb_gt in Em. destruct (write_ok io); [|by intros [= <- <- _]].
  cbn [info_new write_position with_position]. fold HEADER.
  assert (wrap64 (HEADER + size) = HEADER + size) as ->.
  { apply wrap_small. unfold in_u, SEGMENT_SIZE, HEADER, SEGMENT_HEADER_SIZE in *. lia. }
  rewrite (proj2 (Z.ltb_lt HEADER _)) by done. intros [= <- <- _]. cbn [segment_index file_offset].
  set (info := with_position _ _). set (n := length (segments a)) in *.
  assert ((segments a ++ [info]) !! n = Some info) as Hn.
  { rewrite lookup_app_r by done. by rewrite Nat.sub_diag. }
  split_and!; [|done|].
  - split; cbn [segments free_lists max_segments].
    + intros j info' [Hj|[Hj Hj']]%lookup_app_Some; [by apply Hseg|].
      apply list_lookup_singleton_Some in Hj' as [Hj' <-]. simpl. unfold HEADER in *. lia.
    + rewrite length_app. simpl. lia.
    + apply Forall_app. split; [done|]. by repeat constructor.
    + intros j l x Hj Hx. destruct (proj1 (has_free_grow (free_lists a) 1 j x)) as (l0 & Hl0 & Hx0); [by exists l|].
      destruct (Hfr j l0 x Hl0 Hx0) as (info' & ? & ?). exists info'. split; [by apply lookup_app_l_Some|done].
  - split_and!; [done|lia| |].
    + intros x Hx. split; [lia|]. right. by rewrite lookup_ge_None_2.
    + intros j x. unfold avail. cbn [segments free_lists]. rewrite (has_free_grow (free_lists a) 1).
      destruct (Nat.lt_trichotomy j n) as [Hlt|[->|Hgt]].
      * rewrite lookup_app_l by done. intuition lia.
      * rewrite Hn, (lookup_ge_None_2 (segments a)) by done. cbn [write_position info with_position].
        assert (~ has_free (free_lists a) n x); [|intuition lia].
        intros (l & Hl & Hx). destruct (Hfr n l x Hl Hx) as (info' & Hi & _). apply lookup_lt_Some in Hi. lia.
      * rewrite !lookup_ge_None_2 by (rewrite ?length_app; simpl; lia). intuition lia.
Qed.

Lemma allocate_ok io size u a d r a' d' :
  wf a -> 0 <= size <= SEGMENT_SIZE - HEADER -> allocate io size u a d = (r, a', d') ->
  wf a' /\
  match r with
  | Ok al => 0 <= segment_index al < MAX_SEGMENTS /\ grants a a' (Z.to_nat (segment_index al)) (file_offset al) size
  | Err _ => forall i x, avail a' i x <-> avail a i x
  end.
Proof.
  intros Ha Hsz. assert (size < 2 ^ 32) as H32 by (unfold SEGMENT_SIZE, HEADER in *; lia). unfold allocate.
  rewrite (proj2 (Z.leb_gt _ _)) by done.
  pose proof (allocate_free_ok size (free_lists a)) as Hfree.
  destruct (if u then _ else None) as [[[i o] fls]|] eqn:E.
  { destruct u; [|done]. rewrite E in Hfree. destruct Hfree as (l & l' & Hi & Hal & ->).
    destruct (grant_free a i l l' o size Ha ltac:(lia) Hi Hal) as (Hw & Hlt & Hg).
    rewrite (proj2 (Z.ltb_lt _ _)) by (unfold MAX_SEGMENTS in Hlt; lia). intros [= <- <- _].
    cbn [segment_index file_offset]. rewrite Nat2Z.id. split_and!; try done; lia. }
  pose proof (allocate_bump_ok size (segments a)) as Hb.
  destruct (allocate_bump size (segments a)) as [[[ix o] ss]|].
  { destruct Hb as (i & info & Hi & Hsp & -> & -> & ->).
    destruct (grant_bump a i info size Ha ltac:(lia) Hi Hsp) as [Hw Hg].
    destruct (wf_segments _ Ha i info Hi) as [Hix Hwp]. apply lookup_lt_Some in Hi.
    rewrite (proj2 (Z.ltb_lt _ _)) by (unfold SEGMENT_SIZE in Hwp; lia). intros [= <- <- _].
    cbn [segment_index file_offset]. rewrite Hix, Nat2Z.id. pose proof (wf_max _ Ha). split_and!; try done; lia. }
  intros Hnew. pose proof (allocate_new_ok io size a d r a' d' Ha Hsz Hnew) as H.
  destruct r as [al|e]; [|by subst a']. destruct H as (Hw & -> & Hg). rewrite Nat2Z.id.
  pose proof (wf_max _ Hw). split_and!; try done; [lia|].
  destruct Hg as (_ & _ & Hg1 & Hg2). unfold allocate_new in Hnew.
  repeat (destruct (_ <=? _) eqn:? in Hnew; [done|]). pose proof (wf_max _ Ha). apply Z.leb_gt in Heqb0. lia.
Qed.

(** Freeing a range of which no byte is available. *)
Lemma free_span_ok g o n a :
  wf a -> 0 <= g -> HEADER <= o -> 0 <= n -> o + n <= SEGMENT_SIZE ->
  (forall x, o <= x < o + n -> ~ avail a (Z.to_nat g) x) ->
  exists a', free_span g o n a = Ret a' /\ wf a' /\
    forall i x, avail a' i x <-> avail a i x \/ (i = Z.to_nat g /\ o <= x < o + n).
Proof.
  intros Ha Hg Ho Hn Hend Hnot. pose proof Ha as [Hseg Hmax Hspans Hfr]. unfold free_span, grow_free_lists.
  set (fls := free_lists a ++ _). assert (Forall (spans_ok 0) fls) as Hfls.
  { apply Forall_app. split; [done|]. by apply Forall_replicate. }
  destruct (lookup_lt_is_Some_2 fls (Z.to_nat g)) as [l Hl].
  { unfold fls. rewrite length_app, length_replicate. lia. }
  unfold vec_get, vec_modify. rewrite Hl. cbn [mbind outcome_bind].
  assert (spans_ok 0 l) as Hlo by (rewrite Forall_forall in Hfls; eapply Hfls, list_elem_of_lookup_2, Hl).
  destruct (insert_ok o n l Hlo) as (l' & -> & Hl' & Hset);
    [unfold HEADER in *; lia|done|unfold SEGMENT_SIZE, u32_MAX in *; lia|].
  cbn [mbind outcome_bind]. eexists. split; [done|].
  assert (forall i x, has_free (<[Z.to_nat g := l']> fls) i x <->
            has_free (free_lists a) i x \/ (i = Z.to_nat g /\ o <= x < o + n)) as Hhas.
  { intros i x. rewrite <- (has_free_grow (free_lists a) (S (Z.to_nat g) - length (free_lists a))). fold fls.
    unfold has_free. destruct (decide (i = Z.to_nat g)) as [->|Hne].
    - rewrite list_lookup_insert_eq by (by eapply lookup_lt_Some). rewrite Hl. specialize (Hset x). naive_solver.
    - rewrite list_lookup_insert_ne by done. naive_solver. }
  split.
  - split; cbn [set_free_lists segments free_lists max_segments]; [done|done|by apply Forall_insert|].
    intros i l0 x Hi Hx. destruct (proj1 (Hhas i x)) as [(l1 & H1 & H2)|[-> Hx']]; [by exists l0|by apply (Hfr i l1)|].
    specialize (Hnot x Hx'). unfold avail in Hnot.
    destruct (segments a !! Z.to_nat g) as [info|]; [exists info; split; [done|]|]; [|exfalso; apply Hnot; split; [lia|tauto]].
    split; [lia|]. destruct (Z.lt_ge_cases x (write_position info)); [done|]. exfalso. apply Hnot. split; [lia|tauto].
  - intros i x. unfold avail. cbn [set_free_lists segments free_lists]. rewrite Hhas. intuition lia.
Qed.

Lemma switch_ok from to g a b a' :
  wf a -> switch from to g a = (b, a') -> wf a' /\ forall i x, avail a' i x <-> avail a i x.
Proof.
  intros Ha. unfold switch. destruct (segments a !! Z.to_nat g) as [info|] eqn:Hi; [|by intros [= <- <-]].
  case_bool_decide; [|by intros [= <- <-]]. intros [= <- <-]. pose proof Ha as [Hseg Hmax Hspans Hfr].
  pose proof (lookup_lt_Some _ _ _ Hi) as Hlt. split.
  - split; cbn [set_segments segments free_lists max_segments]; [|by rewrite length_insert|done|].
    + intros j info' [(<- & <- & _)|[_ Hj]]%list_lookup_insert_Some; [|by apply Hseg]. by apply (Hseg _ info).
    + intros j l x Hj Hx. destruct (Hfr j l x Hj Hx) as (info' & Hj' & ?).
      destruct (decide (j = Z.to_nat g)) as [->|Hne].
      * rewrite list_lookup_insert_eq by done. eexists. split; [done|]. by simplify_eq.
      * rewrite list_lookup_insert_ne by done. eauto.
  - intros j x. unfold avail. cbn [set_segments segments free_lists]. destruct (decide (j = Z.to_nat g)) as [->|Hne].
    + by rewrite list_lookup_insert_eq, Hi by done.
    + by rewrite list_lookup_insert_ne by done.
Qed.

(** ** Runs of the allocator

    The state is the allocator with the ranges (segment, offset, length) its
    client holds.  The client asks for at most what fits in an empty segment and
    frees what it holds. *)

Abbreviation range := (Z * Z * Z)%type.

Definition in_range (r : range) (g x : Z) : Prop := r.1.1 = g /\ r.1.2 <= x < r.1.2 + r.2.

Inductive step : SegmentAllocator * list range -> SegmentAllocator * list range -> Prop :=
| step_allocate io size u d a live r a' d' :
    0 <= size <= SEGMENT_SIZE - HEADER -> allocate io size u a d = (r, a', d') ->
    step (a, live) (a', match r with Ok al => (segment_index al, file_offset al, size) :: live | Err _ => live end)
| step_free g o n a a' l1 l2 :
    free_span g o n a = Ret a' -> step (a, l1 ++ (g, o, n) :: l2) (a', l1 ++ l2)
| step_freeze g a b a' live : freeze g a = (b, a') -> step (a, live) (a', live)
| step_thaw g a b a' live : thaw g a = (b, a') -> step (a, live) (a', live).

Definition held (a : SegmentAllocator) (r : range) : Prop :=
  let '(g, o, n) := r in
  0 <= g < MAX_SEGMENTS /\ HEADER <= o /\ 0 <= n /\ o + n <= SEGMENT_SIZE /\
  forall x, o <= x < o + n -> ~ avail a (Z.to_nat g) x.

Definition apart (r r' : range) : Prop := forall g x, in_range r g x -> in_range r' g x -> False.

Definition run_ok (s : SegmentAllocator * list range) : Prop :=
  wf s.1 /\ Forall (held s.1) s.2 /\ ForallOrdPairs apart s.2.

Lemma held_mono a a' live :
  (forall i x, avail a' i x -> avail a i x) -> Forall (held a) live -> Forall (held a') live.
Proof.
  intros Hm Hl. eapply Forall_impl; [exact Hl|]. intros [[g o] n] (? & ? & ? & ? & H). split_and!; try lia.
  intros x Hx Hav. by apply (H x Hx), Hm.
Qed.

Lemma apart_remove l1 (r : range) l2 :
  ForallOrdPairs apart (l1 ++ r :: l2) -> ForallOrdPairs apart (l1 ++ l2) /\ Forall (apart r) (l1 ++ l2).
Proof.
  induction l1 as [|y l1 IH]; simpl; intros H; inversion H as [|? ? Hall Hrest]; subst.
  - done.
  - destruct (IH Hrest) as [I1 I2]. rewrite Forall_app, Forall_cons in Hall. destruct Hall as (A1 & A2 & A3).
    split; [constructor; [by apply Forall_app|done]|]. constructor; [|done]. intros g x Hr Hy. by apply (A2 g x).
Qed.

Lemma step_ok s s' : run_ok s -> step s s' -> run_ok s'.
Proof.
  intros (Ha & Hh & Hp) Hstep. destruct Hstep as [io size u d a live r a' d' Hsz Hal|g o n a a' l1 l2 Hf|g a b a' live Hs|g a b a' live Hs];
    unfold run_ok in *; cbn [fst snd] in *.
  - destruct (allocate_ok io size u a d r a' d' Ha Hsz Hal) as [Hw Hr]. split; [done|]. destruct r as [al|e].
    + destruct Hr as (Hg & Ho & Hend & Hin & Hav). split; constructor; try done.
      * split_and!; try lia. intros x Hx. rewrite Hav. tauto.
      * eapply held_mono; [|exact Hh]. intros i x. rewrite Hav. tauto.
      * eapply Forall_impl; [exact Hh|]. intros [[g' o'] n'] (G1 & _ & _ & _ & Hno) g x [E1 H1] [E2 H2].
        cbn [fst snd] in *. apply (Hno x H2). rewrite E2, <- E1. by apply Hin.
    + split; [|done]. eapply held_mono; [|exact Hh]. intros i x. by rewrite Hr.
  - apply Forall_app in Hh as [Hh1 [(G1 & G2 & G3 & G4 & Hno) Hh2]%Forall_cons].
    destruct (free_span_ok g o n a Ha ltac:(lia) G2 G3 G4 Hno) as (a1 & E & Hw & Hav).
    rewrite Hf in E. injection E as <-. apply apart_remove in Hp as [Hp1 Hp2]. split_and!; try done.
    assert (Forall (held a) (l1 ++ l2)) as Hh by by apply Forall_app.
    rewrite Forall_forall in *. intros [[g' o'] n'] Hr. destruct (Hh _ Hr) as (? & ? & ? & ? & Hno').
    split_and!; try lia. intros x Hx [Ha1|[Eg Hx']]%Hav; [by apply (Hno' x)|].
    apply (Hp2 _ Hr g x); split; simpl; lia.
  - destruct (switch_ok _ _ g a b a' Ha Hs) as [Hw Hav]. split_and!; try done.
    eapply held_mono; [|exact Hh]. intros i x. by rewrite Hav.
  - destruct (switch_ok _ _ g a b a' Ha Hs) as [Hw Hav]. split_and!; try done.
    eapply held_mono; [|exact Hh]. intros i x. by rewrite Hav.
Qed.

Lemma new_run_ok ph m : run_ok (allocator_new ph m, []).
Proof.
  split_and!; [|constructor|constructor]. split; simpl; [done| |constructor|done].
  unfold MAX_SEGMENTS. lia.
Qed.

(** ** The segment header *)

Lemma segment_header_codec hs tl :
  length hs = BUCKET_COUNT -> Forall LocalHeader.header_ok hs ->
  let h := {| headers := hs |} in
  is_array SEGMENT_HEADER_SIZE (to_bytes h) /\ from_bytes (to_bytes h ++ tl) = Some h.
Proof.
  intros Hn Hhs. cbv zeta.
  assert (blocks_of 30 (map LocalHeader.to_bytes hs)) as Hb.
  { apply Forall_map. eapply Forall_impl; [exact Hhs|]. intros h Hh. apply LocalHeader.to_bytes_array, Hh. }
  assert (to_bytes {| headers := hs |} = concat (map LocalHeader.to_bytes hs)) as E.
  { unfold to_bytes. cbn [headers]. change LocalHeader.LOCAL_HEADER_SIZE with 30%nat.
    rewrite (copy_rows LocalHeader.to_bytes 30), Hn; [apply app_nil_r| |rewrite Hn; vm_compute; lia].
    by apply Forall_map in Hb. }
  assert (length (concat (map LocalHeader.to_bytes hs)) = SEGMENT_HEADER_SIZE) as L.
  { rewrite (length_concat_blocks 30), length_map, Hn by done. done. }
  rewrite E. split.
  - split; [done|]. apply is_bytes_concat, Forall_map. eapply Forall_impl; [exact Hhs|].
    intros h Hh. apply LocalHeader.to_bytes_array, Hh.
  - unfold from_bytes. rewrite length_app, L. rewrite (proj2 (Nat.ltb_ge _ _)) by lia. do 2 f_equal.
    apply list_eq. intros i. rewrite list_lookup_imap. change LocalHeader.LOCAL_HEADER_SIZE with 30%nat.
    destruct (hs !! i) as [h|] eqn:Eh.
    + pose proof (lookup_lt_Some _ _ _ Eh) as Hi. rewrite Hn in Hi.
      destruct (lookup_lt_is_Some_2 zeroed_headers i) as [z Hz].
      { unfold zeroed_headers. by rewrite length_fmap, length_seq. }
      rewrite Hz. cbn [fmap option_fmap option_map]. f_equal.
      assert (slice (i * 30) (i * 30 + 30) (concat (map LocalHeader.to_bytes hs) ++ tl) = LocalHeader.to_bytes h) as ->.
      { unfold slice. rewrite drop_app_le, take_app_le; rewrite ?length_drop, ?L;
          try (unfold BUCKET_COUNT in Hi; change SEGMENT_HEADER_SIZE with 480%nat; lia).
        apply (slice_concat 30 _ i); [done|]. by rewrite list_lookup_fmap, Eh. }
      rewrite LocalHeader.local_header_codec; [done|]. rewrite Forall_forall in Hhs.
      eapply Hhs, list_elem_of_lookup_2, Eh.
    + apply lookup_ge_None in Eh. rewrite lookup_ge_None_2; [done|].
      unfold zeroed_headers. rewrite length_fmap, length_seq. lia.
Qed.

(** Some first byte makes the first nine bytes of a key hash to the bucket. *)
Lemma probe_found k target :
  is_array 16 k -> 0 <= target < 16 ->
  exists probe, u8 probe /\ List.find (fun p => bucket_hash (take 9 (<[0%nat := p]> k)) 1 =? target) probes = Some probe.
Proof.
  intros [Lk Bk] Ht. destruct k as [|k0 k]; [done|]. apply Forall_cons in Bk as [_ Bk].
  set (r := fold_left Z.lxor (take 8 k) 0).
  assert (u8 r) as Hr by (apply fold_xor_range; [done|by apply is_bytes_take]).
  set (v := (target - 1) mod 16). assert (0 <= v < 16) as Hv by (apply Z.mod_pos_bound; lia).
  assert (u8 (Z.lxor r v)) as Hp by (apply lxor_range; [lia|done|unfold in_u; lia]).
  assert ((bucket_hash (take 9 (<[0%nat := Z.lxor r v]> (k0 :: k))) 1 =? target) = true) as Hh.
  { apply Z.eqb_eq. unfold bucket_hash. rewrite take_take.
    change (take (Nat.min 9 9) (<[0%nat := Z.lxor r v]> (k0 :: k))) with (Z.lxor r v :: take 8 k).
    cbn [fold_left]. rewrite fold_xor_start. fold r.
    rewrite Z.lxor_0_l, (Z.lxor_comm r v), Z.lxor_assoc, Z.lxor_nilpotent, Z.lxor_0_r.
    rewrite Z.shiftr_div_pow2, Z.div_small, Z.lxor_0_l by (change (2 ^ 4) with 16; lia).
    rewrite (wrap_small 8) by (unfold in_u; lia). change 0x0F with (Z.ones 4).
    rewrite Z.land_ones by lia. change (2 ^ 4) with 16. unfold v. rewrite Zplus_mod_idemp_l.
    rewrite Z.sub_add. by apply Z.mod_small. }
  destruct (List.find _ probes) as [p|] eqn:E.
  - exists p. split; [|done]. apply find_some in E as [Hin _]. apply list_elem_of_In, list_elem_of_fmap in Hin as (n & -> & Hn).
    apply elem_of_seq in Hn. unfold in_u. lia.
  - exfalso. eapply find_none in E; [|apply list_elem_of_In, list_elem_of_fmap; exists (Z.to_nat (Z.lxor r v))].
    + cbv beta in E. erewrite Hh in E. done.
    + unfold in_u in Hp. split; [lia|]. apply elem_of_seq. lia.
Qed.

Lemma segment_key_ok ph n target :
  is_array 16 ph -> 0 <= target < 16 ->
  is_array 16 (generate_segment_key ph n target) /\ bucket_hash (generate_segment_key ph n target) 1 = target.
Proof.
  intros Hph Ht. unfold generate_segment_key.
  set (k := <[2%nat := _]> (<[1%nat := _]> ph)).
  assert (is_array 16 k) as Hk.
  { destruct Hph as [L B]. split; [unfold k; by rewrite !length_insert|].
    assert (forall z, u8 (Z.land z 0xFF)) as Hu.
    { intros z. change 0xFF with (Z.ones 8). rewrite Z.land_ones by lia. apply Z.mod_pos_bound. lia. }
    by repeat apply Forall_insert. }
  destruct (probe_found k target Hk Ht) as (p & Hp & E). rewrite E. destruct Hk as [L B]. split.
  - split; [by rewrite length_insert|by apply Forall_insert].
  - apply find_some in E as [_ E%Z.eqb_eq]. rewrite <- E. unfold bucket_hash. by rewrite take_take.
Qed.

Lemma generate_headers idx ph :
  headers (generate idx ph) =
  (fun b => LocalHeader.new (generate_segment_key ph idx (Z.of_nat b)) 30 (idx * SEGMENT_SIZE + Z.of_nat (b * 30)) 1)
    <$> seq 0 BUCKET_COUNT.
Proof. reflexivity. Qed.

Lemma generated_headers_ok idx ph :
  is_array 16 ph -> Forall LocalHeader.header_ok (headers (generate idx ph)).
Proof.
  intros Hph. rewrite generate_headers. apply Forall_fmap, Forall_forall. intros b Hb%elem_of_seq.
  unfold BUCKET_COUNT in Hb. apply LocalHeader.new_valid; [|decide_now|decide_now].
  apply segment_key_ok; [done|lia].
Qed.

(** ** Theorems *)

(** Inserting a range into a free list that is sorted and coalesced never
    panics, keeps it sorted and coalesced, and makes exactly the bytes of the
    range free in addition to those that were. *)
Theorem free_list_insert off len l :
  spans_ok 0 l -> 0 <= off -> 0 <= len -> off + len <= u32_MAX ->
  exists l', Segment.insert off len l = Ret l' /\ spans_ok 0 l' /\
    forall x, free_at l' x <-> free_at l x \/ off <= x < off + len.
Proof. apply insert_ok. Qed.

Definition sample_list : FreeList :=
  [{| offset := 480; length_ := 20 |}; {| offset := 510; length_ := 5 |}; {| offset := 600; length_ := 100 |}].

Lemma free_list_insert_witness :
  exists l', Segment.insert 500 12 sample_list = Ret l' /\ spans_ok 0 l' /\
    forall x, free_at l' x <-> free_at sample_list x \/ 500 <= x < 500 + 12.
Proof. apply free_list_insert; [decide_now|lia|lia|unfold u32_MAX; lia]. Defined.

(** Allocation from a free list is first fit: it takes the start of the first
    span that is long enough, removes exactly the allocated bytes and keeps the
    list sorted and coalesced; it fails exactly if every span is too short. *)
Theorem free_list_allocate size l :
  spans_ok 0 l -> 0 <= size ->
  match allocate_first size l with
  | Some (o, l') =>
      spans_ok 0 l' /\ (forall x, o <= x < o + size -> free_at l x) /\
      (forall x, free_at l' x <-> free_at l x /\ ~ (o <= x < o + size)) /\
      total_free l' = total_free l - size /\
      exists l1 s l2, l = l1 ++ s :: l2 /\ Forall (fun s => length_ s < size) l1 /\ size <= length_ s /\ o = offset s
  | None => Forall (fun s => length_ s < size) l
  end.
Proof.
  intros Hl Hsz. pose proof (allocate_first_ok 0 size l Hl ltac:(lia) Hsz) as H.
  destruct (allocate_first size l) as [[o l']|]; [|done]. tauto.
Qed.

Lemma free_list_allocate_witness :
  allocate_first 50 sample_list =
    Some (600, [{| offset := 480; length_ := 20 |}; {| offset := 510; length_ := 5 |}; {| offset := 650; length_ := 50 |}]) /\
  forall x, 600 <= x < 600 + 50 -> free_at sample_list x.
Proof.
  split; [reflexivity|]. apply (free_list_allocate 50 sample_list); [decide_now|lia].
Defined.

(** C35: a client that asks for at most what an empty segment holds behind its header, and
    frees only what it holds, may allocate and free in any order, with segments frozen and
    thawed in between and files failing to be written: the ranges it holds never overlap,
    lie between the header and the end of their segment, and contain no byte the
    allocator could still hand out; freeing any of them does not panic.  The limit is the
    client's to keep: the allocator does not check it, and a larger allocation leaves its
    segment ([allocate_overruns_segment]). *)
Theorem allocations_disjoint s s' :
  run_ok s -> rtc step s s' ->
  ForallOrdPairs apart (snd s') /\ Forall (held (fst s')) (snd s') /\
  forall g o n, (g, o, n) ∈ snd s' -> exists a', free_span g o n (fst s') = Ret a'.
Proof.
  intros Hs Hsteps.
  assert (run_ok s') as (Hw & Hh & Hp) by (induction Hsteps; eauto using step_ok).
  split_and!; [done|done|]. intros g o n Hin. rewrite Forall_forall in Hh.
  destruct (Hh _ Hin) as (G1 & G2 & G3 & G4 & Hno).
  destruct (free_span_ok g o n _ Hw ltac:(lia) G2 G3 G4 Hno) as (a' & E & _). eauto.
Qed.

Definition io_ok : Io :=
  {| read_dir := DirOk; stat_ok := fun _ => true; read_ok := fun _ => true; write_ok := true; partial := None |}.

(** Two allocations, the first one freed, and a third that reuses its bytes. *)
Lemma allocations_disjoint_witness :
  exists a, rtc step (allocator_new (zeros 16) 2, []) (a, [(0, 480, 60); (0, 580, 50)]) /\
    ForallOrdPairs apart [(0, 480, 60); (0, 580, 50)].
Proof.
  destruct (allocate io_ok 100 true (allocator_new (zeros 16) 2) []) as [[r1 a1] d1] eqn:E1.
  destruct (allocate io_ok 50 true a1 []) as [[r2 a2] d2] eqn:E2.
  destruct (free_span 0 480 100 a2) as [a3|] eqn:E3; [|by vm_compute in E1; simplify_eq; vm_compute in E2; simplify_eq].
  destruct (allocate io_ok 60 true a3 []) as [[r4 a4] d4] eqn:E4. exists a4.
  assert (rtc step (allocator_new (zeros 16) 2, []) (a4, [(0, 480, 60); (0, 580, 50)])) as H.
  { eapply rtc_l; [eapply (step_allocate io_ok 100 true), E1; split; by vm_compute|].
    eapply rtc_l; [eapply (step_allocate io_ok 50 true), E2; split; by vm_compute|].
    vm_compute in E1. injection E1 as <- <- <-. vm_compute in E2. injection E2 as <- <- <-.
    eapply rtc_l; [eapply (step_free 0 480 100 _ _ [(0, 580, 50)] []), E3|].
    eapply rtc_l; [eapply (step_allocate io_ok 60 true), E4; split; by vm_compute|].
    vm_compute in E3. injection E3 as <-. vm_compute in E4. injection E4 as <- <- <-. apply rtc_refl. }
  split; [exact H|]. exact (proj1 (allocations_disjoint _ _ (new_run_ok _ _) H)).
Defined.

Lemma allocate_first_short size l : allocate_first size l = None -> Forall (fun s => length_ s < size) l.
Proof.
  induction l as [|s l IH]; simpl; [constructor|]. destruct (size <=? length_ s) eqn:E; [done|].
  apply Z.leb_gt in E. destruct (allocate_first size l) as [[o l']|]; [done|]. constructor; auto.
Qed.

Lemma allocate_free_total size fls :
  (exists l s, l ∈ fls /\ s ∈ l /\ size <= length_ s) -> exists r, allocate_free size fls = Some r.
Proof.
  intros (l & s & Hl & Hs & Hsz). pose proof (allocate_free_ok size fls) as H.
  destruct (allocate_free size fls); [eauto|]. rewrite Forall_forall in H. specialize (H l Hl).
  pose proof (allocate_first_short size l H) as Hs'. rewrite Forall_forall in Hs'. specialize (Hs' s Hs). lia.
Qed.

(** C37: an allocation that fits in an empty segment succeeds if a free list has a
    long enough span (and may be used), or a thawed segment has room behind its
    write position, or there may be another segment and its file can be written;
    a new segment's file then holds its header. *)
Theorem allocate_succeeds io size u a d :
  wf a -> 0 <= size <= SEGMENT_SIZE - HEADER ->
  (u = true /\ exists l s, l ∈ free_lists a /\ s ∈ l /\ size <= length_ s) \/
  (exists info, info ∈ segments a /\ state info = Thawed /\ write_position info + size <= SEGMENT_SIZE) \/
  (Z.of_nat (segment_count a) < max_segments a /\ write_ok io = true) ->
  exists al a' d', allocate io size u a d = (Ok al, a', d') /\
    (d' = d \/ disk_get d' (segment_data_name (segment_index al)) =
                 Some (to_bytes (generate (segment_index al) (path_hash a)))).
Proof.
  intros Ha Hsz Hroom. destruct (allocate io size u a d) as [[r a'] d'] eqn:E.
  destruct (allocate_ok _ _ _ _ _ _ _ _ Ha Hsz E) as [Hw Hr].
  assert (size < 2 ^ 32) as H32 by (unfold SEGMENT_SIZE, HEADER in *; lia).
  unfold allocate in E. rewrite (proj2 (Z.leb_gt _ _)) in E by done.
  pose proof (allocate_free_ok size (free_lists a)) as Hf.
  destruct (if u then _ else None) as [[[i o] fls]|] eqn:Eu.
  { destruct u; [|done]. rewrite Eu in Hf. destruct Hf as (l & l' & Hi & Hal & _).
    destruct (grant_free a i l l' o size Ha ltac:(lia) Hi Hal) as (_ & Hlt & _).
    rewrite (proj2 (Z.ltb_lt _ _)) in E by (unfold MAX_SEGMENTS in Hlt; lia). injection E as <- <- <-. eauto 7. }
  pose proof (allocate_bump_ok size (segments a)) as Hb.
  destruct (allocate_bump size (segments a)) as [[[ix o] ss]|].
  { destruct Hb as (i & info & Hi & _ & -> & -> & _). destruct (wf_segments _ Ha i info Hi) as [_ Hwp].
    rewrite (proj2 (Z.ltb_lt _ _)) in E by (unfold SEGMENT_SIZE in Hwp; lia). injection E as <- <- <-. eauto 7. }
  destruct Hroom as [[-> Hr1]|[(info & Hin & Ht & Hp)|[Hc Hwr]]].
  - apply allocate_free_total in Hr1 as [p Hp]. rewrite Hp in Eu. done.
  - rewrite Forall_forall in Hb. specialize (Hb _ Hin). unfold has_space_for in Hb. rewrite bool_decide_true in Hb by done.
    apply list_elem_of_lookup in Hin as [i Hi]. destruct (wf_segments _ Ha i info Hi) as [_ Hwp]. simpl in Hb.
    apply Z.leb_gt in Hb. rewrite (wrap_small 64) in Hb; [lia|]. unfold in_u, SEGMENT_SIZE, HEADER in *. lia.
  - unfold allocate_new in E. unfold segment_count in Hc. destruct (wf_max _ Ha) as [Hm Hm'].
    rewrite !(proj2 (Z.leb_gt _ _)), Hwr in E by (unfold MAX_SEGMENTS in *; lia). cbn [info_new write_position] in E.
    rewrite (proj2 (Z.ltb_lt _ _)) in E by done. injection E as <- <- <-. cbn [segment_index].
    eexists _, _, _. split; [done|]. right. apply disk_get_write.
Qed.

Lemma allocate_succeeds_witness :
  exists al a' d', allocate io_ok 1000 true (allocator_new (zeros 16) 1) [] = (Ok al, a', d') /\
    (d' = [] \/ disk_get d' (segment_data_name (segment_index al)) = Some (to_bytes (generate (segment_index al) (zeros 16)))).
Proof.
  apply (allocate_succeeds io_ok 1000 true (allocator_new (zeros 16) 1) []).
  - apply (new_run_ok (zeros 16) 1).
  - split; by vm_compute.
  - right. right. split; by vm_compute.
Defined.

(** The header of a new segment is 480 bytes that read back as written, and the
    header of each bucket has a key that hashes to the bucket, the size
    reconstruction expects, and checksums that validate at its position. *)
Theorem segment_header_generated idx ph tl :
  is_array 16 ph ->
  let h := generate idx ph in
  is_array SEGMENT_HEADER_SIZE (to_bytes h) /\ from_bytes (to_bytes h ++ tl) = Some h /\
  forall b, 0 <= b < 16 ->
    bucket_hash (bucket_key h b) 1 = b /\
    LocalHeader.encoded_size (bucket_header h b) = Z.of_nat LocalHeader.LOCAL_HEADER_SIZE /\
    LocalHeader.validate_checksums (bucket_header h b)
      (idx * SEGMENT_SIZE + b * Z.of_nat LocalHeader.LOCAL_HEADER_SIZE) = true.
Proof.
  intros Hph. cbv zeta. pose proof (generated_headers_ok idx ph Hph) as Hok.
  destruct (segment_header_codec (headers (generate idx ph)) tl) as [H1 H2]; [reflexivity|done|].
  split_and!; [exact H1|exact H2|]. intros b Hb.
  assert (bucket_header (generate idx ph) b = LocalHeader.new (generate_segment_key ph idx b) 30
            (idx * SEGMENT_SIZE + b * 30) 1) as E.
  { unfold bucket_header. change 0x0F with (Z.ones 4). rewrite Z.land_ones, Z.mod_small by (simpl; lia).
    apply nth_lookup_Some. rewrite generate_headers, list_lookup_fmap, lookup_seq_lt by (unfold BUCKET_COUNT; lia).
    cbn [fmap option_fmap option_map Nat.add]. rewrite Nat2Z.inj_mul, Z2Nat.id by lia. reflexivity. }
  destruct (segment_key_ok ph idx b Hph Hb) as [Hk Hh].
  destruct (LocalHeader.new_valid _ 30 (idx * SEGMENT_SIZE + b * 30) 1 Hk ltac:(decide_now) ltac:(decide_now)) as (_ & Hv & Ho).
  unfold bucket_key. rewrite E, Ho. split_and!; [done|done|exact Hv].
Qed.

Lemma segment_header_generated_witness :
  let h := generate 3 (replicate 16 0x5A) in
  is_array SEGMENT_HEADER_SIZE (to_bytes h) /\ bucket_hash (bucket_key h 15) 1 = 15.
Proof.
  destruct (segment_header_generated 3 (replicate 16 0x5A) [] ltac:(decide_now)) as (H1 & _ & H3).
  split; [exact H1|]. by apply H3.
Defined.

(** ** Where the code does less than it says *)

(** A new segment takes any 32-bit size: a range that does not fit in a segment is
    handed out all the same, and the write position passes the segment's end. *)
Theorem allocate_overruns_segment io ph m u d size :
  0 < m -> write_ok io = true -> SEGMENT_SIZE - HEADER < size < 2 ^ 32 ->
  exists a' d' info, allocate io size u (allocator_new ph m) d =
      (Ok {| segment_index := 0; file_offset := HEADER |}, a', d') /\
    segments a' = [info] /\ write_position info = HEADER + size /\ SEGMENT_SIZE < HEADER + size.
Proof.
  intros Hm Hw Hsz. unfold allocate. rewrite (proj2 (Z.leb_gt _ _)) by lia.
  replace (if u then allocate_free size (free_lists (allocator_new ph m)) else None) with
    (@None (nat * Z * list FreeList)) by by destruct u.
  cbn [allocate_bump segments allocator_new]. unfold allocate_new. cbn [segments allocator_new length Z.of_nat max_segments].
  rewrite !(proj2 (Z.leb_gt _ _)), Hw by (unfold MAX_SEGMENTS; lia).
  eexists _, _, _. split; [reflexivity|]. split; [reflexivity|]. cbn [with_position write_position info_new].
  fold HEADER. split; [|lia]. apply wrap_small. unfold in_u, SEGMENT_SIZE, HEADER, SEGMENT_HEADER_SIZE in *. lia.
Qed.

(** The free lists are searched without a look at the state of the segment: space
    given back to a frozen segment is handed out again while it is frozen. *)
Theorem allocate_into_frozen :
  exists a d a' a'', allocate io_ok 100 false (allocator_new (zeros 16) 10) [] = (Ok {| segment_index := 0; file_offset := 480 |}, a, d) /\
    free_span 0 480 100 (snd (freeze 0 a)) = Ret a' /\ (state <$> segments a') = [Frozen] /\
    allocate io_ok 50 true a' d = (Ok {| segment_index := 0; file_offset := 480 |}, a'', d).
Proof.
  eexists _, _, _, _. split; [vm_compute; reflexivity|]. split; [vm_compute; reflexivity|].
  split; [reflexivity|vm_compute; reflexivity].
Qed.

(** A missing data file below an existing one is loaded as an empty thawed
    segment; an allocation then goes to a file that was never created. *)
Theorem load_existing_gap :
  exists a, load_existing io_ok [(segment_data_name 2, zeros 600)] (allocator_new (zeros 16) 10) = (Ok tt, a) /\
    (state <$> segments a) = [Thawed; Thawed; Frozen] /\
    exists a', allocate io_ok 100 false a [(segment_data_name 2, zeros 600)] =
      (Ok {| segment_index := 0; file_offset := 480 |}, a', [(segment_data_name 2, zeros 600)]).
Proof. eexists. split; [vm_compute; reflexivity|]. split; [reflexivity|]. eexists. vm_compute. reflexivity. Qed.
