(* ===== verification/Compaction.v ===== *)
(** * Compaction of segments: crates/cascette-client-storage/src/storage/compaction.rs

    The buffered file mover, the backup file of a running compaction, the
    validation of spans, the plan of an archive merge and the in-place
    compaction of one segment.  An open file is its content; which system calls
    fail, and how much a failed write wrote, is the argument [io].  The
    comparison of a utilisation with the threshold is floating point and stays
    a parameter of [plan_archive_merge]. *)

From S2P Require Import Prelude Bytes Collections Segment.
Import Segment.
Local Open Scope Z_scope.

Module Compaction.

(** ** Spans *)

Record DataSpan := { offset : Z; length_ : Z }.

(** Both are [u64] additions. *)
Definition span_end (s : DataSpan) : Z := wrap64 (offset s + length_ s).

Definition overlaps (a b : DataSpan) : bool := (offset a <? span_end b) && (offset b <? span_end a).

(** The loop over adjacent pairs. *)
Fixpoint adjacent_ok (spans : list DataSpan) : bool :=
  match spans with
  | a :: (b :: _) as rest => if offset b <? span_end a then false else adjacent_ok rest
  | _ => true
  end.

(** [validate_spans]; it leaves the slice sorted. *)
Definition validate_spans (spans : list DataSpan) : result StorageError unit * list DataSpan :=
  if (length spans <=? 1)%nat then (Ok tt, spans)
  else
    let spans := sort_by_key offset spans in
    (if adjacent_ok spans then Ok tt else Err (ArchiveError "overlapping spans"), spans).

(** ** Files *)

(** Which calls succeed; [read_seek_ok i], [read_ok i], [write_seek_ok i] and
    [write_ok i] are the calls of the [i]-th iteration of a copy loop.  A
    failed write has written the first [partial i] bytes. *)
Record Io := {
  source_seek_ok : bool;
  dest_seek_ok : bool;
  read_seek_ok : nat -> bool;
  write_seek_ok : nat -> bool;
  read_ok : nat -> bool;
  write_ok : nat -> bool;
  partial : nat -> nat;
  stat_ok : bool;
  set_len_ok : bool;
}.

(** [read_exact] at a position: an error at the end of the file. *)
Definition read_at (off n : nat) (file : bytes) : option bytes :=
  if (off + n <=? length file)%nat then Some (slice off (off + n) file) else None.

(** [write_all] at a position, which extends the file, with zeros up to the position. *)
Definition write_at (off : nat) (data file : bytes) : bytes :=
  match data with
  | [] => file
  | _ => copy_at off data (file ++ zeros (off + length data - length file))
  end.

(** ** The file mover *)

Definition MIN_BUFFER_SIZE : Z := 128 * 1024.
Definition MAX_BUFFERS : Z := 16.
Definition BUFFER_SIZE_SHIFT : Z := 17.

Record CompactionFileMover := { buf_size : Z; buf_count : Z; bytes_moved : Z }.

Definition mover_new (total_budget : Z) : CompactionFileMover :=
  let total := Z.max total_budget MIN_BUFFER_SIZE in
  let count := Z.max 1 (Z.min (Z.shiftr total BUFFER_SIZE_SHIFT) MAX_BUFFERS) in
  {| buf_size := total / count; buf_count := count; bytes_moved := 0 |}.

Definition moved (m : CompactionFileMover) (n : nat) : CompactionFileMover :=
  {| buf_size := buf_size m; buf_count := buf_count m; bytes_moved := wrap64 (bytes_moved m + Z.of_nat n) |}.

(** The loop of [move_data]: [n] is what remains, and each iteration takes at
    least one byte off it.  [None] is a run longer than [fuel]. *)
Fixpoint move_loop (fuel i : nat) (io : Io) (m : CompactionFileMover) (source dest : bytes) (src dst n : nat) :
    option (result StorageError unit * CompactionFileMover * bytes) :=
  match fuel with
  | O => None
  | S fuel =>
      if (n =? 0)%nat then Some (Ok tt, m, dest)
      else
        let chunk := Nat.min n (Z.to_nat (buf_size m)) in
        match (if read_ok io i then read_at src chunk source else None) with
        | None => Some (Err (ArchiveError "compaction: read failed"), m, dest)
        | Some buf =>
            if write_ok io i then
              move_loop fuel (S i) io (moved m chunk) source (write_at dst buf dest) (src + chunk) (dst + chunk) (n - chunk)
            else Some (Err (ArchiveError "compaction: write failed"), m, write_at dst (take (partial io i) buf) dest)
        end
  end.

Definition move_data (io : Io) (m : CompactionFileMover) (source : bytes) (src_offset : Z) (dest : bytes)
    (dest_offset len : Z) : option (result StorageError unit * CompactionFileMover * bytes) :=
  if negb (source_seek_ok io) then Some (Err (ArchiveError "compaction: source seek failed"), m, dest)
  else if negb (dest_seek_ok io) then Some (Err (ArchiveError "compaction: dest seek failed"), m, dest)
  else move_loop (S (Z.to_nat len)) 0 io m source dest (Z.to_nat src_offset) (Z.to_nat dest_offset) (Z.to_nat len).

(** The loop of [compact_in_place]. *)
Fixpoint compact_loop (fuel i : nat) (io : Io) (m : CompactionFileMover) (file : bytes) (src dst n : nat) :
    option (result StorageError unit * CompactionFileMover * bytes) :=
  match fuel with
  | O => None
  | S fuel =>
      if (n =? 0)%nat then Some (Ok tt, m, file)
      else
        let chunk := Nat.min n (Z.to_nat (buf_size m)) in
        if negb (read_seek_ok io i) then Some (Err (ArchiveError "compaction: seek read failed"), m, file)
        else
          match (if read_ok io i then read_at src chunk file else None) with
          | None => Some (Err (ArchiveError "compaction: read failed"), m, file)
          | Some buf =>
              if negb (write_seek_ok io i) then Some (Err (ArchiveError "compaction: seek write failed"), m, file)
              else if write_ok io i then
                compact_loop fuel (S i) io (moved m chunk) (write_at dst buf file) (src + chunk) (dst + chunk) (n - chunk)
              else Some (Err (ArchiveError "compaction: write failed"), m, write_at dst (take (partial io i) buf) file)
          end
  end.

Definition compact_in_place (io : Io) (m : CompactionFileMover) (file : bytes) (src_offset dest_offset len : Z) :
    option (result StorageError unit * CompactionFileMover * bytes) :=
  if src_offset =? dest_offset then Some (Ok tt, m, file)
  else compact_loop (S (Z.to_nat len)) 0 io m file (Z.to_nat src_offset) (Z.to_nat dest_offset) (Z.to_nat len).

(** ** One segment *)

(** The loop of [extract_compact_segment]; [k] numbers the calls for [io]. *)
Fixpoint gather (io : nat -> Io) (k : nat) (m : CompactionFileMover) (file : bytes) (spans : list DataSpan) (write_pos : Z) :
    option (result StorageError Z * CompactionFileMover * bytes) :=
  match spans with
  | [] => Some (Ok write_pos, m, file)
  | s :: spans =>
      if write_pos <? offset s then
        match compact_in_place (io k) m file (offset s) write_pos (length_ s) with
        | None => None
        | Some (Err e, m, file) => Some (Err e, m, file)
        | Some (Ok _, m, file) => gather io (S k) m file spans (wrap64 (write_pos + length_ s))
        end
      else gather io (S k) m file spans (wrap64 (write_pos + length_ s))
  end.

Definition extract_compact_segment (io : nat -> Io) (file : bytes) (spans : list DataSpan) (m : CompactionFileMover) :
    option (result StorageError Z * bytes * list DataSpan * CompactionFileMover) :=
  match spans with
  | [] => Some (Ok 0, file, spans, m)
  | _ =>
      let '(r, spans) := validate_spans spans in
      match r with
      | Err e => Some (Err e, file, spans, m)
      | Ok _ =>
          if negb (stat_ok (io 0%nat)) then Some (Err (ArchiveError "failed to stat file for compaction"), file, spans, m)
          else
            let original_size := Z.of_nat (length file) in
            match gather io 0 m file spans 0 with
            | None => None
            | Some (Err e, m, file) => Some (Err e, file, spans, m)
            | Some (Ok write_pos, m, file) =>
                let bytes_saved := Z.max 0 (original_size - write_pos) in
                if 0 <? bytes_saved then
                  if set_len_ok (io 0%nat) then Some (Ok bytes_saved, take (Z.to_nat write_pos) file, spans, m)
                  else Some (Err (ArchiveError "failed to truncate after compaction"), file, spans, m)
                else Some (Ok bytes_saved, file, spans, m)
            end
      end
  end.

(** ** The backup file *)

Definition BACKUP_VERSION : Z := 1.
Definition BACKUP_HEADER_SIZE : nat := 5.
Definition BACKUP_MAX_ENTRIES : Z := MAX_SEGMENTS.

(** [ExtractorCompactorBackup], without its path. *)
Abbreviation Backup := (list Z).

Definition backup_header : bytes := [BACKUP_VERSION] ++ to_le_bytes 4 BACKUP_MAX_ENTRIES.

Definition backup_new : Backup := [].

(** The parsing part of [load]; [None] is a file that is ignored. *)
Definition backup_parse (data : bytes) : option Backup :=
  if (length data <? BACKUP_HEADER_SIZE)%nat then None
  else if negb (nth 0 data 0 =? BACKUP_VERSION) then None
  else
    let max_entries := from_le_bytes (slice 1 5 data) in
    let entry_count := ((length data - BACKUP_HEADER_SIZE) / 4)%nat in
    let count := Nat.min entry_count (Z.to_nat max_entries) in
    Some (omap (fun i =>
      let offset := (BACKUP_HEADER_SIZE + i * 4)%nat in
      if (offset + 4 <=? length data)%nat then
        let idx := from_le_bytes (slice offset (offset + 4) data) in
        if idx <? 2 ^ 16 then Some idx else None
      else None) (seq 0 count)).

(** [load] on the file at the backup path, if there is one. *)
Definition backup_load (open_ok read_ok : bool) (file : option bytes) : result StorageError (option Backup) :=
  match file with
  | None => Ok None
  | Some data =>
      if negb open_ok then Err (ArchiveError "failed to open compaction backup")
      else if negb read_ok then Err (ArchiveError "failed to read compaction backup")
      else Ok (backup_parse data)
  end.

(** [save]: a failure after [n] bytes; all bytes written, it is the flush that fails. *)
Definition backup_save (create_ok : bool) (failed : option nat) (b : Backup) (file : option bytes) :
    result StorageError unit * option bytes :=
  let image := backup_header ++ concat (map (to_le_bytes 4) b) in
  if negb create_ok then (Err (ArchiveError "failed to create compaction backup"), file)
  else
    match failed with
    | None => (Ok tt, Some image)
    | Some n =>
        (Err (ArchiveError
           (if (n <? 1)%nat then "failed to write backup version"
            else if (n <? 5)%nat then "failed to write backup max entries"
            else if (n <? length image)%nat then "failed to write backup segment"
            else "failed to flush backup")), Some (take n image))
    end.

(** [record_segment]: opening creates the file; a failure after [n] bytes. *)
Definition record_segment (open_ok stat_ok : bool) (failed : option nat) (segment_index : Z) (b : Backup) (file : option bytes) :
    result StorageError unit * Backup * option bytes :=
  let b := b ++ [segment_index] in
  if negb open_ok then (Err (ArchiveError "failed to append to backup"), b, file)
  else
    let old := default [] file in
    if negb stat_ok then (Err (ArchiveError "failed to stat backup"), b, Some old)
    else
      let header := if (length old =? 0)%nat then backup_header else [] in
      let data := header ++ to_le_bytes 4 segment_index in
      match failed with
      | None => (Ok tt, b, Some (old ++ data))
      | Some n =>
          (Err (ArchiveError
             (if (length header <=? n)%nat then "failed to write segment to backup"
              else if (n <? 1)%nat then "failed to write backup header"
              else "failed to write backup max entries")), b, Some (old ++ take n data))
      end.

Definition backup_remove (remove_ok : bool) (file : option bytes) : result StorageError unit * option bytes :=
  match file with
  | None => (Ok tt, None)
  | Some _ => if remove_ok then (Ok tt, None) else (Err (ArchiveError "failed to remove compaction backup"), file)
  end.

(** ** The plan of an archive merge *)

Record MoveItem := {
  source_segment : Z;
  source_offset : Z;
  dest_segment : Z;
  dest_offset : Z;
  move_length : Z;
  move_ekey : bytes;
}.

Record CompactionPlan := {
  source_segments : list Z;
  target_segments : list Z;
  moves : list MoveItem;
  total_bytes : Z;
}.

Definition plan_default : CompactionPlan :=
  {| source_segments := []; target_segments := []; moves := []; total_bytes := 0 |}.

Definition plan_is_empty (p : CompactionPlan) : bool := (length (moves p) =? 0)%nat.

(** [if !v.contains(&x) { v.push(x) }]. *)
Definition push_new (x : Z) (v : list Z) : list Z := if bool_decide (x ∈ v) then v else v ++ [x].

Section Plan.

(** [(used as f64 / segment_size as f64) < utilization_threshold]. *)
Context (below_threshold : Z -> Z -> bool).

Definition merge_sources (segs : list SegmentInfo) (segment_size : Z) : list (Z * Z) :=
  omap (fun '(i, seg) =>
    if bool_decide (state seg = Frozen) && below_threshold (write_position seg) segment_size &&
       (0 <? write_position seg)
    then Some (if Z.of_nat i <? 2 ^ 16 then Z.of_nat i else 2 ^ 16 - 1, write_position seg) else None)
    (imap pair segs).

(** The loop over [&sources[1..]]. *)
Fixpoint plan_loop (sources rest : list (Z * Z)) (segment_size : Z) (dest_idx : nat) (dest_used : Z) (plan : CompactionPlan) :
    outcome CompactionPlan :=
  match rest with
  | [] => Ret plan
  | (source_seg, source_used) :: rest =>
      '(dest_seg, _) ← vec_get sources (Z.of_nat dest_idx);
      if wrap64 (dest_used + source_used) <=? segment_size then
        plan_loop sources rest segment_size dest_idx (wrap64 (dest_used + source_used))
          {| source_segments := push_new source_seg (source_segments plan);
             target_segments := push_new dest_seg (target_segments plan);
             moves := moves plan ++
               [{| source_segment := source_seg; source_offset := 0; dest_segment := dest_seg;
                   dest_offset := dest_used; move_length := source_used; move_ekey := zeros 9 |}];
             total_bytes := wrap64 (total_bytes plan + source_used) |}
      else if (length sources <=? S dest_idx)%nat then Ret plan
      else
        '(_, used) ← vec_get sources (Z.of_nat (S dest_idx));
        plan_loop sources rest segment_size (S dest_idx) used plan
  end.

Definition plan_archive_merge (segs : list SegmentInfo) (segment_size : Z) : outcome CompactionPlan :=
  let sources := merge_sources segs segment_size in
  if (length sources <? 2)%nat then Ret plan_default
  else
    let sources := sort_by_key snd sources in
    plan_loop sources (drop 1 sources) segment_size 0 0 plan_default.

End Plan.

End Compaction.
