(* ===== verification/CompactionTheorems.v ===== *)
(** * Correctness of compaction

    Copying within and between files, the in-place compaction of a segment, the
    validation of its spans, the plan of a merge and the backup file. *)

From S2P Require Import Prelude Bytes Collections Segment Compaction.
Import Segment Compaction.
Local Open Scope Z_scope.

(** ** Writing at a position *)

Lemma write_at_inside off data file :
  (off + length data <= length file)%nat -> write_at off data file = copy_at off data file.
Proof.
  intros H. unfold write_at. replace (off + length data - length file)%nat with 0%nat by lia.
  rewrite app_nil_r. destruct data; [|done]. unfold copy_at. rewrite Nat.add_0_r. simpl. by rewrite take_drop.
Qed.

Lemma write_at_length off data file :
  data <> [] -> length (write_at off data file) = Nat.max (length file) (off + length data).
Proof.
  intros H. unfold write_at. destruct data as [|b data]; [done|].
  rewrite length_copy_at; rewrite length_app, length_zeros; lia.
Qed.

Lemma copy_at_lookup off data file i :
  (off + length data <= length file)%nat ->
  copy_at off data file !! i = if decide (off <= i < off + length data)%nat then data !! (i - off)%nat else file !! i.
Proof.
  intros H. unfold copy_at. destruct (decide _) as [Hi|Hi].
  - rewrite lookup_app_r, length_take_le, lookup_app_l by (rewrite ?length_take_le; lia). done.
  - destruct (decide (i < off)%nat).
    + by rewrite lookup_app_l, lookup_take_lt by (rewrite ?length_take_le; lia).
    + rewrite !lookup_app_r, lookup_drop by (rewrite ?length_take_le; lia).
      rewrite length_take_le by lia. f_equal. lia.
Qed.

Lemma slice_lookup a b l i : (b <= length l)%nat -> slice a b l !! i = if decide (a + i < b)%nat then l !! (a + i)%nat else None.
Proof.
  intros H. unfold slice. destruct (decide _).
  - by rewrite lookup_take_lt, lookup_drop by lia.
  - apply lookup_take_ge. lia.
Qed.

(** Two adjacent writes are one. *)
Lemma copy_at_join off x y file :
  (off + length x + length y <= length file)%nat ->
  copy_at (off + length x) y (copy_at off x file) = copy_at off (x ++ y) file.
Proof.
  intros H. apply list_eq. intros i.
  rewrite !copy_at_lookup by (rewrite ?length_copy_at, ?length_app; lia). rewrite length_app.
  repeat destruct (decide _); try lia; try done.
  - rewrite lookup_app_r by lia. f_equal. lia.
  - by rewrite lookup_app_l by lia.
Qed.

(** Bytes behind a write are as before. *)
Lemma slice_copy_at a b off x file :
  (off + length x <= a)%nat -> (b <= length file)%nat -> (off + length x <= length file)%nat ->
  slice a b (copy_at off x file) = slice a b file.
Proof.
  intros Ha Hb Hx. apply list_eq. intros i. rewrite !slice_lookup by (rewrite ?length_copy_at; lia).
  destruct (decide _); [|done]. rewrite copy_at_lookup by done. by rewrite decide_False by lia.
Qed.

Lemma slice_join a b c l : (a <= b <= c)%nat -> slice a b l ++ slice b c l = slice a c l.
Proof.
  intros H. unfold slice. replace (drop b l) with (drop (b - a) (drop a l)) by (rewrite drop_drop; f_equal; lia).
  generalize (drop a l). intros l'. replace (c - a)%nat with ((b - a) + (c - b))%nat by lia. by rewrite take_take_drop.
Qed.

(** ** [compact_in_place] *)

(** All calls succeed. *)
Definition io_good (io : Io) : Prop :=
  source_seek_ok io = true /\ dest_seek_ok io = true /\ stat_ok io = true /\ set_len_ok io = true /\
  (forall i, read_seek_ok io i = true /\ write_seek_ok io i = true) /\
  forall i, read_ok io i = true /\ write_ok io i = true.

Lemma compact_loop_ok io fuel i m file src dst n :
  io_good io -> 0 < buf_size m -> (n < fuel)%nat -> (dst <= src)%nat -> (src + n <= length file)%nat ->
  exists m', buf_size m' = buf_size m /\
    compact_loop fuel i io m file src dst n = Some (Ok tt, m', copy_at dst (slice src (src + n) file) file).
Proof.
  intros Hio. revert i m file src dst n.
  induction fuel as [|fuel IH]; intros i m file src dst n Hb Hf Hd Hn; [lia|]. simpl.
  destruct (n =? 0)%nat eqn:E0.
  { apply Nat.eqb_eq in E0. subst n. exists m. split; [done|]. rewrite Nat.add_0_r. unfold slice. rewrite Nat.sub_diag.
    unfold copy_at. simpl. rewrite Nat.add_0_r. by rewrite take_drop. }
  apply Nat.eqb_neq in E0. set (chunk := Nat.min n (Z.to_nat (buf_size m))).
  assert (0 < chunk <= n)%nat as Hc by lia.
  destruct Hio as (_ & _ & _ & _ & Hse & Hrw). destruct (Hrw i) as [Hr Hw]. destruct (Hse i) as [Hrs Hws].
  rewrite Hr, Hw, Hrs, Hws. cbn [negb].
  unfold read_at. rewrite (proj2 (Nat.leb_le _ _)) by lia.
  set (buf := slice src (src + chunk) file). assert (length buf = chunk) as Lb by (unfold buf; rewrite length_slice; lia).
  rewrite write_at_inside by lia.
  destruct (IH (S i) (moved m chunk) (copy_at dst buf file) (src + chunk)%nat (dst + chunk)%nat (n - chunk)%nat)
    as (m' & Hm' & ->); try lia; [done|by rewrite length_copy_at by lia; lia|]. exists m'. split; [done|]. do 2 f_equal.
  rewrite slice_copy_at by lia. rewrite <- Lb at 1. rewrite copy_at_join.
  - f_equal. unfold buf. rewrite slice_join by lia. f_equal. lia.
  - rewrite length_slice by lia. lia.
Qed.

Lemma compact_in_place_ok io m file src dst n :
  io_good io -> 0 < buf_size m -> 0 <= dst <= src -> 0 <= n -> src + n <= Z.of_nat (length file) ->
  exists m', buf_size m' = buf_size m /\
    compact_in_place io m file src dst n =
      Some (Ok tt, m', copy_at (Z.to_nat dst) (slice (Z.to_nat src) (Z.to_nat src + Z.to_nat n) file) file).
Proof.
  intros Hio Hb Hd Hn Hl. unfold compact_in_place. destruct (src =? dst) eqn:E.
  - apply Z.eqb_eq in E. subst dst. exists m. split; [done|]. do 2 f_equal. apply list_eq. intros i.
    rewrite copy_at_lookup; rewrite length_slice by lia; [|lia]. destruct (decide _) as [Hi|]; [|done].
    rewrite slice_lookup by lia. rewrite decide_True by lia. f_equal. lia.
  - apply compact_loop_ok; lia || done.
Qed.

(** ** The compaction of a segment *)

Definition span_bytes (file : bytes) (s : DataSpan) : bytes :=
  slice (Z.to_nat (offset s)) (Z.to_nat (offset s + length_ s)) file.

(** Each span starts where the one before it ends, or later, and all end by [hi]. *)
Fixpoint chained (lo hi : Z) (spans : list DataSpan) : Prop :=
  match spans with
  | [] => True
  | s :: spans => lo <= offset s /\ 0 <= length_ s /\ offset s + length_ s <= hi /\ chained (offset s + length_ s) hi spans
  end.

Definition total (spans : list DataSpan) : Z := foldr Z.add 0 (length_ <$> spans).

Lemma total_cons s spans : total (s :: spans) = length_ s + total spans.
Proof. done. Qed.

Lemma chained_total lo hi spans : lo <= hi -> chained lo hi spans -> 0 <= total spans <= hi - lo.
Proof.
  revert lo. induction spans as [|s spans IH]; intros lo Hlo; [unfold total; simpl; lia|].
  intros (H1 & H2 & H3 & H4). specialize (IH _ H3 H4). rewrite total_cons. lia.
Qed.

Lemma chained_mono lo lo' hi spans : lo' <= lo -> chained lo hi spans -> chained lo' hi spans.
Proof. destruct spans; simpl; [done|]. intuition lia. Qed.

Lemma chained_elem lo hi spans s :
  chained lo hi spans -> s ∈ spans -> lo <= offset s /\ 0 <= length_ s /\ offset s + length_ s <= hi.
Proof.
  revert lo. induction spans as [|x spans IH]; intros lo H Hs; [by apply elem_of_nil in Hs|].
  destruct H as (H1 & H2 & H3 & H4). apply elem_of_cons in Hs as [->|Hs]; [lia|].
  destruct (IH _ H4 Hs). lia.
Qed.

Lemma take_copy_at off x file : (off + length x <= length file)%nat -> take (off + length x) (copy_at off x file) = take off file ++ x.
Proof.
  intros H. unfold copy_at. rewrite app_assoc. rewrite take_app_le by (rewrite length_app, length_take_le; lia).
  apply take_ge. rewrite length_app, length_take_le; lia.
Qed.

Lemma gather_ok io k m file spans w lo :
  (forall k, io_good (io k)) -> 0 < buf_size m -> 0 <= w <= lo -> Z.of_nat (length file) < 2 ^ 64 ->
  lo <= Z.of_nat (length file) -> chained lo (Z.of_nat (length file)) spans ->
  exists m' file', gather io k m file spans w = Some (Ok (w + total spans), m', file') /\ length file' = length file /\
    take (Z.to_nat (w + total spans)) file' = take (Z.to_nat w) file ++ concat (map (span_bytes file) spans).
Proof.
  intros Hio. revert k m file w lo.
  induction spans as [|s spans IH]; intros k m file w lo Hb Hw H64 Hlo Hch.
  { exists m, file. rewrite Z.add_0_r, app_nil_r. done. }
  destruct Hch as (H1 & H2 & H3 & H4). cbn [gather map concat]. rewrite total_cons.
  rewrite (wrap_small 64) by (unfold in_u; lia).
  assert (exists m1 F, (if w <? offset s then
       match compact_in_place (io k) m file (offset s) w (length_ s) with
       | None => None
       | Some (Err e, m, file) => Some (Err e, m, file)
       | Some (Ok _, m, file) => gather io (S k) m file spans (w + length_ s)
       end else gather io (S k) m file spans (w + length_ s)) = gather io (S k) m1 F spans (w + length_ s) /\
     buf_size m1 = buf_size m /\ length F = length file /\
     take (Z.to_nat (w + length_ s)) F = take (Z.to_nat w) file ++ span_bytes file s /\
     map (span_bytes F) spans = map (span_bytes file) spans) as (m1 & F & -> & Hm1 & HF & Htake & Hmap).
  { destruct (w <? offset s) eqn:E.
    - destruct (compact_in_place_ok (io k) m file (offset s) w (length_ s)) as (m1 & Hm1 & ->); try done; try lia.
      rewrite <- Z2Nat.inj_add by lia. fold (span_bytes file s).
      assert (length (span_bytes file s) = Z.to_nat (length_ s)) as Ls by (unfold span_bytes; rewrite length_slice; lia).
      exists m1, (copy_at (Z.to_nat w) (span_bytes file s) file).
      split_and!; [done|done|rewrite length_copy_at by lia; done| |].
      + rewrite <- take_copy_at by lia. f_equal. lia.
      + apply map_ext_in. intros x Hx%list_elem_of_In. destruct (chained_elem _ _ _ _ H4 Hx).
        unfold span_bytes at 1. rewrite slice_copy_at by lia. done.
    - apply Z.ltb_ge in E. exists m, file. split_and!; try done.
      replace w with (offset s) by lia. unfold span_bytes.
      pose proof (slice_join 0 (Z.to_nat (offset s)) (Z.to_nat (offset s + length_ s)) file ltac:(lia)) as Hj.
      unfold slice at 1 3 in Hj. by rewrite !drop_0, !Nat.sub_0_r in Hj. }
  destruct (IH (S k) m1 F (w + length_ s) (offset s + length_ s)) as (m' & file' & Hg & Hl & Ht);
    rewrite ?HF; try lia; [done|].
  exists m', file'. rewrite Hg. split_and!; [do 4 f_equal; lia|lia|].
  replace (w + (length_ s + total spans)) with (w + length_ s + total spans) by lia.
  by rewrite Ht, Htake, Hmap, <- app_assoc.
Qed.

(** ** Validation *)

Definition span_fits (s : DataSpan) : Prop := 0 <= offset s /\ 0 <= length_ s /\ offset s + length_ s < 2 ^ 64.

#[global] Instance span_fits_dec s : Decision (span_fits s).
Proof. unfold span_fits. apply _. Defined.

Lemma span_end_fits s : span_fits s -> span_end s = offset s + length_ s.
Proof. intros (? & ? & ?). apply wrap_small. unfold in_u. lia. Qed.

Lemma adjacent_chained hi spans :
  Forall span_fits spans -> Forall (fun s => offset s + length_ s <= hi) spans -> adjacent_ok spans = true ->
  chained 0 hi spans.
Proof.
  intros Hf Hhi Hok. induction spans as [|s spans IH]; [done|].
  apply Forall_cons in Hf as [Hs Hf]. apply Forall_cons in Hhi as [Hse Hhi].
  pose proof Hs as (S1 & S2 & S3). simpl. split_and!; try done.
  destruct spans as [|x spans]; [done|]. cbn [adjacent_ok] in Hok. destruct (offset x <? span_end s) eqn:E; [done|].
  apply Z.ltb_ge in E. rewrite span_end_fits in E by done. specialize (IH Hf Hhi Hok). simpl in IH |- *. intuition lia.
Qed.

Lemma overlaps_spec a b :
  span_fits a -> span_fits b ->
  overlaps a b = true <-> offset a < offset b + length_ b /\ offset b < offset a + length_ a.
Proof.
  intros Ha Hb. unfold overlaps. rewrite !span_end_fits, andb_true_iff, !Z.ltb_lt by done. done.
Qed.

Lemma chained_apart lo hi spans :
  Forall span_fits spans -> chained lo hi spans -> ForallOrdPairs (fun a b => overlaps a b = false) spans.
Proof.
  intros Hf. revert lo. induction spans as [|s spans IH]; intros lo H; [constructor|].
  apply Forall_cons in Hf as [Hs Hf]. destruct H as (H1 & H2 & H3 & H4). constructor; [|by eapply IH].
  apply Forall_forall. intros x Hx. destruct (chained_elem _ _ _ _ H4 Hx) as (? & ? & ?).
  apply not_true_iff_false. rewrite overlaps_spec; [lia|done|]. rewrite Forall_forall in Hf. by apply Hf.
Qed.

Lemma apart_adjacent spans :
  sorted_by offset spans -> Forall span_fits spans -> Forall (fun s => 0 < length_ s) spans ->
  ForallOrdPairs (fun a b => overlaps a b = false) spans -> adjacent_ok spans = true.
Proof.
  intros Hs Hf Hp Ho. induction spans as [|a spans IH]; [done|]. destruct spans as [|b spans]; [done|].
  apply StronglySorted_inv in Hs as [Hs Hall]. apply Forall_cons in Hf as [Ha Hf].
  apply Forall_cons in Hp as [Hpa Hp]. inversion Ho as [|? ? Hab Hrest]; subst.
  cbn [adjacent_ok]. apply Forall_cons in Hall as [Hab' _]. apply Forall_cons in Hab as [Hab _].
  pose proof Hf as [Hb _]%Forall_cons. pose proof Hp as [Hpb _]%Forall_cons.
  destruct (offset b <? span_end a) eqn:E; [|by apply IH]. exfalso.
  apply Z.ltb_lt in E. rewrite span_end_fits in E by done. apply not_true_iff_false in Hab. apply Hab.
  apply overlaps_spec; [done..|]. simpl in Hpb, Hpa. change (offset a <= offset b) in Hab'. lia.
Qed.

(** ** [move_data] *)

Lemma write_at_lookup off data file i :
  write_at off data file !! i =
  if decide (off <= i < off + length data)%nat then data !! (i - off)%nat
  else if decide (i < length file)%nat then file !! i
  else if decide (i < off /\ data <> [])%nat then Some 0 else None.
Proof.
  unfold write_at. destruct data as [|b data].
  - simpl. rewrite decide_False by lia. destruct (decide (i < length file)%nat); [done|].
    rewrite decide_False by tauto. apply lookup_ge_None_2. lia.
  - rewrite copy_at_lookup by (rewrite length_app, length_zeros; lia).
    destruct (decide (off <= i < off + _)%nat); [done|]. destruct (decide (i < length file)%nat).
    + by rewrite lookup_app_l.
    + rewrite lookup_app_r by lia. unfold zeros. destruct (decide (i < off /\ _)%nat) as [[? _]|Hn].
      * apply lookup_replicate. split; [done|]. simpl. lia.
      * apply lookup_replicate_None. destruct (decide (i < off)%nat); [by destruct Hn|]. simpl in *. lia.
Qed.

Lemma write_at_join off x y file :
  x <> [] -> write_at (off + length x) y (write_at off x file) = write_at off (x ++ y) file.
Proof.
  intros Hx. apply list_eq. intros i. rewrite !write_at_lookup, write_at_length, length_app by done.
  assert (x ++ y <> []) as Hxy by (by destruct x).
  assert (0 < length x)%nat as Lx by (destruct x; [done|simpl; lia]).
  repeat destruct (decide _); try done; try lia; try tauto.
  - rewrite lookup_app_r by lia. f_equal. lia.
  - by rewrite lookup_app_l by lia.
Qed.

(** What a copy leaves behind: outside the target range the file is as before, and
    after a success the range holds the copied bytes. *)
Definition copied (source dest : bytes) (src dst n : nat) (r : result StorageError unit) (dest' : bytes) : Prop :=
  (forall i, (i < length dest)%nat -> (i < dst \/ dst + n <= i)%nat -> dest' !! i = dest !! i) /\
  (r = Ok tt -> (src + n <= length source)%nat \/ n = 0%nat) /\
  (r = Ok tt -> dest' = write_at dst (slice src (src + n) source) dest).

Lemma move_loop_ok io fuel i m source dest src dst n :
  0 < buf_size m -> (n < fuel)%nat ->
  exists r m' dest', move_loop fuel i io m source dest src dst n = Some (r, m', dest') /\
    copied source dest src dst n r dest' /\
    ((forall i, read_ok io i = true /\ write_ok io i = true) -> (src + n <= length source)%nat -> r = Ok tt).
Proof.
  revert i m dest src dst n. induction fuel as [|fuel IH]; intros i m dest src dst n Hb Hf; [lia|]. simpl.
  destruct (n =? 0)%nat eqn:E0.
  { apply Nat.eqb_eq in E0. subst n. eexists _, _, _. split; [done|]. split; [|done]. split_and!; [done|by right|].
    intros _. rewrite Nat.add_0_r. unfold slice. by rewrite Nat.sub_diag. }
  apply Nat.eqb_neq in E0. set (chunk := Nat.min n (Z.to_nat (buf_size m))).
  assert (0 < chunk <= n)%nat as Hc by lia. destruct (read_ok io i) eqn:Er; unfold read_at.
  - destruct (src + chunk <=? length source)%nat eqn:El.
    + apply Nat.leb_le in El. set (buf := slice src (src + chunk) source).
      assert (length buf = chunk) as Lb by (unfold buf; rewrite length_slice; lia).
      assert (buf <> []) as Hne by (intros E; rewrite E in Lb; simpl in Lb; lia).
      destruct (write_ok io i) eqn:Ew.
      * destruct (IH (S i) (moved m chunk) (write_at dst buf dest) (src + chunk)%nat (dst + chunk)%nat (n - chunk)%nat)
          as (r & m' & dest' & -> & (H1 & H2 & H3) & H4); [done|lia|].
        eexists _, _, _. split; [done|]. split; [split_and!|].
        -- intros j Hj Hout. rewrite H1 by (rewrite ?write_at_length by done; lia).
           rewrite write_at_lookup, decide_False, decide_True by lia. done.
        -- intros ->. destruct (H2 eq_refl); left; lia.
        -- intros ->. rewrite H3 by done. replace (dst + chunk)%nat with (dst + length buf)%nat by lia.
           rewrite write_at_join by done. f_equal. unfold buf. rewrite slice_join by lia. f_equal. lia.
        -- intros Hgood Hin. apply H4; [done|lia].
      * eexists _, _, _. split; [done|]. split; [|intros Hg; destruct (Hg i); congruence]. split_and!; [|done|done].
        intros j Hj Hout. rewrite write_at_lookup, decide_False, decide_True by (rewrite ?length_take; lia). done.
    + eexists _, _, _. split; [done|]. split; [by split_and!|]. intros _ Hin. apply Nat.leb_gt in El. lia.
  - eexists _, _, _. split; [done|]. split; [by split_and!|]. intros Hg. destruct (Hg i). congruence.
Qed.

(** ** The plan of a merge *)

Section Plan.
Context (below_threshold : Z -> Z -> bool).

(** A segment the merge may empty: frozen, not empty, below the threshold. *)
Definition is_source (segs : list SegmentInfo) (size : Z) (p : Z * Z) : Prop :=
  0 <= fst p /\ exists seg, segs !! Z.to_nat (fst p) = Some seg /\ state seg = Frozen /\ snd p = write_position seg /\
    0 < write_position seg /\ below_threshold (write_position seg) size = true.

Lemma merge_sources_ok segs size :
  Z.of_nat (length segs) <= 2 ^ 16 ->
  Forall (is_source segs size) (merge_sources below_threshold segs size) /\
  NoDup (fst <$> merge_sources below_threshold segs size).
Proof.
  intros Hl. unfold merge_sources. induction segs as [|seg segs IH] using rev_ind; [split; constructor|].
  rewrite length_app in Hl. simpl in Hl. destruct IH as [IH1 IH2]; [lia|].
  rewrite imap_app, omap_app, fmap_app. cbn [imap omap list_omap]. rewrite Nat.add_0_r.
  assert (Forall (is_source (segs ++ [seg]) size) (omap (fun '(i, seg) =>
    if bool_decide (state seg = Frozen) && below_threshold (write_position seg) size && (0 <? write_position seg)
    then Some (if Z.of_nat i <? 2 ^ 16 then Z.of_nat i else 2 ^ 16 - 1, write_position seg) else None) (imap pair segs))) as H1.
  { eapply Forall_impl; [exact IH1|]. intros p (Hp & s & Hs & H). split; [done|]. exists s.
    split; [by apply lookup_app_l_Some|done]. }
  destruct (_ && _ && _) eqn:E; [|by rewrite !app_nil_r].
  apply andb_true_iff in E as [[E1%bool_decide_eq_true E2]%andb_true_iff E3%Z.ltb_lt].
  rewrite (proj2 (Z.ltb_lt _ _)) by lia. split.
  - apply Forall_app. split; [done|]. constructor; [|constructor]. split; [simpl; lia|]. exists seg. simpl.
    rewrite Nat2Z.id, lookup_app_r, Nat.sub_diag by done. by split_and!.
  - apply NoDup_snoc; [done|]. intros (p & Ep & Hp)%list_elem_of_fmap. rewrite Forall_forall in IH1.
    destruct (IH1 p Hp) as (Hp0 & s & Hs & _). apply lookup_lt_Some in Hs. simpl in Ep. lia.
Qed.

(** What holds of the moves planned so far, for the sources [pre] already passed. *)
Record plan_inv (segs : list SegmentInfo) (size : Z) (pre : list (Z * Z)) (k : nat) (used : Z) (p : CompactionPlan) : Prop := {
  pi_moves : Forall (fun mv => is_source segs size (source_segment mv, move_length mv) /\ source_offset mv = 0 /\
    (exists j q, (j <= k)%nat /\ pre !! j = Some q /\ fst q = dest_segment mv) /\
    dest_segment mv <> source_segment mv /\ 0 <= dest_offset mv /\ dest_offset mv + move_length mv <= size) (moves p);
  pi_passed : Forall (fun mv => source_segment mv ∈ fst <$> pre) (moves p);
  pi_nodup : NoDup (source_segment <$> moves p);
  pi_room : Forall (fun mv => (exists q, pre !! k = Some q /\ fst q = dest_segment mv) ->
    dest_offset mv + move_length mv <= used) (moves p);
  pi_apart : ForallOrdPairs (fun a b => dest_segment a = dest_segment b ->
    dest_offset a + move_length a <= dest_offset b) (moves p);
  pi_sources : source_segments p = source_segment <$> moves p;
  pi_targets : forall x, x ∈ target_segments p <-> x ∈ dest_segment <$> moves p;
  pi_total : total_bytes p = wrap64 (foldr Z.add 0 (move_length <$> moves p));
}.

Lemma push_new_elem x y v : x ∈ push_new y v <-> x ∈ v \/ x = y.
Proof.
  unfold push_new. case_bool_decide as H; [naive_solver|]. rewrite elem_of_app, list_elem_of_singleton. done.
Qed.

Lemma sum_snoc l x : foldr Z.add 0 (l ++ [x]) = foldr Z.add 0 l + x.
Proof. induction l as [|y l IH]; simpl; [lia|]. rewrite IH. lia. Qed.

Lemma nodup_lookup_fst (l : list (Z * Z)) i j p q :
  NoDup (fst <$> l) -> l !! i = Some p -> l !! j = Some q -> fst p = fst q -> i = j.
Proof.
  intros Hnd Hi Hj E. eapply NoDup_lookup; [exact Hnd| |]; rewrite list_lookup_fmap; [by rewrite Hi|by rewrite Hj, E].
Qed.

Lemma plan_inv_extend segs size pre rest k used p :
  (k < length pre)%nat -> plan_inv segs size pre k used p -> plan_inv segs size (pre ++ rest) k used p.
Proof.
  intros Hk [H1 H2 H3 H4 H5 H6 H7 H8]. split; try done.
  - eapply Forall_impl; [exact H1|]. intros mv (A & B & (j & q & Hj & Hq & E) & C). split_and!; try done; try apply C.
    exists j, q. split_and!; try done. by apply lookup_app_l_Some.
  - eapply Forall_impl; [exact H2|]. intros mv Hmv. rewrite fmap_app. apply elem_of_app. by left.
  - by rewrite lookup_app_l by done.
Qed.

Lemma plan_inv_skip segs size pre k used used' p q :
  NoDup (fst <$> pre) -> pre !! S k = Some q -> plan_inv segs size pre k used p -> plan_inv segs size pre (S k) used' p.
Proof.
  intros Hnd Hq [H1 H2 H3 H4 H5 H6 H7 H8]. split; try done.
  - eapply Forall_impl; [exact H1|]. intros mv (A & B & (j & r & Hj & Hr & E) & C). split_and!; try done; try apply C.
    exists j, r. split_and!; try done. lia.
  - eapply Forall_impl; [exact H1|]. intros mv (_ & _ & (j & r & Hj & Hr & E) & _) (q' & Hq' & E').
    pose proof (nodup_lookup_fst pre j (S k) r q' Hnd Hr Hq' ltac:(congruence)). lia.
Qed.

Lemma plan_inv_move segs size pre k used p s u d du :
  NoDup (fst <$> pre ++ [(s, u)]) -> is_source segs size (s, u) -> pre !! k = Some (d, du) ->
  0 <= used -> used + u <= size -> plan_inv segs size pre k used p ->
  plan_inv segs size (pre ++ [(s, u)]) k (used + u)
    {| source_segments := push_new s (source_segments p); target_segments := push_new d (target_segments p);
       moves := moves p ++ [{| source_segment := s; source_offset := 0; dest_segment := d; dest_offset := used;
                               move_length := u; move_ekey := zeros 9 |}];
       total_bytes := wrap64 (total_bytes p + u) |}.
Proof.
  intros Hnd Hs Hk Hu Hsz Hinv. pose proof (lookup_lt_Some _ _ _ Hk) as Hlt.
  pose proof Hinv as [_ H2 H3 H4 H5 H6 H7 H8].
  pose proof (plan_inv_extend segs size pre [(s, u)] k used p Hlt Hinv) as [H1' H2' _ H4' _ _ _ _].
  rewrite fmap_app in Hnd. apply NoDup_app in Hnd as (_ & Hnew & _).
  assert (s ∉ source_segment <$> moves p) as Hfresh.
  { intros (mv & -> & Hmv)%list_elem_of_fmap. rewrite Forall_forall in H2. apply (Hnew (source_segment mv)); [by apply H2|].
    by left. }
  assert (d <> s) as Hds.
  { intros ->. apply (Hnew s); [|by left]. apply list_elem_of_fmap. exists (s, du). split; [done|].
    by eapply list_elem_of_lookup_2. }
  assert (0 < u) as Hpos by (destruct Hs as (_ & seg & _ & _ & E & ? & _); simpl in E; lia).
  assert ((pre ++ [(s, u)]) !! k = Some (d, du)) as Hk' by by apply lookup_app_l_Some.
  split; cbn [moves source_segments target_segments total_bytes].
  - apply Forall_app. split; [done|]. constructor; [|constructor]. simpl. split_and!; try done.
    exists k, (d, du). by split_and!.
  - apply Forall_app. split; [done|]. constructor; [|constructor]. rewrite fmap_app. apply elem_of_app. right. by left.
  - rewrite fmap_app. by apply NoDup_snoc.
  - apply Forall_app. split; [|by constructor]. eapply Forall_impl; [exact H4'|]. simpl. intros mv Hmv Hex.
    specialize (Hmv Hex). lia.
  - apply ordpairs_snoc; [done|]. eapply Forall_impl; [exact H4|]. simpl. intros mv Hmv E. apply Hmv. by exists (d, du).
  - rewrite fmap_app, H6. unfold push_new. by rewrite bool_decide_false.
  - intros x. rewrite push_new_elem, fmap_app, elem_of_app, H7. simpl. by rewrite list_elem_of_singleton.
  - rewrite fmap_app, fmap_cons, fmap_nil, sum_snoc, H8. unfold wrap64, wrap. by rewrite Zplus_mod_idemp_l.
Qed.

Lemma plan_loop_ok segs size rest pre k used p :
  NoDup (fst <$> pre ++ rest) -> Forall (is_source segs size) (pre ++ rest) ->
  Forall (fun q => snd q < 2 ^ 63) (pre ++ rest) -> 0 <= size < 2 ^ 63 ->
  (k < length pre)%nat -> 0 <= used < 2 ^ 63 -> plan_inv segs size pre k used p ->
  exists plan k' used', plan_loop (pre ++ rest) rest size k used p = Ret plan /\
    plan_inv segs size (pre ++ rest) k' used' plan.
Proof.
  revert pre k used p. induction rest as [|[s u] rest IH]; intros pre k used p Hnd Hsrc H63 Hsz Hk Hu Hinv.
  { rewrite app_nil_r. by exists p, k, used. }
  destruct (lookup_lt_is_Some_2 pre k Hk) as [[d du] Hd].
  assert ((pre ++ (s, u) :: rest) !! k = Some (d, du)) as Hd' by by apply lookup_app_l_Some.
  cbn [plan_loop]. unfold vec_get. rewrite !Nat2Z.id, Hd'. cbn [mbind outcome_bind].
  change ((s, u) :: rest) with ([(s, u)] ++ rest) in *. rewrite app_assoc in *.
  assert (is_source segs size (s, u)) as Hs.
  { rewrite Forall_forall in Hsrc. apply Hsrc, elem_of_app. left. apply elem_of_app. right. by left. }
  assert (0 < u < 2 ^ 63) as Hub.
  { rewrite Forall_forall in H63. specialize (H63 (s, u)). destruct Hs as (_ & seg & _ & _ & E & ? & _). simpl in E, H63.
    split; [lia|]. apply H63, elem_of_app. left. apply elem_of_app. right. by left. }
  rewrite (wrap_small 64) by (unfold in_u; lia). destruct (used + u <=? size) eqn:E.
  - apply Z.leb_le in E. apply IH; try done; [rewrite length_app; lia|lia|].
    apply (plan_inv_move segs size pre k used p s u d du); try done; [|lia].
    rewrite fmap_app in Hnd. by apply NoDup_app in Hnd as (? & _).
  - destruct (_ <=? S k)%nat eqn:El.
    + exists p, k, used. split; [done|]. rewrite <- app_assoc. by apply plan_inv_extend.
    + apply Nat.leb_gt in El.
      assert (S k < length (pre ++ [(s, u)]))%nat as Hk1 by (rewrite length_app; simpl; lia).
      destruct (lookup_lt_is_Some_2 _ _ Hk1) as [q Hq].
      assert (((pre ++ [(s, u)]) ++ rest) !! S k = Some q) as Hq' by by apply lookup_app_l_Some.
      rewrite Hq'. destruct q as [qi qu]. cbn [mbind outcome_bind].
      apply list_elem_of_lookup_2 in Hq' as Hin. rewrite Forall_forall in H63, Hsrc.
      apply IH; try done; [by apply Forall_forall|by apply Forall_forall| |].
      * specialize (H63 _ Hin). destruct (Hsrc _ Hin) as (_ & seg & _ & _ & Eq & ? & _). simpl in *. lia.
      * eapply plan_inv_skip; [|exact Hq|by apply plan_inv_extend].
        rewrite fmap_app in Hnd. by apply NoDup_app in Hnd as (? & _).
Qed.

End Plan.

(** ** Theorems *)

Definition io_all : Io :=
  {| source_seek_ok := true; dest_seek_ok := true; read_seek_ok := fun _ => true; write_seek_ok := fun _ => true; read_ok := fun _ => true; write_ok := fun _ => true;
     partial := fun _ => 0%nat; stat_ok := true; set_len_ok := true |}.

Lemma io_all_good : io_good io_all.
Proof. by split_and!. Qed.

Lemma mover_new_buffer budget : 0 < buf_size (mover_new budget).
Proof.
  cbn [mover_new buf_size]. set (t := Z.max _ _). set (c := Z.max _ _).
  assert (MIN_BUFFER_SIZE <= t) by (unfold t; lia).
  assert (1 <= c <= 16) by (unfold c, MAX_BUFFERS; lia). apply Z.div_str_pos. unfold MIN_BUFFER_SIZE in *. lia.
Qed.

(** C36: compacting a segment in place, with a buffer of any size and spans that pass
    the validation and lie in the file, ends; the file then holds exactly the
    bytes of the spans, in the order of their offsets, and the result is the
    number of bytes by which it shrank. *)
Theorem extract_compact_gathers io file spans m :
  (forall k, io_good (io k)) -> 0 < buf_size m -> Z.of_nat (length file) < 2 ^ 64 -> spans <> [] ->
  Forall (fun s => span_fits s /\ offset s + length_ s <= Z.of_nat (length file)) spans ->
  fst (validate_spans spans) = Ok tt ->
  let sorted := sort_by_key offset spans in
  exists m', extract_compact_segment io file spans m =
    Some (Ok (Z.of_nat (length file) - total sorted), concat (map (span_bytes file) sorted), sorted, m').
Proof.
  intros Hio Hb H64 Hne Hfit Hval. cbv zeta.
  assert (snd (validate_spans spans) = sort_by_key offset spans /\ adjacent_ok (sort_by_key offset spans) = true) as [Es Had].
  { unfold validate_spans in *. destruct (length spans <=? 1)%nat eqn:E.
    - apply Nat.leb_le in E. destruct spans as [|s [|]]; [done|done|simpl in E; lia].
    - simpl in *. by destruct (adjacent_ok _). }
  unfold extract_compact_segment. destruct spans as [|s0 spans0] eqn:Espans; [done|]. rewrite <- Espans in *.
  destruct (validate_spans spans) as [r sp]. simpl in Hval, Es. subst r sp.
  set (l := sort_by_key offset spans) in *.
  assert (Forall (fun s => span_fits s /\ offset s + length_ s <= Z.of_nat (length file)) l) as Hl.
  { unfold l. by rewrite sort_by_key_perm. }
  assert (chained 0 (Z.of_nat (length file)) l) as Hch.
  { apply adjacent_chained; [..|done]; (eapply Forall_impl; [exact Hl|]); by intros s []. }
  pose proof (chained_total 0 (Z.of_nat (length file)) l ltac:(lia) Hch) as Ht.
  destruct (Hio 0%nat) as (_ & _ & -> & -> & _). cbn [negb].
  destruct (gather_ok io 0 m file l 0 0 Hio Hb ltac:(lia) H64 ltac:(lia) Hch) as (m' & file' & -> & Hlen & Htake).
  rewrite Z.add_0_l in *. change (Z.to_nat 0) with 0%nat in Htake. rewrite take_0, app_nil_l in Htake. rewrite Z.max_r by lia.
  exists m'. destruct (0 <? _) eqn:E; [by rewrite Htake|]. apply Z.ltb_ge in E.
  assert (file' = concat (map (span_bytes file) l)) as -> by (rewrite <- Htake; symmetry; apply take_ge; lia). done.
Qed.

Definition sample_spans : list DataSpan :=
  [{| offset := 7; length_ := 3 |}; {| offset := 2; length_ := 2 |}; {| offset := 4; length_ := 1 |}].

Lemma extract_compact_gathers_witness :
  exists m', extract_compact_segment (fun _ => io_all) [10; 11; 12; 13; 14; 15; 16; 17; 18; 19; 20] sample_spans (mover_new 0) =
    Some (Ok 5, [12; 13; 14; 17; 18; 19], sort_by_key offset sample_spans, m').
Proof.
  apply (extract_compact_gathers (fun _ => io_all) [10; 11; 12; 13; 14; 15; 16; 17; 18; 19; 20] sample_spans (mover_new 0)).
  - intros _. apply io_all_good.
  - apply mover_new_buffer.
  - done.
  - done.
  - decide_now.
  - reflexivity.
Defined.

Lemma overlaps_sym a b : overlaps a b = false -> overlaps b a = false.
Proof. unfold overlaps. by rewrite andb_comm. Qed.

(** [validate_spans] leaves the spans sorted by offset and accepts them exactly if
    no two of them overlap in the sense of [DataSpan::overlaps]. *)
Theorem validate_spans_exact spans :
  Forall span_fits spans -> Forall (fun s => 0 < length_ s) spans ->
  (fst (validate_spans spans) = Ok tt <-> ForallOrdPairs (fun a b => overlaps a b = false) spans) /\
  snd (validate_spans spans) ≡ₚ spans /\ sorted_by offset (snd (validate_spans spans)).
Proof.
  intros Hf Hp. unfold validate_spans. destruct (length spans <=? 1)%nat eqn:E.
  { apply Nat.leb_le in E. simpl. destruct spans as [|s [|]]; [| |simpl in E; lia].
    - split_and!; [|done|constructor]. split; [constructor|done].
    - split_and!; [|done|by repeat constructor]. split; [by repeat constructor|done]. }
  cbn [fst snd]. pose proof (sort_by_key_perm offset spans) as Hperm. pose proof (sort_by_key_sorted offset spans) as Hs.
  split_and!; [|done|done]. assert (Forall span_fits (sort_by_key offset spans)) as Hf' by by rewrite Hperm.
  split.
  - destruct (adjacent_ok _) eqn:Ea; [|done]. intros _.
    apply (ordpairs_perm _ (sort_by_key offset spans)); [apply overlaps_sym|done|].
    apply (chained_apart 0 (2 ^ 64)); [done|]. apply adjacent_chained; [done| |done].
    eapply Forall_impl; [exact Hf'|]. intros s (? & ? & ?). lia.
  - intros Ho. rewrite apart_adjacent; [done|done|done|by rewrite Hperm|].
    by apply (ordpairs_perm _ spans); [apply overlaps_sym|symmetry|].
Qed.

Lemma validate_spans_exact_witness :
  fst (validate_spans sample_spans) = Ok tt /\ ForallOrdPairs (fun a b => overlaps a b = false) sample_spans.
Proof.
  destruct (validate_spans_exact sample_spans ltac:(decide_now) ltac:(decide_now)) as [[H _] _].
  split; [reflexivity|]. apply H. reflexivity.
Defined.

(** Moving data between two files always ends; whatever fails, bytes of the
    destination outside the target range are untouched; a success means that
    the range holds the source bytes, and it succeeds if no call fails and the
    source is long enough. *)
Theorem move_data_copies io m source src dest dst len :
  0 < buf_size m -> 0 <= src -> 0 <= dst -> 0 <= len ->
  exists r m' dest', move_data io m source src dest dst len = Some (r, m', dest') /\
    (forall i, (i < length dest)%nat -> (i < Z.to_nat dst \/ Z.to_nat (dst + len) <= i)%nat -> dest' !! i = dest !! i) /\
    (r = Ok tt -> dest' = write_at (Z.to_nat dst) (slice (Z.to_nat src) (Z.to_nat (src + len)) source) dest) /\
    (io_good io -> src + len <= Z.of_nat (length source) -> r = Ok tt).
Proof.
  intros Hb Hs Hd Hl. unfold move_data. destruct (source_seek_ok io) eqn:E1; cbn [negb].
  2: { eexists _, _, _. split; [done|]. split_and!; [done|done|]. intros (? & _). congruence. }
  destruct (dest_seek_ok io) eqn:E2; cbn [negb].
  2: { eexists _, _, _. split; [done|]. split_and!; [done|done|]. intros (_ & ? & _). congruence. }
  destruct (move_loop_ok io (S (Z.to_nat len)) 0 m source dest (Z.to_nat src) (Z.to_nat dst) (Z.to_nat len))
    as (r & m' & dest' & -> & (H1 & H2 & H3) & H4); [done|lia|].
  rewrite !Z2Nat.inj_add by lia. eexists _, _, _. split; [done|]. split_and!; [done|done|].
  intros (_ & _ & _ & _ & _ & Hg) Hin. apply H4; [done|]. lia.
Qed.

Lemma move_data_copies_witness :
  exists r m' dest', move_data io_all (mover_new 0) [1; 2; 3; 4] 1 [9; 9] 3 2 = Some (r, m', dest') /\
    dest' = [9; 9; 0; 2; 3].
Proof.
  destruct (move_data_copies io_all (mover_new 0) [1; 2; 3; 4] 1 [9; 9] 3 2 (mover_new_buffer 0) ltac:(lia) ltac:(lia) ltac:(lia))
    as (r & m' & dest' & E & _ & H3 & H4). exists r, m', dest'. split; [exact E|].
  apply H3, H4; [apply io_all_good|simpl; lia].
Defined.

(** The merge planner never panics, and each move it plans takes the whole data
    of a frozen segment below the threshold to another such segment, inside
    its size; a segment is emptied at most once, moves to one destination do
    not overlap, and the summary lists exactly the sources, the destinations and
    the bytes of the moves. *)
Theorem plan_archive_merge_sound below segs size :
  Z.of_nat (length segs) <= 2 ^ 16 -> Forall (fun s => write_position s < 2 ^ 63) segs -> 0 <= size < 2 ^ 63 ->
  exists plan, plan_archive_merge below segs size = Ret plan /\
    Forall (fun mv => is_source below segs size (source_segment mv, move_length mv) /\ source_offset mv = 0 /\
      (exists used, is_source below segs size (dest_segment mv, used)) /\ dest_segment mv <> source_segment mv /\
      0 <= dest_offset mv /\ dest_offset mv + move_length mv <= size) (moves plan) /\
    NoDup (source_segment <$> moves plan) /\
    ForallOrdPairs (fun a b => dest_segment a = dest_segment b -> dest_offset a + move_length a <= dest_offset b) (moves plan) /\
    source_segments plan = source_segment <$> moves plan /\
    (forall x, x ∈ target_segments plan <-> x ∈ dest_segment <$> moves plan) /\
    total_bytes plan = wrap64 (foldr Z.add 0 (move_length <$> moves plan)).
Proof.
  intros Hl Hw Hsz. unfold plan_archive_merge. set (srcs := merge_sources below segs size).
  destruct (merge_sources_ok below segs size Hl) as [Hsrc Hnd]. fold srcs in Hsrc, Hnd.
  destruct (length srcs <? 2)%nat eqn:E.
  { exists plan_default. split; [done|]. simpl. split_and!; try done; constructor. }
  apply Nat.ltb_ge in E. pose proof (sort_by_key_perm snd srcs) as Hperm. set (l := sort_by_key snd srcs) in *.
  rewrite <- Hperm in Hsrc, Hnd, E.
  assert (Forall (fun q => snd q < 2 ^ 63) l) as H63.
  { eapply Forall_impl; [exact Hsrc|]. intros q (_ & seg & Hq & _ & -> & _). rewrite Forall_forall in Hw.
    by apply Hw, (list_elem_of_lookup_2 _ _ _ Hq). }
  destruct l as [|p rest] eqn:El; [simpl in E; lia|]. cbn [drop].
  destruct (plan_loop_ok below segs size rest [p] 0 0 plan_default) as (plan & k & used & Hplan & Hinv); try done; try lia.
  { simpl. lia. }
  { split; simpl; try done; constructor. }
  exists plan. split; [exact Hplan|]. destruct Hinv as [H1 H2 H3 H4 H5 H6 H7 H8]. split_and!; try done.
  eapply Forall_impl; [exact H1|]. intros mv (A & B & (j & q & _ & Hq & Eq) & C). split_and!; try done; try apply C.
  exists (snd q). rewrite <- Eq. destruct q. rewrite Forall_forall in Hsrc. by apply Hsrc, (list_elem_of_lookup_2 _ _ _ Hq).
Qed.

Definition frozen (index write : Z) : SegmentInfo :=
  {| index := index; state := Frozen; write_position := write; header := zeroed |}.

Definition below_half (used size : Z) : bool := 2 * used <? size.

Lemma plan_archive_merge_sound_witness :
  exists plan, plan_archive_merge below_half [frozen 0 480; frozen 1 600; frozen 2 500] 2000 = Ret plan /\
    NoDup (source_segment <$> moves plan).
Proof.
  destruct (plan_archive_merge_sound below_half [frozen 0 480; frozen 1 600; frozen 2 500] 2000) as (plan & E & _ & H & _).
  - simpl. lia.
  - repeat constructor.
  - lia.
  - by exists plan.
Defined.

(** The planner takes the first destination for empty: although that segment
    holds 480 bytes of its own, the first move is planned to offset 0 of it. *)
Theorem plan_overwrites_destination :
  exists plan mv, plan_archive_merge below_half [frozen 0 480; frozen 1 600] 2000 = Ret plan /\
    moves plan = [mv] /\ dest_segment mv = 0 /\ dest_offset mv = 0 /\ move_length mv = 600.
Proof. eexists _, _. split; [vm_compute; reflexivity|]. done. Qed.

(** Nor does it keep the segments it empties apart from those it fills: here
    segment 1 is emptied and then chosen as a destination. *)
Theorem plan_fills_a_source :
  exists plan, plan_archive_merge below_half [frozen 0 700; frozen 1 800; frozen 2 900; frozen 3 950; frozen 4 960] 2000 = Ret plan /\
    1 ∈ source_segments plan /\ 1 ∈ target_segments plan.
Proof. eexists. split; [vm_compute; reflexivity|]. split; by apply (bool_decide_eq_true_1 _). Qed.

(** ** The backup file *)

Definition backup_image (b : Backup) : bytes := backup_header ++ concat (map (to_le_bytes 4) b).

Definition backup_ok (b : Backup) : Prop := Forall u16 b /\ Z.of_nat (length b) <= BACKUP_MAX_ENTRIES.

Lemma omap_map {A B C} (f : A -> option B) (g : C -> A) l : omap f (map g l) = omap (fun x => f (g x)) l.
Proof. induction l as [|x l IH]; [done|]. simpl. destruct (f (g x)); [f_equal|]; exact IH. Qed.

Lemma omap_ext_in {A B} (f g : A -> option B) (l : list A) : (forall x, x ∈ l -> f x = g x) -> omap f l = omap g l.
Proof.
  intros H. induction l as [|x l IH]; [done|].
  assert (omap f l = omap g l) as E by (apply IH; intros y Hy; apply H; by right).
  simpl. rewrite (H x) by left. destruct (g x); [f_equal|]; exact E.
Qed.

Lemma backup_blocks b : blocks_of 4 (map (to_le_bytes 4) b).
Proof. apply Forall_map, Forall_true. intros x. apply length_to_le_bytes. Qed.

Definition entry_at (data : bytes) : option Z :=
  let idx := from_le_bytes data in if idx <? 2 ^ 16 then Some idx else None.

(** An incomplete last entry is ignored. *)
Lemma backup_parse_image b tl : backup_ok b -> (length tl < 4)%nat -> backup_parse (backup_image b ++ tl) = Some b.
Proof.
  intros [Hb Hl] Htl. unfold backup_parse, backup_image. rewrite <- app_assoc.
  set (data := backup_header ++ concat (map (to_le_bytes 4) b) ++ tl).
  assert (length data = 5 + length b * 4 + length tl)%nat as L.
  { unfold data. rewrite !length_app, (length_concat_blocks 4), length_map by apply backup_blocks. simpl. lia. }
  assert ((length data - BACKUP_HEADER_SIZE) / 4 = length b)%nat as Hdiv.
  { rewrite L. replace (5 + length b * 4 + length tl - BACKUP_HEADER_SIZE)%nat with (length tl + length b * 4)%nat
      by (unfold BACKUP_HEADER_SIZE; lia). rewrite Nat.div_add, Nat.div_small by lia. done. }
  rewrite (proj2 (Nat.ltb_ge _ _)) by (unfold BACKUP_HEADER_SIZE; lia).
  change (nth 0 data 0) with 1. change (from_le_bytes (slice 1 5 data)) with BACKUP_MAX_ENTRIES.
  cbn [negb Z.eqb BACKUP_VERSION Pos.eqb]. rewrite Hdiv, Nat.min_l by lia. f_equal.
  rewrite (omap_ext_in _ (fun i => entry_at (slice (5 + i * 4) (5 + i * 4 + 4) data))).
  - rewrite <- (omap_map id (fun i => entry_at (slice (5 + i * 4) (5 + i * 4 + 4) data))). unfold data.
    rewrite (map_slices entry_at 4 5 (length b)); [|done|apply backup_blocks|by rewrite length_map].
    rewrite omap_map, omap_map. clear -Hb. induction Hb as [|x b Hx Hb IH]; [done|].
    rewrite <- IH at 2. cbn [omap list_omap id]. unfold u16, in_u in Hx.
    replace (entry_at (to_le_bytes 4 x)) with (Some x); [done|]. unfold entry_at.
    rewrite (le_roundtrip 4 32) by (done || unfold in_u; lia). by rewrite (proj2 (Z.ltb_lt _ _)) by lia.
  - intros i [_ Hi]%elem_of_seq. unfold BACKUP_HEADER_SIZE in *. by rewrite (proj2 (Nat.leb_le _ _)) by lia.
Qed.

Lemma backup_image_snoc b s : backup_image (b ++ [s]) = backup_image b ++ to_le_bytes 4 s.
Proof. unfold backup_image. rewrite map_app, concat_app, app_assoc. done. Qed.

(** The backup file records the emptied segments: after [save], and after each
    [record_segment] on top of it, loading gives the recorded list, and if
    the append of a segment is cut short at any byte the file loads to the list
    without it or with it. *)
Theorem backup_survives b s :
  backup_ok (b ++ [s]) ->
  (forall file, backup_save true None b file = (Ok tt, Some (backup_image b))) /\
  backup_load true true (Some (backup_image b)) = Ok (Some b) /\
  record_segment true true None s b (Some (backup_image b)) = (Ok tt, b ++ [s], Some (backup_image (b ++ [s]))) /\
  backup_load true true (Some (backup_image (b ++ [s]))) = Ok (Some (b ++ [s])) /\
  forall n, exists r file, record_segment true true (Some n) s b (Some (backup_image b)) = (r, b ++ [s], Some file) /\
    (backup_load true true (Some file) = Ok (Some b) \/ backup_load true true (Some file) = Ok (Some (b ++ [s]))).
Proof.
  intros Hok. pose proof (backup_parse_image (b ++ [s]) [] Hok ltac:(simpl; lia)) as Hs. rewrite app_nil_r in Hs.
  assert (backup_ok b) as Hb.
  { destruct Hok as [H1 H2]. apply Forall_app in H1 as [H1 _]. rewrite length_app in H2. split; [done|lia]. }
  pose proof (backup_parse_image b [] Hb ltac:(simpl; lia)) as H. rewrite app_nil_r in H.
  unfold backup_load, record_segment. cbn [negb default id app from_option]. rewrite H, Hs.
  change (length (backup_image b) =? 0)%nat with false. rewrite backup_image_snoc. cbv iota. rewrite app_nil_l.
  split_and!; try done.
  intros n. eexists _, _. split; [done|]. destruct (decide (n < 4)%nat) as [Hn|Hn].
  - left. f_equal. rewrite backup_parse_image; [done|done|]. rewrite length_take. lia.
  - right. rewrite take_ge by (rewrite length_to_le_bytes; lia). by rewrite <- backup_image_snoc, Hs.
Qed.

Lemma backup_survives_witness :
  backup_load true true (Some (backup_image [3; 1022])) = Ok (Some [3; 1022]).
Proof.
  destruct (backup_survives [3] 1022) as (_ & _ & _ & H & _); [|exact H].
  split; [decide_now|unfold BACKUP_MAX_ENTRIES, MAX_SEGMENTS; simpl; lia].
Defined.

(** The compaction of a data file starts at offset 0: if the caller lists the
    entries behind the 480-byte segment header, the header is overwritten. *)
Theorem extract_compact_drops_header :
  exists m, extract_compact_segment (fun _ => io_all) (to_bytes zeroed ++ [1; 2; 3; 4]) [{| offset := 481; length_ := 2 |}] (mover_new 0) =
    Some (Ok 482, [2; 3], [{| offset := 481; length_ := 2 |}], m).
Proof. eexists. vm_compute. reflexivity. Qed.
