(* ===== verification/KeyState.v ===== *)
(** * The residency database: crates/cascette-client-storage/src/kmt/key_state.rs

    Which keys have their data on disk: 40-byte guarded entries in pages of 25,
    sixteen buckets of pages by a hash of the key, and an index of 64-bit hashes
    that is asked first.  The page codec is the one of [Pages]. *)

From S2P Require Import Prelude Bytes Disk Jenkins Collections Pages.
Local Open Scope Z_scope.

Module Residency.

Inductive KeyState : Type := Resident | NonResident.

Record KeyStateTracker := {
  resident_count : Z;
  non_resident_count : Z;
  grew_update_buffer_count : Z;
}.

Definition tracker_new : KeyStateTracker :=
  {| resident_count := 0; non_resident_count := 0; grew_update_buffer_count := 0 |}.

Definition mark_fully_resident (t : KeyStateTracker) : KeyStateTracker :=
  {| resident_count := wrap64 (resident_count t + 1); non_resident_count := non_resident_count t;
     grew_update_buffer_count := grew_update_buffer_count t |}.

Definition mark_fully_non_resident (t : KeyStateTracker) : KeyStateTracker :=
  {| resident_count := resident_count t; non_resident_count := wrap64 (non_resident_count t + 1);
     grew_update_buffer_count := grew_update_buffer_count t |}.

Definition RESIDENCY_ENTRY_SIZE : nat := 40.
Definition RESIDENCY_PAGE_SIZE : nat := 1024.
Definition RESIDENCY_ENTRIES_PER_PAGE : nat := (RESIDENCY_PAGE_SIZE / RESIDENCY_ENTRY_SIZE)%nat.
Definition RESIDENCY_BUCKET_COUNT : nat := 16.
Definition BATCH_DELETE_THRESHOLD : Z := 10000.

Inductive ResidencyUpdateType : Type :=
| Invalid
| Set_
| Create
| Delete
| MarkResident
| MarkNonResident.

#[global] Instance ResidencyUpdateType_eq_dec : EqDecision ResidencyUpdateType.
Proof. solve_decision. Defined.

(** [update_type as u8]. *)
Definition type_byte (t : ResidencyUpdateType) : Z :=
  match t with
  | Invalid => 0 | Set_ => 1 | Create => 2 | Delete => 3 | MarkResident => 6 | MarkNonResident => 7
  end.

Definition from_byte (b : Z) : ResidencyUpdateType :=
  if b =? 1 then Set_ else if b =? 2 then Create else if b =? 3 then Delete
  else if b =? 6 then MarkResident else if b =? 7 then MarkNonResident else Invalid.

Definition is_live (t : ResidencyUpdateType) : bool :=
  match t with Set_ | Create | MarkResident | MarkNonResident => true | _ => false end.

(** ** Spans and entries *)

Record ResidencySpan := { offset : Z; length_ : Z; reserved1 : Z; reserved2 : Z }.

Definition i32_MAX : Z := 2 ^ 31 - 1.

Definition span_full : ResidencySpan := {| offset := 0; length_ := i32_MAX; reserved1 := 0; reserved2 := 0 |}.
Definition span_range (offset length : Z) : ResidencySpan :=
  {| offset := offset; length_ := length; reserved1 := 0; reserved2 := 0 |}.

Definition span_to_bytes (s : ResidencySpan) : bytes :=
  let buf := zeros 16 in
  let buf := copy_at 0 (to_be_bytes 4 (i32_to_u32 (offset s))) buf in
  let buf := copy_at 4 (to_be_bytes 4 (i32_to_u32 (length_ s))) buf in
  let buf := copy_at 8 (to_be_bytes 4 (i32_to_u32 (reserved1 s))) buf in
  copy_at 12 (to_be_bytes 4 (i32_to_u32 (reserved2 s))) buf.

Definition span_from_bytes (data : bytes) : ResidencySpan :=
  {| offset := u32_to_i32 (from_be_bytes (slice 0 4 data));
     length_ := u32_to_i32 (from_be_bytes (slice 4 8 data));
     reserved1 := u32_to_i32 (from_be_bytes (slice 8 12 data));
     reserved2 := u32_to_i32 (from_be_bytes (slice 12 16 data)) |}.

Record ResidencyEntry := {
  hash_flags : Z;
  ekey : bytes;
  span : ResidencySpan;
  update_type : ResidencyUpdateType;
}.

Definition to_bytes (e : ResidencyEntry) : bytes :=
  let buf := zeros RESIDENCY_ENTRY_SIZE in
  let buf := copy_at 0 (to_le_bytes 4 (hash_flags e)) buf in
  let buf := copy_at 4 (ekey e) buf in
  let buf := copy_at 20 (span_to_bytes (span e)) buf in
  copy_at 36 [type_byte (update_type e)] buf.

Definition from_bytes (data : bytes) : ResidencyEntry :=
  {| hash_flags := from_le_bytes (slice 0 4 data);
     ekey := slice 4 20 data;
     span := span_from_bytes (slice 20 36 data);
     update_type := from_byte (nth 36 data 0) |}.

Definition compute_hash_guard (entry_bytes : bytes) : Z :=
  Z.lor (Jenkins.jenkins (slice 4 37 entry_bytes) 0) 0x80000000.

Definition with_flags (g : Z) (e : ResidencyEntry) : ResidencyEntry :=
  {| hash_flags := g; ekey := ekey e; span := span e; update_type := update_type e |}.

Definition with_type (t : ResidencyUpdateType) (e : ResidencyEntry) : ResidencyEntry :=
  {| hash_flags := hash_flags e; ekey := ekey e; span := span e; update_type := t |}.

Definition new (ekey : bytes) (span : ResidencySpan) (update_type : ResidencyUpdateType) : ResidencyEntry :=
  let entry := {| hash_flags := 0; ekey := ekey; span := span; update_type := update_type |} in
  with_flags (compute_hash_guard (to_bytes entry)) entry.

Definition bucket_hash (ekey : bytes) : Z :=
  let xor := fold_left Z.lxor ekey 0 in
  Z.land (Z.lxor (Z.shiftr xor 4) xor) 0x0F.

Definition validate_hash_guard (e : ResidencyEntry) : bool := hash_flags e =? compute_hash_guard (to_bytes e).

Definition is_valid (e : ResidencyEntry) : bool := negb (Z.land (hash_flags e) 0x80000000 =? 0).

Definition murmurhash3_finalize (k : Z) : Z :=
  let k := Z.lxor k (Z.shiftr k 33) in
  let k := wrap64 (k * 0xff51afd7ed558ccd) in
  let k := Z.lxor k (Z.shiftr k 33) in
  let k := wrap64 (k * 0xc4ceb9fe1a85ec53) in
  Z.lxor k (Z.shiftr k 33).

(** ** Pages *)

Abbreviation ResidencyPage := (list ResidencyEntry).

Definition span_ok (s : ResidencySpan) : Prop :=
  i32 (offset s) /\ i32 (length_ s) /\ i32 (reserved1 s) /\ i32 (reserved2 s).

(** An entry with a guard, whose fields fit their on-disk width. *)
Definition fits (e : ResidencyEntry) : Prop :=
  u32 (hash_flags e) /\ hash_flags e <> 0 /\ is_array 16 (ekey e) /\ span_ok (span e).

#[global] Instance residency_page_entry : PageEntry ResidencyEntry := {|
  entry_size := RESIDENCY_ENTRY_SIZE;
  page_size := RESIDENCY_PAGE_SIZE;
  enc := to_bytes;
  dec := from_bytes;
  entry_ok := fits;
|}.

Definition page_is_full (p : ResidencyPage) : bool := (RESIDENCY_ENTRIES_PER_PAGE <=? length p)%nat.

Definition page_push (p : ResidencyPage) (e : ResidencyEntry) : bool * ResidencyPage :=
  if page_is_full p then (false, p) else (true, p ++ [e]).

Definition residency_page_to_bytes (p : ResidencyPage) : bytes := page_to_bytes p.
Definition residency_page_from_bytes (data : bytes) : option ResidencyPage := page_from_bytes data.

(** ** The database *)

Record ResidencyDb := {
  buckets : list (list ResidencyPage);
  hash_index : list (Z * list Z);
  dirty : bool;
}.

Definition db_new : ResidencyDb :=
  {| buckets := replicate RESIDENCY_BUCKET_COUNT []; hash_index := []; dirty := false |}.

(** [murmurhash3_finalize(u64::from_le_bytes(ekey[0..8]))]. *)
Definition key_hash (ekey : bytes) : Z := murmurhash3_finalize (from_le_bytes (take 8 ekey)).

(** [self.buckets[bucket]]. *)
Definition bucket_of (db : ResidencyDb) (ekey : bytes) : list ResidencyPage :=
  nth (Z.to_nat (bucket_hash ekey)) (buckets db) [].

Fixpoint find_live (k : bytes) (l : list ResidencyEntry) : option ResidencyEntry :=
  match l with
  | [] => None
  | e :: l => if bool_decide (ekey e = k) && is_live (update_type e) then Some e else find_live k l
  end.

Definition is_resident (db : ResidencyDb) (k : bytes) : bool :=
  if (Z.of_nat RESIDENCY_BUCKET_COUNT <=? bucket_hash k) then false
  else
    match bt_get (key_hash k) (hash_index db) with
    | None => false
    | Some _ =>
        match find_live k (concat (bucket_of db k)) with
        | Some e => negb (bool_decide (update_type e = MarkNonResident))
        | None => false
        end
    end.

(** [*existing = entry] for the first entry with the key; [None] if there is none. *)
Fixpoint replace_in_page (e : ResidencyEntry) (p : ResidencyPage) : option ResidencyPage :=
  match p with
  | [] => None
  | x :: p => if bool_decide (ekey x = ekey e) then Some (e :: p) else cons x <$> replace_in_page e p
  end.

Fixpoint replace_in_pages (e : ResidencyEntry) (ps : list ResidencyPage) : option (list ResidencyPage) :=
  match ps with
  | [] => None
  | p :: ps =>
      match replace_in_page e p with
      | Some p => Some (p :: ps)
      | None => cons p <$> replace_in_pages e ps
      end
  end.

(** Add to the last page if it has room, or create a new page. *)
Definition push_entry (e : ResidencyEntry) (ps : list ResidencyPage) : list ResidencyPage :=
  let fresh := ps ++ [snd (page_push [] e)] in
  match last ps with
  | Some p =>
      let '(added, p) := page_push p e in
      if added then <[(length ps - 1)%nat := p]> ps else fresh
  | None => fresh
  end.

Definition update_hash_index_for_key (k : bytes) (db : ResidencyDb) : ResidencyDb :=
  match bt_get (key_hash k) (hash_index db) with
  | Some _ => db
  | None => {| buckets := buckets db;
               hash_index := bt_insert (key_hash k) [bucket_hash k] (hash_index db); dirty := dirty db |}
  end.

Definition insert_entry (e : ResidencyEntry) (db : ResidencyDb) : ResidencyDb :=
  if (Z.of_nat RESIDENCY_BUCKET_COUNT <=? bucket_hash (ekey e)) then db
  else
    let ps := bucket_of db (ekey e) in
    let ps :=
      match replace_in_pages e ps with
      | Some ps => ps
      | None => push_entry e ps
      end in
    update_hash_index_for_key (ekey e)
      {| buckets := <[Z.to_nat (bucket_hash (ekey e)) := ps]> (buckets db);
         hash_index := hash_index db; dirty := dirty db |}.

Definition set_dirty (db : ResidencyDb) : ResidencyDb :=
  {| buckets := buckets db; hash_index := hash_index db; dirty := true |}.

Definition mark_resident (k : bytes) (db : ResidencyDb) : ResidencyDb :=
  set_dirty (insert_entry (new k span_full Set_) db).

Definition mark_non_resident (k : bytes) (db : ResidencyDb) : ResidencyDb :=
  set_dirty (insert_entry (new k span_full Delete) db).

Definition mark_span_non_resident (k : bytes) (offset length : Z) (db : ResidencyDb) : ResidencyDb :=
  set_dirty (insert_entry (new k (span_range offset length) MarkNonResident) db).

Definition all_entries (db : ResidencyDb) : list ResidencyEntry := concat (concat (buckets db)).

Definition scan_keys (db : ResidencyDb) : list bytes :=
  ekey <$> filter (fun e => is_live (update_type e) = true /\ update_type e <> MarkNonResident) (all_entries db).

Definition entry_count (db : ResidencyDb) : nat :=
  length (filter (fun e => is_live (update_type e) = true) (all_entries db)).

(** [self.hash_index.entry(hash).or_default().push(v)]. *)
Definition index_push (h v : Z) (idx : list (Z * list Z)) : list (Z * list Z) :=
  bt_insert h (match bt_get h idx with Some l => l ++ [v] | None => [v] end) idx.

(** The live entries with the value pushed for each, in the order of the loops. *)
Definition index_items (bs : list (list ResidencyPage)) : list (Z * Z) :=
  concat (imap (fun bucket_idx ps =>
    concat (imap (fun page_idx p =>
      (fun e => (key_hash (ekey e), Z.of_nat (bucket_idx * 1000 + page_idx)))
        <$> filter (fun e => is_live (update_type e) = true) p) ps)) bs).

Definition rebuild_hash_index (db : ResidencyDb) : ResidencyDb :=
  {| buckets := buckets db;
     hash_index := fold_left (fun idx '(h, v) => index_push h v idx) (index_items (buckets db)) [];
     dirty := dirty db |}.

Definition delete_entry (keys : list bytes) (e : ResidencyEntry) : ResidencyEntry :=
  if bool_decide (ekey e ∈ keys) then with_type Delete e else e.

Definition batch_delete (keys : list bytes) (db : ResidencyDb) : ResidencyDb :=
  rebuild_hash_index
    {| buckets := map (map (map (delete_entry keys))) (buckets db);
       hash_index := hash_index db; dirty := true |}.

Definition delete_keys (keys : list bytes) (db : ResidencyDb) : ResidencyDb :=
  if BATCH_DELETE_THRESHOLD <? Z.of_nat (length keys) then batch_delete keys db
  else fold_left (fun db k => mark_non_resident k db) keys db.

(** ** Persistence *)

(** What [save] writes. *)
Definition db_to_bytes (db : ResidencyDb) : bytes :=
  concat (imap (fun bucket_id (pages : list ResidencyPage) =>
    match pages with
    | [] => []
    | _ => [wrap8 (Z.of_nat bucket_id)] ++ to_le_bytes 4 (wrap32 (Z.of_nat (length pages))) ++
           concat (map residency_page_to_bytes pages)
    end) (buckets db)).

(** The inner loop of [load]: at most [n] pages from [offset] on. *)
Fixpoint load_pages (n offset : nat) (data : bytes) : list ResidencyPage * nat :=
  match n with
  | O => ([], offset)
  | S n =>
      if (length data <? offset + RESIDENCY_PAGE_SIZE)%nat then ([], offset)
      else
        let '(ps, o) := load_pages n (offset + RESIDENCY_PAGE_SIZE) data in
        (match residency_page_from_bytes (drop offset data) with Some p => p :: ps | None => ps end, o)
  end.

(** The outer loop; each iteration consumes at least the five header bytes. *)
Fixpoint load_loop (fuel offset : nat) (data : bytes) (bs : list (list ResidencyPage)) : list (list ResidencyPage) :=
  match fuel with
  | O => bs
  | S fuel =>
      if (offset + 5 <=? length data)%nat then
        let bucket_id := Z.to_nat (nth offset data 0) in
        if (RESIDENCY_BUCKET_COUNT <=? bucket_id)%nat then bs
        else
          let page_count := Z.to_nat (from_le_bytes (slice (offset + 1) (offset + 5) data)) in
          let '(ps, offset) := load_pages page_count (offset + 5) data in
          load_loop fuel offset data (alter (fun old => old ++ ps) bucket_id bs)
      else bs
  end.

Definition db_from_bytes (data : bytes) : ResidencyDb :=
  rebuild_hash_index
    {| buckets := load_loop (S (length data)) 0 data (buckets db_new); hash_index := []; dirty := false |}.

(** [load]: [None] is a path that does not exist; [read_ok] whether it can be opened and read. *)
Definition load (read_ok : bool) (file : option bytes) : result StorageError ResidencyDb :=
  match file with
  | None => Ok db_new
  | Some data => if read_ok then Ok (db_from_bytes data) else Err (ArchiveError "failed to open residency db")
  end.

(** [save]: the new content of the file on success.  [write_ok] covers every call
    before the rename. *)
Definition save (write_ok rename_ok : bool) (db : ResidencyDb) (file : option bytes) :
    result StorageError unit * ResidencyDb * option bytes :=
  if dirty db then
    if write_ok then
      if rename_ok then
        (Ok tt, {| buckets := buckets db; hash_index := hash_index db; dirty := false |}, Some (db_to_bytes db))
      else (Err (ArchiveError "rename error"), db, file)
    else (Err (ArchiveError "write error"), db, file)
  else (Ok tt, db, file).

End Residency.
