(* ===== verification/KeyStateTheorems.v ===== *)
(** * Correctness of the residency database

    The codec of its entries, the invertibility of the 64-bit hash, the database
    as a set of resident keys, and the file it is saved to. *)

From S2P Require Import Prelude Bytes Disk Jenkins Collections Pages KeyState.
Import Residency.
Local Open Scope Z_scope.

(** ** The entry codec *)

Lemma i32_u32 x : u32 (i32_to_u32 x).
Proof. apply wrap_range. lia. Qed.

Lemma span_codec s :
  span_ok s -> is_array 16 (span_to_bytes s) /\ span_from_bytes (span_to_bytes s) = s.
Proof.
  destruct s as [o l r1 r2]. intros (Ho & Hl & H1 & H2). cbn [offset length_ reserved1 reserved2] in *.
  unfold span_to_bytes. cbn [offset length_ reserved1 reserved2].
  pose proof (i32_u32 o). pose proof (i32_u32 l). pose proof (i32_u32 r1). pose proof (i32_u32 r2).
  pose proof (i32_roundtrip o Ho) as Eo. pose proof (i32_roundtrip l Hl) as El.
  pose proof (i32_roundtrip r1 H1) as E1. pose proof (i32_roundtrip r2 H2) as E2.
  abs_ints. unfold span_from_bytes. layout. split.
  - split; [done|]. unfold is_bytes in *. decompose_Forall; done.
  - repeat match goal with E : from_be_bytes _ = _ |- _ => rewrite E; clear E end. congruence.
Qed.

Lemma type_roundtrip t : from_byte (type_byte t) = t.
Proof. by destruct t. Qed.

Lemma type_byte_u8 t : u8 (type_byte t).
Proof. by destruct t. Qed.

Lemma residency_to_bytes_eq e :
  length (ekey e) = 16%nat -> length (span_to_bytes (span e)) = 16%nat ->
  to_bytes e = to_le_bytes 4 (hash_flags e) ++ ekey e ++ span_to_bytes (span e) ++ [type_byte (update_type e); 0; 0; 0].
Proof.
  destruct e as [g k s t]. unfold to_bytes, RESIDENCY_ENTRY_SIZE. cbn [hash_flags ekey span update_type]. intros Hk Hs.
  pose proof (length_to_le_bytes 4 g) as Lg. generalize dependent (to_le_bytes 4 g).
  generalize dependent (span_to_bytes s). intros sb Hs gb Lg. explode Lg. explode Hk. explode Hs. by layout.
Qed.

Lemma residency_entry_codec e :
  fits e ->
  length (to_bytes e) = RESIDENCY_ENTRY_SIZE /\ is_bytes (to_bytes e) /\ from_bytes (to_bytes e) = e /\
  from_le_bytes (take 4 (to_bytes e)) = hash_flags e.
Proof.
  destruct e as [g k s t]. intros (Hg & _ & [Lk Bk] & Hs). destruct (span_codec s Hs) as [[Ls Bs] Es].
  cbn [hash_flags ekey span] in *. rewrite residency_to_bytes_eq by done. cbn [hash_flags ekey span update_type].
  pose proof (length_to_le_bytes 4 g) as Lg. pose proof (le_roundtrip 4 32 g eq_refl Hg) as Eg.
  pose proof (to_le_bytes_bytes 4 g) as Bg. split_and!.
  - by rewrite !length_app, Lg, Lk, Ls.
  - apply is_bytes_app. split; [done|]. apply is_bytes_app. split; [done|].
    apply is_bytes_app. split; [done|]. apply Forall_cons_2; [apply type_byte_u8|decide_now].
  - generalize dependent (to_le_bytes 4 g). generalize dependent (span_to_bytes s). intros sb Ls Bs Es gb Lg Eg Bg.
    explode Lg. explode Lk. explode Ls. unfold from_bytes. layout. by rewrite Eg, Es, type_roundtrip.
  - by rewrite take_app_le, take_ge by (rewrite Lg; lia).
Qed.

#[global] Instance residency_page_laws : PageEntryLaws ResidencyEntry.
Proof.
  constructor.
  - simpl. unfold RESIDENCY_ENTRY_SIZE, RESIDENCY_PAGE_SIZE. lia.
  - intros e He. apply (residency_entry_codec e He).
  - intros e He. apply (residency_entry_codec e He).
  - intros e He. apply (residency_entry_codec e He).
  - intros e He. cbn [enc residency_page_entry].
    destruct (residency_entry_codec e He) as (_ & _ & _ & ->). apply He.
Qed.

Lemma residency_guard_slice g e :
  length (ekey e) = 16%nat -> length (span_to_bytes (span e)) = 16%nat ->
  slice 4 37 (to_bytes (with_flags g e)) = slice 4 37 (to_bytes e).
Proof.
  intros Lk Ls. rewrite !residency_to_bytes_eq by done. cbn [with_flags hash_flags ekey span update_type].
  rewrite !slice_app_r by (rewrite length_to_le_bytes; lia). by rewrite !length_to_le_bytes.
Qed.

Lemma residency_new_fits k s t :
  is_array 16 k -> span_ok s -> fits (new k s t) /\ validate_hash_guard (new k s t) = true.
Proof.
  intros Hk Hs. destruct (span_codec s Hs) as [[Ls _] _]. split.
  - destruct (guard_high (Jenkins.jenkins (slice 4 37 (to_bytes
      {| hash_flags := 0; ekey := k; span := s; update_type := t |})) 0)) as [H1 H2];
      [apply Jenkins.jenkins_range|]. exact (conj H1 (conj H2 (conj Hk Hs))).
  - unfold validate_hash_guard, new, compute_hash_guard. rewrite residency_guard_slice by (apply Hk || done).
    cbn [with_flags hash_flags]. apply Z.eqb_refl.
Qed.

(** ** The finalizer is a bijection *)

Definition xorshift (k : Z) : Z := Z.lxor k (Z.shiftr k 33).

Lemma xorshift_range k : u64 k -> u64 (xorshift k).
Proof.
  intros H. apply lxor_range; [lia|done|]. unfold in_u in *. rewrite Z.shiftr_div_pow2 by lia. split.
  - apply Z.div_pos; lia.
  - apply Z.div_lt_upper_bound; lia.
Qed.

Lemma xorshift_involutive k : u64 k -> xorshift (xorshift k) = k.
Proof.
  intros H. unfold xorshift. rewrite Z.shiftr_lxor, Z.shiftr_shiftr by lia.
  assert (Z.shiftr k (33 + 33) = 0) as ->.
  { rewrite Z.shiftr_div_pow2 by lia. apply Z.div_small. unfold in_u in H. lia. }
  by rewrite Z.lxor_0_r, Z.lxor_assoc, Z.lxor_nilpotent, Z.lxor_0_r.
Qed.

Lemma mul_inverse k c c' : u64 k -> wrap64 (c * c') = 1 -> wrap64 (wrap64 (k * c) * c') = k.
Proof.
  intros Hk Hc. unfold wrap64, wrap in *. rewrite Zmult_mod_idemp_l, <- Z.mul_assoc.
  rewrite <- Zmult_mod_idemp_r, Hc, Z.mul_1_r. by apply Z.mod_small.
Qed.

Definition unfinalize (k : Z) : Z :=
  let k := xorshift k in
  let k := wrap64 (k * 0x9cb4b2f8129337db) in
  let k := xorshift k in
  let k := wrap64 (k * 0x4f74430c22a54005) in
  xorshift k.

Lemma unfinalize_murmur k : u64 k -> unfinalize (murmurhash3_finalize k) = k.
Proof.
  intros Hk. unfold murmurhash3_finalize. fold (xorshift k).
  pose proof (xorshift_range k Hk) as H1.
  set (k1 := wrap64 (xorshift k * 0xff51afd7ed558ccd)). fold (xorshift k1).
  assert (u64 k1) as Hk1 by (apply wrap_range; lia). pose proof (xorshift_range k1 Hk1) as H2.
  set (k2 := wrap64 (xorshift k1 * 0xc4ceb9fe1a85ec53)). fold (xorshift k2).
  assert (u64 k2) as Hk2 by (apply wrap_range; lia).
  unfold unfinalize. rewrite xorshift_involutive by done. unfold k2. rewrite mul_inverse by (done || by vm_compute).
  rewrite xorshift_involutive by done. unfold k1. rewrite mul_inverse by (done || by vm_compute).
  by apply xorshift_involutive.
Qed.

Lemma murmur_range k : u64 k -> u64 (murmurhash3_finalize k).
Proof. intros _. apply (xorshift_range (wrap64 _)). apply wrap_range. lia. Qed.

(** ** Buckets *)

Lemma bucket_hash_range k : 0 <= bucket_hash k < 16.
Proof.
  unfold bucket_hash. change 0x0F with (Z.ones 4). rewrite Z.land_ones by lia. apply Z.mod_pos_bound. lia.
Qed.

Lemma bucket_guard k : (Z.of_nat RESIDENCY_BUCKET_COUNT <=? bucket_hash k) = false.
Proof. apply Z.leb_gt. apply bucket_hash_range. Qed.

(** ** The invariant *)

Definition keys_of (l : list ResidencyEntry) : list bytes := ekey <$> l.

Record bucket_ok (i : nat) (ps : list ResidencyPage) : Prop := {
  bk_pages : Forall page_ok ps;
  bk_placed : forall e, e ∈ concat ps -> bucket_hash (ekey e) = Z.of_nat i;
  bk_unique : NoDup (keys_of (concat ps));
}.

Definition indexed (idx : list (Z * list Z)) (bs : list (list ResidencyPage)) : Prop :=
  forall e, e ∈ concat (concat bs) -> is_live (update_type e) = true -> is_Some (bt_get (key_hash (ekey e)) idx).

Record db_ok (db : ResidencyDb) : Prop := {
  db_len : length (buckets db) = RESIDENCY_BUCKET_COUNT;
  db_buckets : forall i ps, buckets db !! i = Some ps -> bucket_ok i ps;
  db_indexed : indexed (hash_index db) (buckets db);
}.

(** Whether a key with this update type counts as resident. *)
Definition resident_type (t : ResidencyUpdateType) : bool :=
  is_live t && negb (bool_decide (t = MarkNonResident)).

Lemma elem_of_concat {A} (x : A) ls : x ∈ concat ls <-> exists l, x ∈ l /\ l ∈ ls.
Proof.
  induction ls as [|l ls IH]; simpl; [set_solver|]. rewrite elem_of_app, IH. set_solver.
Qed.

Lemma bucket_lookup db k : db_ok db -> buckets db !! Z.to_nat (bucket_hash k) = Some (bucket_of db k).
Proof.
  intros Hdb. pose proof (bucket_hash_range k). destruct (lookup_lt_is_Some_2 (buckets db) (Z.to_nat (bucket_hash k))) as [ps Hps].
  { rewrite (db_len db Hdb). unfold RESIDENCY_BUCKET_COUNT. lia. }
  rewrite Hps. f_equal. unfold bucket_of. symmetry. by apply nth_lookup_Some.
Qed.

Lemma bucket_of_ok db k : db_ok db -> bucket_ok (Z.to_nat (bucket_hash k)) (bucket_of db k).
Proof. intros Hdb. by apply (db_buckets db Hdb), bucket_lookup. Qed.

Lemma in_all_entries db e :
  db_ok db -> e ∈ all_entries db <-> e ∈ concat (bucket_of db (ekey e)).
Proof.
  intros Hdb. unfold all_entries. rewrite elem_of_concat. split.
  - intros (p & He & (ps & Hp & [i Hi]%list_elem_of_lookup)%elem_of_concat).
    pose proof (db_buckets db Hdb i ps Hi) as Hok.
    assert (e ∈ concat ps) as Hc by (apply elem_of_concat; eauto).
    pose proof (bk_placed i ps Hok e Hc) as Eb. pose proof (bucket_lookup db (ekey e) Hdb) as Hl.
    rewrite Eb, Nat2Z.id, Hi in Hl. injection Hl as <-. done.
  - intros (p & He & Hp)%elem_of_concat. exists p. split; [done|]. apply elem_of_concat.
    exists (bucket_of db (ekey e)). split; [done|]. eapply list_elem_of_lookup_2, bucket_lookup, Hdb.
Qed.

Lemma nodup_keys_inj l e e' : NoDup (keys_of l) -> e ∈ l -> e' ∈ l -> ekey e = ekey e' -> e = e'.
Proof.
  intros Hnd [i Hi]%list_elem_of_lookup [j Hj]%list_elem_of_lookup E.
  assert (i = j) as ->; [|congruence].
  eapply (NoDup_lookup (keys_of l) i j); [done| |];
    unfold keys_of; rewrite list_lookup_fmap, ?Hi, ?Hj; simpl; [done|by rewrite E].
Qed.

Lemma find_live_Some k l e : find_live k l = Some e -> e ∈ l /\ ekey e = k /\ is_live (update_type e) = true.
Proof.
  induction l as [|x l IH]; simpl; [done|]. destruct (bool_decide _ && _) eqn:E.
  - intros [= <-]. apply andb_true_iff in E as [?%bool_decide_eq_true ?]. split_and!; [left|done|done].
  - intros H. destruct (IH H) as (? & ? & ?). split_and!; [by right|done|done].
Qed.

Lemma find_live_None k l : find_live k l = None -> forall e, e ∈ l -> ekey e = k -> is_live (update_type e) = false.
Proof.
  induction l as [|x l IH]; simpl; intros H e; [by intros ?%elem_of_nil|].
  destruct (bool_decide _ && _) eqn:E; [done|]. intros [->|Hin]%elem_of_cons Hk; [|by apply IH].
  rewrite (bool_decide_true _ Hk) in E. done.
Qed.

(** [is_resident] asks for an entry of the key whose type says "resident". *)
Lemma is_resident_spec db k :
  db_ok db ->
  is_resident db k = true <-> exists e, e ∈ concat (bucket_of db k) /\ ekey e = k /\ resident_type (update_type e) = true.
Proof.
  intros Hdb. pose proof (bucket_of_ok db k Hdb) as Hb. unfold is_resident. rewrite bucket_guard. split.
  - destruct (bt_get _ _); [|done]. destruct (find_live _ _) as [e|] eqn:E; [|done].
    apply find_live_Some in E as (He & Hk & Hl). intros Ht. exists e. split_and!; [done|done|].
    unfold resident_type. by rewrite Hl, Ht.
  - intros (e & He & Hk & [Hl Ht]%andb_true_iff).
    assert (e ∈ all_entries db) as Ha by (apply in_all_entries; [done|by rewrite Hk]).
    destruct (db_indexed db Hdb e Ha Hl) as [v Hv]. rewrite Hk in Hv. rewrite Hv.
    destruct (find_live k _) as [e'|] eqn:E.
    + apply find_live_Some in E as (He' & Hk' & _).
      rewrite (nodup_keys_inj _ e' e (bk_unique _ _ Hb) He' He); [done|congruence].
    + rewrite (find_live_None _ _ E e He Hk) in Hl. done.
Qed.

(** ** Inserting into a bucket *)

Lemma replace_in_page_spec e p :
  match replace_in_page e p with
  | Some p' => exists l1 x l2, p = l1 ++ x :: l2 /\ ekey x = ekey e /\ p' = l1 ++ e :: l2
  | None => ekey e ∉ keys_of p
  end.
Proof.
  induction p as [|y p IH]; simpl; [apply not_elem_of_nil|]. case_bool_decide as Hy.
  - exists [], y, p. done.
  - destruct (replace_in_page e p) as [p'|]; simpl.
    + destruct IH as (l1 & x & l2 & -> & Hx & ->). by exists (y :: l1), x, l2.
    + change (ekey e ∉ ekey y :: keys_of p). rewrite not_elem_of_cons. split; [congruence|done].
Qed.

Lemma replace_in_pages_spec e ps :
  match replace_in_pages e ps with
  | Some ps' => exists q1 q2 l1 x l2, ps = q1 ++ (l1 ++ x :: l2) :: q2 /\ ekey x = ekey e /\
      ps' = q1 ++ (l1 ++ e :: l2) :: q2
  | None => ekey e ∉ keys_of (concat ps)
  end.
Proof.
  induction ps as [|p ps IH]; simpl; [apply not_elem_of_nil|].
  pose proof (replace_in_page_spec e p) as Hp. destruct (replace_in_page e p) as [p'|]; simpl.
  - destruct Hp as (l1 & x & l2 & -> & Hx & ->). by exists [], ps, l1, x, l2.
  - destruct (replace_in_pages e ps) as [ps'|]; simpl.
    + destruct IH as (q1 & q2 & l1 & x & l2 & -> & Hx & ->). by exists (p :: q1), q2, l1, x, l2.
    + unfold keys_of in *. rewrite fmap_app, not_elem_of_app. done.
Qed.

Lemma page_ok_snoc p e : (p = [] \/ page_ok p) -> page_is_full p = false -> fits e -> page_ok (p ++ [e]).
Proof.
  intros Hp Hf He. unfold page_is_full in Hf. apply Nat.leb_gt in Hf. split_and!.
  - by destruct p.
  - rewrite length_app. simpl length. change (@per_page ResidencyEntry _) with RESIDENCY_ENTRIES_PER_PAGE. lia.
  - apply Forall_app. split; [|by constructor]. destruct Hp as [->|(_ & _ & ?)]; [constructor|done].
Qed.

Lemma push_entry_spec e ps :
  Forall page_ok ps -> fits e ->
  Forall page_ok (push_entry e ps) /\ concat (push_entry e ps) = concat ps ++ [e].
Proof.
  intros Hps He.
  assert (page_ok [e]) as Hfresh by (by apply (page_ok_snoc []); [left| |]).
  assert (Hf : Forall page_ok (ps ++ [[e]]) /\ concat (ps ++ [[e]]) = concat ps ++ [e]).
  { split; [apply Forall_app; split; [done|by constructor]|]. by rewrite concat_app. }
  unfold push_entry. change (snd (page_push [] e)) with [e].
  destruct (list_snoc_cases ps) as [->|(qs & p & ->)]; [done|]. rewrite last_snoc.
  apply Forall_app in Hps as [Hqs [Hp _]%Forall_cons]. unfold page_push.
  destruct (page_is_full p) eqn:Ef; [done|]. rewrite length_app. cbn [length].
  replace (length qs + 1 - 1)%nat with (length qs + 0)%nat by lia. rewrite insert_app_r. cbn. split.
  - apply Forall_app. split; [done|]. constructor; [|constructor]. apply page_ok_snoc; auto.
  - rewrite !concat_app. cbn. by rewrite !app_nil_r, app_assoc.
Qed.

Definition bucket_insert (e : ResidencyEntry) (ps : list ResidencyPage) : list ResidencyPage :=
  match replace_in_pages e ps with Some ps => ps | None => push_entry e ps end.

Lemma page_ok_replace l1 x e l2 : page_ok (l1 ++ x :: l2) -> fits e -> page_ok (l1 ++ e :: l2).
Proof.
  intros (_ & Hn & Hp) He. split_and!; [by destruct l1| |].
  - by rewrite length_app in *.
  - apply Forall_app in Hp as [H1 [_ H2]%Forall_cons]. apply Forall_app. split; [done|by constructor].
Qed.

Lemma bucket_insert_spec i e ps :
  bucket_ok i ps -> fits e -> bucket_hash (ekey e) = Z.of_nat i ->
  bucket_ok i (bucket_insert e ps) /\
  forall x, x ∈ concat (bucket_insert e ps) <-> x = e \/ (x ∈ concat ps /\ ekey x <> ekey e).
Proof.
  intros [Hp Hpl Hu] He Hi. unfold bucket_insert. pose proof (replace_in_pages_spec e ps) as Hr.
  destruct (replace_in_pages e ps) as [ps'|].
  - destruct Hr as (q1 & q2 & l1 & x & l2 & -> & Hx & ->).
    assert (Ec : forall y, concat (q1 ++ (l1 ++ y :: l2) :: q2) = (concat q1 ++ l1) ++ y :: (l2 ++ concat q2)).
    { intros y. rewrite concat_app. cbn. by rewrite <- !app_assoc. }
    rewrite Ec in Hu. setoid_rewrite Ec in Hpl. setoid_rewrite Ec. set (A := concat q1 ++ l1) in *. set (B := l2 ++ concat q2) in *.
    unfold keys_of in Hu. rewrite fmap_app, fmap_cons in Hu.
    apply NoDup_app in Hu as Hu'. destruct Hu' as (_ & HA & [HB _]%NoDup_cons).
    assert (Hmem : forall y, y ∈ A ++ e :: B <-> y = e \/ (y ∈ A ++ x :: B /\ ekey y <> ekey e)).
    { intros y. rewrite !elem_of_app, !elem_of_cons. rewrite <- Hx. split.
      - intros [Hy|[->|Hy]]; [right|by left|right].
        + split; [by left|]. intros E. apply (HA (ekey y)); [by apply list_elem_of_fmap_2|]. rewrite E. left.
        + split; [by right; right|]. intros E. apply HB. rewrite <- E. by apply list_elem_of_fmap_2.
      - intros [->|[[?|[->|?]] ?]]; auto. done. }
    split; [|done]. constructor.
    + apply Forall_app in Hp as [H1 [H2 H3]%Forall_cons]. apply Forall_app. split; [done|].
      constructor; [by eapply page_ok_replace|done].
    + intros y. rewrite Ec. intros [->|[Hy _]]%Hmem; [done|by apply Hpl].
    + rewrite Ec. unfold keys_of. rewrite fmap_app, fmap_cons. by rewrite <- Hx.
  - destruct (push_entry_spec e ps Hp He) as [Hp' Ec]. rewrite Ec.
    assert (Hmem : forall y, y ∈ concat ps ++ [e] <-> y = e \/ (y ∈ concat ps /\ ekey y <> ekey e)).
    { intros y. rewrite elem_of_app, list_elem_of_singleton. split; [|tauto].
      intros [Hy| ->]; [|by left]. right. split; [done|]. intros E. apply Hr. rewrite <- E. by apply list_elem_of_fmap_2. }
    split; [|done]. constructor; [done| |].
    + intros y. rewrite Ec. intros [->|[Hy _]]%Hmem; [done|by apply Hpl].
    + rewrite Ec. unfold keys_of in *. rewrite fmap_app. by apply NoDup_snoc.
Qed.

(** ** Database operations *)

Lemma update_index_get k db h :
  is_Some (bt_get h (hash_index (update_hash_index_for_key k db))) <->
  h = key_hash k \/ is_Some (bt_get h (hash_index db)).
Proof.
  unfold update_hash_index_for_key. destruct (bt_get (key_hash k) (hash_index db)) eqn:E.
  - split; [auto|]. intros [->|]; [rewrite E; eauto|done].
  - cbn [hash_index]. rewrite bt_get_insert. cbn [kcmp Z_ord].
    destruct (Z.compare_spec h (key_hash k)) as [->| |]; [|split; [auto|intros [->|]; [lia|done]]..].
    split; [auto|eauto].
Qed.

Lemma update_index_buckets k db : buckets (update_hash_index_for_key k db) = buckets db.
Proof. unfold update_hash_index_for_key. by destruct (bt_get _ _). Qed.

Definition inserted (e : ResidencyEntry) (db : ResidencyDb) : list (list ResidencyPage) :=
  <[Z.to_nat (bucket_hash (ekey e)) := bucket_insert e (bucket_of db (ekey e))]> (buckets db).

Lemma insert_entry_buckets e db : buckets (insert_entry e db) = inserted e db.
Proof. unfold insert_entry. rewrite bucket_guard. cbv zeta. by rewrite update_index_buckets. Qed.

Lemma insert_entry_ok e db :
  db_ok db -> fits e ->
  db_ok (insert_entry e db) /\
  forall x, x ∈ all_entries (insert_entry e db) <-> x = e \/ (x ∈ all_entries db /\ ekey x <> ekey e).
Proof.
  intros Hdb He. pose proof (bucket_hash_range (ekey e)) as Hr.
  destruct (bucket_insert_spec (Z.to_nat (bucket_hash (ekey e))) e (bucket_of db (ekey e))) as [Hok Hmem];
    [by apply bucket_of_ok|done|lia|].
  pose proof (bucket_lookup db (ekey e) Hdb) as Hl. pose proof (lookup_lt_Some _ _ _ Hl) as Hlt.
  assert (Hall : forall x, x ∈ concat (concat (inserted e db)) <-> x = e \/ (x ∈ all_entries db /\ ekey x <> ekey e)).
  { intros x. unfold all_entries. split.
    - intros (p & Hx & (ps & Hp & [i Hi]%list_elem_of_lookup)%elem_of_concat)%elem_of_concat.
      assert (x ∈ concat ps) as Hc by (apply elem_of_concat; eauto). unfold inserted in Hi.
      apply list_lookup_insert_Some in Hi as [(<- & <- & _)|[Hne Hi]].
      + apply Hmem in Hc as [->|[Hc Hk]]; [by left|right]. split; [|done].
        apply elem_of_concat in Hc as (p' & Hx' & Hp'). apply elem_of_concat. exists p'. split; [done|].
        apply elem_of_concat. exists (bucket_of db (ekey e)). split; [done|]. by eapply list_elem_of_lookup_2.
      + right. split.
        * apply elem_of_concat. exists p. split; [done|]. apply elem_of_concat. exists ps. split; [done|].
          by eapply list_elem_of_lookup_2.
        * intros E. pose proof (bk_placed _ _ (db_buckets db Hdb i ps Hi) x Hc) as Hpl.
          apply Hne. rewrite <- E, Hpl. lia.
    - intros Hx. apply elem_of_concat.
      assert (exists i ps, inserted e db !! i = Some ps /\ x ∈ concat ps) as (i & ps & Hi & Hc).
      { destruct Hx as [->|[Hx Hk]].
        - eexists _, _. split; [by apply list_lookup_insert_eq|]. apply Hmem. by left.
        - apply (in_all_entries db x Hdb) in Hx. destruct (decide (bucket_hash (ekey x) = bucket_hash (ekey e))) as [E|Hne].
          + eexists _, _. split; [by apply list_lookup_insert_eq|]. apply Hmem. right. split; [|done].
            unfold bucket_of in *. by rewrite <- E.
          + exists (Z.to_nat (bucket_hash (ekey x))), (bucket_of db (ekey x)). split; [|done].
            unfold inserted. rewrite list_lookup_insert_ne by (pose proof (bucket_hash_range (ekey x)); lia).
            by apply bucket_lookup. }
      apply elem_of_concat in Hc as (p & Hx' & Hp). exists p. split; [done|]. apply elem_of_concat.
      exists ps. split; [done|]. by eapply list_elem_of_lookup_2. }
  split; [|unfold all_entries at 1; by rewrite insert_entry_buckets]. constructor.
  - rewrite insert_entry_buckets. unfold inserted. rewrite length_insert. apply Hdb.
  - intros i ps. rewrite insert_entry_buckets. intros [(<- & <- & _)|[Hne Hi]]%list_lookup_insert_Some; [done|].
    by apply (db_buckets db Hdb).
  - intros x. rewrite insert_entry_buckets. intros Hx Hlive. unfold insert_entry. rewrite bucket_guard.
    apply update_index_get. cbn [hash_index]. apply Hall in Hx as [->|[Hx _]]; [by left|right].
    by apply (db_indexed db Hdb).
Qed.

(** Residency in terms of the entries. *)
Lemma is_resident_entries db k :
  db_ok db ->
  is_resident db k = true <-> exists e, e ∈ all_entries db /\ ekey e = k /\ resident_type (update_type e) = true.
Proof.
  intros Hdb. rewrite is_resident_spec by done. split; intros (e & He & <- & Ht); exists e;
    (split; [|done]); by apply in_all_entries.
Qed.

Lemma insert_resident e db k :
  db_ok db -> fits e ->
  is_resident (insert_entry e db) k =
    if bool_decide (k = ekey e) then resident_type (update_type e) else is_resident db k.
Proof.
  intros Hdb He. destruct (insert_entry_ok e db Hdb He) as [Hdb' Hmem].
  apply eq_true_iff_eq. rewrite is_resident_entries by done. case_bool_decide as Hk.
  - subst k. split.
    + intros (x & [->|[_ Hne]]%Hmem & Hk & Ht); done.
    + intros Ht. exists e. split_and!; [apply Hmem; by left|done|done].
  - rewrite is_resident_entries by done. split; intros (x & Hx & Hkx & Ht); exists x; (split; [|done]).
    + apply Hmem in Hx as [->|[Hx _]]; [congruence|done].
    + apply Hmem. right. split; [done|congruence].
Qed.

Lemma set_dirty_ok db : db_ok db -> db_ok (set_dirty db).
Proof. by intros []. Qed.

Lemma set_dirty_resident db k : is_resident (set_dirty db) k = is_resident db k.
Proof. done. Qed.

Lemma span_full_ok : span_ok span_full.
Proof. repeat split; by vm_compute. Qed.

Lemma mark_ok k s t db :
  db_ok db -> is_array 16 k -> span_ok s ->
  let db' := set_dirty (insert_entry (new k s t) db) in
  db_ok db' /\ forall k', is_resident db' k' = if bool_decide (k' = k) then resident_type t else is_resident db k'.
Proof.
  intros Hdb Hk Hs. destruct (residency_new_fits k s t Hk Hs) as [Hf _]. cbv zeta. split.
  - by apply set_dirty_ok, insert_entry_ok.
  - intros k'. rewrite set_dirty_resident. by rewrite insert_resident.
Qed.

(** ** The hash index *)

Lemma index_push_get h v idx h' :
  is_Some (bt_get h' (index_push h v idx)) <-> h' = h \/ is_Some (bt_get h' idx).
Proof.
  unfold index_push. rewrite bt_get_insert. cbn [kcmp Z_ord].
  destruct (Z.compare_spec h' h) as [->| |]; [split; eauto|split; [auto|intros [->|]; [lia|done]]..].
Qed.

Lemma index_fold_get items idx h :
  is_Some (bt_get h (fold_left (fun idx '(h, v) => index_push h v idx) items idx)) <->
  h ∈ items.*1 \/ is_Some (bt_get h idx).
Proof.
  revert idx. induction items as [|[h1 v1] items IH]; intros idx; cbn [fold_left].
  - split; [auto|]. intros [[]%elem_of_nil|]; done.
  - rewrite IH, index_push_get, fmap_cons, elem_of_cons. simpl. tauto.
Qed.

Lemma elem_of_concat_imap {A B} (f : nat -> A -> list B) (l : list A) x :
  x ∈ concat (imap f l) <-> exists i a, l !! i = Some a /\ x ∈ f i a.
Proof.
  rewrite elem_of_concat. split.
  - intros (b & Hx & [i Hi]%list_elem_of_lookup). apply list_lookup_imap_Some in Hi as (a & Ha & ->). eauto.
  - intros (i & a & Ha & Hx). exists (f i a). split; [done|]. eapply list_elem_of_lookup_2.
    by rewrite list_lookup_imap, Ha.
Qed.

Lemma index_items_complete bs e :
  e ∈ concat (concat bs) -> is_live (update_type e) = true -> key_hash (ekey e) ∈ (index_items bs).*1.
Proof.
  intros (p & He & (ps & [j Hp]%list_elem_of_lookup & [i Hi]%list_elem_of_lookup)%elem_of_concat)%elem_of_concat Hl.
  apply list_elem_of_fmap. exists (key_hash (ekey e), Z.of_nat (i * 1000 + j)). split; [done|].
  unfold index_items. apply elem_of_concat_imap. exists i, ps. split; [done|].
  apply elem_of_concat_imap. exists j, p. split; [done|]. apply list_elem_of_fmap. exists e. split; [done|].
  by apply list_elem_of_filter.
Qed.

Lemma rebuild_index_ok db :
  length (buckets db) = RESIDENCY_BUCKET_COUNT -> (forall i ps, buckets db !! i = Some ps -> bucket_ok i ps) ->
  db_ok (rebuild_hash_index db).
Proof.
  intros Hl Hb. constructor; [done|done|]. intros e He Hlive. cbn [rebuild_hash_index hash_index].
  apply index_fold_get. left. by apply index_items_complete.
Qed.

(** ** Deleting in a batch *)

Lemma delete_entry_key ks e : ekey (delete_entry ks e) = ekey e.
Proof. unfold delete_entry. by case_bool_decide. Qed.

Lemma delete_entry_fits ks e : fits e -> fits (delete_entry ks e).
Proof. unfold delete_entry. by case_bool_decide. Qed.

Lemma concat_map_map {A B} (f : A -> B) ls : concat (map (map f) ls) = map f (concat ls).
Proof. induction ls as [|l ls IH]; simpl; [done|]. by rewrite IH, map_app. Qed.

Lemma batch_delete_ok ks db : db_ok db -> db_ok (batch_delete ks db).
Proof.
  intros Hdb. apply rebuild_index_ok; cbn [buckets]; [rewrite length_map; apply Hdb|].
  intros i ps' Hi. change (map ?f (buckets db)) with (f <$> buckets db) in Hi.
  apply list_lookup_fmap_Some in Hi as (ps & Hps & Hi). subst ps'.
  destruct (db_buckets db Hdb i ps Hi) as [Hp Hpl Hu]. constructor.
  - apply Forall_map. eapply Forall_impl; [done|]. intros p (Hne & Hn & Hf). split_and!.
    + by destruct p.
    + by rewrite length_map.
    + apply Forall_map. eapply Forall_impl; [done|]. intros e. apply delete_entry_fits.
  - intros e. rewrite concat_map_map. change (map ?f ?l) with (f <$> l).
    intros (e' & -> & He')%list_elem_of_fmap. rewrite delete_entry_key. by apply Hpl.
  - rewrite concat_map_map. change (map ?f ?l) with (f <$> l). unfold keys_of in *.
    rewrite <- list_fmap_compose. erewrite list_fmap_ext; [exact Hu|].
    intros j e _. apply delete_entry_key.
Qed.

Lemma batch_delete_resident ks db k :
  db_ok db -> is_resident (batch_delete ks db) k = is_resident db k && negb (bool_decide (k ∈ ks)).
Proof.
  intros Hdb. pose proof (batch_delete_ok ks db Hdb) as Hdb'. apply eq_true_iff_eq.
  rewrite andb_true_iff, negb_true_iff, bool_decide_eq_false, !is_resident_entries by done.
  assert (Hall : all_entries (batch_delete ks db) = delete_entry ks <$> all_entries db).
  { unfold all_entries. cbn [batch_delete rebuild_hash_index buckets]. by rewrite !concat_map_map. }
  rewrite Hall. setoid_rewrite list_elem_of_fmap. split.
  - intros (e & (x & -> & Hx) & <- & Ht). rewrite delete_entry_key. unfold delete_entry in Ht.
    case_bool_decide; [done|]. split; [by exists x|done].
  - intros [(x & Hx & <- & Ht) Hk]. exists (delete_entry ks x). split_and!; [eauto|apply delete_entry_key|].
    unfold delete_entry. by rewrite bool_decide_false.
Qed.

Lemma sequential_delete_resident ks db k :
  db_ok db -> Forall (is_array 16) ks ->
  let db' := fold_left (fun db k => mark_non_resident k db) ks db in
  db_ok db' /\ is_resident db' k = is_resident db k && negb (bool_decide (k ∈ ks)).
Proof.
  intros Hdb Hks. revert db Hdb. induction Hks as [|k1 ks Hk1 Hks IH]; intros db Hdb; cbn [fold_left].
  - split; [done|]. rewrite bool_decide_false by apply not_elem_of_nil. by rewrite andb_true_r.
  - destruct (mark_ok k1 span_full Delete db Hdb Hk1 span_full_ok) as [Hdb1 Hr].
    change (mark_non_resident k1 db) with (set_dirty (insert_entry (new k1 span_full Delete) db)).
    destruct (IH _ Hdb1) as [Hdb2 Hr2]. split; [done|]. rewrite Hr2, Hr.
    destruct (decide (k = k1)) as [->|Hne].
    + rewrite (bool_decide_true (k1 = k1)), (bool_decide_true (k1 ∈ k1 :: ks)) by (done || left).
      cbn [negb]. by rewrite andb_false_r.
    + rewrite (bool_decide_false (k = k1)) by done. do 2 f_equal. apply bool_decide_ext.
      rewrite elem_of_cons. naive_solver.
Qed.

(** ** Enumeration *)

Lemma nodup_buckets (bs : list (list ResidencyPage)) i0 :
  (forall i ps, bs !! i = Some ps -> bucket_ok (i0 + i) ps) -> NoDup (keys_of (concat (concat bs))).
Proof.
  revert i0. induction bs as [|ps bs IH]; intros i0 Hb; [constructor|].
  cbn [concat]. unfold keys_of in *. rewrite concat_app, fmap_app. apply NoDup_app. split_and!.
  - apply (Hb 0%nat ps eq_refl).
  - intros k (e & -> & He)%list_elem_of_fmap (e' & E & He')%list_elem_of_fmap.
    pose proof (bk_placed _ _ (Hb 0%nat ps eq_refl) e He) as Hp.
    apply elem_of_concat in He' as (p & He' & (ps' & Hp' & [i Hi]%list_elem_of_lookup)%elem_of_concat).
    pose proof (bk_placed _ _ (Hb (S i) ps' Hi) e' ltac:(apply elem_of_concat; eauto)) as Hq. rewrite E in Hp. lia.
  - apply (IH (S i0)). intros i ps' Hi. replace (S i0 + i)%nat with (i0 + S i)%nat by lia. by apply Hb.
Qed.

Lemma scan_keys_elem db k : db_ok db -> k ∈ scan_keys db <-> is_resident db k = true.
Proof.
  intros Hdb. rewrite is_resident_entries by done. unfold scan_keys. rewrite list_elem_of_fmap. split.
  - intros (e & -> & [[Hl Ht] He]%list_elem_of_filter). exists e. split_and!; [done|done|].
    unfold resident_type. by rewrite Hl, bool_decide_false.
  - intros (e & He & <- & [Hl Ht]%andb_true_iff). exists e. split; [done|]. apply list_elem_of_filter.
    apply negb_true_iff, bool_decide_eq_false in Ht. done.
Qed.

Lemma NoDup_fmap_filter {A B} (f : A -> B) (P : A -> Prop) `{!forall x, Decision (P x)} l :
  NoDup (f <$> l) -> NoDup (f <$> filter P l).
Proof.
  induction l as [|x l IH]; [done|]. rewrite fmap_cons. intros [Hx Hl]%NoDup_cons.
  destruct (decide (P x)); [rewrite filter_cons_True by done|rewrite filter_cons_False by done; auto].
  rewrite fmap_cons. constructor; [|auto]. intros (y & E & [_ Hy]%list_elem_of_filter)%list_elem_of_fmap.
  apply Hx. rewrite E. by apply list_elem_of_fmap_2.
Qed.

Lemma scan_keys_nodup db : db_ok db -> NoDup (scan_keys db).
Proof.
  intros Hdb. apply NoDup_fmap_filter. apply (nodup_buckets (buckets db) 0). apply Hdb.
Qed.

(** ** The file *)

Lemma residency_page_length p : page_ok p -> length (residency_page_to_bytes p) = RESIDENCY_PAGE_SIZE.
Proof.
  intros (_ & Hn & Hp). unfold residency_page_to_bytes. by rewrite (page_to_bytes_length (E := ResidencyEntry)).
Qed.

Lemma load_pages_saved hd ps tl :
  Forall page_ok ps ->
  load_pages (length ps) (length hd) (hd ++ concat (map residency_page_to_bytes ps) ++ tl) =
    (ps, length (hd ++ concat (map residency_page_to_bytes ps))).
Proof.
  intros Hps. revert hd. induction Hps as [|p ps Hp Hps IH]; intros hd; cbn [length load_pages map concat].
  - by rewrite app_nil_r.
  - pose proof (residency_page_length p Hp) as Lp.
    rewrite (proj2 (Nat.ltb_ge _ _)) by (rewrite !length_app, Lp; lia).
    specialize (IH (hd ++ residency_page_to_bytes p)). rewrite length_app, Lp, <- !app_assoc in IH.
    rewrite <- app_assoc, IH, drop_app_length. unfold residency_page_from_bytes, residency_page_to_bytes at 1.
    rewrite page_roundtrip by done. done.
Qed.

Definition bucket_bytes (bucket_id : nat) (pages : list ResidencyPage) : bytes :=
  match pages with
  | [] => []
  | _ => [wrap8 (Z.of_nat bucket_id)] ++ to_le_bytes 4 (wrap32 (Z.of_nat (length pages))) ++
         concat (map residency_page_to_bytes pages)
  end.

Definition buckets_bytes (i : nat) (bs : list (list ResidencyPage)) : bytes :=
  concat (imap (fun j ps => bucket_bytes (i + j) ps) bs).

Lemma buckets_bytes_cons i ps bs : buckets_bytes i (ps :: bs) = bucket_bytes i ps ++ buckets_bytes (S i) bs.
Proof.
  unfold buckets_bytes. rewrite imap_cons. cbn [concat]. rewrite Nat.add_0_r. f_equal. f_equal.
  apply imap_ext. intros j x _. simpl. f_equal. lia.
Qed.

Lemma db_to_bytes_eq db : db_to_bytes db = buckets_bytes 0 (buckets db).
Proof. unfold db_to_bytes, buckets_bytes. f_equal. Qed.

(** One bucket of the loop of [load]. *)
Lemma load_loop_step fuel hd i ps tl bs :
  ps <> [] -> Forall page_ok ps -> (i < 16)%nat -> Z.of_nat (length ps) < 2 ^ 32 ->
  load_loop (S fuel) (length hd) (hd ++ bucket_bytes i ps ++ tl) bs =
  load_loop fuel (length (hd ++ bucket_bytes i ps)) (hd ++ bucket_bytes i ps ++ tl) (alter (fun old => old ++ ps) i bs).
Proof.
  intros Hne Hps Hi Hlen. assert (bucket_bytes i ps = Z.of_nat i :: to_le_bytes 4 (Z.of_nat (length ps)) ++
    concat (map residency_page_to_bytes ps)) as ->.
  { destruct ps as [|p ps]; [done|]. unfold bucket_bytes, wrap8, wrap32, wrap.
    rewrite !Z.mod_small by (split; [lia|]; change (2 ^ 8) with 256; lia). done. }
  set (img := hd ++ _ ++ tl).
  assert (img = (hd ++ Z.of_nat i :: to_le_bytes 4 (Z.of_nat (length ps))) ++ concat (map residency_page_to_bytes ps) ++ tl) as Eimg.
  { unfold img. by rewrite <- !app_assoc, <- app_comm_cons, <- app_assoc. }
  assert (length (hd ++ Z.of_nat i :: to_le_bytes 4 (Z.of_nat (length ps))) = (length hd + 5)%nat) as L5.
  { rewrite length_app. cbn [length]. rewrite length_to_le_bytes. lia. }
  assert (nth (length hd) img 0 = Z.of_nat i) as En.
  { unfold img. by rewrite app_nth2, Nat.sub_diag by lia. }
  assert (from_le_bytes (slice (length hd + 1) (length hd + 5) img) = Z.of_nat (length ps)) as Es.
  { unfold img. rewrite slice_app_r by lia.
    replace (length hd + 1 - length hd)%nat with 1%nat by lia. replace (length hd + 5 - length hd)%nat with 5%nat by lia.
    unfold slice. cbn [drop Nat.sub app]. rewrite drop_0, <- app_assoc, take_app_le, take_ge by (rewrite length_to_le_bytes; lia).
    apply (le_roundtrip 4 32); [done|]. unfold in_u. lia. }
  cbn [load_loop]. rewrite En, Es, Nat2Z.id.
  rewrite (proj2 (Nat.leb_le _ _)) by (rewrite Eimg, length_app, L5; lia).
  rewrite Nat2Z.id, (proj2 (Nat.leb_gt _ _)) by (unfold RESIDENCY_BUCKET_COUNT; lia).
  rewrite Eimg, <- L5, load_pages_saved by done. do 2 f_equal.
  by rewrite <- !app_assoc, <- app_comm_cons.
Qed.

(** The loop runs once per bucket that has pages. *)
Fixpoint nonempty (bs : list (list ResidencyPage)) : nat :=
  match bs with [] => 0 | [] :: bs => nonempty bs | _ :: bs => S (nonempty bs) end.

Lemma nonempty_bytes i bs : (nonempty bs <= length (buckets_bytes i bs))%nat.
Proof.
  revert i. induction bs as [|ps bs IH]; intros i; [done|]. rewrite buckets_bytes_cons, length_app.
  specialize (IH (S i)). destruct ps as [|p ps]; cbn [nonempty]; [lia|]. unfold bucket_bytes.
  rewrite length_app. cbn [length]. lia.
Qed.

Lemma load_loop_saved fuel hd i bs pre :
  (forall j ps, bs !! j = Some ps -> Forall page_ok ps /\ Z.of_nat (length ps) < 2 ^ 32) ->
  (i + length bs <= 16)%nat -> length pre = i -> (nonempty bs < fuel)%nat ->
  load_loop fuel (length hd) (hd ++ buckets_bytes i bs) (pre ++ replicate (length bs) []) = pre ++ bs.
Proof.
  revert fuel hd i pre. induction bs as [|ps bs IH]; intros fuel hd i pre Hok Hi Hpre Hf.
  - destruct fuel as [|fuel]; [simpl in Hf; lia|]. cbn [load_loop length].
    rewrite length_app. cbn. by rewrite Nat.add_0_r, (proj2 (Nat.leb_gt _ _)) by lia.
  - rewrite buckets_bytes_cons. cbn [length] in *. destruct (Hok 0%nat ps eq_refl) as [Hps Hlen].
    assert (IH' : forall fuel, (nonempty bs < fuel)%nat ->
      load_loop fuel (length (hd ++ bucket_bytes i ps)) (hd ++ bucket_bytes i ps ++ buckets_bytes (S i) bs)
        (pre ++ ps :: replicate (length bs) []) = pre ++ ps :: bs).
    { intros fuel' Hf'. specialize (IH fuel' (hd ++ bucket_bytes i ps) (S i) (pre ++ [ps])).
      rewrite <- !app_assoc in IH. apply IH; [|lia|rewrite length_app; simpl; lia|done].
      intros j ps' Hj. by apply (Hok (S j)). }
    destruct ps as [|p ps0].
    + specialize (IH' fuel Hf). cbn [bucket_bytes app] in IH'. by rewrite app_nil_r in IH'.
    + cbn [nonempty] in Hf. destruct fuel as [|fuel]; [lia|].
      rewrite load_loop_step by (done || lia). rewrite <- (IH' fuel) by lia. f_equal.
      rewrite alter_app_r_alt by lia. by rewrite Hpre, Nat.sub_diag.
Qed.

Definition savable (db : ResidencyDb) : Prop :=
  Forall (fun ps : list ResidencyPage => Z.of_nat (length ps) < 2 ^ 32) (buckets db).

Lemma load_saved_buckets db :
  db_ok db -> savable db -> buckets (db_from_bytes (db_to_bytes db)) = buckets db.
Proof.
  intros Hdb Hs. unfold db_from_bytes. cbn [rebuild_hash_index buckets]. rewrite db_to_bytes_eq.
  cbn [db_new buckets]. rewrite <- (db_len db Hdb).
  apply (load_loop_saved _ [] 0 (buckets db) []); [|rewrite (db_len db Hdb); done|done|].
  - intros j ps Hj. split; [apply (bk_pages _ _ (db_buckets db Hdb j ps Hj))|by apply (Forall_lookup_1 _ _ _ _ Hs Hj)].
  - pose proof (nonempty_bytes 0 (buckets db)). lia.
Qed.

Lemma load_saved_ok db :
  db_ok db -> savable db ->
  let db2 := db_from_bytes (db_to_bytes db) in
  buckets db2 = buckets db /\ db_ok db2 /\ forall k, is_resident db2 k = is_resident db k.
Proof.
  intros Hdb Hs. cbv zeta. pose proof (load_saved_buckets db Hdb Hs) as E.
  assert (db_ok (db_from_bytes (db_to_bytes db))) as Hok.
  { unfold db_from_bytes in *. cbn [rebuild_hash_index buckets] in E.
    apply rebuild_index_ok; cbn [buckets]; rewrite E; apply Hdb. }
  split_and!; [done|done|]. intros k. apply eq_true_iff_eq.
  rewrite !is_resident_entries by done. unfold all_entries. by rewrite E.
Qed.

Lemma delete_keys_spec ks db :
  db_ok db -> Forall (is_array 16) ks ->
  db_ok (delete_keys ks db) /\
  forall k, is_resident (delete_keys ks db) k = is_resident db k && negb (bool_decide (k ∈ ks)).
Proof.
  intros Hdb Hks. unfold delete_keys. destruct (_ <? _).
  - split; [by apply batch_delete_ok|]. intros k. by apply batch_delete_resident.
  - split; [by apply (sequential_delete_resident ks db [])|]. intros k. by apply sequential_delete_resident.
Qed.

Lemma db_new_ok : db_ok db_new.
Proof.
  constructor; [done| |].
  - intros i ps [-> _]%lookup_replicate. constructor; [constructor|by intros e ?%elem_of_nil|constructor].
  - intros e He. exfalso. vm_compute in He. by apply elem_of_nil in He.
Qed.

(** ** Theorems *)

(** An entry built by [ResidencyEntry::new] survives its 40-byte encoding,
    including negative span fields, and its guard validates and is not zero. *)
Theorem residency_entry_roundtrip k s t :
  is_array 16 k -> span_ok s ->
  let e := new k s t in
  from_bytes (to_bytes e) = e /\ validate_hash_guard (from_bytes (to_bytes e)) = true /\
  length (to_bytes e) = RESIDENCY_ENTRY_SIZE /\ from_le_bytes (take 4 (to_bytes e)) <> 0.
Proof.
  intros Hk Hs. destruct (residency_new_fits k s t Hk Hs) as [Hf Hv]. cbv zeta.
  destruct (residency_entry_codec _ Hf) as (HL & _ & HR & HG). rewrite HR, HG. split_and!; [done..|apply Hf].
Qed.

#[global] Instance span_ok_dec s : Decision (span_ok s).
Proof. unfold span_ok, i32. apply _. Defined.

Lemma residency_entry_roundtrip_witness :
  let e := new (replicate 16 7) (span_range (-5) 100) MarkNonResident in
  from_bytes (to_bytes e) = e /\ validate_hash_guard (from_bytes (to_bytes e)) = true /\
  length (to_bytes e) = RESIDENCY_ENTRY_SIZE /\ from_le_bytes (take 4 (to_bytes e)) <> 0.
Proof. apply residency_entry_roundtrip; decide_now. Defined.

(** The finalizer loses nothing: it is invertible on 64-bit words, so two keys
    share a slot of the hash index exactly if their first eight bytes are equal. *)
Theorem key_hash_collisions k1 k2 :
  is_array 16 k1 -> is_array 16 k2 -> key_hash k1 = key_hash k2 <-> take 8 k1 = take 8 k2.
Proof.
  intros [L1 B1] [L2 B2]. split; [|by intros E; unfold key_hash; rewrite E]. intros E.
  assert (forall k, length k = 16%nat -> is_bytes k -> is_array 8 (take 8 k)) as Ha.
  { intros k L B. split; [rewrite length_take; lia|by apply is_bytes_take]. }
  apply (f_equal unfinalize) in E. unfold key_hash in E.
  rewrite !unfinalize_murmur in E by (apply (from_le_bytes_in_u 8); auto).
  pose proof (to_from_le_bytes _ (proj2 (Ha k1 L1 B1))) as T1. pose proof (to_from_le_bytes _ (proj2 (Ha k2 L2 B2))) as T2.
  rewrite (proj1 (Ha k1 L1 B1)) in T1. rewrite (proj1 (Ha k2 L2 B2)) in T2. congruence.
Qed.

Lemma key_hash_collisions_witness :
  key_hash (replicate 16 7) = key_hash (replicate 8 7 ++ replicate 8 9) <->
  take 8 (replicate 16 7) = take 8 (replicate 8 7 ++ replicate 8 9).
Proof. apply key_hash_collisions; decide_now. Defined.

(** C32: the database is a set of resident keys.  Marking a key resident adds it,
    marking it or a span of it non-resident removes it, no other key is affected,
    and [is_resident] answers membership, through the hash index and the bucket
    scan. *)
Theorem residency_marks db k off len :
  db_ok db -> is_array 16 k -> i32 off -> i32 len ->
  let r := mark_resident k db in
  let n := mark_non_resident k db in
  let s := mark_span_non_resident k off len db in
  db_ok r /\ db_ok n /\ db_ok s /\
  forall k', is_resident r k' = (if bool_decide (k' = k) then true else is_resident db k') /\
    is_resident n k' = (if bool_decide (k' = k) then false else is_resident db k') /\
    is_resident s k' = (if bool_decide (k' = k) then false else is_resident db k').
Proof.
  intros Hdb Hk Ho Hl. pose proof span_full_ok as Hf.
  assert (span_ok (span_range off len)) as Hs by (split_and!; try done).
  destruct (mark_ok k span_full Set_ db Hdb Hk Hf) as [H1 R1].
  destruct (mark_ok k span_full Delete db Hdb Hk Hf) as [H2 R2].
  destruct (mark_ok k (span_range off len) MarkNonResident db Hdb Hk Hs) as [H3 R3].
  cbv zeta. split_and!; [done..|]. intros k'.
  exact (conj (R1 k') (conj (R2 k') (R3 k'))).
Qed.

Lemma residency_marks_witness :
  let r := mark_resident (replicate 16 7) db_new in
  let n := mark_non_resident (replicate 16 7) db_new in
  let s := mark_span_non_resident (replicate 16 7) 1 2 db_new in
  db_ok r /\ db_ok n /\ db_ok s /\
  forall k', is_resident r k' = (if bool_decide (k' = replicate 16 7) then true else is_resident db_new k') /\
    is_resident n k' = (if bool_decide (k' = replicate 16 7) then false else is_resident db_new k') /\
    is_resident s k' = (if bool_decide (k' = replicate 16 7) then false else is_resident db_new k').
Proof. apply residency_marks; [apply db_new_ok|decide_now|unfold i32; lia|unfold i32; lia]. Defined.

(** [delete_keys] removes exactly the given keys, on the one-by-one path and
    on the batch path alike. *)
Theorem delete_keys_removes ks db :
  db_ok db -> Forall (is_array 16) ks ->
  let db' := delete_keys ks db in
  db_ok db' /\ forall k, is_resident db' k = is_resident db k && negb (bool_decide (k ∈ ks)).
Proof. apply delete_keys_spec. Qed.

Lemma delete_keys_removes_witness :
  let db := mark_resident (replicate 16 7) db_new in
  let db' := delete_keys [replicate 16 7] db in
  db_ok db' /\ forall k, is_resident db' k = is_resident db k && negb (bool_decide (k ∈ [replicate 16 7])).
Proof.
  apply delete_keys_removes; [|apply Forall_cons_2; [decide_now|constructor]].
  apply (mark_ok (replicate 16 7) span_full Set_ db_new); [apply db_new_ok|decide_now|apply span_full_ok].
Defined.

(** [scan_keys] lists every resident key, once. *)
Theorem scan_keys_complete db :
  db_ok db -> NoDup (scan_keys db) /\ forall k, k ∈ scan_keys db <-> is_resident db k = true.
Proof. intros Hdb. split; [by apply scan_keys_nodup|]. intros k. by apply scan_keys_elem. Qed.

Lemma scan_keys_complete_witness :
  NoDup (scan_keys db_new) /\ forall k, k ∈ scan_keys db_new <-> is_resident db_new k = true.
Proof. apply scan_keys_complete, db_new_ok. Defined.

(** Saving a modified database and loading the file gives back the same
    pages, a complete hash index, and the same answer for every key; a failed
    save leaves the file as it was and the database dirty. *)
Theorem residency_save_load db write_ok rename_ok file :
  db_ok db -> savable db -> dirty db = true ->
  match save write_ok rename_ok db file with
  | (Ok _, db', file') =>
      dirty db' = false /\
      exists db2, load true file' = Ok db2 /\ buckets db2 = buckets db /\ db_ok db2 /\
        forall k, is_resident db2 k = is_resident db k
  | (Err _, db', file') => db' = db /\ file' = file
  end.
Proof.
  intros Hdb Hs Hd. unfold save. rewrite Hd. destruct write_ok; [|done]. destruct rename_ok; [|done].
  split; [done|]. destruct (load_saved_ok db Hdb Hs) as (E & Hok & Hr). eexists. done.
Qed.

Lemma residency_save_load_witness :
  match save true true (mark_resident (replicate 16 7) db_new) None with
  | (Ok _, db', file') =>
      dirty db' = false /\
      exists db2, load true file' = Ok db2 /\ buckets db2 = buckets (mark_resident (replicate 16 7) db_new) /\ db_ok db2 /\
        forall k, is_resident db2 k = is_resident (mark_resident (replicate 16 7) db_new) k
  | (Err _, db', file') => db' = mark_resident (replicate 16 7) db_new /\ file' = None
  end.
Proof.
  apply residency_save_load; [|decide_now|done].
  apply (mark_ok (replicate 16 7) span_full Set_ db_new); [apply db_new_ok|decide_now|apply span_full_ok].
Defined.

(** [batch_delete] changes the type of an entry but not its guard: the entry
    it leaves no longer validates. *)
Theorem batch_delete_breaks_guard :
  exists e, e ∈ all_entries (batch_delete [replicate 16 7] (mark_resident (replicate 16 7) db_new)) /\
    validate_hash_guard e = false.
Proof.
  eexists. split; [|shelve]. vm_compute. left. Unshelve. by vm_compute.
Qed.
