(* ===== verification/KmtFile.v ===== *)
(** * The KMT V8 file: crates/cascette-client-storage/src/kmt/kmt_file.rs

    A bucket of key locations as a file: an outer header with a Jenkins hash of
    the inner data, an inner header, a sorted section of 32-byte entries, and
    update pages of 25 guarded entries at the next 4096 byte boundary.  The page
    codec is the one of [Pages]. *)

From S2P Require Import Prelude Bytes Jenkins Collections Pages.
Local Open Scope Z_scope.

Module Kmt.

Definition OUTER_HEADER_SIZE : nat := 8.
Definition INNER_HEADER_SIZE : nat := 16.
Definition SORTED_ENTRY_SIZE : nat := 32.
Definition UPDATE_ENTRY_SIZE : nat := 40.
Definition UPDATE_PAGE_SIZE : nat := 1024.
Definition ENTRIES_PER_PAGE : nat := (UPDATE_PAGE_SIZE / UPDATE_ENTRY_SIZE)%nat.
Definition INNER_ALIGNMENT : Z := 16.
Definition UPDATE_ALIGNMENT : Z := 4096.

(** [(value + alignment - 1) & !(alignment - 1)]. *)
Definition align_up (value alignment : Z) : Z := Z.ldiff (value + alignment - 1) (alignment - 1).

(** ** Headers *)

Record OuterHeader := { data_length : Z; hash : Z }.

Definition outer_parse (data : bytes) : result StorageError OuterHeader :=
  if (length data <? OUTER_HEADER_SIZE)%nat then Err (InvalidFormat "KMT V8 outer header: buffer too small")
  else Ok {| data_length := from_le_bytes (slice 0 4 data); hash := from_le_bytes (slice 4 8 data) |}.

Definition outer_to_bytes (h : OuterHeader) : bytes :=
  copy_at 4 (to_le_bytes 4 (hash h)) (copy_at 0 (to_le_bytes 4 (data_length h)) (zeros OUTER_HEADER_SIZE)).

Record InnerHeader := {
  revision : Z;
  bucket_index : Z;
  flags : Z;
  key_size : Z;
  hash_size : Z;
  content_key_size : Z;
  padding : Z;
  etag_data : Z;
}.

Definition inner_parse (data : bytes) : result StorageError InnerHeader :=
  if (length data <? INNER_HEADER_SIZE)%nat then Err (InvalidFormat "KMT V8 inner header: buffer too small")
  else
    let revision := from_le_bytes (slice 0 2 data) in
    if revision <? 8 then Err (InvalidFormat "KMT V8 inner header: revision < 8")
    else if negb (nth 4 data 0 =? 8) then Err (InvalidFormat "KMT V8 inner header: key_size != 8")
    else if negb (nth 5 data 0 =? 8) then Err (InvalidFormat "KMT V8 inner header: hash_size != 8")
    else if negb (nth 6 data 0 =? 16) then Err (InvalidFormat "KMT V8 inner header: content_key_size != 0x10")
    else Ok {| revision := revision; bucket_index := nth 2 data 0; flags := nth 3 data 0;
               key_size := nth 4 data 0; hash_size := nth 5 data 0; content_key_size := nth 6 data 0;
               padding := nth 7 data 0; etag_data := from_le_bytes (slice 8 16 data) |}.

Definition inner_to_bytes (h : InnerHeader) : bytes :=
  let buf := zeros INNER_HEADER_SIZE in
  let buf := copy_at 0 (to_le_bytes 2 (revision h)) buf in
  let buf := copy_at 2 [bucket_index h] buf in
  let buf := copy_at 3 [flags h] buf in
  let buf := copy_at 4 [key_size h] buf in
  let buf := copy_at 5 [hash_size h] buf in
  let buf := copy_at 6 [content_key_size h] buf in
  let buf := copy_at 7 [padding h] buf in
  copy_at 8 (to_le_bytes 8 (etag_data h)) buf.

(** ** Sorted entries *)

Record SortedEntry := {
  s_ekey : bytes;
  s_offset_low : Z;
  s_offset_high : Z;
  s_encoded_size : Z;
  s_decoded_size : Z;
}.

Definition sorted_new (ekey : bytes) (storage_offset encoded_size decoded_size : Z) : SortedEntry :=
  {| s_ekey := ekey; s_offset_low := wrap32 storage_offset; s_offset_high := wrap32 (Z.shiftr storage_offset 32);
     s_encoded_size := encoded_size; s_decoded_size := decoded_size |}.

Definition sorted_storage_offset (e : SortedEntry) : Z :=
  Z.lor (wrap64 (Z.shiftl (s_offset_high e) 32)) (s_offset_low e).

Definition sorted_parse (data : bytes) : result StorageError SortedEntry :=
  if (length data <? SORTED_ENTRY_SIZE)%nat then Err (InvalidFormat "KMT V8 sorted entry: buffer too small")
  else Ok
    {| s_ekey := slice 0 16 data;
       s_offset_low := from_le_bytes (slice 16 20 data);
       s_offset_high := from_le_bytes (slice 20 24 data);
       s_encoded_size := from_le_bytes (slice 24 28 data);
       s_decoded_size := from_le_bytes (slice 28 32 data) |}.

Definition sorted_to_bytes (e : SortedEntry) : bytes :=
  let buf := zeros SORTED_ENTRY_SIZE in
  let buf := copy_at 0 (s_ekey e) buf in
  let buf := copy_at 16 (to_le_bytes 4 (s_offset_low e)) buf in
  let buf := copy_at 20 (to_le_bytes 4 (s_offset_high e)) buf in
  let buf := copy_at 24 (to_le_bytes 4 (s_encoded_size e)) buf in
  copy_at 28 (to_le_bytes 4 (s_decoded_size e)) buf.

(** ** Update entries *)

Record UpdateEntry := {
  hash_guard : Z;
  u_ekey : bytes;
  u_offset_low : Z;
  u_offset_high : Z;
  u_encoded_size : Z;
  u_decoded_size : Z;
  status : Z;
  u_padding : bytes;
}.

Definition update_to_bytes (e : UpdateEntry) : bytes :=
  let buf := zeros UPDATE_ENTRY_SIZE in
  let buf := copy_at 0 (to_le_bytes 4 (hash_guard e)) buf in
  let buf := copy_at 4 (u_ekey e) buf in
  let buf := copy_at 20 (to_le_bytes 4 (u_offset_low e)) buf in
  let buf := copy_at 24 (to_le_bytes 4 (u_offset_high e)) buf in
  let buf := copy_at 28 (to_le_bytes 4 (u_encoded_size e)) buf in
  let buf := copy_at 32 (to_le_bytes 4 (u_decoded_size e)) buf in
  let buf := copy_at 36 [status e] buf in
  copy_at 37 (u_padding e) buf.

Definition update_fields (data : bytes) : UpdateEntry :=
  {| hash_guard := from_le_bytes (slice 0 4 data);
     u_ekey := slice 4 20 data;
     u_offset_low := from_le_bytes (slice 20 24 data);
     u_offset_high := from_le_bytes (slice 24 28 data);
     u_encoded_size := from_le_bytes (slice 28 32 data);
     u_decoded_size := from_le_bytes (slice 32 36 data);
     status := nth 36 data 0;
     u_padding := slice 37 40 data |}.

Definition update_parse (data : bytes) : result StorageError UpdateEntry :=
  if (length data <? UPDATE_ENTRY_SIZE)%nat then Err (InvalidFormat "KMT V8 update entry: buffer too small")
  else Ok (update_fields data).

(** The [pc] of [hashlittle2(.., pc = 0, pb = 0)], which never panics. *)
Definition hashlittle2_pc (data : bytes) : Z :=
  match Jenkins.hashlittle2 data 0 0 with Ret (pc, _) => pc | Panic => 0 end.

Definition compute_hash_guard (entry_bytes : bytes) : Z :=
  Z.lor (hashlittle2_pc (slice 4 37 entry_bytes)) 0x80000000.

Definition with_guard (g : Z) (e : UpdateEntry) : UpdateEntry :=
  {| hash_guard := g; u_ekey := u_ekey e; u_offset_low := u_offset_low e; u_offset_high := u_offset_high e;
     u_encoded_size := u_encoded_size e; u_decoded_size := u_decoded_size e; status := status e;
     u_padding := u_padding e |}.

Definition update_new (ekey : bytes) (storage_offset encoded_size decoded_size status : Z) : UpdateEntry :=
  let entry :=
    {| hash_guard := 0; u_ekey := ekey; u_offset_low := wrap32 storage_offset;
       u_offset_high := wrap32 (Z.shiftr storage_offset 32); u_encoded_size := encoded_size;
       u_decoded_size := decoded_size; status := status; u_padding := zeros 3 |} in
  with_guard (compute_hash_guard (update_to_bytes entry)) entry.

Definition update_storage_offset (e : UpdateEntry) : Z :=
  Z.lor (wrap64 (Z.shiftl (u_offset_high e) 32)) (u_offset_low e).

Definition validate_hash_guard (e : UpdateEntry) : bool := hash_guard e =? compute_hash_guard (update_to_bytes e).

Definition is_valid (e : UpdateEntry) : bool := negb (Z.land (hash_guard e) 0x80000000 =? 0).

(** ** Pages *)

Abbreviation UpdatePage := (list UpdateEntry).

(** A guarded entry whose fields fit their on-disk width. *)
Definition update_fits (e : UpdateEntry) : Prop :=
  u32 (hash_guard e) /\ hash_guard e <> 0 /\ is_array 16 (u_ekey e) /\ u32 (u_offset_low e) /\ u32 (u_offset_high e) /\
  u32 (u_encoded_size e) /\ u32 (u_decoded_size e) /\ u8 (status e) /\ is_array 3 (u_padding e).

#[global] Instance kmt_page_entry : PageEntry UpdateEntry := {|
  entry_size := UPDATE_ENTRY_SIZE;
  page_size := UPDATE_PAGE_SIZE;
  enc := update_to_bytes;
  dec := update_fields;
  entry_ok := update_fits;
|}.

Definition page_push (p : UpdatePage) (e : UpdateEntry) : bool * UpdatePage :=
  if (ENTRIES_PER_PAGE <=? length p)%nat then (false, p) else (true, p ++ [e]).

Definition kmt_page_from_bytes (data : bytes) : option UpdatePage := page_from_bytes data.
Definition kmt_page_to_bytes (p : UpdatePage) : bytes := page_to_bytes p.

(** ** The file *)

Record KmtFile := {
  outer_header : OuterHeader;
  inner_header : InnerHeader;
  sorted_entries : list SortedEntry;
  update_pages : list UpdatePage;
}.

(** [for i in 0..sorted_count { sorted_entries.push(parse(..)?) }] *)
Fixpoint parse_sorted (n : nat) (sorted_data : bytes) : result StorageError (list SortedEntry) :=
  match n with
  | O => Ok []
  | S n =>
      e ← sorted_parse (take SORTED_ENTRY_SIZE sorted_data);
      es ← parse_sorted n (drop SORTED_ENTRY_SIZE sorted_data);
      Ok (e :: es)
  end.

(** The loop over update pages; empty pages are skipped. *)
Fixpoint parse_pages (fuel offset : nat) (data : bytes) : list UpdatePage :=
  match fuel with
  | O => []
  | S fuel =>
      if (offset + UPDATE_PAGE_SIZE <=? length data)%nat then
        let rest := parse_pages fuel (offset + UPDATE_PAGE_SIZE) data in
        match kmt_page_from_bytes (drop offset data) with Some p => p :: rest | None => rest end
      else []
  end.

Definition INNER_START : nat := Z.to_nat (align_up (Z.of_nat OUTER_HEADER_SIZE) INNER_ALIGNMENT).

Definition update_start_of (inner_end : nat) : nat := Z.to_nat (align_up (Z.of_nat inner_end) UPDATE_ALIGNMENT).

Definition parse (data : bytes) : result StorageError KmtFile :=
  if (length data <? OUTER_HEADER_SIZE)%nat then Err (InvalidFormat "KMT V8: file too small for outer header")
  else
    outer_header ← outer_parse data;
    let inner_end := (INNER_START + Z.to_nat (data_length outer_header))%nat in
    if (length data <? inner_end)%nat then Err (InvalidFormat "KMT V8: inner data extends past EOF")
    else
      let inner_data := slice INNER_START inner_end data in
      if negb (Jenkins.jenkins inner_data 0 =? hash outer_header) then Err (InvalidFormat "KMT V8: hash mismatch")
      else
        inner_header ← inner_parse inner_data;
        let sorted_data := drop INNER_HEADER_SIZE inner_data in
        sorted_entries ← parse_sorted (length sorted_data / SORTED_ENTRY_SIZE)%nat sorted_data;
        let update_start := update_start_of inner_end in
        let update_pages :=
          if (update_start <? length data)%nat
          then parse_pages (S (length data / UPDATE_PAGE_SIZE)) update_start data else [] in
        Ok {| outer_header := outer_header; inner_header := inner_header; sorted_entries := sorted_entries;
              update_pages := update_pages |}.

Definition inner_data_of (f : KmtFile) : bytes :=
  inner_to_bytes (inner_header f) ++ concat (map sorted_to_bytes (sorted_entries f)).

Definition to_bytes (f : KmtFile) : bytes :=
  let inner_data := inner_data_of f in
  let hash := Jenkins.jenkins inner_data 0 in
  let outer_header := {| data_length := wrap32 (Z.of_nat (length inner_data)); hash := hash |} in
  let inner_end := (INNER_START + length inner_data)%nat in
  let update_start := update_start_of inner_end in
  let total_size := (update_start + length (update_pages f) * UPDATE_PAGE_SIZE)%nat in
  let out := zeros total_size in
  let out := copy_at 0 (outer_to_bytes outer_header) out in
  let out := copy_at INNER_START inner_data out in
  fold_left (fun out '(i, page) => copy_at (update_start + i * UPDATE_PAGE_SIZE) (kmt_page_to_bytes page) out)
    (imap pair (update_pages f)) out.

Notation find_entry := (find_by u_ekey).

(** Pages newest first, the entries of a page in their order. *)
Fixpoint find_pages (k : bytes) (ps : list UpdatePage) : option UpdateEntry :=
  match ps with
  | [] => None
  | p :: ps => match find_entry k p with Some e => Some e | None => find_pages k ps end
  end.

Definition lookup (f : KmtFile) (k : bytes) : option SortedEntry :=
  match find_pages k (reverse (update_pages f)) with
  | Some e => Some (sorted_new (u_ekey e) (update_storage_offset e) (u_encoded_size e) (u_decoded_size e))
  | None => search s_ekey (sorted_entries f) k
  end.

Definition entry_count (f : KmtFile) : nat :=
  (length (sorted_entries f) + sum_list (length <$> update_pages f))%nat.

End Kmt.
