(* ===== verification/KmtTheorems.v ===== *)
(** * Correctness of the KMT V8 file

    The codecs, the round trip of a file, what its parser checks, and the order
    in which a lookup searches. *)

From S2P Require Import Prelude Bytes Jenkins Collections Pages IndexFile IndexImage KmtFile.
Import Kmt.
Local Open Scope Z_scope.

(** ** Headers *)

Lemma outer_codec h tl :
  u32 (data_length h) -> u32 (hash h) ->
  length (outer_to_bytes h) = 8%nat /\ outer_parse (outer_to_bytes h ++ tl) = Ok h.
Proof.
  destruct h as [n g]. cbn [data_length hash]. intros Hn Hg. unfold outer_to_bytes, OUTER_HEADER_SIZE. cbn [data_length hash].
  abs_ints. layout. split; [done|]. unfold outer_parse, OUTER_HEADER_SIZE. cbn [length app Nat.ltb Nat.leb].
  unfold slice. cbn [take drop Nat.sub app]. rewrite ?drop_0, ?take_0.
  repeat match goal with E : from_le_bytes _ = _ |- _ => rewrite E; clear E end. done.
Qed.

Definition inner_ok (h : InnerHeader) : Prop :=
  u16 (revision h) /\ 8 <= revision h /\ u8 (bucket_index h) /\ u8 (flags h) /\ key_size h = 8 /\ hash_size h = 8 /\
  content_key_size h = 16 /\ u8 (padding h) /\ u64 (etag_data h).

Lemma inner_codec h tl :
  inner_ok h -> length (inner_to_bytes h) = 16%nat /\ inner_parse (inner_to_bytes h ++ tl) = Ok h.
Proof.
  destruct h as [r b f k s c p e]. intros (Hr & Hr8 & _ & _ & Hk & Hs & Hc & _ & He).
  cbn [revision key_size hash_size content_key_size etag_data] in *. subst k s c.
  unfold inner_to_bytes, INNER_HEADER_SIZE.
  cbn [revision bucket_index flags key_size hash_size content_key_size padding etag_data].
  abs_ints. layout. split; [done|]. unfold inner_parse, INNER_HEADER_SIZE. cbn [length app Nat.ltb Nat.leb nth].
  unfold slice. cbn [take drop Nat.sub app]. rewrite ?drop_0, ?take_0.
  repeat match goal with E : from_le_bytes _ = _ |- _ => rewrite E; clear E end.
  by rewrite (proj2 (Z.ltb_ge _ _)) by lia.
Qed.

(** ** Entries *)

Definition sorted_fits (e : SortedEntry) : Prop :=
  is_array 16 (s_ekey e) /\ u32 (s_offset_low e) /\ u32 (s_offset_high e) /\ u32 (s_encoded_size e) /\
  u32 (s_decoded_size e).

#[global] Instance sorted_fits_dec e : Decision (sorted_fits e).
Proof. unfold sorted_fits. apply _. Defined.
#[global] Instance update_fits_dec e : Decision (update_fits e).
Proof. unfold update_fits. apply _. Defined.
#[global] Instance inner_ok_dec h : Decision (inner_ok h).
Proof. unfold inner_ok. apply _. Defined.

Lemma sorted_codec e :
  sorted_fits e -> length (sorted_to_bytes e) = SORTED_ENTRY_SIZE /\ sorted_parse (sorted_to_bytes e) = Ok e.
Proof.
  destruct e as [k l h es ds]. intros (Hk & Hl & Hh & He & Hd).
  cbn [s_ekey s_offset_low s_offset_high s_encoded_size s_decoded_size] in *.
  unfold sorted_to_bytes, SORTED_ENTRY_SIZE. cbn [s_ekey s_offset_low s_offset_high s_encoded_size s_decoded_size].
  abs_ints. explode_array Hk. layout. split; [done|]. unfold sorted_parse, SORTED_ENTRY_SIZE. layout. cbn [Nat.ltb Nat.leb].
  repeat match goal with E : from_le_bytes _ = _ |- _ => rewrite E; clear E end. done.
Qed.

Lemma update_codec e :
  update_fits e ->
  length (update_to_bytes e) = UPDATE_ENTRY_SIZE /\ is_bytes (update_to_bytes e) /\
  update_fields (update_to_bytes e) = e /\ from_le_bytes (take 4 (update_to_bytes e)) = hash_guard e.
Proof.
  destruct e as [g k l h es ds st p]. intros (Hg & _ & Hk & Hl & Hh & He & Hd & Hst & Hp).
  cbn [hash_guard u_ekey u_offset_low u_offset_high u_encoded_size u_decoded_size status u_padding] in *.
  unfold update_to_bytes, UPDATE_ENTRY_SIZE.
  cbn [hash_guard u_ekey u_offset_low u_offset_high u_encoded_size u_decoded_size status u_padding].
  abs_ints. explode_array Hk. explode_array Hp. unfold update_fields. layout. split_and!; [done| | |done].
  - unfold is_bytes in *. decompose_Forall; done.
  - repeat match goal with E : from_le_bytes _ = _ |- _ => rewrite E; clear E end. done.
Qed.

#[global] Instance kmt_page_laws : PageEntryLaws UpdateEntry.
Proof.
  constructor.
  - simpl. unfold UPDATE_ENTRY_SIZE, UPDATE_PAGE_SIZE. lia.
  - intros e He. apply (update_codec e He).
  - intros e He. apply (update_codec e He).
  - intros e He. apply (update_codec e He).
  - intros e He. cbn [enc kmt_page_entry]. destruct (update_codec e He) as (_ & _ & _ & ->). apply He.
Qed.

(** The two halves of a 64-bit offset. *)
Lemma split_offset o :
  u64 o -> u32 (wrap32 o) /\ u32 (wrap32 (Z.shiftr o 32)) /\
  Z.lor (wrap64 (Z.shiftl (wrap32 (Z.shiftr o 32)) 32)) (wrap32 o) = o.
Proof.
  intros Ho. unfold in_u in Ho. split_and!; try (apply wrap_range; lia).
  assert (wrap32 (Z.shiftr o 32) = o / 2 ^ 32) as ->.
  { rewrite Z.shiftr_div_pow2 by lia. apply wrap_small. split; [apply Z.div_pos; lia|apply Z.div_lt_upper_bound; lia]. }
  rewrite Z.shiftl_mul_pow2 by lia. unfold wrap64. rewrite wrap_small.
  2: { pose proof (Z.div_mod o (2 ^ 32)). pose proof (Z.mod_pos_bound o (2 ^ 32)). unfold in_u.
       split; [apply Z.mul_nonneg_nonneg; [apply Z.div_pos; lia|lia]|lia]. }
  rewrite <- Z.shiftl_mul_pow2 by lia. rewrite lor_shiftl_add by (lia || apply wrap_range; lia).
  unfold wrap32, wrap. pose proof (Z.div_mod o (2 ^ 32)). lia.
Qed.

Lemma hashlittle2_pc_range d : u32 (hashlittle2_pc d).
Proof. unfold hashlittle2_pc. by destruct (hashlittle2_ret d 0 0) as (pc & pb & -> & H). Qed.


Lemma kmt_guard_slice g e :
  length (u_ekey e) = 16%nat -> length (u_padding e) = 3%nat ->
  slice 4 37 (update_to_bytes (with_guard g e)) = slice 4 37 (update_to_bytes e).
Proof.
  destruct e as [g0 k l h es ds st p]. cbn [u_ekey u_padding]. intros Hk Hp.
  unfold with_guard, update_to_bytes, UPDATE_ENTRY_SIZE.
  cbn [hash_guard u_ekey u_offset_low u_offset_high u_encoded_size u_decoded_size status u_padding].
  pose proof (length_to_le_bytes 4 g) as L1. pose proof (length_to_le_bytes 4 g0) as L2.
  pose proof (length_to_le_bytes 4 l) as L3. pose proof (length_to_le_bytes 4 h) as L4.
  pose proof (length_to_le_bytes 4 es) as L5. pose proof (length_to_le_bytes 4 ds) as L6.
  generalize dependent (to_le_bytes 4 g). generalize dependent (to_le_bytes 4 g0).
  generalize dependent (to_le_bytes 4 l). generalize dependent (to_le_bytes 4 h).
  generalize dependent (to_le_bytes 4 es). generalize dependent (to_le_bytes 4 ds).
  intros l6 H6 l5 H5 l4 H4 l3 H3 l2 H2 l1 H1. explode H1. explode H2. explode H3. explode H4. explode H5. explode H6.
  explode Hk. explode Hp. by layout.
Qed.

Lemma update_new_fits k o es ds st :
  is_array 16 k -> u64 o -> u32 es -> u32 ds -> u8 st ->
  update_fits (update_new k o es ds st) /\ validate_hash_guard (update_new k o es ds st) = true.
Proof.
  intros Hk Ho He Hd Hst. destruct (split_offset o Ho) as (H1 & H2 & _).
  assert (is_array 3 (zeros 3)) as Hp by decide_now. split.
  - match goal with |- update_fits (update_new _ _ _ _ _) =>
      pose proof (guard_high (hashlittle2_pc (slice 4 37 (update_to_bytes
        {| hash_guard := 0; u_ekey := k; u_offset_low := wrap32 o; u_offset_high := wrap32 (Z.shiftr o 32);
           u_encoded_size := es; u_decoded_size := ds; status := st; u_padding := zeros 3 |})))
        (hashlittle2_pc_range _)) as [G1 G2] end.
    exact (conj G1 (conj G2 (conj Hk (conj H1 (conj H2 (conj He (conj Hd (conj Hst Hp)))))))).
  - unfold validate_hash_guard, update_new, compute_hash_guard. rewrite kmt_guard_slice by (apply Hk || done).
    cbn [with_guard hash_guard]. apply Z.eqb_refl.
Qed.

(** ** The image of a file *)

Record kmt_ok (f : KmtFile) : Prop := {
  kmt_inner : inner_ok (inner_header f);
  kmt_sorted : Forall sorted_fits (sorted_entries f);
  kmt_pages : Forall page_ok (update_pages f);
  kmt_size : Z.of_nat (length (sorted_entries f)) * 32 + 16 < 2 ^ 32;
}.

Lemma sorted_blocks es : Forall sorted_fits es -> length (concat (map sorted_to_bytes es)) = (length es * 32)%nat.
Proof.
  intros H. rewrite (length_concat_blocks 32), length_map; [done|].
  apply Forall_map. eapply Forall_impl; [done|]. intros e He. apply (sorted_codec e He).
Qed.

Lemma inner_data_length f : kmt_ok f -> length (inner_data_of f) = (16 + length (sorted_entries f) * 32)%nat.
Proof.
  intros Hf. unfold inner_data_of. rewrite length_app, sorted_blocks by apply Hf.
  destruct (inner_codec (inner_header f) [] (kmt_inner f Hf)) as [-> _]. done.
Qed.

Definition outer_of (f : KmtFile) : OuterHeader :=
  {| data_length := wrap32 (Z.of_nat (length (inner_data_of f))); hash := Jenkins.jenkins (inner_data_of f) 0 |}.

Lemma copy_at_app hd a x buf :
  (a + length x <= length buf)%nat -> copy_at (length hd + a) x (hd ++ buf) = hd ++ copy_at a x buf.
Proof.
  intros H. unfold copy_at. rewrite take_app_add, <- app_assoc. do 2 f_equal.
  rewrite <- Nat.add_assoc, drop_app_add. done.
Qed.

Lemma kmt_page_length p : page_ok p -> length (kmt_page_to_bytes p) = UPDATE_PAGE_SIZE.
Proof.
  intros (_ & Hn & Hp). unfold kmt_page_to_bytes. by rewrite (page_to_bytes_length (E := UpdateEntry)).
Qed.

(** Writing the pages behind a prefix. *)
Lemma copy_pages hd ps :
  Forall page_ok ps ->
  fold_left (fun out '(i, page) => copy_at (length hd + i * UPDATE_PAGE_SIZE) (kmt_page_to_bytes page) out)
    (imap pair ps) (hd ++ zeros (length ps * UPDATE_PAGE_SIZE)) = hd ++ concat (map kmt_page_to_bytes ps).
Proof.
  intros Hps. assert (Forall (fun p : UpdatePage => length (kmt_page_to_bytes p) = UPDATE_PAGE_SIZE) ps) as Hl.
  { eapply Forall_impl; [done|]. intros p. apply kmt_page_length. }
  pose proof (copy_rows kmt_page_to_bytes UPDATE_PAGE_SIZE (length ps * UPDATE_PAGE_SIZE) ps Hl ltac:(lia)) as H.
  rewrite Nat.sub_diag in H. change (zeros 0) with (@nil Z) in H. rewrite app_nil_r in H. rewrite <- H. clear H.
  assert (Hlen : forall (qs : list (nat * UpdatePage)) buf,
    Forall (fun q => (fst q < length ps)%nat /\ length (kmt_page_to_bytes (snd q)) = UPDATE_PAGE_SIZE) qs ->
    length buf = (length ps * UPDATE_PAGE_SIZE)%nat ->
    fold_left (fun out '(i, page) => copy_at (length hd + i * UPDATE_PAGE_SIZE) (kmt_page_to_bytes page) out) qs (hd ++ buf) =
    hd ++ fold_left (fun out '(i, page) => copy_at (i * UPDATE_PAGE_SIZE) (kmt_page_to_bytes page) out) qs buf).
  { intros qs. induction qs as [|[i p] qs IH]; intros buf Hq Hb; [done|]. cbn [fold_left].
    apply Forall_cons in Hq as [[Hi Hp] Hq]. cbn [fst snd] in Hi, Hp.
    assert (i * UPDATE_PAGE_SIZE + length (kmt_page_to_bytes p) <= length buf)%nat as Hfit by nia.
    rewrite copy_at_app by done. apply IH; [done|]. by rewrite length_copy_at. }
  apply Hlen; [|by rewrite length_zeros]. apply Forall_lookup. intros i [j p] Hi.
  apply list_lookup_imap_Some in Hi as (p' & Hp' & E). injection E as -> ->. cbn [fst snd].
  split; [by eapply lookup_lt_Some|]. by apply (Forall_lookup_1 _ _ _ _ Hl Hp').
Qed.

Lemma align_start n :
  update_start_of n = (n + pad_to n (2 ^ 12))%nat.
Proof. unfold update_start_of. by apply (align_up_nat n 12). Qed.

Lemma to_bytes_shape f :
  kmt_ok f ->
  to_bytes f = outer_to_bytes (outer_of f) ++ zeros 8 ++ inner_data_of f ++
    zeros (pad_to (16 + length (inner_data_of f)) (2 ^ 12)) ++ concat (map kmt_page_to_bytes (update_pages f)).
Proof.
  intros Hf. unfold to_bytes. change INNER_START with 16%nat. fold (outer_of f).
  set (inner := inner_data_of f). set (pad := pad_to (16 + length inner) (2 ^ 12)).
  rewrite align_start. fold pad. set (np := length (update_pages f)).
  assert (length (outer_to_bytes (outer_of f)) = 8%nat) as Lo.
  { apply (outer_codec _ []); [apply wrap_range; lia|apply Jenkins.jenkins_range]. }
  assert (zeros (16 + length inner + pad + np * UPDATE_PAGE_SIZE) =
    zeros 8 ++ zeros 8 ++ zeros (length inner) ++ zeros pad ++ zeros (np * UPDATE_PAGE_SIZE)) as ->.
  { rewrite <- !zeros_add. f_equal. lia. }
  pose proof (copy_at_exact [] (zeros 8) (zeros 8 ++ zeros (length inner) ++ zeros pad ++ zeros (np * UPDATE_PAGE_SIZE))
    (outer_to_bytes (outer_of f)) ltac:(by rewrite Lo, length_zeros)) as E1.
  cbn [length app] in E1. rewrite E1. clear E1. rewrite (app_assoc (outer_to_bytes _)).
  pose proof (copy_at_exact (outer_to_bytes (outer_of f) ++ zeros 8) (zeros (length inner))
    (zeros pad ++ zeros (np * UPDATE_PAGE_SIZE)) inner ltac:(by rewrite length_zeros)) as E2.
  rewrite length_app, Lo, length_zeros in E2. cbn [Nat.add] in E2. rewrite E2. clear E2.
  rewrite !(app_assoc _ inner), (app_assoc _ (zeros pad)).
  pose proof (copy_pages (((outer_to_bytes (outer_of f) ++ zeros 8) ++ inner) ++ zeros pad) (update_pages f) (kmt_pages f Hf)) as E3.
  rewrite !length_app, Lo, !length_zeros in E3. change (8 + 8)%nat with 16%nat in E3. unfold np. rewrite E3.
  by rewrite <- !app_assoc.
Qed.

(** ** Parsing it back *)

Lemma parse_sorted_ok es :
  Forall sorted_fits es -> parse_sorted (length es) (concat (map sorted_to_bytes es)) = Ok es.
Proof.
  induction 1 as [|e es He Hes IH]; [done|]. destruct (sorted_codec e He) as [L P].
  cbn [length parse_sorted map concat]. rewrite <- L, take_app_length, drop_app_length, P. cbn [mbind result_bind].
  by rewrite IH.
Qed.

Lemma parse_pages_ok fuel hd ps :
  Forall page_ok ps -> (length ps < fuel)%nat ->
  parse_pages fuel (length hd) (hd ++ concat (map kmt_page_to_bytes ps)) = ps.
Proof.
  intros Hps. revert fuel hd. induction Hps as [|p ps Hp Hps IH]; intros fuel hd Hf;
    (destruct fuel as [|fuel]; [simpl in Hf; lia|]); cbn [parse_pages map concat].
  - rewrite app_nil_r, (proj2 (Nat.leb_gt _ _)) by (unfold UPDATE_PAGE_SIZE; lia). done.
  - pose proof (kmt_page_length p Hp) as L. rewrite !length_app, L, (proj2 (Nat.leb_le _ _)) by lia.
    rewrite drop_app_length. unfold kmt_page_from_bytes, kmt_page_to_bytes at 1. rewrite page_roundtrip by done.
    f_equal. specialize (IH fuel (hd ++ kmt_page_to_bytes p)). rewrite length_app, L, <- app_assoc in IH.
    apply IH. simpl in Hf. lia.
Qed.

Lemma parse_image f :
  kmt_ok f ->
  parse (to_bytes f) = Ok {| outer_header := outer_of f; inner_header := inner_header f;
                             sorted_entries := sorted_entries f; update_pages := update_pages f |}.
Proof.
  intros Hf. pose proof (inner_data_length f Hf) as Li. pose proof (kmt_size f Hf) as Hsz.
  rewrite to_bytes_shape by done. set (inner := inner_data_of f) in *.
  set (pad := pad_to (16 + length inner) (2 ^ 12)). set (pg := concat (map kmt_page_to_bytes (update_pages f))).
  destruct (outer_codec (outer_of f) (zeros 8 ++ inner ++ zeros pad ++ pg)) as [Lo Po];
    [apply wrap_range; lia|apply Jenkins.jenkins_range|].
  assert (data_length (outer_of f) = Z.of_nat (length inner)) as Ed.
  { cbn [outer_of data_length]. apply wrap_small. unfold in_u. fold inner. lia. }
  assert (length pg = (length (update_pages f) * UPDATE_PAGE_SIZE)%nat) as Lpg.
  { unfold pg. rewrite (length_concat_blocks UPDATE_PAGE_SIZE), length_map; [done|].
    apply Forall_map. eapply Forall_impl; [apply Hf|]. intros p. apply kmt_page_length. }
  set (data := outer_to_bytes (outer_of f) ++ zeros 8 ++ inner ++ zeros pad ++ pg) in *.
  assert (length data = (16 + length inner + pad + length pg)%nat) as Ld.
  { unfold data. rewrite !length_app, Lo, !length_zeros. lia. }
  unfold parse. rewrite (proj2 (Nat.ltb_ge _ _)) by (rewrite Ld; unfold OUTER_HEADER_SIZE; lia).
  rewrite Po. cbn [mbind result_bind]. rewrite Ed, Nat2Z.id. change INNER_START with 16%nat.
  rewrite (proj2 (Nat.ltb_ge _ _)) by lia.
  assert (slice 16 (16 + length inner) data = inner) as ->.
  { unfold data. rewrite (app_assoc (outer_to_bytes _)), slice_app_r by (rewrite length_app, Lo, length_zeros; lia).
    rewrite length_app, Lo, length_zeros. cbn [Nat.add Nat.sub]. rewrite slice_app_exact; [done|lia]. }
  cbn [outer_of hash]. fold inner. rewrite Z.eqb_refl. cbn [negb].
  destruct (inner_codec (inner_header f) (concat (map sorted_to_bytes (sorted_entries f))) (kmt_inner f Hf)) as [L16 Pi].
  change (inner_to_bytes (inner_header f) ++ concat (map sorted_to_bytes (sorted_entries f))) with inner in Pi.
  rewrite Pi. cbn [mbind result_bind].
  assert (drop INNER_HEADER_SIZE inner = concat (map sorted_to_bytes (sorted_entries f))) as ->.
  { unfold inner, inner_data_of. change INNER_HEADER_SIZE with 16%nat. rewrite <- L16. apply drop_app_length. }
  rewrite sorted_blocks by apply Hf. change SORTED_ENTRY_SIZE with 32%nat. rewrite Nat.div_mul by lia.
  rewrite parse_sorted_ok by apply Hf. cbn [mbind result_bind]. do 2 f_equal.
  rewrite align_start. fold pad. destruct (Nat.ltb_spec (16 + length inner + pad) (length data)) as [Hlt|Hge].
  - unfold data, pg. rewrite !app_assoc.
    set (hd := ((outer_to_bytes (outer_of f) ++ zeros 8) ++ inner) ++ zeros pad).
    assert (length hd = (16 + length inner + pad)%nat) as Lh.
    { unfold hd. rewrite !length_app, Lo, !length_zeros. lia. }
    rewrite <- Lh. apply parse_pages_ok; [apply Hf|].
    rewrite length_app. fold pg. rewrite Lpg, Nat.add_comm, Nat.div_add_l by (unfold UPDATE_PAGE_SIZE; lia). lia.
  - rewrite Ld in Hge. assert (length pg = 0%nat) as L0 by lia. rewrite Lpg in L0.
    destruct (update_pages f); [done|]. unfold UPDATE_PAGE_SIZE in L0. simpl in L0. lia.
Qed.

(** ** Theorems *)

(** A KMT file survives its byte image: headers, sorted entries and update
    pages, for every file whose fields fit; the outer header is recomputed. *)
Theorem kmt_file_roundtrip f :
  kmt_ok f ->
  exists f', parse (to_bytes f) = Ok f' /\ inner_header f' = inner_header f /\
    sorted_entries f' = sorted_entries f /\ update_pages f' = update_pages f /\
    hash (outer_header f') = Jenkins.jenkins (inner_data_of f) 0 /\ forall k, lookup f' k = lookup f k.
Proof. intros Hf. eexists. split; [by apply parse_image|]. done. Qed.

Definition sample_kmt : KmtFile :=
  {| outer_header := {| data_length := 0; hash := 0 |};
     inner_header := {| revision := 8; bucket_index := 3; flags := 0; key_size := 8; hash_size := 8;
                        content_key_size := 16; padding := 0; etag_data := 0xDEADBEEF |};
     sorted_entries := [sorted_new (replicate 16 5) 0x123456789A 100 200];
     update_pages := [[update_new (replicate 16 7) 4096 10 20 1; update_new (replicate 16 7) 8192 30 40 1]] |}.

Lemma sample_kmt_ok : kmt_ok sample_kmt.
Proof.
  constructor; [decide_now|decide_now| |by vm_compute].
  constructor; [|constructor]. split_and!; [done|by vm_compute; lia|].
  cbn [sample_kmt update_pages]. change (@entry_ok UpdateEntry _) with update_fits. decide_now.
Qed.

Lemma kmt_file_roundtrip_witness :
  exists f', parse (to_bytes sample_kmt) = Ok f' /\ inner_header f' = inner_header sample_kmt /\
    sorted_entries f' = sorted_entries sample_kmt /\ update_pages f' = update_pages sample_kmt /\
    hash (outer_header f') = Jenkins.jenkins (inner_data_of sample_kmt) 0 /\
    forall k, lookup f' k = lookup sample_kmt k.
Proof. apply kmt_file_roundtrip, sample_kmt_ok. Defined.

Lemma parse_sorted_length n d es : parse_sorted n d = Ok es -> length es = n.
Proof.
  revert d es. induction n as [|n IH]; intros d es; cbn [parse_sorted]; [by intros [= <-]|].
  destruct (sorted_parse _); [|done]. cbn [mbind result_bind]. destruct (parse_sorted n _) as [es'|] eqn:E; [|done].
  cbn [mbind result_bind]. intros [= <-]. simpl. f_equal. by eapply IH.
Qed.

(** The parser accepts a file only if the Jenkins hash of its inner data is
    the one in the outer header, and the inner header has the sizes of the
    format. *)
Theorem kmt_parse_checks data f :
  parse data = Ok f ->
  let n := Z.to_nat (data_length (outer_header f)) in
  (16 + n <= length data)%nat /\ Jenkins.jenkins (slice 16 (16 + n) data) 0 = hash (outer_header f) /\
  8 <= revision (inner_header f) /\ key_size (inner_header f) = 8 /\ hash_size (inner_header f) = 8 /\
  content_key_size (inner_header f) = 16 /\ length (sorted_entries f) = ((n - 16) / 32)%nat.
Proof.
  unfold parse. destruct (_ <? _)%nat; [done|]. destruct (outer_parse data) as [oh|]; [|done]. cbn [mbind result_bind].
  change INNER_START with 16%nat. destruct (Nat.ltb_spec (length data) (16 + Z.to_nat (data_length oh))) as [|Hl]; [done|].
  destruct (negb _) eqn:Eh; [done|]. apply negb_false_iff, Z.eqb_eq in Eh.
  destruct (inner_parse _) as [ih|] eqn:Ei; [|done]. cbn [mbind result_bind].
  destruct (parse_sorted _ _) as [es|] eqn:Es; [|done]. cbn [mbind result_bind]. intros [= <-].
  cbn [outer_header inner_header sorted_entries].
  assert (8 <= revision ih /\ key_size ih = 8 /\ hash_size ih = 8 /\ content_key_size ih = 16) as (H1 & H2 & H3 & H4).
  { revert Ei. unfold inner_parse. destruct (_ <? _)%nat; [done|].
    destruct (Z.ltb_spec (from_le_bytes (slice 0 2 (slice 16 (16 + Z.to_nat (data_length oh)) data))) 8); [done|].
    set (d := slice 16 (16 + Z.to_nat (data_length oh)) data) in *.
    destruct (Z.eqb_spec (nth 4 d 0) 8); [|done]. destruct (Z.eqb_spec (nth 5 d 0) 8); [|done].
    destruct (Z.eqb_spec (nth 6 d 0) 16); [|done]. intros [= <-]. done. }
  split_and!; try done. apply parse_sorted_length in Es. rewrite Es, length_drop, length_slice by done.
  change SORTED_ENTRY_SIZE with 32%nat. change INNER_HEADER_SIZE with 16%nat. do 2 f_equal. lia.
Qed.

Lemma kmt_parse_checks_witness :
  match parse (to_bytes sample_kmt) with
  | Ok f => 8 <= revision (inner_header f)
  | Err _ => False
  end.
Proof.
  destruct (parse (to_bytes sample_kmt)) as [f|e] eqn:E.
  - apply (kmt_parse_checks (to_bytes sample_kmt) f E).
  - rewrite (parse_image sample_kmt sample_kmt_ok) in E. discriminate E.
Defined.

(** ** Lookup *)

(** In a page without duplicate keys the direction of the scan does not matter. *)
Lemma find_entry_reverse k l : NoDup (u_ekey <$> l) -> find_entry k (reverse l) = find_entry k l.
Proof.
  induction l as [|e l IH]; [done|]. rewrite fmap_cons. intros [He Hl]%NoDup_cons.
  rewrite reverse_cons, find_by_app, IH by done. simpl. case_bool_decide as E; [|by destruct (find_entry k l)].
  destruct (find_entry k l) as [x|] eqn:Ex; [|done]. apply find_by_Some in Ex as [Hx Hk].
  exfalso. apply He. rewrite E, <- Hk. by apply list_elem_of_fmap_2.
Qed.

Lemma kmt_find_pages_concat k ps : find_pages k ps = find_entry k (concat ps).
Proof. induction ps as [|p ps IH]; simpl; [done|]. by rewrite find_by_app, IH. Qed.

Lemma concat_reverse_pages k ps :
  Forall (fun p : UpdatePage => NoDup (u_ekey <$> p)) ps ->
  find_entry k (concat ps) = find_entry k (concat (reverse <$> ps)).
Proof.
  induction 1 as [|p ps Hp Hps IH]; [done|]. rewrite fmap_cons. cbn [concat].
  by rewrite !find_by_app, IH, find_entry_reverse.
Qed.

(** A lookup prefers the update pages to the sorted section, and finds the
    newest update of the key provided no single page holds the key twice. *)
Theorem kmt_lookup_newest f k :
  Forall (fun p : UpdatePage => NoDup (u_ekey <$> p)) (update_pages f) -> strictly_sorted s_ekey (sorted_entries f) ->
  match find_entry k (reverse (concat (update_pages f))) with
  | Some e => lookup f k = Some (sorted_new (u_ekey e) (update_storage_offset e) (u_encoded_size e) (u_decoded_size e))
  | None => forall x, lookup f k = Some x <-> x ∈ sorted_entries f /\ s_ekey x = k
  end.
Proof.
  intros Hp Hs. unfold lookup. rewrite kmt_find_pages_concat.
  rewrite concat_reverse_pages by by apply Forall_reverse. rewrite <- reverse_concat.
  destruct (find_entry k _); [done|]. intros x. by apply search_Some.
Qed.

Lemma kmt_lookup_newest_witness :
  let f := {| outer_header := outer_header sample_kmt; inner_header := inner_header sample_kmt;
              sorted_entries := sorted_entries sample_kmt;
              update_pages := [[update_new (replicate 16 7) 4096 10 20 1]; [update_new (replicate 16 7) 8192 30 40 1]] |} in
  match find_entry (replicate 16 7) (reverse (concat (update_pages f))) with
  | Some e => lookup f (replicate 16 7) =
      Some (sorted_new (u_ekey e) (update_storage_offset e) (u_encoded_size e) (u_decoded_size e))
  | None => forall x, lookup f (replicate 16 7) = Some x <-> x ∈ sorted_entries f /\ s_ekey x = replicate 16 7
  end.
Proof.
  apply kmt_lookup_newest.
  - apply Forall_cons_2; [|apply Forall_cons_2; [|constructor]]; apply NoDup_singleton.
  - repeat constructor.
Defined.

(** When one page holds a key twice, the lookup returns the older of the two
    entries, although the search is meant to go newest first. *)
Theorem kmt_lookup_in_page_oldest :
  exists f k older newer, update_pages f = [[older; newer]] /\ kmt_ok f /\ u_ekey older = k /\ u_ekey newer = k /\
    u_encoded_size older <> u_encoded_size newer /\
    lookup f k = Some (sorted_new k (update_storage_offset older) (u_encoded_size older) (u_decoded_size older)).
Proof.
  eexists sample_kmt, (replicate 16 7), _, _. split; [done|]. split; [apply sample_kmt_ok|]. by vm_compute.
Qed.
