(* ===== verification/ResidencyContainer.v ===== *)
(** * Containers: crates/cascette-client-storage/src/container/

    The access modes and the interface of [container/mod.rs], and its
    implementation by the residency container ([residency.rs]): a residency
    database behind access checks, a token file, and the file the database is
    saved to.  The [RwLock] around the database is taken once per call, so a
    call is one step. *)

From S2P Require Import Prelude Bytes Disk Jenkins Collections Pages KeyState KeyStateTheorems.
Local Open Scope Z_scope.

Module Containers.

Inductive AccessMode : Type := NoAccess | ReadOnly | ReadWrite | Exclusive.

#[global] Instance AccessMode_eq_dec : EqDecision AccessMode.
Proof. solve_decision. Defined.

Definition to_internal_flags (m : AccessMode) : Z :=
  match m with NoAccess => 0 | ReadOnly => 2 | ReadWrite => 5 | Exclusive => 1 end.

Definition can_read (m : AccessMode) : bool :=
  match m with ReadOnly | ReadWrite | Exclusive => true | NoAccess => false end.

Definition can_write (m : AccessMode) : bool :=
  match m with ReadWrite | Exclusive => true | _ => false end.

(** [storage_error_from_casc_code]; code 0 is [unreachable!]. *)
Definition storage_error_from_casc_code (code : Z) (context : string) : outcome StorageError :=
  if code =? 0 then Panic
  else if code =? 3 then Ret (TruncatedRead context)
  else if (code =? 4) || (code =? 10) then Ret (InvalidFormat context)
  else if code =? 9 then Ret (ContainerLocked context)
  else Ret (ArchiveError context).

(** The trait [Container], with the container as explicit state: [read] also
    returns the buffer it fills. *)
Class Container (C : Type) : Type := {
  reserve : C -> bytes -> result StorageError unit;
  read : C -> bytes -> Z -> Z -> bytes -> outcome (result StorageError nat * bytes * C);
  write : C -> bytes -> bytes -> outcome (result StorageError unit * C);
  remove : C -> bytes -> outcome (result StorageError unit * C);
  query : C -> bytes -> result StorageError bool;
}.

(** ** The residency container *)

Record ResidencyContainer := {
  product_name : string;
  access_mode : AccessMode;
  read_only : bool;
  db : Residency.ResidencyDb;
  initialized : bool;
}.

Definition with_db (c : ResidencyContainer) (db : Residency.ResidencyDb) : ResidencyContainer :=
  {| product_name := product_name c; access_mode := access_mode c; read_only := read_only c;
     db := db; initialized := initialized c |}.

Definition container_new (product_name : string) (mode : AccessMode) : ResidencyContainer :=
  {| product_name := product_name; access_mode := mode;
     read_only := bool_decide (mode = ReadOnly); db := Residency.db_new; initialized := false |}.

(** The names of the two files in the storage directory: [.residency] and [key_state_v8]. *)
Definition RESIDENCY_TOKEN : bytes := [46; 114; 101; 115; 105; 100; 101; 110; 99; 121].
Definition DB_NAME : bytes := [107; 101; 121; 95; 115; 116; 97; 116; 101; 95; 118; 56].

(** Which system calls of [initialize] and [flush] fail. *)
Record Io := {
  mkdir_ok : bool;
  token_ok : bool;
  db_read_ok : bool;
  db_write_ok : bool;
  db_rename_ok : bool;
}.

Definition set_initialized (c : ResidencyContainer) : ResidencyContainer :=
  {| product_name := product_name c; access_mode := access_mode c; read_only := read_only c;
     db := db c; initialized := true |}.

(** The token file of a writable container. *)
Definition ensure_token (io : Io) (c : ResidencyContainer) (d : disk) : result StorageError disk :=
  if can_write (access_mode c) then
    if mkdir_ok io then
      match disk_get d RESIDENCY_TOKEN with
      | Some _ => Ok d
      | None =>
          if token_ok io then Ok (disk_write d RESIDENCY_TOKEN [])
          else Err (ArchiveError "failed to create .residency token file")
      end
    else Err (ArchiveError "failed to create residency directory")
  else Ok d.

Definition initialize (io : Io) (c : ResidencyContainer) (d : disk) :
    result StorageError unit * ResidencyContainer * disk :=
  if bool_decide (product_name c = ""%string) then (Ok tt, set_initialized c, d)
  else
    match ensure_token io c d with
    | Err e => (Err e, c, d)
    | Ok d =>
        let c :=
          match Residency.load (db_read_ok io) (disk_get d DB_NAME) with
          | Ok loaded => with_db c loaded
          | Err _ => c
          end in
        (Ok tt, set_initialized c, d)
    end.

Definition denied : StorageError := AccessDenied "residency container is read-only".

(** [if self.read_only { return Err(..) } self.db.write().f(); Ok(())] *)
Definition guarded (c : ResidencyContainer) (f : Residency.ResidencyDb -> Residency.ResidencyDb) :
    result StorageError unit * ResidencyContainer :=
  if read_only c then (Err denied, c) else (Ok tt, with_db c (f (db c))).

Definition mark_resident (c : ResidencyContainer) (key : bytes) := guarded c (Residency.mark_resident key).
Definition mark_non_resident (c : ResidencyContainer) (key : bytes) := guarded c (Residency.mark_non_resident key).
Definition mark_span_non_resident (c : ResidencyContainer) (key : bytes) (offset length : Z) :=
  guarded c (Residency.mark_span_non_resident key offset length).
Definition delete_keys (c : ResidencyContainer) (keys : list bytes) := guarded c (Residency.delete_keys keys).

Definition is_resident (c : ResidencyContainer) (key : bytes) : bool := Residency.is_resident (db c) key.
Definition resident_count (c : ResidencyContainer) : nat := Residency.entry_count (db c).
Definition scan_keys (c : ResidencyContainer) : list bytes := Residency.scan_keys (db c).

Definition flush (io : Io) (c : ResidencyContainer) (d : disk) : result StorageError unit * ResidencyContainer * disk :=
  if read_only c then (Ok tt, c, d)
  else
    match Residency.save (db_write_ok io) (db_rename_ok io) (db c) (disk_get d DB_NAME) with
    | (Ok _, db', file) =>
        (Ok tt, with_db c db', match file with Some data => disk_write d DB_NAME data | None => d end)
    | (Err _, db', _) => (Err (ArchiveError "failed to flush residency data"), with_db c db', d)
    end.

#[global] Instance residency_container : Container ResidencyContainer := {|
  reserve c _ := if read_only c then Err denied else Ok tt;
  read c _ _ _ buf := Ret (Err (InvalidFormat "residency container does not store file data"), buf, c);
  write c _ _ := Ret (Err (InvalidFormat "residency container does not store file data"), c);
  remove c key := Ret (mark_non_resident c key);
  query c key := Ok (is_resident c key);
|}.

(** ** Theorems *)

Definition container_ok (c : ResidencyContainer) : Prop := db_ok (db c).

(** The mutating calls of the container.  On a read-only container each is
    refused and changes nothing; otherwise each does to the set of resident keys
    what its name says, and [query] sees it. *)
Theorem container_mutations c k ks :
  container_ok c -> is_array 16 k -> Forall (is_array 16) ks ->
  let '(r1, c1) := mark_resident c k in
  let '(r3, c3) := delete_keys c ks in
  exists r2 c2, remove c k = Ret (r2, c2) /\
  if read_only c then r1 = Err denied /\ r2 = Err denied /\ r3 = Err denied /\ c1 = c /\ c2 = c /\ c3 = c
  else
    r1 = Ok tt /\ r2 = Ok tt /\ r3 = Ok tt /\ container_ok c1 /\ container_ok c2 /\ container_ok c3 /\
    forall k', query c1 k' = Ok (if bool_decide (k' = k) then true else is_resident c k') /\
      query c2 k' = Ok (if bool_decide (k' = k) then false else is_resident c k') /\
      query c3 k' = Ok (is_resident c k' && negb (bool_decide (k' ∈ ks))).
Proof.
  intros Hc Hk Hks. unfold mark_resident, delete_keys. cbn [remove residency_container].
  unfold mark_non_resident, guarded. destruct (read_only c) eqn:Er; [eexists _, _; done|].
  destruct (mark_ok k Residency.span_full Residency.Set_ (db c) Hc Hk span_full_ok) as [H1 R1].
  destruct (mark_ok k Residency.span_full Residency.Delete (db c) Hc Hk span_full_ok) as [H2 R2].
  destruct (delete_keys_spec ks (db c) Hc Hks) as [H3 R3].
  eexists _, _. split; [done|]. split_and!; try done.
  intros k'. cbn [query residency_container]. unfold is_resident. cbn [with_db db].
  split_and!; f_equal; [exact (R1 k')|exact (R2 k')|exact (R3 k')].
Qed.

Definition sample_container : ResidencyContainer := container_new "wow" ReadWrite.

Lemma sample_container_ok : container_ok sample_container.
Proof. apply db_new_ok. Qed.

Lemma container_mutations_witness :
  let c := sample_container in let k := replicate 16 7 in let ks := [replicate 16 7] in
  let '(r1, c1) := mark_resident c k in
  let '(r3, c3) := delete_keys c ks in
  exists r2 c2, remove c k = Ret (r2, c2) /\
  if read_only c then r1 = Err denied /\ r2 = Err denied /\ r3 = Err denied /\ c1 = c /\ c2 = c /\ c3 = c
  else
    r1 = Ok tt /\ r2 = Ok tt /\ r3 = Ok tt /\ container_ok c1 /\ container_ok c2 /\ container_ok c3 /\
    forall k', query c1 k' = Ok (if bool_decide (k' = k) then true else is_resident c k') /\
      query c2 k' = Ok (if bool_decide (k' = k) then false else is_resident c k') /\
      query c3 k' = Ok (is_resident c k' && negb (bool_decide (k' ∈ ks))).
Proof.
  apply (container_mutations sample_container (replicate 16 7) [replicate 16 7]);
    [apply sample_container_ok|decide_now|apply Forall_cons_2; [decide_now|constructor]].
Defined.

Definition io_ok : Io :=
  {| mkdir_ok := true; token_ok := true; db_read_ok := true; db_write_ok := true; db_rename_ok := true |}.

(** Flushing a modified container and opening the directory again, in any
    access mode and with any product name, gives a container with the same answer
    for every key. *)
Theorem container_restart c d name mode :
  container_ok c -> savable (db c) -> Residency.dirty (db c) = true -> read_only c = false -> name <> ""%string ->
  exists c1 d1 c2 d2, flush io_ok c d = (Ok tt, c1, d1) /\
    initialize io_ok (container_new name mode) d1 = (Ok tt, c2, d2) /\ initialized c2 = true /\
    forall k, is_resident c2 k = is_resident c k.
Proof.
  intros Hc Hs Hd Hr Hn. unfold flush. rewrite Hr. cbn [io_ok db_write_ok db_rename_ok].
  unfold Residency.save. rewrite Hd. set (c0 := container_new name mode).
  assert (exists d2, ensure_token io_ok c0 (disk_write d DB_NAME (Residency.db_to_bytes (db c))) = Ok d2 /\
    disk_get d2 DB_NAME = Some (Residency.db_to_bytes (db c))) as (d2 & Et & Hg).
  { unfold ensure_token. destruct (can_write (access_mode c0)).
    - cbn [io_ok mkdir_ok token_ok]. destruct (disk_get _ RESIDENCY_TOKEN); eexists; (split; [done|]).
      + apply disk_get_write.
      + by rewrite disk_get_write_ne, disk_get_write by done.
    - eexists. split; [done|]. apply disk_get_write. }
  eexists _, (disk_write d DB_NAME (Residency.db_to_bytes (db c))), _, d2. split; [done|].
  unfold initialize. cbn [product_name c0 container_new]. rewrite bool_decide_false by done.
  fold c0. rewrite Et, Hg. split_and!; [done|done|]. intros k. unfold is_resident.
  cbn [Residency.load io_ok db_read_ok set_initialized with_db db].
  apply (load_saved_ok (db c) Hc Hs).
Qed.

Lemma container_restart_witness :
  let c := snd (mark_resident sample_container (replicate 16 7)) in
  exists c1 d1 c2 d2, flush io_ok c [] = (Ok tt, c1, d1) /\
    initialize io_ok (container_new "wow" ReadOnly) d1 = (Ok tt, c2, d2) /\ initialized c2 = true /\
    forall k, is_resident c2 k = is_resident c k.
Proof.
  apply container_restart; [|decide_now|done|done|done].
  apply (mark_ok (replicate 16 7) Residency.span_full Residency.Set_ Residency.db_new);
    [apply db_new_ok|decide_now|apply span_full_ok].
Defined.

(** A container opened with no access is not read-only for the checks of the
    mutating calls, which test for [ReadOnly] and not for [can_write]: it accepts
    a write. *)
Theorem no_access_mode_accepts_writes name k :
  can_write NoAccess = false /\ fst (mark_resident (container_new name NoAccess) k) = Ok tt /\
  fst (mark_resident (container_new name ReadOnly) k) = Err denied.
Proof. done. Qed.

(** [resident_count] counts entries that [is_resident] and [scan_keys] do not:
    a key with a span marked non-resident. *)
Theorem resident_count_overcounts :
  exists c k, container_ok c /\ resident_count c = 1%nat /\ is_resident c k = false /\ scan_keys c = [].
Proof.
  exists (snd (mark_span_non_resident sample_container (replicate 16 7) 0 100)), (replicate 16 7).
  split; [|by vm_compute].
  apply (mark_ok (replicate 16 7) (Residency.span_range 0 100) Residency.MarkNonResident Residency.db_new);
    [apply db_new_ok|decide_now|decide_now].
Qed.

End Containers.
