(* ===== verification/Ciphers.v ===== *)
(** * The stream ciphers of encrypted BLTE blocks

    crates/cascette-crypto/src/salsa20.rs and arc4.rs.  Both ciphers XOR the data
    with the bytes of a key stream; what they promise their clients is the
    class [Keystream]: from a well-formed state a next byte exists, is a byte,
    and leaves a well-formed state.  Decryption, chunking and lengths are proved
    once against that interface. *)

From S2P Require Import Prelude Bytes.
Local Open Scope Z_scope.

(** ** Key streams *)

(** [for byte in data { *byte ^= next(); }]. *)
Fixpoint xor_stream {S} (next : S -> outcome (Z * S)) (c : S) (data : bytes) : outcome (bytes * S) :=
  match data with
  | [] => Ret ([], c)
  | b :: data =>
      '(k, c) ← next c;
      '(out, c) ← xor_stream next c data;
      Ret (Z.lxor b k :: out, c)
  end.

Class Keystream (S : Type) (next : S -> outcome (Z * S)) := {
  ks_wf : S -> Prop;
  ks_next : forall c, ks_wf c -> exists k c', next c = Ret (k, c') /\ u8 k /\ ks_wf c';
}.

Section Stream.
Context {S} {next : S -> outcome (Z * S)} `{!Keystream S next}.

Lemma xor_stream_total c data :
  ks_wf c ->
  exists out c', xor_stream next c data = Ret (out, c') /\ length out = length data /\ (is_bytes data -> is_bytes out) /\ ks_wf c'.
Proof.
  revert c. induction data as [|b data IH]; intros c Hc.
  { exists [], c. split_and!; [done|done|constructor|done]. }
  destruct (ks_next c Hc) as (k & c1 & Hk & Hku & Hc1). destruct (IH c1 Hc1) as (out & c2 & Ho & Hl & Hbs & Hc2).
  exists (Z.lxor b k :: out), c2. simpl. rewrite Hk. simpl. rewrite Ho. simpl.
  split_and!; [done|by rewrite Hl| |done]. intros [Hb Hd]%Forall_cons. constructor; [by apply lxor_range|by apply Hbs].
Qed.

(** XOR with the same stream twice gives the data back. *)
Lemma xor_stream_involutive c data out c' :
  ks_wf c -> xor_stream next c data = Ret (out, c') -> xor_stream next c out = Ret (data, c').
Proof.
  revert c out. induction data as [|b data IH]; intros c out Hc H; [by injection H as <- <-|].
  destruct (ks_next c Hc) as (k & c1 & Hk & _ & Hc1). simpl in H. rewrite Hk in H. simpl in H.
  destruct (xor_stream next c1 data) as [[o c2]|] eqn:E; [|done]. simpl in H. injection H as <- <-.
  simpl. rewrite Hk. simpl. rewrite (IH c1 o Hc1 E). simpl.
  by rewrite Z.lxor_assoc, Z.lxor_nilpotent, Z.lxor_0_r.
Qed.

(** Two calls are one call on the joined data. *)
Lemma xor_stream_app c d1 d2 :
  xor_stream next c (d1 ++ d2) =
  ('(o1, c1) ← xor_stream next c d1; '(o2, c2) ← xor_stream next c1 d2; Ret (o1 ++ o2, c2)).
Proof.
  revert c. induction d1 as [|b d1 IH]; intros c; simpl.
  { destruct (xor_stream next c d2) as [[o c2]|]; done. }
  destruct (next c) as [[k c1]|]; [|done]. simpl. rewrite IH.
  destruct (xor_stream next c1 d1) as [[o1 c2]|]; [|done]. simpl.
  by destruct (xor_stream next c2 d2) as [[o2 c3]|].
Qed.

End Stream.

(** ** ARC4 *)

Module Arc4.

Inductive Arc4Error : Type := InvalidKeyLength (n : nat).

(** [s] is [[u8; 256]]. *)
Record Arc4Cipher := { s : list Z; i : Z; j : Z }.

(** [slice::swap]. *)
Definition swap (v : list Z) (a b : Z) : outcome (list Z) :=
  x ← vec_get v a; y ← vec_get v b;
  Ret (<[Z.to_nat b := x]> (<[Z.to_nat a := y]> v)).

(** An iteration of the key schedule. *)
Definition ksa_step (key : bytes) (st : outcome (Z * list Z)) (i : nat) : outcome (Z * list Z) :=
  '(j, s) ← st;
  si ← vec_get s (Z.of_nat i);
  k ← vec_get key (Z.of_nat (i mod length key));
  let j := wrap8 (wrap8 (j + si) + k) in
  s ← swap s (Z.of_nat i) j;
  Ret (j, s).

Definition arc4_new (key : bytes) : outcome (result Arc4Error Arc4Cipher) :=
  if (length key =? 0)%nat || (256 <? length key)%nat then Ret (Err (InvalidKeyLength (length key)))
  else
    '(_, s) ← fold_left (ksa_step key) (seq 0 256) (Ret (0, Z.of_nat <$> seq 0 256));
    Ret (Ok {| s := s; i := 0; j := 0 |}).

Definition next_keystream_byte (c : Arc4Cipher) : outcome (Z * Arc4Cipher) :=
  let i := wrap8 (i c + 1) in
  si ← vec_get (s c) i;
  let j := wrap8 (j c + si) in
  s ← swap (s c) i j;
  x ← vec_get s i; y ← vec_get s j;
  b ← vec_get s (wrap8 (x + y));
  Ret (b, {| s := s; i := i; j := j |}).

Definition arc4_encrypt (c : Arc4Cipher) (data : bytes) : outcome (bytes * Arc4Cipher) :=
  xor_stream next_keystream_byte c data.

Definition arc4_decrypt (c : Arc4Cipher) (data : bytes) : outcome (bytes * Arc4Cipher) := arc4_encrypt c data.

(** In place; the result is the new content of the slice. *)
Definition arc4_apply_keystream (c : Arc4Cipher) (data : bytes) : outcome (bytes * Arc4Cipher) :=
  xor_stream next_keystream_byte c data.

(** *** The S-box is a permutation of the bytes *)

Definition box_ok (s : list Z) : Prop := s ≡ₚ (Z.of_nat <$> seq 0 256).

Lemma box_length s : box_ok s -> length s = 256%nat.
Proof. unfold box_ok. intros H. by rewrite H, length_fmap, length_seq. Qed.

Lemma box_bytes s : box_ok s -> is_bytes s.
Proof.
  unfold box_ok, is_bytes. intros H. rewrite H. apply Forall_fmap, Forall_forall. intros n [_ Hn]%elem_of_seq.
  simpl. unfold in_u. lia.
Qed.

Lemma box_get s x : box_ok s -> u8 x -> exists y, vec_get s x = Ret y /\ s !! Z.to_nat x = Some y /\ u8 y.
Proof.
  intros Hs Hx. pose proof (box_length s Hs) as L. unfold in_u in Hx.
  destruct (lookup_lt_is_Some_2 s (Z.to_nat x)) as [y Hy]; [lia|]. exists y. split_and!; [by apply vec_get_Some|done|].
  eapply Forall_lookup_1; [apply box_bytes, Hs|done].
Qed.

Lemma swap_perm (v : list Z) (a b : nat) x y :
  v !! a = Some x -> v !! b = Some y -> <[b := x]> (<[a := y]> v) ≡ₚ v.
Proof.
  intros Ha Hb. destruct (decide (a = b)) as [->|Hne].
  { rewrite Ha in Hb. injection Hb as <-. by rewrite list_insert_insert_eq, list_insert_id. }
  pose proof (lookup_lt_Some _ _ _ Ha). pose proof (lookup_lt_Some _ _ _ Hb).
  rewrite (list_insert_insert_ne v) by done.
  apply Permutation_inj. split; [by rewrite !length_insert|].
  exists (fun n => if decide (n = a) then b else if decide (n = b) then a else n).
  split.
  - intros n m. repeat case_decide; congruence.
  - intros n. repeat case_decide; subst.
    + by rewrite list_lookup_insert_eq by (rewrite length_insert; lia).
    + rewrite list_lookup_insert_ne by done. by rewrite list_lookup_insert_eq by lia.
    + by rewrite !list_lookup_insert_ne by done.
Qed.

Lemma swap_ok s a b : box_ok s -> u8 a -> u8 b -> exists s', swap s a b = Ret s' /\ box_ok s'.
Proof.
  intros Hs Ha Hb. destruct (box_get s a Hs Ha) as (x & Ex & Hx & _). destruct (box_get s b Hs Hb) as (y & Ey & Hy & _).
  unfold swap. rewrite Ex. simpl. rewrite Ey. simpl. eexists. split; [done|]. unfold box_ok.
  by rewrite (swap_perm s (Z.to_nat a) (Z.to_nat b) x y).
Qed.

Lemma ksa_ok key n :
  (0 < length key)%nat -> (n <= 256)%nat ->
  exists j s, fold_left (ksa_step key) (seq 0 n) (Ret (0, Z.of_nat <$> seq 0 256)) = Ret (j, s) /\ u8 j /\ box_ok s.
Proof.
  intros Hk. induction n as [|n IH]; intros Hn.
  { eexists _, _. split_and!; [done|unfold in_u; lia|by unfold box_ok]. }
  destruct IH as (j & s & E & Hj & Hs); [lia|]. rewrite seq_S, fold_left_app, E. simpl.
  assert (u8 (Z.of_nat n)) as Hnu by (unfold in_u; lia).
  destruct (box_get s _ Hs Hnu) as (si & -> & _ & _). simpl.
  destruct (lookup_lt_is_Some_2 key (n mod length key)) as [k Hkk]; [apply Nat.mod_upper_bound; lia|].
  rewrite (vec_get_nat _ _ _ Hkk). simpl.
  destruct (swap_ok s (Z.of_nat n) (wrap8 (wrap8 (j + si) + k)) Hs Hnu (wrap8_range _)) as (s' & -> & Hs').
  simpl. eexists _, _. split_and!; [done|apply wrap8_range|done].
Qed.

Lemma new_ok key :
  (0 < length key <= 256)%nat -> exists c, arc4_new key = Ret (Ok c) /\ box_ok (s c) /\ u8 (i c) /\ u8 (j c).
Proof.
  intros Hk. unfold arc4_new. rewrite (proj2 (Nat.eqb_neq _ _)), (proj2 (Nat.ltb_ge _ _)) by lia. cbn [orb].
  destruct (ksa_ok key 256) as (j & s & E & Hj & Hs); [lia|lia|]. rewrite E. simpl. eexists. by split_and!.
Qed.

#[global] Instance arc4_stream : Keystream Arc4Cipher next_keystream_byte.
Proof.
  refine {| ks_wf c := box_ok (s c) /\ u8 (i c) /\ u8 (j c) |}.
  intros c (Hs & Hi & Hj). unfold next_keystream_byte. set (i' := wrap8 (i c + 1)).
  assert (u8 i') as Hi' by apply wrap8_range. destruct (box_get _ _ Hs Hi') as (si & -> & _ & _). simpl.
  set (j' := wrap8 (j c + si)). assert (u8 j') as Hj' by apply wrap8_range.
  destruct (swap_ok _ _ _ Hs Hi' Hj') as (s' & -> & Hs'). simpl.
  destruct (box_get _ _ Hs' Hi') as (x & -> & _ & _). simpl. destruct (box_get _ _ Hs' Hj') as (y & -> & _ & _). simpl.
  destruct (box_get _ _ Hs' (wrap8_range (x + y))) as (b & -> & _ & Hb). simpl.
  eexists _, _. split_and!; [done|done|done|done|done].
Defined.

End Arc4.

(** ** Salsa20 *)

Module Salsa20.

Inductive CryptoError : Type := InvalidIvSize (expected actual : nat).

(** [state] is [[u32; 16]], [keystream] is [[u8; 64]]. *)
Record Salsa20Cipher := { state : list Z; keystream : bytes; keystream_pos : nat }.

(** Indices into the state are constants below sixteen. *)
Definition quarter_round (st : list Z) (a b c d : nat) : list Z :=
  let st := <[b := Z.lxor (st !!! b) (rotl32 (wrap32 (st !!! a + st !!! d)) 7)]> st in
  let st := <[c := Z.lxor (st !!! c) (rotl32 (wrap32 (st !!! b + st !!! a)) 9)]> st in
  let st := <[d := Z.lxor (st !!! d) (rotl32 (wrap32 (st !!! c + st !!! b)) 13)]> st in
  <[a := Z.lxor (st !!! a) (rotl32 (wrap32 (st !!! d + st !!! c)) 18)]> st.

(** The body of the loop over ten double rounds. *)
Definition double_round (st : list Z) : list Z :=
  let st := quarter_round st 0 4 8 12 in
  let st := quarter_round st 5 9 13 1 in
  let st := quarter_round st 10 14 2 6 in
  let st := quarter_round st 15 3 7 11 in
  let st := quarter_round st 0 1 2 3 in
  let st := quarter_round st 5 6 7 4 in
  let st := quarter_round st 10 11 8 9 in
  quarter_round st 15 12 13 14.

(** The key stream block of a state. *)
Definition block (st : list Z) : bytes :=
  let working := Nat.iter 10 double_round st in
  concat (map (to_le_bytes 4) (zip_with (fun w x => wrap32 (w + x)) working st)).

(** The counter in words 8 and 9. *)
Definition increment (st : list Z) : list Z :=
  let st := <[8%nat := wrap32 (st !!! 8%nat + 1)]> st in
  if st !!! 8%nat =? 0 then <[9%nat := wrap32 (st !!! 9%nat + 1)]> st else st.

Definition generate_keystream (c : Salsa20Cipher) : Salsa20Cipher :=
  {| state := increment (state c); keystream := block (state c); keystream_pos := 0 |}.

(** The state [salsa20_new] starts from: constants, key, nonce and a zero counter. *)
Definition initial_state (key iv : bytes) (block_index : Z) : list Z :=
  let word k := from_le_bytes (slice (4 * k) (4 * k + 4) key) in
  let extended_iv := copy_at 0 iv (zeros 8) in
  let block_bytes := to_le_bytes 4 (wrap32 block_index) in
  let extended_iv := zip_with Z.lxor (take 4 extended_iv) block_bytes ++ drop 4 extended_iv in
  [0x61707865; word 0%nat; word 1%nat; word 2%nat; word 3%nat; 0x3120646e;
   from_le_bytes (slice 0 4 extended_iv); from_le_bytes (slice 4 8 extended_iv); 0; 0;
   0x79622d36; word 0%nat; word 1%nat; word 2%nat; word 3%nat; 0x6b206574].

Definition salsa20_new (key iv : bytes) (block_index : Z) : result CryptoError Salsa20Cipher :=
  if negb (length iv =? 4)%nat && negb (length iv =? 8)%nat then Err (InvalidIvSize 4 (length iv))
  else Ok (generate_keystream {| state := initial_state key iv block_index; keystream := zeros 64; keystream_pos := 64 |}).

(** The body of the loop of [apply_keystream]. *)
Definition next_byte (c : Salsa20Cipher) : outcome (Z * Salsa20Cipher) :=
  let c := if (64 <=? keystream_pos c)%nat then generate_keystream c else c in
  k ← vec_get (keystream c) (Z.of_nat (keystream_pos c));
  Ret (k, {| state := state c; keystream := keystream c; keystream_pos := S (keystream_pos c) |}).

Definition salsa20_apply_keystream (c : Salsa20Cipher) (data : bytes) : outcome (bytes * Salsa20Cipher) :=
  xor_stream next_byte c data.

Definition decrypt_salsa20 (data key iv : bytes) (block_index : Z) : outcome (result CryptoError bytes) :=
  c ←? Ret (salsa20_new key iv block_index);
  '(out, _) ← salsa20_apply_keystream c data;
  Ret (Ok out).

Definition encrypt_salsa20 (data key iv : bytes) (block_index : Z) : outcome (result CryptoError bytes) :=
  decrypt_salsa20 data key iv block_index.

(** *** The stream as a function of the position *)

(** The state of block [n]: a 64-bit counter, low word first. *)
Definition with_counter (st : list Z) (n : Z) : list Z :=
  <[9%nat := wrap32 (n / 2 ^ 32)]> (<[8%nat := wrap32 n]> st).

(** Byte [n] of the stream. *)
Definition stream_byte (st : list Z) (n : nat) : Z :=
  nth (n mod 64) (block (with_counter st (Z.of_nat (n / 64)))) 0.

Lemma length_quarter_round st a b c d : length (quarter_round st a b c d) = length st.
Proof. unfold quarter_round. by rewrite !length_insert. Qed.

Lemma length_rounds n st : length (Nat.iter n double_round st) = length st.
Proof.
  induction n as [|n IH]; [reflexivity|]. rewrite <- IH.
  change (Nat.iter (S n) double_round st) with (double_round (Nat.iter n double_round st)).
  generalize (Nat.iter n double_round st). intros l. unfold double_round. rewrite !length_quarter_round. reflexivity.
Qed.

Lemma block_ok st : length st = 16%nat -> is_array 64 (block st).
Proof.
  intros L. unfold block. set (ws := zip_with _ _ _).
  assert (length ws = 16%nat) as Lw by (unfold ws; rewrite length_zip_with, length_rounds; lia).
  split.
  - rewrite (length_concat_blocks 4), length_map, Lw; [done|]. apply Forall_map, Forall_true. intros x. apply length_to_le_bytes.
  - apply is_bytes_concat, Forall_map, Forall_true. intros x. apply to_le_bytes_bytes.
Qed.

Lemma length_increment st : length (increment st) = length st.
Proof. unfold increment. case_match; by rewrite !length_insert. Qed.

#[global] Instance salsa20_stream : Keystream Salsa20Cipher next_byte.
Proof.
  refine {| ks_wf c := length (state c) = 16%nat /\ is_array 64 (keystream c) /\ (keystream_pos c <= 64)%nat |}.
  intros c (Hs & Hk & Hp). unfold next_byte.
  set (c' := if (64 <=? keystream_pos c)%nat then generate_keystream c else c).
  assert (length (state c') = 16%nat /\ is_array 64 (keystream c') /\ (keystream_pos c' < 64)%nat) as (Hs' & [Hl Hb] & Hp').
  { unfold c'. destruct (64 <=? keystream_pos c)%nat eqn:E.
    - cbn [generate_keystream state keystream keystream_pos]. rewrite length_increment. split; [done|]. split; [by apply block_ok|lia].
    - apply Nat.leb_gt in E. by split_and!. }
  destruct (lookup_lt_is_Some_2 (keystream c') (keystream_pos c')) as [k Hk']; [lia|].
  rewrite (vec_get_nat _ _ _ Hk'). simpl. eexists _, _. split; [done|]. split; [by eapply Forall_lookup_1|].
  simpl. split; [done|]. split; [done|lia].
Defined.

Lemma initial_length key iv n : length (initial_state key iv n) = 16%nat.
Proof. done. Qed.

Lemma new_wf key iv n c : salsa20_new key iv n = Ok c -> ks_wf c.
Proof.
  unfold salsa20_new. destruct (_ && _); [done|]. intros [= <-].
  cbn [ks_wf salsa20_stream generate_keystream state keystream keystream_pos]. split; [by rewrite length_increment|]. split; [by apply block_ok|lia].
Qed.

Lemma increment_counter st n :
  length st = 16%nat -> 0 <= n -> increment (with_counter st n) = with_counter st (n + 1).
Proof.
  intros L Hn. explode L. unfold increment, with_counter. cbn [insert list_insert lookup_total list_lookup_total].
  assert (wrap32 (wrap32 n + 1) = wrap32 (n + 1)) as E by (unfold wrap32, wrap; by rewrite Zplus_mod_idemp_l).
  rewrite E. clear E. destruct (wrap32 (n + 1) =? 0) eqn:E; do 9 f_equal; f_equal; unfold wrap32, wrap in *.
  - apply Z.eqb_eq in E. rewrite Zplus_mod_idemp_l. f_equal.
    apply Z.mod_divide in E as [q E]; [|lia]. rewrite E, Z.div_mul by lia.
    replace n with ((q - 1) * 2 ^ 32 + (2 ^ 32 - 1)) by lia. rewrite Z.div_add_l, Z.div_small by lia. lia.
  - apply Z.eqb_neq in E. f_equal. pose proof (Z.div_mod (n + 1) (2 ^ 32) ltac:(lia)).
    pose proof (Z.mod_pos_bound (n + 1) (2 ^ 32) ltac:(lia)).
    symmetry. apply (Z.div_unique n (2 ^ 32) _ ((n + 1) mod 2 ^ 32 - 1)); lia.
Qed.

(** The cipher is about to give byte [n] of the stream of [st]. *)
Definition at_pos (st : list Z) (c : Salsa20Cipher) (n : nat) : Prop :=
  exists q r, n = (q * 64 + r)%nat /\ (r <= 64)%nat /\ keystream c = block (with_counter st (Z.of_nat q)) /\
    keystream_pos c = r /\ state c = with_counter st (Z.of_nat q + 1).

Lemma length_with_counter st n : length (with_counter st n) = length st.
Proof. unfold with_counter. by rewrite !length_insert. Qed.

Lemma next_at st c n :
  length st = 16%nat -> at_pos st c n -> exists c', next_byte c = Ret (stream_byte st n, c') /\ at_pos st c' (S n).
Proof.
  intros L (q & r & Hn & Hr & Hk & Hp & Hs). unfold next_byte.
  set (c1 := if (64 <=? keystream_pos c)%nat then generate_keystream c else c).
  assert (exists q r, n = (q * 64 + r)%nat /\ (r < 64)%nat /\ keystream c1 = block (with_counter st (Z.of_nat q)) /\
    keystream_pos c1 = r /\ state c1 = with_counter st (Z.of_nat q + 1)) as (q' & r' & Hn' & Hr' & Hk' & Hp' & Hs').
  { unfold c1. destruct (64 <=? keystream_pos c)%nat eqn:E.
    - apply Nat.leb_le in E. exists (S q), 0%nat. cbn [generate_keystream state keystream keystream_pos].
      rewrite Hs, increment_counter by lia. replace (Z.of_nat (S q)) with (Z.of_nat q + 1) by lia.
      split; [lia|]. split; [lia|done].
    - apply Nat.leb_gt in E. exists q, r. split; [done|]. split; [lia|done]. }
  destruct (block_ok (with_counter st (Z.of_nat q'))) as [Lb _]; [by rewrite length_with_counter|].
  rewrite Hk', Hp'. rewrite (vec_get_nat _ _ (nth r' (block (with_counter st (Z.of_nat q'))) 0)).
  - cbn [mbind outcome_bind]. eexists. split.
    + do 2 f_equal. unfold stream_byte. rewrite Hn'.
      by rewrite Nat.add_comm, Nat.Div0.mod_add, Nat.mod_small, Nat.div_add, Nat.div_small by lia.
    + exists q', (S r'). cbn [state keystream keystream_pos]. split; [lia|]. split; [lia|]. by rewrite Hs'.
  - rewrite nth_lookup. destruct (lookup_lt_is_Some_2 (block (with_counter st (Z.of_nat q'))) r') as [b Hb]; [lia|].
    by rewrite Hb.
Qed.

Lemma xor_stream_at st c n data :
  length st = 16%nat -> at_pos st c n ->
  exists c', xor_stream next_byte c data = Ret (imap (fun i b => Z.lxor b (stream_byte st (n + i))) data, c').
Proof.
  intros L. revert c n. induction data as [|b data IH]; intros c n Hc; [by eexists|].
  destruct (next_at st c n L Hc) as (c1 & Hn & Hc1). destruct (IH c1 (S n) Hc1) as (c2 & E).
  cbn [xor_stream]. rewrite Hn. cbn [mbind outcome_bind]. rewrite E. cbn [mbind outcome_bind]. exists c2.
  cbn [imap]. rewrite Nat.add_0_r. do 3 f_equal. apply imap_ext. intros i x _. cbn [compose]. do 2 f_equal. lia.
Qed.

End Salsa20.

(** ** Theorems *)

(** C40: Salsa20 as the code runs it, block by block with a buffer, a lazily refilled
    key stream and a carry between two counter words, is the positional
    description: an 8-byte or 4-byte IV is accepted, and byte [n] of the data is
    XORed with byte [n mod 64] of the block with counter [n / 64]. *)
Theorem salsa20_reference data key iv block_index :
  Salsa20.decrypt_salsa20 data key iv block_index =
  Ret (if decide (length iv = 4%nat \/ length iv = 8%nat)
       then Ok (imap (fun n b => Z.lxor b (Salsa20.stream_byte (Salsa20.initial_state key iv block_index) n)) data)
       else Err (Salsa20.InvalidIvSize 4 (length iv))).
Proof.
  unfold Salsa20.decrypt_salsa20, Salsa20.salsa20_new.
  assert (negb (length iv =? 4)%nat && negb (length iv =? 8)%nat = negb (bool_decide (length iv = 4%nat \/ length iv = 8%nat))) as ->.
  { apply eq_true_iff_eq. rewrite andb_true_iff, !negb_true_iff, !Nat.eqb_neq, bool_decide_eq_false. lia. }
  rewrite (bool_decide_decide (length iv = _ \/ _)). destruct (decide _) as [H|H]; [|done]. cbn [negb try_bind].
  set (st := Salsa20.initial_state key iv block_index).
  destruct (Salsa20.xor_stream_at st (Salsa20.generate_keystream
    {| Salsa20.state := st; Salsa20.keystream := zeros 64; Salsa20.keystream_pos := 64 |}) 0 data) as [c' E].
  - done.
  - assert (Salsa20.with_counter st 0 = st) as E0 by reflexivity.
    exists 0%nat, 0%nat. cbn [Salsa20.generate_keystream Salsa20.state Salsa20.keystream Salsa20.keystream_pos].
    change (Z.of_nat 0) with 0. rewrite <- Salsa20.increment_counter, E0 by done. split; [done|]. split; [lia|done].
  - unfold Salsa20.salsa20_apply_keystream. rewrite E. done.
Qed.

(** Both ciphers accept exactly the documented key and IV lengths, never index
    their tables out of range, keep the length of the data, and decrypting with
    a fresh cipher for the same key gives the data back; ARC4's table is a
    permutation of the bytes throughout. *)
Theorem ciphers_roundtrip data key iv n :
  is_bytes data ->
  ((length iv = 4%nat \/ length iv = 8%nat) -> exists out,
     Salsa20.encrypt_salsa20 data key iv n = Ret (Ok out) /\ length out = length data /\ is_bytes out /\
     Salsa20.decrypt_salsa20 out key iv n = Ret (Ok data)) /\
  ((0 < length key <= 256)%nat -> exists c out c',
     Arc4.arc4_new key = Ret (Ok c) /\ Arc4.arc4_encrypt c data = Ret (out, c') /\ length out = length data /\ is_bytes out /\
     Arc4.box_ok (Arc4.s c') /\ Arc4.arc4_decrypt c out = Ret (data, c')).
Proof.
  intros Hd. split.
  - intros Hiv. unfold Salsa20.encrypt_salsa20, Salsa20.decrypt_salsa20, Salsa20.salsa20_apply_keystream.
    destruct (Salsa20.salsa20_new key iv n) as [c|e] eqn:E.
    + cbn [try_bind]. pose proof (Salsa20.new_wf _ _ _ _ E) as Hc.
      destruct (xor_stream_total c data Hc) as (out & c' & Ho & Hl & Hb & _). rewrite Ho. exists out. split; [done|].
      split; [done|]. split; [by apply Hb|]. by rewrite (xor_stream_involutive c data out c' Hc Ho).
    + exfalso. unfold Salsa20.salsa20_new in E. destruct Hiv as [H|H]; rewrite H in E; done.
  - intros Hk. destruct (Arc4.new_ok key Hk) as (c & Hn & Hc). exists c. unfold Arc4.arc4_encrypt, Arc4.arc4_decrypt, Arc4.arc4_encrypt.
    assert (ks_wf (next := Arc4.next_keystream_byte) c) as Hwf by exact Hc.
    destruct (xor_stream_total c data Hwf) as (out & c' & Ho & Hl & Hb & Hw & _).
    exists out, c'. do 3 (split; [done|]). split; [by apply Hb|]. split; [done|]. by apply xor_stream_involutive.
Qed.

Lemma ciphers_roundtrip_witness :
  exists out, Salsa20.encrypt_salsa20 [1; 2; 255] (zeros 16) (zeros 8) 7 = Ret (Ok out) /\
    Salsa20.decrypt_salsa20 out (zeros 16) (zeros 8) 7 = Ret (Ok [1; 2; 255]).
Proof.
  destruct (ciphers_roundtrip [1; 2; 255] (zeros 16) (zeros 8) 7 ltac:(decide_now)) as [H _].
  destruct H as (out & H1 & _ & _ & H2); [by right|]. exists out. split; [exact H1|exact H2].
Defined.

(** Known answers: "Plaintext" under the ARC4 key "Key", and the first bytes of the
    Salsa20 stream for the key 80 00 .. 00. *)
Example arc4_known_answer :
  (r ← Arc4.arc4_new [75; 101; 121];
   match r with Ok c => fst <$> Arc4.arc4_encrypt c [80; 108; 97; 105; 110; 116; 101; 120; 116] | Err _ => Panic end) =
  Ret [0xBB; 0xF3; 0x16; 0xE8; 0xD9; 0x40; 0xAF; 0x0A; 0xD3].
Proof. vm_compute. reflexivity. Qed.

Example salsa20_known_answer :
  Salsa20.encrypt_salsa20 (zeros 8) (128 :: zeros 15) (zeros 8) 0 = Ret (Ok [0x4D; 0xFA; 0x5E; 0x48; 0x1D; 0xA2; 0x3E; 0xA0]).
Proof. vm_compute. reflexivity. Qed.
