(* ===== verification/Blte.v ===== *)
(** * BLTE, the container of compressed and encrypted content

    crates/cascette-formats/src/blte: the header with its chunk table
    (header.rs), chunks (chunk.rs), compression and encryption of a chunk
    (compression.rs), whole files (mod.rs) and the builder (builder.rs).

    Reading is a function from the bytes ahead of the cursor to a value and the
    bytes behind it.  The zlib and LZ4 codecs and MD5 are libraries and stay
    parameters; the framing of LZ4 blocks is the repository's own and is
    modelled. *)

From S2P Require Import Prelude Bytes Ciphers.
Local Open Scope Z_scope.

Module Blte.

(** ** Errors *)

Inductive BlteError : Type :=
| InvalidMagic (magic : bytes)
| InvalidChunkCount (n : Z)
| EmptyChunk
| InvalidChunkSize (size : nat)
| UnknownCompressionMode (b : Z)
| CompressionError (why : string)
| InvalidIvSize (actual : Z)
| RecursionLimitExceeded (max_depth : nat)
| NestedEncryption
| SingleChunkEncrypted.

(** [binrw::Error]: the end of the data, or an error of the format. *)
Inductive BinError : Type := Eof | Custom (e : BlteError).

(** ** Reading *)

Definition read_exact (n : nat) (data : bytes) : result BinError (bytes * bytes) :=
  if (n <=? length data)%nat then Ok (take n data, drop n data) else Err Eof.

Definition read_u8 (data : bytes) : result BinError (Z * bytes) :=
  '(b, data) ← read_exact 1 data; Ok (nth 0 b 0, data).

Definition read_u32 (data : bytes) : result BinError (Z * bytes) :=
  '(b, data) ← read_exact 4 data; Ok (from_be_bytes b, data).

(** ** Chunks *)

Inductive CompressionMode : Type := None_ | ZLib | LZ4 | Encrypted | Frame.

#[global] Instance CompressionMode_eq_dec : EqDecision CompressionMode.
Proof. solve_decision. Defined.

Definition mode_from_byte (b : Z) : option CompressionMode :=
  if b =? 78 then Some None_ else if b =? 90 then Some ZLib else if b =? 52 then Some LZ4
  else if b =? 69 then Some Encrypted else if b =? 70 then Some Frame else None.

Definition mode_as_byte (m : CompressionMode) : Z :=
  match m with None_ => 78 | ZLib => 90 | LZ4 => 52 | Encrypted => 69 | Frame => 70 end.

Record ChunkData := { mode : CompressionMode; data : bytes; decompressed_size_ : option nat }.

Definition read_chunk (compressed_size : nat) (input : bytes) : result BinError (ChunkData * bytes) :=
  if (compressed_size =? 0)%nat then Err (Custom EmptyChunk)
  else
    '(mode_byte, input) ← read_u8 input;
    match mode_from_byte mode_byte with
    | None => Err (Custom (UnknownCompressionMode mode_byte))
    | Some mode =>
        '(d, input) ← read_exact (compressed_size - 1) input;
        Ok ({| mode := mode; data := d; decompressed_size_ := None |}, input)
    end.

Definition write_chunk (c : ChunkData) : bytes := mode_as_byte (mode c) :: data c.

Definition from_compressed (mode : CompressionMode) (data : bytes) (size : option nat) : ChunkData :=
  {| mode := mode; data := data; decompressed_size_ := size |}.

Definition compressed_data (c : ChunkData) : bytes := [mode_as_byte (mode c)] ++ data c.
Definition compressed_size (c : ChunkData) : nat := (1 + length (data c))%nat.
Definition decompressed_size (c : ChunkData) : nat := default (length (data c)) (decompressed_size_ c).

(** ** Headers *)

Definition BLTE_MAGIC : bytes := [66; 76; 84; 69].

Inductive HeaderFlags : Type := Standard | Extended.

#[global] Instance HeaderFlags_eq_dec : EqDecision HeaderFlags.
Proof. solve_decision. Defined.

Definition flags_from_byte (b : Z) : option HeaderFlags :=
  if b =? 0x0F then Some Standard else if b =? 0x10 then Some Extended else None.

Definition flags_as_byte (f : HeaderFlags) : Z := match f with Standard => 0x0F | Extended => 0x10 end.

Definition chunk_info_size (f : HeaderFlags) : nat := match f with Standard => 24 | Extended => 40 end.

Record ChunkInfo := {
  info_compressed_size : Z;
  info_decompressed_size : Z;
  checksum : bytes;
  decompressed_checksum : option bytes;
}.

Record ExtendedHeader := { flags : HeaderFlags; chunk_count_ : Z; chunk_infos : list ChunkInfo }.

Record BlteHeader := { magic : bytes; header_size : Z; extended : option ExtendedHeader }.

Definition read_chunk_info (flags : HeaderFlags) (input : bytes) : result BinError (ChunkInfo * bytes) :=
  '(c, input) ← read_u32 input;
  '(d, input) ← read_u32 input;
  '(sum, input) ← read_exact 16 input;
  '(dsum, input) ← (if bool_decide (flags = Extended)
                    then '(x, input) ← read_exact 16 input; Ok (Some x, input) else Ok (None, input));
  Ok ({| info_compressed_size := c; info_decompressed_size := d; checksum := sum; decompressed_checksum := dsum |}, input).

Definition write_chunk_info (flags : HeaderFlags) (i : ChunkInfo) : bytes :=
  to_be_bytes 4 (info_compressed_size i) ++ to_be_bytes 4 (info_decompressed_size i) ++ checksum i ++
  (if bool_decide (flags = Extended) then default (zeros 16) (decompressed_checksum i) else []).

Fixpoint read_chunk_infos (n : nat) (flags : HeaderFlags) (input : bytes) : result BinError (list ChunkInfo * bytes) :=
  match n with
  | O => Ok ([], input)
  | S n =>
      '(i, input) ← read_chunk_info flags input;
      '(infos, input) ← read_chunk_infos n flags input;
      Ok (i :: infos, input)
  end.

(** The flags byte goes through [expect]: an unknown value panics. *)
Definition read_extended (input : bytes) : outcome (result BinError (ExtendedHeader * bytes)) :=
  '(b, input) ←? Ret (read_u8 input);
  match flags_from_byte b with
  | None => Panic
  | Some flags =>
      '(x, input) ←? Ret (read_exact 3 input);
      let count := from_be_bytes x in
      '(infos, input) ←? Ret (read_chunk_infos (Z.to_nat count) flags input);
      Ret (Ok ({| flags := flags; chunk_count_ := count; chunk_infos := infos |}, input))
  end.

Definition write_extended (e : ExtendedHeader) : bytes :=
  [flags_as_byte (flags e)] ++
  [wrap8 (Z.shiftr (chunk_count_ e) 16); wrap8 (Z.shiftr (chunk_count_ e) 8); wrap8 (chunk_count_ e)] ++
  concat (map (write_chunk_info (flags e)) (chunk_infos e)).

Definition read_header (input : bytes) : outcome (result BinError (BlteHeader * bytes)) :=
  '(magic, input) ←? Ret (read_exact 4 input);
  if negb (bool_decide (magic = BLTE_MAGIC)) then Ret (Err (Custom (InvalidMagic magic)))
  else
    '(size, input) ←? Ret (read_u32 input);
    if 0 <? size then
      '(e, input) ←? read_extended input;
      Ret (Ok ({| magic := magic; header_size := size; extended := Some e |}, input))
    else Ret (Ok ({| magic := magic; header_size := size; extended := None |}, input)).

Definition write_header (h : BlteHeader) : bytes :=
  magic h ++ to_be_bytes 4 (header_size h) ++ match extended h with Some e => write_extended e | None => [] end.

Definition header_single_chunk : BlteHeader := {| magic := BLTE_MAGIC; header_size := 0; extended := None |}.

Definition is_single_chunk (h : BlteHeader) : bool := header_size h =? 0.

Definition header_chunk_count (h : BlteHeader) : Z :=
  match extended h with Some e => chunk_count_ e | None => 1 end.

Definition data_offset (h : BlteHeader) : Z := if is_single_chunk h then 8 else header_size h.

(** ** Files *)

Record BlteFile := { header : BlteHeader; chunks : list ChunkData }.

Fixpoint read_chunks (infos : list ChunkInfo) (input : bytes) : result BinError (list ChunkData * bytes) :=
  match infos with
  | [] => Ok ([], input)
  | i :: infos =>
      '(c, input) ← read_chunk (Z.to_nat (info_compressed_size i)) input;
      '(cs, input) ← read_chunks infos input;
      Ok (c :: cs, input)
  end.

(** [BlteFile::parse]. *)
Definition parse (input : bytes) : outcome (result BinError BlteFile) :=
  '(h, input) ←? read_header input;
  if is_single_chunk h then
    if (0 <? length input)%nat then
      '(c, _) ←? Ret (read_chunk (length input) input);
      Ret (Ok {| header := h; chunks := [c] |})
    else Ret (Ok {| header := h; chunks := [] |})
  else
    '(cs, _) ←? Ret (match extended h with Some e => read_chunks (chunk_infos e) input | None => Ok ([], input) end);
    Ret (Ok {| header := h; chunks := cs |}).

(** [build]. *)
Definition build (f : BlteFile) : bytes := write_header (header f) ++ concat (map write_chunk (chunks f)).

(** ** LZ4 framing *)

Definition LZ4_DEFAULT_BLOCK_SIZE : nat := Z.to_nat 0x4000.
Definition LZ4_DICT_WINDOW : nat := Z.to_nat (64 * 1024).
Definition LZ4_HEADER_SIZE : nat := 10.
Definition MAX_DECOMPRESSION_SIZE : Z := 1024 * 1024 * 1024.
Definition MAX_FRAME_DEPTH : nat := 1.

(** The length extension loops: bytes are added up to the first that is not 255.
    [Err] is the truncation message. *)
Fixpoint read_ext (why : string) (len : nat) (src : bytes) : result BlteError (nat * bytes) :=
  match src with
  | [] => Err (CompressionError why)
  | ext :: src => if ext =? 255 then read_ext why (len + 255) src else Ok ((len + Z.to_nat ext)%nat, src)
  end.

(** A length of a token: the nibble, extended if it is 15. *)
Definition read_len (why : string) (nibble : nat) (src : bytes) : result BlteError (nat * bytes) :=
  if (nibble =? 15)%nat then read_ext why nibble src else Ok (nibble, src).

(** The walk over the token stream of one block: [src] is what is left of the
    input, [block_out] the output so far; the result is the input behind the
    block.  Every iteration consumes a token, so [fuel] is the input length. *)
Fixpoint walk_block (fuel : nat) (cap block_out : nat) (src : bytes) : result BlteError bytes :=
  match fuel with
  | O => Err (CompressionError "truncated block stream")
  | S fuel =>
      match src with
      | [] => Err (CompressionError "truncated block stream")
      | token :: src =>
          '(lit_len, src) ← read_len "truncated literal length" (Z.to_nat (Z.shiftr token 4)) src;
          if (length src <? lit_len)%nat then Err (CompressionError "literals exceed block stream")
          else
            let src := drop lit_len src in
            let block_out := (block_out + lit_len)%nat in
            if (cap <? block_out)%nat then Err (CompressionError "block output exceeds cap")
            else if (block_out =? cap)%nat || (length src =? 0)%nat then Ok src
            else if (length src <? 2)%nat then Err (CompressionError "truncated match offset")
            else
              '(match_len, src) ← read_len "truncated match length" (Z.to_nat (Z.land token 0x0F)) (drop 2 src);
              let block_out := (block_out + (match_len + 4))%nat in
              if (cap <? block_out)%nat then Err (CompressionError "block output exceeds cap")
              else walk_block fuel cap block_out src
      end
  end.

Section Codecs.

(** [Md5::digest]; flate2's encoder ([None] is an error) and the reads its
    decoder yields, with whether they end without an error; lz4_flex's block
    functions. *)
Context (md5 : bytes -> bytes).
Context (zlib_compress : bytes -> option bytes) (zlib_reads : bytes -> list bytes * bool).
Context (lz4_compress : bytes -> bytes) (lz4_compress_with_dict : bytes -> bytes -> bytes).
Context (lz4_decompress_with_dict : bytes -> nat -> bytes -> option bytes).

(** The loop of the LZ4 arm of [compress_chunk]. *)
Fixpoint lz4_blocks (fuel : nat) (dict_tail data : bytes) : bytes :=
  match fuel with
  | O => []
  | S fuel =>
      if (length data =? 0)%nat then []
      else
        let n := Nat.min (length data) LZ4_DEFAULT_BLOCK_SIZE in
        let input := take n data in
        let block := if (length dict_tail =? 0)%nat then lz4_compress input else lz4_compress_with_dict input dict_tail in
        let dict_tail := dict_tail ++ input in
        let keep := Nat.min (length dict_tail) LZ4_DICT_WINDOW in
        block ++ lz4_blocks fuel (drop (length dict_tail - keep) dict_tail) (drop n data)
  end.

Definition compress_lz4 (data : bytes) : bytes :=
  let blocks := lz4_blocks (S (length data)) [] data in
  [1] ++ to_be_bytes 4 (wrap32 (Z.of_nat (length blocks))) ++ to_be_bytes 4 (wrap32 (Z.of_nat (length data))) ++ [14] ++ blocks.

Definition compress_chunk (data : bytes) (mode : CompressionMode) : result BlteError bytes :=
  match mode with
  | None_ => Ok data
  | ZLib => ok_or (zlib_compress data) (CompressionError "ZLib compression failed")
  | LZ4 => Ok (compress_lz4 data)
  | Encrypted => Err (CompressionError "Use encrypt_chunk_with_key for encryption mode")
  | Frame => Err (CompressionError "Frame (recursive BLTE) compression is not supported")
  end.

(** The read loop of the zlib arm: the limit is checked before each read is kept. *)
Fixpoint zlib_collect (out : bytes) (reads : list bytes) (ok : bool) : result BlteError bytes :=
  match reads with
  | [] => if ok then Ok out else Err (CompressionError "ZLib decompression failed")
  | r :: reads =>
      if MAX_DECOMPRESSION_SIZE <? Z.of_nat (length out + length r)
      then Err (CompressionError "Decompressed size exceeds limit")
      else zlib_collect (out ++ r) reads ok
  end.

(** The outer loop of [decompress_lz4_bnl]; an iteration adds [cap] bytes, at least
    one, or fails, so that the [fuel] it is started with never runs out
    ([Panic] stands for that here). *)
Fixpoint lz4_decode (fuel : nat) (block_size total : nat) (out src : bytes) : outcome (result BlteError bytes) :=
  match fuel with
  | O => Panic
  | S fuel =>
      if (length out <? total)%nat then
        let cap := Nat.min (total - length out) block_size in
        match walk_block (S (length src)) cap 0 src with
        | Err e => Ret (Err e)
        | Ok rest =>
            let dict := drop (length out - LZ4_DICT_WINDOW) out in
            match lz4_decompress_with_dict (take (length src - length rest) src) cap dict with
            | None => Ret (Err (CompressionError "LZ4 decompression failed"))
            | Some decoded =>
                if negb (length decoded =? cap)%nat then Ret (Err (CompressionError "block decompressed to another size"))
                else lz4_decode fuel block_size total (out ++ decoded) rest
            end
        end
      else if negb (length src =? 0)%nat then Ret (Err (CompressionError "trailing bytes after the final block"))
      else Ret (Ok out)
  end.

Definition decompress_lz4_bnl (data : bytes) : outcome (result BlteError bytes) :=
  if (length data <? LZ4_HEADER_SIZE)%nat then Ret (Err (CompressionError "data too short for the 10-byte bnl header"))
  else if negb (nth 0 data 0 =? 1) then Ret (Err (CompressionError "unsupported format byte"))
  else
    let compressed_total := from_be_bytes (slice 1 5 data) in
    let decompressed_total := from_be_bytes (slice 5 9 data) in
    let exponent := nth 9 data 0 in
    if 32 <=? exponent then Ret (Err (CompressionError "block-size exponent out of range"))
    else
      let block_size := 2 ^ exponent in
      if (block_size <=? 0x400) || (0x10000 <? block_size) then Ret (Err (CompressionError "block size out of range"))
      else if MAX_DECOMPRESSION_SIZE <? decompressed_total then Ret (Err (CompressionError "decompressed size exceeds limit"))
      else if negb (compressed_total + Z.of_nat LZ4_HEADER_SIZE =? Z.of_nat (length data))
      then Ret (Err (CompressionError "header compressed total does not match payload size"))
      else lz4_decode (S (Z.to_nat decompressed_total)) (Z.to_nat block_size) (Z.to_nat decompressed_total) []
             (drop LZ4_HEADER_SIZE data).

(** ** Decompression *)

(** A loop that appends what [f] makes of each chunk, up to the first error. *)
Fixpoint append_each {A} (f : nat -> A -> outcome (result BlteError bytes)) (index : nat) (l : list A) :
    outcome (result BlteError bytes) :=
  match l with
  | [] => Ret (Ok [])
  | x :: l => d ←? f index x; rest ←? append_each f (S index) l; Ret (Ok (d ++ rest))
  end.

(** [decompress_chunk_recursive] with [depth] counted down from [MAX_FRAME_DEPTH]. *)
Fixpoint decompress_chunk_recursive (levels : nat) (data_ : bytes) (mode_ : CompressionMode) : outcome (result BlteError bytes) :=
  match mode_ with
  | None_ => Ret (Ok data_)
  | ZLib => let '(reads, ok) := zlib_reads data_ in Ret (zlib_collect [] reads ok)
  | LZ4 => decompress_lz4_bnl data_
  | Encrypted => Ret (Err (CompressionError "Use decrypt_chunk_with_keys for encrypted chunks"))
  | Frame =>
      match levels with
      | O => Ret (Err (RecursionLimitExceeded MAX_FRAME_DEPTH))
      | S levels =>
          r ← parse data_;
          match r with
          | Err _ => Ret (Err (CompressionError "Failed to parse inner BLTE frame"))
          | Ok inner => append_each (fun _ c => decompress_chunk_recursive levels (data c) (mode c)) 0 (chunks inner)
          end
      end
  end.

Definition decompress_chunk (data : bytes) (mode : CompressionMode) : outcome (result BlteError bytes) :=
  decompress_chunk_recursive MAX_FRAME_DEPTH data mode.

Definition chunk_decompress (c : ChunkData) : outcome (result BlteError bytes) := decompress_chunk (data c) (mode c).

(** [BlteFile::decompress]. *)
Definition decompress (f : BlteFile) : outcome (result BlteError bytes) :=
  append_each (fun _ c => chunk_decompress c) 0 (chunks f).

Definition verify_checksum (c : ChunkData) (sum : bytes) : bool :=
  if bool_decide (sum = zeros 16) then true else bool_decide (md5 (compressed_data c) = sum).

(** ** Encryption of a chunk *)

Record EncryptionSpec := { key_name : Z; iv : bytes; encryption_type : Z }.

Definition spec_salsa20 (key_name : Z) (iv : bytes) : EncryptionSpec :=
  {| key_name := key_name; iv := iv; encryption_type := 0x53 |}.
Definition spec_arc4 (key_name : Z) (iv : bytes) : EncryptionSpec :=
  {| key_name := key_name; iv := iv; encryption_type := 0x41 |}.

(** One arm per cipher; [why] prefixes the error of a cipher that refuses its key. *)
Definition run_cipher (encrypting : bool) (type : Z) (input key iv : bytes) (block_index : nat) : outcome (result BlteError bytes) :=
  if type =? 0x53 then
    r ← (if encrypting then Salsa20.encrypt_salsa20 else Salsa20.decrypt_salsa20) input key iv (Z.of_nat block_index);
    Ret (match r with
         | Ok out => Ok out
         | Err _ => Err (CompressionError (if encrypting then "Salsa20 encryption failed" else "Salsa20 decryption failed"))
         end)
  else if type =? 0x41 then
    r ← Arc4.arc4_new key;
    match r with
    | Err _ => Ret (Err (CompressionError "ARC4 initialization failed"))
    | Ok c => '(out, _) ← (if encrypting then Arc4.arc4_encrypt else Arc4.arc4_decrypt) c input; Ret (Ok out)
    end
  else Ret (Err (CompressionError "Unknown encryption type")).

Definition encrypt_chunk_with_key (input : bytes) (spec : EncryptionSpec) (key : bytes) (block_index : nat) :
    outcome (result BlteError bytes) :=
  encrypted ←? run_cipher true (encryption_type spec) input key (iv spec) block_index;
  Ret (Ok ([8] ++ to_le_bytes 8 (key_name spec) ++ [4] ++ iv spec ++ [encryption_type spec] ++ encrypted)).

(** [get_key] is the method of [TactKeyProvider]; [None] is its error. *)
Definition decrypt_chunk_with_keys (get_key : Z -> option (option bytes)) (input : bytes) (block_index : nat) :
    outcome (result BlteError bytes) :=
  if (length input <? 17)%nat then Ret (Err (CompressionError "Encrypted chunk too short"))
  else if negb (nth 0 input 0 =? 8) then Ret (Err (CompressionError "Invalid key name size"))
  else
    match get_key (from_le_bytes (slice 1 9 input)) with
    | None => Ret (Err (CompressionError "Key lookup failed"))
    | Some None => Ret (Err (CompressionError "Encryption key not found"))
    | Some (Some key) =>
        let iv_size := nth 9 input 0 in
        if negb (iv_size =? 4) && negb (iv_size =? 8) then Ret (Err (InvalidIvSize iv_size))
        else
          let iv_len := Z.to_nat iv_size in
          if (length input <? 10 + iv_len)%nat then Ret (Err (CompressionError "Encrypted chunk too short for IV"))
          else if (length input <? 10 + iv_len + 1)%nat
          then Ret (Err (CompressionError "Encrypted chunk too short for encryption type"))
          else
            out ←? run_cipher false (nth (10 + iv_len) input 0) (drop (11 + iv_len) input) key
                     (slice 10 (10 + iv_len) input) block_index;
            match out with
            | b :: rest =>
                match mode_from_byte b with
                | Some Encrypted => Ret (Err NestedEncryption)
                | Some inner_mode => decompress_chunk rest inner_mode
                | None => Ret (Ok out)
                end
            | [] => Ret (Ok out)
            end
    end.

(** [decompress_with_keys]: frames recurse without a limit on the depth; the data of
    an inner file is shorter, and [fuel] is more than the data of the file. *)
Fixpoint decompress_with_keys (fuel : nat) (get_key : Z -> option (option bytes)) (f : BlteFile) : outcome (result BlteError bytes) :=
  match fuel with
  | O => Panic
  | S fuel =>
      if is_single_chunk (header f) && match chunks f with c :: _ => bool_decide (mode c = Encrypted) | [] => false end
      then Ret (Err SingleChunkEncrypted)
      else
        append_each (fun index c =>
          if bool_decide (mode c = Encrypted) then decrypt_chunk_with_keys get_key (data c) index
          else if bool_decide (mode c = Frame) then
            r ← parse (data c);
            match r with
            | Err _ => Ret (Err (CompressionError "Failed to parse inner BLTE frame"))
            | Ok inner => decompress_with_keys fuel get_key inner
            end
          else chunk_decompress c) 0 (chunks f)
  end.

(** ** Making files *)

(** [ChunkData::new]. *)
Definition chunk_new (d : bytes) (m : CompressionMode) : result BlteError ChunkData :=
  if bool_decide (m = None_) then Ok {| mode := m; data := d; decompressed_size_ := Some (length d) |}
  else
    compressed ← compress_chunk d m;
    Ok {| mode := m; data := compressed; decompressed_size_ := Some (length d) |}.

Definition from_chunk_data (c : ChunkData) : ChunkInfo :=
  let compressed := compressed_data c in
  {| info_compressed_size := wrap32 (Z.of_nat (length compressed));
     info_decompressed_size := wrap32 (Z.of_nat (decompressed_size c));
     checksum := md5 compressed; decompressed_checksum := None |}.

Definition from_chunk_data_extended (c : ChunkData) : outcome ChunkInfo :=
  let compressed := compressed_data c in
  r ← chunk_decompress c;
  let decompressed := match r with Ok d => d | Err _ => compressed end in
  Ret {| info_compressed_size := wrap32 (Z.of_nat (length compressed));
         info_decompressed_size := wrap32 (Z.of_nat (decompressed_size c));
         checksum := md5 compressed; decompressed_checksum := Some (md5 decompressed) |}.

(** [multi_chunk_with_flags] for the two formats. *)
Definition table_header (flags : HeaderFlags) (n : nat) (infos : list ChunkInfo) : BlteHeader :=
  {| magic := BLTE_MAGIC; header_size := wrap32 (12 + Z.of_nat n * Z.of_nat (chunk_info_size flags));
     extended := Some {| flags := flags; chunk_count_ := wrap32 (Z.of_nat n); chunk_infos := infos |} |}.

Definition chunk_count_checked (n : nat) : result BlteError unit :=
  if (n =? 0)%nat then Err (InvalidChunkCount 0)
  else if 0xFFFFFF <? Z.of_nat n then Err (InvalidChunkCount (wrap32 (Z.of_nat n)))
  else Ok tt.

Definition header_multi_chunk (cs : list ChunkData) : result BlteError BlteHeader :=
  _ ← chunk_count_checked (length cs);
  Ok (table_header Standard (length cs) (map from_chunk_data cs)).

Fixpoint infos_extended (cs : list ChunkData) : outcome (list ChunkInfo) :=
  match cs with
  | [] => Ret []
  | c :: cs => i ← from_chunk_data_extended c; infos ← infos_extended cs; Ret (i :: infos)
  end.

Definition header_multi_chunk_extended (cs : list ChunkData) : outcome (result BlteError BlteHeader) :=
  _ ←? Ret (chunk_count_checked (length cs));
  infos ← infos_extended cs;
  Ret (Ok (table_header Extended (length cs) infos)).

Definition single_chunk (d : bytes) (m : CompressionMode) : result BlteError BlteFile :=
  c ← chunk_new d m;
  Ok {| header := header_single_chunk; chunks := [c] |}.

Definition multi_chunk (cs : list ChunkData) : result BlteError BlteFile :=
  h ← header_multi_chunk cs;
  Ok {| header := h; chunks := cs |}.

(** The chunking loop of [compress] and of the builder: [make] makes the chunk of
    an index.  A chunk size of zero never ends: [Panic] is a run longer than
    [fuel]. *)
Fixpoint split_loop (make : bytes -> nat -> outcome (result BlteError ChunkData)) (fuel size : nat) (d : bytes) (index : nat) :
    outcome (result BlteError (list ChunkData)) :=
  if (length d =? 0)%nat then Ret (Ok [])
  else
    match fuel with
    | O => Panic
    | S fuel =>
        let n := Nat.min size (length d) in
        c ←? make (take n d) index;
        cs ←? split_loop make fuel size (drop n d) (S index);
        Ret (Ok (c :: cs))
    end.

(** [BlteFile::compress]. *)
Definition compress (d : bytes) (chunk_size : nat) (m : CompressionMode) : outcome (result BlteError BlteFile) :=
  if (length d <=? chunk_size)%nat then Ret (single_chunk d m)
  else
    cs ←? split_loop (fun x _ => Ret (chunk_new x m)) (length d) chunk_size d 0;
    Ret (multi_chunk cs).

(** ** The builder *)

Definition MIN_CHUNK_SIZE : nat := 1024.
Definition MAX_CHUNK_SIZE : nat := Z.to_nat (16 * 1024 * 1024).
Definition DEFAULT_CHUNK_SIZE : nat := Z.to_nat (256 * 1024).

Record BlteBuilder := {
  b_chunks : list ChunkData;
  default_mode : CompressionMode;
  chunk_size : nat;
  encryption : option (EncryptionSpec * bytes);
}.

Definition builder_new : BlteBuilder :=
  {| b_chunks := []; default_mode := None_; chunk_size := DEFAULT_CHUNK_SIZE; encryption := None |}.

Definition push_chunks (b : BlteBuilder) (cs : list ChunkData) : BlteBuilder :=
  {| b_chunks := b_chunks b ++ cs; default_mode := default_mode b; chunk_size := chunk_size b; encryption := encryption b |}.

Definition with_compression (b : BlteBuilder) (m : CompressionMode) : BlteBuilder :=
  {| b_chunks := b_chunks b; default_mode := m; chunk_size := chunk_size b; encryption := encryption b |}.

Definition with_chunk_size_unchecked (b : BlteBuilder) (size : nat) : BlteBuilder :=
  {| b_chunks := b_chunks b; default_mode := default_mode b; chunk_size := size; encryption := encryption b |}.

Definition with_chunk_size (b : BlteBuilder) (size : nat) : result BlteError BlteBuilder :=
  if negb ((MIN_CHUNK_SIZE <=? size)%nat && (size <=? MAX_CHUNK_SIZE)%nat) then Err (InvalidChunkSize size)
  else Ok (with_chunk_size_unchecked b size).

Definition with_encryption (b : BlteBuilder) (spec : EncryptionSpec) (key : bytes) : BlteBuilder :=
  {| b_chunks := b_chunks b; default_mode := default_mode b; chunk_size := chunk_size b; encryption := Some (spec, key) |}.

Definition without_encryption (b : BlteBuilder) : BlteBuilder :=
  {| b_chunks := b_chunks b; default_mode := default_mode b; chunk_size := chunk_size b; encryption := None |}.

Definition add_chunk (b : BlteBuilder) (c : ChunkData) : BlteBuilder := push_chunks b [c].

Definition build_inner_payload (b : BlteBuilder) (d : bytes) : result BlteError bytes :=
  let inner_mode := if negb (bool_decide (default_mode b = None_)) && negb (bool_decide (default_mode b = Encrypted))
                    then default_mode b else None_ in
  if bool_decide (inner_mode = None_) then Ok ([mode_as_byte None_] ++ d)
  else compressed ← compress_chunk d inner_mode; Ok ([mode_as_byte inner_mode] ++ compressed).

(** [create_encrypted_chunk_with_params]; [create_encrypted_chunk] with the
    parameters of the builder. *)
Definition create_encrypted_chunk (b : BlteBuilder) (d : bytes) (spec : EncryptionSpec) (key : bytes) (block_index : nat) :
    outcome (result BlteError ChunkData) :=
  inner ←? Ret (build_inner_payload b d);
  encrypted ←? encrypt_chunk_with_key inner spec key block_index;
  Ret (Ok (from_compressed Encrypted encrypted (Some (length inner)))).

(** The chunk of one piece of data, encrypted or not. *)
Definition make_chunk (b : BlteBuilder) (enc : option (EncryptionSpec * bytes)) (d : bytes) (index : nat) :
    outcome (result BlteError ChunkData) :=
  match enc with
  | Some (spec, key) => create_encrypted_chunk b d spec key index
  | None => Ret (chunk_new d (default_mode b))
  end.

(** The common body of [add_data] and [add_mixed_data]. *)
Definition add_pieces (b : BlteBuilder) (enc : option (EncryptionSpec * bytes)) (d : bytes) (first : nat) :
    outcome (result BlteError BlteBuilder) :=
  if (length d <=? chunk_size b)%nat then
    c ←? make_chunk b enc d first;
    Ret (Ok (push_chunks b [c]))
  else
    cs ←? split_loop (make_chunk b enc) (length d) (chunk_size b) d first;
    Ret (Ok (push_chunks b cs)).

(** [add_data] numbers the chunks from zero, [add_mixed_data] from the chunks there are. *)
Definition add_data (b : BlteBuilder) (d : bytes) : outcome (result BlteError BlteBuilder) :=
  add_pieces b (encryption b) d 0.

Definition add_mixed_data (b : BlteBuilder) (d : bytes) (enc : option (EncryptionSpec * bytes)) :
    outcome (result BlteError BlteBuilder) :=
  add_pieces b enc d (length (b_chunks b)).

Definition add_encrypted_data (b : BlteBuilder) (d : bytes) (spec : EncryptionSpec) (key : bytes) (block_index : nat) :
    outcome (result BlteError BlteBuilder) :=
  c ←? create_encrypted_chunk b d spec key block_index;
  Ret (Ok (push_chunks b [c])).

Definition builder_build (b : BlteBuilder) : result BlteError BlteFile :=
  match b_chunks b with
  | [] => Err (InvalidChunkCount 0)
  | _ =>
      let has_encrypted := existsb (fun c => bool_decide (mode c = Encrypted)) (b_chunks b) in
      if (length (b_chunks b) =? 1)%nat && negb has_encrypted
      then Ok {| header := header_single_chunk; chunks := b_chunks b |}
      else h ← header_multi_chunk (b_chunks b); Ok {| header := h; chunks := b_chunks b |}
  end.

End Codecs.

End Blte.
