(* ===== verification/BlteTheorems.v ===== *)
(** * Correctness of BLTE

    Files read back as written, compression and encryption are undone, the LZ4
    framing finds the blocks, and decompression ends and is bounded. *)

From S2P Require Import Prelude Bytes Ciphers Blte.
Import Blte.
Local Open Scope Z_scope.

(** ** Reading what was written *)

Lemma read_exact_behind n x rest : length x = n -> read_exact n (x ++ rest) = Ok (x, rest).
Proof.
  intros <-. unfold read_exact. rewrite (proj2 (Nat.leb_le _ _)) by (rewrite length_app; lia).
  by rewrite take_app_length, drop_app_length.
Qed.

Lemma read_u8_app b rest : read_u8 (b :: rest) = Ok (b, rest).
Proof. done. Qed.

Lemma read_u32_app v rest : u32 v -> read_u32 (to_be_bytes 4 v ++ rest) = Ok (v, rest).
Proof.
  intros Hv. unfold read_u32. rewrite read_exact_behind by apply length_to_be_bytes. simpl.
  by rewrite (be_roundtrip 4 32).
Qed.

Lemma mode_byte_roundtrip m : mode_from_byte (mode_as_byte m) = Some m.
Proof. by destruct m. Qed.

(** A chunk as it comes back: the decompressed size is not stored in it. *)
Definition reread (c : ChunkData) : ChunkData := {| mode := mode c; data := data c; decompressed_size_ := None |}.

Lemma read_chunk_app c rest : read_chunk (compressed_size c) (write_chunk c ++ rest) = Ok (reread c, rest).
Proof.
  unfold read_chunk, compressed_size, write_chunk. cbn [Nat.add Nat.eqb app].
  rewrite read_u8_app. cbn [mbind result_bind]. rewrite mode_byte_roundtrip.
  replace (S (length (data c)) - 1)%nat with (length (data c)) by lia. by rewrite read_exact_behind.
Qed.

Definition info_ok (f : HeaderFlags) (i : ChunkInfo) : Prop :=
  u32 (info_compressed_size i) /\ u32 (info_decompressed_size i) /\ length (checksum i) = 16%nat /\
  match f with
  | Standard => decompressed_checksum i = None
  | Extended => exists x, decompressed_checksum i = Some x /\ length x = 16%nat
  end.

Lemma read_chunk_info_app f i rest : info_ok f i -> read_chunk_info f (write_chunk_info f i ++ rest) = Ok (i, rest).
Proof.
  intros (H1 & H2 & H3 & H4). unfold read_chunk_info, write_chunk_info. rewrite <- !app_assoc.
  rewrite read_u32_app by done. cbn [mbind result_bind]. rewrite read_u32_app by done. cbn [mbind result_bind].
  rewrite read_exact_behind by done. cbn [mbind result_bind]. destruct i as [a b s d]. simpl in *. destruct f.
  - subst d. done.
  - destruct H4 as (x & -> & Hx). simpl. rewrite read_exact_behind by done. done.
Qed.

Lemma read_chunk_infos_app f infos rest :
  Forall (info_ok f) infos ->
  read_chunk_infos (length infos) f (concat (map (write_chunk_info f) infos) ++ rest) = Ok (infos, rest).
Proof.
  induction 1 as [|i infos Hi His IH]; [done|]. cbn [length read_chunk_infos map concat]. rewrite <- app_assoc.
  rewrite read_chunk_info_app by done. cbn [mbind result_bind]. by rewrite IH.
Qed.

Lemma count_bytes n : 0 <= n < 2 ^ 24 -> [wrap8 (Z.shiftr n 16); wrap8 (Z.shiftr n 8); wrap8 n] = to_be_bytes 3 n.
Proof.
  intros Hn. unfold to_be_bytes. cbn [to_le_bytes]. unfold reverse. cbn [rev_append]. unfold wrap8, wrap.
  rewrite !Z.shiftr_div_pow2, Z.div_div by lia. done.
Qed.

Definition extended_ok (e : ExtendedHeader) : Prop :=
  chunk_count_ e = Z.of_nat (length (chunk_infos e)) /\ chunk_count_ e < 2 ^ 24 /\ Forall (info_ok (flags e)) (chunk_infos e).

Lemma read_extended_app e rest : extended_ok e -> read_extended (write_extended e ++ rest) = Ret (Ok (e, rest)).
Proof.
  intros (H1 & H2 & H3). unfold read_extended, write_extended. rewrite count_bytes by lia.
  rewrite <- !app_assoc. cbn [app]. rewrite read_u8_app. cbn [try_bind].
  assert (flags_from_byte (flags_as_byte (flags e)) = Some (flags e)) as -> by (by destruct (flags e)).
  rewrite read_exact_behind by apply length_to_be_bytes. cbn [try_bind].
  rewrite (be_roundtrip 3 24) by (done || unfold in_u; lia). rewrite H1, Nat2Z.id, read_chunk_infos_app by done.
  cbn [try_bind]. destruct e as [f n infos]. simpl in *. by subst n.
Qed.

Definition header_ok (h : BlteHeader) : Prop :=
  magic h = BLTE_MAGIC /\ u32 (header_size h) /\
  match extended h with Some e => 0 < header_size h /\ extended_ok e | None => header_size h = 0 end.

Lemma read_header_app h rest : header_ok h -> read_header (write_header h ++ rest) = Ret (Ok (h, rest)).
Proof.
  intros (H1 & H2 & H3). unfold read_header, write_header. rewrite H1, <- !app_assoc, read_exact_behind by done.
  cbn [try_bind]. rewrite bool_decide_true by done. cbn [negb]. rewrite read_u32_app by done. cbn [try_bind].
  destruct h as [m s [e|]]; cbn [magic header_size extended] in *; subst m.
  - destruct H3 as [H3 H4]. rewrite (proj2 (Z.ltb_lt _ _)) by done. by rewrite read_extended_app.
  - by rewrite H3.
Qed.

Lemma read_chunks_app cs infos rest :
  Forall2 (fun c i => Z.to_nat (info_compressed_size i) = compressed_size c) cs infos ->
  read_chunks infos (concat (map write_chunk cs) ++ rest) = Ok (map reread cs, rest).
Proof.
  induction 1 as [|c i cs infos Hi Hcs IH]; [done|]. cbn [read_chunks map concat]. rewrite Hi, <- app_assoc.
  rewrite read_chunk_app. cbn [mbind result_bind]. by rewrite IH.
Qed.

(** A file whose header describes its chunks. *)
Definition file_ok (f : BlteFile) : Prop :=
  header_ok (header f) /\
  match extended (header f) with
  | Some e => Forall2 (fun c i => Z.to_nat (info_compressed_size i) = compressed_size c) (chunks f) (chunk_infos e)
  | None => (length (chunks f) <= 1)%nat
  end.

Definition reread_file (f : BlteFile) : BlteFile := {| header := header f; chunks := map reread (chunks f) |}.

Lemma parse_build f : file_ok f -> parse (build f) = Ret (Ok (reread_file f)).
Proof.
  intros [Hh Hc]. unfold parse, build, reread_file. rewrite read_header_app by done. cbn [try_bind].
  destruct Hh as (Hm & Hs & He). unfold is_single_chunk. destruct (extended (header f)) as [e|] eqn:Ee.
  - destruct He as [He _]. rewrite (proj2 (Z.eqb_neq _ _)) by lia.
    pose proof (read_chunks_app _ _ [] Hc) as H. rewrite app_nil_r in H. by rewrite H.
  - rewrite He. cbn [Z.eqb]. destruct (chunks f) as [|c [|c' cs]]; [done| |simpl in Hc; lia].
    cbn [map concat]. rewrite app_nil_r. cbn [write_chunk length Nat.ltb Nat.leb].
    change (S (length (data c))) with (compressed_size c). change (mode_as_byte (mode c) :: data c) with (write_chunk c).
    pose proof (read_chunk_app c []) as H. rewrite app_nil_r in H. by rewrite H.
Qed.

(** ** The LZ4 block format

    A block is a sequence of literals and matches that ends with literals; a
    length of 15 or more spills over into extension bytes. *)

Record sequence := { lits : bytes; match_offset : bytes; match_length : nat }.

Definition nibble (n : nat) : Z := Z.of_nat (Nat.min n 15).
Definition extension (n : nat) : bytes :=
  if (n <? 15)%nat then [] else replicate ((n - 15) / 255) 255 ++ [Z.of_nat ((n - 15) mod 255)].

Definition encode_seq (s : sequence) : bytes :=
  [16 * nibble (length (lits s)) + nibble (match_length s - 4)] ++ extension (length (lits s)) ++ lits s ++
  match_offset s ++ extension (match_length s - 4).

Definition encode_last (l : bytes) : bytes := [16 * nibble (length l)] ++ extension (length l) ++ l.

Definition encode_block (ss : list sequence) (last : bytes) : bytes := concat (map encode_seq ss) ++ encode_last last.

Definition seq_ok (s : sequence) : Prop := length (match_offset s) = 2%nat /\ (4 <= match_length s)%nat.

(** The length of what a block decompresses to. *)
Definition output_length (ss : list sequence) (last : bytes) : nat :=
  (list_sum (map (fun s => length (lits s) + match_length s) ss) + length last)%nat.

Lemma read_ext_app why len k r src :
  (r < 255)%nat -> read_ext why len (replicate k 255 ++ [Z.of_nat r] ++ src) = Ok ((len + 255 * k + r)%nat, src).
Proof.
  intros Hr. revert len. induction k as [|k IH]; intros len; simpl.
  - rewrite (proj2 (Z.eqb_neq _ _)) by lia. rewrite Nat2Z.id. do 2 f_equal. lia.
  - rewrite IH. do 2 f_equal. lia.
Qed.

Lemma read_len_app why n src : read_len why (Nat.min n 15) (extension n ++ src) = Ok (n, src).
Proof.
  unfold read_len, extension. destruct (n <? 15)%nat eqn:E.
  - apply Nat.ltb_lt in E. rewrite Nat.min_l, (proj2 (Nat.eqb_neq _ _)) by lia. done.
  - apply Nat.ltb_ge in E. rewrite Nat.min_r, Nat.eqb_refl by lia. rewrite <- app_assoc, read_ext_app.
    + do 2 f_equal. pose proof (Nat.div_mod (n - 15) 255). lia.
    + apply Nat.mod_upper_bound. lia.
Qed.

Lemma token_high a b : Z.to_nat (Z.shiftr (16 * nibble a + nibble b) 4) = Nat.min a 15.
Proof.
  unfold nibble. rewrite Z.shiftr_div_pow2 by lia. change (2 ^ 4) with 16.
  rewrite Z.mul_comm, Z.div_add_l, Z.div_small by lia. lia.
Qed.

Lemma token_low a b : Z.to_nat (Z.land (16 * nibble a + nibble b) 0x0F) = Nat.min b 15.
Proof.
  change 0x0F with (Z.ones 4). rewrite Z.land_ones by lia. unfold nibble. change (2 ^ 4) with 16.
  rewrite Z.mul_comm, Z.add_comm, Z.mod_add, Z.mod_small by lia. lia.
Qed.

Lemma length_encode_seq s : (1 <= length (encode_seq s))%nat.
Proof. unfold encode_seq. rewrite length_app. simpl. lia. Qed.

Lemma output_length_cons s ss last :
  output_length (s :: ss) last = (length (lits s) + match_length s + output_length ss last)%nat.
Proof. unfold output_length. simpl. lia. Qed.

(** The walk over a block of [cap] output bytes stops exactly at its end. *)
Lemma walk_block_ok fuel cap out ss last rest :
  Forall seq_ok ss -> (out + output_length ss last = cap)%nat -> (length ss < fuel)%nat ->
  walk_block fuel cap out (encode_block ss last ++ rest) = Ok rest.
Proof.
  intros Hss. revert fuel out. induction Hss as [|s ss [Ho Hm] Hss IH]; intros fuel out Hcap Hf;
    (destruct fuel as [|fuel]; [simpl in Hf; lia|]); unfold encode_block in *.
  - change (output_length [] last) with (length last) in Hcap. cbn [map concat app]. unfold encode_last. rewrite <- !app_assoc. cbn [app walk_block].
    pose proof (token_high (length last) 0) as Ht. unfold nibble at 2 in Ht. simpl Nat.min in Ht.
    rewrite Z.add_0_r in Ht. rewrite Ht, read_len_app. cbn [mbind result_bind].
    rewrite (proj2 (Nat.ltb_ge _ _)) by (rewrite length_app; lia). rewrite drop_app_length.
    rewrite (proj2 (Nat.ltb_ge _ _)) by lia. by rewrite (proj2 (Nat.eqb_eq _ _)) by lia.
  - rewrite output_length_cons in Hcap. cbn [length] in Hf. cbn [map concat]. unfold encode_seq. rewrite <- !app_assoc. cbn [app walk_block].
    rewrite token_high, token_low, read_len_app. cbn [mbind result_bind].
    rewrite (proj2 (Nat.ltb_ge _ _)) by (rewrite length_app; lia). rewrite drop_app_length.
    rewrite (proj2 (Nat.ltb_ge _ _)), (proj2 (Nat.eqb_neq _ cap)) by lia.
    rewrite (proj2 (Nat.eqb_neq _ 0)) by (rewrite length_app; lia). cbn [orb].
    rewrite (proj2 (Nat.ltb_ge _ _)) by (rewrite length_app; lia).
    rewrite (drop_app_length' (match_offset s) _ 2), read_len_app by done. cbn [mbind result_bind].
    rewrite (proj2 (Nat.ltb_ge _ _)) by lia. rewrite app_assoc. apply IH; lia.
Qed.

Lemma length_encode_block ss last : (S (length ss) <= length (encode_block ss last))%nat.
Proof.
  unfold encode_block. rewrite length_app. induction ss as [|s ss IH]; [simpl; lia|].
  cbn [map concat length]. rewrite length_app. pose proof (length_encode_seq s). lia.
Qed.

(** The walk never reads behind the input it is given. *)
Lemma read_len_suffix why n src m rest : read_len why n src = Ok (m, rest) -> (length rest <= length src)%nat.
Proof.
  unfold read_len. destruct (n =? 15)%nat; [|intros [= _ <-]; lia]. generalize n. clear n. induction src as [|e src IH]; [done|].
  simpl. intros n. destruct (e =? 255); [|intros [= _ <-]; lia]. intros H. apply IH in H. lia.
Qed.

Section Codecs.

Context (md5 : bytes -> bytes).
Context (zlib_compress : bytes -> option bytes) (zlib_reads : bytes -> list bytes * bool).
Context (lz4_compress : bytes -> bytes) (lz4_compress_with_dict : bytes -> bytes -> bytes).
Context (lz4_decompress_with_dict : bytes -> nat -> bytes -> option bytes).

(** What the code relies on: a digest has sixteen bytes, the zlib encoder succeeds
    and its decoder reads the data back, and the LZ4 encoder writes blocks of
    the format that its decoder reads back with the same dictionary. *)
Record codecs_ok : Prop := {
  md5_length : forall d, length (md5 d) = 16%nat;
  zlib_ok : forall d, exists c, zlib_compress d = Some c /\ c <> [] /\ exists reads, zlib_reads c = (reads, true) /\ concat reads = d;
  lz4_format : forall d, d <> [] ->
    exists ss last, Forall seq_ok ss /\ lz4_compress d = encode_block ss last /\ output_length ss last = length d;
  lz4_dict_format : forall d dict, d <> [] ->
    exists ss last, Forall seq_ok ss /\ lz4_compress_with_dict d dict = encode_block ss last /\ output_length ss last = length d;
  lz4_ok : forall d, lz4_decompress_with_dict (lz4_compress d) (length d) [] = Some d;
  lz4_dict_ok : forall d dict, lz4_decompress_with_dict (lz4_compress_with_dict d dict) (length d) dict = Some d;
}.

Hypothesis Hcodecs : codecs_ok.

(** The dictionary the encoder keeps is the tail of what the decoder has written. *)
Definition dict_of (out : bytes) : bytes := drop (length out - LZ4_DICT_WINDOW) out.

Lemma dict_of_app out x :
  (let d := dict_of out ++ x in drop (length d - Nat.min (length d) LZ4_DICT_WINDOW) d) = dict_of (out ++ x).
Proof.
  cbv zeta. unfold dict_of. set (w := LZ4_DICT_WINDOW). rewrite !length_app, length_drop.
  replace (drop (length out - w) out ++ x) with (drop (length out - w) (out ++ x)) by (rewrite drop_app_le by lia; done).
  rewrite drop_drop. f_equal. lia.
Qed.

Lemma dict_of_nil out : dict_of out = [] -> out = [].
Proof.
  intros H. apply (f_equal length) in H. unfold dict_of in H. rewrite length_drop in H.
  destruct out; [done|]. change (length (@nil Z)) with 0%nat in H.
  assert (0 < LZ4_DICT_WINDOW)%nat by (unfold LZ4_DICT_WINDOW; lia). simpl length in *. lia.
Qed.

Lemma lz4_decode_blocks fuel fuel' out data :
  (length data < fuel)%nat -> (length data < fuel')%nat ->
  lz4_decode lz4_decompress_with_dict fuel LZ4_DEFAULT_BLOCK_SIZE (length out + length data) out
    (lz4_blocks lz4_compress lz4_compress_with_dict fuel' (dict_of out) data) = Ret (Ok (out ++ data)).
Proof.
  revert fuel' out data. induction fuel as [|fuel IH]; intros fuel' out data Hf Hf'; [lia|].
  destruct fuel' as [|fuel']; [lia|]. cbn [lz4_decode lz4_blocks].
  destruct (length data =? 0)%nat eqn:E0.
  { apply Nat.eqb_eq in E0. rewrite (proj2 (Nat.ltb_ge _ _)) by lia. apply nil_length_inv in E0. subst data.
    by rewrite app_nil_r. }
  apply Nat.eqb_neq in E0. rewrite (proj2 (Nat.ltb_lt _ _)) by lia.
  replace (length out + length data - length out)%nat with (length data) by lia.
  set (n := Nat.min (length data) LZ4_DEFAULT_BLOCK_SIZE).
  assert (0 < n <= length data)%nat as Hn by (unfold n, LZ4_DEFAULT_BLOCK_SIZE; lia).
  assert (length (take n data) = n) as Ln by (rewrite length_take; lia).
  assert (take n data <> []) as Hne by (intros E; rewrite E in Ln; simpl in Ln; lia).
  pose proof (dict_of_app out (take n data)) as Hdict. cbv zeta in Hdict. rewrite Hdict.
  set (block := if (length (dict_of out) =? 0)%nat then _ else _).
  set (later := lz4_blocks _ _ _ _ _).
  assert (exists ss last, Forall seq_ok ss /\ block = encode_block ss last /\ output_length ss last = n)
    as (ss & last & Hss & Hblock & Hout).
  { unfold block. destruct (length (dict_of out) =? 0)%nat.
    - destruct (lz4_format Hcodecs (take n data) Hne) as (ss & last & H). rewrite Ln in H. by exists ss, last.
    - destruct (lz4_dict_format Hcodecs (take n data) (dict_of out) Hne) as (ss & last & H). rewrite Ln in H. by exists ss, last. }
  assert (lz4_decompress_with_dict block n (dict_of out) = Some (take n data)) as Hdec.
  { pose proof (lz4_dict_ok Hcodecs (take n data) (dict_of out)) as H1. pose proof (lz4_ok Hcodecs (take n data)) as H2.
    rewrite Ln in H1, H2. unfold block. destruct (length (dict_of out) =? 0)%nat eqn:Ed; [|exact H1].
    apply Nat.eqb_eq, nil_length_inv in Ed. by rewrite Ed. }
  assert (walk_block (S (length (block ++ later))) n 0 (block ++ later) = Ok later) as ->.
  { rewrite Hblock. apply walk_block_ok; [done|simpl; lia|]. rewrite length_app. pose proof (length_encode_block ss last). lia. }
  rewrite length_app. replace (length block + length later - length later)%nat with (length block) by lia.
  rewrite take_app_length. fold (dict_of out). rewrite Hdec, Ln, Nat.eqb_refl. cbn [negb].
  unfold later. replace (length out + length data)%nat with (length (out ++ take n data) + length (drop n data))%nat
    by (rewrite length_app, Ln, length_drop; lia).
  rewrite IH by (rewrite length_drop; lia). by rewrite <- app_assoc, take_drop.
Qed.

Lemma lz4_roundtrip d :
  Z.of_nat (length d) <= MAX_DECOMPRESSION_SIZE ->
  Z.of_nat (length (compress_lz4 lz4_compress lz4_compress_with_dict d)) < 2 ^ 32 ->
  decompress_lz4_bnl lz4_decompress_with_dict (compress_lz4 lz4_compress lz4_compress_with_dict d) = Ret (Ok d).
Proof.
  intros Hd Hc. unfold compress_lz4 in *. set (blocks := lz4_blocks _ _ _ _ _) in *.
  assert (MAX_DECOMPRESSION_SIZE < 2 ^ 32) as Hmax by done.
  assert (length (to_be_bytes 4 (wrap32 (Z.of_nat (length blocks)))) = 4%nat) as L1 by apply length_to_be_bytes.
  assert (length (to_be_bytes 4 (wrap32 (Z.of_nat (length d)))) = 4%nat) as L2 by apply length_to_be_bytes.
  rewrite !length_app, L1, L2 in Hc. cbn [length] in Hc.
  unfold decompress_lz4_bnl. rewrite !length_app, L1, L2. cbn [length Nat.add Nat.ltb Nat.leb LZ4_HEADER_SIZE].
  assert (wrap32 (Z.of_nat (length blocks)) = Z.of_nat (length blocks)) as W1 by (apply wrap_small; unfold in_u; lia).
  assert (wrap32 (Z.of_nat (length d)) = Z.of_nat (length d)) as W2 by (apply wrap_small; unfold in_u; lia).
  rewrite W1 in *. rewrite W2 in *.
  pose proof (be_roundtrip 4 32 (Z.of_nat (length blocks)) eq_refl ltac:(unfold in_u; lia)) as B1.
  pose proof (be_roundtrip 4 32 (Z.of_nat (length d)) eq_refl ltac:(unfold in_u; lia)) as B2.
  destruct (to_be_bytes 4 (Z.of_nat (length blocks))) as [|a0 [|a1 [|a2 [|a3 [|]]]]]; try done.
  destruct (to_be_bytes 4 (Z.of_nat (length d))) as [|b0 [|b1 [|b2 [|b3 [|]]]]]; try done.
  cbn [app nth slice take drop Nat.sub Z.eqb negb]. change (1 =? 1) with true. cbn [negb].
  unfold slice. cbn [take drop Nat.sub]. rewrite B1, B2.
  change (32 <=? 14) with false. change ((2 ^ 14 <=? 0x400) || (0x10000 <? 2 ^ 14)) with false. cbv iota.
  rewrite (proj2 (Z.ltb_ge _ _)) by lia. change (negb (1 =? 1)%positive) with false. cbv iota.
  rewrite (proj2 (Z.eqb_eq _ _)) by (unfold LZ4_HEADER_SIZE; lia). cbn [negb]. rewrite Nat2Z.id.
  change (Z.to_nat (2 ^ 14)) with LZ4_DEFAULT_BLOCK_SIZE.
  apply (lz4_decode_blocks (S (length d)) (S (length d)) [] d); lia.
Qed.

(** ** Chunks *)

(** The modes that [compress_chunk] supports. *)
Definition plain (m : CompressionMode) : Prop := m = None_ \/ m = ZLib \/ m = LZ4.

Notation chunk_new := (chunk_new zlib_compress lz4_compress lz4_compress_with_dict).
Notation chunk_decompress := (chunk_decompress zlib_reads lz4_decompress_with_dict).
Notation compress_chunk := (compress_chunk zlib_compress lz4_compress lz4_compress_with_dict).
Notation decompress_chunk := (decompress_chunk zlib_reads lz4_decompress_with_dict).
Notation decrypt_chunk_with_keys := (decrypt_chunk_with_keys zlib_reads lz4_decompress_with_dict).

Lemma zlib_collect_ok out reads :
  Z.of_nat (length out + length (concat reads)) <= MAX_DECOMPRESSION_SIZE ->
  zlib_collect out reads true = Ok (out ++ concat reads).
Proof.
  revert out. induction reads as [|r reads IH]; intros out H; simpl in *; [by rewrite app_nil_r|].
  rewrite length_app in H. rewrite (proj2 (Z.ltb_ge _ _)) by lia. rewrite IH; [by rewrite <- app_assoc|].
  rewrite length_app. lia.
Qed.

Lemma compress_chunk_ok d m : plain m -> exists c, compress_chunk d m = Ok c.
Proof.
  intros [->|[->| ->]]; [by eexists| |by eexists]. destruct (zlib_ok Hcodecs d) as (c & Hc & _). simpl. rewrite Hc. by eexists.
Qed.

Lemma compress_decompress d m c :
  plain m -> Z.of_nat (length d) <= MAX_DECOMPRESSION_SIZE -> compress_chunk d m = Ok c ->
  Z.of_nat (length c) < 2 ^ 32 -> decompress_chunk c m = Ret (Ok d).
Proof.
  intros Hm Hd Hc Hl. destruct Hm as [->|[->| ->]]; simpl in Hc.
  - by injection Hc as <-.
  - destruct (zlib_ok Hcodecs d) as (z & Hz & _ & reads & Hr & <-). rewrite Hz in Hc. injection Hc as <-.
    unfold Blte.decompress_chunk. simpl. rewrite Hr. by rewrite zlib_collect_ok.
  - injection Hc as <-. unfold Blte.decompress_chunk. simpl. by apply lz4_roundtrip.
Qed.

Lemma chunk_new_ok d m :
  plain m -> exists c, chunk_new d m = Ok c /\ mode c = m /\ decompressed_size c = length d /\ compress_chunk d m = Ok (data c).
Proof.
  intros Hm. unfold Blte.chunk_new. case_bool_decide as E; [subst m; by eexists|].
  destruct (compress_chunk_ok d m Hm) as [c ->]. simpl. eexists. by split_and!.
Qed.

(** ** Encrypted chunks *)

(** A specification and key the ciphers accept, with the key in the store. *)
Definition key_ok (get_key : Z -> option (option bytes)) (e : EncryptionSpec * bytes) : Prop :=
  let '(spec, key) := e in
  u64 (key_name spec) /\ length (iv spec) = 4%nat /\ (encryption_type spec = 0x53 \/ encryption_type spec = 0x41) /\
  length key = 16%nat /\ get_key (key_name spec) = Some (Some key).

Lemma run_cipher_inverse type input key iv n :
  length iv = 4%nat -> length key = 16%nat -> type = 0x53 \/ type = 0x41 ->
  exists out, run_cipher true type input key iv n = Ret (Ok out) /\ length out = length input /\
    run_cipher false type out key iv n = Ret (Ok input).
Proof.
  intros Hiv Hk Ht. unfold run_cipher. destruct Ht as [-> | ->].
  - cbn [Z.eqb Pos.eqb]. unfold Salsa20.encrypt_salsa20, Salsa20.decrypt_salsa20, Salsa20.salsa20_apply_keystream.
    destruct (Salsa20.salsa20_new key iv (Z.of_nat n)) as [c|e] eqn:E.
    + cbn [try_bind]. pose proof (Salsa20.new_wf _ _ _ _ E) as Hc.
      destruct (xor_stream_total c input Hc) as (out & c' & Ho & Hl & _ & _). rewrite Ho. exists out. split; [done|].
      split; [done|]. by rewrite (xor_stream_involutive c input out c' Hc Ho).
    + exfalso. unfold Salsa20.salsa20_new in E. by rewrite Hiv in E.
  - cbn [Z.eqb Pos.eqb]. destruct (Arc4.new_ok key ltac:(lia)) as (c & -> & Hc). cbn [mbind outcome_bind].
    assert (ks_wf (next := Arc4.next_keystream_byte) c) as Hwf by exact Hc. unfold Arc4.arc4_decrypt, Arc4.arc4_encrypt.
    destruct (xor_stream_total c input Hwf) as (out & c' & Ho & Hl & _ & _). rewrite Ho. exists out. split; [done|].
    split; [done|]. by rewrite (xor_stream_involutive c input out c' Hwf Ho).
Qed.

Lemma encrypt_decrypt get_key spec key input n :
  key_ok get_key (spec, key) -> (2 <= length input)%nat ->
  exists out, encrypt_chunk_with_key input spec key n = Ret (Ok out) /\ length out = (15 + length input)%nat /\
    decrypt_chunk_with_keys get_key out n =
      match input with
      | b :: rest =>
          match mode_from_byte b with
          | Some Encrypted => Ret (Err NestedEncryption)
          | Some m => decompress_chunk rest m
          | None => Ret (Ok input)
          end
      | [] => Ret (Ok input)
      end.
Proof.
  intros (Hn & Hiv & Ht & Hk & Hget) H2. unfold encrypt_chunk_with_key.
  destruct (run_cipher_inverse (encryption_type spec) input key (iv spec) n) as (out & He & Hl & Hd); [done..|].
  rewrite He. cbn [try_bind]. eexists. split; [done|]. pose proof (length_to_le_bytes 8 (key_name spec)) as L8.
  pose proof (le_roundtrip 8 64 (key_name spec) eq_refl Hn) as Rn.
  destruct (to_le_bytes 8 (key_name spec)) as [|k0 [|k1 [|k2 [|k3 [|k4 [|k5 [|k6 [|k7 [|]]]]]]]]]; try done.
  destruct (iv spec) as [|v0 [|v1 [|v2 [|v3 [|]]]]]; try done. cbn [app].
  split; [simpl; lia|]. unfold Blte.decrypt_chunk_with_keys.
  rewrite (proj2 (Nat.ltb_ge _ _)) by (simpl; lia). cbn [nth]. change (8 =? 8) with true. cbn [negb].
  change (slice 1 9 _) with [k0; k1; k2; k3; k4; k5; k6; k7]. rewrite Rn, Hget. change (4 =? 4) with true. cbn [negb andb].
  change (Z.to_nat 4) with 4%nat. rewrite !(proj2 (Nat.ltb_ge _ _)) by (simpl; lia).
  change (slice 10 (10 + 4) _) with [v0; v1; v2; v3]. cbn [nth Nat.add drop]. rewrite drop_0, Hd. done.
Qed.

(** ** Chunking *)

(** The chunks [cs], numbered from [i], stand for the pieces [ps]. *)
Inductive pieces_of (Q : nat -> bytes -> ChunkData -> Prop) : nat -> list bytes -> list ChunkData -> Prop :=
| pieces_nil i : pieces_of Q i [] []
| pieces_cons i p c ps cs : Q i p c -> pieces_of Q (S i) ps cs -> pieces_of Q i (p :: ps) (c :: cs).

Lemma pieces_app Q i ps cs ps' cs' :
  pieces_of Q i ps cs -> pieces_of Q (i + length cs) ps' cs' -> pieces_of Q i (ps ++ ps') (cs ++ cs').
Proof.
  induction 1 as [i|i p c ps cs Hq H IH]; intros H'; simpl in *; [by rewrite Nat.add_0_r in H'|].
  constructor; [done|]. apply IH. by rewrite Nat.add_succ_r in H'.
Qed.

Lemma split_loop_pieces (Q : nat -> bytes -> ChunkData -> Prop) make size fuel d i :
  (0 < size)%nat -> (length d <= fuel)%nat ->
  (forall x i, (0 < length x <= length d)%nat -> exists c, make x i = Ret (Ok c) /\ Q i x c) ->
  exists cs ps, split_loop make fuel size d i = Ret (Ok cs) /\ pieces_of Q i ps cs /\ concat ps = d /\
    (length cs * size < length d + size)%nat /\ (d <> [] -> cs <> []).
Proof.
  intros Hs. revert d i. induction fuel as [|fuel IH]; intros d i Hf Hmake; cbn [split_loop].
  { destruct d; [|simpl in Hf; lia]. exists [], []. split_and!; [done|constructor|done|simpl; lia|done]. }
  destruct (length d =? 0)%nat eqn:E.
  { apply Nat.eqb_eq, nil_length_inv in E. subst d. exists [], []. split_and!; [done|constructor|done|simpl; lia|done]. }
  apply Nat.eqb_neq in E. set (n := Nat.min size (length d)). assert (0 < n <= length d)%nat as Hn by lia.
  destruct (Hmake (take n d) i) as (c & -> & Hc); [rewrite length_take; lia|]. cbn [try_bind].
  destruct (IH (drop n d) (S i)) as (cs & ps & -> & Hp & Hcat & Hlen & _).
  - rewrite length_drop. lia.
  - intros x j Hl. apply Hmake. rewrite length_drop in Hl. lia.
  - exists (c :: cs), (take n d :: ps). split_and!; [done|by constructor|simpl; by rewrite Hcat, take_drop| |done].
    rewrite length_drop in Hlen. simpl. destruct (Nat.le_ge_cases size (length d)); [lia|].
    assert (length cs = 0)%nat as E0 by nia. rewrite E0. simpl. lia.
Qed.

Lemma append_each_pieces {Q} f i ps cs :
  (forall i p c, Q i p c -> f i (reread c) = Ret (Ok p)) -> pieces_of Q i ps cs ->
  append_each f i (map reread cs) = Ret (Ok (concat ps)).
Proof.
  intros Hf. induction 1 as [|i p c ps cs Hq H IH]; [done|]. cbn [map append_each concat]. rewrite (Hf _ _ _ Hq).
  cbn [try_bind]. by rewrite IH.
Qed.

(** ** Files *)

Definition chunk_fits (c : ChunkData) : Prop := Z.of_nat (compressed_size c) < 2 ^ 32.

Lemma multi_chunk_file_ok cs :
  (length cs <> 0)%nat -> Z.of_nat (length cs) <= 0xFFFFFF -> Forall chunk_fits cs ->
  exists h, header_multi_chunk md5 cs = Ok h /\ file_ok {| header := h; chunks := cs |} /\ is_single_chunk h = false.
Proof.
  intros H0 Hn Hfit. unfold header_multi_chunk, chunk_count_checked.
  rewrite (proj2 (Nat.eqb_neq _ _)), (proj2 (Z.ltb_ge _ _)) by lia. cbn [mbind result_bind]. eexists. split; [done|].
  unfold file_ok, table_header, header_ok, is_single_chunk. cbn [header extended chunks magic header_size].
  assert (wrap32 (12 + Z.of_nat (length cs) * Z.of_nat (chunk_info_size Standard)) = 12 + Z.of_nat (length cs) * 24) as E.
  { apply wrap_small. unfold in_u, chunk_info_size. lia. }
  rewrite E. split; [|apply Z.eqb_neq; lia]. split.
  - split; [done|]. split; [unfold in_u; lia|]. split; [lia|]. split; cbn [chunk_count_ chunk_infos flags].
    { rewrite length_map. apply wrap_small. unfold in_u. lia. }
    rewrite (wrap_small 32) by (unfold in_u; lia). split; [lia|]. apply Forall_map, Forall_true. intros c.
    split_and!; [apply wrap32_range..|apply (md5_length Hcodecs)|done].
  - cbn [chunk_infos]. rewrite Forall2_fmap_r. apply Forall_Forall2_diag. eapply Forall_impl; [exact Hfit|].
    intros c Hc. simpl. unfold chunk_fits, compressed_size in *. rewrite (wrap_small 32) by (unfold in_u; simpl; lia). lia.
Qed.

Lemma chunk_decompress_reread c : chunk_decompress (reread c) = chunk_decompress c.
Proof. done. Qed.

(** A chunk that decompresses to [p], if it is not too long. *)
Definition plain_chunk (i : nat) (p : bytes) (c : ChunkData) : Prop :=
  mode c <> Encrypted /\ mode c <> Frame /\ (chunk_fits c -> chunk_decompress c = Ret (Ok p)).

Lemma chunk_new_plain d m i :
  plain m -> Z.of_nat (length d) <= MAX_DECOMPRESSION_SIZE -> exists c, chunk_new d m = Ok c /\ plain_chunk i d c.
Proof.
  intros Hm Hd. destruct (chunk_new_ok d m Hm) as (c & Hc & Hmc & _ & Hcomp). exists c. split; [done|].
  unfold plain_chunk. rewrite Hmc. split_and!; [by destruct Hm as [->|[->| ->]]..|]. intros Hfit.
  unfold Blte.chunk_decompress. rewrite Hmc. apply (compress_decompress d); try done.
  unfold chunk_fits, compressed_size in Hfit. lia.
Qed.

Lemma pieces_fits Q i ps cs :
  Forall chunk_fits cs -> pieces_of Q i ps cs -> pieces_of (fun i p c => Q i p c /\ chunk_fits c) i ps cs.
Proof.
  intros Hf H. induction H as [|i p c ps cs Hq H IH]; [constructor|]. apply Forall_cons in Hf as [? Hf].
  constructor; [done|]. by apply IH.
Qed.

Lemma single_chunk_roundtrip d m :
  plain m -> Z.of_nat (length d) <= MAX_DECOMPRESSION_SIZE ->
  exists f, Blte.single_chunk zlib_compress lz4_compress lz4_compress_with_dict d m = Ok f /\
    (exists c, chunks f = [c] /\ build f = BLTE_MAGIC ++ zeros 4 ++ compressed_data c) /\
    (Forall chunk_fits (chunks f) -> exists f', parse (build f) = Ret (Ok f') /\
       Blte.decompress zlib_reads lz4_decompress_with_dict f' = Ret (Ok d)).
Proof.
  intros Hm Hd. destruct (chunk_new_plain d m 0 Hm Hd) as (c & Hc & _ & _ & Hdec). unfold single_chunk. rewrite Hc.
  cbn [mbind result_bind]. eexists. split; [done|]. split.
  { exists c. split; [done|]. unfold build. cbn [chunks map concat]. rewrite app_nil_r. done. }
  intros Hfit. apply Forall_cons in Hfit as [Hfit _]. eexists. split.
  - apply parse_build. split; [|simpl; lia]. split; [done|]. by split.
  - unfold Blte.decompress. simpl. rewrite chunk_decompress_reread, Hdec by done. simpl. by rewrite app_nil_r.
Qed.

(** Compression with any chunk size gives a file that is read back and decompresses
    to the data. *)
Lemma compress_roundtrip d size m :
  plain m -> (0 < size)%nat -> Z.of_nat (length d) <= MAX_DECOMPRESSION_SIZE ->
  Z.of_nat (length d) <= 0xFFFFFF * Z.of_nat size ->
  exists f, Blte.compress md5 zlib_compress lz4_compress lz4_compress_with_dict d size m = Ret (Ok f) /\
    (Forall chunk_fits (chunks f) -> exists f', parse (build f) = Ret (Ok f') /\
       Blte.decompress zlib_reads lz4_decompress_with_dict f' = Ret (Ok d)).
Proof.
  intros Hm Hs Hd Hcount. unfold Blte.compress. destruct (length d <=? size)%nat eqn:E.
  - destruct (single_chunk_roundtrip d m Hm Hd) as (f & -> & _ & Hback). by exists f.
  - apply Nat.leb_gt in E.
    destruct (split_loop_pieces plain_chunk (fun x _ => Ret (chunk_new x m)) size (length d) d 0 Hs ltac:(lia))
      as (cs & ps & -> & Hp & Hcat & Hlen & Hne).
    { intros x i Hl. destruct (chunk_new_plain x m i Hm ltac:(lia)) as (c & -> & Hc). by exists c. }
    cbn [try_bind]. unfold multi_chunk.
    assert (cs <> []) as Hne' by (apply Hne; intros ->; simpl in E; lia).
    assert (exists h, header_multi_chunk md5 cs = Ok h) as [h Hh].
    { unfold header_multi_chunk, chunk_count_checked. rewrite (proj2 (Nat.eqb_neq _ _)) by (by destruct cs).
      rewrite (proj2 (Z.ltb_ge _ _)) by nia. by eexists. }
    rewrite Hh. cbn [mbind result_bind]. eexists. split; [done|]. intros Hfit. cbn [chunks] in Hfit.
    destruct (multi_chunk_file_ok cs) as (h' & Hh' & Hok & _); [by destruct cs|nia|done|]. rewrite Hh in Hh'. injection Hh' as <-.
    eexists. split; [by apply parse_build|]. unfold Blte.decompress, reread_file. cbn [chunks].
    rewrite (append_each_pieces (Q := fun i p c => plain_chunk i p c /\ chunk_fits c) _ _ ps); [by rewrite Hcat| |by apply pieces_fits].
    intros i p c [(_ & _ & H) Hfc]. by apply H.
Qed.

(** ** The builder *)

Section Keys.
Context (get_key : Z -> option (option bytes)).

(** Chunk [i] decodes to [p] with the keys of the store, if it is not too long. *)
Definition keyed_chunk (i : nat) (p : bytes) (c : ChunkData) : Prop :=
  mode c <> Frame /\
  (chunk_fits c -> (if bool_decide (mode c = Encrypted) then decrypt_chunk_with_keys get_key (data c) i
                    else chunk_decompress c) = Ret (Ok p)).

Notation make_chunk := (make_chunk zlib_compress lz4_compress lz4_compress_with_dict).
Notation add_mixed_data := (add_mixed_data zlib_compress lz4_compress lz4_compress_with_dict).

Lemma compressed_nonempty d m c : plain m -> compress_chunk d m = Ok c -> m <> None_ \/ d <> [] -> c <> [].
Proof.
  intros [->|[->| ->]] Hc Hne; simpl in Hc.
  - injection Hc as <-. by destruct Hne.
  - destruct (zlib_ok Hcodecs d) as (z & Hz & Hzne & _). rewrite Hz in Hc. by injection Hc as <-.
  - by injection Hc as <-.
Qed.

Lemma inner_payload b d :
  plain (default_mode b) ->
  exists c, compress_chunk d (default_mode b) = Ok c /\
    build_inner_payload zlib_compress lz4_compress lz4_compress_with_dict b d = Ok (mode_as_byte (default_mode b) :: c).
Proof.
  intros Hm. destruct (compress_chunk_ok d _ Hm) as [c Hc]. exists c. split; [done|]. unfold build_inner_payload.
  destruct Hm as [E|[E|E]]; rewrite E in *.
  - rewrite !bool_decide_true by done. simpl in Hc. by injection Hc as ->.
  - rewrite !bool_decide_false by done. cbn [negb andb]. by rewrite Hc.
  - rewrite !bool_decide_false by done. cbn [negb andb]. by rewrite Hc.
Qed.

Lemma make_chunk_ok b enc d i :
  plain (default_mode b) -> Z.of_nat (length d) <= MAX_DECOMPRESSION_SIZE ->
  match enc with Some e => key_ok get_key e /\ d <> [] | None => True end ->
  exists c, make_chunk b enc d i = Ret (Ok c) /\ keyed_chunk i d c.
Proof.
  intros Hm Hd He. destruct enc as [[spec key]|]; cbn [Blte.make_chunk].
  - destruct He as [He Hne]. destruct (inner_payload b d Hm) as (c & Hc & Hin).
    pose proof (compressed_nonempty d _ c Hm Hc (or_intror Hne)) as Hcne.
    unfold create_encrypted_chunk. rewrite Hin. cbn [try_bind].
    destruct (encrypt_decrypt get_key spec key (mode_as_byte (default_mode b) :: c) i) as (out & -> & Hl & Hdec);
      [done|destruct c; [done|simpl; lia]|].
    cbn [try_bind]. eexists. split; [done|]. split; [done|]. cbn [from_compressed mode]. rewrite bool_decide_true by done.
    intros Hfit. cbn [from_compressed data]. rewrite Hdec, mode_byte_roundtrip.
    unfold chunk_fits, compressed_size in Hfit. cbn [from_compressed data] in Hfit.
    assert (decompress_chunk c (default_mode b) = Ret (Ok d)) as Hdc.
    { apply (compress_decompress d); try done. simpl in Hl. lia. }
    by destruct Hm as [E|[E|E]]; rewrite E in *.
  - destruct (chunk_new_plain d _ i Hm Hd) as (c & -> & H1 & H2 & H3). exists c. split; [done|]. split; [done|].
    by rewrite bool_decide_false.
Qed.

(** What a builder has been given so far. *)
Definition builder_holds (b : BlteBuilder) (d : bytes) : Prop :=
  plain (default_mode b) /\ (0 < chunk_size b)%nat /\ exists ps, pieces_of keyed_chunk 0 ps (b_chunks b) /\ concat ps = d.

(** An item to add: data and how to encrypt it. *)
Definition item_ok (it : bytes * option (EncryptionSpec * bytes)) : Prop :=
  Z.of_nat (length (fst it)) <= MAX_DECOMPRESSION_SIZE /\
  match snd it with Some e => key_ok get_key e /\ fst it <> [] | None => True end.

Lemma add_mixed_data_ok b d it :
  builder_holds b d -> item_ok it ->
  exists b', add_mixed_data b (fst it) (snd it) = Ret (Ok b') /\ builder_holds b' (d ++ fst it) /\
    (0 < length (b_chunks b'))%nat.
Proof.
  destruct it as [x enc]. intros (Hm & Hs & ps & Hp & Hcat) [Hl He]. simpl in Hl, He. cbn [fst snd].
  unfold Blte.add_mixed_data, add_pieces. destruct (length x <=? chunk_size b)%nat eqn:E.
  - destruct (make_chunk_ok b enc x (length (b_chunks b)) Hm Hl He) as (c & -> & Hc). cbn [try_bind]. eexists. split; [done|].
    split; [|simpl; rewrite length_app; simpl; lia]. split; [done|]. split; [done|]. exists (ps ++ [x]). split.
    + apply pieces_app; [done|]. apply pieces_cons; [exact Hc|apply pieces_nil].
    + rewrite concat_app, Hcat. simpl. by rewrite app_nil_r.
  - apply Nat.leb_gt in E.
    destruct (split_loop_pieces keyed_chunk (make_chunk b enc) (chunk_size b) (length x) x (length (b_chunks b)) Hs ltac:(lia))
      as (cs & ps' & -> & Hp' & Hcat' & _ & Hne).
    { intros y i Hy. apply make_chunk_ok; [done|lia|]. destruct enc; [|done]. split; [apply He|]. intros ->. simpl in Hy. lia. }
    cbn [try_bind]. eexists. split; [done|]. split.
    + split; [done|]. split; [done|]. exists (ps ++ ps'). split; [by apply pieces_app|]. by rewrite concat_app, Hcat, Hcat'.
    + simpl. rewrite length_app. destruct cs; [|simpl; lia]. exfalso. apply Hne; [|done]. intros ->. simpl in E. lia.
Qed.

Fixpoint add_all (b : BlteBuilder) (items : list (bytes * option (EncryptionSpec * bytes))) :
    outcome (result BlteError BlteBuilder) :=
  match items with
  | [] => Ret (Ok b)
  | (d, e) :: items => b ←? add_mixed_data b d e; add_all b items
  end.

Lemma add_all_ok items b d :
  builder_holds b d -> Forall item_ok items ->
  exists b', add_all b items = Ret (Ok b') /\ builder_holds b' (d ++ concat (map fst items)) /\
    (items <> [] \/ (0 < length (b_chunks b))%nat -> (0 < length (b_chunks b'))%nat).
Proof.
  intros Hb Hi. revert b d Hb. induction Hi as [|[x e] items Hx Hi IH]; intros b d Hb; cbn [add_all map concat].
  { exists b. rewrite app_nil_r. split; [done|]. split; [done|]. by intros [|]. }
  destruct (add_mixed_data_ok b d _ Hb Hx) as (b1 & Hadd & Hb1 & Hlen). cbn [fst snd] in Hadd. rewrite Hadd. cbn [try_bind].
  destruct (IH b1 _ Hb1) as (b2 & -> & Hb2 & Hpos). exists b2. split; [done|]. split; [by rewrite <- app_assoc in Hb2|].
  intros _. apply Hpos. by right.
Qed.

Lemma build_decode b d :
  builder_holds b d -> (0 < length (b_chunks b))%nat -> Z.of_nat (length (b_chunks b)) <= 0xFFFFFF ->
  Forall chunk_fits (b_chunks b) ->
  exists f f', builder_build md5 b = Ok f /\ parse (build f) = Ret (Ok f') /\
    forall fuel, decompress_with_keys zlib_reads lz4_decompress_with_dict (S fuel) get_key f' = Ret (Ok d).
Proof.
  intros (_ & _ & ps & Hp & <-) Hpos Hn Hfit. unfold builder_build.
  assert (exists h, (match b_chunks b with
     | [] => Err (InvalidChunkCount 0)
     | _ => if (length (b_chunks b) =? 1)%nat && negb (existsb (fun c => bool_decide (mode c = Encrypted)) (b_chunks b))
            then Ok {| header := header_single_chunk; chunks := b_chunks b |}
            else h ← header_multi_chunk md5 (b_chunks b); Ok {| header := h; chunks := b_chunks b |}
     end) = Ok {| header := h; chunks := b_chunks b |} /\ file_ok {| header := h; chunks := b_chunks b |} /\
     (is_single_chunk h && match b_chunks b with c :: _ => bool_decide (mode c = Encrypted) | [] => false end = false))
    as (h & -> & Hok & Hsingle).
  { destruct (multi_chunk_file_ok (b_chunks b)) as (h & Hh & Hok & Hs); [lia|done|done|].
    destruct (b_chunks b) as [|c cs] eqn:Eb; [simpl in Hpos; lia|]. rewrite <- Eb in *. destruct (_ && _) eqn:E.
    - apply andb_true_iff in E as [E1%Nat.eqb_eq E2%negb_true_iff]. eexists. split; [done|]. split.
      + split; [|cbn [header extended header_single_chunk chunks]; lia]. split; [done|]. by split.
      + rewrite Eb in E2. cbn [existsb] in E2. by apply orb_false_iff in E2 as [-> _].
    - rewrite Hh. cbn [mbind result_bind]. exists h. split; [done|]. split; [done|]. by rewrite Hs. }
  eexists _, _. split; [done|]. split; [by apply parse_build|]. intros fuel. cbn [decompress_with_keys reread_file header chunks].
  replace (match map reread (b_chunks b) with c :: _ => bool_decide (mode c = Encrypted) | [] => false end)
    with (match b_chunks b with c :: _ => bool_decide (mode c = Encrypted) | [] => false end) by (by destruct (b_chunks b)).
  rewrite Hsingle. apply (append_each_pieces (Q := fun i p c => keyed_chunk i p c /\ chunk_fits c)); [|by apply pieces_fits].
  intros i p c [[Hfr Hk] Hfc]. specialize (Hk Hfc). cbn [reread mode data].
  destruct (bool_decide (mode c = Encrypted)); [done|]. by rewrite bool_decide_false.
Qed.

End Keys.

End Codecs.

(** ** Termination and bounds *)

Lemma read_exact_length n d x rest : read_exact n d = Ok (x, rest) -> length d = (n + length rest)%nat /\ length x = n.
Proof.
  unfold read_exact. destruct (n <=? length d)%nat eqn:E; [|done]. apply Nat.leb_le in E. intros [= <- <-].
  rewrite length_drop, length_take. lia.
Qed.

Lemma read_chunk_length n d c rest : read_chunk n d = Ok (c, rest) -> (length (data c) + length rest < length d)%nat.
Proof.
  unfold read_chunk, read_u8. destruct (n =? 0)%nat; [done|].
  destruct (read_exact 1 d) as [[b d1]|] eqn:E1; [|done]. simpl. destruct (mode_from_byte _); [|done].
  destruct (read_exact (n - 1) d1) as [[x d2]|] eqn:E2; [|done]. simpl. intros [= <- <-]. simpl.
  apply read_exact_length in E1 as [E1 _], E2 as [E2 E3]. lia.
Qed.

Definition chunks_size (cs : list ChunkData) : nat := list_sum (map (fun c => length (data c)) cs).

Lemma read_chunks_length infos d cs rest : read_chunks infos d = Ok (cs, rest) -> (chunks_size cs + length rest <= length d)%nat.
Proof.
  revert d cs. induction infos as [|i infos IH]; intros d cs; simpl; [by intros [= <- <-]|].
  destruct (read_chunk _ d) as [[c d1]|] eqn:E1; [|done]. simpl.
  destruct (read_chunks infos d1) as [[cs1 d2]|] eqn:E2; [|done]. simpl. intros [= <- <-].
  apply read_chunk_length in E1. apply IH in E2. unfold chunks_size in *. simpl. lia.
Qed.

Lemma read_infos_length n f d infos rest : read_chunk_infos n f d = Ok (infos, rest) -> (length rest <= length d)%nat.
Proof.
  revert d infos. induction n as [|n IH]; intros d infos; simpl; [by intros [= _ <-]|].
  unfold read_chunk_info, read_u32.
  destruct (read_exact 4 d) as [[a d1]|] eqn:E1; [|done]. simpl. destruct (read_exact 4 d1) as [[b d2]|] eqn:E2; [|done]. simpl.
  destruct (read_exact 16 d2) as [[c d3]|] eqn:E3; [|done]. simpl.
  assert (forall x d4, (if bool_decide (f = Extended) then '(x, i) ← read_exact 16 d3; Ok (Some x, i) else Ok (None, d3)) = Ok (x, d4) ->
    length d4 <= length d3)%nat as H4.
  { intros x d4. case_bool_decide; [|by intros [= _ <-]]. destruct (read_exact 16 d3) as [[y d5]|] eqn:E4; [|done]. simpl.
    intros [= _ <-]. apply read_exact_length in E4. lia. }
  destruct (if bool_decide (f = Extended) then _ else _) as [[x d4]|] eqn:E4; [|done]. simpl.
  destruct (read_chunk_infos n f d4) as [[infos' d5]|] eqn:E5; [|done]. simpl. intros [= _ <-].
  specialize (H4 x d4 eq_refl). apply IH in E5. apply read_exact_length in E1, E2, E3. lia.
Qed.

Lemma read_header_length d h rest : read_header d = Ret (Ok (h, rest)) -> (length rest < length d)%nat.
Proof.
  unfold read_header, read_u32. destruct (read_exact 4 d) as [[m d1]|] eqn:E1; [|done]. simpl. destruct (negb _); [done|].
  destruct (read_exact 4 d1) as [[s d2]|] eqn:E2; [|done]. simpl. apply read_exact_length in E1, E2.
  destruct (0 <? _); [|intros [= _ <-]; lia]. unfold read_extended, read_u8.
  destruct (read_exact 1 d2) as [[b d3]|] eqn:E3; [|done]. simpl. destruct (flags_from_byte _); [|done].
  destruct (read_exact 3 d3) as [[x d4]|] eqn:E4; [|done]. simpl.
  destruct (read_chunk_infos _ _ d4) as [[infos d5]|] eqn:E5; [|done]. simpl. intros [= _ <-].
  apply read_exact_length in E3, E4. apply read_infos_length in E5. lia.
Qed.

(** The chunks of a parsed file are shorter than the file. *)
Lemma parse_smaller d f : parse d = Ret (Ok f) -> (chunks_size (chunks f) < length d)%nat.
Proof.
  unfold parse. destruct (read_header d) as [[[h rest]|]|] eqn:E; [|done|done]. simpl. apply read_header_length in E.
  destruct (is_single_chunk h).
  - destruct (0 <? length rest)%nat; [|intros [= <-]; unfold chunks_size; simpl; lia].
    destruct (read_chunk _ rest) as [[c r]|] eqn:E2; [|done]. simpl. intros [= <-]. apply read_chunk_length in E2.
    unfold chunks_size. simpl. lia.
  - destruct (extended h) as [e|].
    + destruct (read_chunks _ rest) as [[cs r]|] eqn:E2; [|done]. simpl. intros [= <-]. apply read_chunks_length in E2. simpl. lia.
    + simpl. intros [= <-]. unfold chunks_size. simpl. lia.
Qed.

Lemma append_each_ext {A} (f g : nat -> A -> outcome (result BlteError bytes)) i l :
  (forall i c, c ∈ l -> f i c = g i c) -> append_each f i l = append_each g i l.
Proof.
  revert i. induction l as [|x l IH]; intros i H; [done|]. cbn [append_each]. rewrite H by left.
  destruct (g i x) as [[d|]|]; try done. cbn [try_bind]. rewrite IH; [done|]. intros. apply H. by right.
Qed.

Section Bounds.
Context (zlib_reads : bytes -> list bytes * bool).
Context (lz4_decompress_with_dict : bytes -> nat -> bytes -> option bytes).

Lemma keys_fuel gk fuel1 fuel2 f :
  (chunks_size (chunks f) < fuel1)%nat -> (chunks_size (chunks f) < fuel2)%nat ->
  decompress_with_keys zlib_reads lz4_decompress_with_dict fuel1 gk f =
  decompress_with_keys zlib_reads lz4_decompress_with_dict fuel2 gk f.
Proof.
  revert fuel2 f. induction fuel1 as [|fuel1 IH]; intros [|fuel2] f H1 H2; try lia. cbn [decompress_with_keys].
  destruct (_ && _); [done|]. apply append_each_ext. intros i c Hc.
  assert (length (data c) <= chunks_size (chunks f))%nat as Hle.
  { clear -Hc. induction (chunks f) as [|x l IHl]; [by apply elem_of_nil in Hc|]. unfold chunks_size in *. simpl.
    apply elem_of_cons in Hc as [->|Hc]; [lia|]. specialize (IHl Hc). lia. }
  destruct (bool_decide (mode c = Encrypted)); [done|]. destruct (bool_decide (mode c = Frame)); [|done].
  destruct (parse (data c)) as [[inner|]|] eqn:Ep; try done. cbn [mbind outcome_bind]. apply parse_smaller in Ep. apply IH; lia.
Qed.

Lemma zlib_collect_bound out reads ok d :
  Z.of_nat (length out) <= MAX_DECOMPRESSION_SIZE -> zlib_collect out reads ok = Ok d -> Z.of_nat (length d) <= MAX_DECOMPRESSION_SIZE.
Proof.
  revert out. induction reads as [|r reads IH]; intros out Ho; simpl; [destruct ok; [by intros [= <-]|done]|].
  destruct (_ <? _) eqn:E; [done|]. apply Z.ltb_ge in E. apply IH. rewrite length_app. lia.
Qed.

Lemma lz4_decode_bound fuel block total out src :
  (0 < block)%nat -> (length out <= total)%nat -> (total - length out < fuel)%nat ->
  exists r, lz4_decode lz4_decompress_with_dict fuel block total out src = Ret r /\
    forall d, r = Ok d -> length d = total.
Proof.
  intros Hb. revert out src. induction fuel as [|fuel IH]; intros out src Ho Hf; [lia|]. cbn [lz4_decode].
  destruct (length out <? total)%nat eqn:E.
  - apply Nat.ltb_lt in E. set (cap := Nat.min _ _). destruct (walk_block _ _ _ _) as [rest|e]; [|by eexists].
    destruct (lz4_decompress_with_dict _ _ _) as [x|]; [|by eexists].
    destruct (length x =? cap)%nat eqn:Ex; cbn [negb]; [|by eexists]. apply Nat.eqb_eq in Ex.
    apply IH; rewrite length_app; lia.
  - apply Nat.ltb_ge in E. destruct (negb _); [by eexists|]. eexists. split; [done|]. intros d [= <-]. lia.
Qed.

End Bounds.

(** ** Where decoding panics *)

Definition part_of (x y : bytes) : Prop := exists a b, y = a ++ x ++ b.

Lemma part_of_refl x : part_of x x.
Proof. exists [], []. by rewrite app_nil_r. Qed.

Lemma part_of_trans x y z : part_of x y -> part_of y z -> part_of x z.
Proof. intros (a & b & ->) (a' & b' & ->). exists (a' ++ a), (b ++ b'). by rewrite <- !app_assoc. Qed.

(** A multi-chunk header whose format byte is unknown. *)
Definition bad_flags (x : bytes) : Prop :=
  exists size b rest, x = BLTE_MAGIC ++ size ++ b :: rest /\ length size = 4%nat /\ 0 < from_be_bytes size /\
    flags_from_byte b = None.

Lemma read_exact_split n d x rest : read_exact n d = Ok (x, rest) -> d = x ++ rest /\ length x = n.
Proof.
  unfold read_exact. destruct (n <=? length d)%nat eqn:E; [|done]. intros [= <- <-]. apply Nat.leb_le in E.
  rewrite take_drop, length_take. split; [done|lia].
Qed.

Lemma read_chunk_part n d c rest : read_chunk n d = Ok (c, rest) -> part_of (data c) d /\ part_of rest d.
Proof.
  unfold read_chunk, read_u8. destruct (n =? 0)%nat; [done|].
  destruct (read_exact 1 d) as [[b d1]|] eqn:E1; [|done]. simpl. destruct (mode_from_byte _); [|done].
  destruct (read_exact (n - 1) d1) as [[x d2]|] eqn:E2; [|done]. simpl. intros [= <- <-]. simpl.
  apply read_exact_split in E1 as [-> _], E2 as [-> _]. split; [by exists b, d2|].
  exists (b ++ x), []. by rewrite app_nil_r, <- app_assoc.
Qed.

Lemma read_chunks_part infos d cs rest : read_chunks infos d = Ok (cs, rest) -> Forall (fun c => part_of (data c) d) cs.
Proof.
  revert d cs. induction infos as [|i infos IH]; intros d cs; simpl; [by intros [= <- <-]|].
  destruct (read_chunk _ d) as [[c d1]|] eqn:E1; [|done]. simpl.
  destruct (read_chunks infos d1) as [[cs1 d2]|] eqn:E2; [|done]. simpl. intros [= <- <-].
  apply read_chunk_part in E1 as [Hc Hd]. constructor; [done|]. apply (Forall_impl _ _ _ (IH _ _ E2)).
  intros x Hx. simpl in Hx. by eapply part_of_trans.
Qed.

Lemma read_infos_part n f d infos rest : read_chunk_infos n f d = Ok (infos, rest) -> part_of rest d.
Proof.
  revert d infos. induction n as [|n IH]; intros d infos; simpl; [intros [= _ <-]; apply part_of_refl|].
  unfold read_chunk_info, read_u32.
  destruct (read_exact 4 d) as [[a d1]|] eqn:E1; [|done]. simpl. destruct (read_exact 4 d1) as [[b d2]|] eqn:E2; [|done]. simpl.
  destruct (read_exact 16 d2) as [[c d3]|] eqn:E3; [|done]. simpl.
  apply read_exact_split in E1 as [-> _], E2 as [-> _], E3 as [-> _].
  case_bool_decide; simpl; [destruct (read_exact 16 d3) as [[e d4]|] eqn:E4; [|done]; simpl; apply read_exact_split in E4 as [-> _]|].
  - destruct (read_chunk_infos n f d4) as [[infos1 d5]|] eqn:E5; [|done]. simpl. intros [= _ <-]. apply IH in E5 as (p & q & ->).
    exists (a ++ b ++ c ++ e ++ p), q. by rewrite <- !app_assoc.
  - destruct (read_chunk_infos n f d3) as [[infos1 d5]|] eqn:E5; [|done]. simpl. intros [= _ <-]. apply IH in E5 as (p & q & ->).
    exists (a ++ b ++ c ++ p), q. by rewrite <- !app_assoc.
Qed.

Lemma read_header_cases d :
  match read_header d with
  | Panic => bad_flags d
  | Ret (Ok (h, rest)) => part_of rest d
  | Ret (Err _) => True
  end.
Proof.
  unfold read_header. destruct (read_exact 4 d) as [[m d1]|] eqn:E1; [|done]. simpl. case_bool_decide as Em; simpl; [|done].
  unfold read_u32. destruct (read_exact 4 d1) as [[s d2]|] eqn:E2; [|done]. simpl.
  apply read_exact_split in E1 as [-> _], E2 as [-> Ls].
  destruct (0 <? _) eqn:E0; simpl; [|exists (m ++ s), []; by rewrite app_nil_r, <- app_assoc]. apply Z.ltb_lt in E0.
  unfold read_extended, read_u8. destruct (read_exact 1 d2) as [[b d3]|] eqn:E3; [|done]. simpl.
  apply read_exact_split in E3 as [-> Lb]. destruct b as [|b []]; try done. simpl. destruct (flags_from_byte b) as [f|] eqn:Ef.
  2: { simpl. exists s, b, d3. by rewrite Em. }
  destruct (read_exact 3 d3) as [[n d4]|] eqn:E4; [|done]. simpl. apply read_exact_split in E4 as [-> _].
  destruct (read_chunk_infos _ f d4) as [[infos1 d5]|] eqn:E5; [|done]. simpl. apply read_infos_part in E5 as (p & q & ->).
  exists (m ++ s ++ b :: n ++ p), q. simpl. by rewrite <- !app_assoc; simpl; rewrite <- !app_assoc.
Qed.

(** [parse] panics on an unknown format byte only, and its chunks are parts of the data. *)
Lemma parse_cases d :
  match parse d with
  | Panic => bad_flags d
  | Ret (Ok f) => Forall (fun c => part_of (data c) d) (chunks f)
  | Ret (Err _) => True
  end.
Proof.
  unfold parse. pose proof (read_header_cases d) as H. destruct (read_header d) as [[[h rest]|]|]; [|done|done]. simpl.
  destruct (is_single_chunk h).
  - destruct (0 <? length rest)%nat; [|constructor]. destruct (read_chunk _ rest) as [[c r]|] eqn:E; [|done]. simpl.
    apply read_chunk_part in E as [E _]. repeat constructor. by eapply part_of_trans.
  - destruct (extended h) as [e|]; [|constructor]. destruct (read_chunks _ rest) as [[cs r]|] eqn:E; [|done]. simpl.
    apply read_chunks_part in E. eapply Forall_impl; [exact E|]. intros c Hc. simpl in Hc. exact (part_of_trans _ _ _ Hc H).
Qed.

Lemma append_each_panic {A} (f : nat -> A -> outcome (result BlteError bytes)) i l :
  append_each f i l = Panic -> exists j c, c ∈ l /\ f j c = Panic.
Proof.
  revert i. induction l as [|x l IH]; intros i; simpl; [done|]. destruct (f i x) as [[y|]|] eqn:E; simpl; [|done|].
  - destruct (append_each f (S i) l) as [[]|] eqn:El; [done|done|]. intros _. destruct (IH _ El) as (j & c & Hc & Hf).
    exists j, c. split; [by right|done].
  - intros _. exists i, x. split; [by left|done].
Qed.

Lemma lz4_bnl_returns ld d : exists r, decompress_lz4_bnl ld d = Ret r.
Proof.
  unfold decompress_lz4_bnl. repeat (match goal with |- context [if ?b then _ else _] => destruct b eqn:?; [by eexists|] end).
  apply orb_false_iff in Heqb2 as [Hb1%Z.leb_gt Hb2%Z.ltb_ge]. apply Z.ltb_ge in Heqb3.
  edestruct (lz4_decode_bound ld) as (r & -> & _); [| | |by exists r]; [lia|simpl; lia|simpl; lia].
Qed.

Lemma chunk_panic zr ld levels d m :
  decompress_chunk_recursive zr ld levels d m = Panic -> exists x, part_of x d /\ bad_flags x.
Proof.
  revert d m. induction levels as [|levels IH]; intros d m; destruct m; simpl; try done.
  - by destruct (zr d).
  - by destruct (lz4_bnl_returns ld d) as [r ->].
  - by destruct (zr d).
  - by destruct (lz4_bnl_returns ld d) as [r ->].
  - pose proof (parse_cases d) as Hp. destruct (parse d) as [[f|]|]; simpl; [|done|intros _; exists d; by split; [apply part_of_refl|]].
    intros (j & c & Hc & Hf)%append_each_panic. apply IH in Hf as (x & Hx & Hb). rewrite Forall_forall in Hp.
    exists x. split; [|done]. eapply part_of_trans; [exact Hx|by apply Hp].
Qed.

(** Decoding a file panics only on an unknown format byte in a header, its own or that
    of a frame in it. *)
Lemma decode_panic zr ld d :
  parse d = Panic \/ (exists f, parse d = Ret (Ok f) /\ decompress zr ld f = Panic) -> exists x, part_of x d /\ bad_flags x.
Proof.
  pose proof (parse_cases d) as Hp. intros [E|(f & E & Hf)]; rewrite E in Hp; [exists d; by split; [apply part_of_refl|]|].
  apply append_each_panic in Hf as (j & c & Hc & Hf). apply chunk_panic in Hf as (x & Hx & Hb). rewrite Forall_forall in Hp.
  exists x. split; [|done]. eapply part_of_trans; [exact Hx|by apply Hp].
Qed.

(** ** Codecs that satisfy the assumptions: stored data *)

Definition zero_md5 (_ : bytes) : bytes := zeros 16.
Definition store_zlib (d : bytes) : option bytes := Some (120 :: d).
Definition store_reads (c : bytes) : list bytes * bool := ([drop 1 c], true).
Definition store_lz4 (d : bytes) : bytes := encode_block [] d.
Definition store_lz4_dict (d dict : bytes) : bytes := encode_block [] d.
Definition store_decode (block : bytes) (cap : nat) (dict : bytes) : option bytes := Some (drop (length block - cap) block).

Lemma store_decode_ok d dict : store_decode (encode_block [] d) (length d) dict = Some d.
Proof.
  unfold store_decode, encode_block, encode_last. cbn [map concat app]. f_equal. rewrite app_comm_cons, length_app.
  rewrite Nat.add_sub. apply drop_app_length.
Qed.

Lemma store_codecs_ok : codecs_ok zero_md5 store_zlib store_reads store_lz4 store_lz4_dict store_decode.
Proof.
  split.
  - done.
  - intros d. eexists. split; [done|]. split; [done|]. eexists. split; [done|]. simpl. by rewrite drop_0, app_nil_r.
  - intros d _. exists [], d. by split_and!.
  - intros d dict _. exists [], d. by split_and!.
  - intros d. apply store_decode_ok.
  - intros d dict. apply store_decode_ok.
Qed.

(** ** Theorems *)

(** Data of up to 1 GiB compressed without compression, with zlib or with LZ4, in
    chunks of any size, gives a file that is written, parsed back and
    decompressed to the same data; for LZ4 the decoder finds the ends of the
    blocks by walking their tokens. *)
Theorem blte_compress_roundtrip md5 zc zr lc lcd ld d size m :
  codecs_ok md5 zc zr lc lcd ld -> plain m -> (0 < size)%nat ->
  Z.of_nat (length d) <= MAX_DECOMPRESSION_SIZE -> Z.of_nat (length d) <= 0xFFFFFF * Z.of_nat size ->
  exists f, compress md5 zc lc lcd d size m = Ret (Ok f) /\
    (Forall chunk_fits (chunks f) ->
     exists f', parse (build f) = Ret (Ok f') /\ decompress zr ld f' = Ret (Ok d)).
Proof. intros Hc. by apply compress_roundtrip. Qed.

Lemma blte_compress_roundtrip_witness :
  exists f, compress zero_md5 store_zlib store_lz4 store_lz4_dict [1; 2; 3; 4; 5] 2 LZ4 = Ret (Ok f) /\
    exists f', parse (build f) = Ret (Ok f') /\ decompress store_reads store_decode f' = Ret (Ok [1; 2; 3; 4; 5]).
Proof.
  destruct (blte_compress_roundtrip zero_md5 store_zlib store_reads store_lz4 store_lz4_dict store_decode [1; 2; 3; 4; 5] 2 LZ4)
    as (f & Hf & H).
  - apply store_codecs_ok.
  - right. by right.
  - lia.
  - unfold MAX_DECOMPRESSION_SIZE. simpl. lia.
  - simpl. lia.
  - exists f. split; [exact Hf|]. apply H. clear H. vm_compute in Hf. injection Hf as <-. repeat constructor.
Defined.

(** C38: a file built with [add_mixed_data] from any non-empty sequence of pieces of up to
    1 GiB, each plain or, when it is not empty, encrypted with its own Salsa20 or ARC4 key
    of the key store and four-byte IV, cut into chunks and compressed as the builder is set, parses
    back and decrypts and decompresses to the pieces in order, as long as the chunks and
    their number fit the fields of the header.  An encrypted piece without data cannot be
    read back ([encrypted_empty_unreadable]), nor can what several calls of [add_data]
    encrypt ([add_data_restarts_blocks]). *)
Theorem blte_builder_roundtrip md5 zc zr lc lcd ld gk m size items :
  codecs_ok md5 zc zr lc lcd ld -> plain m -> (0 < size)%nat -> items <> [] -> Forall (item_ok gk) items ->
  exists b, add_all zc lc lcd (with_chunk_size_unchecked (with_compression builder_new m) size) items = Ret (Ok b) /\
    (Forall chunk_fits (b_chunks b) -> Z.of_nat (length (b_chunks b)) <= 0xFFFFFF ->
     exists f f', builder_build md5 b = Ok f /\ parse (build f) = Ret (Ok f') /\
       forall fuel, decompress_with_keys zr ld (S fuel) gk f' = Ret (Ok (concat (map fst items)))).
Proof.
  intros Hc Hm Hs Hne Hi. set (b0 := with_chunk_size_unchecked _ _).
  destruct (add_all_ok md5 zc zr lc lcd ld Hc gk items b0 []) as (b & Hadd & Hb & Hpos); [|done|].
  - split; [done|]. split; [done|]. exists []. split; [constructor|done].
  - exists b. split; [done|]. intros Hfit Hn. apply (build_decode md5 zc zr lc lcd ld Hc gk b); try done. apply Hpos. by left.
Qed.

Definition sample_key : bytes := [1; 2; 3; 4; 5; 6; 7; 8; 9; 10; 11; 12; 13; 14; 15; 16].
Definition sample_store (id : Z) : option (option bytes) := Some (if id =? 77 then Some sample_key else None).
Definition sample_items : list (bytes * option (EncryptionSpec * bytes)) :=
  [([10; 11; 12], Some (spec_salsa20 77 [9; 8; 7; 6], sample_key)); ([13], None);
   ([14; 15], Some (spec_arc4 77 [9; 8; 7; 6], sample_key))].

Lemma sample_items_ok : Forall (item_ok sample_store) sample_items.
Proof.
  repeat constructor; try (unfold MAX_DECOMPRESSION_SIZE; simpl; lia); try (simpl; unfold in_u; lia); try done; by (left + right).
Qed.

Lemma blte_builder_roundtrip_witness :
  exists b f f', add_all store_zlib store_lz4 store_lz4_dict (with_chunk_size_unchecked (with_compression builder_new ZLib) 2) sample_items = Ret (Ok b) /\
    builder_build zero_md5 b = Ok f /\ parse (build f) = Ret (Ok f') /\
    decompress_with_keys store_reads store_decode 1 sample_store f' = Ret (Ok [10; 11; 12; 13; 14; 15]).
Proof.
  destruct (blte_builder_roundtrip zero_md5 store_zlib store_reads store_lz4 store_lz4_dict store_decode sample_store ZLib 2
    sample_items store_codecs_ok ltac:(right; by left) ltac:(lia) ltac:(done) sample_items_ok) as (b & Hb & H).
  assert (Forall chunk_fits (b_chunks b) /\ Z.of_nat (length (b_chunks b)) <= 0xFFFFFF) as [H1 H2].
  { clear H. vm_compute in Hb. injection Hb as <-. split; [repeat constructor|done]. }
  destruct (H H1 H2) as (f & f' & Hf & Hp & Hd). exists b, f, f'. split; [exact Hb|]. split; [exact Hf|]. split; [exact Hp|].
  exact (Hd 0%nat).
Defined.

(** C39: whatever the bytes and the codecs, decompressing a zlib or LZ4 chunk does not
    panic, ends, and never returns more than 1 GiB; an LZ4 chunk gives exactly
    the size its header announces. *)
Theorem decompress_bounded zr ld d m :
  m = ZLib \/ m = LZ4 ->
  exists r, decompress_chunk zr ld d m = Ret r /\
    forall out, r = Ok out -> Z.of_nat (length out) <= MAX_DECOMPRESSION_SIZE /\
      (m = LZ4 -> is_bytes d -> Z.of_nat (length out) = from_be_bytes (slice 5 9 d)).
Proof.
  unfold decompress_chunk. intros [->| ->]; simpl.
  - destruct (zr d) as [reads ok]. eexists. split; [done|]. intros out H. split; [|done].
    by apply (zlib_collect_bound [] reads ok).
  - unfold decompress_lz4_bnl. repeat (match goal with |- context [if ?b then _ else _] => destruct b eqn:?; [by eexists|] end).
    apply orb_false_iff in Heqb2 as [Hb1%Z.leb_gt Hb2%Z.ltb_ge]. apply Z.ltb_ge in Heqb3.
    edestruct (lz4_decode_bound ld) as (r & -> & H); [| | |exists r; split; [done|]].
    + lia.
    + simpl. lia.
    + simpl. lia.
    + intros out Hout. rewrite (H out Hout). split; [unfold MAX_DECOMPRESSION_SIZE in *; lia|]. intros _ Hd. apply Z2Nat.id.
      apply Nat.ltb_ge in Heqb. unfold LZ4_HEADER_SIZE in Heqb. apply (from_be_bytes_in_u 4 32); [done|].
      split; [rewrite length_slice; lia|by apply slice_bytes].
Qed.

Lemma decompress_bounded_witness :
  exists r, decompress_chunk store_reads store_decode (compress_lz4 store_lz4 store_lz4_dict [7; 8]) LZ4 = Ret r /\
    (r = Ok [7; 8] -> Z.of_nat (length [7; 8]) <= MAX_DECOMPRESSION_SIZE).
Proof.
  destruct (decompress_bounded store_reads store_decode (compress_lz4 store_lz4 store_lz4_dict [7; 8]) LZ4) as (r & Hr & H);
    [by right|]. exists r. split; [exact Hr|]. intros E. by destruct (H _ E).
Defined.

(** Decryption and decompression of a file ends, although frames recurse without a
    limit: more fuel than the size of the chunks changes nothing. *)
Theorem decompress_with_keys_terminates zr ld gk f fuel :
  (chunks_size (chunks f) < fuel)%nat ->
  decompress_with_keys zr ld fuel gk f = decompress_with_keys zr ld (S (chunks_size (chunks f))) gk f.
Proof. intros H. apply keys_fuel; lia. Qed.

(** A file in a file in a file. *)
Definition framed (d : bytes) : BlteFile :=
  {| header := header_single_chunk; chunks := [from_compressed Frame d None] |}.

Definition nested_frames : BlteFile :=
  framed (build (framed (build (framed (build {| header := header_single_chunk; chunks := [from_compressed None_ [42] None] |}))))).

Lemma decompress_with_keys_terminates_witness :
  decompress_with_keys store_reads store_decode 100 sample_store nested_frames = Ret (Ok [42]).
Proof.
  rewrite (decompress_with_keys_terminates store_reads store_decode sample_store nested_frames 100); [reflexivity|].
  vm_compute. lia.
Defined.

(** ** Where the code differs from its intention *)

(** Frames are limited to one level when no keys are given, and not at all with keys. *)
Theorem frame_depth_only_without_keys :
  decompress store_reads store_decode nested_frames = Ret (Err (RecursionLimitExceeded 1)) /\
  decompress_with_keys store_reads store_decode 100 sample_store nested_frames = Ret (Ok [42]).
Proof. split; reflexivity. Qed.

(** An unknown format byte in the extended header panics instead of being an error. *)
Theorem parse_panics_on_flags b rest :
  flags_from_byte b = None -> parse (BLTE_MAGIC ++ [0; 0; 0; 12] ++ b :: rest) = Panic.
Proof. intros H. unfold parse, read_header. simpl. unfold read_extended. rewrite read_u8_app. simpl. by rewrite H. Qed.

(** [add_data] numbers the blocks of each call from zero, the reader numbers them
    through the file: the second call's data cannot be read back. *)
Theorem add_data_restarts_blocks :
  exists b1 b f, add_data store_zlib store_lz4 store_lz4_dict
      (with_encryption (with_chunk_size_unchecked builder_new 1024) (spec_salsa20 77 [9; 8; 7; 6]) sample_key) [10; 11] = Ret (Ok b1) /\
    add_data store_zlib store_lz4 store_lz4_dict b1 [12; 13] = Ret (Ok b) /\ builder_build zero_md5 b = Ok f /\
    decompress_with_keys store_reads store_decode 1 sample_store f <> Ret (Ok [10; 11; 12; 13]).
Proof.
  eexists _, _, _. split; [vm_compute; reflexivity|]. split; [vm_compute; reflexivity|]. split; [vm_compute; reflexivity|].
  vm_compute. discriminate.
Qed.

(** An encrypted chunk of no data is sixteen bytes and the reader asks for seventeen. *)
Theorem encrypted_empty_unreadable :
  exists b f, add_data store_zlib store_lz4 store_lz4_dict
      (with_encryption (with_chunk_size_unchecked builder_new 1024) (spec_salsa20 77 [9; 8; 7; 6]) sample_key) [] = Ret (Ok b) /\
    builder_build zero_md5 b = Ok f /\
    decompress_with_keys store_reads store_decode 1 sample_store f = Ret (Err (CompressionError "Encrypted chunk too short")).
Proof.
  eexists _, _. split; [vm_compute; reflexivity|]. split; [vm_compute; reflexivity|]. vm_compute. reflexivity.
Qed.
