(* ===== verification/ArchiveFile.v ===== *)
(** * Archive files: crates/cascette-client-storage/src/storage/archive_file.rs

    [ArchiveManager]: the data files of a storage directory, each mapped into
    memory, with a write position at which the next entry is appended.  An entry
    is a local header and a BLTE file.

    A mapping shows the current content of its file up to the length the file
    had when it was mapped; a mapping whose file was replaced keeps the old
    content ([detached]).  Which system calls fail is the argument [io], one per
    call of an operation. *)

From S2P Require Import Prelude Bytes Text Disk Collections LocalHeader Segment Compaction Ciphers Blte.
Local Open Scope Z_scope.

Module Archive.

Import Blte.

Definition MAX_ARCHIVE_SIZE : Z := Segment.SEGMENT_SIZE.

Record ArchiveFile := { path : bytes; size : Z; detached : option bytes }.

Record ArchiveManager := {
  archives : gmap Z ArchiveFile;
  base_path : bytes;
  write_positions : list (Z * Z);
  default_compression : CompressionMode;
}.

Record Io := {
  read_dir_ok : bool;
  next_entry_ok : bytes -> bool;
  metadata_ok : bytes -> bool;
  open_ok : bytes -> bool;
  stat_ok : bytes -> bool;
  map_ok : bytes -> bool;
  create_ok : bool;
  header_written : option nat;
  write_open_ok : bool;
  seek_ok : bool;
  written : option nat;
  flush_ok : bool;
  size_ok : bool;
  remap_open_ok : bool;
  remap_map_ok : bool;
  copied : option nat;
  temp_open_ok : bool;
  set_len_ok : bool;
  rename_ok : bool;
}.

Definition set_archive (m : ArchiveManager) (id : Z) (a : ArchiveFile) : ArchiveManager :=
  {| archives := <[id := a]> (archives m); base_path := base_path m;
     write_positions := write_positions m; default_compression := default_compression m |}.

Definition set_position (m : ArchiveManager) (id pos : Z) : ArchiveManager :=
  {| archives := archives m; base_path := base_path m;
     write_positions := bt_insert id pos (write_positions m); default_compression := default_compression m |}.

Definition with_compression (base_path : bytes) (mode : CompressionMode) : ArchiveManager :=
  {| archives := ∅; base_path := base_path; write_positions := []; default_compression := mode |}.

Definition manager_new (base_path : bytes) : ArchiveManager := with_compression base_path None_.

Definition set_compression_mode (m : ArchiveManager) (mode : CompressionMode) : ArchiveManager :=
  {| archives := archives m; base_path := base_path m; write_positions := write_positions m; default_compression := mode |}.

(** ** Opening *)

Definition open_archive (io : Io) (id : Z) (name : bytes) (m : ArchiveManager) (d : disk) :
    result StorageError unit * ArchiveManager :=
  match disk_get d name with
  | None => (Err (ArchiveError "Failed to open archive"), m)
  | Some content =>
      if negb (open_ok io name) then (Err (ArchiveError "Failed to open archive"), m)
      else if negb (stat_ok io name) then (Err (ArchiveError "Failed to get metadata"), m)
      else if negb (map_ok io name) then (Err (ArchiveError "Failed to mmap archive"), m)
      else
        let size := Z.of_nat (length content) in
        (Ok tt, set_position (set_archive m id {| path := name; size := size; detached := None |}) id size)
  end.

(** [str::parse::<u16>] on at most three characters: an optional plus sign and
    decimal digits. *)
Definition parse_u16 (s : bytes) : option Z :=
  let digits := match s with 43 :: rest => rest | _ => s end in
  if (length digits =? 0)%nat || negb (forallb (in_rng 48 57) digits) then None
  else Some (parse_decimal digits).

(** The name filter of [open_all]. *)
Definition archive_id_of (name : bytes) : option Z :=
  if utf8_valid name && bool_decide (take 5 name = Segment.data_prefix) && (length name =? 8)%nat
  then parse_u16 (slice 5 8 name) else None.

Fixpoint open_files (io : Io) (files d : disk) (m : ArchiveManager) : result StorageError unit * ArchiveManager :=
  match files with
  | [] => (Ok tt, m)
  | (name, _) :: files =>
      if negb (next_entry_ok io name) then (Err (ArchiveError "Failed to read entry"), m)
      else
        match archive_id_of name with
        | None => open_files io files d m
        | Some id =>
            if negb (metadata_ok io name) then (Err (ArchiveError "Failed to get metadata"), m)
            else
              match open_archive io id name m d with
              | (Ok _, m) => open_files io files d m
              | (Err e, m) => (Err e, m)
              end
        end
  end.

Definition open_all (io : Io) (m : ArchiveManager) (d : disk) : result StorageError unit * ArchiveManager :=
  if negb (read_dir_ok io) then (Err (ArchiveError "Failed to read directory"), m) else open_files io d d m.

(** ** Reading *)

Definition mapped (a : ArchiveFile) (d : disk) : bytes :=
  take (Z.to_nat (size a)) (default (default [] (disk_get d (path a))) (detached a)).

Definition read_raw (m : ArchiveManager) (d : disk) (archive_id offset size_ : Z) : result StorageError bytes :=
  match archives m !! archive_id with
  | None => Err (ArchiveError "Archive not found")
  | Some a =>
      if size a <? offset + size_ then Err (ArchiveError "Read beyond archive bounds")
      else Ok (slice (Z.to_nat offset) (Z.to_nat (offset + size_)) (mapped a d))
  end.

(** [is_blte k data]: the magic at offset [k]. *)
Definition is_blte (k : nat) (data : bytes) : bool :=
  (k + 4 <=? length data)%nat && bool_decide (slice k (k + 4) data = BLTE_MAGIC).

Section Codecs.

Context (md5 : bytes -> bytes).
Context (zlib_compress : bytes -> option bytes) (zlib_reads : bytes -> list bytes * bool).
Context (lz4_compress : bytes -> bytes) (lz4_compress_with_dict : bytes -> bytes -> bytes).
Context (lz4_decompress_with_dict : bytes -> nat -> bytes -> option bytes).

Definition decompress_blte_with_formats (data : bytes) : outcome (result StorageError bytes) :=
  r ← parse data;
  match r with
  | Err _ => Ret (Err (ArchiveError "Failed to parse BLTE"))
  | Ok f =>
      r ← decompress zlib_reads lz4_decompress_with_dict f;
      Ret (match r with Ok out => Ok out | Err _ => Err (ArchiveError "Failed to decompress BLTE") end)
  end.

Definition read_content (m : ArchiveManager) (d : disk) (archive_id offset size_ : Z) : outcome (result StorageError bytes) :=
  data ←? Ret (read_raw m d archive_id offset size_);
  if is_blte LocalHeader.LOCAL_HEADER_SIZE data then decompress_blte_with_formats (drop LocalHeader.LOCAL_HEADER_SIZE data)
  else if is_blte 0 data then decompress_blte_with_formats data
  else Ret (Ok data).

Definition verify_content (m : ArchiveManager) (d : disk) (archive_id offset size_ : Z) (expected_hash : bytes) :
    outcome (result StorageError bool) :=
  content ←? read_content m d archive_id offset size_;
  Ret (Ok (bool_decide (md5 content = expected_hash))).

Definition validate_entry (m : ArchiveManager) (d : disk) (archive_id offset size_ : Z) : result StorageError bool :=
  match archives m !! archive_id with
  | None => Err (ArchiveError "Archive not found")
  | Some a =>
      if size a <? offset + size_ then Err (ArchiveError "Read beyond archive bounds")
      else if size_ =? 0 then Ok false
      else
        let data := slice (Z.to_nat offset) (Z.to_nat (offset + size_)) (mapped a d) in
        if is_blte LocalHeader.LOCAL_HEADER_SIZE data then Ok true
        else if is_blte 0 data then Ok true
        else Ok true
  end.

(** ** Writing *)

Definition remap_archive (io : Io) (id : Z) (path_ : bytes) (new_size : Z) (m : ArchiveManager) :
    result StorageError unit * ArchiveManager :=
  if MAX_ARCHIVE_SIZE <? new_size then (Err (ArchiveError "Archive exceeds maximum size limit"), m)
  else if negb (remap_open_ok io) then (Err (ArchiveError "Failed to open archive for remapping"), m)
  else if negb (remap_map_ok io) then (Err (ArchiveError "Failed to remap archive"), m)
  else (Ok tt, set_archive m id {| path := path_; size := new_size; detached := None |}).

Definition write_to_archive (io : Io) (id offset : Z) (data : bytes) (m : ArchiveManager) (d : disk) :
    result StorageError unit * ArchiveManager * disk :=
  match archives m !! id with
  | None => (Err (ArchiveError "Archive not found"), m, d)
  | Some a =>
      match (if write_open_ok io then disk_get d (path a) else None) with
      | None => (Err (ArchiveError "Failed to open for write"), m, d)
      | Some content =>
          let put x := disk_update d (path a) (Compaction.write_at (Z.to_nat offset) x content) in
          if negb (seek_ok io) then (Err (ArchiveError "Failed to seek"), m, d)
          else
            match written io with
            | Some n => (Err (ArchiveError "Failed to write"), m, put (take n data))
            | None =>
                let d := put data in
                if negb (flush_ok io) then (Err (ArchiveError "Failed to flush"), m, d)
                else if negb (size_ok io) then (Err (ArchiveError "Failed to get file metadata"), m, d)
                else
                  let new_size := Z.of_nat (length (default [] (disk_get d (path a)))) in
                  if size a <? new_size then
                    let '(r, m) := remap_archive io id (path a) new_size m in (r, m, d)
                  else (Ok tt, m, d)
            end
      end
  end.

(** [File::create] truncates a file that exists. *)
Definition create_archive (io : Io) (id : Z) (m : ArchiveManager) (d : disk) : result StorageError unit * ArchiveManager * disk :=
  let name := Segment.segment_data_name id in
  let header := Segment.to_bytes (Segment.generate id (md5 (base_path m))) in
  if negb (create_ok io) then (Err (ArchiveError "Failed to create archive"), m, d)
  else
    let put x := match disk_get d name with Some _ => disk_update d name x | None => disk_write d name x end in
    match header_written io with
    | Some n => (Err (ArchiveError "Failed to write segment header"), m, put (take n header))
    | None =>
        let d := put header in
        let '(r, m) := open_archive io id name m d in
        match r with
        | Err e => (Err e, m, d)
        | Ok _ => (Ok tt, set_position m id (Z.of_nat Segment.SEGMENT_HEADER_SIZE), d)
        end
    end.

Fixpoint first_with_room (needed : Z) (positions : list (Z * Z)) : option Z :=
  match positions with
  | [] => None
  | (id, pos) :: positions =>
      if wrap64 (pos + needed) <=? MAX_ARCHIVE_SIZE then Some id else first_with_room needed positions
  end.

Definition select_archive_for_write_sized (m : ArchiveManager) (needed : Z) : Z :=
  match first_with_room needed (write_positions m) with
  | Some id => id
  | None =>
      let n := Z.of_nat (length (write_positions m)) in
      if n <? 2 ^ 16 - 1 then n else 0
  end.

(** [write_raw_content_with_ekey], which is also the common part of the other two
    writers.  [io] is used for the creation and for the write of the entry. *)
Definition write_raw_content_with_ekey (io : Io) (blte_data ekey : bytes) (m : ArchiveManager) (d : disk) :
    result StorageError (Z * Z * Z) * ArchiveManager * disk :=
  let total_size := Z.of_nat (LocalHeader.LOCAL_HEADER_SIZE + length blte_data) in
  if 2 ^ 32 <=? total_size then (Err (ArchiveError "Total data too large"), m, d)
  else
    let archive_id := select_archive_for_write_sized m total_size in
    let '(r, m, d) := match archives m !! archive_id with
                      | Some _ => (Ok tt, m, d)
                      | None => create_archive io archive_id m d
                      end in
    match r with
    | Err e => (Err e, m, d)
    | Ok _ =>
        let offset := default 0 (bt_get archive_id (write_positions m)) in
        let global_offset := wrap64 (archive_id * Segment.SEGMENT_SIZE + offset) in
        let header := LocalHeader.new ekey total_size global_offset 0 in
        let '(r, m, d) := write_to_archive io archive_id offset (LocalHeader.to_bytes header ++ blte_data) m d in
        match r with
        | Err e => (Err e, m, d)
        | Ok _ =>
            let m := set_position m archive_id (wrap64 (offset + total_size)) in
            if 2 ^ 32 <=? offset then (Err (ArchiveError "Offset too large"), m, d)
            else (Ok (archive_id, offset, total_size), m, d)
        end
    end.

Definition write_raw_content (io : Io) (blte_data : bytes) (m : ArchiveManager) (d : disk) :
    result StorageError (Z * Z * Z * bytes) * ArchiveManager * disk :=
  let encoding_key := md5 blte_data in
  let '(r, m, d) := write_raw_content_with_ekey io blte_data encoding_key m d in
  (match r with Ok loc => Ok (loc, encoding_key) | Err e => Err e end, m, d).

Definition compress_blte_with_mode (data : bytes) (mode : CompressionMode) : result StorageError bytes :=
  match mode with
  | Encrypted | Frame => Err (ArchiveError "compression not supported for storage")
  | _ =>
      match single_chunk zlib_compress lz4_compress lz4_compress_with_dict data mode with
      | Err _ => Err (ArchiveError "Failed to create BLTE")
      | Ok f => Ok (build f)
      end
  end.

Definition write_content_with_mode (io : Io) (data : bytes) (mode : CompressionMode) (m : ArchiveManager) (d : disk) :
    result StorageError (Z * Z * Z * bytes) * ArchiveManager * disk :=
  match compress_blte_with_mode data mode with
  | Err e => (Err e, m, d)
  | Ok blte_data => write_raw_content io blte_data m d
  end.

Definition write_content (io : Io) (data : bytes) (compress : bool) (m : ArchiveManager) (d : disk) :
    result StorageError (Z * Z * Z * bytes) * ArchiveManager * disk :=
  write_content_with_mode io data (if compress then default_compression m else None_) m d.

(** ** Segment headers *)

Definition write_segment_header (io : Io) (archive_id : Z) (header : Segment.SegmentHeader) (m : ArchiveManager) (d : disk) :
    result StorageError unit * ArchiveManager * disk :=
  write_to_archive io archive_id 0 (Segment.to_bytes header) m d.

Definition read_segment_header (m : ArchiveManager) (d : disk) (archive_id : Z) : result StorageError Segment.SegmentHeader :=
  match read_raw m d archive_id 0 (Z.of_nat Segment.SEGMENT_HEADER_SIZE) with
  | Err e => Err e
  | Ok data => Ok (default Segment.zeroed (Segment.from_bytes data))
  end.

End Codecs.

(** ** Statistics and compaction *)

Record ArchiveStats := { archive_count : nat; total_size : Z; total_used : Z }.

Definition stats (m : ArchiveManager) : ArchiveStats :=
  {| archive_count := base.size (archives m);
     total_size := map_fold (fun _ a n => wrap64 (n + size a)) 0 (archives m);
     total_used := fold_left (fun n p => wrap64 (n + snd p)) (write_positions m) 0 |}.

Section Compact.

(** [used as f64 / total as f64 < 1.0 - 0.3]. *)
Context (underused : Z -> Z -> bool).

Definition should_compact_archive (m : ArchiveManager) (id : Z) : result StorageError bool :=
  match archives m !! id with
  | None => Err (ArchiveError "Archive not found")
  | Some a =>
      let used := default 0 (bt_get id (write_positions m)) in
      if used =? 0 then Ok false else Ok (underused used (size a) && (1024 * 1024 <? size a))
  end.

(** The name of the file of the copy: [with_extension("tmp")]. *)
Definition temp_name : bytes := [100; 97; 116; 97; 46; 116; 109; 112].

(** The result is the number of reclaimed bytes and of moved entries. *)
Definition compact_single_archive (io : Io) (id : Z) (m : ArchiveManager) (d : disk) :
    result StorageError (Z * nat) * ArchiveManager * disk :=
  match archives m !! id with
  | None => (Err (ArchiveError "Archive not found"), m, d)
  | Some a =>
      let used := default (size a) (bt_get id (write_positions m)) in
      if used <? size a then
        match disk_get d (path a), copied io with
        | None, _ => (Err (ArchiveError "Failed to copy archive for compaction"), m, d)
        | Some content, Some n =>
            (Err (ArchiveError "Failed to copy archive for compaction"), m, disk_write d temp_name (take n content))
        | Some content, None =>
            let d1 := disk_write d temp_name content in
            if negb (temp_open_ok io) then (Err (ArchiveError "Failed to open temp file"), m, d1)
            else if negb (set_len_ok io) then (Err (ArchiveError "Failed to truncate temp file"), m, d1)
            else
              let kept := take (Z.to_nat used) content ++ zeros (Z.to_nat used - length content) in
              if negb (rename_ok io)
              then (Err (ArchiveError "Failed to replace archive with compacted version"), m, disk_write d temp_name kept)
              else
                let d2 := disk_update (disk_remove d temp_name) (path a) kept in
                let m := set_archive m id {| path := path a; size := size a; detached := Some (default content (detached a)) |} in
                let '(r, m) := remap_archive io id (path a) used m in
                match r with
                | Err e => (Err e, m, d2)
                | Ok _ => (Ok (size a - used, 1%nat), m, d2)
                end
        end
      else (Ok (0, 0%nat), m, d)
  end.

Record CompactionStats := { archives_compacted : nat; bytes_reclaimed : Z; entries_moved : nat }.

(** The loop of [compact], over the archives in the order of the concurrent map. *)
Fixpoint compact_list (io : Z -> Io) (ids : list Z) (s : CompactionStats) (m : ArchiveManager) (d : disk) :
    result StorageError CompactionStats * ArchiveManager * disk :=
  match ids with
  | [] => (Ok s, m, d)
  | id :: ids =>
      match should_compact_archive m id with
      | Err e => (Err e, m, d)
      | Ok false => compact_list io ids s m d
      | Ok true =>
          match compact_single_archive (io id) id m d with
          | (Err e, m, d) => (Err e, m, d)
          | (Ok (reclaimed, moved), m, d) =>
              compact_list io ids {| archives_compacted := S (archives_compacted s);
                                     bytes_reclaimed := wrap64 (bytes_reclaimed s + reclaimed);
                                     entries_moved := (entries_moved s + moved)%nat |} m d
          end
      end
  end.

Definition compact (io : Z -> Io) (ids : list Z) (m : ArchiveManager) (d : disk) :
    result StorageError CompactionStats * ArchiveManager * disk :=
  compact_list io ids {| archives_compacted := 0; bytes_reclaimed := 0; entries_moved := 0 |} m d.

End Compact.

End Archive.
