(* ===== verification/ArchiveTheorems.v ===== *)
(** * Correctness of the archive files

    Entries that were written stay readable whatever later writes do and
    whatever fails; a written entry reads back to its content. *)

From S2P Require Import Prelude Bytes Text Disk Collections LocalHeader Segment SegmentTheorems Compaction CompactionTheorems.
From S2P Require Import Ciphers Blte BlteTheorems ArchiveFile.
Import Archive.
Local Open Scope Z_scope.

Lemma slice_take a b n (l : bytes) : (b <= n)%nat -> slice a b (take n l) = slice a b l.
Proof. intros H. unfold slice. rewrite skipn_firstn_comm, take_take. f_equal. lia. Qed.

(** ** File names *)

Lemma format03_value n : 0 <= n < 2 ^ 64 -> parse_decimal (Segment.format03 n) = n.
Proof.
  intros Hn. unfold parse_decimal, Segment.format03.
  assert (forall k l, fold_left (fun a c => a * 10 + (c - 48)) (replicate k 48 ++ l) 0 = fold_left (fun a c => a * 10 + (c - 48)) l 0) as E.
  { intros k l. induction k as [|k IH]; simpl; [done|]. exact IH. }
  rewrite E. apply (decimal_value 20). change (10 ^ Z.of_nat 20) with 100000000000000000000. lia.
Qed.

Lemma segment_data_name_inj a b :
  0 <= a < 2 ^ 64 -> 0 <= b < 2 ^ 64 -> Segment.segment_data_name a = Segment.segment_data_name b -> a = b.
Proof.
  intros Ha Hb E. unfold Segment.segment_data_name in E. apply app_inv_head in E.
  by rewrite <- (format03_value a), <- (format03_value b), E.
Qed.

Lemma positions_get id i pos (ps : list (Z * Z)) :
  bt_get i (bt_insert id pos ps) = if decide (i = id) then Some pos else bt_get i ps.
Proof.
  rewrite bt_get_insert. change (kcmp i id) with (i ?= id). destruct (decide (i = id)) as [->|Hne].
  - by rewrite Z.compare_refl.
  - destruct (i ?= id) eqn:E; [|done|done]. by apply Z.compare_eq in E.
Qed.

(** ** The invariant *)

Record arch_ok (m : ArchiveManager) (d : disk) (id : Z) (a : ArchiveFile) : Prop := {
  ao_id : 0 <= id < 2 ^ 16;
  ao_path : path a = Segment.segment_data_name id;
  ao_live : detached a = None;
  ao_file : exists content, disk_get d (path a) = Some content /\ size a <= Z.of_nat (length content);
  ao_pos : exists pos, bt_get id (write_positions m) = Some pos /\ 0 <= pos <= size a;
  ao_size : size a < 2 ^ 63;
}.

(** Every open archive has its file, mapped at most to its end, and its write
    position in the mapped part. *)
Definition archives_ok (m : ArchiveManager) (d : disk) : Prop :=
  (forall id a, archives m !! id = Some a -> arch_ok m d id a) /\
  (forall id pos, bt_get id (write_positions m) = Some pos -> is_Some (archives m !! id)).

(** The entry at [off] with [sz] bytes lies below the write position. *)
Definition stored (m : ArchiveManager) (id off sz : Z) : Prop :=
  0 <= off /\ 0 <= sz /\ exists pos, bt_get id (write_positions m) = Some pos /\ off + sz <= pos.

Lemma position_of m d id a :
  archives_ok m d -> archives m !! id = Some a ->
  exists pos, bt_get id (write_positions m) = Some pos /\ 0 <= pos <= size a /\ size a < 2 ^ 63.
Proof. intros [H _] Ha. destruct (H id a Ha) as [_ _ _ _ (pos & Hp & Hr) Hs]. by exists pos. Qed.

Lemma archives_ok_new base : archives_ok (manager_new base) [].
Proof. split; [|done]. intros id a H. simpl in H. by rewrite lookup_empty in H. Qed.

(** What [read_raw] gives for a stored entry. *)
Lemma read_raw_live m d id a content off sz :
  archives m !! id = Some a -> detached a = None -> disk_get d (path a) = Some content ->
  size a <= Z.of_nat (length content) -> 0 <= off -> 0 <= sz -> off + sz <= size a ->
  read_raw m d id off sz = Ok (slice (Z.to_nat off) (Z.to_nat (off + sz)) content).
Proof.
  intros Ha Hl Hc Hs Ho Hz Hb. unfold read_raw. rewrite Ha, (proj2 (Z.ltb_ge _ _)) by lia. f_equal. unfold mapped.
  rewrite Hl, Hc. simpl. apply slice_take. lia.
Qed.

(** ** Writing into an archive *)

(** The content of a file after a write, complete or cut short. *)
Definition after_write (off : Z) (data content content' : bytes) : Prop :=
  content' = content \/ exists n, content' = Compaction.write_at (Z.to_nat off) (take n data) content.

Lemma after_write_keeps off data content content' i :
  0 <= off -> after_write off data content content' -> (i < length content)%nat ->
  (Z.of_nat i < off \/ off + Z.of_nat (length data) <= Z.of_nat i) -> content' !! i = content !! i.
Proof.
  intros Hoff [->|[n ->]] Hi Hout; [done|]. rewrite write_at_lookup, decide_False, decide_True by (rewrite ?length_take; lia). done.
Qed.

Lemma write_at_grows off data content : (length content <= length (Compaction.write_at off data content))%nat.
Proof.
  destruct data as [|b data]; [done|]. rewrite write_at_length by done. lia.
Qed.

Lemma after_write_grows off data content content' : after_write off data content content' -> (length content <= length content')%nat.
Proof. intros [->|[n ->]]; [done|]. apply write_at_grows. Qed.

(** What a write to archive [id] may leave: the file grows and changes only in the
    written range, and the mapping is the old one or covers the new file; after a
    success the data is there and mapped. *)
Definition write_result (m : ArchiveManager) (d : disk) (id : Z) (a : ArchiveFile) (off : Z) (data content : bytes)
    (x : result StorageError unit * ArchiveManager * disk) : Prop :=
  let '(r, m', d') := x in
  exists content', disk_get d' (path a) = Some content' /\ after_write off data content content' /\
    (forall n, n <> path a -> disk_get d' n = disk_get d n) /\
    (m' = m \/ m' = set_archive m id {| path := path a; size := Z.of_nat (length content'); detached := None |} /\
                size a < Z.of_nat (length content') <= MAX_ARCHIVE_SIZE) /\
    (r = Ok tt -> content' = Compaction.write_at (Z.to_nat off) data content /\
       exists a', archives m' !! id = Some a' /\ Z.of_nat (length content') <= size a').

Lemma write_result_put m d id a off data content r m' x n :
  disk_get d (path a) = Some content -> x = take n data -> r <> Ok tt \/ x = data ->
  let c := Compaction.write_at (Z.to_nat off) x content in
  (m' = m \/ m' = set_archive m id {| path := path a; size := Z.of_nat (length c); detached := None |} /\
     size a < Z.of_nat (length c) <= MAX_ARCHIVE_SIZE) ->
  (r = Ok tt -> exists a', archives m' !! id = Some a' /\ Z.of_nat (length c) <= size a') ->
  write_result m d id a off data content (r, m', disk_update d (path a) c).
Proof.
  intros Hc Hx Hr c Hm Hok. exists c. split; [by rewrite disk_get_update, Hc|].
  split; [right; exists n; by rewrite <- Hx|]. split; [intros n' Hn'; by apply disk_get_update_ne|]. split; [done|].
  intros ->. split; [|by apply Hok]. by destruct Hr as [?| ->].
Qed.

Lemma write_to_archive_spec io id off data m d a content :
  archives m !! id = Some a -> disk_get d (path a) = Some content -> 0 <= off ->
  write_result m d id a off data content (write_to_archive io id off data m d).
Proof.
  intros Ha Hc Hoff. unfold write_to_archive. rewrite Ha.
  assert (forall e, write_result m d id a off data content (Err e, m, d)) as Hsame.
  { intros e. exists content. split; [done|]. split; [by left|]. split; [done|]. split; [by left|done]. }
  assert (forall e x n, x = take n data -> write_result m d id a off data content
    (Err e, m, disk_update d (path a) (Compaction.write_at (Z.to_nat off) x content))) as Hfail.
  { intros e x n Hx. apply (write_result_put _ _ _ _ _ _ _ _ _ _ n); [done|done|by left|by left|done]. }
  assert (data = take (length data) data) as Hall by (by rewrite take_ge).
  destruct (write_open_ok io); [|apply Hsame]. rewrite Hc. destruct (seek_ok io); cbn [negb]; [|apply Hsame].
  destruct (written io) as [n|]; [by eapply Hfail|]. destruct (flush_ok io); cbn [negb]; [|by eapply Hfail].
  destruct (size_ok io); cbn [negb]; [|by eapply Hfail]. rewrite disk_get_update, Hc. simpl default.
  destruct (size a <? _) eqn:E.
  - apply Z.ltb_lt in E. unfold remap_archive. destruct (MAX_ARCHIVE_SIZE <? _) eqn:Em; [by eapply Hfail|].
    apply Z.ltb_ge in Em. destruct (remap_open_ok io); cbn [negb]; [|by eapply Hfail].
    destruct (remap_map_ok io); cbn [negb]; [|by eapply Hfail].
    eapply write_result_put; [done|exact Hall|by right|by right|]. intros _. eexists. split; [apply lookup_insert_eq|]. done.
  - apply Z.ltb_ge in E. eapply write_result_put; [done|exact Hall|by right|by left|]. intros _. by exists a.
Qed.

(** ** What writes keep *)

(** Another state that is well-formed and in which every stored entry reads the same. *)
Definition keeps (m : ArchiveManager) (d : disk) (m' : ArchiveManager) (d' : disk) : Prop :=
  archives_ok m' d' /\ forall id o s, stored m id o s -> read_raw m' d' id o s = read_raw m d id o s.

Lemma stored_archive m d id o s :
  archives_ok m d -> stored m id o s ->
  exists a content, archives m !! id = Some a /\ arch_ok m d id a /\ disk_get d (path a) = Some content /\
    size a <= Z.of_nat (length content) /\ o + s <= size a.
Proof.
  intros [H1 H2] (Ho & Hs & pos & Hp & Hle). destruct (H2 id pos Hp) as [a Ha]. pose proof (H1 id a Ha) as Hok.
  destruct Hok as [_ _ _ (content & Hc & Hsz) (pos' & Hp' & Hr) _]. exists a, content. split; [done|]. split; [by apply H1|].
  split; [done|]. split; [done|]. rewrite Hp in Hp'. injection Hp' as <-. lia.
Qed.

Lemma paths_differ m d id id' a a' :
  archives_ok m d -> archives m !! id = Some a -> archives m !! id' = Some a' -> id <> id' -> path a' <> path a.
Proof.
  intros [H _] Ha Ha' Hne E. destruct (H id a Ha) as [Hi Hp _ _ _ _]. destruct (H id' a' Ha') as [Hi' Hp' _ _ _ _].
  rewrite Hp, Hp' in E. apply segment_data_name_inj in E; lia.
Qed.

Lemma write_result_ok m d id a off data content r m' d' :
  archives_ok m d -> archives m !! id = Some a -> disk_get d (path a) = Some content ->
  write_result m d id a off data content (r, m', d') ->
  archives_ok m' d' /\ write_positions m' = write_positions m.
Proof.
  intros Hok Ha Hc (content' & Hc' & Haw & Hother & Hm & _). pose proof (after_write_grows _ _ _ _ Haw) as Hgrow.
  pose proof Hok as [H1 H2]. destruct (H1 id a Ha) as [Hi Hp Hl (c0 & Hc0 & Hsz) Hpos Hs63].
  rewrite Hc in Hc0. injection Hc0 as <-.
  assert (forall id' a', id' <> id -> archives m !! id' = Some a' -> arch_ok m d' id' a') as Hrest.
  { intros id' a' Hne Ha'. destruct (H1 id' a' Ha') as [X1 X2 X3 (c & X4 & X5) X6 X7]. split; try done.
    exists c. split; [|done]. rewrite Hother; [done|]. eapply (paths_differ m d); eauto. }
  assert (arch_ok m d' id a) as Hself by (split; try done; exists content'; split; [done|lia]).
  destruct Hm as [-> | [-> [Hlt Hmax]]].
  - split; [|done]. split; [|done]. intros id' a' Ha'. destruct (decide (id' = id)) as [->|Hne]; [|by apply Hrest].
    rewrite Ha in Ha'. by injection Ha' as <-.
  - split; [|done]. split; cbn [set_archive archives write_positions].
    + intros id' a' Ha'. destruct (decide (id' = id)) as [->|Hne].
      * rewrite lookup_insert_eq in Ha'. injection Ha' as <-. split; cbn [path size detached write_positions]; try done.
        -- by exists content'.
        -- destruct Hpos as (pos & Hpos & Hr). exists pos. split; [done|lia].
        -- unfold MAX_ARCHIVE_SIZE, Segment.SEGMENT_SIZE in Hmax. lia.
      * rewrite lookup_insert_ne in Ha' by done. destruct (Hrest id' a' Hne Ha') as [X1 X2 X3 X4 X5 X6]. by split.
    + intros id' pos Hp'. rewrite lookup_insert. case_decide; [done|]. by eapply H2.
Qed.

Lemma write_result_reads m d id a off data content r m' d' id' o s :
  archives_ok m d -> archives m !! id = Some a -> disk_get d (path a) = Some content -> 0 <= off ->
  write_result m d id a off data content (r, m', d') -> stored m id' o s ->
  (id' <> id \/ o + s <= off \/ off + Z.of_nat (length data) <= o) ->
  read_raw m' d' id' o s = read_raw m d id' o s.
Proof.
  intros Hok Ha Hc Hoff (content' & Hc' & Haw & Hother & Hm & _) Hst Hout.
  pose proof (after_write_grows _ _ _ _ Haw) as Hgrow.
  destruct (stored_archive m d id' o s Hok Hst) as (a' & c & Ha' & [_ _ Hl _ _ _] & Hca & Hsz & Hle).
  destruct Hst as (Ho & Hs & _).
  assert (exists a'', archives m' !! id' = Some a'' /\ path a'' = path a' /\ detached a'' = None /\ size a' <= size a'' /\
    (size a'' = size a' \/ id' = id /\ size a'' = Z.of_nat (length content'))) as (a'' & Ha'' & Hpa & Hla & Hsa & Hcase).
  { destruct Hm as [-> | [-> [Hlt _]]]; [exists a'; split_and!; try done; by left|]. cbn [set_archive archives].
    destruct (decide (id' = id)) as [->|Hne].
    - rewrite lookup_insert_eq. rewrite Ha in Ha'. injection Ha' as <-. eexists. split_and!; [done|done|done|simpl; lia|by right].
    - rewrite lookup_insert_ne by done. exists a'. split_and!; try done. by left. }
  rewrite (read_raw_live m d id' a' c) by (done || lia). destruct (decide (id' = id)) as [->|Hne].
  - rewrite Ha in Ha'. injection Ha' as <-. rewrite Hc in Hca. injection Hca as <-. destruct Hout as [?|Hout]; [done|].
    rewrite (read_raw_live m' d' id a'' content') by (rewrite ?Hpa; done || lia). f_equal.
    apply list_eq. intros i. rewrite !slice_lookup by lia. destruct (decide _); [|done].
    eapply after_write_keeps; [exact Hoff|exact Haw|lia|lia].
  - assert (disk_get d' (path a') = Some c) as Hc2.
    { rewrite Hother; [done|]. eapply (paths_differ m d); eauto. }
    apply (read_raw_live m' d' id' a''); rewrite ?Hpa; try done; lia.
Qed.

Section Writing.

Context (md5 : bytes -> bytes).
Hypothesis md5_length : forall x, length (md5 x) = 16%nat.
Hypothesis md5_bytes : forall x, is_bytes (md5 x).

Lemma disk_put d name x n :
  disk_get (match disk_get d name with Some _ => disk_update d name x | None => disk_write d name x end) n =
  if decide (n = name) then Some x else disk_get d n.
Proof.
  destruct (decide (n = name)) as [->|Hne]; destruct (disk_get d name) as [c|] eqn:E.
  - by rewrite disk_get_update, E.
  - apply disk_get_write.
  - by apply disk_get_update_ne.
  - by apply disk_get_write_ne.
Qed.

(** A new archive does not disturb the others; its file holds the segment header. *)
Lemma create_archive_spec io id m d r m' d' :
  archives_ok m d -> archives m !! id = None -> 0 <= id < 2 ^ 16 -> create_archive md5 io id m d = (r, m', d') ->
  keeps m d m' d' /\ (forall i o s, stored m i o s -> stored m' i o s) /\
  (r = Ok tt -> exists a, archives m' !! id = Some a /\ bt_get id (write_positions m') = Some 480).
Proof.
  intros Hok Hnone Hid. unfold create_archive. set (name := Segment.segment_data_name id).
  set (header := Segment.to_bytes _). destruct (create_ok io); cbn [negb].
  2: { intros [= <- <- <-]. by split_and!. }
  assert (forall i a, archives m !! i = Some a -> path a <> name) as Hpath.
  { intros i a Ha E. pose proof Hok as [H1 _]. destruct (H1 i a Ha) as [Hi Hp _ _ _ _]. rewrite Hp in E.
    apply segment_data_name_inj in E; [subst; congruence|lia|lia]. }
  assert (forall x, keeps m d m (match disk_get d name with Some _ => disk_update d name x | None => disk_write d name x end)) as Hd.
  { intros x. split.
    - pose proof Hok as [H1 H2]. split; [|done]. intros i a Ha. destruct (H1 i a Ha) as [X1 X2 X3 (c & X4 & X5) X6 X7]. split; try done.
      exists c. rewrite disk_put, decide_False by (by eapply Hpath). done.
    - intros i o s Hst. destruct (stored_archive m d i o s Hok Hst) as (a & c & Ha & _). unfold read_raw, mapped. rewrite Ha.
      by rewrite disk_put, decide_False by (by eapply Hpath). }
  destruct (header_written io) as [n|]; [intros [= <- <- <-]; split; [apply Hd|done]|].
  set (d1 := match disk_get d name with Some _ => _ | None => _ end). specialize (Hd header). fold d1 in Hd.
  assert (disk_get d1 name = Some header) as Hname by (unfold d1; by rewrite disk_put, decide_True).
  assert (length header = 480%nat) as Lh.
  { unfold header. destruct (segment_header_codec (Segment.headers (Segment.generate id (md5 (base_path m)))) []) as [[L _] _];
      [reflexivity|by apply generated_headers_ok|exact L]. }
  unfold open_archive. rewrite Hname.
  destruct (open_ok io name); cbn [negb]; [|intros [= <- <- <-]; by split].
  destruct (stat_ok io name); cbn [negb]; [|intros [= <- <- <-]; by split].
  destruct (map_ok io name); cbn [negb]; [|intros [= <- <- <-]; by split].
  rewrite Lh. intros [= <- <- <-]. set (a := {| path := name; size := _; detached := None |}).
  destruct Hd as [[D1 D2] D3]. cbn [set_archive set_position archives write_positions base_path default_compression].
  assert (forall i, bt_get i (bt_insert id 480 (bt_insert id (Z.of_nat 480) (write_positions m))) =
    if decide (i = id) then Some 480 else bt_get i (write_positions m)) as Hget.
  { intros i. rewrite !positions_get. by destruct (decide (i = id)). }
  split; [split; [split|]|split]; cbn [set_archive set_position archives write_positions].
  - intros i b Hb. destruct (decide (i = id)) as [->|Hne].
    + rewrite lookup_insert_eq in Hb. injection Hb as <-. split; try done.
      * exists header. rewrite Lh. done.
      * exists 480. cbn [set_archive set_position write_positions]. by rewrite Hget, decide_True.
    + rewrite lookup_insert_ne in Hb by done. destruct (D1 i b Hb) as [X1 X2 X3 X4 (pos & X5 & X6) X7]. split; try done.
      exists pos. cbn [set_archive set_position write_positions]. by rewrite Hget, decide_False.
  - intros i pos. rewrite Hget, lookup_insert. destruct (decide (id = i)) as [->|]; [done|]. rewrite decide_False by done. apply D2.
  - intros i o s Hst. rewrite <- D3 by done. destruct (stored_archive m d i o s Hok Hst) as (b & c & Hb & _).
    unfold read_raw. cbn [set_archive set_position archives]. rewrite lookup_insert_ne by congruence. done.
  - intros i o s (Ho & Hs & pos & Hp & Hle). split; [done|]. split; [done|]. exists pos. split; [|done].
    cbn [set_archive set_position write_positions]. rewrite Hget, decide_False; [done|]. intros ->.
    pose proof Hok as [_ H2]. destruct (H2 _ _ Hp). congruence.
  - intros _. exists a. cbn [set_archive set_position archives write_positions]. by rewrite lookup_insert_eq, Hget, decide_True.
Qed.

Lemma first_with_room_open needed id (ps : list (Z * Z)) :
  first_with_room needed ps = Some id -> exists pos, bt_get id ps = Some pos.
Proof.
  induction ps as [|[i p] ps IH]; [done|]. simpl in *. change (kcmp id i) with (id ?= i). destruct (_ <=? _).
  - intros [= ->]. rewrite Z.compare_refl. by exists p.
  - intros E. destruct (id ?= i); [by exists p|by apply IH|by apply IH].
Qed.

Lemma select_range m d needed : archives_ok m d -> 0 <= select_archive_for_write_sized m needed < 2 ^ 16.
Proof.
  intros Hok. unfold select_archive_for_write_sized.
  destruct (first_with_room needed (write_positions m)) as [id|] eqn:E; [|destruct (_ <? _) eqn:En; [apply Z.ltb_lt in En|]; lia].
  apply first_with_room_open in E as [pos Hp].
  pose proof Hok as [H1 H2]. destruct (H2 id pos Hp) as [a Ha]. by destruct (H1 id a Ha).
Qed.

(** Moving the write position forward inside the mapped part. *)
Lemma set_position_ok m d id a pos :
  archives_ok m d -> archives m !! id = Some a -> 0 <= pos <= size a -> archives_ok (set_position m id pos) d.
Proof.
  intros [H1 H2] Ha Hp. split; cbn [set_position archives write_positions].
  - intros i b Hb. destruct (H1 i b Hb) as [X1 X2 X3 X4 (p & X5 & X6) X7]. split; try done.
    cbn [set_position write_positions]. rewrite positions_get. destruct (decide (i = id)) as [->|]; [|by exists p].
    rewrite Ha in Hb. injection Hb as <-. by exists pos.
  - intros i p. rewrite positions_get. destruct (decide (i = id)) as [->|]; [by rewrite Ha|apply H2].
Qed.

Lemma slice_write_at off data content :
  slice off (off + length data) (Compaction.write_at off data content) = data.
Proof.
  apply list_eq. intros i. destruct (decide (i < length data)%nat) as [Hi|Hi].
  - assert (off + length data <= length (Compaction.write_at off data content))%nat.
    { destruct data; [simpl in Hi; lia|]. rewrite write_at_length by done. lia. }
    rewrite slice_lookup, decide_True, write_at_lookup, decide_True by lia. f_equal. lia.
  - rewrite (lookup_ge_None_2 data) by lia. apply lookup_ge_None_2. unfold slice. rewrite length_take. lia.
Qed.

(** An entry is appended at the write position of one archive: its header and data
    are behind what was stored before. *)
Lemma append_entry io id a off data m d r m' d' :
  archives_ok m d -> archives m !! id = Some a -> bt_get id (write_positions m) = Some off -> data <> [] ->
  write_to_archive io id off data m d = (r, m', d') ->
  keeps m d m' d' /\ write_positions m' = write_positions m /\
  (r = Ok tt -> exists a', archives m' !! id = Some a' /\ off + Z.of_nat (length data) <= size a' < 2 ^ 63 /\
     read_raw m' d' id off (Z.of_nat (length data)) = Ok data).
Proof.
  intros Hok Ha Hpos Hne E. pose proof Hok as [H1 _]. destruct (H1 id a Ha) as [_ _ _ (content & Hc & Hsz) (p & Hp & Hr) _].
  rewrite Hpos in Hp. injection Hp as <-.
  pose proof (write_to_archive_spec io id off data m d a content Ha Hc ltac:(lia)) as Hw. rewrite E in Hw.
  destruct (write_result_ok m d id a off data content r m' d' Hok Ha Hc Hw) as [Hok' Hwp]. split; [split|split; [done|]].
  - done.
  - intros i o s Hst. eapply (write_result_reads m d id a off data content r m' d'); try done; [lia|].
    destruct (decide (i = id)) as [->|]; [|by left]. right. left. destruct Hst as (_ & _ & p & Hp & Hle).
    rewrite Hpos in Hp. by injection Hp as <-.
  - intros Er. destruct Hw as (content' & Hc' & _ & _ & Hm & Hok2). destruct (Hok2 Er) as [-> (a' & Ha' & Hlen)].
    rewrite write_at_length in Hlen by done. pose proof Hok' as [H1' _]. destruct (H1' id a' Ha') as [_ Hp' Hl' (c & Hc2 & Hsz') _ H63].
    exists a'. split; [done|]. split; [lia|].
    assert (path a' = path a) as Epath by (destruct (H1 id a Ha) as [_ -> _ _ _ _]; done).
    rewrite Epath, Hc' in Hc2. injection Hc2 as <-. rewrite (read_raw_live m' d' id a' _ off) by (rewrite ?Epath; done || lia).
    f_equal. rewrite Z2Nat.inj_add, Nat2Z.id by lia. apply slice_write_at.
Qed.

(** The entry that is written for a key. *)
Definition entry_bytes (id off : Z) (blte_data ekey : bytes) : bytes :=
  LocalHeader.to_bytes (LocalHeader.new ekey (Z.of_nat (30 + length blte_data)) (id * Segment.SEGMENT_SIZE + off) 0) ++ blte_data.

Lemma write_entry_spec io blte_data ekey m d r m' d' :
  archives_ok m d -> is_array 16 ekey ->
  write_raw_content_with_ekey md5 io blte_data ekey m d = (r, m', d') ->
  keeps m d m' d' /\ (forall i o s, stored m i o s -> stored m' i o s) /\
  (forall id off total, r = Ok (id, off, total) ->
     total = Z.of_nat (30 + length blte_data) /\ total < 2 ^ 32 /\ 0 <= id < 2 ^ 16 /\ 0 <= off < 2 ^ 32 /\ stored m' id off total /\
     read_raw m' d' id off total = Ok (entry_bytes id off blte_data ekey)).
Proof.
  intros Hok Hk. unfold write_raw_content_with_ekey. change LocalHeader.LOCAL_HEADER_SIZE with 30%nat.
  set (total := Z.of_nat (30 + length blte_data)). destruct (2 ^ 32 <=? total) eqn:Et.
  { intros [= <- <- <-]. by split_and!. }
  apply Z.leb_gt in Et. set (id := select_archive_for_write_sized m total). pose proof (select_range m d total Hok) as Hid. fold id in Hid.
  destruct (match archives m !! id with Some _ => _ | None => _ end) as [[r1 m1] d1] eqn:E1.
  assert (keeps m d m1 d1 /\ (forall i o s, stored m i o s -> stored m1 i o s) /\ (r1 = Ok tt -> exists a, archives m1 !! id = Some a))
    as (Hk1 & Hs1 & Ha1).
  { destruct (archives m !! id) as [a|] eqn:Ea.
    - injection E1 as <- <- <-. split_and!; try done. by exists a.
    - destruct (create_archive_spec io id m d r1 m1 d1 Hok Ea Hid E1) as (X1 & X2 & X3). split_and!; try done; try apply X1.
      intros Er. destruct (X3 Er) as (a & Ha & _). by exists a. }
  destruct r1 as [[]|e]; [|intros [= <- <- <-]; by split_and!]. destruct (Ha1 eq_refl) as [a Ha]. destruct Hk1 as [Hok1 Hr1].
  destruct (position_of m1 d1 id a Hok1 Ha) as (off & Hpos & Hoff & H63). rewrite Hpos. cbn [default from_option].
  assert (wrap64 (id * Segment.SEGMENT_SIZE + off) = id * Segment.SEGMENT_SIZE + off) as Ew.
  { apply wrap_small. unfold in_u, Segment.SEGMENT_SIZE. lia. }
  change (Datatypes.id off) with off. rewrite Ew. set (data := LocalHeader.to_bytes _ ++ blte_data).
  assert (data = entry_bytes id off blte_data ekey) as Ed by done.
  assert (Z.of_nat (length data) = total) as Ld.
  { unfold data. rewrite length_app. destruct (LocalHeader.new_valid ekey total (id * Segment.SEGMENT_SIZE + off) 0 Hk
      ltac:(unfold in_u; lia) ltac:(unfold in_u; lia)) as (Hh & _). destruct (LocalHeader.to_bytes_array _ Hh) as [-> _]. lia. }
  assert (data <> []) as Hne by (intros E; rewrite E in Ld; simpl in Ld; lia).
  destruct (write_to_archive io id off data m1 d1) as [[r2 m2] d2] eqn:E2.
  destruct (append_entry io id a off data m1 d1 r2 m2 d2 Hok1 Ha Hpos Hne E2) as ([Hok2 Hr2] & Hwp & Hdone).
  assert (forall i o s, stored m i o s -> stored m2 i o s) as Hs2.
  { intros i o s Hst. unfold stored. rewrite Hwp. by apply Hs1. }
  assert (forall i o s, stored m i o s -> read_raw m2 d2 i o s = read_raw m d i o s) as Hreads.
  { intros i o s Hst. rewrite Hr2 by by apply Hs1. by apply Hr1. }
  destruct r2 as [[]|e]; [|intros [= <- <- <-]; by split_and!].
  destruct (Hdone eq_refl) as (a' & Ha' & Hsz & Hread). rewrite Ld in Hsz, Hread.
  assert (wrap64 (off + total) = off + total) as -> by (apply wrap_small; unfold in_u; lia).
  assert (archives_ok (set_position m2 id (off + total)) d2) as Hok3 by (apply (set_position_ok m2 d2 id a'); done || lia).
  assert (forall i o s, stored m i o s -> stored (set_position m2 id (off + total)) i o s) as Hs3.
  { intros i o s Hst. destruct (Hs2 i o s Hst) as (? & ? & p & Hp & Hle). split; [done|]. split; [done|].
    cbn [set_position write_positions]. rewrite positions_get. destruct (decide (i = id)) as [->|]; [|by exists p].
    rewrite Hwp, Hpos in Hp. injection Hp as <-. exists (off + total). split; [done|lia]. }
  destruct (2 ^ 32 <=? off) eqn:Eo; [intros [= <- <- <-]; by split_and!|]. apply Z.leb_gt in Eo.
  intros [= <- <- <-]. split; [done|]. split; [done|]. intros i o t [= <- <- <-]. split; [done|]. split; [done|]. split; [done|]. split; [lia|]. split.
  - split; [lia|]. split; [lia|]. exists (off + total). cbn [set_position write_positions].
    rewrite positions_get, decide_True by done. split; [done|lia].
  - rewrite <- Ed. exact Hread.
Qed.

End Writing.

(** ** Compaction *)

Lemma archive_temp_differs id : 0 <= id < 2 ^ 16 -> Segment.segment_data_name id <> temp_name.
Proof.
  intros Hid E. unfold Segment.segment_data_name, temp_name in E. apply (app_inv_head [100; 97; 116; 97; 46] _ [116; 109; 112]) in E.
  pose proof (format03_value id ltac:(lia)) as V. rewrite E in V. change (parse_decimal _) with 7474 in V. subst id. by vm_compute in E.
Qed.

(** A change of the disk that leaves the files of the archives alone. *)
Lemma keeps_frame m d d' :
  archives_ok m d -> (forall id a, archives m !! id = Some a -> disk_get d' (path a) = disk_get d (path a)) -> keeps m d m d'.
Proof.
  intros Hok Hd. split.
  - destruct Hok as [H1 H2]. split; [|done]. intros i a Ha. destruct (H1 i a Ha) as [X1 X2 X3 (c & X4 & X5) X6 X7]. split; try done.
    exists c. by rewrite (Hd i a Ha).
  - intros i o s Hst. destruct (stored_archive m d i o s Hok Hst) as (a & c & Ha & _). unfold read_raw, mapped. by rewrite Ha, (Hd i a Ha).
Qed.

Lemma archive_path_ne_temp m d id a : archives_ok m d -> archives m !! id = Some a -> path a <> temp_name.
Proof. intros [H _] Ha. destruct (H id a Ha) as [Hi -> _ _ _ _]. by apply archive_temp_differs. Qed.

(** The file of archive [id] cut to its write position and mapped again. *)
Lemma cut_keeps m d d' id a content pos :
  archives_ok m d -> archives m !! id = Some a -> disk_get d (path a) = Some content ->
  bt_get id (write_positions m) = Some pos -> disk_get d' (path a) = Some (take (Z.to_nat pos) content) ->
  (forall i b, i <> id -> archives m !! i = Some b -> disk_get d' (path b) = disk_get d (path b)) ->
  keeps m d (set_archive m id {| path := path a; size := pos; detached := None |}) d'.
Proof.
  intros Hok Ha Hc Hpos Hc' Hother. pose proof Hok as [H1 H2].
  destruct (H1 id a Ha) as [Hi Hp Hl (c0 & Hc0 & Hsz) (pos' & Hpos' & Hr) H63].
  rewrite Hc in Hc0. injection Hc0 as <-. rewrite Hpos in Hpos'. injection Hpos' as <-. split.
  - split; cbn [set_archive archives write_positions].
    + intros i b Hb. destruct (decide (i = id)) as [->|Hne].
      * rewrite lookup_insert_eq in Hb. injection Hb as <-. split; cbn [path size detached]; try done; try lia.
        -- eexists. split; [exact Hc'|]. rewrite length_take. lia.
        -- exists pos. split; [done|lia].
      * rewrite lookup_insert_ne in Hb by done. destruct (H1 i b Hb) as [X1 X2 X3 (c & X4 & X5) X6 X7]. split; try done.
        exists c. by rewrite (Hother i b Hne Hb).
    + intros i p Hip. rewrite lookup_insert. case_decide; [done|]. by eapply H2.
  - intros i o s Hst. destruct (decide (i = id)) as [->|Hne].
    + destruct Hst as (Ho & Hs & p & Hp' & Hle). rewrite Hpos in Hp'. injection Hp' as <-.
      rewrite (read_raw_live m d id a content) by (done || lia).
      erewrite (read_raw_live _ d' id _ (take (Z.to_nat pos) content));
        [|by apply lookup_insert_eq|done|done|cbn [size]; rewrite length_take; lia|done|done|cbn [size]; lia].
      f_equal. apply slice_take. lia.
    + destruct (stored_archive m d i o s Hok Hst) as (b & c & Hb & _). unfold read_raw, mapped. cbn [set_archive archives].
      rewrite lookup_insert_ne by done. by rewrite Hb, (Hother i b Hne Hb).
Qed.

(** Compaction cuts unused space only: when mapping the new file does not fail,
    every entry stays readable. *)
Lemma compact_single_keeps io id m d r m' d' :
  archives_ok m d -> remap_open_ok io = true -> remap_map_ok io = true ->
  (forall pos, bt_get id (write_positions m) = Some pos -> pos <= MAX_ARCHIVE_SIZE) ->
  compact_single_archive io id m d = (r, m', d') -> keeps m d m' d' /\ write_positions m' = write_positions m.
Proof.
  intros Hok Hro Hrm Hmax. unfold compact_single_archive.
  destruct (archives m !! id) as [a|] eqn:Ha; [|intros [= <- <- <-]; done].
  pose proof Hok as [H1 H2]. destruct (H1 id a Ha) as [Hi Hp Hl (content & Hc & Hsz) (pos & Hpos & Hr) H63].
  rewrite Hpos, Hc. change (default (size a) (Some pos)) with pos. destruct (pos <? size a) eqn:Elt; [apply Z.ltb_lt in Elt|intros [= <- <- <-]; done].
  assert (forall x, keeps m d m (disk_write d temp_name x)) as Hd.
  { intros x. apply keeps_frame; [done|]. intros i b Hb. apply disk_get_write_ne. by eapply (archive_path_ne_temp m d). }
  destruct (copied io) as [n|]; [intros [= <- <- <-]; by split|]. destruct (temp_open_ok io); [|intros [= <- <- <-]; by split].
  destruct (set_len_ok io); [|intros [= <- <- <-]; by split]. cbn [negb].
  destruct (rename_ok io); cbn [negb]; [|intros [= <- <- <-]; by split].
  unfold remap_archive. rewrite (proj2 (Z.ltb_ge _ _)) by (by apply Hmax). rewrite Hro, Hrm. cbn [negb].
  unfold set_archive at 1. cbn [set_archive archives base_path write_positions default_compression]. rewrite insert_insert_eq.
  intros [= <- <- <-]. split; [|done].
  replace (Z.to_nat pos - length content)%nat with 0%nat by lia. rewrite app_nil_r.
  eapply (cut_keeps m d _ id a content pos); try done.
  - rewrite disk_get_update, disk_get_remove by (by eapply (archive_path_ne_temp m d)). by rewrite Hc.
  - intros i b Hne Hb. rewrite disk_get_update_ne by (eapply (paths_differ m d); eauto).
    apply disk_get_remove. by eapply (archive_path_ne_temp m d).
Qed.

(** ** Theorems *)

Lemma is_blte_at (k : nat) (h rest : bytes) :
  length h = k -> is_blte k (h ++ Blte.BLTE_MAGIC ++ rest) = true.
Proof.
  intros <-. unfold is_blte. rewrite !length_app. rewrite (proj2 (Nat.leb_le _ _)) by (simpl; lia).
  apply bool_decide_eq_true. rewrite slice_app_r by lia. rewrite Nat.sub_diag. replace (length h + 4 - length h)%nat with 4%nat by lia. done.
Qed.

Lemma write_read_spec md5 zc zr lc lcd ld io data mode m d id off total key m' d' :
  codecs_ok md5 zc zr lc lcd ld -> (forall x, is_bytes (md5 x)) -> plain mode ->
  Z.of_nat (length data) <= Blte.MAX_DECOMPRESSION_SIZE -> archives_ok m d ->
  write_content_with_mode md5 zc lc lcd io data mode m d = (Ok (id, off, total, key), m', d') ->
  read_content zr ld m' d' id off total = Ret (Ok data) /\
  exists raw h, read_raw m' d' id off total = Ok raw /\ LocalHeader.from_bytes (take 30 raw) = Some h /\
    key = md5 (drop 30 raw) /\ LocalHeader.original_encoding_key h = key /\ LocalHeader.encoded_size h = total /\
    LocalHeader.validate_checksums h (id * Segment.SEGMENT_SIZE + off) = true.
Proof.
  intros Hc Hmb Hm Hd Hok. unfold write_content_with_mode, compress_blte_with_mode.
  destruct (single_chunk_roundtrip md5 zc zr lc lcd ld Hc data mode Hm Hd) as (f & Hf & (c & Hchunks & Hbuild) & Hback).
  assert (match mode with Blte.Encrypted | Blte.Frame => Err (ArchiveError "compression not supported for storage")
    | _ => match Blte.single_chunk zc lc lcd data mode with Err _ => Err (ArchiveError "Failed to create BLTE") | Ok f => Ok (Blte.build f) end
    end = Ok (Blte.build f)) as -> by (rewrite Hf; by destruct Hm as [->|[->| ->]]).
  unfold write_raw_content. set (blte := Blte.build f) in *.
  destruct (write_raw_content_with_ekey md5 io blte (md5 blte) m d) as [[r m1] d1] eqn:E.
  assert (is_array 16 (md5 blte)) as Hk by (split; [apply (md5_length _ _ _ _ _ _ Hc)|apply Hmb]).
  destruct (write_entry_spec md5 (md5_length _ _ _ _ _ _ Hc) Hmb io blte (md5 blte) m d r m1 d1 Hok Hk E) as (_ & _ & Hw).
  destruct r as [[[i o] t]|e]; [|done]. intros [= <- <- <- <- <- <-].
  destruct (Hw i o t eq_refl) as (Ht & Ht32 & Hid & Ho & Hst & Hraw).
  destruct (LocalHeader.new_valid (md5 blte) t (i * Segment.SEGMENT_SIZE + o) 0 Hk ltac:(unfold in_u; lia) ltac:(unfold in_u; lia))
    as (Hh & Hv & Hkey).
  destruct (LocalHeader.to_bytes_array _ Hh) as [Lh _]. unfold entry_bytes in Hraw. rewrite <- Ht in Hraw.
  set (h := LocalHeader.new _ _ _ _) in *. split.
  - unfold read_content. rewrite Hraw. cbn [try_bind]. rewrite Hbuild at 1. rewrite is_blte_at by exact Lh.
    rewrite drop_app_length' by exact Lh. unfold decompress_blte_with_formats.
    destruct Hback as (f' & -> & Hdec).
    { rewrite Hchunks. constructor; [|constructor]. unfold chunk_fits, Blte.compressed_size. rewrite Ht, Hbuild in Ht32.
      rewrite !length_app in Ht32. simpl in Ht32. lia. }
    cbn [mbind outcome_bind]. by rewrite Hdec.
  - eexists _, h. split; [exact Hraw|]. rewrite take_app_length', drop_app_length' by exact Lh.
    split; [by apply LocalHeader.local_header_codec|]. split_and!; done.
Qed.

(** Content written in any supported mode reads back: the entry has a local header
    with the MD5 of the encoded data as its key, the size of the whole entry and
    checksums that validate at its place, and [read_content] at the returned
    location gives the content. *)
Theorem archive_write_read md5 zc zr lc lcd ld io data mode m d id off total key m' d' :
  codecs_ok md5 zc zr lc lcd ld -> (forall x, is_bytes (md5 x)) -> plain mode ->
  Z.of_nat (length data) <= Blte.MAX_DECOMPRESSION_SIZE -> archives_ok m d ->
  write_content_with_mode md5 zc lc lcd io data mode m d = (Ok (id, off, total, key), m', d') ->
  read_content zr ld m' d' id off total = Ret (Ok data) /\
  exists raw h, read_raw m' d' id off total = Ok raw /\ LocalHeader.from_bytes (take 30 raw) = Some h /\
    key = md5 (drop 30 raw) /\ LocalHeader.original_encoding_key h = key /\ LocalHeader.encoded_size h = total /\
    LocalHeader.validate_checksums h (id * Segment.SEGMENT_SIZE + off) = true.
Proof. apply write_read_spec. Qed.

(** The operations that change the files; only the mapping of a compacted file is
    taken to succeed. *)
Inductive astep (md5 : bytes -> bytes) : ArchiveManager * disk -> ArchiveManager * disk -> Prop :=
| astep_ekey io blte ekey m d r m' d' :
    is_array 16 ekey -> write_raw_content_with_ekey md5 io blte ekey m d = (r, m', d') -> astep md5 (m, d) (m', d')
| astep_raw io blte m d r m' d' : write_raw_content md5 io blte m d = (r, m', d') -> astep md5 (m, d) (m', d')
| astep_content zc lc lcd io data compress m d r m' d' :
    write_content md5 zc lc lcd io data compress m d = (r, m', d') -> astep md5 (m, d) (m', d')
| astep_mode m d mode : astep md5 (m, d) (set_compression_mode m mode, d)
| astep_compact io id m d r m' d' :
    remap_open_ok io = true -> remap_map_ok io = true ->
    (forall pos, bt_get id (write_positions m) = Some pos -> pos <= MAX_ARCHIVE_SIZE) ->
    compact_single_archive io id m d = (r, m', d') -> astep md5 (m, d) (m', d').

Lemma astep_keeps md5 s s' :
  (forall x, is_array 16 (md5 x)) -> archives_ok (fst s) (snd s) -> astep md5 s s' ->
  keeps (fst s) (snd s) (fst s') (snd s') /\ forall i o n, stored (fst s) i o n -> stored (fst s') i o n.
Proof.
  intros Hmd Hok Hstep.
  assert (forall io blte ekey m d r m' d', archives_ok m d -> is_array 16 ekey ->
    write_raw_content_with_ekey md5 io blte ekey m d = (r, m', d') ->
    keeps m d m' d' /\ forall i o n, stored m i o n -> stored m' i o n) as Hentry.
  { intros io blte ekey m d r m' d' H Hk E.
    destruct (write_entry_spec md5 (fun x => proj1 (Hmd x)) (fun x => proj2 (Hmd x)) io blte ekey m d r m' d' H Hk E) as (H1 & H2 & _). done. }
  assert (forall io blte m d r m' d', archives_ok m d -> write_raw_content md5 io blte m d = (r, m', d') ->
    keeps m d m' d' /\ forall i o n, stored m i o n -> stored m' i o n) as Hraw.
  { intros io blte m d r m' d' H E. unfold write_raw_content in E.
    destruct (write_raw_content_with_ekey md5 io blte (md5 blte) m d) as [[r1 m1] d1] eqn:E1. injection E as <- <- <-.
    by eapply Hentry. }
  destruct Hstep as [io blte ekey m d r m' d' Hk E|io blte m d r m' d' E|zc lc lcd io data compress m d r m' d' E|m d mode|io id m d r m' d' Hro Hrm Hmax E];
    cbn [fst snd] in *.
  - by eapply Hentry.
  - by eapply Hraw.
  - unfold write_content, write_content_with_mode in E. destruct (compress_blte_with_mode _ _ _ _ _) as [blte|e]; [by eapply Hraw|].
    injection E as <- <- <-. split; [split|]; done.
  - split; [|done]. split; [|done]. destruct Hok as [H1 H2]. split; [|exact H2]. intros id a Ha. by destruct (H1 id a Ha).
  - destruct (compact_single_keeps io id m d r m' d' Hok Hro Hrm Hmax E) as [Hk Hp]. split; [done|]. unfold stored. by rewrite Hp.
Qed.

(** No sequence of writes and compactions loses an entry, with any system call of
    the writes failing or cut short, and any of a compaction but the last, mapping
    the replaced file: whatever lay below the write positions reads the same bytes, and the
    write positions only grow. *)
Theorem archive_keeps_entries md5 s s' :
  (forall x, is_array 16 (md5 x)) -> archives_ok (fst s) (snd s) -> rtc (astep md5) s s' ->
  archives_ok (fst s') (snd s') /\
  forall id off n, stored (fst s) id off n ->
    stored (fst s') id off n /\ read_raw (fst s') (snd s') id off n = read_raw (fst s) (snd s) id off n.
Proof.
  intros Hmd Hok Hrun. induction Hrun as [s|s s1 s2 Hstep Hrun IH]; [done|].
  destruct (astep_keeps md5 s s1 Hmd Hok Hstep) as [[Hok1 Hr1] Hs1]. destruct (IH Hok1) as [Hok2 H2]. split; [done|].
  intros id off n Hst. destruct (H2 id off n (Hs1 _ _ _ Hst)) as [H3 H4]. split; [done|]. rewrite H4. by apply Hr1.
Qed.

Definition io_fine : Io :=
  {| read_dir_ok := true; next_entry_ok := fun _ => true; metadata_ok := fun _ => true; open_ok := fun _ => true;
     stat_ok := fun _ => true; map_ok := fun _ => true; create_ok := true; header_written := None; write_open_ok := true;
     seek_ok := true; written := None; flush_ok := true; size_ok := true; remap_open_ok := true; remap_map_ok := true;
     copied := None; temp_open_ok := true; set_len_ok := true; rename_ok := true |}.

Lemma archive_write_read_witness :
  exists m' d', write_content_with_mode zero_md5 store_zlib store_lz4 store_lz4_dict io_fine [1; 2; 3] Blte.ZLib (manager_new []) [] =
      (Ok (0, 480, 43, zeros 16), m', d') /\
    read_content store_reads store_decode m' d' 0 480 43 = Ret (Ok [1; 2; 3]).
Proof.
  destruct (write_content_with_mode zero_md5 store_zlib store_lz4 store_lz4_dict io_fine [1; 2; 3] Blte.ZLib (manager_new []) [])
    as [[r m'] d'] eqn:E. assert (r = Ok (0, 480, 43, zeros 16)) as -> by (apply (f_equal (fun x => fst (fst x))) in E; vm_compute in E; by rewrite <- E).
  exists m', d'. split; [done|].
  eapply (archive_write_read zero_md5 store_zlib store_reads store_lz4 store_lz4_dict store_decode); [| | | | |exact E].
  - apply store_codecs_ok.
  - intros x. apply zeros_bytes.
  - right. by left.
  - unfold Blte.MAX_DECOMPRESSION_SIZE. simpl. lia.
  - apply archives_ok_new.
Defined.

Lemma archive_keeps_entries_witness :
  let '(r, m', d') := write_content zero_md5 store_zlib store_lz4 store_lz4_dict io_fine [1; 2; 3] true (manager_new []) [] in
  r = Ok (0, 480, 42, zeros 16) /\ archives_ok m' d' /\
  forall id off n, stored (manager_new []) id off n ->
    stored m' id off n /\ read_raw m' d' id off n = read_raw (manager_new []) [] id off n.
Proof.
  destruct (write_content zero_md5 store_zlib store_lz4 store_lz4_dict io_fine [1; 2; 3] true (manager_new []) []) as [[r m'] d'] eqn:E.
  split; [apply (f_equal (fun x => fst (fst x))) in E; vm_compute in E; by rewrite <- E|].
  apply (archive_keeps_entries zero_md5 (manager_new [], []) (m', d')).
  - intros x. split; [done|apply zeros_bytes].
  - apply archives_ok_new.
  - apply rtc_once. eapply astep_content. exact E.
Defined.

(** ** Where the code differs from what it documents *)

(** [validate_entry] documents checks of the header, its checksums and the magic;
    any non-empty range inside the archive is accepted. *)
Theorem validate_entry_accepts m d id off n a :
  archives m !! id = Some a -> off + n <= size a -> n <> 0 -> validate_entry m d id off n = Ok true.
Proof.
  intros Ha Hb Hn. unfold validate_entry. rewrite Ha, (proj2 (Z.ltb_ge _ _)) by lia.
  rewrite (proj2 (Z.eqb_neq _ _)) by lia. by repeat case_match.
Qed.

Lemma decimal_longer k n acc : (length acc < length (decimal (S k) n acc))%nat.
Proof.
  revert n acc. induction k as [|k IH]; intros n acc; cbn [decimal]; case_match; simpl; try lia.
  etrans; [|apply IH]. simpl; lia.
Qed.

Lemma decimal_step k n acc : 10 <= n -> decimal (S k) n acc = decimal k (n / 10) (48 + n mod 10 :: acc).
Proof. intros H. cbn [decimal]. by rewrite (proj2 (Z.ltb_ge _ _)) by lia. Qed.

(** An archive of four digits is written under a name that [open_all] skips, so
    that after a restart its entries are not found. *)
Theorem four_digit_archives_skipped id : 1000 <= id < 2 ^ 16 -> archive_id_of (Segment.segment_data_name id) = None.
Proof.
  intros Hid. unfold archive_id_of. rewrite (bool_decide_eq_true_2 _); [|done].
  assert (length (Segment.segment_data_name id) <> 8%nat) as Hl.
  { unfold Segment.segment_data_name, Segment.format03, show. rewrite !length_app, length_replicate.
    assert (4 <= length (decimal 20 id []))%nat as H4; [|change (length Segment.data_prefix) with 5%nat; lia].
    assert (100 <= id / 10) by (apply Z.div_le_lower_bound; lia).
    assert (10 <= id / 10 / 10) by (apply Z.div_le_lower_bound; lia).
    rewrite !decimal_step by lia.
    apply (decimal_longer 16 _ [_; _; _]). }
  rewrite (proj2 (Nat.eqb_neq _ _)) by exact Hl. by rewrite andb_false_r.
Qed.

(** The identifier for a new archive is the number of open ones, which is the
    identifier of an open one when the numbers have gaps: a full archive is then
    chosen, and the write fails with it. *)
Theorem full_archive_chosen m n :
  write_positions m = [(1, MAX_ARCHIVE_SIZE)] -> 0 < n < 2 ^ 32 -> select_archive_for_write_sized m n = 1.
Proof.
  intros E Hn. unfold select_archive_for_write_sized, first_with_room. rewrite E.
  unfold MAX_ARCHIVE_SIZE, Segment.SEGMENT_SIZE, wrap64, wrap. rewrite Z.mod_small by lia.
  rewrite (proj2 (Z.leb_gt _ _)) by lia. done.
Qed.

(** [str::parse] takes a sign, so a file [data.+12] is opened as archive 12. *)
Example signed_name_opened : archive_id_of (Segment.data_prefix ++ [43; 49; 50]) = Some 12.
Proof. reflexivity. Qed.

Definition io_no_remap : Io :=
  {| read_dir_ok := true; next_entry_ok := fun _ => true; metadata_ok := fun _ => true; open_ok := fun _ => true;
     stat_ok := fun _ => true; map_ok := fun _ => true; create_ok := true; header_written := None; write_open_ok := true;
     seek_ok := true; written := None; flush_ok := true; size_ok := true; remap_open_ok := true; remap_map_ok := false;
     copied := None; temp_open_ok := true; set_len_ok := true; rename_ok := true |}.

(** When mapping the compacted file fails, the archive keeps the mapping of the
    replaced file: a later write succeeds and is not remapped while the new file is
    shorter, and reading the entry back gives bytes of the old file. *)
Theorem compaction_leaves_stale_mapping :
  let name := Segment.segment_data_name 0 in
  let m := set_position (set_archive (manager_new []) 0 {| path := name; size := 10; detached := None |}) 0 4 in
  let '(r1, m1, d1) := compact_single_archive io_no_remap 0 m [(name, [1; 2; 3; 4; 5; 6; 7; 8; 9; 10])] in
  let '(r2, m2, d2) := write_to_archive io_fine 0 4 [77] m1 d1 in
  r1 = Err (ArchiveError "Failed to remap archive") /\ r2 = Ok tt /\ disk_get d2 name = Some [1; 2; 3; 4; 77] /\
  read_raw m2 d2 0 4 1 = Ok [5].
Proof. by vm_compute. Qed.
