(* ===== verification/Shmem.v ===== *)
(** * The shared-memory control block: crates/cascette-client-storage/src/shmem/control_block.rs

    The header of the shared region (protocol version, initialisation, free space
    table format, data size, exclusive flag) with the table of bound processes,
    its layout in the mapped bytes, and [open_shmem] of [container/dynamic.rs],
    which binds a container to a region.  A mapped region is a list of bytes;
    what the operating system maps is an input. *)

From S2P Require Import Prelude Bytes ResidencyContainer.
Local Open Scope Z_scope.

Module Shmem.

Definition MIN_SHMEM_VERSION : Z := 4.
Definition MAX_SHMEM_VERSION : Z := 5.
Definition FREE_SPACE_TABLE_FORMAT : Z := 0x2AB8.
Definition FREE_SPACE_TABLE_SIZE : Z := 0x2AB8.
Definition INIT_BYTE_OFFSET : nat := 2.
Definition FREE_SPACE_FORMAT_OFFSET : nat := 0x42.
Definition DATA_SIZE_OFFSET : nat := 0x43.
Definition V5_EXCLUSIVE_FLAG_OFFSET : nat := 0x54.
Definition V4_HEADER_SIZE : Z := 0x150.
Definition V5_BASE_HEADER_SIZE : Z := 0x154.
Definition V5_EXTENDED_HEADER_SIZE : Z := 0x258.
Definition PID_SLOT_SIZE : Z := 0x228.
Definition PID_TRACKING_HEADER_SIZE : nat := 0x1C.

(** ** Sizes *)

Definition align_size (size version : Z) : Z :=
  if version =? 4 then Z.land (size + 0xF) (Z.lnot 0xF) else Z.land (size + 0xFFF) (Z.lnot 0xFFF).

Definition v4_file_size : Z :=
  let header := align_size V4_HEADER_SIZE 4 in align_size (header + FREE_SPACE_TABLE_SIZE) 4.

Definition v5_file_size (pid_tracking : bool) : Z :=
  let header := if pid_tracking then V5_EXTENDED_HEADER_SIZE else V5_BASE_HEADER_SIZE in
  let base := align_size (header + FREE_SPACE_TABLE_SIZE) 5 in
  if pid_tracking then align_size (base + PID_SLOT_SIZE) 5 else base.

(** ** The table of bound processes *)

Record PidTracking := {
  state : Z;
  writer_count : Z;
  total_count : Z;
  last_modified_slot : Z;
  generation : Z;
  max_slots : Z;
  pids : list Z;
  modes : list Z;
}.

Definition pid_new (max_slots : Z) : PidTracking :=
  {| state := 1; writer_count := 0; total_count := 0; last_modified_slot := 0; generation := 0;
     max_slots := max_slots; pids := replicate (Z.to_nat max_slots) 0; modes := replicate (Z.to_nat max_slots) 0 |}.

Definition is_valid (p : PidTracking) : bool := (state p =? 1) || (state p =? 2).

Definition with_slots (p : PidTracking) (pids modes : list Z) : PidTracking :=
  {| state := state p; writer_count := writer_count p; total_count := total_count p;
     last_modified_slot := last_modified_slot p; generation := generation p; max_slots := max_slots p;
     pids := pids; modes := modes |}.

Definition with_counts (p : PidTracking) (state writers total : Z) : PidTracking :=
  {| state := state; writer_count := writers; total_count := total;
     last_modified_slot := last_modified_slot p; generation := generation p; max_slots := max_slots p;
     pids := pids p; modes := modes p |}.

(** The loop of [recount] over [0..max_slots]; [n] slots are left, from [i] on. *)
Fixpoint count_slots (p : PidTracking) (n i : nat) (total writers : Z) : outcome (Z * Z) :=
  match n with
  | O => Ret (total, writers)
  | S n =>
      pid ← vec_get (pids p) (Z.of_nat i);
      if pid =? 0 then count_slots p n (S i) total writers
      else
        mode ← vec_get (modes p) (Z.of_nat i);
        count_slots p n (S i) (wrap32 (total + 1)) (if mode =? 2 then writers else wrap32 (writers + 1))
  end.

Definition recount (p : PidTracking) : outcome PidTracking :=
  p ← (if last_modified_slot p <? Z.of_nat (length (pids p)) then
         pids ← vec_modify (pids p) (last_modified_slot p) (fun _ => 0);
         modes ← vec_modify (modes p) (last_modified_slot p) (fun _ => 0);
         Ret (with_slots p pids modes)
       else Ret p);
  '(total, writers) ← count_slots p (Z.to_nat (max_slots p)) 0 0 0;
  Ret (with_counts p 1 writers total).

(** [self.pids.iter().position(|&p| p == pid)]. *)
Definition position (pid : Z) (l : list Z) : option nat := fst <$> list_find (fun p => p = pid) l.

Definition add_process (p : PidTracking) (pid mode : Z) : outcome (option nat * PidTracking) :=
  p ← (if state p =? 2 then recount p else Ret p);
  if max_slots p <=? total_count p then Ret (None, p)
  else
    match position 0 (pids p) with
    | None => Ret (None, p)
    | Some slot =>
        pids ← vec_modify (pids p) (Z.of_nat slot) (fun _ => pid);
        modes ← vec_modify (modes p) (Z.of_nat slot) (fun _ => mode);
        Ret (Some slot,
          {| state := 1;
             writer_count := if mode =? 2 then writer_count p else wrap32 (writer_count p + 1);
             total_count := wrap32 (total_count p + 1);
             last_modified_slot := wrap32 (Z.of_nat slot);
             generation := wrap64 (generation p + 1);
             max_slots := max_slots p; pids := pids; modes := modes |})
    end.

Definition remove_process (p : PidTracking) (pid : Z) : outcome (bool * PidTracking) :=
  p ← (if state p =? 2 then recount p else Ret p);
  match position pid (pids p) with
  | None => Ret (false, p)
  | Some slot =>
      mode ← vec_get (modes p) (Z.of_nat slot);
      pids ← vec_modify (pids p) (Z.of_nat slot) (fun _ => 0);
      modes ← vec_modify (modes p) (Z.of_nat slot) (fun _ => 0);
      Ret (true, with_counts (with_slots p pids modes) 1
        (if mode =? 2 then writer_count p else Z.max 0 (writer_count p - 1)) (Z.max 0 (total_count p - 1)))
  end.

(** ** The mapped layout *)

(** [data[a..a + x.len()].copy_from_slice(x)]: a panic when out of range. *)
Definition put (a : nat) (x data : bytes) : outcome bytes :=
  if (a + length x <=? length data)%nat then Ret (copy_at a x data) else Panic.

Definition get_u32 (data : bytes) (a : nat) : Z := from_le_bytes (slice a (a + 4) data).

(** One array of the slots: values behind the end of the region read as zero. *)
Definition read_slots (data : bytes) (start n : nat) : list Z :=
  (fun i => let offset := (start + i * 4)%nat in
            if (offset + 4 <=? length data)%nat then get_u32 data offset else 0) <$> seq 0 n.

Definition pid_from_mapped (data : bytes) : PidTracking :=
  if (length data <? PID_TRACKING_HEADER_SIZE)%nat then pid_new 0
  else
    let max_slots := get_u32 data 24 in
    let slot_count := Z.to_nat max_slots in
    let pids_start := PID_TRACKING_HEADER_SIZE in
    let modes_start := (pids_start + slot_count * 4)%nat in
    {| state := get_u32 data 0; writer_count := get_u32 data 4; total_count := get_u32 data 8;
       last_modified_slot := get_u32 data 12; generation := from_le_bytes (slice 16 24 data);
       max_slots := max_slots; pids := read_slots data pids_start slot_count;
       modes := read_slots data modes_start slot_count |}.

(** The loop [for i in 0..slot_count] over one array: [n] slots are left, from [i] on. *)
Fixpoint write_slots (values : list Z) (start n i : nat) (data : bytes) : outcome bytes :=
  match n with
  | O => Ret data
  | S n =>
      let offset := (start + i * 4)%nat in
      if (offset + 4 <=? length data)%nat then
        v ← vec_get values (Z.of_nat i);
        data ← put offset (to_le_bytes 4 v) data;
        write_slots values start n (S i) data
      else write_slots values start n (S i) data
  end.

Definition pid_to_mapped (p : PidTracking) (data : bytes) : outcome bytes :=
  if (length data <? PID_TRACKING_HEADER_SIZE)%nat then Ret data
  else
    data ← put 0 (to_le_bytes 4 (state p)) data;
    data ← put 4 (to_le_bytes 4 (writer_count p)) data;
    data ← put 8 (to_le_bytes 4 (total_count p)) data;
    data ← put 12 (to_le_bytes 4 (last_modified_slot p)) data;
    data ← put 16 (to_le_bytes 8 (generation p)) data;
    data ← put 24 (to_le_bytes 4 (max_slots p)) data;
    let slot_count := Z.to_nat (max_slots p) in
    let pids_start := PID_TRACKING_HEADER_SIZE in
    let modes_start := (pids_start + slot_count * 4)%nat in
    data ← write_slots (pids p) pids_start slot_count 0 data;
    write_slots (modes p) modes_start slot_count 0 data.

(** ** The control block *)

Record ShmemControlBlock := {
  version : Z;
  initialized : bool;
  free_space_format : Z;
  data_size : Z;
  exclusive_access : bool;
  pid_tracking : option PidTracking;
}.

Definition supported (v : Z) : bool := (MIN_SHMEM_VERSION <=? v) && (v <=? MAX_SHMEM_VERSION).

Definition from_mapped (data : bytes) : option ShmemControlBlock :=
  let len := Z.of_nat (length data) in
  if len <? V4_HEADER_SIZE then None
  else
    let version := nth 0 data 0 in
    if negb (supported version) then None
    else
      let v5 := (5 <=? version) && (V5_BASE_HEADER_SIZE <=? len) in
      let ea := (V5_EXCLUSIVE_FLAG_OFFSET * 4)%nat in
      Some {| version := version;
              initialized := negb (nth INIT_BYTE_OFFSET data 0 =? 0);
              free_space_format := get_u32 data (FREE_SPACE_FORMAT_OFFSET * 4);
              data_size := get_u32 data (DATA_SIZE_OFFSET * 4);
              exclusive_access :=
                if v5 && (ea + 3 <? length data)%nat then negb (Z.land (get_u32 data ea) 1 =? 0) else false;
              pid_tracking :=
                if v5 && (V5_EXTENDED_HEADER_SIZE <=? len)
                then Some (pid_from_mapped (drop (Z.to_nat V5_BASE_HEADER_SIZE) data)) else None |}.

(** [pt.to_mapped(&mut data[a..])]. *)
Definition put_pids (a : nat) (p : PidTracking) (data : bytes) : outcome bytes :=
  rest ← pid_to_mapped p (drop a data);
  Ret (take a data ++ rest).

Definition to_mapped (cb : ShmemControlBlock) (data : bytes) : outcome bytes :=
  let len := Z.of_nat (length data) in
  data ← put 0 [version cb] data;
  data ← put INIT_BYTE_OFFSET [if initialized cb then 1 else 0] data;
  data ← put (FREE_SPACE_FORMAT_OFFSET * 4) (to_le_bytes 4 (free_space_format cb)) data;
  data ← put (DATA_SIZE_OFFSET * 4) (to_le_bytes 4 (data_size cb)) data;
  if (5 <=? version cb) && (V5_BASE_HEADER_SIZE <=? len) then
    data ← put (V5_EXCLUSIVE_FLAG_OFFSET * 4) (to_le_bytes 4 (if exclusive_access cb then 1 else 0)) data;
    match pid_tracking cb with
    | Some pt =>
        if V5_EXTENDED_HEADER_SIZE <=? len then put_pids (Z.to_nat V5_BASE_HEADER_SIZE) pt data else Ret data
    | None => Ret data
    end
  else Ret data.

Definition cb_new (version : Z) : option ShmemControlBlock :=
  if negb (supported version) then None
  else Some {| version := version; initialized := false; free_space_format := FREE_SPACE_TABLE_FORMAT;
               data_size := 0; exclusive_access := false; pid_tracking := None |}.

Definition new_v5_with_pid_tracking (max_slots : Z) : ShmemControlBlock :=
  {| version := 5; initialized := false; free_space_format := FREE_SPACE_TABLE_FORMAT;
     data_size := 0; exclusive_access := false; pid_tracking := Some (pid_new max_slots) |}.

Definition is_exclusive (cb : ShmemControlBlock) : bool := (5 <=? version cb) && exclusive_access cb.

Definition set_exclusive (cb : ShmemControlBlock) (exclusive : bool) : ShmemControlBlock :=
  {| version := version cb; initialized := initialized cb; free_space_format := free_space_format cb;
     data_size := data_size cb;
     exclusive_access := if 5 <=? version cb then exclusive else exclusive_access cb;
     pid_tracking := pid_tracking cb |}.

Definition with_pids (cb : ShmemControlBlock) (p : PidTracking) : ShmemControlBlock :=
  {| version := version cb; initialized := initialized cb; free_space_format := free_space_format cb;
     data_size := data_size cb; exclusive_access := exclusive_access cb; pid_tracking := Some p |}.

Definition validate (cb : ShmemControlBlock) : bool :=
  initialized cb && (free_space_format cb =? FREE_SPACE_TABLE_FORMAT) && (0 <? data_size cb).

Definition validate_for_bind (cb : ShmemControlBlock) : result string unit :=
  if negb (supported (version cb)) then Err "Unsupported shmem protocol version"%string
  else if negb (free_space_format cb =? FREE_SPACE_TABLE_FORMAT)
  then Err "Detected unsupported free space table format"%string
  else if (5 <=? version cb) && exclusive_access cb
  then Err "Unable to bind container while another process has exclusive access"%string
  else if negb (initialized cb) || (data_size cb =? 0)
  then Err "Detected invalid shared memory initialization"%string
  else Ok tt.

Definition initialize (cb : ShmemControlBlock) (data_size : Z) : ShmemControlBlock :=
  {| version := version cb; initialized := true; free_space_format := FREE_SPACE_TABLE_FORMAT;
     data_size := data_size; exclusive_access := exclusive_access cb; pid_tracking := pid_tracking cb |}.

Definition file_size (cb : ShmemControlBlock) : Z :=
  if version cb =? 4 then v4_file_size else v5_file_size (bool_decide (is_Some (pid_tracking cb))).

Definition alignment (cb : ShmemControlBlock) : Z := if version cb =? 4 then 16 else 4096.

(** ** Binding a container *)

Record ShmemHandle := { control_block : ShmemControlBlock; pid_slot : option Z }.

(** The control block of a region: the one that is there, or a new one. *)
Definition attach (region : bytes) : outcome (ShmemControlBlock * bytes) :=
  let fresh :=
    let cb := new_v5_with_pid_tracking 4 in
    let header_size := file_size cb in
    let data_size := Z.max 0 (v5_file_size true - header_size) in
    let cb := initialize cb (wrap32 data_size) in
    region ← to_mapped cb region;
    Ret (cb, region) in
  match from_mapped region with
  | Some cb => if initialized cb then Ret (cb, region) else fresh
  | None => fresh
  end.

(** [open_shmem]: [network] is [is_network_drive], [mapped] what
    [PlatformShmem::open_or_create] maps.  The result is the handle with the
    region, and the region as it was left. *)
Definition open_shmem (network : bool) (mapped : result StorageError bytes) (mode : Containers.AccessMode) (pid : Z) :
    outcome (result StorageError (option ShmemHandle) * option bytes) :=
  if network then Ret (Ok None, None)
  else
    match mapped with
    | Err e => Ret (Err e, None)
    | Ok region =>
        '(cb, region) ← attach region;
        match validate_for_bind cb with
        | Err msg => Ret (Err (SharedMemory msg), Some region)
        | Ok _ =>
            if Containers.can_write mode then
              match pid_tracking cb with
              | None => Ret (Ok (Some {| control_block := cb; pid_slot := None |}), Some region)
              | Some pt =>
                  '(slot, pt) ← add_process pt pid (if Containers.can_write mode then 5 else 2);
                  let cb := with_pids cb pt in
                  match slot with
                  | Some _ =>
                      region ← to_mapped cb region;
                      Ret (Ok (Some {| control_block := cb; pid_slot := Some pid |}), Some region)
                  | None => Ret (Ok (Some {| control_block := cb; pid_slot := None |}), Some region)
                  end
              end
            else Ret (Ok (Some {| control_block := cb; pid_slot := None |}), Some region)
        end
    end.

(** [Drop for ShmemHandle]. *)
Definition drop_handle (h : ShmemHandle) (region : bytes) : outcome bytes :=
  match pid_slot h with
  | None => Ret region
  | Some pid =>
      cb ← match pid_tracking (control_block h) with
           | Some pt => '(_, pt) ← remove_process pt pid; Ret (with_pids (control_block h) pt)
           | None => Ret (control_block h)
           end;
      to_mapped cb region
  end.

End Shmem.
