(* ===== verification/ShmemTheorems.v ===== *)
(** * Correctness of the shared-memory control block

    The table of bound processes keeps exact counters and recovers them after a
    crash; a control block read from the region it was written to is the same;
    and what binding a container to a region does. *)

From S2P Require Import Prelude Bytes Compaction CompactionTheorems ResidencyContainer Shmem.
Import Shmem.
Local Open Scope Z_scope.

(** ** The table of processes *)

Definition slots (p : PidTracking) : list (Z * Z) := zip (pids p) (modes p).

Definition used (s : Z * Z) : Prop := fst s <> 0.
Definition writes (s : Z * Z) : Prop := fst s <> 0 /\ snd s <> 2.

#[global] Instance used_dec s : Decision (used s).
Proof. unfold used. apply _. Defined.
#[global] Instance writes_dec s : Decision (writes s).
Proof. unfold writes. apply _. Defined.

Definition count (P : Z * Z -> Prop) `{forall s, Decision (P s)} (l : list (Z * Z)) : Z := Z.of_nat (length (filter P l)).

(** The slots are there, and the counters count them. *)
Record table_shape (p : PidTracking) : Prop := {
  ts_max : u32 (max_slots p);
  ts_pids : length (pids p) = Z.to_nat (max_slots p);
  ts_modes : length (modes p) = Z.to_nat (max_slots p);
}.

Record exact (p : PidTracking) : Prop := {
  ex_shape : table_shape p;
  ex_total : total_count p = count used (slots p);
  ex_writers : writer_count p = count writes (slots p);
}.

(** A table whose last change was cut short is in state 2; its counters can be
    anything. *)
Definition table_ok (p : PidTracking) : Prop := table_shape p /\ (state p <> 2 -> exact p).

Section Counting.

Context (P : Z * Z -> Prop) `{!forall s, Decision (P s)}.

Lemma count_bound l : 0 <= count P l <= Z.of_nat (length l).
Proof. unfold count. pose proof (length_filter P l). lia. Qed.

Lemma count_insert l i x y :
  l !! i = Some y ->
  count P (<[i := x]> l) = count P l + (if decide (P x) then 1 else 0) - (if decide (P y) then 1 else 0).
Proof.
  intros Hy. unfold count. pose proof (lookup_lt_Some _ _ _ Hy) as Hi. rewrite <- (take_drop_middle l i y Hy) at 2.
  rewrite insert_take_drop by done. rewrite !filter_app, !length_app, !filter_cons.
  destruct (decide (P x)), (decide (P y)); simpl length; lia.
Qed.

Lemma count_cons x l : count P (x :: l) = (if decide (P x) then 1 else 0) + count P l.
Proof. unfold count. rewrite filter_cons. destruct (decide (P x)); simpl length; lia. Qed.

Lemma count_all l : count P l = Z.of_nat (length l) -> Forall P l.
Proof.
  induction l as [|x l IH]; [constructor|]. rewrite count_cons. pose proof (count_bound l). simpl length.
  destruct (decide (P x)); intros; [|lia]. constructor; [done|]. apply IH. lia.
Qed.

End Counting.

Lemma slots_length p : table_shape p -> length (slots p) = Z.to_nat (max_slots p).
Proof. intros [_ H1 H2]. unfold slots. rewrite length_zip. lia. Qed.

Lemma slot_lookup p i :
  table_shape p -> (i < Z.to_nat (max_slots p))%nat ->
  exists pid mode, pids p !! i = Some pid /\ modes p !! i = Some mode /\ slots p !! i = Some (pid, mode).
Proof.
  intros [_ H1 H2] Hi. destruct (lookup_lt_is_Some_2 (pids p) i) as [a Ha]; [lia|].
  destruct (lookup_lt_is_Some_2 (modes p) i) as [b Hb]; [lia|]. exists a, b. split; [done|]. split; [done|].
  unfold slots. rewrite lookup_zip_with, Ha, Hb. done.
Qed.

Lemma count_slots_ok p n i t w :
  table_shape p -> (i + n = Z.to_nat (max_slots p))%nat -> 0 <= t <= Z.of_nat i -> 0 <= w <= Z.of_nat i ->
  count_slots p n i t w = Ret (t + count used (drop i (slots p)), w + count writes (drop i (slots p))).
Proof.
  intros Hp. pose proof (ts_max p Hp) as Hm. unfold in_u in Hm. revert i t w. induction n as [|n IH]; intros i t w Hn Ht Hw.
  - rewrite drop_ge by (rewrite slots_length by done; lia). cbn [count_slots]. unfold count. simpl. do 2 f_equal; lia.
  - destruct (slot_lookup p i Hp) as (pid & mode & Hpid & Hmode & Hs); [lia|].
    cbn [count_slots]. rewrite (vec_get_nat _ _ _ Hpid). cbn [mbind outcome_bind].
    rewrite (drop_S _ _ _ Hs), !count_cons. destruct (pid =? 0) eqn:E.
    + apply Z.eqb_eq in E. subst pid. rewrite decide_False, decide_False by (unfold writes, used; simpl; tauto).
      rewrite IH by lia. done.
    + apply Z.eqb_neq in E. rewrite (vec_get_nat _ _ _ Hmode). cbn [mbind outcome_bind].
      unfold wrap32. rewrite decide_True by done. destruct (mode =? 2) eqn:Em.
      * apply Z.eqb_eq in Em. subst mode. rewrite decide_False by (unfold writes; simpl; tauto).
        rewrite wrap_small by (unfold in_u; lia). rewrite IH by lia. do 2 f_equal; lia.
      * apply Z.eqb_neq in Em. rewrite decide_True by done. rewrite !wrap_small by (unfold in_u; lia).
        rewrite IH by lia. do 2 f_equal; lia.
Qed.

(** The table with which an operation goes on: after a crash, the one without the
    slot that was being changed. *)
Definition recovers (p q : PidTracking) : Prop :=
  if state p =? 2 then
    state q = 1 /\ pids q = <[Z.to_nat (last_modified_slot p) := 0]> (pids p) /\
    modes q = <[Z.to_nat (last_modified_slot p) := 0]> (modes p)
  else q = p.

Lemma with_slots_slots p i a b :
  slots (with_slots p (<[i := a]> (pids p)) (<[i := b]> (modes p))) = <[i := (a, b)]> (slots p).
Proof. unfold slots. cbn [pids modes with_slots]. by rewrite <- (insert_zip_with pair). Qed.

Lemma shape_insert p i a b :
  table_shape p -> table_shape (with_slots p (<[i := a]> (pids p)) (<[i := b]> (modes p))).
Proof. intros [H1 H2 H3]. split; cbn [with_slots max_slots pids modes]; rewrite ?length_insert; done. Qed.

Lemma recount_ok p :
  table_shape p -> 0 <= last_modified_slot p ->
  exists q, recount p = Ret q /\ exact q /\ state q = 1 /\
    pids q = <[Z.to_nat (last_modified_slot p) := 0]> (pids p) /\
    modes q = <[Z.to_nat (last_modified_slot p) := 0]> (modes p).
Proof.
  intros Hp Hl. unfold recount.
  assert (exists p', (if last_modified_slot p <? Z.of_nat (length (pids p)) then
      pids ← vec_modify (pids p) (last_modified_slot p) (fun _ => 0);
      modes ← vec_modify (modes p) (last_modified_slot p) (fun _ => 0); Ret (with_slots p pids modes) else Ret p) = Ret p' /\
    table_shape p' /\ pids p' = <[Z.to_nat (last_modified_slot p) := 0]> (pids p) /\
    modes p' = <[Z.to_nat (last_modified_slot p) := 0]> (modes p)) as (p' & -> & Hp' & E1 & E2).
  { destruct (_ <? _) eqn:E.
    - apply Z.ltb_lt in E. destruct (slot_lookup p (Z.to_nat (last_modified_slot p)) Hp) as (pid & mode & Hpid & Hmode & _).
      { rewrite <- (ts_pids p Hp). lia. }
      unfold vec_modify. rewrite Hpid, Hmode. cbn [mbind outcome_bind]. eexists. split; [done|]. split; [by apply shape_insert|done].
    - apply Z.ltb_ge in E. exists p. split; [done|]. split; [done|]. destruct Hp as [_ H1 H2].
      rewrite !list_insert_ge by lia. done. }
  cbn [mbind outcome_bind]. rewrite count_slots_ok by (done || lia). cbn [mbind outcome_bind].
  eexists. split; [done|]. split; [|done]. destruct Hp' as [H1 H2 H3]. by split.
Qed.

Lemma recover_step p :
  table_ok p -> 0 <= last_modified_slot p ->
  exists q, (if state p =? 2 then recount p else Ret p) = Ret q /\ exact q /\ recovers p q.
Proof.
  intros [Hp He] Hl. unfold recovers. destruct (state p =? 2) eqn:E.
  - destruct (recount_ok p Hp Hl) as (q & -> & Hq & H). by exists q.
  - apply Z.eqb_neq in E. exists p. split; [done|]. split; [by apply He|done].
Qed.

Lemma position_Some pid l i : position pid l = Some i <-> l !! i = Some pid /\ forall j, (j < i)%nat -> l !! j <> Some pid.
Proof.
  unfold position. split.
  - intros E. apply fmap_Some in E as ([j x] & E & ->). apply list_find_Some in E as (H1 & -> & H2). split; [done|].
    intros j' Hj Hx. by apply (H2 j' pid Hx Hj).
  - intros [H1 H2]. apply fmap_Some. exists (i, pid). split; [|done]. apply list_find_Some. split; [done|]. split; [done|].
    intros j y Hj Hlt ->. by apply (H2 j).
Qed.

Lemma position_None pid l : position pid l = None <-> pid ∉ l.
Proof.
  unfold position. rewrite fmap_None, list_find_None, Forall_forall. split; [intros H Hin; by apply (H pid)|intros H x Hx ->; done].
Qed.

(** What [add_process] and [remove_process] do with a recovered table [q]. *)
Lemma add_free q pid mode :
  exact q -> pid <> 0 -> u32 (writer_count q + 1) ->
  match position 0 (pids q) with
  | None => count used (slots q) = max_slots q
  | Some slot => count used (slots q) < max_slots q /\
      exact {| state := 1; writer_count := if mode =? 2 then writer_count q else wrap32 (writer_count q + 1);
               total_count := wrap32 (total_count q + 1); last_modified_slot := wrap32 (Z.of_nat slot);
               generation := wrap64 (generation q + 1); max_slots := max_slots q;
               pids := <[slot := pid]> (pids q); modes := <[slot := mode]> (modes q) |}
  end.
Proof.
  intros [Hs Ht Hw] Hpid Hu. pose proof (ts_max q Hs) as Hm. pose proof (slots_length q Hs) as Hl. unfold in_u in Hm, Hu.
  destruct (position 0 (pids q)) as [slot|] eqn:E.
  - apply position_Some in E as [Hz _]. pose proof (lookup_lt_Some _ _ _ Hz) as Hlt. rewrite (ts_pids q Hs) in Hlt.
    destruct (slot_lookup q slot Hs Hlt) as (p0 & m0 & Hp0 & Hm0 & Hslot). rewrite Hz in Hp0. injection Hp0 as <-.
    assert (count used (slots q) < max_slots q) as Hc.
    { pose proof (count_bound used (slots q)) as Hb. rewrite Hl in Hb.
      destruct (decide (count used (slots q) = max_slots q)) as [Eq|]; [|lia].
      assert (Forall used (slots q)) as Hall by (apply (count_all used); lia).
      rewrite Forall_lookup in Hall. by apply (Hall slot) in Hslot. }
    split; [done|]. pose proof (count_bound used (slots q)). split.
    + by apply (shape_insert q slot pid mode) in Hs as [H1 H2 H3].
    + cbn [total_count]. unfold wrap32. rewrite wrap_small by (unfold in_u; lia).
      unfold slots. cbn [pids modes]. rewrite <- (insert_zip_with pair). fold (slots q).
      rewrite (count_insert used _ _ _ _ Hslot), Ht. rewrite decide_True, decide_False by (unfold used; simpl; tauto). lia.
    + cbn [writer_count]. unfold slots. cbn [pids modes]. rewrite <- (insert_zip_with pair). fold (slots q).
      rewrite (count_insert writes _ _ _ _ Hslot), Hw. rewrite (decide_False (P := writes (0, m0))) by (unfold writes; simpl; tauto).
      destruct (mode =? 2) eqn:Em.
      * apply Z.eqb_eq in Em. rewrite decide_False by (unfold writes; simpl; tauto). lia.
      * apply Z.eqb_neq in Em. rewrite decide_True by (by split). unfold wrap32. rewrite wrap_small by (unfold in_u; lia). lia.
  - apply position_None in E. assert (Forall used (slots q)) as Hall.
    { apply Forall_lookup. intros i [a b] Hab. unfold slots in Hab. rewrite lookup_zip_with in Hab.
      destruct (pids q !! i) as [a'|] eqn:Ea; [|done]. destruct (modes q !! i); [|done]. injection Hab as <- <-.
      intros Hz. simpl in Hz. subst a'. by apply list_elem_of_lookup_2 in Ea. }
    assert (filter used (slots q) = slots q) as Ef by (by apply filter_all, Forall_forall). unfold count. rewrite Ef, Hl. lia.
Qed.

Lemma remove_free q pid slot mode :
  exact q -> pid <> 0 -> pids q !! slot = Some pid -> modes q !! slot = Some mode ->
  exact (with_counts (with_slots q (<[slot := 0]> (pids q)) (<[slot := 0]> (modes q))) 1
    (if mode =? 2 then writer_count q else Z.max 0 (writer_count q - 1)) (Z.max 0 (total_count q - 1))).
Proof.
  intros [Hs Ht Hw] Hpid Hp Hm. assert (slots q !! slot = Some (pid, mode)) as Hslot.
  { unfold slots. by rewrite lookup_zip_with, Hp, Hm. }
  pose proof (shape_insert q slot 0 0 Hs) as [H1 H2 H3].
  assert (forall P `{!forall s, Decision (P s)}, 0 <= count P (<[slot := (0, 0)]> (slots q))) as Hpos by (intros; unfold count; lia).
  assert (slots (with_counts (with_slots q (<[slot := 0]> (pids q)) (<[slot := 0]> (modes q))) 1
    (if mode =? 2 then writer_count q else Z.max 0 (writer_count q - 1)) (Z.max 0 (total_count q - 1))) = <[slot := (0, 0)]> (slots q)) as Es
    by apply with_slots_slots.
  split; [by split| |]; rewrite Es; cbn [with_counts total_count writer_count].
  - pose proof (Hpos used _) as H. rewrite (count_insert used _ _ _ _ Hslot) in H |- *.
    rewrite decide_False, decide_True in H |- * by (unfold used; simpl; tauto). lia.
  - pose proof (Hpos writes _) as H. rewrite (count_insert writes _ _ _ _ Hslot) in H |- *.
    rewrite (decide_False (P := writes (0, 0))) in H |- * by (unfold writes; simpl; tauto). destruct (mode =? 2) eqn:Em.
    + apply Z.eqb_eq in Em. rewrite decide_False by (unfold writes; simpl; tauto). lia.
    + apply Z.eqb_neq in Em. rewrite decide_True in H |- * by (by split). lia.
Qed.

(** The process table.  After a crash an operation first drops the slot that was
    being changed; then [add_process] takes the first free slot, and fails exactly
    if there is none, and [remove_process] frees the first slot of the process and
    answers whether there was one.  Neither panics, and afterwards the counters are
    exact whatever they were before the crash. *)
Theorem pid_table p pid mode :
  table_ok p -> 0 <= last_modified_slot p -> max_slots p < 2 ^ 32 - 1 -> pid <> 0 ->
  exists q, recovers p q /\
  (exists r p', add_process p pid mode = Ret (r, p') /\ exact p' /\
    match r with
    | Some slot => pids q !! slot = Some 0 /\ (forall j, (j < slot)%nat -> pids q !! j <> Some 0) /\
        pids p' = <[slot := pid]> (pids q) /\ modes p' = <[slot := mode]> (modes q)
    | None => p' = q /\ 0 ∉ pids q
    end) /\
  (exists r p', remove_process p pid = Ret (r, p') /\ exact p' /\
    if r then exists slot, pids q !! slot = Some pid /\ (forall j, (j < slot)%nat -> pids q !! j <> Some pid) /\
      pids p' = <[slot := 0]> (pids q) /\ modes p' = <[slot := 0]> (modes q)
    else p' = q /\ pid ∉ pids q).
Proof.
  intros Hok Hl Hmax Hpid. destruct (recover_step p Hok Hl) as (q & Eq & Hq & Hr). exists q. split; [done|].
  pose proof Hq as [Hs Ht Hw]. pose proof (slots_length q Hs) as Hlen.
  assert (max_slots q = max_slots p) as Emax.
  { destruct Hok as [Hp _]. pose proof (ts_max p Hp) as Mp. pose proof (ts_max q Hs) as Mq. unfold recovers in Hr.
    destruct (state p =? 2); [|by subst q]. destruct Hr as (_ & E & _). pose proof (ts_pids q Hs) as L. rewrite E, length_insert in L.
    rewrite (ts_pids p Hp) in L. unfold in_u in *. lia. }
  split.
  - unfold add_process. rewrite Eq. cbn [mbind outcome_bind].
    pose proof (count_bound writes (slots q)) as Hb. pose proof (ts_max q Hs) as Hm. unfold in_u in Hm. rewrite Hlen in Hb.
    assert (u32 (writer_count q + 1)) as Hu by (unfold in_u; lia).
    pose proof (add_free q pid mode Hq Hpid Hu) as Hadd.
    destruct (position 0 (pids q)) as [slot|] eqn:Epos.
    + destruct Hadd as [Hlt Hex]. rewrite (proj2 (Z.leb_gt _ _)) by lia. apply position_Some in Epos as [Hz Hfirst].
      pose proof (lookup_lt_Some _ _ _ Hz) as Hslot. rewrite (ts_pids q Hs) in Hslot.
      destruct (slot_lookup q slot Hs Hslot) as (p0 & m0 & Hp0 & Hm0 & _).
      rewrite (vec_modify_nat _ _ _ _ Hp0), (vec_modify_nat _ _ _ _ Hm0). cbn [mbind outcome_bind].
      eexists _, _. split; [done|]. split; [exact Hex|]. done.
    + rewrite (proj2 (Z.leb_le _ _)) by lia. eexists _, _. split; [done|]. split; [done|]. split; [done|]. by apply position_None.
  - unfold remove_process. rewrite Eq. cbn [mbind outcome_bind]. destruct (position pid (pids q)) as [slot|] eqn:Epos.
    + apply position_Some in Epos as [Hz Hfirst]. pose proof (lookup_lt_Some _ _ _ Hz) as Hslot. rewrite (ts_pids q Hs) in Hslot.
      destruct (slot_lookup q slot Hs Hslot) as (p0 & m0 & Hp0 & Hm0 & _). rewrite Hz in Hp0. injection Hp0 as <-.
      rewrite (vec_get_nat _ _ _ Hm0). cbn [mbind outcome_bind].
      rewrite (vec_modify_nat _ _ _ _ Hz), (vec_modify_nat _ _ _ _ Hm0). cbn [mbind outcome_bind].
      eexists _, _. split; [done|]. split; [by eapply remove_free|]. by exists slot.
    + eexists _, _. split; [done|]. split; [done|]. split; [done|]. by apply position_None.
Qed.

Lemma pid_table_witness :
  exists q, recovers (pid_new 4) q /\
  (exists r p', add_process (pid_new 4) 77 5 = Ret (r, p') /\ exact p' /\
    match r with
    | Some slot => pids q !! slot = Some 0 /\ (forall j, (j < slot)%nat -> pids q !! j <> Some 0) /\
        pids p' = <[slot := 77]> (pids q) /\ modes p' = <[slot := 5]> (modes q)
    | None => p' = q /\ 0 ∉ pids q
    end) /\
  (exists r p', remove_process (pid_new 4) 77 = Ret (r, p') /\ exact p' /\
    if r then exists slot, pids q !! slot = Some 77 /\ (forall j, (j < slot)%nat -> pids q !! j <> Some 77) /\
      pids p' = <[slot := 0]> (pids q) /\ modes p' = <[slot := 0]> (modes q)
    else p' = q /\ 77 ∉ pids q).
Proof. apply pid_table; [|done..]. by repeat split. Defined.

(** ** The mapped layout *)

(** [d'] is [d] changed at most between [lo] and [hi]. *)
Definition changed (lo hi : nat) (d d' : bytes) : Prop :=
  length d' = length d /\ forall s e, (e <= length d)%nat -> (e <= lo \/ hi <= s)%nat -> slice s e d' = slice s e d.

Lemma slice_copied a x d : (a + length x <= length d)%nat -> slice a (a + length x) (copy_at a x d) = x.
Proof.
  intros H. apply list_eq. intros i. rewrite slice_lookup by (rewrite length_copy_at; lia). destruct (decide _) as [Hi|Hi].
  - rewrite copy_at_lookup, decide_True by lia. f_equal. lia.
  - symmetry. apply lookup_ge_None_2. lia.
Qed.

Lemma slice_outside s e a x d :
  (a + length x <= length d)%nat -> (e <= length d)%nat -> (e <= a \/ a + length x <= s)%nat ->
  slice s e (copy_at a x d) = slice s e d.
Proof.
  intros Hx He Ho. apply list_eq. intros i. rewrite !slice_lookup by (rewrite ?length_copy_at; lia).
  destruct (decide _); [|done]. rewrite copy_at_lookup by done. by rewrite decide_False by lia.
Qed.

Lemma put_ok a x d :
  (a + length x <= length d)%nat ->
  exists d', put a x d = Ret d' /\ changed a (a + length x) d d' /\ slice a (a + length x) d' = x.
Proof.
  intros H. unfold put. rewrite (proj2 (Nat.leb_le _ _)) by done. eexists. split; [done|]. split; [split|].
  - by apply length_copy_at.
  - intros s e He Ho. by apply slice_outside.
  - by apply slice_copied.
Qed.

(** A little-endian field, written. *)
Lemma put_field a n v w d :
  (a + n <= length d)%nat -> w = 8 * Z.of_nat n -> in_u w v ->
  exists d', put a (to_le_bytes n v) d = Ret d' /\ changed a (a + n) d d' /\ from_le_bytes (slice a (a + n) d') = v.
Proof.
  intros H Hw Hv. destruct (put_ok a (to_le_bytes n v) d) as (d' & E & Hc & Hs); [by rewrite length_to_le_bytes|].
  rewrite length_to_le_bytes in Hc, Hs. exists d'. split; [done|]. split; [done|]. rewrite Hs. by apply (le_roundtrip n w).
Qed.

Lemma changed_trans lo hi lo' hi' d d' d'' :
  changed lo hi d d' -> changed lo' hi' d' d'' -> changed (Nat.min lo lo') (Nat.max hi hi') d d''.
Proof.
  intros [L1 H1] [L2 H2]. split; [congruence|]. intros s e He Ho. rewrite H2 by lia. apply H1; lia.
Qed.

Lemma write_slots_ok values start n i d :
  Forall u32 values -> (i + n <= length values)%nat -> (start + (i + n) * 4 <= length d)%nat ->
  exists d', write_slots values start n i d = Ret d' /\ changed (start + i * 4) (start + (i + n) * 4) d d' /\
    forall k v, (i <= k < i + n)%nat -> values !! k = Some v -> get_u32 d' (start + k * 4) = v.
Proof.
  intros Hu. revert i d. induction n as [|n IH]; intros i d Hi Hd; cbn [write_slots].
  - exists d. split; [done|]. split; [by split|lia].
  - rewrite (proj2 (Nat.leb_le _ _)) by lia. destruct (lookup_lt_is_Some_2 values i) as [v Hv]; [lia|].
    rewrite (vec_get_nat _ _ _ Hv). cbn [mbind outcome_bind].
    destruct (put_field (start + i * 4) 4 v 32 d) as (d1 & -> & [L1 C1] & G1); [lia|done|by eapply Forall_lookup_1|].
    cbn [mbind outcome_bind]. destruct (IH (S i) d1) as (d2 & -> & [L2 C2] & G2); [lia|lia|].
    exists d2. split; [done|]. split.
    + split; [congruence|]. intros s e He Ho. rewrite C2 by lia. apply C1; lia.
    + intros k w Hk Hw. destruct (decide (k = i)) as [->|]; [|apply G2; [lia|done]].
      rewrite Hv in Hw. injection Hw as <-. unfold get_u32. rewrite C2 by lia. exact G1.
Qed.

Lemma read_slots_eq d start n values :
  length values = n -> (start + n * 4 <= length d)%nat ->
  (forall k v, values !! k = Some v -> get_u32 d (start + k * 4) = v) -> read_slots d start n = values.
Proof.
  intros Hl Hd Hg. unfold read_slots. apply list_eq. intros k. rewrite list_lookup_fmap.
  destruct (decide (k < n)%nat) as [Hk|Hk].
  - rewrite lookup_seq_lt by done. cbn [fmap option_fmap option_map]. rewrite (proj2 (Nat.leb_le _ _)) by lia.
    destruct (lookup_lt_is_Some_2 values k) as [v Hv]; [lia|]. rewrite Hv. f_equal. rewrite Nat.add_0_l. by apply Hg.
  - rewrite lookup_seq_ge by lia. symmetry. apply lookup_ge_None_2. lia.
Qed.

Record table_fits (p : PidTracking) : Prop := {
  tf_shape : table_shape p;
  tf_state : u32 (state p);
  tf_writers : u32 (writer_count p);
  tf_total : u32 (total_count p);
  tf_slot : u32 (last_modified_slot p);
  tf_generation : u64 (generation p);
  tf_pids : Forall u32 (pids p);
  tf_modes : Forall u32 (modes p);
}.

Ltac unchanged := repeat match goal with
  | H : changed _ _ ?d ?d' |- context [slice ?s ?e ?d'] => rewrite (proj2 H s e) by lia
  end.

Ltac field a n v w :=
  match goal with
  | |- context [put a (to_le_bytes n v) ?d] =>
      let d' := fresh "d" in let C := fresh "C" in let G := fresh "G" in
      destruct (put_field a n v w d) as (d' & -> & C & G); [lia|done|done|];
      cbn [mbind outcome_bind]; pose proof (proj1 C)
  end.

(** The table as it is read back from where it was written. *)
Lemma pid_mapped_ok p d :
  table_fits p -> (28 + Z.to_nat (max_slots p) * 8 <= length d)%nat ->
  exists d', pid_to_mapped p d = Ret d' /\ length d' = length d /\ pid_from_mapped d' = p.
Proof.
  intros [[Hmax Hlp Hlm] H1 H2 H3 H4 H5 H6 H7] Hd. unfold pid_to_mapped, PID_TRACKING_HEADER_SIZE.
  rewrite (proj2 (Nat.ltb_ge _ _)) by lia. set (n := Z.to_nat (max_slots p)) in *.
  field 0%nat 4%nat (state p) 32. field 4%nat 4%nat (writer_count p) 32. field 8%nat 4%nat (total_count p) 32.
  field 12%nat 4%nat (last_modified_slot p) 32. field 16%nat 8%nat (generation p) 64. field 24%nat 4%nat (max_slots p) 32.
  destruct (write_slots_ok (pids p) 28 n 0 d5) as (d6 & -> & C6 & G6); [done|lia|lia|]. cbn [mbind outcome_bind].
  pose proof (proj1 C6). destruct (write_slots_ok (modes p) (28 + n * 4) n 0 d6) as (d7 & -> & C7 & G7); [done|lia|lia|].
  pose proof (proj1 C7). exists d7. split; [done|]. split; [lia|].
  unfold pid_from_mapped, PID_TRACKING_HEADER_SIZE. rewrite (proj2 (Nat.ltb_ge _ _)) by lia.
  assert (get_u32 d7 24 = max_slots p) as -> by (unfold get_u32; unchanged; done). fold n.
  rewrite (read_slots_eq d7 28 n (pids p)), (read_slots_eq d7 (28 + n * 4) n (modes p)); try lia.
  - unfold get_u32. unchanged. change (slice 16 24) with (slice 16 (16 + 8)). rewrite G, G0, G1, G2, G3. by destruct p.
  - intros k v Hv. apply G7; [|done]. apply lookup_lt_Some in Hv. lia.
  - intros k v Hv. pose proof (lookup_lt_Some _ _ _ Hv). unfold get_u32. unchanged. apply G6; [lia|done].
Qed.

(** ** The control block *)

(** A block whose fields are in range and that only has what its version has. *)
Record block_ok (cb : ShmemControlBlock) (len : nat) : Prop := {
  bo_version : version cb = 4 /\ exclusive_access cb = false /\ pid_tracking cb = None \/
    version cb = 5 /\ exists pt, pid_tracking cb = Some pt /\ table_fits pt /\
      (0x154 + 28 + Z.to_nat (max_slots pt) * 8 <= len)%nat;
  bo_format : u32 (free_space_format cb);
  bo_size : u32 (data_size cb);
  bo_len : (Z.to_nat (file_size cb) <= len)%nat;
}.

Lemma nth_slice i (d : bytes) : (i < length d)%nat -> nth i d 0 = nth 0 (slice i (i + 1) d) 0.
Proof.
  intros H. unfold slice. replace (i + 1 - i)%nat with 1%nat by lia.
  destruct (lookup_lt_is_Some_2 d i H) as [x Hx]. rewrite (drop_S _ _ _ Hx). by apply nth_lookup_Some with (d := 0) in Hx.
Qed.

Lemma put_byte a v d :
  (a < length d)%nat -> exists d', put a [v] d = Ret d' /\ changed a (a + 1) d d' /\ slice a (a + 1) d' = [v].
Proof. intros H. apply (put_ok a [v] d). simpl. lia. Qed.

(** What a region must hold to read as the block [cb]. *)
Lemma from_mapped_eq cb d :
  (0x258 <= length d)%nat -> slice 0 1 d = [version cb] -> slice 2 3 d = [if initialized cb then 1 else 0] ->
  get_u32 d 264 = free_space_format cb -> get_u32 d 268 = data_size cb ->
  version cb = 4 /\ exclusive_access cb = false /\ pid_tracking cb = None \/
  version cb = 5 /\ get_u32 d 336 = (if exclusive_access cb then 1 else 0) /\ pid_tracking cb = Some (pid_from_mapped (drop 340 d)) ->
  from_mapped d = Some cb.
Proof.
  intros Hd E0 E2 Ef Es Hv. unfold from_mapped, INIT_BYTE_OFFSET. rewrite (proj2 (Z.ltb_ge _ _)) by (unfold V4_HEADER_SIZE; lia).
  rewrite (nth_slice 0), (nth_slice 2) by lia. cbn [Nat.add]. rewrite E0, E2. cbn [nth].
  change (FREE_SPACE_FORMAT_OFFSET * 4)%nat with 264%nat. change (DATA_SIZE_OFFSET * 4)%nat with 268%nat.
  change (V5_EXCLUSIVE_FLAG_OFFSET * 4)%nat with 336%nat. change (Z.to_nat V5_BASE_HEADER_SIZE) with 340%nat. rewrite Ef, Es.
  rewrite (proj2 (Z.leb_le V5_BASE_HEADER_SIZE _)), (proj2 (Z.leb_le V5_EXTENDED_HEADER_SIZE _)) by (unfold V5_BASE_HEADER_SIZE, V5_EXTENDED_HEADER_SIZE; lia).
  rewrite (proj2 (Nat.ltb_lt _ _)) by lia.
  destruct Hv as [(V & Ea & Pt)|(V & Ea & Pt)]; rewrite V; cbn [supported MIN_SHMEM_VERSION MAX_SHMEM_VERSION Z.leb Z.compare Pos.compare Pos.compare_cont andb negb].
  - f_equal. destruct cb as [v i f s e pt]. cbn in *. subst. f_equal; by destruct i.
  - rewrite Ea, <- Pt. f_equal. destruct cb as [v i f s e pt]. cbn in *. subst v. f_equal; [by destruct i|by destruct e].
Qed.

Lemma put_pids_ok pt d :
  table_fits pt -> (340 + 28 + Z.to_nat (max_slots pt) * 8 <= length d)%nat ->
  exists d', put_pids 340 pt d = Ret d' /\ changed 340 (length d) d d' /\ pid_from_mapped (drop 340 d') = pt.
Proof.
  intros Hpt Hd. unfold put_pids.
  destruct (pid_mapped_ok pt (drop 340 d) Hpt) as (r & -> & Lr & Er); [rewrite length_drop; lia|]. rewrite length_drop in Lr.
  cbn [mbind outcome_bind]. eexists. split; [done|]. assert (length (take 340 d) = 340%nat) as L340 by (rewrite length_take; lia). split; [split|].
  - rewrite length_app. lia.
  - intros s e He [Ho|Ho].
    + unfold slice. destruct (decide (s <= 340)%nat).
      * rewrite drop_app_le by lia. rewrite take_app_le by (rewrite length_drop; lia).
        rewrite skipn_firstn_comm, take_take. f_equal. lia.
      * replace (e - s)%nat with 0%nat by lia. by rewrite !take_0.
    + unfold slice. rewrite !drop_ge by (rewrite ?length_app; lia). done.
  - by rewrite drop_app_length'.
Qed.

Lemma to_mapped_ok cb region :
  block_ok cb (length region) ->
  exists region', to_mapped cb region = Ret region' /\ length region' = length region /\ from_mapped region' = Some cb.
Proof.
  intros [Hv Hf Hs Hlen]. assert (0x258 <= length region)%nat as Hbig.
  { unfold file_size in Hlen. destruct Hv as [(V & _)|(V & pt & P & _)]; rewrite V in Hlen; [|rewrite P in Hlen];
      match type of Hlen with (?x <= _)%nat => let y := eval vm_compute in x in change x with y in Hlen end; lia. }
  unfold to_mapped. destruct (put_byte 0 (version cb) region) as (d0 & -> & C0 & G0); [lia|]. cbn [mbind outcome_bind].
  pose proof (proj1 C0). unfold INIT_BYTE_OFFSET.
  destruct (put_byte 2 (if initialized cb then 1 else 0) d0) as (d1 & -> & C1 & G1); [lia|]. cbn [mbind outcome_bind].
  pose proof (proj1 C1). change (FREE_SPACE_FORMAT_OFFSET * 4)%nat with 264%nat. change (DATA_SIZE_OFFSET * 4)%nat with 268%nat.
  change (V5_EXCLUSIVE_FLAG_OFFSET * 4)%nat with 336%nat. change (Z.to_nat V5_BASE_HEADER_SIZE) with 340%nat.
  field 264%nat 4%nat (free_space_format cb) 32. field 268%nat 4%nat (data_size cb) 32.
  destruct Hv as [(V & Ea & Pt)|(V & pt & Pt & Hpt & Hl)]; rewrite V; cbn [Z.leb Z.compare Pos.compare Pos.compare_cont andb].
  - eexists. split; [done|]. split; [lia|]. apply from_mapped_eq; [lia|unfold get_u32; unchanged; done..|by left].
  - rewrite (proj2 (Z.leb_le V5_BASE_HEADER_SIZE _)), (proj2 (Z.leb_le V5_EXTENDED_HEADER_SIZE _))
      by (unfold V5_BASE_HEADER_SIZE, V5_EXTENDED_HEADER_SIZE; lia).
    destruct (put_field 336 4 (if exclusive_access cb then 1 else 0) 32 d2) as (d4 & -> & C4 & G4);
      [lia|done|by destruct (exclusive_access cb)|]. cbn [mbind outcome_bind]. pose proof (proj1 C4). rewrite Pt.
    destruct (put_pids_ok pt d4 Hpt) as (d5 & -> & C5 & G5); [lia|]. pose proof (proj1 C5).
    eexists. split; [done|]. split; [lia|].
    apply from_mapped_eq; [lia|unfold get_u32; unchanged; done..|]. right. split; [done|]. rewrite G5, Pt. split; [|done].
    unfold get_u32. unchanged. exact G4.
Qed.

(** A control block that was written to a region reads back as the same block:
    the header fields, the exclusive flag, and the process table with its slots. *)
Theorem control_block_roundtrip cb region :
  block_ok cb (length region) ->
  exists region', to_mapped cb region = Ret region' /\ length region' = length region /\ from_mapped region' = Some cb.
Proof. apply to_mapped_ok. Qed.

Lemma control_block_roundtrip_witness :
  exists region', to_mapped (initialize (new_v5_with_pid_tracking 4) 1024) (zeros (Z.to_nat 16384)) = Ret region' /\
    length region' = length (zeros (Z.to_nat 16384)) /\ from_mapped region' = Some (initialize (new_v5_with_pid_tracking 4) 1024).
Proof.
  apply control_block_roundtrip. rewrite length_zeros. split; [|done|done|].
  - right. split; [done|]. eexists. split; [done|]. split; [repeat (split || constructor || done)|]. apply Nat.leb_le. by vm_compute.
  - apply Nat.leb_le. vm_compute. done.
Defined.

(** ** Binding a container *)

(** The block that [attach] puts into a region without one. *)
Definition fresh_block : ShmemControlBlock := initialize (new_v5_with_pid_tracking 4) 0.

Lemma fresh_block_ok n : n = Z.to_nat (v5_file_size true) -> block_ok fresh_block n.
Proof.
  intros ->. split; [|done|done|done]. right. split; [done|]. eexists. split; [done|].
  split; [repeat (split || constructor || done)|]. apply Nat.leb_le. by vm_compute.
Qed.

(** The data size of a new block is the size of the region minus itself, so zero,
    which [validate_for_bind] refuses: neither the process that creates the region
    nor any later one can bind to it. *)
Theorem fresh_region_never_binds region mode pid :
  length region = Z.to_nat (v5_file_size true) ->
  (forall cb, from_mapped region = Some cb -> initialized cb = false) ->
  let refused := Err (SharedMemory "Detected invalid shared memory initialization") in
  exists region', open_shmem false (Ok region) mode pid = Ret (refused, Some region') /\
    forall mode' pid', open_shmem false (Ok region') mode' pid' = Ret (refused, Some region').
Proof.
  intros Hl Hnew. cbv zeta. destruct (to_mapped_ok fresh_block region) as (region' & E & Hl' & Hback).
  { by apply fresh_block_ok. }
  exists region'. split.
  - unfold open_shmem, attach. change (initialize (new_v5_with_pid_tracking 4) _) with fresh_block.
    rewrite E. destruct (from_mapped region) as [cb|] eqn:Ecb; [rewrite (Hnew cb eq_refl)|]; done.
  - intros mode' pid'. unfold open_shmem, attach. rewrite Hback. done.
Qed.

Lemma fresh_region_never_binds_witness :
  let refused := Err (SharedMemory "Detected invalid shared memory initialization") in
  exists region', open_shmem false (Ok (zeros (Z.to_nat (v5_file_size true)))) Containers.ReadWrite 77 = Ret (refused, Some region') /\
    forall mode' pid', open_shmem false (Ok region') mode' pid' = Ret (refused, Some region').
Proof. apply fresh_region_never_binds; [apply length_zeros|]. intros cb E. by vm_compute in E. Defined.

(** A region in which another program has set a data size. *)
Definition bindable : bytes :=
  match to_mapped (initialize (new_v5_with_pid_tracking 4) 1024) (zeros (Z.to_nat 16384)) with Ret r => r | Panic => [] end.

Definition pids_in (region : bytes) : list Z :=
  match from_mapped region with Some cb => match pid_tracking cb with Some pt => pids pt | None => [] end | None => [] end.

(** A handle writes its own copy of the table back when it is dropped: a process
    that bound in between disappears from the region. *)
Theorem drop_loses_other_process :
  match open_shmem false (Ok bindable) Containers.ReadWrite 77 with
  | Ret (Ok (Some first), Some r1) =>
      match open_shmem false (Ok r1) Containers.ReadWrite 78 with
      | Ret (Ok (Some _), Some r2) =>
          pids_in r2 = [77; 78; 0; 0] /\ match drop_handle first r2 with Ret r3 => pids_in r3 = [0; 0; 0; 0] | Panic => False end
      | _ => False
      end
  | _ => False
  end.
Proof. by vm_compute. Qed.

(** Removing process 0 frees a free slot and still counts one process less. *)
Theorem remove_process_zero :
  match add_process (pid_new 2) 77 5 with
  | Ret (_, p) => total_count p = 1 /\
      match remove_process p 0 with Ret (r, p') => r = true /\ total_count p' = 0 /\ pids p' = [77; 0] | Panic => False end
  | Panic => False
  end.
Proof. by vm_compute. Qed.

(** A version 5 block without a process table reads back with one: the table is
    taken from the region whenever the region is long enough. *)
Theorem missing_table_appears :
  match cb_new 5 with
  | Some cb =>
      pid_tracking cb = None /\
      match to_mapped cb (zeros (Z.to_nat (file_size cb))) with
      | Ret region => (from_mapped region ≫= pid_tracking) = Some (with_counts (pid_new 0) 0 0 0)
      | Panic => False
      end
  | None => False
  end.
Proof. by vm_compute. Qed.
