(* ===== verification/DynamicContainer.v ===== *)
(** * The static and the dynamic container: crates/cascette-client-storage/src/container/

    [static_container.rs]: read-only access to an index and the archives.
    [dynamic.rs]: the read-write container, which composes the index manager, the
    archive manager, the segment allocator and, where it has them, the residency
    container, the LRU manager and the shared-memory block.

    Both implement the interface [Container]; the index and the data files lie in
    one directory, the [disk] of the state.  Every lock is taken for one call of
    a component and released, so a container call is the sequence of those calls. *)

From S2P Require Import Prelude Bytes Disk IndexEntry UpdateSection Index LocalHeader Segment Lru KeyState.
From S2P Require Import ResidencyContainer Ciphers Blte ArchiveFile Shmem.
Local Open Scope Z_scope.

Definition denied : StorageError := AccessDenied "container is read-only".

(** [buf[..n].copy_from_slice(&data[..n])] with [n] the smaller length. *)
Definition fill (data buf : bytes) : nat * bytes :=
  let n := Nat.min (length data) (length buf) in (n, copy_at 0 (take n data) buf).

Definition entry_location (e : Entry.IndexEntry) : Z * Z * Z :=
  (Entry.archive_id (Entry.archive_location e), Entry.archive_offset (Entry.archive_location e), Entry.size e).

Section Codecs.

Context (zlib_reads : bytes -> list bytes * bool) (lz4_decompress_with_dict : bytes -> nat -> bytes -> option bytes).

(** [entry.archive_id()], [entry.archive_offset()] and [entry.size] of an index
    entry, read from the archives. *)
Definition read_entry (archive : Archive.ArchiveManager) (d : disk) (e : Entry.IndexEntry) : outcome (result StorageError bytes) :=
  let '(id, offset, size) := entry_location e in
  Archive.read_content zlib_reads lz4_decompress_with_dict archive d id offset size.

End Codecs.

Module Static.

Record KeyState := { has_data : bool; is_resident : bool }.

Record StaticContainer := {
  storage_path : bytes;
  index : Index.IndexManager;
  archive : Archive.ArchiveManager;
  initialized : bool;
}.

Definition static_new (storage_path : bytes) : StaticContainer :=
  {| storage_path := storage_path; index := Index.manager_new; archive := Archive.manager_new storage_path;
     initialized := false |}.

Definition open (index_io : Index.Io) (archive_io : Archive.Io) (c : StaticContainer) (d : disk) :
    outcome (result StorageError unit * StaticContainer) :=
  '(r, index) ← Index.load_all index_io Index.manager_new d;
  match r with
  | Err e => Ret (Err e, c)
  | Ok _ =>
      let c := {| storage_path := storage_path c; index := index; archive := archive c; initialized := initialized c |} in
      let '(r, archive) := Archive.open_all archive_io (Archive.manager_new (storage_path c)) d in
      match r with
      | Err e => Ret (Err e, c)
      | Ok _ => Ret (Ok tt, {| storage_path := storage_path c; index := index; archive := archive; initialized := true |})
      end
  end.

Definition not_initialized : StorageError := Config "static container not initialized".
Definition static_denied : StorageError := AccessDenied "static container is read-only".

Definition key_state (c : StaticContainer) (key : bytes) : KeyState :=
  if bool_decide (key = zeros 16) then {| has_data := false; is_resident := false |}
  else let has := Index.has_entry (index c) key in {| has_data := has; is_resident := has |}.

Definition state_lookup (c : StaticContainer) (keys : list bytes) : result StorageError (list KeyState) :=
  if negb (initialized c) then Err not_initialized else Ok (key_state c <$> keys).

Definition entry_count (c : StaticContainer) : nat := Index.entry_count (index c).

Section Codecs.

Context (zlib_reads : bytes -> list bytes * bool) (lz4_decompress_with_dict : bytes -> nat -> bytes -> option bytes).

Definition static_read (c : StaticContainer) (d : disk) (key : bytes) (offset len : Z) (buf : bytes) :
    outcome (result StorageError nat * bytes) :=
  if negb (initialized c) then Ret (Err not_initialized, buf)
  else
    match Index.lookup (index c) key with
    | None => Ret (Err (NotFound "not in index"), buf)
    | Some entry =>
        r ← read_entry zlib_reads lz4_decompress_with_dict (archive c) d entry;
        match r with
        | Err e => Ret (Err e, buf)
        | Ok data => let '(n, buf) := fill data buf in Ret (Ok n, buf)
        end
    end.

Definition static_container : Containers.Container (StaticContainer * disk) := {|
  Containers.reserve _ _ := Err static_denied;
  Containers.read s key offset len buf :=
    r ← static_read (fst s) (snd s) key offset len buf; Ret (fst r, snd r, s);
  Containers.write s _ _ := Ret (Err static_denied, s);
  Containers.remove s _ := Ret (Err static_denied, s);
  Containers.query s key := Ok (Index.has_entry (index (fst s)) key);
|}.

End Codecs.

End Static.

Module Dynamic.

Definition MAX_SEGMENTS : Z := 0x3FF.

Record DynamicContainer := {
  access_mode : Containers.AccessMode;
  storage_path : bytes;
  shared_memory : bool;
  read_only : bool;
  segment_limit : Z;
  max_segment_size : Z;
  free_space_reclaim : bool;
  path_hash : bytes;
  index : Index.IndexManager;
  archive : Archive.ArchiveManager;
  segment_allocator : Segment.SegmentAllocator;
  residency : option Containers.ResidencyContainer;
  lru : option Lru.LruManager;
  shmem : option Shmem.ShmemHandle;
}.

Definition set_parts (c : DynamicContainer) (index : Index.IndexManager) (archive : Archive.ArchiveManager)
    (allocator : Segment.SegmentAllocator) (residency : option Containers.ResidencyContainer)
    (lru : option Lru.LruManager) (shmem : option Shmem.ShmemHandle) : DynamicContainer :=
  {| access_mode := access_mode c; storage_path := storage_path c; shared_memory := shared_memory c;
     read_only := read_only c; segment_limit := segment_limit c; max_segment_size := max_segment_size c;
     free_space_reclaim := free_space_reclaim c; path_hash := path_hash c;
     index := index; archive := archive; segment_allocator := allocator; residency := residency;
     lru := lru; shmem := shmem |}.

Definition with_index c i := set_parts c i (archive c) (segment_allocator c) (residency c) (lru c) (shmem c).
Definition with_archive c a := set_parts c (index c) a (segment_allocator c) (residency c) (lru c) (shmem c).
Definition with_allocator c s := set_parts c (index c) (archive c) s (residency c) (lru c) (shmem c).
Definition with_residency c r := set_parts c (index c) (archive c) (segment_allocator c) r (lru c) (shmem c).
Definition with_lru c l := set_parts c (index c) (archive c) (segment_allocator c) (residency c) l (shmem c).
Definition with_shmem c h := set_parts c (index c) (archive c) (segment_allocator c) (residency c) (lru c) h.

(** ** Construction *)

Record DynamicContainerBuilder := {
  b_access_mode : Containers.AccessMode;
  b_storage_path : bytes;
  b_shared_memory : bool;
  b_segment_limit : Z;
  b_max_segment_size : Z;
  b_free_space_reclaim : bool;
  b_path_hash : bytes;
  b_residency : option Containers.ResidencyContainer;
  b_lru : option Lru.LruManager;
}.

Definition builder (storage_path : bytes) : DynamicContainerBuilder :=
  {| b_access_mode := Containers.ReadWrite; b_storage_path := storage_path; b_shared_memory := false;
     b_segment_limit := MAX_SEGMENTS; b_max_segment_size := Segment.SEGMENT_SIZE; b_free_space_reclaim := false;
     b_path_hash := zeros 16; b_residency := None; b_lru := None |}.

Definition new_from_builder (b : DynamicContainerBuilder) : result StorageError DynamicContainer :=
  match b_storage_path b with
  | [] => Err (Config "storage path is required for DynamicContainer")
  | _ =>
      let segment_limit := Z.min (b_segment_limit b) MAX_SEGMENTS in
      Ok {| access_mode := b_access_mode b; storage_path := b_storage_path b; shared_memory := b_shared_memory b;
            read_only := bool_decide (b_access_mode b = Containers.ReadOnly); segment_limit := segment_limit;
            max_segment_size := b_max_segment_size b; free_space_reclaim := b_free_space_reclaim b;
            path_hash := b_path_hash b; index := Index.manager_new;
            archive := Archive.manager_new (b_storage_path b);
            segment_allocator := Segment.allocator_new (b_path_hash b) segment_limit;
            residency := b_residency b; lru := b_lru b; shmem := None |}
  end.

Definition dynamic_new (mode : Containers.AccessMode) (storage_path : bytes) (shared_memory : bool)
    (segment_limit max_segment_size : Z) (free_space_reclaim : bool) : result StorageError DynamicContainer :=
  let b := builder storage_path in
  new_from_builder
    {| b_access_mode := mode; b_storage_path := b_storage_path b; b_shared_memory := shared_memory;
       b_segment_limit := segment_limit; b_max_segment_size := max_segment_size;
       b_free_space_reclaim := free_space_reclaim; b_path_hash := b_path_hash b;
       b_residency := b_residency b; b_lru := b_lru b |}.

(** What the system calls of one container call do. *)
Record Io := {
  mkdir_ok : bool;
  index_io : Index.Io;
  save_io : Index.Io;
  archive_io : Archive.Io;
  header_io : Archive.Io;
  segment_io : Segment.Io;
  network : bool;
  mapped : result StorageError bytes;
  pid : Z;
}.

(** [open]: the result, the container, and what is left in the shared region.
    While a manager is loaded the container holds a new one in its place, which
    stays there when loading fails. *)
Definition open (io : Io) (c : DynamicContainer) (d : disk) :
    outcome (result StorageError unit * DynamicContainer * option bytes) :=
  if Containers.can_write (access_mode c) && negb (mkdir_ok io)
  then Ret (Err (ArchiveError "failed to create storage directory"), c, None)
  else
    '(r, loaded) ← Index.load_all (index_io io) (index c) d;
    match r with
    | Err e => Ret (Err e, with_index c Index.manager_new, None)
    | Ok _ =>
        let c := with_index c loaded in
        let '(r, opened) := Archive.open_all (archive_io io) (archive c) d in
        match r with
        | Err e => Ret (Err e, with_archive c (Archive.manager_new (storage_path c)), None)
        | Ok _ =>
            let c := with_archive c opened in
            let '(r, allocator) := Segment.load_existing (segment_io io) d (segment_allocator c) in
            let c := with_allocator c allocator in
            match r with
            | Err e => Ret (Err e, c, None)
            | Ok _ =>
                if shared_memory c then
                  '(r, region) ← Shmem.open_shmem (network io) (mapped io) (access_mode c) (pid io);
                  match r with
                  | Ok handle => Ret (Ok tt, with_shmem c handle, region)
                  | Err _ => Ret (Ok tt, c, region)
                  end
                else Ret (Ok tt, c, None)
            end
        end
    end.

(** ** Flushing *)

Definition flush_bucket (io : Io) (bucket : Z) (c : DynamicContainer) (d : disk) :
    outcome (result StorageError unit * DynamicContainer * disk) :=
  '(r, i, d) ← Index.flush_updates_for_bucket (index_io io) bucket (index c) d;
  Ret (r, with_index c i, d).

Definition flush_all_updates (io : Io) (c : DynamicContainer) (d : disk) :
    outcome (result StorageError unit * DynamicContainer * disk) :=
  '(r, i, d) ← Index.flush_all_updates (index_io io) (index c) d;
  Ret (r, with_index c i, d).

(** ** Residency and free space *)

Definition i32_MAX : Z := 0x7FFFFFFF.

Definition mark_entry_non_resident (c : DynamicContainer) (key : bytes) (offset length : Z) : DynamicContainer :=
  let c := with_residency c
    ((fun r => snd (Containers.mark_span_non_resident r key offset length)) <$> residency c) in
  with_index c (snd (Index.update_entry_status (index c) key Update.DataNonResident)).

(** [if self.free_space_reclaim { .. free_span(..) }]. *)
Definition reclaim (c : DynamicContainer) (archive_id archive_offset size : Z) : outcome DynamicContainer :=
  if free_space_reclaim c then
    s ← Segment.free_span archive_id archive_offset size (segment_allocator c);
    Ret (with_allocator c s)
  else Ret c.

Definition handle_truncated_read (c : DynamicContainer) (key : bytes) (archive_id archive_offset entry_size : Z) :
    outcome DynamicContainer :=
  let offset := Z.min archive_offset i32_MAX in
  let length := Z.min entry_size i32_MAX in
  reclaim (mark_entry_non_resident c key offset length) archive_id archive_offset entry_size.

Definition remove_span (c : DynamicContainer) (key : bytes) (offset length : Z) :
    outcome (result StorageError unit * DynamicContainer) :=
  if negb (Containers.can_write (access_mode c)) then Ret (Err denied, c)
  else
    let adjusted_offset := Z.min (offset + 0x1E) (2 ^ 64 - 1) in
    match Index.lookup (index c) key with
    | None => Ret (Ok tt, c)
    | Some entry =>
        let '(id, archive_offset, size) := entry_location entry in
        let c := mark_entry_non_resident c key (Z.min adjusted_offset i32_MAX) (Z.min length i32_MAX) in
        c ← reclaim c id archive_offset size;
        Ret (Ok tt, c)
    end.

(** ** The [Container] methods *)

Section Codecs.

Context (md5 : bytes -> bytes).
Context (zlib_compress : bytes -> option bytes) (zlib_reads : bytes -> list bytes * bool).
Context (lz4_compress : bytes -> bytes) (lz4_compress_with_dict : bytes -> bytes -> bytes).
Context (lz4_decompress_with_dict : bytes -> nat -> bytes -> option bytes).

(** [if let Some(lru) = self.lru { lru.write().touch(..) }] with the first nine
    bytes of the key. *)
Definition touch (c : DynamicContainer) (key : bytes) : outcome DynamicContainer :=
  match lru c with
  | None => Ret c
  | Some l => '(_, l) ← Lru.touch l (take 9 key); Ret (with_lru c (Some l))
  end.

(** [matches!(&e, Archive(msg) if msg.contains("beyond archive bounds"))]. *)
Definition beyond_bounds (e : StorageError) : bool :=
  match e with
  | ArchiveError msg => bool_decide (is_Some (String.index 0 "beyond archive bounds" msg))
  | _ => false
  end.

Definition reserve (c : DynamicContainer) (key : bytes) : result StorageError unit :=
  if negb (Containers.can_write (access_mode c)) then Err denied else Ok tt.

Definition read (c : DynamicContainer) (d : disk) (key : bytes) (offset len : Z) (buf : bytes) :
    outcome (result StorageError nat * bytes * DynamicContainer) :=
  if negb (Containers.can_read (access_mode c)) then Ret (Err (AccessDenied "container has no read access"), buf, c)
  else
    match Index.lookup (index c) key with
    | None => Ret (Err (NotFound "not in index"), buf, c)
    | Some entry =>
        let '(archive_id, archive_offset, entry_size) := entry_location entry in
        r ← read_entry zlib_reads lz4_decompress_with_dict (archive c) d entry;
        match r with
        | Err e =>
            if beyond_bounds e then
              c ← handle_truncated_read c key archive_id archive_offset entry_size;
              Ret (Err (TruncatedRead "archive file truncated"), buf, c)
            else Ret (Err e, buf, c)
        | Ok data =>
            c ← touch c key;
            let '(n, buf) := fill data buf in
            Ret (Ok n, buf, c)
        end
    end.

(** The update of the reconstruction header of a bucket, after a write at [offset]. *)
Definition update_segment_header (io : Io) (c : DynamicContainer) (d : disk) (archive_id offset total_size : Z) (encoding_key : bytes) :
    result StorageError unit * DynamicContainer * disk :=
  if Z.of_nat Segment.SEGMENT_HEADER_SIZE <=? offset then
    let bucket := Segment.bucket_hash (take 9 encoding_key) 0 in
    let local_header := LocalHeader.new encoding_key total_size 0 1 in
    let seg_header :=
      match Archive.read_segment_header (archive c) d archive_id with Ok h => h | Err _ => Segment.zeroed end in
    let seg_header := Segment.set_bucket_header seg_header bucket local_header in
    let '(r, a, d) := Archive.write_segment_header (header_io io) archive_id seg_header (archive c) d in
    (r, with_archive c a, d)
  else (Ok tt, c, d).

Definition write (io : Io) (c : DynamicContainer) (d : disk) (key data : bytes) :
    outcome (result StorageError unit * DynamicContainer * disk) :=
  if negb (Containers.can_write (access_mode c)) then Ret (Err denied, c, d)
  else
    let '(r, a, d) := Archive.write_content md5 zlib_compress lz4_compress lz4_compress_with_dict
                        (archive_io io) data false (archive c) d in
    let c := with_archive c a in
    match r with
    | Err e => Ret (Err e, c, d)
    | Ok (archive_id, offset, total_size, encoding_key) =>
        '(r, i, d) ← Index.add_entry (index_io io) (index c) encoding_key archive_id offset total_size d;
        let c := with_index c i in
        match r with
        | Err e => Ret (Err e, c, d)
        | Ok _ =>
            let '(r, c, d) := update_segment_header io c d archive_id offset total_size encoding_key in
            match r with
            | Err e => Ret (Err e, c, d)
            | Ok _ =>
                c ← touch c encoding_key;
                '(r, d) ← Index.save_all (save_io io) (index c) d;
                Ret (r, c, d)
            end
        end
    end.

Definition remove (io : Io) (c : DynamicContainer) (d : disk) (key : bytes) :
    outcome (result StorageError unit * DynamicContainer * disk) :=
  if negb (Containers.can_write (access_mode c)) then Ret (Err denied, c, d)
  else
    let '(removed, i) := Index.remove_entry (index c) key in
    let c := with_index c i in
    if removed then
      '(r, d) ← Index.save_all (save_io io) (index c) d;
      Ret (r, c, d)
    else Ret (Ok tt, c, d).

Definition query (c : DynamicContainer) (key : bytes) : result StorageError bool := Ok (Index.has_entry (index c) key).

Definition dynamic_container (io : Io) : Containers.Container (DynamicContainer * disk) := {|
  Containers.reserve s key := reserve (fst s) key;
  Containers.read s key offset len buf :=
    '(r, buf, c) ← read (fst s) (snd s) key offset len buf; Ret (r, buf, (c, snd s));
  Containers.write s key data :=
    '(r, c, d) ← write io (fst s) (snd s) key data; Ret (r, (c, d));
  Containers.remove s key :=
    '(r, c, d) ← remove io (fst s) (snd s) key; Ret (r, (c, d));
  Containers.query s key := query (fst s) key;
|}.

End Codecs.

Definition entry_count (c : DynamicContainer) : nat := Index.entry_count (index c).
Definition segment_count (c : DynamicContainer) : nat := Segment.segment_count (segment_allocator c).
Definition shmem_version (c : DynamicContainer) : option Z := (fun h => Shmem.version (Shmem.control_block h)) <$> shmem c.

End Dynamic.
