(* ===== verification/DynamicTheorems.v ===== *)
(** * Correctness of the dynamic container

    What was written is read back under its encoding key, and no later call on
    other keys, whatever fails, loses it. *)

From S2P Require Import Prelude Bytes Disk Collections IndexEntry UpdateSection IndexFile Index IndexImage IndexTheorems.
From S2P Require Import LocalHeader Segment SegmentTheorems Compaction CompactionTheorems Lru KeyState ResidencyContainer.
From S2P Require Import Ciphers Blte BlteTheorems ArchiveFile ArchiveTheorems Shmem DynamicContainer.
Local Open Scope Z_scope.

(** ** Index files and data files do not collide *)

Definition index_name (n : bytes) : Prop :=
  exists id, n = IndexFile.temp_filename id 1 \/ n = IndexFile.generate_index_filename id 1.

Lemma data_not_index_name i : ~ index_name (Segment.segment_data_name i).
Proof.
  assert (forall id rest, Segment.segment_data_name i <> hex_be 1 id ++ hex_be 4 1 ++ rest) as H.
  { intros id rest E. apply (f_equal (fun l => nth 2 l 0)) in E. by vm_compute in E. }
  intros [id [E|E]]; by apply H in E.
Qed.

(** A change of the directory that only touches index files. *)
Definition data_same (d d' : disk) : Prop := forall n, ~ index_name n -> disk_get d' n = disk_get d n.

Lemma data_same_trans d1 d2 d3 : data_same d1 d2 -> data_same d2 d3 -> data_same d1 d3.
Proof. intros H1 H2 n Hn. rewrite H2 by done. by apply H1. Qed.

Lemma save_index_data io id f d r d' : Index.save_index io id f d = Ret (r, d') -> data_same d d'.
Proof.
  unfold Index.save_index. intros (img & _ & E)%bind_Ret n Hn. destruct img as [img|e]; [|by injection E as <- <-].
  assert (n <> IndexFile.temp_filename id 1) as H1 by (intros ->; apply Hn; exists id; by left).
  assert (n <> IndexFile.generate_index_filename id 1) as H2 by (intros ->; apply Hn; exists id; by right).
  pose proof (save_attempts_get io [0; 1; 2]%nat _ (IndexFile.generate_index_filename id 1) img d n H1 (temp_name_differs id 1)) as H.
  destruct (Index.save_attempts _ _ _ _ _ _) as [r1 d1] in E, H. injection E as <- <-. rewrite H. destruct r1; [|done]. by rewrite bool_decide_false.
Qed.

Lemma save_list_data io l d r d' : Index.save_list io l d = Ret (r, d') -> data_same d d'.
Proof.
  revert d. induction l as [|[id f] l IH]; intros d; cbn [Index.save_list]; [by intros [= <- <-]|].
  intros ([r1 d1] & E1 & E2)%bind_Ret. apply save_index_data in E1. destruct r1; [|injection E2 as <- <-; done].
  apply IH in E2. by eapply data_same_trans.
Qed.

Lemma flush_data io b m d r m' d' : Index.flush_updates_for_bucket io b m d = Ret (r, m', d') -> data_same d d'.
Proof.
  unfold Index.flush_updates_for_bucket. destruct (bt_get _ _) as [f|]; [|by intros [= <- <- <-]].
  destruct (_ =? _)%nat; [by intros [= <- <- <-]|]. intros ([r1 d1] & E1 & E2)%bind_Ret. injection E2 as <- <- <-.
  by apply save_index_data in E1.
Qed.

Lemma flush_list_data io bs m d r m' d' : Index.flush_list io bs m d = Ret (r, m', d') -> data_same d d'.
Proof.
  revert m d. induction bs as [|b bs IH]; intros m d; cbn [Index.flush_list]; [by intros [= <- <- <-]|].
  intros ([[r1 m1] d1] & E1 & E2)%bind_Ret. apply flush_data in E1. destruct r1; [|injection E2 as <- <- <-; done].
  apply IH in E2. by eapply data_same_trans.
Qed.

Lemma add_entry_data io m k a o s d r m' d' : Index.add_entry io m k a o s d = Ret (r, m', d') -> data_same d d'.
Proof.
  unfold Index.add_entry. destruct (bt_get _ (Index.indices (match _ with Some _ => _ | None => _ end))) as [f|]; [|done].
  destruct (Index.append_to _ _ _ _) as [[] m1]; [by intros [= <- <- <-]|].
  intros ([[r1 m2] d1] & E1 & E2)%bind_Ret. apply flush_data in E1. destruct r1; [|injection E2 as <- <- <-; done].
  destruct (bt_get _ _); [|done]. destruct (Index.append_to _ _ _ _) as [[] ?]; injection E2 as <- <- <-; done.
Qed.

Lemma save_all_ret io m d :
  manager_ok m -> exists r d', Index.save_all io m d = Ret (r, d') /\ data_same d d'.
Proof.
  intros Hm. assert (exists r d', Index.save_all io m d = Ret (r, d')) as (r & d' & E).
  { unfold Index.save_all. assert (forall id f, (id, f) ∈ Index.indices m -> IndexImage.std_header (IndexFile.header f)) as Hh.
    { intros id f Hin. apply bt_get_In in Hin; [|apply Hm]. apply (mgr_indices m Hm id f Hin). }
    revert d. induction (Index.indices m) as [|[id f] l IH]; intros d; cbn [Index.save_list]; [eauto|].
    destruct (save_index_ret io id f d) as (r & d1 & -> & _); [apply (Hh id f); left|]. cbn [mbind outcome_bind].
    destruct r; [|eauto]. apply IH. intros. eapply Hh. right. done. }
  exists r, d'. split; [done|]. by apply save_list_data in E.
Qed.

(** ** Archives that an index entry can name *)

(** Identifiers below [N] and sizes that fit the location of an index entry, and what
    is written goes behind the segment header. *)
Record roomy (N : Z) (m : Archive.ArchiveManager) : Prop := {
  ro_archives : forall id a, Archive.archives m !! id = Some a -> id < N /\ Archive.size a <= Archive.MAX_ARCHIVE_SIZE;
  ro_positions : forall id pos, bt_get id (Archive.write_positions m) = Some pos -> 480 <= pos;
}.

Lemma roomy_write N m d id a off data content r m' d' :
  roomy N m -> Archive.archives m !! id = Some a -> write_result m d id a off data content (r, m', d') -> roomy N m'.
Proof.
  intros [H1 H2] Ha (c' & _ & _ & _ & [-> | [-> [_ Hmax]]] & _); [by split|]. split; [|exact H2].
  cbn [Archive.set_archive Archive.archives]. intros i b. rewrite lookup_insert. case_decide as E; [subst i|apply H1].
  intros [= <-]. cbn [Archive.size]. split; [|done]. by apply (H1 id a).
Qed.

Lemma roomy_position N m id pos : roomy N m -> 480 <= pos -> roomy N (Archive.set_position m id pos).
Proof.
  intros [H1 H2] Hp. split; [exact H1|]. intros i p. cbn [Archive.set_position Archive.write_positions]. rewrite positions_get.
  destruct (decide (i = id)); [by intros [= <-]|apply H2].
Qed.

Lemma roomy_create N md5 io id m d r m' d' :
  (forall x, is_array 16 (md5 x)) -> roomy N m -> id < N -> Archive.create_archive md5 io id m d = (r, m', d') -> roomy N m'.
Proof.
  intros Hmd Hr Hid. unfold Archive.create_archive. set (header := Segment.to_bytes _). assert (length header = 480%nat) as L.
  { unfold header. destruct (segment_header_codec (Segment.headers (Segment.generate id (md5 (Archive.base_path m)))) []) as [[L _] _];
      [reflexivity|by apply generated_headers_ok|exact L]. }
  destruct (Archive.create_ok io); cbn [negb]; [|by intros [= <- <- <-]].
  destruct (Archive.header_written io); [by intros [= <- <- <-]|]. unfold Archive.open_archive.
  rewrite disk_put, decide_True by done. rewrite L.
  destruct (Archive.open_ok io _), (Archive.stat_ok io _), (Archive.map_ok io _); cbn [negb]; try by intros [= <- <- <-].
  intros [= <- <- <-]. apply roomy_position; [|done]. apply roomy_position; [|done]. destruct Hr as [H1 H2]. split; [|exact H2].
  cbn [Archive.set_archive Archive.archives]. intros i b. rewrite lookup_insert. case_decide; [subst i|apply H1].
  intros [= <-]. done.
Qed.

Lemma select_small N m d needed :
  archives_ok m d -> roomy N m -> Z.of_nat (length (Archive.write_positions m)) < N ->
  Archive.select_archive_for_write_sized m needed < N.
Proof.
  intros Hok Hr Hn. pose proof (select_range m d needed Hok) as Hsel. unfold Archive.select_archive_for_write_sized in *.
  destruct (Archive.first_with_room _ _) as [id|] eqn:E; [|destruct (_ <? _); lia].
  apply first_with_room_open in E as [pos Hp].
  destruct Hok as [_ H2]. destruct (H2 id pos Hp) as [a Ha]. by apply (ro_archives N m Hr id a).
Qed.

Lemma entry_roomy N md5 io blte ekey m d r m' d' :
  (forall x, is_array 16 (md5 x)) -> archives_ok m d -> roomy N m -> Z.of_nat (length (Archive.write_positions m)) < N ->
  Archive.write_raw_content_with_ekey md5 io blte ekey m d = (r, m', d') ->
  roomy N m' /\ forall id off total, r = Ok (id, off, total) -> 480 <= off.
Proof.
  intros Hmd Hok Hr Hn. unfold Archive.write_raw_content_with_ekey. set (total := Z.of_nat _).
  destruct (2 ^ 32 <=? total) eqn:Et; [by intros [= <- <- <-]|]. apply Z.leb_gt in Et.
  set (id := Archive.select_archive_for_write_sized m total). pose proof (select_small N m d total Hok Hr Hn) as Hid. fold id in Hid.
  pose proof (select_range m d total Hok) as Hrange. fold id in Hrange.
  destruct (match Archive.archives m !! id with Some _ => _ | None => _ end) as [[r1 m1] d1] eqn:E1.
  assert (roomy N m1 /\ archives_ok m1 d1 /\ (r1 = Ok tt -> exists a, Archive.archives m1 !! id = Some a)) as (Hr1 & Hok1 & Ha1).
  { destruct (Archive.archives m !! id) as [a|] eqn:Ea; [injection E1 as <- <- <-; split_and!; try done; by exists a|].
    split; [by eapply roomy_create|].
    destruct (create_archive_spec md5 (fun x => proj1 (Hmd x)) (fun x => proj2 (Hmd x)) io id m d r1 m1 d1 Hok Ea Hrange E1) as ([X _] & _ & Y).
    split; [done|]. intros Er. destruct (Y Er) as (a & Ha & _). by exists a. }
  destruct r1 as [[]|e]; [|by intros [= <- <- <-]]. destruct (Ha1 eq_refl) as [a Ha].
  destruct (position_of m1 d1 id a Hok1 Ha) as (off & Hpos & Hoff & H63). rewrite Hpos. change (default 0 (Some off)) with off.
  pose proof (ro_positions N m1 Hr1 id off Hpos) as H480. set (data := LocalHeader.to_bytes _ ++ blte).
  destruct (Archive.write_to_archive io id off data m1 d1) as [[r2 m2] d2] eqn:E2.
  pose proof Hok1 as [A1 _]. destruct (A1 id a Ha) as [_ _ _ (content & Hc & _) _ _].
  pose proof (write_to_archive_spec io id off data m1 d1 a content Ha Hc ltac:(lia)) as Hw. rewrite E2 in Hw.
  pose proof (roomy_write N m1 d1 id a off data content r2 m2 d2 Hr1 Ha Hw) as Hr2.
  destruct r2 as [[]|e]; [|by intros [= <- <- <-]].
  assert (wrap64 (off + total) = off + total) as -> by (apply wrap_small; unfold in_u; lia).
  destruct (2 ^ 32 <=? off); intros [= <- <- <-]; (split; [apply roomy_position; [done|lia]|]); [done|].
  by intros ? ? ? [= <- <- <-].
Qed.

(** ** The segment header of a data file *)

Definition wide (h : Segment.SegmentHeader) : Prop :=
  length (Segment.headers h) = 16%nat /\ Forall (fun l => length (LocalHeader.encoding_key l) = 16%nat) (Segment.headers h).

Lemma wide_length h : wide h -> length (Segment.to_bytes h) = 480%nat.
Proof.
  intros [Hn Hk]. unfold Segment.to_bytes. change LocalHeader.LOCAL_HEADER_SIZE with 30%nat.
  assert (Forall (fun l => length (LocalHeader.to_bytes l) = 30%nat) (Segment.headers h)) as Hb.
  { eapply Forall_impl; [exact Hk|]. intros l Hl. cbv beta. rewrite LocalHeader.to_bytes_eq by done.
    rewrite !length_app, !length_to_le_bytes, Hl. done. }
  change Segment.SEGMENT_HEADER_SIZE with 480%nat.
  rewrite (copy_rows LocalHeader.to_bytes 30) by (done || (rewrite Hn; lia)). rewrite length_app, length_zeros, Hn.
  rewrite (length_concat_blocks 30), length_map, Hn by (by apply Forall_map). done.
Qed.

Lemma zeroed_wide : wide Segment.zeroed.
Proof. split; [done|]. apply (bool_decide_unpack _). by vm_compute. Qed.

Lemma parsed_wide data h : Segment.from_bytes data = Some h -> wide h.
Proof.
  unfold Segment.from_bytes. destruct (_ <? _)%nat; [done|]. intros E%(inj Some). subst h. split; cbn [Segment.headers].
  - by rewrite length_imap.
  - apply Forall_lookup. intros i l. rewrite list_lookup_imap. destruct (Segment.zeroed_headers !! i) as [z|] eqn:Ez; [|done].
    intros [= <-]. destruct (LocalHeader.from_bytes _) as [p|] eqn:Ep.
    + unfold LocalHeader.from_bytes in Ep. destruct (_ <? _)%nat eqn:El; [done|]. apply Nat.ltb_ge in El.
      apply (inj Some) in Ep. subst p. cbn [LocalHeader.encoding_key]. change LocalHeader.LOCAL_HEADER_SIZE with 30%nat in El |- *.
      rewrite length_slice by lia. done.
    + pose proof zeroed_wide as [_ H]. rewrite Forall_lookup in H. by apply (H i).
Qed.

Lemma set_bucket_wide h b l : wide h -> length (LocalHeader.encoding_key l) = 16%nat -> wide (Segment.set_bucket_header h b l).
Proof.
  intros [Hn Hk] Hl. split; cbn [Segment.set_bucket_header Segment.headers]; [by rewrite length_insert|].
  by apply Forall_insert.
Qed.

(** ** The container *)

Import Dynamic.

Record dynamic_ok (c : DynamicContainer) (d : disk) : Prop := {
  dy_index : manager_ok (index c);
  dy_archives : archives_ok (archive c) d;
  dy_roomy : roomy 1024 (archive c);
  dy_lru : match lru c with Some l => exists s, Lru.abs l s | None => True end;
}.

Lemma touch_ok c d k :
  dynamic_ok c d -> exists c', touch c k = Ret c' /\ dynamic_ok c' d /\ index c' = index c /\ archive c' = archive c /\
    access_mode c' = access_mode c.
Proof.
  intros [H1 H2 H3 H4]. unfold touch. destruct (lru c) as [l|] eqn:E.
  - destruct H4 as [s Hs]. destruct (Lru.touch_refines l s (take 9 k) Hs) as (l' & -> & Hl'). cbn [mbind outcome_bind].
    eexists. split; [done|]. split; [|done]. split; cbn [with_lru set_parts index archive lru]; try done. by eexists.
  - exists c. split; [done|]. split; [split|]; try done. by rewrite E.
Qed.

(** A change of the index files only. *)
Lemma dynamic_data c d d' : dynamic_ok c d -> data_same d d' -> dynamic_ok c d' /\ keeps (archive c) d (archive c) d'.
Proof.
  intros [H1 H2 H3 H4] Hd. assert (keeps (archive c) d (archive c) d') as Hk.
  { apply keeps_frame; [done|]. intros id a Ha. apply Hd. destruct H2 as [A _]. destruct (A id a Ha) as [_ -> _ _ _ _].
    apply data_not_index_name. }
  split; [|done]. split; try done. apply Hk.
Qed.

(** The segment header is below every entry. *)
Lemma header_update_ok io c d id off total key r c' d' :
  dynamic_ok c d -> is_array 16 key -> is_Some (Archive.archives (archive c) !! id) ->
  update_segment_header io c d id off total key = (r, c', d') ->
  dynamic_ok c' d' /\ index c' = index c /\ access_mode c' = access_mode c /\
  (forall i o s, stored (archive c) i o s -> stored (archive c') i o s) /\
  forall i o s, stored (archive c) i o s -> 480 <= o -> Archive.read_raw (archive c') d' i o s = Archive.read_raw (archive c) d i o s.
Proof.
  intros [H1 H2 H3 H4] Hk [a Ha]. unfold update_segment_header.
  destruct (_ <=? off); [|intros [= <- <- <-]; split; [by split|done]].
  set (h := Segment.set_bucket_header _ _ _). assert (length (Segment.to_bytes h) = 480%nat) as Lh.
  { apply wide_length, set_bucket_wide; [|done]. unfold Archive.read_segment_header.
    destruct (Archive.read_raw _ _ _ _ _) as [data|]; [|apply zeroed_wide].
    destruct (Segment.from_bytes data) as [p|] eqn:Ep; [by eapply parsed_wide|apply zeroed_wide]. }
  unfold Archive.write_segment_header.
  destruct (Archive.write_to_archive (header_io io) id 0 (Segment.to_bytes h) (archive c) d) as [[r1 a1] d1] eqn:E.
  intros [= <- <- <-]. pose proof H2 as [A1 _]. destruct (A1 id a Ha) as [_ _ _ (content & Hc & _) _ _].
  pose proof (write_to_archive_spec (header_io io) id 0 (Segment.to_bytes h) (archive c) d a content Ha Hc ltac:(lia)) as Hw.
  rewrite E in Hw. destruct (write_result_ok _ _ _ _ _ _ _ _ _ _ H2 Ha Hc Hw) as [Hok' Hwp].
  split; [split; try done; by eapply roomy_write|]. split; [done|]. split; [done|]. cbn [with_archive set_parts archive]. split.
  - unfold stored. by rewrite Hwp.
  - intros i o s Hst Ho. apply (write_result_reads _ _ id a 0 (Segment.to_bytes h) content r1 _ _ i o s H2 Ha Hc ltac:(lia) Hw Hst).
    right. right. rewrite Lh. lia.
Qed.

Lemma lookup_prefix m k k' : (9 <= length k)%nat -> (9 <= length k')%nat -> take 9 k = take 9 k' -> Index.lookup m k = Index.lookup m k'.
Proof.
  intros H H' E. unfold Index.lookup. rewrite !truncate_take by done. rewrite <- (bucket_truncate k), <- (bucket_truncate k') by done.
  by rewrite E.
Qed.

Lemma status_same m k st :
  manager_ok m -> is_array 16 k -> st <> Update.Delete ->
  let m' := snd (Index.update_entry_status m k st) in
  manager_ok m' /\ forall k', (9 <= length k')%nat -> Index.lookup m' k' = Index.lookup m k'.
Proof.
  intros Hm Hk Hst. pose proof (update_entry_spec m k 0 0 0 st Hm Hk ltac:(decide_now) ltac:(decide_now)) as H.
  destruct (Index.update_entry m k 0 0 0) as [ok1 m1], (Index.update_entry_status m k st) as [ok2 m2].
  destruct H as (_ & Hm2 & _ & _ & _ & Hl). cbn [snd]. split; [done|]. intros k' Hk'. destruct ok2; [|by apply Hl].
  rewrite (Hl k') by done. rewrite (bool_decide_false (st = Update.Delete)) by done. destruct (bool_decide (take 9 k' = take 9 k)) eqn:E; [apply bool_decide_eq_true in E|done]. destruct Hk. apply lookup_prefix; [lia|done|done].
Qed.

(** Marking a span changes no location. *)
Lemma mark_entry_ok c d k o n :
  dynamic_ok c d -> is_array 16 k ->
  let c' := mark_entry_non_resident c k o n in
  dynamic_ok c' d /\ archive c' = archive c /\ access_mode c' = access_mode c /\
  forall k', (9 <= length k')%nat -> Index.lookup (index c') k' = Index.lookup (index c) k'.
Proof.
  intros [H1 H2 H3 H4] Hk. destruct (status_same (index c) k Update.DataNonResident H1 Hk ltac:(done)) as [Hm Hl].
  split; [by split|]. split; [done|]. split; [done|]. exact Hl.
Qed.

Lemma reclaim_ok c d id off n c' :
  dynamic_ok c d -> reclaim c id off n = Ret c' ->
  dynamic_ok c' d /\ archive c' = archive c /\ index c' = index c /\ access_mode c' = access_mode c.
Proof.
  intros Hc. unfold reclaim. destruct (free_space_reclaim c); [|by intros [= <-]].
  intros (s & _ & E)%bind_Ret. injection E as <-. destruct Hc as [H1 H2 H3 H4]. split; [by split|]. done.
Qed.

Lemma take_while_length {A} (p : A -> bool) l : (length (Segment.take_while p l) <= length l)%nat.
Proof. induction l as [|x l IH]; simpl; [lia|]. destruct (p x); simpl; lia. Qed.

Lemma vec_get_below {A} (v : list A) n : (n < length v)%nat -> exists x, vec_get v (Z.of_nat n) = Ret x /\ v !! n = Some x.
Proof. intros H. destruct (lookup_lt_is_Some_2 v n H) as [x Hx]. exists x. split; [by apply vec_get_nat|done]. Qed.

(** The indices of [FreeList::insert] are in range, whatever the list. *)
Lemma insert_returns o n l : exists l', Segment.insert o n l = Ret l'.
Proof.
  unfold Segment.insert. destruct (n =? 0); [by eexists|]. unfold Segment.partition_point.
  pose proof (take_while_length (fun s => Segment.offset s <? o) l) as Hp. set (pos := length _) in *.
  pose proof (take_while_length (fun s => Segment.offset s <=? Z.min (o + n) Segment.u32_MAX) (drop pos l)) as Hr. rewrite length_drop in Hr.
  set (right := Segment.take_while _ (drop pos l)) in *.
  assert (exists ms, (if (0 <? pos)%nat then left ← vec_get l (Z.of_nat (pos - 1));
     Ret (if o <=? Segment.span_end left then (pos - 1)%nat else pos) else Ret pos) = Ret ms /\ (ms <= pos)%nat) as (ms & -> & Hms).
  { destruct (0 <? pos)%nat eqn:E; [|by exists pos; split; [|lia]]. apply Nat.ltb_lt in E.
    destruct (vec_get_below l (pos - 1)) as (x & -> & _); [lia|]. simpl. destruct (_ <=? _); eexists; (split; [done|lia]). }
  cbn [mbind outcome_bind]. destruct (ms <? pos + length right)%nat eqn:E; [|by eexists]. apply Nat.ltb_lt in E.
  destruct (vec_get_below l ms) as (x & -> & Hx); [lia|]. cbn [mbind outcome_bind].
  destruct (vec_get_below l (pos + length right - 1)) as (y & -> & _); [lia|]. cbn [mbind outcome_bind].
  rewrite (vec_modify_nat l ms x) by done. cbn [mbind outcome_bind]. by eexists.
Qed.

Lemma free_span_returns g o n a : exists a', Segment.free_span g o n a = Ret a'.
Proof.
  unfold Segment.free_span, Segment.grow_free_lists. set (fls := _ ++ _).
  assert (Z.to_nat g < length fls)%nat as Hg by (unfold fls; rewrite length_app, length_replicate; lia).
  destruct (lookup_lt_is_Some_2 fls (Z.to_nat g) Hg) as [l Hl]. rewrite (vec_get_Some fls g l Hl). simpl.
  destruct (insert_returns o n l) as [l' ->]. simpl. unfold vec_modify. rewrite Hl. simpl. by eexists.
Qed.

Lemma reclaim_returns c id off n : exists c', reclaim c id off n = Ret c'.
Proof.
  unfold reclaim. destruct (free_space_reclaim c); [|by eexists].
  destruct (free_span_returns id off n (segment_allocator c)) as [s ->]. by eexists.
Qed.

Section Codecs.

Context (md5 : bytes -> bytes).
Context (zlib_compress : bytes -> option bytes) (zlib_reads : bytes -> list bytes * bool).
Context (lz4_compress : bytes -> bytes) (lz4_compress_with_dict : bytes -> bytes -> bytes).
Context (lz4_decompress_with_dict : bytes -> nat -> bytes -> option bytes).
Hypothesis md5_array : forall x, is_array 16 (md5 x).

Notation write := (Dynamic.write md5 zlib_compress lz4_compress lz4_compress_with_dict).
Notation read := (Dynamic.read zlib_reads lz4_decompress_with_dict).
Notation read_entry := (read_entry zlib_reads lz4_decompress_with_dict).
Notation encode data := (Archive.compress_blte_with_mode zlib_compress lz4_compress lz4_compress_with_dict data Blte.None_).

Lemma read_entry_raw m d m' d' e :
  (let '(id, off, size) := entry_location e in Archive.read_raw m' d' id off size = Archive.read_raw m d id off size) ->
  read_entry m' d' e = read_entry m d e.
Proof. unfold DynamicContainer.read_entry, Archive.read_content. destruct (entry_location e) as [[id off] size]. by intros ->. Qed.

(** An entry whose bytes lie in the written part of an archive, behind its header,
    and decode to [x]. *)
Definition entry_holds (m : Archive.ArchiveManager) (d : disk) (e : Entry.IndexEntry) (x : bytes) : Prop :=
  read_entry m d e = Ret (Ok x) /\ let '(id, off, size) := entry_location e in stored m id off size /\ 480 <= off.

Definition preserves (m : Archive.ArchiveManager) (d : disk) (m' : Archive.ArchiveManager) (d' : disk) : Prop :=
  forall e x, entry_holds m d e x -> entry_holds m' d' e x.

Lemma preserves_intro m d m' d' :
  (forall i o s, stored m i o s -> stored m' i o s) ->
  (forall i o s, stored m i o s -> 480 <= o -> Archive.read_raw m' d' i o s = Archive.read_raw m d i o s) ->
  preserves m d m' d'.
Proof.
  intros Hs Hr e x [Hx Hst]. unfold entry_holds. destruct (entry_location e) as [[id off] size] eqn:Ee. destruct Hst as [Hst Ho].
  split; [|by split; [apply Hs|]]. rewrite <- Hx. apply read_entry_raw. rewrite Ee. by apply Hr.
Qed.

Lemma preserves_trans m1 d1 m2 d2 m3 d3 : preserves m1 d1 m2 d2 -> preserves m2 d2 m3 d3 -> preserves m1 d1 m3 d3.
Proof. unfold preserves. eauto. Qed.

(** The content of key [k] is [x]. *)
Definition holds (c : DynamicContainer) (d : disk) (k x : bytes) : Prop :=
  exists e, Index.lookup (index c) k = Some e /\ entry_holds (archive c) d e x.

Lemma holds_keep c d c' d' k x :
  holds c d k x -> Index.lookup (index c') k = Index.lookup (index c) k -> preserves (archive c) d (archive c') d' -> holds c' d' k x.
Proof. intros (e & He & Hx) El Hp. exists e. rewrite El. auto. Qed.

Lemma data_preserves c d d' : dynamic_ok c d -> data_same d d' -> dynamic_ok c d' /\ preserves (archive c) d (archive c) d'.
Proof.
  intros Hc Hd. destruct (dynamic_data c d d' Hc Hd) as [Hc' [_ Hk]]. split; [done|]. apply preserves_intro; [done|].
  intros i o s Hst _. by apply Hk.
Qed.

(** What writing content into the archives does. *)
Lemma write_content_spec io data m d r m' d' :
  archives_ok m d -> roomy 1024 m -> Z.of_nat (length (Archive.write_positions m)) < 1024 ->
  Archive.write_content md5 zlib_compress lz4_compress lz4_compress_with_dict io data false m d = (r, m', d') ->
  keeps m d m' d' /\ (forall i o s, stored m i o s -> stored m' i o s) /\ roomy 1024 m' /\
  forall id off total key, r = Ok (id, off, total, key) ->
    stored m' id off total /\ 480 <= off /\ Entry.loc_ok {| Entry.archive_id := id; Entry.archive_offset := off |} /\ u32 total /\
    exists blte, encode data = Ok blte /\ key = md5 blte.
Proof.
  intros Hok Hr Hn. unfold Archive.write_content, Archive.write_content_with_mode.
  destruct (encode data) as [blte|e] eqn:Ec; [|intros [= <- <- <-]; by split_and!].
  unfold Archive.write_raw_content.
  destruct (Archive.write_raw_content_with_ekey md5 io blte (md5 blte) m d) as [[r1 m1] d1] eqn:E. intros [= <- <- <-].
  destruct (write_entry_spec md5 (fun x => proj1 (md5_array x)) (fun x => proj2 (md5_array x)) io blte (md5 blte) m d r1 m1 d1 Hok (md5_array _) E)
    as (Hk & Hs & Hw).
  destruct (entry_roomy 1024 md5 io blte (md5 blte) m d r1 m1 d1 md5_array Hok Hr Hn E) as [Hr1 H480]. split; [done|]. split; [done|]. split; [done|].
  destruct r1 as [[[id off] total]|e]; [|done]. intros ? ? ? ? [= <- <- <- <-].
  destruct (Hw id off total eq_refl) as (Et & Ht & Hid & Hoff & Hst & _). pose proof (H480 _ _ _ eq_refl) as H. split; [done|]. split; [done|].
  split; [|split; [unfold in_u; lia|by exists blte]].
  destruct Hk as [[A1 A2] _]. destruct Hst as (_ & _ & pos & Hp & Hle). destruct (A2 id pos Hp) as [a Ha].
  destruct (A1 id a Ha) as [_ _ _ _ (pos' & Hp' & Hpr) _]. rewrite Hp in Hp'. injection Hp' as <-.
  destruct (ro_archives 1024 m1 Hr1 id a Ha) as [Hid' Hsz]. unfold Archive.MAX_ARCHIVE_SIZE, Segment.SEGMENT_SIZE in Hsz.
  split; unfold in_u; cbn [Entry.archive_id Entry.archive_offset]; lia.
Qed.

(** Reading a key that is held gives its content, as much as the buffer takes. *)
Lemma read_holds c d k x offset len buf :
  dynamic_ok c d -> holds c d k x -> Containers.can_read (access_mode c) = true ->
  exists c', read c d k offset len buf = Ret (Ok (fst (fill x buf)), snd (fill x buf), c') /\ dynamic_ok c' d /\
    index c' = index c /\ archive c' = archive c.
Proof.
  intros Hc (e & He & [Hx _]) Hm. unfold Dynamic.read. rewrite Hm. cbn [negb]. rewrite He.
  destruct (entry_location e) as [[id off] size]. rewrite Hx. cbn [mbind outcome_bind].
  destruct (touch_ok c d k Hc) as (c' & -> & Hc' & Hi & Ha & _). cbn [mbind outcome_bind].
  exists c'. unfold fill. done.
Qed.

Lemma add_entry_ok io c d k id off total :
  dynamic_ok c d -> is_array 16 k -> Entry.loc_ok {| Entry.archive_id := id; Entry.archive_offset := off |} -> u32 total ->
  exists r i d', Index.add_entry io (index c) k id off total d = Ret (r, i, d') /\
    dynamic_ok (with_index c i) d' /\ preserves (archive c) d (archive c) d' /\
    match r with Ok _ => updated (index c) i k (Some (Entry.new (take 9 k) id off total)) | Err _ => unchanged (index c) i end.
Proof.
  intros Hc Hk Hloc Hs. destruct (add_entry_spec io (index c) k id off total d (dy_index c d Hc) Hk Hloc Hs) as (r & i & d' & E & Hi & Hr).
  exists r, i, d'. split; [done|]. destruct (data_preserves c d d' Hc (add_entry_data _ _ _ _ _ _ _ _ _ _ E)) as [[H1 H2 H3 H4] Hp].
  split; [by split|]. split; [done|]. destruct r; [done|]. by destruct Hr.
Qed.

Lemma save_all_ok io c d :
  dynamic_ok c d -> exists r d', Index.save_all io (index c) d = Ret (r, d') /\ dynamic_ok c d' /\ preserves (archive c) d (archive c) d'.
Proof.
  intros Hc. destruct (save_all_ret io (index c) d (dy_index c d Hc)) as (r & d' & E & Hd). exists r, d'. split; [done|].
  by apply data_preserves.
Qed.

(** The part of [write] behind the archive: index, header, LRU and index files. *)
Lemma write_rest io c d key data r a d1 :
  dynamic_ok c d -> Containers.can_write (access_mode c) = true ->
  Z.of_nat (length (Archive.write_positions (archive c))) < 1024 ->
  Archive.write_content md5 zlib_compress lz4_compress lz4_compress_with_dict (archive_io io) data false (archive c) d = (r, a, d1) ->
  exists r' c' d', write io c d key data = Ret (r', c', d') /\ dynamic_ok c' d' /\ access_mode c' = access_mode c /\
    preserves (archive c) d (archive c') d' /\ preserves a d1 (archive c') d' /\
    match r with
    | Err e => r' = Err e /\ index c' = index c
    | Ok (id, off, total, k) =>
        updated (index c) (index c') k (Some (Entry.new (take 9 k) id off total)) \/
        unchanged (index c) (index c') /\ exists e, r' = Err e
    end.
Proof.
  intros Hc Hm Hn E. destruct (write_content_spec (archive_io io) data (archive c) d r a d1 (dy_archives c d Hc) (dy_roomy c d Hc) Hn E)
    as ([Hok1 Hk1] & Hs1 & Hr1 & Hw).
  assert (dynamic_ok (with_archive c a) d1) as Hc1 by (destruct Hc as [H1 H2 H3 H4]; by split).
  assert (preserves (archive c) d a d1) as P1 by (apply preserves_intro; [done|intros; by apply Hk1]).
  unfold Dynamic.write. rewrite Hm, E. cbn [negb]. destruct r as [[[[id off] total] k]|e].
  2: { eexists _, _, _. split; [done|]. split; [exact Hc1|]. split; [done|]. split; [done|]. split; [by intros ? ?|done]. }
  destruct (Hw id off total k eq_refl) as (Hst & H480 & Hloc & Hu & blte & Hblte & Hkey).
  assert (is_array 16 k) as Hk16 by (subst k; apply md5_array).
  destruct (add_entry_ok (index_io io) (with_archive c a) d1 k id off total Hc1 Hk16 Hloc Hu) as (r2 & i & d2 & -> & Hc2 & P2 & Hi).
  cbn [mbind outcome_bind]. cbn [with_archive set_parts index archive] in Hi, P2.
  destruct r2 as [[]|e].
  2: { eexists _, _, _. split; [done|]. split; [exact Hc2|]. split; [done|]. split; [by eapply preserves_trans|]. split; [done|]. right. eauto. }
  set (c2 := with_index (with_archive c a) i) in *.
  destruct (update_segment_header io c2 d2 id off total k) as [[r3 c3] d3] eqn:E3.
  assert (is_Some (Archive.archives (archive c2) !! id)) as Ha.
  { destruct (dy_archives c2 d2 Hc2) as [_ A2]. destruct Hst as (_ & _ & pos & Hp & _). by apply (A2 id pos). }
  destruct (header_update_ok io c2 d2 id off total k r3 c3 d3 Hc2 Hk16 Ha E3) as (Hc3 & Hi3 & Hm3 & Hs3 & Hr3).
  assert (preserves a d1 (archive c3) d3) as P3 by (eapply preserves_trans; [exact P2|by apply preserves_intro]).
  assert (updated (index c) (index c3) k (Some (Entry.new (take 9 k) id off total))) as Hup by (rewrite Hi3; exact Hi).
  destruct r3 as [[]|e].
  2: { eexists _, _, _. split; [done|]. split; [done|]. split; [exact Hm3|]. split; [by eapply preserves_trans|]. split; [done|by left]. }
  destruct (touch_ok c3 d3 k Hc3) as (c4 & -> & Hc4 & Hi4 & Ha4 & Hm4). cbn [mbind outcome_bind].
  destruct (save_all_ok (save_io io) c4 d3 Hc4) as (r5 & d5 & -> & Hc5 & P5). cbn [mbind outcome_bind].
  assert (preserves a d1 (archive c4) d5) as P6 by (eapply preserves_trans; [exact P3|]; by rewrite <- Ha4).
  eexists _, _, _. split; [done|]. split; [done|]. split; [by rewrite Hm4, Hm3|]. split; [by eapply preserves_trans|]. split; [done|].
  left. by rewrite Hi4.
Qed.

(** [write]: never a panic, the container stays well-formed, and contents under
    other keys stay; after a success the data is held under its encoding key. *)
Lemma write_spec io c d key data :
  dynamic_ok c d -> Containers.can_write (access_mode c) = true -> Z.of_nat (length (Archive.write_positions (archive c))) < 1024 ->
  exists r c' d', write io c d key data = Ret (r, c', d') /\ dynamic_ok c' d' /\ access_mode c' = access_mode c /\
    (forall k x, is_array 16 k -> (forall blte, encode data = Ok blte -> take 9 (md5 blte) <> take 9 k) ->
       holds c d k x -> holds c' d' k x) /\
    (codecs_ok md5 zlib_compress zlib_reads lz4_compress lz4_compress_with_dict lz4_decompress_with_dict ->
     Z.of_nat (length data) <= Blte.MAX_DECOMPRESSION_SIZE -> r = Ok tt ->
     exists blte, encode data = Ok blte /\ forall k, is_array 16 k -> take 9 k = take 9 (md5 blte) -> holds c' d' k data).
Proof.
  intros Hc Hm Hn.
  destruct (Archive.write_content md5 zlib_compress lz4_compress lz4_compress_with_dict (archive_io io) data false (archive c) d)
    as [[r a] d1] eqn:E.
  destruct (write_rest io c d key data r a d1 Hc Hm Hn E) as (r' & c' & d' & -> & Hc' & Hm' & P1 & P2 & Hr).
  destruct (write_content_spec (archive_io io) data (archive c) d r a d1 (dy_archives c d Hc) (dy_roomy c d Hc) Hn E) as (_ & _ & _ & Hw).
  exists r', c', d'. split; [done|]. split; [done|]. split; [done|]. destruct r as [[[[id off] total] key']|e].
  2: { destruct Hr as [-> Hi]. split; [|done]. intros k x _ _ Hh. eapply holds_keep; [exact Hh|by rewrite Hi|done]. }
  destruct (Hw id off total key' eq_refl) as (Hst & H480 & Hloc & Hu & blte & Hblte & Hkey). split.
  - intros k x [Lk Bk] Hne Hh. eapply holds_keep; [exact Hh| |done].
    destruct Hr as [Hup|[Hun _]]; [|apply Hun; lia]. rewrite (Hup k) by lia. rewrite bool_decide_false; [done|].
    intros Ek. apply (Hne blte Hblte). by rewrite <- Hkey.
  - intros Hcod Hlen Er. destruct Hr as [Hup|[_ [e Ee]]]; [|congruence].
    exists blte. split; [done|]. intros k [Lk Bk] Ek. exists (Entry.new (take 9 key') id off total). split.
    + rewrite (Hup k) by lia. rewrite bool_decide_true; [done|]. by rewrite Ek, Hkey.
    + apply P2. split; [|by split].
      unfold Archive.write_content in E. cbn [andb] in E.
      destruct (write_read_spec md5 zlib_compress zlib_reads lz4_compress lz4_compress_with_dict lz4_decompress_with_dict
        (archive_io io) data Blte.None_ (archive c) d id off total key' a d1 Hcod (fun x => proj2 (md5_array x)) ltac:(by left) Hlen
        (dy_archives c d Hc) E) as [Hread _]. exact Hread.
Qed.

(** ** Sequences of calls *)

(** A call that does not remove [k] and does not write content with its encoding
    key; any system call may fail. *)
Inductive dstep (k : bytes) : DynamicContainer * disk -> DynamicContainer * disk -> Prop :=
| dstep_write io c d key data r c' d' :
    Z.of_nat (length (Archive.write_positions (archive c))) < 1024 ->
    (forall blte, encode data = Ok blte -> take 9 (md5 blte) <> take 9 k) ->
    write io c d key data = Ret (r, c', d') -> dstep k (c, d) (c', d')
| dstep_remove io c d key r c' d' :
    is_array 16 key -> take 9 key <> take 9 k -> Dynamic.remove io c d key = Ret (r, c', d') -> dstep k (c, d) (c', d')
| dstep_read c d key offset len buf r buf' c' :
    is_array 16 key -> read c d key offset len buf = Ret (r, buf', c') -> dstep k (c, d) (c', d)
| dstep_span c d key offset length r c' :
    is_array 16 key -> remove_span c key offset length = Ret (r, c') -> dstep k (c, d) (c', d)
| dstep_flush io b c d r c' d' : flush_bucket io b c d = Ret (r, c', d') -> dstep k (c, d) (c', d')
| dstep_flush_all io c d r c' d' : flush_all_updates io c d = Ret (r, c', d') -> dstep k (c, d) (c', d').

Definition safe (k x : bytes) (s s' : DynamicContainer * disk) : Prop :=
  dynamic_ok (fst s') (snd s') /\ access_mode (fst s') = access_mode (fst s) /\
  (holds (fst s) (snd s) k x -> holds (fst s') (snd s') k x).

Lemma same_archive_safe k x c d c' :
  dynamic_ok c' d -> access_mode c' = access_mode c -> archive c' = archive c -> is_array 16 k ->
  (forall k', (9 <= length k')%nat -> Index.lookup (index c') k' = Index.lookup (index c) k') -> safe k x (c, d) (c', d).
Proof.
  intros Hc Hm Ha [Lk _] Hl. split; [done|]. split; [done|]. intros Hh. eapply holds_keep; [exact Hh|apply Hl; lia|].
  cbn [fst snd]. rewrite Ha. by intros ? ?.
Qed.

Lemma flushed_safe k x c d i d' :
  dynamic_ok c d -> manager_ok i -> data_same d d' -> (forall k', Index.lookup i k' = Index.lookup (index c) k') ->
  safe k x (c, d) (with_index c i, d').
Proof.
  intros Hc Hi Hd Hl. destruct (data_preserves c d d' Hc Hd) as [[H1 H2 H3 H4] Hp]. split; [by split|]. split; [done|].
  intros Hh. eapply holds_keep; [exact Hh|apply Hl|exact Hp].
Qed.

Lemma remove_safe k x io c d key r c' d' :
  dynamic_ok c d -> is_array 16 k -> is_array 16 key -> take 9 key <> take 9 k ->
  Dynamic.remove io c d key = Ret (r, c', d') -> safe k x (c, d) (c', d').
Proof.
  intros Hc [Lk Bk] Hkey Hne. unfold Dynamic.remove. destruct (Containers.can_write _); cbn [negb]; [|intros [= <- <- <-]; by split_and!].
  pose proof (remove_entry_spec (index c) key (dy_index c d Hc) Hkey) as H.
  destruct (Index.remove_entry (index c) key) as [found i]. destruct H as (_ & Hi & Hl).
  assert (Index.lookup i k = Index.lookup (index c) k) as El.
  { destruct (found && _); rewrite (Hl k) by lia; [|done]. by rewrite bool_decide_false. }
  assert (dynamic_ok (with_index c i) d) as Hc1 by (destruct Hc as [H1 H2 H3 H4]; by split).
  destruct found.
  - destruct (save_all_ok (save_io io) (with_index c i) d Hc1) as (r1 & d1 & -> & Hc2 & Hp). cbn [mbind outcome_bind].
    intros [= <- <- <-]. split; [done|]. split; [done|]. intros Hh. by eapply holds_keep.
  - intros [= <- <- <-]. split; [done|]. split; [done|]. intros Hh. eapply holds_keep; [exact Hh|done|by intros ? ?].
Qed.

Lemma read_safe k x c d key offset len buf r buf' c' :
  dynamic_ok c d -> is_array 16 k -> is_array 16 key -> read c d key offset len buf = Ret (r, buf', c') -> safe k x (c, d) (c', d).
Proof.
  intros Hc Hk Hkey. unfold Dynamic.read. destruct (Containers.can_read _); cbn [negb]; [|intros [= <- <- <-]; by split_and!].
  destruct (Index.lookup (index c) key) as [e|]; [|intros [= <- <- <-]; by split_and!].
  destruct (entry_location e) as [[id off] size]. intros (rd & _ & E)%bind_Ret. destruct rd as [data|err].
  - destruct (touch_ok c d key Hc) as (c1 & E1 & Hc1 & Hi & Ha & Hm). rewrite E1 in E. cbn [mbind outcome_bind] in E.
    injection E as <- <- <-. apply same_archive_safe; try done. intros k' _. by rewrite Hi.
  - destruct (beyond_bounds err); [|injection E as <- <- <-; by split_and!]. unfold handle_truncated_read in E.
    apply bind_Ret in E as (c1 & E1 & E). injection E as <- <- <-.
    destruct (mark_entry_ok c d key (Z.min off i32_MAX) (Z.min size i32_MAX) Hc Hkey) as (Hc2 & Ha2 & Hm2 & Hl2).
    destruct (reclaim_ok _ _ _ _ _ _ Hc2 E1) as (Hc3 & Ha3 & Hi3 & Hm3). apply same_archive_safe; try done; try congruence.
    intros k' Hk'. rewrite Hi3. by apply Hl2.
Qed.

Lemma span_safe k x c d key offset len r c' :
  dynamic_ok c d -> is_array 16 k -> is_array 16 key -> remove_span c key offset len = Ret (r, c') -> safe k x (c, d) (c', d).
Proof.
  intros Hc Hk Hkey. unfold remove_span. destruct (Containers.can_write _); cbn [negb]; [|intros [= <- <-]; by split_and!].
  destruct (Index.lookup (index c) key) as [e|]; [|intros [= <- <-]; by split_and!].
  destruct (entry_location e) as [[id off] size]. intros (c1 & E1 & E)%bind_Ret. injection E as <- <-.
  destruct (mark_entry_ok c d key (Z.min (Z.min (offset + 0x1E) (2 ^ 64 - 1)) i32_MAX) (Z.min len i32_MAX) Hc Hkey) as (Hc2 & Ha2 & Hm2 & Hl2).
  destruct (reclaim_ok _ _ _ _ _ _ Hc2 E1) as (Hc3 & Ha3 & Hi3 & Hm3). apply same_archive_safe; try done; try congruence.
  intros k' Hk'. rewrite Hi3. by apply Hl2.
Qed.

Lemma dstep_safe k x s s' :
  is_array 16 k -> dynamic_ok (fst s) (snd s) -> dstep k s s' -> safe k x s s'.
Proof.
  intros Hk Hc Hstep. destruct Hstep as [io c d key data r c' d' Hn Hne E|io c d key r c' d' Hkey Hne E|c d key offset len buf r buf' c' Hkey E
    |c d key offset len r c' Hkey E|io b c d r c' d' E|io c d r c' d' E]; cbn [fst snd] in Hc.
  - destruct (Containers.can_write (access_mode c)) eqn:Em.
    + destruct (write_spec io c d key data Hc Em Hn) as (r1 & c1 & d1 & E1 & Hc1 & Hm1 & Hold & _). rewrite E in E1.
      injection E1 as <- <- <-. split; [done|]. split; [done|]. by apply Hold.
    + unfold Dynamic.write in E. rewrite Em in E. injection E as <- <- <-. by split_and!.
  - by eapply remove_safe.
  - by eapply read_safe.
  - by eapply span_safe.
  - apply bind_Ret in E as ([[r1 i] d1] & E1 & E). injection E as <- <- <-.
    destruct (flush_spec (index_io io) b (index c) d (dy_index c d Hc)) as (r2 & m2 & d2 & E2 & Hm2 & Hl & _). rewrite E1 in E2.
    injection E2 as <- <- <-. apply (flushed_safe k x c d i d1); try done. by apply flush_data in E1.
  - apply bind_Ret in E as ([[r1 i] d1] & E1 & E). injection E as <- <- <-. unfold Index.flush_all_updates in E1.
    destruct (flush_list_spec (index_io io) (Index.indices (index c)).*1 (index c) d (dy_index c d Hc)) as (r2 & m2 & d2 & E2 & Hm2 & Hl).
    rewrite E1 in E2. injection E2 as <- <- <-. apply (flushed_safe k x c d i d1); try done. by apply flush_list_data in E1.
Qed.

Lemma dsteps_safe k x s s' :
  is_array 16 k -> dynamic_ok (fst s) (snd s) -> rtc (dstep k) s s' -> safe k x s s'.
Proof.
  intros Hk Hc Hrun. induction Hrun as [s|s s1 s2 Hstep Hrun IH]; [by split_and!|].
  destruct (dstep_safe k x s s1 Hk Hc Hstep) as (Hc1 & Hm1 & Hh1). destruct (IH Hc1) as (Hc2 & Hm2 & Hh2).
  split; [done|]. split; [congruence|]. auto.
Qed.

(** Every call of the sequences above returns, whatever its system calls do, except a
    read whose entry leads to bytes with a BLTE header of an unknown format byte. *)
Record calls_return (c : DynamicContainer) (d : disk) : Prop := {
  write_returns io key data :
    Z.of_nat (length (Archive.write_positions (archive c))) < 1024 -> exists out, write io c d key data = Ret out;
  remove_returns io key : is_array 16 key -> exists out, Dynamic.remove io c d key = Ret out;
  read_returns key offset len buf :
    is_array 16 key ->
    (exists out, read c d key offset len buf = Ret out) \/
    (exists e data x, Index.lookup (index c) key = Some e /\
      (let '(id, off, size) := entry_location e in Archive.read_raw (archive c) d id off size = Ok data) /\
      part_of x data /\ bad_flags x);
  remove_span_returns key offset len : is_array 16 key -> exists out, remove_span c key offset len = Ret out;
  flush_bucket_returns io b : exists out, flush_bucket io b c d = Ret out;
  flush_all_returns io : exists out, flush_all_updates io c d = Ret out;
}.

Lemma formats_panic data :
  Archive.decompress_blte_with_formats zlib_reads lz4_decompress_with_dict data = Panic -> exists x, part_of x data /\ bad_flags x.
Proof.
  intros E. apply (decode_panic zlib_reads lz4_decompress_with_dict). unfold Archive.decompress_blte_with_formats in E.
  destruct (Blte.parse data) as [[f|]|] eqn:Ep; simpl in E; [|done|by left]. right. exists f. split; [done|].
  by destruct (Blte.decompress zlib_reads lz4_decompress_with_dict f).
Qed.

Lemma part_of_drop n (x : bytes) : part_of (drop n x) x.
Proof. exists (take n x), []. by rewrite app_nil_r, take_drop. Qed.

Lemma read_entry_panic m d e :
  read_entry m d e = Panic ->
  exists data x, (let '(id, off, size) := entry_location e in Archive.read_raw m d id off size = Ok data) /\ part_of x data /\ bad_flags x.
Proof.
  unfold DynamicContainer.read_entry, Archive.read_content. destruct (entry_location e) as [[id off] size].
  destruct (Archive.read_raw m d id off size) as [data|]; simpl; [|done]. intros E. exists data.
  destruct (Archive.is_blte _ data).
  - apply formats_panic in E as (x & Hx & Hb). exists x. split; [done|]. split; [|done]. eapply part_of_trans; [exact Hx|apply part_of_drop].
  - destruct (Archive.is_blte 0 data); [|done]. apply formats_panic in E as (x & Hx & Hb). by exists x.
Qed.

Lemma read_returns_or c d key offset len buf :
  dynamic_ok c d ->
  (exists out, read c d key offset len buf = Ret out) \/
  (exists e data x, Index.lookup (index c) key = Some e /\
    (let '(id, off, size) := entry_location e in Archive.read_raw (archive c) d id off size = Ok data) /\
    part_of x data /\ bad_flags x).
Proof.
  intros Hc. unfold Dynamic.read. destruct (Containers.can_read _); cbn [negb]; [|left; by eexists].
  destruct (Index.lookup (index c) key) as [e|]; [|left; by eexists].
  destruct (read_entry (archive c) d e) as [r|] eqn:E.
  2: { right. apply read_entry_panic in E as (data & x & H). exists e, data, x. by split. }
  left. destruct (entry_location e) as [[id off] size]. simpl. destruct r as [data|err].
  - destruct (touch_ok c d key Hc) as (c1 & -> & _). simpl. by eexists.
  - destruct (beyond_bounds err); [|by eexists]. unfold handle_truncated_read.
    edestruct reclaim_returns as [c1 ->]. by eexists.
Qed.

Lemma dynamic_returns c d : dynamic_ok c d -> calls_return c d.
Proof.
  intros Hc. split.
  - intros io key data Hn. destruct (Containers.can_write (access_mode c)) eqn:Em.
    + destruct (write_spec io c d key data Hc Em Hn) as (r & c' & d' & -> & _). by eexists.
    + unfold Dynamic.write. rewrite Em. by eexists.
  - intros io key Hkey. unfold Dynamic.remove. destruct (Containers.can_write _); cbn [negb]; [|by eexists].
    pose proof (remove_entry_spec (index c) key (dy_index c d Hc) Hkey) as H.
    destruct (Index.remove_entry (index c) key) as [found i]. destruct H as (_ & Hi & _). destruct found; [|by eexists].
    assert (dynamic_ok (with_index c i) d) as Hc1 by (destruct Hc as [H1 H2 H3 H4]; by split).
    destruct (save_all_ok (save_io io) (with_index c i) d Hc1) as (r1 & d1 & -> & _). by eexists.
  - intros key offset len buf _. by apply read_returns_or.
  - intros key offset len _. unfold remove_span. destruct (Containers.can_write _); cbn [negb]; [|by eexists].
    destruct (Index.lookup (index c) key) as [e|]; [|by eexists]. destruct (entry_location e) as [[id off] size].
    edestruct reclaim_returns as [c1 ->]. by eexists.
  - intros io b. unfold flush_bucket.
    destruct (flush_spec (index_io io) b (index c) d (dy_index c d Hc)) as (r2 & m2 & d2 & -> & _). by eexists.
  - intros io. unfold flush_all_updates, Index.flush_all_updates.
    destruct (flush_list_spec (index_io io) (Index.indices (index c)).*1 (index c) d (dy_index c d Hc)) as (r2 & m2 & d2 & -> & _). by eexists.
Qed.

End Codecs.

(** ** Theorems *)

Lemma fill_eq x buf : fill x buf = (Nat.min (length x) (length buf), take (length buf) x ++ drop (length x) buf).
Proof.
  unfold fill, copy_at. f_equal. rewrite length_take, take_0. cbn [app Nat.add].
  destruct (Nat.le_ge_cases (length x) (length buf)) as [H|H].
  - rewrite Nat.min_l by lia. rewrite Nat.min_id, !take_ge by lia. done.
  - rewrite Nat.min_r by lia. rewrite Nat.min_l by lia. by rewrite !drop_ge by lia.
Qed.

(** C1: the container keeps what it wrote.  After a successful write of up to 1 GiB,
    and after any sequence of further calls that neither remove the key nor write
    other content with the same nine-byte key, with any of their system calls
    failing, the data is found and read back under its encoding key, the MD5 of the
    encoded data. *)
Theorem dynamic_write_read md5 zc zr lc lcd ld io c d key data c1 d1 :
  codecs_ok md5 zc zr lc lcd ld -> (forall x, is_array 16 (md5 x)) -> dynamic_ok c d ->
  Z.of_nat (length (Archive.write_positions (archive c))) < 1024 -> Z.of_nat (length data) <= Blte.MAX_DECOMPRESSION_SIZE ->
  Dynamic.write md5 zc lc lcd io c d key data = Ret (Ok tt, c1, d1) ->
  exists blte, Archive.compress_blte_with_mode zc lc lcd data Blte.None_ = Ok blte /\
  forall k c2 d2 offset len buf, is_array 16 k -> take 9 k = take 9 (md5 blte) ->
    rtc (dstep md5 zc zr lc lcd ld k) (c1, d1) (c2, d2) ->
    query c2 k = Ok true /\
    exists c3, Dynamic.read zr ld c2 d2 k offset len buf =
      Ret (Ok (Nat.min (length data) (length buf)), take (length buf) data ++ drop (length data) buf, c3).
Proof.
  intros Hcod Hmd Hc Hn Hlen E. destruct (Containers.can_write (access_mode c)) eqn:Em.
  2: { unfold Dynamic.write in E. by rewrite Em in E. }
  destruct (write_spec md5 zc zr lc lcd ld Hmd io c d key data Hc Em Hn) as (r & c' & d' & E1 & Hc1 & Hm1 & _ & Hnew).
  rewrite E in E1. injection E1 as <- <- <-. destruct (Hnew Hcod Hlen eq_refl) as (blte & Hblte & Hh).
  exists blte. split; [done|]. intros k c2 d2 offset len buf Hk Ek Hrun.
  destruct (dsteps_safe md5 zc zr lc lcd ld Hmd k data (c1, d1) (c2, d2) Hk Hc1 Hrun) as (Hc2 & Hm2 & Hkeep). cbn [fst snd] in *.
  pose proof (Hkeep (Hh k Hk Ek)) as Hh2. split.
  - destruct Hh2 as (e & He & _). unfold query, Index.has_entry. rewrite He. by rewrite bool_decide_true by eauto.
  - destruct (read_holds zr ld c2 d2 k data offset len buf Hc2 Hh2) as (c3 & -> & _).
    { rewrite Hm2, Hm1. by destruct (access_mode c). }
    exists c3. by rewrite fill_eq.
Qed.

(** C2: no call on other keys loses content, and none of them panics.  After every
    sequence of writes, removals, reads (with truncated archives and the freed space
    they give back), span removals and flushes, whatever system calls fail, the
    container is well-formed, a key that none of them removes or overwrites has kept
    its content, and each of these calls returns, with the one exception that the code
    has: a read whose entry leads to bytes with a BLTE header of an unknown format byte
    panics.  A container has less than 1024 archives when it is written to. *)
Theorem dynamic_keeps md5 zc zr lc lcd ld k x s s' :
  (forall x, is_array 16 (md5 x)) -> is_array 16 k -> dynamic_ok (fst s) (snd s) ->
  rtc (dstep md5 zc zr lc lcd ld k) s s' ->
  dynamic_ok (fst s') (snd s') /\
  (holds zr ld (fst s) (snd s) k x -> holds zr ld (fst s') (snd s') k x) /\
  calls_return md5 zc zr lc lcd ld (fst s') (snd s').
Proof.
  intros Hmd Hk Hc Hrun. destruct (dsteps_safe md5 zc zr lc lcd ld Hmd k x s s' Hk Hc Hrun) as (H1 & _ & H2).
  split; [done|]. split; [done|]. by apply dynamic_returns.
Qed.

Definition sample_dynamic : DynamicContainer :=
  match dynamic_new Containers.ReadWrite [47] false 100 Segment.SEGMENT_SIZE false with
  | Ok c => c
  | Err _ => {| access_mode := Containers.NoAccess; storage_path := []; shared_memory := false; read_only := false;
                segment_limit := 0; max_segment_size := 0; free_space_reclaim := false; path_hash := [];
                index := Index.manager_new; archive := Archive.manager_new [];
                segment_allocator := Segment.allocator_new [] 0; residency := None; lru := None; shmem := None |}
  end.

Lemma sample_dynamic_ok : dynamic_ok sample_dynamic [].
Proof.
  split; [apply manager_new_ok|apply archives_ok_new|split|done].
  - intros id a H. cbn in H. by rewrite lookup_empty in H.
  - done.
Qed.

Definition sample_io : Io :=
  {| mkdir_ok := true; index_io := io_all_ok; save_io := io_all_ok; archive_io := io_fine; header_io := io_fine;
     segment_io := {| Segment.read_dir := Segment.DirOk; Segment.stat_ok := fun _ => true; Segment.read_ok := fun _ => true;
                      Segment.write_ok := true; Segment.partial := None |};
     network := false; mapped := Err (SharedMemory "shm_open failed"); pid := 77 |}.

Lemma sample_write :
  exists c1 d1, Dynamic.write zero_md5 store_zlib store_lz4 store_lz4_dict sample_io sample_dynamic [] (zeros 16) [1; 2; 3] = Ret (Ok tt, c1, d1).
Proof.
  destruct (Dynamic.write zero_md5 store_zlib store_lz4 store_lz4_dict sample_io sample_dynamic [] (zeros 16) [1; 2; 3])
    as [[[r c1] d1]|] eqn:E.
  2: { apply (f_equal (fun o => match o with Ret _ => true | Panic => false end)) in E. by vm_compute in E. }
  assert (r = Ok tt) as ->; [|by exists c1, d1].
  apply (f_equal (fun o => match o with Ret (r, _, _) => r | Panic => Ok tt end)) in E. vm_compute in E. by rewrite <- E.
Qed.

Lemma zero_md5_array x : is_array 16 (zero_md5 x).
Proof. split; [done|apply zeros_bytes]. Qed.

Lemma dynamic_write_read_witness :
  exists c1 d1, Dynamic.write zero_md5 store_zlib store_lz4 store_lz4_dict sample_io sample_dynamic [] (zeros 16) [1; 2; 3] = Ret (Ok tt, c1, d1) /\
    query c1 (zeros 16) = Ok true /\
    exists c2, Dynamic.read store_reads store_decode c1 d1 (zeros 16) 0 0 (zeros 4) = Ret (Ok 3%nat, [1; 2; 3; 0], c2).
Proof.
  destruct sample_write as (c1 & d1 & E). exists c1, d1. split; [exact E|].
  destruct (dynamic_write_read zero_md5 store_zlib store_reads store_lz4 store_lz4_dict store_decode sample_io sample_dynamic [] (zeros 16) [1; 2; 3] c1 d1)
    as (blte & _ & H).
  - apply store_codecs_ok.
  - apply zero_md5_array.
  - apply sample_dynamic_ok.
  - by vm_compute.
  - unfold Blte.MAX_DECOMPRESSION_SIZE. simpl. lia.
  - exact E.
  - apply (H (zeros 16) c1 d1 0 0 (zeros 4)); [decide_now|done|apply rtc_refl].
Defined.

(** A digest that is good enough to tell two contents apart. *)
Definition first_bytes (x : bytes) : bytes := map wrap8 (take 16 (drop 9 x ++ zeros 16)).

Lemma first_bytes_array x : is_array 16 (first_bytes x).
Proof.
  unfold first_bytes. split.
  - rewrite length_map, length_take, length_app, length_zeros. lia.
  - apply Forall_map, Forall_forall. intros y _. apply wrap8_range.
Qed.

Lemma first_bytes_codecs_ok : codecs_ok first_bytes store_zlib store_reads store_lz4 store_lz4_dict store_decode.
Proof. destruct store_codecs_ok as [_ H2 H3 H4 H5 H6]. split; try done. intros d. apply first_bytes_array. Qed.

Notation sample_put c d data := (Dynamic.write first_bytes store_zlib store_lz4 store_lz4_dict sample_io c d (zeros 16) data).

Lemma sample_puts :
  exists c1 d1 c2 d2 c3 d3, sample_put sample_dynamic [] [1; 2; 3] = Ret (Ok tt, c1, d1) /\
    sample_put c1 d1 [4; 5] = Ret (Ok tt, c2, d2) /\ Dynamic.remove sample_io c2 d2 ([4; 5] ++ zeros 14) = Ret (Ok tt, c3, d3) /\
    Z.of_nat (length (Archive.write_positions (archive c1))) < 1024.
Proof.
  assert (match sample_put sample_dynamic [] [1; 2; 3] with
    | Ret (Ok _, c1, d1) =>
        match sample_put c1 d1 [4; 5] with
        | Ret (Ok _, c2, d2) =>
            match Dynamic.remove sample_io c2 d2 ([4; 5] ++ zeros 14) with
            | Ret (Ok _, _, _) => Z.of_nat (length (Archive.write_positions (archive c1))) <? 1024
            | _ => false
            end
        | _ => false
        end
    | _ => false
    end = true) as H by (by vm_compute).
  destruct (sample_put sample_dynamic [] [1; 2; 3]) as [[[[[]|] c1] d1]|]; [|discriminate H..].
  destruct (sample_put c1 d1 [4; 5]) as [[[[[]|] c2] d2]|] eqn:E2; [|discriminate H..].
  destruct (Dynamic.remove sample_io c2 d2 ([4; 5] ++ zeros 14)) as [[[[[]|] c3] d3]|] eqn:E3; [|discriminate H..].
  exists c1, d1, c2, d2, c3, d3. split_and!; [reflexivity|exact E2|exact E3|by apply Z.ltb_lt].
Qed.

(** The first content is held and stays held while another one is written and removed. *)
Lemma dynamic_keeps_witness :
  exists c1 d1 c3 d3, let k := [1; 2; 3] ++ zeros 13 in
    holds store_reads store_decode c1 d1 k [1; 2; 3] /\
    dynamic_ok c3 d3 /\ holds store_reads store_decode c3 d3 k [1; 2; 3] /\
    calls_return first_bytes store_zlib store_reads store_lz4 store_lz4_dict store_decode c3 d3.
Proof.
  destruct sample_puts as (c1 & d1 & c2 & d2 & c3 & d3 & E1 & E2 & E3 & Hn). exists c1, d1, c3, d3. intros k.
  destruct (write_spec first_bytes store_zlib store_reads store_lz4 store_lz4_dict store_decode first_bytes_array
    sample_io sample_dynamic [] (zeros 16) [1; 2; 3] sample_dynamic_ok) as (r & c & d & E & Hc1 & _ & _ & Hnew); [by vm_compute..|].
  rewrite E1 in E. injection E as <- <- <-.
  destruct (Hnew first_bytes_codecs_ok ltac:(unfold Blte.MAX_DECOMPRESSION_SIZE; simpl; lia) eq_refl) as (blte & Hb & Hh).
  injection Hb as <-. pose proof (Hh k ltac:(decide_now) eq_refl) as H1. split; [exact H1|].
  destruct (dynamic_keeps first_bytes store_zlib store_reads store_lz4 store_lz4_dict store_decode k [1; 2; 3] (c1, d1) (c3, d3))
    as (Hc3 & Hkeep & Hret).
  - apply first_bytes_array.
  - decide_now.
  - exact Hc1.
  - apply rtc_l with (c2, d2); [|apply rtc_once].
    + eapply dstep_write; [exact Hn| |exact E2]. by intros ? [= <-].
    + eapply dstep_remove; [| |exact E3]; [decide_now|done].
  - split; [exact Hc3|]. split; [exact (Hkeep H1)|exact Hret].
Defined.

(** ** Where the code differs from what it documents *)

(** The key given to [write] is not used: the content is found under the MD5 of the
    encoded data only. *)
Theorem write_ignores_key md5 zc lc lcd io c d key key' data :
  Dynamic.write md5 zc lc lcd io c d key data = Dynamic.write md5 zc lc lcd io c d key' data.
Proof. done. Qed.

(** The offset and the length given to [read] are not used: it always reads from the
    start of the content, as much as the buffer takes. *)
Theorem read_ignores_range zr ld c d key offset len offset' len' buf :
  Dynamic.read zr ld c d key offset len buf = Dynamic.read zr ld c d key offset' len' buf.
Proof. done. Qed.

(** The reconstruction header that a write leaves in slot [b] of its archive is made
    for offset 0, not for the place it is written to: its checksums do not validate
    there. *)
Theorem bucket_header_checksum :
  let h := LocalHeader.new (replicate 16 7) 100 0 1 in
  LocalHeader.validate_checksums h 0 = true /\ LocalHeader.validate_checksums h 30 = false.
Proof. by vm_compute. Qed.

Definition read_all (c : DynamicContainer) (d : disk) (k : bytes) (n : nat) : option bytes :=
  match Dynamic.read store_reads store_decode c d k 0 0 (zeros n) with
  | Ret (Ok n, buf, _) => Some (take n buf)
  | _ => None
  end.

(** A data file shorter than a segment header, left by a creation that was cut short,
    is opened and written behind its end.  The first entry lies where the header
    should be; the second write is past the header size, updates the header, and
    destroys the first entry. *)
Theorem header_overwrites_entry :
  let d := [(Segment.segment_data_name 0, zeros 10)] in
  match Dynamic.open sample_io sample_dynamic d with
  | Ret (Ok _, c, _) =>
      match Dynamic.write first_bytes store_zlib store_lz4 store_lz4_dict sample_io c d (zeros 16) (replicate 600 1) with
      | Ret (Ok _, c1, d1) =>
          read_all c1 d1 (replicate 16 1) 600 = Some (replicate 600 1) /\
          match Dynamic.write first_bytes store_zlib store_lz4 store_lz4_dict sample_io c1 d1 (zeros 16) [2] with
          | Ret (Ok _, c2, d2) => read_all c2 d2 (replicate 16 1) 600 <> Some (replicate 600 1)
          | _ => False
          end
      | _ => False
      end
  | _ => False
  end.
Proof. by vm_compute. Qed.
