(* ===== verification/DynamicRestart.v ===== *)
(** * Restart of the dynamic container

    After a successful write the directory holds everything: a new container that
    opens it has the content of every key. *)

From S2P Require Import Prelude Bytes Disk Collections IndexEntry UpdateSection IndexFile Index IndexImage IndexTheorems.
From S2P Require Import LocalHeader Segment SegmentTheorems Compaction CompactionTheorems Lru KeyState ResidencyContainer.
From S2P Require Import Ciphers Blte BlteTheorems ArchiveFile ArchiveTheorems Shmem DynamicContainer DynamicTheorems.
Import Dynamic.
Local Open Scope Z_scope.

(** ** The names in a directory *)

(** The names of [d'] are those of [d] and some that satisfy [S], each once. *)
Definition grows (S : bytes -> Prop) (d d' : disk) : Prop :=
  (NoDup d.*1 -> NoDup d'.*1) /\ forall n, n ∈ d'.*1 -> n ∈ d.*1 \/ S n.

Lemma grows_refl S d : grows S d d.
Proof. split; auto. Qed.

Lemma grows_trans (S : bytes -> Prop) d1 d2 d3 : grows S d1 d2 -> grows S d2 d3 -> grows S d1 d3.
Proof. intros [H1 H2] [H3 H4]. split; [auto|]. intros n [Hn|Hn]%H4; [by apply H2|by right]. Qed.

Lemma grows_weaken (S S' : bytes -> Prop) d d' : (forall n, S n -> S' n) -> grows S d d' -> grows S' d d'.
Proof. intros HS [H1 H2]. split; [done|]. intros n [Hn|Hn]%H2; [by left|right; by apply HS]. Qed.

Lemma update_names d n c : (disk_update d n c).*1 = d.*1.
Proof.
  unfold disk_update. rewrite <- list_fmap_compose. apply list_fmap_ext. intros i [x y] _. simpl. case_bool_decide; simpl; congruence.
Qed.

Lemma grows_update S d n c : grows S d (disk_update d n c).
Proof. split; rewrite update_names; auto. Qed.

Lemma remove_names d n : (disk_remove d n).*1 = filter (fun x => x <> n) d.*1.
Proof.
  unfold disk_remove. induction d as [|[x y] d IH]; [done|]. rewrite fmap_cons, !filter_cons. simpl.
  case_decide; [by rewrite fmap_cons, IH|done].
Qed.

Lemma grows_remove S d n : grows S d (disk_remove d n).
Proof.
  split; rewrite remove_names; [apply NoDup_filter|]. intros x Hx. apply list_elem_of_filter in Hx as [_ Hx]. by left.
Qed.

Lemma grows_write (S : bytes -> Prop) d n c : S n -> grows S d (disk_write d n c).
Proof.
  intros Hn. unfold disk_write. split; rewrite fmap_app, remove_names; cbn [fmap list_fmap fst].
  - intros Hd. apply NoDup_app. split; [by apply NoDup_filter|]. split; [|apply NoDup_singleton].
    intros x Hx ->%list_elem_of_singleton. by apply list_elem_of_filter in Hx as [? _].
  - intros x [Hx| ->%list_elem_of_singleton]%elem_of_app; [|by right]. apply list_elem_of_filter in Hx as [_ Hx]. by left.
Qed.

Lemma get_of_elem d n c : NoDup d.*1 -> (n, c) ∈ d -> disk_get d n = Some c.
Proof.
  induction d as [|[x y] d IH]; intros Hd Hin; [by apply elem_of_nil in Hin|]. rewrite disk_get_cons.
  apply NoDup_cons in Hd as [Hx Hd]. apply elem_of_cons in Hin as [E|Hin]; [injection E as -> ->; by rewrite decide_True|].
  rewrite decide_False; [by apply IH|]. intros ->. apply Hx, list_elem_of_fmap. by exists (n, c).
Qed.

Lemma elem_of_get d n c : disk_get d n = Some c -> (n, c) ∈ d.
Proof.
  induction d as [|[x y] d IH]; [done|]. rewrite disk_get_cons. destruct (decide (x = n)) as [->|]; [intros [= ->]; left|].
  intros H. right. by apply IH.
Qed.

(** ** Names of index files *)

Definition index_names (bucket : Z -> Prop) (n : bytes) : Prop :=
  exists id, bucket id /\ (n = IndexFile.temp_filename id 1 \/ n = IndexFile.generate_index_filename id 1).

Lemma save_attempt_grows (S : bytes -> Prop) io a temp name image d :
  S temp -> S name -> grows S d (snd (Index.save_attempt io a temp name image d)).
Proof.
  intros Ht Hn. unfold Index.save_attempt. destruct (Index.write_ok io a); [destruct (Index.rename_ok io a)|]; cbn [snd].
  - eapply grows_trans; [exact (grows_write S d temp image Ht)|]. eapply grows_trans; [apply grows_remove|by apply grows_write].
  - destruct (Index.remove_ok io a); [|by apply grows_write]. eapply grows_trans; [exact (grows_write S d temp image Ht)|apply grows_remove].
  - destruct (Index.partial io a) as [p|], (Index.remove_ok io a); try apply grows_remove; try apply grows_refl; [|by apply grows_write].
    eapply grows_trans; [exact (grows_write S d temp p Ht)|apply grows_remove].
Qed.

Lemma save_attempts_grows (S : bytes -> Prop) io l temp name image d :
  S temp -> S name -> grows S d (snd (Index.save_attempts io l temp name image d)).
Proof.
  intros Ht Hn. revert d. induction l as [|a l IH]; intros d; cbn [Index.save_attempts]; [apply grows_refl|].
  pose proof (save_attempt_grows S io a temp name image d Ht Hn) as H. destruct (Index.save_attempt _ _ _ _ _ _) as [[e|] d1]; [|exact H].
  eapply grows_trans; [exact H|apply IH].
Qed.

Lemma save_index_grows (bucket : Z -> Prop) io id f d r d' :
  bucket id -> Index.save_index io id f d = Ret (r, d') -> grows (index_names bucket) d d'.
Proof.
  intros Hid. unfold Index.save_index. intros (img & _ & E)%bind_Ret. destruct img as [img|e]; [|injection E as <- <-; apply grows_refl].
  pose proof (save_attempts_grows (index_names bucket) io [0; 1; 2]%nat (IndexFile.temp_filename id 1) (IndexFile.generate_index_filename id 1)
    img d ltac:(exists id; auto) ltac:(exists id; auto)) as H.
  destruct (Index.save_attempts _ _ _ _ _ _) as [r1 d1] in E, H. by injection E as <- <-.
Qed.

Lemma save_list_grows (bucket : Z -> Prop) io l d r d' :
  (forall id f, (id, f) ∈ l -> bucket id) -> Index.save_list io l d = Ret (r, d') -> grows (index_names bucket) d d'.
Proof.
  revert d. induction l as [|[id f] l IH]; intros d Hb; cbn [Index.save_list]; [intros [= <- <-]; apply grows_refl|].
  intros ([r1 d1] & E1 & E2)%bind_Ret. apply (save_index_grows bucket) in E1; [|apply (Hb id f); left].
  destruct r1; [|injection E2 as <- <-; done]. eapply grows_trans; [exact E1|]. apply (IH d1); [|done].
  intros. eapply Hb. by right.
Qed.

Lemma flush_grows (bucket : Z -> Prop) io b m d r m' d' :
  bucket b -> Index.flush_updates_for_bucket io b m d = Ret (r, m', d') -> grows (index_names bucket) d d'.
Proof.
  intros Hb. unfold Index.flush_updates_for_bucket. destruct (bt_get _ _) as [f|]; [|intros [= <- <- <-]; apply grows_refl].
  destruct (_ =? _)%nat; [intros [= <- <- <-]; apply grows_refl|]. intros ([r1 d1] & E1 & E2)%bind_Ret. injection E2 as <- <- <-.
  by eapply save_index_grows.
Qed.

Lemma add_entry_grows (bucket : Z -> Prop) io m k a o s d r m' d' :
  bucket (Index.get_bucket_index k) -> Index.add_entry io m k a o s d = Ret (r, m', d') -> grows (index_names bucket) d d'.
Proof.
  intros Hb. unfold Index.add_entry. destruct (bt_get _ (Index.indices (match _ with Some _ => _ | None => _ end))) as [f|]; [|done].
  destruct (Index.append_to _ _ _ _) as [[] m1]; [intros [= <- <- <-]; apply grows_refl|].
  intros ([[r1 m2] d1] & E1 & E2)%bind_Ret. apply (flush_grows bucket) in E1; [|done]. destruct r1; [|injection E2 as <- <- <-; done].
  destruct (bt_get _ _); [|done]. destruct (Index.append_to _ _ _ _) as [[] ?]; injection E2 as <- <- <-; done.
Qed.

(** ** Names of data files *)

Definition data_names (n : bytes) : Prop := exists id, 0 <= id < 1000 /\ n = Segment.segment_data_name id.

Lemma write_to_archive_grows S io id off data m d : grows S d (snd (Archive.write_to_archive io id off data m d)).
Proof.
  unfold Archive.write_to_archive. destruct (Archive.archives m !! id) as [a|]; [|apply grows_refl].
  destruct (if Archive.write_open_ok io then _ else _); [|apply grows_refl].
  destruct (Archive.seek_ok io); cbn [negb]; [|apply grows_refl]. destruct (Archive.written io); [apply grows_update|].
  destruct (Archive.flush_ok io); cbn [negb]; [|apply grows_update]. destruct (Archive.size_ok io); cbn [negb]; [|apply grows_update].
  destruct (_ <? _); [|apply grows_update]. destruct (Archive.remap_archive _ _ _ _ _). apply grows_update.
Qed.

Lemma create_archive_grows (S : bytes -> Prop) md5 io id m d :
  S (Segment.segment_data_name id) -> grows S d (snd (Archive.create_archive md5 io id m d)).
Proof.
  intros Hs. unfold Archive.create_archive. destruct (Archive.create_ok io); cbn [negb]; [|apply grows_refl].
  assert (forall x, grows S d (match disk_get d (Segment.segment_data_name id) with
    | Some _ => disk_update d (Segment.segment_data_name id) x | None => disk_write d (Segment.segment_data_name id) x end)) as H.
  { intros x. destruct (disk_get d _); [apply grows_update|by apply grows_write]. }
  destruct (Archive.header_written io); [apply H|]. destruct (Archive.open_archive _ _ _ _ _) as [[] ?]; apply H.
Qed.

(** The archives have three-digit numbers. *)
Definition small_ids (m : Archive.ArchiveManager) : Prop := forall id a, Archive.archives m !! id = Some a -> id < 1000.

Lemma select_below m d needed :
  archives_ok m d -> small_ids m -> Z.of_nat (length (Archive.write_positions m)) < 1000 ->
  0 <= Archive.select_archive_for_write_sized m needed < 1000.
Proof.
  intros Hok Hr Hn. pose proof (select_range m d needed Hok) as Hsel. unfold Archive.select_archive_for_write_sized in *.
  destruct (Archive.first_with_room _ _) as [id|] eqn:E; [|destruct (_ <? _); lia].
  apply first_with_room_open in E as [pos Hp]. destruct Hok as [_ H2]. destruct (H2 id pos Hp) as [a Ha].
  pose proof (Hr id a Ha). lia.
Qed.

Lemma write_content_grows md5 zc lc lcd io data compress m d :
  archives_ok m d -> small_ids m -> Z.of_nat (length (Archive.write_positions m)) < 1000 ->
  grows data_names d (snd (Archive.write_content md5 zc lc lcd io data compress m d)).
Proof.
  intros Hok Hs Hn. unfold Archive.write_content, Archive.write_content_with_mode.
  destruct (Archive.compress_blte_with_mode _ _ _ _ _) as [blte|]; [|apply grows_refl].
  unfold Archive.write_raw_content, Archive.write_raw_content_with_ekey. destruct (2 ^ 32 <=? _); [apply grows_refl|].
  set (needed := Z.of_nat _). pose proof (select_below m d needed Hok Hs Hn) as Hid.
  set (id := Archive.select_archive_for_write_sized m needed) in *.
  assert (forall m1 d1 r1, match Archive.archives m !! id with Some _ => (Ok tt, m, d) | None => Archive.create_archive md5 io id m d end = (r1, m1, d1) ->
    grows data_names d d1) as Hcreate.
  { intros m1 d1 r1. destruct (Archive.archives m !! id); [intros [= <- <- <-]; apply grows_refl|]. intros E.
    pose proof (create_archive_grows data_names md5 io id m d ltac:(by exists id)) as H. by rewrite E in H. }
  destruct (match Archive.archives m !! id with Some _ => _ | None => _ end) as [[r1 m1] d1] eqn:E1.
  specialize (Hcreate m1 d1 r1 eq_refl). destruct r1 as [[]|]; [|exact Hcreate]. 
  match goal with |- context [Archive.write_to_archive ?a ?b ?c ?e ?f ?g] =>
    pose proof (write_to_archive_grows data_names a b c e f g) as Hw; destruct (Archive.write_to_archive a b c e f g) as [[r2 m2] d2] end.
  cbn [snd] in Hw. destruct r2 as [[]|]; [destruct (2 ^ 32 <=? _)|]; cbn [snd]; by eapply grows_trans.
Qed.

(** ** Directories that a restart understands *)

(** A name that [load_all] passes over. *)
Definition ignored (n : bytes) : Prop :=
  utf8_valid n = true -> IndexFile.parse_index_filename n = Ret None /\ IndexFile.parse_v5_index_filename n = Ret None.

Lemma data_name_facts id :
  0 <= id < 1000 -> Archive.archive_id_of (Segment.segment_data_name id) = Some id /\ ignored (Segment.segment_data_name id).
Proof.
  intros Hid.
  assert (Forall (fun i => Archive.archive_id_of (Segment.segment_data_name (Z.of_nat i)) = Some (Z.of_nat i) /\
    match IndexFile.parse_index_filename (Segment.segment_data_name (Z.of_nat i)), IndexFile.parse_v5_index_filename (Segment.segment_data_name (Z.of_nat i)) with
    | Ret None, Ret None => True | _, _ => False end) (seq 0 1000)) as H.
  { apply Forall_lookup. intros i j Hij. apply lookup_seq in Hij as [-> Hlt]. revert i Hlt.
    assert (forallb (fun i => match Archive.archive_id_of (Segment.segment_data_name (Z.of_nat i)) with Some x => x =? Z.of_nat i | None => false end &&
      match IndexFile.parse_index_filename (Segment.segment_data_name (Z.of_nat i)), IndexFile.parse_v5_index_filename (Segment.segment_data_name (Z.of_nat i)) with
      | Ret None, Ret None => true | _, _ => false end) (seq 0 1000) = true) as Hb by (by vm_compute).
    intros i Hi. rewrite forallb_forall in Hb. specialize (Hb i ltac:(apply List.in_seq; lia)). cbn [Nat.add].
    apply andb_true_iff in Hb as [H1 H2]. split.
    - destruct (Archive.archive_id_of _); [|done]. apply Z.eqb_eq in H1. by f_equal.
    - by repeat case_match. }
  rewrite Forall_lookup in H. specialize (H (Z.to_nat id) (Z.to_nat id)). rewrite Z2Nat.id in H by lia.
  destruct H as [H1 H2]; [apply lookup_seq; lia|]. split; [done|]. intros _. by repeat case_match.
Qed.

Lemma temp_ignored id : ignored (IndexFile.temp_filename id 1).
Proof.
  intros _. unfold IndexFile.temp_filename. split; [done|]. unfold IndexFile.parse_v5_index_filename.
  rewrite bool_decide_false; [done|]. intros E. apply (f_equal (fun l => nth 2 l 0)) in E. by vm_compute in E.
Qed.

Lemma archive_id_length n id : Archive.archive_id_of n = Some id -> length n = 8%nat.
Proof.
  unfold Archive.archive_id_of. destruct (_ && _) eqn:E; [|done]. intros _. apply andb_true_iff in E as [_ E]. by apply Nat.eqb_eq.
Qed.

(** Every file is passed over or is the file of a loaded bucket, and data files have
    the names that [create_archive] gives. *)
Record tidy (i : Index.IndexManager) (d : disk) : Prop := {
  ti_names : NoDup d.*1;
  ti_index : forall n, n ∈ d.*1 -> ignored n \/ exists id, is_Some (bt_get id (Index.indices i)) /\ n = IndexFile.generate_index_filename id 1;
  ti_data : forall n id, n ∈ d.*1 -> Archive.archive_id_of n = Some id -> n = Segment.segment_data_name id /\ 0 <= id < 1000;
}.

Lemma tidy_grows i i' d d' :
  tidy i d -> (forall id, is_Some (bt_get id (Index.indices i)) -> is_Some (bt_get id (Index.indices i'))) ->
  grows (fun n => data_names n \/ index_names (fun id => is_Some (bt_get id (Index.indices i'))) n) d d' -> tidy i' d'.
Proof.
  intros [H1 H2 H3] Hi [G1 G2]. split; [auto| |].
  - intros n [Hn|[(id & Hid & ->)|(id & Hid & [-> | ->])]]%G2.
    + destruct (H2 n Hn) as [|(id & Hid & ->)]; [by left|right; eauto].
    + left. by apply data_name_facts.
    + left. apply temp_ignored.
    + right. eauto.
  - intros n id [Hn|[(j & Hj & ->)|(j & Hj & [-> | ->])]]%G2 E.
    + by apply H3.
    + destruct (data_name_facts j Hj) as [Ej _]. rewrite Ej in E. by injection E as <-.
    + by apply archive_id_length in E.
    + by apply archive_id_length in E.
Qed.

(** ** What a save leaves and what a load finds *)

Lemma save_index_other io id f d r d' n :
  Index.save_index io id f d = Ret (r, d') -> n <> IndexFile.temp_filename id 1 -> n <> IndexFile.generate_index_filename id 1 ->
  disk_get d' n = disk_get d n.
Proof.
  unfold Index.save_index. intros (img & _ & E)%bind_Ret H1 H2. destruct img as [img|e]; [|by injection E as <- <-].
  pose proof (save_attempts_get io [0; 1; 2]%nat _ (IndexFile.generate_index_filename id 1) img d n H1 (temp_name_differs id 1)) as H.
  destruct (Index.save_attempts _ _ _ _ _ _) as [r1 d1] in E, H. injection E as <- <-. rewrite H. destruct r1; [|done]. by rewrite bool_decide_false.
Qed.

Lemma save_index_here io id f d d' :
  Index.save_index io id f d = Ret (Ok tt, d') ->
  exists img, IndexFile.index_image id f = Ret (Ok img) /\ disk_get d' (IndexFile.generate_index_filename id 1) = Some img.
Proof.
  unfold Index.save_index. intros (img & E0 & E)%bind_Ret. destruct img as [img|e]; [|done].
  pose proof (save_attempts_get io [0; 1; 2]%nat (IndexFile.temp_filename id 1) (IndexFile.generate_index_filename id 1) img d
    (IndexFile.generate_index_filename id 1) (fun H => temp_name_differs id 1 (eq_sym H)) (temp_name_differs id 1)) as H.
  destruct (Index.save_attempts _ _ _ _ _ _) as [r1 d1] in E, H. injection E as -> <-. rewrite bool_decide_true in H by done. eauto.
Qed.

Lemma save_list_other io l d r d' n :
  Index.save_list io l d = Ret (r, d') ->
  (forall id, id ∈ l.*1 -> n <> IndexFile.temp_filename id 1 /\ n <> IndexFile.generate_index_filename id 1) ->
  disk_get d' n = disk_get d n.
Proof.
  revert d. induction l as [|[id f] l IH]; intros d; cbn [Index.save_list]; [by intros [= <- <-]|].
  intros ([r1 d1] & E1 & E2)%bind_Ret Hn. destruct (Hn id ltac:(left)) as [N1 N2].
  pose proof (save_index_other io id f d r1 d1 n E1 N1 N2) as H. destruct r1; [|injection E2 as <- <-; done].
  rewrite <- H. apply (IH d1); [done|]. intros. apply Hn. by right.
Qed.

Lemma save_list_saved io l d d' :
  Forall u8 l.*1 -> NoDup l.*1 -> Index.save_list io l d = Ret (Ok tt, d') ->
  forall id f, (id, f) ∈ l -> exists img, IndexFile.index_image id f = Ret (Ok img) /\
    disk_get d' (IndexFile.generate_index_filename id 1) = Some img.
Proof.
  revert d. induction l as [|[id f] l IH]; intros d Hu Hnd; cbn [Index.save_list]; [by intros _ ? ? ?%elem_of_nil|].
  intros ([r1 d1] & E1 & E2)%bind_Ret. destruct r1 as [[]|]; [|done]. rewrite fmap_cons in Hu, Hnd. simpl in Hu, Hnd.
  apply Forall_cons in Hu as [Hid Hu]. apply NoDup_cons in Hnd as [Hout Hnd].
  intros id' f' [E|Hin]%elem_of_cons; [|by eapply IH]. injection E as -> ->.
  destruct (save_index_here io id f d d1 E1) as (img & Himg & Hget). exists img. split; [done|]. rewrite <- Hget.
  apply (save_list_other io l d1 _ d' _ E2). intros id2 Hid2. split.
  - intros E. by apply eq_sym, temp_not_name in E.
  - intros E. apply name_inj in E; [by subst|done|]. rewrite Forall_forall in Hu. by apply Hu.
Qed.

(** A load of a directory in which every file is passed over or is the saved file of
    a bucket of [target]. *)
Lemma load_files_tidy d m target :
  NoDup d.*1 ->
  (forall n c, (n, c) ∈ d -> ignored n \/ exists id f, u8 id /\ IndexImage.file_ok f /\ bt_get id (Index.indices target) = Some f /\
     n = IndexFile.generate_index_filename id 1 /\ IndexFile.index_image id f = Ret (Ok c)) ->
  exists m', Index.load_files io_all_ok d m = Ret (Ok tt, m') /\
    forall k, is_array 16 k -> Index.lookup m' k =
      if bool_decide (IndexFile.generate_index_filename (Index.get_bucket_index k) 1 ∈ d.*1) then Index.lookup target k else Index.lookup m k.
Proof.
  revert m. induction d as [|[n c] d IH]; intros m Hnd Hd; [by exists m|]. apply NoDup_cons in Hnd as [Hn Hnd].
  assert (exists m1, Index.load_dir_entry io_all_ok (n, c) m = Ret (Ok tt, m1) /\
    forall k, is_array 16 k -> Index.lookup m1 k = if bool_decide (IndexFile.generate_index_filename (Index.get_bucket_index k) 1 = n)
      then Index.lookup target k else Index.lookup m k) as (m1 & E1 & H1).
  { destruct (Hd n c ltac:(left)) as [Hi|(id & f & Hid & Hf & Hget & -> & Himg)].
    - exists m. split.
      + unfold Index.load_dir_entry. cbn [fst]. destruct (utf8_valid n) eqn:Eu; [|done]. destruct (Hi Eu) as [-> ->]. done.
      + intros k [_ Hk]. rewrite bool_decide_false; [done|]. intros <-. pose proof (bucket_range k Hk) as Hb.
        assert (u8 (Index.get_bucket_index k)) as Hu by (unfold in_u; lia).
        destruct Hi as [E _]; [|rewrite parse_generated in E; [done|done|decide_now]].
        apply utf8_valid_ascii. eapply Forall_impl; [apply generated_ascii|simpl; lia].
    - destruct (load_one m id 1 f c Hid ltac:(decide_now) Hf Himg) as (f' & E & Hview). eexists. split; [exact E|].
      intros k [_ Hk]. rewrite lookup_set_index. pose proof (bucket_range k Hk) as Hb.
      destruct (Z.eqb_spec (Index.get_bucket_index k) id) as [<-|Hne].
      + rewrite bool_decide_true by done. rewrite Hview. unfold Index.lookup. by rewrite Hget.
      + rewrite bool_decide_false; [done|]. intros E'. apply name_inj in E'; [done|unfold in_u; lia|done]. }
  destruct (IH m1 Hnd) as (m' & E' & H'); [intros; apply Hd; by right|]. exists m'. split.
  - cbn [Index.load_files io_all_ok Index.next_entry_ok]. rewrite E1. cbn [mbind outcome_bind]. exact E'.
  - intros k Hk. rewrite (H' k Hk), (H1 k Hk). rewrite fmap_cons. cbn [fst].
    destruct (decide (IndexFile.generate_index_filename (Index.get_bucket_index k) 1 = n)) as [E|E].
    + rewrite (bool_decide_true (_ = n)), (bool_decide_true (_ ∈ n :: _)) by (done || (rewrite E; left)). by destruct (bool_decide _).
    + rewrite (bool_decide_false (_ = n)) by done. destruct (decide (IndexFile.generate_index_filename (Index.get_bucket_index k) 1 ∈ d.*1)).
      * rewrite !bool_decide_true; [done|by right|done].
      * rewrite !bool_decide_false; [done| |done]. intros [?|?]%elem_of_cons; done.
Qed.

(** ** Opening the data files *)

(** The archive as [open_archive] leaves it: mapped to its end, written behind it. *)
Definition opened (d : disk) (m : Archive.ArchiveManager) (id : Z) : Prop :=
  match Archive.archives m !! id with
  | Some a => 0 <= id < 1000 /\ exists content, disk_get d (Segment.segment_data_name id) = Some content /\
      a = {| Archive.path := Segment.segment_data_name id; Archive.size := Z.of_nat (length content); Archive.detached := None |} /\
      bt_get id (Archive.write_positions m) = Some (Z.of_nat (length content))
  | None => bt_get id (Archive.write_positions m) = None
  end.

Lemma open_archive_opened d m id content :
  (forall i, opened d m i) -> 0 <= id < 1000 -> disk_get d (Segment.segment_data_name id) = Some content ->
  exists m', Archive.open_archive io_fine id (Segment.segment_data_name id) m d = (Ok tt, m') /\ (forall i, opened d m' i) /\
    forall i, is_Some (Archive.archives m' !! i) <-> i = id \/ is_Some (Archive.archives m !! i).
Proof.
  intros Hm Hid Hc. unfold Archive.open_archive. rewrite Hc. cbn [io_fine Archive.open_ok Archive.stat_ok Archive.map_ok negb].
  eexists. split; [done|]. split.
  - intros i. unfold opened. cbn [Archive.set_position Archive.set_archive Archive.archives Archive.write_positions]. rewrite positions_get.
    destruct (decide (i = id)) as [->|Hne].
    + rewrite lookup_insert_eq. split; [done|]. by exists content.
    + rewrite lookup_insert_ne by done. apply Hm.
  - intros i. cbn [Archive.set_position Archive.set_archive Archive.archives]. rewrite lookup_insert.
    case_decide as E; [subst i; naive_solver|]. naive_solver.
Qed.

Lemma open_files_opened files d m :
  (forall n id, n ∈ files.*1 -> Archive.archive_id_of n = Some id -> n = Segment.segment_data_name id /\ 0 <= id < 1000) ->
  (forall n, n ∈ files.*1 -> is_Some (disk_get d n)) -> (forall i, opened d m i) ->
  exists m', Archive.open_files io_fine files d m = (Ok tt, m') /\ (forall i, opened d m' i) /\
    forall i, is_Some (Archive.archives m !! i) \/ (0 <= i < 1000 /\ Segment.segment_data_name i ∈ files.*1) -> is_Some (Archive.archives m' !! i).
Proof.
  revert m. induction files as [|[n c] files IH]; intros m Hname Hget Hm.
  { exists m. split; [done|]. split; [done|]. intros i [H|[_ []%elem_of_nil]]. done. }
  cbn [Archive.open_files io_fine Archive.next_entry_ok Archive.metadata_ok negb].
  assert (forall n' id, n' ∈ files.*1 -> Archive.archive_id_of n' = Some id -> n' = Segment.segment_data_name id /\ 0 <= id < 1000) as Hname'
    by (intros n' id Hin; apply Hname; by right).
  assert (forall n', n' ∈ files.*1 -> is_Some (disk_get d n')) as Hget' by (intros n' Hin; apply Hget; by right).
  destruct (Archive.archive_id_of n) as [id|] eqn:En.
  - destruct (Hname n id ltac:(left) En) as [-> Hid]. destruct (Hget (Segment.segment_data_name id) ltac:(left)) as [content Hc].
    destruct (open_archive_opened d m id content Hm Hid Hc) as (m1 & -> & Hm1 & Hs1). destruct (IH m1 Hname' Hget' Hm1) as (m2 & -> & Hm2 & Hs2).
    exists m2. split; [done|]. split; [done|]. intros i Hi. apply Hs2. rewrite Hs1.
    destruct Hi as [Hi|[Hr [E|Hi]%elem_of_cons]]; [by left; right| |by right].
    left. left. simpl in E. apply segment_data_name_inj in E; lia.
  - destruct (IH m Hname' Hget' Hm) as (m2 & -> & Hm2 & Hs2). exists m2. split; [done|]. split; [done|]. intros i Hi. apply Hs2.
    destruct Hi as [Hi|[Hr [E|Hi]%elem_of_cons]]; [by left| |by right]. simpl in E. subst n.
    destruct (data_name_facts i Hr) as [Ei _]. congruence.
Qed.

(** ** What a successful write leaves *)

Lemma roomy_small m : roomy 1000 m -> small_ids m.
Proof. intros [H _] id a Ha. by apply (H id a). Qed.

Definition buckets_kept (i i' : Index.IndexManager) : Prop :=
  forall id, is_Some (bt_get id (Index.indices i)) -> is_Some (bt_get id (Index.indices i')).

Lemma set_index_kept i id f : buckets_kept i (Index.set_index i id f).
Proof. intros j Hj. rewrite get_set_index. by destruct (_ =? _). Qed.

Lemma append_to_kept i id f e ok i' : Index.append_to i id f e = (ok, i') -> buckets_kept i i'.
Proof. unfold Index.append_to. destruct (Update.append _ _). intros [= _ <-]. apply set_index_kept. Qed.

Lemma add_entry_kept io i k a o s d r i' d' :
  Index.add_entry io i k a o s d = Ret (r, i', d') ->
  buckets_kept i i' /\ is_Some (bt_get (Index.get_bucket_index k) (Index.indices i')).
Proof.
  unfold Index.add_entry. set (b := Index.get_bucket_index k).
  set (i0 := match bt_get b (Index.indices i) with Some _ => i | None => _ end).
  assert (buckets_kept i i0) as H0 by (unfold i0; destruct (bt_get b _); [by intros ? ?|apply set_index_kept]).
  destruct (bt_get b (Index.indices i0)) as [f|] eqn:Ef; [|done].
  assert (forall j, buckets_kept i0 j -> buckets_kept i j /\ is_Some (bt_get b (Index.indices j))) as Hdone.
  { intros j Hj. split; [intros id Hid; auto|]. apply Hj. by rewrite Ef. }
  destruct (Index.append_to i0 _ _ _) as [ok i1] eqn:E1. pose proof (append_to_kept _ _ _ _ _ _ E1) as H1.
  destruct ok; [intros [= <- <- <-]; auto|]. unfold Index.flush_updates_for_bucket.
  destruct (H1 b ltac:(by rewrite Ef)) as [f1 Ef1]. rewrite Ef1.
  intros ([[r2 i2] d2] & E2 & E)%bind_Ret. assert (buckets_kept i0 i2) as H2.
  { destruct (_ =? _)%nat in E2; [injection E2 as <- <- <-; done|]. apply bind_Ret in E2 as ([r3 d3] & _ & E2). injection E2 as <- <- <-.
    intros id Hid. by apply set_index_kept, H1. }
  destruct r2; [|injection E as <- <- <-; auto]. destruct (bt_get b (Index.indices i2)); [|done].
  destruct (Index.append_to i2 _ _ _) as [ok' i4] eqn:E3. pose proof (append_to_kept _ _ _ _ _ _ E3) as H3.
  destruct ok'; injection E as _ <- _; apply Hdone; intros id Hid; auto.
Qed.

Lemma header_grows S io c d id off total key : grows S d (snd (update_segment_header io c d id off total key)).
Proof.
  unfold update_segment_header. destruct (_ <=? off); [|apply grows_refl]. unfold Archive.write_segment_header.
  match goal with |- context [Archive.write_to_archive ?a ?b ?c ?e ?f ?g] => pose proof (write_to_archive_grows S a b c e f g) as H;
    destruct (Archive.write_to_archive a b c e f g) as [[r2 m2] d2] end. exact H.
Qed.

Lemma header_roomy N io c d id off total key r c' d' :
  archives_ok (archive c) d -> roomy N (archive c) -> is_Some (Archive.archives (archive c) !! id) ->
  update_segment_header io c d id off total key = (r, c', d') -> roomy N (archive c').
Proof.
  intros Hok Hr [a Ha]. unfold update_segment_header. destruct (_ <=? off); [|by intros [= <- <- <-]]. set (h := Segment.set_bucket_header _ _ _).
  unfold Archive.write_segment_header.
  destruct (Archive.write_to_archive (header_io io) id 0 (Segment.to_bytes h) (archive c) d) as [[r1 a1] d1] eqn:E. intros [= <- <- <-].
  destruct Hok as [A1 _]. destruct (A1 id a Ha) as [_ _ _ (content & Hc & _) _ _].
  pose proof (write_to_archive_spec (header_io io) id 0 (Segment.to_bytes h) (archive c) d a content Ha Hc ltac:(lia)) as Hw.
  rewrite E in Hw. by eapply roomy_write.
Qed.

Lemma header_index io c d id off total key r c' d' :
  update_segment_header io c d id off total key = (r, c', d') -> index c' = index c.
Proof.
  unfold update_segment_header. destruct (_ <=? off); [|by intros [= <- <- <-]]. destruct (Archive.write_segment_header _ _ _ _ _) as [[r1 a1] d1].
  by intros [= <- <- <-].
Qed.

Lemma touch_parts c k c' : touch c k = Ret c' -> index c' = index c /\ archive c' = archive c.
Proof.
  unfold touch. destruct (lru c); [|by intros [= <-]]. intros ([x l'] & _ & E)%bind_Ret. by injection E as <-.
Qed.

Section Restart.

Context (md5 : bytes -> bytes).
Context (zlib_compress : bytes -> option bytes) (zlib_reads : bytes -> list bytes * bool).
Context (lz4_compress : bytes -> bytes) (lz4_compress_with_dict : bytes -> bytes -> bytes).
Context (lz4_decompress_with_dict : bytes -> nat -> bytes -> option bytes).
Hypothesis md5_array : forall x, is_array 16 (md5 x).

Notation write := (Dynamic.write md5 zlib_compress lz4_compress lz4_compress_with_dict).
Notation holds := (holds zlib_reads lz4_decompress_with_dict).

Lemma content_roomy io data m d r m' d' :
  archives_ok m d -> roomy 1000 m -> Z.of_nat (length (Archive.write_positions m)) < 1000 ->
  Archive.write_content md5 zlib_compress lz4_compress lz4_compress_with_dict io data false m d = (r, m', d') -> roomy 1000 m'.
Proof.
  intros Hok Hr Hn. unfold Archive.write_content, Archive.write_content_with_mode.
  destruct (Archive.compress_blte_with_mode _ _ _ _ _) as [blte|]; [|by intros [= <- <- <-]]. unfold Archive.write_raw_content.
  destruct (Archive.write_raw_content_with_ekey md5 io blte (md5 blte) m d) as [[r1 m1] d1] eqn:E. intros [= <- <- <-].
  by apply (entry_roomy 1000 md5 io blte (md5 blte) m d r1 m1 d1).
Qed.

(** A successful write leaves a tidy directory with every bucket saved. *)
Lemma write_leaves io c d key data c1 d1 :
  dynamic_ok c d -> tidy (index c) d -> roomy 1000 (archive c) -> Z.of_nat (length (Archive.write_positions (archive c))) < 1000 ->
  write io c d key data = Ret (Ok tt, c1, d1) ->
  tidy (index c1) d1 /\ roomy 1000 (archive c1) /\ exists d0, Index.save_all (save_io io) (index c1) d0 = Ret (Ok tt, d1).
Proof.
  intros Hc Ht Hr Hn. unfold Dynamic.write. destruct (negb _); [done|].
  destruct (Archive.write_content _ _ _ _ _ data false (archive c) d) as [[r a] da] eqn:Ea.
  pose proof (content_roomy _ _ _ _ _ _ _ (dy_archives c d Hc) Hr Hn Ea) as Hra.
  destruct (write_content_spec md5 zlib_compress lz4_compress lz4_compress_with_dict md5_array (archive_io io) data (archive c) d r a da
    (dy_archives c d Hc) (dy_roomy c d Hc) ltac:(lia) Ea) as ([Hoka _] & _ & Hra' & Hw).
  pose proof (write_content_grows md5 zlib_compress lz4_compress lz4_compress_with_dict (archive_io io) data false (archive c) d
    (dy_archives c d Hc) (roomy_small _ Hr) Hn) as Ga. rewrite Ea in Ga. cbn [snd] in Ga.
  destruct r as [[[[id off] total] k]|e]; [|done]. destruct (Hw id off total k eq_refl) as (Hst & _ & Hloc & Hu & blte & _ & ->).
  intros ([[r2 i] d2] & E2 & E)%bind_Ret. destruct r2 as [[]|e]; [|done]. cbn [with_archive set_parts index] in E2.
  destruct (add_entry_kept _ _ _ _ _ _ _ _ _ _ E2) as [Hkept Hb].
  pose proof (add_entry_data _ _ _ _ _ _ _ _ _ _ E2) as Hd2.
  pose proof (add_entry_grows (fun id => is_Some (bt_get id (Index.indices i))) _ _ _ _ _ _ _ _ _ _ Hb E2) as G2.
  assert (manager_ok i) as Hmi.
  { destruct (add_entry_spec (index_io io) (index c) (md5 blte) id off total da (dy_index c d Hc) (md5_array _) Hloc Hu) as (r' & i' & d' & E' & Hi' & _).
    rewrite E2 in E'. by injection E' as <- <- <-. }
  set (c2 := with_index _ i) in E. destruct (update_segment_header io c2 d2 id off total (md5 blte)) as [[r3 c3] d3] eqn:E3.
  destruct r3 as [[]|e]; [|done]. pose proof (header_grows data_names io c2 d2 id off total (md5 blte)) as G3. rewrite E3 in G3. cbn [snd] in G3.
  assert (dynamic_ok (with_archive c a) da) as Hca by (destruct Hc as [H1 H2 H3 H4]; by split).
  destruct (dynamic_data (with_archive c a) da d2 Hca Hd2) as [Hc2 _].
  assert (roomy 1000 (archive c3)) as Hr3.
  { eapply (header_roomy 1000 io c2 d2); [apply Hc2|exact Hra| |exact E3]. destruct Hoka as [_ A2]. destruct Hst as (_ & _ & pos & Hp & _).
    by apply (A2 id pos). }
  apply header_index in E3. apply bind_Ret in E as (c4 & E4 & E). apply touch_parts in E4 as [Hi4 Ha4].
  assert (index c4 = i) as Hi by (by rewrite Hi4, E3). apply bind_Ret in E as ([r5 d5] & E5 & E). injection E as -> <- <-.
  rewrite Hi in E5 |- *. rewrite Ha4. split; [|split; [done|]]. 2: by exists d3.
  assert (grows (index_names (fun id => is_Some (bt_get id (Index.indices i)))) d3 d5) as G5.
  { eapply save_list_grows; [|exact E5]. intros id' f Hin. apply bt_get_In in Hin; [eauto|apply Hmi]. }
  eapply (tidy_grows (index c) i d); [done|done|].
  apply (grows_trans _ d da); [apply (grows_weaken data_names); [by left|done]|].
  apply (grows_trans _ da d2); [eapply grows_weaken; [|exact G2]; by right|].
  apply (grows_trans _ d2 d3); [apply (grows_weaken data_names); [by left|done]|]. eapply grows_weaken; [|exact G5]. by right.
Qed.

(** ** Opening the directory *)

Lemma load_segments_ok d ss : exists ss', Segment.load_segments (segment_io sample_io) d ss = (Ok tt, ss').
Proof.
  revert ss. induction d as [|[n c] d IH]; intros ss; cbn [Segment.load_segments]; [by exists ss|].
  unfold Segment.load_segment. destruct (if utf8_valid n then _ else _); apply IH.
Qed.

(** The index that a restart loads gives the answers of the one that was saved. *)
Lemma saved_index_loads i d io d0 :
  manager_ok i -> savable i -> tidy i d -> Index.save_all io i d0 = Ret (Ok tt, d) ->
  exists i', Index.load_all io_all_ok Index.manager_new d = Ret (Ok tt, i') /\
    forall k e, is_array 16 k -> Index.lookup i k = Some e -> Index.lookup i' k = Some e.
Proof.
  intros Hm Hsv Ht Hs. pose proof (sorted_nodup _ (mgr_sorted i Hm)) as Hnd.
  assert (Forall u8 (Index.indices i).*1) as Hu.
  { apply Forall_forall. intros id ([id' f] & -> & Hin)%list_elem_of_fmap. by apply (Hsv id' f). }
  pose proof (save_list_saved io (Index.indices i) d0 d Hu Hnd Hs) as Hsaved.
  destruct (load_files_tidy d Index.manager_new i (ti_names i d Ht)) as (i' & E & Hl).
  { intros n c Hin. destruct (ti_index i d Ht n) as [|(id & [f Hf] & ->)]; [apply list_elem_of_fmap; by exists (n, c)|by left|].
    right. pose proof (proj1 (bt_get_In id f _ (mgr_sorted i Hm)) Hf) as Hif. destruct (Hsv id f Hif) as [Hid Hfo].
    destruct (Hsaved id f Hif) as (img & Himg & Hg). exists id, f. split_and!; try done.
    rewrite (get_of_elem d _ c (ti_names i d Ht) Hin) in Hg. by injection Hg as ->. }
  exists i'. split; [exact E|]. intros k e Hk He. rewrite (Hl k Hk), bool_decide_true; [done|].
  unfold Index.lookup in He. destruct (bt_get _ _) as [f|] eqn:Ef; [|done]. apply bt_get_In in Ef; [|apply Hm].
  destruct (Hsaved _ f Ef) as (img & _ & Hg). apply elem_of_get in Hg. apply list_elem_of_fmap. by eexists (_, _).
Qed.

(** The archives that a restart opens hold the entries of those that wrote them. *)
Lemma opened_preserves m d m' :
  archives_ok m d -> small_ids m -> (forall i, opened d m' i) ->
  (forall i, 0 <= i < 1000 -> is_Some (disk_get d (Segment.segment_data_name i)) -> is_Some (Archive.archives m' !! i)) ->
  preserves zlib_reads lz4_decompress_with_dict m d m' d.
Proof.
  intros Hok Hs Ho Hall.
  assert (forall i o s, stored m i o s -> exists content pos', Archive.archives m' !! i = Some {| Archive.path := Segment.segment_data_name i;
      Archive.size := Z.of_nat (length content); Archive.detached := None |} /\ disk_get d (Segment.segment_data_name i) = Some content /\
      bt_get i (Archive.write_positions m') = Some pos' /\ 0 <= o /\ 0 <= s /\ o + s <= Z.of_nat (length content) /\ pos' = Z.of_nat (length content) /\
      Archive.read_raw m d i o s = Ok (slice (Z.to_nat o) (Z.to_nat (o + s)) content)) as H.
  { intros i o s Hst. destruct (stored_archive m d i o s Hok Hst) as (a & content & Ha & [Hid Hpath Hlive _ _ _] & Hc & Hsz & Hle).
    pose proof (Hs i a Ha) as Hi. destruct Hst as (H1 & H2 & _). pose proof Hc as Hc'. rewrite Hpath in Hc'.
    destruct (Hall i ltac:(lia) ltac:(by rewrite Hc')) as [a' Ha']. pose proof (Ho i) as Hoi. unfold opened in Hoi. rewrite Ha' in Hoi.
    destruct Hoi as (_ & content' & Hc2 & -> & Hp). rewrite Hc' in Hc2. injection Hc2 as <-. exists content, (Z.of_nat (length content)).
    split_and!; try done; try lia. by apply (read_raw_live m d i a). }
  apply preserves_intro; intros i o s Hst; destruct (H i o s Hst) as (content & pos & Ha & Hc & Hp & H1 & H2 & H3 & -> & Hread).
  - split; [done|]. split; [done|]. eauto.
  - intros _. rewrite Hread. eapply read_raw_live; [exact Ha|done|exact Hc|done|done|done|done].
Qed.

(** A new container opens the directory and holds what the old one held. *)
Lemma restart_holds c d mode path sl ms fr c0 io d0 :
  dynamic_ok c d -> savable (index c) -> tidy (index c) d -> roomy 1000 (archive c) -> Index.save_all io (index c) d0 = Ret (Ok tt, d) ->
  dynamic_new mode path false sl ms fr = Ok c0 ->
  exists c2, Dynamic.open sample_io c0 d = Ret (Ok tt, c2, None) /\ access_mode c2 = mode /\ lru c2 = None /\
    forall k x, is_array 16 k -> holds c d k x -> holds c2 d k x.
Proof.
  intros Hc Hsv Ht Hr Hs Hnew. unfold dynamic_new, new_from_builder in Hnew. cbn [b_storage_path builder] in Hnew. destruct path as [|p path]; [done|].
  injection Hnew as <-. destruct (saved_index_loads (index c) d io d0 (dy_index c d Hc) Hsv Ht Hs) as (i' & Ei & Hi).
  destruct (open_files_opened d d (Archive.manager_new (p :: path))) as (a' & Ea & Ho & Hall).
  { intros n id Hin. by apply (ti_data _ _ Ht). }
  { intros n ([n' x] & -> & Hin)%list_elem_of_fmap. exists x. by apply get_of_elem; [apply Ht|]. }
  { intros i. unfold opened. cbn [Archive.manager_new Archive.archives]. done. }
  unfold Dynamic.open. cbn [access_mode index archive]. rewrite andb_false_r. cbn [sample_io index_io]. rewrite Ei. cbn [mbind outcome_bind].
  cbn [with_index set_parts archive]. unfold Archive.open_all. change (archive_io sample_io) with io_fine.
  change (Archive.read_dir_ok io_fine) with true. cbn [negb b_storage_path builder]. rewrite Ea.
  cbn [with_archive with_index set_parts segment_allocator]. unfold Segment.load_existing. change (Segment.read_dir (segment_io sample_io)) with Segment.DirOk.
  match goal with |- context [Segment.load_segments ?a ?b ?c] => destruct (load_segments_ok b c) as [ss Ess] end.
  rewrite Ess. cbn [shared_memory with_allocator set_parts].
  eexists. split; [done|]. split; [done|]. split; [done|]. intros k x Hk (e & He & Hx). exists e. split; [by apply Hi|].
  cbn [archive with_allocator with_archive set_parts]. eapply opened_preserves; [apply Hc|by apply roomy_small|exact Ho| |exact Hx].
  intros i Hir [x' Hx']. apply Hall. right. split; [done|]. apply elem_of_get in Hx'. apply list_elem_of_fmap. by eexists (_, _).
Qed.

End Restart.

Lemma sample_tidy : tidy (index sample_dynamic) [].
Proof. split; [constructor|by intros n ?%elem_of_nil|by intros n id ?%elem_of_nil]. Qed.

Lemma sample_roomy : roomy 1000 (archive sample_dynamic).
Proof. split; [intros id a H; cbn in H; by rewrite lookup_empty in H|done]. Qed.

Lemma sample_savable c1 d1 :
  Dynamic.write zero_md5 store_zlib store_lz4 store_lz4_dict sample_io sample_dynamic [] (zeros 16) [1; 2; 3] = Ret (Ok tt, c1, d1) ->
  savable (index c1).
Proof.
  intros E. destruct (write_spec zero_md5 store_zlib store_reads store_lz4 store_lz4_dict store_decode zero_md5_array sample_io sample_dynamic []
    (zeros 16) [1; 2; 3] sample_dynamic_ok eq_refl ltac:(by vm_compute)) as (r & c & d & E1 & Hc & _). rewrite E in E1. injection E1 as <- <- <-.
  assert (forallb (fun '(id, f) => bool_decide (u8 id) && (length (IndexFile.entries f) =? 0)%nat) (Index.indices (index c1)) = true) as H.
  { apply (f_equal (fun o => match o with Ret (_, c, _) => forallb (fun '(id, f) => bool_decide (u8 id) && (length (IndexFile.entries f) =? 0)%nat)
      (Index.indices (index c)) | Panic => true end)) in E. rewrite <- E. by vm_compute. }
  clear E. rewrite forallb_forall in H. intros id f Hin. pose proof (H (id, f) (proj1 (list_elem_of_In _ _) Hin)) as Hb. simpl in Hb.
  apply andb_true_iff in Hb as [Hu%bool_decide_eq_true He%Nat.eqb_eq]. apply nil_length_inv in He. split; [done|].
  apply bt_get_In in Hin; [|apply Hc]. destruct (mgr_indices _ (dy_index _ _ Hc) id f Hin) as [H1 _ _ H4 _].
  split; [exact H1|rewrite He; constructor..|exact H4|by rewrite He].
Qed.



