(* ===== verification/Zbsdiff.v ===== *)
(** * ZBSDIFF1 patches

    Binary patches of the format crate (src/crates/cascette-formats/src/zbsdiff): the
    header, the control block with its sign-magnitude integers, the application of a
    patch in memory and from a seekable source, and the three builders, among them
    the bsdiff algorithm over a suffix array.  The suffix sort (divsufsort) and zlib
    are parameters. *)

From S2P Require Import Prelude Bytes.
Local Open Scope Z_scope.

Module Zbsdiff.

Inductive ZbsdiffError : Type :=
| InvalidSignature (expected actual : Z)
| InvalidSize (field : string) (value : Z)
| SizeTooLarge (value : Z)
| SizeMismatch (expected actual : Z)
| CompressionError
| DecompressionError
| BinaryFormatError
| CorruptPatch (reason : string)
| NotZbsdiffFormat
| SeekError
| InvalidControlEntry (index : nat) (reason : ZbsdiffError)
| ApplicationFailed (reason : string)
| InsufficientData (needed available : Z)
| EmptyControlBlock
| OldFileReadError
| JoinError (why : string)
| BlteError (why : string).

Definition is_corruption_error (e : ZbsdiffError) : bool :=
  match e with
  | CorruptPatch _ | InvalidSignature _ _ | InvalidSize _ _ | InvalidControlEntry _ _ | NotZbsdiffFormat => true
  | _ => false
  end.

Definition is_recoverable (e : ZbsdiffError) : bool :=
  match e with
  | CompressionError | DecompressionError | SeekError | OldFileReadError => true
  | _ => false
  end.

Notation zresult := (result ZbsdiffError).

(** ** The header *)

Definition ZBSDIFF1_SIGNATURE : Z := from_le_bytes [90; 66; 83; 68; 73; 70; 70; 49].
Definition MAX_SIZE : Z := 1000000000.

Record ZbsdiffHeader := { signature : Z; control_size : Z; diff_size : Z; output_size : Z }.

(** [i64] from and to its little-endian bytes. *)
Definition i64_from_le (l : bytes) : Z := let v := from_le_bytes l in if v <? 2 ^ 63 then v else v - 2 ^ 64.
Definition i64_to_le (v : Z) : bytes := to_le_bytes 8 (wrap64 v).

Definition checked_add (a b : Z) : option Z := if (- 2 ^ 63 <=? a + b) && (a + b <? 2 ^ 63) then Some (a + b) else None.

Definition header_validate (h : ZbsdiffHeader) : zresult unit :=
  if negb (signature h =? ZBSDIFF1_SIGNATURE) then Err (InvalidSignature ZBSDIFF1_SIGNATURE (signature h))
  else if control_size h <? 0 then Err (InvalidSize "control_size" (control_size h))
  else if diff_size h <? 0 then Err (InvalidSize "diff_size" (diff_size h))
  else if output_size h <? 0 then Err (InvalidSize "output_size" (output_size h))
  else if MAX_SIZE <? control_size h then Err (SizeTooLarge (control_size h))
  else if MAX_SIZE <? diff_size h then Err (SizeTooLarge (diff_size h))
  else if MAX_SIZE <? output_size h then Err (SizeTooLarge (output_size h))
  else
    match checked_add (control_size h) (diff_size h) with
    | Some total => if MAX_SIZE <? total then Err (SizeTooLarge total) else Ok tt
    | None => Err (SizeTooLarge (2 ^ 63 - 1))
    end.

Definition header_new (control_size diff_size output_size : Z) : zresult ZbsdiffHeader :=
  let header := {| signature := ZBSDIFF1_SIGNATURE; control_size := control_size; diff_size := diff_size;
                   output_size := output_size |} in
  _ ← header_validate header; Ok header.

(** [read_options]: the four fields, the signature asserted as soon as it is read,
    and the bytes behind the header. *)
Definition header_read (data : bytes) : zresult (ZbsdiffHeader * bytes) :=
  if (length data <? 8)%nat then Err BinaryFormatError
  else if negb (from_le_bytes (take 8 data) =? ZBSDIFF1_SIGNATURE)
  then Err (CorruptPatch "Invalid header signature or assertion failed")
  else if (length data <? 32)%nat then Err BinaryFormatError
  else Ok ({| signature := from_le_bytes (take 8 data); control_size := i64_from_le (slice 8 16 data);
              diff_size := i64_from_le (slice 16 24 data); output_size := i64_from_le (slice 24 32 data) |},
           drop 32 data).

Definition header_write (h : ZbsdiffHeader) : bytes :=
  to_le_bytes 8 (signature h) ++ i64_to_le (control_size h) ++ i64_to_le (diff_size h) ++ i64_to_le (output_size h).

Definition minimum_patch_size (h : ZbsdiffHeader) : Z := wrap64 (32 + wrap64 (control_size h) + wrap64 (diff_size h)).

Definition parse_from_patch (patch_data : bytes) : zresult ZbsdiffHeader :=
  if (length patch_data <? 32)%nat then Err (InsufficientData 32 (Z.of_nat (length patch_data)))
  else '(header, _) ← header_read patch_data; _ ← header_validate header; Ok header.

(** ** The control block *)

(** bsdiff's sign-magnitude integers: bit 63 is the sign. *)
Definition offtin (buf : bytes) : Z :=
  let magnitude := i64_from_le (take 7 buf ++ [Z.land (nth 7 buf 0) 0x7F]) in
  if negb (Z.land (nth 7 buf 0) 0x80 =? 0) then - magnitude else magnitude.

Definition offtout (value : Z) : bytes :=
  let '(magnitude, negative) := if value <? 0 then (- value, true) else (value, false) in
  let buf := i64_to_le magnitude in
  if negative then take 7 buf ++ [Z.lor (nth 7 buf 0) 0x80] else buf.

Record ControlEntry := { e_diff_size : Z; e_extra_size : Z; e_seek_offset : Z }.

Definition MAX_OP_SIZE : Z := 10000000.

Definition entry_validate (e : ControlEntry) : zresult unit :=
  if e_diff_size e <? 0 then Err (ApplicationFailed "Negative diff_size")
  else if e_extra_size e <? 0 then Err (ApplicationFailed "Negative extra_size")
  else if MAX_OP_SIZE <? e_diff_size e then Err (ApplicationFailed "diff_size too large")
  else if MAX_OP_SIZE <? e_extra_size e then Err (ApplicationFailed "extra_size too large")
  else Ok tt.

Definition output_bytes (e : ControlEntry) : Z := e_diff_size e + e_extra_size e.

(** A control block is the list of its entries. *)
Definition ControlBlock : Type := list ControlEntry.

Fixpoint validate_from (i : nat) (entries : list ControlEntry) : zresult unit :=
  match entries with
  | [] => Ok tt
  | e :: entries =>
      match entry_validate e with
      | Err why => Err (InvalidControlEntry i why)
      | Ok _ => validate_from (S i) entries
      end
  end.

Definition block_validate (entries : ControlBlock) : zresult unit :=
  match entries with [] => Err EmptyControlBlock | _ => validate_from 0 entries end.

Definition with_entries (entries : list ControlEntry) : zresult ControlBlock :=
  _ ← block_validate entries; Ok entries.

Definition add_entry (block : ControlBlock) (e : ControlEntry) : zresult ControlBlock :=
  _ ← entry_validate e; Ok (block ++ [e]).

Definition total_output_size (block : ControlBlock) : Z := fold_right Z.add 0 (output_bytes <$> block).

(** The loop of [from_compressed] over the decompressed bytes; every entry takes 24
    of them, so the length is enough fuel. *)
Fixpoint parse_entries (fuel : nat) (data : bytes) : zresult (list ControlEntry) :=
  match fuel, data with
  | _, [] => Ok []
  | O, _ => Err EmptyControlBlock
  | S fuel, _ =>
      if (length data <? 24)%nat then Err (CorruptPatch "Incomplete control entry")
      else
        let entry := {| e_diff_size := offtin (slice 0 8 data); e_extra_size := offtin (slice 8 16 data);
                        e_seek_offset := offtin (slice 16 24 data) |} in
        _ ← entry_validate entry;
        entries ← parse_entries fuel (drop 24 data);
        Ok (entry :: entries)
  end.

Definition entry_bytes (e : ControlEntry) : bytes :=
  offtout (e_diff_size e) ++ offtout (e_extra_size e) ++ offtout (e_seek_offset e).

(** ** Applying a patch *)

(** [old_data.get(pos).copied().unwrap_or(0)]. *)
Definition read_old_byte_at (old_data : bytes) (pos : Z) : Z :=
  if pos <? Z.of_nat (length old_data) then nth (Z.to_nat pos) old_data 0 else 0.

Definition apply_diff_byte (old_byte diff_byte : Z) : Z := wrap8 (old_byte + diff_byte).

(** The loop over a diff block: [n] bytes to go, the position in the old data and the
    unread diff data; it gives the new bytes. *)
Fixpoint diff_loop (n : nat) (old_data : bytes) (old_pos : Z) (diff : bytes) : zresult (bytes * Z * bytes) :=
  match n with
  | O => Ok ([], old_pos, diff)
  | S n' =>
      match diff with
      | [] => Err (InsufficientData (Z.of_nat n) 0)
      | diff_byte :: diff =>
          let new_byte := apply_diff_byte (read_old_byte_at old_data old_pos) diff_byte in
          '(out, old_pos, diff) ← diff_loop n' old_data (wrap64 (old_pos + 1)) diff;
          Ok (new_byte :: out, old_pos, diff)
      end
  end.

Fixpoint extra_loop (n : nat) (extra : bytes) : zresult (bytes * bytes) :=
  match n with
  | O => Ok ([], extra)
  | S n' =>
      match extra with
      | [] => Err (InsufficientData (Z.of_nat n) 0)
      | b :: extra => '(out, extra) ← extra_loop n' extra; Ok (b :: out, extra)
      end
  end.

(** The seek in the old data saturates at both ends. *)
Definition apply_seek_offset (current_pos offset : Z) : Z :=
  if offset <? 0 then Z.max 0 (current_pos - wrap64 (- offset)) else Z.min (2 ^ 64 - 1) (current_pos + offset).

Definition entry_seek (old_pos : Z) (e : ControlEntry) : Z :=
  if negb (e_seek_offset e =? 0) then apply_seek_offset old_pos (e_seek_offset e) else old_pos.

Fixpoint apply_entries (entries : list ControlEntry) (old_data : bytes) (old_pos : Z) (diff extra : bytes) : zresult bytes :=
  match entries with
  | [] => Ok []
  | e :: entries =>
      '(out1, old_pos, diff) ← diff_loop (Z.to_nat (e_diff_size e)) old_data old_pos diff;
      '(out2, extra) ← extra_loop (Z.to_nat (e_extra_size e)) extra;
      out3 ← apply_entries entries old_data (entry_seek old_pos e) diff extra;
      Ok (out1 ++ out2 ++ out3)
  end.

Definition apply_patch_with_data (old_data : bytes) (control_block : ControlBlock) (diff_data extra_data : bytes)
    (expected_output_size : Z) : zresult bytes :=
  output ← apply_entries control_block old_data 0 diff_data extra_data;
  if negb (Z.of_nat (length output) =? expected_output_size)
  then Err (SizeMismatch expected_output_size (Z.of_nat (length output)))
  else Ok output.

(** *** The streaming patcher, over a source whose seeks and reads succeed *)

Record ZbsdiffPatcher := { old_file : bytes; output_capacity : Z; buffer_size : nat }.

Definition patcher_new (old_file : bytes) (output_size : Z) : ZbsdiffPatcher :=
  {| old_file := old_file; output_capacity := output_size; buffer_size := 8192 |}.

Definition with_buffer_size (p : ZbsdiffPatcher) (n : nat) : ZbsdiffPatcher :=
  {| old_file := old_file p; output_capacity := output_capacity p; buffer_size := Nat.max n 1024 |}.

Definition get_old_file_size (p : ZbsdiffPatcher) : Z := Z.of_nat (length (old_file p)).

Definition read_old_chunk (p : ZbsdiffPatcher) (pos : Z) (size : nat) (old_file_size : Z) : bytes :=
  if pos <? old_file_size then
    let available := Z.to_nat (Z.min (old_file_size - pos) (Z.of_nat size)) in
    copy_at 0 (take available (drop (Z.to_nat pos) (old_file p))) (zeros size)
  else zeros size.

(** [read_exact] on a cursor: the bytes and what is left. *)
Definition read_exact (n : nat) (data : bytes) : zresult (bytes * bytes) :=
  if (length data <? n)%nat then Err CompressionError else Ok (take n data, drop n data).

(** [while remaining > 0], with [remaining] a [usize]; a chunk takes at least one byte
    of the data or fails, so more fuel than the data has bytes is enough. *)
Fixpoint apply_diff_block (fuel : nat) (p : ZbsdiffPatcher) (diff : bytes) (old_pos remaining old_file_size : Z) :
    zresult (bytes * Z * bytes) :=
  if 0 <? remaining then
    match fuel with
    | O => Err SeekError
    | S fuel =>
        let chunk_size := Z.to_nat (Z.min remaining (Z.of_nat (buffer_size p))) in
        '(diff_chunk, diff) ← read_exact chunk_size diff;
        let old_chunk := read_old_chunk p old_pos chunk_size old_file_size in
        '(out, old_pos, diff) ←
          apply_diff_block fuel p diff (wrap64 (old_pos + Z.of_nat chunk_size)) (remaining - Z.of_nat chunk_size) old_file_size;
        Ok (zip_with apply_diff_byte old_chunk diff_chunk ++ out, old_pos, diff)
    end
  else Ok ([], old_pos, diff).

Fixpoint copy_extra_block (fuel : nat) (p : ZbsdiffPatcher) (extra : bytes) (remaining : Z) : zresult (bytes * bytes) :=
  if 0 <? remaining then
    match fuel with
    | O => Err SeekError
    | S fuel =>
        let chunk_size := Z.to_nat (Z.min remaining (Z.of_nat (buffer_size p))) in
        '(chunk, extra) ← read_exact chunk_size extra;
        '(out, extra) ← copy_extra_block fuel p extra (remaining - Z.of_nat chunk_size);
        Ok (chunk ++ out, extra)
    end
  else Ok ([], extra).

(** [entry.diff_size as usize] wraps a negative size to one that no data satisfies. *)
Fixpoint stream_entries (entries : list ControlEntry) (p : ZbsdiffPatcher) (old_pos : Z) (diff extra : bytes) (old_file_size : Z) :
    zresult bytes :=
  match entries with
  | [] => Ok []
  | e :: entries =>
      '(out1, old_pos, diff) ← apply_diff_block (S (length diff)) p diff old_pos (wrap64 (e_diff_size e)) old_file_size;
      '(out2, extra) ← copy_extra_block (S (length extra)) p extra (wrap64 (e_extra_size e));
      out3 ← stream_entries entries p (entry_seek old_pos e) diff extra old_file_size;
      Ok (out1 ++ out2 ++ out3)
  end.

Definition apply_patch (p : ZbsdiffPatcher) (control_block : ControlBlock) (diff_data extra_data : bytes) : zresult bytes :=
  output ← stream_entries control_block p 0 diff_data extra_data (get_old_file_size p);
  if negb (Z.of_nat (length output) =? output_capacity p)
  then Err (SizeMismatch (output_capacity p) (Z.of_nat (length output)))
  else Ok output.

(** ** The bsdiff algorithm

    Positions are [usize] values bounded by the lengths of the two slices.  An index
    out of range is a panic, and so is a subtraction below zero, as in the debug
    profile. *)

Definition idx (l : bytes) (i : nat) : outcome Z := match l !! i with Some x => Ret x | None => Panic end.
Definition usub (a b : nat) : outcome nat := if (b <=? a)%nat then Ret (a - b)%nat else Panic.

Fixpoint matchlen (a b : bytes) : nat :=
  match a, b with
  | x :: a, y :: b => if x =? y then S (matchlen a b) else O
  | _, _ => O
  end.

(** [&old[pos..]], a panic behind the end. *)
Definition suffix_at (old : bytes) (pos : nat) : outcome bytes :=
  if (pos <=? length old)%nat then Ret (drop pos old) else Panic.

(** [sa[i] as usize] of an [i32]. *)
Definition sa_at (sa : list Z) (i : nat) : outcome nat :=
  match sa !! i with Some p => Ret (Z.to_nat (wrap64 p)) | None => Panic end.

(** [while en - st > 1]. *)
Fixpoint search_loop (fuel : nat) (sa : list Z) (old new_data : bytes) (st en : nat) : outcome (nat * nat) :=
  match fuel with
  | O => Panic
  | S fuel =>
      d ← usub en st;
      if (1 <? d)%nat then
        let pivot := (st + d / 2)%nat in
        pivot_pos ← sa_at sa pivot;
        suffix ← suffix_at old pivot_pos;
        let pivot_len := matchlen suffix new_data in
        right ← (if (pivot_len =? length new_data)%nat then Ret true
                 else if (pivot_pos + pivot_len <? length old)%nat then
                   a ← idx old (pivot_pos + pivot_len); b ← idx new_data pivot_len; Ret (a <? b)
                 else Ret false);
        if right : bool then search_loop fuel sa old new_data pivot en else search_loop fuel sa old new_data st pivot
      else Ret (st, en)
  end.

Definition search (sa : list Z) (old new_data : bytes) : outcome (nat * nat) :=
  match sa, new_data with
  | [], _ | _, [] => Ret (0%nat, 0%nat)
  | _, _ =>
      '(st, en) ← search_loop (length sa) sa old new_data 0 (length sa - 1);
      start_pos ← sa_at sa st;
      end_pos ← sa_at sa en;
      start_suffix ← suffix_at old start_pos;
      end_suffix ← suffix_at old end_pos;
      let start_len := matchlen start_suffix new_data in
      let end_len := matchlen end_suffix new_data in
      Ret (if (end_len <? start_len)%nat then (start_pos, start_len) else (end_pos, end_len))
  end.

Section Diff.

Context (sa : list Z) (old new : bytes).

Definition old_size : nat := length old.
Definition new_size : nat := length new.

(** [old_idx < old_size && old[old_idx] == new[i]] for [old_idx = i + lastoffset],
    an [i64] sum cast to [usize]. *)
Definition drift_match (lastoffset : Z) (i : nat) : outcome bool :=
  let old_idx := wrap64 (Z.of_nat i + lastoffset) in
  if old_idx <? Z.of_nat old_size then
    a ← idx old (Z.to_nat old_idx); b ← idx new i; Ret (a =? b)
  else Ret false.

(** [while scsc < scan + len], [n] steps. *)
Fixpoint count_drift (n : nat) (lastoffset : Z) (scsc oldscore : nat) : outcome nat :=
  match n with
  | O => Ret oldscore
  | S n => m ← drift_match lastoffset scsc; count_drift n lastoffset (S scsc) (if m : bool then S oldscore else oldscore)
  end.

(** The inner [while scan < new_size]: where it stops, with the score and the last
    match. *)
Fixpoint scan_loop (fuel : nat) (lastoffset : Z) (scan scsc oldscore pos len : nat) : outcome (nat * nat * nat * nat) :=
  match fuel with
  | O => Panic
  | S fuel =>
      if (scan <? new_size)%nat then
        '(pos, len) ← search sa old (drop scan new);
        oldscore ← count_drift (scan + len - scsc) lastoffset scsc oldscore;
        let scsc := Nat.max scsc (scan + len) in
        if ((len =? oldscore) && negb (len =? 0) || (oldscore + 8 <? len))%nat then Ret (scan, oldscore, pos, len)
        else
          m ← drift_match lastoffset scan;
          oldscore ← (if m : bool then usub oldscore 1 else Ret oldscore);
          scan_loop fuel lastoffset (S scan) scsc oldscore pos len
      else Ret (scan, oldscore, pos, len)
  end.

(** Forward extension from [lastscan]: the length with the best score. *)
Fixpoint forward_loop (fuel : nat) (scan lastscan lastpos i : nat) (s sf : Z) (lenf : nat) : outcome nat :=
  match fuel with
  | O => Panic
  | S fuel =>
      if ((lastscan + i <? scan) && (lastpos + i <? old_size))%nat then
        a ← idx old (lastpos + i);
        b ← idx new (lastscan + i);
        let s := if a =? b then s + 1 else s in
        let i := S i in
        let '(sf, lenf) :=
          if sf * 2 - Z.of_nat lenf <? s * 2 - Z.of_nat i then (s, i) else (sf, lenf) in
        forward_loop fuel scan lastscan lastpos i s sf lenf
      else Ret lenf
  end.

(** Backward extension from the match. *)
Fixpoint backward_loop (fuel : nat) (scan lastscan pos i : nat) (s sb : Z) (lenb : nat) : outcome nat :=
  match fuel with
  | O => Panic
  | S fuel =>
      if ((lastscan + i <=? scan) && (i <=? pos))%nat then
        a ← idx old (pos - i);
        b ← idx new (scan - i);
        let s := if a =? b then s + 1 else s in
        let '(sb, lenb) :=
          if sb * 2 - Z.of_nat lenb <? s * 2 - Z.of_nat i then (s, i) else (sb, lenb) in
        backward_loop fuel scan lastscan pos (S i) s sb lenb
      else Ret lenb
  end.

(** [for i in 0..overlap], [n] steps from [i]; [f] and [b] are the starts of the
    overlap in the new data, [fo] and [bo] in the old data. *)
Fixpoint overlap_loop (n i f fo b bo : nat) (s ss : Z) (lens : nat) : outcome nat :=
  match n with
  | O => Ret lens
  | S n =>
      x ← idx new (f + i);
      y ← idx old (fo + i);
      let s := if x =? y then s + 1 else s in
      x ← idx new (b + i);
      y ← idx old (bo + i);
      let s := if x =? y then s - 1 else s in
      let '(ss, lens) := if ss <? s then (s, S i) else (ss, lens) in
      overlap_loop n (S i) f fo b bo s ss lens
  end.

Record DiffResult := { control : list ControlEntry; diff_data : bytes; extra_data : bytes }.

Record DiffState := {
  scan : nat; len : nat; pos : nat; lastscan : nat; lastpos : nat; lastoffset : Z; result_ : DiffResult }.

(** The bytes [new[lastscan + i] - old[lastpos + i]] for [i] in [0..n]. *)
Fixpoint collect_diff (n lastscan lastpos : nat) : outcome bytes :=
  match n with
  | O => Ret []
  | S n =>
      a ← idx new lastscan;
      b ← idx old lastpos;
      out ← collect_diff n (S lastscan) (S lastpos);
      Ret (wrap8 (a - b) :: out)
  end.

(** Overlap resolution: the final forward and backward lengths. *)
Definition resolve_overlap (scan lastscan lastpos pos lenf lenb : nat) : outcome (nat * nat) :=
  start ← usub scan lenb;
  if (start <? lastscan + lenf)%nat then
    let overlap := (lastscan + lenf - start)%nat in
    f ← usub (lastscan + lenf) overlap;
    fo ← usub (lastpos + lenf) overlap;
    bo ← usub pos lenb;
    lens ← overlap_loop overlap 0 f fo start bo 0 0 0;
    lenf ← usub (lenf + lens) overlap;
    lenb ← usub lenb lens;
    Ret (lenf, lenb)
  else Ret (lenf, lenb).

(** The branch that emits a control entry. *)
Definition emit (st : DiffState) : outcome DiffState :=
  lenf ← forward_loop (S (scan st)) (scan st) (lastscan st) (lastpos st) 0 0 0 0;
  lenb ← (if (scan st <? new_size)%nat then backward_loop (S (scan st)) (scan st) (lastscan st) (pos st) 1 0 0 0 else Ret 0%nat);
  '(lenf, lenb) ← resolve_overlap (scan st) (lastscan st) (lastpos st) (pos st) lenf lenb;
  diff ← collect_diff lenf (lastscan st) (lastpos st);
  let extra_start := (lastscan st + lenf)%nat in
  extra_end ← usub (scan st) lenb;
  let extra := if (extra_start <? extra_end)%nat then slice extra_start extra_end new else [] in
  extra_size ← usub extra_end extra_start;
  let seek_offset := (Z.of_nat (pos st) - Z.of_nat lenb) - (Z.of_nat (lastpos st) + Z.of_nat lenf) in
  let entry := {| e_diff_size := Z.of_nat lenf; e_extra_size := Z.of_nat extra_size; e_seek_offset := seek_offset |} in
  new_lastpos ← usub (pos st) lenb;
  Ret {| scan := scan st; len := len st; pos := pos st; lastscan := extra_end; lastpos := new_lastpos;
         lastoffset := Z.of_nat (pos st) - Z.of_nat (scan st);
         result_ := {| control := control (result_ st) ++ [entry]; diff_data := diff_data (result_ st) ++ diff;
                       extra_data := extra_data (result_ st) ++ extra |} |}.

(** The outer [while scan < new_size]. *)
Fixpoint diff_outer (fuel : nat) (st : DiffState) : outcome DiffResult :=
  match fuel with
  | O => Panic
  | S fuel =>
      if (scan st <? new_size)%nat then
        let start := (scan st + len st)%nat in
        '(scan, oldscore, pos, len) ← scan_loop (S new_size) (lastoffset st) start start 0 (pos st) (len st);
        let st := {| scan := scan; len := len; pos := pos; lastscan := lastscan st; lastpos := lastpos st;
                     lastoffset := lastoffset st; result_ := result_ st |} in
        st ← (if (negb (len =? oldscore) || (scan =? new_size))%nat then emit st else Ret st);
        diff_outer fuel st
      else Ret (result_ st)
  end.

Definition diff_start : DiffState :=
  {| scan := 0; len := 0; pos := 0; lastscan := 0; lastpos := 0; lastoffset := 0;
     result_ := {| control := []; diff_data := []; extra_data := [] |} |}.

Definition compute_diff : outcome DiffResult := diff_outer (S (S new_size)) diff_start.

End Diff.

(** ** Building a patch *)

Record ZbsdiffBuilder := { old_data : bytes; new_data : bytes; max_diff_block_size : nat }.

Definition builder_new (old_data new_data : bytes) : ZbsdiffBuilder :=
  {| old_data := old_data; new_data := new_data; max_diff_block_size := 1024 * 1024 |}.

Definition with_max_diff_block_size (b : ZbsdiffBuilder) (size : nat) : ZbsdiffBuilder :=
  {| old_data := old_data b; new_data := new_data b; max_diff_block_size := size |}.

(** [find_matching_chunk]: the common prefix, cut at the block size. *)
Fixpoint match_loop (n : nat) (old new : bytes) : nat :=
  match n, old, new with
  | S n, x :: old, y :: new => if x =? y then S (match_loop n old new) else O
  | _, _, _ => O
  end.

Definition find_matching_chunk (b : ZbsdiffBuilder) (old_pos new_pos : nat) : nat :=
  let max_size := Nat.min (Nat.min (max_diff_block_size b) (length (old_data b) - old_pos)) (length (new_data b) - new_pos) in
  match_loop max_size (drop old_pos (old_data b)) (drop new_pos (new_data b)).

Definition find_extra_chunk_size (b : ZbsdiffBuilder) (new_pos : nat) : nat :=
  Nat.min (length (new_data b) - new_pos) 256.

Definition diff_bytes (old new : bytes) : bytes := zip_with (fun o n => wrap8 (n - o)) old new.

(** The loop of [build_chunked_patch]; every round takes at least one byte of the new
    data. *)
Fixpoint chunked_loop (fuel : nat) (b : ZbsdiffBuilder) (old_pos new_pos : nat) : DiffResult :=
  match fuel with
  | O => {| control := []; diff_data := []; extra_data := [] |}
  | S fuel =>
      if (new_pos <? length (new_data b))%nat then
        let chunk_size := find_matching_chunk b old_pos new_pos in
        if (4 <=? chunk_size)%nat then
          let diff := diff_bytes (slice old_pos (old_pos + chunk_size) (old_data b)) (slice new_pos (new_pos + chunk_size) (new_data b)) in
          let r := chunked_loop fuel b (old_pos + chunk_size) (new_pos + chunk_size) in
          {| control := {| e_diff_size := Z.of_nat chunk_size; e_extra_size := 0; e_seek_offset := 0 |} :: control r;
             diff_data := diff ++ diff_data r; extra_data := extra_data r |}
        else
          let extra_chunk_size := find_extra_chunk_size b new_pos in
          let r := chunked_loop fuel b old_pos (new_pos + extra_chunk_size) in
          {| control := {| e_diff_size := 0; e_extra_size := Z.of_nat extra_chunk_size; e_seek_offset := Z.of_nat old_pos |} :: control r;
             diff_data := diff_data r;
             extra_data := slice new_pos (new_pos + extra_chunk_size) (new_data b) ++ extra_data r |}
      else {| control := []; diff_data := []; extra_data := [] |}
  end.

Record PatchAnalysis := { total_diff_bytes : nat; total_extra_bytes : nat; total_match_bytes : nat }.

Fixpoint analyze_loop (fuel : nat) (b : ZbsdiffBuilder) (old_pos new_pos : nat) (a : PatchAnalysis) : PatchAnalysis :=
  match fuel with
  | O => a
  | S fuel =>
      if (new_pos <? length (new_data b))%nat then
        let match_size := find_matching_chunk b old_pos new_pos in
        if (4 <=? match_size)%nat then
          analyze_loop fuel b (old_pos + match_size) (new_pos + match_size)
            {| total_diff_bytes := total_diff_bytes a + match_size; total_extra_bytes := total_extra_bytes a;
               total_match_bytes := total_match_bytes a + match_size |}
        else
          let extra_size := find_extra_chunk_size b new_pos in
          analyze_loop fuel b old_pos (new_pos + extra_size)
            {| total_diff_bytes := total_diff_bytes a; total_extra_bytes := total_extra_bytes a + extra_size;
               total_match_bytes := total_match_bytes a |}
      else a
  end.

Definition analyze_patch (b : ZbsdiffBuilder) : PatchAnalysis :=
  analyze_loop (length (new_data b)) b 0 0 {| total_diff_bytes := 0; total_extra_bytes := 0; total_match_bytes := 0 |}.

Section Codec.

Context (zlib_compress zlib_decompress : bytes -> option bytes).
Context (sort_in_place : bytes -> list Z).

Definition compress_zlib (data : bytes) : zresult bytes := ok_or (zlib_compress data) CompressionError.
Definition decompress_zlib (data : bytes) : zresult bytes := ok_or (zlib_decompress data) DecompressionError.

Definition from_compressed (data : bytes) : zresult ControlBlock :=
  decompressed ← decompress_zlib data;
  entries ← parse_entries (length decompressed) decompressed;
  match entries with [] => Err EmptyControlBlock | _ => Ok entries end.

Definition to_compressed (block : ControlBlock) : zresult bytes := compress_zlib (concat (entry_bytes <$> block)).

(** The header and the two compressed blocks it measures; the rest is the third. *)
Definition read_blocks (patch_data : bytes) : zresult (ZbsdiffHeader * bytes * bytes * bytes) :=
  '(header, rest) ← header_read patch_data;
  _ ← header_validate header;
  '(control_compressed, rest) ← read_exact (Z.to_nat (control_size header)) rest;
  '(diff_compressed, extra_compressed) ← read_exact (Z.to_nat (diff_size header)) rest;
  Ok (header, control_compressed, diff_compressed, extra_compressed).

Definition apply_patch_memory (old_data patch_data : bytes) : zresult bytes :=
  '(header, control_compressed, diff_compressed, extra_compressed) ← read_blocks patch_data;
  control_block ← from_compressed control_compressed;
  diff_data ← decompress_zlib diff_compressed;
  extra_data ← decompress_zlib extra_compressed;
  apply_patch_with_data old_data control_block diff_data extra_data (output_size header).

Definition apply_patch_from_data (p : ZbsdiffPatcher) (patch_data : bytes) : zresult bytes :=
  '(header, control_compressed, diff_compressed, extra_compressed) ← read_blocks patch_data;
  control_block ← from_compressed control_compressed;
  diff_data ← decompress_zlib diff_compressed;
  extra_data ← decompress_zlib extra_compressed;
  apply_patch p control_block diff_data extra_data.

Definition build_patch_internal (b : ZbsdiffBuilder) (control_block : ControlBlock) (diff_data extra_data : bytes) : zresult bytes :=
  control_compressed ← to_compressed control_block;
  diff_compressed ← compress_zlib diff_data;
  extra_compressed ← compress_zlib extra_data;
  let header := {| signature := ZBSDIFF1_SIGNATURE; control_size := Z.of_nat (length control_compressed);
                   diff_size := Z.of_nat (length diff_compressed); output_size := Z.of_nat (length (new_data b)) |} in
  _ ← header_validate header;
  Ok (header_write header ++ control_compressed ++ diff_compressed ++ extra_compressed).

Definition build_simple_patch (b : ZbsdiffBuilder) : zresult bytes :=
  block ← with_entries [{| e_diff_size := 0; e_extra_size := Z.of_nat (length (new_data b)); e_seek_offset := 0 |}];
  build_patch_internal b block [] (new_data b).

Definition build_chunked_patch (b : ZbsdiffBuilder) : zresult bytes :=
  let r := chunked_loop (length (new_data b)) b 0 0 in
  block ← with_entries (control r);
  build_patch_internal b block (diff_data r) (extra_data r).

Definition build_optimized_patch (b : ZbsdiffBuilder) : outcome (zresult bytes) :=
  let sa := if (0 <? length (old_data b))%nat then sort_in_place (old_data b) else [] in
  r ← compute_diff sa (old_data b) (new_data b);
  match control r with
  | [] => Ret (build_simple_patch b)
  | _ => Ret (block ← with_entries (control r); build_patch_internal b block (diff_data r) (extra_data r))
  end.

Definition build (b : ZbsdiffBuilder) : outcome (zresult bytes) := build_optimized_patch b.

(** *** The parsed patch *)

Record ZbsDiff := { header : ZbsdiffHeader; control_data : bytes; diff_data_ : bytes; extra_data_ : bytes }.

Definition zbs_parse (data : bytes) : zresult ZbsDiff :=
  '(header, control_data, diff_data, extra_data) ← read_blocks data;
  Ok {| header := header; control_data := control_data; diff_data_ := diff_data; extra_data_ := extra_data |}.

Definition zbs_build (z : ZbsDiff) : bytes := header_write (header z) ++ control_data z ++ diff_data_ z ++ extra_data_ z.
Definition zbs_apply (z : ZbsDiff) (old_data : bytes) : zresult bytes := apply_patch_memory old_data (zbs_build z).
Definition zbs_output_size (z : ZbsDiff) : Z := wrap64 (output_size (header z)).
Definition zbs_control_block (z : ZbsDiff) : zresult ControlBlock := from_compressed (control_data z).
Definition zbs_diff_data (z : ZbsDiff) : zresult bytes := decompress_zlib (diff_data_ z).
Definition zbs_extra_data (z : ZbsDiff) : zresult bytes := decompress_zlib (extra_data_ z).

End Codec.

End Zbsdiff.
