(* ===== verification/ZbsdiffTheorems.v ===== *)
(** * Correctness of ZBSDIFF1 patches

    Every patch the bsdiff builder makes turns the old data into the new data, in
    memory and from a stream; the builder never panics and ends. *)

From S2P Require Import Prelude Bytes Zbsdiff.
Import Zbsdiff.
Local Open Scope Z_scope.

(** ** Integers *)

Definition i64 (x : Z) : Prop := - 2 ^ 63 <= x < 2 ^ 63.

Lemma i64_roundtrip v : i64 v -> i64_from_le (i64_to_le v) = v.
Proof.
  intros Hv. unfold i64_from_le, i64_to_le. rewrite from_to_le_bytes. change (256 ^ Z.of_nat 8) with (2 ^ 64). unfold wrap64, wrap, i64 in *.
  rewrite Z.mod_mod by lia. destruct (Z.lt_ge_cases v 0) as [Hneg|Hpos].
  - assert (v mod 2 ^ 64 = v + 2 ^ 64) as -> by (symmetry; apply (Z.mod_unique v (2 ^ 64) (-1)); lia).
    destruct (Z.ltb_spec (v + 2 ^ 64) (2 ^ 63)); lia.
  - rewrite Z.mod_small by lia. destruct (Z.ltb_spec v (2 ^ 63)); lia.
Qed.

Lemma length_i64_to_le v : length (i64_to_le v) = 8%nat.
Proof. apply length_to_le_bytes. Qed.

(** The bits of the top byte of a non-negative [i64]. *)
Lemma top_byte_bits b : 0 <= b < 128 ->
  Z.land b 0x7F = b /\ Z.land b 0x80 = 0 /\ Z.land (Z.lor b 0x80) 0x7F = b /\ Z.land (Z.lor b 0x80) 0x80 <> 0.
Proof.
  intros Hb. assert (forallb (fun i => let b := Z.of_nat i in (Z.land b 0x7F =? b) && (Z.land b 0x80 =? 0) &&
    (Z.land (Z.lor b 0x80) 0x7F =? b) && negb (Z.land (Z.lor b 0x80) 0x80 =? 0)) (seq 0 128) = true) as H by (by vm_compute).
  rewrite forallb_forall in H. specialize (H (Z.to_nat b) ltac:(apply List.in_seq; lia)). cbv beta zeta in H. rewrite Z2Nat.id in H by lia.
  rewrite !andb_true_iff, negb_true_iff, !Z.eqb_eq, Z.eqb_neq in H. tauto.
Qed.

Lemma magnitude_parts m : 0 <= m < 2 ^ 63 -> exists l b, i64_to_le m = l ++ [b] /\ length l = 7%nat /\ 0 <= b < 128.
Proof.
  intros Hm. pose proof (length_i64_to_le m) as L. destruct (list_snoc_cases (i64_to_le m)) as [E|(l & b & E)]; [by rewrite E in L|].
  exists l, b. rewrite E, length_app in L. simpl in L. split; [done|]. split; [lia|].
  assert (is_bytes (l ++ [b])) as Hb by (rewrite <- E; apply to_le_bytes_bytes). apply is_bytes_app in Hb as [Hl Hb]. apply Forall_singleton in Hb.
  assert (from_le_bytes (l ++ [b]) = m) as Em.
  { rewrite <- E. unfold i64_to_le. rewrite from_to_le_bytes. change (256 ^ Z.of_nat 8) with (2 ^ 64). unfold wrap64, wrap.
    rewrite Z.mod_mod, Z.mod_small by lia. done. }
  pose proof (from_le_bytes_range l Hl) as Hr. rewrite from_le_bytes_app in Em. replace (length l) with 7%nat in Em, Hr by lia.
  cbn [from_le_bytes] in Em. change (256 ^ Z.of_nat 7) with (2 ^ 56) in Em, Hr. unfold in_u in Hb. lia.
Qed.

Lemma nth_snoc (l : bytes) b n : length l = n -> nth n (l ++ [b]) 0 = b.
Proof. intros <-. by rewrite nth_middle. Qed.

Lemma offt_roundtrip v : - 2 ^ 63 < v < 2 ^ 63 -> offtin (offtout v) = v.
Proof.
  intros Hv. unfold offtout. destruct (v <? 0) eqn:Es; cbn beta iota zeta.
  - apply Z.ltb_lt in Es. destruct (magnitude_parts (- v) ltac:(lia)) as (l & b & E & L & Hb). rewrite E.
    destruct (top_byte_bits b Hb) as (H1 & H2 & H3 & H4).
    rewrite take_app_length', (nth_snoc l _ 7) by done. unfold offtin. rewrite take_app_length', (nth_snoc l _ 7) by done. rewrite H3, <- E, i64_roundtrip by (unfold i64; lia).
    rewrite (proj2 (Z.eqb_neq _ _) H4). cbn [negb]. lia.
  - apply Z.ltb_ge in Es. destruct (magnitude_parts v ltac:(lia)) as (l & b & E & L & Hb). destruct (top_byte_bits b Hb) as (H1 & H2 & _).
    unfold offtin. rewrite E. rewrite take_app_length', (nth_snoc l _ 7) by done. rewrite H1, H2, <- E, i64_roundtrip by (unfold i64; lia). done.
Qed.

Lemma length_offtout v : length (offtout v) = 8%nat.
Proof.
  unfold offtout. destruct (v <? 0); cbn beta iota zeta; [|apply length_i64_to_le].
  rewrite length_app, length_take, length_i64_to_le. done.
Qed.

(** ** The header and the control block *)

Lemma header_codec h rest :
  signature h = ZBSDIFF1_SIGNATURE -> i64 (control_size h) -> i64 (diff_size h) -> i64 (output_size h) ->
  header_read (header_write h ++ rest) = Ok (h, rest).
Proof.
  intros Hs Hc Hd Ho. unfold header_read. set (data := header_write h ++ rest).
  assert (data = to_le_bytes 8 (signature h) ++ i64_to_le (control_size h) ++ i64_to_le (diff_size h) ++ i64_to_le (output_size h) ++ rest) as E
    by (unfold data, header_write; by rewrite <- !app_assoc).
  assert (32 <= length data)%nat as L by (rewrite E, !length_app, length_to_le_bytes, !length_i64_to_le; lia).
  rewrite (proj2 (Nat.ltb_ge _ _)) by lia.
  assert (take 8 data = to_le_bytes 8 (signature h)) as E1 by (rewrite E; by rewrite take_app_length' by (by rewrite length_to_le_bytes)).
  assert (from_le_bytes (take 8 data) = signature h) as E1' by (rewrite E1, Hs; by vm_compute).
  rewrite E1', Hs, Z.eqb_refl. cbn [negb]. rewrite (proj2 (Nat.ltb_ge _ _)) by lia.
  assert (slice 8 16 data = i64_to_le (control_size h)) as ->.
  { rewrite E, slice_app_r by (rewrite length_to_le_bytes; lia). rewrite length_to_le_bytes. by apply slice_app_exact; rewrite length_i64_to_le. }
  assert (slice 16 24 data = i64_to_le (diff_size h)) as ->.
  { rewrite E, slice_app_r by (rewrite length_to_le_bytes; lia). rewrite slice_app_r by (rewrite length_to_le_bytes, length_i64_to_le; lia).
    rewrite length_to_le_bytes, length_i64_to_le. by apply slice_app_exact; rewrite length_i64_to_le. }
  assert (slice 24 32 data = i64_to_le (output_size h)) as ->.
  { rewrite E, slice_app_r by (rewrite length_to_le_bytes; lia). rewrite !slice_app_r by (rewrite length_to_le_bytes, !length_i64_to_le; lia).
    rewrite length_to_le_bytes, !length_i64_to_le. by apply slice_app_exact; rewrite length_i64_to_le. }
  assert (drop 32 data = rest) as -> by (unfold data, header_write; apply drop_app_length'; by rewrite !length_app, length_to_le_bytes, !length_i64_to_le).
  rewrite !i64_roundtrip by done. destruct h; cbn in *. by subst.
Qed.

Lemma header_validate_ok h :
  header_validate h = Ok tt <-> signature h = ZBSDIFF1_SIGNATURE /\ 0 <= control_size h /\ 0 <= diff_size h /\
    0 <= output_size h <= MAX_SIZE /\ control_size h + diff_size h <= MAX_SIZE.
Proof.
  unfold header_validate, checked_add, MAX_SIZE. destruct (Z.eqb_spec (signature h) ZBSDIFF1_SIGNATURE); cbn [negb]; [|split; [done|tauto]].
  repeat match goal with |- context [if ?a <? ?b then _ else _] => destruct (Z.ltb_spec a b); [split; [done|lia]|] end.
  destruct ((- 2 ^ 63 <=? _) && _) eqn:E.
  - destruct (Z.ltb_spec 1000000000 (control_size h + diff_size h)); split; (done || lia).
  - apply andb_false_iff in E as [E|E]; [apply Z.leb_gt in E|apply Z.ltb_ge in E]; lia.
Qed.

(** An entry that is written and read back. *)
Definition entry_ok (e : ControlEntry) : Prop := entry_validate e = Ok tt /\ - 2 ^ 63 < e_seek_offset e < 2 ^ 63.

Lemma entry_validate_ok e : entry_validate e = Ok tt <-> 0 <= e_diff_size e <= MAX_OP_SIZE /\ 0 <= e_extra_size e <= MAX_OP_SIZE.
Proof.
  unfold entry_validate.
  repeat match goal with |- context [if ?a <? ?b then _ else _] => destruct (Z.ltb_spec a b); [split; [done|lia]|] end. split; (done || lia).
Qed.

Lemma length_entry_bytes e : length (entry_bytes e) = 24%nat.
Proof. unfold entry_bytes. by rewrite !length_app, !length_offtout. Qed.

Lemma parse_entries_ok fuel entries :
  Forall entry_ok entries -> (length entries <= fuel)%nat -> parse_entries fuel (concat (entry_bytes <$> entries)) = Ok entries.
Proof.
  intros H. revert fuel. induction H as [|e entries [Hv Hs] _ IH]; intros fuel Hf; [by destruct fuel|].
  destruct fuel as [|fuel]; [simpl in Hf; lia|]. rewrite fmap_cons. cbn [concat]. set (rest := concat _) in *. set (data := entry_bytes e ++ rest).
  assert (data = offtout (e_diff_size e) ++ offtout (e_extra_size e) ++ offtout (e_seek_offset e) ++ rest) as E
    by (unfold data, entry_bytes; by rewrite <- !app_assoc).
  pose proof (proj1 (entry_validate_ok e) Hv) as Hr. unfold MAX_OP_SIZE in Hr.
  assert (length data = 24 + length rest)%nat as L by (unfold data; by rewrite length_app, length_entry_bytes).
  cbn [parse_entries]. destruct data as [|b data'] eqn:Ed; [simpl in L; lia|]. rewrite <- Ed in *. clear Ed.
  rewrite (proj2 (Nat.ltb_ge _ _)) by lia.
  assert (slice 0 8 data = offtout (e_diff_size e)) as -> by (rewrite E; apply slice_app_exact; by rewrite length_offtout).
  assert (slice 8 16 data = offtout (e_extra_size e)) as ->.
  { rewrite E, slice_app_r by (rewrite length_offtout; lia). rewrite length_offtout. apply slice_app_exact; by rewrite length_offtout. }
  assert (slice 16 24 data = offtout (e_seek_offset e)) as ->.
  { rewrite E, !slice_app_r by (rewrite !length_offtout; lia). rewrite !length_offtout. apply slice_app_exact; by rewrite length_offtout. }
  rewrite !offt_roundtrip by lia.
  assert ({| e_diff_size := e_diff_size e; e_extra_size := e_extra_size e; e_seek_offset := e_seek_offset e |} = e) as -> by (by destruct e).
  rewrite Hv. cbn [mbind result_bind].
  assert (drop 24 data = rest) as ->.
  { rewrite E, !app_assoc. apply drop_app_length'. by rewrite !length_app, !length_offtout. }
  rewrite IH by (simpl in Hf; lia). done.
Qed.

Lemma with_entries_ok entries : with_entries entries = Ok entries <-> entries <> [] /\ Forall (fun e => entry_validate e = Ok tt) entries.
Proof.
  assert (forall i, validate_from i entries = Ok tt <-> Forall (fun e => entry_validate e = Ok tt) entries) as H.
  { induction entries as [|e entries IH]; intros i; cbn [validate_from]; [split; [constructor|done]|]. rewrite Forall_cons.
    destruct (entry_validate e) as [[]|] eqn:Ee; [rewrite IH|]; naive_solver. }
  unfold with_entries, block_validate. destruct entries as [|e entries]; [split; [done|naive_solver]|]. rewrite <- (H 0%nat).
  destruct (validate_from 0 (e :: entries)) as [[]|]; cbn; naive_solver.
Qed.

Lemma with_entries_inv entries block : with_entries entries = Ok block -> block = entries /\ with_entries entries = Ok entries.
Proof. intros H. assert (block = entries) as ->; [|done]. unfold with_entries in H. destruct (block_validate entries); [by injection H as <-|done]. Qed.

(** ** One entry, written and applied *)

Lemma idx_Some l i x : l !! i = Some x -> idx l i = Ret x.
Proof. intros H. unfold idx. by rewrite H. Qed.

Lemma idx_ret l i : (i < length l)%nat -> exists x, idx l i = Ret x /\ l !! i = Some x.
Proof. intros H. destruct (lookup_lt_is_Some_2 l i H) as [x Hx]. exists x. split; [by apply idx_Some|done]. Qed.

Lemma usub_ret a b : (b <= a)%nat -> usub a b = Ret (a - b)%nat.
Proof. intros H. unfold usub. by rewrite (proj2 (Nat.leb_le b a)). Qed.

Lemma slice_cons (l : bytes) a n x : l !! a = Some x -> slice a (a + S n) l = x :: slice (S a) (S a + n) l.
Proof.
  intros H. unfold slice. rewrite (drop_S l x a H). replace (a + S n - a)%nat with (S n) by lia.
  replace (S a + n - S a)%nat with n by lia. done.
Qed.

Lemma take_slice (l : bytes) a b : (a <= b)%nat -> take b l = take a l ++ slice a b l.
Proof. intros H. unfold slice. rewrite take_drop_commute. replace (a + (b - a))%nat with b by lia. rewrite <- (take_drop a (take b l)) at 1.
  by rewrite take_take, Nat.min_l by lia. Qed.

Lemma slice_empty (l : bytes) a : slice a a l = [].
Proof. unfold slice. rewrite Nat.sub_diag. apply take_0. Qed.

Lemma diff_byte_undo o x : u8 x -> apply_diff_byte o (wrap8 (x - o)) = x.
Proof.
  intros Hx. unfold apply_diff_byte, wrap8, wrap. rewrite Z.add_mod_idemp_r by lia. replace (o + (x - o)) with x by lia. by apply Z.mod_small.
Qed.

Lemma old_byte old p o : old !! p = Some o -> read_old_byte_at old (Z.of_nat p) = o.
Proof.
  intros H. pose proof (lookup_lt_Some _ _ _ H). unfold read_old_byte_at. rewrite (proj2 (Z.ltb_lt _ _)) by lia. rewrite Nat2Z.id.
  by apply nth_lookup_Some.
Qed.

Lemma collect_diff_spec old new n ls lp :
  is_bytes new -> Z.of_nat (length old) < 2 ^ 63 -> (ls + n <= length new)%nat -> (lp + n <= length old)%nat ->
  exists d, collect_diff old new n ls lp = Ret d /\ length d = n /\
    forall rest, diff_loop n old (Z.of_nat lp) (d ++ rest) = Ok (slice ls (ls + n) new, Z.of_nat (lp + n), rest).
Proof.
  intros Hb Hlen. revert ls lp. induction n as [|n IH]; intros ls lp H1 H2.
  { exists []. split; [done|]. split; [done|]. intros rest. cbn. by rewrite !Nat.add_0_r, slice_empty. }
  destruct (idx_ret new ls ltac:(lia)) as (a & Ea & Ha). destruct (idx_ret old lp ltac:(lia)) as (b & Eb & Hbb).
  destruct (IH (S ls) (S lp) ltac:(lia) ltac:(lia)) as (d & Ed & Ld & Hd). exists (wrap8 (a - b) :: d). cbn [collect_diff].
  rewrite Ea, Eb, Ed. cbn [mbind outcome_bind]. split; [done|]. split; [simpl; lia|]. intros rest. cbn [app diff_loop].
  replace (wrap64 (Z.of_nat lp + 1)) with (Z.of_nat (S lp)) by (symmetry; unfold wrap64; rewrite wrap_small; unfold in_u; lia).
  rewrite Hd. cbn [mbind result_bind]. rewrite (old_byte old lp b Hbb), diff_byte_undo.
  - rewrite (slice_cons new ls n a Ha). do 4 f_equal. lia.
  - unfold is_bytes in Hb. rewrite Forall_lookup in Hb. by apply (Hb ls).
Qed.

Lemma extra_loop_spec l rest : extra_loop (length l) (l ++ rest) = Ok (l, rest).
Proof. induction l as [|x l IH]; cbn [length extra_loop app]; [done|]. rewrite IH. done. Qed.

(** ** Search *)

Lemma matchlen_bounds a b : (matchlen a b <= length a /\ matchlen a b <= length b)%nat.
Proof. revert b. induction a as [|x a IH]; intros [|y b]; simpl; try lia. destruct (x =? y); [|lia]. specialize (IH b). simpl. lia. Qed.

(** The suffix array of the old data, as the suffix sort promises it. *)
Definition suffix_array (old : bytes) (sa : list Z) : Prop :=
  sa ≡ₚ (Z.of_nat <$> seq 0 (length old)) /\
  forall i j p q, (i < j)%nat -> sa !! i = Some p -> sa !! j = Some q -> lex_lt (drop (Z.to_nat p) old) (drop (Z.to_nat q) old).

Lemma search_eq sa old c new :
  sa <> [] -> search sa old (c :: new) =
    '(st, en) ← search_loop (length sa) sa old (c :: new) 0 (length sa - 1);
    start_pos ← sa_at sa st; end_pos ← sa_at sa en; start_suffix ← suffix_at old start_pos; end_suffix ← suffix_at old end_pos;
    Ret (if (matchlen end_suffix (c :: new) <? matchlen start_suffix (c :: new))%nat then (start_pos, matchlen start_suffix (c :: new))
         else (end_pos, matchlen end_suffix (c :: new))).
Proof. by destruct sa. Qed.

Section Search.

Context (sa : list Z) (old : bytes).
Hypothesis sorted : suffix_array old sa.
Hypothesis old_len : Z.of_nat (length old) < 2 ^ 63.

Lemma sa_length : length sa = length old.
Proof. destruct sorted as [H _]. by rewrite H, length_fmap, length_seq. Qed.

Lemma sa_elem i : (i < length sa)%nat -> exists p, sa !! i = Some (Z.of_nat p) /\ (p < length old)%nat /\ sa_at sa i = Ret p.
Proof.
  intros Hi. destruct (lookup_lt_is_Some_2 sa i Hi) as [z Hz]. destruct sorted as [Hp _].
  assert (z ∈ Z.of_nat <$> seq 0 (length old)) as Hin by (rewrite <- Hp; by eapply list_elem_of_lookup_2).
  apply list_elem_of_fmap in Hin as (p & -> & Hin). apply elem_of_seq in Hin. exists p. split; [done|]. split; [lia|].
  unfold sa_at. rewrite Hz. do 2 f_equal. unfold wrap64. rewrite wrap_small by (unfold in_u; lia). lia.
Qed.

Lemma sa_hit p : (p < length old)%nat -> exists i, sa !! i = Some (Z.of_nat p).
Proof.
  intros Hp. destruct sorted as [Hperm _]. apply list_elem_of_lookup. rewrite Hperm. apply list_elem_of_fmap. exists p. split; [done|].
  apply elem_of_seq. lia.
Qed.

(** First bytes go up along the suffix array. *)
Lemma heads_sorted i j p q x y :
  (i < j)%nat -> sa !! i = Some (Z.of_nat p) -> sa !! j = Some (Z.of_nat q) -> old !! p = Some x -> old !! q = Some y -> x <= y.
Proof.
  intros Hij Hp Hq Hx Hy. destruct sorted as [_ H]. specialize (H i j _ _ Hij Hp Hq). rewrite !Nat2Z.id in H.
  rewrite (drop_S old x p Hx), (drop_S old y q Hy) in H. unfold lex_lt in H. cbn [lex_compare] in H.
  destruct (Z.compare_spec x y); try lia. done.
Qed.

Lemma suffix_at_ret p : (p <= length old)%nat -> suffix_at old p = Ret (drop p old).
Proof. intros H. unfold suffix_at. by rewrite (proj2 (Nat.leb_le _ _)). Qed.

Lemma matchlen_head p x c new : old !! p = Some x -> ((x =? c) = true <-> (1 <= matchlen (drop p old) (c :: new))%nat).
Proof. intros H. rewrite (drop_S old x p H). cbn [matchlen]. destruct (x =? c); split; (done || lia). Qed.

(** The loop keeps a suffix that starts with the first byte of the new data between
    its bounds. *)
Lemma search_loop_spec fuel c new st en :
  (st <= en < length sa)%nat -> (en - st < fuel)%nat ->
  exists st' en', search_loop fuel sa old (c :: new) st en = Ret (st', en') /\ (st <= st' <= en' /\ en' <= en /\ en' - st' <= 1)%nat /\
    forall j p, (st <= j <= en)%nat -> sa !! j = Some (Z.of_nat p) -> old !! p = Some c ->
      exists j' p', (st' <= j' <= en')%nat /\ sa !! j' = Some (Z.of_nat p') /\ old !! p' = Some c.
Proof.
  revert st en. induction fuel as [|fuel IH]; intros st en Hse Hf; [lia|]. cbn [search_loop]. rewrite usub_ret by lia. cbn [mbind outcome_bind].
  destruct (1 <? en - st)%nat eqn:E1; [|apply Nat.ltb_ge in E1; exists st, en; split; [done|]; split; [lia|]; eauto].
  apply Nat.ltb_lt in E1. set (pivot := (st + (en - st) / 2)%nat).
  assert (st < pivot < en)%nat as Hpv.
  { unfold pivot. pose proof (Nat.div_str_pos (en - st) 2 ltac:(lia)). pose proof (Nat.div_lt (en - st) 2 ltac:(lia) ltac:(lia)). lia. }
  destruct (sa_elem pivot ltac:(lia)) as (p & Hp & Hpl & ->). cbn [mbind outcome_bind]. rewrite suffix_at_ret by lia. cbn [mbind outcome_bind].
  destruct (lookup_lt_is_Some_2 old p Hpl) as [x Hx]. set (pl := matchlen (drop p old) (c :: new)).
  pose proof (matchlen_bounds (drop p old) (c :: new)) as [B1 B2]. fold pl in B1, B2. rewrite length_drop in B1.
  match goal with |- context [?m ≫= _] => assert (exists b, m = Ret b /\ (pl = 0%nat -> b = (x <? c))) as (b & -> & Hb) end.
  { destruct (pl =? length (c :: new))%nat eqn:El; [exists true; split; [done|]; intros E0; rewrite E0 in El; simpl in El; lia|].
    apply Nat.eqb_neq in El. destruct (p + pl <? length old)%nat eqn:E2.
    - apply Nat.ltb_lt in E2. destruct (idx_ret old (p + pl) E2) as (a & -> & Ha). destruct (idx_ret (c :: new) pl ltac:(lia)) as (d & -> & Hd).
      exists (a <? d). split; [done|]. intros E0. rewrite E0 in Ha, Hd. rewrite Nat.add_0_r in Ha. simpl in Hd. congruence.
    - apply Nat.ltb_ge in E2. exists false. split; [done|]. intros E0. lia. }
  cbn [mbind outcome_bind].
  (* the side that is kept has a suffix with the byte *)
  assert (forall j q, (st <= j <= en)%nat -> sa !! j = Some (Z.of_nat q) -> old !! q = Some c ->
    exists j' q', (if b then pivot <= j' <= en else st <= j' <= pivot)%nat /\ sa !! j' = Some (Z.of_nat q') /\ old !! q' = Some c) as Hkeep.
  { intros j q Hj Hq Hc. destruct (decide (x = c)) as [->|Hne]; [exists pivot, p; split; [destruct b; lia|done]|].
    assert (pl = 0%nat) as E0.
    { destruct (Nat.eq_dec pl 0%nat); [done|]. destruct (matchlen_head p x c new Hx) as [_ H]. rewrite Z.eqb_eq in H. exfalso. apply Hne, H. unfold pl in *. lia. }
    exists j, q. split; [|done]. rewrite (Hb E0). destruct (Z.ltb_spec x c) as [Hlt|Hge].
    - destruct (Nat.lt_ge_cases j pivot) as [Hjp|]; [|lia]. pose proof (heads_sorted j pivot q p c x Hjp Hq Hp Hc Hx). lia.
    - destruct (Nat.lt_ge_cases pivot j) as [Hjp|]; [|lia]. pose proof (heads_sorted pivot j p q x c Hjp Hp Hq Hx Hc). lia. }
  destruct b.
  - destruct (IH pivot en ltac:(lia) ltac:(lia)) as (st' & en' & E & Hr & H). exists st', en'. split; [done|]. split; [lia|].
    intros j q Hj Hq Hc. destruct (Hkeep j q Hj Hq Hc) as (j' & q' & Hj' & Hq' & Hc'). by apply (H j' q').
  - destruct (IH st pivot ltac:(lia) ltac:(lia)) as (st' & en' & E & Hr & H). exists st', en'. split; [done|]. split; [lia|].
    intros j q Hj Hq Hc. destruct (Hkeep j q Hj Hq Hc) as (j' & q' & Hj' & Hq' & Hc'). by apply (H j' q').
Qed.

(** [search] gives a true match, of at least one byte when the first byte occurs. *)
Lemma search_spec new :
  exists pos len, search sa old new = Ret (pos, len) /\ (pos <= length old)%nat /\ (len <= length new)%nat /\
    forall p c, new !! 0%nat = Some c -> old !! p = Some c -> (1 <= len)%nat.
Proof.
  destruct (decide (sa = [])) as [Esa|Hne].
  { exists 0%nat, 0%nat. split; [by rewrite Esa|]. split; [lia|]. split; [lia|]. intros p c _ Hp. apply lookup_lt_Some in Hp.
    pose proof sa_length as L. rewrite Esa in L. simpl in L. lia. }
  destruct new as [|c new]; [exists 0%nat, 0%nat; split; [unfold search; by destruct sa|]; split; [lia|]; split; [simpl; lia|]; done|].
  rewrite search_eq by done. assert (0 < length sa)%nat as Hpos by (destruct (decide (length sa = 0%nat)) as [L|]; [by apply nil_length_inv in L|lia]).
  destruct (search_loop_spec (length sa) c new 0 (length sa - 1) ltac:(lia) ltac:(lia)) as (st & en & -> & Hr & H). cbn [mbind outcome_bind].
  destruct (sa_elem st ltac:(lia)) as (sp & Hsp & Hspl & ->). destruct (sa_elem en ltac:(lia)) as (ep & Hep & Hepl & ->). cbn [mbind outcome_bind].
  rewrite !suffix_at_ret by lia. cbn [mbind outcome_bind]. set (sl := matchlen (drop sp old) (c :: new)). set (el := matchlen (drop ep old) (c :: new)).
  pose proof (matchlen_bounds (drop sp old) (c :: new)) as [_ B1]. pose proof (matchlen_bounds (drop ep old) (c :: new)) as [_ B2]. fold sl in B1. fold el in B2.
  assert (forall p c', (c :: new) !! 0%nat = Some c' -> old !! p = Some c' -> (1 <= Nat.max sl el)%nat) as Hlen.
  { intros p c' [= <-] Hp. destruct (sa_hit p (lookup_lt_Some _ _ _ Hp)) as [j Hj]. pose proof (lookup_lt_Some _ _ _ Hj).
    destruct (H j p ltac:(lia) Hj Hp) as (j' & p' & Hj' & Hq & Hc).
    assert (j' = st \/ j' = en) as [-> | ->] by lia.
    - rewrite Hsp in Hq. injection Hq as Hq. apply Nat2Z.inj in Hq. subst p'. pose proof (proj1 (matchlen_head sp c c new Hc) ltac:(lia)). fold sl in H1. lia.
    - rewrite Hep in Hq. injection Hq as Hq. apply Nat2Z.inj in Hq. subst p'. pose proof (proj1 (matchlen_head ep c c new Hc) ltac:(lia)). fold el in H1. lia. }
  destruct (el <? sl)%nat eqn:El; [apply Nat.ltb_lt in El|apply Nat.ltb_ge in El]; eexists _, _; (split; [done|]); (split; [lia|]); (split; [lia|]);
    intros p c' H1 H2; specialize (Hlen p c' H1 H2); lia.
Qed.

End Search.

(** ** The scan *)

Section Scan.

Context (sa : list Z) (old new : bytes).
Hypothesis sorted : suffix_array old sa.
Hypothesis old_len : Z.of_nat (length old) < 2 ^ 63.

Definition drift (off : Z) (i : nat) : bool := match drift_match old new off i with Ret b => b | Panic => false end.

Lemma drift_ret off i : (i < length new)%nat -> drift_match old new off i = Ret (drift off i).
Proof.
  intros Hi. unfold drift, drift_match. destruct (wrap64 _ <? _) eqn:E; [|done]. apply Z.ltb_lt in E. unfold old_size in E.
  pose proof (wrap64_range (Z.of_nat i + off)) as Hr. unfold in_u in Hr.
  destruct (idx_ret old (Z.to_nat (wrap64 (Z.of_nat i + off))) ltac:(lia)) as (a & -> & _). by destruct (idx_ret new i Hi) as (b & -> & _).
Qed.

Lemma drift_hit off i : (i < length new)%nat -> drift off i = true -> exists p c, old !! p = Some c /\ new !! i = Some c.
Proof.
  intros Hi. unfold drift, drift_match. destruct (wrap64 _ <? _) eqn:E; [|done]. apply Z.ltb_lt in E. unfold old_size in E.
  pose proof (wrap64_range (Z.of_nat i + off)) as Hr. unfold in_u in Hr.
  destruct (idx_ret old (Z.to_nat (wrap64 (Z.of_nat i + off))) ltac:(lia)) as (a & -> & Ha). destruct (idx_ret new i Hi) as (b & -> & Hb).
  cbn [mbind outcome_bind]. intros Eq%Z.eqb_eq. subst b. eauto.
Qed.

(** How many of the [n] bytes from [a] the drift explains. *)
Fixpoint hits (off : Z) (a n : nat) : nat :=
  match n with O => O | S n => ((if drift off a then 1 else 0) + hits off (S a) n)%nat end.

Lemma hits_app off a n k : hits off a (n + k) = (hits off a n + hits off (a + n) k)%nat.
Proof.
  revert a. induction n as [|n IH]; intros a; simpl; [by rewrite Nat.add_0_r|]. rewrite IH. replace (S a + n)%nat with (a + S n)%nat by lia. lia.
Qed.

Lemma hits_none off a n : (forall i, (a <= i < a + n)%nat -> drift off i = false) -> hits off a n = 0%nat.
Proof. revert a. induction n as [|n IH]; intros a H; simpl; [done|]. rewrite H by lia. rewrite IH; [done|]. intros i Hi. apply H. lia. Qed.

Lemma count_drift_spec n off scsc score :
  (scsc + n <= length new)%nat -> count_drift old new n off scsc score = Ret (score + hits off scsc n)%nat.
Proof.
  revert scsc score. induction n as [|n IH]; intros scsc score H; cbn [count_drift hits]; [by rewrite Nat.add_0_r|].
  rewrite drift_ret by lia. cbn [mbind outcome_bind]. rewrite IH by lia. f_equal. destruct (drift off scsc); lia.
Qed.

(** What the score counts: the bytes from [scan] on that the drift explains, up to
    [scsc]; when [scsc] lags behind, the bytes between have no match. *)
Definition score_ok (off : Z) (scan scsc score : nat) : Prop :=
  score = hits off scan (scsc - scan) /\ forall i, (scsc <= i < scan)%nat -> drift off i = false.

Lemma score_grow off scan scsc score len :
  (scan + len <= length new)%nat -> score_ok off scan scsc score ->
  score_ok off scan (Nat.max scsc (scan + len)) (score + hits off scsc (scan + len - scsc)).
Proof.
  intros Hl [-> Hlag]. split; [|intros i Hi; apply Hlag; lia].
  destruct (Nat.le_ge_cases (scan + len) scsc) as [H|H].
  - rewrite Nat.max_l by lia. replace (scan + len - scsc)%nat with 0%nat by lia. simpl. lia.
  - rewrite Nat.max_r by lia. destruct (Nat.le_ge_cases scan scsc) as [H'|H'].
    + replace (scan + len - scan)%nat with ((scsc - scan) + (scan + len - scsc))%nat by lia. rewrite hits_app.
      by replace (scan + (scsc - scan))%nat with scsc by lia.
    + replace (scsc - scan)%nat with 0%nat by lia. replace (scan + len - scsc)%nat with ((scan - scsc) + len)%nat by lia.
      rewrite hits_app. rewrite (hits_none off scsc) by (intros i Hi; apply Hlag; lia).
      replace (scsc + (scan - scsc))%nat with scan by lia. replace (scan + len - scan)%nat with len by lia. done.
Qed.

Lemma scan_loop_spec fuel off scan scsc score pos len :
  (scan <= length new)%nat -> (scsc <= length new)%nat -> score_ok off scan scsc score -> (pos <= length old)%nat -> (length new - scan < fuel)%nat ->
  exists scan' score' pos' len', scan_loop sa old new fuel off scan scsc score pos len = Ret (scan', score', pos', len') /\
    (scan <= scan' <= length new)%nat /\ (pos' <= length old)%nat /\ (scan' < length new -> 1 <= len' /\ scan' + len' <= length new)%nat.
Proof.
  revert scan scsc score pos len. induction fuel as [|fuel IH]; intros scan scsc score pos len Hs Hss Hok Hp Hf; [lia|]. cbn [scan_loop].
  unfold new_size. destruct (scan <? length new)%nat eqn:E; [apply Nat.ltb_lt in E|apply Nat.ltb_ge in E; eexists _, _, _, _; split; [done|]; lia].
  destruct (search_spec sa old sorted old_len (drop scan new)) as (p & l & -> & Hpl & Hll & Hhit). rewrite length_drop in Hll. cbn [mbind outcome_bind].
  rewrite count_drift_spec by lia. cbn [mbind outcome_bind]. pose proof (score_grow off scan scsc score l ltac:(lia) Hok) as Hok'.
  set (score' := (score + _)%nat) in *. set (scsc' := Nat.max scsc (scan + l)) in *. destruct (_ || _) eqn:Eb.
  - eexists _, _, _, _. split; [done|]. split; [lia|]. split; [done|]. intros _. split; [|lia].
    apply orb_true_iff in Eb as [Eb|Eb]; [apply andb_true_iff in Eb as [_ Eb]; apply negb_true_iff, Nat.eqb_neq in Eb; lia|apply Nat.ltb_lt in Eb; lia].
  - rewrite drift_ret by lia. cbn [mbind outcome_bind]. destruct Hok' as [Hsc Hlag].
    assert (drift off scan = true -> (scan < scsc')%nat) as Hlt.
    { intros Hd. destruct (drift_hit off scan E Hd) as (q & c & Hq & Hc). specialize (Hhit q c). rewrite lookup_drop, Nat.add_0_r in Hhit.
      specialize (Hhit Hc Hq). unfold scsc'. lia. }
    assert (exists score2, (if drift off scan then usub score' 1 else Ret score') = Ret score2 /\ score_ok off (S scan) scsc' score2) as (score2 & -> & Hok2).
    { destruct (drift off scan) eqn:Ed.
      - specialize (Hlt eq_refl). replace (scsc' - scan)%nat with (S (scsc' - S scan)) in Hsc by lia. cbn [hits] in Hsc. rewrite Ed in Hsc.
        rewrite usub_ret by lia. eexists. split; [done|]. split; [lia|]. intros i Hi. lia.
      - exists score'. split; [done|]. split.
        + destruct (Nat.le_gt_cases scsc' scan) as [H|H]; [replace (scsc' - S scan)%nat with 0%nat by lia; replace (scsc' - scan)%nat with 0%nat in Hsc by lia; done|].
          replace (scsc' - scan)%nat with (S (scsc' - S scan)) in Hsc by lia. cbn [hits] in Hsc. by rewrite Ed in Hsc.
        + intros i Hi. destruct (decide (i = scan)) as [->|]; [done|]. apply Hlag. lia. }
    cbn [mbind outcome_bind]. destruct (IH (S scan) scsc' score2 p l ltac:(lia) ltac:(unfold scsc'; lia) Hok2 Hpl ltac:(lia))
      as (scan3 & score3 & p3 & l3 & -> & H1 & H2 & H3). eexists _, _, _, _. split; [done|]. split; [lia|]. done.
Qed.

End Scan.

(** ** Emitting an entry *)

Section Emit.

Context (old new : bytes).

Lemma forward_loop_spec fuel scan lastscan lastpos i s sf lenf :
  (scan <= length new)%nat -> (lastscan + i <= scan)%nat -> (lenf <= i)%nat -> (lastpos + lenf <= length old)%nat -> (scan - (lastscan + i) < fuel)%nat ->
  exists lenf', forward_loop old new fuel scan lastscan lastpos i s sf lenf = Ret lenf' /\ (lastscan + lenf' <= scan)%nat /\ (lastpos + lenf' <= length old)%nat.
Proof.
  revert i s sf lenf. induction fuel as [|fuel IH]; intros i s sf lenf Hn Hi Hl Ho Hf; [lia|]. cbn [forward_loop]. unfold old_size.
  destruct (_ && _) eqn:E; [|exists lenf; split; [done|lia]]. apply andb_true_iff in E as [E1%Nat.ltb_lt E2%Nat.ltb_lt].
  destruct (idx_ret old (lastpos + i) E2) as (a & -> & _). destruct (idx_ret new (lastscan + i) ltac:(lia)) as (b & -> & _). cbn [mbind outcome_bind].
  destruct (_ <? _); apply IH; lia.
Qed.

Lemma backward_loop_spec fuel scan lastscan pos i s sb lenb :
  (scan <= length new)%nat -> (pos <= length old)%nat -> (1 <= i)%nat -> (lenb < i)%nat -> (lastscan + lenb <= scan)%nat -> (lenb <= pos)%nat ->
  (S scan - i < fuel)%nat ->
  exists lenb', backward_loop old new fuel scan lastscan pos i s sb lenb = Ret lenb' /\ (lastscan + lenb' <= scan)%nat /\ (lenb' <= pos)%nat.
Proof.
  revert i s sb lenb. induction fuel as [|fuel IH]; intros i s sb lenb Hn Hp Hi Hl Hs Hb Hf; [lia|]. cbn [backward_loop].
  destruct (_ && _) eqn:E; [|exists lenb; split; [done|lia]]. apply andb_true_iff in E as [E1%Nat.leb_le E2%Nat.leb_le].
  destruct (idx_ret old (pos - i) ltac:(lia)) as (a & -> & _). destruct (idx_ret new (scan - i) ltac:(lia)) as (b & -> & _). cbn [mbind outcome_bind].
  destruct (_ <? _); apply IH; lia.
Qed.

Lemma overlap_loop_spec n i f fo b bo s ss lens :
  (f + i + n <= length new)%nat -> (fo + i + n <= length old)%nat -> (b + i + n <= length new)%nat -> (bo + i + n <= length old)%nat -> (lens <= i)%nat ->
  exists lens', overlap_loop old new n i f fo b bo s ss lens = Ret lens' /\ (lens' <= i + n)%nat.
Proof.
  revert i s ss lens. induction n as [|n IH]; intros i s ss lens H1 H2 H3 H4 H5; cbn [overlap_loop]; [exists lens; split; [done|lia]|].
  destruct (idx_ret new (f + i) ltac:(lia)) as (x & -> & _). destruct (idx_ret old (fo + i) ltac:(lia)) as (y & -> & _).
  destruct (idx_ret new (b + i) ltac:(lia)) as (z & -> & _). destruct (idx_ret old (bo + i) ltac:(lia)) as (w & -> & _). cbn [mbind outcome_bind].
  destruct (ss <? _).
  - destruct (IH (S i) (if z =? w then (if x =? y then s + 1 else s) - 1 else if x =? y then s + 1 else s)
      (if z =? w then (if x =? y then s + 1 else s) - 1 else if x =? y then s + 1 else s) (S i)) as (l' & -> & Hl); try lia. exists l'. split; [done|lia].
  - destruct (IH (S i) (if z =? w then (if x =? y then s + 1 else s) - 1 else if x =? y then s + 1 else s) ss lens) as (l' & -> & Hl); try lia.
    exists l'. split; [done|lia].
Qed.

Lemma resolve_overlap_spec scan lastscan lastpos pos lenf lenb :
  (scan <= length new)%nat -> (pos <= length old)%nat -> (lastscan + lenf <= scan)%nat -> (lastpos + lenf <= length old)%nat ->
  (lastscan + lenb <= scan)%nat -> (lenb <= pos)%nat ->
  exists lenf' lenb', resolve_overlap old new scan lastscan lastpos pos lenf lenb = Ret (lenf', lenb') /\
    (lenf' <= lenf)%nat /\ (lenb' <= lenb)%nat /\ (lastscan + lenf' + lenb' <= scan)%nat.
Proof.
  intros H1 H2 H3 H4 H5 H6. unfold resolve_overlap. rewrite (usub_ret scan lenb) by lia. cbn [mbind outcome_bind].
  destruct (scan - lenb <? lastscan + lenf)%nat eqn:E; [apply Nat.ltb_lt in E|apply Nat.ltb_ge in E; eexists _, _; split; [done|]; lia].
  rewrite !usub_ret by lia. cbn [mbind outcome_bind].
  match goal with |- context [overlap_loop old new ?n 0 ?f ?fo ?b ?bo 0 0 0] =>
    destruct (overlap_loop_spec n 0 f fo b bo 0 0 0) as (lens & -> & Hl); try lia end.
  cbn [mbind outcome_bind]. rewrite !usub_ret by lia. cbn [mbind outcome_bind]. eexists _, _. split; [done|]. lia.
Qed.

(** What the buffers made so far turn into: the first [n] bytes of the new data, with
    the old data at position [p]. *)
Definition decodes (r : DiffResult) (n p : nat) : Prop :=
  forall entries diff extra, apply_entries (control r ++ entries) old 0 (diff_data r ++ diff) (extra_data r ++ extra) =
    (out ← apply_entries entries old (Z.of_nat p) diff extra; Ok (take n new ++ out)).

Record diff_ok (st : DiffState) : Prop := {
  do_scan : (lastscan st <= scan st <= length new)%nat;
  do_pos : (pos st <= length old)%nat;
  do_lastpos : (lastpos st <= length old)%nat;
  do_len : (scan st < length new -> scan st + len st <= length new)%nat;
  do_decodes : decodes (result_ st) (lastscan st) (lastpos st);
  do_entries : Forall (fun e => 0 <= e_diff_size e <= Z.of_nat (length new) /\ 0 <= e_extra_size e <= Z.of_nat (length new) /\
    - Z.of_nat (length old) <= e_seek_offset e <= Z.of_nat (length old)) (control (result_ st));
  do_sizes : (length (diff_data (result_ st)) + length (extra_data (result_ st)) = lastscan st)%nat;
}.

Hypothesis new_bytes : is_bytes new.
Hypothesis old_len : Z.of_nat (length old) < 2 ^ 63.

Lemma seek_to lp lenf p : (lp + lenf <= length old)%nat -> (p <= length old)%nat ->
  entry_seek (Z.of_nat (lp + lenf)) {| e_diff_size := Z.of_nat lenf; e_extra_size := 0; e_seek_offset := Z.of_nat p - (Z.of_nat lp + Z.of_nat lenf) |} = Z.of_nat p.
Proof.
  intros H1 H2. unfold entry_seek, apply_seek_offset. cbn [e_seek_offset]. destruct (Z.eqb_spec (Z.of_nat p - (Z.of_nat lp + Z.of_nat lenf)) 0) as [E|E]; cbn [negb]; [lia|].
  destruct (Z.ltb_spec (Z.of_nat p - (Z.of_nat lp + Z.of_nat lenf)) 0); [|lia]. unfold wrap64. rewrite wrap_small by (unfold in_u; lia). lia.
Qed.

Lemma emit_spec st :
  diff_ok st ->
  exists st', emit old new st = Ret st' /\ diff_ok st' /\ scan st' = scan st /\ len st' = len st /\
    length (control (result_ st')) = S (length (control (result_ st))) /\
    (scan st = length new -> lastscan st' = length new).
Proof.
  intros [H1 H2 H3 H4 H5 H6 H7]. unfold emit.
  destruct (forward_loop_spec (S (scan st)) (scan st) (lastscan st) (lastpos st) 0 0 0 0) as (lenf & -> & Hf1 & Hf2); try lia. cbn [mbind outcome_bind].
  assert (exists lenb, (if (scan st <? new_size new)%nat then backward_loop old new (S (scan st)) (scan st) (lastscan st) (pos st) 1 0 0 0 else Ret 0%nat) = Ret lenb /\
    (lastscan st + lenb <= scan st)%nat /\ (lenb <= pos st)%nat /\ (scan st = length new -> lenb = 0%nat)) as (lenb & -> & Hb1 & Hb2 & Hb3).
  { unfold new_size. destruct (scan st <? length new)%nat eqn:E; [apply Nat.ltb_lt in E|exists 0%nat; split; [done|]; lia].
    destruct (backward_loop_spec (S (scan st)) (scan st) (lastscan st) (pos st) 1 0 0 0) as (lenb & -> & Hb1 & Hb2); try lia.
    exists lenb. split; [done|]. lia. }
  cbn [mbind outcome_bind].
  destruct (resolve_overlap_spec (scan st) (lastscan st) (lastpos st) (pos st) lenf lenb) as (lf & lb & -> & Hlf & Hlb & Hsum); try lia. cbn [mbind outcome_bind].
  destruct (collect_diff_spec old new lf (lastscan st) (lastpos st) new_bytes old_len) as (d & -> & Ld & Hd); try lia. cbn [mbind outcome_bind].
  rewrite !usub_ret by lia. cbn [mbind outcome_bind]. rewrite usub_ret by lia. cbn [mbind outcome_bind]. eexists. split; [done|]. split; [|split; [done|]; split; [done|]; split; [cbn [result_ control]; rewrite length_app; simpl; lia|]].
  2: { cbn [lastscan]. intros E. rewrite (Hb3 E) in Hlb. lia. }
  set (ee := (scan st - lb)%nat). set (es := (lastscan st + lf)%nat).
  assert ((if (es <? ee)%nat then slice es ee new else []) = slice es ee new) as ->.
  { destruct (es <? ee)%nat eqn:E; [done|]. apply Nat.ltb_ge in E. unfold slice. replace (ee - es)%nat with 0%nat by lia. by rewrite take_0. }
  assert (length (slice es ee new) = ee - es)%nat as Lx by (apply length_slice; unfold ee; lia).
  split; cbn [scan len pos lastscan lastpos result_ control diff_data extra_data]; try lia.
  - intros entries diff extra. cbn [control diff_data extra_data]. rewrite <- !(app_assoc (control _)), <- !(app_assoc (diff_data _)), <- !(app_assoc (extra_data _)). rewrite H5. cbn [app apply_entries e_diff_size e_extra_size]. rewrite !Nat2Z.id, Hd. cbn [mbind result_bind].
    replace (extra_loop (ee - es) (slice es ee new ++ extra)) with (extra_loop (length (slice es ee new)) (slice es ee new ++ extra)) by (by rewrite Lx).
    rewrite extra_loop_spec. cbn [mbind result_bind].
    pose proof (seek_to (lastpos st) lf (pos st - lb) ltac:(lia) ltac:(lia)) as Hseek. unfold entry_seek in *. cbn [e_seek_offset] in *.
    rewrite Nat2Z.inj_sub in Hseek by lia. rewrite Hseek. rewrite <- Nat2Z.inj_sub by lia.
    destruct (apply_entries entries old _ diff extra) as [out|]; cbn [mbind result_bind]; [|done]. f_equal. rewrite !app_assoc. f_equal.
    rewrite <- app_assoc. symmetry. rewrite (take_slice new es ee), (take_slice new (lastscan st) es) by (unfold es, ee; lia). by rewrite app_assoc.
  - apply Forall_app. split; [done|]. apply Forall_singleton. cbn [e_diff_size e_extra_size e_seek_offset]. unfold es, ee. lia.
  - rewrite !length_app, Ld, Lx. unfold es, ee. lia.
Qed.

End Emit.

(** ** The algorithm *)

Section Diff.

Context (sa : list Z) (old new : bytes).
Hypothesis sorted : suffix_array old sa.
Hypothesis old_len : Z.of_nat (length old) < 2 ^ 63.
Hypothesis new_bytes : is_bytes new.

(** At the end of the new data an entry was emitted up to it. *)
Definition finished (st : DiffState) : Prop :=
  scan st = length new -> (0 < length new)%nat -> lastscan st = length new /\ control (result_ st) <> [].

Lemma diff_outer_spec fuel st :
  diff_ok old new st -> finished st -> (length new - (scan st + len st) + 1 < fuel \/ length new <= scan st /\ 0 < fuel)%nat ->
  exists r p, diff_outer sa old new fuel st = Ret r /\ decodes old new r (length new) p /\ (new <> [] -> control r <> []) /\
    Forall (fun e => 0 <= e_diff_size e <= Z.of_nat (length new) /\ 0 <= e_extra_size e <= Z.of_nat (length new) /\
      - Z.of_nat (length old) <= e_seek_offset e <= Z.of_nat (length old)) (control r) /\
    (length (diff_data r) + length (extra_data r) = length new)%nat /\ (length (control r) <= length (control (result_ st)) + fuel)%nat.
Proof.
  revert st. induction fuel as [|fuel IH]; intros st Hok Hfin Hf; [lia|]. cbn [diff_outer]. unfold new_size. pose proof Hok as [H1 H2 H3 H4 H5 H6 H7].
  destruct (scan st <? length new)%nat eqn:E; [apply Nat.ltb_lt in E|apply Nat.ltb_ge in E].
  2: { assert (scan st = length new) as Es by lia.
    assert (lastscan st = length new /\ (new <> [] -> control (result_ st) <> [])) as [El Hc].
    { destruct (decide (length new = 0%nat)) as [L|L]; [split; [lia|]; intros Hne; by apply nil_length_inv in L|].
      destruct (Hfin Es ltac:(lia)). done. }
    exists (result_ st), (lastpos st). rewrite <- El at 1 2. split_and!; try done. lia. }
  specialize (H4 E).
  destruct (scan_loop_spec sa old new sorted old_len (S (length new)) (lastoffset st) (scan st + len st) (scan st + len st) 0 (pos st) (len st))
    as (scan' & score & pos' & len' & -> & Hs & Hp & Hl); try lia.
  { split; [by rewrite Nat.sub_diag|lia]. }
  cbn [mbind outcome_bind].
  set (st1 := {| scan := scan'; len := len'; pos := pos'; lastscan := lastscan st; lastpos := lastpos st; lastoffset := lastoffset st; result_ := result_ st |}).
  assert (diff_ok old new st1) as Hok1 by (split; unfold st1; cbn [scan len pos lastscan lastpos result_]; (done || lia)).
  assert (exists st2, (if (negb (len' =? score) || (scan' =? length new))%nat then emit old new st1 else Ret st1) = Ret st2 /\ diff_ok old new st2 /\
    finished st2 /\ scan st2 = scan' /\ len st2 = len' /\ (length (control (result_ st2)) <= S (length (control (result_ st))))%nat)
    as (st2 & -> & Hok2 & Hfin2 & Es2 & El2 & Hc2).
  { destruct (negb (len' =? score) || (scan' =? length new))%nat eqn:Ec.
    - destruct (emit_spec old new new_bytes old_len st1 Hok1) as (st2 & -> & Hok2 & Es & El & Hc & Hd). exists st2.
      split; [done|]. split; [done|]. split; [|split; [done|]; split; [done|]; rewrite Hc; done].
      intros Hx _. split; [apply Hd; by rewrite <- Es|]. intros E0. by rewrite E0 in Hc.
    - exists st1. split; [done|]. split; [done|]. split; [|split; [done|]; split; [done|]; cbn [st1 result_]; lia]. intros Hx _. apply orb_false_iff in Ec as [_ Ec]. apply Nat.eqb_neq in Ec. done. }
  cbn [mbind outcome_bind]. destruct (IH st2 Hok2 Hfin2) as (r & p & Er & Hr1 & Hr2 & Hr3 & Hr4 & Hr5).
  { rewrite Es2, El2. destruct (Nat.lt_ge_cases scan' (length new)) as [Hlt|]; [|lia]. specialize (Hl Hlt). lia. }
  exists r, p. split_and!; try done. lia.
Qed.

Lemma compute_diff_spec :
  exists r p, compute_diff sa old new = Ret r /\ decodes old new r (length new) p /\ (new <> [] -> control r <> []) /\
    Forall (fun e => 0 <= e_diff_size e <= Z.of_nat (length new) /\ 0 <= e_extra_size e <= Z.of_nat (length new) /\
      - Z.of_nat (length old) <= e_seek_offset e <= Z.of_nat (length old)) (control r) /\
    (length (diff_data r) + length (extra_data r) = length new)%nat /\ (length (control r) <= S (S (length new)))%nat.
Proof.
  apply (diff_outer_spec (S (S (length new))) (diff_start)).
  - split; cbn [diff_start scan len pos lastscan lastpos result_ control diff_data extra_data]; try lia; [|constructor|done].
    intros entries diff extra. cbn [app control diff_data extra_data]. rewrite take_0. change (Z.of_nat 0) with 0. by destruct (apply_entries entries old 0 diff extra).
  - intros E H. cbn in E. lia.
  - unfold new_size. simpl. lia.
Qed.

End Diff.

(** ** The streaming patcher *)

Definition strip {A} (r : zresult A) : option A := match r with Ok x => Some x | Err _ => None end.

Fixpoint old_range (old : bytes) (n : nat) (pos : Z) : bytes :=
  match n with O => [] | S n => read_old_byte_at old pos :: old_range old n (pos + 1) end.

Lemma length_old_range old n pos : length (old_range old n pos) = n.
Proof. revert pos. induction n as [|n IH]; intros pos; simpl; [done|]. by rewrite IH. Qed.

Lemma old_range_app old n k pos : old_range old (n + k) pos = old_range old n pos ++ old_range old k (pos + Z.of_nat n).
Proof.
  revert pos. induction n as [|n IH]; intros pos; [by rewrite Z.add_0_r|]. cbn [Nat.add old_range app]. rewrite IH. do 3 f_equal. lia.
Qed.

Lemma old_range_lookup old n pos i : (i < n)%nat -> old_range old n pos !! i = Some (read_old_byte_at old (pos + Z.of_nat i)).
Proof.
  revert pos i. induction n as [|n IH]; intros pos i Hi; [lia|]. cbn [old_range]. destruct i as [|i]; [by rewrite Z.add_0_r|].
  cbn [lookup list_lookup]. rewrite IH by lia. do 2 f_equal. lia.
Qed.

Lemma read_old_chunk_eq p pos n : 0 <= pos -> read_old_chunk p pos n (get_old_file_size p) = old_range (old_file p) n pos.
Proof.
  intros Hp. apply list_eq. intros i. destruct (Nat.lt_ge_cases i n) as [Hi|Hi].
  - rewrite old_range_lookup by done. unfold read_old_chunk, get_old_file_size, read_old_byte_at. set (old := old_file p).
    destruct (pos <? Z.of_nat (length old)) eqn:E; [apply Z.ltb_lt in E|apply Z.ltb_ge in E].
    + unfold copy_at. rewrite take_0. cbn [app Nat.add]. set (av := Z.to_nat (Z.min (Z.of_nat (length old) - pos) (Z.of_nat n))).
      assert (length (take av (drop (Z.to_nat pos) old)) = av) as L by (rewrite length_take, length_drop; lia). rewrite L.
      destruct (Nat.lt_ge_cases i av) as [Hia|Hia].
      * rewrite lookup_app_l by lia. rewrite lookup_take, decide_True, lookup_drop by lia. rewrite (proj2 (Z.ltb_lt _ _)) by lia.
        replace (Z.to_nat (pos + Z.of_nat i)) with (Z.to_nat pos + i)%nat by lia.
        destruct (lookup_lt_is_Some_2 old (Z.to_nat pos + i)) as [x Hx]; [lia|]. rewrite Hx. f_equal. symmetry. by apply nth_lookup_Some.
      * rewrite lookup_app_r by lia. rewrite L, lookup_drop. unfold zeros. rewrite (proj2 (Z.ltb_ge _ _)) by lia. apply lookup_replicate. lia.
    + rewrite (proj2 (Z.ltb_ge _ _)) by lia. apply lookup_replicate. lia.
  - rewrite (lookup_ge_None_2 (old_range _ _ _)) by (rewrite length_old_range; lia). apply lookup_ge_None_2. unfold read_old_chunk, get_old_file_size.
    destruct (pos <? _) eqn:E; [|by rewrite length_zeros]. apply Z.ltb_lt in E. rewrite length_copy_at, length_zeros; [done|].
    rewrite length_zeros, length_take, length_drop. lia.
Qed.

Lemma diff_loop_eq n old pos diff :
  0 <= pos -> pos + Z.of_nat n < 2 ^ 64 ->
  strip (diff_loop n old pos diff) =
    if (n <=? length diff)%nat then Some (zip_with apply_diff_byte (old_range old n pos) (take n diff), pos + Z.of_nat n, drop n diff) else None.
Proof.
  revert pos diff. induction n as [|n IH]; intros pos diff H0 H1; [cbn; by rewrite Z.add_0_r|].
  destruct diff as [|b diff]; [done|]. cbn [diff_loop length old_range take drop zip_with].
  replace (wrap64 (pos + 1)) with (pos + 1) by (symmetry; unfold wrap64; apply wrap_small; unfold in_u; lia).
  specialize (IH (pos + 1) diff ltac:(lia) ltac:(lia)). change (S n <=? S (length diff))%nat with (n <=? length diff)%nat.
  destruct (diff_loop n old (pos + 1) diff) as [[[out q] rest]|]; cbn [strip mbind result_bind] in *.
  - destruct (n <=? length diff)%nat; [|done]. injection IH as -> -> ->. do 3 f_equal. lia.
  - by destruct (n <=? length diff)%nat.
Qed.

Lemma apply_diff_block_eq fuel p diff pos n :
  (1 <= buffer_size p)%nat -> (length diff < fuel)%nat -> 0 <= pos -> pos + Z.of_nat n < 2 ^ 64 ->
  strip (apply_diff_block fuel p diff pos (Z.of_nat n) (get_old_file_size p)) = strip (diff_loop n (old_file p) pos diff).
Proof.
  intros Hb. revert pos n diff. induction fuel as [|fuel IH]; intros pos n diff Hn H0 H1; rewrite diff_loop_eq by done.
  { lia. }
  destruct n as [|n]; [cbn; by rewrite Z.add_0_r|]. cbn [apply_diff_block]. rewrite (proj2 (Z.ltb_lt _ _)) by lia. cbv zeta.
  set (k := Z.to_nat (Z.min (Z.of_nat (S n)) (Z.of_nat (buffer_size p)))).
  assert (1 <= k <= S n)%nat as Hk by (unfold k; lia). unfold read_exact.
  destruct (length diff <? k)%nat eqn:E; [apply Nat.ltb_lt in E; rewrite (proj2 (Nat.leb_gt _ _)) by lia; done|]. apply Nat.ltb_ge in E. cbn [mbind result_bind].
  replace (wrap64 (pos + Z.of_nat k)) with (pos + Z.of_nat k) by (symmetry; unfold wrap64; apply wrap_small; unfold in_u; lia).
  replace (Z.of_nat (S n) - Z.of_nat k) with (Z.of_nat (S n - k)) by lia.
  specialize (IH (pos + Z.of_nat k) (S n - k)%nat (drop k diff) ltac:(rewrite length_drop; lia) ltac:(lia) ltac:(lia)). rewrite diff_loop_eq in IH by lia.
  rewrite length_drop in IH. rewrite read_old_chunk_eq by done.
  assert ((S n - k <=? length diff - k)%nat = (S n <=? length diff)%nat) as Ele.
  { destruct (S n <=? length diff)%nat eqn:E2; [apply Nat.leb_le in E2; apply Nat.leb_le; lia|apply Nat.leb_gt in E2; apply Nat.leb_gt; lia]. }
  rewrite Ele in IH. destruct (apply_diff_block _ _ _ _ _ _) as [[[out q] rest]|]; cbn [strip mbind result_bind] in *.
  - destruct (S n <=? length diff)%nat eqn:E2; [|done]. apply Nat.leb_le in E2. injection IH as -> -> ->.
    replace (old_range (old_file p) (S n) pos) with (old_range (old_file p) k pos ++ old_range (old_file p) (S n - k) (pos + Z.of_nat k))
      by (rewrite <- old_range_app; f_equal; lia).
    replace (take (S n) diff) with (take k diff ++ take (S n - k) (drop k diff)).
    + rewrite zip_with_app by (rewrite length_old_range, length_take; lia). rewrite drop_drop. do 3 f_equal; [lia|f_equal; lia].
    + rewrite take_drop_commute. replace (k + (S n - k))%nat with (S n) by lia. rewrite <- (take_drop k (take (S n) diff)) at 2.
      by rewrite take_take, Nat.min_l by lia.
  - by destruct (S n <=? length diff)%nat.
Qed.

Lemma extra_loop_eq n extra : strip (extra_loop n extra) = if (n <=? length extra)%nat then Some (take n extra, drop n extra) else None.
Proof.
  revert extra. induction n as [|n IH]; intros extra; [done|]. destruct extra as [|b extra]; [done|]. cbn [extra_loop length take drop].
  specialize (IH extra). change (S n <=? S (length extra))%nat with (n <=? length extra)%nat.
  destruct (extra_loop n extra) as [[out rest]|]; cbn [strip mbind result_bind] in *; destruct (n <=? length extra)%nat; try done. by injection IH as -> ->.
Qed.

Lemma copy_extra_block_eq fuel p extra n :
  (1 <= buffer_size p)%nat -> (length extra < fuel)%nat -> strip (copy_extra_block fuel p extra (Z.of_nat n)) = strip (extra_loop n extra).
Proof.
  intros Hb. revert n extra. induction fuel as [|fuel IH]; intros n extra Hn; rewrite extra_loop_eq; [lia|].
  destruct n as [|n]; [done|]. cbn [copy_extra_block]. rewrite (proj2 (Z.ltb_lt _ _)) by lia. cbv zeta.
  set (k := Z.to_nat (Z.min (Z.of_nat (S n)) (Z.of_nat (buffer_size p)))).
  assert (1 <= k <= S n)%nat as Hk by (unfold k; lia). unfold read_exact.
  destruct (length extra <? k)%nat eqn:E; [apply Nat.ltb_lt in E; rewrite (proj2 (Nat.leb_gt _ _)) by lia; done|]. apply Nat.ltb_ge in E. cbn [mbind result_bind].
  replace (Z.of_nat (S n) - Z.of_nat k) with (Z.of_nat (S n - k)) by lia.
  specialize (IH (S n - k)%nat (drop k extra) ltac:(rewrite length_drop; lia)). rewrite extra_loop_eq, length_drop in IH.
  assert ((S n - k <=? length extra - k)%nat = (S n <=? length extra)%nat) as Ele.
  { destruct (S n <=? length extra)%nat eqn:E2; [apply Nat.leb_le in E2; apply Nat.leb_le; lia|apply Nat.leb_gt in E2; apply Nat.leb_gt; lia]. }
  rewrite Ele in IH. destruct (copy_extra_block _ _ _ _) as [[out rest]|]; cbn [strip mbind result_bind] in *; [|by destruct (S n <=? length extra)%nat].
  destruct (S n <=? length extra)%nat eqn:E2; [|done]. injection IH as -> ->. rewrite drop_drop. do 2 f_equal; [|f_equal; lia].
  rewrite take_drop_commute. replace (k + (S n - k))%nat with (S n) by lia. rewrite <- (take_drop k (take (S n) extra)) at 2.
  by rewrite take_take, Nat.min_l by lia.
Qed.

(** How far into the old data a block can seek and read. *)
Fixpoint reach (entries : list ControlEntry) : Z :=
  match entries with [] => 0 | e :: es => Z.max 0 (e_diff_size e) + Z.max 0 (e_seek_offset e) + reach es end.

Lemma reach_nonneg entries : 0 <= reach entries.
Proof. induction entries; simpl; lia. Qed.

(** Sizes that [entry_validate] does not refuse as negative. *)
Definition sizes_nonneg (e : ControlEntry) : Prop := 0 <= e_diff_size e /\ 0 <= e_extra_size e.

Definition entry_i64 (e : ControlEntry) : Prop := i64 (e_diff_size e) /\ i64 (e_extra_size e) /\ i64 (e_seek_offset e).

Lemma usize_of_nonneg v : i64 v -> 0 <= v -> wrap64 v = Z.of_nat (Z.to_nat v).
Proof. intros Hi Hv. unfold i64 in Hi. unfold wrap64. rewrite wrap_small; [lia|]. unfold in_u. lia. Qed.

Lemma usize_of_neg v : i64 v -> v < 0 -> 2 ^ 63 <= wrap64 v.
Proof.
  intros Hi Hv. unfold i64 in Hi. unfold wrap64, wrap. replace v with (v + 2 ^ 64 + (-1) * 2 ^ 64) by lia.
  rewrite Z.mod_add by lia. rewrite Z.mod_small by lia. lia.
Qed.

Lemma diff_block_short fuel p diff pos n size :
  Z.of_nat (length diff) < n -> strip (apply_diff_block fuel p diff pos n size) = None.
Proof.
  revert diff pos n. induction fuel as [|fuel IH]; intros diff pos n Hn; cbn [apply_diff_block]; rewrite (proj2 (Z.ltb_lt _ _)) by lia; [done|].
  cbv zeta. set (k := Z.to_nat _). unfold read_exact. destruct (length diff <? k)%nat eqn:E; [done|]. apply Nat.ltb_ge in E.
  cbn [mbind result_bind]. specialize (IH (drop k diff) (wrap64 (pos + Z.of_nat k)) (n - Z.of_nat k) ltac:(rewrite length_drop; lia)).
  by destruct (apply_diff_block _ _ _ _ _ _) as [[[]]|].
Qed.

Lemma extra_block_short fuel p extra n :
  Z.of_nat (length extra) < n -> strip (copy_extra_block fuel p extra n) = None.
Proof.
  revert extra n. induction fuel as [|fuel IH]; intros extra n Hn; cbn [copy_extra_block]; rewrite (proj2 (Z.ltb_lt _ _)) by lia; [done|].
  cbv zeta. set (k := Z.to_nat _). unfold read_exact. destruct (length extra <? k)%nat eqn:E; [done|]. apply Nat.ltb_ge in E.
  cbn [mbind result_bind]. specialize (IH (drop k extra) (n - Z.of_nat k) ltac:(rewrite length_drop; lia)).
  by destruct (copy_extra_block _ _ _ _) as [[]|].
Qed.

Lemma diff_block_rest fuel p diff pos n size out q rest :
  apply_diff_block fuel p diff pos n size = Ok (out, q, rest) -> (length rest <= length diff)%nat.
Proof.
  revert diff pos n out q rest. induction fuel as [|fuel IH]; intros diff pos n out q rest; cbn [apply_diff_block]; destruct (0 <? n);
    try (by intros [= _ _ <-]). cbv zeta. unfold read_exact. destruct (_ <? _)%nat; [done|]. cbn [mbind result_bind].
  destruct (apply_diff_block fuel _ _ _ _ _) as [[[o1 q1] r1]|] eqn:E; [|done]. intros [= _ _ <-]. apply IH in E. rewrite length_drop in E. lia.
Qed.

Lemma extra_block_rest fuel p extra n out rest : copy_extra_block fuel p extra n = Ok (out, rest) -> (length rest <= length extra)%nat.
Proof.
  revert extra n out rest. induction fuel as [|fuel IH]; intros extra n out rest; cbn [copy_extra_block]; destruct (0 <? n);
    try (by intros [= _ <-]). cbv zeta. unfold read_exact. destruct (_ <? _)%nat; [done|]. cbn [mbind result_bind].
  destruct (copy_extra_block fuel _ _ _) as [[o1 r1]|] eqn:E; [|done]. intros [= _ <-]. apply IH in E. rewrite length_drop in E. lia.
Qed.

Lemma stream_entries_eq entries p pos diff extra :
  (1 <= buffer_size p)%nat -> 0 <= pos -> pos + reach entries < 2 ^ 64 -> Forall entry_i64 entries -> Forall sizes_nonneg entries ->
  strip (stream_entries entries p pos diff extra (get_old_file_size p)) = strip (apply_entries entries (old_file p) pos diff extra).
Proof.
  intros Hb. revert pos diff extra. induction entries as [|e es IH]; intros pos diff extra H0 H1 Hi Hs; [done|]. cbn [stream_entries apply_entries reach] in *.
  apply Forall_cons in Hi as [(Hi1 & Hi2 & He) Hi]. apply Forall_cons in Hs as [[Hs1 Hs2] Hs].
  pose proof (reach_nonneg es) as Hr. rewrite (usize_of_nonneg _ Hi1 Hs1), (usize_of_nonneg _ Hi2 Hs2).
  set (n := Z.to_nat (e_diff_size e)). set (n' := Z.to_nat (e_extra_size e)).
  pose proof (apply_diff_block_eq (S (length diff)) p diff pos n Hb ltac:(lia) H0 ltac:(lia)) as Hd. pose proof (diff_loop_eq n (old_file p) pos diff H0 ltac:(lia)) as Hd'.
  destruct (diff_loop n (old_file p) pos diff) as [[[o1 q1] d1]|], (apply_diff_block (S (length diff)) p diff pos (Z.of_nat n) (get_old_file_size p)) as [[[o2 q2] d2]|];
    cbn [strip mbind result_bind] in *; try done. injection Hd as -> -> ->. destruct (n <=? length diff)%nat; [|done]. injection Hd' as _ -> _.
  pose proof (copy_extra_block_eq (S (length extra)) p extra n' Hb ltac:(lia)) as Hx.
  destruct (extra_loop n' extra) as [[o3 x1]|], (copy_extra_block (S (length extra)) p extra (Z.of_nat n')) as [[o4 x2]|]; cbn [strip mbind result_bind] in *; try done. injection Hx as -> ->.
  assert (0 <= entry_seek (pos + Z.of_nat n) e /\ entry_seek (pos + Z.of_nat n) e + reach es < 2 ^ 64) as [S0 S1].
  { unfold entry_seek, apply_seek_offset. destruct (Z.eqb_spec (e_seek_offset e) 0); cbn [negb]; [lia|].
    destruct (Z.ltb_spec (e_seek_offset e) 0); [|lia]. pose proof (wrap64_range (- e_seek_offset e)) as Hw. unfold in_u in Hw. lia. }
  specialize (IH (entry_seek (pos + Z.of_nat n) e) d1 x1 S0 S1 Hi Hs).
  destruct (stream_entries es p _ d1 x1 _), (apply_entries es (old_file p) _ d1 x1); cbn [strip mbind result_bind] in *; try done. by injection IH as ->.
Qed.

Lemma stream_entries_negative entries p pos diff extra size :
  Forall entry_i64 entries -> Exists (fun e => ~ sizes_nonneg e) entries ->
  Z.of_nat (length diff) < 2 ^ 63 -> Z.of_nat (length extra) < 2 ^ 63 -> strip (stream_entries entries p pos diff extra size) = None.
Proof.
  intros Hi Hneg. revert pos diff extra. induction entries as [|e es IH]; [by apply Exists_nil in Hneg|]; intros pos diff extra Hd Hx.
  apply Forall_cons in Hi as [(Hi1 & Hi2 & He) Hi]. cbn [stream_entries].
  destruct (apply_diff_block _ p diff pos _ size) as [[[o1 q1] d1]|] eqn:E1; [|done]. cbn [mbind result_bind].
  destruct (copy_extra_block _ p extra _) as [[o2 x1]|] eqn:E2; [|done]. cbn [mbind result_bind].
  assert (0 <= e_diff_size e) as S1.
  { apply Z.nlt_ge. intros Hlt. pose proof (usize_of_neg _ Hi1 Hlt) as Hw.
    pose proof (diff_block_short (S (length diff)) p diff pos (wrap64 (e_diff_size e)) size ltac:(lia)) as Hn. by rewrite E1 in Hn. }
  assert (0 <= e_extra_size e) as S2.
  { apply Z.nlt_ge. intros Hlt. pose proof (usize_of_neg _ Hi2 Hlt) as Hw.
    pose proof (extra_block_short (S (length extra)) p extra (wrap64 (e_extra_size e)) ltac:(lia)) as Hn. by rewrite E2 in Hn. }
  apply Exists_cons in Hneg as [Hneg|Hneg]; [by destruct Hneg|].
  apply diff_block_rest in E1. apply extra_block_rest in E2.
  specialize (IH Hi Hneg (entry_seek q1 e) d1 x1 ltac:(lia) ltac:(lia)).
  by destruct (stream_entries es p _ d1 x1 size).
Qed.

Lemma streaming_spec p block diff extra :
  (1 <= buffer_size p)%nat -> reach block < 2 ^ 64 -> Forall entry_i64 block -> Forall sizes_nonneg block ->
  strip (apply_patch p block diff extra) = strip (apply_patch_with_data (old_file p) block diff extra (output_capacity p)).
Proof.
  intros Hb Hr Hi Hs. unfold apply_patch, apply_patch_with_data. pose proof (stream_entries_eq block p 0 diff extra Hb ltac:(lia) Hr Hi Hs) as H.
  destruct (stream_entries block p 0 diff extra _), (apply_entries block (old_file p) 0 diff extra); cbn [strip mbind result_bind] in *; try done. by injection H as ->.
Qed.

(** ** Building and applying *)

Section Codec.

Context (zlib_compress zlib_decompress : bytes -> option bytes).
Context (sort_in_place : bytes -> list Z).
Hypothesis zlib_ok : forall x y, zlib_compress x = Some y -> zlib_decompress y = Some x.

Lemma compress_inv x y : compress_zlib zlib_compress x = Ok y -> decompress_zlib zlib_decompress y = Ok x.
Proof. unfold compress_zlib, decompress_zlib. destruct (zlib_compress x) as [z|] eqn:E; [|done]. intros [= ->]. by rewrite (zlib_ok x y). Qed.

Lemma Ok_inj {E A} (x y : A) : @Ok E A x = Ok y -> x = y.
Proof. by intros [=]. Qed.

(** A patch assembled from blocks reads back to the blocks. *)
Lemma internal_reads b block diff extra patch :
  block <> [] -> Forall entry_ok block -> build_patch_internal zlib_compress b block diff extra = Ok patch ->
  exists h cc dc ec, read_blocks patch = Ok (h, cc, dc, ec) /\ output_size h = Z.of_nat (length (new_data b)) /\
    from_compressed zlib_decompress cc = Ok block /\ decompress_zlib zlib_decompress dc = Ok diff /\ decompress_zlib zlib_decompress ec = Ok extra.
Proof.
  intros Hne Hblock. unfold build_patch_internal. destruct (to_compressed zlib_compress block) as [cc|] eqn:Ec; [|done]. cbn [mbind result_bind].
  destruct (compress_zlib zlib_compress diff) as [dc|] eqn:Ed; [|done]. destruct (compress_zlib zlib_compress extra) as [ec|] eqn:Ee; [|done]. cbn [mbind result_bind].
  set (h := {| signature := _; control_size := _; diff_size := _; output_size := _ |}).
  destruct (header_validate h) as [[]|] eqn:Eh; [|done]. cbn [mbind result_bind]. intros <-%Ok_inj. exists h, cc, dc, ec.
  pose proof (proj1 (header_validate_ok h) Eh) as (_ & _ & _ & Hos & Hcs). unfold MAX_SIZE, h in Hos, Hcs. cbn [control_size diff_size output_size] in Hos, Hcs. split.
  - unfold read_blocks. rewrite header_codec; [|done|unfold i64, h; cbn [control_size diff_size output_size]; lia..]. cbn [mbind result_bind].
    rewrite Eh. cbn [mbind result_bind]. unfold read_exact, h. cbn [control_size diff_size]. rewrite !Nat2Z.id.
    rewrite (proj2 (Nat.ltb_ge _ _)) by (rewrite length_app; lia). cbn [mbind result_bind]. rewrite take_app_length, drop_app_length.
    rewrite (proj2 (Nat.ltb_ge _ _)) by (rewrite length_app; lia). cbn [mbind result_bind]. by rewrite take_app_length, drop_app_length.
  - split; [done|]. split; [|split; by apply compress_inv]. apply compress_inv in Ec. unfold from_compressed. rewrite Ec. cbn [mbind result_bind].
    rewrite parse_entries_ok; [by destruct block|done|].
    rewrite (length_concat_blocks 24) by (apply Forall_fmap, Forall_true; apply length_entry_bytes). rewrite length_fmap. lia.
Qed.

Lemma read_apply old patch h cc dc ec block diff extra :
  read_blocks patch = Ok (h, cc, dc, ec) -> from_compressed zlib_decompress cc = Ok block ->
  decompress_zlib zlib_decompress dc = Ok diff -> decompress_zlib zlib_decompress ec = Ok extra ->
  apply_patch_memory zlib_decompress old patch = apply_patch_with_data old block diff extra (output_size h).
Proof. intros E1 E2 E3 E4. unfold apply_patch_memory. rewrite E1. cbn [mbind result_bind]. rewrite E2. cbn [mbind result_bind]. rewrite E3. cbn [mbind result_bind]. by rewrite E4. Qed.

(** What the optimised builder hands to the assembly. *)
Definition good_patch (b : ZbsdiffBuilder) (patch : bytes) : Prop :=
  exists h cc dc ec block diff extra, read_blocks patch = Ok (h, cc, dc, ec) /\ output_size h = Z.of_nat (length (new_data b)) /\
    from_compressed zlib_decompress cc = Ok block /\ decompress_zlib zlib_decompress dc = Ok diff /\ decompress_zlib zlib_decompress ec = Ok extra /\
    apply_patch_with_data (old_data b) block diff extra (output_size h) = Ok (new_data b) /\
    reach block < 2 ^ 64 /\ Forall entry_i64 block /\ Forall sizes_nonneg block.

Lemma good_patch_applies b patch : good_patch b patch ->
  apply_patch_memory zlib_decompress (old_data b) patch = Ok (new_data b) /\
  forall size, apply_patch_from_data zlib_decompress (with_buffer_size (patcher_new (old_data b) (Z.of_nat (length (new_data b)))) size) patch = Ok (new_data b).
Proof.
  intros (h & cc & dc & ec & block & diff & extra & E1 & Eo & E2 & E3 & E4 & E5 & Hr & Hi & Hs). split; [by rewrite (read_apply _ patch h cc dc ec block diff extra)|].
  intros size. unfold apply_patch_from_data. rewrite E1. cbn [mbind result_bind]. rewrite E2. cbn [mbind result_bind]. rewrite E3. cbn [mbind result_bind]. rewrite E4.
  cbn [mbind result_bind]. set (p := with_buffer_size _ _). assert (1 <= buffer_size p)%nat as Hb by (unfold p, with_buffer_size; cbn [buffer_size]; lia).
  pose proof (streaming_spec p block diff extra Hb Hr Hi Hs) as H. change (old_file p) with (old_data b) in H. change (output_capacity p) with (Z.of_nat (length (new_data b))) in H.
  rewrite Eo in E5. rewrite E5 in H. cbn [strip] in H. by destruct (apply_patch p block diff extra) as [x|]; cbn [strip] in H; [injection H as ->|].
Qed.

Lemma reach_bound entries m : 0 <= m -> Forall (fun e => e_diff_size e <= m /\ e_seek_offset e <= m) entries -> reach entries <= 2 * m * Z.of_nat (length entries).
Proof. intros Hm H. induction H as [|e es [H1 H2] _ IH]; simpl; [lia|]. rewrite Nat2Z.inj_succ. lia. Qed.

Lemma optimized_blocks b :
  is_bytes (new_data b) -> Z.of_nat (length (old_data b)) < 2 ^ 31 -> suffix_array (old_data b) (sort_in_place (old_data b)) ->
  exists r, compute_diff (if (0 <? length (old_data b))%nat then sort_in_place (old_data b) else []) (old_data b) (new_data b) = Ret r /\
    (new_data b <> [] -> control r <> []) /\
    apply_entries (control r) (old_data b) 0 (diff_data r) (extra_data r) = Ok (new_data b) /\
    Forall (fun e => 0 <= e_diff_size e <= Z.of_nat (length (new_data b)) /\ 0 <= e_extra_size e <= Z.of_nat (length (new_data b)) /\
      - Z.of_nat (length (old_data b)) <= e_seek_offset e <= Z.of_nat (length (old_data b))) (control r) /\
    (length (diff_data r) + length (extra_data r) = length (new_data b))%nat /\ (length (control r) <= S (S (length (new_data b))))%nat.
Proof.
  intros Hb Ho Hsa.
  assert (suffix_array (old_data b) (if (0 <? length (old_data b))%nat then sort_in_place (old_data b) else [])) as Hsa'.
  { destruct (0 <? length (old_data b))%nat eqn:E; [done|]. apply Nat.ltb_ge in E. destruct (old_data b); [|simpl in E; lia]. split; done. }
  destruct (compute_diff_spec _ (old_data b) (new_data b) Hsa' ltac:(lia) Hb) as (r & p & Er & Hdec & Hne & Hent & Hlen & Hcount).
  exists r. split_and!; try done. specialize (Hdec [] [] []). rewrite !app_nil_r in Hdec. rewrite Hdec. cbn [apply_entries mbind result_bind].
  by rewrite app_nil_r, firstn_all.
Qed.

(** A new file of up to 1 GB leaves every position of the patcher far below 2^64. *)
Lemma blocks_reach b r :
  Z.of_nat (length (old_data b)) < 2 ^ 31 -> Z.of_nat (length (new_data b)) <= MAX_SIZE -> (length (control r) <= S (S (length (new_data b))))%nat ->
  Forall (fun e => 0 <= e_diff_size e <= Z.of_nat (length (new_data b)) /\ 0 <= e_extra_size e <= Z.of_nat (length (new_data b)) /\
      - Z.of_nat (length (old_data b)) <= e_seek_offset e <= Z.of_nat (length (old_data b))) (control r) ->
  reach (control r) < 2 ^ 64 /\ Forall entry_i64 (control r) /\ Forall sizes_nonneg (control r).
Proof.
  intros Ho Hn Hc He. unfold MAX_SIZE in Hn. split_and!.
  - assert (reach (control r) <= 2 * 2 ^ 31 * Z.of_nat (length (control r))) as Hr.
    { apply reach_bound; [lia|]. eapply Forall_impl; [exact He|]. simpl. lia. }
    lia.
  - eapply Forall_impl; [exact He|]. unfold entry_i64, i64. simpl. lia.
  - eapply Forall_impl; [exact He|]. unfold sizes_nonneg. simpl. lia.
Qed.

Lemma simple_good b patch : build_simple_patch zlib_compress b = Ok patch -> good_patch b patch.
Proof.
  unfold build_simple_patch. destruct (with_entries _) as [block|] eqn:Ew; [|done]. cbn [mbind result_bind].
  apply with_entries_inv in Ew as [-> Ew]. apply with_entries_ok in Ew as [_ Hv]. rewrite Forall_singleton in Hv. intros E.
  set (e := {| e_diff_size := 0; e_extra_size := Z.of_nat (length (new_data b)); e_seek_offset := 0 |}) in *.
  destruct (internal_reads b [e] [] (new_data b) patch) as (h & cc & dc & ec & E1 & Eo & E2 & E3 & E4); [done| |done|].
  { apply Forall_singleton. split; [exact Hv|]. cbn [e e_seek_offset]. lia. }
  exists h, cc, dc, ec, [e], [], (new_data b). split_and!; try done.
  2: { apply Forall_singleton. apply entry_validate_ok in Hv. unfold MAX_OP_SIZE in Hv. unfold entry_i64, i64. cbn [e e_diff_size e_extra_size e_seek_offset] in *. lia. }
  2: { apply Forall_singleton. unfold sizes_nonneg. cbn [e e_diff_size e_extra_size]. lia. }
  unfold apply_patch_with_data, e. cbn [apply_entries e_diff_size e_extra_size].
  rewrite Nat2Z.id. change (Z.to_nat 0) with 0%nat. cbn [diff_loop mbind result_bind]. pose proof (extra_loop_spec (new_data b) []) as Hx. rewrite app_nil_r in Hx.
  rewrite Hx. cbn [mbind result_bind app]. by rewrite app_nil_r, Eo, Z.eqb_refl.
Qed.

(** zlib grows its input by a little at most. *)
Definition zlib_bound : Prop := forall x, exists y, zlib_compress x = Some y /\ (length y <= 2 * length x + 64)%nat.

Lemma internal_succeeds b block diff extra :
  zlib_bound -> (length block <= S (S (length (new_data b))))%nat -> (length diff + length extra <= length (new_data b))%nat ->
  Z.of_nat (length (new_data b)) <= MAX_OP_SIZE -> exists patch, build_patch_internal zlib_compress b block diff extra = Ok patch.
Proof.
  intros Hz Hb Hd Hn. unfold build_patch_internal, to_compressed, compress_zlib. destruct (Hz (concat (entry_bytes <$> block))) as (cc & -> & Lc).
  destruct (Hz diff) as (dc & -> & Ld). destruct (Hz extra) as (ec & -> & Le). cbn [ok_or mbind result_bind].
  rewrite (length_concat_blocks 24), length_fmap in Lc by (apply Forall_fmap, Forall_true; apply length_entry_bytes).
  set (h := {| signature := _; control_size := _; diff_size := _; output_size := _ |}). unfold MAX_OP_SIZE in Hn.
  rewrite (proj2 (header_validate_ok h)); [by eexists|]. unfold h, MAX_SIZE. cbn [signature control_size diff_size output_size].
  split; [done|]. lia.
Qed.

Lemma build_spec b :
  is_bytes (new_data b) -> Z.of_nat (length (old_data b)) < 2 ^ 31 -> suffix_array (old_data b) (sort_in_place (old_data b)) ->
  exists r, build zlib_compress sort_in_place b = Ret r /\ (forall patch, r = Ok patch -> good_patch b patch) /\
    (zlib_bound -> Z.of_nat (length (new_data b)) <= MAX_OP_SIZE -> exists patch, r = Ok patch).
Proof.
  intros Hb Ho Hsa. destruct (optimized_blocks b Hb Ho Hsa) as (r & Er & Hne & Happ & Hent & Hlen & Hcount). unfold build, build_optimized_patch. rewrite Er.
  cbn [mbind outcome_bind]. destruct (control r) as [|e0 es] eqn:Ec.
  - eexists. split; [done|]. split; [intros patch; apply simple_good|]. intros Hz Hn. unfold build_simple_patch.
    set (e := {| e_diff_size := 0; e_extra_size := Z.of_nat (length (new_data b)); e_seek_offset := 0 |}).
    assert (with_entries [e] = Ok [e]) as ->.
    { apply with_entries_ok. split; [done|]. apply Forall_singleton, entry_validate_ok. unfold MAX_OP_SIZE in *. cbn [e e_diff_size e_extra_size]. lia. }
    cbn [mbind result_bind]. apply internal_succeeds; [done|simpl; lia|simpl; lia|done].
  - rewrite <- Ec in *. eexists. split; [done|]. split.
    + intros patch E. destruct (with_entries (control r)) as [block|] eqn:Ew; [|done]. cbn [mbind result_bind] in E.
      apply with_entries_inv in Ew as [-> Ew]. apply with_entries_ok in Ew as [Hcne Hv].
      assert (Z.of_nat (length (new_data b)) <= MAX_SIZE) as Hmax.
      { unfold build_patch_internal in E. destruct (to_compressed _ _); [|done]. destruct (compress_zlib _ (diff_data r)); [|done].
        destruct (compress_zlib _ (extra_data r)); [|done]. cbn [mbind result_bind] in E. destruct (header_validate _) as [[]|] eqn:Eh; [|done].
        apply header_validate_ok in Eh as (_ & _ & _ & Hos & _). cbn [output_size] in Hos. lia. }
      destruct (internal_reads b (control r) (diff_data r) (extra_data r) patch Hcne) as (h & cc & dc & ec & E1 & Eo & E2 & E3 & E4); [|done|].
      { rewrite Forall_forall in Hv, Hent |- *. intros e He. split; [by apply Hv|]. destruct (Hent e He) as (_ & _ & Hs). lia. }
      destruct (blocks_reach b r Ho Hmax Hcount Hent) as (Hr & Hi & Hs).
      exists h, cc, dc, ec, (control r), (diff_data r), (extra_data r). split_and!; try done.
      unfold apply_patch_with_data. rewrite Happ. cbn [mbind result_bind]. by rewrite Eo, Z.eqb_refl.
    + intros Hz Hn. assert (with_entries (control r) = Ok (control r)) as ->.
      { apply with_entries_ok. split; [by rewrite Ec|]. eapply Forall_impl; [exact Hent|]. intros e (H1 & H2 & _). apply entry_validate_ok. lia. }
      cbn [mbind result_bind]. by apply internal_succeeds; [|lia|lia|].
Qed.

End Codec.

(** What the code relies on: zlib gives back what it compressed and grows it by a
    little at most, and divsufsort sorts the suffixes. *)
Definition patch_codecs_ok (zc zd : bytes -> option bytes) (sort : bytes -> list Z) (old : bytes) : Prop :=
  (forall x y, zc x = Some y -> zd y = Some x) /\ zlib_bound zc /\ suffix_array old (sort old).

(** C4: every patch turns the old data into the new data.  The bsdiff builder ends
    without a panic on any two byte strings, in a patch whenever the new data has at
    most ten million bytes; and every patch it makes, of any size, applied to the old
    data in memory or through the streaming patcher with any buffer size, gives the
    new data. *)
Theorem zbsdiff_roundtrip zc zd sort old new block_size :
  patch_codecs_ok zc zd sort old -> is_bytes new -> Z.of_nat (length old) < 2 ^ 31 ->
  exists r, build zc sort (with_max_diff_block_size (builder_new old new) block_size) = Ret r /\
    (Z.of_nat (length new) <= MAX_OP_SIZE -> exists patch, r = Ok patch) /\
    forall patch, r = Ok patch -> apply_patch_memory zd old patch = Ok new /\
      forall size, apply_patch_from_data zd (with_buffer_size (patcher_new old (Z.of_nat (length new))) size) patch = Ok new.
Proof.
  intros (H1 & H2 & H3) Hn Ho. destruct (build_spec zc zd sort H1 (with_max_diff_block_size (builder_new old new) block_size) Hn Ho H3) as (r & Er & Hp & Hs).
  exists r. split; [done|]. split; [by apply Hs|]. intros patch E. by apply (good_patch_applies zd (with_max_diff_block_size (builder_new old new) block_size)), Hp.
Qed.

Definition sample_old : bytes := [5; 3; 5; 4; 9].

Lemma sample_codecs_ok : patch_codecs_ok Some Some (fun _ => [1; 3; 0; 2; 4]) sample_old.
Proof.
  split; [by intros x y [= ->]|]. split; [intros x; exists x; split; [done|lia]|]. split.
  - apply (bool_decide_unpack _). by vm_compute.
  - intros i j p q Hij Hp Hq. assert (j < 5)%nat as Hj by (by apply lookup_lt_Some in Hq).
    do 5 (destruct j as [|j]; [do 5 (destruct i as [|i]; [try (exfalso; lia); simpl in Hp, Hq; injection Hp as <-; injection Hq as <-; by vm_compute|]); lia|]). lia.
Qed.

Lemma zbsdiff_roundtrip_witness :
  exists patch, build Some (fun _ => [1; 3; 0; 2; 4]) (with_max_diff_block_size (builder_new sample_old [5; 4; 9; 7; 5; 3]) 16) = Ret (Ok patch) /\
    apply_patch_memory Some sample_old patch = Ok [5; 4; 9; 7; 5; 3].
Proof.
  destruct (zbsdiff_roundtrip Some Some (fun _ => [1; 3; 0; 2; 4]) sample_old [5; 4; 9; 7; 5; 3] 16 sample_codecs_ok) as (r & Er & Hs & Hp).
  - apply (bool_decide_unpack _). by vm_compute.
  - done.
  - destruct Hs as [patch ->]; [done|]. exists patch. split; [done|]. by apply Hp.
Defined.

(** C5: the streaming patcher is the in-memory patcher.  On every control block whose
    sizes are not negative, as in every block the parser accepts, on any diff and extra
    data and with any buffer size, both give the same new data or both fail, as long as
    the block does not seek 2^64 bytes ahead.  On a block with a negative size, which
    only its public field can hold, the streaming patcher always fails: the size is
    cast to a huge [usize] (the in-memory patcher takes it as zero). *)
Theorem streaming_agrees p block diff extra :
  (1 <= buffer_size p)%nat -> Forall entry_i64 block ->
  Z.of_nat (length diff) < 2 ^ 63 -> Z.of_nat (length extra) < 2 ^ 63 ->
  (Forall sizes_nonneg block -> reach block < 2 ^ 64 ->
   strip (apply_patch p block diff extra) = strip (apply_patch_with_data (old_file p) block diff extra (output_capacity p))) /\
  (Exists (fun e => ~ sizes_nonneg e) block -> strip (apply_patch p block diff extra) = None).
Proof.
  intros Hb Hi Hd Hx. split; [intros Hs Hr; by apply streaming_spec|]. intros Hneg. unfold apply_patch.
  pose proof (stream_entries_negative block p 0 diff extra (get_old_file_size p) Hi Hneg Hd Hx) as H.
  by destruct (stream_entries block p 0 diff extra _).
Qed.

Lemma streaming_agrees_witness :
  strip (apply_patch (patcher_new sample_old 3) [{| e_diff_size := 2; e_extra_size := 1; e_seek_offset := -1 |}] [1; 1] [8]) = Some [6; 4; 8] /\
  strip (apply_patch (patcher_new sample_old 1) [{| e_diff_size := -1; e_extra_size := 1; e_seek_offset := 0 |}] [1; 1] [8]) = None.
Proof.
  split.
  - destruct (streaming_agrees (patcher_new sample_old 3) [{| e_diff_size := 2; e_extra_size := 1; e_seek_offset := -1 |}] [1; 1] [8])
      as [H _]; [apply Nat.leb_le; by vm_compute|apply Forall_singleton; unfold entry_i64, i64; simpl; lia|simpl; lia..|].
    rewrite H; [by vm_compute| |done]. apply Forall_singleton. unfold sizes_nonneg. simpl. lia.
  - destruct (streaming_agrees (patcher_new sample_old 1) [{| e_diff_size := -1; e_extra_size := 1; e_seek_offset := 0 |}] [1; 1] [8])
      as [_ H]; [apply Nat.leb_le; by vm_compute|apply Forall_singleton; unfold entry_i64, i64; simpl; lia|simpl; lia..|].
    apply H, Exists_cons_hd. unfold sizes_nonneg. simpl. lia.
Defined.

(** ** Where the code differs from what it documents *)

(** The two patchers part on a negative size: the loops of the in-memory patcher are
    empty, the streaming patcher asks for almost 2^64 bytes. *)
Theorem negative_size_disagrees :
  let block := [{| e_diff_size := -1; e_extra_size := 1; e_seek_offset := 0 |}] in
  apply_patch_with_data sample_old block [1; 1] [8] 1 = Ok [8] /\
  strip (apply_patch (patcher_new sample_old 1) block [1; 1] [8]) = None.
Proof. by vm_compute. Qed.

(** [build_chunked_patch] gives every run of extra bytes a seek by the current
    position in the old data, "to maintain position tracking"; seeks are relative, so
    the patcher leaves the position and the patch gives other data of the right
    size. *)
Theorem chunked_patch_wrong :
  let old := Z.of_nat <$> seq 1 16 in
  let new := take 8 old ++ replicate 256 100 ++ drop 8 old in
  match build_chunked_patch Some (builder_new old new) with
  | Ok patch => match apply_patch_memory Some old patch with Ok out => out <> new /\ length out = length new | Err _ => False end
  | Err _ => False
  end.
Proof. vm_compute. done. Qed.

(** [search] is documented to find the longest match: a suffix that is a proper prefix
    of the new data is taken for greater, and the search goes the wrong way, even on
    identical data. *)
Theorem search_not_longest :
  search [2; 1; 0] [97; 97; 97] [97; 97; 97] = Ret (1%nat, 2%nat) /\ matchlen [97; 97; 97] [97; 97; 97] = 3%nat.
Proof. by vm_compute. Qed.

(** The header allows a gigabyte of output, but a block of more than ten million
    bytes is refused, and the simple patch is one block. *)
Theorem simple_patch_limit zc b :
  MAX_OP_SIZE < Z.of_nat (length (new_data b)) ->
  build_simple_patch zc b = Err (InvalidControlEntry 0 (ApplicationFailed "extra_size too large")).
Proof.
  intros H. unfold build_simple_patch, with_entries, block_validate. cbn [validate_from]. unfold entry_validate. cbn [e_diff_size e_extra_size].
  change (0 <? 0) with false. cbn iota. rewrite (proj2 (Z.ltb_ge _ 0)) by lia. change (MAX_OP_SIZE <? 0) with false. cbn iota.
  by rewrite (proj2 (Z.ltb_lt _ _)) by lia.
Qed.
