(* ===== verification/Espec.v ===== *)
(** * ESpec strings

    The encoding specifications of src/crates/cascette-formats/src/espec: the data
    types, the recursive-descent parser of parser.rs and the [Display] instances of
    types.rs.  A string is the list of its characters (code points); the parser only
    ever steps over ASCII characters, so the byte position that the errors report is
    the number of characters read. *)

From S2P Require Import Prelude Bytes Text Blte.
Local Open Scope Z_scope.

Module Espec.

Inductive ESpecError : Type :=
| EmptyInput
| UnknownType (c : Z)
| InvalidLevel (level : Z)
| InvalidBits (bits : Z)
| InvalidBcn (bcn : Z)
| InvalidHex (why : string)
| UnexpectedChar (expected found : Z) (position : nat)
| UnexpectedEnd (position : nat)
| InvalidNumber (position : nat) (why : string)
| InvalidUnit (c : Z)
| MissingEncryptionParams
| MultipleVariableBlocks
| InvalidIvLength (len : nat).

Inductive ZLibVariant := MPQ | ZLibStd | LZ4HC.

Record BlockSizeSpec := { size : Z; count : option Z }.

Inductive ESpec : Type :=
| None_
| ZLib (level : option Z) (variant : option ZLibVariant) (window_bits : option Z)
| Encrypted (key : bytes) (iv : bytes) (spec : ESpec)
| BlockTable (chunks : list (option BlockSizeSpec * ESpec))
| BCPack (bcn : option Z)
| GDeflate (level : option Z).

Definition is_encrypted (s : ESpec) : bool := match s with Encrypted _ _ _ => true | _ => false end.

Fixpoint is_compressed (s : ESpec) : bool :=
  match s with
  | None_ => false
  | ZLib _ _ _ | BCPack _ | GDeflate _ => true
  | BlockTable chunks => existsb (fun c => is_compressed (snd c)) chunks
  | Encrypted _ _ spec => is_compressed spec
  end.

Definition codec_id (s : ESpec) : option Z :=
  match s with
  | None_ => Some 0
  | ZLib _ (Some LZ4HC) _ => Some 3
  | ZLib _ _ _ => Some 2
  | BCPack _ => Some 4
  | GDeflate _ => Some 5
  | Encrypted _ _ _ | BlockTable _ => None
  end.

Definition blte_compression_mode (s : ESpec) : option Blte.CompressionMode :=
  match s with
  | None_ => Some Blte.None_
  | ZLib _ (Some LZ4HC) _ => Some Blte.LZ4
  | ZLib _ _ _ => Some Blte.ZLib
  | _ => None
  end.

(** ** The parser

    The state is the position and the unread characters; a parser is a state and
    error monad.  [Panic] stands for running out of fuel, which the theorems
    exclude. *)

Record Parser := { pos : nat; rest : list Z }.

Definition parser (A : Type) : Type := Parser -> outcome (result ESpecError (A * Parser)).

Definition pret {A} (a : A) : parser A := fun p => Ret (Ok (a, p)).
Definition pfail {A} (e : ESpecError) : parser A := fun _ => Ret (Err e).
Definition pbind {A B} (m : parser A) (f : A -> parser B) : parser B := fun p =>
  match m p with Ret (Ok (a, p)) => f a p | Ret (Err e) => Ret (Err e) | Panic => Panic end.

Notation "x <- m ;; k" := (pbind m (fun x => k)) (at level 60, m at next level, right associativity).
Notation "m ;;; k" := (pbind m (fun _ => k)) (at level 60, right associativity).

Definition peek : parser (option Z) := fun p => Ret (Ok (head (rest p), p)).
Definition position : parser nat := fun p => Ret (Ok (pos p, p)).

Definition is_char (c : Z) (o : option Z) : bool := match o with Some x => x =? c | None => false end.
Definition is_some_and (f : Z -> bool) (o : option Z) : bool := match o with Some x => f x | None => false end.

Definition consume (expected : Z) : parser unit := fun p =>
  match rest p with
  | ch :: l => if ch =? expected then Ret (Ok (tt, {| pos := S (pos p); rest := l |})) else Ret (Err (UnexpectedChar expected ch (pos p)))
  | [] => Ret (Err (UnexpectedEnd (pos p)))
  end.

(** The longest prefix of characters that satisfy [f]. *)
Fixpoint span (f : Z -> bool) (l : list Z) : list Z * list Z :=
  match l with
  | [] => ([], [])
  | c :: l' => if f c then let '(a, b) := span f l' in (c :: a, b) else ([], l)
  end.

Definition take_while (f : Z -> bool) : parser (list Z) := fun p =>
  let '(a, b) := span f (rest p) in Ret (Ok (a, {| pos := pos p + length a; rest := b |})).

Definition parse_number : parser Z :=
  start <- position ;;
  digits <- take_while is_digit ;;
  match digits with
  | [] => pfail (InvalidNumber start "Expected number")
  | _ => let n := parse_decimal digits in
         if n <? 2 ^ 64 then pret n else pfail (InvalidNumber start "number too large to fit in target type")
  end.

Definition parse_identifier : parser (list Z) := take_while is_alnum.

(** [u8::try_from] and [u32::try_from] of a [u64]. *)
Definition to_u8 (n : Z) (e : ESpecError) : parser Z := if n <? 2 ^ 8 then pret n else pfail e.
Definition to_u32 (n : Z) (e : ESpecError) : parser Z := if n <? 2 ^ 32 then pret n else pfail e.

Definition parse_window_bits : parser Z :=
  num <- parse_number ;;
  bits <- to_u8 num (InvalidBits 255) ;;
  if negb ((8 <=? bits) && (bits <=? 15)) then pfail (InvalidBits bits) else pret bits.

(** "mpq", "zlib" and "lz4hc". *)
Definition mpq_name : list Z := [109; 112; 113].
Definition zlib_name : list Z := [122; 108; 105; 98].
Definition lz4hc_name : list Z := [108; 122; 52; 104; 99].

Definition parse_zlib_variant : parser ZLibVariant :=
  start <- position ;;
  ident <- parse_identifier ;;
  if bool_decide (ident = mpq_name) then pret MPQ
  else if bool_decide (ident = zlib_name) then pret ZLibStd
  else if bool_decide (ident = lz4hc_name) then pret LZ4HC
  else pfail (InvalidNumber start "Unknown zlib variant").

(** The level behind the colon. *)
Definition parse_level (has_braces : bool) : parser (option Z) :=
  c <- peek ;;
  if is_some_and is_digit c then
    num <- parse_number ;;
    level <- to_u8 num (InvalidLevel 255) ;;
    if (level =? 0) || (9 <? level) then pfail (InvalidLevel level) else pret (Some level)
  else if negb has_braces then
    at_ <- position ;;
    match c with Some ch => pfail (UnexpectedChar 48 ch at_) | None => pfail (UnexpectedEnd at_) end
  else pret None.

(** The variant and window bits behind a comma. *)
Definition parse_zlib_params : parser (option ZLibVariant * option Z) :=
  consume 44 ;;;
  c <- peek ;;
  if is_some_and is_digit c then window_bits <- parse_window_bits ;; pret (None, Some window_bits)
  else
    variant <- parse_zlib_variant ;;
    c <- peek ;;
    if is_char 44 c then consume 44 ;;; window_bits <- parse_window_bits ;; pret (Some variant, Some window_bits)
    else pret (Some variant, None).

Definition parse_zlib : parser ESpec :=
  consume 122 ;;;
  c <- peek ;;
  if negb (is_char 58 c) then pret (ZLib None None None)
  else
    consume 58 ;;;
    c <- peek ;;
    let has_braces := is_char 123 c in
    (if has_braces then consume 123 else pret tt) ;;;
    level <- parse_level has_braces ;;
    c <- peek ;;
    params <- (if has_braces && is_char 44 c then parse_zlib_params else pret (None, None)) ;;
    (if has_braces then consume 125 else pret tt) ;;;
    pret (ZLib level (fst params) (snd params)).

(** The loop of [parse_hex_until]: the characters up to the delimiter, an error at a
    character that is not a hex digit. *)
Fixpoint hex_span (delimiter : Z) (l : list Z) : option (list Z * list Z) :=
  match l with
  | [] => Some ([], [])
  | c :: l' =>
      if c =? delimiter then Some ([], l)
      else if is_hexdigit c then '(a, b) ← hex_span delimiter l'; Some (c :: a, b)
      else None
  end.

Definition parse_hex_until (delimiter : Z) (min_bytes max_bytes : nat) : parser bytes := fun p =>
  match hex_span delimiter (rest p) with
  | None => Ret (Err (InvalidHex "Invalid hex character"))
  | Some (hex_str, l) =>
      if negb (Nat.even (length hex_str)) then Ret (Err (InvalidHex "Odd number of hex chars"))
      else
        let byte_len := Nat.div2 (length hex_str) in
        if (byte_len <? min_bytes)%nat || (max_bytes <? byte_len)%nat then Ret (Err (InvalidIvLength byte_len))
        else
          match hex_decode hex_str with
          | Some b => Ret (Ok (b, {| pos := pos p + length hex_str; rest := l |}))
          | None => Ret (Err (InvalidHex "Invalid character"))
          end
  end.

Definition parse_block_size_spec : parser BlockSizeSpec :=
  num <- parse_number ;;
  unit_ <- peek ;;
  size <- (if is_char 75 unit_ then consume 75 ;;; pret (wrap64 (num * 1024))
           else if is_char 77 unit_ then consume 77 ;;; pret (wrap64 (num * (1024 * 1024)))
           else if is_char 71 unit_ || is_char 84 unit_ || is_char 80 unit_ then pfail (InvalidUnit (default 0 unit_))
           else pret num) ;;
  c <- peek ;;
  count <- (if is_char 42 c then
              consume 42 ;;;
              c <- peek ;;
              if is_some_and is_digit c then
                num <- parse_number ;; at_ <- position ;;
                n <- to_u32 num (InvalidNumber at_ "Count too large") ;; pret (Some n)
              else pret None
            else pret None) ;;
  pret {| size := size; count := count |}.

Definition parse_bcpack : parser ESpec :=
  consume 99 ;;;
  c <- peek ;;
  if negb (is_char 58 c) then pret (BCPack None)
  else
    consume 58 ;;; consume 123 ;;;
    num <- parse_number ;; at_ <- position ;;
    bcn <- to_u8 num (InvalidNumber at_ "BCPack version too large") ;;
    if (bcn =? 0) || (7 <? bcn) then pfail (InvalidBcn bcn) else consume 125 ;;; pret (BCPack (Some bcn)).

Definition parse_gdeflate : parser ESpec :=
  consume 103 ;;;
  c <- peek ;;
  if negb (is_char 58 c) then pret (GDeflate None)
  else
    consume 58 ;;; consume 123 ;;;
    num <- parse_number ;;
    level <- to_u8 num (InvalidLevel 255) ;;
    if (level =? 0) || (12 <? level) then pfail (InvalidLevel level) else consume 125 ;;; pret (GDeflate (Some level)).

(** The size in front of a chunk in braces; [variable_count] is the number of
    variable blocks seen so far. *)
Definition parse_chunk_size (variable_count : nat) : parser (option BlockSizeSpec * nat) :=
  c <- peek ;;
  if is_char 42 c then
    consume 42 ;;;
    let variable_count := S variable_count in
    if (1 <? variable_count)%nat then pfail MultipleVariableBlocks
    else
      c <- peek ;;
      if is_char 61 c then pret (None, variable_count)
      else
        num <- parse_number ;; at_ <- position ;;
        n <- to_u32 num (InvalidNumber at_ "Count too large") ;;
        pret (Some {| size := 0; count := Some n |}, variable_count)
  else s <- parse_block_size_spec ;; pret (Some s, variable_count).

(** The mutually recursive part.  Every nested call is behind a character that was
    consumed, so the length of the input is enough fuel. *)
Fixpoint parse_espec (fuel : nat) : parser ESpec :=
  match fuel with
  | O => fun _ => Panic
  | S fuel =>
      c <- peek ;;
      match c with
      | Some ch =>
          if ch =? 110 then consume 110 ;;; pret None_
          else if ch =? 122 then parse_zlib
          else if ch =? 101 then parse_encrypted fuel
          else if ch =? 98 then parse_block_table fuel
          else if ch =? 99 then parse_bcpack
          else if ch =? 103 then parse_gdeflate
          else pfail (UnknownType ch)
      | None => at_ <- position ;; pfail (UnexpectedEnd at_)
      end
  end
with parse_encrypted (fuel : nat) : parser ESpec :=
  match fuel with
  | O => fun _ => Panic
  | S fuel =>
      consume 101 ;;; consume 58 ;;; consume 123 ;;;
      key <- parse_identifier ;;
      if negb (length key =? 16)%nat then pfail (InvalidHex "Key must be 16 hex chars")
      else
        consume 44 ;;;
        iv <- parse_hex_until 44 1 8 ;;
        consume 44 ;;;
        spec <- parse_espec fuel ;;
        consume 125 ;;;
        pret (Encrypted key iv spec)
  end
with parse_block_table (fuel : nat) : parser ESpec :=
  match fuel with
  | O => fun _ => Panic
  | S fuel =>
      consume 98 ;;; consume 58 ;;;
      c <- peek ;;
      if negb (is_char 123 c) then
        if is_some_and (fun c => is_digit c || (c =? 42)) c then
          size_spec <- (if is_char 42 c then consume 42 ;;; pret None
                        else s <- parse_block_size_spec ;; pret (Some s)) ;;
          consume 61 ;;;
          spec <- parse_espec fuel ;;
          pret (BlockTable [(size_spec, spec)])
        else spec <- parse_espec fuel ;; pret (BlockTable [(None, spec)])
      else
        consume 123 ;;;
        chunks <- parse_chunks fuel 0 ;;
        consume 125 ;;;
        pret (BlockTable chunks)
  end
with parse_chunks (fuel : nat) (variable_count : nat) : parser (list (option BlockSizeSpec * ESpec)) :=
  match fuel with
  | O => fun _ => Panic
  | S fuel =>
      sv <- parse_chunk_size variable_count ;;
      consume 61 ;;;
      spec <- parse_espec fuel ;;
      c <- peek ;;
      if is_char 44 c then consume 44 ;;; chunks <- parse_chunks fuel (snd sv) ;; pret ((fst sv, spec) :: chunks)
      else pret [(fst sv, spec)]
  end.

Definition parse (input : list Z) : outcome (result ESpecError ESpec) :=
  match input with
  | [] => Ret (Err EmptyInput)
  | _ =>
      match parse_espec (S (2 * length input)) {| pos := 0; rest := input |} with
      | Ret (Ok (spec, p)) =>
          match rest p with
          | [] => Ret (Ok spec)
          | ch :: _ => Ret (Err (UnexpectedChar 0 ch (pos p)))
          end
      | Ret (Err e) => Ret (Err e)
      | Panic => Panic
      end
  end.

Definition validate (input : list Z) : outcome bool :=
  r ← parse input; Ret (match r with Ok _ => true | Err _ => false end).

(** ** The [Display] instances *)

Definition show_variant (v : ZLibVariant) : list Z := match v with MPQ => mpq_name | ZLibStd => zlib_name | LZ4HC => lz4hc_name end.

Definition show_size (s : BlockSizeSpec) : list Z :=
  (if size s mod (1024 * 1024) =? 0 then show (size s / (1024 * 1024)) ++ [77]
   else if size s mod 1024 =? 0 then show (size s / 1024) ++ [75]
   else show (size s)) ++
  match count s with Some c => 42 :: show c | None => [] end.

Definition braces (l : list Z) : list Z := [58; 123] ++ l ++ [125].

Fixpoint to_string (s : ESpec) : list Z :=
  match s with
  | None_ => [110]
  | ZLib level variant window_bits =>
      122 ::
      match level, variant, window_bits with
      | None, None, None => []
      | Some l, None, None => 58 :: show l
      | Some l, Some v, None => braces (show l ++ [44] ++ show_variant v)
      | Some l, None, Some wb => braces (show l ++ [44] ++ show wb)
      | Some l, Some v, Some wb => braces (show l ++ [44] ++ show_variant v ++ [44] ++ show wb)
      | None, Some v, None => braces (show_variant v)
      | None, Some v, Some wb => braces (show_variant v ++ [44] ++ show wb)
      | None, None, Some wb => braces (show wb)
      end
  | Encrypted key iv spec => 101 :: braces (key ++ [44] ++ hex_encode iv ++ [44] ++ to_string spec)
  | BlockTable chunks =>
      [98; 58] ++
      match chunks with
      | [(None, spec)] => to_string spec
      | _ =>
          [123] ++
          (fix show_chunks (first : bool) (l : list (option BlockSizeSpec * ESpec)) :=
             match l with
             | [] => []
             | (o, spec) :: l =>
                 (if first then [] else [44]) ++ match o with Some s => show_size s | None => [42] end ++ [61] ++ to_string spec ++ show_chunks false l
             end) true chunks ++ [125]
      end
  | BCPack bcn => 99 :: match bcn with Some n => braces (show n) | None => [] end
  | GDeflate level => 103 :: match level with Some l => braces (show l) | None => [] end
  end.

End Espec.
