(* ===== verification/EspecTheorems.v ===== *)
(** * Correctness of the ESpec parser

    Parsing ends on every string, what it accepts is well-typed, and every well-typed
    specification without bare zlib parameters is read back from its text. *)

From S2P Require Import Prelude Bytes Text Blte Espec.
Import Espec.
Local Open Scope Z_scope.

(** ** Well-typed specifications *)

Definition within (lo hi : Z) (o : option Z) : Prop := match o with Some x => lo <= x <= hi | None => True end.

Definition size_typed (o : option BlockSizeSpec) : Prop :=
  match o with Some s => 0 <= size s < 2 ^ 64 /\ within 0 (2 ^ 32 - 1) (count s) | None => True end.

(** How many chunks take what the others leave. *)
Fixpoint variables (chunks : list (option BlockSizeSpec * ESpec)) : nat :=
  match chunks with
  | [] => 0
  | (None, _) :: l => S (variables l)
  | (Some _, _) :: l => variables l
  end.

Fixpoint well_typed (s : ESpec) : Prop :=
  match s with
  | None_ => True
  | ZLib level _ window_bits => within 1 9 level /\ within 8 15 window_bits
  | Encrypted key iv spec =>
      length key = 16%nat /\ Forall (fun c => is_alnum c = true) key /\ is_bytes iv /\ (1 <= length iv <= 8)%nat /\ well_typed spec
  | BlockTable chunks =>
      chunks <> [] /\ (variables chunks <= 1)%nat /\
      (fix all l := match l with [] => True | (o, spec) :: l => size_typed o /\ well_typed spec /\ all l end) chunks
  | BCPack bcn => within 1 7 bcn
  | GDeflate level => within 1 12 level
  end.

(** The zlib parameters that the printer writes without a comma in front of them. *)
Fixpoint no_bare_params (s : ESpec) : Prop :=
  match s with
  | ZLib None variant window_bits => variant = None /\ window_bits = None
  | Encrypted _ _ spec => no_bare_params spec
  | BlockTable chunks => (fix all l := match l with [] => True | (_, spec) :: l => no_bare_params spec /\ all l end) chunks
  | _ => True
  end.

Definition chunk_typed (c : option BlockSizeSpec * ESpec) : Prop := size_typed (fst c) /\ well_typed (snd c).

Lemma block_typed chunks : well_typed (BlockTable chunks) <-> chunks <> [] /\ (variables chunks <= 1)%nat /\ Forall chunk_typed chunks.
Proof.
  cbn [well_typed].
  assert (forall l, (fix all l := match l with [] => True | (o, spec) :: l => size_typed o /\ well_typed spec /\ all l end) l <-> Forall chunk_typed l) as H.
  { induction l as [|[o spec] l IH]; [split; constructor|]. rewrite Forall_cons, <- IH. unfold chunk_typed. simpl. tauto. }
  by rewrite H.
Qed.

Lemma block_printable chunks : no_bare_params (BlockTable chunks) <-> Forall (fun c => no_bare_params (snd c)) chunks.
Proof.
  cbn [no_bare_params]. induction chunks as [|[o spec] l IH]; [split; constructor|]. rewrite Forall_cons, <- IH. done.
Qed.

(** ** Running a parser: weakest preconditions *)

(** [m] does not run out of fuel at [p], and if it accepts, [Q] holds of the value and
    the state behind it. *)
Definition wp {A} (m : parser A) (p : Parser) (Q : A -> Parser -> Prop) : Prop :=
  match m p with Ret (Ok (a, p')) => Q a p' | Ret (Err _) => True | Panic => False end.

Definition left_ (p : Parser) : nat := length (rest p).

Lemma wp_bind {A B} (m : parser A) (f : A -> parser B) p Q : wp m p (fun a p' => wp (f a) p' Q) -> wp (pbind m f) p Q.
Proof. unfold wp, pbind. by destruct (m p) as [[[a p']|]|]. Qed.

Lemma wp_mono {A} (m : parser A) p (Q Q' : A -> Parser -> Prop) : wp m p Q -> (forall a p', Q a p' -> Q' a p') -> wp m p Q'.
Proof. unfold wp. destruct (m p) as [[[a p']|]|]; auto. Qed.

Lemma wp_ret {A} (a : A) p (Q : A -> Parser -> Prop) : Q a p -> wp (pret a) p Q.
Proof. done. Qed.

Lemma wp_fail {A} e p (Q : A -> Parser -> Prop) : wp (pfail e) p Q.
Proof. done. Qed.

Lemma wp_peek p (Q : option Z -> Parser -> Prop) : Q (head (rest p)) p -> wp peek p Q.
Proof. done. Qed.

Lemma wp_position p (Q : nat -> Parser -> Prop) : Q (pos p) p -> wp position p Q.
Proof. done. Qed.

Lemma wp_consume c p (Q : unit -> Parser -> Prop) : (forall p', S (left_ p') = left_ p -> Q tt p') -> wp (consume c) p Q.
Proof.
  intros H. unfold wp, consume, left_ in *. destruct (rest p) as [|ch l]; [done|]. destruct (ch =? c); [|done]. by apply H.
Qed.

Lemma span_spec f l a b : span f l = (a, b) -> l = a ++ b /\ Forall (fun c => f c = true) a.
Proof.
  revert a b. induction l as [|c l IH]; intros a b; cbn [span]; [by intros [= <- <-]|]. destruct (f c) eqn:E; [|by intros [= <- <-]].
  destruct (span f l) as [a' b'] eqn:Es. intros [= <- <-]. destruct (IH a' b' eq_refl) as [-> Ha]. split; [done|]. by constructor.
Qed.

Lemma wp_take_while f p (Q : list Z -> Parser -> Prop) :
  (forall a p', Forall (fun c => f c = true) a -> (left_ p' <= left_ p)%nat -> Q a p') -> wp (take_while f) p Q.
Proof.
  intros H. unfold wp, take_while, left_ in *. destruct (span f (rest p)) as [a b] eqn:E. destruct (span_spec f _ a b E) as [El Ha].
  apply H; [done|]. cbn [rest]. rewrite El, length_app. lia.
Qed.

Create HintDb espec.
#[export] Hint Resolve wp_ret wp_fail : espec.

(** One step of a weakest-precondition proof. *)
Ltac wp_step :=
  match goal with
  | |- wp (pbind _ _) _ _ => apply wp_bind
  | |- wp (pret _) _ _ => apply wp_ret
  | |- wp (pfail _) _ _ => apply wp_fail
  | |- wp peek _ _ => apply wp_peek
  | |- wp position _ _ => apply wp_position
  | |- wp (consume _) _ _ => apply wp_consume; intros ? ?
  | |- wp (if ?b then _ else _) _ _ => destruct b eqn:?
  | |- wp (match ?o with Some _ => _ | None => _ end) _ _ => destruct o eqn:?
  end.
Ltac wp_steps := repeat wp_step.

(** The negated range check in front of an accepted number. *)
Ltac out_of_range :=
  match goal with H : (_ =? _) || (_ <? _) = false |- _ => apply orb_false_iff in H as [?%Z.eqb_neq ?%Z.ltb_ge] end.

Lemma wp_number p (Q : Z -> Parser -> Prop) :
  (forall n p', 0 <= n < 2 ^ 64 -> (left_ p' <= left_ p)%nat -> Q n p') -> wp parse_number p Q.
Proof.
  intros H. unfold parse_number. wp_steps. apply wp_take_while. intros a p' Ha Hl. destruct a as [|c a]; [apply wp_fail|].
  destruct (Z.ltb_spec (parse_decimal (c :: a)) (2 ^ 64)); [|apply wp_fail]. apply wp_ret, H; [|done]. split; [|done].
  unfold parse_decimal. assert (forall l x, 0 <= x -> Forall (fun c => is_digit c = true) l -> 0 <= fold_left (fun acc c => acc * 10 + (c - 48)) l x) as Hnn.
  { clear. intros l. induction l as [|d l IH]; intros x Hx Hl; cbn [fold_left]; [done|]. apply Forall_cons in Hl as [Hd Hl].
    unfold is_digit, in_rng in Hd. apply andb_true_iff in Hd. apply IH; [lia|done]. }
  apply Hnn; [lia|done].
Qed.

Lemma wp_u8 n e p (Q : Z -> Parser -> Prop) : 0 <= n -> (0 <= n < 2 ^ 8 -> Q n p) -> wp (to_u8 n e) p Q.
Proof. intros Hn H. unfold to_u8. destruct (Z.ltb_spec n (2 ^ 8)); [apply wp_ret, H; lia|apply wp_fail]. Qed.

Lemma wp_u32 n e p (Q : Z -> Parser -> Prop) : 0 <= n -> (0 <= n < 2 ^ 32 -> Q n p) -> wp (to_u32 n e) p Q.
Proof. intros Hn H. unfold to_u32. destruct (Z.ltb_spec n (2 ^ 32)); [apply wp_ret, H; lia|apply wp_fail]. Qed.

Lemma wp_window_bits p (Q : Z -> Parser -> Prop) :
  (forall b p', 8 <= b <= 15 -> (left_ p' <= left_ p)%nat -> Q b p') -> wp parse_window_bits p Q.
Proof.
  intros H. unfold parse_window_bits. apply wp_bind, wp_number. intros n p' Hn Hl. apply wp_bind, wp_u8; [lia|]. intros Hn8. wp_steps.
  apply H; [|done]. match goal with H : negb _ = false |- _ => rewrite negb_false_iff, andb_true_iff in H end. lia.
Qed.

Lemma wp_variant p (Q : ZLibVariant -> Parser -> Prop) : (forall v p', (left_ p' <= left_ p)%nat -> Q v p') -> wp parse_zlib_variant p Q.
Proof. intros H. unfold parse_zlib_variant. wp_steps. apply wp_take_while. intros a p' _ Hl. wp_steps; by apply H. Qed.

Lemma wp_level b p (Q : option Z -> Parser -> Prop) :
  (forall l p', within 1 9 l -> (left_ p' <= left_ p)%nat -> Q l p') -> wp (parse_level b) p Q.
Proof.
  intros H. unfold parse_level. wp_steps; [|by apply H]. apply wp_number. intros n p' Hn Hl. apply wp_bind, wp_u8; [lia|]. intros Hn8. wp_steps.
  apply H; [|done]. out_of_range. simpl. lia.
Qed.

Lemma wp_zlib p (Q : ESpec -> Parser -> Prop) :
  (forall s p', well_typed s -> (left_ p' <= left_ p)%nat -> Q s p') -> wp parse_zlib p Q.
Proof.
  intros H. unfold parse_zlib. wp_step. wp_step. wp_step. wp_step. wp_step; [wp_step; apply H; [done|lia]|]. wp_step. wp_step. wp_step. wp_step.
  set (hb := is_char 123 _). clearbody hb.
  assert (forall q (R : Parser -> Prop), (forall q', (left_ q' <= left_ q)%nat -> R q') -> wp (if hb then consume 123 else pret tt) q (fun _ q' => R q')) as Hopen.
  { intros q R HR. destruct hb; wp_steps; apply HR; lia. }
  assert (forall q (R : Parser -> Prop), (forall q', (left_ q' <= left_ q)%nat -> R q') -> wp (if hb then consume 125 else pret tt) q (fun _ q' => R q')) as Hclose.
  { intros q R HR. destruct hb; wp_steps; apply HR; lia. }
  wp_step. apply Hopen. intros q1 Hq1. wp_step. apply wp_level. intros l q2 Hlev Hq2. wp_step. wp_step. wp_step.
  apply (wp_mono _ _ (fun r q3 => within 8 15 (snd r) /\ (left_ q3 <= left_ q2)%nat)).
  - wp_step; [|wp_step; split; [done|lia]]. unfold parse_zlib_params. wp_step. wp_step. wp_step. wp_step. wp_step.
    + wp_step. apply wp_window_bits. intros b q4 Hb Hq4. wp_step. split; [done|lia].
    + wp_step. apply wp_variant. intros v q4 Hq4. wp_step. wp_step. wp_step.
      * wp_step. wp_step. wp_step. apply wp_window_bits. intros b q5 Hb Hq5. wp_step. split; [done|lia].
      * wp_step. split; [done|lia].
  - intros [v w] q3 [Hw Hq3]. wp_step. apply Hclose. intros q5 Hq5. wp_step. apply H; [done|]. lia.
Qed.

Lemma hex_span_spec d l a b : hex_span d l = Some (a, b) -> l = a ++ b /\ Forall (fun c => is_hexdigit c = true) a.
Proof.
  revert a b. induction l as [|c l IH]; intros a b; cbn [hex_span]; [by intros [= <- <-]|]. destruct (c =? d); [by intros [= <- <-]|].
  destruct (is_hexdigit c) eqn:E; [|done]. destruct (hex_span d l) as [[a' b']|] eqn:Es; [|done]. cbn. intros [= <- <-].
  destruct (IH a' b' eq_refl) as [-> Ha]. split; [done|]. by constructor.
Qed.

Lemma wp_hex d lo hi p (Q : bytes -> Parser -> Prop) :
  (forall b p', is_bytes b -> (lo <= length b <= hi)%nat -> (left_ p' <= left_ p)%nat -> Q b p') -> wp (parse_hex_until d lo hi) p Q.
Proof.
  intros H. unfold wp, parse_hex_until, left_ in *. destruct (hex_span d (rest p)) as [[a b]|] eqn:E; [|done]. destruct (hex_span_spec d _ a b E) as [El Ha].
  destruct (negb _); [done|]. destruct (_ || _) eqn:Eb; [done|]. destruct (hex_decode a) as [x|] eqn:Ex; [|done].
  destruct (hex_decode_bytes a x Ex) as [Hx Hlx]. apply orb_false_iff in Eb as [E1%Nat.ltb_ge E2%Nat.ltb_ge]. rewrite Hlx, Nat.div2_double in E1, E2.
  apply H; [done|lia|]. cbn [rest]. rewrite El, length_app. lia.
Qed.

Lemma wp_size_spec p (Q : BlockSizeSpec -> Parser -> Prop) :
  (forall s p', size_typed (Some s) -> (left_ p' <= left_ p)%nat -> Q s p') -> wp parse_block_size_spec p Q.
Proof.
  intros H. unfold parse_block_size_spec. apply wp_bind, wp_number. intros n p1 Hn H1. wp_step. wp_step. wp_step.
  apply (wp_mono _ _ (fun r q => 0 <= r < 2 ^ 64 /\ (left_ q <= left_ p1)%nat)).
  { wp_steps; (split; [try apply wrap64_range; lia|lia]). }
  intros sz q [Hsz Hq]. wp_step. wp_step. wp_step. apply (wp_mono _ _ (fun r q' => within 0 (2 ^ 32 - 1) r /\ (left_ q' <= left_ q)%nat)).
  { wp_steps; try (split; [done|lia]). apply wp_number. intros m q2 Hm H2. wp_step. wp_step. wp_step. apply wp_u32; [lia|]. intros Hm32. wp_step.
    split; [simpl; lia|lia]. }
  intros c q' [Hc Hq']. wp_step. apply H; [done|]. lia.
Qed.

Lemma wp_bcpack p (Q : ESpec -> Parser -> Prop) :
  (forall s p', well_typed s -> (left_ p' <= left_ p)%nat -> Q s p') -> wp parse_bcpack p Q.
Proof.
  intros H. unfold parse_bcpack. do 4 wp_step. wp_step; [wp_step; apply H; [done|lia]|]. do 5 wp_step. apply wp_number. intros n q Hn Hq.
  do 3 wp_step. apply wp_u8; [lia|]. intros Hn8. wp_steps. apply H; [|lia]. out_of_range. simpl. lia.
Qed.

Lemma wp_gdeflate p (Q : ESpec -> Parser -> Prop) :
  (forall s p', well_typed s -> (left_ p' <= left_ p)%nat -> Q s p') -> wp parse_gdeflate p Q.
Proof.
  intros H. unfold parse_gdeflate. do 4 wp_step. wp_step; [wp_step; apply H; [done|lia]|]. do 5 wp_step. apply wp_number. intros n q Hn Hq.
  wp_step. apply wp_u8; [lia|]. intros Hn8. wp_steps. apply H; [|lia]. out_of_range. simpl. lia.
Qed.

Lemma wp_chunk_size n p (Q : option BlockSizeSpec * nat -> Parser -> Prop) :
  (forall o k p', size_typed o -> (n + variables [(o, None_)] <= k)%nat -> (n <= 1 -> k <= 1)%nat -> (left_ p' <= left_ p)%nat -> Q (o, k) p') ->
  wp (parse_chunk_size n) p Q.
Proof.
  intros H. unfold parse_chunk_size. wp_step. wp_step. wp_step.
  - wp_step. wp_step. wp_step; [wp_step|]. apply Nat.ltb_ge in Heqb0. wp_step. wp_step. wp_step; [wp_step; apply H; simpl; (done || lia)|].
    wp_step. apply wp_number. intros m q Hm Hq. wp_step. wp_step. wp_step. apply wp_u32; [lia|]. intros Hm32. wp_step. apply H; simpl; try lia.
  - wp_step. apply wp_size_spec. intros s q Hs Hq. wp_step. apply H; [done|simpl; lia|done|done].
Qed.

(** ** The recursive part *)

Definition typed_post (p : Parser) (s : ESpec) (p' : Parser) : Prop := well_typed s /\ (left_ p' <= left_ p)%nat.

Lemma parse_typed fuel :
  (forall p, (2 * left_ p + 1 <= fuel)%nat -> wp (parse_espec fuel) p (typed_post p)) /\
  (forall p, (1 <= left_ p)%nat -> (2 * left_ p <= fuel)%nat -> wp (parse_encrypted fuel) p (typed_post p)) /\
  (forall p, (1 <= left_ p)%nat -> (2 * left_ p <= fuel)%nat -> wp (parse_block_table fuel) p (typed_post p)) /\
  (forall p n, (2 * left_ p + 1 <= fuel)%nat -> (n <= 1)%nat ->
     wp (parse_chunks fuel n) p (fun l p' => l <> [] /\ (n + variables l <= 1)%nat /\ Forall chunk_typed l /\ (left_ p' <= left_ p)%nat)).
Proof.
  induction fuel as [|fuel (IHe & IHx & IHb & IHc)]; [split_and!; intros; lia|]. split_and!.
  - intros p Hf. cbn [parse_espec]. wp_step. wp_step. destruct (head (rest p)) as [ch|] eqn:Eh; [|wp_steps].
    assert (1 <= left_ p)%nat as Hl by (unfold left_; destruct (rest p); [done|simpl; lia]).
    wp_step; [wp_steps; split; [done|lia]|]. wp_step; [apply wp_zlib; by split|]. wp_step; [apply IHx; lia|]. wp_step; [apply IHb; lia|].
    wp_step; [apply wp_bcpack; by split|]. wp_step; [apply wp_gdeflate; by split|]. wp_step.
  - intros p Hl Hf. cbn [parse_encrypted]. do 7 wp_step. apply wp_take_while. intros key p1 Hkey Hq_1. wp_step; [wp_step|].
    apply negb_false_iff, Nat.eqb_eq in Heqb. do 3 wp_step. apply wp_hex. intros iv p2 Hiv Hlen Hq_2. do 3 wp_step.
    eapply wp_mono; [apply IHe; lia|]. intros s p3 [Hs Hq_3]. wp_steps. split; [|lia]. simpl. tauto.
  - intros p Hl Hf. cbn [parse_block_table]. do 6 wp_step. wp_step.
    + wp_step.
      * wp_step. apply (wp_mono _ _ (fun o q => size_typed o /\ (left_ q <= left_ p'0)%nat)).
        { wp_steps; [split; [done|lia]|]. apply wp_size_spec. intros s q Hs Hq. wp_step. split; [done|lia]. }
        intros o q [Ho Hq]. do 2 wp_step. wp_step. eapply wp_mono; [apply IHe; lia|]. intros s q' [Hs Hq']. wp_step. split; [|lia].
        apply block_typed. split; [done|]. split; [destruct o; simpl; lia|]. by apply Forall_singleton.
      * wp_step. eapply wp_mono; [apply IHe; lia|]. intros s q' [Hs Hq']. wp_step. split; [|lia].
        apply block_typed. split; [done|]. split; [simpl; lia|]. by apply Forall_singleton.
    + do 3 wp_step. eapply wp_mono; [apply IHc; lia|]. intros l q (Hne & Hv & Hall & Hq). wp_steps. split; [|lia]. by apply block_typed.
  - intros p n Hf Hn. cbn [parse_chunks]. wp_step. apply wp_chunk_size. intros o k p1 Ho Hk Hk1 Hq_1. cbn [fst snd]. do 3 wp_step.
    eapply wp_mono; [apply IHe; lia|]. intros s p3 [Hs Hq_3]. wp_step. wp_step.
    assert (forall l, variables ((o, s) :: l) = (variables [(o, None_)] + variables l)%nat) as Hvar by (intros l; by destruct o).
    wp_step.
    + do 3 wp_step. eapply wp_mono; [apply (IHc _ k); lia|]. intros l p5 (Hne & Hv & Hall & Hq_5). wp_step. split; [done|].
      rewrite Hvar. split; [lia|]. split; [by constructor|lia].
    + wp_step. split; [done|]. rewrite Hvar. split; [change (variables []) with 0%nat; specialize (Hk1 Hn); lia|]. split; [by apply Forall_singleton|lia].
Qed.

(** ** Reading back what was printed *)

(** [m] accepts at the text [l] with the value [a] and leaves [t]. *)
Definition runs {A} (m : parser A) (l : list Z) (a : A) (t : list Z) : Prop :=
  forall n, exists n', m {| pos := n; rest := l |} = Ret (Ok (a, {| pos := n'; rest := t |})).

Lemma runs_bind {A B} (m : parser A) (f : A -> parser B) l a t b t' : runs m l a t -> runs (f a) t b t' -> runs (pbind m f) l b t'.
Proof. intros H1 H2 n. destruct (H1 n) as [n1 E1]. destruct (H2 n1) as [n2 E2]. exists n2. unfold pbind. by rewrite E1. Qed.

Lemma runs_ret {A} (a : A) l : runs (pret a) l a l.
Proof. intros n. by exists n. Qed.

Lemma runs_peek l : runs peek l (head l) l.
Proof. intros n. by exists n. Qed.

Lemma runs_position {B} (f : nat -> parser B) l b t : (forall n, runs (f n) l b t) -> runs (pbind position f) l b t.
Proof. intros H n. destruct (H n n) as [n' E]. by exists n'. Qed.

Lemma runs_consume c t : runs (consume c) (c :: t) tt t.
Proof. intros n. exists (S n). unfold consume. cbn [rest]. by rewrite Z.eqb_refl. Qed.

Definition stops (f : Z -> bool) (t : list Z) : Prop := match t with [] => True | c :: _ => f c = false end.

Lemma span_stops f a t : Forall (fun c => f c = true) a -> stops f t -> span f (a ++ t) = (a, t).
Proof.
  intros Ha Ht. induction Ha as [|c a Hc _ IH]; cbn [app span].
  - destruct t as [|c t]; [done|]. cbn [span]. simpl in Ht. by rewrite Ht.
  - by rewrite Hc, IH.
Qed.

Lemma runs_take_while f a t : Forall (fun c => f c = true) a -> stops f t -> runs (take_while f) (a ++ t) a t.
Proof. intros Ha Ht n. unfold take_while. cbn [rest]. rewrite (span_stops f a t Ha Ht). by eexists. Qed.

Lemma runs_number v t : 0 <= v < 2 ^ 64 -> stops is_digit t -> runs parse_number (show v ++ t) v t.
Proof.
  intros Hv Ht. unfold parse_number. apply runs_position. intros n. eapply runs_bind; [apply runs_take_while; [apply show_digits; lia|done]|].
  destruct (show v) as [|c l] eqn:E; [by destruct (show_cons v) as (? & ? & ?); congruence|]. rewrite <- E, show_value by done. cbv zeta.
  rewrite (proj2 (Z.ltb_lt _ _)) by lia. apply runs_ret.
Qed.

Lemma show_head v t : 0 <= v -> exists c, head (show v ++ t) = Some c /\ is_digit c = true.
Proof.
  intros Hv. destruct (show_cons v) as (c & l & E). exists c. rewrite E. split; [done|]. pose proof (show_digits v Hv) as H. rewrite E in H.
  by apply Forall_cons in H as [? _].
Qed.

Lemma runs_u8 n e l : n < 2 ^ 8 -> runs (to_u8 n e) l n l.
Proof. intros H. unfold to_u8. rewrite (proj2 (Z.ltb_lt _ _)) by lia. apply runs_ret. Qed.

Lemma runs_u32 n e l : n < 2 ^ 32 -> runs (to_u32 n e) l n l.
Proof. intros H. unfold to_u32. rewrite (proj2 (Z.ltb_lt _ _)) by lia. apply runs_ret. Qed.

Lemma runs_window_bits b t : 8 <= b <= 15 -> stops is_digit t -> runs parse_window_bits (show b ++ t) b t.
Proof.
  intros Hb Ht. unfold parse_window_bits. eapply runs_bind; [apply runs_number; [lia|done]|]. eapply runs_bind; [apply runs_u8; lia|].
  rewrite (proj2 (Z.leb_le 8 b)), (proj2 (Z.leb_le b 15)) by lia. apply runs_ret.
Qed.

Lemma runs_level b v t : 1 <= v <= 9 -> stops is_digit t -> runs (parse_level b) (show v ++ t) (Some v) t.
Proof.
  intros Hv Ht. unfold parse_level. eapply runs_bind; [apply runs_peek|]. destruct (show_head v t ltac:(lia)) as (c & -> & Hc). cbn [is_some_and]. rewrite Hc.
  eapply runs_bind; [apply runs_number; [lia|done]|]. eapply runs_bind; [apply runs_u8; lia|].
  rewrite (proj2 (Z.eqb_neq v 0)), (proj2 (Z.ltb_ge 9 v)) by lia. apply runs_ret.
Qed.

Lemma runs_variant v t : stops is_alnum t -> runs parse_zlib_variant (show_variant v ++ t) v t.
Proof.
  intros Ht. unfold parse_zlib_variant. apply runs_position. intros n. eapply runs_bind.
  - apply runs_take_while; [|done]. destruct v; apply (bool_decide_unpack _); by vm_compute.
  - destruct v; apply runs_ret.
Qed.

(** Behind a printed specification come a comma, a closing brace or the end. *)
Definition closed (t : list Z) : Prop := match t with [] => True | c :: _ => c = 44 \/ c = 125 end.

Lemma closed_digit t : closed t -> stops is_digit t.
Proof. destruct t as [|c t]; [done|]. by intros [-> | ->]. Qed.

Lemma closed_colon t : closed t -> is_char 58 (head t) = false.
Proof. destruct t as [|c t]; [done|]. by intros [-> | ->]. Qed.

Ltac lens Hf := clear -Hf; repeat first [rewrite length_app in Hf | rewrite length_app | progress cbn [length] in Hf | progress cbn [length]]; lia.

Ltac norm_app := rewrite <- ?app_comm_cons, ?app_nil_l, <- ?app_assoc, <- ?app_comm_cons, ?app_nil_l, <- ?app_assoc, <- ?app_comm_cons, ?app_nil_l.

(** Chain two parsers, the second from what the first leaves. *)
Ltac runs_step :=
  match goal with
  | |- runs (pbind (consume _) _) _ _ _ => eapply runs_bind; [apply runs_consume|]
  | |- runs (pbind peek _) (_ :: _) _ _ => eapply runs_bind; [apply runs_peek|]; cbn [head is_char is_some_and negb]
  | |- runs (pbind peek _) _ _ _ => eapply runs_bind; [apply runs_peek|]
  | |- runs (pret _) _ _ _ => apply runs_ret
  end.

Lemma runs_params v w t :
  within 8 15 w -> is_Some v \/ is_Some w ->
  runs parse_zlib_params (match v with Some v => 44 :: show_variant v | None => [] end ++ match w with Some w => 44 :: show w | None => [] end ++ 125 :: t)
    (v, w) (125 :: t).
Proof.
  intros Hw Hsome. unfold parse_zlib_params. destruct v as [v|]; norm_app; [|destruct w as [w|]; [|by destruct Hsome as [[? ?]|[? ?]]]].
  - runs_step. runs_step. match goal with |- context [if ?b then _ else _] => replace b with false by (by destruct v) end.
    eapply runs_bind; [apply runs_variant; by destruct w|]. runs_step. destruct w as [w|]; norm_app; cbn [head is_char]; [|change (125 =? 44) with false; cbv iota; runs_step].
    change (44 =? 44) with true. cbv iota. runs_step. eapply runs_bind; [by apply runs_window_bits|]. runs_step.
  - norm_app. runs_step. runs_step. destruct (show_head w (125 :: t)) as (c & -> & Hd); [simpl in Hw; lia|]. cbn [is_some_and]. rewrite Hd.
    eapply runs_bind; [by apply runs_window_bits|]. runs_step.
Qed.

Lemma runs_zlib level variant bits t :
  well_typed (ZLib level variant bits) -> no_bare_params (ZLib level variant bits) -> closed t ->
  runs parse_zlib (to_string (ZLib level variant bits) ++ t) (ZLib level variant bits) t.
Proof.
  intros [Hl Hb] Hp Ht. unfold parse_zlib. cbn [to_string]; norm_app. runs_step. runs_step.
  destruct level as [l|].
  2: { destruct Hp as [-> ->]. norm_app. rewrite closed_colon by done. cbn [negb]. runs_step. }
  simpl in Hl. destruct (decide (variant = None /\ bits = None)) as [[-> ->]|Hne].
  { norm_app; cbn [head is_char]. change (58 =? 58) with true. cbn [negb]. runs_step. runs_step.
    destruct (show_head l t ltac:(lia)) as (c & Hc & Hd). rewrite Hc. cbn [is_char]. rewrite (proj2 (Z.eqb_neq c 123)) by (intros ->; done). cbv zeta iota.
    eapply runs_bind; [apply runs_ret|]. eapply runs_bind; [apply runs_level; [done|by apply closed_digit]|]. runs_step. cbn [andb].
    eapply runs_bind; [apply runs_ret|]. eapply runs_bind; [apply runs_ret|]. runs_step. }
  set (params := match variant with Some v => 44 :: show_variant v | None => [] end ++ match bits with Some w => 44 :: show w | None => [] end).
  assert (exists u, params = 44 :: u) as [u Hu] by (unfold params; destruct variant, bits; norm_app; eauto; tauto).
  match goal with |- runs _ ?x _ _ => replace x with (58 :: 123 :: show l ++ params ++ 125 :: t) end.
  2: { unfold params, braces. destruct variant, bits; norm_app; rewrite <- ?app_assoc; norm_app; rewrite <- ?app_assoc; (done || tauto). }
  match goal with |- runs (if negb (is_char 58 ?h) then _ else _) _ _ _ =>
    replace (is_char 58 h) with true by (destruct variant, bits; (done || tauto)) end. cbn [negb].
  runs_step. runs_step. change (123 =? 123) with true. cbv zeta iota. runs_step.
  eapply runs_bind; [apply runs_level; [done|by rewrite Hu]|]. runs_step. rewrite Hu at 1. norm_app; cbn [head is_char andb]. change (44 =? 44) with true. cbv iota.
  eapply runs_bind.
  - unfold params. rewrite <- app_assoc. apply (runs_params variant bits t); [done|]. destruct variant, bits; eauto; tauto.
  - runs_step. runs_step.
Qed.

Lemma hex_span_stops d a t : Forall (fun c => is_hexdigit c = true) a -> is_hexdigit d = false -> hex_span d (a ++ d :: t) = Some (a, d :: t).
Proof.
  intros Ha Hd. induction Ha as [|c a Hc _ IH]; cbn [app hex_span]; [by rewrite Z.eqb_refl|].
  rewrite (proj2 (Z.eqb_neq c d)) by (intros ->; congruence). rewrite Hc, IH. done.
Qed.

Lemma runs_hex iv t : is_bytes iv -> (1 <= length iv <= 8)%nat -> runs (parse_hex_until 44 1 8) (hex_encode iv ++ 44 :: t) iv (44 :: t).
Proof.
  intros Hb Hl n. unfold parse_hex_until. cbn [rest]. rewrite hex_span_stops by (done || by apply hex_encode_digits).
  rewrite length_hex_encode, Nat.even_mul, Nat.div2_double. cbn [Nat.even orb negb].
  rewrite (proj2 (Nat.ltb_ge (length iv) 1)), (proj2 (Nat.ltb_ge 8 (length iv))) by lia. cbn [orb]. rewrite hex_roundtrip by done. by eexists.
Qed.

Lemma runs_size s t :
  size_typed (Some s) -> runs parse_block_size_spec (show_size s ++ 61 :: t) s (61 :: t).
Proof.
  destruct s as [sz0 cnt]. intros [Hs Hc]. cbn [size count] in Hs, Hc. unfold parse_block_size_spec, show_size. cbn [size count].
  set (tail := match cnt with Some c => 42 :: show c | None => [] end ++ 61 :: t).
  assert (exists c u, tail = c :: u /\ (c = 42 \/ c = 61)) as (c0 & u & Hu & Hc0) by (unfold tail; destruct (cnt); simpl; eauto).
  assert (forall sz, runs (c <- peek ;; count <- (if is_char 42 c then consume 42 ;;; c <- peek ;; if is_some_and is_digit c then
      num <- parse_number ;; at_ <- position ;; n <- to_u32 num (InvalidNumber at_ "Count too large") ;; pret (Some n) else pret None else pret None) ;;
      pret {| size := sz; count := count |}) tail {| size := sz; count := cnt |} (61 :: t)) as Hcount.
  { intros sz. unfold tail. destruct (cnt) as [k|]; norm_app.
    - runs_step. change (42 =? 42) with true. cbv iota. eapply runs_bind; [|runs_step]. runs_step. runs_step.
      destruct (show_head k (61 :: t)) as (c & -> & Hd); [simpl in Hc; lia|]. cbn [is_some_and]. rewrite Hd. simpl in Hc.
      eapply runs_bind; [apply runs_number; [lia|done]|]. apply runs_position. intros n. eapply runs_bind; [apply runs_u32; lia|]. runs_step.
    - runs_step. change (61 =? 42) with false. cbv iota. eapply runs_bind; [apply runs_ret|]. runs_step. }
  assert (0 <= sz0 / (1024 * 1024) <= sz0) by (split; [apply Z.div_pos; lia|apply Z.div_le_upper_bound; lia]).
  assert (0 <= sz0 / 1024 <= sz0) by (split; [apply Z.div_pos; lia|apply Z.div_le_upper_bound; lia]).
  rewrite <- app_assoc. fold tail.
  destruct (Z.eqb_spec (sz0 mod (1024 * 1024)) 0) as [E|E]; [|destruct (Z.eqb_spec (sz0 mod 1024) 0) as [E2|E2]]; norm_app.
  - eapply runs_bind; [apply runs_number; [lia|done]|]. runs_step. change (77 =? 75) with false. change (77 =? 77) with true. cbv iota.
    eapply runs_bind; [runs_step; runs_step|]. replace (wrap64 (sz0 / (1024 * 1024) * (1024 * 1024))) with (sz0); [apply Hcount|].
    symmetry. pose proof (Z.div_mod (sz0) (1024 * 1024) ltac:(lia)). unfold wrap64. rewrite wrap_small; unfold in_u; lia.
  - eapply runs_bind; [apply runs_number; [lia|done]|]. runs_step. change (75 =? 75) with true. cbv iota.
    eapply runs_bind; [runs_step; runs_step|]. replace (wrap64 (sz0 / 1024 * 1024)) with (sz0); [apply Hcount|].
    symmetry. pose proof (Z.div_mod (sz0) 1024 ltac:(lia)). unfold wrap64. rewrite wrap_small; unfold in_u; lia.
  - eapply runs_bind; [apply runs_number; [lia|rewrite Hu; by destruct Hc0 as [-> | ->]]|]. eapply runs_bind; [apply runs_peek|].
    assert (head tail = Some c0) as -> by (by rewrite Hu). cbn [is_char]. destruct Hc0 as [-> | ->]; cbn [Z.eqb Pos.eqb orb]; (eapply runs_bind; [apply runs_ret|]; apply Hcount).
Qed.

Lemma runs_bcpack bcn t : within 1 7 bcn -> closed t -> runs parse_bcpack (to_string (BCPack bcn) ++ t) (BCPack bcn) t.
Proof.
  intros Hb Ht. unfold parse_bcpack. cbn [to_string]. destruct bcn as [n|]; unfold braces; norm_app.
  - runs_step. runs_step. change (58 =? 58) with true. cbn [negb]. runs_step. runs_step. simpl in Hb.
    eapply runs_bind; [apply runs_number; [lia|done]|]. apply runs_position. intros k. eapply runs_bind; [apply runs_u8; lia|].
    rewrite (proj2 (Z.eqb_neq n 0)), (proj2 (Z.ltb_ge 7 n)) by lia. cbn [orb]. norm_app. runs_step. runs_step.
  - runs_step. runs_step. rewrite closed_colon by done. cbn [negb]. runs_step.
Qed.

Lemma runs_gdeflate level t : within 1 12 level -> closed t -> runs parse_gdeflate (to_string (GDeflate level) ++ t) (GDeflate level) t.
Proof.
  intros Hb Ht. unfold parse_gdeflate. cbn [to_string]. destruct level as [n|]; unfold braces; norm_app.
  - runs_step. runs_step. change (58 =? 58) with true. cbn [negb]. runs_step. runs_step. simpl in Hb.
    eapply runs_bind; [apply runs_number; [lia|done]|]. eapply runs_bind; [apply runs_u8; lia|].
    rewrite (proj2 (Z.eqb_neq n 0)), (proj2 (Z.ltb_ge 12 n)) by lia. cbn [orb]. norm_app. runs_step. runs_step.
  - runs_step. runs_step. rewrite closed_colon by done. cbn [negb]. runs_step.
Qed.

Lemma espec_induction (P : ESpec -> Prop) :
  P None_ -> (forall l v w, P (ZLib l v w)) -> (forall k iv s, P s -> P (Encrypted k iv s)) ->
  (forall chunks, Forall (fun c => P (snd c)) chunks -> P (BlockTable chunks)) -> (forall b, P (BCPack b)) -> (forall l, P (GDeflate l)) ->
  forall s, P s.
Proof.
  intros H1 H2 H3 H4 H5 H6. fix IH 1. intros [|l v w|k iv s|chunks|b|l]; [done|done|apply H3, IH| |done|done].
  apply H4. induction chunks as [|[o s] chunks IHc]; constructor; [apply IH|exact IHc].
Qed.

Fixpoint show_chunks (first : bool) (l : list (option BlockSizeSpec * ESpec)) : list Z :=
  match l with
  | [] => []
  | (o, spec) :: l =>
      (if first then [] else [44]) ++ match o with Some s => show_size s | None => [42] end ++ [61] ++ to_string spec ++ show_chunks false l
  end.

Lemma to_string_block chunks :
  to_string (BlockTable chunks) =
    [98; 58] ++ match chunks with [(None, spec)] => to_string spec | _ => [123] ++ show_chunks true chunks ++ [125] end.
Proof.
  assert (forall first l, (fix show_chunks (first : bool) (l : list (option BlockSizeSpec * ESpec)) :=
             match l with
             | [] => []
             | (o, spec) :: l =>
                 (if first then [] else [44]) ++ match o with Some s => show_size s | None => [42] end ++ [61] ++ to_string spec ++ show_chunks false l
             end) first l = show_chunks first l) as H.
  { intros first l. revert first. induction l as [|[o s] l IH]; intros first; [done|]. simpl. by rewrite IH. }
  cbn [to_string]. by rewrite H.
Qed.

Lemma to_string_head s : exists c l, to_string s = c :: l /\ (c = 110 \/ c = 122 \/ c = 101 \/ c = 98 \/ c = 99 \/ c = 103).
Proof. destruct s; cbn [to_string]; eauto 10. Qed.

(** What the parser does with the text of [s]. *)
Definition reads (s : ESpec) : Prop :=
  well_typed s -> no_bare_params s -> forall t fuel, closed t -> (2 * length (to_string s ++ t) + 1 <= fuel)%nat ->
  runs (parse_espec fuel) (to_string s ++ t) s t.

Lemma espec_step fuel l c b t (m : parser ESpec) :
  head l = Some c -> (if c =? 110 then consume 110 ;;; pret None_ else if c =? 122 then parse_zlib else if c =? 101 then parse_encrypted fuel
    else if c =? 98 then parse_block_table fuel else if c =? 99 then parse_bcpack else if c =? 103 then parse_gdeflate else pfail (UnknownType c)) = m ->
  runs m l b t -> runs (parse_espec (S fuel)) l b t.
Proof. intros Hh Hm Hr. cbn [parse_espec]. eapply runs_bind; [apply runs_peek|]. rewrite Hh. by rewrite Hm. Qed.

Lemma runs_encrypted key iv s t fuel :
  reads s -> well_typed (Encrypted key iv s) -> no_bare_params s -> closed t -> (2 * length (to_string (Encrypted key iv s) ++ t) <= S fuel)%nat ->
  runs (parse_encrypted (S fuel)) (to_string (Encrypted key iv s) ++ t) (Encrypted key iv s) t.
Proof.
  intros IH (Hk & Hka & Hiv & Hil & Hs) Hp Ht Hf. cbn [parse_encrypted]. cbn [to_string] in *. unfold braces in *.
  revert Hf. norm_app. intros Hf. runs_step. runs_step. runs_step.
  eapply runs_bind; [apply runs_take_while; [done|done]|]. rewrite Hk. cbn [Nat.eqb negb]. runs_step. eapply runs_bind; [by apply runs_hex|]. runs_step.
  eapply runs_bind; [apply IH; [done|done|by right|]|].
  - lens Hf.
  - runs_step. runs_step.
Qed.

Lemma runs_chunks chunks t n fuel :
  chunks <> [] -> (n + variables chunks <= 1)%nat -> Forall chunk_typed chunks -> Forall (fun c => no_bare_params (snd c)) chunks ->
  Forall (fun c => reads (snd c)) chunks -> (2 * length (show_chunks true chunks ++ (125 :: t)%Z) + 1 <= fuel)%nat ->
  runs (parse_chunks fuel n) (show_chunks true chunks ++ 125 :: t) chunks (125 :: t).
Proof.
  revert n fuel. induction chunks as [|[o s] chunks IH]; intros n fuel Hne Hv Hty Hpr Hrd Hf; [done|].
  apply Forall_cons in Hty as [[Ho Hs] Hty]. apply Forall_cons in Hpr as [Hp Hpr]. apply Forall_cons in Hrd as [Hr Hrd]. cbn [fst snd] in *.
  destruct fuel as [|fuel]; [lia|]. cbn [parse_chunks show_chunks] in *. revert Hf. norm_app. intros Hf.
  eapply (runs_bind _ _ _ (o, (n + variables [(o, None_)])%nat) (61 :: to_string s ++ show_chunks false chunks ++ 125 :: t)).
  { unfold parse_chunk_size. destruct o as [sz|]; norm_app.
    - eapply runs_bind; [apply runs_peek|].
      assert (is_char 42 (head (show_size sz ++ 61 :: to_string s ++ show_chunks false chunks ++ 125 :: t)) = false) as ->.
      { destruct Ho as [Hsz _]. unfold show_size. assert (forall v u, 0 <= v -> is_char 42 (head (show v ++ u)) = false) as H42.
        { intros v u Hv0. destruct (show_head v u Hv0) as (c & -> & Hd). cbn [is_char]. apply Z.eqb_neq. by intros ->. }
        destruct (_ =? 0); [|destruct (_ =? 0)]; rewrite <- !app_assoc; apply H42; try lia; apply Z.div_pos; lia. }
      eapply runs_bind; [by apply runs_size|]. cbn [variables]. rewrite Nat.add_0_r. runs_step.
    - runs_step. change (42 =? 42) with true. cbv iota. runs_step. cbn [variables] in Hv. rewrite (proj2 (Nat.ltb_ge 1 (S n))) by lia.
      runs_step. change (61 =? 61) with true. cbv iota. cbn [variables]. rewrite Nat.add_1_r. runs_step. }
  assert (n + variables [(o, None_)] + variables chunks <= 1)%nat as Hv' by (destruct o; simpl in *; lia).
  cbn [fst snd]. runs_step.
  eapply runs_bind; [apply Hr; [done|done| |]|].
  - destruct chunks as [|[o2 s2] chunks]; cbn [show_chunks]; norm_app; [by right|by left].
  - lens Hf.
  - destruct chunks as [|[o2 s2] chunks]; cbn [show_chunks]; norm_app.
    + runs_step. change (125 =? 44) with false. cbv iota. runs_step.
    + runs_step. change (44 =? 44) with true. cbv iota. runs_step.
      eapply runs_bind; [|runs_step]. specialize (IH (n + variables [(o, None_)])%nat fuel ltac:(done) Hv' Hty Hpr Hrd). cbn [show_chunks] in IH. revert IH. norm_app. intros IH.
      apply IH. cbn [show_chunks] in Hf. lens Hf.
Qed.

Lemma runs_block chunks t fuel :
  Forall (fun c => reads (snd c)) chunks -> well_typed (BlockTable chunks) -> no_bare_params (BlockTable chunks) -> closed t ->
  (2 * length (to_string (BlockTable chunks) ++ t) <= S fuel)%nat ->
  runs (parse_block_table (S fuel)) (to_string (BlockTable chunks) ++ t) (BlockTable chunks) t.
Proof.
  intros IH Hty Hpr Ht Hf. apply block_typed in Hty as (Hne & Hv & Hty). apply block_printable in Hpr. rewrite to_string_block in *. cbn [parse_block_table].
  assert (Hshape : (exists s, chunks = [(None, s)]) \/ match chunks with [(None, spec)] => to_string spec | _ => [123] ++ show_chunks true chunks ++ [125] end =
    [123] ++ show_chunks true chunks ++ [125]).
  { destruct chunks as [|[[sz|] s] [|c l]]; try (by right). left. by exists s. }
  destruct Hshape as [[s ->]|E].
  - revert Hf. norm_app. intros Hf. runs_step. runs_step. eapply runs_bind; [apply runs_peek|].
    destruct (to_string_head s) as (c & l & El & Hc).
    assert (is_char 123 (head (to_string s ++ t)) = false /\ is_some_and (fun c => is_digit c || (c =? 42)) (head (to_string s ++ t)) = false) as [-> ->].
    { rewrite El. norm_app. cbn [head is_char is_some_and]. by destruct Hc as [-> |[-> |[-> |[-> |[-> | ->]]]]]. }
    cbn [negb]. rewrite Forall_singleton in IH, Hpr, Hty. eapply runs_bind; [|runs_step]. apply IH; [apply Hty|done|done|]. cbn [snd]. lens Hf.
  - rewrite E in *. revert Hf. norm_app. intros Hf. runs_step. runs_step. runs_step. change (123 =? 123) with true. cbn [negb]. runs_step.
    eapply runs_bind; [apply runs_chunks; try done; try lia; lens Hf|]. runs_step. runs_step.
Qed.

Lemma all_read s : reads s.
Proof.
  induction s as [|l v w|k iv s IH|chunks IH|b|l] using espec_induction; intros Hty Hpr t fuel Ht Hf;
    (destruct fuel as [|fuel]; [lia|]).
  - apply (espec_step fuel _ 110 _ _ (consume 110 ;;; pret None_)); [done|done|]. cbn [to_string]. norm_app. runs_step. runs_step.
  - apply (espec_step fuel _ 122 _ _ parse_zlib); [done|done|]. by apply runs_zlib.
  - apply (espec_step fuel _ 101 _ _ (parse_encrypted fuel)); [done|done|]. destruct fuel as [|fuel]; [cbn [to_string] in Hf; simpl in Hf; lia|]. apply runs_encrypted; try done. lia.
  - apply (espec_step fuel _ 98 _ _ (parse_block_table fuel)); [by rewrite to_string_block|done|]. destruct fuel as [|fuel]; [rewrite to_string_block in Hf; simpl in Hf; lia|].
    apply runs_block; try done. lia.
  - apply (espec_step fuel _ 99 _ _ parse_bcpack); [by destruct b|done|]. by apply runs_bcpack.
  - apply (espec_step fuel _ 103 _ _ parse_gdeflate); [by destruct l|done|]. by apply runs_gdeflate.
Qed.

(** ** Theorems *)

(** C7: parsing ends and is typed.  On every string the parser ends without running
    out of fuel; and a specification it accepts has its levels, window bits, versions,
    key, initialisation vector, block sizes and counts in the documented ranges, a
    non-empty block table and at most one block of open size. *)
Theorem parse_well_typed input :
  exists r, parse input = Ret r /\ forall s, r = Ok s -> well_typed s.
Proof.
  unfold parse. destruct input as [|c l]; [by eexists|]. set (input := c :: l).
  destruct (parse_typed (S (2 * length input))) as [H _]. specialize (H {| pos := 0; rest := input |} ltac:(unfold left_; cbn [rest]; lia)).
  unfold wp in H. destruct (parse_espec _ _) as [[[s p]|e]|]; [|by eexists|done]. destruct H as [Hs _].
  destruct (rest p); eexists; (split; [done|]); [by intros s' [= <-]|done].
Qed.

(** C6: what is printed is read back.  The text of a well-typed specification parses to
    the same specification, whatever the nesting, unless it has zlib parameters
    without a level. *)
Theorem espec_roundtrip s : well_typed s -> no_bare_params s -> parse (to_string s) = Ret (Ok s).
Proof.
  intros Hs Hp. destruct (to_string_head s) as (c & l & E & _). unfold parse. rewrite E, <- E.
  pose proof (all_read s Hs Hp [] (S (2 * length (to_string s))) I ltac:(rewrite app_nil_r; lia) 0%nat) as [n Hn]. rewrite app_nil_r in Hn. by rewrite Hn.
Qed.

Definition sample_spec : ESpec :=
  BlockTable [(Some {| size := 262144; count := Some 4 |}, None_); (Some {| size := 1768; count := None |}, ZLib (Some 6) (Some MPQ) (Some 15));
    (None, Encrypted (replicate 16 65) [1; 255] (BlockTable [(None, ZLib (Some 9) None None)]))].

Lemma espec_roundtrip_witness : parse (to_string sample_spec) = Ret (Ok sample_spec).
Proof.
  apply espec_roundtrip.
  - cbn -[Z.pow]. split_and!; try done; try lia; apply (bool_decide_unpack _); by vm_compute.
  - by cbn.
Defined.

(** ** Where the printed text is not read back *)

(** "z:{,9}" gives window bits without a level; they are printed as "z:{9}", which is
    a level. *)
Theorem bare_bits_become_level :
  let input := [122; 58; 123; 44; 57; 125] in
  parse input = Ret (Ok (ZLib None None (Some 9))) /\
  parse (to_string (ZLib None None (Some 9))) = Ret (Ok (ZLib (Some 9) None None)).
Proof. by vm_compute. Qed.

(** "z:{,mpq}" is accepted and printed as "z:{mpq}", which is not. *)
Theorem bare_variant_rejected :
  let input := [122; 58; 123; 44; 109; 112; 113; 125] in
  parse input = Ret (Ok (ZLib None (Some MPQ) None)) /\
  parse (to_string (ZLib None (Some MPQ) None)) = Ret (Err (UnexpectedChar 125 109 3)).
Proof. by vm_compute. Qed.

(** "b:{16K*=n}", a block size repeated to the end of the file, and "b:{16K=n}", one
    block, are the same specification. *)
Theorem star_is_lost :
  parse [98; 58; 123; 49; 54; 75; 42; 61; 110; 125] = parse [98; 58; 123; 49; 54; 75; 61; 110; 125].
Proof. by vm_compute. Qed.

(** A block size is multiplied without a check: 2^44 + 1 mebibytes is one mebibyte. *)
Theorem size_overflows :
  parse ([98; 58; 123] ++ show (2 ^ 44 + 1) ++ [77; 61; 110; 125]) = parse [98; 58; 123; 49; 77; 61; 110; 125].
Proof. by vm_compute. Qed.

(** The key name is any sixteen letters and digits, not sixteen hex digits. *)
Theorem key_not_hex : parse ([101; 58; 123] ++ replicate 16 122 ++ [44; 48; 49; 44; 110; 125]) = Ret (Ok (Encrypted (replicate 16 122) [1] None_)).
Proof. by vm_compute. Qed.
