(* ===== verification/CdnIndex.v ===== *)
(** * Archive indices of the content delivery network

    The [.index] files beside the archives
    (src/crates/cascette-formats/src/archive/index.rs): entries with keys and offsets
    of a configurable width in blocks of 4 KiB, a table of contents with the last key
    of every block, block hashes, and a hashed footer.  The file holds the parser, the
    three writers, the builder, the two-level binary search and the index that loads
    its blocks on demand.  A reader or writer is the byte string behind it; MD5 is a
    parameter.  A subtraction below zero counts as a panic, as in a build with overflow
    checks. *)

From S2P Require Import Prelude Bytes Collections.
Local Open Scope Z_scope.

Module CdnIndex.

Inductive ArchiveError : Type :=
| ArchiveNotFound (what : string)
| InvalidIndex (reason : string)
| ContentNotFound (key : bytes)
| HttpError (status : Z)
| IncompleteRangeResponse (requested received : Z)
| InvalidHashLength (len : nat)
| ChecksumMismatch (expected actual : bytes)
| FooterChecksum
| TocChecksum
| UnsupportedVersion (version : Z)
| InvalidKeySize (size : Z)
| InvalidSegmentSize (size : Z)
| UnsortedEntries
| TocInconsistent
| ChunkBoundary
| BlteError
| BinRead
| IoError
| NetworkError (why : string)
| InvalidFormat (why : string)
| FileSizeMismatch (expected actual : Z).

Definition is_retryable (e : ArchiveError) : bool :=
  match e with
  | HttpError status => (500 <=? status) && (status <=? 599)
  | NetworkError _ | IncompleteRangeResponse _ _ => true
  | _ => false
  end.

Definition is_permanent (e : ArchiveError) : bool :=
  match e with
  | ArchiveNotFound _ | ContentNotFound _ | InvalidHashLength _ | InvalidIndex _ | UnsupportedVersion _
  | InvalidKeySize _ | InvalidSegmentSize _ => true
  | _ => false
  end.

Definition is_validation_error (e : ArchiveError) : bool :=
  match e with
  | ChecksumMismatch _ _ | FooterChecksum | TocChecksum | UnsortedEntries | TocInconsistent | ChunkBoundary => true
  | _ => false
  end.

Notation aresult := (result ArchiveError).

Definition CHUNK_SIZE : nat := Z.to_nat 4096.
Definition ENTRY_SIZE : nat := 24.
Definition MAX_ENTRIES_PER_CHUNK : nat := (CHUNK_SIZE / ENTRY_SIZE)%nat.
Definition MIN_FOOTER_SIZE : nat := 20.

(** [usize::div_ceil]; a zero divisor panics. *)
Definition div_ceil (a b : nat) : nat := ((a + b - 1) / b)%nat.

(** ** Entries *)

Record IndexEntry := { encoding_key : bytes; size : Z; offset : Z; archive_index : option Z }.

#[export] Instance IndexEntry_eq_dec : EqDecision IndexEntry.
Proof. solve_decision. Defined.

Definition entry_new (encoding_key : bytes) (size offset : Z) : IndexEntry :=
  {| encoding_key := encoding_key; size := size; offset := offset; archive_index := None |}.

Definition new_archive_group (encoding_key : bytes) (size archive_index offset : Z) : IndexEntry :=
  {| encoding_key := encoding_key; size := size; offset := offset; archive_index := Some archive_index |}.

Definition is_zero (e : IndexEntry) : bool :=
  forallb (fun b => b =? 0) (encoding_key e) && (size e =? 0) && (offset e =? 0).

Definition parse_offset (offset_bytes : Z) (data : bytes) : aresult (Z * option Z) :=
  if offset_bytes =? 0 then Ok (0, None)
  else if offset_bytes =? 4 then Ok (from_be_bytes (take 4 data), None)
  else if offset_bytes =? 5 then Ok (from_be_bytes (zeros 3 ++ take 5 data), None)
  else if offset_bytes =? 6 then Ok (from_be_bytes (slice 2 6 data), Some (from_be_bytes (take 2 data)))
  else Err (InvalidFormat "Unsupported offset_bytes").

Definition entry_parse (data : bytes) (key_bytes size_bytes offset_bytes : Z) : aresult IndexEntry :=
  let k := Z.to_nat key_bytes in
  let pos := (k + Z.to_nat size_bytes)%nat in
  if (length data <? k)%nat then Err (InvalidFormat "Insufficient data for key")
  else if (length data <? pos)%nat then Err (InvalidFormat "Insufficient data for size")
  else if negb (size_bytes =? 4) then Err (InvalidFormat "Unsupported size_bytes")
  else if (length data <? pos + Z.to_nat offset_bytes)%nat then Err (InvalidFormat "Insufficient data for offset")
  else
    '(offset, archive_index) ← parse_offset offset_bytes (drop pos data);
    Ok {| encoding_key := take k data; size := from_be_bytes (slice k (k + 4) data); offset := offset;
          archive_index := archive_index |}.

Definition offset_to_bytes (e : IndexEntry) (offset_bytes : Z) : aresult bytes :=
  if offset_bytes =? 0 then Ok []
  else if offset_bytes =? 4 then Ok (to_be_bytes 4 (wrap32 (offset e)))
  else if offset_bytes =? 5 then Ok (drop 3 (to_be_bytes 8 (offset e)))
  else if offset_bytes =? 6 then
    match archive_index e with
    | Some archive_idx => Ok (to_be_bytes 2 archive_idx ++ to_be_bytes 4 (wrap32 (offset e)))
    | None => Ok (drop 2 (to_be_bytes 8 (offset e)))
    end
  else Err (InvalidFormat "Unsupported offset_bytes").

Definition to_bytes (e : IndexEntry) (_size_bytes offset_bytes : Z) : aresult bytes :=
  o ← offset_to_bytes e offset_bytes; Ok (encoding_key e ++ to_be_bytes 4 (size e) ++ o).

(** [entries.windows(2).all(|pair| pair[0].encoding_key <= pair[1].encoding_key)]. *)
Fixpoint is_sorted (entries : list IndexEntry) : bool :=
  match entries with
  | e1 :: ((e2 :: _) as entries') =>
      match lex_compare (encoding_key e1) (encoding_key e2) with Gt => false | _ => is_sorted entries' end
  | _ => true
  end.

Definition calculate_chunks (entry_count : nat) : nat := div_ceil entry_count MAX_ENTRIES_PER_CHUNK.

(** ** The footer *)

Record IndexFooter := {
  toc_hash : bytes;
  version : Z;
  reserved : bytes;
  page_size_kb : Z;
  offset_bytes : Z;
  size_bytes : Z;
  ekey_length : Z;
  footer_hash_bytes : Z;
  element_count : Z;
  footer_hash : bytes;
}.

#[export] Instance IndexFooter_eq_dec : EqDecision IndexFooter.
Proof. solve_decision. Defined.

Definition with_footer_hash (h : bytes) (f : IndexFooter) : IndexFooter :=
  {| toc_hash := toc_hash f; version := version f; reserved := reserved f; page_size_kb := page_size_kb f;
     offset_bytes := offset_bytes f; size_bytes := size_bytes f; ekey_length := ekey_length f;
     footer_hash_bytes := footer_hash_bytes f; element_count := element_count f; footer_hash := h |}.

(** [let mut arr = [0u8; 8]] with the first bytes of [h] copied to its front. *)
Definition pad_to (n : nat) (h : bytes) : bytes := copy_at 0 (take (length h `min` n) h) (zeros n).

Definition footer_fields (f : IndexFooter) : bytes :=
  [version f] ++ reserved f ++ [page_size_kb f; offset_bytes f; size_bytes f; ekey_length f; footer_hash_bytes f] ++
  to_le_bytes 4 (element_count f).

(** [footer_hash] is written whole, whatever [footer_hash_bytes] says. *)
Definition footer_write (f : IndexFooter) : bytes := toc_hash f ++ footer_fields f ++ footer_hash f.

Definition validate_format (f : IndexFooter) : aresult unit :=
  if 1 <? version f then Err (UnsupportedVersion (version f))
  else if negb (bool_decide (reserved f = [0; 0])) then Err (InvalidFormat "Reserved bytes should be [0,0]")
  else if negb (page_size_kb f =? 4) then Err (InvalidFormat "Page size should be 4KB")
  else if negb (bool_decide (offset_bytes f ∈ [0; 4; 5; 6])) then Err (InvalidFormat "Offset bytes should be 0, 4, 5, or 6")
  else if negb (size_bytes f =? 4) then Err (InvalidFormat "Size bytes should be 4")
  else if (ekey_length f =? 0) || (16 <? ekey_length f) then Err (InvalidFormat "EKey length should be between 1 and 16")
  else if negb (footer_hash_bytes f =? 8) then Err (InvalidFormat "Footer hash bytes should be 8")
  else Ok tt.

Definition block_size (f : IndexFooter) : nat := Z.to_nat (page_size_kb f * 1024).
Definition record_size (f : IndexFooter) : nat := Z.to_nat (ekey_length f + size_bytes f + offset_bytes f).

(** [block_size / record_size]; a zero divisor panics. *)
Definition records_per_block (f : IndexFooter) : outcome nat :=
  match record_size f with O => Panic | r => Ret (block_size f / r)%nat end.

Definition validate_file_size (f : IndexFooter) (actual_file_size : Z) : outcome (aresult unit) :=
  records_per_page ← records_per_block f;
  if (records_per_page =? 0)%nat then Ret (Err (InvalidFormat "Records per page is 0"))
  else
    let toc_entries := (element_count f + Z.of_nat records_per_page - 1) / Z.of_nat records_per_page in
    let toc_entry_size := ekey_length f + footer_hash_bytes f in
    let footer_size := Z.of_nat MIN_FOOTER_SIZE + footer_hash_bytes f in
    let expected := toc_entries * (page_size_kb f * 1024) + toc_entries * toc_entry_size + footer_size in
    Ret (if negb (actual_file_size =? expected) then Err (FileSizeMismatch expected actual_file_size) else Ok tt).

Definition footer_is_archive_group (f : IndexFooter) : bool := offset_bytes f =? 6.
Definition is_file_index (f : IndexFooter) : bool := offset_bytes f =? 0.

Section Hashes.
Context (md5 : bytes -> bytes).

Definition calculate_footer_hash (f : IndexFooter) : bytes :=
  take 8 (md5 (pad_to 20 (footer_fields f))).

Definition footer_new (toc_hash : bytes) (element_count : Z) : IndexFooter :=
  let footer := {| toc_hash := pad_to 8 toc_hash; version := 1; reserved := [0; 0]; page_size_kb := 4; offset_bytes := 4;
                   size_bytes := 4; ekey_length := 16; footer_hash_bytes := 8; element_count := element_count;
                   footer_hash := zeros 8 |} in
  with_footer_hash (calculate_footer_hash footer) footer.

Definition is_valid (f : IndexFooter) : bool :=
  let expected := calculate_footer_hash f in
  let actual_len := ((length (footer_hash f) `min` Z.to_nat (footer_hash_bytes f)) `min` length expected)%nat in
  if (actual_len =? 0)%nat then false else bool_decide (take actual_len (footer_hash f) = take actual_len expected).

(** [content_key.as_bytes()[..hash_bytes]] panics past sixteen bytes. *)
Definition hash_prefix (data : bytes) (hash_bytes : Z) : outcome bytes :=
  if 16 <? hash_bytes then Panic else Ret (take (Z.to_nat hash_bytes) (md5 data)).

Definition calculate_toc_hash (toc_keys block_hashes : list bytes) (hash_bytes : Z) : outcome bytes :=
  hash_prefix (concat toc_keys ++ concat block_hashes) hash_bytes.

Definition calculate_block_hash (block_data : bytes) (hash_bytes : Z) : outcome bytes := hash_prefix block_data hash_bytes.

(** ** Parsing *)

Record ArchiveIndex := { entries : list IndexEntry; toc : list bytes; footer : IndexFooter }.

(** [reader.seek(SeekFrom::End(-back))]: a position before the start is an error. *)
Definition seek_end (data : bytes) (back : nat) : aresult nat :=
  if (length data <? back)%nat then Err IoError else Ok (length data - back)%nat.

(** [read_exact] of [n] bytes at a position. *)
Definition read_exact (data : bytes) (pos n : nat) : aresult bytes :=
  if (pos + n <=? length data)%nat then Ok (slice pos (pos + n) data) else Err IoError.

(** The twenty fixed bytes of the footer and the hash behind them. *)
Definition footer_of (footer_data footer_hash : bytes) : IndexFooter :=
  {| toc_hash := slice 0 8 footer_data;
     version := nth 8 footer_data 0;
     reserved := [nth 9 footer_data 0; nth 10 footer_data 0];
     page_size_kb := nth 11 footer_data 0;
     offset_bytes := nth 12 footer_data 0;
     size_bytes := nth 13 footer_data 0;
     ekey_length := nth 14 footer_data 0;
     footer_hash_bytes := nth 15 footer_data 0;
     element_count := from_le_bytes (slice 16 20 footer_data);
     footer_hash := footer_hash |}.

Definition read_footer_at (data : bytes) : aresult (IndexFooter * nat) :=
  p ← seek_end data 13;
  b ← read_exact data p 1;
  let footer_hash_bytes := Z.to_nat (nth 0 b 0) in
  let footer_size := (MIN_FOOTER_SIZE + footer_hash_bytes)%nat in
  p ← seek_end data footer_size;
  footer_data ← read_exact data p 20;
  footer_hash ← read_exact data (p + 20) footer_hash_bytes;
  Ok (footer_of footer_data footer_hash, footer_size).

(** The footer with its checks, and its size.  The error value of a failed hash
    check takes eight bytes of the stored hash, however many there are. *)
Definition read_footer (data : bytes) : outcome (aresult (IndexFooter * nat)) :=
  '(footer, footer_size) ←? Ret (read_footer_at data);
  if negb (is_valid footer) then
    let expected_hash := calculate_footer_hash footer in
    let copy_len := (length expected_hash `min` 8)%nat in
    if (length (footer_hash footer) <? copy_len)%nat then Panic
    else Ret (Err (ChecksumMismatch (pad_to 8 expected_hash) (pad_to 8 (take copy_len (footer_hash footer)))))
  else
    _ ←? Ret (validate_format footer);
    Ret (Ok (footer, footer_size)).

(** The loop over the records of a block: the first one that is zero or does not
    parse ends it. *)
Fixpoint parse_chunk (fuel : nat) (record_size : nat) (key_bytes size_bytes offset_bytes : Z) (chunk_data : bytes) :
    list IndexEntry :=
  match fuel with
  | O => []
  | S fuel =>
      if (length chunk_data <? record_size)%nat then []
      else
        match entry_parse (take record_size chunk_data) key_bytes size_bytes offset_bytes with
        | Ok entry =>
            if is_zero entry then []
            else entry :: parse_chunk fuel record_size key_bytes size_bytes offset_bytes (drop record_size chunk_data)
        | Err _ => []
        end
  end.

(** [n] keys of the table of contents, one after the other. *)
Fixpoint read_toc (n : nat) (data : bytes) (pos key_size : nat) : aresult (list bytes) :=
  match n with
  | O => Ok []
  | S n => key ← read_exact data pos key_size; keys ← read_toc n data (pos + key_size) key_size; Ok (key :: keys)
  end.

(** The blocks from [chunk_idx] on, [n] of them. *)
Fixpoint read_chunks (n chunk_idx data_size : nat) (f : IndexFooter) (data : bytes) : outcome (aresult (list IndexEntry)) :=
  match n with
  | O => Ret (Ok [])
  | S n' =>
      let chunk_offset := (chunk_idx * block_size f)%nat in
      if (n' =? 0)%nat && (data_size <? chunk_offset)%nat then Panic
      else
        let chunk_size :=
          if (n' =? 0)%nat then ((data_size - chunk_offset) `min` block_size f)%nat else block_size f in
        chunk_data ←? Ret (read_exact data chunk_offset chunk_size);
        let es := parse_chunk (length chunk_data) (record_size f) (ekey_length f) (size_bytes f) (offset_bytes f) chunk_data in
        rest ←? read_chunks n' (S chunk_idx) data_size f data;
        Ret (Ok (es ++ rest))
  end.

Definition last_key_of (per : nat) (entries : list IndexEntry) (chunk_idx : nat) : option bytes :=
  let chunk_start := (chunk_idx * per)%nat in
  let chunk_end := ((chunk_start + per) `min` length entries)%nat in
  if (chunk_start <? chunk_end)%nat then encoding_key <$> entries !! (chunk_end - 1)%nat else None.

Fixpoint toc_matches (per : nat) (entries : list IndexEntry) (chunk_idx : nat) (toc : list bytes) : bool :=
  match toc with
  | [] => true
  | expected_last_key :: toc =>
      match last_key_of per entries chunk_idx with
      | Some actual_last_key =>
          if bool_decide (actual_last_key = expected_last_key) then toc_matches per entries (S chunk_idx) toc else false
      | None => toc_matches per entries (S chunk_idx) toc
      end
  end.

Definition validate_toc_consistency (index : ArchiveIndex) : outcome (aresult unit) :=
  per ← records_per_block (footer index);
  if (per =? 0)%nat then Panic
  else if negb (length (toc index) =? div_ceil (length (entries index)) per)%nat then Ret (Err TocInconsistent)
  else Ret (if toc_matches per (entries index) 0 (toc index) then Ok tt else Err TocInconsistent).

Definition validate (index : ArchiveIndex) : outcome (aresult unit) :=
  if negb (is_valid (footer index)) then Ret (Err FooterChecksum)
  else
    _ ←? Ret (validate_format (footer index));
    if negb (is_sorted (entries index)) then Ret (Err UnsortedEntries)
    else validate_toc_consistency index.

Definition parse (data : bytes) : outcome (aresult ArchiveIndex) :=
  '(footer, footer_size) ←? read_footer data;
  let file_size := length data in
  _ ←? validate_file_size footer (Z.of_nat file_size);
  per ← records_per_block footer;
  if (per =? 0)%nat then Panic
  else
    let chunk_count := div_ceil (Z.to_nat (element_count footer)) per in
    let toc_key_size := Z.to_nat (ekey_length footer) in
    let non_footer_size := (file_size - footer_size)%nat in
    let toc_size := (chunk_count * (toc_key_size + Z.to_nat (footer_hash_bytes footer)))%nat in
    if (non_footer_size <? toc_size)%nat then Panic
    else
      let data_size := (non_footer_size - toc_size)%nat in
      toc ←? Ret (read_toc chunk_count data data_size toc_key_size);
      entries ←? read_chunks chunk_count 0 data_size footer data;
      if negb (is_sorted entries) then Ret (Err UnsortedEntries)
      else
        let index := {| entries := entries; toc := toc; footer := footer |} in
        _ ←? validate index;
        Ret (Ok index).

(** ** Lookup *)

(** [a[..n].cmp(&b[..n])] with [n] the shorter length. *)
Definition prefix_compare (a b : bytes) : comparison :=
  let compare_len := (length a `min` length b)%nat in lex_compare (take compare_len a) (take compare_len b).

(** The block a key can be in, by the table of contents. *)
Definition chunk_of_key (toc : list bytes) (search_key : bytes) : option nat :=
  match binary_search_by (fun toc_key => prefix_compare toc_key search_key) toc with
  | Ok idx => Some idx
  | Err idx => if (length toc <=? idx)%nat then None else Some idx
  end.

(** [binary_search_key], as the position of the entry it returns. *)
Definition binary_search_key (index : ArchiveIndex) (search_key : bytes) : outcome (option nat) :=
  per ← records_per_block (footer index);
  match chunk_of_key (toc index) search_key with
  | None => Ret None
  | Some chunk_idx =>
      let chunk_start := (chunk_idx * per)%nat in
      let chunk_end := ((chunk_start + per) `min` length (entries index))%nat in
      if (chunk_end <? chunk_start)%nat then Panic
      else
        let chunk_entries := take (chunk_end - chunk_start) (drop chunk_start (entries index)) in
        match binary_search encoding_key chunk_entries search_key with
        | Ok idx => Ret (Some (chunk_start + idx)%nat)
        | Err _ => Ret None
        end
  end.

Definition find_entry (index : ArchiveIndex) (encoding_key : bytes) : outcome (option IndexEntry) :=
  pos ← binary_search_key index encoding_key;
  match pos with
  | None => Ret None
  | Some pos => match entries index !! pos with Some e => Ret (Some e) | None => Panic end
  end.

(** [while start_pos > 0 && entries[start_pos - 1].encoding_key == search_key]. *)
Fixpoint scan_back (entries : list IndexEntry) (search_key : bytes) (start_pos : nat) : nat :=
  match start_pos with
  | O => O
  | S prev =>
      match entries !! prev with
      | Some e => if bool_decide (encoding_key e = search_key) then scan_back entries search_key prev else start_pos
      | None => start_pos
      end
  end.

(** The run of entries with the key. *)
Fixpoint collect_matches (entries : list IndexEntry) (search_key : bytes) : list IndexEntry :=
  match entries with
  | [] => []
  | e :: entries => if bool_decide (encoding_key e = search_key) then e :: collect_matches entries search_key else []
  end.

Definition find_all_entries (index : ArchiveIndex) (search_key : bytes) : outcome (list IndexEntry) :=
  first_match ← binary_search_key index search_key;
  match first_match with
  | None => Ret []
  | Some pos =>
      let start_pos := scan_back (entries index) search_key pos in
      Ret (collect_matches (drop start_pos (entries index)) search_key)
  end.

(** ** Writing *)

(** The records of a block one behind the other, from the start of a zeroed buffer
    that grows when they do not fit: a [Cursor] over a [Vec]. *)
Fixpoint entries_bytes (size_bytes offset_bytes : Z) (entries : list IndexEntry) : aresult bytes :=
  match entries with
  | [] => Ok []
  | e :: entries => b ← to_bytes e size_bytes offset_bytes; rest ← entries_bytes size_bytes offset_bytes entries; Ok (b ++ rest)
  end.

Definition cursor_fill (size_bytes offset_bytes : Z) (entries : list IndexEntry) : outcome (aresult bytes) :=
  rows ←? Ret (entries_bytes size_bytes offset_bytes entries);
  Ret (Ok (copy_at 0 rows (zeros CHUNK_SIZE))).

(** The records at multiples of the record size; a record that leaves the buffer
    panics. *)
Fixpoint place_entries (f : IndexFooter) (pos : nat) (entries : list IndexEntry) (chunk_data : bytes) : outcome (aresult bytes) :=
  match entries with
  | [] => Ret (Ok chunk_data)
  | e :: entries =>
      entry_bytes ←? Ret (to_bytes e (size_bytes f) (offset_bytes f));
      if (length chunk_data <? pos + length entry_bytes)%nat then Panic
      else place_entries f (pos + record_size f) entries (copy_at pos entry_bytes chunk_data)
  end.

(** The blocks of a list of entries, [per] in each of them and the rest in the last
    one: the entries of the block, its bytes and its hash. *)
Fixpoint write_chunks (fill : list IndexEntry -> outcome (aresult bytes)) (hash_bytes : Z) (per n : nat)
    (entries : list IndexEntry) : outcome (aresult (list (list IndexEntry * bytes * bytes))) :=
  match n with
  | O => Ret (Ok [])
  | S n' =>
      let entries_in_chunk := if (n' =? 0)%nat then length entries else (per `min` length entries)%nat in
      let es := take entries_in_chunk entries in
      chunk_data ←? fill es;
      hash ← calculate_block_hash chunk_data hash_bytes;
      rest ←? write_chunks fill hash_bytes per n' (drop entries_in_chunk entries);
      Ret (Ok ((es, chunk_data, hash) :: rest))
  end.

Definition chunk_bytes (chunks : list (list IndexEntry * bytes * bytes)) : bytes := concat (map (fun c => c.1.2) chunks).
Definition chunk_hashes (chunks : list (list IndexEntry * bytes * bytes)) : list bytes := map snd chunks.

(** [ArchiveIndex::build]. *)
Definition build (index : ArchiveIndex) : outcome (aresult bytes) :=
  let f := footer index in
  per ← records_per_block f;
  if (per =? 0)%nat then Panic
  else
    let chunk_count := div_ceil (length (entries index)) per in
    chunks ←? write_chunks (fun es => place_entries f 0 es (zeros (block_size f))) (footer_hash_bytes f) per chunk_count
                (entries index);
    Ret (Ok (chunk_bytes chunks ++ concat (toc index) ++ concat (chunk_hashes chunks) ++ footer_write f)).

(** [ArchiveIndex::write_to]: records of 24 bytes and 170 records per block, whatever
    the footer says. *)
Definition write_to (index : ArchiveIndex) : outcome (aresult bytes) :=
  let chunk_count := calculate_chunks (length (entries index)) in
  chunks ←? write_chunks (cursor_fill 4 4) (footer_hash_bytes (footer index)) MAX_ENTRIES_PER_CHUNK chunk_count (entries index);
  Ret (Ok (chunk_bytes chunks ++ concat (toc index) ++ concat (chunk_hashes chunks) ++ footer_write (footer index))).

(** ** The builder *)

Record ArchiveIndexBuilder := {
  b_entries : list IndexEntry;
  b_key_size : Z;
  b_offset_bytes : Z;
  b_size_bytes : Z;
  b_hash_bytes : Z;
}.

Definition with_config (key_size offset_bytes size_bytes : Z) : ArchiveIndexBuilder :=
  {| b_entries := []; b_key_size := key_size; b_offset_bytes := offset_bytes; b_size_bytes := size_bytes; b_hash_bytes := 8 |}.

Definition builder_new : ArchiveIndexBuilder := with_config 16 4 4.

Definition set_entries (es : list IndexEntry) (b : ArchiveIndexBuilder) : ArchiveIndexBuilder :=
  {| b_entries := es; b_key_size := b_key_size b; b_offset_bytes := b_offset_bytes b; b_size_bytes := b_size_bytes b;
     b_hash_bytes := b_hash_bytes b |}.

(** [add_entry], and [add_entry_full] for an array. *)
Definition add_entry (encoding_key : bytes) (size offset : Z) (b : ArchiveIndexBuilder) : ArchiveIndexBuilder :=
  set_entries (b_entries b ++ [entry_new encoding_key size offset]) b.

Definition from_archive_index (index : ArchiveIndex) : ArchiveIndexBuilder :=
  let f := footer index in
  set_entries (entries index) (with_config (ekey_length f) (offset_bytes f) (size_bytes f)).

(** Keys are compared up to the shorter length. *)
Definition same_prefix (a b : bytes) : bool :=
  let min_len := (length a `min` length b)%nat in bool_decide (take min_len a = take min_len b).

Definition remove_entry (key : bytes) (b : ArchiveIndexBuilder) : bool * ArchiveIndexBuilder :=
  let es := List.filter (fun e => negb (same_prefix (encoding_key e) key)) (b_entries b) in
  ((length es <? length (b_entries b))%nat, set_entries es b).

Definition has_entry (key : bytes) (b : ArchiveIndexBuilder) : bool :=
  existsb (fun e => same_prefix (encoding_key e) key) (b_entries b).

Definition builder_find_entry (key : bytes) (b : ArchiveIndexBuilder) : option IndexEntry :=
  List.find (fun e => same_prefix (encoding_key e) key) (b_entries b).

Definition clear (b : ArchiveIndexBuilder) : ArchiveIndexBuilder := set_entries [] b.

(** The key of the last entry of a block, padded or cut to the key size. *)
Definition toc_key (key_size : nat) (es : list IndexEntry) : list bytes :=
  match last es with Some e => [pad_to key_size (encoding_key e)] | None => [] end.

Definition toc_of (key_size : nat) (chunks : list (list IndexEntry * bytes * bytes)) : list bytes :=
  concat (map (fun c => toc_key key_size c.1.1) chunks).

(** [ArchiveIndexBuilder::build]: the index and the bytes of the file. *)
Definition builder_build (b : ArchiveIndexBuilder) : outcome (aresult (ArchiveIndex * bytes)) :=
  let es := sort_by_key encoding_key (b_entries b) in
  let key_size := Z.to_nat (b_key_size b) in
  let entry_size := (key_size + Z.to_nat (b_size_bytes b) + Z.to_nat (b_offset_bytes b))%nat in
  if (entry_size =? 0)%nat then Panic
  else
    let max_entries_per_chunk := (CHUNK_SIZE / entry_size)%nat in
    let chunk_count := div_ceil (length es) max_entries_per_chunk in
    chunks ←? write_chunks (cursor_fill (b_size_bytes b) (b_offset_bytes b)) (b_hash_bytes b) max_entries_per_chunk chunk_count es;
    let toc := toc_of key_size chunks in
    toc_hash_ ← calculate_toc_hash toc (chunk_hashes chunks) (b_hash_bytes b);
    let f0 := footer_new toc_hash_ (wrap32 (Z.of_nat (length es))) in
    let f1 := {| toc_hash := toc_hash f0; version := version f0; reserved := reserved f0; page_size_kb := page_size_kb f0;
                 offset_bytes := b_offset_bytes b; size_bytes := b_size_bytes b; ekey_length := b_key_size b;
                 footer_hash_bytes := b_hash_bytes b; element_count := element_count f0; footer_hash := footer_hash f0 |} in
    let f := with_footer_hash (calculate_footer_hash f1) f1 in
    Ret (Ok ({| entries := es; toc := toc; footer := f |},
             chunk_bytes chunks ++ concat toc ++ concat (chunk_hashes chunks) ++ footer_write f)).

(** ** Blocks on demand *)

(** [file_path] is the content of the file. *)
Record ChunkedArchiveIndex := { c_chunks : list (option (list IndexEntry)); c_toc : list bytes; c_footer : IndexFooter; c_file : bytes }.

Definition open (data : bytes) : outcome (aresult ChunkedArchiveIndex) :=
  '(f, footer_size) ←? read_footer data;
  per ← records_per_block f;
  if (per =? 0)%nat then Panic
  else
    let chunk_count := div_ceil (Z.to_nat (element_count f)) per in
    let toc_key_size := Z.to_nat (ekey_length f) in
    let toc_size := (chunk_count * (toc_key_size + Z.to_nat (footer_hash_bytes f)))%nat in
    pos ←? Ret (seek_end data (footer_size + toc_size));
    toc ←? Ret (read_toc chunk_count data pos toc_key_size);
    Ret (Ok {| c_chunks := replicate chunk_count None; c_toc := toc; c_footer := f; c_file := data |}).

Fixpoint load_entries (fuel : nat) (chunk_data : bytes) : aresult (list IndexEntry) :=
  match fuel with
  | O => Ok []
  | S fuel =>
      if (length chunk_data <? ENTRY_SIZE)%nat then Ok []
      else
        entry ← entry_parse (take ENTRY_SIZE chunk_data) 16 4 4;
        if is_zero entry then Ok []
        else entries ← load_entries fuel (drop ENTRY_SIZE chunk_data); Ok (entry :: entries)
  end.

Definition load_chunk (c : ChunkedArchiveIndex) (chunk_idx : nat) : outcome (aresult (list IndexEntry) * ChunkedArchiveIndex) :=
  match c_chunks c !! chunk_idx with
  | None => Panic
  | Some (Some es) => Ret (Ok es, c)
  | Some None =>
      match chunk_data ← read_exact (c_file c) (chunk_idx * CHUNK_SIZE) CHUNK_SIZE; load_entries (length chunk_data) chunk_data with
      | Err e => Ret (Err e, c)
      | Ok es =>
          Ret (Ok es, {| c_chunks := <[chunk_idx := Some es]> (c_chunks c); c_toc := c_toc c; c_footer := c_footer c;
                         c_file := c_file c |})
      end
  end.

Definition chunked_find_entry (c : ChunkedArchiveIndex) (key : bytes) :
    outcome (aresult (option IndexEntry) * ChunkedArchiveIndex) :=
  match chunk_of_key (c_toc c) key with
  | None => Ret (Ok None, c)
  | Some chunk_idx =>
      '(r, c) ← load_chunk c chunk_idx;
      Ret (match r with
           | Err e => Err e
           | Ok chunk_entries => Ok (search encoding_key chunk_entries key)
           end, c)
  end.

End Hashes.
End CdnIndex.
