(* ===== verification/CdnIndexTheorems.v ===== *)
(** * Archive indices: theorems

    What the builder writes is what the parser reads; the parser panics only on files
    with a short footer hash; on every file it accepts the two-level search finds
    exactly the entries with the key; loading blocks on demand answers like the whole
    index. *)

From S2P Require Import Prelude Bytes Collections CdnIndex.
Import CdnIndex.
Local Open Scope Z_scope.

(** ** Entries *)

(** The widths of a footer the parser accepts. *)
Definition widths_ok (key_size offset_bytes : Z) : Prop :=
  1 <= key_size <= 16 /\ (offset_bytes = 0 \/ offset_bytes = 4 \/ offset_bytes = 5 \/ offset_bytes = 6).

(** The place of an entry fits the offset field. *)
Definition place_ok (offset_bytes : Z) (e : IndexEntry) : Prop :=
  match archive_index e with
  | None => (offset_bytes = 0 /\ offset e = 0) \/ (offset_bytes = 4 /\ u32 (offset e)) \/ (offset_bytes = 5 /\ in_u 40 (offset e))
  | Some i => offset_bytes = 6 /\ u32 (offset e) /\ u16 i
  end.

#[export] Instance place_ok_dec ob e : Decision (place_ok ob e).
Proof. unfold place_ok. destruct (archive_index e); apply _. Defined.

Definition entry_ok (key_size offset_bytes : Z) (e : IndexEntry) : Prop :=
  is_array (Z.to_nat key_size) (encoding_key e) /\ u32 (size e) /\ place_ok offset_bytes e /\ is_zero e = false.

#[export] Instance entry_ok_dec ks ob e : Decision (entry_ok ks ob e).
Proof. unfold entry_ok. apply _. Defined.

Definition rsize (key_size offset_bytes : Z) : nat := Z.to_nat (key_size + 4 + offset_bytes).

Lemma offset_roundtrip ob e :
  place_ok ob e -> exists o, offset_to_bytes e ob = Ok o /\ length o = Z.to_nat ob /\ parse_offset ob o = Ok (offset e, archive_index e).
Proof.
  unfold place_ok, offset_to_bytes, parse_offset. destruct (archive_index e) as [i|] eqn:Ei.
  - intros (-> & Ho & Hi). cbn [Z.eqb Pos.eqb]. unfold wrap32. rewrite (wrap_small 32) by done. eexists; split; [done|].
    split; [by rewrite length_app, !length_to_be_bytes|].
    abs_ints. layout. by rewrite E, E0.
  - intros [[-> Ho]|[[-> Ho]|[-> Ho]]]; cbn [Z.eqb Pos.eqb].
    + exists []. split_and!; [done..|]. by rewrite Ho.
    + unfold wrap32. rewrite (wrap_small 32) by done. eexists; split; [done|]. split; [by rewrite length_to_be_bytes|].
      abs_ints. layout. by rewrite E.
    + eexists; split; [done|]. split; [by rewrite length_drop, length_to_be_bytes|]. do 2 f_equal.
      assert (to_be_bytes 8 (offset e) = zeros 3 ++ to_be_bytes 5 (offset e)) as ->.
      { unfold to_be_bytes. assert (to_le_bytes 8 (offset e) = to_le_bytes 5 (offset e) ++ zeros 3) as ->; [|by rewrite reverse_app].
        unfold in_u in Ho. cbn [to_le_bytes app zeros replicate]. rewrite !Z.div_div by lia.
        repeat f_equal; rewrite Z.div_small by lia; reflexivity. }
      rewrite drop_app_length', take_ge by (by rewrite ?length_to_be_bytes). f_equal.
      rewrite <- (be_roundtrip 5 40 (offset e)) at 2 by done. unfold from_be_bytes.
      rewrite reverse_app, from_le_bytes_app. change (from_le_bytes (reverse (zeros 3))) with 0. lia.
Qed.

Lemma cdn_entry_roundtrip ks ob e :
  widths_ok ks ob -> entry_ok ks ob e ->
  exists row, to_bytes e 4 ob = Ok row /\ length row = rsize ks ob /\ entry_parse row ks 4 ob = Ok e.
Proof.
  intros [Hk Hob] ([Hl Hb] & Hs & Hp & _). destruct (offset_roundtrip ob e Hp) as (o & Ho & Lo & Po).
  assert (0 <= ob) by lia.
  unfold to_bytes. rewrite Ho. cbn [mbind result_bind]. eexists; split; [done|].
  assert (length (encoding_key e ++ to_be_bytes 4 (size e) ++ o) = rsize ks ob) as L.
  { rewrite !length_app, length_to_be_bytes, Hl, Lo. unfold rsize. lia. }
  split; [done|]. unfold entry_parse. rewrite L. unfold rsize.
  rewrite !(proj2 (Nat.ltb_ge _ _)) by lia. cbn [Z.eqb Pos.eqb negb]. change (Z.to_nat 4) with 4%nat.
  rewrite <- Hl at 1. rewrite drop_app_add, drop_app_length' by (by rewrite length_to_be_bytes). rewrite Po.
  cbn [mbind result_bind]. rewrite take_app_length' by done.
  rewrite slice_app_r by lia. rewrite Hl, Nat.sub_diag, Nat.add_comm, Nat.add_sub.
  rewrite slice_app_exact by (by rewrite length_to_be_bytes). rewrite (be_roundtrip 4 32) by done. by destruct e.
Qed.

(** The bytes of a row that the writer accepts. *)
Definition row_of (ob : Z) (e : IndexEntry) : bytes := match to_bytes e 4 ob with Ok r => r | Err _ => [] end.

Lemma row_of_ok ks ob e :
  widths_ok ks ob -> entry_ok ks ob e ->
  to_bytes e 4 ob = Ok (row_of ob e) /\ length (row_of ob e) = rsize ks ob /\ entry_parse (row_of ob e) ks 4 ob = Ok e.
Proof. intros Hw He. destruct (cdn_entry_roundtrip ks ob e Hw He) as (r & Hr & L & P). unfold row_of. by rewrite Hr. Qed.

Lemma rsize_pos ks ob : widths_ok ks ob -> (5 <= rsize ks ob <= 26)%nat.
Proof. unfold widths_ok, rsize. lia. Qed.

Lemma take_zeros k n : take k (zeros n) = zeros (k `min` n).
Proof. apply take_replicate. Qed.

Lemma drop_zeros k n : drop k (zeros n) = zeros (n - k).
Proof. apply drop_replicate. Qed.

Lemma all_zeros n : forallb (fun b => b =? 0) (zeros n) = true.
Proof. by induction n. Qed.

(** A record of zeros is padding. *)
Lemma zeros_parse ks ob :
  widths_ok ks ob -> exists e, entry_parse (zeros (rsize ks ob)) ks 4 ob = Ok e /\ is_zero e = true.
Proof.
  intros [Hk Hob]. unfold entry_parse, rsize. rewrite length_zeros.
  rewrite !(proj2 (Nat.ltb_ge _ _)) by lia. cbn [Z.eqb Pos.eqb negb].
  unfold slice. rewrite !take_zeros, !drop_zeros, !take_zeros.
  replace (Z.to_nat (ks + 4 + ob) - (Z.to_nat ks + Z.to_nat 4))%nat with (Z.to_nat ob) by lia.
  replace ((Z.to_nat ks + 4 - Z.to_nat ks) `min` (Z.to_nat (ks + 4 + ob) - Z.to_nat ks))%nat with 4%nat by lia.
  unfold parse_offset.
  destruct Hob as [->|[->|[->| ->]]]; cbn [Z.eqb Pos.eqb mbind result_bind]; eexists; (split; [done|]);
    unfold is_zero; cbn [encoding_key size offset]; rewrite all_zeros; done.
Qed.

Lemma widths_per ks ob :
  widths_ok ks ob -> (0 < CHUNK_SIZE / rsize ks ob)%nat /\ (CHUNK_SIZE / rsize ks ob * rsize ks ob <= CHUNK_SIZE)%nat.
Proof.
  intros Hw. pose proof (rsize_pos ks ob Hw). pose proof (Nat.div_mod_eq CHUNK_SIZE (rsize ks ob)).
  pose proof (Nat.mod_upper_bound CHUNK_SIZE (rsize ks ob) ltac:(lia)). unfold CHUNK_SIZE in *. split; nia.
Qed.

(** ** Blocks *)

Section Blocks.
Context (ks ob : Z) (Hw : widths_ok ks ob).
Abbreviation rs := (rsize ks ob).

Definition block (es : list IndexEntry) : bytes :=
  concat (map (row_of ob) es) ++ zeros (CHUNK_SIZE - length es * rs).

Lemma rows_length es : Forall (entry_ok ks ob) es -> length (concat (map (row_of ob) es)) = (length es * rs)%nat.
Proof.
  intros H. rewrite (length_concat_blocks rs), length_map; [done|]. apply Forall_map.
  eapply Forall_impl; [exact H|]. intros e He. by apply (row_of_ok ks ob e Hw).
Qed.

Lemma block_length es : Forall (entry_ok ks ob) es -> (length es * rs <= CHUNK_SIZE)%nat -> length (block es) = CHUNK_SIZE.
Proof. intros H L. unfold block. rewrite length_app, rows_length, length_zeros by done. lia. Qed.

Lemma entries_bytes_ok es : Forall (entry_ok ks ob) es -> entries_bytes 4 ob es = Ok (concat (map (row_of ob) es)).
Proof.
  induction 1 as [|e es He _ IH]; simpl; [done|]. by rewrite (proj1 (row_of_ok ks ob e Hw He)), IH.
Qed.

Lemma cursor_fill_ok es : Forall (entry_ok ks ob) es -> (length es * rs <= CHUNK_SIZE)%nat -> cursor_fill 4 ob es = Ret (Ok (block es)).
Proof.
  intros H L. unfold cursor_fill. rewrite entries_bytes_ok by done. cbn [try_bind]. unfold copy_at, block.
  by rewrite rows_length, take_0, app_nil_l, Nat.add_0_l, drop_zeros by done.
Qed.

Lemma parse_chunk_zeros fuel n : parse_chunk fuel rs ks 4 ob (zeros n) = [].
Proof.
  destruct fuel as [|fuel]; [done|]. cbn [parse_chunk]. rewrite length_zeros.
  destruct (Nat.ltb_spec n rs); [done|]. destruct (zeros_parse ks ob Hw) as (e & He & Hz).
  rewrite take_zeros, Nat.min_l by done. by rewrite He, Hz.
Qed.

Lemma parse_chunk_rows fuel es n :
  Forall (entry_ok ks ob) es -> (length es <= fuel)%nat ->
  parse_chunk fuel rs ks 4 ob (concat (map (row_of ob) es) ++ zeros n) = es.
Proof.
  intros H. revert fuel. induction H as [|e es He _ IH]; intros fuel Hf; [apply parse_chunk_zeros|].
  destruct fuel as [|fuel]; [simpl in Hf; lia|]. destruct (row_of_ok ks ob e Hw He) as (_ & L & P).
  cbn [map concat parse_chunk]. rewrite <- app_assoc, length_app, L, (proj2 (Nat.ltb_ge _ _)) by lia.
  rewrite take_app_length', drop_app_length' by done. rewrite P, (proj2 (proj2 (proj2 He))).
  f_equal. apply IH. simpl in Hf. lia.
Qed.

Lemma parse_block es :
  Forall (entry_ok ks ob) es -> (length es * rs <= CHUNK_SIZE)%nat ->
  parse_chunk (length (block es)) rs ks 4 ob (block es) = es.
Proof.
  intros H L. rewrite block_length by done. apply parse_chunk_rows; [done|]. pose proof (rsize_pos ks ob Hw). nia.
Qed.

End Blocks.

(** ** Groups of entries *)

(** The entries of [n] blocks, [per] in each. *)
Fixpoint groups {A} (per n : nat) (es : list A) : list (list A) :=
  match n with O => [] | S n => take per es :: groups per n (drop per es) end.

(** [n] blocks hold the entries and none of them is empty. *)
Definition fits {A} (per n : nat) (es : list A) : Prop := (length es <= n * per < length es + per)%nat.

Lemma div_ceil_Z a b : (0 < b)%nat -> (Z.of_nat a + Z.of_nat b - 1) / Z.of_nat b = Z.of_nat (div_ceil a b).
Proof. intros H. unfold div_ceil. rewrite Nat2Z.inj_div. f_equal. lia. Qed.

Lemma div_ceil_fits {A} per (es : list A) : (0 < per)%nat -> fits per (div_ceil (length es) per) es.
Proof.
  intros H. unfold fits, div_ceil. pose proof (Nat.div_mod_eq (length es + per - 1) per).
  pose proof (Nat.mod_upper_bound (length es + per - 1) per ltac:(lia)). lia.
Qed.

Lemma fits_div_ceil {A} per n (es : list A) : fits per n es -> n = div_ceil (length es) per.
Proof.
  unfold fits, div_ceil. intros H. apply (Nat.div_unique _ _ _ (length es + per - 1 - n * per)); lia.
Qed.

Lemma fits_tail {A} per n (es : list A) : fits per (S n) es -> fits per n (drop per es).
Proof. unfold fits. rewrite length_drop. destruct n; lia. Qed.

Lemma groups_length {A} per n (es : list A) : length (groups per n es) = n.
Proof. revert es. induction n; intros; simpl; auto. Qed.

Lemma groups_concat {A} per n (es : list A) : fits per n es -> concat (groups per n es) = es.
Proof.
  revert es. induction n as [|n IH]; intros es H; simpl.
  - destruct es; [done|]. unfold fits in H. simpl in H. lia.
  - rewrite IH by (by apply fits_tail). apply take_drop.
Qed.

Lemma groups_forall {A} (P : A -> Prop) per n (es : list A) : Forall P es -> Forall (Forall P) (groups per n es).
Proof.
  revert es. induction n as [|n IH]; intros es H; simpl; constructor; [by apply Forall_take|].
  by apply IH, Forall_drop.
Qed.

Lemma groups_short {A} per n (es : list A) : Forall (fun g => (length g <= per)%nat) (groups per n es).
Proof. revert es. induction n as [|n IH]; intros es; simpl; constructor; [rewrite length_take; lia|done]. Qed.

Lemma groups_lookup {A} per n (es : list A) i : (i < n)%nat -> groups per n es !! i = Some (take per (drop (i * per) es)).
Proof.
  revert es i. induction n as [|n IH]; intros es [|i] H; simpl; [lia|lia|done|].
  rewrite IH by lia. by rewrite drop_drop.
Qed.

Section Writing.
Context (md5 : bytes -> bytes) (Hmd5 : forall d, is_array 16 (md5 d)).

Definition hash8 (d : bytes) : bytes := take 8 (md5 d).

Lemma hash8_length d : length (hash8 d) = 8%nat.
Proof. unfold hash8. rewrite length_take. destruct (Hmd5 d) as [-> _]. done. Qed.

(** A filling that succeeds on every group gives one block per group. *)
Lemma write_chunks_ok fill blk per n es :
  fits per n es -> (forall g, g ∈ groups per n es -> fill g = Ret (Ok (blk g))) ->
  write_chunks md5 fill 8 per n es = Ret (Ok (map (fun g => (g, blk g, hash8 (blk g))) (groups per n es))).
Proof.
  revert es. induction n as [|n IH]; intros es Hf Hfill; [done|]. cbn [write_chunks groups map].
  assert (take (if (n =? 0)%nat then length es else (per `min` length es)%nat) es = take per es /\
          drop (if (n =? 0)%nat then length es else (per `min` length es)%nat) es = drop per es) as [-> ->].
  { unfold fits in Hf. destruct (Nat.eqb_spec n 0) as [->|].
    - rewrite !take_ge, !drop_ge by lia. done.
    - rewrite Nat.min_l by (destruct n; nia). done. }
  rewrite Hfill by (by left). cbn [try_bind]. unfold calculate_block_hash, hash_prefix. cbn [Z.ltb Z.compare Pos.compare Pos.compare_cont].
  change (mbind (M:=outcome) ?k (Ret ?x)) with (k x).
  rewrite IH; [done|by apply fits_tail|]. intros g Hg. apply Hfill. by right.
Qed.

Definition whole (per : nat) (blk : list IndexEntry -> bytes) (gs : list (list IndexEntry)) (toc : list bytes) (f : IndexFooter) : bytes :=
  concat (map blk gs) ++ concat toc ++ concat (map (fun g => hash8 (blk g)) gs) ++ footer_write f.

End Writing.

(** ** The footer *)

Definition footer_ok (md5 : bytes -> bytes) (f : IndexFooter) : Prop :=
  is_array 8 (toc_hash f) /\ validate_format f = Ok tt /\ u32 (element_count f) /\ 0 <= version f /\
  footer_hash f = calculate_footer_hash md5 f.

Lemma validate_format_inv f :
  validate_format f = Ok tt ->
  version f <= 1 /\ reserved f = [0; 0] /\ page_size_kb f = 4 /\
  (offset_bytes f = 0 \/ offset_bytes f = 4 \/ offset_bytes f = 5 \/ offset_bytes f = 6) /\
  size_bytes f = 4 /\ ekey_length f <> 0 /\ ekey_length f <= 16 /\ footer_hash_bytes f = 8.
Proof.
  unfold validate_format. repeat (case_match; [done|]). intros _.
  repeat match goal with H : negb _ = false |- _ => apply negb_false_iff in H end.
  rewrite bool_decide_eq_true in *.
  match goal with H : _ ∈ _ |- _ => rewrite !elem_of_cons in H; rename H into Ho end.
  pose proof (not_elem_of_nil (offset_bytes f)). rewrite orb_false_iff in *. split_and!; intuition lia.
Qed.

Section Footer.
Context (md5 : bytes -> bytes) (Hmd5 : forall d, is_array 16 (md5 d)).

Lemma footer_hash_length f : length (calculate_footer_hash md5 f) = 8%nat.
Proof. unfold calculate_footer_hash. rewrite length_take. destruct (Hmd5 (pad_to 20 (footer_fields f))) as [-> _]. done. Qed.

Lemma footer_ok_valid f : footer_ok md5 f -> is_valid md5 f = true.
Proof.
  intros (_ & Hv & _ & _ & Hh). apply validate_format_inv in Hv as (_ & _ & _ & _ & _ & _ & _ & H8).
  unfold is_valid. rewrite Hh, footer_hash_length, H8. cbn. by apply bool_decide_eq_true.
Qed.

Lemma footer_write_length f : footer_ok md5 f -> length (footer_write f) = 28%nat.
Proof.
  intros ([Ht _] & Hv & _ & _ & Hh). apply validate_format_inv in Hv as (_ & Hr & _).
  unfold footer_write, footer_fields. rewrite !length_app, Ht, Hr, Hh, footer_hash_length, length_to_le_bytes. done.
Qed.

Lemma read_exact_within body tail p n :
  (p + n <= length tail)%nat -> read_exact (body ++ tail) (length body + p) n = Ok (slice p (p + n) tail).
Proof.
  intros H. unfold read_exact. rewrite (proj2 (Nat.leb_le _ _)) by (rewrite length_app; lia).
  rewrite slice_app_r by lia. do 2 f_equal; lia.
Qed.

Lemma read_footer_written body f :
  footer_ok md5 f -> read_footer md5 (body ++ footer_write f) = Ret (Ok (f, 28%nat)).
Proof.
  intros Hf. pose proof (footer_write_length f Hf) as L. pose proof (footer_ok_valid f Hf) as Hv.
  pose proof Hf as ([Ht _] & Hfmt & He & _ & Hh).
  pose proof (footer_hash_length f) as Lh. rewrite <- Hh in Lh.
  assert (read_footer_at (body ++ footer_write f) = Ok (f, 28%nat)) as E.
  { unfold read_footer_at, seek_end. rewrite length_app, L, (proj2 (Nat.ltb_ge _ _)) by lia. cbn [mbind result_bind].
    replace (length body + 28 - 13)%nat with (length body + 15)%nat by lia. rewrite read_exact_within by lia. cbn [mbind result_bind].
    apply validate_format_inv in Hfmt as (_ & Hr & _ & _ & _ & _ & _ & H8).
    assert (nth 0 (slice 15 (15 + 1) (footer_write f)) 0 = 8) as ->.
    { rewrite <- H8. unfold footer_write, footer_fields. rewrite Hr. clear -Ht. destruct f as [th ? ? ? ? ? ? ? ? ?]. cbn in *. explode Ht. reflexivity. }
    change (MIN_FOOTER_SIZE + Z.to_nat 8)%nat with 28%nat. rewrite (proj2 (Nat.ltb_ge _ _)) by lia. cbn [mbind result_bind].
    replace (length body + 28 - 28)%nat with (length body + 0)%nat by lia. rewrite read_exact_within by lia. cbn [mbind result_bind].
    rewrite <- Nat.add_assoc, read_exact_within by (rewrite L; cbn; lia). cbn [mbind result_bind]. do 2 f_equal.
    unfold footer_write, footer_fields. rewrite Hr. clear -Ht Lh He Hr. destruct f as [th v r p o s k h n fh].
    cbn [toc_hash version reserved page_size_kb offset_bytes size_bytes ekey_length footer_hash_bytes element_count footer_hash] in *. subst r.
    abs_ints. explode Ht. explode Lh. unfold footer_of. layout. by rewrite <- E. }
  unfold read_footer. rewrite E. cbn [try_bind]. rewrite Hv, Hfmt. done.
Qed.

End Footer.

(** ** Sorted entries *)

Lemma is_sorted_spec es : is_sorted es = true <-> sorted_by encoding_key es.
Proof.
  unfold sorted_by. induction es as [|e es IH]; [split; [constructor|done]|]. destruct es as [|e' es].
  { split; [repeat constructor|done]. }
  change (is_sorted (e :: e' :: es)) with
    (match lex_compare (encoding_key e) (encoding_key e') with Gt => false | _ => is_sorted (e' :: es) end).
  split.
  - intros H. assert (kle (encoding_key e) (encoding_key e') /\ is_sorted (e' :: es) = true) as [Hle Hs].
    { unfold kle, kcmp. simpl. by destruct (lex_compare _ _). }
    apply IH in Hs. constructor; [done|]. constructor; [done|]. apply StronglySorted_inv in Hs as [_ Hall].
    eapply Forall_impl; [exact Hall|]. intros x Hx. by eapply kle_trans.
  - intros [Hs Hall]%StronglySorted_inv. apply IH in Hs. rewrite Hs. apply Forall_cons in Hall as [Hle _].
    unfold kle in Hle. simpl in Hle. by destruct (lex_compare _ _).
Qed.

(** ** The table of contents *)

Definition last_key (g : list IndexEntry) : option bytes := encoding_key <$> last g.

Lemma groups_nonempty {A} per n (es : list A) : fits per n es -> Forall (fun g => g <> []) (groups per n es).
Proof.
  revert es. induction n as [|n IH]; intros es H; simpl; constructor; [|by apply IH, fits_tail].
  unfold fits in H. intros E%(f_equal length). rewrite length_take in E. simpl in E. destruct n; nia.
Qed.

Lemma last_keys_length gs : Forall (fun g => g <> []) gs -> length (omap last_key gs) = length gs.
Proof.
  induction 1 as [|g gs Hg _ IH]; [done|]. csimpl. unfold last_key at 1. destruct (last g) eqn:E.
  - csimpl. by rewrite IH.
  - by apply last_None in E.
Qed.

Lemma last_keys_blocks k gs : Forall (Forall (fun e => length (encoding_key e) = k)) gs -> blocks_of k (omap last_key gs).
Proof.
  unfold blocks_of. induction 1 as [|g gs Hg _ IH]; csimpl; [constructor|]. unfold last_key at 1. destruct (last g) eqn:E; csimpl; [|done].
  constructor; [|done]. apply last_Some_elem_of in E. rewrite Forall_forall in Hg. auto.
Qed.

Lemma last_key_of_group per pre es i :
  (0 < per)%nat -> es <> [] -> length pre = (i * per)%nat -> last_key_of per (pre ++ es) i = last_key (take per es).
Proof.
  intros Hp He Hl. unfold last_key_of, last_key. rewrite length_app, Hl.
  assert (0 < length es)%nat by (destruct es; simpl; [done|lia]).
  rewrite (proj2 (Nat.ltb_lt _ _)) by lia. f_equal. rewrite last_lookup, length_take, lookup_app_r by lia.
  rewrite lookup_take_lt by lia. f_equal. lia.
Qed.

Lemma toc_matches_groups per n pre es i :
  (0 < per)%nat -> fits per n es -> length pre = (i * per)%nat ->
  toc_matches per (pre ++ es) i (omap last_key (groups per n es)) = true.
Proof.
  intros Hp. revert pre es i. induction n as [|n IH]; intros pre es i Hf Hl; [done|].
  pose proof (groups_nonempty per (S n) es Hf) as Hne. cbn [groups] in Hne |- *. apply Forall_cons in Hne as [Hne _].
  assert (es <> []) as He by (intros ->; by rewrite take_nil in Hne).
  cbn [omap list_omap]. pose proof (last_key_of_group per pre es i Hp He Hl) as Hk.
  destruct (last_key (take per es)) as [k|] eqn:E.
  2: { unfold last_key in E. apply fmap_None, last_None in E. done. }
  cbn [toc_matches]. rewrite Hk, bool_decide_true by done.
  destruct n as [|n]; [done|]. rewrite <- (take_drop per es) at 1. rewrite app_assoc.
  apply IH; [by apply fits_tail|]. rewrite length_app, length_take. unfold fits in Hf. nia.
Qed.

(** ** The written file parses *)

Section Layout.
Context (md5 : bytes -> bytes) (Hmd5 : forall d, is_array 16 (md5 d)).
Context (f : IndexFooter) (Hf : footer_ok md5 f).
Abbreviation ks := (ekey_length f).
Abbreviation ob := (offset_bytes f).
Abbreviation rs := (rsize ks ob).
Abbreviation per := (CHUNK_SIZE / rs)%nat.
Context (Hw : widths_ok ks ob).

Lemma record_size_rs : record_size f = rs.
Proof. destruct Hf as (_ & Hv & _). apply validate_format_inv in Hv as (_ & _ & _ & _ & Hs & _). unfold record_size, rsize. by rewrite Hs. Qed.

Lemma block_size_chunk : block_size f = CHUNK_SIZE.
Proof. destruct Hf as (_ & Hv & _). apply validate_format_inv in Hv as (_ & _ & Hp & _). unfold block_size. by rewrite Hp. Qed.

Lemma per_pos : (0 < per)%nat /\ (per * rs <= CHUNK_SIZE)%nat.
Proof. by apply widths_per. Qed.

Lemma records_per_block_per : records_per_block f = Ret per.
Proof.
  unfold records_per_block. rewrite record_size_rs, block_size_chunk. pose proof (rsize_pos ks ob Hw). destruct rs; [lia|done].
Qed.

Lemma read_toc_written pre keys post k :
  blocks_of k keys -> read_toc (length keys) (pre ++ concat keys ++ post) (length pre) k = Ok keys.
Proof.
  intros H. revert pre. induction H as [|b keys Hb _ IH]; intros pre; cbn [length concat read_toc]; [done|].
  rewrite <- app_assoc. rewrite <- (Nat.add_0_r (length pre)) at 1. rewrite read_exact_within by (rewrite !length_app; lia). cbn [mbind result_bind].
  rewrite slice_app_exact by lia. rewrite app_assoc. replace (length pre + k)%nat with (length (pre ++ b)) by (rewrite length_app; lia).
  by rewrite IH.
Qed.

Lemma read_chunks_written pre gs post n i :
  Forall (Forall (entry_ok ks ob)) gs -> Forall (fun g => (length g <= per)%nat) gs ->
  n = length gs -> length pre = (i * CHUNK_SIZE)%nat ->
  read_chunks n i ((i + n) * CHUNK_SIZE) f (pre ++ concat (map (block ks ob) gs) ++ post) = Ret (Ok (concat gs)).
Proof.
  intros H H2. revert pre n i. induction H as [|g gs Hg _ IH]; intros pre n i -> Hpre; [done|].
  apply Forall_cons in H2 as [Hg2 H2]. destruct per_pos as [_ Hper].
  assert (length (block ks ob g) = CHUNK_SIZE) as Lg by (apply block_length; [done..|nia]).
  cbn [length read_chunks map concat]. rewrite block_size_chunk.
  assert ((length gs =? 0)%nat && ((i + S (length gs)) * CHUNK_SIZE <? i * CHUNK_SIZE)%nat = false) as ->.
  { rewrite (proj2 (Nat.ltb_ge _ _)) by nia. apply andb_false_r. }
  replace (if (length gs =? 0)%nat then (((i + S (length gs)) * CHUNK_SIZE - i * CHUNK_SIZE) `min` CHUNK_SIZE)%nat else CHUNK_SIZE) with CHUNK_SIZE
    by (destruct (length gs =? 0)%nat; [rewrite Nat.min_r by nia|]; done).
  rewrite <- app_assoc, <- Hpre. rewrite <- (Nat.add_0_r (length pre)) at 1.
  rewrite read_exact_within by (rewrite !length_app; lia). cbn [try_bind]. rewrite slice_app_exact by lia.
  rewrite record_size_rs. pose proof (proj1 (proj2 Hf)) as Hv. apply validate_format_inv in Hv as (_ & _ & _ & _ & Hs & _). rewrite Hs.
  rewrite parse_block by (done || nia). rewrite app_assoc, <- Nat.add_succ_comm.
  rewrite IH; [done|done|done|]. rewrite length_app. lia.
Qed.

Section File.
Context (es : list IndexEntry) (hs : list bytes).
Context (Hes : Forall (entry_ok ks ob) es) (Hs : sorted_by encoding_key es) (Hn : element_count f = Z.of_nat (length es)).

Abbreviation n := (div_ceil (length es) per).
Abbreviation gs := (groups per n es).
Abbreviation keys := (omap last_key gs).
Context (Hhs : blocks_of 8 hs) (Lhs : length hs = n).

Definition written : bytes := concat (map (block ks ob) gs) ++ concat keys ++ concat hs ++ footer_write f.

Lemma written_fits : fits per n es.
Proof. apply div_ceil_fits, per_pos. Qed.

Lemma keys_length : length keys = n.
Proof. rewrite last_keys_length, groups_length; [done|]. apply groups_nonempty, written_fits. Qed.

Lemma keys_blocks : blocks_of (Z.to_nat ks) keys.
Proof.
  apply last_keys_blocks. eapply Forall_impl; [apply groups_forall, Hes|]. intros g Hg. eapply Forall_impl; [exact Hg|].
  intros e He. apply He.
Qed.

Lemma blocks_length : length (concat (map (block ks ob) gs)) = (n * CHUNK_SIZE)%nat.
Proof using Hes Hw.
  rewrite (length_concat_blocks CHUNK_SIZE), length_map, groups_length; [done|]. apply Forall_map, Forall_forall. intros g Hg.
  pose proof (groups_forall (entry_ok ks ob) per n es Hes) as Hgs. pose proof (groups_short per n es) as Hsh.
  rewrite Forall_forall in Hgs, Hsh. specialize (Hsh g Hg). pose proof per_pos. apply block_length; [done|by apply Hgs|clear Lhs Hn; nia].
Qed.

Lemma written_length : length written = (n * CHUNK_SIZE + (n * Z.to_nat ks + (n * 8 + 28)))%nat.
Proof.
  unfold written. rewrite !length_app, blocks_length, (length_concat_blocks _ _ keys_blocks), keys_length.
  by rewrite (length_concat_blocks _ _ Hhs), Lhs, (footer_write_length md5 Hmd5 f Hf).
Qed.

Lemma written_file_size : validate_file_size f (Z.of_nat (length written)) = Ret (Ok tt).
Proof.
  destruct per_pos as [Hp _]. unfold validate_file_size. rewrite records_per_block_per.
  change (mbind (M:=outcome) ?k (Ret ?x)) with (k x). cbv beta. rewrite (proj2 (Nat.eqb_neq _ _)) by lia. f_equal.
  pose proof (proj1 (proj2 Hf)) as Hv. apply validate_format_inv in Hv as (_ & _ & Hpg & _ & _ & _ & _ & H8).
  rewrite written_length, Hpg, H8, Hn.
  rewrite (div_ceil_Z _ _ Hp).
  match goal with |- (if negb (?a =? ?b) then _ else _) = _ => destruct (Z.eqb_spec a b) as [|Hne]; [done|] end.
  exfalso. apply Hne. clear -Hw. generalize n. intros m. unfold CHUNK_SIZE, MIN_FOOTER_SIZE. destruct Hw. lia.
Qed.

Lemma written_valid : validate md5 {| entries := es; toc := keys; footer := f |} = Ret (Ok tt).
Proof.
  destruct per_pos as [Hp _]. unfold validate. cbn [footer entries CdnIndex.toc]. rewrite footer_ok_valid by done. cbn [negb].
  rewrite (proj1 (proj2 Hf)). cbn [try_bind]. rewrite (proj2 (is_sorted_spec es) Hs). cbn [negb].
  unfold validate_toc_consistency. cbn [footer entries CdnIndex.toc]. rewrite records_per_block_per.
  change (mbind (M:=outcome) ?k (Ret ?x)) with (k x). cbv beta. rewrite (proj2 (Nat.eqb_neq _ _)) by lia.
  rewrite keys_length, Nat.eqb_refl. cbn [negb].
  pose proof (toc_matches_groups per n [] es 0 Hp written_fits eq_refl) as Htm. rewrite app_nil_l in Htm. by rewrite Htm.
Qed.

(** The parser reads back the entries, the table of contents and the footer, whatever
    the block hashes are. *)
Lemma parse_written : parse md5 written = Ret (Ok {| entries := es; toc := keys; footer := f |}).
Proof.
  destruct per_pos as [Hp _]. pose proof written_length as L. pose proof written_file_size as Hsz.
  unfold parse. assert (read_footer md5 written = Ret (Ok (f, 28%nat))) as ->.
  { unfold written. rewrite !app_assoc. by apply read_footer_written. }
  cbn [try_bind]. rewrite Hsz. cbn [try_bind]. rewrite records_per_block_per. change (mbind (M:=outcome) ?k (Ret ?x)) with (k x). cbv beta.
  rewrite (proj2 (Nat.eqb_neq _ _)) by lia. rewrite Hn, Nat2Z.id, L.
  pose proof (proj1 (proj2 Hf)) as Hv. apply validate_format_inv in Hv as (_ & _ & _ & _ & _ & _ & _ & H8).
  rewrite H8. change (Z.to_nat 8) with 8%nat. rewrite (proj2 (Nat.ltb_ge _ _)) by lia.
  replace (n * CHUNK_SIZE + (n * Z.to_nat ks + (n * 8 + 28)) - 28 - n * (Z.to_nat ks + 8))%nat with (n * CHUNK_SIZE)%nat by lia.
  assert (read_toc n written (n * CHUNK_SIZE) (Z.to_nat ks) = Ok keys) as ->.
  { unfold written. rewrite <- blocks_length at 1. rewrite <- keys_length at 1. apply read_toc_written, keys_blocks. }
  cbn [try_bind].
  pose proof (read_chunks_written [] gs (concat keys ++ concat hs ++ footer_write f) n 0) as Hrc.
  rewrite app_nil_l, Nat.add_0_l in Hrc. change (concat (map _ gs) ++ _) with written in Hrc.
  rewrite Hrc by (done || (apply groups_short) || (by apply groups_forall) || (by rewrite groups_length)). cbn [try_bind].
  rewrite groups_concat by apply written_fits. rewrite (proj2 (is_sorted_spec es) Hs). cbn [negb].
  by rewrite written_valid.
Qed.

End File.
End Layout.

(** ** The builder and the two writers *)

Lemma pad_to_exact n h : length h = n -> pad_to n h = h.
Proof.
  intros <-. unfold pad_to. rewrite Nat.min_id, take_ge by lia. unfold copy_at.
  rewrite take_0, drop_ge by (rewrite length_zeros; lia). by rewrite app_nil_l, app_nil_r.
Qed.

Section Build.
Context (md5 : bytes -> bytes) (Hmd5 : forall d, is_array 16 (md5 d)).

(** What the builder is given: widths the format has, keys of the announced size,
    offsets that fit, and no entry that looks like padding. *)
Definition builder_ok (b : ArchiveIndexBuilder) : Prop :=
  b_hash_bytes b = 8 /\ b_size_bytes b = 4 /\ widths_ok (b_key_size b) (b_offset_bytes b) /\
  Forall (entry_ok (b_key_size b) (b_offset_bytes b)) (b_entries b) /\ u32 (Z.of_nat (length (b_entries b))).

Lemma toc_of_keys k blk gs :
  Forall (Forall (fun e => length (encoding_key e) = k)) gs ->
  toc_of k (map (fun g => (g, blk g, hash8 md5 (blk g))) gs) = omap last_key gs.
Proof.
  unfold toc_of. induction 1 as [|g gs Hg _ IH]; [done|]. csimpl. rewrite IH. unfold toc_key, last_key at 2.
  destruct (last g) as [e|] eqn:E; [|done]. csimpl. rewrite pad_to_exact; [done|].
  apply last_Some_elem_of in E. rewrite Forall_forall in Hg. auto.
Qed.

(** The footer the builder writes. *)
Definition built_footer (b : ArchiveIndexBuilder) (count : nat) (h : bytes) : IndexFooter :=
  let f := {| toc_hash := pad_to 8 h; version := 1; reserved := [0; 0]; page_size_kb := 4; offset_bytes := b_offset_bytes b;
              size_bytes := b_size_bytes b; ekey_length := b_key_size b; footer_hash_bytes := b_hash_bytes b;
              element_count := wrap32 (Z.of_nat count); footer_hash := [] |} in
  with_footer_hash (calculate_footer_hash md5 f) f.

Lemma built_footer_ok b count h :
  builder_ok b -> is_array 8 h -> footer_ok md5 (built_footer b count h).
Proof.
  intros (H8 & H4 & [Hk Ho] & _ & _) [Hl Hb]. unfold footer_ok, built_footer. cbn -[pad_to]. rewrite pad_to_exact by done. split_and!.
  - by split.
  - unfold validate_format. cbn. rewrite H8, H4, bool_decide_true by done. cbn. rewrite bool_decide_true by set_solver. cbn.
    destruct (Z.eqb_spec (b_key_size b) 0); [lia|]. destruct (Z.ltb_spec 16 (b_key_size b)); [lia|done].
  - apply wrap32_range.
  - lia.
  - done.
Qed.

Lemma take_is_array n m l : (n <= m)%nat -> is_array m l -> is_array n (take n l).
Proof. intros H [L B]. split; [rewrite length_take; lia|]. by apply is_bytes_take. Qed.

Lemma place_entries_ok f pre es k :
  widths_ok (ekey_length f) (offset_bytes f) -> size_bytes f = 4 -> Forall (entry_ok (ekey_length f) (offset_bytes f)) es ->
  (length es * record_size f <= k)%nat ->
  place_entries f (length pre) es (pre ++ zeros k) =
    Ret (Ok (pre ++ concat (map (row_of (offset_bytes f)) es) ++ zeros (k - length es * record_size f))).
Proof.
  intros Hw H4 H. revert pre k. induction H as [|e es He _ IH]; intros pre k Hk; cbn [place_entries length map concat].
  { by rewrite Nat.mul_0_l, Nat.sub_0_r. }
  destruct (row_of_ok _ _ e Hw He) as (Hr & Lr & _). rewrite H4, Hr. cbn [try_bind].
  assert (record_size f = rsize (ekey_length f) (offset_bytes f)) as Hrs by (unfold record_size, rsize; by rewrite H4).
  simpl in Hk. rewrite Hrs in *. rewrite length_app, length_zeros, Lr, (proj2 (Nat.ltb_ge _ _)) by lia.
  set (r := rsize _ _) in *. replace k with (r + (k - r))%nat at 1 by lia. rewrite zeros_add, copy_at_exact by (by rewrite length_zeros).
  rewrite app_assoc. replace (length pre + r)%nat with (length (pre ++ row_of (offset_bytes f) e)) by (rewrite length_app; lia).
  rewrite IH by lia. rewrite <- !app_assoc. do 6 f_equal. lia.
Qed.

Section Built.
Context (b : ArchiveIndexBuilder) (Hb : builder_ok b).
Abbreviation ks := (b_key_size b).
Abbreviation ob := (b_offset_bytes b).
Abbreviation per := (CHUNK_SIZE / rsize ks ob)%nat.

Definition built_entries : list IndexEntry := sort_by_key encoding_key (b_entries b).
Definition built_groups : list (list IndexEntry) := groups per (div_ceil (length built_entries) per) built_entries.
Definition built_toc : list bytes := omap last_key built_groups.
Definition built_hashes : list bytes := map (fun g => hash8 md5 (block ks ob g)) built_groups.
Definition built_index_footer : IndexFooter :=
  built_footer b (length built_entries) (hash8 md5 (concat built_toc ++ concat built_hashes)).

Lemma built_entries_ok : Forall (entry_ok ks ob) built_entries.
Proof. destruct Hb as (_ & _ & _ & H & _). unfold built_entries. by rewrite sort_by_key_perm. Qed.

Lemma built_index_footer_ok : footer_ok md5 built_index_footer.
Proof. apply built_footer_ok; [done|]. unfold hash8. eapply take_is_array; [|apply Hmd5]. lia. Qed.

Lemma built_count : element_count built_index_footer = Z.of_nat (length built_entries).
Proof.
  destruct Hb as (_ & _ & _ & _ & H). apply wrap_small. unfold built_entries. by rewrite sort_by_key_perm.
Qed.

Lemma built_hashes_ok : blocks_of 8 built_hashes /\ length built_hashes = div_ceil (length built_entries) per.
Proof.
  split; [apply Forall_map, Forall_true; intros g; by apply hash8_length|].
  unfold built_hashes, built_groups. by rewrite length_map, groups_length.
Qed.

Lemma built_per : (0 < per)%nat /\ (per * rsize ks ob <= CHUNK_SIZE)%nat.
Proof. destruct Hb as (_ & _ & Hw & _). by apply widths_per. Qed.

(** The blocks, however they are filled. *)
Lemma built_chunks fill :
  (forall g, Forall (entry_ok ks ob) g -> (length g * rsize ks ob <= CHUNK_SIZE)%nat -> fill g = Ret (Ok (block ks ob g))) ->
  write_chunks md5 fill 8 per (div_ceil (length built_entries) per) built_entries =
    Ret (Ok (map (fun g => (g, block ks ob g, hash8 md5 (block ks ob g))) built_groups)).
Proof.
  intros Hfill. destruct built_per as [Hp Hper]. apply (write_chunks_ok md5 fill (block ks ob)); [by apply div_ceil_fits|].
  intros g Hg. pose proof (groups_forall _ per (div_ceil (length built_entries) per) _ built_entries_ok) as Hgs.
  pose proof (groups_short per (div_ceil (length built_entries) per) built_entries) as Hsh.
  rewrite Forall_forall in Hgs, Hsh. specialize (Hsh g Hg). apply Hfill; [by apply Hgs|nia].
Qed.

Definition built_index : ArchiveIndex := {| entries := built_entries; toc := built_toc; footer := built_index_footer |}.
Definition built_file : bytes := written built_index_footer built_entries built_hashes.

Lemma builder_build_eq : builder_build md5 b = Ret (Ok (built_index, built_file)).
Proof.
  pose proof Hb as (H8 & H4 & Hw & _ & _). pose proof (rsize_pos ks ob Hw) as Hrs. unfold builder_build. fold built_entries. rewrite H4.
  assert (Z.to_nat ks + Z.to_nat 4 + Z.to_nat ob = rsize ks ob)%nat as -> by (unfold rsize; destruct Hw; lia).
  rewrite (proj2 (Nat.eqb_neq _ _)) by lia. rewrite H8. rewrite built_chunks by (intros; by apply cursor_fill_ok).
  cbn [try_bind]. rewrite toc_of_keys.
  2: { eapply Forall_impl; [apply groups_forall, built_entries_ok|]. intros g Hg. eapply Forall_impl; [exact Hg|]. intros e He. apply He. }
  unfold calculate_toc_hash, hash_prefix. cbn [Z.ltb Z.compare Pos.compare Pos.compare_cont].
  change (mbind (M:=outcome) ?k (Ret ?x)) with (k x). cbv beta zeta.
  unfold chunk_hashes, chunk_bytes. rewrite !map_map. cbn [fst snd].
  change (map (fun g => hash8 md5 (block ks ob g)) built_groups) with built_hashes. fold built_toc.
  unfold built_index, built_file, written, built_index_footer, built_footer. rewrite H4, H8. done.
Qed.

Lemma build_eq : build md5 built_index = Ret (Ok built_file).
Proof.
  pose proof Hb as (H8 & H4 & Hw & _ & _). destruct built_per as [Hp _]. unfold build. cbn [footer built_index].
  rewrite (records_per_block_per md5 built_index_footer built_index_footer_ok Hw).
  change (mbind (M:=outcome) ?k (Ret ?x)) with (k x). cbv beta. change (ekey_length built_index_footer) with ks.
  change (offset_bytes built_index_footer) with ob. rewrite (proj2 (Nat.eqb_neq _ _)) by lia.
  change (footer_hash_bytes built_index_footer) with (b_hash_bytes b). rewrite H8. cbn [entries built_index].
  rewrite built_chunks; [cbn [try_bind]; unfold chunk_bytes, chunk_hashes; rewrite !map_map; done|].
  intros g Hg Lg. rewrite (block_size_chunk md5 _ built_index_footer_ok).
  pose proof (place_entries_ok built_index_footer [] g CHUNK_SIZE Hw H4 Hg) as HP.
  rewrite (record_size_rs md5 _ built_index_footer_ok) in HP. by apply HP.
Qed.

Lemma parse_built : parse md5 built_file = Ret (Ok built_index).
Proof.
  pose proof Hb as (_ & _ & Hw & _ & _). destruct built_hashes_ok as [B1 B2].
  apply (parse_written md5 Hmd5 built_index_footer built_index_footer_ok Hw); [apply built_entries_ok| |apply built_count|done..].
  apply sort_by_key_sorted.
Qed.

End Built.

End Build.

(** ** Lookup *)

(** What the checks of the parser leave: entries in order with keys of one length,
    and a table of contents with the last key of every block. *)
Record index_ok (per : nat) (index : ArchiveIndex) : Prop := {
  ok_per : (0 < per)%nat;
  ok_records : records_per_block (footer index) = Ret per;
  ok_sorted : sorted_by encoding_key (entries index);
  ok_keys : Forall (fun e => length (encoding_key e) = Z.to_nat (ekey_length (footer index))) (entries index);
  ok_toc_keys : blocks_of (Z.to_nat (ekey_length (footer index))) (toc index);
  ok_toc : fits per (length (toc index)) (entries index);
  ok_toc_last : forall i, (i < length (toc index))%nat -> toc index !! i = last_key_of per (entries index) i;
}.

Lemma toc_matches_lookup per es n toc i :
  (0 < per)%nat -> fits per (n + length toc) es -> toc_matches per es n toc = true -> (i < length toc)%nat ->
  toc !! i = last_key_of per es (n + i).
Proof.
  intros Hp. revert n i. induction toc as [|k toc IH]; intros n i Hf Hm Hi; simpl in Hi; [lia|].
  cbn [toc_matches] in Hm. simpl in Hf.
  assert (is_Some (last_key_of per es n)) as [k' Hk].
  { unfold last_key_of. unfold fits in Hf. rewrite (proj2 (Nat.ltb_lt _ _)) by nia. apply fmap_is_Some, lookup_lt_is_Some. nia. }
  rewrite Hk in Hm. case_bool_decide as Hkk; [|done]. subst k'. destruct i as [|i]; [by rewrite Nat.add_0_r|].
  simpl. rewrite (IH (S n) i); [f_equal; lia| |done|lia]. replace (S n + length toc)%nat with (n + S (length toc))%nat by lia. done.
Qed.

Lemma last_key_of_Some per es i :
  (i * per < length es)%nat -> (0 < per)%nat ->
  exists e, es !! ((i * per + per) `min` length es - 1)%nat = Some e /\ last_key_of per es i = Some (encoding_key e).
Proof.
  intros Hi Hp. unfold last_key_of. rewrite (proj2 (Nat.ltb_lt _ _)) by lia.
  destruct (lookup_lt_is_Some_2 es ((i * per + per) `min` length es - 1)) as [e He]; [lia|]. rewrite He. eauto.
Qed.

Lemma lex_take_le n a b : lex_le a b -> lex_le (take n a) (take n b).
Proof.
  unfold lex_le. revert a b. induction n as [|n IH]; intros [|x a] [|y b]; simpl; try done.
  destruct (Z.compare x y); try done. apply IH.
Qed.

Section Find.
Context (per : nat) (index : ArchiveIndex) (Hok : index_ok per index).
Abbreviation k := (Z.to_nat (ekey_length (footer index))).

Lemma toc_entry i :
  (i < length (toc index))%nat ->
  exists e, entries index !! ((i * per + per) `min` length (entries index) - 1)%nat = Some e /\ toc index !! i = Some (encoding_key e).
Proof.
  intros Hi. destruct Hok as [Hp _ _ _ _ Hf Hl]. rewrite Hl by done. apply last_key_of_Some; [|done].
  unfold fits in Hf. nia.
Qed.

Lemma toc_le i j ki kj : toc index !! i = Some ki -> toc index !! j = Some kj -> (i <= j)%nat -> lex_le ki kj.
Proof.
  intros Hi Hj Hij. pose proof (lookup_lt_Some _ _ _ Hi) as Li. pose proof (lookup_lt_Some _ _ _ Hj) as Lj.
  destruct (toc_entry i Li) as (ei & Ei & Ti). destruct (toc_entry j Lj) as (ej & Ej & Tj).
  assert (ki = encoding_key ei) as -> by congruence. assert (kj = encoding_key ej) as -> by congruence.
  apply (sorted_by_lookup encoding_key (entries index) _ _ ei ej (ok_sorted _ _ Hok) Ei Ej). nia.
Qed.

Lemma toc_ordered s : compare_ordered (fun toc_key => prefix_compare toc_key s) (toc index).
Proof.
  intros i j a b Hi Hj Hij. pose proof (toc_le i j a b Hi Hj Hij) as Hle.
  pose proof (ok_toc_keys _ _ Hok) as Bt. unfold blocks_of in Bt. rewrite Forall_forall in Bt.
  assert (length a = k) as La by (apply Bt; by eapply list_elem_of_lookup_2).
  assert (length b = k) as Lb by (apply Bt; by eapply list_elem_of_lookup_2).
  unfold prefix_compare. rewrite La, Lb. set (m := (k `min` length s)%nat). apply (lex_take_le m) in Hle.
  change (lex_le (take m a) (take m b)) with (kle (take m a) (take m b)) in Hle.
  change lex_compare with (kcmp (K:=bytes)). split.
  - rewrite !kcmp_gt. intros ?. by eapply klt_kle_trans.
  - intros ?. by eapply kle_klt_trans.
Qed.

(** The entries of the block at [c]. *)
Definition block_entries (c : nat) : list IndexEntry := take per (drop (c * per) (entries index)).

Lemma chunk_slice c :
  (c < length (toc index))%nat ->
  ((c * per + per) `min` length (entries index) <? c * per)%nat = false /\
  take ((c * per + per) `min` length (entries index) - c * per) (drop (c * per) (entries index)) = block_entries c.
Proof.
  intros Hc. destruct Hok as [Hp _ _ _ _ Hf _]. unfold fits in Hf. split; [apply Nat.ltb_ge; nia|]. unfold block_entries.
  destruct (Nat.le_gt_cases (length (entries index)) (c * per + per)).
  - rewrite Nat.min_r by lia. rewrite !take_ge by (rewrite length_drop; lia). done.
  - rewrite Nat.min_l by lia. f_equal. lia.
Qed.

Lemma block_sorted c : sorted_by encoding_key (block_entries c).
Proof.
  unfold block_entries. pose proof (ok_sorted _ _ Hok) as Hs. unfold sorted_by in *.
  rewrite <- (take_drop (c * per) (entries index)) in Hs. apply StronglySorted_app in Hs as (_ & _ & Hs).
  rewrite <- (take_drop per (drop _ _)) in Hs. by apply StronglySorted_app in Hs as (_ & Hs & _).
Qed.

Lemma block_entries_lookup c i e : block_entries c !! i = Some e -> entries index !! (c * per + i)%nat = Some e.
Proof. unfold block_entries. intros H. rewrite lookup_take_Some, lookup_drop in H. by destruct H. Qed.

(** An entry with the key is in the block the table of contents selects. *)
Lemma chunk_of_key_spec s p e :
  entries index !! p = Some e -> encoding_key e = s ->
  exists c, chunk_of_key (toc index) s = Some c /\ exists q e', block_entries c !! q = Some e' /\ encoding_key e' = s.
Proof.
  intros Hpe Hs. pose proof (lookup_lt_Some _ _ _ Hpe) as Lp. pose proof Hok as [Hp _ Hsrt Hk Bt Hf _]. unfold fits in Hf.
  assert (length s = k) as Ls by (rewrite <- Hs; eapply Forall_lookup_1 in Hk; done).
  assert (forall i t, toc index !! i = Some t -> prefix_compare t s = lex_compare t s) as Hcmp.
  { intros i t Ht. unfold blocks_of in Bt. eapply Forall_lookup_1 in Bt; [|done]. unfold prefix_compare.
    rewrite Bt, Ls, Nat.min_id, !take_ge by lia. done. }
  pose proof (binary_search_by_spec _ (toc index) (toc_ordered s)) as H. unfold chunk_of_key.
  destruct (binary_search_by _ (toc index)) as [c|c].
  - destruct H as (t & Ht & Et). exists c. split; [done|]. rewrite (Hcmp c t Ht) in Et. apply lex_compare_eq in Et as ->.
    pose proof (lookup_lt_Some _ _ _ Ht) as Lc. destruct (toc_entry c Lc) as (e' & He' & Te').
    exists ((c * per + per) `min` length (entries index) - 1 - c * per)%nat, e'. split; [|congruence].
    unfold block_entries. rewrite lookup_take_lt by lia. rewrite lookup_drop. rewrite <- He'. f_equal. nia.
  - destruct H as (Lc & Hlt & Hgt). pose proof (Nat.div_mod_eq p per) as Hdm. pose proof (Nat.mod_upper_bound p per ltac:(lia)) as Hmu.
    set (b := (p / per)%nat) in *. assert (b < length (toc index))%nat as Lb by nia.
    destruct (toc_entry b Lb) as (eb & Heb & Tb).
    assert (kle s (encoding_key eb)) as Hle.
    { rewrite <- Hs. eapply (sorted_by_lookup encoding_key); [exact Hsrt|exact Hpe|exact Heb|]. nia. }
    assert (c <= b)%nat as Hcb.
    { destruct (Nat.le_gt_cases c b) as [|Hb]; [done|]. specialize (Hlt b _ Tb Hb). rewrite (Hcmp b _ Tb) in Hlt.
      exfalso. apply (klt_irrefl s). by eapply kle_klt_trans. }
    rewrite (proj2 (Nat.leb_gt _ _)) by lia. exists c. split; [done|].
    assert (c = b) as ->.
    { destruct (decide (c = b)) as [|Hne]; [done|]. destruct (toc_entry c ltac:(lia)) as (ec & Hec & Tc).
      specialize (Hgt c _ Tc ltac:(lia)). rewrite (Hcmp c _ Tc) in Hgt. apply lex_lt_gt in Hgt.
      assert (kle (encoding_key ec) s) as Hle2.
      { rewrite <- Hs. eapply (sorted_by_lookup encoding_key); [exact Hsrt|exact Hec|exact Hpe|]. nia. }
      exfalso. apply (klt_irrefl s). by eapply klt_kle_trans. }
    exists (p - b * per)%nat, e. split; [|done]. unfold block_entries. rewrite lookup_take_lt by nia. rewrite lookup_drop, <- Hpe.
    f_equal. nia.
Qed.

(** The search in the entries of one block, as the position in the whole index. *)
Lemma chunk_of_key_lt s c : chunk_of_key (toc index) s = Some c -> (c < length (toc index))%nat.
Proof.
  unfold chunk_of_key. pose proof (binary_search_by_spec _ (toc index) (toc_ordered s)) as H.
  destruct (binary_search_by _ (toc index)) as [i|i]; intros.
  - destruct H as (t & Ht & _). apply lookup_lt_Some in Ht. congruence.
  - destruct (Nat.leb_spec (length (toc index)) i); [done|]. congruence.
Qed.

Lemma binary_search_key_spec s :
  exists r, binary_search_key index s = Ret r /\
    match r with
    | Some p => exists e, entries index !! p = Some e /\ encoding_key e = s
    | None => forall e, e ∈ entries index -> encoding_key e <> s
    end.
Proof.
  unfold binary_search_key. rewrite (ok_records _ _ Hok). change (mbind (M:=outcome) ?k (Ret ?x)) with (k x). cbv beta.
  destruct (chunk_of_key (toc index) s) as [c|] eqn:Ec.
  - destruct (chunk_slice c (chunk_of_key_lt s c Ec)) as [-> ->].
    pose proof (binary_search_spec encoding_key (block_entries c) s (block_sorted c)) as Hb.
    destruct (binary_search encoding_key (block_entries c) s) as [i|i].
    + destruct Hb as (e & He & Hk). eexists; split; [done|]. exists e. split; [by apply block_entries_lookup|done].
    + exists None. split; [done|]. intros e [p Hp]%list_elem_of_lookup Hk.
      destruct (chunk_of_key_spec s p e Hp Hk) as (c' & Ec' & q & e' & He' & Hk'). assert (c' = c) as -> by congruence.
      apply (Hb e'); [|done]. by eapply list_elem_of_lookup_2.
  - exists None. split; [done|]. intros e [p Hp]%list_elem_of_lookup Hk.
    destruct (chunk_of_key_spec s p e Hp Hk) as (c' & Ec' & _). congruence.
Qed.

End Find.

Lemma scan_back_spec es s p :
  (p <= length es)%nat -> let q := scan_back es s p in
  (q <= p)%nat /\ (forall j e, es !! j = Some e -> (q <= j < p)%nat -> encoding_key e = s) /\
  (q = 0%nat \/ exists e, es !! (q - 1)%nat = Some e /\ encoding_key e <> s).
Proof.
  induction p as [|p IH]; intros Hp; cbn [scan_back]; [split_and!; [lia|lia|by left]|].
  destruct (lookup_lt_is_Some_2 es p ltac:(lia)) as [e He]. rewrite He. case_bool_decide as Hk.
  - destruct (IH ltac:(lia)) as (Hq & Hj & Hs). split_and!; [lia| |done]. intros j e' Hje Hij.
    destruct (decide (j = p)) as [->|]; [congruence|]. apply (Hj j); [done|lia].
  - split_and!; [lia|lia|]. right. exists e. by rewrite Nat.sub_succ, Nat.sub_0_r.
Qed.

Lemma filter_none {A} (P : A -> Prop) `{forall x, Decision (P x)} l : Forall (fun x => ~ P x) l -> filter P l = [].
Proof. induction 1 as [|x l Hx _ IH]; [done|]. rewrite filter_cons. by rewrite decide_False. Qed.

Lemma collect_filter es s :
  sorted_by encoding_key es -> Forall (fun e => kle s (encoding_key e)) es ->
  collect_matches es s = filter (fun e => encoding_key e = s) es.
Proof.
  unfold sorted_by. induction 1 as [|e es Hs IH Hall]; intros H; [done|]. apply Forall_cons in H as [He H].
  cbn [collect_matches]. rewrite filter_cons. case_bool_decide as Hk.
  - rewrite decide_True by done. by rewrite IH.
  - rewrite decide_False by done. symmetry. apply filter_none. rewrite Forall_forall in Hall. apply Forall_forall.
    intros e' He' Hk'. specialize (Hall e' He'). rewrite Hk' in Hall. apply kle_cases in He as [He|He]; [|done].
    apply (klt_irrefl s). by eapply klt_kle_trans.
Qed.

(** The scan around one match collects all entries with the key. *)
Lemma scan_collects es s p e :
  sorted_by encoding_key es -> es !! p = Some e -> encoding_key e = s ->
  collect_matches (drop (scan_back es s p) es) s = filter (fun e => encoding_key e = s) es.
Proof.
  intros Hs Hp Hk. pose proof (lookup_lt_Some _ _ _ Hp) as Lp.
  destruct (scan_back_spec es s p ltac:(lia)) as (Hq & Hrun & Hstop). set (q := scan_back es s p) in *.
  assert (exists e0, es !! q = Some e0 /\ encoding_key e0 = s) as (e0 & Hq0 & Hk0).
  { destruct (decide (q = p)) as [->|]; [eauto|]. destruct (lookup_lt_is_Some_2 es q ltac:(lia)) as [e0 He0].
    exists e0. split; [done|]. apply (Hrun q); [done|lia]. }
  rewrite collect_filter.
  - rewrite <- (take_drop q es) at 2. rewrite filter_app.
    assert (filter (fun e => encoding_key e = s) (take q es) = []) as ->; [|done].
    apply filter_none, Forall_forall. intros e' [j Hj]%list_elem_of_lookup Hk'.
    apply lookup_take_Some in Hj as [Hj Ljq]. destruct Hstop as [->|(e1 & He1 & Hk1)]; [lia|].
    pose proof (sorted_by_lookup encoding_key es j (q - 1) e' e1 Hs Hj He1 ltac:(lia)) as H1.
    pose proof (sorted_by_lookup encoding_key es (q - 1) q e1 e0 Hs He1 Hq0 ltac:(lia)) as H2.
    rewrite Hk' in H1. rewrite Hk0 in H2. apply kle_cases in H1 as [H1|H1]; [|by rewrite H1 in Hk1].
    apply (klt_irrefl s). by eapply klt_kle_trans.
  - unfold sorted_by in *. rewrite <- (take_drop q es) in Hs. by apply StronglySorted_app in Hs as (_ & _ & Hs).
  - apply Forall_forall. intros e' [j Hj]%list_elem_of_lookup. rewrite lookup_drop in Hj. rewrite <- Hk0.
    apply (sorted_by_lookup encoding_key es q (q + j)); [done..|lia].
Qed.

Lemma find_entry_spec per index key :
  index_ok per index ->
  exists r, find_entry index key = Ret r /\
    match r with
    | Some e => e ∈ entries index /\ encoding_key e = key
    | None => forall e, e ∈ entries index -> encoding_key e <> key
    end /\
    find_all_entries index key = Ret (filter (fun e => encoding_key e = key) (entries index)).
Proof.
  intros Hok. destruct (binary_search_key_spec per index Hok key) as (r & Hr & Hspec). unfold find_entry, find_all_entries. rewrite Hr.
  change (mbind (M:=outcome) ?k (Ret ?x)) with (k x). cbv beta. destruct r as [p|].
  - destruct Hspec as (e & He & Hk). rewrite He. exists (Some e). split_and!; [done|by eapply list_elem_of_lookup_2|done|].
    f_equal. eapply scan_collects; [apply (ok_sorted _ _ Hok)|done..].
  - exists None. split_and!; [done|done|]. f_equal. symmetry. by apply filter_none, Forall_forall.
Qed.

(** ** What the parser accepts *)

Lemma try_bind_Ok {E A B} (m : outcome (result E A)) (g : A -> outcome (result E B)) r :
  try_bind m g = Ret (Ok r) -> exists a, m = Ret (Ok a) /\ g a = Ret (Ok r).
Proof. destruct m as [[a|e]|]; [eauto|done..]. Qed.

Lemma read_exact_inv data p n l : read_exact data p n = Ok l -> length l = n /\ (is_bytes data -> is_bytes l).
Proof.
  unfold read_exact. destruct (Nat.leb_spec (p + n) (length data)); [|done]. intros [= <-].
  split; [rewrite length_slice; lia|]. by apply slice_bytes.
Qed.

Lemma nth_u8 i l : is_bytes l -> u8 (nth i l 0).
Proof.
  intros H. destruct (Nat.lt_ge_cases i (length l)).
  - unfold is_bytes in H. rewrite List.Forall_forall in H. apply H. by apply nth_In.
  - rewrite nth_overflow by done. done.
Qed.

Definition footer_bytes (f : IndexFooter) : Prop := u8 (ekey_length f) /\ u32 (element_count f) /\ (length (footer_hash f) <= 255)%nat.

Lemma read_footer_at_inv data f n :
  is_bytes data -> read_footer_at data = Ok (f, n) -> footer_bytes f /\ n = (20 + length (footer_hash f))%nat /\ (n <= length data)%nat.
Proof.
  intros Hd. unfold read_footer_at, seek_end. case_match; [done|]. cbn [mbind result_bind].
  destruct (read_exact data _ 1) as [b|] eqn:Eb; [|done]. cbn [mbind result_bind]. apply read_exact_inv in Eb as [_ Bb].
  destruct (Nat.ltb_spec (length data) (MIN_FOOTER_SIZE + Z.to_nat (nth 0 b 0))); [done|]. cbn [mbind result_bind].
  destruct (read_exact data _ 20) as [fd|] eqn:Efd; [|done]. cbn [mbind result_bind]. apply read_exact_inv in Efd as [Lfd Bfd].
  destruct (read_exact data _ _) as [fh|] eqn:Efh; [|done]. cbn [mbind result_bind]. apply read_exact_inv in Efh as [Lfh _].
  intros [= <- <-]. pose proof (nth_u8 0 b (Bb Hd)) as Hb. unfold footer_bytes. cbn [footer_of ekey_length element_count footer_hash]. unfold in_u in Hb. unfold MIN_FOOTER_SIZE in *. split_and!; try lia.
  - by apply nth_u8, Bfd.
  - apply (from_le_bytes_in_u 4); [done|]. split; [rewrite length_slice; lia|]. by apply slice_bytes, Bfd.
Qed.

Lemma parse_chunk_keys fuel rs kb sb ob d :
  Forall (fun e => length (encoding_key e) = Z.to_nat kb) (parse_chunk fuel rs kb sb ob d).
Proof.
  revert d. induction fuel as [|fuel IH]; intros d; cbn [parse_chunk]; [constructor|]. case_match; [constructor|].
  destruct (entry_parse _ kb sb ob) as [e|] eqn:E; [|constructor]. case_match; [constructor|]. constructor; [|apply IH].
  unfold entry_parse in E. destruct (Nat.ltb_spec (length (take rs d)) (Z.to_nat kb)) as [|Hlen]; [done|]. repeat (case_match; [done|]).
  destruct (parse_offset _ _) as [[o ai]|]; [|done]. cbn [mbind result_bind] in E. injection E as <-. cbn. rewrite length_take. lia.
Qed.

Lemma read_chunks_keys n i ds f data es :
  read_chunks n i ds f data = Ret (Ok es) -> Forall (fun e => length (encoding_key e) = Z.to_nat (ekey_length f)) es.
Proof.
  revert i es. induction n as [|n IH]; intros i es; cbn [read_chunks]; [by intros [= <-]|]. case_match; [done|].
  intros (cd & _ & H2)%try_bind_Ok. apply try_bind_Ok in H2 as (rest & Hr & [= <-]).
  apply Forall_app. split; [apply parse_chunk_keys|by eapply IH].
Qed.

Lemma read_toc_blocks n data p k keys : read_toc n data p k = Ok keys -> blocks_of k keys.
Proof.
  revert p keys. induction n as [|n IH]; intros p keys; cbn [read_toc]; [intros [= <-]; constructor|].
  destruct (read_exact data p k) as [b|] eqn:E; [|done]. cbn [mbind result_bind]. destruct (read_toc n _ _ _) as [ks|] eqn:E2; [|done].
  cbn [mbind result_bind]. intros [= <-]. constructor; [by apply read_exact_inv in E as [? _]|by eapply IH].
Qed.

Lemma read_footer_inv md5 data f n : read_footer md5 data = Ret (Ok (f, n)) -> read_footer_at data = Ok (f, n) /\ validate_format f = Ok tt.
Proof.
  unfold read_footer. intros ([f' n'] & [= E] & H)%try_bind_Ok. case_match; [case_match; done|].
  apply try_bind_Ok in H as ([] & [= Ev] & [= <- <-]). done.
Qed.

(** The widths that follow from the checks of the footer. *)
Lemma checked_footer f :
  validate_format f = Ok tt -> footer_bytes f ->
  widths_ok (ekey_length f) (offset_bytes f) /\ size_bytes f = 4 /\ footer_hash_bytes f = 8 /\ page_size_kb f = 4 /\
  records_per_block f = Ret (CHUNK_SIZE / rsize (ekey_length f) (offset_bytes f))%nat /\
  (0 < CHUNK_SIZE / rsize (ekey_length f) (offset_bytes f))%nat.
Proof.
  intros Hv (Hk & _ & _). apply validate_format_inv in Hv as (_ & _ & Hp & Ho & Hs & Hk1 & Hk2 & H8). unfold in_u in Hk.
  assert (widths_ok (ekey_length f) (offset_bytes f)) as Hw by (unfold widths_ok; lia).
  pose proof (rsize_pos _ _ Hw) as Hr. split_and!; try done.
  - unfold records_per_block, record_size, block_size. rewrite Hs, Hp. change (Z.to_nat (4 * 1024)) with CHUNK_SIZE.
    fold (rsize (ekey_length f) (offset_bytes f)). destruct (rsize _ _); [lia|done].
  - apply Nat.div_str_pos. unfold CHUNK_SIZE. lia.
Qed.

Lemma parse_footer md5 data index :
  parse md5 data = Ret (Ok index) -> exists n, read_footer_at data = Ok (footer index, n).
Proof.
  unfold parse. intros ([f n] & Hf & H)%try_bind_Ok. apply read_footer_inv in Hf as [Hf _]. exists n. rewrite Hf.
  apply try_bind_Ok in H as ([] & _ & H). destruct (records_per_block f); [|done]. change (mbind (M:=outcome) ?k (Ret ?x)) with (k x) in H. cbv beta in H.
  case_match; [done|]. case_match; [done|]. apply try_bind_Ok in H as (keys & _ & H). apply try_bind_Ok in H as (es & _ & H).
  case_match; [done|]. by apply try_bind_Ok in H as ([] & _ & [= <-]).
Qed.

Lemma accepted_index_ok md5 data index :
  footer_bytes (footer index) -> parse md5 data = Ret (Ok index) -> exists per, index_ok per index.
Proof.
  intros Hfb Hparse. pose proof (parse_footer md5 data index Hparse) as [n' Hf']. revert Hparse.
  unfold parse. intros ([f n] & Hf & H)%try_bind_Ok. apply read_footer_inv in Hf as [Hf Hv].
  rewrite Hf' in Hf. injection Hf as Hf _. rewrite Hf in Hfb. destruct (checked_footer f Hv Hfb) as (Hw & _ & _ & _ & Hper & Hp).
  set (per := (CHUNK_SIZE / _)%nat) in *. apply try_bind_Ok in H as ([] & _ & H). rewrite Hper in H.
  change (mbind (M:=outcome) ?k (Ret ?x)) with (k x) in H. cbv beta in H. rewrite (proj2 (Nat.eqb_neq _ _)) in H by lia.
  clear Hf Hf'. case_match; [done|]. apply try_bind_Ok in H as (keys & [= Hkeys] & H). apply try_bind_Ok in H as (es & Hes & H).
  destruct (is_sorted es) eqn:Hs; [|done]. cbn [negb] in H. apply try_bind_Ok in H as ([] & Hval & [= <-]).
  unfold validate in Hval. cbn [footer entries CdnIndex.toc] in Hval. case_match; [done|]. rewrite Hv, Hs in Hval. cbn [try_bind negb] in Hval.
  unfold validate_toc_consistency in Hval. cbn [footer entries CdnIndex.toc] in Hval. rewrite Hper in Hval.
  change (mbind (M:=outcome) ?k (Ret ?x)) with (k x) in Hval. cbv beta in Hval. rewrite (proj2 (Nat.eqb_neq _ _)) in Hval by lia.
  destruct (Nat.eqb_spec (length keys) (div_ceil (length es) per)) as [Lk|]; [|done]. cbn [negb] in Hval.
  destruct (toc_matches per es 0 keys) eqn:Hm; [|done].
  assert (fits per (length keys) es) as Hfit by (rewrite Lk; by apply div_ceil_fits).
  exists per. constructor; cbn [footer entries CdnIndex.toc]; try done.
  - by apply is_sorted_spec.
  - by eapply read_chunks_keys.
  - by eapply read_toc_blocks.
  - intros i Hi. by apply (toc_matches_lookup per es 0 keys i).
Qed.

Lemma parse_index_ok md5 data index :
  is_bytes data -> parse md5 data = Ret (Ok index) -> exists per, index_ok per index.
Proof.
  intros Hd Hp. destruct (parse_footer md5 data index Hp) as [n Hf]. apply read_footer_at_inv in Hf as [Hfb _]; [|done].
  by eapply accepted_index_ok.
Qed.

(** ** Panics of the parser *)

Lemma file_size_inv f size :
  validate_format f = Ok tt -> footer_bytes f -> validate_file_size f (Z.of_nat size) = Ret (Ok tt) ->
  let cc := div_ceil (Z.to_nat (element_count f)) (CHUNK_SIZE / rsize (ekey_length f) (offset_bytes f)) in
  size = (cc * CHUNK_SIZE + cc * (Z.to_nat (ekey_length f) + 8) + 28)%nat.
Proof.
  intros Hv Hb. destruct (checked_footer f Hv Hb) as (Hw & _ & H8 & Hpg & Hper & Hp). destruct Hb as (_ & Hec & _). unfold in_u in Hec.
  unfold validate_file_size. rewrite Hper. change (mbind (M:=outcome) ?k (Ret ?x)) with (k x). cbv beta.
  rewrite (proj2 (Nat.eqb_neq _ _)) by lia. rewrite H8, Hpg. rewrite <- (Z2Nat.id (element_count f)) by lia. rewrite (div_ceil_Z _ _ Hp), Nat2Z.id.
  match goal with |- Ret (if negb (?a =? ?b) then _ else _) = _ -> _ => destruct (Z.eqb_spec a b) as [E|Hne]; [|done] end.
  intros _. generalize dependent (div_ceil (Z.to_nat (element_count f)) (CHUNK_SIZE / rsize (ekey_length f) (offset_bytes f))).
  intros m E. unfold CHUNK_SIZE, MIN_FOOTER_SIZE in *. destruct Hw. cbn zeta. lia.
Qed.

Lemma read_chunks_no_panic n i ds f data :
  ((i + n) * block_size f <= ds + block_size f)%nat -> read_chunks n i ds f data <> Panic.
Proof.
  revert i. induction n as [|n IH]; intros i H; cbn [read_chunks]; [done|].
  assert ((n =? 0)%nat && (ds <? i * block_size f)%nat = false) as ->.
  { destruct (Nat.eqb_spec n 0) as [->|]; [|done]. apply Nat.ltb_ge. nia. }
  destruct (read_exact _ _ _); [|done]. cbn [try_bind]. specialize (IH (S i)).
  destruct (read_chunks n (S i) ds f data) as [[]|]; [done|done|]. exfalso. by apply IH; [nia|].
Qed.

Lemma validate_no_panic md5 index per :
  validate_format (footer index) = Ok tt -> records_per_block (footer index) = Ret per -> (0 < per)%nat -> validate md5 index <> Panic.
Proof.
  intros Hv Hper Hp. unfold validate. case_match; [done|]. rewrite Hv. cbn [try_bind]. case_match; [done|].
  unfold validate_toc_consistency. rewrite Hper. change (mbind (M:=outcome) ?k (Ret ?x)) with (k x). cbv beta.
  rewrite (proj2 (Nat.eqb_neq _ _)) by lia. by case_match.
Qed.

(** Behind a footer that passed its checks nothing panics. *)
Lemma parse_no_panic md5 data f n :
  is_bytes data -> read_footer md5 data = Ret (Ok (f, n)) -> parse md5 data <> Panic.
Proof.
  intros Hd Hrf. unfold parse. rewrite Hrf. cbn [try_bind]. apply read_footer_inv in Hrf as [Hf Hv].
  apply read_footer_at_inv in Hf as (Hfb & Hn & Hlen); [|done].
  destruct (checked_footer f Hv Hfb) as (Hw & _ & H8 & Hpg & Hper & Hp).
  destruct (validate_file_size f (Z.of_nat (length data))) as [[[]|]|] eqn:Esz; [|done|].
  2: { unfold validate_file_size in Esz. rewrite Hper in Esz. change (mbind (M:=outcome) ?k (Ret ?x)) with (k x) in Esz. cbv beta in Esz.
       rewrite (proj2 (Nat.eqb_neq _ _)) in Esz by lia. done. }
  apply file_size_inv in Esz; [|done..]. cbn [try_bind]. rewrite Hper. change (mbind (M:=outcome) ?k (Ret ?x)) with (k x). cbv beta.
  rewrite (proj2 (Nat.eqb_neq _ _)) by lia. rewrite H8. change (Z.to_nat 8) with 8%nat. cbn zeta in Esz.
  set (per := (CHUNK_SIZE / _)%nat) in *. set (cc := div_ceil _ per) in *. destruct Hfb as (_ & _ & Hfh).
  assert (block_size f = CHUNK_SIZE) as Hbs by (unfold block_size; by rewrite Hpg).
  assert (cc = 0 \/ CHUNK_SIZE <= cc * CHUNK_SIZE)%nat as Hcc by (destruct cc; lia).
  rewrite (proj2 (Nat.ltb_ge _ _)) by (unfold CHUNK_SIZE in *; lia).
  destruct (read_toc _ _ _ _) as [keys|]; [|done]. cbn [try_bind].
  destruct (read_chunks cc 0 _ f data) as [[es|]|] eqn:Erc; [|done|].
  - cbn [try_bind]. case_match; [done|].
    destruct (validate md5 {| entries := es; toc := keys; footer := f |}) as [[]|] eqn:Ev; [done|done|].
    exfalso. by apply (validate_no_panic md5 {| entries := es; toc := keys; footer := f |} per Hv Hper Hp).
  - exfalso. revert Erc. apply read_chunks_no_panic. rewrite Hbs. unfold CHUNK_SIZE in *. lia.
Qed.

(** Parsing arbitrary bytes as an archive index panics exactly when the footer hash
    does not match and fewer than eight bytes of it are stored (the error value slices
    eight); in every other case the parser returns an index or an error: no size,
    count, width or table it reads takes it out of bounds. *)
Theorem parse_panics_only_on_short_hash (md5 : bytes -> bytes) (data : bytes) :
  (forall d, is_array 16 (md5 d)) -> is_bytes data ->
  parse md5 data = Panic <->
  exists f n, read_footer_at data = Ok (f, n) /\ is_valid md5 f = false /\ (length (footer_hash f) < 8)%nat.
Proof.
  intros Hmd5 Hd. split.
  - intros HP. destruct (read_footer md5 data) as [[[f n]|]|] eqn:Erf.
    + exfalso. by eapply parse_no_panic.
    + unfold parse in HP. by rewrite Erf in HP.
    + unfold read_footer in Erf. destruct (read_footer_at data) as [[f n]|]; [|done]. cbn [try_bind] in Erf. exists f, n.
      destruct (is_valid md5 f); cbn [negb] in Erf; [by destruct (validate_format f)|]. split_and!; [done..|].
      rewrite footer_hash_length in Erf by done. rewrite Nat.min_id in Erf. destruct (Nat.ltb_spec (length (footer_hash f)) 8); done.
  - intros (f & n & Ef & Ev & Hl). unfold parse, read_footer. rewrite Ef. cbn [try_bind]. rewrite Ev. cbn [negb].
    rewrite footer_hash_length by done. by rewrite (proj2 (Nat.ltb_lt _ _)).
Qed.

(** A hundred zero bytes, the example of the crate documentation, panic. *)
Lemma parse_zeros_panics (md5 : bytes -> bytes) : (forall d, is_array 16 (md5 d)) -> parse md5 (zeros 100) = Panic.
Proof.
  intros Hmd5. unfold parse, read_footer. change (read_footer_at (zeros 100)) with (@Ok ArchiveError _ (footer_of (zeros 20) [], 20%nat)).
  cbn [try_bind]. unfold is_valid. cbn [footer_of footer_hash length Nat.min Nat.eqb negb]. by rewrite footer_hash_length.
Qed.

(** C27: On every archive index the parser accepts, the two-level search (the table of
    contents, then the block) never panics, finds an entry with exactly the key asked
    for whenever there is one and nothing otherwise, whatever the length of the key,
    and the scan around it returns all entries with that key in file order. *)
Theorem find_entry_exact (md5 : bytes -> bytes) (data : bytes) (index : ArchiveIndex) (key : bytes) :
  is_bytes data -> parse md5 data = Ret (Ok index) ->
  exists r, find_entry index key = Ret r /\
    match r with
    | Some e => e ∈ entries index /\ encoding_key e = key
    | None => forall e, e ∈ entries index -> encoding_key e <> key
    end /\
    find_all_entries index key = Ret (filter (fun e => encoding_key e = key) (entries index)).
Proof.
  intros Hd Hparse. destruct (parse_index_ok md5 data index Hd Hparse) as [per Hok]. by apply (find_entry_spec per).
Qed.

(** The archive index builder, for every width of keys and offsets of the format:
    it writes a file the parser reads back as the very index the builder returns, with
    the given entries in key order; the other writer, which serialises an index in
    memory, produces the same bytes. *)
Theorem cdn_index_roundtrip (md5 : bytes -> bytes) (b : ArchiveIndexBuilder) :
  (forall d, is_array 16 (md5 d)) -> builder_ok b ->
  exists index file,
    builder_build md5 b = Ret (Ok (index, file)) /\ entries index ≡ₚ b_entries b /\ sorted_by encoding_key (entries index) /\
    parse md5 file = Ret (Ok index) /\ build md5 index = Ret (Ok file).
Proof.
  intros Hmd5 Hb. exists (built_index md5 b), (built_file md5 b).
  split_and!; [by apply builder_build_eq|apply sort_by_key_perm|apply sort_by_key_sorted|by apply parse_built|by apply build_eq].
Qed.

(** ** Blocks on demand *)

Lemma load_entries_eq fuel d : load_entries fuel d = Ok (parse_chunk fuel 24 16 4 4 d).
Proof.
  revert d. induction fuel as [|fuel IH]; intros d; cbn [load_entries parse_chunk]; [done|]. unfold ENTRY_SIZE.
  destruct (Nat.ltb_spec (length d) 24); [done|]. unfold entry_parse. rewrite length_take, Nat.min_l by lia.
  change (Z.to_nat 16) with 16%nat. change (Z.to_nat 4) with 4%nat. cbn [Nat.ltb Nat.leb Nat.add Z.eqb Pos.eqb negb mbind result_bind parse_offset].
  case_match; [done|]. by rewrite IH.
Qed.

Lemma find_entry_search per index s :
  index_ok per index ->
  find_entry index s = Ret (match chunk_of_key (toc index) s with
                            | Some c => search encoding_key (block_entries per index c) s | None => None end).
Proof.
  intros Hok. unfold find_entry, binary_search_key, search. rewrite (ok_records _ _ Hok). change (mbind (M:=outcome) ?k (Ret ?x)) with (k x). cbv beta.
  destruct (chunk_of_key (toc index) s) as [c|] eqn:Ec; [|done].
  destruct (chunk_slice per index Hok c (chunk_of_key_lt per index Hok s c Ec)) as [-> ->].
  pose proof (binary_search_spec encoding_key (block_entries per index c) s (block_sorted per index Hok c)) as Hb.
  destruct (binary_search encoding_key (block_entries per index c) s) as [i|i]; [|done].
  destruct Hb as (e & He & _). change (mbind (M:=outcome) ?k (Ret ?x)) with (k x). cbv beta. rewrite He.
  by rewrite (block_entries_lookup per index c i e He).
Qed.

(** A sequence of lookups, each one with the blocks the earlier ones have loaded. *)
Fixpoint find_many (c : ChunkedArchiveIndex) (keys : list bytes) : outcome (list (aresult (option IndexEntry))) :=
  match keys with
  | [] => Ret []
  | key :: keys => '(r, c) ← chunked_find_entry c key; rs ← find_many c keys; Ret (r :: rs)
  end.

(** Blocks already loaded are those of the index, and so are those still in the file. *)
Record chunked_ok (per : nat) (index : ArchiveIndex) (c : ChunkedArchiveIndex) : Prop := {
  ck_toc : c_toc c = toc index;
  ck_length : length (c_chunks c) = length (toc index);
  ck_loaded : forall i es, c_chunks c !! i = Some (Some es) -> es = block_entries per index i;
  ck_file : forall i, (i < length (toc index))%nat ->
    exists d, read_exact (c_file c) (i * CHUNK_SIZE) CHUNK_SIZE = Ok d /\ load_entries (length d) d = Ok (block_entries per index i);
}.

Lemma load_chunk_ok per index c i :
  chunked_ok per index c -> (i < length (toc index))%nat ->
  exists c', load_chunk c i = Ret (Ok (block_entries per index i), c') /\ chunked_ok per index c'.
Proof.
  intros Hc Hi. pose proof Hc as [Ht Hl Hld Hfl]. unfold load_chunk.
  destruct (lookup_lt_is_Some_2 (c_chunks c) i ltac:(lia)) as [o Ho]. rewrite Ho. destruct o as [es|].
  - exists c. by rewrite (Hld i es Ho).
  - destruct (Hfl i Hi) as (d & Hd & He). rewrite Hd. cbn [mbind result_bind]. rewrite He. eexists; split; [done|].
    constructor; cbn [c_toc c_chunks c_file]; [done|by rewrite length_insert| |done].
    intros j es Hj. apply list_lookup_insert_Some in Hj as [(-> & [= <-] & _)|(_ & Hj)]; [done|by apply Hld].
Qed.

Lemma find_many_ok per index c keys :
  index_ok per index -> chunked_ok per index c ->
  exists rs, find_many c keys = Ret rs /\ Forall2 (fun key r => exists o, r = Ok o /\ find_entry index key = Ret o) keys rs.
Proof.
  intros Hok. revert c. induction keys as [|key keys IH]; intros c Hc; cbn [find_many]; [eauto|].
  assert (exists o c', chunked_find_entry c key = Ret (Ok o, c') /\ find_entry index key = Ret o /\ chunked_ok per index c') as (o & c' & -> & Ho & Hc').
  { rewrite (find_entry_search per index key Hok). unfold chunked_find_entry. rewrite (ck_toc _ _ _ Hc).
    destruct (chunk_of_key (toc index) key) as [i|] eqn:Ei; [|by eauto].
    destruct (load_chunk_ok per index c i Hc (chunk_of_key_lt per index Hok key i Ei)) as (c' & -> & Hc').
    change (mbind (M:=outcome) ?k (Ret ?x)) with (k x). cbv beta iota. eauto. }
  change (mbind (M:=outcome) ?k (Ret ?x)) with (k x). cbv beta iota. destruct (IH c' Hc') as (rs & -> & Hrs).
  change (mbind (M:=outcome) ?k (Ret ?x)) with (k x). cbv beta. eexists; split; [done|]. constructor; [eauto|done].
Qed.

Section Chunked.
Context (md5 : bytes -> bytes) (Hmd5 : forall d, is_array 16 (md5 d)).
Context (b : ArchiveIndexBuilder) (Hb : builder_ok b).

(** The layout parameters of the written file. *)
Abbreviation per := (CHUNK_SIZE / rsize (b_key_size b) (b_offset_bytes b))%nat.

Lemma built_index_ok : index_ok per (built_index md5 b).
Proof.
  pose proof Hb as (_ & _ & Hw & _). assert (footer_bytes (footer (built_index md5 b))) as Hfb.
  { pose proof (built_index_footer_ok md5 Hmd5 b Hb) as (_ & _ & He & _ & Hh). unfold footer_bytes. cbn [footer built_index].
    rewrite Hh, footer_hash_length by done. split_and!; [|done|lia]. destruct Hw. change (u8 (b_key_size b)). unfold in_u. lia. }
  destruct (accepted_index_ok md5 _ _ Hfb (parse_built md5 Hmd5 b Hb)) as [per' Hok]. pose proof (ok_records _ _ Hok) as Hr.
  rewrite (records_per_block_per md5 (footer (built_index md5 b)) (built_index_footer_ok md5 Hmd5 b Hb) Hw) in Hr.
  injection Hr as <-. done.
Qed.

Lemma open_built :
  exists c, open md5 (built_file md5 b) = Ret (Ok c) /\ c_toc c = toc (built_index md5 b) /\
    c_chunks c = replicate (length (toc (built_index md5 b))) None /\ c_file c = built_file md5 b.
Proof.
  pose proof Hb as (H8 & _ & Hw & Hes0 & Hn). set (f := built_index_footer md5 b).
  pose proof (built_index_footer_ok md5 Hmd5 b Hb) as Hf. destruct (built_hashes_ok md5 Hmd5 b) as [B1 B2].
  pose proof (built_entries_ok b Hb) as Hes. destruct (built_per b Hb) as [Hp _].
  pose proof (written_length md5 Hmd5 f Hf Hw (built_entries b) (built_hashes md5 b) Hes B1 B2) as L.
  unfold open. assert (read_footer md5 (built_file md5 b) = Ret (Ok (f, 28%nat))) as ->.
  { unfold built_file, written. rewrite !app_assoc. by apply read_footer_written. }
  cbn [try_bind]. rewrite (records_per_block_per md5 f Hf Hw). change (mbind (M:=outcome) ?k (Ret ?x)) with (k x). cbv beta.
  change (ekey_length f) with (b_key_size b) in *. change (offset_bytes f) with (b_offset_bytes b) in *.
  rewrite (proj2 (Nat.eqb_neq _ _)) by lia. rewrite (built_count md5 b Hb : element_count f = _), Nat2Z.id. change (footer_hash_bytes f) with (b_hash_bytes b).
  rewrite H8. change (Z.to_nat 8) with 8%nat. set (n := div_ceil (length (built_entries b)) per) in *.
  unfold seek_end. fold f in L. change (written f (built_entries b) (built_hashes md5 b)) with (built_file md5 b) in L. rewrite L.
  rewrite (proj2 (Nat.ltb_ge _ _)) by lia. cbn [try_bind].
  replace (n * CHUNK_SIZE + (n * Z.to_nat (b_key_size b) + (n * 8 + 28)) - (28 + n * (Z.to_nat (b_key_size b) + 8)))%nat with (n * CHUNK_SIZE)%nat by lia.
  assert (length (built_toc b) = n) as Lt by apply (keys_length f Hw (built_entries b)).
  assert (read_toc n (built_file md5 b) (n * CHUNK_SIZE) (Z.to_nat (b_key_size b)) = Ok (built_toc b)) as ->.
  { rewrite <- Lt at 1. pose proof (blocks_length f Hw (built_entries b) Hes) as Lb.
    change (div_ceil _ _) with n in Lb at 2. rewrite <- Lb. apply read_toc_written. by apply (keys_blocks f). }
  cbn [try_bind]. eexists; split; [done|]. cbn [c_toc c_chunks c_file]. by rewrite <- Lt.
Qed.

Lemma built_read_block i :
  (i < length (built_groups b))%nat ->
  exists g, built_groups b !! i = Some g /\
    read_exact (built_file md5 b) (i * CHUNK_SIZE) CHUNK_SIZE = Ok (block (b_key_size b) (b_offset_bytes b) g) /\
    Forall (entry_ok (b_key_size b) (b_offset_bytes b)) g /\ (length g <= per)%nat.
Proof.
  intros Hi. destruct (lookup_lt_is_Some_2 _ _ Hi) as [g Hg]. exists g. pose proof Hb as (_ & _ & Hw & _).
  pose proof (built_index_footer_ok md5 Hmd5 b Hb) as Hf. pose proof (built_entries_ok b Hb) as Hes.
  
  pose proof (groups_forall _ per (div_ceil (length (built_entries b)) per) _ Hes) as Hgs. pose proof (groups_short per (div_ceil (length (built_entries b)) per) (built_entries b)) as Hsh.
  assert (blocks_of CHUNK_SIZE (map (block (b_key_size b) (b_offset_bytes b)) (built_groups b))) as Bb.
  { apply Forall_map, Forall_forall. intros g' Hg'. rewrite Forall_forall in Hgs, Hsh. specialize (Hsh g' Hg').
    destruct (built_per b Hb). apply block_length; [done|by apply Hgs|nia]. }
  split; [done|]. split; [|split; [eapply Forall_lookup_1 in Hgs; done|eapply Forall_lookup_1 in Hsh; done]].
  pose proof (slice_concat CHUNK_SIZE _ i (block (b_key_size b) (b_offset_bytes b) g) Bb) as Hsl. rewrite list_lookup_fmap, Hg in Hsl. specialize (Hsl eq_refl).
  pose proof (length_concat_blocks _ _ Bb) as Lc. rewrite length_map in Lc.
  unfold read_exact, built_file, written. rewrite length_app. change (map (block (ekey_length (built_index_footer md5 b)) _) _) with (map (block (b_key_size b) (b_offset_bytes b)) (built_groups b)).
  rewrite (proj2 (Nat.leb_le _ _)) by nia. f_equal. rewrite <- Hsl. unfold slice. rewrite drop_app_le by nia. apply take_app_le.
  rewrite length_drop. nia.
Qed.

End Chunked.

Lemma open_chunked_ok md5 b c :
  (forall d, is_array 16 (md5 d)) -> builder_ok b -> b_key_size b = 16 -> b_offset_bytes b = 4 ->
  c_toc c = toc (built_index md5 b) -> c_chunks c = replicate (length (toc (built_index md5 b))) None -> c_file c = built_file md5 b ->
  chunked_ok (CHUNK_SIZE / rsize (b_key_size b) (b_offset_bytes b)) (built_index md5 b) c.
Proof.
  intros Hmd5 Hb Hk Ho Ht Hc Hfile. pose proof Hb as (_ & _ & Hw & _).
  assert (length (toc (built_index md5 b)) = length (built_groups b)) as Lt.
  { unfold built_groups. rewrite groups_length. apply (keys_length (built_index_footer md5 b) Hw (built_entries b)). }
  constructor; [done|by rewrite Hc, length_replicate| |].
  - intros i es. rewrite Hc. by intros [? _]%lookup_replicate.
  - intros i Hi. rewrite Hfile. rewrite Lt in Hi. destruct (built_read_block md5 Hmd5 b Hb i Hi) as (g & Hg & Hr & Hgo & Hgl).
    eexists; split; [exact Hr|]. rewrite load_entries_eq. f_equal. destruct (built_per b Hb) as [Hp Hper].
    pose proof (parse_block (b_key_size b) (b_offset_bytes b) Hw g Hgo ltac:(nia)) as HP. rewrite Hk, Ho in HP |- *. change (rsize 16 4) with 24%nat in HP. rewrite HP.
    unfold built_groups in Hg, Hi. rewrite groups_length in Hi. rewrite groups_lookup in Hg by done. injection Hg as <-.
    unfold block_entries. by rewrite Hk, Ho.
Qed.

(** For an index with 16-byte keys and 4-byte offsets, opening the written file for
    loading on demand succeeds, and any sequence of lookups, each reusing the blocks the
    earlier ones loaded, gives the answers of the index held in memory. *)
Theorem chunked_index_agrees (md5 : bytes -> bytes) (b : ArchiveIndexBuilder) (index : ArchiveIndex) (file : bytes) (keys : list bytes) :
  (forall d, is_array 16 (md5 d)) -> builder_ok b -> b_key_size b = 16 -> b_offset_bytes b = 4 ->
  builder_build md5 b = Ret (Ok (index, file)) ->
  exists c rs, open md5 file = Ret (Ok c) /\ find_many c keys = Ret rs /\
    Forall2 (fun key r => exists o, r = Ok o /\ find_entry index key = Ret o) keys rs.
Proof.
  intros Hmd5 Hb Hk Ho Hbuild. rewrite (builder_build_eq md5 b Hb) in Hbuild. injection Hbuild as <- <-.
  destruct (open_built md5 Hmd5 b Hb) as (c & Hopen & H1 & H2 & H3). exists c.
  destruct (find_many_ok _ (built_index md5 b) c keys (built_index_ok md5 Hmd5 b Hb) (open_chunked_ok md5 b c Hmd5 Hb Hk Ho H1 H2 H3))
    as (rs & Hrs & Hall). eauto.
Qed.

(** ** Concrete indices *)

Definition md5_zero (d : bytes) : bytes := zeros 16.

Lemma md5_zero_ok d : is_array 16 (md5_zero d).
Proof. split; [done|apply zeros_bytes]. Qed.

Definition sample_builder : ArchiveIndexBuilder := add_entry (replicate 16 9) 5 70000 (add_entry (replicate 16 3) 7 4096 builder_new).

Lemma sample_builder_ok : builder_ok sample_builder.
Proof. unfold builder_ok, widths_ok. split_and!; try done; [by right; left|decide_now]. Qed.

Definition run_file (b : ArchiveIndexBuilder) : ArchiveIndex * bytes :=
  match builder_build md5_zero b with
  | Ret (Ok r) => r
  | _ => ({| entries := []; toc := []; footer := footer_new md5_zero [] 0 |}, [])
  end.

Lemma cdn_index_roundtrip_witness :
  exists index file, builder_build md5_zero sample_builder = Ret (Ok (index, file)) /\ entries index ≡ₚ b_entries sample_builder /\
    sorted_by encoding_key (entries index) /\ parse md5_zero file = Ret (Ok index) /\ build md5_zero index = Ret (Ok file).
Proof. exact (cdn_index_roundtrip md5_zero sample_builder md5_zero_ok sample_builder_ok). Defined.

Lemma find_entry_exact_witness :
  exists r, find_entry (run_file sample_builder).1 (replicate 16 9) = Ret r /\
    match r with
    | Some e => e ∈ entries (run_file sample_builder).1 /\ encoding_key e = replicate 16 9
    | None => forall e, e ∈ entries (run_file sample_builder).1 -> encoding_key e <> replicate 16 9
    end /\
    find_all_entries (run_file sample_builder).1 (replicate 16 9) =
      Ret (filter (fun e => encoding_key e = replicate 16 9) (entries (run_file sample_builder).1)).
Proof.
  apply (find_entry_exact md5_zero (run_file sample_builder).2 (run_file sample_builder).1 (replicate 16 9)); [decide_now|vm_compute; reflexivity].
Defined.

Lemma chunked_index_agrees_witness :
  exists c rs, open md5_zero (run_file sample_builder).2 = Ret (Ok c) /\ find_many c [replicate 16 9; replicate 16 1] = Ret rs /\
    Forall2 (fun key r => exists o, r = Ok o /\ find_entry (run_file sample_builder).1 key = Ret o) [replicate 16 9; replicate 16 1] rs.
Proof.
  apply (chunked_index_agrees md5_zero sample_builder); [apply md5_zero_ok|apply sample_builder_ok|reflexivity|reflexivity|vm_compute; reflexivity].
Defined.

Lemma parse_panics_only_on_short_hash_witness :
  parse md5_zero (zeros 100) = Panic <->
  exists f n, read_footer_at (zeros 100) = Ok (f, n) /\ is_valid md5_zero f = false /\ (length (footer_hash f) < 8)%nat.
Proof. apply (parse_panics_only_on_short_hash md5_zero (zeros 100)); [apply md5_zero_ok|apply zeros_bytes]. Defined.

(** [write_to], which the format trait uses, always writes 4-byte offsets: an archive
    group it writes parses, and the entry has another place. *)
Definition group_builder : ArchiveIndexBuilder := set_entries [new_archive_group (replicate 16 9) 5 2 4096] (with_config 16 6 4).

Definition place (e : IndexEntry) : option Z * Z := (archive_index e, offset e).

Lemma write_to_moves_group_entries :
  ('(index, _) ←? builder_build md5_zero group_builder;
   file ←? write_to md5_zero index;
   index' ←? parse md5_zero file;
   Ret (Ok (map place (entries index), map place (entries index')))) = Ret (Ok ([(Some 2, 4096)], [(Some 0, 268435456)])).
Proof. vm_compute. reflexivity. Qed.

(** Loading on demand takes every file for one with 16-byte keys and 4-byte offsets:
    in an index with 9-byte keys it finds nothing. *)
Definition short_builder : ArchiveIndexBuilder := add_entry (replicate 9 3) 7 4096 (with_config 9 4 4).

Lemma chunked_misses_short_keys :
  ('(index, file) ←? builder_build md5_zero short_builder;
   c ←? open md5_zero file;
   found ← find_entry index (replicate 9 3);
   on_demand ← find_many c [replicate 9 3];
   Ret (Ok (map place (match found with Some e => [e] | None => [] end), on_demand))) = Ret (Ok ([(None, 4096)], [Ok None])).
Proof. vm_compute. reflexivity. Qed.

(** The builder accepts an entry that looks like padding, and keys of another length
    than announced; the files it then writes are rejected. *)
Definition build_and_parse (b : ArchiveIndexBuilder) : outcome (aresult (list IndexEntry)) :=
  '(_, file) ←? builder_build md5_zero b; index ←? parse md5_zero file; Ret (Ok (entries index)).

Lemma padding_entry_breaks_file : build_and_parse (add_entry (zeros 16) 0 0 sample_builder) = Ret (Err TocInconsistent).
Proof. vm_compute. reflexivity. Qed.

Lemma wrong_key_length_breaks_file :
  build_and_parse (add_entry (replicate 9 3) 7 4096 builder_new) = Ret (Err TocInconsistent).
Proof. vm_compute. reflexivity. Qed.
