(* ===== verification/ArchiveGroup.v ===== *)
(** * Archive groups

    One index over many archives (src/crates/cascette-formats/src/archive/archive_group.rs):
    entries whose six-byte offset holds the archive number and the offset in it, the
    builder that collects entries in a hash map, and the k-way merge of sorted indices
    with a binary heap. *)

From stdpp Require Import gmap.
From S2P Require Import Prelude Bytes Collections CdnIndex.
Import CdnIndex.
Local Open Scope Z_scope.

Module ArchiveGroup.

Record ArchiveGroupEntry := { g_key : bytes; g_archive_index : Z; g_offset : Z; g_size : Z }.

#[export] Instance ArchiveGroupEntry_eq_dec : EqDecision ArchiveGroupEntry.
Proof. solve_decision. Defined.

Definition combined_offset (e : ArchiveGroupEntry) : bytes := to_be_bytes 2 (g_archive_index e) ++ to_be_bytes 4 (g_offset e).

Definition parse_combined_offset (data : bytes) : aresult (Z * Z) :=
  if negb (length data =? 6)%nat then Err (InvalidFormat "Expected 6-byte offset")
  else Ok (from_be_bytes (take 2 data), from_be_bytes (drop 2 data)).

Record Group := { group_entries : list ArchiveGroupEntry; group_footer : IndexFooter }.

(** An entry of an index as an entry of a group; [offset as u32]. *)
Definition of_index_entry (archive_index : Z) (e : IndexEntry) : ArchiveGroupEntry :=
  {| g_key := encoding_key e; g_archive_index := archive_index; g_offset := wrap32 (offset e); g_size := size e |}.

Section Hashes.
Context (md5 : bytes -> bytes).

Definition assign_archive_index (key : bytes) : Z := from_be_bytes (take 2 (md5 key)).

Definition group_parse (data : bytes) : outcome (aresult Group) :=
  index ←? parse md5 data;
  if negb (footer_is_archive_group (footer index)) then Ret (Err (InvalidFormat "Not an archive-group"))
  else
    Ret (Ok {| group_entries := map (fun e => of_index_entry (default 0 (archive_index e)) e) (entries index);
               group_footer := footer index |}).

Definition group_find_entry (g : Group) (key : bytes) : option ArchiveGroupEntry := search g_key (group_entries g) key.

(** ** The builder: a hash map from keys to entries *)

Abbreviation GroupBuilder := (gmap (list Z) ArchiveGroupEntry).

Definition group_builder_new : GroupBuilder := ∅.

(** [entry(key).or_insert(e)]: the first entry of a key stays. *)
Definition group_add_entry (e : ArchiveGroupEntry) (b : GroupBuilder) : GroupBuilder :=
  match b !! g_key e with Some _ => b | None => <[g_key e := e]> b end.

Definition add_archive (archive_index : Z) (index : ArchiveIndex) (b : GroupBuilder) : GroupBuilder :=
  fold_left (fun b e => group_add_entry (of_index_entry archive_index e) b) (entries index) b.

Definition add_entry_with_hash_assignment (key : bytes) (offset size : Z) (b : GroupBuilder) : GroupBuilder :=
  group_add_entry {| g_key := key; g_archive_index := assign_archive_index key; g_offset := offset; g_size := size |} b.

Definition GROUP_ENTRY_SIZE : nat := 16 + 6 + 4.
Definition ENTRIES_PER_CHUNK : nat := (CHUNK_SIZE / GROUP_ENTRY_SIZE)%nat.

Definition group_row (e : ArchiveGroupEntry) : bytes := g_key e ++ to_be_bytes 4 (g_size e) ++ combined_offset e.

(** [chunk_data.resize(0x1000, 0)] behind the rows of a block. *)
Definition group_chunk (es : list ArchiveGroupEntry) : bytes := pad_to CHUNK_SIZE (concat (map group_row es)).

Definition last_group_key (es : list ArchiveGroupEntry) : list bytes :=
  match last es with Some e => [g_key e] | None => [] end.

(** The blocks of [build]: entries, bytes and hash of each. *)
Fixpoint group_chunks (n chunk_idx : nat) (es : list ArchiveGroupEntry) : outcome (list (list ArchiveGroupEntry * bytes * bytes)) :=
  match n with
  | O => Ret []
  | S n =>
      let start_idx := (chunk_idx * ENTRIES_PER_CHUNK)%nat in
      let end_idx := (((chunk_idx + 1) * ENTRIES_PER_CHUNK) `min` length es)%nat in
      if (end_idx <? start_idx)%nat then Panic
      else
        let part := take (end_idx - start_idx) (drop start_idx es) in
        hash ← calculate_block_hash md5 (group_chunk part) 8;
        rest ← group_chunks n (S chunk_idx) es;
        Ret ((part, group_chunk part, hash) :: rest)
  end.

Definition group_footer_of (toc_hash : bytes) (count : nat) : IndexFooter :=
  let f := {| toc_hash := pad_to 8 toc_hash; version := 1; reserved := [0; 0]; page_size_kb := 4; offset_bytes := 6;
              size_bytes := 4; ekey_length := 16; footer_hash_bytes := 8; element_count := wrap32 (Z.of_nat count);
              footer_hash := zeros 8 |} in
  with_footer_hash (calculate_footer_hash md5 f) f.

(** The part both builders share: table of contents, block hashes and footer behind
    the blocks. *)
Definition finish_group (es : list ArchiveGroupEntry) (out : bytes) (toc_keys block_hashes : list bytes) : outcome (aresult (Group * bytes)) :=
  let padded := map (pad_to 16) toc_keys in
  toc_hash ← calculate_toc_hash md5 padded block_hashes 8;
  let f := group_footer_of toc_hash (length es) in
  Ret (Ok ({| group_entries := es; group_footer := f |}, out ++ concat padded ++ concat block_hashes ++ footer_write f)).

(** [ArchiveGroupBuilder::build]; the number of blocks is computed from the bytes of
    all entries. *)
Definition group_build (b : GroupBuilder) : outcome (aresult (Group * bytes)) :=
  let es := sort_by_key g_key (map_to_list b).*2 in
  let total_data_size := (length es * GROUP_ENTRY_SIZE)%nat in
  let chunk_count := div_ceil total_data_size CHUNK_SIZE in
  chunks ← group_chunks chunk_count 0 es;
  finish_group es (concat (map (fun c => c.1.2) chunks)) (concat (map (fun c => last_group_key c.1.1) chunks)) (map snd chunks).

(** ** The k-way merge *)

Record HeapEntry := { h_entry : ArchiveGroupEntry; source_idx : nat; cursor : nat }.

Definition h_key (h : HeapEntry) : bytes := g_key (h_entry h).

(** [Ord for HeapEntry], reversed back: the smaller key, then the smaller source, is
    popped first. *)
Definition heap_compare (a b : HeapEntry) : comparison :=
  match lex_compare (h_key a) (h_key b) with Eq => Nat.compare (source_idx a) (source_idx b) | c => c end.

(** [BinaryHeap::pop]: the first element in that order, and the others. *)
Fixpoint heap_pop (heap : list HeapEntry) : option (HeapEntry * list HeapEntry) :=
  match heap with
  | [] => None
  | h :: heap =>
      match heap_pop heap with
      | None => Some (h, [])
      | Some (m, rest) => match heap_compare m h with Lt => Some (m, h :: rest) | _ => Some (h, heap) end
      end
  end.

(** The heap element for an entry of a source. *)
Definition heap_entry (archives : list (Z * ArchiveIndex)) (source_idx cursor : nat) : option HeapEntry :=
  '(archive_idx, index) ← archives !! source_idx;
  e ← entries index !! cursor;
  Some {| h_entry := of_index_entry archive_idx e; source_idx := source_idx; cursor := cursor |}.

Definition heap_push (o : option HeapEntry) (heap : list HeapEntry) : list HeapEntry :=
  match o with Some h => h :: heap | None => heap end.

Definition initial_heap (archives : list (Z * ArchiveIndex)) : list HeapEntry :=
  foldr (fun i heap => heap_push (heap_entry archives i 0) heap) [] (seq 0 (length archives)).

Record MergeState := {
  m_entries : list ArchiveGroupEntry;
  m_toc_keys : list bytes;
  m_block_hashes : list bytes;
  m_chunk_data : bytes;
  m_chunk_entry_count : nat;
  m_prev_key : option bytes;
  m_out : bytes;
}.

Definition merge_init : MergeState :=
  {| m_entries := []; m_toc_keys := []; m_block_hashes := []; m_chunk_data := []; m_chunk_entry_count := 0; m_prev_key := None; m_out := [] |}.

(** The block buffer padded, hashed, written and emptied. *)
Definition flush_chunk (st : MergeState) : MergeState :=
  let chunk_data := pad_to CHUNK_SIZE (m_chunk_data st) in
  {| m_entries := m_entries st;
     m_toc_keys := m_toc_keys st ++ [match last (m_entries st) with Some e => g_key e | None => [] end];
     m_block_hashes := m_block_hashes st ++ [take 8 (md5 chunk_data)];
     m_chunk_data := [];
     m_chunk_entry_count := 0;
     m_prev_key := m_prev_key st;
     m_out := m_out st ++ chunk_data |}.

(** The body of the merge loop behind the heap operations. *)
Definition emit_entry (st : MergeState) (h : HeapEntry) : MergeState :=
  if bool_decide (m_prev_key st = Some (h_key h)) then st
  else
    let st :=
      {| m_entries := m_entries st ++ [h_entry h]; m_toc_keys := m_toc_keys st; m_block_hashes := m_block_hashes st;
         m_chunk_data := m_chunk_data st ++ group_row (h_entry h); m_chunk_entry_count := S (m_chunk_entry_count st);
         m_prev_key := Some (h_key h); m_out := m_out st |} in
    if (m_chunk_entry_count st =? ENTRIES_PER_CHUNK)%nat then flush_chunk st else st.

Fixpoint merge_loop (fuel : nat) (archives : list (Z * ArchiveIndex)) (heap : list HeapEntry) (st : MergeState) : option MergeState :=
  match fuel with
  | O => None
  | S fuel =>
      match heap_pop heap with
      | None => Some st
      | Some (h, heap) =>
          let heap := heap_push (heap_entry archives (source_idx h) (S (cursor h))) heap in
          merge_loop fuel archives heap (emit_entry st h)
      end
  end.

(** [build_merged]; [None] when the fuel is short. *)
Definition build_merged (fuel : nat) (archives : list (Z * ArchiveIndex)) : option (outcome (aresult (Group * bytes))) :=
  st ← merge_loop fuel archives (initial_heap archives) merge_init;
  let st := if (0 <? m_chunk_entry_count st)%nat then flush_chunk st else st in
  Some (finish_group (m_entries st) (m_out st) (m_toc_keys st) (m_block_hashes st)).

End Hashes.
End ArchiveGroup.
