(* ===== verification/ArchiveGroupTheorems.v ===== *)
(** * Archive groups: theorems

    The k-way merge of sorted indices gives the entries the hash map builder collects,
    every key once and with its first occurrence, in key order; the file it writes
    parses back to the group.  The other builder drops entries once the blocks it
    counts are too few. *)

From stdpp Require Import gmap.
From S2P Require Import Prelude Bytes Collections CdnIndex CdnIndexTheorems ArchiveGroup.
Import CdnIndex ArchiveGroup.
Local Open Scope Z_scope.

(** ** Popping the heap *)

(** What the heap orders by, and the order of all elements. *)
Definition hk (h : HeapEntry) : bytes * nat := (h_key h, source_idx h).
Definition mk (h : HeapEntry) : bytes * (nat * nat) := (h_key h, (source_idx h, cursor h)).

Lemma heap_compare_kcmp a b : heap_compare a b = kcmp (hk a) (hk b).
Proof. done. Qed.

Lemma mk_lt a b : kle (hk a) (hk b) -> source_idx a <> source_idx b -> klt (mk a) (mk b).
Proof.
  intros Hle Hne. apply prod_klt. cbn [mk fst snd]. apply kle_cases in Hle as [Hle|[= H1 H2]]; [|done].
  apply prod_klt in Hle as [H|[H1 H2]]; [by left|right]. split; [done|]. apply prod_klt. by left.
Qed.

Lemma heap_pop_spec heap :
  match heap_pop heap with
  | None => heap = []
  | Some (h, rest) => h :: rest ≡ₚ heap /\ Forall (fun x => kle (hk h) (hk x)) rest
  end.
Proof.
  induction heap as [|h heap IH]; simpl; [done|]. destruct (heap_pop heap) as [[m rest]|].
  - destruct IH as [Hp Hm]. rewrite heap_compare_kcmp. destruct (kcmp (hk m) (hk h)) eqn:E.
    1,3: split; [done|]; rewrite <- Hp; assert (kle (hk h) (hk m)) as Hhm
      by (unfold kle; rewrite kcmp_antisym, E; done);
      constructor; [done|]; eapply Forall_impl; [exact Hm|]; intros x Hx; by eapply kle_trans.
    split; [rewrite <- Hp; apply Permutation_swap|]. constructor; [unfold kle; by rewrite E|done].
  - subst. split; [done|constructor].
Qed.

(** The elements in the order they are popped. *)
Fixpoint pops (fuel : nat) (archives : list (Z * ArchiveIndex)) (heap : list HeapEntry) : option (list HeapEntry) :=
  match fuel with
  | O => None
  | S fuel =>
      match heap_pop heap with
      | None => Some []
      | Some (h, heap) => l ← pops fuel archives (heap_push (heap_entry archives (source_idx h) (S (cursor h))) heap); Some (h :: l)
      end
  end.

Lemma merge_loop_pops md5 fuel archives heap st :
  merge_loop md5 fuel archives heap st = (fun l => fold_left (emit_entry md5) l st) <$> pops fuel archives heap.
Proof.
  revert heap st. induction fuel as [|fuel IH]; intros heap st; [done|]. cbn [merge_loop pops].
  destruct (heap_pop heap) as [[h rest]|]; [|done]. rewrite IH. by destruct (pops fuel archives _).
Qed.

(** What is left of a source: its successors are the ones the loop pushes. *)
Fixpoint chained (archives : list (Z * ArchiveIndex)) (l : list HeapEntry) : Prop :=
  match l with
  | [] => True
  | h :: l => heap_entry archives (source_idx h) (S (cursor h)) = head l /\ chained archives l
  end.

Record sources_ok (archives : list (Z * ArchiveIndex)) (R : list (list HeapEntry)) : Prop := {
  so_chained : Forall (chained archives) R;
  so_sorted : Forall (strictly_sorted mk) R;
  so_source : forall i l h, R !! i = Some l -> h ∈ l -> source_idx h = i;
}.

Lemma strictly_sorted_cons {A K} `{!OrdKey K} (key : A -> K) x l :
  strictly_sorted key (x :: l) -> strictly_sorted key l /\ Forall (fun y => klt (key x) (key y)) l.
Proof. apply StronglySorted_inv. Qed.

Lemma sources_ok_pop archives R i h l :
  sources_ok archives R -> R !! i = Some (h :: l) -> sources_ok archives (<[i := l]> R).
Proof.
  intros [Hc Hs Hsrc] Hi. pose proof (lookup_lt_Some _ _ _ Hi) as Li. split.
  - apply Forall_insert; [done|]. eapply Forall_lookup_1 in Hc; [|exact Hi]. apply Hc.
  - apply Forall_insert; [done|]. eapply Forall_lookup_1 in Hs; [|exact Hi]. by apply strictly_sorted_cons in Hs as [? _].
  - intros j l' x [(-> & <- & _)|[_ Hj]]%list_lookup_insert_Some Hx; [|by eapply Hsrc].
    eapply Hsrc; [exact Hi|]. by right.
Qed.

Lemma concat_insert_tail {A} (R : list (list A)) i h l :
  R !! i = Some (h :: l) -> concat R ≡ₚ h :: concat (<[i := l]> R).
Proof.
  intros Hi. pose proof (lookup_lt_Some _ _ _ Hi). rewrite insert_take_drop by done. rewrite <- (take_drop_middle R i _ Hi) at 1.
  rewrite !concat_app. cbn [concat]. rewrite <- app_comm_cons. symmetry. apply Permutation_middle.
Qed.

Lemma heads_insert (R : list (list HeapEntry)) i h l rest :
  R !! i = Some (h :: l) -> h :: rest ≡ₚ omap head R -> heap_push (head l) rest ≡ₚ omap head (<[i := l]> R).
Proof.
  intros Hi Hp. pose proof (lookup_lt_Some _ _ _ Hi). rewrite insert_take_drop by done. rewrite <- (take_drop_middle R i _ Hi) in Hp.
  rewrite omap_app in *. csimpl. csimpl in Hp. apply Permutation_cons_app_inv in Hp. destruct l as [|x l]; csimpl; [done|].
  rewrite Hp. apply Permutation_middle.
Qed.

(** The popped element comes before everything that is left. *)
Lemma pop_least archives R heap i h l rest :
  sources_ok archives R -> heap ≡ₚ omap head R -> h :: rest ≡ₚ heap -> Forall (fun x => kle (hk h) (hk x)) rest ->
  R !! i = Some (h :: l) -> Forall (fun x => klt (mk h) (mk x)) (concat (<[i := l]> R)).
Proof.
  intros [_ Hs Hsrc] Hh Hp Hmin Hi. apply Forall_concat, Forall_forall. intros l' [j Hj]%list_elem_of_lookup.
  apply list_lookup_insert_Some in Hj as [(<- & <- & _)|[Hne Hj]].
  { eapply Forall_lookup_1 in Hs; [|exact Hi]. by apply strictly_sorted_cons in Hs as [_ ?]. }
  destruct l' as [|x tl]; [constructor|].
  assert (klt (mk h) (mk x)) as Hx.
  { apply mk_lt.
    - assert (x ∈ h :: rest) as [->|Hx]%elem_of_cons.
      { rewrite Hp, Hh. apply list_elem_of_omap. exists (x :: tl). split; [by eapply list_elem_of_lookup_2|done]. }
      + apply kle_cases. by right.
      + rewrite Forall_forall in Hmin. by apply Hmin.
    - rewrite (Hsrc i _ h Hi ltac:(by left)), (Hsrc j _ x Hj ltac:(by left)). done. }
  eapply Forall_lookup_1 in Hs; [|exact Hj]. apply strictly_sorted_cons in Hs as [_ Hs]. constructor; [done|].
  eapply Forall_impl; [exact Hs|]. intros y Hy. by eapply klt_trans.
Qed.

(** The loop ends and pops everything, in order. *)
Lemma pops_spec archives R heap fuel :
  sources_ok archives R -> heap ≡ₚ omap head R -> (length (concat R) < fuel)%nat ->
  exists l, pops fuel archives heap = Some l /\ l ≡ₚ concat R /\ strictly_sorted mk l.
Proof.
  revert R heap. induction fuel as [|fuel IH]; intros R heap HR Hh Hf; [lia|]. cbn [pops].
  pose proof (heap_pop_spec heap) as Hpop. destruct (heap_pop heap) as [[h rest]|].
  - destruct Hpop as [Hp Hmin]. assert (h ∈ omap head R) as Hin by (rewrite <- Hh, <- Hp; by left).
    apply list_elem_of_omap in Hin as (l & [i Hi]%list_elem_of_lookup & Hhd). destruct l as [|h' l]; [done|]. injection Hhd as ->.
    pose proof (so_chained _ _ HR) as Hc. eapply Forall_lookup_1 in Hc; [|exact Hi]. destruct Hc as [Hc _]. rewrite Hc.
    pose proof (concat_insert_tail R i h l Hi) as Hcc.
    destruct (IH (<[i := l]> R) (heap_push (head l) rest)) as (ls & Hls & Hperm & Hsrt).
    + by eapply sources_ok_pop.
    + apply (heads_insert R i h l rest Hi). by rewrite Hp.
    + rewrite Hcc in Hf. simpl in Hf. lia.
    + rewrite Hls. exists (h :: ls). split_and!; [done|by rewrite Hcc, Hperm|]. constructor; [done|]. rewrite Hperm.
      by eapply pop_least.
  - subst heap. exists []. split_and!; [done| |constructor]. apply Permutation_nil_l in Hh.
    assert (concat R = []) as ->; [|done]. clear -Hh. induction R as [|l R IH]; [done|]. destruct l; [|done]. by apply IH.
Qed.

(** ** All entries of the sources *)

Definition source (archives : list (Z * ArchiveIndex)) (i : nat) : list HeapEntry :=
  match archives !! i with
  | Some (a, index) => imap (fun c e => {| h_entry := of_index_entry a e; source_idx := i; cursor := c |}) (entries index)
  | None => []
  end.

Definition sources (archives : list (Z * ArchiveIndex)) : list (list HeapEntry) := map (source archives) (seq 0 (length archives)).

(** Every index of the merge has its entries in key order. *)
Definition archives_sorted (archives : list (Z * ArchiveIndex)) : Prop :=
  Forall (fun a => sorted_by encoding_key (entries a.2)) archives.

Lemma heap_entry_source archives i c : heap_entry archives i c = source archives i !! c.
Proof.
  unfold heap_entry, source. destruct (archives !! i) as [[a index]|]; [|done]. cbn [mbind option_bind].
  rewrite list_lookup_imap. by destruct (entries index !! c).
Qed.

Lemma source_elem archives i c h : source archives i !! c = Some h -> source_idx h = i /\ cursor h = c.
Proof.
  unfold source. destruct (archives !! i) as [[a index]|]; [|done]. rewrite list_lookup_imap.
  destruct (entries index !! c); [|done]. cbn. intros [= <-]. done.
Qed.

Lemma source_chained archives i c : chained archives (drop c (source archives i)).
Proof.
  remember (length (source archives i) - c)%nat as n eqn:Hn. revert c Hn. induction n as [|n IH]; intros c Hn.
  { by rewrite drop_ge by lia. }
  destruct (lookup_lt_is_Some_2 (source archives i) c ltac:(lia)) as [h Hh]. rewrite (drop_S _ h c Hh). cbn [chained].
  destruct (source_elem archives i c h Hh) as [-> ->]. split; [|apply IH; lia].
  rewrite heap_entry_source, head_lookup, lookup_drop. f_equal. lia.
Qed.

Lemma source_sorted archives i : archives_sorted archives -> strictly_sorted mk (source archives i).
Proof.
  intros H. unfold source. destruct (archives !! i) as [[a index]|] eqn:Ei; [|constructor].
  eapply Forall_lookup_1 in H; [|exact Ei]. cbn in H.
  assert (forall es k, sorted_by encoding_key es -> strictly_sorted mk (imap (fun c e => {| h_entry := of_index_entry a e; source_idx := i; cursor := (k + c)%nat |}) es)) as G.
  { unfold sorted_by, strictly_sorted. intros es k Hs. revert k. induction Hs as [|e es Hs IH Hall]; intros k; cbn [imap]; constructor.
    - specialize (IH (S k)). rewrite (imap_ext _ (fun c e => {| h_entry := of_index_entry a e; source_idx := i; cursor := (S k + c)%nat |})); [done|].
      intros c x _. cbn. f_equal. lia.
    - apply Forall_lookup_2. intros c h. rewrite list_lookup_imap. destruct (es !! c) as [x|] eqn:Ex; [|done]. cbn. intros [= <-].
      eapply Forall_lookup_1 in Hall; [|exact Ex]. apply prod_klt. cbn. apply kle_cases in Hall as [Hl|He]; [by left|right].
      split; [done|]. apply prod_klt. right. split; [done|]. unfold klt. cbn. rewrite Nat.compare_lt_iff. lia. }
  by apply (G (entries index) 0%nat).
Qed.

Lemma sources_lookup archives i l : sources archives !! i = Some l -> l = source archives i.
Proof.
  unfold sources. rewrite list_lookup_fmap. intros (j & Hj & ->)%fmap_Some. by apply lookup_seq in Hj as [-> _].
Qed.

Lemma sources_are_ok archives : archives_sorted archives -> sources_ok archives (sources archives).
Proof.
  intros H. split.
  - apply Forall_map, Forall_true. intros i. apply (source_chained archives i 0).
  - apply Forall_map, Forall_true. intros i. by apply source_sorted.
  - intros i l h ->%sources_lookup [c Hc]%list_elem_of_lookup. by apply source_elem in Hc as [? _].
Qed.

Lemma initial_heap_heads archives : initial_heap archives = omap head (sources archives).
Proof.
  unfold initial_heap, sources. induction (seq 0 (length archives)) as [|i l IH]; [done|]. csimpl. rewrite IH, heap_entry_source, head_lookup.
  unfold heap_push. by destruct (source archives i !! 0%nat).
Qed.

(** In the order of the archives. *)
Definition sk (h : HeapEntry) : nat * nat := (source_idx h, cursor h).

Lemma all_sorted archives : strictly_sorted sk (concat (sources archives)).
Proof.
  unfold strictly_sorted, sources. assert (forall n s, StronglySorted (fun a b => klt (sk a) (sk b)) (concat (map (source archives) (seq s n)))) as G; [|apply G].
  induction n as [|n IH]; intros s; cbn [seq map concat]; [constructor|]. apply StronglySorted_app. split_and!; [| |apply IH].
  - intros x1 x2 [c1 Hc1]%list_elem_of_lookup (l & Hl & Hx2)%list_elem_of_In%in_concat. apply list_elem_of_In in Hl, Hx2.
    apply list_elem_of_lookup in Hl as [s' Hs'], Hx2 as [c2 Hc2]. rewrite list_lookup_fmap in Hs'. apply fmap_Some in Hs' as (j & Hj & ->).
    apply lookup_seq in Hj as [-> _]. apply source_elem in Hc1 as [E1 _]. apply source_elem in Hc2 as [E2 _].
    apply prod_klt. left. unfold sk. cbn. rewrite E1, E2. unfold klt. cbn. rewrite Nat.compare_lt_iff. lia.
  - assert (forall m, StronglySorted (fun a b => klt (sk a) (sk b)) (drop m (source archives s))) as G; [|by apply (G 0%nat)].
    intros m. remember (length (source archives s) - m)%nat as k eqn:Hk. revert m Hk. induction k as [|k IHk]; intros m Hk.
    { rewrite drop_ge by lia. constructor. }
    destruct (lookup_lt_is_Some_2 (source archives s) m ltac:(lia)) as [h Hh]. rewrite (drop_S _ h m Hh). constructor; [apply IHk; lia|].
    apply Forall_lookup_2. intros j x Hj. rewrite lookup_drop in Hj. apply source_elem in Hj as [E1 E2]. apply source_elem in Hh as [E3 E4].
    apply prod_klt. right. unfold sk. cbn. rewrite E1, E2, E3, E4. split; [done|]. unfold klt. cbn. rewrite Nat.compare_lt_iff. lia.
Qed.

(** The merge pops all entries of all sources, by key and then in the order of the
    archives. *)
Lemma merge_pops archives fuel :
  archives_sorted archives -> (length (concat (sources archives)) < fuel)%nat ->
  exists l, pops fuel archives (initial_heap archives) = Some l /\ l ≡ₚ concat (sources archives) /\ strictly_sorted mk l.
Proof. intros H Hf. apply pops_spec; [by apply sources_are_ok|by rewrite initial_heap_heads|done]. Qed.

(** ** The first entry of every key *)

Definition first_with (k : bytes) (l : list HeapEntry) : option HeapEntry := List.find (fun h => bool_decide (h_key h = k)) l.

Lemma first_with_min {K} `{!OrdKey K} (key : HeapEntry -> K) k l h :
  strictly_sorted key l ->
  first_with k l = Some h <-> h ∈ l /\ h_key h = k /\ (forall h', h' ∈ l -> h_key h' = k -> h' = h \/ klt (key h) (key h')).
Proof.
  unfold strictly_sorted, first_with. induction 1 as [|x l Hs IH Hall]; cbn [List.find].
  { split; [done|]. intros (Hin & _). by apply not_elem_of_nil in Hin. }
  rewrite Forall_forall in Hall. case_bool_decide as Hk.
  - split.
    + intros [= <-]. split_and!; [by left|done|]. intros h' [->|Hh']%elem_of_cons _; [by left|]. right. by apply Hall.
    + intros (Hin & Hkh & Hmin). f_equal. apply elem_of_cons in Hin as [->|Hin]; [done|].
      destruct (Hmin x ltac:(by left) Hk) as [|Hlt]; [done|]. exfalso. apply (klt_irrefl (key x)). eapply klt_trans; [|exact Hlt]. by apply Hall.
  - rewrite IH. split; intros (Hin & Hkh & Hmin).
    + split_and!; [by right|done|]. intros h' [->|Hh']%elem_of_cons Hk'; [done|]. by apply Hmin.
    + apply elem_of_cons in Hin as [->|Hin]; [done|]. split_and!; [done..|]. intros h' Hh' Hk'. apply Hmin; [by right|done].
Qed.

(** Sorting by key first does not change which entry of a key comes first. *)
Lemma first_with_merge k l all :
  l ≡ₚ all -> strictly_sorted mk l -> strictly_sorted sk all -> first_with k l = first_with k all.
Proof.
  intros Hp Hl Ha. apply option_eq. intros h. rewrite (first_with_min mk), (first_with_min sk) by done.
  assert (forall h', h' ∈ l <-> h' ∈ all) as Hin by (intros h'; by rewrite Hp).
  split; intros (H1 & H2 & H3); (split_and!; [by apply Hin|done|]); intros h' Hh' Hk'; apply Hin in Hh' as Hh2;
    destruct (H3 h' Hh2 Hk') as [|Hlt]; [by left| |by left|]; right.
  - apply prod_klt in Hlt as [Hlt|[_ Hlt]]; [|done]. cbn in Hlt. rewrite H2, Hk' in Hlt. by apply klt_irrefl in Hlt.
  - apply prod_klt. right. cbn. by rewrite H2, Hk'.
Qed.

(** The entries the loop keeps. *)
Fixpoint dedup (prev : option bytes) (l : list HeapEntry) : list ArchiveGroupEntry :=
  match l with
  | [] => []
  | h :: l => if bool_decide (prev = Some (h_key h)) then dedup prev l else h_entry h :: dedup (Some (h_key h)) l
  end.

(** The state of the loop before [l]: nothing in [l] is below the last key. *)
Definition behind (prev : option bytes) (l : list HeapEntry) : Prop :=
  match prev with None => True | Some p => Forall (fun h => kle p (h_key h)) l end.

Lemma mk_le a b : klt (mk a) (mk b) -> kle (h_key a) (h_key b).
Proof. intros [H|[H _]]%prod_klt; apply kle_cases; [by left|by right]. Qed.

Lemma behind_cons h l : strictly_sorted mk (h :: l) -> behind (Some (h_key h)) l.
Proof. intros [_ H]%strictly_sorted_cons. eapply Forall_impl; [exact H|]. intros x. apply mk_le. Qed.

Lemma dedup_elem prev l e :
  strictly_sorted mk l -> behind prev l ->
  e ∈ dedup prev l <-> prev <> Some (g_key e) /\ h_entry <$> first_with (g_key e) l = Some e.
Proof.
  revert prev. induction l as [|h l IH]; intros prev Hs Hb; cbn [dedup].
  { split; [by intros ?%not_elem_of_nil|by intros [_ ?]]. }
  pose proof (strictly_sorted_cons _ _ _ Hs) as [Hs' _]. pose proof (behind_cons h l Hs) as Hb'.
  unfold first_with. cbn [List.find]. fold (first_with (g_key e) l). case_bool_decide as Hp.
  - rewrite IH by (try done; subst prev; by inv Hb). split; intros [H1 H2]; (split; [done|]).
    + rewrite bool_decide_false; [done|]. intros E. by rewrite E in Hp.
    + revert H2. case_bool_decide as E; [by rewrite E in Hp|done].
  - rewrite elem_of_cons, IH by done. case_bool_decide as E.
    + split.
      * intros [->|[H1 _]]; [done|by rewrite E in H1].
      * intros [_ [= <-]]. by left.
    + split.
      * intros [->|[_ H2]]; [done|]. split; [|done]. intros ->. cbn in Hb. apply Forall_cons in Hb as [Hb _].
        apply fmap_Some in H2 as (h' & Hf & ->). unfold first_with in Hf. apply List.find_some in Hf as [Hin Hk].
        apply bool_decide_eq_true in Hk. apply list_elem_of_In in Hin. cbn in Hb'. rewrite Forall_forall in Hb'. specialize (Hb' h' Hin).
        rewrite Hk in Hb'. apply kle_cases in Hb as [Hb|Hb]; [|by rewrite Hb in E]. apply (klt_irrefl (g_key (h_entry h'))).
        by eapply klt_kle_trans.
      * intros [H1 H2]. right. split; [|done]. by intros [= ?].
Qed.

Lemma dedup_sorted prev l :
  strictly_sorted mk l -> behind prev l -> strictly_sorted g_key (dedup prev l) /\ Forall (fun e => match prev with Some p => klt p (g_key e) | None => True end) (dedup prev l).
Proof.
  revert prev. induction l as [|h l IH]; intros prev Hs Hb; cbn [dedup]; [repeat constructor|].
  pose proof (strictly_sorted_cons _ _ _ Hs) as [Hs' _]. case_bool_decide as Hp.
  - apply IH; [done|]. subst prev. by inv Hb.
  - destruct (IH (Some (h_key h)) Hs' (behind_cons h l Hs)) as [I1 I2]. split; [by constructor|].
    destruct prev as [p|]; [|by apply Forall_true]. cbn in Hb. apply Forall_cons in Hb as [Hb _].
    apply kle_cases in Hb as [Hb|Hb]; [|by rewrite Hb in Hp]. constructor; [done|].
    eapply Forall_impl; [exact I2|]. intros e He. by eapply klt_trans.
Qed.

(** ** The hash map builder *)

Definition add_all (l : list ArchiveGroupEntry) (b : gmap (list Z) ArchiveGroupEntry) : gmap (list Z) ArchiveGroupEntry :=
  fold_left (fun b e => group_add_entry e b) l b.

Definition add_archives (archives : list (Z * ArchiveIndex)) : gmap (list Z) ArchiveGroupEntry :=
  fold_left (fun b a => add_archive a.1 a.2 b) archives group_builder_new.

Lemma add_all_lookup l b k :
  add_all l b !! k = match b !! k with Some e => Some e | None => List.find (fun e => bool_decide (g_key e = k)) l end.
Proof.
  unfold add_all. revert b. induction l as [|e l IH]; intros b; cbn [fold_left List.find]; [by destruct (b !! k)|].
  rewrite IH. unfold group_add_entry. destruct (b !! g_key e) as [e'|] eqn:Ee.
  - destruct (b !! k) as [x|] eqn:Ek; [done|]. by rewrite bool_decide_false by congruence.
  - destruct (decide (g_key e = k)) as [<-|Hne].
    + rewrite lookup_insert_eq, Ee, bool_decide_true by done. done.
    + rewrite lookup_insert_ne by done. by rewrite bool_decide_false.
Qed.

Lemma sources_cons a archives n s :
  concat (map (fun i => map h_entry (source (a :: archives) (S i))) (seq s n)) = concat (map (fun i => map h_entry (source archives i)) (seq s n)).
Proof.
  f_equal. apply map_ext. intros i. unfold source. cbn [lookup list_lookup]. destruct (archives !! i) as [[a' index]|]; [|done].
  change (map h_entry) with (fmap (M:=list) h_entry). rewrite !fmap_imap. by apply imap_ext.
Qed.

Lemma add_archives_all archives : add_archives archives = add_all (map h_entry (concat (sources archives))) ∅.
Proof.
  unfold add_archives, group_builder_new. generalize (∅ : gmap (list Z) ArchiveGroupEntry).
  rewrite concat_map. unfold sources. rewrite map_map. induction archives as [|[a index] archives IH]; intros b; [done|].
  cbn [fold_left length seq map concat]. rewrite IH. unfold add_all. rewrite fold_left_app.
  rewrite <- seq_shift, map_map, (sources_cons (a, index) archives). f_equal.
  unfold add_archive, source. cbn [lookup list_lookup]. change (map h_entry) with (fmap (M:=list) h_entry). rewrite fmap_imap. cbn [fst snd].
  rewrite (imap_ext _ (fun _ e => of_index_entry a e)) by done. clear. revert b.
  induction (entries index) as [|e es IHe]; intros b; [done|]. cbn [fold_left imap]. by rewrite IHe.
Qed.

Lemma find_map_entry l k :
  List.find (fun e => bool_decide (g_key e = k)) (map h_entry l) = h_entry <$> first_with k l.
Proof. unfold first_with. induction l as [|h l IH]; [done|]. cbn [map List.find]. change (h_key h) with (g_key (h_entry h)). case_bool_decide; [done|apply IH]. Qed.

Definition keyed (b : gmap (list Z) ArchiveGroupEntry) : Prop := forall k e, b !! k = Some e -> g_key e = k.

Lemma add_all_keyed l : keyed (add_all l ∅).
Proof.
  intros k e. rewrite add_all_lookup, lookup_empty. intros [_ H]%List.find_some. by apply bool_decide_eq_true in H.
Qed.

Definition values (b : gmap (list Z) ArchiveGroupEntry) : list ArchiveGroupEntry := sort_by_key g_key (map_to_list b).*2.

Lemma values_elem b e : keyed b -> e ∈ values b <-> b !! g_key e = Some e.
Proof.
  intros Hb. unfold values. rewrite sort_by_key_perm, list_elem_of_fmap. split.
  - intros ([k x] & -> & Hx). apply elem_of_map_to_list in Hx. cbn. by rewrite (Hb k x Hx).
  - intros H. exists (g_key e, e). split; [done|]. by apply elem_of_map_to_list.
Qed.

Lemma values_sorted b : keyed b -> strictly_sorted g_key (values b).
Proof.
  intros Hb. apply sorted_nodup_strict; [apply sort_by_key_sorted|]. unfold values.
  change (map g_key) with (fmap (M:=list) g_key). rewrite sort_by_key_perm. rewrite <- list_fmap_compose.
  assert (g_key ∘ snd <$> map_to_list b = (map_to_list b).*1) as ->; [|apply NoDup_fst_map_to_list].
  apply list_fmap_ext. intros i [k e] Hi. apply list_elem_of_lookup_2, elem_of_map_to_list in Hi. cbn. by apply Hb.
Qed.

Lemma strictly_sorted_ext {A K} `{!OrdKey K} (key : A -> K) l1 l2 :
  strictly_sorted key l1 -> strictly_sorted key l2 -> (forall x, x ∈ l1 <-> x ∈ l2) -> l1 = l2.
Proof.
  intros H1 H2 Hin.
  assert (forall l, strictly_sorted key l -> NoDup l) as Hnd.
  { unfold strictly_sorted. induction 1 as [|x l Hs IH Hall]; constructor; [|done]. intros Hx. rewrite Forall_forall in Hall.
    specialize (Hall x Hx). by apply klt_irrefl in Hall. }
  eapply StronglySorted_unique_strong; [|exact H1|exact H2|by apply NoDup_Permutation; auto].
  intros x y _ _ Hxy Hyx. exfalso. apply (klt_irrefl (key x)). by apply (klt_trans _ (key y)).
Qed.

(** The entries the merge keeps are those the hash map builder has collected. *)
Lemma dedup_values archives l :
  l ≡ₚ concat (sources archives) -> strictly_sorted mk l -> dedup None l = values (add_archives archives).
Proof.
  intros Hp Hs. rewrite add_archives_all. set (b := add_all _ _). assert (keyed b) as Hk by apply add_all_keyed.
  apply (strictly_sorted_ext g_key); [by apply (dedup_sorted None l Hs)|by apply values_sorted|]. intros e.
  rewrite values_elem, dedup_elem by done. unfold b. rewrite add_all_lookup, lookup_empty, find_map_entry.
  rewrite (first_with_merge (g_key e) l _ Hp Hs (all_sorted archives)). naive_solver.
Qed.

(** ** Writing the blocks *)

Section Emit.
Context (md5 : bytes -> bytes).

Definition last_keys (gs : list (list ArchiveGroupEntry)) : list bytes :=
  map (fun g => match last g with Some e => g_key e | None => [] end) gs.

(** Full blocks are out, the rest is in the buffer. *)
Definition emitted (st : MergeState) (es : list ArchiveGroupEntry) : Prop :=
  exists gs cur, es = concat gs ++ cur /\ Forall (fun g => length g = ENTRIES_PER_CHUNK) gs /\ (length cur < ENTRIES_PER_CHUNK)%nat /\
    st = {| m_entries := es; m_toc_keys := last_keys gs; m_block_hashes := map (fun g => hash8 md5 (group_chunk g)) gs;
            m_chunk_data := concat (map group_row cur); m_chunk_entry_count := length cur;
            m_prev_key := g_key <$> last es; m_out := concat (map group_chunk gs) |}.

Lemma last_keys_app gs1 gs2 : last_keys (gs1 ++ gs2) = last_keys gs1 ++ last_keys gs2.
Proof. apply map_app. Qed.

Lemma emit_new st es h :
  emitted st es -> g_key <$> last es <> Some (h_key h) -> emitted (emit_entry md5 st h) (es ++ [h_entry h]).
Proof.
  intros (gs & cur & He & Hgs & Hcur & ->) Hne. unfold emit_entry. cbn [m_prev_key m_entries m_toc_keys m_block_hashes m_chunk_data m_chunk_entry_count m_out].
  rewrite bool_decide_false by done. assert (length (cur ++ [h_entry h]) = S (length cur)) as Lc by (rewrite length_app; simpl; lia).
  assert (concat (map group_row cur) ++ group_row (h_entry h) = concat (map group_row (cur ++ [h_entry h]))) as Hrow.
  { rewrite map_app, concat_app. cbn [map concat]. by rewrite app_nil_r. }
  destruct (Nat.eqb_spec (S (length cur)) ENTRIES_PER_CHUNK) as [Hfull|Hpart].
  - exists (gs ++ [cur ++ [h_entry h]]), []. split_and!.
    + rewrite concat_app. cbn [concat]. by rewrite !app_nil_r, app_assoc, <- He.
    + apply Forall_app. split; [done|]. constructor; [lia|constructor].
    + unfold ENTRIES_PER_CHUNK. vm_compute. lia.
    + unfold flush_chunk. cbn [m_prev_key m_entries m_toc_keys m_block_hashes m_chunk_data m_chunk_entry_count m_out].
      rewrite last_keys_app, !map_app, !concat_app, last_snoc, Hrow. cbn [last_keys map concat]. rewrite last_snoc, app_nil_r. done.
  - exists gs, (cur ++ [h_entry h]). split_and!; [by rewrite He, app_assoc|done|lia|]. rewrite Hrow, Lc, last_snoc. done.
Qed.

Lemma emit_fold l st es :
  emitted st es -> emitted (fold_left (emit_entry md5) l st) (es ++ dedup (g_key <$> last es) l).
Proof.
  revert st es. induction l as [|h l IH]; intros st es He; cbn [fold_left dedup]; [by rewrite app_nil_r|].
  case_bool_decide as Hp.
  - assert (emit_entry md5 st h = st) as ->; [|by apply IH]. destruct He as (gs & cur & _ & _ & _ & ->). unfold emit_entry. cbn [m_prev_key]. by rewrite bool_decide_true.
  - pose proof (IH _ _ (emit_new st es h He Hp)) as HI. rewrite last_snoc, <- app_assoc in HI. exact HI.
Qed.

Lemma emit_all l : emitted (fold_left (emit_entry md5) l merge_init) (dedup None l).
Proof.
  apply (emit_fold l merge_init []). exists [], []. split_and!; [done|constructor|unfold ENTRIES_PER_CHUNK; vm_compute; lia|done].
Qed.

(** Full groups and a last one that is not empty are the groups of the whole. *)
Lemma groups_full {A} per (gs : list (list A)) (cur : list A) :
  Forall (fun g => length g = per) gs -> (0 < length cur <= per)%nat ->
  groups per (S (length gs)) (concat gs ++ cur) = gs ++ [cur] /\ fits per (S (length gs)) (concat gs ++ cur).
Proof.
  intros H Hc. induction H as [|g gs Hg _ [IH1 IH2]].
  - cbn [length groups concat app]. rewrite take_ge by lia. split; [done|]. unfold fits. lia.
  - cbn [length concat]. rewrite <- app_assoc. cbn [groups] in *. rewrite take_app_length', drop_app_length' by done. split.
    + rewrite <- app_comm_cons. f_equal. exact IH1.
    + unfold fits in *. rewrite length_app. lia.
Qed.

(** What is written behind the loop. *)
Lemma flushed st es :
  emitted st es ->
  let st' := if (0 <? m_chunk_entry_count st)%nat then flush_chunk md5 st else st in
  let gs := groups ENTRIES_PER_CHUNK (div_ceil (length es) ENTRIES_PER_CHUNK) es in
  m_entries st' = es /\ m_toc_keys st' = last_keys gs /\ m_block_hashes st' = map (fun g => hash8 md5 (group_chunk g)) gs /\
  m_out st' = concat (map group_chunk gs).
Proof.
  intros (gs & cur & He & Hgs & Hcur & ->). cbn [m_chunk_entry_count]. assert (0 < ENTRIES_PER_CHUNK)%nat as Hp by (unfold ENTRIES_PER_CHUNK; vm_compute; lia).
  destruct cur as [|x cur].
  - cbn [length Nat.ltb Nat.leb]. rewrite app_nil_r in He.
    assert (groups ENTRIES_PER_CHUNK (div_ceil (length es) ENTRIES_PER_CHUNK) es = gs) as ->; [|done].
    destruct gs as [|g gs _] using rev_ind; [by subst es|]. rewrite concat_app in He. cbn [concat] in He. rewrite app_nil_r in He.
    apply Forall_app in Hgs as [Hgs Hg]. rewrite Forall_singleton in Hg. destruct (groups_full ENTRIES_PER_CHUNK gs g Hgs ltac:(lia)) as [G1 G2].
    rewrite <- He in G1, G2. by rewrite <- (fits_div_ceil _ _ _ G2).
  - cbn [length Nat.ltb Nat.leb]. destruct (groups_full ENTRIES_PER_CHUNK gs (x :: cur) Hgs ltac:(simpl in *; lia)) as [G1 G2].
    rewrite <- He in G1, G2. rewrite <- (fits_div_ceil _ _ _ G2), G1. unfold flush_chunk.
    cbn [m_prev_key m_entries m_toc_keys m_block_hashes m_chunk_data m_chunk_entry_count m_out].
    rewrite last_keys_app, !map_app, !concat_app. cbn [map concat]. rewrite app_nil_r. split_and!; [done| |done|done].
    f_equal. unfold last_keys. cbn [map]. rewrite He, last_app_cons. done.
Qed.

End Emit.

(** ** Groups as indices with six-byte offsets *)

Definition to_index (e : ArchiveGroupEntry) : IndexEntry := new_archive_group (g_key e) (g_size e) (g_archive_index e) (g_offset e).

Definition group_entry_ok (e : ArchiveGroupEntry) : Prop :=
  is_array 16 (g_key e) /\ u32 (g_size e) /\ u32 (g_offset e) /\ u16 (g_archive_index e) /\ is_zero (to_index e) = false.

Lemma to_index_ok e : group_entry_ok e -> entry_ok 16 6 (to_index e).
Proof. intros (H1 & H2 & H3 & H4 & H5). split_and!; [done..| |done]. unfold place_ok. cbn. done. Qed.

Lemma widths_group : widths_ok 16 6.
Proof. unfold widths_ok. lia. Qed.

Lemma group_row_eq e : group_entry_ok e -> row_of 6 (to_index e) = group_row e.
Proof.
  intros (_ & _ & H3 & _). unfold row_of, to_bytes, offset_to_bytes. cbn [Z.eqb Pos.eqb to_index new_archive_group archive_index].
  cbn [mbind result_bind encoding_key size offset]. unfold wrap32. by rewrite (wrap_small 32) by done.
Qed.

Lemma group_chunk_eq g :
  Forall group_entry_ok g -> (length g <= ENTRIES_PER_CHUNK)%nat -> group_chunk g = block 16 6 (map to_index g).
Proof.
  intros H Hl. assert (concat (map (row_of 6) (map to_index g)) = concat (map group_row g)) as Hr.
  { rewrite map_map. f_equal. apply map_ext_Forall. eapply Forall_impl; [exact H|]. apply group_row_eq. }
  assert (length (concat (map group_row g)) = (length g * 26)%nat) as L.
  { rewrite <- Hr, (rows_length 16 6 widths_group), length_map; [done|]. apply Forall_map. eapply Forall_impl; [exact H|]. apply to_index_ok. }
  assert (ENTRIES_PER_CHUNK * 26 <= CHUNK_SIZE)%nat as Hc by (unfold ENTRIES_PER_CHUNK; vm_compute; lia).
  unfold group_chunk, pad_to, block. rewrite Hr, L, length_map, Nat.min_l, take_ge by nia. unfold copy_at.
  rewrite take_0, app_nil_l, drop_zeros, L. done.
Qed.

Lemma groups_map {A B} (f : A -> B) per n l : groups per n (map f l) = map (map f) (groups per n l).
Proof.
  revert l. induction n as [|n IH]; intros l; [done|]. cbn [groups map]. change (map f) with (fmap (M:=list) f) at 1 2.
  rewrite <- fmap_take, <- fmap_drop. f_equal. apply IH.
Qed.

Lemma last_keys_index gs :
  Forall (fun g => g <> []) gs -> omap last_key (map (map to_index) gs) = last_keys gs.
Proof.
  induction 1 as [|g gs Hg _ IH]; [done|]. csimpl. unfold last_key at 1. change (map to_index g) with (to_index <$> g). rewrite fmap_last.
  destruct (last g) eqn:E; [|by apply last_None in E]. csimpl. by rewrite IH.
Qed.

Lemma of_to_index e : group_entry_ok e -> of_index_entry (default 0 (archive_index (to_index e))) (to_index e) = e.
Proof.
  intros (_ & _ & H & _). unfold of_index_entry. cbn. unfold wrap32. rewrite (wrap_small 32) by done. by destruct e.
Qed.

Section Finish.
Context (md5 : bytes -> bytes) (Hmd5 : forall d, is_array 16 (md5 d)).
Context (es : list ArchiveGroupEntry) (Hes : Forall group_entry_ok es) (Hs : strictly_sorted g_key es).
Context (Hn : u32 (Z.of_nat (length es))).

Abbreviation gs := (groups ENTRIES_PER_CHUNK (div_ceil (length es) ENTRIES_PER_CHUNK) es).
Abbreviation hs := (map (fun g => hash8 md5 (group_chunk g)) gs).

Lemma group_per : (0 < ENTRIES_PER_CHUNK)%nat.
Proof. unfold ENTRIES_PER_CHUNK. vm_compute. lia. Qed.

Lemma group_keys_ok : map (pad_to 16) (last_keys gs) = last_keys gs.
Proof.
  pose proof (groups_nonempty ENTRIES_PER_CHUNK _ es (div_ceil_fits ENTRIES_PER_CHUNK es group_per)) as Hne.
  pose proof (groups_forall group_entry_ok ENTRIES_PER_CHUNK (div_ceil (length es) ENTRIES_PER_CHUNK) es Hes) as Hok.
  induction Hne as [|g gs' Hg _ IH]; [done|]. apply Forall_cons in Hok as [Hg2 Hok]. unfold last_keys in *. cbn [map]. rewrite IH by done. f_equal.
  destruct (last g) as [e|] eqn:E; [|by apply last_None in E]. apply last_Some_elem_of in E. rewrite Forall_forall in Hg2.
  apply pad_to_exact. by apply Hg2.
Qed.

(** The finished file is an index over the entries of the group. *)
Lemma finish_group_parses :
  exists g file, finish_group md5 es (concat (map group_chunk gs)) (last_keys gs) hs = Ret (Ok (g, file)) /\
    group_entries g = es /\ group_parse md5 file = Ret (Ok g).
Proof.
  unfold finish_group. rewrite group_keys_ok. unfold calculate_toc_hash, hash_prefix. cbn [Z.ltb Z.compare Pos.compare Pos.compare_cont].
  change (mbind (M:=outcome) ?k (Ret ?x)) with (k x). cbv beta zeta. set (f := group_footer_of md5 _ _).
  eexists _, _. split; [done|]. split; [done|]. cbn [group_footer group_entries].
  assert (footer_ok md5 f) as Hf.
  { unfold footer_ok, f, group_footer_of. cbn -[pad_to concat app groups last_keys take Z.to_nat].
    change (take (Z.to_nat 8) (md5 ?x)) with (hash8 md5 x).
    rewrite pad_to_exact by (by apply hash8_length). split_and!; [|done|apply wrap32_range|lia|done].
    split; [by apply hash8_length|]. apply is_bytes_take, Hmd5. }
  pose proof (div_ceil_fits ENTRIES_PER_CHUNK es group_per) as Hfit.
  pose proof (parse_written md5 Hmd5 f Hf widths_group (map to_index es) hs) as HP.
  change (CHUNK_SIZE / rsize (ekey_length f) (offset_bytes f))%nat with ENTRIES_PER_CHUNK in HP. rewrite length_map in HP.
  rewrite groups_map, last_keys_index in HP by (by apply groups_nonempty). unfold group_parse.
  assert (written f (map to_index es) hs = concat (map group_chunk gs) ++ concat (last_keys gs) ++ concat hs ++ footer_write f) as Hw.
  { unfold written. change (CHUNK_SIZE / rsize (ekey_length f) (offset_bytes f))%nat with ENTRIES_PER_CHUNK. rewrite length_map, groups_map.
    rewrite last_keys_index by (by apply groups_nonempty). f_equal. rewrite map_map. f_equal. symmetry. apply map_ext_Forall.
    pose proof (groups_forall group_entry_ok ENTRIES_PER_CHUNK (div_ceil (length es) ENTRIES_PER_CHUNK) es Hes) as Hok.
    pose proof (groups_short ENTRIES_PER_CHUNK (div_ceil (length es) ENTRIES_PER_CHUNK) es) as Hsh.
    eapply Forall_impl; [apply Forall_and; split; [exact Hok|exact Hsh]|]. intros g [? ?]. by apply group_chunk_eq. }
  rewrite <- Hw, HP; clear HP Hw.
  - cbn [try_bind footer entries]. change (footer_is_archive_group f) with true. cbn [negb]. do 3 f_equal. rewrite map_map.
    rewrite <- (map_id es) at 2. apply map_ext_Forall. eapply Forall_impl; [exact Hes|]. apply of_to_index.
  - apply Forall_map. eapply Forall_impl; [exact Hes|]. apply to_index_ok.
  - pose proof (strictly_sorted_sorted g_key es Hs) as Hss. clear -Hss. unfold sorted_by in *.
    induction Hss as [|e es' _ IH Hall]; cbn [map]; constructor; [done|]. by apply Forall_map.
  - apply (wrap_small 32), Hn.
  - apply Forall_map, Forall_true. intros g. by apply hash8_length.
  - by rewrite !length_map, groups_length.
Qed.

End Finish.

(** ** The two builders *)

Section Builders.
Context (md5 : bytes -> bytes) (Hmd5 : forall d, is_array 16 (md5 d)).

(** Enough blocks: computed from the bytes, or from the entries per block. *)
Definition blocks_suffice (n : nat) : Prop := div_ceil (n * GROUP_ENTRY_SIZE) CHUNK_SIZE = div_ceil n ENTRIES_PER_CHUNK.

Lemma group_chunks_groups n i es :
  (forall j, (j < n)%nat -> ((i + j) * ENTRIES_PER_CHUNK <= length es)%nat) ->
  group_chunks md5 n i es =
    Ret (map (fun g => (g, group_chunk g, hash8 md5 (group_chunk g))) (groups ENTRIES_PER_CHUNK n (drop (i * ENTRIES_PER_CHUNK) es))).
Proof.
  revert i. induction n as [|n IH]; intros i H; [done|]. cbn [group_chunks groups map].
  pose proof (H 0%nat ltac:(lia)) as H0. rewrite Nat.add_0_r in H0. set (p := ENTRIES_PER_CHUNK) in *.
  rewrite (proj2 (Nat.ltb_ge _ _)) by lia.
  assert (take (((i + 1) * p) `min` length es - i * p) (drop (i * p) es) = take p (drop (i * p) es)) as ->.
  { destruct (Nat.le_gt_cases ((i + 1) * p) (length es)) as [Hle|Hgt].
    - rewrite Nat.min_l by done. f_equal. lia.
    - rewrite Nat.min_r by lia. rewrite !take_ge by (rewrite length_drop; lia). done. }
  unfold calculate_block_hash, hash_prefix. cbn [Z.ltb Z.compare Pos.compare Pos.compare_cont].
  change (mbind (M:=outcome) ?k (Ret ?x)) with (k x). cbv beta. rewrite IH.
  - change (mbind (M:=outcome) ?k (Ret ?x)) with (k x). cbv beta. rewrite drop_drop. replace (i * p + p)%nat with (S i * p)%nat by lia. done.
  - intros j Hj. specialize (H (S j) ltac:(lia)). fold p. replace (S i + j)%nat with (i + S j)%nat by lia. done.
Qed.

Lemma group_build_finish b :
  blocks_suffice (length (values b)) ->
  let es := values b in let gs := groups ENTRIES_PER_CHUNK (div_ceil (length es) ENTRIES_PER_CHUNK) es in
  group_build md5 b = finish_group md5 es (concat (map group_chunk gs)) (last_keys gs) (map (fun g => hash8 md5 (group_chunk g)) gs).
Proof.
  intros Hbs es gs. unfold group_build. unfold blocks_suffice in Hbs. change (values b) with es in Hbs. change (sort_by_key g_key _) with es. rewrite Hbs. pose proof group_per as Hp.
  pose proof (div_ceil_fits ENTRIES_PER_CHUNK es Hp) as Hfit. rewrite group_chunks_groups.
  2: { intros j Hj. unfold fits in Hfit. nia. }
  rewrite Nat.mul_0_l, drop_0. fold gs. change (mbind (M:=outcome) ?k (Ret ?x)) with (k x). cbv beta. rewrite !map_map. cbn [fst snd]. f_equal.
  pose proof (groups_nonempty _ _ _ Hfit) as Hne. fold gs in Hne. clear -Hne. induction Hne as [|g gs Hg _ IH]; [done|].
  cbn [map concat last_keys]. rewrite IH. unfold last_group_key. destruct (last g) eqn:E; [done|]. by apply last_None in E.
Qed.

Lemma build_merged_finish archives fuel :
  archives_sorted archives -> (length (concat (sources archives)) < fuel)%nat ->
  let es := values (add_archives archives) in let gs := groups ENTRIES_PER_CHUNK (div_ceil (length es) ENTRIES_PER_CHUNK) es in
  build_merged md5 fuel archives =
    Some (finish_group md5 es (concat (map group_chunk gs)) (last_keys gs) (map (fun g => hash8 md5 (group_chunk g)) gs)).
Proof.
  intros Hs Hf es gs. destruct (merge_pops archives fuel Hs Hf) as (l & Hl & Hp & Hsl). unfold build_merged.
  rewrite merge_loop_pops, Hl. cbn [fmap option_fmap option_map mbind option_bind].
  pose proof (emit_all md5 l) as He. rewrite (dedup_values archives l Hp Hsl) in He. fold es in He.
  destruct (flushed md5 _ _ He) as (E1 & E2 & E3 & E4). cbn zeta in E1, E2, E3, E4. fold gs in E2, E3, E4. by rewrite E1, E2, E3, E4.
Qed.

End Builders.

(** Every entry of every archive can be written to a group. *)
Definition archives_ok (archives : list (Z * ArchiveIndex)) : Prop :=
  Forall (fun a => Forall (fun e => group_entry_ok (of_index_entry a.1 e)) (entries a.2)) archives.

Lemma values_ok archives : archives_ok archives -> Forall group_entry_ok (values (add_archives archives)).
Proof.
  intros H. apply Forall_forall. intros e. rewrite add_archives_all. rewrite values_elem by apply add_all_keyed.
  rewrite add_all_lookup, lookup_empty, find_map_entry. intros (h & Hf & ->)%fmap_Some. unfold first_with in Hf.
  apply List.find_some in Hf as [Hin _]. apply in_concat in Hin as (l & Hl & Hin). apply list_elem_of_In, list_elem_of_lookup in Hl as [i Hl].
  apply sources_lookup in Hl as ->. apply list_elem_of_In, list_elem_of_lookup in Hin as [c Hc]. unfold source in Hc.
  destruct (archives !! i) as [[a index]|] eqn:Ei; [|done]. rewrite list_lookup_imap in Hc. destruct (entries index !! c) as [x|] eqn:Ex; [|done].
  cbn in Hc. injection Hc as <-. eapply Forall_lookup_1 in H; [|exact Ei]. eapply Forall_lookup_1 in H; [|exact Ex]. exact H.
Qed.

(** C8: The k-way merge of sorted archive indices with a heap ends within as many steps
    as there are entries, and gives the group the hash map builder collects from the
    same archives in the same order: every key once, with its first occurrence, in key
    order.  The file it writes parses back to the group, a lookup in the group finds
    exactly the entry kept for the key, and whenever the hash map builder reserves
    enough blocks it writes the same file. *)
Theorem build_merged_is_union (md5 : bytes -> bytes) (archives : list (Z * ArchiveIndex)) (fuel : nat) :
  (forall d, is_array 16 (md5 d)) -> archives_sorted archives -> archives_ok archives ->
  u32 (Z.of_nat (length (values (add_archives archives)))) -> (length (concat (sources archives)) < fuel)%nat ->
  exists g file, build_merged md5 fuel archives = Some (Ret (Ok (g, file))) /\
    group_entries g = values (add_archives archives) /\ group_parse md5 file = Ret (Ok g) /\
    (forall key, group_find_entry g key = add_archives archives !! key) /\
    (blocks_suffice (length (group_entries g)) -> group_build md5 (add_archives archives) = Ret (Ok (g, file))).
Proof.
  intros Hmd5 Hs Hok Hn Hf. assert (keyed (add_archives archives)) as Hk by (rewrite add_archives_all; apply add_all_keyed).
  pose proof (values_sorted _ Hk) as Hvs.
  destruct (finish_group_parses md5 Hmd5 (values (add_archives archives)) (values_ok archives Hok) Hvs Hn) as (g & file & Hfin & Hg & Hparse).
  exists g, file. split_and!; [|done|done| |].
  - by rewrite (build_merged_finish md5 archives fuel Hs Hf), Hfin.
  - intros key. unfold group_find_entry. rewrite Hg. apply option_eq. intros e. rewrite search_Some by done. rewrite values_elem by done. split.
    + intros [H <-]. done.
    + intros H. pose proof (Hk _ _ H) as E. by rewrite E.
  - intros Hb. rewrite Hg in Hb. by rewrite group_build_finish.
Qed.

(** ** Concrete groups *)

#[export] Instance group_entry_ok_dec e : Decision (group_entry_ok e).
Proof. unfold group_entry_ok. apply _. Defined.

Definition index_with (es : list IndexEntry) : ArchiveIndex := {| entries := es; toc := []; footer := footer_new md5_zero [] 0 |}.

(** Two archives that share a key. *)
Definition sample_archives : list (Z * ArchiveIndex) :=
  [(4, index_with [entry_new (replicate 16 1) 10 0; entry_new (replicate 16 5) 20 100]);
   (2, index_with [entry_new (replicate 16 3) 30 0; entry_new (replicate 16 5) 40 200; entry_new (replicate 16 7) 50 300])].

Lemma sample_archives_sorted : archives_sorted sample_archives.
Proof. apply Forall_cons. split; [by apply is_sorted_spec|]. apply Forall_singleton. by apply is_sorted_spec. Qed.

Lemma sample_archives_ok : archives_ok sample_archives.
Proof. unfold archives_ok. decide_now. Qed.

Lemma build_merged_is_union_witness :
  exists g file, build_merged md5_zero 10 sample_archives = Some (Ret (Ok (g, file))) /\
    group_entries g = values (add_archives sample_archives) /\ group_parse md5_zero file = Ret (Ok g) /\
    (forall key, group_find_entry g key = add_archives sample_archives !! key) /\
    (blocks_suffice (length (group_entries g)) -> group_build md5_zero (add_archives sample_archives) = Ret (Ok (g, file))).
Proof.
  apply (build_merged_is_union md5_zero sample_archives 10);
    [apply md5_zero_ok|apply sample_archives_sorted|apply sample_archives_ok|vm_compute; split; [discriminate|reflexivity]|vm_compute; lia].
Defined.

Lemma sample_group_entries :
  map (fun e => (take 1 (g_key e), g_archive_index e, g_offset e)) (values (add_archives sample_archives)) =
    [([1], 4, 0); ([3], 2, 0); ([5], 4, 100); ([7], 2, 300)].
Proof. vm_compute. reflexivity. Qed.

(** The hash map builder computes the number of blocks from the bytes of the entries,
    157 of which leave fourteen bytes of a block unused.  From 315 entries on it can be
    one block short: the last entries are not written, and the file is rejected. *)
Definition many (n : nat) : gmap (list Z) ArchiveGroupEntry :=
  add_all (map (fun i => {| g_key := to_be_bytes 16 (Z.of_nat i); g_archive_index := 0; g_offset := 0; g_size := 1 |}) (seq 1 n)) ∅.

Lemma group_build_drops_entries :
  ('(g, file) ←? group_build md5_zero (many 315);
   again ← group_parse md5_zero file;
   Ret (Ok (length (group_entries g), match again with Ok _ => None | Err e => Some e end))) =
    Ret (Ok (315%nat, Some (FileSizeMismatch 12388 8268))).
Proof. vm_compute. reflexivity. Qed.

Lemma group_build_enough_blocks n : (n <= 314)%nat -> blocks_suffice n.
Proof.
  intros Hn. assert (Forall blocks_suffice (seq 0 315)) as H.
  { unfold blocks_suffice. decide_now. }
  rewrite Forall_forall in H. apply H. apply elem_of_seq. lia.
Qed.
