(* ===== verification/CdnArchive.v ===== *)
(** * Archives of the content delivery network

    The archive files the indices point into
    (src/crates/cascette-formats/src/archive/builder.rs and file.rs): the builder that
    appends BLTE files and records their places, the reader that takes a place to its
    content, and the stream that decompresses a file chunk by chunk.  A writer is a
    file with a position; the codecs and MD5 are parameters. *)

From S2P Require Import Prelude Bytes Text Compaction Blte CdnIndex.
Local Open Scope Z_scope.

Module CdnArchive.
Import CdnIndex.

(** ** Building *)

Record ArchiveEntry := { e_encoding_key : bytes; e_offset : Z; e_size : Z }.

(** [writer] is a file and the position in it. *)
Record ArchiveBuilder := { w_file : bytes; w_pos : nat; position : Z; b_entries : list ArchiveEntry }.

Definition archive_new (file : bytes) : ArchiveBuilder := {| w_file := file; w_pos := 0; position := 0; b_entries := [] |}.

Definition new_at_offset (file : bytes) (start_offset : Z) : ArchiveBuilder :=
  {| w_file := file; w_pos := Z.to_nat start_offset; position := start_offset; b_entries := [] |}.

Definition finish (b : ArchiveBuilder) : bytes * list ArchiveEntry := (w_file b, b_entries b).

(** ** Locations *)

Record ArchiveLocation := { archive_hash : bytes; l_offset : Z; l_size : Z }.

Definition validate_hash (l : ArchiveLocation) : aresult unit :=
  if negb (length (archive_hash l) =? 32)%nat then Err (InvalidHashLength (length (archive_hash l)))
  else if negb (forallb is_hexdigit (archive_hash l)) then Err (InvalidFormat "Invalid hex characters in hash")
  else Ok tt.

(** [ArchiveFile]: the file and the position. *)
Record ArchiveFile := { a_data : bytes; a_position : Z }.

Definition read_at_offset (a : ArchiveFile) (offset size : Z) : aresult bytes * ArchiveFile :=
  match read_exact (a_data a) (Z.to_nat offset) (Z.to_nat size) with
  | Ok data => (Ok data, {| a_data := a_data a; a_position := offset + size |})
  | Err e => (Err e, {| a_data := a_data a; a_position := offset |})
  end.

(** [BinRead] for a BLTE file that does not parse. *)
Definition parse_blte (data : bytes) : outcome (aresult Blte.BlteFile) :=
  r ← Blte.parse data; Ret (match r with Ok f => Ok f | Err _ => Err BinRead end).

Definition blte_error {A} (r : result Blte.BlteError A) : aresult A := match r with Ok a => Ok a | Err _ => Err BlteError end.

Section Codecs.
Context (md5 : bytes -> bytes).
Context (zlib_compress : bytes -> option bytes) (zlib_reads : bytes -> list bytes * bool).
Context (lz4_compress : bytes -> bytes) (lz4_compress_with_dict : bytes -> bytes -> bytes).
Context (lz4_decompress_with_dict : bytes -> nat -> bytes -> option bytes).

Definition add_blte_data (blte_data : bytes) (b : ArchiveBuilder) : ArchiveEntry * ArchiveBuilder :=
  let size := wrap32 (Z.of_nat (length blte_data)) in
  let entry := {| e_encoding_key := md5 blte_data; e_offset := position b; e_size := size |} in
  (entry, {| w_file := Compaction.write_at (w_pos b) blte_data (w_file b); w_pos := (w_pos b + length blte_data)%nat;
             position := wrap64 (position b + size); b_entries := b_entries b ++ [entry] |}).

Definition add_blte_file (blte : Blte.BlteFile) (b : ArchiveBuilder) : ArchiveEntry * ArchiveBuilder :=
  add_blte_data (Blte.build blte) b.

(** The BLTE file of a content. *)
Definition content_blte (data : bytes) (mode : Blte.CompressionMode) : outcome (aresult Blte.BlteFile) :=
  r ← Blte.add_data zlib_compress lz4_compress lz4_compress_with_dict (Blte.with_compression Blte.builder_new mode) data;
  match r with
  | Err _ => Ret (Err (InvalidFormat "Failed to create BLTE"))
  | Ok b =>
      match Blte.builder_build md5 b with
      | Err _ => Ret (Err (InvalidFormat "Failed to build BLTE"))
      | Ok blte => Ret (Ok blte)
      end
  end.

Definition add_content (data : bytes) (mode : Blte.CompressionMode) (b : ArchiveBuilder) : outcome (aresult (ArchiveEntry * ArchiveBuilder)) :=
  blte ←? content_blte data mode; Ret (Ok (add_blte_file blte b)).

(** ** Reading *)

Abbreviation KeyStore := (Z -> option (option bytes)).

Definition read_blte_at_offset (a : ArchiveFile) (offset size : Z) : outcome (aresult bytes) * ArchiveFile :=
  let '(r, a) := read_at_offset a offset size in
  (blte_data ←? Ret r; blte ←? parse_blte blte_data;
   d ← Blte.decompress zlib_reads lz4_decompress_with_dict blte; Ret (blte_error d), a).

Definition read_blte_at_offset_with_keys (fuel : nat) (a : ArchiveFile) (offset size : Z) (key_store : KeyStore) :
    outcome (aresult bytes) * ArchiveFile :=
  let '(r, a) := read_at_offset a offset size in
  (blte_data ←? Ret r; blte ←? parse_blte blte_data;
   d ← Blte.decompress_with_keys zlib_reads lz4_decompress_with_dict fuel key_store blte; Ret (blte_error d), a).

Record ArchiveReader := { archive : ArchiveFile; r_key_store : option KeyStore }.

Definition reader_new (data : bytes) : ArchiveReader := {| archive := {| a_data := data; a_position := 0 |}; r_key_store := None |}.

Definition with_archive (r : ArchiveReader) (a : ArchiveFile) : ArchiveReader := {| archive := a; r_key_store := r_key_store r |}.

Definition read_raw (r : ArchiveReader) (l : ArchiveLocation) : aresult bytes * ArchiveReader :=
  match validate_hash l with
  | Err e => (Err e, r)
  | Ok _ => let '(res, a) := read_at_offset (archive r) (l_offset l) (l_size l) in (res, with_archive r a)
  end.

Definition read_content (fuel : nat) (r : ArchiveReader) (l : ArchiveLocation) : outcome (aresult bytes) * ArchiveReader :=
  match validate_hash l with
  | Err e => (Ret (Err e), r)
  | Ok _ =>
      let '(res, a) :=
        match r_key_store r with
        | Some key_store => read_blte_at_offset_with_keys fuel (archive r) (l_offset l) (l_size l) key_store
        | None => read_blte_at_offset (archive r) (l_offset l) (l_size l)
        end in
      (res, with_archive r a)
  end.

Fixpoint read_multiple_content (fuel : nat) (r : ArchiveReader) (locations : list ArchiveLocation) :
    outcome (aresult (list bytes)) * ArchiveReader :=
  match locations with
  | [] => (Ret (Ok []), r)
  | l :: locations =>
      let '(content, r) := read_content fuel r l in
      match content with
      | Ret (Ok c) =>
          let '(rest, r) := read_multiple_content fuel r locations in
          (cs ←? rest; Ret (Ok (c :: cs)), r)
      | Ret (Err e) => (Ret (Err e), r)
      | Panic => (Panic, r)
      end
  end.

(** ** Streaming *)

Record ContentStream := {
  blte : Blte.BlteFile;
  current_chunk : nat;
  s_key_store : option KeyStore;
  buffer : bytes;
  buffer_position : nat;
}.

Definition stream_new (blte : Blte.BlteFile) (key_store : option KeyStore) : ContentStream :=
  {| blte := blte; current_chunk := 0; s_key_store := key_store; buffer := []; buffer_position := 0 |}.

Definition stream_content (r : ArchiveReader) (l : ArchiveLocation) : outcome (aresult ContentStream) * ArchiveReader :=
  match validate_hash l with
  | Err e => (Ret (Err e), r)
  | Ok _ =>
      let '(res, a) := read_at_offset (archive r) (l_offset l) (l_size l) in
      (blte_data ←? Ret res; f ←? parse_blte blte_data; Ret (Ok (stream_new f (r_key_store r))), with_archive r a)
  end.

Definition has_more_chunks (s : ContentStream) : bool := (current_chunk s <? length (Blte.chunks (blte s)))%nat.

(** [read_chunk]; with keys, a chunk that does not decompress is decrypted. *)
Definition read_chunk (s : ContentStream) : outcome (aresult (option bytes)) * ContentStream :=
  match Blte.chunks (blte s) !! current_chunk s with
  | None => (Ret (Ok None), s)
  | Some chunk =>
      let plain := Blte.chunk_decompress zlib_reads lz4_decompress_with_dict chunk in
      let decompressed :=
        match s_key_store s with
        | Some key_store =>
            r ← plain;
            match r with
            | Ok d => Ret (Ok d)
            | Err _ => Blte.decrypt_chunk_with_keys zlib_reads lz4_decompress_with_dict key_store (Blte.data chunk) (current_chunk s)
            end
        | None => plain
        end in
      match decompressed with
      | Ret (Ok d) =>
          (Ret (Ok (Some d)), {| blte := blte s; current_chunk := S (current_chunk s); s_key_store := s_key_store s;
                                 buffer := buffer s; buffer_position := buffer_position s |})
      | Ret (Err _) => (Ret (Err BlteError), s)
      | Panic => (Panic, s)
      end
  end.

Definition read_all (fuel : nat) (s : ContentStream) : outcome (aresult bytes) :=
  d ← match s_key_store s with
      | Some key_store => Blte.decompress_with_keys zlib_reads lz4_decompress_with_dict fuel key_store (blte s)
      | None => Blte.decompress zlib_reads lz4_decompress_with_dict (blte s)
      end;
  Ret (blte_error d).

Definition set_buffer (s : ContentStream) (d : bytes) (p : nat) : ContentStream :=
  {| blte := blte s; current_chunk := current_chunk s; s_key_store := s_key_store s; buffer := d; buffer_position := p |}.

(** The loop of [read] that fills the buffer, one chunk after the other while it is
    exhausted. *)
Fixpoint fill (fuel : nat) (s : ContentStream) : outcome (aresult unit) * ContentStream :=
  match fuel with
  | O => (Ret (Ok tt), s)
  | S fuel =>
      if (length (buffer s) <=? buffer_position s)%nat && has_more_chunks s then
        match read_chunk s with
        | (Ret (Ok (Some chunk_data)), s) => fill fuel (set_buffer s chunk_data 0)
        | (Ret (Ok None), s) => (Ret (Ok tt), s)
        | (Ret (Err e), s) => (Ret (Err e), s)
        | (Panic, s) => (Panic, s)
        end
      else (Ret (Ok tt), s)
  end.

(** [Read::read] into a buffer of [n] bytes: the bytes it copies. *)
Definition read (n : nat) (s : ContentStream) : outcome (aresult bytes) * ContentStream :=
  match fill (S (length (Blte.chunks (blte s)))) s with
  | (Ret (Ok _), s) =>
      if (buffer_position s <? length (buffer s))%nat then
        let available := (length (buffer s) - buffer_position s)%nat in
        let to_copy := (n `min` available)%nat in
        (Ret (Ok (slice (buffer_position s) (buffer_position s + to_copy) (buffer s))),
         set_buffer s (buffer s) (buffer_position s + to_copy))
      else (Ret (Ok []), s)
  | (Ret (Err e), s) => (Ret (Err e), s)
  | (Panic, s) => (Panic, s)
  end.

End Codecs.
End CdnArchive.
