(* ===== verification/CdnArchiveTheorems.v ===== *)
(** * Archives of the content delivery network: theorems

    Content added to an archive is found through the index built from the entries and
    reads back; the stream delivers what reading everything at once delivers. *)

From S2P Require Import Prelude Bytes Text Collections Compaction Blte BlteTheorems CdnIndex CdnIndexTheorems CdnArchive.
Import CdnIndex CdnArchive.
Local Open Scope Z_scope.

Section Contents.
Context (md5 : bytes -> bytes) (zc : bytes -> option bytes) (zr : bytes -> list bytes * bool).
Context (lc : bytes -> bytes) (lcd : bytes -> bytes -> bytes) (ld : bytes -> nat -> bytes -> option bytes).
Context (Hcodecs : codecs_ok md5 zc zr lc lcd ld).

(** ** The BLTE file of a content *)

Lemma split_loop_two make fuel size d i cs :
  (0 < size < length d)%nat -> (length d <= fuel)%nat -> Blte.split_loop make fuel size d i = Ret (Ok cs) -> (2 <= length cs)%nat.
Proof.
  intros Hs Hf. destruct fuel as [|fuel]; [lia|]. cbn [Blte.split_loop]. rewrite (proj2 (Nat.eqb_neq _ _)) by lia.
  intros (c & _ & H)%try_bind_Ok. apply try_bind_Ok in H as (cs' & H' & [= <-]). destruct fuel as [|fuel].
  - cbn [Blte.split_loop] in H'. rewrite length_drop, Nat.min_l in H' by lia. destruct (Nat.eqb_spec (length d - size) 0); [lia|done].
  - cbn [Blte.split_loop] in H'. rewrite length_drop in H'. rewrite (proj2 (Nat.eqb_neq _ _)) in H' by lia.
    apply try_bind_Ok in H' as (c' & _ & H'). apply try_bind_Ok in H' as (cs'' & _ & [= <-]). simpl. lia.
Qed.

(** The builder makes the file [compress] makes with the default chunk size. *)
Lemma content_blte_compress d m f :
  plain m -> Blte.compress md5 zc lc lcd d Blte.DEFAULT_CHUNK_SIZE m = Ret (Ok f) -> content_blte md5 zc lc lcd d m = Ret (Ok f).
Proof.
  intros Hm. unfold Blte.compress, content_blte, Blte.add_data, Blte.add_pieces.
  cbn [Blte.with_compression Blte.builder_new Blte.encryption Blte.chunk_size].
  destruct (length d <=? Blte.DEFAULT_CHUNK_SIZE)%nat eqn:E.
  - cbn [Blte.make_chunk]. change (Blte.default_mode (Blte.with_compression Blte.builder_new m)) with m. unfold Blte.single_chunk.
    destruct (chunk_new_ok md5 zc zr lc lcd ld Hcodecs d m Hm) as (c & -> & Hmc & _). cbn [mbind result_bind try_bind outcome_bind]. intros [= <-].
    unfold Blte.builder_build.
    cbn [Blte.push_chunks Blte.with_compression Blte.builder_new Blte.b_chunks app existsb length Nat.eqb]. rewrite bool_decide_false by (destruct Hm as [->|[->| ->]]; congruence).
    done.
  - apply Nat.leb_gt in E. change (Blte.make_chunk zc lc lcd _ None) with (fun x (_ : nat) => @Ret (result Blte.BlteError Blte.ChunkData) (Blte.chunk_new zc lc lcd x m)).
    intros (cs & Hcs & H)%try_bind_Ok. rewrite Hcs. cbn [try_bind]. change (mbind (M:=outcome) ?k (Ret ?x)) with (k x). cbv beta iota.
    assert (0 < Blte.DEFAULT_CHUNK_SIZE)%nat as Hpos by (unfold Blte.DEFAULT_CHUNK_SIZE; lia).
    pose proof (split_loop_two _ _ _ _ _ _ (conj Hpos E) (le_n _) Hcs) as L.
    unfold Blte.builder_build. cbn [Blte.push_chunks Blte.with_compression Blte.builder_new Blte.b_chunks app]. rewrite (proj2 (Nat.eqb_neq (length cs) 1)) by lia. cbn [andb].
    unfold Blte.multi_chunk in H. injection H as H. destruct cs as [|c cs]; [simpl in L; lia|]. by rewrite H.
Qed.

Lemma chunk_fits_build f : Z.of_nat (length (Blte.build f)) < 2 ^ 32 -> Forall chunk_fits (Blte.chunks f).
Proof.
  unfold Blte.build. rewrite length_app. intros H. assert (Z.of_nat (length (concat (map Blte.write_chunk (Blte.chunks f)))) < 2 ^ 32) as H2 by lia.
  clear H. induction (Blte.chunks f) as [|c cs IH]; [constructor|]. cbn [map concat] in H2. rewrite length_app in H2. constructor.
  - unfold chunk_fits, Blte.compressed_size. unfold Blte.write_chunk in H2. cbn [length] in H2. lia.
  - apply IH. lia.
Qed.

(** What is stored for a content. *)
Definition stores (item : bytes * Blte.CompressionMode) (blob : bytes) : Prop :=
  exists f, content_blte md5 zc lc lcd item.1 item.2 = Ret (Ok f) /\ blob = Blte.build f /\
    (Z.of_nat (length blob) < 2 ^ 32 ->
     exists f', Blte.parse blob = Ret (Ok f') /\ Blte.decompress zr ld f' = Ret (Ok item.1)).

Definition content_ok (item : bytes * Blte.CompressionMode) : Prop :=
  plain item.2 /\ Z.of_nat (length item.1) <= Blte.MAX_DECOMPRESSION_SIZE.

Lemma content_stores item : content_ok item -> exists blob, stores item blob.
Proof.
  intros [Hm Hl]. destruct (compress_roundtrip md5 zc zr lc lcd ld Hcodecs item.1 Blte.DEFAULT_CHUNK_SIZE item.2) as (f & Hf & Hback); try done.
  - unfold Blte.DEFAULT_CHUNK_SIZE. lia.
  - unfold Blte.DEFAULT_CHUNK_SIZE, Blte.MAX_DECOMPRESSION_SIZE in *. lia.
  - exists (Blte.build f), f. split_and!; [by apply content_blte_compress|done|]. intros H. apply Hback. by apply chunk_fits_build.
Qed.

(** ** A sequence of additions *)

Fixpoint add_contents (items : list (bytes * Blte.CompressionMode)) (b : ArchiveBuilder) : outcome (aresult ArchiveBuilder) :=
  match items with
  | [] => Ret (Ok b)
  | (d, m) :: items => '(_, b) ←? add_content md5 zc lc lcd d m b; add_contents items b
  end.

Definition after (b : ArchiveBuilder) (blobs : list bytes) : ArchiveBuilder := fold_left (fun b x => (add_blte_data md5 x b).2) blobs b.

Lemma add_contents_ok items b :
  Forall content_ok items -> exists blobs, Forall2 stores items blobs /\ add_contents items b = Ret (Ok (after b blobs)).
Proof.
  intros H. revert b. induction H as [|[d m] items Hi _ IH]; intros b; [by exists []|].
  destruct (content_stores (d, m) Hi) as (blob & Hst). pose proof Hst as (f & Hf & Hb & _). cbn [fst snd] in Hf.
  cbn [add_contents]. unfold add_content. rewrite Hf. cbn [try_bind]. unfold add_blte_file. rewrite <- Hb.
  destruct (add_blte_data md5 blob b) as [e b'] eqn:E. destruct (IH b') as (blobs & H2 & ->). exists (blob :: blobs). split; [by constructor|].
  unfold after. cbn [fold_left]. by rewrite E.
Qed.

(** The entries of blobs laid side by side from [p] on. *)
Fixpoint layout_entries (p : Z) (blobs : list bytes) : list ArchiveEntry :=
  match blobs with
  | [] => []
  | x :: blobs =>
      {| e_encoding_key := md5 x; e_offset := p; e_size := Z.of_nat (length x) |} :: layout_entries (p + Z.of_nat (length x)) blobs
  end.

Lemma write_at_end x file : Compaction.write_at (length file) x file = file ++ x.
Proof.
  unfold Compaction.write_at. destruct x as [|y x]; [by rewrite app_nil_r|]. unfold copy_at.
  rewrite take_app_length', drop_ge; [by rewrite app_nil_r|rewrite length_app, length_zeros; lia|lia].
Qed.

Lemma after_layout file es blobs :
  Z.of_nat (length file + length (concat blobs)) < 2 ^ 32 ->
  after {| w_file := file; w_pos := length file; position := Z.of_nat (length file); CdnArchive.b_entries := es |} blobs =
    {| w_file := file ++ concat blobs; w_pos := length (file ++ concat blobs); position := Z.of_nat (length (file ++ concat blobs));
       CdnArchive.b_entries := es ++ layout_entries (Z.of_nat (length file)) blobs |}.
Proof.
  revert file es. induction blobs as [|x blobs IH]; intros file es H; [by rewrite !app_nil_r|].
  cbn [concat] in H. rewrite length_app in H. unfold after. cbn [fold_left].
  assert ((add_blte_data md5 x {| w_file := file; w_pos := length file; position := Z.of_nat (length file); CdnArchive.b_entries := es |}).2 =
    {| w_file := file ++ x; w_pos := length (file ++ x); position := Z.of_nat (length (file ++ x));
       CdnArchive.b_entries := es ++ [{| e_encoding_key := md5 x; e_offset := Z.of_nat (length file); e_size := Z.of_nat (length x) |}] |}) as ->.
  { unfold add_blte_data. cbn [snd w_file w_pos position CdnArchive.b_entries]. rewrite write_at_end. unfold wrap32, wrap64.
    rewrite (wrap_small 32) by (unfold in_u; lia). rewrite (wrap_small 64) by (unfold in_u; lia). by rewrite length_app, Nat2Z.inj_add. }
  fold (after {| w_file := file ++ x; w_pos := length (file ++ x); position := Z.of_nat (length (file ++ x));
    CdnArchive.b_entries := es ++ [{| e_encoding_key := md5 x; e_offset := Z.of_nat (length file); e_size := Z.of_nat (length x) |}] |} blobs).
  rewrite IH by (rewrite length_app; lia). cbn [concat layout_entries]. rewrite <- !app_assoc, (length_app file x), Nat2Z.inj_add. done.
Qed.

Lemma after_file b blobs : w_pos b = length (w_file b) -> w_file (after b blobs) = w_file b ++ concat blobs.
Proof.
  revert b. induction blobs as [|x blobs IH]; intros b Hb; [by rewrite app_nil_r|]. unfold after. cbn [fold_left concat].
  fold (after (add_blte_data md5 x b).2 blobs). cbn [add_blte_data snd]. rewrite IH; cbn [w_file w_pos]; rewrite Hb, write_at_end; [by rewrite app_assoc|].
  by rewrite length_app.
Qed.

(** The bytes an entry points to. *)
Definition entry_bytes (file : bytes) (e : ArchiveEntry) : bytes :=
  slice (Z.to_nat (e_offset e)) (Z.to_nat (e_offset e) + Z.to_nat (e_size e)) file.

Lemma layout_lookup pre blobs i e :
  layout_entries (Z.of_nat (length pre)) blobs !! i = Some e ->
  exists x, blobs !! i = Some x /\ e_encoding_key e = md5 x /\ entry_bytes (pre ++ concat blobs) e = x /\ e_size e = Z.of_nat (length x) /\
    0 <= e_offset e /\ e_offset e + e_size e <= Z.of_nat (length (pre ++ concat blobs)).
Proof.
  revert pre i. induction blobs as [|x blobs IH]; intros pre i; [done|]. cbn [layout_entries concat].
  destruct i as [|i]; cbn [lookup list_lookup].
  - intros [= <-]. exists x. split_and!; try done; [|cbn [e_offset]; lia|cbn [e_offset e_size]; rewrite !length_app; lia].
    unfold entry_bytes. cbn [e_offset e_size]. rewrite !Nat2Z.id. rewrite slice_app_r by lia. rewrite Nat.sub_diag, Nat.add_comm, Nat.add_sub.
    by apply slice_app_exact.
  - rewrite <- Nat2Z.inj_add, <- length_app. intros H. destruct (IH (pre ++ x) i H) as (y & Hy). exists y.
    rewrite <- app_assoc in Hy. exact Hy.
Qed.

Lemma layout_length p blobs : length (layout_entries p blobs) = length blobs.
Proof. revert p. induction blobs; intros p; cbn [layout_entries length]; auto. Qed.

(** ** The index of an archive *)

(** The index the documentation builds from the entries of an archive. *)
Definition index_builder (es : list ArchiveEntry) : ArchiveIndexBuilder :=
  fold_left (fun b e => add_entry (e_encoding_key e) (e_size e) (e_offset e) b) es builder_new.

Definition to_entry (e : ArchiveEntry) : IndexEntry := entry_new (e_encoding_key e) (e_size e) (e_offset e).

Lemma index_builder_eq es : index_builder es = set_entries (map to_entry es) builder_new.
Proof.
  unfold index_builder. assert (forall l, fold_left (fun b e => add_entry (e_encoding_key e) (e_size e) (e_offset e) b) es (set_entries l builder_new) =
    set_entries (l ++ map to_entry es) builder_new) as G; [|apply (G [])].
  induction es as [|e es IH]; intros l; cbn [fold_left map]; [by rewrite app_nil_r|].
  change (add_entry _ _ _ (set_entries l builder_new)) with (set_entries (l ++ [to_entry e]) builder_new). rewrite IH.
  by rewrite <- app_assoc.
Qed.

(** Different content under one key does not occur. *)
Definition no_collision (b : ArchiveBuilder) : Prop :=
  forall e1 e2, e1 ∈ CdnArchive.b_entries b -> e2 ∈ CdnArchive.b_entries b -> e_encoding_key e1 = e_encoding_key e2 ->
    entry_bytes (w_file b) e1 = entry_bytes (w_file b) e2.

Context (Hmd5 : forall d, is_array 16 (md5 d)).

Lemma layout_builder_ok blobs :
  Forall (fun x => x <> []) blobs -> Z.of_nat (length (concat blobs)) < 2 ^ 32 -> builder_ok (index_builder (layout_entries 0 blobs)).
Proof.
  intros Hne Hlen. rewrite index_builder_eq. unfold builder_ok. cbn [set_entries CdnIndex.b_hash_bytes CdnIndex.b_size_bytes
    CdnIndex.b_key_size CdnIndex.b_offset_bytes CdnIndex.b_entries builder_new with_config]. split_and!; [done|done|unfold widths_ok; lia| |].
  - apply Forall_map, Forall_lookup_2. intros i e He. destruct (layout_lookup [] blobs i e He) as (x & Hx & Hk & _ & Hs & Ho & Hl).
    eapply Forall_lookup_1 in Hne; [|exact Hx]. rewrite app_nil_l in Hl. unfold entry_ok, to_entry. cbn [encoding_key size entry_new]. rewrite Hk, Hs.
    assert (0 < length x)%nat by (destruct x; simpl; [done|lia]).
    split_and!; [apply Hmd5|unfold in_u; lia|unfold place_ok; cbn [archive_index offset entry_new]; right; left; unfold in_u; lia|].
    unfold is_zero. cbn [encoding_key size offset entry_new]. rewrite (proj2 (Z.eqb_neq (Z.of_nat (length x)) 0)) by lia. by rewrite andb_false_r.
  - rewrite length_map, layout_length. assert (length blobs <= length (concat blobs))%nat; [|unfold in_u; lia].
    clear -Hne. induction Hne as [|x blobs Hx _ IH]; [done|]. cbn [concat length]. rewrite length_app.
    destruct x; [done|]. simpl. lia.
Qed.

Lemma stores_nonempty item blob : stores item blob -> blob <> [].
Proof. intros (f & _ & -> & Hback) E. rewrite E in Hback. destruct Hback as (f' & Hp & _); [done|]. vm_compute in Hp. done. Qed.

Lemma read_content_at fuel file hash e d f' :
  validate_hash {| archive_hash := hash; l_offset := e_offset e; l_size := e_size e |} = Ok tt ->
  0 <= e_offset e -> 0 <= e_size e -> e_offset e + e_size e <= Z.of_nat (length file) ->
  Blte.parse (entry_bytes file e) = Ret (Ok f') -> Blte.decompress zr ld f' = Ret (Ok d) ->
  (read_content zr ld fuel (reader_new file) {| archive_hash := hash; l_offset := e_offset e; l_size := e_size e |}).1 = Ret (Ok d).
Proof.
  intros Hh Ho Hs Hl Hp Hd. unfold read_content. rewrite Hh. cbn [reader_new r_key_store archive]. unfold read_blte_at_offset, read_at_offset.
  cbn [a_data l_offset l_size]. unfold read_exact. rewrite (proj2 (Nat.leb_le _ _)) by lia. fold (entry_bytes file e).
  cbn [fst try_bind]. unfold parse_blte. rewrite Hp. cbn [mbind outcome_bind try_bind]. by rewrite Hd.
Qed.

Lemma archive_finds items blobs fuel hash :
  Forall2 stores items blobs -> Z.of_nat (length (concat blobs)) < 2 ^ 32 ->
  let b := after (archive_new []) blobs in
  no_collision b -> length hash = 32%nat -> forallb is_hexdigit hash = true ->
  exists index file, CdnIndex.builder_build md5 (index_builder (CdnArchive.b_entries b)) = Ret (Ok (index, file)) /\
    CdnIndex.parse md5 file = Ret (Ok index) /\
    forall i d m e, items !! i = Some (d, m) -> CdnArchive.b_entries b !! i = Some e ->
      exists ie, find_entry index (e_encoding_key e) = Ret (Some ie) /\
        (read_content zr ld fuel (reader_new (w_file b)) {| archive_hash := hash; l_offset := offset ie; l_size := size ie |}).1 = Ret (Ok d).
Proof.
  intros Hst Hlen b Hnc Hh1 Hh2. assert (b = {| w_file := concat blobs; w_pos := length (concat blobs); position := Z.of_nat (length (concat blobs));
    CdnArchive.b_entries := layout_entries 0 blobs |}) as Hb by (by apply (after_layout [] [])).
  rewrite Hb in *. cbn [w_file CdnArchive.b_entries] in *. clear b Hb.
  assert (Forall (fun x => x <> []) blobs) as Hne.
  { apply Forall_lookup_2. intros i x Hx. destruct (Forall2_lookup_r _ _ _ _ _ Hst Hx) as (it & _ & Hs). by eapply stores_nonempty. }
  pose proof (layout_builder_ok blobs Hne Hlen) as Hbok. set (ib := index_builder (layout_entries 0 blobs)) in *.
  exists (built_index md5 ib), (built_file md5 ib). split_and!; [by apply builder_build_eq|by apply parse_built|].
  intros i d m e Hi He. destruct (layout_lookup [] blobs i e He) as (x & Hx & Hk & Hbytes & _).
  destruct (find_entry_spec _ _ (e_encoding_key e) (built_index_ok md5 Hmd5 ib Hbok)) as (r & Hr & Hspec & _). rewrite Hr.
  assert (forall e', e' ∈ layout_entries 0 blobs -> to_entry e' ∈ entries (built_index md5 ib)) as Hin.
  { intros e' He'. cbn [entries built_index]. unfold built_entries. rewrite sort_by_key_perm. unfold ib. rewrite index_builder_eq. by apply list_elem_of_fmap_2. }
  destruct r as [ie|]; [|exfalso; apply (Hspec (to_entry e)); [apply Hin; by eapply list_elem_of_lookup_2|done]].
  exists ie. split; [done|]. destruct Hspec as [Hie Hke]. cbn [entries built_index] in Hie. unfold built_entries in Hie.
  rewrite sort_by_key_perm in Hie. unfold ib in Hie. rewrite index_builder_eq in Hie. cbn [set_entries CdnIndex.b_entries] in Hie.
  apply list_elem_of_fmap in Hie as (e2 & -> & He2). cbn [to_entry entry_new encoding_key offset size] in *.
  pose proof He2 as [j Hj]%list_elem_of_lookup. destruct (layout_lookup [] blobs j e2 Hj) as (y & Hy & _ & Hb2 & Hs2 & Ho2 & Hl2).
  rewrite app_nil_l in *. assert (entry_bytes (concat blobs) e2 = x) as Hex.
  { rewrite <- Hbytes. apply (Hnc e2 e); [done|by eapply list_elem_of_lookup_2|done]. }
  destruct (Forall2_lookup_lr _ _ _ _ _ _ Hst Hi Hx) as (f & _ & _ & Hback).
  destruct Hback as (f' & Hp & Hd).
  { rewrite <- (take_drop_middle _ _ _ Hx), concat_app in Hlen. cbn [concat] in Hlen. rewrite !length_app in Hlen. lia. }
  apply (read_content_at fuel (concat blobs) hash e2 d f'); [|lia|lia|done|by rewrite Hex|done].
  unfold validate_hash. cbn [archive_hash]. rewrite Hh1, Hh2. done.
Qed.

(** One entry per blob, in order, with its key and its place. *)
Lemma after_keys blobs :
  Z.of_nat (length (concat blobs)) < 2 ^ 32 ->
  let b := after (archive_new []) blobs in
  map e_encoding_key (CdnArchive.b_entries b) = map md5 blobs /\ map (entry_bytes (w_file b)) (CdnArchive.b_entries b) = blobs /\
  ((forall x y, x ∈ blobs -> y ∈ blobs -> md5 x = md5 y -> x = y) -> no_collision b).
Proof.
  intros Hlen b. assert (b = {| w_file := concat blobs; w_pos := length (concat blobs); position := Z.of_nat (length (concat blobs));
    CdnArchive.b_entries := layout_entries 0 blobs |}) as -> by (by apply (after_layout [] [])). unfold no_collision. cbn [w_file CdnArchive.b_entries].
  assert (forall i e, layout_entries 0 blobs !! i = Some e ->
    exists x, blobs !! i = Some x /\ e_encoding_key e = md5 x /\ entry_bytes (concat blobs) e = x) as Hl.
  { intros i e He. destruct (layout_lookup [] blobs i e He) as (x & Hx & Hk & Hb & _). eauto. }
  split_and!.
  - apply list_eq_same_length with (length blobs); [by rewrite length_map|by rewrite length_map, layout_length|].
    intros i k k' _ Hk Hk'. apply list_lookup_fmap_Some in Hk as (e & -> & He), Hk' as (x & -> & Hx).
    destruct (Hl i e He) as (y & Hy & Hek & _). congruence.
  - apply list_eq_same_length with (length blobs); [done|by rewrite length_map, layout_length|].
    intros i k x _ Hk Hx. apply list_lookup_fmap_Some in Hk as (e & -> & He). destruct (Hl i e He) as (y & Hy & _ & Hb). congruence.
  - intros Hnc e1 e2 [i Hi]%list_elem_of_lookup [j Hj]%list_elem_of_lookup Ek.
    destruct (Hl i e1 Hi) as (x & Hx & Hkx & ->). destruct (Hl j e2 Hj) as (y & Hy & Hky & ->).
    apply Hnc; [by eapply list_elem_of_lookup_2..|congruence].
Qed.

End Contents.

(** C9: A whole archive: content added one piece after the other in any supported
    compression mode, the index built from the entries and read back from its file.
    Adding succeeds, and the file is the BLTE encodings of the pieces side by side;
    when it stays below 4 GiB and no two different encodings share an MD5, there is
    one entry per piece, in order, with the MD5 and the place of its encoding, and
    looking up the MD5 of every added piece in the parsed index gives a place from
    which the reader returns the content of that piece. *)
Theorem cdn_archive_roundtrip (md5 : bytes -> bytes) zc zr lc lcd ld items fuel hash :
  codecs_ok md5 zc zr lc lcd ld -> (forall d, is_array 16 (md5 d)) -> Forall content_ok items ->
  length hash = 32%nat -> forallb is_hexdigit hash = true ->
  exists b blobs, add_contents md5 zc lc lcd items (archive_new []) = Ret (Ok b) /\
    Forall2 (fun item blob => exists f, content_blte md5 zc lc lcd item.1 item.2 = Ret (Ok f) /\ blob = Blte.build f) items blobs /\
    w_file b = concat blobs /\
    (Z.of_nat (length (w_file b)) < 2 ^ 32 -> (forall x y, x ∈ blobs -> y ∈ blobs -> md5 x = md5 y -> x = y) ->
     map e_encoding_key (CdnArchive.b_entries b) = map md5 blobs /\
     map (entry_bytes (w_file b)) (CdnArchive.b_entries b) = blobs /\
     exists index file, CdnIndex.builder_build md5 (index_builder (CdnArchive.b_entries b)) = Ret (Ok (index, file)) /\
       CdnIndex.parse md5 file = Ret (Ok index) /\
       Forall2 (fun item blob =>
         exists ie, find_entry index (md5 blob) = Ret (Some ie) /\
           (read_content zr ld fuel (reader_new (w_file b)) {| archive_hash := hash; l_offset := offset ie; l_size := size ie |}).1
             = Ret (Ok item.1)) items blobs).
Proof.
  intros Hc Hmd5 Hi Hh1 Hh2. destruct (add_contents_ok md5 zc zr lc lcd ld Hc items (archive_new []) Hi) as (blobs & Hst & Hadd).
  exists (after md5 (archive_new []) blobs), blobs. split; [done|].
  split; [eapply Forall2_impl; [exact Hst|]; intros item blob (f & H1 & H2 & _); eauto|].
  split; [by rewrite after_file by done|]. intros Hlen Hnc. rewrite after_file in Hlen by done.
  destruct (after_keys md5 blobs Hlen) as (Hk & Hb & Hcoll). split; [done|]. split; [done|].
  destruct (archive_finds md5 zc zr lc lcd ld Hmd5 items blobs fuel hash Hst Hlen (Hcoll Hnc) Hh1 Hh2) as (index & file & H1 & H2 & Hf).
  exists index, file. split; [done|]. split; [done|]. apply Forall2_same_length_lookup_2; [by eapply Forall2_length|].
  intros i [d m] x Hd Hx. assert (exists e, CdnArchive.b_entries (after md5 (archive_new []) blobs) !! i = Some e /\ e_encoding_key e = md5 x)
    as (e & He & <-); [|by apply (Hf i d m e)].
  assert (map e_encoding_key (CdnArchive.b_entries (after md5 (archive_new []) blobs)) !! i = Some (md5 x)) as Hki by (rewrite Hk; by rewrite list_lookup_fmap, Hx).
  apply list_lookup_fmap_Some in Hki as (e & ? & ?). eauto.
Qed.

(** ** The stream *)

Section Stream.
Context (zr : bytes -> list bytes * bool) (ld : bytes -> nat -> bytes -> option bytes).

(** What the chunks from [i] on decompress to. *)
Definition rest_of (f : Blte.BlteFile) (i : nat) : outcome (result Blte.BlteError bytes) :=
  Blte.append_each (fun _ c => Blte.chunk_decompress zr ld c) 0 (drop i (Blte.chunks f)).

(** What the stream has still to deliver. *)
Definition pending (s : ContentStream) (d : bytes) : Prop :=
  s_key_store s = None /\ exists rest, rest_of (blte s) (current_chunk s) = Ret (Ok rest) /\ d = drop (buffer_position s) (buffer s) ++ rest.

Lemma append_each_index {A} (g : A -> outcome (result Blte.BlteError bytes)) i j l :
  Blte.append_each (fun _ c => g c) i l = Blte.append_each (fun _ c => g c) j l.
Proof. revert i j. induction l as [|x l IH]; intros i j; cbn [Blte.append_each]; [done|]. by rewrite (IH (S i) (S j)). Qed.

Lemma rest_of_cons f i c rest :
  Blte.chunks f !! i = Some c -> rest_of f i = Ret (Ok rest) ->
  exists d rest', Blte.chunk_decompress zr ld c = Ret (Ok d) /\ rest_of f (S i) = Ret (Ok rest') /\ rest = d ++ rest'.
Proof.
  intros Hc. unfold rest_of. rewrite (drop_S _ _ _ Hc). cbn [Blte.append_each]. intros (d & Hd & H)%try_bind_Ok.
  apply try_bind_Ok in H as (rest' & Hr & [= <-]). exists d, rest'. split_and!; [done| |done].
  by rewrite (append_each_index _ 0 1).
Qed.

Lemma fill_ok fuel s d :
  pending s d -> (length (Blte.chunks (blte s)) - current_chunk s < fuel)%nat ->
  exists s', fill zr ld fuel s = (Ret (Ok tt), s') /\ pending s' d /\
    ((buffer_position s' < length (buffer s'))%nat \/ d = []).
Proof.
  revert s. induction fuel as [|fuel IH]; intros s Hp Hf; [lia|]. cbn [fill]. destruct Hp as [Hk (rest & Hr & Hd)].
  destruct (Nat.leb_spec (length (buffer s)) (buffer_position s)) as [Hb|Hb]; cbn [andb].
  2: { exists s. split_and!; [done|split; [done|eauto]|by left]. }
  unfold has_more_chunks. destruct (Nat.ltb_spec (current_chunk s) (length (Blte.chunks (blte s)))) as [Hc|Hc].
  - destruct (lookup_lt_is_Some_2 _ _ Hc) as [c Hcc]. destruct (rest_of_cons _ _ _ _ Hcc Hr) as (x & rest' & Hx & Hr' & ->).
    unfold read_chunk. rewrite Hcc, Hk, Hx. apply IH; cbn [set_buffer blte current_chunk buffer buffer_position]; [|lia].
    split; [done|]. exists rest'. split; [done|]. cbn [set_buffer buffer buffer_position]. rewrite drop_0, Hd.
    by rewrite (drop_ge (buffer s)) by lia.
  - exists s. split_and!; [done|split; [done|eauto]|]. right. rewrite Hd, drop_ge by lia. unfold rest_of in Hr. rewrite drop_ge in Hr by lia.
    by injection Hr as <-.
Qed.

Lemma read_ok n s d :
  pending s d -> exists p d' s', read zr ld n s = (Ret (Ok p), s') /\ pending s' d' /\ d = p ++ d' /\ (length p <= n)%nat /\
    ((0 < n)%nat -> p = [] -> d = []).
Proof.
  intros Hp. destruct (fill_ok (S (length (Blte.chunks (blte s)))) s d Hp ltac:(lia)) as (s1 & Hf & Hp1 & Hbuf). unfold read. rewrite Hf.
  destruct (Nat.ltb_spec (buffer_position s1) (length (buffer s1))) as [Hb|Hb].
  - destruct Hp1 as [Hk (rest & Hr & Hd)]. set (k := (n `min` (length (buffer s1) - buffer_position s1))%nat).
    exists (slice (buffer_position s1) (buffer_position s1 + k) (buffer s1)), (drop (buffer_position s1 + k) (buffer s1) ++ rest).
    eexists. split_and!; [done| | | |].
    + split; [done|]. exists rest. done.
    + rewrite app_assoc, Hd. f_equal. unfold slice. replace (buffer_position s1 + k - buffer_position s1)%nat with k by lia.
      rewrite <- drop_drop. by rewrite take_drop.
    + rewrite length_slice by lia. lia.
    + intros Hn Hnil. apply (f_equal length) in Hnil. rewrite length_slice in Hnil by lia. simpl in Hnil. lia.
  - destruct Hbuf as [|Hd]; [lia|]. exists [], d. eexists. split_and!; [done|done|done|simpl; lia|done].
Qed.

(** A sequence of reads with buffers of the given sizes. *)
Fixpoint read_many (sizes : list nat) (s : ContentStream) : outcome (aresult (list bytes)) :=
  match sizes with
  | [] => Ret (Ok [])
  | n :: sizes => let '(r, s) := read zr ld n s in p ←? r; ps ←? read_many sizes s; Ret (Ok (p :: ps))
  end.

Lemma read_many_ok sizes s d :
  pending s d -> exists ps rest, read_many sizes s = Ret (Ok ps) /\ d = concat ps ++ rest /\
    Forall2 (fun n p => (length p <= n)%nat /\ ((0 < n)%nat -> p = [] -> rest = [])) sizes ps.
Proof.
  revert s d. induction sizes as [|n sizes IH]; intros s d Hp; cbn [read_many]; [by exists [], d|].
  destruct (read_ok n s d Hp) as (p & d' & s' & -> & Hp' & Hd & Hlen & Hend). cbn [try_bind].
  destruct (IH s' d' Hp') as (ps & rest & -> & Hd' & Hall). cbn [try_bind]. exists (p :: ps), rest. split_and!; [done| |].
  - cbn [concat]. by rewrite <- app_assoc, <- Hd'.
  - constructor; [|done]. split; [done|]. intros Hn Hnil. specialize (Hend Hn Hnil). rewrite Hend in Hd. symmetry in Hd.
    apply app_eq_nil in Hd as [_ Hd]. rewrite Hd in Hd'. symmetry in Hd'. by apply app_eq_nil in Hd' as [_ ?].
Qed.

End Stream.

(** Streaming a BLTE file agrees with decompressing it at once: whatever buffer
    sizes it is read with, the pieces are the beginning of the content, none is longer
    than its buffer, and a read into a buffer that is not empty returns nothing only
    when all of the content has been delivered, also across chunks that are empty. *)
Theorem stream_agrees_with_read_all (zr : bytes -> list bytes * bool) ld fuel f d sizes :
  read_all zr ld fuel (stream_new f None) = Ret (Ok d) ->
  exists ps rest, read_many zr ld sizes (stream_new f None) = Ret (Ok ps) /\ d = concat ps ++ rest /\
    Forall2 (fun n p => (length p <= n)%nat /\ ((0 < n)%nat -> p = [] -> rest = [])) sizes ps.
Proof.
  intros H. apply read_many_ok. split; [done|]. exists d. split; [|done]. unfold rest_of. cbn [stream_new blte current_chunk]. rewrite drop_0.
  unfold read_all in H. cbn [stream_new s_key_store blte] in H. unfold Blte.decompress in H.
  destruct (Blte.append_each _ 0 (Blte.chunks f)) as [[x|]|]; [|done|done]. by injection H as ->.
Qed.

(** ** Concrete archives *)

(** A digest that tells short strings apart. *)
Definition md5_tail (d : bytes) : bytes := to_be_bytes 16 (from_be_bytes d).

Lemma md5_tail_ok d : is_array 16 (md5_tail d).
Proof. split; [apply length_to_be_bytes|apply to_be_bytes_bytes]. Qed.

Lemma tail_codecs_ok : codecs_ok md5_tail store_zlib store_reads store_lz4 store_lz4_dict store_decode.
Proof. destruct store_codecs_ok. split; try done. Qed.

Definition sample_contents : list (bytes * Blte.CompressionMode) := [([1; 2; 3], Blte.None_); ([], Blte.ZLib); ([4; 5], Blte.LZ4); ([1; 2; 3], Blte.None_)].

Lemma sample_contents_ok : Forall content_ok sample_contents.
Proof. unfold content_ok, plain. decide_now. Qed.

Lemma distinct_check (md5 : bytes -> bytes) blobs :
  Forall (fun x => Forall (fun y => md5 x = md5 y -> x = y) blobs) blobs -> forall x y, x ∈ blobs -> y ∈ blobs -> md5 x = md5 y -> x = y.
Proof. intros H x y Hx Hy. rewrite Forall_forall in H. specialize (H x Hx). rewrite Forall_forall in H. by apply H. Qed.

Lemma cdn_archive_roundtrip_witness :
  exists b blobs index file, add_contents md5_tail store_zlib store_lz4 store_lz4_dict sample_contents (archive_new []) = Ret (Ok b) /\
    map e_encoding_key (CdnArchive.b_entries b) = map md5_tail blobs /\ length blobs = 4%nat /\
    CdnIndex.builder_build md5_tail (index_builder (CdnArchive.b_entries b)) = Ret (Ok (index, file)) /\
    CdnIndex.parse md5_tail file = Ret (Ok index) /\
    Forall2 (fun item blob =>
      exists ie, find_entry index (md5_tail blob) = Ret (Some ie) /\
        (read_content store_reads store_decode 0 (reader_new (w_file b)) {| archive_hash := replicate 32 97; l_offset := offset ie; l_size := size ie |}).1
          = Ret (Ok item.1)) sample_contents blobs.
Proof.
  destruct (cdn_archive_roundtrip md5_tail store_zlib store_reads store_lz4 store_lz4_dict store_decode sample_contents 0 (replicate 32 97)
    tail_codecs_ok md5_tail_ok sample_contents_ok eq_refl eq_refl) as (b & blobs & Hb & Hbl & Hw & H).
  assert (Z.of_nat (length (w_file b)) < 2 ^ 32) as H1 by (clear H; vm_compute in Hb; by injection Hb as <-).
  assert (forall x y, x ∈ blobs -> y ∈ blobs -> md5_tail x = md5_tail y -> x = y) as H2.
  { clear -Hbl. unfold sample_contents in Hbl.
    repeat match goal with
    | H : Forall2 _ (_ :: _) _ |- _ => apply Forall2_cons_inv_l in H as (? & ? & (? & ?%(f_equal (fun o => match o with Ret (Ok f) => Some f | _ => None end)) & ->) & H & ->)
    | H : Forall2 _ [] _ |- _ => apply Forall2_nil_inv_l in H as ->
    end.
    vm_compute in H, H0, H1, H2. injection H as <-. injection H0 as <-. injection H1 as <-. injection H2 as <-.
    apply distinct_check. decide_now. }
  destruct (H H1 H2) as (Hk & _ & index & file & Hi). exists b, blobs, index, file. split; [exact Hb|]. split; [exact Hk|].
  split; [by rewrite <- (Forall2_length _ _ _ Hbl)|exact Hi].
Defined.

Definition two_chunks : Blte.BlteFile :=
  {| Blte.header := Blte.header_single_chunk;
     Blte.chunks := [Blte.from_compressed Blte.None_ [1; 2; 3] None; Blte.from_compressed Blte.None_ [] None; Blte.from_compressed Blte.None_ [4] None] |}.

Lemma stream_agrees_with_read_all_witness :
  exists ps rest, read_many store_reads store_decode [2; 2; 2; 2]%nat (stream_new two_chunks None) = Ret (Ok ps) /\ [1; 2; 3; 4] = concat ps ++ rest /\
    Forall2 (fun n p => (length p <= n)%nat /\ ((0 < n)%nat -> p = [] -> rest = [])) [2; 2; 2; 2]%nat ps.
Proof. apply (stream_agrees_with_read_all store_reads store_decode 1 two_chunks); vm_compute; reflexivity. Defined.

(** With keys the stream and [read_all] differ: a single chunk that is encrypted is an
    error for [read_all], and the stream decrypts it. *)
Definition encrypted_single : outcome (result Blte.BlteError Blte.BlteFile) :=
  d ←? Blte.encrypt_chunk_with_key [78; 10; 11] (Blte.spec_salsa20 77 [9; 8; 7; 6]) sample_key 0;
  Ret (Ok {| Blte.header := Blte.header_single_chunk; Blte.chunks := [Blte.from_compressed Blte.Encrypted d None] |}).

Lemma stream_decrypts_single_chunk :
  (f ←? encrypted_single;
   streamed ← read_many store_reads store_decode [8]%nat (stream_new f (Some sample_store));
   whole ← read_all store_reads store_decode 5 (stream_new f (Some sample_store));
   Ret (Ok (streamed, whole))) = Ret (Ok (Ok [[10; 11]], Err CdnIndex.BlteError)).
Proof. vm_compute. reflexivity. Qed.
