(* ===== verification/Encoding.v ===== *)
(** * Encoding files

    The table from content keys to encoding keys and from encoding keys to encoding
    specifications (src/crates/cascette-formats/src/encoding): header, specification
    table, two page indices with their pages, parser, writer, single and batch
    lookups, and the builder.  A cursor is the bytes still to be read; MD5 and zlib
    are parameters; text is its UTF-8 bytes. *)

From S2P Require Import Prelude Bytes Text Utf8 Collections Cursor Blte.
Local Open Scope Z_scope.

Module Encoding.

Inductive EncodingError : Type :=
| InvalidMagic (magic : bytes)
| UnsupportedVersion (v : Z)
| ChecksumMismatch
| KeyNotFound (key : bytes)
| InvalidESpec (espec : bytes)
| Io
| BinRw
| Blte_
| InvalidPageSize (size : Z)
| InvalidKeySize (expected actual : Z)
| InvalidESpecSize
| InvalidFlags (flags : Z)
| InvalidHashSize (field : string) (value : Z)
| InvalidPageCount (field : string) (value : Z)
| InvalidESpecBlockSize (size : Z)
| EmptyESpec
| UnterminatedESpec.

Notation eresult := (result EncodingError).

Notation read_be := (read_be BinRw).

(** ** Header *)

Record EncodingHeader := {
  magic : bytes;
  version : Z;
  ckey_hash_size : Z;
  ekey_hash_size : Z;
  ckey_page_size_kb : Z;
  ekey_page_size_kb : Z;
  ckey_page_count : Z;
  ekey_page_count : Z;
  flags : Z;
  espec_block_size : Z;
}.

Definition header_new : EncodingHeader :=
  {| magic := [69; 78]; version := 1; ckey_hash_size := 16; ekey_hash_size := 16; ckey_page_size_kb := 4;
     ekey_page_size_kb := 4; ckey_page_count := 0; ekey_page_count := 0; flags := 0; espec_block_size := 0 |}.

(** The magic is asserted as soon as it is read. *)
Definition read_header (input : bytes) : eresult (EncodingHeader * bytes) :=
  '(magic, i) ← read BinRw 2 input;
  if negb (bool_decide (magic = [69; 78])) then Err (InvalidMagic (take 2 input))
  else
    '(version, i) ← read_be 1 i;
    '(ckey_hash_size, i) ← read_be 1 i;
    '(ekey_hash_size, i) ← read_be 1 i;
    '(ckey_page_size_kb, i) ← read_be 2 i;
    '(ekey_page_size_kb, i) ← read_be 2 i;
    '(ckey_page_count, i) ← read_be 4 i;
    '(ekey_page_count, i) ← read_be 4 i;
    '(flags, i) ← read_be 1 i;
    '(espec_block_size, i) ← read_be 4 i;
    Ok ({| magic := magic; version := version; ckey_hash_size := ckey_hash_size; ekey_hash_size := ekey_hash_size;
           ckey_page_size_kb := ckey_page_size_kb; ekey_page_size_kb := ekey_page_size_kb; ckey_page_count := ckey_page_count;
           ekey_page_count := ekey_page_count; flags := flags; espec_block_size := espec_block_size |}, i).

Definition write_header (h : EncodingHeader) : bytes :=
  magic h ++ to_be_bytes 1 (version h) ++ to_be_bytes 1 (ckey_hash_size h) ++ to_be_bytes 1 (ekey_hash_size h) ++
  to_be_bytes 2 (ckey_page_size_kb h) ++ to_be_bytes 2 (ekey_page_size_kb h) ++ to_be_bytes 4 (ckey_page_count h) ++
  to_be_bytes 4 (ekey_page_count h) ++ to_be_bytes 1 (flags h) ++ to_be_bytes 4 (espec_block_size h).

Definition validate (h : EncodingHeader) : eresult unit :=
  if negb (version h =? 1) then Err (UnsupportedVersion (version h))
  else if negb (flags h =? 0) then Err (InvalidFlags (flags h))
  else if (ckey_hash_size h =? 0) || (16 <? ckey_hash_size h) then Err (InvalidHashSize "ckey_hash_size" (ckey_hash_size h))
  else if (ekey_hash_size h =? 0) || (16 <? ekey_hash_size h) then Err (InvalidHashSize "ekey_hash_size" (ekey_hash_size h))
  else if ckey_page_size_kb h =? 0 then Err (InvalidPageSize 0)
  else if ekey_page_size_kb h =? 0 then Err (InvalidPageSize 0)
  else if ckey_page_count h =? 0 then Err (InvalidPageCount "ckey_page_count" (ckey_page_count h))
  else if ekey_page_count h =? 0 then Err (InvalidPageCount "ekey_page_count" (ekey_page_count h))
  else if espec_block_size h =? 0 then Err (InvalidESpecBlockSize (espec_block_size h))
  else Ok tt.

Definition ckey_page_size (h : EncodingHeader) : nat := Z.to_nat (ckey_page_size_kb h * 1024).
Definition ekey_page_size (h : EncodingHeader) : nat := Z.to_nat (ekey_page_size_kb h * 1024).

Definition data_size (h : EncodingHeader) : Z :=
  22 + ckey_page_count h * (32 + ckey_page_size_kb h * 1024) + ekey_page_count h * (32 + ekey_page_size_kb h * 1024) +
  espec_block_size h.

(** ** Specification table *)

Definition ESpecTable : Type := list bytes.

(** The loop over the bytes, with the string read so far. *)
Fixpoint espec_loop (current data : bytes) : eresult ESpecTable :=
  match data with
  | [] => if (length current =? 0)%nat then Ok [] else Err UnterminatedESpec
  | byte :: data =>
      if byte =? 0 then
        if (length current =? 0)%nat then Err EmptyESpec
        else entries ← espec_loop [] data; Ok (from_utf8_lossy current :: entries)
      else espec_loop (current ++ [byte]) data
  end.

Definition espec_parse (data : bytes) : eresult ESpecTable := espec_loop [] data.

Definition espec_build (table : ESpecTable) : bytes := concat (map (fun spec => spec ++ [0]) table).

Definition espec_get (table : ESpecTable) (index : Z) : option bytes := table !! Z.to_nat index.

(** ** Page entries *)

(** [u64::from(high) << 32 | u64::from(low)]. *)
Definition read_size40 (input : bytes) : eresult (Z * bytes) :=
  '(high, i) ← read_be 1 input;
  '(low, i) ← read_be 4 i;
  Ok (Z.lor (Z.shiftl high 32) low, i).

Definition write_size40 (size : Z) : bytes :=
  to_be_bytes 1 (Z.land (Z.shiftr size 32) 0xFF) ++ to_be_bytes 4 (Z.land size 0xFFFFFFFF).

(** A key of [n] bytes in an array of sixteen. *)
Definition read_key (n : Z) (input : bytes) : eresult (bytes * bytes) :=
  '(b, rest) ← read BinRw (Z.to_nat n) input; Ok (b ++ zeros (16 - Z.to_nat n), rest).

Fixpoint read_keys (count : nat) (n : Z) (input : bytes) : eresult (list bytes * bytes) :=
  match count with
  | O => Ok ([], input)
  | S count => '(k, i) ← read_key n input; '(ks, i) ← read_keys count n i; Ok (k :: ks, i)
  end.

Record CKeyPageEntry := { key_count : Z; c_file_size : Z; content_key : bytes; encoding_keys : list bytes }.

Definition read_ckey_entry (ckey_hash_size ekey_hash_size : Z) (input : bytes) : eresult (CKeyPageEntry * bytes) :=
  '(key_count, i) ← read_be 1 input;
  if key_count =? 0 then Err BinRw
  else
    '(file_size, i) ← read_size40 i;
    '(content_key, i) ← read_key ckey_hash_size i;
    '(encoding_keys, i) ← read_keys (Z.to_nat key_count) ekey_hash_size i;
    Ok ({| key_count := key_count; c_file_size := file_size; content_key := content_key; encoding_keys := encoding_keys |}, i).

Definition write_ckey_entry (ckey_hash_size ekey_hash_size : Z) (e : CKeyPageEntry) : bytes :=
  to_be_bytes 1 (key_count e) ++ write_size40 (c_file_size e) ++ take (Z.to_nat ckey_hash_size) (content_key e) ++
  concat (map (take (Z.to_nat ekey_hash_size)) (encoding_keys e)).

Record EKeyPageEntry := { encoding_key : bytes; espec_index : Z; e_file_size : Z }.

(** The two patterns that mark the end of a page. *)
Definition is_padding (key : bytes) (espec_index : Z) : bool :=
  (espec_index =? 0xFFFFFFFF) || (espec_index =? 0) && forallb (fun b => b =? 0) key.

Definition read_ekey_entry (ekey_hash_size : Z) (input : bytes) : eresult (EKeyPageEntry * bytes) :=
  '(key, i) ← read_key ekey_hash_size input;
  '(espec_index, i) ← read_be 4 i;
  if is_padding key espec_index then Err BinRw
  else
    '(file_size, i) ← read_size40 i;
    Ok ({| encoding_key := key; espec_index := espec_index; e_file_size := file_size |}, i).

Definition write_ekey_entry (ekey_hash_size : Z) (e : EKeyPageEntry) : bytes :=
  take (Z.to_nat ekey_hash_size) (encoding_key e) ++ to_be_bytes 4 (espec_index e) ++ write_size40 (e_file_size e).

(** ** Pages *)

Record Page (T : Type) := { page_entries : list T; original_data : bytes }.
Arguments page_entries {T} _.
Arguments original_data {T} _.

Record IndexEntry := { first_key : bytes; checksum : bytes }.

(** The entries of a page up to the first one that does not read: an error, unless
    the rest is too short for an entry or is padding. *)
Fixpoint page_loop {T} (fuel : nat) (read_entry : bytes -> eresult (T * bytes)) (min_entry_size : nat) (padding : bytes -> bool)
    (page : bytes) : eresult (list T) :=
  match fuel, page with
  | O, _ | _, [] => Ok []
  | S fuel, _ =>
      match read_entry page with
      | Ok (entry, rest) => entries ← page_loop fuel read_entry min_entry_size padding rest; Ok (entry :: entries)
      | Err e => if (length page <? min_entry_size)%nat then Ok [] else if padding page then Ok [] else Err e
      end
  end.

Definition ckey_padding (page : bytes) : bool := nth 0 page 0 =? 0.

Definition ekey_padding (ekey_hash_size : Z) (page : bytes) : bool :=
  let n := Z.to_nat ekey_hash_size in
  if (length page <? n + 4)%nat then false
  else is_padding (take n page) (from_be_bytes (slice n (n + 4) page)).

Record EncodingFile := {
  header : EncodingHeader;
  espec_table : ESpecTable;
  ckey_index : list IndexEntry;
  ckey_pages : list (Page CKeyPageEntry);
  ekey_index : list IndexEntry;
  ekey_pages : list (Page EKeyPageEntry);
  trailing_espec : option bytes;
}.

Fixpoint read_index (n : nat) (input : bytes) : eresult (list IndexEntry * bytes) :=
  match n with
  | O => Ok ([], input)
  | S n =>
      '(first_key, i) ← read Io 16 input;
      '(checksum, i) ← read Io 16 i;
      '(entries, i) ← read_index n i;
      Ok ({| first_key := first_key; checksum := checksum |} :: entries, i)
  end.

Section Hash.
Context (md5 : bytes -> bytes).

Definition verify (index : IndexEntry) (page_data : bytes) : bool := bool_decide (md5 page_data = checksum index).

(** The loop both page parsers share; the page size and the entry reader differ. *)
Fixpoint parse_pages {T} (read_page : bytes -> eresult (list T)) (page_size : nat) (index : list IndexEntry) (input : bytes) :
    eresult (list (Page T) * bytes) :=
  match index with
  | [] => Ok ([], input)
  | e :: index =>
      '(page_data, i) ← read Io page_size input;
      if negb (verify e page_data) then Err ChecksumMismatch
      else
        entries ← read_page page_data;
        '(pages, i) ← parse_pages read_page page_size index i;
        Ok ({| page_entries := entries; original_data := page_data |} :: pages, i)
  end.

Definition read_ckey_page (h : EncodingHeader) (page : bytes) : eresult (list CKeyPageEntry) :=
  page_loop (length page) (read_ckey_entry (ckey_hash_size h) (ekey_hash_size h)) (1 + 5 + Z.to_nat (ckey_hash_size h)) ckey_padding page.

Definition read_ekey_page (h : EncodingHeader) (page : bytes) : eresult (list EKeyPageEntry) :=
  page_loop (length page) (read_ekey_entry (ekey_hash_size h)) (Z.to_nat (ekey_hash_size h) + 4 + 5) (ekey_padding (ekey_hash_size h)) page.

Definition parse_ckey_pages (h : EncodingHeader) := parse_pages (read_ckey_page h) (ckey_page_size h).
Definition parse_ekey_pages (h : EncodingHeader) := parse_pages (read_ekey_page h) (ekey_page_size h).

Definition parse (data : bytes) : eresult EncodingFile :=
  '(header, i) ← read_header data;
  _ ← validate header;
  '(espec_data, i) ← read Io (Z.to_nat (espec_block_size header)) i;
  espec_table ← espec_parse espec_data;
  '(ckey_index, i) ← read_index (Z.to_nat (ckey_page_count header)) i;
  '(ckey_pages, i) ← parse_ckey_pages header ckey_index i;
  '(ekey_index, i) ← read_index (Z.to_nat (ekey_page_count header)) i;
  '(ekey_pages, i) ← parse_ekey_pages header ekey_index i;
  Ok {| header := header; espec_table := espec_table; ckey_index := ckey_index; ckey_pages := ckey_pages; ekey_index := ekey_index;
        ekey_pages := ekey_pages; trailing_espec := if (length i =? 0)%nat then None else Some (from_utf8_lossy i) |}.

(** ** Writing *)

(** The index with the checksums of the pages; [index[page_idx]] panics past its end. *)
Fixpoint updated_index {T} (index : list IndexEntry) (pages : list (Page T)) : outcome (list IndexEntry) :=
  match pages, index with
  | [], _ => Ret []
  | _ :: _, [] => Panic
  | p :: pages, e :: index =>
      rest ← updated_index index pages;
      Ret ({| first_key := first_key e; checksum := md5 (original_data p) |} :: rest)
  end.

Definition write_index (index : list IndexEntry) : bytes := concat (map (fun e => first_key e ++ checksum e) index).
Definition write_pages {T} (pages : list (Page T)) : bytes := concat (map original_data pages).

Definition build (f : EncodingFile) : outcome (eresult bytes) :=
  let espec_data := espec_build (espec_table f) in
  if negb (Z.of_nat (length espec_data) =? espec_block_size (header f)) then Ret (Err InvalidESpecSize)
  else
    ckey_index_updated ← updated_index (ckey_index f) (ckey_pages f);
    ekey_index_updated ← updated_index (ekey_index f) (ekey_pages f);
    Ret (Ok (write_header (header f) ++ espec_data ++ write_index ckey_index_updated ++ write_pages (ckey_pages f) ++
             write_index ekey_index_updated ++ write_pages (ekey_pages f) ++ default [] (trailing_espec f))).

(** ** Lookups *)

(** [slice::partition_point]: the standard library searches with [Less] where the
    predicate holds and [Greater] where it does not. *)
Definition partition_point {A} (pred : A -> bool) (l : list A) : nat :=
  match binary_search_by (fun x => if pred x then Lt else Gt) l with Ok i | Err i => i end.

Definition key_le (a b : bytes) : bool := match kcmp a b with Gt => false | _ => true end.
Definition key_lt (a b : bytes) : bool := match kcmp a b with Lt => true | _ => false end.

(** The last page whose first key is not above the key; [pages[page_idx - 1]] panics
    past the end. *)
Definition find_page {T} (index : list IndexEntry) (pages : list (Page T)) (key : bytes) : outcome (option (Page T)) :=
  match partition_point (fun idx => key_le (first_key idx) key) index with
  | O => Ret None
  | S i => match pages !! i with Some page => Ret (Some page) | None => Panic end
  end.

Definition find_encoding (f : EncodingFile) (content_key_ : bytes) : outcome (option bytes) :=
  page ← find_page (ckey_index f) (ckey_pages f) content_key_;
  Ret (page ← page; entry ← find_by content_key content_key_ (page_entries page); head (encoding_keys entry)).

Definition find_all_encodings (f : EncodingFile) (content_key_ : bytes) : outcome (list bytes) :=
  page ← find_page (ckey_index f) (ckey_pages f) content_key_;
  Ret (default [] (page ← page; entry ← find_by content_key content_key_ (page_entries page); Some (encoding_keys entry))).

Definition find_espec (f : EncodingFile) (encoding_key_ : bytes) : outcome (option bytes) :=
  page ← find_page (ekey_index f) (ekey_pages f) encoding_key_;
  Ret (page ← page; entry ← find_by encoding_key encoding_key_ (page_entries page); espec_get (espec_table f) (espec_index entry)).

(** ** Batch lookups

    One pass over the pages with the keys in order.  The keys still to be looked up
    stand for [indexed] from [key_cursor] on; the three functions differ in the key
    of an entry and in what they copy from it. *)

Fixpoint skip_while {A} (p : A -> bool) (l : list A) : list A :=
  match l with
  | x :: l' => if p x then skip_while p l' else l
  | [] => []
  end.

Fixpoint take_while {A} (p : A -> bool) (l : list A) : list A :=
  match l with
  | x :: l' => if p x then x :: take_while p l' else []
  | [] => []
  end.

Section Batch.
Context {T R : Type} (key : T -> bytes) (answer : T -> R).

Definition match_key (page : Page T) (results : list R) (k : nat * bytes) : list R :=
  match find_by key k.2 (page_entries page) with
  | Some entry => <[k.1 := answer entry]> results
  | None => results
  end.

(** Whether the key is below the first key of the next page, if there is one. *)
Definition below_next (index : list IndexEntry) (k : nat * bytes) : bool :=
  match index with
  | next :: _ => negb (key_le (first_key next) k.2)
  | [] => true
  end.

Fixpoint batch_pages (index : list IndexEntry) (pages : list (Page T)) (keys : list (nat * bytes)) (results : list R)
    {struct pages} : outcome (list R) :=
  match pages, keys with
  | [], _ | _, [] => Ret results
  | page :: pages, _ =>
      match index with
      | [] => Panic
      | e :: index =>
          let keys := skip_while (fun k => key_lt k.2 (first_key e)) keys in
          let here := take_while (below_next index) keys in
          batch_pages index pages (skip_while (below_next index) keys) (fold_left (match_key page) here results)
      end
  end.

Definition batch_find (index : list IndexEntry) (pages : list (Page T)) (none : R) (keys : list bytes) : outcome (list R) :=
  if (length keys =? 0)%nat then Ret []
  else batch_pages index pages (sort_by_key snd (imap pair keys)) (replicate (length keys) none).

End Batch.

Definition batch_find_encodings (f : EncodingFile) (keys : list bytes) : outcome (list (option bytes)) :=
  batch_find content_key (fun e => head (encoding_keys e)) (ckey_index f) (ckey_pages f) None keys.

Definition batch_find_all_encodings (f : EncodingFile) (keys : list bytes) : outcome (list (list bytes)) :=
  batch_find content_key encoding_keys (ckey_index f) (ckey_pages f) [] keys.

Definition batch_find_especs (f : EncodingFile) (keys : list bytes) : outcome (list (option bytes)) :=
  batch_find encoding_key (fun e => espec_get (espec_table f) (espec_index e)) (ekey_index f) (ekey_pages f) None keys.

Definition ckey_count (f : EncodingFile) : nat := sum_list (map (fun p => length (page_entries p)) (ckey_pages f)).
Definition ekey_count (f : EncodingFile) : nat := sum_list (map (fun p => length (page_entries p)) (ekey_pages f)).

(** ** Builder *)

Record CKeyEntryData := { cd_content_key : bytes; cd_file_size : Z; cd_encoding_keys : list bytes }.
Record EKeyEntryData := { ed_encoding_key : bytes; ed_espec : bytes; ed_file_size : Z }.

Record EncodingBuilder := {
  ckey_entries : list CKeyEntryData;
  ekey_entries : list EKeyEntryData;
  b_ckey_page_size_kb : Z;
  b_ekey_page_size_kb : Z;
  b_trailing_espec : option bytes;
}.

Definition builder_new : EncodingBuilder :=
  {| ckey_entries := []; ekey_entries := []; b_ckey_page_size_kb := 4; b_ekey_page_size_kb := 4; b_trailing_espec := None |}.

Definition with_page_sizes (b : EncodingBuilder) (c e : Z) : EncodingBuilder :=
  {| ckey_entries := ckey_entries b; ekey_entries := ekey_entries b; b_ckey_page_size_kb := c; b_ekey_page_size_kb := e;
     b_trailing_espec := b_trailing_espec b |}.

Definition with_trailing_espec (b : EncodingBuilder) (espec : bytes) : EncodingBuilder :=
  {| ckey_entries := ckey_entries b; ekey_entries := ekey_entries b; b_ckey_page_size_kb := b_ckey_page_size_kb b;
     b_ekey_page_size_kb := b_ekey_page_size_kb b; b_trailing_espec := Some espec |}.

Definition with_entries (b : EncodingBuilder) (cs : list CKeyEntryData) (es : list EKeyEntryData) : EncodingBuilder :=
  {| ckey_entries := cs; ekey_entries := es; b_ckey_page_size_kb := b_ckey_page_size_kb b;
     b_ekey_page_size_kb := b_ekey_page_size_kb b; b_trailing_espec := b_trailing_espec b |}.

Definition add_ckey_entry (b : EncodingBuilder) (e : CKeyEntryData) : EncodingBuilder := with_entries b (ckey_entries b ++ [e]) (ekey_entries b).
Definition add_ekey_entry (b : EncodingBuilder) (e : EKeyEntryData) : EncodingBuilder := with_entries b (ckey_entries b) (ekey_entries b ++ [e]).

Definition remove_ckey_entry (b : EncodingBuilder) (k : bytes) : bool * EncodingBuilder :=
  let kept := filter (fun e => cd_content_key e <> k) (ckey_entries b) in
  ((length kept <? length (ckey_entries b))%nat, with_entries b kept (ekey_entries b)).

Definition remove_ekey_entry (b : EncodingBuilder) (k : bytes) : bool * EncodingBuilder :=
  let kept := filter (fun e => ed_encoding_key e <> k) (ekey_entries b) in
  ((length kept <? length (ekey_entries b))%nat, with_entries b (ckey_entries b) kept).

Definition has_ckey_entry (b : EncodingBuilder) (k : bytes) : bool := existsb (fun e => bool_decide (cd_content_key e = k)) (ckey_entries b).
Definition has_ekey_entry (b : EncodingBuilder) (k : bytes) : bool := existsb (fun e => bool_decide (ed_encoding_key e = k)) (ekey_entries b).
Definition clear (b : EncodingBuilder) : EncodingBuilder := with_entries b [] [].

(** [ESpecTable::add]: more than [u32::MAX] entries are a panic. *)
Definition espec_add (table : ESpecTable) (spec : bytes) : outcome (Z * ESpecTable) :=
  let index := Z.of_nat (length table) in
  if index <? 2 ^ 32 then Ret (index, table ++ [spec]) else Panic.

(** The keys of [espec_map] are the entries of the table. *)
Fixpoint espec_table_loop (table : ESpecTable) (entries : list EKeyEntryData) : outcome ESpecTable :=
  match entries with
  | [] => Ret table
  | e :: entries =>
      if bool_decide (ed_espec e ∈ table) then espec_table_loop table entries
      else '(_, table) ← espec_add table (ed_espec e); espec_table_loop table entries
  end.

Definition build_espec_table (b : EncodingBuilder) : outcome ESpecTable := espec_table_loop [] (ekey_entries b).

(** The entries written one after the other into a vector of [page_size] zeros, which
    grows when they do not fit. *)
Definition serialize_page {T} (write : T -> bytes) (page_size : nat) (entries : list T) : bytes :=
  let written := concat (map write entries) in written ++ zeros (page_size - length written).

Definition serialize_ckey_page := serialize_page (write_ckey_entry 16 16).
Definition serialize_ekey_page := serialize_page (write_ekey_entry 16).

Definition finish_page {T} (serialize : nat -> list T -> bytes) (page_size : nat) (entries : list T) : Page T :=
  {| page_entries := entries; original_data := serialize page_size entries |}.

(** The loop both page builders share: entries are appended to the current page, which
    is closed when the next one does not fit any more. *)
Fixpoint pages_loop {D T} (serialize : nat -> list T -> bytes) (page_size : nat) (entry_size : D -> nat) (convert : D -> eresult T)
    (current : list T) (current_size : nat) (entries : list D) : eresult (list (Page T)) :=
  match entries with
  | [] => Ok (if (length current =? 0)%nat then [] else [finish_page serialize page_size current])
  | d :: entries =>
      if (page_size <? current_size + entry_size d)%nat && negb (length current =? 0)%nat then
        page_entry ← convert d;
        pages ← pages_loop serialize page_size entry_size convert [page_entry] (entry_size d) entries;
        Ok (finish_page serialize page_size current :: pages)
      else
        page_entry ← convert d;
        pages_loop serialize page_size entry_size convert (current ++ [page_entry]) (current_size + entry_size d) entries
  end.

Definition ckey_page_entry (d : CKeyEntryData) : CKeyPageEntry :=
  {| key_count := wrap8 (Z.of_nat (length (cd_encoding_keys d))); c_file_size := cd_file_size d; content_key := cd_content_key d;
     encoding_keys := cd_encoding_keys d |}.

Definition ckey_entry_size (d : CKeyEntryData) : nat := 1 + 5 + 16 + 16 * length (cd_encoding_keys d).

Definition build_ckey_pages (b : EncodingBuilder) (page_size : nat) : eresult (list (Page CKeyPageEntry)) :=
  pages_loop serialize_ckey_page page_size ckey_entry_size (fun d => Ok (ckey_page_entry d)) [] 0
    (sort_by_key cd_content_key (ckey_entries b)).

(** [espec_indices.get]: the entries of the table in order, a later one replacing an
    equal one. *)
Fixpoint espec_position (spec : bytes) (i : Z) (table : ESpecTable) : option Z :=
  match table with
  | [] => None
  | s :: table =>
      match espec_position spec (i + 1) table with
      | Some j => Some j
      | None => if bool_decide (s = spec) then Some (wrap32 i) else None
      end
  end.

Definition ekey_page_entry (table : ESpecTable) (d : EKeyEntryData) : eresult EKeyPageEntry :=
  match espec_position (ed_espec d) 0 table with
  | Some i => Ok {| encoding_key := ed_encoding_key d; espec_index := i; e_file_size := ed_file_size d |}
  | None => Err (InvalidESpec (ed_espec d))
  end.

Definition build_ekey_pages (b : EncodingBuilder) (page_size : nat) (table : ESpecTable) : eresult (list (Page EKeyPageEntry)) :=
  pages_loop serialize_ekey_page page_size (fun _ => (16 + 4 + 5)%nat) (ekey_page_entry table) [] 0
    (sort_by_key ed_encoding_key (ekey_entries b)).

Definition build_index {T} (first : T -> bytes) (pages : list (Page T)) : list IndexEntry :=
  map (fun p => {| first_key := match page_entries p with e :: _ => first e | [] => zeros 16 end; checksum := md5 (original_data p) |}) pages.

Definition builder_build (b : EncodingBuilder) : outcome (eresult EncodingFile) :=
  espec_table ← build_espec_table b;
  Ret (
    ckey_pages ← build_ckey_pages b (Z.to_nat (b_ckey_page_size_kb b * 1024));
    ekey_pages ← build_ekey_pages b (Z.to_nat (b_ekey_page_size_kb b * 1024)) espec_table;
    Ok {| header :=
            {| magic := [69; 78]; version := 1; ckey_hash_size := 16; ekey_hash_size := 16; ckey_page_size_kb := b_ckey_page_size_kb b;
               ekey_page_size_kb := b_ekey_page_size_kb b; ckey_page_count := wrap32 (Z.of_nat (length ckey_pages));
               ekey_page_count := wrap32 (Z.of_nat (length ekey_pages)); flags := 0;
               espec_block_size := wrap32 (Z.of_nat (length (espec_build espec_table))) |};
          espec_table := espec_table; ckey_index := build_index content_key ckey_pages; ckey_pages := ckey_pages;
          ekey_index := build_index encoding_key ekey_pages; ekey_pages := ekey_pages; trailing_espec := b_trailing_espec b |}).

(** ["z"] for an index the table does not have. *)
Definition from_encoding_file (f : EncodingFile) : EncodingBuilder :=
  {| ckey_entries := flat_map (fun p => map (fun e =>
       {| cd_content_key := content_key e; cd_file_size := c_file_size e; cd_encoding_keys := encoding_keys e |}) (page_entries p)) (ckey_pages f);
     ekey_entries := flat_map (fun p => map (fun e =>
       {| ed_encoding_key := encoding_key e; ed_espec := default [122] (espec_get (espec_table f) (espec_index e));
          ed_file_size := e_file_size e |}) (page_entries p)) (ekey_pages f);
     b_ckey_page_size_kb := ckey_page_size_kb (header f); b_ekey_page_size_kb := ekey_page_size_kb (header f);
     b_trailing_espec := trailing_espec f |}.

(** [<size>=<mode>], left out for an empty section. *)
Definition section (size : Z) (m : Z) : list bytes := if 0 <? size then [show size ++ [61; m]] else [].

Fixpoint join (sections : list bytes) : bytes :=
  match sections with
  | [] => []
  | [s] => s
  | s :: sections => s ++ [44] ++ join sections
  end.

Definition generate_trailing_espec (f : EncodingFile) : bytes :=
  let h := header f in
  let sections :=
    [show 22 ++ [61; 110]] ++ section (espec_block_size h) 122 ++
    section (wrap32 (ckey_page_count h * 32)) 110 ++ section (wrap32 (ckey_page_count h * wrap32 (ckey_page_size_kb h * 1024))) 110 ++
    section (wrap32 (ekey_page_count h * 32)) 110 ++ section (wrap32 (ekey_page_count h * wrap32 (ekey_page_size_kb h * 1024))) 110 ++
    [[42; 61; 122]] in
  [98; 58; 123] ++ join sections ++ [125].

End Hash.

(** ** BLTE *)

Section Codecs.
Context (md5 : bytes -> bytes) (zlib_compress : bytes -> option bytes) (zlib_reads : bytes -> list bytes * bool).
Context (lz4_compress : bytes -> bytes) (lz4_compress_with_dict : bytes -> bytes -> bytes).
Context (lz4_decompress_with_dict : bytes -> nat -> bytes -> option bytes).

(** [?] into [EncodingError]. *)
Definition from_error {E A} (e : EncodingError) (r : result E A) : eresult A := match r with Ok a => Ok a | Err _ => Err e end.

Definition parse_blte (data : bytes) : outcome (eresult EncodingFile) :=
  blte ←? (r ← Blte.parse data; Ret (from_error BinRw r));
  decompressed ←? (r ← Blte.decompress zlib_reads lz4_decompress_with_dict blte; Ret (from_error Blte_ r));
  Ret (parse md5 decompressed).

Definition build_blte (f : EncodingFile) : outcome (eresult bytes) :=
  uncompressed ←? build md5 f;
  blte ←? Ret (from_error Blte_ (Blte.single_chunk zlib_compress lz4_compress lz4_compress_with_dict uncompressed Blte.ZLib));
  Ret (Ok (Blte.build blte)).

End Codecs.
End Encoding.
