(* ===== verification/EncodingTheorems.v ===== *)
(** * Encoding files: the theorems

    A parsed file is written back byte for byte; what the builder collects is found
    again after writing and parsing; a batch lookup answers what the single lookups
    answer. *)

From S2P Require Import Prelude Bytes Text Utf8 Collections Cursor Blte BlteTheorems Encoding.
Import Encoding.
Local Open Scope Z_scope.

(** ** Header *)

Definition header_fits (h : EncodingHeader) : Prop :=
  magic h = [69; 78] /\ u8 (version h) /\ u8 (ckey_hash_size h) /\ u8 (ekey_hash_size h) /\ in_u 16 (ckey_page_size_kb h) /\
  in_u 16 (ekey_page_size_kb h) /\ u32 (ckey_page_count h) /\ u32 (ekey_page_count h) /\ u8 (flags h) /\ u32 (espec_block_size h).

Lemma read_header_Ok data h rest :
  is_bytes data -> read_header data = Ok (h, rest) -> data = write_header h ++ rest /\ header_fits h /\ is_bytes rest.
Proof.
  intros Hb. unfold read_header. destruct (read BinRw 2 data) as [[m i]|] eqn:E; [|done]. cbn [mbind result_bind].
  apply read_Ok in E as [-> Hm]. apply is_bytes_app in Hb as [_ Hb]. case_bool_decide as Em; [|done]. cbn [negb].
  read_back.
  intros [= <- <-]. split_and!; [|unfold header_fits; cbn [magic version ckey_hash_size ekey_hash_size ckey_page_size_kb ekey_page_size_kb ckey_page_count ekey_page_count flags espec_block_size]; by split_and!|done].
  unfold write_header. cbn [magic version ckey_hash_size ekey_hash_size ckey_page_size_kb ekey_page_size_kb ckey_page_count ekey_page_count flags espec_block_size].
  by rewrite <- !app_assoc.
Qed.

Lemma length_write_header h : magic h = [69; 78] -> length (write_header h) = 22%nat.
Proof. intros E. unfold write_header. by rewrite !length_app, !length_to_be_bytes, E. Qed.

Lemma read_write_header h rest : header_fits h -> read_header (write_header h ++ rest) = Ok (h, rest).
Proof.
  destruct h as [m v c e cp ep cc ec f s]. unfold header_fits, write_header.
  cbn [magic version ckey_hash_size ekey_hash_size ckey_page_size_kb ekey_page_size_kb ckey_page_count ekey_page_count flags espec_block_size].
  intros (-> & ? & ? & ? & ? & ? & ? & ? & ? & ?). rewrite <- !app_assoc. unfold read_header. rewrite read_app by done.
  cbn [mbind result_bind]. rewrite bool_decide_eq_true_2 by done. cbn [negb].
  by repeat read_next.
Qed.

(** ** Specification table *)

Lemma espec_loop_Ok current data table :
  utf8_valid (current ++ data) = true -> espec_loop current data = Ok table -> espec_build table = current ++ data.
Proof.
  revert current table. induction data as [|b data IH]; intros current table Hv; cbn [espec_loop].
  - destruct current; [|done]. by intros [= <-].
  - destruct (Z.eqb_spec b 0) as [-> |Hb].
    + destruct current as [|x current]; [done|]. cbn [length Nat.eqb].
      destruct (espec_loop [] data) as [entries|] eqn:E; [|done]. cbn [mbind result_bind]. intros [= <-].
      apply utf8_valid_nul in Hv as [Hv1 Hv2]. rewrite from_utf8_lossy_valid by done.
      unfold espec_build. cbn [map concat]. fold (espec_build entries). rewrite (IH [] entries), <- app_assoc by done. done.
    + intros H. rewrite (IH (current ++ [b]) table), <- app_assoc; [done| |done]. by rewrite <- app_assoc.
Qed.

(** A specification that can be stored. *)
Definition espec_ok (s : bytes) : Prop := s <> [] /\ Forall (fun b => b <> 0) s /\ utf8_valid s = true.

Lemma espec_loop_string current s data :
  Forall (fun b => b <> 0) s -> espec_loop current (s ++ data) = espec_loop (current ++ s) data.
Proof.
  revert current. induction s as [|b s IH]; intros current Hs; [by rewrite app_nil_r|]. apply Forall_cons in Hs as [Hb Hs].
  cbn [app espec_loop]. rewrite (proj2 (Z.eqb_neq b 0)), IH by done. by rewrite <- app_assoc.
Qed.

Lemma espec_parse_build table : Forall espec_ok table -> espec_parse (espec_build table) = Ok table.
Proof.
  unfold espec_parse, espec_build. induction 1 as [|s table (Hne & Hs & Hu) H IH]; [done|]. cbn [map concat].
  rewrite <- app_assoc, espec_loop_string by done. cbn [app espec_loop Z.eqb]. rewrite (proj2 (Nat.eqb_neq _ _)) by (by destruct s).
  rewrite IH. cbn [mbind result_bind]. by rewrite from_utf8_lossy_valid.
Qed.

(** ** Index and pages *)

Definition index_fits (e : IndexEntry) : Prop := length (first_key e) = 16%nat /\ length (checksum e) = 16%nat.

Lemma read_index_Ok n input index rest :
  read_index n input = Ok (index, rest) ->
  input = write_index index ++ rest /\ length index = n /\ Forall index_fits index.
Proof.
  revert input index rest. induction n as [|n IH]; intros input index rest; cbn [read_index]; [by intros [= <- <-]|].
  destruct (read Io 16 input) as [[k i]|] eqn:E1; [|done]. cbn [mbind result_bind]. apply read_Ok in E1 as [-> Hk].
  destruct (read Io 16 i) as [[c i']|] eqn:E2; [|done]. cbn [mbind result_bind]. apply read_Ok in E2 as [-> Hc].
  destruct (read_index n i') as [[es i'']|] eqn:E3; [|done]. cbn [mbind result_bind]. intros [= <- <-].
  apply IH in E3 as (-> & <- & Hf). split_and!; [|done|by constructor]. unfold write_index. cbn [map concat]. cbn [first_key checksum]. by rewrite <- !app_assoc.
Qed.

Lemma length_write_index index : Forall index_fits index -> length (write_index index) = (length index * 32)%nat.
Proof.
  unfold write_index. induction 1 as [|e index [Hk Hc] H IH]; [done|]. cbn [map concat length]. rewrite !length_app, Hk, Hc, IH. lia.
Qed.

Lemma read_write_index index rest : Forall index_fits index -> read_index (length index) (write_index index ++ rest) = Ok (index, rest).
Proof.
  unfold write_index. induction 1 as [|[k c] index [Hk Hc] H IH]; [done|]. cbn [map concat length read_index]. cbn [first_key checksum] in *.
  rewrite <- !app_assoc, !read_app by done. cbn [mbind result_bind]. rewrite read_app by done. cbn [mbind result_bind].
  by rewrite IH.
Qed.

Lemma length_write_pages {T} (pages : list (Page T)) size :
  Forall (fun p => length (original_data p) = size) pages -> length (write_pages pages) = (length pages * size)%nat.
Proof. unfold write_pages. induction 1 as [|p pages Hp H IH]; [done|]. cbn [map concat length]. rewrite length_app, Hp, IH. lia. Qed.

Section Md5.
Context (md5 : bytes -> bytes).

Lemma parse_pages_Ok {T} read_page size index input (pages : list (Page T)) rest :
  parse_pages md5 read_page size index input = Ok (pages, rest) ->
  input = write_pages pages ++ rest /\ updated_index md5 index pages = Ret index /\
  Forall (fun p => length (original_data p) = size) pages /\ length pages = length index.
Proof.
  revert input pages rest. induction index as [|e index IH]; intros input pages rest; cbn [parse_pages]; [by intros [= <- <-]|].
  destruct (read Io size input) as [[d i]|] eqn:E1; [|done]. cbn [mbind result_bind]. apply read_Ok in E1 as [-> Hl].
  unfold verify. case_bool_decide as Hc; [|done]. cbn [negb]. destruct (read_page d) as [es|]; [|done]. cbn [mbind result_bind].
  destruct (parse_pages md5 read_page size index i) as [[ps i']|] eqn:E2; [|done]. cbn [mbind result_bind]. intros [= <- <-].
  apply IH in E2 as (-> & Hi & Hp & Hlen).
  split_and!; [unfold write_pages; cbn [map concat original_data]; by rewrite <- app_assoc| |by constructor|simpl; by rewrite Hlen].
  cbn [updated_index]. rewrite Hi. cbn [mbind outcome_bind original_data]. rewrite Hc. by destruct e.
Qed.

(** A file that parses is written back byte for byte, if its texts are UTF-8. *)
Lemma parse_then_build data f :
  is_bytes data -> parse md5 data = Ok f ->
  utf8_valid (slice 22 (22 + Z.to_nat (espec_block_size (header f))) data) = true ->
  utf8_valid (drop (Z.to_nat (data_size (header f))) data) = true ->
  build md5 f = Ret (Ok data).
Proof.
  intros Hb. unfold parse. destruct (read_header data) as [[h i]|] eqn:Eh; [|done]. cbn [mbind result_bind].
  apply read_header_Ok in Eh as (-> & Hf & Hbi); [|done]. destruct (validate h) eqn:Ev; [|done]. cbn [mbind result_bind].
  destruct (read Io _ i) as [[sd i1]|] eqn:E1; [|done]. cbn [mbind result_bind]. apply read_Ok in E1 as [-> Hsd].
  destruct (espec_parse sd) as [table|] eqn:Es; [|done]. cbn [mbind result_bind].
  destruct (read_index _ i1) as [[ci i2]|] eqn:E2; [|done]. cbn [mbind result_bind]. apply read_index_Ok in E2 as (-> & Hci & Hcf).
  unfold parse_ckey_pages. destruct (parse_pages _ _ _ ci i2) as [[cp i3]|] eqn:E3; [|done]. cbn [mbind result_bind].
  apply parse_pages_Ok in E3 as (-> & Huc & Hcp & Hcl).
  destruct (read_index _ i3) as [[ei i4]|] eqn:E4; [|done]. cbn [mbind result_bind]. apply read_index_Ok in E4 as (-> & Hei & Hef).
  unfold parse_ekey_pages. destruct (parse_pages _ _ _ ei i4) as [[ep i5]|] eqn:E5; [|done]. cbn [mbind result_bind].
  apply parse_pages_Ok in E5 as (-> & Hue & Hep & Hel). intros [= <-]. cbn [header].
  pose proof (length_write_header h (proj1 Hf)) as Hh. intros Hsv Htv.
  assert (sd = slice 22 (22 + Z.to_nat (espec_block_size h)) (write_header h ++ sd ++ write_index ci ++ write_pages cp ++ write_index ei ++ write_pages ep ++ i5)) as Esd.
  { rewrite slice_app_r, Hh by lia. replace (22 - 22)%nat with 0%nat by lia. rewrite slice_app_exact; [done|lia]. }
  assert (i5 = drop (Z.to_nat (data_size h)) (write_header h ++ sd ++ write_index ci ++ write_pages cp ++ write_index ei ++ write_pages ep ++ i5)) as Ei.
  { rewrite !app_assoc. rewrite drop_app_length'; [done|]. rewrite !length_app, Hh, Hsd, !length_write_index by done.
    rewrite (length_write_pages _ _ Hcp), (length_write_pages _ _ Hep), Hcl, Hel, Hci, Hei.
    unfold data_size, ckey_page_size, ekey_page_size, header_fits, in_u in *. nia. }
  rewrite <- Esd in Hsv. rewrite <- Ei in Htv. unfold espec_parse in Es. apply espec_loop_Ok in Es; [|done]. cbn [app] in Es.
  unfold build. cbn [header espec_table ckey_index ckey_pages ekey_index ekey_pages trailing_espec]. rewrite Es, Hsd.
  rewrite (proj2 (Z.eqb_eq _ _)) by (unfold header_fits, in_u in *; lia). cbn [negb]. rewrite Huc, Hue. cbn [mbind outcome_bind].
  do 8 f_equal. destruct i5; [done|]. cbn [length Nat.eqb default]. by apply from_utf8_lossy_valid.
Qed.

(** ** Lookups

    The page of a key by a linear scan, and that the binary search on a sorted index
    finds the same page. *)

Fixpoint scan {T} (index : list IndexEntry) (pages : list (Page T)) (k : bytes) : option (Page T) :=
  match index, pages with
  | e :: index, p :: pages => if key_le (first_key e) k then Some (default p (scan index pages k)) else None
  | _, _ => None
  end.

Lemma key_le_spec a b : key_le a b = true <-> kle a b.
Proof. unfold key_le, kle. destruct (kcmp a b); split; congruence. Qed.

Lemma key_le_false a b : key_le a b = false <-> klt b a.
Proof. rewrite <- kle_gt, <- key_le_spec. destruct (key_le a b); split; congruence. Qed.

Lemma key_lt_spec a b : key_lt a b = true <-> klt a b.
Proof. unfold key_lt, klt. destruct (kcmp a b); split; congruence. Qed.

Lemma key_lt_le a b : key_lt a b = negb (key_le b a).
Proof.
  destruct (key_lt a b) eqn:E; [apply key_lt_spec in E; apply key_le_false in E; by rewrite E|].
  destruct (key_le b a) eqn:E'; [done|]. apply key_le_false, key_lt_spec in E'. congruence.
Qed.

(** [partition_point] on a slice where the predicate first holds and then does not. *)
Lemma partition_point_spec {A} (pred : A -> bool) (l : list A) :
  (forall i j x y, l !! i = Some x -> l !! j = Some y -> (i <= j)%nat -> pred y = true -> pred x = true) ->
  (partition_point pred l <= length l)%nat /\
  (forall j x, l !! j = Some x -> pred x = (j <? partition_point pred l)%nat).
Proof.
  intros Hs. unfold partition_point. pose proof (binary_search_by_spec (fun x => if pred x then Lt else Gt) l) as H.
  destruct (binary_search_by _ l) as [i|i].
  - destruct H as (x & _ & Hx); [|by destruct (pred x)].
    intros i0 j x y Hi Hj Hij. pose proof (Hs i0 j x y Hi Hj Hij). destruct (pred x), (pred y); intuition congruence.
  - destruct H as (Hi & Hlt & Hgt).
    { intros i0 j x y Hx Hj Hij. pose proof (Hs i0 j x y Hx Hj Hij). destruct (pred x), (pred y); intuition congruence. }
    split; [done|]. intros j x Hj. destruct (Nat.ltb_spec j i) as [L|L].
    + specialize (Hlt j x Hj L). by destruct (pred x).
    + specialize (Hgt j x Hj L). by destruct (pred x).
Qed.

Lemma scan_at {T} index (pages : list (Page T)) k i :
  length index = length pages -> (i <= length index)%nat ->
  (forall j x, index !! j = Some x -> key_le (first_key x) k = (j <? i)%nat) ->
  scan index pages k = match i with O => None | S i => pages !! i end.
Proof.
  revert pages i. induction index as [|e index IH]; intros [|p pages] i Hl Hi Hp; try done.
  { simpl in *. by assert (i = 0%nat) as -> by lia. }
  cbn [scan]. rewrite (Hp 0%nat e eq_refl). destruct i as [|i]; [done|]. cbn [Nat.ltb Nat.leb].
  rewrite (IH pages i); [|simpl in *; lia..|]; [|intros j x Hj; apply (Hp (S j)); done].
  destruct i as [|i]; [done|]. simpl. destruct (pages !! i) eqn:E; [done|]. apply lookup_ge_None in E. simpl in *. lia.
Qed.

Lemma find_page_scan {T} index (pages : list (Page T)) k :
  sorted_by first_key index -> length index = length pages -> find_page index pages k = Ret (scan index pages k).
Proof.
  intros Hs Hl. destruct (partition_point_spec (fun idx => key_le (first_key idx) k) index) as [Hi Hp].
  { intros i j x y Hx Hy Hij. rewrite !key_le_spec. intros Hk. eapply kle_trans; [|exact Hk]. by eapply sorted_by_lookup. }
  unfold find_page. rewrite (scan_at index pages k _ Hl Hi Hp). destruct (partition_point _ _) as [|i] eqn:E; [done|].
  destruct (pages !! i) eqn:Ep; [done|]. apply lookup_ge_None in Ep. lia.
Qed.

(** ** Batch lookups *)

Section BatchTheorems.
Context {T R : Type} (key : T -> bytes) (answer : T -> R).

(** What the pages answer for a key. *)
Definition answer_of (index : list IndexEntry) (pages : list (Page T)) (k : bytes) : option R :=
  page ← scan index pages k; entry ← find_by key k (page_entries page); Some (answer entry).

Definition in_page (page : Page T) (k : bytes) : option R :=
  entry ← find_by key k (page_entries page); Some (answer entry).

(** [results] after the keys of one page. *)
Lemma match_keys_lookup page keys results i :
  (forall k, (i, k) ∉ keys) -> fold_left (match_key key answer page) keys results !! i = results !! i.
Proof.
  revert results. induction keys as [|[j k] keys IH]; intros results Hi; [done|]. cbn [fold_left].
  rewrite IH by (intros k' Hk'; apply (Hi k'); by right). unfold match_key. cbn [fst snd].
  destruct (find_by key k _); [|done]. rewrite list_lookup_insert_ne; [done|]. intros ->. apply (Hi k). left.
Qed.

Lemma match_keys_found page keys results i k r :
  NoDup keys.*1 -> (i, k) ∈ keys -> results !! i = Some r ->
  fold_left (match_key key answer page) keys results !! i = Some (default r (in_page page k)).
Proof.
  revert results. induction keys as [|[j k'] keys IH]; intros results Hn Hin Hr; [by apply not_elem_of_nil in Hin|].
  apply NoDup_cons in Hn as [Hj Hn]. cbn [fold_left]. apply elem_of_cons in Hin as [[= <- <-]|Hin].
  - rewrite match_keys_lookup by (intros k' Hk'; apply Hj; by apply (list_elem_of_fmap_2 fst) in Hk').
    unfold match_key, in_page. cbn [fst snd]. destruct (find_by key k _); [|done]. cbn [mbind option_bind default].
    apply list_lookup_insert_eq. by eapply lookup_lt_Some.
  - apply IH; [done..|]. unfold match_key. cbn [fst snd]. destruct (find_by key k' _); [|done].
    rewrite list_lookup_insert_ne; [done|]. intros ->. apply Hj. by apply (list_elem_of_fmap_2 fst) in Hin.
Qed.

Lemma match_keys_length page keys results : length (fold_left (match_key key answer page) keys results) = length results.
Proof.
  revert results. induction keys as [|k keys IH]; intros results; [done|]. cbn [fold_left]. rewrite IH. unfold match_key.
  destruct (find_by _ _ _); [|done]. apply length_insert.
Qed.

Lemma take_skip_while {A} (p : A -> bool) l : take_while p l ++ skip_while p l = l.
Proof. induction l as [|x l IH]; simpl; [done|]. destruct (p x); [|done]. simpl. by rewrite IH. Qed.

Lemma skip_while_sorted (p : nat * bytes -> bool) keys : sorted_by snd keys -> sorted_by snd (skip_while p keys).
Proof. unfold sorted_by. intros Hs. rewrite <- (take_skip_while p keys) in Hs. by apply StronglySorted_app_1_r in Hs. Qed.

Lemma take_while_all {A} (p : A -> bool) l : Forall (fun x => p x = true) (take_while p l).
Proof. induction l as [|x l IH]; simpl; [constructor|]. destruct (p x) eqn:E; by constructor. Qed.

(** Where the predicate holds of a prefix only, nothing is left behind it. *)
Lemma skip_while_none {A} (p : A -> bool) l :
  StronglySorted (fun a b => p b = true -> p a = true) l -> Forall (fun x => p x = false) (skip_while p l).
Proof.
  induction 1 as [|x l Hs IH Hall]; simpl; [constructor|]. destruct (p x) eqn:E; [done|]. constructor; [done|].
  eapply Forall_impl; [exact Hall|]. simpl. intros y Hy. destruct (p y); [|done]. by specialize (Hy eq_refl).
Qed.

Lemma sorted_while (p : nat * bytes -> bool) keys :
  sorted_by snd keys -> (forall a b : nat * bytes, kle a.2 b.2 -> p b = true -> p a = true) -> StronglySorted (fun a b => p b = true -> p a = true) keys.
Proof.
  intros Hs Hp. induction Hs as [|x l Hs IH Hall]; constructor; [done|]. eapply Forall_impl; [exact Hall|]. simpl. intros y. apply Hp.
Qed.

Lemma below_next_mono index (a b : nat * bytes) : kle a.2 b.2 -> below_next index b = true -> below_next index a = true.
Proof.
  intros Hab. destruct index as [|e index]; [done|]. unfold below_next. rewrite !negb_true_iff, !key_le_false. intros. by eapply kle_klt_trans.
Qed.

(** Behind the next page's first key the scan does not stop at this page. *)
Lemma scan_below_next index (pages : list (Page T)) (k : nat * bytes) :
  length index = length pages -> below_next index k = true -> scan index pages k.2 = None.
Proof. destruct index as [|e index], pages as [|p pages]; try done. simpl. by destruct (key_le _ _). Qed.

Lemma scan_above_next index (pages : list (Page T)) (k : nat * bytes) :
  length index = length pages -> below_next index k = false -> is_Some (scan index pages k.2).
Proof. destruct index as [|e index], pages as [|p pages]; try done. simpl. destruct (key_le _ _); [by eexists|done]. Qed.

Lemma batch_pages_spec index pages keys results :
  sorted_by first_key index -> length index = length pages -> sorted_by snd keys -> NoDup keys.*1 ->
  exists out, batch_pages key answer index pages keys results = Ret out /\ length out = length results /\
    (forall i k r, (i, k) ∈ keys -> results !! i = Some r -> out !! i = Some (default r (answer_of index pages k))) /\
    (forall i, (forall k, (i, k) ∉ keys) -> out !! i = results !! i).
Proof.
  revert index keys results. induction pages as [|page pages IH]; intros index keys results Hi Hl Hk Hn.
  { destruct index; [|done]. cbn [batch_pages]. exists results. split_and!; [by destruct keys|done| |done].
    intros i k r _ Hr. by rewrite Hr. }
  destruct keys as [|k0 keys0].
  { exists results. split_and!; [done..| |done]. intros i k r Hik. by apply not_elem_of_nil in Hik. }
  destruct index as [|e index]; [done|]. apply StronglySorted_inv in Hi as [Hi Hall]. injection Hl as Hl.
  cbn [batch_pages]. set (keys := k0 :: keys0) in *. set (p1 := fun k : nat * bytes => key_lt k.2 (first_key e)).
  set (keys1 := skip_while p1 keys). set (here := take_while (below_next index) keys1).
  set (keys2 := skip_while (below_next index) keys1).
  assert (keys = take_while p1 keys ++ here ++ keys2) as Ek by (unfold here, keys2; rewrite take_skip_while; unfold keys1; by rewrite take_skip_while).
  assert (sorted_by snd keys2 /\ sorted_by snd keys1) as [Hk2 Hk1].
  { split; unfold keys2; repeat apply skip_while_sorted; done. }
  assert (Forall (fun k : nat * bytes => kle (first_key e) k.2) (here ++ keys2)) as Hge.
  { unfold here, keys2. rewrite take_skip_while. eapply Forall_impl; [apply (skip_while_none p1)|].
    - apply (sorted_while _ _ Hk). intros a b Hab. unfold p1. rewrite !key_lt_spec. intros. by eapply kle_klt_trans.
    - intros k Hp. unfold p1 in Hp. rewrite key_lt_le, negb_false_iff in Hp. by apply key_le_spec. }
  assert (Forall (fun k => below_next index k = false) keys2) as Hab.
  { apply skip_while_none, (sorted_while _ _ Hk1). intros a b. apply below_next_mono. }
  rewrite Ek, !fmap_app, !NoDup_app in Hn. destruct Hn as (Hn1 & Hd1 & Hn2 & Hd2 & Hn3).
  assert (forall i k (l : list (nat * bytes)), i ∉ l.*1 -> (i, k) ∉ l) as Hfst by (intros i k l Hni Hin; apply Hni; by apply (list_elem_of_fmap_2 fst) in Hin).
  destruct (IH index keys2 (fold_left (match_key key answer page) here results) Hi Hl Hk2 Hn3) as (out & -> & Hlen & Hin & Hout).
  exists out. rewrite match_keys_length in Hlen. split_and!; [done..| |].
  - intros i k r Hik Hr. rewrite Ek, !elem_of_app in Hik. unfold answer_of. cbn [scan]. destruct Hik as [Hik|[Hik|Hik]].
    + pose proof (list_elem_of_fmap_2 fst _ _ Hik) as Hi1. specialize (Hd1 _ Hi1). rewrite not_elem_of_app in Hd1.
      rewrite Hout by (intros k'; apply Hfst, Hd1). rewrite match_keys_lookup by (intros k'; apply Hfst, Hd1). rewrite Hr.
      eapply Forall_forall in Hik; [|apply take_while_all]. unfold p1 in Hik. cbn [snd] in Hik. rewrite key_lt_le, negb_true_iff in Hik. by rewrite Hik.
    + pose proof (list_elem_of_fmap_2 fst _ _ Hik) as Hi1. rewrite Hout by (intros k'; by apply Hfst, Hd2).
      rewrite (match_keys_found page here results i k r) by done. do 2 f_equal.
      apply Forall_app in Hge as [Hge _]. pose proof (proj1 (Forall_forall _ _) Hge _ Hik) as Hek. apply key_le_spec in Hek. cbn [snd] in Hek. rewrite Hek.
      eapply Forall_forall in Hik; [|apply take_while_all]. apply (scan_below_next index pages) in Hik; [|done]. cbn [snd] in Hik. by rewrite Hik.
    + rewrite (Hin i k r Hik).
      * do 2 f_equal. apply Forall_app in Hge as [_ Hge]. pose proof (proj1 (Forall_forall _ _) Hge _ Hik) as Hek.
        apply key_le_spec in Hek. cbn [snd] in Hek. rewrite Hek. pose proof (proj1 (Forall_forall _ _) Hab _ Hik) as Hb.
        destruct (scan_above_next index pages (i, k) Hl Hb) as [p Hp]. cbn [snd] in Hp. unfold answer_of. by rewrite Hp.
      * rewrite match_keys_lookup; [done|]. intros k' Hk'. apply (list_elem_of_fmap_2 fst) in Hk', Hik. by apply (Hd2 i).
  - intros i Hi0. rewrite Ek in Hi0. rewrite Hout by (intros k' H'; apply (Hi0 k'); rewrite !elem_of_app; auto).
    apply match_keys_lookup. intros k' H'. apply (Hi0 k'). rewrite !elem_of_app. auto.
Qed.

(** In the order of the input, every key gets the answer of its page. *)
Lemma batch_find_spec index pages none keys :
  sorted_by first_key index -> length index = length pages ->
  batch_find key answer index pages none keys = Ret (map (fun k => default none (answer_of index pages k)) keys).
Proof.
  intros Hi Hl. unfold batch_find. destruct keys as [|k0 keys0]; [done|]. set (keys := k0 :: keys0). change (length keys =? 0)%nat with false. cbn iota.
  set (indexed := sort_by_key snd (imap pair keys)). assert (indexed ≡ₚ imap pair keys) as Hp by apply sort_by_key_perm.
  destruct (batch_pages_spec index pages indexed (replicate (length keys) none) Hi Hl (sort_by_key_sorted _ _)) as (out & -> & Hlen & Hin & _).
  { rewrite Hp. rewrite fmap_imap. apply NoDup_alt. intros i j x. rewrite !list_lookup_imap. unfold compose. simpl.
    destruct (keys !! i); [|done]. destruct (keys !! j); [|done]. simpl. congruence. }
  f_equal. rewrite length_replicate in Hlen. apply list_eq. intros i. rewrite list_lookup_fmap.
  destruct (keys !! i) as [k|] eqn:Ek; simpl.
  - apply Hin; [|apply lookup_replicate_2; by eapply lookup_lt_Some]. rewrite Hp. apply elem_of_lookup_imap. eauto.
  - apply lookup_ge_None in Ek. apply lookup_ge_None. lia.
Qed.
End BatchTheorems.

Lemma mapM_Ret {A B} (f : A -> outcome B) (g : A -> B) l : (forall x, f x = Ret (g x)) -> mapM f l = Ret (map g l).
Proof. intros Hf. induction l as [|x l IH]; [done|]. simpl. by rewrite Hf, IH. Qed.

(** The index of both tables is in order and has an entry for each page. *)
Definition indexed (f : EncodingFile) : Prop :=
  sorted_by first_key (ckey_index f) /\ length (ckey_index f) = length (ckey_pages f) /\
  sorted_by first_key (ekey_index f) /\ length (ekey_index f) = length (ekey_pages f).

Lemma find_encoding_scan f k :
  indexed f -> find_encoding f k = Ret (default None (answer_of content_key (fun e => head (encoding_keys e)) (ckey_index f) (ckey_pages f) k)).
Proof.
  intros (Hc & Hcl & _). unfold find_encoding, answer_of. rewrite find_page_scan by done. cbn [mbind outcome_bind].
  destruct (scan _ _ k) as [p|]; [|done]. simpl. by destruct (find_by _ _ _).
Qed.

Lemma find_all_scan f k :
  indexed f -> find_all_encodings f k = Ret (default [] (answer_of content_key encoding_keys (ckey_index f) (ckey_pages f) k)).
Proof.
  intros (Hc & Hcl & _). unfold find_all_encodings, answer_of. rewrite find_page_scan by done. cbn [mbind outcome_bind].
  by destruct (scan _ _ k).
Qed.

Lemma find_espec_scan f k :
  indexed f ->
  find_espec f k = Ret (default None (answer_of encoding_key (fun e => espec_get (espec_table f) (espec_index e)) (ekey_index f) (ekey_pages f) k)).
Proof.
  intros (_ & _ & He & Hel). unfold find_espec, answer_of. rewrite find_page_scan by done. cbn [mbind outcome_bind].
  destruct (scan _ _ k) as [p|]; [|done]. simpl. by destruct (find_by _ _ _).
Qed.

(** ** Pages of the builder *)

(** An entry the builder can store on a page of [page_size] bytes. *)
Definition key_ok (k : bytes) : Prop := is_array 16 k.

Definition ckey_data_ok (page_size : nat) (d : CKeyEntryData) : Prop :=
  key_ok (cd_content_key d) /\ in_u 40 (cd_file_size d) /\ Forall key_ok (cd_encoding_keys d) /\
  (1 <= length (cd_encoding_keys d) <= 255)%nat /\ (ckey_entry_size d <= page_size)%nat.

Definition ekey_data_ok (d : EKeyEntryData) : Prop :=
  key_ok (ed_encoding_key d) /\ ed_encoding_key d <> zeros 16 /\ in_u 40 (ed_file_size d) /\ espec_ok (ed_espec d).

Lemma read_write_size40 size rest : in_u 40 size -> read_size40 (write_size40 size ++ rest) = Ok (size, rest).
Proof.
  intros Hs. unfold read_size40, write_size40. rewrite <- app_assoc.
  assert (u8 (Z.land (Z.shiftr size 32) 0xFF) /\ u32 (Z.land size 0xFFFFFFFF)) as [H1 H2].
  { change 0xFF with (Z.ones 8). change 0xFFFFFFFF with (Z.ones 32). rewrite !land_ones_mod by done. split; apply (wrap_range _ _); lia. }
  rewrite (read_be_app _ 1 8) by done. cbn [mbind result_bind]. rewrite (read_be_app _ 4 32) by done. cbn [mbind result_bind].
  do 2 f_equal. change 0xFF with (Z.ones 8). change 0xFFFFFFFF with (Z.ones 32). rewrite !land_ones_mod by done.
  rewrite Z.shiftr_div_pow2 by done. rewrite (Z.mod_small (size / 2 ^ 32)).
  - rewrite lor_shiftl_add; [|lia|apply Z.mod_pos_bound; lia]. pose proof (Z.div_mod size (2 ^ 32)). lia.
  - unfold in_u in Hs. split; [apply Z.div_pos; lia|]. apply Z.div_lt_upper_bound; lia.
Qed.

Lemma read_key_app k rest : length k = 16%nat -> read_key 16 (k ++ rest) = Ok (k, rest).
Proof.
  intros Hk. unfold read_key. change (Z.to_nat 16) with 16%nat. rewrite read_app by done. cbn [mbind result_bind].
  change (zeros (16 - 16)) with (@nil Z). by rewrite app_nil_r.
Qed.

Lemma read_keys_app ks rest : Forall key_ok ks -> read_keys (length ks) 16 (concat (map (take 16) ks) ++ rest) = Ok (ks, rest).
Proof.
  induction 1 as [|k ks [Hk _] H IH]; [done|]. cbn [length read_keys map concat]. rewrite <- app_assoc, (take_ge k) by lia.
  rewrite read_key_app by done. cbn [mbind result_bind]. by rewrite IH.
Qed.

Lemma read_write_ckey size d rest :
  ckey_data_ok size d -> read_ckey_entry 16 16 (write_ckey_entry 16 16 (ckey_page_entry d) ++ rest) = Ok (ckey_page_entry d, rest).
Proof.
  intros ([Hk _] & Hs & Hks & Hn & _). unfold read_ckey_entry, write_ckey_entry. rewrite <- !app_assoc.
  assert (key_count (ckey_page_entry d) = Z.of_nat (length (cd_encoding_keys d))) as Ec.
  { cbn [ckey_page_entry key_count]. apply wrap_small. unfold in_u. lia. }
  rewrite (read_be_app _ 1 8) by (rewrite ?Ec; unfold in_u; lia). cbn [mbind result_bind]. rewrite Ec at 1.
  rewrite (proj2 (Z.eqb_neq _ _)) by lia. rewrite read_write_size40 by done. cbn [mbind result_bind].
  change (Z.to_nat 16) with 16%nat. rewrite (take_ge (content_key _)) by (cbn [ckey_page_entry content_key]; lia).
  rewrite read_key_app by done. cbn [mbind result_bind]. rewrite Ec at 1. rewrite Nat2Z.id, read_keys_app by done. done.
Qed.

Lemma length_keys ks : Forall key_ok ks -> length (concat (map (take 16) ks)) = (16 * length ks)%nat.
Proof.
  induction 1 as [|k ks [Hk _] H IH]; [done|]. cbn [map concat length]. rewrite length_app, length_take, Hk, IH. lia.
Qed.

Lemma length_write_ckey size d : ckey_data_ok size d -> length (write_ckey_entry 16 16 (ckey_page_entry d)) = ckey_entry_size d.
Proof.
  intros ([Hk _] & _ & Hks & _ & _). unfold write_ckey_entry, write_size40, ckey_entry_size.
  rewrite !length_app, !length_to_be_bytes. change (Z.to_nat 16) with 16%nat. rewrite length_keys, length_take by done.
  cbn [ckey_page_entry content_key encoding_keys]. lia.
Qed.

Definition ekey_entry_ok (e : EKeyPageEntry) : Prop :=
  key_ok (encoding_key e) /\ encoding_key e <> zeros 16 /\ 0 <= espec_index e < 0xFFFFFFFF /\ in_u 40 (e_file_size e).

Lemma forallb_zeros k : forallb (fun b => b =? 0) k = true -> k = zeros (length k).
Proof. induction k as [|x k IH]; [done|]. simpl. intros [->%Z.eqb_eq ?]%andb_true_iff. unfold zeros. simpl. f_equal. by apply IH. Qed.

Lemma read_write_ekey e rest : ekey_entry_ok e -> read_ekey_entry 16 (write_ekey_entry 16 e ++ rest) = Ok (e, rest).
Proof.
  intros ([Hk _] & Hz & Hi & Hs). unfold read_ekey_entry, write_ekey_entry. rewrite <- !app_assoc. change (Z.to_nat 16) with 16%nat.
  rewrite take_ge by lia. rewrite read_key_app by done. cbn [mbind result_bind]. rewrite (read_be_app _ 4 32) by (unfold in_u; lia). cbn [mbind result_bind].
  assert (is_padding (encoding_key e) (espec_index e) = false) as ->.
  { unfold is_padding. rewrite (proj2 (Z.eqb_neq _ _)) by lia. cbn [orb]. destruct (forallb _ (encoding_key e)) eqn:E; [|by rewrite andb_false_r].
    apply forallb_zeros in E. rewrite Hk in E. done. }
  rewrite read_write_size40 by done. cbn [mbind result_bind]. by destruct e.
Qed.

Lemma length_write_ekey e : key_ok (encoding_key e) -> length (write_ekey_entry 16 e) = 25%nat.
Proof.
  intros [Hk _]. unfold write_ekey_entry, write_size40. rewrite !length_app, !length_to_be_bytes, length_take, Hk. done.
Qed.

(** Entries followed by zeros: the loop reads the entries and stops. *)
Lemma page_entries_read {T} (read_entry : bytes -> eresult (T * bytes)) (write : T -> bytes) min padding es n fuel :
  Forall (fun e => write e <> [] /\ forall rest, read_entry (write e ++ rest) = Ok (e, rest)) es ->
  (forall n, exists err, read_entry (zeros (S n)) = Err err /\ ((S n < min)%nat \/ padding (zeros (S n)) = true)) ->
  (length (concat (map write es)) + n <= fuel)%nat ->
  page_loop fuel read_entry min padding (concat (map write es) ++ zeros n) = Ok es.
Proof.
  intros Hes Hz. revert fuel. induction Hes as [|e es [Hne He] H IH]; intros fuel Hf.
  - cbn [map concat app]. destruct n as [|n]; [by destruct fuel|]. destruct fuel as [|fuel]; [done|]. cbn [page_loop].
    change (zeros (S n)) with (0 :: zeros n) at 1. cbn iota. destruct (Hz n) as (err & -> & Hp). rewrite length_zeros.
    destruct (Nat.ltb_spec (S n) min); [done|]. destruct Hp as [?| ->]; [lia|done].
  - cbn [map concat] in *. rewrite length_app in Hf. rewrite <- app_assoc. assert (0 < length (write e))%nat by (destruct (write e); [done|simpl; lia]).
    destruct fuel as [|fuel]; [lia|]. cbn [page_loop]. rewrite He. destruct (write e ++ _) eqn:E; [by destruct (write e)|].
    rewrite IH by lia. done.
Qed.

Lemma ckey_zeros n : exists err, read_ckey_entry 16 16 (zeros (S n)) = Err err /\ ((S n < 22)%nat \/ ckey_padding (zeros (S n)) = true).
Proof. exists BinRw. split; [done|]. by right. Qed.

Lemma from_be_zeros n : from_be_bytes (zeros n) = 0.
Proof.
  unfold from_be_bytes, zeros. rewrite reverse_replicate. induction n as [|n IH]; [done|]. simpl replicate. cbn [from_le_bytes]. rewrite IH. done.
Qed.

Lemma zeros_split a b n : (a + b <= n)%nat -> zeros n = zeros a ++ zeros b ++ zeros (n - a - b).
Proof. intros. rewrite <- !zeros_add. f_equal. lia. Qed.

Lemma ekey_zeros n : exists err, read_ekey_entry 16 (zeros (S n)) = Err err /\ ((S n < 25)%nat \/ ekey_padding 16 (zeros (S n)) = true).
Proof.
  exists BinRw. destruct (Nat.lt_ge_cases (S n) 25) as [L|L].
  - split; [|by left]. do 24 (destruct n as [|n]; [done|]). lia.
  - rewrite (zeros_split 16 4) by lia. split.
    + unfold read_ekey_entry. rewrite read_key_app by done. cbn [mbind result_bind]. unfold read_be. rewrite read_app by done. done.
    + right. unfold ekey_padding. change (Z.to_nat 16) with 16%nat. rewrite !length_app, !length_zeros, (proj2 (Nat.ltb_ge _ _)) by lia.
      rewrite take_app_length' by done. rewrite slice_app_r by (rewrite length_zeros; lia). rewrite length_zeros.
      rewrite slice_app_exact by done. done.
Qed.

(** How the builder groups its entries: in order, no group empty, each on a page. *)
Lemma pages_loop_groups {D T} (write : T -> bytes) page_size (size : D -> nat) convert (conv : D -> T) current csize ds :
  Forall (fun d => convert d = Ok (conv d) /\ length (write (conv d)) = size d /\ (size d <= page_size)%nat) ds ->
  csize = length (concat (map write current)) -> (csize <= page_size)%nat ->
  exists groups, pages_loop (serialize_page write) page_size size convert current csize ds = Ok (map (finish_page (serialize_page write) page_size) groups) /\
    concat groups = current ++ map conv ds /\ Forall (fun g => g <> [] /\ (length (concat (map write g)) <= page_size)%nat) groups.
Proof.
  intros Hd. revert current csize. induction Hd as [|d ds (Hc & Hw & Hs) H IH]; intros current csize Hcs Hle; cbn [pages_loop].
  - destruct current as [|x current]; [by exists []|]. exists [x :: current]. subst csize. split_and!; [done| |by repeat constructor].
    cbn [concat map]. by rewrite !app_nil_r.
  - rewrite Hc. cbn [mbind result_bind]. destruct (page_size <? csize + size d)%nat eqn:E1; [destruct current as [|x current]|].
    + simpl in Hcs. apply Nat.ltb_lt in E1. lia.
    + cbn [andb length Nat.eqb negb]. destruct (IH [conv d] (size d)) as (groups & -> & Hg & Hf); [simpl; rewrite app_nil_r; lia|done|].
      exists ((x :: current) :: groups). split_and!; [done|cbn [concat]; rewrite Hg; done|]. constructor; [|done]. split; [done|lia].
    + cbn [andb]. apply Nat.ltb_ge in E1. destruct (IH (current ++ [conv d]) (csize + size d)%nat) as (groups & -> & Hg & Hf).
      * rewrite map_app, concat_app, length_app. simpl. rewrite app_nil_r. lia.
      * lia.
      * exists groups. split_and!; [done| |done]. rewrite Hg, <- app_assoc. done.
Qed.

(** ** The index of the builder *)

Section Groups.
Context {T : Type} (key : T -> bytes) (serialize : nat -> list T -> bytes) (size : nat).

Abbreviation pages_of := (map (finish_page serialize size)).

Lemma group_index_sorted groups :
  Forall (fun g => g <> []) groups -> strictly_sorted key (concat groups) -> sorted_by first_key (build_index md5 key (pages_of groups)).
Proof.
  unfold sorted_by, strictly_sorted. induction 1 as [|g groups Hg Hgs IH]; intros Hs; [constructor|]. cbn [concat] in Hs.
  destruct g as [|x g]; [done|]. cbn [map build_index]. fold (build_index md5 key (pages_of groups)).
  constructor; [apply IH; by apply StronglySorted_app_1_r in Hs|].
  apply Forall_forall. intros e He. unfold build_index in He. rewrite map_map in He. apply list_elem_of_fmap in He as (g' & -> & Hg').
  rewrite Forall_forall in Hgs. specialize (Hgs g' Hg'). destruct g' as [|y g']; [done|]. cbn [first_key finish_page page_entries].
  apply kle_cases. left. eapply (StronglySorted_app_1_elem_of _ _ _ x y Hs); [left|]. apply list_elem_of_In, in_concat.
  exists (y :: g'). split; [by apply list_elem_of_In|by left].
Qed.

(** The page found by the index is the one that has the key, if any has. *)
Lemma scan_groups groups k :
  Forall (fun g => g <> []) groups -> strictly_sorted key (concat groups) ->
  (p ← scan (build_index md5 key (pages_of groups)) (pages_of groups) k; find_by key k (page_entries p)) = find_by key k (concat groups).
Proof.
  unfold strictly_sorted. induction 1 as [|g groups Hg Hgs IH]; intros Hs; [done|]. destruct g as [|x g]; [done|].
  cbn [concat] in Hs. cbn [map build_index scan first_key finish_page page_entries concat]. fold (build_index md5 key (pages_of groups)).
  rewrite find_by_app. specialize (IH (StronglySorted_app_1_r _ _ _ Hs)). destruct (key_le (key x) k) eqn:E; cbn [mbind option_bind].
  - destruct (scan _ _ k) as [p|] eqn:Ep; cbn [from_option id mbind option_bind] in *.
    + rewrite IH, (find_by_none key k (x :: g)); [done|]. intros y Hy <-. destruct groups as [|g' groups]; [done|].
      apply Forall_cons in Hgs as [Hg' _]. destruct g' as [|z g']; [done|]. cbn [map build_index scan first_key finish_page page_entries] in Ep.
      destruct (key_le (key z) (key y)) eqn:Ez; [|done]. apply key_le_spec in Ez.
      pose proof (StronglySorted_app_1_elem_of _ _ _ y z Hs Hy ltac:(left)) as Hlt. cbn beta in Hlt. by apply kle_gt in Hlt.
    + rewrite <- IH. cbn [page_entries finish_page]. by destruct (find_by key k (x :: g)).
  - apply key_le_false in E. assert (forall y, y ∈ (x :: g) ++ concat groups -> key y <> k) as Hno.
    { intros y Hy <-. apply elem_of_cons in Hy as [->|Hy]; [by apply klt_irrefl in E|]. apply StronglySorted_inv in Hs as [_ Hall].
      eapply Forall_forall in Hall; [|done]. apply (klt_irrefl (key x)). by eapply klt_trans. }
    rewrite !find_by_none; [done|intros y Hy; apply Hno; rewrite elem_of_app; by right|intros y Hy; apply Hno; rewrite elem_of_app; by left].
Qed.

Lemma updated_index_build pages : updated_index md5 (build_index md5 key pages) pages = Ret (build_index md5 key pages).
Proof. induction pages as [|p pages IH]; [done|]. cbn [build_index map updated_index]. fold (build_index md5 key pages). by rewrite IH. Qed.

Lemma parse_built_pages read_page pages rest :
  Forall (fun p => length (original_data p) = size /\ read_page (original_data p) = Ok (page_entries p)) pages ->
  parse_pages md5 read_page size (build_index md5 key pages) (write_pages pages ++ rest) = Ok (pages, rest).
Proof.
  induction 1 as [|p pages [Hl Hr] H IH]; [done|]. unfold write_pages. cbn [build_index map concat parse_pages]. fold (build_index md5 key pages).
  rewrite <- app_assoc, read_app by done. cbn [mbind result_bind]. unfold verify. cbn [checksum]. rewrite bool_decide_eq_true_2 by done. cbn [negb].
  rewrite Hr. cbn [mbind result_bind]. fold (write_pages pages). rewrite IH. cbn [mbind result_bind]. by destruct p.
Qed.

Lemma build_index_fits pages :
  (forall d, length (md5 d) = 16%nat) -> Forall (fun p => Forall (fun e => length (key e) = 16%nat) (page_entries p)) pages ->
  Forall index_fits (build_index md5 key pages).
Proof.
  intros Hm. induction 1 as [|p pages Hp H IH]; constructor; [|done]. split; [|apply Hm]. cbn [first_key].
  destruct (page_entries p) as [|e es]; [done|]. by apply Forall_cons in Hp as [Hp _].
Qed.

End Groups.

(** ** The specification table of the builder *)

Lemma espec_table_loop_ok table entries :
  Z.of_nat (length table + length entries) < 2 ^ 32 ->
  exists table', espec_table_loop table entries = Ret table' /\
    (forall s, s ∈ table' <-> s ∈ table \/ s ∈ map ed_espec entries) /\ (length table' <= length table + length entries)%nat /\
    (length (espec_build table') <= length (espec_build table) + length (espec_build (map ed_espec entries)))%nat.
Proof.
  revert table. induction entries as [|e entries IH]; intros table Hl; cbn [espec_table_loop].
  { exists table. split_and!; [done| |simpl; lia|simpl; lia]. intros s. cbn [map]. split; [by left|]. by intros [?|?%not_elem_of_nil]. }
  simpl length in *. assert (forall x, length (espec_build (x :: map ed_espec entries)) = (length x + 1 + length (espec_build (map ed_espec entries)))%nat) as Hb
    by (intros x; unfold espec_build; cbn [map concat]; rewrite !length_app; done).
  cbn [map]. rewrite Hb. case_bool_decide as Hin.
  - destruct (IH table) as (table' & -> & Hs & Hlen & Hsz); [lia|]. exists table'. split_and!; [done| |lia|lia].
    intros s. rewrite Hs. cbn [map]. rewrite elem_of_cons. split; [intros [?|?]; auto|]. intros [?|[->|?]]; auto.
  - unfold espec_add. rewrite (proj2 (Z.ltb_lt _ _)) by lia. cbn [mbind outcome_bind].
    destruct (IH (table ++ [ed_espec e])) as (table' & -> & Hs & Hlen & Hsz); [rewrite length_app; simpl; lia|]. exists table'.
    rewrite length_app in Hlen. simpl in Hlen.
    assert (length (espec_build (table ++ [ed_espec e])) = length (espec_build table) + length (ed_espec e) + 1)%nat as Hb'
      by (unfold espec_build; rewrite map_app, concat_app, length_app; simpl; rewrite app_nil_r, length_app; simpl; lia).
    split_and!; [done| |lia|lia]. intros s. rewrite Hs. cbn [map]. rewrite elem_of_app, list_elem_of_singleton, elem_of_cons. tauto.
Qed.

Lemma espec_position_missing spec i table : spec ∉ table -> espec_position spec i table = None.
Proof.
  revert i. induction table as [|s table IH]; intros i; [done|]. rewrite not_elem_of_cons. intros [Hs Ht]. cbn [espec_position].
  rewrite IH by done. by rewrite bool_decide_eq_false_2.
Qed.

Lemma espec_position_found spec i table :
  0 <= i -> i + Z.of_nat (length table) < 2 ^ 32 -> spec ∈ table ->
  exists j, espec_position spec i table = Some (i + Z.of_nat j) /\ table !! j = Some spec.
Proof.
  revert i. induction table as [|s table IH]; intros i H0 Hi Hin; [by apply not_elem_of_nil in Hin|]. cbn [espec_position]. cbn [length] in Hi.
  destruct (decide (spec ∈ table)) as [Ht|Ht].
  - destruct (IH (i + 1)) as (j & -> & Hj); [lia..|done|]. exists (S j). split; [f_equal; lia|done].
  - apply elem_of_cons in Hin as [->|]; [|done]. destruct (espec_position s (i + 1) table) as [j|] eqn:E.
    + by rewrite espec_position_missing in E.
    + rewrite bool_decide_eq_true_2 by done. exists 0%nat. split; [|done]. f_equal. rewrite Z.add_0_r. apply wrap_small. unfold in_u. lia.
Qed.

(** ** From the builder to the file and back *)

Record builder_ok (b : EncodingBuilder) : Prop := {
  page_sizes_ok : 1 <= b_ckey_page_size_kb b < 2 ^ 16 /\ 1 <= b_ekey_page_size_kb b < 2 ^ 16;
  some_entries : ckey_entries b <> [] /\ ekey_entries b <> [];
  few_entries : Z.of_nat (length (ckey_entries b)) < 2 ^ 32 /\ Z.of_nat (length (ekey_entries b)) < 2 ^ 32;
  few_especs : Z.of_nat (length (espec_build (map ed_espec (ekey_entries b)))) < 2 ^ 32;
  ckeys_ok : Forall (ckey_data_ok (Z.to_nat (b_ckey_page_size_kb b * 1024))) (ckey_entries b);
  ekeys_ok : Forall ekey_data_ok (ekey_entries b);
  ckeys_distinct : NoDup (map cd_content_key (ckey_entries b));
  ekeys_distinct : NoDup (map ed_encoding_key (ekey_entries b));
  trailing_ok : match b_trailing_espec b with Some t => t <> [] /\ utf8_valid t = true | None => True end;
}.

Definition page_ok {T} (read_page : bytes -> eresult (list T)) (size : nat) (p : Page T) : Prop :=
  length (original_data p) = size /\ read_page (original_data p) = Ok (page_entries p).

Lemma length_serialize {T} (write : T -> bytes) size g :
  (length (concat (map write g)) <= size)%nat -> length (serialize_page write size g) = size.
Proof. intros. unfold serialize_page. rewrite length_app, length_zeros. lia. Qed.

(** What both tables of a built file have in common. *)
Record table_ok {T} (key : T -> bytes) (read_page : bytes -> eresult (list T)) (size : nat) (entries : list T) (pages : list (Page T)) : Prop := {
  t_entries : concat (map page_entries pages) = entries;
  t_pages : Forall (page_ok read_page size) pages;
  t_index_fits : Forall index_fits (build_index md5 key pages);
  t_index_sorted : sorted_by first_key (build_index md5 key pages);
  t_count : (length pages <= length entries)%nat /\ (entries <> [] -> pages <> []);
  t_find : forall k, (p ← scan (build_index md5 key pages) pages k; find_by key k (page_entries p)) = find_by key k entries;
}.

Lemma groups_table_ok {T} (key : T -> bytes) (write : T -> bytes) read_page size groups :
  (forall d, length (md5 d) = 16%nat) -> Forall (fun g => g <> [] /\ (length (concat (map write g)) <= size)%nat) groups ->
  strictly_sorted key (concat groups) -> Forall (fun e => length (key e) = 16%nat) (concat groups) ->
  (forall g, g ∈ groups -> read_page (serialize_page write size g) = Ok g) ->
  table_ok key read_page size (concat groups) (map (finish_page (serialize_page write) size) groups).
Proof.
  intros Hm Hg Hs Hk Hr. assert (Forall (fun g => g <> []) groups) as Hne by (eapply Forall_impl; [exact Hg|naive_solver]).
  constructor.
  - by rewrite map_map, map_id.
  - apply Forall_forall. intros p (g & -> & Hin)%list_elem_of_fmap. split; [|by apply Hr]. eapply Forall_forall in Hg as [_ Hg]; [|done]. by apply length_serialize.
  - apply build_index_fits; [done|]. apply Forall_forall. intros p (g & -> & Hin)%list_elem_of_fmap. cbn [page_entries finish_page].
    apply Forall_forall. intros e He. eapply Forall_forall in Hk; [done|]. apply list_elem_of_In, in_concat. exists g. by rewrite <- !list_elem_of_In.
  - by apply group_index_sorted.
  - rewrite length_map. split; [|intros Hc E; by apply map_eq_nil in E as ->].
    clear -Hne. induction Hne as [|g groups Hg H IH]; [done|]. cbn [concat length]. rewrite length_app. destruct g; [done|]. simpl. lia.
  - intros k. by apply scan_groups.
Qed.

Lemma ckey_table b size :
  (forall d, length (md5 d) = 16%nat) -> Forall (ckey_data_ok size) (ckey_entries b) -> NoDup (map cd_content_key (ckey_entries b)) ->
  exists pages, build_ckey_pages b size = Ok pages /\
    table_ok content_key (fun page => page_loop (length page) (read_ckey_entry 16 16) 22 ckey_padding page) size
      (map ckey_page_entry (sort_by_key cd_content_key (ckey_entries b))) pages.
Proof.
  intros Hm Hok Hd. unfold build_ckey_pages, serialize_ckey_page. set (ds := sort_by_key cd_content_key (ckey_entries b)).
  assert (Forall (ckey_data_ok size) ds) as Hds by (unfold ds; by rewrite sort_by_key_perm).
  destruct (pages_loop_groups (write_ckey_entry 16 16) size ckey_entry_size (fun d => Ok (ckey_page_entry d)) ckey_page_entry [] 0 ds)
    as (groups & -> & Hg & Hf); [|done|lia|].
  { eapply Forall_impl; [exact Hds|]. intros d H. split_and!; [done|by apply (length_write_ckey size)|apply H]. }
  eexists. split; [done|]. cbn [app] in Hg. rewrite <- Hg. apply groups_table_ok; [done..| | |].
  - rewrite Hg. unfold strictly_sorted. pose proof (sort_strict cd_content_key _ Hd) as Hs. fold ds in Hs. clear -Hs.
    induction Hs as [|x l Hs IH Hall]; [constructor|]. cbn [map]. constructor; [done|]. by apply Forall_map.
  - rewrite Hg. apply Forall_map. eapply Forall_impl; [exact Hds|]. intros d H. apply H.
  - intros g Hin. unfold serialize_page. apply (page_entries_read _ (write_ckey_entry 16 16)); [|apply ckey_zeros|by rewrite length_app, length_zeros].
    assert (forall e, e ∈ g -> exists d, e = ckey_page_entry d /\ d ∈ ds) as Hge.
    { intros e He. assert (e ∈ concat groups) as Hc by (apply list_elem_of_In, in_concat; exists g; by rewrite <- !list_elem_of_In).
      rewrite Hg in Hc. by apply list_elem_of_fmap in Hc. }
    apply Forall_forall. intros e (d & -> & Hdd)%Hge. pose proof (proj1 (Forall_forall _ _) Hds d Hdd) as Hdo. split.
    + intros E. apply (f_equal length) in E. by rewrite (length_write_ckey size) in E.
    + intros rest. by apply (read_write_ckey size).
Qed.

(** The page entry of an encoding key. *)
Definition ekey_converted (table : ESpecTable) (d : EKeyEntryData) : EKeyPageEntry :=
  {| encoding_key := ed_encoding_key d; espec_index := default 0 (espec_position (ed_espec d) 0 table); e_file_size := ed_file_size d |}.

Lemma ekey_table b size table :
  (forall d, length (md5 d) = 16%nat) -> (25 <= size)%nat -> Forall ekey_data_ok (ekey_entries b) -> NoDup (map ed_encoding_key (ekey_entries b)) ->
  Z.of_nat (length table) < 2 ^ 32 -> (forall d, d ∈ ekey_entries b -> ed_espec d ∈ table) ->
  exists pages, build_ekey_pages b size table = Ok pages /\
    table_ok encoding_key (fun page => page_loop (length page) (read_ekey_entry 16) 25 (ekey_padding 16) page) size
      (map (ekey_converted table) (sort_by_key ed_encoding_key (ekey_entries b))) pages.
Proof.
  intros Hm Hsz Hok Hd Htl Ht. unfold build_ekey_pages, serialize_ekey_page. set (ds := sort_by_key ed_encoding_key (ekey_entries b)).
  assert (Forall (fun d => ekey_data_ok d /\ ekey_page_entry table d = Ok (ekey_converted table d) /\ ekey_entry_ok (ekey_converted table d)) ds) as Hds.
  { unfold ds. rewrite sort_by_key_perm. apply Forall_forall. intros d Hin. pose proof (proj1 (Forall_forall _ _) Hok d Hin) as Hdo. split; [done|].
    destruct (espec_position_found (ed_espec d) 0 table) as (j & Hj & Hl); [lia|lia|by apply Ht|]. apply lookup_lt_Some in Hl.
    unfold ekey_page_entry, ekey_converted. rewrite Hj. split; [done|]. destruct Hdo as (H1 & H2 & H3 & _). split; [done|]. split; [done|].
    cbn [espec_index from_option id e_file_size]. split; [lia|done]. }
  destruct (pages_loop_groups (write_ekey_entry 16) size (fun _ => (16 + 4 + 5)%nat) (ekey_page_entry table) (ekey_converted table) [] 0 ds)
    as (groups & -> & Hg & Hf); [|done|lia|].
  { eapply Forall_impl; [exact Hds|]. intros d (_ & H & H'). split_and!; [done|apply length_write_ekey, H'|lia]. }
  eexists. split; [done|]. cbn [app] in Hg. rewrite <- Hg. apply groups_table_ok; [done..| | |].
  - rewrite Hg. unfold strictly_sorted. pose proof (sort_strict ed_encoding_key _ Hd) as Hs. fold ds in Hs. clear -Hs.
    induction Hs as [|x l Hs IH Hall]; [constructor|]. cbn [map]. constructor; [done|]. by apply Forall_map.
  - rewrite Hg. apply Forall_map. eapply Forall_impl; [exact Hds|]. intros d ([H _] & _). apply H.
  - intros g Hin. unfold serialize_page. apply (page_entries_read _ (write_ekey_entry 16)); [|apply ekey_zeros|by rewrite length_app, length_zeros].
    assert (forall e, e ∈ g -> ekey_entry_ok e) as Hge.
    { intros e He. assert (e ∈ concat groups) as Hc by (apply list_elem_of_In, in_concat; exists g; by rewrite <- !list_elem_of_In).
      rewrite Hg in Hc. apply list_elem_of_fmap in Hc as (d & -> & Hdd). by apply (proj1 (Forall_forall _ _) Hds d Hdd). }
    apply Forall_forall. intros e He%Hge. split; [|intros rest; by apply read_write_ekey].
    intros E. apply (f_equal length) in E. rewrite length_write_ekey in E; [done|apply He].
Qed.

(** A table is written as its index followed by its pages, and read back. *)
Lemma parse_table {T} (key : T -> bytes) read_page size entries pages rest n :
  table_ok key read_page size entries pages -> n = length pages ->
  ('(index, i) ← read_index n (write_index (build_index md5 key pages) ++ write_pages pages ++ rest);
   '(ps, i) ← parse_pages md5 read_page size index i; Ok (index, ps, i)) = Ok (build_index md5 key pages, pages, rest).
Proof.
  intros Ht ->. replace (length pages) with (length (build_index md5 key pages)) by (unfold build_index; apply length_map).
  rewrite read_write_index by apply (t_index_fits _ _ _ _ _ Ht). cbn [mbind result_bind].
  rewrite parse_built_pages; [done|]. apply (t_pages _ _ _ _ _ Ht).
Qed.

Record built (b : EncodingBuilder) (f : EncodingFile) : Prop := {
  b_header_fits : header_fits (header f);
  b_valid : validate (header f) = Ok tt;
  b_especs : Forall espec_ok (espec_table f) /\ Z.of_nat (length (espec_build (espec_table f))) = espec_block_size (header f);
  b_espec_found : forall d, d ∈ ekey_entries b -> ed_espec d ∈ espec_table f;
  b_espec_count : Z.of_nat (length (espec_table f)) < 2 ^ 32;
  b_counts : Z.to_nat (ckey_page_count (header f)) = length (ckey_pages f) /\ Z.to_nat (ekey_page_count (header f)) = length (ekey_pages f);
  b_indices : ckey_index f = build_index md5 content_key (ckey_pages f) /\ ekey_index f = build_index md5 encoding_key (ekey_pages f);
  b_ckeys : table_ok content_key (read_ckey_page (header f)) (ckey_page_size (header f))
              (map ckey_page_entry (sort_by_key cd_content_key (ckey_entries b))) (ckey_pages f);
  b_ekeys : table_ok encoding_key (read_ekey_page (header f)) (ekey_page_size (header f))
              (map (ekey_converted (espec_table f)) (sort_by_key ed_encoding_key (ekey_entries b))) (ekey_pages f);
  b_trailing : trailing_espec f = b_trailing_espec b;
  b_sizes : ckey_page_size_kb (header f) = b_ckey_page_size_kb b /\ ekey_page_size_kb (header f) = b_ekey_page_size_kb b;
}.

Lemma wrap32_count n m : (n <= m)%nat -> Z.of_nat m < 2 ^ 32 -> wrap32 (Z.of_nat n) = Z.of_nat n.
Proof. intros. apply wrap_small. unfold in_u. lia. Qed.

Lemma builder_builds b :
  (forall d, length (md5 d) = 16%nat) -> builder_ok b -> exists f, builder_build md5 b = Ret (Ok f) /\ built b f.
Proof.
  intros Hm Hb. destruct Hb as [[Hp1 Hp2] [Hs1 Hs2] [Hf1 Hf2] Hfe Hc He Hdc Hde Htr].
  unfold builder_build, build_espec_table.
  destruct (espec_table_loop_ok [] (ekey_entries b)) as (table & -> & Ht & Htl & Htb); [simpl; lia|]. simpl in Htl, Htb. cbn [mbind outcome_bind].
  destruct (ckey_table b (Z.to_nat (b_ckey_page_size_kb b * 1024)) Hm Hc Hdc) as (cp & -> & Hct). cbn [mbind result_bind].
  destruct (ekey_table b (Z.to_nat (b_ekey_page_size_kb b * 1024)) table Hm ltac:(lia) He Hde ltac:(lia)) as (ep & -> & Het).
  { intros d Hd. apply Ht. right. by apply (list_elem_of_fmap_2 ed_espec). }
  cbn [mbind result_bind]. eexists. split; [done|].
  destruct (t_count _ _ _ _ _ Hct) as [Hc1 Hc2], (t_count _ _ _ _ _ Het) as [He1 He2].
  rewrite length_map, sort_by_key_perm in Hc1. rewrite length_map, sort_by_key_perm in He1.
  assert (cp <> []) as Hcne. { apply Hc2. intros E. apply map_eq_nil in E. pose proof (sort_by_key_perm cd_content_key (ckey_entries b)) as P. rewrite E in P. by apply Permutation_nil_l in P. }
  assert (ep <> []) as Hene. { apply He2. intros E. apply map_eq_nil in E. pose proof (sort_by_key_perm ed_encoding_key (ekey_entries b)) as P. rewrite E in P. by apply Permutation_nil_l in P. }
  assert (table <> []) as Htne. { intros ->. destruct (ekey_entries b) as [|d ds] eqn:E; [done|]. apply (not_elem_of_nil (ed_espec d)), Ht. right. left. }
  pose proof (wrap32_count _ _ Hc1 Hf1) as W1. pose proof (wrap32_count _ _ He1 Hf2) as W2.
  pose proof (wrap32_count _ _ Htb Hfe) as W3.
  assert (length (espec_build table) <> 0)%nat as Hbne by (destruct table as [|s t]; [done|]; unfold espec_build; cbn [map concat]; rewrite !length_app; simpl; lia).
  assert (length cp <> 0 /\ length ep <> 0)%nat as [Hl1 Hl2] by (split; [by destruct cp|by destruct ep]).
  constructor; cbn [header espec_table ckey_index ckey_pages ekey_index ekey_pages trailing_espec]; try done.
  - unfold header_fits. cbn [magic version ckey_hash_size ekey_hash_size ckey_page_size_kb ekey_page_size_kb ckey_page_count ekey_page_count flags espec_block_size].
    rewrite W1, W2, W3. unfold in_u. split_and!; try done; lia.
  - unfold validate. cbn [magic version ckey_hash_size ekey_hash_size ckey_page_size_kb ekey_page_size_kb ckey_page_count ekey_page_count flags espec_block_size].
    rewrite W1, W2, W3. cbn [Z.eqb Pos.eqb negb Z.ltb Z.compare Pos.compare Pos.compare_cont orb].
    by rewrite !(proj2 (Z.eqb_neq _ _)) by lia.
  - rewrite W3. split; [|done]. apply Forall_forall. intros s Hs. apply Ht in Hs as [Hs%not_elem_of_nil|Hs]; [done|].
    apply list_elem_of_fmap in Hs as (d & -> & Hd). by apply (proj1 (Forall_forall _ _) He d Hd).
  - intros d Hd. apply Ht. right. by apply (list_elem_of_fmap_2 ed_espec).
  - lia.
  - cbn [ckey_page_count ekey_page_count]. rewrite W1, W2. lia.
Qed.

Lemma built_indexed b f : built b f -> indexed f.
Proof.
  intros H. destruct (b_indices _ _ H) as [E1 E2]. unfold indexed. rewrite E1, E2. unfold build_index at 2 4. rewrite !length_map.
  split_and!; [apply (t_index_sorted _ _ _ _ _ (b_ckeys _ _ H))|done|apply (t_index_sorted _ _ _ _ _ (b_ekeys _ _ H))|done].
Qed.

Lemma built_roundtrip b f :
  builder_ok b -> built b f -> exists data, build md5 f = Ret (Ok data) /\ parse md5 data = Ok f.
Proof.
  intros Hb H. destruct (b_indices _ _ H) as [E1 E2], (b_especs _ _ H) as [He Hes], (b_counts _ _ H) as [Hc1 Hc2].
  unfold build. rewrite Hes, Z.eqb_refl. cbn [negb]. rewrite E1, E2, !updated_index_build. cbn [mbind outcome_bind]. eexists. split; [done|].
  unfold parse. rewrite read_write_header by apply (b_header_fits _ _ H). cbn [mbind result_bind]. rewrite (b_valid _ _ H). cbn [mbind result_bind].
  rewrite read_app by lia. cbn [mbind result_bind]. rewrite espec_parse_build by done. cbn [mbind result_bind].
  pose proof (fun rest => parse_table _ _ _ _ _ rest _ (b_ckeys _ _ H) Hc1) as P1. pose proof (fun rest => parse_table _ _ _ _ _ rest _ (b_ekeys _ _ H) Hc2) as P2.
  match goal with |- context [read_index _ (write_index _ ++ write_pages _ ++ ?r)] => specialize (P1 r) end.
  destruct (read_index _ (write_index (build_index md5 content_key _) ++ _)) as [[ci i1]|] eqn:R1; [|done]. cbn [mbind result_bind] in P1 |- *.
  unfold parse_ckey_pages. destruct (parse_pages _ _ _ ci i1) as [[cp i2]|] eqn:R2; [|done]. cbn [mbind result_bind] in P1 |- *. injection P1 as -> -> ->.
  specialize (P2 (default [] (trailing_espec f))).
  destruct (read_index _ (write_index (build_index md5 encoding_key _) ++ _)) as [[ei i3]|] eqn:R3; [|done]. cbn [mbind result_bind] in P2 |- *.
  unfold parse_ekey_pages. destruct (parse_pages _ _ _ ei i3) as [[ep i4]|] eqn:R4; [|done]. cbn [mbind result_bind] in P2 |- *. injection P2 as -> -> ->.
  f_equal. pose proof (trailing_ok b Hb) as Ht. rewrite <- (b_trailing _ _ H) in Ht. destruct f as [h t ci cp ei ep tr].
  cbn [header espec_table ckey_index ckey_pages ekey_index ekey_pages trailing_espec] in *. rewrite E1, E2. f_equal.
  destruct tr as [[|x tr]|]; cbn [default from_option length Nat.eqb] in *; [by destruct Ht|f_equal; apply from_utf8_lossy_valid, Ht|done].
Qed.

Lemma answer_of_found {T R} (key : T -> bytes) (answer : T -> R) read_page size entries pages k :
  table_ok key read_page size entries pages ->
  answer_of key answer (build_index md5 key pages) pages k = answer <$> find_by key k entries.
Proof.
  intros H. rewrite <- (t_find _ _ _ _ _ H k). unfold answer_of. destruct (scan _ _ k) as [p|]; [|done]. cbn [mbind option_bind].
  by destruct (find_by key k (page_entries p)).
Qed.

Lemma built_find_encodings b f k :
  NoDup (map cd_content_key (ckey_entries b)) -> built b f ->
  answer_of content_key encoding_keys (ckey_index f) (ckey_pages f) k = cd_encoding_keys <$> find_by cd_content_key k (ckey_entries b).
Proof.
  intros Hn H. rewrite (proj1 (b_indices _ _ H)), (answer_of_found _ _ _ _ _ _ k (b_ckeys _ _ H)).
  rewrite (find_by_map ckey_page_entry cd_content_key content_key) by done. rewrite <- option_fmap_compose.
  rewrite (find_by_perm cd_content_key k (ckey_entries b) (sort_by_key cd_content_key (ckey_entries b))); [done..|by rewrite sort_by_key_perm].
Qed.

Lemma built_find_espec b f k :
  NoDup (map ed_encoding_key (ekey_entries b)) -> built b f ->
  default None (answer_of encoding_key (fun e => espec_get (espec_table f) (espec_index e)) (ekey_index f) (ekey_pages f) k) =
  ed_espec <$> find_by ed_encoding_key k (ekey_entries b).
Proof.
  intros Hn H. rewrite (proj2 (b_indices _ _ H)), (answer_of_found _ _ _ _ _ _ k (b_ekeys _ _ H)).
  rewrite (find_by_map (ekey_converted (espec_table f)) ed_encoding_key encoding_key) by done.
  rewrite <- (find_by_perm ed_encoding_key k (ekey_entries b)); [|done|by rewrite sort_by_key_perm].
  destruct (find_by ed_encoding_key k (ekey_entries b)) as [d|] eqn:E; [|done]. apply find_by_Some in E as [Hd _].
  destruct (espec_position_found (ed_espec d) 0 (espec_table f)) as (j & Hj & Hl); [done|pose proof (b_espec_count _ _ H); lia|by apply (b_espec_found _ _ H)|].
  cbn [fmap option_fmap option_map from_option]. unfold id, ekey_converted. cbn [espec_index]. rewrite Hj. cbn [from_option id]. unfold espec_get.
  by rewrite Z.add_0_l, Nat2Z.id.
Qed.

(** The entries of a built file, page after page, are the builder's in key order. *)
Lemma built_ckeys_listed b f :
  built b f -> ckey_entries (from_encoding_file f) = sort_by_key cd_content_key (ckey_entries b).
Proof.
  intros H. unfold from_encoding_file. cbn [ckey_entries]. rewrite flat_map_concat_map, <- (map_map page_entries), <- concat_map.
  rewrite (t_entries _ _ _ _ _ (b_ckeys _ _ H)), map_map. rewrite <- (map_id (sort_by_key _ _)) at 2. apply map_ext. by intros [].
Qed.

Lemma built_ekeys_listed b f :
  built b f -> ekey_entries (from_encoding_file f) = sort_by_key ed_encoding_key (ekey_entries b).
Proof.
  intros H. unfold from_encoding_file. cbn [ekey_entries]. rewrite flat_map_concat_map, <- (map_map page_entries), <- concat_map.
  rewrite (t_entries _ _ _ _ _ (b_ekeys _ _ H)), map_map. rewrite <- (map_id (sort_by_key _ _)) at 2. apply map_ext_in.
  intros d Hd. rewrite <- list_elem_of_In, sort_by_key_perm in Hd.
  destruct (espec_position_found (ed_espec d) 0 (espec_table f)) as (j & Hj & Hl); [done|pose proof (b_espec_count _ _ H); lia|by apply (b_espec_found _ _ H)|].
  unfold ekey_converted. cbn [encoding_key espec_index e_file_size]. rewrite Hj. cbn [from_option id]. unfold espec_get.
  rewrite Z.add_0_l, Nat2Z.id. unfold ESpecTable in *. rewrite Hl. by destruct d.
Qed.

End Md5.

(** ** Properties *)

(** A file that parses is written back byte for byte: when its specification
    block and the text behind its pages are UTF-8, [build] after [parse] is the input,
    whatever its pages hold.  The parser checks every page checksum, so the index the
    writer recomputes is the one it read. *)
Theorem parsed_encoding_is_rebuilt md5 data f :
  is_bytes data -> parse md5 data = Ok f ->
  utf8_valid (slice 22 (22 + Z.to_nat (espec_block_size (header f))) data) = true ->
  utf8_valid (drop (Z.to_nat (data_size (header f))) data) = true ->
  build md5 f = Ret (Ok data).
Proof. apply parse_then_build. Qed.

(** C10: What is given to the builder is found again in the file.  For a builder with
    distinct keys, whose entries have one to 255 encoding keys and fit a page, whose
    sizes fit 40 bits and whose specifications are text, [build] makes a file; written
    and parsed it is the same file; each content key has the encoding keys it was added
    with, each encoding key its specification, and no other key is found; and a builder
    made from the file has the same entries in key order. *)
Theorem encoding_builder_roundtrip md5 b :
  (forall d, length (md5 d) = 16%nat) -> builder_ok b ->
  exists f data,
    builder_build md5 b = Ret (Ok f) /\ build md5 f = Ret (Ok data) /\ parse md5 data = Ok f /\ indexed f /\
    (forall k, find_all_encodings f k = Ret (default [] (cd_encoding_keys <$> find_by cd_content_key k (ckey_entries b)))) /\
    (forall k, find_encoding f k = Ret (d ← find_by cd_content_key k (ckey_entries b); head (cd_encoding_keys d))) /\
    (forall k, find_espec f k = Ret (ed_espec <$> find_by ed_encoding_key k (ekey_entries b))) /\
    from_encoding_file f =
      with_entries b (sort_by_key cd_content_key (ckey_entries b)) (sort_by_key ed_encoding_key (ekey_entries b)).
Proof.
  intros Hm Hb. destruct (builder_builds md5 b Hm Hb) as (f & Hf & H). destruct (built_roundtrip md5 b f Hb H) as (data & Hd & Hp).
  pose proof (built_indexed md5 b f H) as Hi. exists f, data. split_and!; [done..| | | |].
  - intros k. by rewrite find_all_scan, (built_find_encodings md5 b f k (ckeys_distinct b Hb) H) by done.
  - intros k. rewrite find_encoding_scan by done. do 2 f_equal. pose proof (built_find_encodings md5 b f k (ckeys_distinct b Hb) H) as E. unfold answer_of in *.
    destruct (scan _ _ k) as [p|]; cbn [mbind option_bind] in *; [destruct (find_by content_key k _) as [e|]; cbn [mbind option_bind] in *|];
      destruct (find_by cd_content_key k _) as [d|]; cbn [fmap option_fmap option_map from_option id] in *; try done. by injection E as ->.
  - intros k. by rewrite find_espec_scan, (built_find_espec md5 b f k (ekeys_distinct b Hb) H) by done.
  - pose proof (built_ckeys_listed md5 b f H) as E1. pose proof (built_ekeys_listed md5 b f H) as E2. destruct (b_sizes md5 b f H) as [E3 E4].
    unfold from_encoding_file in *. cbn [ckey_entries ekey_entries] in E1, E2. unfold with_entries. by rewrite E1, E2, E3, E4, (b_trailing md5 b f H).
Qed.

(** C11: On a file whose index is in order, the batch lookups give for every key, in
    the order of the input and with repetitions, what the single lookups give; none of
    them panics. *)
Theorem batch_lookups_agree f ckeys ekeys :
  indexed f ->
  batch_find_encodings f ckeys = mapM (find_encoding f) ckeys /\
  batch_find_all_encodings f ckeys = mapM (find_all_encodings f) ckeys /\
  batch_find_especs f ekeys = mapM (find_espec f) ekeys /\
  mapM (find_encoding f) ckeys <> Panic /\ mapM (find_espec f) ekeys <> Panic.
Proof.
  intros Hf. pose proof Hf as (Hc & Hcl & He & Hel).
  rewrite (mapM_Ret (find_encoding f) _ ckeys (fun k => find_encoding_scan f k Hf)).
  rewrite (mapM_Ret (find_all_encodings f) _ ckeys (fun k => find_all_scan f k Hf)).
  rewrite (mapM_Ret (find_espec f) _ ekeys (fun k => find_espec_scan f k Hf)).
  unfold batch_find_encodings, batch_find_all_encodings, batch_find_especs. by rewrite !batch_find_spec by done.
Qed.

(** ** A concrete file *)

Definition sample_key (n : Z) : bytes := n :: zeros 15.

Definition sample_builder : EncodingBuilder :=
  {| ckey_entries := [{| cd_content_key := sample_key 9; cd_file_size := 70000; cd_encoding_keys := [sample_key 3; sample_key 4] |};
                      {| cd_content_key := sample_key 5; cd_file_size := 12; cd_encoding_keys := [sample_key 7] |}];
     ekey_entries := [{| ed_encoding_key := sample_key 7; ed_espec := [122]; ed_file_size := 11 |};
                      {| ed_encoding_key := sample_key 3; ed_espec := [110]; ed_file_size := 2 ^ 33 |}];
     b_ckey_page_size_kb := 1; b_ekey_page_size_kb := 1; b_trailing_espec := Some [122] |}.

Lemma sample_key_ok n : u8 n -> key_ok (sample_key n).
Proof. intros Hn. split; [done|]. constructor; [done|apply zeros_bytes]. Qed.

Lemma encoding_sample_ok : builder_ok sample_builder.
Proof.
  constructor; try done.
  - apply Forall_cons_2; [|apply Forall_cons_2; [|by constructor]];
      (split; [by apply sample_key_ok|]; split; [done|]; split; [|split; [simpl; lia|apply Nat.leb_le; done]]);
      repeat (apply Forall_cons_2; [by apply sample_key_ok|]); by constructor.
  - apply Forall_cons_2; [|apply Forall_cons_2; [|by constructor]];
      (split; [by apply sample_key_ok|]; split; [done|]; split; [done|]; split; [done|]; split; [by repeat constructor|done]).
  - decide_now.
  - decide_now.
Qed.

Lemma encoding_builder_roundtrip_witness :
  exists f data, builder_build zero_md5 sample_builder = Ret (Ok f) /\ build zero_md5 f = Ret (Ok data) /\ parse zero_md5 data = Ok f /\
    find_all_encodings f (sample_key 9) = Ret [sample_key 3; sample_key 4] /\ find_espec f (sample_key 7) = Ret (Some [122]).
Proof.
  destruct (encoding_builder_roundtrip zero_md5 sample_builder) as (f & data & H1 & H2 & H3 & _ & H5 & _ & H7 & _).
  - intros d. reflexivity.
  - exact encoding_sample_ok.
  - exists f, data. split; [exact H1|]. split; [exact H2|]. split; [exact H3|]. split; [exact (H5 (sample_key 9))|exact (H7 (sample_key 7))].
Defined.

(** The file the sample builder makes, as bytes and parsed. *)
Definition make (md5 : bytes -> bytes) (b : EncodingBuilder) : outcome (eresult bytes) := f ←? builder_build md5 b; build md5 f.
Definition reread (md5 : bytes -> bytes) (b : EncodingBuilder) : outcome (eresult EncodingFile) := d ←? make md5 b; Ret (parse md5 d).

Definition sample_data : bytes := match make zero_md5 sample_builder with Ret (Ok d) => d | _ => [] end.

Definition empty_file : EncodingFile :=
  {| header := header_new; espec_table := []; ckey_index := []; ckey_pages := []; ekey_index := []; ekey_pages := []; trailing_espec := None |}.
Definition sample_file : EncodingFile := match parse zero_md5 sample_data with Ok f => f | Err _ => empty_file end.

Lemma parsed_encoding_is_rebuilt_witness : build zero_md5 sample_file = Ret (Ok sample_data).
Proof.
  apply (parsed_encoding_is_rebuilt zero_md5 sample_data sample_file).
  - decide_now.
  - vm_compute. reflexivity.
  - vm_compute. reflexivity.
  - vm_compute. reflexivity.
Defined.

Lemma sample_indexed : indexed sample_file.
Proof.
  unfold indexed. split_and!; [|vm_compute; reflexivity| |vm_compute; reflexivity].
  - replace (ckey_index sample_file) with [{| first_key := sample_key 5; checksum := zeros 16 |}] by (vm_compute; reflexivity). by repeat constructor.
  - replace (ekey_index sample_file) with [{| first_key := sample_key 3; checksum := zeros 16 |}] by (vm_compute; reflexivity). by repeat constructor.
Qed.

Lemma batch_lookups_agree_witness :
  batch_find_encodings sample_file [sample_key 9; sample_key 1; sample_key 5] =
  mapM (find_encoding sample_file) [sample_key 9; sample_key 1; sample_key 5].
Proof. apply (batch_lookups_agree sample_file _ [] sample_indexed). Defined.

(** ** What the preconditions exclude *)

(** An entry with no encoding keys reads as the end of its page: the entries behind it
    in key order are written but not found any more. *)
Theorem entry_without_keys_hides_the_page :
  (f ←? reread zero_md5
     (with_entries sample_builder ({| cd_content_key := sample_key 1; cd_file_size := 0; cd_encoding_keys := [] |} :: ckey_entries sample_builder)
        (ekey_entries sample_builder));
   r ← find_encoding f (sample_key 9); Ret (Ok (ckey_count f, r))) = Ret (Ok (0%nat, None)).
Proof. vm_compute. reflexivity. Qed.

(** A checksum that tells pages of different lengths apart. *)
Definition length_md5 (d : bytes) : bytes := to_be_bytes 16 (Z.of_nat (length d)).

(** An entry larger than a page makes its page longer than the others; the writer
    succeeds and the parser refuses the result. *)
Theorem oversized_entry_breaks_the_file :
  reread length_md5
    (with_entries sample_builder [{| cd_content_key := sample_key 1; cd_file_size := 0; cd_encoding_keys := replicate 100 (sample_key 3) |}]
       (ekey_entries sample_builder)) = Ret (Err ChecksumMismatch).
Proof. vm_compute. reflexivity. Qed.

(** An empty builder writes a file without pages, which the parser refuses. *)
Theorem empty_builder_is_not_readable : reread zero_md5 builder_new = Ret (Err (InvalidPageCount "ckey_page_count" 0)).
Proof. vm_compute. reflexivity. Qed.

(** Text behind the pages that is not UTF-8 is replaced when it is read, and the
    replacement is written. *)
Theorem trailing_text_is_replaced :
  (f ←? Ret (parse zero_md5 (sample_data ++ [255])); build zero_md5 f) = Ret (Ok (sample_data ++ REPLACEMENT)).
Proof. vm_compute. reflexivity. Qed.

(** ** BLTE *)

(** A file written with [build_blte] is read back by [parse_blte] as [parse] reads
    what [build] wrote. *)
Lemma build_blte_parse_blte md5 zc zr lc lcd ld f data :
  codecs_ok md5 zc zr lc lcd ld -> build md5 f = Ret (Ok data) -> Z.of_nat (length data) <= Blte.MAX_DECOMPRESSION_SIZE ->
  exists out, build_blte md5 zc lc lcd f = Ret (Ok out) /\
    (Z.of_nat (length out) < 2 ^ 32 -> parse_blte md5 zr ld out = Ret (parse md5 data)).
Proof.
  intros Hok Hb Hl. unfold build_blte. rewrite Hb. cbn [try_bind].
  destruct (single_chunk_roundtrip md5 zc zr lc lcd ld Hok data Blte.ZLib) as (blte & -> & (c & Hc & Hout) & Hback); [by right; left|done|].
  cbn [from_error try_bind]. eexists. split; [done|]. intros Hlen. destruct Hback as (f' & Hp & Hd).
  { rewrite Hc. apply Forall_singleton. unfold chunk_fits. rewrite Hout, !length_app in Hlen. unfold Blte.compressed_data in Hlen. simpl in Hlen. unfold Blte.compressed_size. lia. }
  unfold parse_blte. rewrite Hp. cbn [mbind outcome_bind from_error try_bind]. rewrite Hd. done.
Qed.
