(* ===== verification/Install.v ===== *)
(** * Install manifests

    Tags with their bit masks, file entries, the manifest and its builder
    (src/crates/cascette-formats/src/install).  Strings are their UTF-8 bytes; the
    Unicode lower-case map of [str::to_lowercase] and the order in which a [HashMap] is
    iterated are parameters. *)

From S2P Require Import Prelude Bytes Cursor.
Local Open Scope Z_scope.

Module Install.

Inductive InstallError : Type :=
| InvalidMagic (magic : bytes)
| UnsupportedVersion (version : Z)
| InvalidCKeyLength (n : Z)
| TagNotFound (name : bytes)
| FileIndexOutOfBounds (i : nat)
| BitMaskSizeMismatch (expected actual : Z)
| InvalidTagType (t : Z)
| InvalidUtf8
| HexDecode
| Io
| BinRw.

Notation iresult := (result InstallError).

(** ** Header *)

Record InstallHeader := {
  magic : bytes;
  version : Z;
  ckey_length : Z;
  tag_count : Z;
  entry_count : Z;
  content_key_size : option Z;
  entry_count_v2 : option Z;
  v2_unknown : option Z;
}.

Definition header_new (tag_count entry_count : Z) : InstallHeader :=
  {| magic := [73; 78]; version := 1; ckey_length := 16; tag_count := tag_count; entry_count := entry_count;
     content_key_size := None; entry_count_v2 := None; v2_unknown := None |}.

Definition header_new_v2 (tag_count entry_count content_key_size entry_count_v2 : Z) : InstallHeader :=
  {| magic := [73; 78]; version := 2; ckey_length := 16; tag_count := tag_count; entry_count := entry_count;
     content_key_size := Some content_key_size; entry_count_v2 := Some entry_count_v2; v2_unknown := Some 0 |}.

(** [content_key_size()]: V1 has the key and four bytes, saturating at 255. *)
Definition effective_content_key_size (h : InstallHeader) : Z := default (Z.min 255 (ckey_length h + 4)) (content_key_size h).

Definition header_size (h : InstallHeader) : nat := if 2 <=? version h then 16%nat else 10%nat.

(** [usize::div_ceil] by eight. *)
Definition mask_size (n : nat) : nat := ((n + 7) / 8)%nat.

Definition bit_mask_size (h : InstallHeader) : nat := mask_size (Z.to_nat (entry_count h)).

Definition validate_header (h : InstallHeader) : iresult unit :=
  if negb (bool_decide (magic h = [73; 78])) then Err (InvalidMagic (magic h))
  else if (version h =? 0) || (2 <? version h) then Err (UnsupportedVersion (version h))
  else if negb (ckey_length h =? 16) then Err (InvalidCKeyLength (ckey_length h))
  else if (2 <=? version h) && bool_decide (content_key_size h = None) then Err (UnsupportedVersion (version h))
  else Ok tt.

Definition read_header (input : bytes) : iresult (InstallHeader * bytes) :=
  '(magic, i) ← read BinRw 2 input;
  if negb (bool_decide (magic = [73; 78])) then Err BinRw
  else
    '(version, i) ← read_be BinRw 1 i;
    '(ckey_length, i) ← read_be BinRw 1 i;
    '(tag_count, i) ← read_be BinRw 2 i;
    '(entry_count, i) ← read_be BinRw 4 i;
    let header c e u :=
      {| magic := magic; version := version; ckey_length := ckey_length; tag_count := tag_count; entry_count := entry_count;
         content_key_size := c; entry_count_v2 := e; v2_unknown := u |} in
    if 2 <=? version then
      '(cks, i) ← read_be BinRw 1 i;
      '(ec2, i) ← read_be BinRw 4 i;
      '(unk, i) ← read_be BinRw 1 i;
      Ok (header (Some cks) (Some ec2) (Some unk), i)
    else Ok (header None None None, i).

Definition write_header (h : InstallHeader) : bytes :=
  magic h ++ to_be_bytes 1 (version h) ++ to_be_bytes 1 (ckey_length h) ++ to_be_bytes 2 (tag_count h) ++ to_be_bytes 4 (entry_count h) ++
  (if 2 <=? version h then
     to_be_bytes 1 (default (ckey_length h) (content_key_size h)) ++ to_be_bytes 4 (default 0 (entry_count_v2 h)) ++
     to_be_bytes 1 (default 0 (v2_unknown h))
   else []).

(** ** Tags *)

Inductive TagType : Type :=
| Platform | Architecture | Locale | Category | Unknown | Component | Version | Optimization | Region | Device | Mode | Branch
| Content | Feature | Expansion | Alternate | Option_
| Other (v : Z).

#[export] Instance TagType_eq_dec : EqDecision TagType.
Proof. solve_decision. Defined.

Definition from_u16 (value : Z) : TagType :=
  match value with
  | 0x0001 => Platform | 0x0002 => Architecture | 0x0003 => Locale | 0x0004 => Category | 0x0005 => Unknown
  | 0x0010 => Component | 0x0020 => Version | 0x0040 => Optimization | 0x0080 => Region | 0x0100 => Device
  | 0x0200 => Mode | 0x0400 => Branch | 0x0800 => Content | 0x1000 => Feature | 0x2000 => Expansion
  | 0x4000 => Alternate | 0x8000 => Option_ | v => Other v
  end.

Definition as_u16 (t : TagType) : Z :=
  match t with
  | Platform => 0x0001 | Architecture => 0x0002 | Locale => 0x0003 | Category => 0x0004 | Unknown => 0x0005
  | Component => 0x0010 | Version => 0x0020 | Optimization => 0x0040 | Region => 0x0080 | Device => 0x0100
  | Mode => 0x0200 | Branch => 0x0400 | Content => 0x0800 | Feature => 0x1000 | Expansion => 0x2000
  | Alternate => 0x4000 | Option_ => 0x8000 | Other v => v
  end.

Record InstallTag := { name : bytes; tag_type : TagType; bit_mask : bytes }.

Definition with_mask (t : InstallTag) (mask : bytes) : InstallTag := {| name := name t; tag_type := tag_type t; bit_mask := mask |}.

Definition tag_new (name : bytes) (tag_type : TagType) (entry_count : nat) : InstallTag :=
  {| name := name; tag_type := tag_type; bit_mask := zeros (mask_size entry_count) |}.

(** [Vec::resize]. *)
Definition resize (n : nat) (l : bytes) : bytes := take n l ++ zeros (n - length l).

(** A mask is extended, never cut, when a file is added. *)
Definition grow_mask (n : nat) (t : InstallTag) : InstallTag := if (length (bit_mask t) <? n)%nat then with_mask t (resize n (bit_mask t)) else t.

(** [0x80 >> bit_offset]: the first bit of a byte is its most significant one. *)
Definition bit_of (bit_offset : nat) : Z := Z.shiftr 0x80 (Z.of_nat bit_offset).

(** The bit of a file in a mask; [false] behind its end. *)
Definition mask_has (mask : bytes) (file_index : nat) : bool :=
  match mask !! (file_index / 8)%nat with
  | Some byte => negb (Z.land byte (bit_of (file_index mod 8)) =? 0)
  | None => false
  end.

Definition has_file (t : InstallTag) (file_index : nat) : bool := mask_has (bit_mask t) file_index.

Definition set_bit (mask : bytes) (file_index : nat) : bytes :=
  let byte_index := (file_index / 8)%nat in
  let mask := if (length mask <=? byte_index)%nat then resize (byte_index + 1) mask else mask in
  alter (fun b => Z.lor b (bit_of (file_index mod 8))) byte_index mask.

Definition tag_add_file (t : InstallTag) (file_index : nat) : InstallTag := with_mask t (set_bit (bit_mask t) file_index).

(** [!(0x80 >> bit_offset)] on a [u8]. *)
Definition tag_remove_file (t : InstallTag) (file_index : nat) : InstallTag :=
  with_mask t (alter (fun b => Z.land b (Z.lxor 0xFF (bit_of (file_index mod 8)))) (file_index / 8)%nat (bit_mask t)).

Definition count_ones (b : Z) : nat := length (filter (fun i => Z.testbit b (Z.of_nat i) = true) (seq 0 8)).

Definition file_count (t : InstallTag) : nat := sum_list (map count_ones (bit_mask t)).

Definition get_files (t : InstallTag) (max_entry_count : nat) : list nat := filter (fun i => has_file t i = true) (seq 0 max_entry_count).

Definition intersect (a b : InstallTag) : bytes :=
  let n := Nat.min (length (bit_mask a)) (length (bit_mask b)) in
  map (fun i => Z.land (nth i (bit_mask a) 0) (nth i (bit_mask b) 0)) (seq 0 n).

Definition union (a b : InstallTag) : bytes :=
  let n := Nat.max (length (bit_mask a)) (length (bit_mask b)) in
  map (fun i => Z.lor (nth i (bit_mask a) 0) (nth i (bit_mask b) 0)) (seq 0 n).

Definition is_platform_tag (t : InstallTag) : bool := bool_decide (tag_type t = Platform).

Definition is_required_for_platform (t : InstallTag) (platform : bytes) : bool :=
  bool_decide (tag_type t = Platform) && bool_decide (name t = platform).

Definition from_utf8 (s : bytes) : iresult bytes := if utf8_valid s then Ok s else Err BinRw.

Definition read_tag (entry_count : Z) (input : bytes) : iresult (InstallTag * bytes) :=
  '(name_bytes, i) ← read_cstring BinRw input;
  name ← from_utf8 name_bytes;
  '(tag_type_value, i) ← read_be BinRw 2 i;
  '(bit_mask, i) ← read BinRw (mask_size (Z.to_nat entry_count)) i;
  Ok ({| name := name; tag_type := from_u16 tag_type_value; bit_mask := bit_mask |}, i).

Definition write_tag (t : InstallTag) : bytes := name t ++ [0] ++ to_be_bytes 2 (as_u16 (tag_type t)) ++ bit_mask t.

(** ** File entries *)

Record InstallFileEntry := { path : bytes; content_key : bytes; file_size : Z; file_type : option Z }.

Definition entry_new (path content_key : bytes) (file_size : Z) : InstallFileEntry :=
  {| path := path; content_key := content_key; file_size := file_size; file_type := None |}.

Definition entry_new_v2 (path content_key : bytes) (file_size file_type : Z) : InstallFileEntry :=
  {| path := path; content_key := content_key; file_size := file_size; file_type := Some file_type |}.

Definition read_entry (ckey_length version : Z) (input : bytes) : iresult (InstallFileEntry * bytes) :=
  '(path_bytes, i) ← read_cstring BinRw input;
  path ← from_utf8 path_bytes;
  '(key_bytes, i) ← read BinRw (Z.to_nat ckey_length) i;
  if negb (length key_bytes =? 16)%nat then Err BinRw
  else
    '(file_size, i) ← read_be BinRw 4 i;
    if 2 <=? version then
      '(file_type, i) ← read_be BinRw 1 i;
      Ok ({| path := path; content_key := key_bytes; file_size := file_size; file_type := Some file_type |}, i)
    else Ok ({| path := path; content_key := key_bytes; file_size := file_size; file_type := None |}, i).

Definition write_entry (e : InstallFileEntry) : bytes :=
  path e ++ [0] ++ content_key e ++ to_be_bytes 4 (file_size e) ++ match file_type e with Some ft => [ft] | None => [] end.

(** *** Paths *)

(** [str::rfind] of a character. *)
Fixpoint rfind (p : Z -> bool) (s : bytes) : option nat :=
  match s with
  | [] => None
  | c :: s =>
      match rfind p s with
      | Some i => Some (S i)
      | None => if p c then Some 0%nat else None
      end
  end.

Definition is_separator (c : Z) : bool := (c =? 92) || (c =? 47).

(** The last part of [split]. *)
Definition file_name (e : InstallFileEntry) : bytes :=
  match rfind is_separator (path e) with Some i => drop (i + 1) (path e) | None => path e end.

Definition directory (e : InstallFileEntry) : option bytes :=
  match rfind is_separator (path e) with Some i => Some (take i (path e)) | None => None end.

Definition extension (e : InstallFileEntry) : option bytes :=
  match rfind (fun c => c =? 46) (file_name e) with Some i => Some (drop (i + 1) (file_name e)) | None => None end.

Definition normalized_path (e : InstallFileEntry) : bytes := map (fun c => if c =? 92 then 47 else c) (path e).

(** [str::split] on one character. *)
Fixpoint split_on (c : Z) (s : bytes) : list bytes :=
  match s with
  | [] => [[]]
  | x :: s =>
      match split_on c s with
      | part :: parts => if x =? c then [] :: part :: parts else (x :: part) :: parts
      | [] => [[]]
      end
  end.

Definition starts_with (s prefix : bytes) : bool := bool_decide (take (length prefix) s = prefix).
Definition ends_with (s suffix : bytes) : bool := (length suffix <=? length s)%nat && bool_decide (drop (length s - length suffix) s = suffix).

Fixpoint contains (s part : bytes) : bool :=
  starts_with s part || match s with [] => false | _ :: s => contains s part end.

(** ** Manifest *)

Record InstallManifest := { header : InstallHeader; tags : list InstallTag; entries : list InstallFileEntry }.

Fixpoint check_masks (expected : nat) (tags : list InstallTag) : iresult unit :=
  match tags with
  | [] => Ok tt
  | t :: tags =>
      if (length (bit_mask t) =? expected)%nat then check_masks expected tags
      else Err (BitMaskSizeMismatch (Z.of_nat expected) (Z.of_nat (length (bit_mask t))))
  end.

Definition validate (m : InstallManifest) : iresult unit :=
  _ ← validate_header (header m);
  if negb (Z.of_nat (length (tags m)) =? tag_count (header m))
  then Err (BitMaskSizeMismatch (tag_count (header m)) (Z.of_nat (length (tags m))))
  else if negb (Z.of_nat (length (entries m)) =? entry_count (header m))
  then Err (BitMaskSizeMismatch (entry_count (header m)) (Z.of_nat (length (entries m))))
  else check_masks (bit_mask_size (header m)) (tags m).

Definition parse (data : bytes) : iresult InstallManifest :=
  '(header, i) ← read_header data;
  _ ← validate_header header;
  '(tags, i) ← read_many (Z.to_nat (tag_count header)) (read_tag (entry_count header)) i;
  '(entries, i) ← read_many (Z.to_nat (entry_count header)) (read_entry (ckey_length header) (version header)) i;
  let manifest := {| header := header; tags := tags; entries := entries |} in
  _ ← validate manifest;
  Ok manifest.

Definition build (m : InstallManifest) : bytes :=
  write_header (header m) ++ concat (map write_tag (tags m)) ++ concat (map write_entry (entries m)).

Definition verify_round_trip (data : bytes) : iresult unit :=
  manifest ← parse data;
  if bool_decide (data = build manifest) then Ok tt else Err Io.

Definition total_install_size (m : InstallManifest) : Z := foldr Z.add 0 (map file_size (entries m)).

Definition find_tag (m : InstallManifest) (tag_name : bytes) : option InstallTag := find_by name tag_name (tags m).

Definition indexed (m : InstallManifest) : list (nat * InstallFileEntry) := imap pair (entries m).

Definition get_files_for_tag (m : InstallManifest) (tag_name : bytes) : list (nat * InstallFileEntry) :=
  match find_tag m tag_name with
  | Some tag => filter (fun e => has_file tag e.1 = true) (indexed m)
  | None => []
  end.

Definition found_tags (m : InstallManifest) (tag_names : list bytes) : list InstallTag := omap (find_tag m) tag_names.

Definition get_files_for_tags (m : InstallManifest) (tag_names : list bytes) : list (nat * InstallFileEntry) :=
  let tags := found_tags m tag_names in
  if (length tags =? 0)%nat || negb (length tags =? length tag_names)%nat then []
  else filter (fun e => forallb (fun tag => has_file tag e.1) tags = true) (indexed m).

Definition get_files_for_any_tag (m : InstallManifest) (tag_names : list bytes) : list (nat * InstallFileEntry) :=
  let tags := found_tags m tag_names in
  if (length tags =? 0)%nat then [] else filter (fun e => existsb (fun tag => has_file tag e.1) tags = true) (indexed m).

Definition calculate_install_size (m : InstallManifest) (tag_names : list bytes) : Z :=
  foldr Z.add 0 (map (fun e => file_size e.2) (get_files_for_tags m tag_names)).

Record InstallStats := { total_files : nat; total_tags : nat; total_size : Z; tagged_files : nat }.

Definition stats (m : InstallManifest) : InstallStats :=
  {| total_files := length (entries m); total_tags := length (tags m); total_size := total_install_size m;
     tagged_files := foldr Nat.max 0%nat (map file_count (tags m)) |}.

(** *** Tag queries *)

Section Query.
Context (order : list (TagType * list InstallTag) -> list (TagType * list InstallTag)).

(** [groups.entry(tag_type).or_default().push(tag)]. *)
Fixpoint add_to_group (tag : InstallTag) (groups : list (TagType * list InstallTag)) : list (TagType * list InstallTag) :=
  match groups with
  | [] => [(tag_type tag, [tag])]
  | (t, g) :: groups => if bool_decide (t = tag_type tag) then (t, g ++ [tag]) :: groups else (t, g) :: add_to_group tag groups
  end.

(** [a.iter_mut().zip(b)] with an update of the first. *)
Fixpoint zip_update (f : Z -> Z -> Z) (a b : bytes) : bytes :=
  match a, b with
  | x :: a, y :: b => f x y :: zip_update f a b
  | _, _ => a
  end.

Definition group_mask (mask_len : nat) (group : list InstallTag) : bytes :=
  fold_left (fun gm tag => zip_update Z.lor gm (bit_mask tag)) group (zeros mask_len).

Definition result_mask (mask_len : nat) (groups : list (TagType * list InstallTag)) : bytes :=
  fold_left (fun rm g => zip_update Z.land rm (group_mask mask_len g.2)) groups (replicate mask_len 0xFF).

Definition get_files_for_tag_query (m : InstallManifest) (tag_names : list bytes) : list (nat * InstallFileEntry) :=
  if (length tag_names =? 0)%nat then indexed m
  else
    let groups := fold_left (fun gs tag => add_to_group tag gs) (found_tags m tag_names) [] in
    if (length groups =? 0)%nat then []
    else
      let mask := result_mask (mask_size (length (entries m))) (order groups) in
      filter (fun e => mask_has mask e.1 = true) (indexed m).

End Query.

(** *** Patterns *)

Section Patterns.
Context (to_lowercase : bytes -> bytes).

Definition matches_pattern (e : InstallFileEntry) (pattern : bytes) : bool :=
  let path_lower := to_lowercase (path e) in
  let pattern_lower := to_lowercase pattern in
  match split_on 42 pattern_lower with
  | [prefix; suffix] => starts_with path_lower prefix && ends_with path_lower suffix
  | [[]; word; []] => contains path_lower word
  | _ => contains path_lower pattern_lower
  end.

Definition find_files (m : InstallManifest) (pattern : bytes) : list (nat * InstallFileEntry) :=
  filter (fun e => matches_pattern e.2 pattern = true) (indexed m).

Definition get_files_by_extension (m : InstallManifest) (ext : bytes) : list (nat * InstallFileEntry) :=
  filter (fun e => (to_lowercase <$> extension e.2) = Some (to_lowercase ext)) (indexed m).

End Patterns.

(** ** Builder *)

Record InstallManifestBuilder := {
  b_tags : list InstallTag;
  b_entries : list InstallFileEntry;
  tag_name_to_index : gmap bytes nat;
}.

Definition builder_new : InstallManifestBuilder := {| b_tags := []; b_entries := []; tag_name_to_index := ∅ |}.

(** [collect] into the map: the last tag of a name wins. *)
Definition from_manifest (m : InstallManifest) : InstallManifestBuilder :=
  {| b_tags := tags m; b_entries := entries m;
     tag_name_to_index := fold_left (fun names t => <[name t.2 := t.1]> names) (imap pair (tags m)) ∅ |}.

Definition with_tags (b : InstallManifestBuilder) (ts : list InstallTag) : InstallManifestBuilder :=
  {| b_tags := ts; b_entries := b_entries b; tag_name_to_index := tag_name_to_index b |}.

Definition add_tag (b : InstallManifestBuilder) (name : bytes) (tag_type : TagType) : InstallManifestBuilder :=
  let tag := {| name := name; tag_type := tag_type; bit_mask := zeros (mask_size (length (b_entries b))) |} in
  {| b_tags := b_tags b ++ [tag]; b_entries := b_entries b; tag_name_to_index := <[name := length (b_tags b)]> (tag_name_to_index b) |}.

Definition add_file (b : InstallManifestBuilder) (path content_key : bytes) (file_size : Z) : InstallManifestBuilder :=
  let entries := b_entries b ++ [entry_new path content_key file_size] in
  let n := mask_size (length entries) in
  {| b_tags := map (grow_mask n) (b_tags b);
     b_entries := entries; tag_name_to_index := tag_name_to_index b |}.

(** [self.tags[tag_index]] panics past the end. *)
Definition update_tag (b : InstallManifestBuilder) (tag_index : nat) (f : InstallTag -> InstallTag) : outcome InstallManifestBuilder :=
  match b_tags b !! tag_index with
  | Some _ => Ret (with_tags b (alter f tag_index (b_tags b)))
  | None => Panic
  end.

Definition associate_file_with_tag_by_index (b : InstallManifestBuilder) (file_index tag_index : nat) :
    outcome (iresult InstallManifestBuilder) :=
  if (length (b_entries b) <=? file_index)%nat then Ret (Err (FileIndexOutOfBounds file_index))
  else if (length (b_tags b) <=? tag_index)%nat then Ret (Err (TagNotFound []))
  else b ← update_tag b tag_index (fun t => tag_add_file t file_index); Ret (Ok b).

(** The two operations that find their tag by name. *)
Definition change_by_name (f : InstallTag -> nat -> InstallTag) (b : InstallManifestBuilder) (file_index : nat) (tag_name : bytes) :
    outcome (iresult InstallManifestBuilder) :=
  if (length (b_entries b) <=? file_index)%nat then Ret (Err (FileIndexOutOfBounds file_index))
  else
    match tag_name_to_index b !! tag_name with
    | None => Ret (Err (TagNotFound tag_name))
    | Some tag_index => b ← update_tag b tag_index (fun t => f t file_index); Ret (Ok b)
    end.

Definition associate_file_with_tag := change_by_name tag_add_file.
Definition remove_file_from_tag := change_by_name tag_remove_file.

Definition associate_last_file_with_tag (b : InstallManifestBuilder) (tag_name : bytes) : outcome (iresult InstallManifestBuilder) :=
  match length (b_entries b) with
  | O => Ret (Err (FileIndexOutOfBounds 0))
  | S last => associate_file_with_tag b last tag_name
  end.

Fixpoint associate_all (b : InstallManifestBuilder) (file_index : nat) (tag_names : list bytes) : outcome (iresult InstallManifestBuilder) :=
  match tag_names with
  | [] => Ret (Ok b)
  | n :: tag_names => b ←? associate_file_with_tag b file_index n; associate_all b file_index tag_names
  end.

Definition add_file_with_tags (b : InstallManifestBuilder) (path content_key : bytes) (file_size : Z) (tag_names : list bytes) :
    outcome (iresult InstallManifestBuilder) :=
  let b := add_file b path content_key file_size in
  associate_all b (length (b_entries b) - 1) tag_names.

Fixpoint associate_files_with_tag (b : InstallManifestBuilder) (file_indices : list nat) (tag_name : bytes) :
    outcome (iresult InstallManifestBuilder) :=
  match file_indices with
  | [] => Ret (Ok b)
  | i :: file_indices => b ←? associate_file_with_tag b i tag_name; associate_files_with_tag b file_indices tag_name
  end.

Definition has_tag (b : InstallManifestBuilder) (tag_name : bytes) : bool := bool_decide (is_Some (tag_name_to_index b !! tag_name)).

Definition builder_build (b : InstallManifestBuilder) : iresult InstallManifest :=
  if 0xFFFF <? Z.of_nat (length (b_tags b)) then Err (TagNotFound [])
  else if 0xFFFFFFFF <? Z.of_nat (length (b_entries b)) then Err (TagNotFound [])
  else
    let manifest :=
      {| header := header_new (Z.of_nat (length (b_tags b))) (Z.of_nat (length (b_entries b))); tags := b_tags b; entries := b_entries b |} in
    _ ← validate manifest;
    Ok manifest.

Definition clear (b : InstallManifestBuilder) : InstallManifestBuilder := builder_new.

(** [Vec::remove] panics past the end. *)
Definition remove_tag (b : InstallManifestBuilder) (tag_name : bytes) : outcome (iresult InstallManifestBuilder) :=
  match tag_name_to_index b !! tag_name with
  | None => Ret (Err (TagNotFound tag_name))
  | Some tag_index =>
      if (length (b_tags b) <=? tag_index)%nat then Panic
      else
        Ret (Ok {| b_tags := delete tag_index (b_tags b); b_entries := b_entries b;
                   tag_name_to_index :=
                     (fun index => if (tag_index <? index)%nat then (index - 1)%nat else index) <$> delete tag_name (tag_name_to_index b) |})
  end.

(** One byte of the mask without the bit of a removed file. *)
Definition shifted_byte (mask : bytes) (file_index total_bits byte_idx : nat) : Z :=
  fold_left (fun new_byte bit_idx =>
    let old_file_idx := (byte_idx * 8 + bit_idx)%nat in
    if (total_bits <=? old_file_idx)%nat then new_byte
    else
      let old_mapped_idx := if (old_file_idx <? file_index)%nat then old_file_idx else (old_file_idx + 1)%nat in
      if mask_has mask old_mapped_idx then Z.lor new_byte (bit_of bit_idx) else new_byte) (seq 0 8) 0.

Definition shifted_mask (mask : bytes) (file_index total_bits : nat) : bytes :=
  map (shifted_byte mask file_index total_bits) (seq 0 (mask_size total_bits)).

Definition remove_file (b : InstallManifestBuilder) (file_index : nat) : iresult InstallManifestBuilder :=
  if (length (b_entries b) <=? file_index)%nat then Err (FileIndexOutOfBounds file_index)
  else
    let entries := delete file_index (b_entries b) in
    Ok {| b_tags := map (fun t => with_mask t (shifted_mask (bit_mask t) file_index (length entries))) (b_tags b);
          b_entries := entries; tag_name_to_index := tag_name_to_index b |}.

End Install.
