(* ===== verification/InstallTheorems.v ===== *)
(** * Install manifests: the theorems

    A manifest and its bytes determine each other; a tag query computed on bit masks
    is the query on files; the builder keeps the files of its tags through every
    sequence of changes. *)

From S2P Require Import Prelude Bytes Cursor Install.
Import Install.
Local Open Scope Z_scope.

(** ** Splitting text *)

Definition lacks (c : Z) (s : bytes) : Prop := Forall (fun b => b <> c) s.

(** The parts with the separator between them. *)
Definition joined (c : Z) (parts : list bytes) : bytes := match parts with [] => [] | x :: parts => x ++ concat (map (cons c) parts) end.

Lemma split_on_sep c s : split_on c (c :: s) = [] :: split_on c s.
Proof. cbn [split_on]. rewrite Z.eqb_refl. destruct (split_on c s) eqn:E; [|done]. destruct s; cbn [split_on] in E; [done|]. by repeat case_match. Qed.

Lemma split_on_app c x s : lacks c x -> exists part parts, split_on c s = part :: parts /\ split_on c (x ++ s) = (x ++ part) :: parts.
Proof.
  induction 1 as [|b x Hb Hx IH].
  - destruct (split_on c s) as [|part parts] eqn:E; [destruct s; cbn [split_on] in E; [done|]; by repeat case_match|]. by exists part, parts.
  - destruct IH as (part & parts & E1 & E2). exists part, parts. split; [done|]. cbn [app split_on]. rewrite E2. by rewrite (proj2 (Z.eqb_neq _ _)).
Qed.

Lemma split_on_cut c x s : lacks c x -> split_on c (x ++ c :: s) = x :: split_on c s.
Proof. intros Hx. destruct (split_on_app c x (c :: s) Hx) as (part & parts & E1 & ->). rewrite split_on_sep in E1. injection E1 as <- <-. by rewrite app_nil_r. Qed.

Lemma split_on_lacks c x : lacks c x -> split_on c x = [x].
Proof. intros Hx. destruct (split_on_app c x [] Hx) as (part & parts & E1 & E2). injection E1 as <- <-. by rewrite !app_nil_r in E2. Qed.

Lemma split_on_joined c parts : parts <> [] -> Forall (lacks c) parts -> split_on c (joined c parts) = parts.
Proof.
  destruct parts as [|x parts]; [done|]. intros _ Hps. apply Forall_cons in Hps as [Hx Hps]. cbn [joined]. revert x Hx.
  induction Hps as [|d parts Hd Hps IH]; intros x Hx; cbn [map concat]; [rewrite app_nil_r; by apply split_on_lacks|].
  cbn [app]. rewrite split_on_cut by done. by rewrite IH.
Qed.

Lemma split_on_parts c s : Forall (lacks c) (split_on c s).
Proof.
  induction s as [|b s IH]; [repeat constructor|]. cbn [split_on]. destruct (split_on c s) as [|part parts]; [repeat constructor|].
  destruct (Z.eqb_spec b c); [constructor; [constructor|done]|]. apply Forall_cons in IH as [H1 H2]. constructor; [by constructor|done].
Qed.

(** ** Bit masks *)

Lemma bit_of_pow k : (k < 8)%nat -> bit_of k = 2 ^ (7 - Z.of_nat k).
Proof. intros. do 8 (destruct k as [|k]; [done|]). lia. Qed.

Lemma bit_of_testbit k i : (k < 8)%nat -> 0 <= i -> Z.testbit (bit_of k) i = (i =? 7 - Z.of_nat k).
Proof. intros. rewrite bit_of_pow by done. rewrite Z.pow2_bits_eqb by lia. apply Z.eqb_sym. Qed.

Lemma land_bit_of b k : (k < 8)%nat -> negb (Z.land b (bit_of k) =? 0) = Z.testbit b (7 - Z.of_nat k).
Proof.
  intros Hk. assert (Z.land b (bit_of k) = if Z.testbit b (7 - Z.of_nat k) then bit_of k else 0) as ->.
  { apply Z.bits_inj'. intros i Hi. rewrite Z.land_spec, bit_of_testbit by done.
    destruct (Z.eqb_spec i (7 - Z.of_nat k)) as [->|Hn]; [rewrite andb_true_r|rewrite andb_false_r].
    - destruct (Z.testbit b _) eqn:E; [rewrite bit_of_testbit by (done || lia); symmetry; by apply Z.eqb_eq|by rewrite Z.bits_0].
    - destruct (Z.testbit b _); [rewrite bit_of_testbit by done; symmetry; by apply Z.eqb_neq|by rewrite Z.bits_0]. }
  destruct (Z.testbit b _); [|done]. rewrite bit_of_pow by done. apply negb_true_iff, Z.eqb_neq. apply Z.pow_nonzero; lia.
Qed.

(** The bit of a file, as a bit of its byte. *)
Lemma mask_has_bit mask i :
  mask_has mask i = match mask !! (i / 8)%nat with Some b => Z.testbit b (7 - Z.of_nat (i mod 8)) | None => false end.
Proof.
  unfold mask_has. destruct (mask !! _); [|done]. apply land_bit_of. apply Nat.mod_upper_bound. lia.
Qed.

Lemma mask_size_spec n i : (i < n)%nat -> (i / 8 < mask_size n)%nat.
Proof. intros. unfold mask_size. apply Nat.Div0.div_lt_upper_bound. pose proof (Nat.div_mod_eq (n + 7) 8). pose proof (Nat.mod_upper_bound (n + 7) 8). lia. Qed.

Lemma mask_size_mono n m : (n <= m)%nat -> (mask_size n <= mask_size m)%nat.
Proof. intros. unfold mask_size. apply Nat.Div0.div_le_mono. lia. Qed.

Lemma mask_has_beyond mask i : (length mask * 8 <= i)%nat -> mask_has mask i = false.
Proof.
  intros H. unfold mask_has. destruct (mask !! (i / 8)%nat) eqn:E; [|done]. apply lookup_lt_Some in E.
  pose proof (Nat.Div0.div_le_mono (length mask * 8) i 8 H) as H'. rewrite Nat.div_mul in H' by lia. lia.
Qed.

Lemma length_resize n l : length (resize n l) = n.
Proof. unfold resize. rewrite length_app, length_take, length_zeros. lia. Qed.

Lemma mask_has_zeros n i : mask_has (zeros n) i = false.
Proof.
  rewrite mask_has_bit. destruct (zeros n !! _) as [b|] eqn:E; [|done]. unfold zeros in E. apply lookup_replicate_1 in E as [-> _]. apply Z.bits_0.
Qed.

Lemma mask_has_resize n mask i : (length mask <= n)%nat -> mask_has (resize n mask) i = mask_has mask i.
Proof.
  intros Hn. unfold resize. rewrite take_ge by lia. rewrite !mask_has_bit. destruct (Nat.lt_ge_cases (i / 8) (length mask)) as [L|L].
  - by rewrite lookup_app_l.
  - rewrite lookup_app_r by done. rewrite (proj2 (lookup_ge_None mask _)) by done.
    destruct (zeros _ !! _) as [b|] eqn:E; [|done]. unfold zeros in E. apply lookup_replicate_1 in E as [-> _]. apply Z.bits_0.
Qed.

(** Cutting or extending a mask behind the byte of a file does not change its bit. *)
Lemma mask_has_cut n mask i : (i / 8 < n)%nat -> mask_has (resize n mask) i = mask_has mask i.
Proof.
  intros Hi. destruct (Nat.le_ge_cases (length mask) n); [by apply mask_has_resize|]. unfold resize.
  replace (n - length mask)%nat with 0%nat by lia. rewrite app_nil_r, !mask_has_bit. by rewrite lookup_take_lt.
Qed.

(** A change of one byte is seen by the files of that byte. *)
Lemma mask_has_alter f k mask j :
  mask_has (alter f k mask) j =
  if (j / 8 =? k)%nat then match mask !! k with Some b => Z.testbit (f b) (7 - Z.of_nat (j mod 8)) | None => false end else mask_has mask j.
Proof.
  rewrite !mask_has_bit. destruct (Nat.eqb_spec (j / 8) k) as [->|Hn].
  - rewrite list_lookup_alter_eq. by destruct (mask !! k).
  - by rewrite list_lookup_alter_ne by done.
Qed.

Lemma same_bit i j : (j / 8 = i / 8)%nat -> (7 - Z.of_nat (j mod 8) =? 7 - Z.of_nat (i mod 8)) = (i =? j)%nat.
Proof.
  intros H. pose proof (Nat.div_mod_eq i 8). pose proof (Nat.div_mod_eq j 8).
  destruct (Nat.eqb_spec i j) as [->|Hn]; [apply Z.eqb_refl|]. apply Z.eqb_neq. lia.
Qed.

Lemma mod8 i : (i mod 8 < 8)%nat.
Proof. apply Nat.mod_upper_bound. lia. Qed.

Lemma length_set_bit mask i : (i / 8 < length mask)%nat -> length (set_bit mask i) = length mask.
Proof. intros H. unfold set_bit. rewrite length_alter. by rewrite (proj2 (Nat.leb_gt _ _)). Qed.

Lemma mask_has_set_bit mask i j : mask_has (set_bit mask i) j = (i =? j)%nat || mask_has mask j.
Proof.
  unfold set_bit. set (mask' := if (length mask <=? i / 8)%nat then resize (i / 8 + 1) mask else mask).
  assert (mask_has mask' j = mask_has mask j /\ (i / 8 < length mask')%nat) as [Hm Hl].
  { unfold mask'. destruct (Nat.leb_spec (length mask) (i / 8)); [|done]. rewrite length_resize. split; [apply mask_has_resize|]; lia. }
  rewrite mask_has_alter, <- Hm. destruct (lookup_lt_is_Some_2 _ _ Hl) as [b Hb]. rewrite Hb.
  destruct (Nat.eqb_spec (j / 8) (i / 8)) as [E|E].
  - pose proof (mod8 i). pose proof (mod8 j). rewrite Z.lor_spec, bit_of_testbit by lia. rewrite same_bit by done. rewrite (mask_has_bit mask' j), E, Hb. apply orb_comm.
  - destruct (Nat.eqb_spec i j) as [->|]; done.
Qed.

Lemma mask_has_clear_bit mask i j :
  mask_has (alter (fun b => Z.land b (Z.lxor 0xFF (bit_of (i mod 8)))) (i / 8)%nat mask) j = negb (i =? j)%nat && mask_has mask j.
Proof.
  rewrite mask_has_alter, (mask_has_bit mask j). destruct (Nat.eqb_spec (j / 8) (i / 8)) as [E|E].
  - rewrite E. destruct (mask !! _) as [b|]; [|by rewrite andb_false_r]. pose proof (mod8 i). pose proof (mod8 j).
    rewrite Z.land_spec, Z.lxor_spec, bit_of_testbit by lia. rewrite same_bit by done. change 0xFF with (Z.ones 8). rewrite Z.testbit_ones_nonneg by lia.
    rewrite (proj2 (Z.ltb_lt _ _)) by lia. rewrite xorb_true_l. apply andb_comm.
  - destruct (Nat.eqb_spec i j) as [->|]; done.
Qed.

Lemma length_zip_update f a b : length (zip_update f a b) = length a.
Proof. revert b. induction a as [|x a IH]; intros [|y b]; simpl; [done..|]. by rewrite IH. Qed.

Lemma zip_update_lookup f a b i x y : a !! i = Some x -> b !! i = Some y -> zip_update f a b !! i = Some (f x y).
Proof.
  revert b i. induction a as [|x' a IH]; intros [|y' b] i; try done. destruct i as [|i]; simpl; [congruence|]. apply IH.
Qed.

Lemma mask_has_zip f g a b i :
  length a = length b -> (forall x y k, 0 <= k -> Z.testbit (f x y) k = g (Z.testbit x k) (Z.testbit y k)) -> g false false = false ->
  mask_has (zip_update f a b) i = g (mask_has a i) (mask_has b i).
Proof.
  intros Hl Hf H0. rewrite !mask_has_bit. destruct (Nat.lt_ge_cases (i / 8) (length a)) as [L|L].
  - destruct (lookup_lt_is_Some_2 a _ L) as [x Hx]. destruct (lookup_lt_is_Some_2 b (i / 8)) as [y Hy]; [lia|].
    rewrite (zip_update_lookup _ _ _ _ _ _ Hx Hy), Hx, Hy. apply Hf. pose proof (mod8 i). lia.
  - rewrite !(proj2 (lookup_ge_None _ _)); [done|lia|lia|]. rewrite length_zip_update. lia.
Qed.

(** ** Tag queries *)

Lemma group_mask_has n group i :
  Forall (fun t => length (bit_mask t) = n) group -> length (group_mask n group) = n /\ mask_has (group_mask n group) i = existsb (fun t => has_file t i) group.
Proof.
  unfold group_mask. intros Hg.
  assert (forall gm, length gm = n ->
    length (fold_left (fun gm tag => zip_update Z.lor gm (bit_mask tag)) group gm) = n /\
    mask_has (fold_left (fun gm tag => zip_update Z.lor gm (bit_mask tag)) group gm) i = mask_has gm i || existsb (fun t => has_file t i) group) as H.
  { induction Hg as [|t group Ht Hg IH]; intros gm Hl; cbn [fold_left existsb]; [by rewrite orb_false_r|].
    destruct (IH (zip_update Z.lor gm (bit_mask t))) as [-> ->]; [by rewrite length_zip_update|]. split; [done|].
    rewrite (mask_has_zip _ orb) by (done || lia || (intros; apply Z.lor_spec)). by rewrite orb_assoc. }
  destruct (H (zeros n)) as [-> ->]; [apply length_zeros|]. by rewrite mask_has_zeros.
Qed.

Lemma result_mask_has n (groups : list (TagType * list InstallTag)) i :
  Forall (fun g => Forall (fun t => length (bit_mask t) = n) g.2) groups -> (i / 8 < n)%nat ->
  mask_has (result_mask n groups) i = forallb (fun g => existsb (fun t => has_file t i) g.2) groups.
Proof.
  intros Hg Hi. unfold result_mask.
  assert (forall rm, length rm = n ->
    mask_has (fold_left (fun rm g => zip_update Z.land rm (group_mask n g.2)) groups rm) i =
    mask_has rm i && forallb (fun g => existsb (fun t => has_file t i) g.2) groups) as H.
  { induction Hg as [|g groups Hgg Hg IH]; intros rm Hl; cbn [fold_left forallb]; [by rewrite andb_true_r|].
    destruct (group_mask_has n g.2 i Hgg) as [Hgl Hgh].
    rewrite IH by (by rewrite length_zip_update). rewrite (mask_has_zip _ andb) by (done || lia || (intros; apply Z.land_spec)). by rewrite Hgh, andb_assoc. }
  rewrite H by apply length_replicate. rewrite mask_has_bit, lookup_replicate_2 by done.
  change 0xFF with (Z.ones 8). pose proof (mod8 i). by rewrite Z.testbit_ones_nonneg, (proj2 (Z.ltb_lt _ _)) by lia.
Qed.

(** A predicate on a type's tags, over the groups. *)
Lemma forallb_groups (p : InstallTag -> bool) tag groups :
  NoDup groups.*1 -> Forall (fun g => g.2 <> [] /\ Forall (fun t => tag_type t = g.1) g.2) groups ->
  let groups' := add_to_group tag groups in
  NoDup groups'.*1 /\ Forall (fun g => g.2 <> [] /\ Forall (fun t => tag_type t = g.1) g.2) groups' /\ (forall t, t ∈ concat groups'.*2 <-> t = tag \/ t ∈ concat groups.*2) /\
  (forall x, x ∈ groups'.*1 -> x = tag_type tag \/ x ∈ groups.*1).
Proof.
  induction groups as [|[t g] groups IH]; intros Hn Hf; simpl.
  { split_and!; [apply NoDup_singleton|repeat constructor; done| |set_solver]. intros t. set_solver. }
  apply NoDup_cons in Hn as [Ht Hn]. apply Forall_cons in Hf as [[Hg Hgt] Hf]. simpl in Ht, Hg, Hgt. case_bool_decide as E; simpl.
  - split_and!.
    + constructor; done.
    + constructor; [|done]. simpl. split; [by destruct g|]. apply Forall_app. split; [done|]. by repeat constructor.
    + intros t'. rewrite !elem_of_app, list_elem_of_singleton. tauto.
    + set_solver.
  - destruct (IH Hn Hf) as (IH1 & IH2 & IH3 & IH4). split_and!.
    + constructor; [|done]. intros Hin. apply IH4 in Hin as [?|?]; [congruence|done].
    + constructor; done.
    + intros t'. rewrite !elem_of_app, IH3. tauto.
    + set_solver.
Qed.

Definition grouped (ts : list InstallTag) (groups : list (TagType * list InstallTag)) : Prop :=
  NoDup groups.*1 /\ Forall (fun g => g.2 <> [] /\ Forall (fun t => tag_type t = g.1) g.2) groups /\ forall t, t ∈ concat groups.*2 <-> t ∈ ts.

Lemma group_all ts : grouped ts (fold_left (fun gs tag => add_to_group tag gs) ts []).
Proof.
  induction ts as [|t ts IH] using rev_ind.
  { split_and!; [constructor|constructor|done]. }
  rewrite fold_left_app. destruct IH as (H1 & H2 & H3). cbn [fold_left].
  destruct (forallb_groups (fun _ => true) t _ H1 H2) as (G1 & G2 & G3 & _). split_and!; [done..|]. intros t'.
  rewrite G3, H3, elem_of_app, list_elem_of_singleton. tauto.
Qed.

(** A file passes every group if for every tag asked for it has one of that type. *)
Lemma grouped_forallb ts groups (p : InstallTag -> bool) :
  grouped ts groups ->
  forallb (fun g => existsb p g.2) groups = forallb (fun t => existsb (fun t' => bool_decide (tag_type t' = tag_type t) && p t') ts) ts.
Proof.
  intros (H1 & H2 & H3). apply eq_iff_eq_true. rewrite !forallb_forall. split.
  - intros H t Ht. rewrite <- list_elem_of_In, <- H3 in Ht. apply list_elem_of_In, in_concat in Ht as (g & Hg & Ht).
    rewrite <- list_elem_of_In in Hg. apply list_elem_of_fmap in Hg as ([ty g'] & -> & Hg). specialize (H (ty, g') ltac:(by apply list_elem_of_In)).
    apply existsb_exists in H as (t' & Ht' & Hp). apply existsb_exists. exists t'. pose proof (proj1 (Forall_forall _ _) H2 _ Hg) as [_ Hty]. simpl in *. rewrite Forall_forall in Hty. split.
    + apply list_elem_of_In, H3, list_elem_of_In, in_concat. exists g'. split; [|done]. apply list_elem_of_In. by apply (list_elem_of_fmap_2 snd) in Hg.
    + rewrite Hp, andb_true_r. apply bool_decide_eq_true_2. rewrite !Hty; [done|by apply list_elem_of_In..].
  - intros H [ty g] Hg. rewrite <- list_elem_of_In in Hg. pose proof (proj1 (Forall_forall _ _) H2 _ Hg) as [Hne Hty]. simpl in *.
    destruct g as [|t g]; [done|]. assert (t ∈ ts) as Ht.
    { apply H3, list_elem_of_In, in_concat. exists (t :: g). split; [|by left]. apply list_elem_of_In. by apply (list_elem_of_fmap_2 snd) in Hg. }
    specialize (H t ltac:(by apply list_elem_of_In)). apply existsb_exists in H as (t' & Ht' & Hp). apply andb_true_iff in Hp as [E Hp]. apply bool_decide_eq_true_1 in E.
    apply existsb_exists. exists t'. split; [|done]. rewrite <- list_elem_of_In, <- H3 in Ht'. apply list_elem_of_In, in_concat in Ht' as (g2 & Hg2 & Ht').
    rewrite <- list_elem_of_In in Hg2. apply list_elem_of_fmap in Hg2 as ([ty2 g2'] & -> & Hg2). simpl in *.
    pose proof (proj1 (Forall_forall _ _) H2 _ Hg2) as [_ Hty2]. simpl in Hty2. rewrite Forall_forall in Hty, Hty2.
    assert (ty2 = ty) as ->. { rewrite <- (Hty t) by left. rewrite <- E. symmetry. apply Hty2. by apply list_elem_of_In. }
    assert (g2' = t :: g) as ->; [|done]. apply list_elem_of_lookup in Hg as [i Hi], Hg2 as [j Hj].
    assert (i = j) as ->; [|congruence]. eapply NoDup_lookup; [exact H1|rewrite list_lookup_fmap, Hi; done|rewrite list_lookup_fmap, Hj; done].
Qed.

Lemma forallb_perm {A} (p : A -> bool) l l' : l ≡ₚ l' -> forallb p l = forallb p l'.
Proof. induction 1; simpl; [done|by f_equal|by rewrite !andb_assoc, (andb_comm (p x))|congruence]. Qed.

Lemma found_tags_in m names t : t ∈ found_tags m names -> t ∈ tags m.
Proof.
  unfold found_tags, find_tag. rewrite list_elem_of_omap. intros (n & _ & H). by apply find_by_Some in H as [? _].
Qed.

Lemma filter_ext_in {A} (P Q : A -> Prop) `{!forall x, Decision (P x), !forall x, Decision (Q x)} (l : list A) :
  (forall x, x ∈ l -> P x <-> Q x) -> filter P l = filter Q l.
Proof.
  induction l as [|x l IH]; intros Hpq; [done|]. rewrite !filter_cons. rewrite IH by (intros y Hy; apply Hpq; by right).
  pose proof (Hpq x ltac:(left)). repeat case_decide; tauto.
Qed.

Lemma check_masks_Ok n ts : check_masks n ts = Ok tt <-> Forall (fun t => length (bit_mask t) = n) ts.
Proof.
  induction ts as [|t ts IH]; cbn [check_masks]; [split; constructor|]. rewrite Forall_cons, <- IH.
  destruct (Nat.eqb_spec (length (bit_mask t)) n); [tauto|]. split; [done|tauto].
Qed.

Lemma validate_Ok m :
  validate m = Ok tt <->
  validate_header (header m) = Ok tt /\ Z.of_nat (length (tags m)) = tag_count (header m) /\
  Z.of_nat (length (entries m)) = entry_count (header m) /\ Forall (fun t => length (bit_mask t) = mask_size (length (entries m))) (tags m).
Proof.
  unfold validate. destruct (validate_header (header m)) as [[]|] eqn:E; cbn [mbind result_bind]; [|split; [done|]; by intros [? _]].
  destruct (Z.eqb_spec (Z.of_nat (length (tags m))) (tag_count (header m))); cbn [negb]; [|split; [done|]; by intros (_ & ? & _)].
  destruct (Z.eqb_spec (Z.of_nat (length (entries m))) (entry_count (header m))) as [En|]; cbn [negb]; [|split; [done|]; by intros (_ & _ & ? & _)].
  rewrite check_masks_Ok. unfold bit_mask_size. rewrite <- En, Nat2Z.id. tauto.
Qed.

(** For every tag of [ts], the file has a tag of the same type among them. *)
Definition one_of_each_type (ts : list InstallTag) (i : nat) : bool :=
  forallb (fun t => existsb (fun t' => bool_decide (tag_type t' = tag_type t) && has_file t' i) ts) ts.

Definition query_matches (m : InstallManifest) (names : list bytes) (i : nat) : bool := one_of_each_type (found_tags m names) i.

Lemma elem_of_indexed m e : e ∈ indexed m -> (e.1 < length (entries m))%nat.
Proof. unfold indexed. rewrite elem_of_lookup_imap. intros (i & x & -> & Hi). by eapply lookup_lt_Some. Qed.

(** The mask of a query, for [n] files. *)
Lemma query_mask_has order ts n i :
  (forall l, order l ≡ₚ l) -> Forall (fun t => length (bit_mask t) = mask_size n) ts -> (i < n)%nat ->
  mask_has (result_mask (mask_size n) (order (fold_left (fun gs tag => add_to_group tag gs) ts []))) i = one_of_each_type ts i.
Proof.
  intros Ho Hm Hi. pose proof (group_all ts) as Hg. set (groups := fold_left _ _ []) in *.
  rewrite result_mask_has; [|rewrite Ho|by apply mask_size_spec].
  - rewrite (forallb_perm _ _ _ (Ho groups)), (grouped_forallb _ _ _ Hg). done.
  - destruct Hg as (_ & _ & H3). apply Forall_forall. intros [ty g] Hin. apply Forall_forall. intros t Ht.
    assert (t ∈ ts) as Htm; [|by eapply Forall_forall in Hm]. apply H3, list_elem_of_In, in_concat. exists g.
    split; apply list_elem_of_In; [by apply (list_elem_of_fmap_2 snd) in Hin|done].
Qed.

Lemma groups_non_empty ts : ts <> [] -> (length (fold_left (fun gs tag => add_to_group tag gs) ts []) =? 0)%nat = false.
Proof.
  intros Hts. apply Nat.eqb_neq. intros H0%length_zero_iff_nil. destruct (group_all ts) as (_ & _ & H3). rewrite H0 in H3.
  destruct ts as [|t ts]; [done|]. apply (not_elem_of_nil t). apply H3. left.
Qed.

Lemma tag_query_spec order m names :
  (forall l, order l ≡ₚ l) -> validate m = Ok tt -> found_tags m names <> [] ->
  get_files_for_tag_query order m names = filter (fun e => query_matches m names e.1 = true) (indexed m).
Proof.
  intros Ho Hv Hf. apply validate_Ok in Hv as (_ & _ & _ & Hm). unfold get_files_for_tag_query.
  destruct names as [|n0 names0]; [done|]. set (names := n0 :: names0) in *. change (length names =? 0)%nat with false. cbn iota.
  rewrite groups_non_empty by done. apply filter_ext_in. intros e He. apply elem_of_indexed in He.
  rewrite query_mask_has; [done..| |done]. apply Forall_forall. intros t Ht%found_tags_in. by eapply Forall_forall in Hm.
Qed.

(** ** The binary format *)

Lemma as_from_u16 v : as_u16 (from_u16 v) = v.
Proof. unfold from_u16. repeat case_match; subst; done. Qed.

Definition tag_ok (t : InstallTag) : Prop :=
  no_nul (name t) /\ utf8_valid (name t) = true /\ in_u 16 (as_u16 (tag_type t)) /\ from_u16 (as_u16 (tag_type t)) = tag_type t.

Definition entry_ok (version : Z) (e : InstallFileEntry) : Prop :=
  no_nul (path e) /\ utf8_valid (path e) = true /\ length (content_key e) = 16%nat /\ u32 (file_size e) /\
  if 2 <=? version then exists ft, file_type e = Some ft /\ u8 ft else file_type e = None.

Definition header_ok (h : InstallHeader) : Prop :=
  magic h = [73; 78] /\ u8 (version h) /\ u8 (ckey_length h) /\ in_u 16 (tag_count h) /\ u32 (entry_count h) /\
  if 2 <=? version h then exists c e u, content_key_size h = Some c /\ entry_count_v2 h = Some e /\ v2_unknown h = Some u /\ u8 c /\ u32 e /\ u8 u
  else content_key_size h = None /\ entry_count_v2 h = None /\ v2_unknown h = None.

Lemma read_write_install_header h rest : header_ok h -> read_header (write_header h ++ rest) = Ok (h, rest).
Proof.
  destruct h as [m v c t e cks ec2 unk]. unfold header_ok, write_header. cbn [magic version ckey_length tag_count entry_count content_key_size entry_count_v2 v2_unknown].
  intros (-> & ? & ? & ? & ? & Hv). rewrite <- !app_assoc. unfold read_header. rewrite read_app by done. cbn [mbind result_bind].
  rewrite bool_decide_eq_true_2 by done. cbn [negb]. repeat read_next. destruct (2 <=? v).
  - destruct Hv as (c' & e' & u' & -> & -> & -> & ? & ? & ?). cbn [from_option id]. unfold id. rewrite <- !app_assoc. by repeat read_next.
  - destruct Hv as (-> & -> & ->). done.
Qed.

Lemma read_install_header_Ok input h rest :
  is_bytes input -> read_header input = Ok (h, rest) -> input = write_header h ++ rest /\ is_bytes rest /\ header_ok h.
Proof.
  intros Hb. unfold read_header. destruct (read BinRw 2 input) as [[m i]|] eqn:E; [|done]. cbn [mbind result_bind].
  apply read_Ok in E as [-> Hm]. apply is_bytes_app in Hb as [_ Hb]. case_bool_decide as Em; [|done]. cbn [negb]. read_back.
  destruct (2 <=? v) eqn:Ev.
  - read_back. intros [= <- <-]. unfold write_header, header_ok. cbn [magic version ckey_length tag_count entry_count content_key_size entry_count_v2 v2_unknown].
    rewrite Ev. cbn [from_option]. unfold id. rewrite <- !app_assoc. split_and!; [done..|]. by do 3 eexists.
  - intros [= <- <-]. unfold write_header, header_ok. cbn [magic version ckey_length tag_count entry_count content_key_size entry_count_v2 v2_unknown].
    rewrite Ev, app_nil_r, <- !app_assoc. by split_and!.
Qed.

Lemma read_write_tag n t rest : tag_ok t -> length (bit_mask t) = mask_size (Z.to_nat n) -> read_tag n (write_tag t ++ rest) = Ok (t, rest).
Proof.
  intros (Hn & Hu & Ht & Hc) Hl. unfold read_tag, write_tag. rewrite <- !app_assoc. cbn [app]. rewrite read_cstring_app by done. cbn [mbind result_bind].
  unfold from_utf8. rewrite Hu. cbn [mbind result_bind]. read_next. rewrite read_app by done. cbn [mbind result_bind]. rewrite Hc. by destruct t.
Qed.

Lemma read_tag_Ok n input t rest :
  is_bytes input -> read_tag n input = Ok (t, rest) ->
  input = write_tag t ++ rest /\ is_bytes rest /\ (tag_ok t /\ length (bit_mask t) = mask_size (Z.to_nat n)).
Proof.
  intros Hb. unfold read_tag. destruct (read_cstring BinRw input) as [[s i]|] eqn:E1; [|done]. cbn [mbind result_bind].
  apply read_cstring_Ok in E1 as [-> Hs]. apply is_bytes_app in Hb as [_ Hb]. apply Forall_cons in Hb as [_ Hb].
  unfold from_utf8. destruct (utf8_valid s) eqn:Hu; [|done]. cbn [mbind result_bind]. fold (is_bytes i) in Hb. read_back.
  destruct (read BinRw _ _) as [[m i']|] eqn:E2; [|done]. cbn [mbind result_bind]. apply read_Ok in E2 as [-> Hl]. apply is_bytes_app in Hr as [_ Hr].
  intros [= <- <-]. unfold write_tag, tag_ok. cbn [name tag_type bit_mask]. rewrite !as_from_u16, <- !app_assoc. by split_and!.
Qed.

Lemma read_write_entry v e rest : entry_ok v e -> read_entry 16 v (write_entry e ++ rest) = Ok (e, rest).
Proof.
  intros (Hp & Hu & Hk & Hs & Ht). unfold read_entry, write_entry. rewrite <- !app_assoc. cbn [app]. rewrite read_cstring_app by done. cbn [mbind result_bind].
  unfold from_utf8. rewrite Hu. cbn [mbind result_bind]. rewrite read_app by done. cbn [mbind result_bind]. rewrite Hk. cbn [Nat.eqb negb].
  read_next. destruct (2 <=? v).
  - destruct Ht as (ft & Hft & Hu8). rewrite Hft. replace [ft] with (to_be_bytes 1 ft); [read_next; by destruct e; cbn in *; subst|].
    unfold to_be_bytes. cbn [to_le_bytes]. rewrite Z.mod_small by (unfold in_u in Hu8; lia). done.
  - rewrite Ht. cbn [app]. by destruct e; cbn in *; subst.
Qed.

Lemma read_entry_Ok v input e rest :
  is_bytes input -> read_entry 16 v input = Ok (e, rest) -> input = write_entry e ++ rest /\ is_bytes rest /\ entry_ok v e.
Proof.
  intros Hb. unfold read_entry. destruct (read_cstring BinRw input) as [[s i]|] eqn:E1; [|done]. cbn [mbind result_bind].
  apply read_cstring_Ok in E1 as [-> Hs]. apply is_bytes_app in Hb as [_ Hb]. apply Forall_cons in Hb as [_ Hb].
  unfold from_utf8. destruct (utf8_valid s) eqn:Hu; [|done]. cbn [mbind result_bind].
  destruct (read BinRw _ i) as [[k i']|] eqn:E2; [|done]. cbn [mbind result_bind]. apply read_Ok in E2 as [-> Hl]. apply is_bytes_app in Hb as [_ Hb].
  destruct (Nat.eqb_spec (length k) 16) as [Hk|]; [|done]. cbn [negb]. read_back. destruct (2 <=? v) eqn:Ev.
  - read_back. intros [= <- <-]. unfold write_entry, entry_ok. cbn [path content_key file_size file_type]. rewrite Ev.
    split_and!; [|done..|by eexists].
    assert (to_be_bytes 1 v1 = [v1]) as ->; [|by rewrite <- !app_assoc]. unfold to_be_bytes. cbn [to_le_bytes]. rewrite Z.mod_small by (unfold in_u in *; lia). done.
  - intros [= <- <-]. unfold write_entry, entry_ok. cbn [path content_key file_size file_type]. rewrite Ev, app_nil_r, <- !app_assoc. by split_and!.
Qed.

(** What the format can hold. *)
Definition manifest_ok (m : InstallManifest) : Prop :=
  header_ok (header m) /\ Forall tag_ok (tags m) /\ Forall (entry_ok (version (header m))) (entries m) /\ validate m = Ok tt.

Lemma validate_header_length h : validate_header h = Ok tt -> ckey_length h = 16.
Proof.
  unfold validate_header. case_bool_decide; [|done]. destruct (_ || _); [done|]. destruct (Z.eqb_spec (ckey_length h) 16); done.
Qed.

Lemma install_parse_build m rest : manifest_ok m -> parse (build m ++ rest) = Ok m.
Proof.
  intros (Hh & Ht & He & Hv). pose proof Hv as Hv'. apply validate_Ok in Hv' as (Hvh & Hct & Hce & Hm). unfold parse, build. rewrite <- !app_assoc.
  rewrite read_write_install_header by done. cbn [mbind result_bind]. rewrite Hvh. cbn [mbind result_bind].
  rewrite <- Hct, Nat2Z.id, (read_many_app _ write_tag).
  2: { apply Forall_forall. intros t Hin rest'. apply read_write_tag; [by eapply Forall_forall in Ht|]. rewrite <- Hce, Nat2Z.id. by eapply Forall_forall in Hm. }
  cbn [mbind result_bind]. rewrite <- Hce, Nat2Z.id, (validate_header_length _ Hvh), (read_many_app _ write_entry).
  2: { apply Forall_forall. intros e Hin rest'. apply read_write_entry. by eapply Forall_forall in He. }
  cbn [mbind result_bind]. replace {| header := header m; tags := tags m; entries := entries m |} with m by (by destruct m). by rewrite Hv.
Qed.

Lemma install_parse_Ok data m : is_bytes data -> parse data = Ok m -> manifest_ok m /\ exists rest, data = build m ++ rest.
Proof.
  intros Hb. unfold parse. destruct (read_header data) as [[h i]|] eqn:E1; [|done]. cbn [mbind result_bind].
  apply read_install_header_Ok in E1 as (-> & Hi & Hh); [|done]. destruct (validate_header h) as [[]|] eqn:Ev; [|done]. cbn [mbind result_bind].
  rewrite (validate_header_length _ Ev). destruct (read_many _ (read_tag _) i) as [[ts i1]|] eqn:E2; [|done]. cbn [mbind result_bind].
  apply (read_many_Ok _ write_tag _ _ _ _ _ (read_tag_Ok _)) in E2 as (-> & Hi1 & Hts & _); [|done].
  destruct (read_many _ (read_entry _ _) i1) as [[es i2]|] eqn:E3; [|done]. cbn [mbind result_bind].
  apply (read_many_Ok _ write_entry _ _ _ _ _ (read_entry_Ok _)) in E3 as (-> & Hi2 & Hes & _); [|done].
  destruct (validate _) as [[]|] eqn:Evm; [|done]. cbn [mbind result_bind]. intros [= <-]. split.
  - split_and!; [done| |done|done]. eapply Forall_impl; [exact Hts|]. by intros t [? _].
  - exists i2. unfold build. cbn [header tags entries]. by rewrite <- !app_assoc.
Qed.

(** ** The builder

    What the builder stands for: for each tag the list of its files as booleans. *)

Record Spec := {
  s_tags : list (bytes * TagType * list bool);
  s_files : list InstallFileEntry;
  s_index : gmap bytes nat;
}.

Definition bits (n : nat) (mask : bytes) : list bool := map (mask_has mask) (seq 0 n).

Definition tag_view (n : nat) (t : InstallTag) : bytes * TagType * list bool := (name t, tag_type t, bits n (bit_mask t)).

Definition view (b : InstallManifestBuilder) : Spec :=
  {| s_tags := map (tag_view (length (b_entries b))) (b_tags b); s_files := b_entries b; s_index := tag_name_to_index b |}.

(** Masks of the right length with no bit behind the last of [n] files, and an index
    that names the tags. *)
Definition masks_inv (n : nat) (ts : list InstallTag) : Prop :=
  Forall (fun t => length (bit_mask t) = mask_size n /\ forall i, (n <= i)%nat -> mask_has (bit_mask t) i = false) ts.

Definition index_inv (ts : list InstallTag) (index : gmap bytes nat) : Prop :=
  forall n i, index !! n = Some i -> exists t, ts !! i = Some t /\ name t = n.

Record builder_inv (b : InstallManifestBuilder) : Prop := {
  inv_masks : masks_inv (length (b_entries b)) (b_tags b);
  inv_index : index_inv (b_tags b) (tag_name_to_index b);
}.

Inductive op : Type :=
| AddTag (name : bytes) (t : TagType)
| AddFile (path key : bytes) (size : Z)
| Associate (file : nat) (name : bytes)
| AssociateAt (file tag : nat)
| Dissociate (file : nat) (name : bytes)
| RemoveTag (name : bytes)
| RemoveFile (file : nat).

Definition run_op (o : op) (b : InstallManifestBuilder) : outcome (iresult InstallManifestBuilder) :=
  match o with
  | AddTag n t => Ret (Ok (add_tag b n t))
  | AddFile p k s => Ret (Ok (add_file b p k s))
  | Associate i n => associate_file_with_tag b i n
  | AssociateAt i t => associate_file_with_tag_by_index b i t
  | Dissociate i n => remove_file_from_tag b i n
  | RemoveTag n => remove_tag b n
  | RemoveFile i => Ret (remove_file b i)
  end.

Fixpoint run (ops : list op) (b : InstallManifestBuilder) : outcome (iresult InstallManifestBuilder) :=
  match ops with
  | [] => Ret (Ok b)
  | o :: ops => b ←? run_op o b; run ops b
  end.

Definition on_files (f : list bool -> list bool) (t : bytes * TagType * list bool) : bytes * TagType * list bool := (t.1, f t.2).

Definition s_with (s : Spec) (ts : list (bytes * TagType * list bool)) : Spec := {| s_tags := ts; s_files := s_files s; s_index := s_index s |}.

Definition spec_set (s : Spec) (file tag : nat) (v : bool) : option Spec :=
  if (file <? length (s_files s))%nat && (tag <? length (s_tags s))%nat then Some (s_with s (alter (on_files <[file := v]>) tag (s_tags s)))
  else None.

Definition spec_op (o : op) (s : Spec) : option Spec :=
  match o with
  | AddTag n t =>
      Some {| s_tags := s_tags s ++ [(n, t, replicate (length (s_files s)) false)]; s_files := s_files s;
              s_index := <[n := length (s_tags s)]> (s_index s) |}
  | AddFile p k size =>
      Some {| s_tags := map (on_files (fun bs => bs ++ [false])) (s_tags s); s_files := s_files s ++ [entry_new p k size]; s_index := s_index s |}
  | Associate i n => t ← s_index s !! n; spec_set s i t true
  | AssociateAt i t => spec_set s i t true
  | Dissociate i n => t ← s_index s !! n; spec_set s i t false
  | RemoveTag n =>
      t ← s_index s !! n;
      Some {| s_tags := delete t (s_tags s); s_files := s_files s;
              s_index := (fun i => if (t <? i)%nat then (i - 1)%nat else i) <$> delete n (s_index s) |}
  | RemoveFile i =>
      if (i <? length (s_files s))%nat
      then Some {| s_tags := map (on_files (delete i)) (s_tags s); s_files := delete i (s_files s); s_index := s_index s |}
      else None
  end.

Fixpoint spec_run (ops : list op) (s : Spec) : option Spec :=
  match ops with
  | [] => Some s
  | o :: ops => s ← spec_op o s; spec_run ops s
  end.

Lemma bits_lookup n mask i : bits n mask !! i = if (i <? n)%nat then Some (mask_has mask i) else None.
Proof.
  unfold bits. rewrite list_lookup_fmap. destruct (Nat.ltb_spec i n).
  - by rewrite lookup_seq_lt.
  - by rewrite lookup_seq_ge.
Qed.

Lemma length_bits n mask : length (bits n mask) = n.
Proof. unfold bits. by rewrite length_map, length_seq. Qed.

Lemma bits_set n mask i : bits n (set_bit mask i) = <[i := true]> (bits n mask).
Proof.
  apply list_eq. intros j. rewrite bits_lookup, mask_has_set_bit, list_lookup_insert, length_bits, bits_lookup.
  destruct (Nat.eqb_spec i j) as [->|Hn], (Nat.ltb_spec j n); case_decide; (tauto || done || lia).
Qed.

Lemma bits_clear n mask i :
  bits n (alter (fun b => Z.land b (Z.lxor 0xFF (bit_of (i mod 8)))) (i / 8)%nat mask) = <[i := false]> (bits n mask).
Proof.
  apply list_eq. intros j. rewrite bits_lookup, mask_has_clear_bit, list_lookup_insert, length_bits, bits_lookup.
  destruct (Nat.eqb_spec i j) as [->|Hn], (Nat.ltb_spec j n); case_decide; (tauto || done || lia).
Qed.

Lemma bits_grow n mask mask' :
  (forall i, mask_has mask' i = mask_has mask i) -> mask_has mask n = false -> bits (n + 1) mask' = bits n mask ++ [false].
Proof.
  intros Hm Hn. unfold bits. rewrite seq_app, map_app. cbn [seq map]. rewrite Hm, Nat.add_0_l, Hn. f_equal. apply map_ext. done.
Qed.

(** The fold that collects the bits of a byte. *)
Lemma fold_bits (body : Z -> nat -> Z) (c : nat -> bool) l acc j :
  (forall acc k, body acc k = if c k then Z.lor acc (bit_of k) else acc) -> Forall (fun k => (k < 8)%nat) l -> (j < 8)%nat ->
  Z.testbit (fold_left body l acc) (7 - Z.of_nat j) = Z.testbit acc (7 - Z.of_nat j) || existsb (fun k => (k =? j)%nat && c k) l.
Proof.
  intros Hb Hl Hj. revert acc. induction Hl as [|k l Hk Hl IH]; intros acc; cbn [fold_left existsb]; [by rewrite orb_false_r|].
  rewrite IH, Hb. destruct (c k); [|by rewrite andb_false_r]. rewrite Z.lor_spec, bit_of_testbit, andb_true_r by lia.
  replace (7 - Z.of_nat j =? 7 - Z.of_nat k) with (k =? j)%nat; [by rewrite orb_assoc|].
  destruct (Nat.eqb_spec k j), (Z.eqb_spec (7 - Z.of_nat j) (7 - Z.of_nat k)); (done || lia).
Qed.

Lemma mask_has_shifted mask i n j :
  mask_has (shifted_mask mask i n) j = (j <? n)%nat && mask_has mask (if (j <? i)%nat then j else j + 1)%nat.
Proof.
  rewrite mask_has_bit. unfold shifted_mask. rewrite list_lookup_fmap. destruct (Nat.lt_ge_cases (j / 8) (mask_size n)) as [L|L].
  - rewrite lookup_seq_lt by done. cbn [fmap option_fmap option_map]. unfold shifted_byte. rewrite Nat.add_0_l.
    rewrite (fold_bits _ (fun k => (j / 8 * 8 + k <? n)%nat && mask_has mask (if (j / 8 * 8 + k <? i)%nat then j / 8 * 8 + k else j / 8 * 8 + k + 1)%nat)); [| |by repeat constructor; lia|apply mod8].
    + rewrite Z.bits_0, orb_false_l. apply eq_iff_eq_true. rewrite existsb_exists. pose proof (Nat.div_mod_eq j 8) as Ej. split.
      * intros (k & _ & Hk). apply andb_true_iff in Hk as [->%Nat.eqb_eq Hk]. by replace (j / 8 * 8 + j mod 8)%nat with j in Hk by lia.
      * intros H. exists (j mod 8)%nat. split; [apply in_seq; pose proof (mod8 j); lia|]. rewrite Nat.eqb_refl. by replace (j / 8 * 8 + j mod 8)%nat with j by lia.
    + intros acc k. destruct (Nat.leb_spec n (j / 8 * 8 + k)), (Nat.ltb_spec (j / 8 * 8 + k) n); (done || lia).
  - rewrite lookup_seq_ge by done. destruct (Nat.ltb_spec j n) as [Hj|]; [|done]. apply mask_size_spec in Hj. lia.
Qed.

(** A mask without the bit of one file. *)
Lemma bits_delete n mask mask' i :
  (i < n)%nat -> (forall j, (j < n - 1)%nat -> mask_has mask' j = mask_has mask (if (j <? i)%nat then j else j + 1)%nat) ->
  bits (n - 1) mask' = delete i (bits n mask).
Proof.
  intros Hi Hm. apply list_eq. intros j. rewrite bits_lookup, list_lookup_delete. destruct (Nat.ltb_spec j i).
  - rewrite decide_True by done. rewrite bits_lookup, Hm by lia. rewrite !(proj2 (Nat.ltb_lt _ _)) by lia. done.
  - rewrite decide_False by lia. rewrite bits_lookup. destruct (Nat.ltb_spec j (n - 1)), (Nat.ltb_spec (S j) n); try lia; [|done].
    rewrite Hm, (proj2 (Nat.ltb_ge _ _)) by lia. by replace (j + 1)%nat with (S j) by lia.
Qed.

(** *** Operations on a list of tags

    Shared by the builders of install and download manifests. *)

(** [f] sets the bit of [file] to [v] in the mask of a tag for [n] files. *)
Definition sets_bit (n file : nat) (v : bool) (f : InstallTag -> InstallTag) : Prop :=
  (forall t, name (f t) = name t /\ tag_type (f t) = tag_type t) /\
  (forall t, bits n (bit_mask (f t)) = <[file := v]> (bits n (bit_mask t))) /\
  (forall t, length (bit_mask t) = mask_size n -> length (bit_mask (f t)) = length (bit_mask t)) /\
  (forall t i, i <> file -> mask_has (bit_mask (f t)) i = mask_has (bit_mask t) i).

Lemma tag_add_file_sets n file : (file < n)%nat -> sets_bit n file true (fun t => tag_add_file t file).
Proof.
  intros Hf. split_and!; [done| | |].
  - intros t. apply bits_set.
  - intros t Hl. apply length_set_bit. rewrite Hl. by apply mask_size_spec.
  - intros t i Hn. cbn [tag_add_file with_mask bit_mask]. rewrite mask_has_set_bit. destruct (Nat.eqb_spec file i); [congruence|done].
Qed.

Lemma tag_remove_file_sets n file : sets_bit n file false (fun t => tag_remove_file t file).
Proof.
  split_and!; [done| | |].
  - intros t. apply bits_clear.
  - intros t Hl. cbn [tag_remove_file with_mask bit_mask]. apply length_alter.
  - intros t i Hn. cbn [tag_remove_file with_mask bit_mask]. rewrite mask_has_clear_bit. destruct (Nat.eqb_spec file i); [congruence|done].
Qed.

Lemma alter_tags n file v f ts index tag :
  (file < n)%nat -> sets_bit n file v f -> masks_inv n ts -> index_inv ts index ->
  masks_inv n (alter f tag ts) /\ index_inv (alter f tag ts) index /\
  map (tag_view n) (alter f tag ts) = alter (on_files <[file := v]>) tag (map (tag_view n) ts).
Proof.
  intros Hf (Hn & Hbits & Hl & Ho) Hm Hi. split_and!.
  - apply Forall_alter; [done|]. intros t' _ [Hml Hno]. split; [by rewrite Hl|]. intros i Hge. rewrite Ho by lia. by apply Hno.
  - intros n' i Hni. destruct (Hi n' i Hni) as (t' & Ht' & Hnt). destruct (decide (i = tag)) as [->|].
    + rewrite list_lookup_alter_eq, Ht'. eexists. split; [done|]. by rewrite (proj1 (Hn t')).
    + rewrite list_lookup_alter_ne by done. by exists t'.
  - apply list_fmap_alter, Forall_forall. intros t' _. unfold tag_view, on_files. cbn [fst snd]. destruct (Hn t') as [-> ->]. by rewrite Hbits.
Qed.

Lemma index_inv_map f ts index : (forall t, name (f t) = name t) -> index_inv ts index -> index_inv (map f ts) index.
Proof. intros Hf Hi n i (t & Ht & Hn)%Hi. exists (f t). by rewrite list_lookup_fmap, Ht, Hf. Qed.

Lemma new_tag n ts index name t :
  masks_inv n ts -> index_inv ts index ->
  masks_inv n (ts ++ [tag_new name t n]) /\ index_inv (ts ++ [tag_new name t n]) (<[name := length ts]> index) /\
  tag_view n (tag_new name t n) = (name, t, replicate n false).
Proof.
  intros Hm Hi. split_and!.
  - apply Forall_app. split; [done|]. repeat constructor; cbn [tag_new bit_mask]; [apply length_zeros|]. intros. apply mask_has_zeros.
  - intros n' i. rewrite lookup_insert. case_decide as E; [intros [= <-]; subst n'; eexists; rewrite lookup_app_r, Nat.sub_diag by done; done|].
    intros (t' & Ht' & Hn)%Hi. exists t'. split; [|done]. by apply lookup_app_l_Some.
  - unfold tag_view. cbn [tag_new Install.name tag_type bit_mask]. f_equal. apply list_eq. intros j. rewrite bits_lookup, mask_has_zeros.
    destruct (Nat.ltb_spec j n); [by rewrite lookup_replicate_2|]. symmetry. apply lookup_ge_None. by rewrite length_replicate.
Qed.

Lemma name_grow_mask n t : name (grow_mask n t) = name t /\ tag_type (grow_mask n t) = tag_type t.
Proof. unfold grow_mask. by destruct (_ <? _)%nat. Qed.

Lemma grow_tags n ts :
  masks_inv n ts ->
  masks_inv (n + 1) (map (grow_mask (mask_size (n + 1))) ts) /\
  map (tag_view (n + 1)) (map (grow_mask (mask_size (n + 1))) ts) = map (on_files (fun bs => bs ++ [false])) (map (tag_view n) ts).
Proof.
  intros Hm. assert (forall t, t ∈ ts -> length (bit_mask (grow_mask (mask_size (n + 1)) t)) = mask_size (n + 1) /\
    forall i, mask_has (bit_mask (grow_mask (mask_size (n + 1)) t)) i = mask_has (bit_mask t) i) as Hg.
  { intros t Ht. eapply Forall_forall in Hm as [Hl _]; [|done]. pose proof (mask_size_mono n (n + 1) ltac:(lia)). unfold grow_mask.
    destruct (Nat.ltb_spec (length (bit_mask t)) (mask_size (n + 1))); [|split; [lia|done]].
    cbn [with_mask bit_mask]. split; [apply length_resize|]. intros i. apply mask_has_resize. lia. }
  split.
  - apply Forall_forall. intros t' (t & -> & Ht)%list_elem_of_fmap. destruct (Hg t Ht) as [Hl Hh]. split; [done|]. intros i Hge. rewrite Hh.
    eapply Forall_forall in Hm as [_ Hno]; [|done]. apply Hno. lia.
  - rewrite !map_map. apply map_ext_in. intros t Ht%list_elem_of_In. destruct (Hg t Ht) as [_ Hh]. unfold on_files, tag_view. cbn [fst snd].
    destruct (name_grow_mask (mask_size (n + 1)) t) as [-> ->]. f_equal. apply bits_grow; [done|]. eapply Forall_forall in Hm as [_ Hno]; [|done]. by apply Hno.
Qed.

Lemma shrink_tags n ts i g :
  (i < n)%nat -> masks_inv n ts ->
  (forall t, t ∈ ts -> length (g (bit_mask t)) = mask_size (n - 1) /\
     (forall j, (j < n - 1)%nat -> mask_has (g (bit_mask t)) j = mask_has (bit_mask t) (if (j <? i)%nat then j else j + 1)%nat) /\
     forall j, (n - 1 <= j)%nat -> mask_has (g (bit_mask t)) j = false) ->
  masks_inv (n - 1) (map (fun t => with_mask t (g (bit_mask t))) ts) /\
  map (tag_view (n - 1)) (map (fun t => with_mask t (g (bit_mask t))) ts) = map (on_files (delete i)) (map (tag_view n) ts).
Proof.
  intros Hi Hm Hg. split.
  - apply Forall_forall. intros t' (t & -> & Ht)%list_elem_of_fmap. destruct (Hg t Ht) as (Hl & _ & Hj). by split.
  - rewrite !map_map. apply map_ext_in. intros t Ht%list_elem_of_In. destruct (Hg t Ht) as (_ & Hj & _). unfold tag_view, on_files.
    cbn [with_mask name tag_type bit_mask fst snd]. f_equal. by apply bits_delete.
Qed.

(** *** The operations of this builder *)

(** A change of one tag's mask that sets the bit of a file to [v]. *)
Lemma update_tag_refines b f tag file v :
  builder_inv b -> (file < length (b_entries b))%nat -> (tag < length (b_tags b))%nat -> sets_bit (length (b_entries b)) file v f ->
  exists b', update_tag b tag f = Ret b' /\ builder_inv b' /\ spec_set (view b) file tag v = Some (view b').
Proof.
  intros [Hm Hi] Hf Ht Hs. unfold update_tag. destruct (lookup_lt_is_Some_2 _ _ Ht) as [t Hlt]. rewrite Hlt. eexists. split; [done|].
  destruct (alter_tags _ file v f _ _ tag Hf Hs Hm Hi) as (Hm' & Hi' & Hv). split; [by constructor|].
  unfold spec_set, view. cbn [s_files s_tags]. rewrite length_map, !(proj2 (Nat.ltb_lt _ _)) by done. cbn [andb]. unfold s_with.
  cbn [with_tags b_tags b_entries tag_name_to_index s_files s_index]. by rewrite Hv.
Qed.

Lemma change_by_name_refines f b file n v :
  builder_inv b ->
  (forall tag, (file < length (b_entries b))%nat -> (tag < length (b_tags b))%nat ->
     exists b', update_tag b tag (fun t => f t file) = Ret b' /\ builder_inv b' /\ spec_set (view b) file tag v = Some (view b')) ->
  match t ← s_index (view b) !! n; spec_set (view b) file t v with
  | Some s => exists b', change_by_name f b file n = Ret (Ok b') /\ builder_inv b' /\ view b' = s
  | None => exists e, change_by_name f b file n = Ret (Err e)
  end.
Proof.
  intros Hb Hup. unfold change_by_name. cbn [view s_index]. destruct (tag_name_to_index b !! n) as [tag|] eqn:En; cbn [mbind option_bind].
  - destruct (inv_index b Hb n tag En) as (t & Ht & _). apply lookup_lt_Some in Ht. destruct (Nat.leb_spec (length (b_entries b)) file).
    + unfold spec_set. cbn [s_files]. rewrite (proj2 (Nat.ltb_ge _ _)) by done. cbn [andb]. by eexists.
    + destruct (Hup tag) as (b' & Hu & Hi & Hs); [done..|]. rewrite Hs, Hu. eexists. by split_and!.
  - destruct (length (b_entries b) <=? file)%nat; by eexists.
Qed.

Lemma add_tag_refines b n t : builder_inv b -> builder_inv (add_tag b n t) /\ spec_op (AddTag n t) (view b) = Some (view (add_tag b n t)).
Proof.
  intros [Hm Hi]. destruct (new_tag _ _ _ n t Hm Hi) as (Hm' & Hi' & Hv). split; [by constructor|].
  unfold spec_op, view. cbn [s_tags s_files s_index add_tag b_tags b_entries tag_name_to_index]. rewrite length_map, map_app. cbn [map].
  unfold tag_new in Hv. by rewrite Hv.
Qed.

Lemma add_file_refines b p k size :
  builder_inv b -> builder_inv (add_file b p k size) /\ spec_op (AddFile p k size) (view b) = Some (view (add_file b p k size)).
Proof.
  intros [Hm Hi]. destruct (grow_tags _ _ Hm) as [Hm' Hv]. unfold add_file. split.
  - constructor; cbn [b_tags b_entries tag_name_to_index]; rewrite length_app; [done|]. apply index_inv_map; [|done]. intros t. apply name_grow_mask.
  - unfold spec_op, view. cbn [s_tags s_files s_index b_tags b_entries tag_name_to_index]. rewrite length_app. cbn [length]. by rewrite Hv.
Qed.

Lemma remove_tag_refines b n :
  builder_inv b ->
  match spec_op (RemoveTag n) (view b) with
  | Some s => exists b', remove_tag b n = Ret (Ok b') /\ builder_inv b' /\ view b' = s
  | None => exists e, remove_tag b n = Ret (Err e)
  end.
Proof.
  intros [Hm Hi]. unfold remove_tag. cbn [spec_op view s_index]. destruct (tag_name_to_index b !! n) as [tag|] eqn:En; cbn [mbind option_bind]; [|by eexists].
  destruct (Hi n tag En) as (t & Ht & Hnt). pose proof (lookup_lt_Some _ _ _ Ht) as Hlt. rewrite (proj2 (Nat.leb_gt _ _)) by done.
  eexists. split; [done|]. split.
  - constructor; cbn [b_tags b_entries tag_name_to_index]; [by apply Forall_delete|]. intros n' i. rewrite lookup_fmap.
    destruct (decide (n' = n)) as [->|Hne]; [by rewrite lookup_delete_eq|]. rewrite lookup_delete_ne by done.
    destruct (tag_name_to_index b !! n') as [i'|] eqn:En'; [|done]. intros [= <-]. destruct (Hi n' i' En') as (t' & Ht' & Hn').
    exists t'. split; [|done]. destruct (Nat.ltb_spec tag i').
    + rewrite list_lookup_delete_ge by lia. by replace (S (i' - 1)) with i' by lia.
    + rewrite list_lookup_delete_lt; [done|]. assert (i' <> tag) by (intros ->; congruence). lia.
  - unfold view. cbn [b_tags b_entries tag_name_to_index s_tags s_files]. f_equal. apply list_fmap_delete.
Qed.

Lemma remove_file_refines b i :
  builder_inv b ->
  match spec_op (RemoveFile i) (view b) with
  | Some s => exists b', remove_file b i = Ok b' /\ builder_inv b' /\ view b' = s
  | None => exists e, remove_file b i = Err e
  end.
Proof.
  intros [Hm Hi]. unfold remove_file. cbn [spec_op view s_files]. destruct (Nat.ltb_spec i (length (b_entries b))) as [L|L].
  2: { rewrite (proj2 (Nat.leb_le _ _)) by done. by eexists. }
  rewrite (proj2 (Nat.leb_gt _ _)) by done. assert (length (delete i (b_entries b)) = length (b_entries b) - 1)%nat as Hd by (apply length_delete; by apply lookup_lt_is_Some_2).
  destruct (shrink_tags _ _ i (fun mask => shifted_mask mask i (length (b_entries b) - 1)) L Hm) as [Hm' Hv].
  { intros t _. split_and!.
    - unfold shifted_mask. by rewrite length_map, length_seq.
    - intros j Hj. by rewrite mask_has_shifted, (proj2 (Nat.ltb_lt _ _)).
    - intros j Hj. by rewrite mask_has_shifted, (proj2 (Nat.ltb_ge _ _)). }
  eexists. split; [done|]. rewrite Hd. split.
  - constructor; cbn [b_tags b_entries tag_name_to_index]; [by rewrite Hd|]. by apply index_inv_map.
  - unfold view. cbn [b_tags b_entries tag_name_to_index s_tags s_index]. by rewrite Hd, Hv.
Qed.

Lemma run_op_refines o b :
  builder_inv b ->
  match spec_op o (view b) with
  | Some s => exists b', run_op o b = Ret (Ok b') /\ builder_inv b' /\ view b' = s
  | None => exists e, run_op o b = Ret (Err e)
  end.
Proof.
  intros Hb. destruct o as [n t|p k size|i n|i t|i n|n|i].
  - destruct (add_tag_refines b n t Hb) as [Hi ->]. by eexists.
  - destruct (add_file_refines b p k size Hb) as [Hi ->]. by eexists.
  - apply (change_by_name_refines tag_add_file); [done|]. intros tag ? ?. apply update_tag_refines; [done..|]. by apply tag_add_file_sets.
  - cbn [run_op spec_op]. unfold associate_file_with_tag_by_index. destruct (Nat.leb_spec (length (b_entries b)) i).
    { unfold spec_set. cbn [view s_files]. rewrite (proj2 (Nat.ltb_ge _ _)) by done. by eexists. }
    destruct (Nat.leb_spec (length (b_tags b)) t).
    { unfold spec_set. cbn [view s_tags]. rewrite length_map, (proj2 (Nat.ltb_ge _ (length (b_tags b)))), andb_false_r by done. by eexists. }
    destruct (update_tag_refines b (fun t => tag_add_file t i) t i true Hb) as (b' & Hu & Hi & ->); [done..|by apply tag_add_file_sets|]. rewrite Hu. by eexists.
  - apply (change_by_name_refines tag_remove_file); [done|]. intros tag ? ?. apply update_tag_refines; [done..|]. apply tag_remove_file_sets.
  - by apply remove_tag_refines.
  - cbn [run_op]. pose proof (remove_file_refines b i Hb) as H. destruct (spec_op (RemoveFile i) (view b)).
    + destruct H as (b' & -> & ? & ?). by eexists.
    + destruct H as (e & ->). by eexists.
Qed.

Lemma run_refines ops b :
  builder_inv b ->
  match spec_run ops (view b) with
  | Some s => exists b', run ops b = Ret (Ok b') /\ builder_inv b' /\ view b' = s
  | None => exists e, run ops b = Ret (Err e)
  end.
Proof.
  revert b. induction ops as [|o ops IH]; intros b Hb; cbn [spec_run run]; [by exists b|].
  pose proof (run_op_refines o b Hb) as H. destruct (spec_op o (view b)) as [s|]; cbn [mbind option_bind].
  - destruct H as (b' & -> & Hi & <-). cbn [try_bind]. by apply IH.
  - destruct H as (e & ->). by eexists.
Qed.

Lemma builder_new_inv : builder_inv builder_new.
Proof. constructor; [constructor|]. intros n i. cbn [builder_new tag_name_to_index]. by rewrite lookup_empty. Qed.

Lemma builder_build_Ok b :
  builder_inv b -> Z.of_nat (length (b_tags b)) <= 0xFFFF -> Z.of_nat (length (b_entries b)) <= 0xFFFFFFFF ->
  exists m, builder_build b = Ok m /\ validate m = Ok tt /\ tags m = b_tags b /\ entries m = b_entries b.
Proof.
  intros [Hm _] Ht He. unfold builder_build. rewrite !(proj2 (Z.ltb_ge _ _)) by done. set (m := Build_InstallManifest _ _ _).
  assert (validate m = Ok tt) as Hv.
  { apply validate_Ok. split_and!; [done..|]. unfold m. cbn [tags entries]. eapply Forall_impl; [exact Hm|]. by intros t [? _]. }
  rewrite Hv. by exists m.
Qed.

(** ** Properties *)

(** The binary format: every manifest the format can hold is read back from its
    bytes, whatever follows them; and bytes that parse are the bytes of the manifest
    they parse to, which is one the format can hold, followed by what was not read. *)
Theorem install_manifest_roundtrip :
  (forall m rest, manifest_ok m -> parse (build m ++ rest) = Ok m) /\
  (forall data m, is_bytes data -> parse data = Ok m -> manifest_ok m /\ exists rest, data = build m ++ rest).
Proof. split; [apply install_parse_build|apply install_parse_Ok]. Qed.

(** C26: A tag query on bit masks is the query on files: in a valid manifest, with at
    least one of the names known, the files returned are those, in order, that for
    every tag asked for have some tag of the same type among those asked for, in
    whatever order the groups are visited. *)
Theorem tag_query_is_filter order m names :
  (forall l, order l ≡ₚ l) -> validate m = Ok tt -> found_tags m names <> [] ->
  get_files_for_tag_query order m names = filter (fun e => query_matches m names e.1 = true) (indexed m).
Proof. apply tag_query_spec. Qed.

(** C25: The builder: every sequence of its operations from the empty builder does on
    the bit masks what the operations on lists of files do (a removed file takes its
    place out of every tag, a new one is in none), fails where they fail, and never
    panics; when the counts fit the header it builds a valid manifest in which exactly
    those files have each tag. *)
Theorem install_builder_refines ops :
  match spec_run ops (view builder_new) with
  | None => exists e, run ops builder_new = Ret (Err e)
  | Some s =>
      exists b, run ops builder_new = Ret (Ok b) /\ view b = s /\
        (Z.of_nat (length (s_tags s)) <= 0xFFFF -> Z.of_nat (length (s_files s)) <= 0xFFFFFFFF ->
         exists m, builder_build b = Ok m /\ validate m = Ok tt /\ entries m = s_files s /\
           map (fun t => (name t, tag_type t, map (has_file t) (seq 0 (length (entries m))))) (tags m) = s_tags s)
  end.
Proof.
  pose proof (run_refines ops builder_new builder_new_inv) as H. destruct (spec_run ops (view builder_new)) as [s|]; [|done].
  destruct H as (b & Hr & Hi & <-). exists b. split_and!; [done..|]. cbn [view s_tags s_files]. rewrite length_map. intros Ht He.
  destruct (builder_build_Ok b Hi Ht He) as (m & Hb & Hv & Et & Ee). exists m. split_and!; [done..|]. by rewrite Et, Ee.
Qed.

(** ** Concrete manifests *)

Definition sample_ops : list op :=
  [AddTag [119] Platform; AddTag [101] Locale; AddTag [100] Locale; AddFile [97] (zeros 16) 10; AddFile [98] (zeros 16) 20; AddFile [99] (zeros 16) 30;
   Associate 0 [119]; Associate 1 [119]; Associate 0 [101]; Associate 1 [100]; Associate 2 [100]].

Definition manifest_of (ops : list op) : InstallManifest :=
  match run ops builder_new with
  | Ret (Ok b) => match builder_build b with Ok m => m | Err _ => {| header := header_new 0 0; tags := []; entries := [] |} end
  | _ => {| header := header_new 0 0; tags := []; entries := [] |}
  end.

Lemma tag_query_is_filter_witness :
  map fst (get_files_for_tag_query (@reverse _) (manifest_of sample_ops) [[119]; [101]; [100]]) = [0%nat; 1%nat].
Proof.
  rewrite (tag_query_is_filter (@reverse _) (manifest_of sample_ops) [[119]; [101]; [100]]).
  - vm_compute. reflexivity.
  - intros l. apply reverse_Permutation.
  - vm_compute. reflexivity.
  - vm_compute. discriminate.
Defined.

Lemma install_manifest_roundtrip_witness : parse (build (manifest_of sample_ops) ++ [1; 2; 3]) = Ok (manifest_of sample_ops).
Proof.
  apply (proj1 install_manifest_roundtrip). unfold manifest_ok. split; [|split; [|split]].
  - vm_compute. intuition congruence.
  - replace (tags (manifest_of sample_ops)) with
      [{| name := [119]; tag_type := Platform; bit_mask := [192] |}; {| name := [101]; tag_type := Locale; bit_mask := [128] |};
       {| name := [100]; tag_type := Locale; bit_mask := [96] |}] by (vm_compute; reflexivity).
    repeat (apply Forall_cons_2; [split; [repeat (constructor; [discriminate|]); constructor|done]|]). constructor.
  - replace (entries (manifest_of sample_ops)) with [entry_new [97] (zeros 16) 10; entry_new [98] (zeros 16) 20; entry_new [99] (zeros 16) 30]
      by (vm_compute; reflexivity).
    repeat (apply Forall_cons_2; [split; [repeat (constructor; [discriminate|]); constructor|done]|]). constructor.
  - vm_compute. reflexivity.
Defined.

(** ** What goes wrong *)

(** A V2 manifest given to the builder comes back with a V1 header, but its entries
    still write the type byte of V2: read again, the second path starts with it. *)
Definition v2_manifest : InstallManifest :=
  {| header := header_new_v2 0 2 20 0; tags := [];
     entries := [entry_new_v2 [97] (zeros 16) 1 7; entry_new_v2 [98] (zeros 16) 1 7] |}.

Theorem builder_corrupts_v2_manifest :
  parse (build v2_manifest) = Ok v2_manifest /\
  (m ← builder_build (from_manifest v2_manifest); m' ← parse (build m); Ok (map path (entries m'))) = Ok [[97]; [7; 98]].
Proof. vm_compute. done. Qed.

(** Two tags of one name: the builder associates files with the last, a lookup in the
    manifest finds the first. *)
Theorem duplicate_tag_loses_files :
  get_files_for_tag (manifest_of [AddTag [119] Platform; AddTag [119] Platform; AddFile [97] (zeros 16) 1; Associate 0 [119]]) [119] = [].
Proof. vm_compute. reflexivity. Qed.

(** The unused bits of the last mask byte are not checked: a file added to such a
    manifest has the tag at once. *)
Theorem stray_bits_tag_new_files :
  let m := {| header := header_new 1 1; tags := [{| name := [119]; tag_type := Platform; bit_mask := [255] |}]; entries := [entry_new [97] (zeros 16) 1] |} in
  parse (build m) = Ok m /\
  (m' ← builder_build (add_file (from_manifest m) [98] (zeros 16) 1); Ok (map fst (get_files_for_tag m' [119]))) = Ok [0%nat; 1%nat].
Proof. vm_compute. done. Qed.

(** No tag asked for is known: nothing is returned, although with no names at all
    everything is. *)
Theorem unknown_tags_match_nothing :
  get_files_for_tag_query id (manifest_of sample_ops) [[120]] = [] /\
  get_files_for_tag_query id (manifest_of sample_ops) [] = indexed (manifest_of sample_ops).
Proof. vm_compute. done. Qed.
