(* ===== verification/Size.v ===== *)
(** * Size manifests

    Estimated file sizes by partial encoding key, with the tags of the install manifest
    (src/crates/cascette-formats/src/size): header, entries, manifest and builder, and
    that what is built is read back. *)

From S2P Require Import Prelude Bytes Cursor Install InstallTheorems.
Local Open Scope Z_scope.

Module Size.

Inductive SizeError : Type :=
| InvalidMagic (magic : bytes)
| UnsupportedVersion (v : Z)
| TruncatedData (expected actual : Z)
| InvalidEKeySize (n : Z)
| EntryCountMismatch (expected : Z) (actual : nat)
| TagCountMismatch (expected : Z) (actual : nat)
| TotalSizeMismatch (expected actual : Z)
| Io
| BinRead.

Notation sresult := (result SizeError).

Record SizeHeader := { version : Z; ekey_size : Z; num_files : Z; num_tags : Z; total_size : Z }.

Definition HEADER_SIZE : nat := 15.

Definition validate_header (h : SizeHeader) : sresult unit :=
  if version h =? 0 then Err (UnsupportedVersion (version h))
  else if (ekey_size h =? 0) || (16 <? ekey_size h) then Err (InvalidEKeySize (ekey_size h))
  else Ok tt.

(** Five bytes, the first shifted by 32. *)
Definition total_of (data : bytes) : Z :=
  Z.lor (Z.shiftl (nth 10 data 0) 32)
    (Z.lor (Z.shiftl (nth 11 data 0) 24) (Z.lor (Z.shiftl (nth 12 data 0) 16) (Z.lor (Z.shiftl (nth 13 data 0) 8) (nth 14 data 0)))).

Definition parse_header (data : bytes) : sresult SizeHeader :=
  if (length data <? HEADER_SIZE)%nat then Err (TruncatedData 15 (Z.of_nat (length data)))
  else if negb (bool_decide (slice 0 2 data = [68; 83])) then Err (InvalidMagic (slice 0 2 data))
  else
    let h := {| version := nth 2 data 0; ekey_size := nth 3 data 0; num_files := from_be_bytes (slice 4 8 data);
                num_tags := from_be_bytes (slice 8 10 data); total_size := total_of data |} in
    _ ← validate_header h;
    Ok h.

Definition write_header (h : SizeHeader) : bytes :=
  [68; 83] ++ [version h] ++ [ekey_size h] ++ to_be_bytes 4 (num_files h) ++ to_be_bytes 2 (num_tags h) ++
  [wrap8 (Z.shiftr (total_size h) 32); wrap8 (Z.shiftr (total_size h) 24); wrap8 (Z.shiftr (total_size h) 16);
   wrap8 (Z.shiftr (total_size h) 8); wrap8 (total_size h)].

Record SizeEntry := { key : bytes; esize : Z }.

Definition serialized_size (h : SizeHeader) : Z := ekey_size h + 4.

Definition read_entry (h : SizeHeader) (input : bytes) : sresult (SizeEntry * bytes) :=
  '(key, i) ← read Io (Z.to_nat (ekey_size h)) input;
  '(esize, i) ← read_be Io 4 i;
  Ok ({| key := key; esize := esize |}, i).

Definition write_entry (e : SizeEntry) : bytes := key e ++ to_be_bytes 4 (esize e).

Definition validate_entry (h : SizeHeader) (e : SizeEntry) : sresult unit :=
  if Z.of_nat (length (key e)) =? ekey_size h then Ok tt else Err (TruncatedData (ekey_size h) (Z.of_nat (length (key e)))).

Record SizeManifest := { header : SizeHeader; tags : list Install.InstallTag; entries : list SizeEntry }.

(** One tag; [len] is the length of the data, of which [i] is left.  A name that is
    not UTF-8 is the empty name. *)
Definition read_size_tag (len : Z) (num_files : Z) (i : bytes) : sresult (Install.InstallTag * bytes) :=
  let truncated (i : bytes) n := TruncatedData (len - Z.of_nat (length i) + n) len in
  '(name, i) ← read_cstring (TruncatedData (len + 1) len) i;
  '(tag_type_raw, i) ← read_be (truncated i 2) 2 i;
  '(bit_mask, i) ← read (truncated i (Z.of_nat (Install.mask_size (Z.to_nat num_files)))) (Install.mask_size (Z.to_nat num_files)) i;
  Ok ({| Install.name := if utf8_valid name then name else []; Install.tag_type := Install.from_u16 tag_type_raw;
         Install.bit_mask := bit_mask |}, i).

Definition parse (data : bytes) : sresult SizeManifest :=
  header ← parse_header data;
  let len := Z.of_nat (length data) in
  '(tags, i) ← read_many (Z.to_nat (num_tags header)) (read_size_tag len (num_files header)) (drop HEADER_SIZE data);
  let needed := len - Z.of_nat (length i) + serialized_size header * num_files header in
  if len <? needed then Err (TruncatedData needed len)
  else
    '(entries, _) ← read_many (Z.to_nat (num_files header)) (read_entry header) i;
    Ok {| header := header; tags := tags; entries := entries |}.

Definition write_size_tag (num_files : Z) (t : Install.InstallTag) : bytes :=
  Install.name t ++ [0] ++ to_be_bytes 2 (Install.as_u16 (Install.tag_type t)) ++
  Install.resize (Install.mask_size (Z.to_nat num_files)) (Install.bit_mask t).

Definition build (m : SizeManifest) : bytes :=
  write_header (header m) ++ concat (map (write_size_tag (num_files (header m))) (tags m)) ++ concat (map write_entry (entries m)).

Definition sum_sizes (es : list SizeEntry) : Z := foldr Z.add 0 (map esize es).

Fixpoint validate_entries (h : SizeHeader) (es : list SizeEntry) : sresult unit :=
  match es with
  | [] => Ok tt
  | e :: es => _ ← validate_entry h e; validate_entries h es
  end.

Definition validate (m : SizeManifest) : sresult unit :=
  _ ← validate_header (header m);
  if negb (Z.of_nat (length (tags m)) =? num_tags (header m)) then Err (TagCountMismatch (num_tags (header m)) (length (tags m)))
  else if negb (Z.of_nat (length (entries m)) =? num_files (header m)) then Err (EntryCountMismatch (num_files (header m)) (length (entries m)))
  else if negb (sum_sizes (entries m) =? total_size (header m)) then Err (TotalSizeMismatch (total_size (header m)) (sum_sizes (entries m)))
  else validate_entries (header m) (entries m).

(** ** Builder *)

Record SizeManifestBuilder := { b_version : Z; b_ekey_size : Z; b_tags : list Install.InstallTag; b_entries : list SizeEntry }.

Definition builder_new : SizeManifestBuilder := {| b_version := 1; b_ekey_size := 9; b_tags := []; b_entries := [] |}.

Definition set_version (b : SizeManifestBuilder) (v : Z) : SizeManifestBuilder :=
  {| b_version := v; b_ekey_size := b_ekey_size b; b_tags := b_tags b; b_entries := b_entries b |}.
Definition set_ekey_size (b : SizeManifestBuilder) (n : Z) : SizeManifestBuilder :=
  {| b_version := b_version b; b_ekey_size := n; b_tags := b_tags b; b_entries := b_entries b |}.
Definition with_tags (b : SizeManifestBuilder) (ts : list Install.InstallTag) : SizeManifestBuilder :=
  {| b_version := b_version b; b_ekey_size := b_ekey_size b; b_tags := ts; b_entries := b_entries b |}.

Definition add_tag (b : SizeManifestBuilder) (name : bytes) (t : Install.TagType) : SizeManifestBuilder :=
  with_tags b (b_tags b ++ [Install.tag_new name t 0]).

(** [self.tags[tag_index]] panics past the end. *)
Definition tag_file (b : SizeManifestBuilder) (tag_index file_index : nat) : outcome SizeManifestBuilder :=
  let needed := Install.mask_size (file_index + 1) in
  let grow t := if (length (Install.bit_mask t) <? needed)%nat then Install.with_mask t (Install.resize needed (Install.bit_mask t)) else t in
  match b_tags b !! tag_index with
  | None => Panic
  | Some _ => Ret (with_tags b (alter (fun t => Install.tag_add_file (grow t) file_index) tag_index (b_tags b)))
  end.

Definition add_entry (b : SizeManifestBuilder) (key : bytes) (esize : Z) : SizeManifestBuilder :=
  {| b_version := b_version b; b_ekey_size := b_ekey_size b; b_tags := b_tags b; b_entries := b_entries b ++ [{| key := key; esize := esize |}] |}.

Definition builder_build (b : SizeManifestBuilder) : sresult SizeManifest :=
  if b_version b =? 0 then Err (UnsupportedVersion (b_version b))
  else if (b_ekey_size b =? 0) || (16 <? b_ekey_size b) then Err (InvalidEKeySize (b_ekey_size b))
  else
    let bit_mask_size := Install.mask_size (length (b_entries b)) in
    let m :=
      {| header := {| version := b_version b; ekey_size := b_ekey_size b; num_files := wrap32 (Z.of_nat (length (b_entries b)));
                      num_tags := wrap 16 (Z.of_nat (length (b_tags b))); total_size := sum_sizes (b_entries b) |};
         tags := map (fun t => Install.with_mask t (Install.resize bit_mask_size (Install.bit_mask t))) (b_tags b);
         entries := b_entries b |} in
    _ ← validate m;
    Ok m.

End Size.

Import Size.

(** ** Reading what was written *)

Lemma total_bytes t :
  in_u 40 t ->
  Z.lor (Z.shiftl (wrap8 (Z.shiftr t 32)) 32)
    (Z.lor (Z.shiftl (wrap8 (Z.shiftr t 24)) 24)
       (Z.lor (Z.shiftl (wrap8 (Z.shiftr t 16)) 16) (Z.lor (Z.shiftl (wrap8 (Z.shiftr t 8)) 8) (wrap8 t)))) = t.
Proof.
  intros Ht. apply Z.bits_inj'. intros i Hi. rewrite !Z.lor_spec, !Z.shiftl_spec by lia. unfold wrap8, wrap.
  assert (forall x k, Z.testbit (x mod 2 ^ 8) k = Z.testbit x k && (0 <=? k) && (k <? 8)) as Hm.
  { intros x k. destruct (Z.leb_spec 0 k); [|by rewrite Z.testbit_neg_r, andb_false_r by lia].
    destruct (Z.ltb_spec k 8); [by rewrite Z.mod_pow2_bits_low, !andb_true_r by lia|by rewrite Z.mod_pow2_bits_high, andb_false_r by lia]. }
  rewrite !Hm. assert (forall s, 0 <= s -> Z.testbit (Z.shiftr t s) (i - s) && (0 <=? i - s) = Z.testbit t i && (0 <=? i - s)) as Hs.
  { intros s Hs. destruct (Z.leb_spec 0 (i - s)); [|by rewrite !andb_false_r]. rewrite Z.shiftr_spec by lia. by replace (i - s + s) with i by lia. }
  rewrite !Hs by lia. destruct (Z.testbit t i) eqn:E; [|done]. assert (i < 40).
  { destruct (Z.lt_ge_cases i 40); [done|]. rewrite (testbit_u_high 40 t i) in E by (done || lia). done. }
  cbn [andb]. destruct (Z.ltb_spec (i - 32) 8), (Z.leb_spec 0 (i - 32)), (Z.ltb_spec (i - 24) 8), (Z.leb_spec 0 (i - 24)), (Z.ltb_spec (i - 16) 8),
    (Z.leb_spec 0 (i - 16)), (Z.ltb_spec (i - 8) 8), (Z.leb_spec 0 (i - 8)), (Z.ltb_spec i 8), (Z.leb_spec 0 i); simpl; (done || lia).
Qed.

Definition size_header_ok (h : SizeHeader) : Prop :=
  1 <= version h < 256 /\ 1 <= ekey_size h <= 16 /\ u32 (num_files h) /\ in_u 16 (num_tags h) /\ in_u 40 (total_size h).

Lemma length_write_size_header h : length (write_header h) = 15%nat.
Proof. unfold write_header. by rewrite !length_app, !length_to_be_bytes. Qed.

Lemma parse_write_size_header h rest : size_header_ok h -> parse_header (write_header h ++ rest) = Ok h.
Proof.
  intros (Hv & He & Hf & Ht & Hs). unfold parse_header. rewrite length_app, length_write_size_header. change (15 + length rest <? HEADER_SIZE)%nat with false. cbn iota.
  assert (exists a b c d, to_be_bytes 4 (num_files h) = [a; b; c; d] /\ from_be_bytes [a; b; c; d] = num_files h) as (a & b & c & d & E1 & E2).
  { pose proof (length_to_be_bytes 4 (num_files h)) as Hl. pose proof (be_roundtrip 4 32 (num_files h) eq_refl Hf) as Hr. destruct (to_be_bytes 4 (num_files h)) as [|a [|b [|c [|d [|]]]]]; try done. by do 4 eexists. }
  assert (exists a b, to_be_bytes 2 (num_tags h) = [a; b] /\ from_be_bytes [a; b] = num_tags h) as (x & y & E3 & E4).
  { pose proof (length_to_be_bytes 2 (num_tags h)) as Hl. pose proof (be_roundtrip 2 16 (num_tags h) eq_refl Ht) as Hr. destruct (to_be_bytes 2 (num_tags h)) as [|x [|y [|]]]; try done. by do 2 eexists. }
  unfold write_header. rewrite E1, E3. cbn [app]. unfold total_of, slice. cbn [nth drop take Nat.sub].
  rewrite bool_decide_eq_true_2 by done. cbn [negb]. rewrite E2, E4, total_bytes by done.
  assert (validate_header {| version := version h; ekey_size := ekey_size h; num_files := num_files h; num_tags := num_tags h; total_size := total_size h |} = Ok tt) as Hval.
  { unfold validate_header. cbn [version ekey_size]. rewrite !(proj2 (Z.eqb_neq _ _)), (proj2 (Z.ltb_ge _ _)) by lia. done. }
  rewrite Hval. cbn [mbind result_bind]. by destruct h.
Qed.

Lemma read_write_size_tag len n t rest :
  tag_ok t -> length (Install.bit_mask t) = Install.mask_size (Z.to_nat n) ->
  read_size_tag len n (write_size_tag n t ++ rest) = Ok (t, rest).
Proof.
  intros (Hn & Hu & Ht & Hc) Hl. unfold read_size_tag, write_size_tag. rewrite <- !app_assoc. cbn [app]. rewrite read_cstring_app by done. cbn [mbind result_bind].
  read_next. unfold Install.resize. rewrite take_ge, Hl, Nat.sub_diag by lia. rewrite app_nil_r. rewrite read_app by done. cbn [mbind result_bind]. rewrite Hc, Hu. by destruct t.
Qed.

Definition size_entry_ok (h : SizeHeader) (e : SizeEntry) : Prop := Z.of_nat (length (key e)) = ekey_size h /\ u32 (esize e).

Lemma read_write_size_entry h e rest : size_entry_ok h e -> read_entry h (write_entry e ++ rest) = Ok (e, rest).
Proof.
  intros [Hk Hs]. unfold read_entry, write_entry. rewrite <- app_assoc, read_app by lia. cbn [mbind result_bind]. read_next. by destruct e.
Qed.

Definition size_manifest_ok (m : SizeManifest) : Prop :=
  size_header_ok (header m) /\ Forall tag_ok (tags m) /\ Forall (size_entry_ok (header m)) (entries m) /\
  Z.of_nat (length (tags m)) = num_tags (header m) /\ Z.of_nat (length (entries m)) = num_files (header m) /\
  Forall (fun t => length (Install.bit_mask t) = Install.mask_size (length (entries m))) (tags m).

Lemma length_size_entries h es : Forall (size_entry_ok h) es -> Z.of_nat (length (concat (map write_entry es))) = serialized_size h * Z.of_nat (length es).
Proof.
  induction 1 as [|e es [Hk _] H IH]; [simpl; lia|]. cbn [map concat length]. unfold write_entry at 1. rewrite !length_app, length_to_be_bytes.
  unfold serialized_size in *. lia.
Qed.

Lemma size_parse_build m rest : size_manifest_ok m -> parse (build m ++ rest) = Ok m.
Proof.
  intros (Hh & Ht & He & Hct & Hce & Hm). unfold parse, build. rewrite <- !app_assoc. rewrite parse_write_size_header by done. cbn [mbind result_bind].
  rewrite drop_app_length' by (by rewrite length_write_size_header). set (data := write_header (header m) ++ _).
  rewrite <- Hct, Nat2Z.id, (read_many_app _ (write_size_tag (num_files (header m)))).
  2: { apply Forall_forall. intros t Hin rest'. apply read_write_size_tag; [by eapply Forall_forall in Ht|]. rewrite <- Hce, Nat2Z.id. by eapply Forall_forall in Hm. }
  cbn [mbind result_bind]. rewrite (proj2 (Z.ltb_ge _ _)).
  2: { rewrite (length_app (concat _)). pose proof (length_size_entries _ _ He). rewrite <- Hce. lia. }
  rewrite <- Hce, Nat2Z.id, (read_many_app _ write_entry).
  2: { apply Forall_forall. intros e Hin rest'. apply read_write_size_entry. by eapply Forall_forall in He. }
  cbn [mbind result_bind]. by destruct m.
Qed.

Lemma validate_entries_Ok h es : validate_entries h es = Ok tt <-> Forall (fun e => Z.of_nat (length (key e)) = ekey_size h) es.
Proof.
  induction es as [|e es IH]; cbn [validate_entries]; [split; constructor|]. rewrite Forall_cons, <- IH. unfold validate_entry.
  destruct (Z.eqb_spec (Z.of_nat (length (key e))) (ekey_size h)); cbn [mbind result_bind]; [tauto|]. split; [done|tauto].
Qed.

(** ** Properties *)

(** What a builder accepts is written and read back: with tag names that are text, at
    most 65,535 tags and sizes whose sum fits 40 bits, the manifest built has the
    entries and, cut or extended to the number of entries, the masks of the builder,
    and its bytes parse to it. *)
Theorem size_builder_roundtrip b rest :
  1 <= b_version b < 256 -> 1 <= b_ekey_size b <= 16 -> Z.of_nat (length (b_tags b)) < 2 ^ 16 -> Z.of_nat (length (b_entries b)) < 2 ^ 32 ->
  Forall (fun e => Z.of_nat (length (key e)) = b_ekey_size b /\ u32 (esize e)) (b_entries b) -> Forall tag_ok (b_tags b) ->
  in_u 40 (sum_sizes (b_entries b)) ->
  exists m, builder_build b = Ok m /\ entries m = b_entries b /\ parse (build m ++ rest) = Ok m /\
    Forall2 (fun t t0 => Install.name t = Install.name t0 /\ Install.tag_type t = Install.tag_type t0 /\
       forall i, (i < length (entries m))%nat -> Install.has_file t i = Install.has_file t0 i) (tags m) (b_tags b).
Proof.
  intros Hv He Ht Hn Hes Hts Hsum. unfold builder_build. rewrite !(proj2 (Z.eqb_neq _ _)), (proj2 (Z.ltb_ge _ _)) by lia. cbn [orb].
  unfold wrap32. rewrite !wrap_small by (unfold in_u; lia). set (m := Build_SizeManifest _ _ _).
  assert (validate m = Ok tt) as Hval.
  { unfold validate, validate_header, m. cbn [header tags entries version ekey_size num_files num_tags total_size].
    rewrite (proj2 (Z.eqb_neq (b_version b) 0)), (proj2 (Z.eqb_neq (b_ekey_size b) 0)), (proj2 (Z.ltb_ge 16 _)) by lia. cbn [orb mbind result_bind]. rewrite length_map, !Z.eqb_refl. cbn [negb].
    apply validate_entries_Ok. eapply Forall_impl; [exact Hes|]. by intros e [? _]. }
  rewrite Hval. cbn [mbind result_bind]. exists m. split_and!; [done..| |].
  - apply size_parse_build. unfold size_manifest_ok, m. cbn [header tags entries num_files num_tags]. rewrite length_map.
    split_and!; [|by apply Forall_map|done..|apply Forall_map, Forall_true; intros; apply length_resize].
    unfold size_header_ok. cbn [version ekey_size num_files num_tags total_size]. unfold in_u in *. lia.
  - unfold m. cbn [tags entries]. apply Forall2_fmap_l, Forall_Forall2_diag, Forall_true. intros t. split_and!; [done..|]. intros i Hi.
    unfold Install.has_file. cbn [Install.with_mask Install.bit_mask]. apply mask_has_cut. by apply mask_size_spec.
Qed.

(** A sum of sizes above 40 bits is accepted and cut when it is written: what is read
    back does not pass its own validation. *)
Definition large_builder : SizeManifestBuilder :=
  {| b_version := 1; b_ekey_size := 9; b_tags := []; b_entries := replicate 257 {| key := zeros 9; esize := 2 ^ 32 - 1 |} |}.

Theorem size_total_truncated :
  (m ← builder_build large_builder; m' ← parse (build m); validate m') = Err (TotalSizeMismatch (257 * (2 ^ 32 - 1) - 2 ^ 40) (257 * (2 ^ 32 - 1))).
Proof. vm_compute. reflexivity. Qed.

(** A tag name that is not UTF-8 is read as the empty name. *)
Theorem size_tag_name_lost :
  (m ← parse ([68; 83; 1; 9; 0; 0; 0; 0; 0; 1; 0; 0; 0; 0; 0] ++ [255; 0; 0; 1]); Ok (map Install.name (tags m))) = Ok [[]].
Proof. vm_compute. reflexivity. Qed.
