(* ===== verification/Download.v ===== *)
(** * Download manifests

    Headers of three versions, file entries with 40-bit sizes and signed priorities,
    the manifest, its builder, priority categories and download plans
    (src/crates/cascette-formats/src/download).  Tags are those of install manifests.
    An [i8] is a [Z] between -128 and 127; the order in which a [HashMap] is iterated
    is a parameter.  Percentages, averages and times, which are floating-point numbers,
    are left out. *)

From S2P Require Import Prelude Bytes Cursor Collections Install.
Local Open Scope Z_scope.

Module Download.

Inductive DownloadError : Type :=
| InvalidMagic (magic : bytes)
| UnsupportedVersion (version : Z)
| FileSizeTooLarge (size : Z)
| FlagsNotSupportedInVersion (version : Z)
| BasePriorityNotSupportedInVersion (version : Z)
| InvalidFlagSize (actual : nat) (expected : Z)
| UnsupportedFlagSize (size : Z)
| MissingChecksum
| MissingFlags
| ChecksumsNotEnabled
| FlagsNotEnabled
| FileIndexOutOfBounds (i : nat)
| TagNotFound (name : bytes)
| BitMaskSizeMismatch
| EntryCountMismatch (header : Z) (found : nat)
| TagCountMismatch (header : Z) (found : nat)
| InvalidEncodingKeyLength (n : Z)
| BinRead.

Notation dresult := (result DownloadError).

Definition is_format_error (e : DownloadError) : bool :=
  match e with
  | InvalidMagic _ | UnsupportedVersion _ | InvalidEncodingKeyLength _ | BitMaskSizeMismatch | EntryCountMismatch _ _ | TagCountMismatch _ _ => true
  | _ => false
  end.

Definition is_version_error (e : DownloadError) : bool :=
  match e with FlagsNotSupportedInVersion _ | BasePriorityNotSupportedInVersion _ => true | _ => false end.

Definition is_builder_error (e : DownloadError) : bool :=
  match e with
  | FileIndexOutOfBounds _ | TagNotFound _ | ChecksumsNotEnabled | FlagsNotEnabled | MissingChecksum | MissingFlags | InvalidFlagSize _ _ => true
  | _ => false
  end.

(** ** Signed bytes *)

(** The [i8] with the bits of a [u8]; [wrap8] is the way back. *)
Definition as_i8 (b : Z) : Z := if b <? 128 then b else b - 256.

(** [i8::saturating_sub]. *)
Definition saturating_sub_i8 (a b : Z) : Z := Z.max (-128) (Z.min 127 (a - b)).

Definition read_i8 (input : bytes) : dresult (Z * bytes) := '(b, i) ← read_be BinRead 1 input; Ok (as_i8 b, i).

(** ** Header *)

Record DownloadHeaderBase := { magic : bytes; version_ : Z; ekey_length_ : Z; has_checksum_ : Z; entry_count_ : Z; tag_count_ : Z }.

(** The headers of version 2 and 3 repeat the fields of the base header. *)
Inductive DownloadHeader : Type :=
| V1 (h : DownloadHeaderBase)
| V2 (h : DownloadHeaderBase) (flag_size : Z)
| V3 (h : DownloadHeaderBase) (flag_size base_priority : Z) (reserved : bytes).

Definition base (h : DownloadHeader) : DownloadHeaderBase := match h with V1 b | V2 b _ | V3 b _ _ _ => b end.

Definition version (h : DownloadHeader) : Z := version_ (base h).
Definition entry_count (h : DownloadHeader) : Z := entry_count_ (base h).
Definition tag_count (h : DownloadHeader) : Z := tag_count_ (base h).
Definition has_checksum (h : DownloadHeader) : bool := negb (has_checksum_ (base h) =? 0).
Definition ekey_length (h : DownloadHeader) : Z := ekey_length_ (base h).
Definition flag_size (h : DownloadHeader) : Z := match h with V1 _ => 0 | V2 _ f | V3 _ f _ _ => f end.
Definition base_priority (h : DownloadHeader) : Z := match h with V3 _ _ p _ => p | _ => 0 end.

Definition bit_mask_size (h : DownloadHeader) : nat := Install.mask_size (Z.to_nat (entry_count h)).

Definition header_size (h : DownloadHeader) : nat := match h with V1 _ => 11 | V2 _ _ => 12 | V3 _ _ _ _ => 16 end.

Definition validate_header (h : DownloadHeader) : dresult unit :=
  if negb (bool_decide (magic (base h) = [68; 76])) then Err (InvalidMagic (magic (base h)))
  else if (version h <? 1) || (3 <? version h) then Err (UnsupportedVersion (version h))
  else if negb (ekey_length h =? 16) then Err (InvalidEncodingKeyLength (ekey_length h))
  else if 4 <? flag_size h then Err (UnsupportedFlagSize (flag_size h))
  else Ok tt.

Definition new_base (version entry_count tag_count : Z) (has_checksum : bool) : DownloadHeaderBase :=
  {| magic := [68; 76]; version_ := version; ekey_length_ := 16; has_checksum_ := if has_checksum then 1 else 0;
     entry_count_ := entry_count; tag_count_ := tag_count |}.

Definition new_v1 (entry_count tag_count : Z) (has_checksum : bool) : DownloadHeader := V1 (new_base 1 entry_count tag_count has_checksum).

Definition new_v2 (entry_count tag_count : Z) (has_checksum : bool) (flag_size : Z) : DownloadHeader :=
  V2 (new_base 2 entry_count tag_count has_checksum) flag_size.

Definition new_v3 (entry_count tag_count : Z) (has_checksum : bool) (flag_size base_priority : Z) : DownloadHeader :=
  V3 (new_base 3 entry_count tag_count has_checksum) flag_size base_priority [0; 0; 0].

Definition read_base (input : bytes) : dresult (DownloadHeaderBase * bytes) :=
  '(magic, i) ← read BinRead 2 input;
  if negb (bool_decide (magic = [68; 76])) then Err BinRead
  else
    '(version, i) ← read_be BinRead 1 i;
    '(ekey_length, i) ← read_be BinRead 1 i;
    '(has_checksum, i) ← read_be BinRead 1 i;
    '(entry_count, i) ← read_be BinRead 4 i;
    '(tag_count, i) ← read_be BinRead 2 i;
    Ok ({| magic := magic; version_ := version; ekey_length_ := ekey_length; has_checksum_ := has_checksum;
           entry_count_ := entry_count; tag_count_ := tag_count |}, i).

Definition read_header (input : bytes) : dresult (DownloadHeader * bytes) :=
  '(h, i) ← read_base input;
  match version_ h with
  | 1 => Ok (V1 h, i)
  | 2 => '(flag_size, i) ← read_be BinRead 1 i; Ok (V2 h flag_size, i)
  | 3 =>
      '(flag_size, i) ← read_be BinRead 1 i;
      '(base_priority, i) ← read_i8 i;
      '(reserved, i) ← read BinRead 3 i;
      Ok (V3 h flag_size base_priority reserved, i)
  | _ => Err BinRead
  end.

Definition write_base (h : DownloadHeaderBase) : bytes :=
  magic h ++ to_be_bytes 1 (version_ h) ++ to_be_bytes 1 (ekey_length_ h) ++ to_be_bytes 1 (has_checksum_ h) ++
  to_be_bytes 4 (entry_count_ h) ++ to_be_bytes 2 (tag_count_ h).

Definition write_header (h : DownloadHeader) : bytes :=
  match h with
  | V1 b => write_base b
  | V2 b f => write_base b ++ to_be_bytes 1 f
  | V3 b f p reserved => write_base b ++ to_be_bytes 1 f ++ to_be_bytes 1 (wrap8 p) ++ reserved
  end.

(** ** Priority categories *)

Inductive PriorityCategory : Type := Critical | Essential | High | Normal | Low.

#[export] Instance PriorityCategory_eq_dec : EqDecision PriorityCategory.
Proof. solve_decision. Defined.

Definition download_weight (c : PriorityCategory) : Z :=
  match c with Critical => 1 | Essential => 2 | High => 3 | Normal => 4 | Low => 5 end.

Definition category_of_weight (w : Z) : PriorityCategory :=
  match w with 1 => Critical | 2 => Essential | 3 => High | 4 => Normal | _ => Low end.

#[export] Instance PriorityCategory_countable : Countable PriorityCategory :=
  inj_countable' download_weight category_of_weight ltac:(by intros []).

(** [match] on ranges of an [i8]. *)
Definition from_priority (priority : Z) : PriorityCategory :=
  if priority <=? -1 then Critical
  else if priority =? 0 then Essential
  else if priority <=? 2 then High
  else if priority <=? 5 then Normal
  else Low.

Definition priority_range (c : PriorityCategory) : Z * Z :=
  match c with Critical => (-128, -1) | Essential => (0, 0) | High => (1, 2) | Normal => (3, 5) | Low => (6, 127) end.

Definition blocks_launch (c : PriorityCategory) : bool := match c with Critical | Essential => true | _ => false end.
Definition supports_streaming_ (c : PriorityCategory) : bool := match c with Normal | Low => true | _ => false end.
Definition all_ordered : list PriorityCategory := [Critical; Essential; High; Normal; Low].

(** ** File entries *)

Definition MAX_FILE_SIZE : Z := 0xFFFFFFFFFF.

(** [FileSize40::new]; the size itself stands for the [FileSize40]. *)
Definition file_size_new (size : Z) : dresult Z := if MAX_FILE_SIZE <? size then Err (FileSizeTooLarge size) else Ok size.

Definition is_large_file (size : Z) : bool := 0xFFFFFFFF <? size.

(** [FileSize40::from_bytes] on five bytes. *)
Definition size_from_bytes (b : bytes) : Z :=
  Z.lor (Z.shiftl (nth 0 b 0) 32)
    (Z.lor (Z.shiftl (nth 1 b 0) 24) (Z.lor (Z.shiftl (nth 2 b 0) 16) (Z.lor (Z.shiftl (nth 3 b 0) 8) (nth 4 b 0)))).

Definition size_to_bytes (s : Z) : bytes := [wrap8 (Z.shiftr s 32); wrap8 (Z.shiftr s 24); wrap8 (Z.shiftr s 16); wrap8 (Z.shiftr s 8); wrap8 s].

Record DownloadFileEntry := {
  encoding_key : bytes;
  file_size : Z;
  priority : Z;
  checksum : option Z;
  flags : option bytes;
}.

#[export] Instance DownloadFileEntry_eq_dec : EqDecision DownloadFileEntry.
Proof. solve_decision. Defined.

Definition entry_new (encoding_key : bytes) (size priority : Z) : dresult DownloadFileEntry :=
  s ← file_size_new size;
  Ok {| encoding_key := encoding_key; file_size := s; priority := priority; checksum := None; flags := None |}.

Definition with_checksum (e : DownloadFileEntry) (c : Z) : DownloadFileEntry :=
  {| encoding_key := encoding_key e; file_size := file_size e; priority := priority e; checksum := Some c; flags := flags e |}.

Definition with_entry_flags (e : DownloadFileEntry) (f : bytes) : DownloadFileEntry :=
  {| encoding_key := encoding_key e; file_size := file_size e; priority := priority e; checksum := checksum e; flags := Some f |}.

Definition effective_priority (h : DownloadHeader) (e : DownloadFileEntry) : Z :=
  match h with V3 _ _ _ _ => saturating_sub_i8 (priority e) (base_priority h) | _ => priority e end.

Definition priority_category (h : DownloadHeader) (e : DownloadFileEntry) : PriorityCategory := from_priority (effective_priority h e).

Definition is_high_priority (h : DownloadHeader) (e : DownloadFileEntry) : bool := effective_priority h e <=? 1.
Definition is_essential (h : DownloadHeader) (e : DownloadFileEntry) : bool := effective_priority h e <=? 0.
Definition is_critical (h : DownloadHeader) (e : DownloadFileEntry) : bool := effective_priority h e <? 0.

Definition download_rank (h : DownloadHeader) (e : DownloadFileEntry) : Z :=
  let effective := effective_priority h e in
  if effective <? 0 then wrap8 (128 + effective) else Z.min 255 (128 + wrap8 effective).

Definition serialized_size (h : DownloadHeader) (e : DownloadFileEntry) : nat :=
  ((16 + 5 + 1) + (if has_checksum h then 4 else 0) + Z.to_nat (flag_size h))%nat.

Definition validate_entry (h : DownloadHeader) (e : DownloadFileEntry) : dresult unit :=
  if has_checksum h && bool_decide (checksum e = None) then Err MissingChecksum
  else if negb (has_checksum h) && bool_decide (checksum e <> None) then Err ChecksumsNotEnabled
  else
    match flags e with
    | None => if flag_size h =? 0 then Ok tt else Err MissingFlags
    | Some f =>
        if (length f =? Z.to_nat (flag_size h))%nat then Ok tt
        else if flag_size h =? 0 then Err FlagsNotEnabled
        else Err (InvalidFlagSize (length f) (flag_size h))
    end.

(** [map_err] into the error of the binary reader or writer. *)
Definition bin_err {A} (r : dresult A) : dresult A := match r with Ok a => Ok a | Err _ => Err BinRead end.

Definition read_entry (h : DownloadHeader) (input : bytes) : dresult (DownloadFileEntry * bytes) :=
  '(key_bytes, i) ← read BinRead 16 input;
  '(size_bytes, i) ← read BinRead 5 i;
  '(priority, i) ← read_i8 i;
  '(checksum, i) ← (if has_checksum h then '(c, i) ← read_be BinRead 4 i; Ok (Some c, i) else Ok (None, i));
  '(flags, i) ← (if 0 <? flag_size h then '(f, i) ← read BinRead (Z.to_nat (flag_size h)) i; Ok (Some f, i) else Ok (None, i));
  let entry := {| encoding_key := key_bytes; file_size := size_from_bytes size_bytes; priority := priority; checksum := checksum; flags := flags |} in
  _ ← bin_err (validate_entry h entry);
  Ok (entry, i).

Definition write_entry (h : DownloadHeader) (e : DownloadFileEntry) : dresult bytes :=
  _ ← bin_err (validate_entry h e);
  c ← (if has_checksum h then match checksum e with Some c => Ok (to_be_bytes 4 c) | None => Err BinRead end else Ok []);
  f ← (if 0 <? flag_size h then match flags e with Some f => Ok f | None => Err BinRead end else Ok []);
  Ok (encoding_key e ++ size_to_bytes (file_size e) ++ to_be_bytes 1 (wrap8 (priority e)) ++ c ++ f).

(** ** What a tag means for a download *)

Section Tags.
Context (t : Install.InstallTag).

Definition affects_streaming : bool :=
  match Install.tag_type t with
  | Install.Platform | Install.Architecture | Install.Locale | Install.Feature | Install.Component | Install.Region => true
  | _ => false
  end.

Definition is_optional : bool :=
  match Install.tag_type t with Install.Option_ | Install.Alternate | Install.Expansion | Install.Content => true | _ => false end.

Definition is_required : bool :=
  match Install.tag_type t with Install.Platform | Install.Architecture | Install.Component | Install.Category => true | _ => false end.

Definition is_platform_specific : bool :=
  match Install.tag_type t with Install.Platform | Install.Architecture | Install.Device => true | _ => false end.

Definition is_locale_specific : bool := match Install.tag_type t with Install.Locale | Install.Region => true | _ => false end.

Definition is_feature_content : bool :=
  match Install.tag_type t with Install.Feature | Install.Content | Install.Expansion => true | _ => false end.

Definition download_priority_weight : Z :=
  match Install.tag_type t with
  | Install.Platform => 1 | Install.Architecture => 2 | Install.Component => 3 | Install.Category | Install.Unknown => 4
  | Install.Locale => 5 | Install.Region => 6 | Install.Feature => 7 | Install.Version => 8 | Install.Device => 9 | Install.Mode => 10
  | Install.Branch => 11 | Install.Optimization => 12 | Install.Content => 13 | Install.Expansion => 14 | Install.Alternate => 15
  | Install.Option_ => 16 | Install.Other _ => 17
  end.

Definition is_essential_for_download : bool := is_required.

Definition is_streamable : bool :=
  match Install.tag_type t with
  | Install.Content | Install.Feature | Install.Expansion | Install.Option_ | Install.Alternate => true
  | _ => false
  end.

Definition matches_filter (names : list bytes) : bool := bool_decide (Install.name t ∈ names).

Definition matches_platform (platform architecture : bytes) : bool :=
  match Install.tag_type t with
  | Install.Platform => bool_decide (Install.name t = platform)
  | Install.Architecture => bool_decide (Install.name t = architecture)
  | _ => true
  end.

Definition matches_locale (locale : bytes) (region : option bytes) : bool :=
  match Install.tag_type t with
  | Install.Locale => bool_decide (Install.name t = locale)
  | Install.Region => match region with Some r => bool_decide (Install.name t = r) | None => true end
  | _ => true
  end.

End Tags.

Record TagAnalysis := {
  total_tags : nat; platform_tags_ : nat; locale_tags : nat; optional_tags_ : nat; required_tags : nat; streamable_tags : nat;
}.

Definition count (p : Install.InstallTag -> bool) (ts : list Install.InstallTag) : nat := length (filter (fun t => p t = true) ts).

Definition analyze_tags (ts : list Install.InstallTag) : TagAnalysis :=
  {| total_tags := length ts; platform_tags_ := count is_platform_specific ts; locale_tags := count is_locale_specific ts;
     optional_tags_ := count is_optional ts; required_tags := count is_required ts; streamable_tags := count is_streamable ts |}.

(** ** Manifest *)

Record DownloadManifest := { header : DownloadHeader; entries : list DownloadFileEntry; tags : list Install.InstallTag }.

(** The errors of an entry's validation pass through unchanged: none is an index error. *)
Fixpoint validate_entries (h : DownloadHeader) (es : list DownloadFileEntry) : dresult unit :=
  match es with
  | [] => Ok tt
  | e :: es => _ ← validate_entry h e; validate_entries h es
  end.

Definition validate (m : DownloadManifest) : dresult unit :=
  _ ← validate_header (header m);
  if negb (Z.of_nat (length (entries m)) =? entry_count (header m)) then Err (EntryCountMismatch (entry_count (header m)) (length (entries m)))
  else if negb (Z.of_nat (length (tags m)) =? tag_count (header m)) then Err (TagCountMismatch (tag_count (header m)) (length (tags m)))
  else if negb (forallb (fun t => length (Install.bit_mask t) =? bit_mask_size (header m))%nat (tags m)) then Err BitMaskSizeMismatch
  else validate_entries (header m) (entries m).

(** The tag reader of install manifests, with the errors of this format. *)
Definition read_tag (entry_count : Z) (input : bytes) : dresult (Install.InstallTag * bytes) :=
  match Install.read_tag entry_count input with Ok r => Ok r | Err _ => Err BinRead end.

Definition parse (data : bytes) : dresult DownloadManifest :=
  '(header, i) ← read_header data;
  _ ← validate_header header;
  '(entries, i) ← read_many (Z.to_nat (entry_count header)) (read_entry header) i;
  '(tags, i) ← read_many (Z.to_nat (tag_count header)) (read_tag (entry_count header)) i;
  let manifest := {| header := header; entries := entries; tags := tags |} in
  _ ← validate manifest;
  Ok manifest.

Fixpoint write_entries (h : DownloadHeader) (es : list DownloadFileEntry) : dresult bytes :=
  match es with
  | [] => Ok []
  | e :: es => b ← write_entry h e; rest ← write_entries h es; Ok (b ++ rest)
  end.

Definition build (m : DownloadManifest) : dresult bytes :=
  _ ← validate m;
  es ← write_entries (header m) (entries m);
  Ok (write_header (header m) ++ es ++ concat (map Install.write_tag (tags m))).

(** [Iterator::sum] over [u64]. *)
Definition sum64 (l : list Z) : Z := fold_left (fun a s => wrap64 (a + s)) l 0.

Definition total_download_size (m : DownloadManifest) : Z := sum64 (map file_size (entries m)).

Record ManifestStats := {
  st_version : Z; st_entry_count : nat; st_tag_count : nat; st_total_size : Z; large_file_count : nat; has_checksums : bool; has_flags : bool;
  st_base_priority : Z;
}.

Definition stats (m : DownloadManifest) : ManifestStats :=
  {| st_version := version (header m); st_entry_count := length (entries m); st_tag_count := length (tags m);
     st_total_size := sum64 (map file_size (entries m)); large_file_count := length (filter (fun e => is_large_file (file_size e) = true) (entries m));
     has_checksums := has_checksum (header m); has_flags := 0 <? flag_size (header m); st_base_priority := base_priority (header m) |}.

Definition indexed (m : DownloadManifest) : list (nat * DownloadFileEntry) := imap pair (entries m).

Definition find_tag (m : DownloadManifest) (name : bytes) : option Install.InstallTag := find_by Install.name name (tags m).

Definition tag_names (m : DownloadManifest) : list bytes := map Install.name (tags m).

Definition entries_by_tag (m : DownloadManifest) (tag_name : bytes) : list (nat * DownloadFileEntry) :=
  match find_tag m tag_name with
  | Some tag => filter (fun e => Install.has_file tag e.1 = true) (indexed m)
  | None => []
  end.

Definition found_tags (m : DownloadManifest) (names : list bytes) : list Install.InstallTag := omap (find_tag m) names.

Definition entries_by_tags (m : DownloadManifest) (names : list bytes) : list (nat * DownloadFileEntry) :=
  if (length names =? 0)%nat then indexed m
  else
    let tags := found_tags m names in
    if negb (length tags =? length names)%nat then []
    else filter (fun e => forallb (fun tag => Install.has_file tag e.1) tags = true) (indexed m).

(** [order] is the order in which the map of groups is iterated. *)
Definition entries_by_tag_query (order : list (Install.TagType * list Install.InstallTag) -> list (Install.TagType * list Install.InstallTag))
    (m : DownloadManifest) (names : list bytes) : list (nat * DownloadFileEntry) :=
  if (length names =? 0)%nat then indexed m
  else
    let groups := fold_left (fun gs tag => Install.add_to_group tag gs) (found_tags m names) [] in
    if (length groups =? 0)%nat then []
    else
      let mask := Install.result_mask (Install.mask_size (length (entries m))) (order groups) in
      filter (fun e => Install.mask_has mask e.1 = true) (indexed m).

Definition entries_for_platform (m : DownloadManifest) (platform architecture : bytes) : list (nat * DownloadFileEntry) :=
  entries_by_tags m [platform; architecture].

Definition entries_by_priority (m : DownloadManifest) (category : PriorityCategory) : list (nat * DownloadFileEntry) :=
  filter (fun e => priority_category (header m) e.2 = category) (indexed m).

Definition entries_by_priority_range (m : DownloadManifest) (min_priority max_priority : Z) : list (nat * DownloadFileEntry) :=
  filter (fun e => min_priority <= effective_priority (header m) e.2 <= max_priority) (indexed m).

Definition platform_tags (m : DownloadManifest) : list Install.InstallTag := filter (fun t => is_platform_specific t = true) (tags m).
Definition optional_tags (m : DownloadManifest) : list Install.InstallTag := filter (fun t => is_optional t = true) (tags m).

Definition calculate_size_for_tags (m : DownloadManifest) (names : list bytes) : Z :=
  sum64 (map (fun e => file_size e.2) (entries_by_tags m names)).

Definition supports_streaming (m : DownloadManifest) : bool := existsb is_streamable (tags m).

Definition essential_download_size (m : DownloadManifest) : Z :=
  sum64 (map file_size (filter (fun e => is_essential (header m) e = true) (entries m))).

(** ** Analysis and download plans *)

Record CategoryStats := { file_count : nat; total_size : Z; max_file_size : Z; min_file_size : Z }.

Definition stats_new : CategoryStats := {| file_count := 0; total_size := 0; max_file_size := 0; min_file_size := 2 ^ 64 - 1 |}.

(** The update of a category in [add_entry], [update_file_size_bounds] included. *)
Definition count_file (size : Z) (s : CategoryStats) : CategoryStats :=
  {| file_count := file_count s + 1; total_size := wrap64 (total_size s + size); max_file_size := Z.max (max_file_size s) size;
     min_file_size := Z.min (min_file_size s) size |}.

Definition stats_finalize (s : CategoryStats) : CategoryStats :=
  {| file_count := file_count s; total_size := total_size s; max_file_size := max_file_size s;
     min_file_size := if (file_count s =? 0)%nat then 0 else min_file_size s |}.

Record PriorityAnalysis := {
  total_files : nat;
  a_total_size : Z;
  a_range : Z * Z;
  base_priority_adjustment : Z;
  categories : gmap PriorityCategory CategoryStats;
  essential_size : Z;
  streamable_size : Z;
}.

Definition analysis_new (base_priority : Z) : PriorityAnalysis :=
  {| total_files := 0; a_total_size := 0; a_range := (127, -128); base_priority_adjustment := base_priority; categories := ∅;
     essential_size := 0; streamable_size := 0 |}.

Definition analysis_add (category : PriorityCategory) (size effective : Z) (a : PriorityAnalysis) : PriorityAnalysis :=
  {| total_files := total_files a + 1;
     a_total_size := wrap64 (a_total_size a + size);
     a_range := (Z.min (a_range a).1 effective, Z.max (a_range a).2 effective);
     base_priority_adjustment := base_priority_adjustment a;
     categories := <[category := count_file size (default stats_new (categories a !! category))]> (categories a);
     essential_size := if blocks_launch category then wrap64 (essential_size a + size) else essential_size a;
     streamable_size := if blocks_launch category then streamable_size a
                        else if supports_streaming_ category then wrap64 (streamable_size a + size) else streamable_size a |}.

Definition analysis_finalize (a : PriorityAnalysis) : PriorityAnalysis :=
  if (total_files a =? 0)%nat then
    {| total_files := total_files a; a_total_size := a_total_size a; a_range := (0, 0); base_priority_adjustment := base_priority_adjustment a;
       categories := categories a; essential_size := essential_size a; streamable_size := streamable_size a |}
  else
    {| total_files := total_files a; a_total_size := a_total_size a; a_range := a_range a; base_priority_adjustment := base_priority_adjustment a;
       categories := stats_finalize <$> categories a; essential_size := essential_size a; streamable_size := streamable_size a |}.

Definition analyze_priorities (es : list DownloadFileEntry) (h : DownloadHeader) : PriorityAnalysis :=
  analysis_finalize
    (fold_left (fun a e => analysis_add (priority_category h e) (file_size e) (effective_priority h e) a) es (analysis_new (base_priority h))).

Record DownloadPlan := {
  plan_entries : list (nat * PriorityCategory * Z);
  plan_total_size : Z;
  plan_essential_size : Z;
  category_breakdown : gmap PriorityCategory (nat * Z);
}.

Definition plan_new : DownloadPlan := {| plan_entries := []; plan_total_size := 0; plan_essential_size := 0; category_breakdown := ∅ |}.

(** The body of the loop of [DownloadPlan::create]. *)
Definition plan_add (h : DownloadHeader) (max_priority : option Z) (required_categories : option (list PriorityCategory))
    (p : DownloadPlan) (ie : nat * DownloadFileEntry) : DownloadPlan :=
  let effective := effective_priority h ie.2 in
  let category := priority_category h ie.2 in
  if match max_priority with Some max_pri => max_pri <? effective | None => false end then p
  else if match required_categories with Some cats => negb (bool_decide (category ∈ cats)) | None => false end then p
  else
    let size := file_size ie.2 in
    let cs := default (0%nat, 0) (category_breakdown p !! category) in
    {| plan_entries := plan_entries p ++ [(ie.1, category, effective)];
       plan_total_size := wrap64 (plan_total_size p + size);
       plan_essential_size := if blocks_launch category then wrap64 (plan_essential_size p + size) else plan_essential_size p;
       category_breakdown := <[category := ((cs.1 + 1)%nat, wrap64 (cs.2 + size))]> (category_breakdown p) |}.

Definition plan_create (es : list DownloadFileEntry) (h : DownloadHeader) (max_priority : option Z)
    (required_categories : option (list PriorityCategory)) : DownloadPlan :=
  let p := fold_left (plan_add h max_priority required_categories) (imap pair es) plan_new in
  {| plan_entries := sort_by_key (fun x => (x.2, x.1.1)) (plan_entries p); plan_total_size := plan_total_size p;
     plan_essential_size := plan_essential_size p; category_breakdown := category_breakdown p |}.

Definition essential_only (es : list DownloadFileEntry) (h : DownloadHeader) : DownloadPlan := plan_create es h (Some 0) None.
Definition critical_only (es : list DownloadFileEntry) (h : DownloadHeader) : DownloadPlan := plan_create es h (Some (-1)) None.
Definition by_categories (es : list DownloadFileEntry) (h : DownloadHeader) (cats : list PriorityCategory) : DownloadPlan :=
  plan_create es h None (Some cats).

(** ** Builder *)

Record DownloadManifestBuilder := {
  b_version : Z;
  b_entries : list DownloadFileEntry;
  b_tags : list Install.InstallTag;
  b_has_checksum : bool;
  b_flag_size : Z;
  b_base_priority : Z;
  tag_name_to_index : gmap bytes nat;
}.

Definition builder_new (version : Z) : dresult DownloadManifestBuilder :=
  if (version <? 1) || (3 <? version) then Err (UnsupportedVersion version)
  else Ok {| b_version := version; b_entries := []; b_tags := []; b_has_checksum := false; b_flag_size := 0; b_base_priority := 0;
             tag_name_to_index := ∅ |}.

(** The builder with other entries, tags and index. *)
Definition with_content (b : DownloadManifestBuilder) (es : list DownloadFileEntry) (ts : list Install.InstallTag) (index : gmap bytes nat) :
    DownloadManifestBuilder :=
  {| b_version := b_version b; b_entries := es; b_tags := ts; b_has_checksum := b_has_checksum b; b_flag_size := b_flag_size b;
     b_base_priority := b_base_priority b; tag_name_to_index := index |}.

Definition with_entries (b : DownloadManifestBuilder) (es : list DownloadFileEntry) : DownloadManifestBuilder :=
  with_content b es (b_tags b) (tag_name_to_index b).

(** The builder with another configuration. *)
Definition with_config (b : DownloadManifestBuilder) (has_checksum : bool) (flag_size base_priority : Z) : DownloadManifestBuilder :=
  {| b_version := b_version b; b_entries := b_entries b; b_tags := b_tags b; b_has_checksum := has_checksum; b_flag_size := flag_size;
     b_base_priority := base_priority; tag_name_to_index := tag_name_to_index b |}.

Definition with_checksums (b : DownloadManifestBuilder) (enable : bool) : DownloadManifestBuilder :=
  with_config b enable (b_flag_size b) (b_base_priority b).

Definition with_flags (b : DownloadManifestBuilder) (flag_size : Z) : dresult DownloadManifestBuilder :=
  if (b_version b <? 2) && (0 <? flag_size) then Err (FlagsNotSupportedInVersion (b_version b))
  else if 4 <? flag_size then Err (UnsupportedFlagSize flag_size)
  else Ok (with_config b (b_has_checksum b) flag_size (b_base_priority b)).

Definition with_base_priority (b : DownloadManifestBuilder) (base_priority : Z) : dresult DownloadManifestBuilder :=
  if (b_version b <? 3) && negb (base_priority =? 0) then Err (BasePriorityNotSupportedInVersion (b_version b))
  else Ok (with_config b (b_has_checksum b) (b_flag_size b) base_priority).

Definition add_file (b : DownloadManifestBuilder) (encoding_key : bytes) (size priority : Z) : dresult DownloadManifestBuilder :=
  s ← file_size_new size;
  let entry := {| encoding_key := encoding_key; file_size := s; priority := priority; checksum := None;
                  flags := if 0 <? b_flag_size b then Some (zeros (Z.to_nat (b_flag_size b))) else None |} in
  let es := b_entries b ++ [entry] in
  Ok (with_content b es (map (Install.grow_mask (Install.mask_size (length es))) (b_tags b)) (tag_name_to_index b)).

Definition add_tag (b : DownloadManifestBuilder) (name : bytes) (tag_type : Install.TagType) : DownloadManifestBuilder :=
  with_content b (b_entries b) (b_tags b ++ [Install.tag_new name tag_type (length (b_entries b))])
    (<[name := length (b_tags b)]> (tag_name_to_index b)).

(** [self.entries.get_mut(i).ok_or(FileIndexOutOfBounds)], then a change of the entry. *)
Definition change_entry (b : DownloadManifestBuilder) (file_index : nat) (f : DownloadFileEntry -> DownloadFileEntry) :
    dresult DownloadManifestBuilder :=
  match b_entries b !! file_index with
  | Some _ => Ok (with_entries b (alter f file_index (b_entries b)))
  | None => Err (FileIndexOutOfBounds file_index)
  end.

Definition set_file_checksum (b : DownloadManifestBuilder) (file_index : nat) (c : Z) : dresult DownloadManifestBuilder :=
  if negb (b_has_checksum b) then Err ChecksumsNotEnabled else change_entry b file_index (fun e => with_checksum e c).

Definition set_file_flags (b : DownloadManifestBuilder) (file_index : nat) (f : bytes) : dresult DownloadManifestBuilder :=
  if b_flag_size b =? 0 then Err FlagsNotEnabled
  else if negb (length f =? Z.to_nat (b_flag_size b))%nat then Err (InvalidFlagSize (length f) (b_flag_size b))
  else change_entry b file_index (fun e => with_entry_flags e f).

(** The two operations that find their tag by name; [self.tags[tag_index]] panics past
    the end. *)
Definition change_by_name (f : Install.InstallTag -> nat -> Install.InstallTag) (b : DownloadManifestBuilder) (file_index : nat) (tag_name : bytes) :
    outcome (dresult DownloadManifestBuilder) :=
  if (length (b_entries b) <=? file_index)%nat then Ret (Err (FileIndexOutOfBounds file_index))
  else
    match tag_name_to_index b !! tag_name with
    | None => Ret (Err (TagNotFound tag_name))
    | Some tag_index =>
        ts ← vec_modify (b_tags b) (Z.of_nat tag_index) (fun t => f t file_index);
        Ret (Ok (with_content b (b_entries b) ts (tag_name_to_index b)))
    end.

Definition associate_file_with_tag := change_by_name Install.tag_add_file.
Definition disassociate_file_from_tag := change_by_name Install.tag_remove_file.

(** The optional steps of [configure_file] and [add_file_with_properties]. *)
Definition if_some {A} (o : option A) (f : DownloadManifestBuilder -> A -> dresult DownloadManifestBuilder) (b : DownloadManifestBuilder) :
    dresult DownloadManifestBuilder :=
  match o with Some a => f b a | None => Ok b end.

Definition configure_file (b : DownloadManifestBuilder) (file_index : nat) (c : option Z) (f : option bytes) : dresult DownloadManifestBuilder :=
  b ← if_some c (fun b => set_file_checksum b file_index) b;
  if_some f (fun b => set_file_flags b file_index) b.

Fixpoint associate_file_with_tags (b : DownloadManifestBuilder) (file_index : nat) (tag_names : list bytes) :
    outcome (dresult DownloadManifestBuilder) :=
  match tag_names with
  | [] => Ret (Ok b)
  | n :: tag_names => b ←? associate_file_with_tag b file_index n; associate_file_with_tags b file_index tag_names
  end.

Definition add_file_with_properties (b : DownloadManifestBuilder) (encoding_key : bytes) (size priority : Z) (c : option Z) (f : option bytes)
    (tag_names : option (list bytes)) : outcome (dresult DownloadManifestBuilder) :=
  let file_index := length (b_entries b) in
  b ←? Ret (add_file b encoding_key size priority);
  b ←? Ret (if_some c (fun b => set_file_checksum b file_index) b);
  b ←? Ret (if_some f (fun b => set_file_flags b file_index) b);
  match tag_names with Some names => associate_file_with_tags b file_index names | None => Ret (Ok b) end.

Definition builder_has_tag (b : DownloadManifestBuilder) (tag_name : bytes) : bool := bool_decide (is_Some (tag_name_to_index b !! tag_name)).

(** [order] is the order in which the keys of the map come. *)
Definition builder_tag_names (order : list bytes -> list bytes) (b : DownloadManifestBuilder) : list bytes :=
  order (map_to_list (tag_name_to_index b)).*1.

Record BuilderConfig := {
  c_version : Z; c_entry_count : nat; c_tag_count : nat; c_has_checksum : bool; c_flag_size : Z; c_base_priority : Z;
}.

Definition config_summary (b : DownloadManifestBuilder) : BuilderConfig :=
  {| c_version := b_version b; c_entry_count := length (b_entries b); c_tag_count := length (b_tags b); c_has_checksum := b_has_checksum b;
     c_flag_size := b_flag_size b; c_base_priority := b_base_priority b |}.

Definition is_valid_for_version (c : BuilderConfig) (version : Z) : bool :=
  match version with
  | 1 => (c_flag_size c =? 0) && (c_base_priority c =? 0)
  | 2 => c_base_priority c =? 0
  | 3 => true
  | _ => false
  end.

Definition minimum_version_required (c : BuilderConfig) : Z :=
  if negb (c_base_priority c =? 0) then 3 else if 0 <? c_flag_size c then 2 else 1.

(** The checks of [validate] on one entry. *)
Definition builder_check_entry (b : DownloadManifestBuilder) (e : DownloadFileEntry) : dresult unit :=
  if b_has_checksum b && bool_decide (checksum e = None) then Err MissingChecksum
  else if negb (b_has_checksum b) && bool_decide (checksum e <> None) then Err ChecksumsNotEnabled
  else if (0 <? b_flag_size b) && bool_decide (flags e = None) then Err MissingFlags
  else if (b_flag_size b =? 0) && bool_decide (flags e <> None) then Err FlagsNotEnabled
  else
    match flags e with
    | Some f => if (length f =? Z.to_nat (b_flag_size b))%nat then Ok tt else Err (InvalidFlagSize (length f) (b_flag_size b))
    | None => Ok tt
    end.

Fixpoint builder_check_entries (b : DownloadManifestBuilder) (es : list DownloadFileEntry) : dresult unit :=
  match es with
  | [] => Ok tt
  | e :: es => _ ← builder_check_entry b e; builder_check_entries b es
  end.

Definition builder_validate (b : DownloadManifestBuilder) : dresult unit :=
  if (b_version b <? 2) && (0 <? b_flag_size b) then Err (FlagsNotSupportedInVersion (b_version b))
  else if (b_version b <? 3) && negb (b_base_priority b =? 0) then Err (BasePriorityNotSupportedInVersion (b_version b))
  else
    _ ← builder_check_entries b (b_entries b);
    if forallb (fun t => length (Install.bit_mask t) =? Install.mask_size (length (b_entries b)))%nat (b_tags b) then Ok tt
    else Err BitMaskSizeMismatch.

Definition builder_build (b : DownloadManifestBuilder) : dresult DownloadManifest :=
  _ ← builder_validate b;
  let n := wrap32 (Z.of_nat (length (b_entries b))) in
  let k := wrap 16 (Z.of_nat (length (b_tags b))) in
  header ← match b_version b with
           | 1 => Ok (new_v1 n k (b_has_checksum b))
           | 2 => Ok (new_v2 n k (b_has_checksum b) (b_flag_size b))
           | 3 => Ok (new_v3 n k (b_has_checksum b) (b_flag_size b) (b_base_priority b))
           | v => Err (UnsupportedVersion v)
           end;
  let manifest := {| header := header; entries := b_entries b; tags := b_tags b |} in
  _ ← validate manifest;
  Ok manifest.

(** The map of names; the last tag of a name wins. *)
Definition index_of_tags (ts : list Install.InstallTag) : gmap bytes nat :=
  fold_left (fun names t => <[Install.name t.2 := t.1]> names) (imap pair ts) ∅.

Definition from_manifest (m : DownloadManifest) : DownloadManifestBuilder :=
  {| b_version := version (header m); b_entries := entries m; b_tags := tags m; b_has_checksum := has_checksum (header m);
     b_flag_size := flag_size (header m); b_base_priority := base_priority (header m); tag_name_to_index := index_of_tags (tags m) |}.

(** One bit of the loops of [remove_file]: [st] is the new mask and the next index in
    it; a new mask that is too short is extended when a bit is set. *)
Definition shift_bit (mask : bytes) (file_index : nat) (st : bytes * nat) (original_index : nat) : bytes * nat :=
  let '(new_mask, bit_index) := st in
  if (original_index =? file_index)%nat then st
  else (if Install.mask_has mask original_index then Install.set_bit new_mask bit_index else new_mask, S bit_index).

(** The two loops, over the bytes of the mask and the bits of a byte. *)
Definition without_bit (mask : bytes) (file_index : nat) : bytes :=
  (fold_left (fun st byte_index =>
     fold_left (fun st bit_in_byte => shift_bit mask file_index st (byte_index * 8 + bit_in_byte)%nat) (seq 0 8) st)
     (seq 0 (length mask)) ([], 0%nat)).1.

Definition remove_file (b : DownloadManifestBuilder) (file_index : nat) : bool * DownloadManifestBuilder :=
  if (length (b_entries b) <=? file_index)%nat then (false, b)
  else
    let es := delete file_index (b_entries b) in
    let expected_size := Install.mask_size (length es) in
    let ts := map (fun t => Install.with_mask t (Install.resize expected_size (without_bit (Install.bit_mask t) file_index))) (b_tags b) in
    (true, with_content b es ts (tag_name_to_index b)).

(** [Iterator::position]. *)
Definition find_file_index (b : DownloadManifestBuilder) (key : bytes) : option nat :=
  fst <$> list_find (fun e => encoding_key e = key) (b_entries b).

Definition builder_has_file (b : DownloadManifestBuilder) (key : bytes) : bool := existsb (fun e => bool_decide (encoding_key e = key)) (b_entries b).

Definition remove_file_by_key (b : DownloadManifestBuilder) (key : bytes) : bool * DownloadManifestBuilder :=
  match find_file_index b key with
  | Some index => remove_file b index
  | None => (false, b)
  end.

(** [Vec::remove] panics past the end. *)
Definition remove_tag (b : DownloadManifestBuilder) (tag_name : bytes) : outcome (bool * DownloadManifestBuilder) :=
  match tag_name_to_index b !! tag_name with
  | None => Ret (false, b)
  | Some index =>
      if (length (b_tags b) <=? index)%nat then Panic
      else
        let ts := delete index (b_tags b) in
        Ret (true, with_content b (b_entries b) ts (index_of_tags ts))
  end.

Definition clear (b : DownloadManifestBuilder) : DownloadManifestBuilder := with_content b [] [] ∅.

Definition get_file (b : DownloadManifestBuilder) (file_index : nat) : option DownloadFileEntry := b_entries b !! file_index.

(** [get_file_mut] lends out an entry: [f] is what its borrower does with it. *)
Definition get_file_mut (b : DownloadManifestBuilder) (file_index : nat) (f : DownloadFileEntry -> DownloadFileEntry) : DownloadManifestBuilder :=
  with_entries b (alter f file_index (b_entries b)).

Definition set_key (k : bytes) (e : DownloadFileEntry) : DownloadFileEntry :=
  {| encoding_key := k; file_size := file_size e; priority := priority e; checksum := checksum e; flags := flags e |}.
Definition set_size (s : Z) (e : DownloadFileEntry) : DownloadFileEntry :=
  {| encoding_key := encoding_key e; file_size := s; priority := priority e; checksum := checksum e; flags := flags e |}.
Definition set_priority (p : Z) (e : DownloadFileEntry) : DownloadFileEntry :=
  {| encoding_key := encoding_key e; file_size := file_size e; priority := p; checksum := checksum e; flags := flags e |}.

Definition update_file_key (b : DownloadManifestBuilder) (file_index : nat) (k : bytes) : bool * DownloadManifestBuilder :=
  match change_entry b file_index (set_key k) with Ok b => (true, b) | Err _ => (false, b) end.

Definition update_file_size (b : DownloadManifestBuilder) (file_index : nat) (new_size : Z) : dresult DownloadManifestBuilder :=
  match b_entries b !! file_index with
  | None => Err (FileIndexOutOfBounds file_index)
  | Some _ => s ← file_size_new new_size; change_entry b file_index (set_size s)
  end.

Definition update_file_priority (b : DownloadManifestBuilder) (file_index : nat) (p : Z) : bool * DownloadManifestBuilder :=
  match change_entry b file_index (set_priority p) with Ok b => (true, b) | Err _ => (false, b) end.

(** [self.tags[tag_index]] panics past the end. *)
Definition get_files_for_tag (b : DownloadManifestBuilder) (tag_name : bytes) : outcome (option (list nat)) :=
  match tag_name_to_index b !! tag_name with
  | None => Ret None
  | Some tag_index =>
      tag ← vec_get (b_tags b) (Z.of_nat tag_index);
      Ret (Some (Install.get_files tag (length (b_entries b))))
  end.

Definition get_tags_for_file (b : DownloadManifestBuilder) (file_index : nat) : list bytes :=
  map Install.name (filter (fun t => Install.has_file t file_index = true) (b_tags b)).

Definition basic : dresult DownloadManifestBuilder := builder_new 1.
Definition with_flags_support (flag_size : Z) : dresult DownloadManifestBuilder := b ← builder_new 2; with_flags b flag_size.
Definition full_featured (flag_size base_priority : Z) : dresult DownloadManifestBuilder :=
  b ← builder_new 3; b ← with_flags b flag_size; with_base_priority b base_priority.
Definition essential_content : dresult DownloadManifestBuilder := full_featured 0 (-10).
Definition streaming_optimized : dresult DownloadManifestBuilder := full_featured 1 (-5).

End Download.
