(* ===== verification/DownloadTheorems.v ===== *)
(** * Download manifests: the theorems

    A manifest and its bytes determine each other, in all three versions; every run of
    the builder is the run of the operations on lists of files, and builds exactly when
    the files are complete; a download plan is the sorted selection of the entries. *)

From S2P Require Import Prelude Bytes Cursor Collections Install InstallTheorems Download.
Import Download.
Local Open Scope Z_scope.

(** ** The binary format *)

Definition i8 (p : Z) : Prop := -128 <= p < 128.

Lemma as_i8_wrap p : i8 p -> as_i8 (wrap8 p) = p.
Proof.
  unfold i8, as_i8, wrap8, wrap. intros Hp. change (2 ^ 8) with 256. destruct (Z.le_gt_cases 0 p).
  - rewrite Z.mod_small, (proj2 (Z.ltb_lt _ _)) by lia. done.
  - replace (p mod 256) with (p + 256) by (apply (Z.mod_unique_pos _ _ (-1)); lia). rewrite (proj2 (Z.ltb_ge _ _)) by lia. lia.
Qed.

Lemma wrap_as_i8 b : u8 b -> wrap8 (as_i8 b) = b /\ i8 (as_i8 b).
Proof.
  unfold in_u, i8, as_i8, wrap8, wrap. intros Hb. change (2 ^ 8) with 256 in *. destruct (Z.ltb_spec b 128).
  - rewrite Z.mod_small by lia. lia.
  - split; [|lia]. symmetry. apply (Z.mod_unique_pos _ _ (-1)); lia.
Qed.

Lemma read_i8_app p rest : i8 p -> read_i8 (to_be_bytes 1 (wrap8 p) ++ rest) = Ok (p, rest).
Proof. intros Hp. unfold read_i8. rewrite (read_be_app _ 1 8) by (done || apply wrap8_range). cbn [mbind result_bind]. by rewrite as_i8_wrap. Qed.

Lemma read_i8_Ok input p rest :
  is_bytes input -> read_i8 input = Ok (p, rest) -> input = to_be_bytes 1 (wrap8 p) ++ rest /\ is_bytes rest /\ i8 p.
Proof.
  intros Hb. unfold read_i8. read_back. intros [= <- <-]. destruct (wrap_as_i8 v Hu) as [-> ?]. done.
Qed.

Lemma size_to_be s : size_to_bytes s = to_be_bytes 5 s.
Proof.
  unfold size_to_bytes, to_be_bytes, wrap8, wrap. cbn [to_le_bytes]. change 256 with (2 ^ 8).
  rewrite !Z.shiftr_div_pow2, !Z.div_div by lia. done.
Qed.

Lemma size_from_be b : is_array 5 b -> size_from_bytes b = from_be_bytes b.
Proof.
  intros [Hl Hb]. destruct b as [|b0 [|b1 [|b2 [|b3 [|b4 [|]]]]]]; try done. unfold is_bytes in Hb. rewrite !Forall_cons in Hb.
  destruct Hb as (H0 & H1 & H2 & H3 & H4 & _). unfold in_u in *. unfold size_from_bytes, from_be_bytes. cbn [nth reverse rev_append from_le_bytes].
  rewrite (lor_shiftl_add b3 b4 8), (lor_shiftl_add b2 _ 16), (lor_shiftl_add b1 _ 24), (lor_shiftl_add b0 _ 32) by (unfold in_u; lia).
  unfold reverse. cbn [rev_append from_le_bytes]. lia.
Qed.

Lemma size_roundtrip s : in_u 40 s -> size_from_bytes (size_to_bytes s) = s.
Proof.
  intros Hs. rewrite size_to_be, size_from_be by (split; [apply length_to_be_bytes|apply to_be_bytes_bytes]). by apply (be_roundtrip 5 40).
Qed.

Lemma size_back b : is_array 5 b -> size_to_bytes (size_from_bytes b) = b /\ in_u 40 (size_from_bytes b).
Proof.
  intros Hb. rewrite size_from_be, size_to_be by done. destruct Hb as [Hl Hb]. split; [|by apply (from_be_bytes_in_u 5)].
  rewrite <- Hl. by apply to_from_be_bytes.
Qed.

Definition base_ok (v : Z) (h : DownloadHeaderBase) : Prop :=
  magic h = [68; 76] /\ version_ h = v /\ u8 (ekey_length_ h) /\ u8 (has_checksum_ h) /\ u32 (entry_count_ h) /\ u16 (tag_count_ h).

Definition header_ok (h : DownloadHeader) : Prop :=
  match h with
  | V1 b => base_ok 1 b
  | V2 b f => base_ok 2 b /\ u8 f
  | V3 b f p reserved => base_ok 3 b /\ u8 f /\ i8 p /\ length reserved = 3%nat
  end.

Lemma read_write_base v h rest : u8 v -> base_ok v h -> read_base (write_base h ++ rest) = Ok (h, rest).
Proof.
  intros Hv (Hm & <- & ? & ? & ? & ?). unfold write_base, read_base. rewrite <- !app_assoc, read_app by (by rewrite Hm). cbn [mbind result_bind].
  rewrite bool_decide_eq_true_2 by done. cbn [negb]. repeat read_next. by destruct h.
Qed.

Lemma read_base_Ok input h rest :
  is_bytes input -> read_base input = Ok (h, rest) -> input = write_base h ++ rest /\ is_bytes rest /\ base_ok (version_ h) h.
Proof.
  intros Hb. unfold read_base. destruct (read BinRead 2 input) as [[m i]|] eqn:E; [|done]. cbn [mbind result_bind].
  apply read_Ok in E as [-> Hm]. apply is_bytes_app in Hb as [_ Hb]. case_bool_decide as Em; [|done]. cbn [negb]. read_back.
  intros [= <- <-]. unfold write_base, base_ok. cbn [magic version_ ekey_length_ has_checksum_ entry_count_ tag_count_]. rewrite <- !app_assoc. by split_and!.
Qed.

Lemma read_write_download_header h rest : header_ok h -> read_header (write_header h ++ rest) = Ok (h, rest).
Proof.
  destruct h as [b|b f|b f p r]; cbn [header_ok write_header]; unfold read_header.
  - intros Hb. rewrite (read_write_base 1) by done. cbn [mbind result_bind]. destruct Hb as (_ & -> & _). done.
  - intros [Hb Hf]. rewrite <- app_assoc, (read_write_base 2) by done. cbn [mbind result_bind]. destruct Hb as (_ & -> & _). by read_next.
  - intros (Hb & Hf & Hp & Hr). rewrite <- !app_assoc, (read_write_base 3) by done. cbn [mbind result_bind]. destruct Hb as (_ & -> & _). read_next.
    rewrite read_i8_app by done. cbn [mbind result_bind]. by rewrite read_app.
Qed.

Lemma read_download_header_Ok input h rest :
  is_bytes input -> read_header input = Ok (h, rest) -> input = write_header h ++ rest /\ is_bytes rest /\ header_ok h.
Proof.
  intros Hb. unfold read_header. destruct (read_base input) as [[b i]|] eqn:E; [|done]. cbn [mbind result_bind].
  apply read_base_Ok in E as (-> & Hi & Hok); [|done]. destruct (version_ b) as [|[q|[q|q|]|]|] eqn:Ev; try done.
  - destruct q as [q|q|]; try done. read_back. destruct (read_i8 i0) as [[p i1]|] eqn:Ep; [|done]. cbn [mbind result_bind].
    apply read_i8_Ok in Ep as (-> & Hi1 & Hp); [|done]. destruct (read BinRead 3 i1) as [[r i2]|] eqn:Er; [|done]. cbn [mbind result_bind].
    apply read_Ok in Er as [-> Hl]. apply is_bytes_app in Hi1 as [_ Hi2]. intros [= <- <-]. cbn [write_header header_ok]. rewrite <- !app_assoc. by split_and!.
  - read_back. intros [= <- <-]. cbn [write_header header_ok]. rewrite <- app_assoc. by split_and!.
  - intros [= <- <-]. by split_and!.
Qed.

Definition checksum_ok (h : DownloadHeader) (e : DownloadFileEntry) : Prop :=
  if has_checksum h then exists c, checksum e = Some c /\ u32 c else checksum e = None.

Definition flags_ok (h : DownloadHeader) (e : DownloadFileEntry) : Prop :=
  if 0 <? flag_size h then exists f, flags e = Some f /\ length f = Z.to_nat (flag_size h) else flags e = None.

Definition entry_ok (h : DownloadHeader) (e : DownloadFileEntry) : Prop :=
  length (encoding_key e) = 16%nat /\ in_u 40 (file_size e) /\ i8 (priority e) /\ checksum_ok h e /\ flags_ok h e.

Lemma entry_ok_validate h e : 0 <= flag_size h -> checksum_ok h e -> flags_ok h e -> validate_entry h e = Ok tt.
Proof.
  unfold checksum_ok, flags_ok, validate_entry. intros H0 Hc Hf.
  assert (has_checksum h && bool_decide (checksum e = None) = false /\ negb (has_checksum h) && bool_decide (checksum e <> None) = false) as [-> ->].
  { destruct (has_checksum h); [destruct Hc as (c & -> & _)|rewrite Hc]; done. }
  destruct (Z.ltb_spec 0 (flag_size h)).
  - destruct Hf as (f & -> & Hl). by rewrite Hl, Nat.eqb_refl.
  - rewrite Hf. by rewrite (proj2 (Z.eqb_eq _ _)) by lia.
Qed.

(** The bytes of an entry that is in order. *)
Definition entry_bytes (h : DownloadHeader) (e : DownloadFileEntry) : bytes :=
  encoding_key e ++ size_to_bytes (file_size e) ++ to_be_bytes 1 (wrap8 (priority e)) ++
  (if has_checksum h then to_be_bytes 4 (default 0 (checksum e)) else []) ++ (if 0 <? flag_size h then default [] (flags e) else []).

Lemma write_entry_Ok h e : 0 <= flag_size h -> checksum_ok h e -> flags_ok h e -> write_entry h e = Ok (entry_bytes h e).
Proof.
  intros H0 Hc Hf. unfold write_entry. rewrite entry_ok_validate by done. cbn [bin_err mbind result_bind]. unfold entry_bytes, checksum_ok, flags_ok in *.
  destruct (has_checksum h); [destruct Hc as (c & -> & _)|]; (destruct (0 <? flag_size h); [destruct Hf as (f & -> & _)|]); done.
Qed.

Lemma read_write_download_entry h e rest : 0 <= flag_size h -> entry_ok h e -> read_entry h (entry_bytes h e ++ rest) = Ok (e, rest).
Proof.
  intros H0 (Hk & Hs & Hp & Hc & Hf). unfold read_entry, entry_bytes. rewrite <- !app_assoc, read_app by done. cbn [mbind result_bind].
  rewrite read_app by done. cbn [mbind result_bind]. rewrite read_i8_app by done. cbn [mbind result_bind]. rewrite size_roundtrip by done.
  pose proof (entry_ok_validate h e H0 Hc Hf) as Hv. unfold checksum_ok, flags_ok in *.
  assert ((if has_checksum h then '(c, i) ← read_be BinRead 4 ((if has_checksum h then to_be_bytes 4 (default 0 (checksum e)) else []) ++
     (if 0 <? flag_size h then default [] (flags e) else []) ++ rest); Ok (Some c, i) else
     Ok (None, (if has_checksum h then to_be_bytes 4 (default 0 (checksum e)) else []) ++ (if 0 <? flag_size h then default [] (flags e) else []) ++ rest))
     = @Ok DownloadError _ (checksum e, (if 0 <? flag_size h then default [] (flags e) else []) ++ rest)) as ->.
  { destruct (has_checksum h); [destruct Hc as (c & -> & Hc); cbn [from_option]; unfold id; by read_next|by rewrite Hc]. }
  cbn [mbind result_bind].
  assert ((if 0 <? flag_size h then '(f, i) ← read BinRead (Z.to_nat (flag_size h)) ((if 0 <? flag_size h then default [] (flags e) else []) ++ rest); Ok (Some f, i)
     else Ok (None, (if 0 <? flag_size h then default [] (flags e) else []) ++ rest)) = @Ok DownloadError _ (flags e, rest)) as ->.
  { destruct (0 <? flag_size h); [destruct Hf as (f & -> & Hf); cbn [from_option]; unfold id; by rewrite read_app|by rewrite Hf]. }
  cbn [mbind result_bind]. replace (Build_DownloadFileEntry _ _ _ _ _) with e by (by destruct e). by rewrite Hv.
Qed.

Lemma read_download_entry_Ok h input e rest :
  is_bytes input -> read_entry h input = Ok (e, rest) -> input = entry_bytes h e ++ rest /\ is_bytes rest /\ entry_ok h e.
Proof.
  intros Hb. unfold read_entry. destruct (read BinRead 16 input) as [[k i]|] eqn:E1; [|done]. cbn [mbind result_bind].
  apply read_Ok in E1 as [-> Hk]. apply is_bytes_app in Hb as [_ Hb]. destruct (read BinRead 5 i) as [[s i1]|] eqn:E2; [|done]. cbn [mbind result_bind].
  apply read_Ok in E2 as [-> Hs]. apply is_bytes_app in Hb as [Hsb Hb]. destruct (read_i8 i1) as [[p i2]|] eqn:E3; [|done]. cbn [mbind result_bind].
  apply read_i8_Ok in E3 as (-> & Hb2 & Hp); [|done]. destruct (size_back s (conj Hs Hsb)) as [Es Hsz].
  destruct (if has_checksum h then _ else _) as [[c i3]|] eqn:E4; [|done]. cbn [mbind result_bind].
  assert (i2 = (if has_checksum h then to_be_bytes 4 (default 0 c) else []) ++ i3 /\ is_bytes i3 /\
          if has_checksum h then exists c', c = Some c' /\ u32 c' else c = None) as (-> & Hb3 & Hc).
  { destruct (has_checksum h); [|by injection E4 as <- <-]. revert E4. read_back. intros [= <- <-]. split_and!; [done..|]. by eexists. }
  destruct (if 0 <? flag_size h then _ else _) as [[f i4]|] eqn:E5; [|done]. cbn [mbind result_bind].
  assert (i3 = (if 0 <? flag_size h then default [] f else []) ++ i4 /\ is_bytes i4 /\
          if 0 <? flag_size h then exists f', f = Some f' /\ length f' = Z.to_nat (flag_size h) else f = None) as (-> & Hb4 & Hf).
  { destruct (0 <? flag_size h); [|by injection E5 as <- <-]. destruct (read BinRead _ i3) as [[f' i']|] eqn:Ef; [|done]. cbn [mbind result_bind] in E5.
    injection E5 as <- <-. apply read_Ok in Ef as [-> Hl]. apply is_bytes_app in Hb3 as [_ Hb4]. split_and!; [done..|]. by eexists. }
  destruct (validate_entry _ _) as [[]|]; [|done]. cbn [bin_err mbind result_bind]. intros [= <- <-]. unfold entry_bytes, entry_ok, checksum_ok, flags_ok.
  cbn [encoding_key file_size priority checksum flags]. rewrite Es, <- !app_assoc. by split_and!.
Qed.

Lemma download_validate_entries_Ok h es : validate_entries h es = Ok tt <-> Forall (fun e => validate_entry h e = Ok tt) es.
Proof.
  induction es as [|e es IH]; cbn [validate_entries]; [split; constructor|]. rewrite Forall_cons, <- IH.
  destruct (validate_entry h e) as [[]|]; cbn [mbind result_bind]; [tauto|]. split; [done|]. by intros [? _].
Qed.

Lemma validate_masks n ts :
  forallb (fun t => length (Install.bit_mask t) =? n)%nat ts = true <-> Forall (fun t => length (Install.bit_mask t) = n) ts.
Proof.
  rewrite forallb_forall, Forall_forall. split; intros H t Ht; apply Nat.eqb_eq, H, list_elem_of_In; done.
Qed.

Lemma download_validate_Ok m :
  validate m = Ok tt <->
  validate_header (header m) = Ok tt /\ Z.of_nat (length (entries m)) = entry_count (header m) /\ Z.of_nat (length (tags m)) = tag_count (header m) /\
  Forall (fun t => length (Install.bit_mask t) = Install.mask_size (length (entries m))) (tags m) /\
  Forall (fun e => validate_entry (header m) e = Ok tt) (entries m).
Proof.
  unfold validate. destruct (validate_header (header m)) as [[]|]; cbn [mbind result_bind]; [|split; [done|]; by intros [? _]].
  destruct (Z.eqb_spec (Z.of_nat (length (entries m))) (entry_count (header m))) as [En|]; cbn [negb]; [|split; [done|]; by intros (_ & ? & _)].
  destruct (Z.eqb_spec (Z.of_nat (length (tags m))) (tag_count (header m))) as [Et|]; cbn [negb]; [|split; [done|]; by intros (_ & _ & ? & _)].
  rewrite <- download_validate_entries_Ok, <- validate_masks. unfold bit_mask_size. rewrite <- En, Nat2Z.id.
  destruct (forallb _ _); cbn [negb]; [tauto|]. split; [done|]. by intros (_ & _ & _ & ? & _).
Qed.

(** What the format can hold. *)
Definition manifest_ok (m : DownloadManifest) : Prop :=
  header_ok (header m) /\ Forall (entry_ok (header m)) (entries m) /\ Forall tag_ok (tags m) /\ validate m = Ok tt.

Definition manifest_bytes (m : DownloadManifest) : bytes :=
  write_header (header m) ++ concat (map (entry_bytes (header m)) (entries m)) ++ concat (map Install.write_tag (tags m)).

Lemma header_flag_size h : header_ok h -> 0 <= flag_size h.
Proof. destruct h; cbn [header_ok flag_size]; unfold in_u; intros; [lia|destruct H; lia|destruct H as (_ & ? & _); lia]. Qed.

Lemma write_entries_Ok h es : 0 <= flag_size h -> Forall (entry_ok h) es -> write_entries h es = Ok (concat (map (entry_bytes h) es)).
Proof.
  intros H0. induction 1 as [|e es (_ & _ & _ & Hc & Hf) Hes IH]; [done|]. cbn [write_entries]. rewrite write_entry_Ok, IH by done. done.
Qed.

Lemma download_build_Ok m : manifest_ok m -> build m = Ok (manifest_bytes m).
Proof.
  intros (Hh & He & _ & Hv). unfold build. rewrite Hv. cbn [mbind result_bind]. rewrite write_entries_Ok; [done|by apply header_flag_size|done].
Qed.

Lemma read_write_download_tag n t rest :
  tag_ok t -> length (Install.bit_mask t) = Install.mask_size (Z.to_nat n) -> read_tag n (Install.write_tag t ++ rest) = Ok (t, rest).
Proof. intros Ht Hl. unfold read_tag. by rewrite read_write_tag. Qed.

Lemma read_download_tag_Ok n input t rest :
  is_bytes input -> read_tag n input = Ok (t, rest) ->
  input = Install.write_tag t ++ rest /\ is_bytes rest /\ (tag_ok t /\ length (Install.bit_mask t) = Install.mask_size (Z.to_nat n)).
Proof.
  intros Hb. unfold read_tag. destruct (Install.read_tag n input) as [r|] eqn:E; [|done]. intros [= ->]. by apply read_tag_Ok in E.
Qed.

Lemma download_parse_bytes m rest : manifest_ok m -> parse (manifest_bytes m ++ rest) = Ok m.
Proof.
  intros (Hh & He & Ht & Hv). pose proof (header_flag_size _ Hh) as H0. pose proof Hv as Hv'. apply download_validate_Ok in Hv' as (Hvh & Hce & Hct & Hm & _).
  unfold parse, manifest_bytes. rewrite <- !app_assoc. rewrite read_write_download_header by done. cbn [mbind result_bind]. rewrite Hvh. cbn [mbind result_bind].
  rewrite <- Hce, Nat2Z.id, (read_many_app _ (entry_bytes (header m))).
  2: { apply Forall_forall. intros e Hin rest'. apply read_write_download_entry; [done|]. by eapply Forall_forall in He. }
  cbn [mbind result_bind]. rewrite <- Hct, Nat2Z.id, (read_many_app _ Install.write_tag).
  2: { apply Forall_forall. intros t Hin rest'. apply read_write_download_tag; [by eapply Forall_forall in Ht|]. rewrite Nat2Z.id. by eapply Forall_forall in Hm. }
  cbn [mbind result_bind]. replace (Build_DownloadManifest _ _ _) with m by (by destruct m). by rewrite Hv.
Qed.

Lemma download_parse_Ok data m : is_bytes data -> parse data = Ok m -> manifest_ok m /\ exists rest, data = manifest_bytes m ++ rest.
Proof.
  intros Hb. unfold parse. destruct (read_header data) as [[h i]|] eqn:E1; [|done]. cbn [mbind result_bind].
  apply read_download_header_Ok in E1 as (-> & Hi & Hh); [|done]. destruct (validate_header h) as [[]|] eqn:Ev; [|done]. cbn [mbind result_bind].
  destruct (read_many _ (read_entry _) i) as [[es i1]|] eqn:E2; [|done]. cbn [mbind result_bind].
  apply (read_many_Ok _ (entry_bytes h) _ _ _ _ _ (read_download_entry_Ok h)) in E2 as (-> & Hi1 & Hes & _); [|done].
  destruct (read_many _ (read_tag _) i1) as [[ts i2]|] eqn:E3; [|done]. cbn [mbind result_bind].
  apply (read_many_Ok _ Install.write_tag _ _ _ _ _ (read_download_tag_Ok _)) in E3 as (-> & Hi2 & Hts & _); [|done].
  destruct (validate _) as [[]|] eqn:Evm; [|done]. cbn [mbind result_bind]. intros [= <-]. split.
  - split_and!; [done..| |done]. eapply Forall_impl; [exact Hts|]. by intros t [? _].
  - exists i2. unfold manifest_bytes. cbn [header tags entries]. by rewrite <- !app_assoc.
Qed.

(** The tag query on bit masks is the query on files, as for install manifests. *)
Lemma download_query_is_filter order m names :
  (forall l, order l ≡ₚ l) -> validate m = Ok tt -> found_tags m names <> [] ->
  entries_by_tag_query order m names = filter (fun e => one_of_each_type (found_tags m names) e.1 = true) (indexed m).
Proof.
  intros Ho Hv Hf. apply download_validate_Ok in Hv as (_ & _ & _ & Hm & _). unfold entries_by_tag_query.
  destruct names as [|n0 names0]; [done|]. set (names := n0 :: names0) in *. change (length names =? 0)%nat with false. cbn iota.
  rewrite groups_non_empty by done. apply filter_ext_in. intros e He. unfold indexed in He. apply elem_of_lookup_imap in He as (i & x & -> & Hi%lookup_lt_Some).
  rewrite query_mask_has; [done..| |done]. apply Forall_forall. intros t Ht. unfold found_tags in Ht. apply list_elem_of_omap in Ht as (n & _ & Ht).
  apply find_by_Some in Ht as [Ht _]. by eapply Forall_forall in Hm.
Qed.

(** ** The builder

    What the builder stands for: its configuration, the files, and for each tag its
    files as booleans.  A name stands for the last tag that has it. *)

Record Spec := {
  s_version : Z;
  s_checksums : bool;
  s_flag_size : Z;
  s_base_priority : Z;
  s_files : list DownloadFileEntry;
  s_tags : list (bytes * Install.TagType * list bool);
}.

Definition view (b : DownloadManifestBuilder) : Spec :=
  {| s_version := b_version b; s_checksums := b_has_checksum b; s_flag_size := b_flag_size b; s_base_priority := b_base_priority b;
     s_files := b_entries b; s_tags := map (tag_view (length (b_entries b))) (b_tags b) |}.

Definition s_content (s : Spec) (fs : list DownloadFileEntry) (ts : list (bytes * Install.TagType * list bool)) : Spec :=
  {| s_version := s_version s; s_checksums := s_checksums s; s_flag_size := s_flag_size s; s_base_priority := s_base_priority s;
     s_files := fs; s_tags := ts |}.

Definition s_config (s : Spec) (c : bool) (f p : Z) : Spec :=
  {| s_version := s_version s; s_checksums := c; s_flag_size := f; s_base_priority := p; s_files := s_files s; s_tags := s_tags s |}.

Inductive op : Type :=
| WithChecksums (enable : bool)
| WithFlags (size : Z)
| WithBasePriority (p : Z)
| AddFile (key : bytes) (size priority : Z)
| AddTag (name : bytes) (t : Install.TagType)
| SetChecksum (file : nat) (c : Z)
| SetFlags (file : nat) (f : bytes)
| Associate (file : nat) (name : bytes)
| Disassociate (file : nat) (name : bytes)
| RemoveFile (file : nat)
| RemoveFileByKey (key : bytes)
| RemoveTag (name : bytes)
| Clear
| UpdateKey (file : nat) (key : bytes)
| UpdateSize (file : nat) (size : Z)
| UpdatePriority (file : nat) (p : Z).

(** One operation; an update that reports [false] changes nothing. *)
Definition run_op (o : op) (b : DownloadManifestBuilder) : outcome (dresult DownloadManifestBuilder) :=
  match o with
  | WithChecksums e => Ret (Ok (with_checksums b e))
  | WithFlags n => Ret (with_flags b n)
  | WithBasePriority p => Ret (with_base_priority b p)
  | AddFile k s p => Ret (add_file b k s p)
  | AddTag n t => Ret (Ok (add_tag b n t))
  | SetChecksum i c => Ret (set_file_checksum b i c)
  | SetFlags i f => Ret (set_file_flags b i f)
  | Associate i n => associate_file_with_tag b i n
  | Disassociate i n => disassociate_file_from_tag b i n
  | RemoveFile i => Ret (Ok (remove_file b i).2)
  | RemoveFileByKey k => Ret (Ok (remove_file_by_key b k).2)
  | RemoveTag n => r ← remove_tag b n; Ret (Ok r.2)
  | Clear => Ret (Ok (clear b))
  | UpdateKey i k => Ret (Ok (update_file_key b i k).2)
  | UpdateSize i s => Ret (update_file_size b i s)
  | UpdatePriority i p => Ret (Ok (update_file_priority b i p).2)
  end.

Fixpoint run (ops : list op) (b : DownloadManifestBuilder) : outcome (dresult DownloadManifestBuilder) :=
  match ops with
  | [] => Ret (Ok b)
  | o :: ops => b ←? run_op o b; run ops b
  end.

(** The last tag of a name. *)
Definition last_named (n : bytes) (ts : list (bytes * Install.TagType * list bool)) : option nat :=
  fst <$> last (filter (fun it => it.2.1.1 = n) (imap pair ts)).

Definition s_change (s : Spec) (i : nat) (f : DownloadFileEntry -> DownloadFileEntry) : dresult Spec :=
  if (i <? length (s_files s))%nat then Ok (s_content s (alter f i (s_files s)) (s_tags s)) else Err (FileIndexOutOfBounds i).

Definition s_tag (s : Spec) (i : nat) (n : bytes) (v : bool) : dresult Spec :=
  if (i <? length (s_files s))%nat then
    match last_named n (s_tags s) with
    | Some t => Ok (s_content s (s_files s) (alter (on_files <[i := v]>) t (s_tags s)))
    | None => Err (TagNotFound n)
    end
  else Err (FileIndexOutOfBounds i).

Definition s_remove (s : Spec) (i : nat) : Spec := s_content s (delete i (s_files s)) (map (on_files (delete i)) (s_tags s)).

Definition or_same (s : Spec) (r : dresult Spec) : Spec := match r with Ok s' => s' | Err _ => s end.

Definition spec_op (o : op) (s : Spec) : dresult Spec :=
  match o with
  | WithChecksums e => Ok (s_config s e (s_flag_size s) (s_base_priority s))
  | WithFlags n =>
      if (s_version s =? 1) && (0 <? n) then Err (FlagsNotSupportedInVersion 1)
      else if n <=? 4 then Ok (s_config s (s_checksums s) n (s_base_priority s)) else Err (UnsupportedFlagSize n)
  | WithBasePriority p =>
      if (s_version s =? 3) || (p =? 0) then Ok (s_config s (s_checksums s) (s_flag_size s) p)
      else Err (BasePriorityNotSupportedInVersion (s_version s))
  | AddFile k size p =>
      if size <? 2 ^ 40 then
        Ok (s_content s
              (s_files s ++ [{| encoding_key := k; file_size := size; priority := p; checksum := None;
                                flags := if s_flag_size s =? 0 then None else Some (replicate (Z.to_nat (s_flag_size s)) 0) |}])
              (map (on_files (fun bs => bs ++ [false])) (s_tags s)))
      else Err (FileSizeTooLarge size)
  | AddTag n t => Ok (s_content s (s_files s) (s_tags s ++ [(n, t, replicate (length (s_files s)) false)]))
  | SetChecksum i c => if s_checksums s then s_change s i (fun e => with_checksum e c) else Err ChecksumsNotEnabled
  | SetFlags i f =>
      if s_flag_size s =? 0 then Err FlagsNotEnabled
      else if Z.of_nat (length f) =? s_flag_size s then s_change s i (fun e => with_entry_flags e f)
      else Err (InvalidFlagSize (length f) (s_flag_size s))
  | Associate i n => s_tag s i n true
  | Disassociate i n => s_tag s i n false
  | RemoveFile i => Ok (if (i <? length (s_files s))%nat then s_remove s i else s)
  | RemoveFileByKey k =>
      Ok (match list_find (fun e => encoding_key e = k) (s_files s) with Some (i, _) => s_remove s i | None => s end)
  | RemoveTag n =>
      Ok (match last_named n (s_tags s) with Some t => s_content s (s_files s) (delete t (s_tags s)) | None => s end)
  | Clear => Ok (s_content s [] [])
  | UpdateKey i k => Ok (or_same s (s_change s i (set_key k)))
  | UpdateSize i size =>
      if (i <? length (s_files s))%nat && (2 ^ 40 <=? size) then Err (FileSizeTooLarge size) else s_change s i (set_size size)
  | UpdatePriority i p => Ok (or_same s (s_change s i (set_priority p)))
  end.

Fixpoint spec_run (ops : list op) (s : Spec) : dresult Spec :=
  match ops with
  | [] => Ok s
  | o :: ops => s ← spec_op o s; spec_run ops s
  end.

(** *** The index of names *)

Lemma index_of_names ts ts' : map Install.name ts = map Install.name ts' -> index_of_tags ts = index_of_tags ts'.
Proof.
  unfold index_of_tags.
  assert (forall ts, fold_left (fun names t => <[Install.name t.2 := t.1]> names) (imap pair ts) (∅ : gmap bytes nat) =
    fold_left (fun names t => <[t.2 := t.1]> names) (imap pair (map Install.name ts)) ∅) as H; [|by rewrite !H; intros ->].
  intros l. induction l as [|t l IH] using rev_ind; [done|]. rewrite map_app, !imap_app, !fold_left_app, IH. cbn. by rewrite length_map.
Qed.

Lemma index_of_snoc ts t : index_of_tags (ts ++ [t]) = <[Install.name t := length ts]> (index_of_tags ts).
Proof. unfold index_of_tags. rewrite imap_app, fold_left_app. cbn. by rewrite Nat.add_0_r. Qed.

Lemma index_of_last n k ts : index_of_tags ts !! n = last_named n (map (tag_view k) ts).
Proof.
  unfold last_named. induction ts as [|t ts IH] using rev_ind; [done|]. rewrite index_of_snoc, lookup_insert, map_app, imap_app, filter_app. cbn [map imap length].
  rewrite filter_cons, filter_nil. cbn. rewrite Nat.add_0_r, length_map. case_decide as E.
  - by rewrite last_snoc.
  - by rewrite app_nil_r.
Qed.

Lemma index_of_inv ts : index_inv ts (index_of_tags ts).
Proof.
  induction ts as [|t ts IH] using rev_ind; [by intros n i; unfold index_of_tags; cbn; rewrite lookup_empty|]. intros n i. rewrite index_of_snoc, lookup_insert. case_decide as E.
  - intros [= <-]. exists t. split; [|done]. by rewrite lookup_app_r, Nat.sub_diag.
  - intros (t' & Ht' & Hn)%IH. exists t'. split; [|done]. by apply lookup_app_l_Some.
Qed.

(** *** Taking a bit out of a mask *)

Lemma fold_blocks {A} (g : A -> nat -> A) n st :
  fold_left (fun st k => fold_left (fun st b => g st (k * 8 + b)%nat) (seq 0 8) st) (seq 0 n) st = fold_left g (seq 0 (n * 8)) st.
Proof.
  revert st. induction n as [|n IH]; intros st; [done|]. rewrite (seq_S n 0), fold_left_app, IH. replace (S n * 8)%nat with (n * 8 + 8)%nat by lia.
  rewrite (seq_app (n * 8) 8), fold_left_app. cbn [fold_left seq Nat.add]. repeat (f_equal; try lia).
Qed.

Lemma shift_bits mask i n :
  exists new, fold_left (shift_bit mask i) (seq 0 n) ([], 0%nat) = (new, if (i <? n)%nat then (n - 1)%nat else n) /\
    forall j, Install.mask_has new j = (j <? (if (i <? n)%nat then n - 1 else n))%nat && Install.mask_has mask (if (j <? i)%nat then j else j + 1)%nat.
Proof.
  induction n as [|n IH]; [exists []; split; [done|]; intros j; by rewrite mask_has_bit|]. destruct IH as (new & E & Hn).
  rewrite seq_S, fold_left_app, E. cbn [fold_left shift_bit Nat.add]. destruct (Nat.eqb_spec n i) as [->|Hne].
  { exists new. rewrite Nat.ltb_irrefl in *. rewrite (proj2 (Nat.ltb_lt i (S i))) by lia. replace (S i - 1)%nat with i by lia. done. }
  eexists. split; [f_equal; destruct (Nat.ltb_spec i n), (Nat.ltb_spec i (S n)); lia|]. intros j.
  set (k := if (i <? n)%nat then (n - 1)%nat else n) in *.
  assert ((if (i <? S n)%nat then S n - 1 else S n)%nat = S k /\ (if (k <? i)%nat then k else k + 1)%nat = n) as [-> Hk].
  { unfold k. destruct (Nat.ltb_spec i n), (Nat.ltb_spec i (S n)), (Nat.ltb_spec n i), (Nat.ltb_spec (n - 1) i); lia. }
  assert (Install.mask_has (if Install.mask_has mask n then Install.set_bit new k else new) j =
    ((k =? j)%nat && Install.mask_has mask n) || Install.mask_has new j) as ->.
  { destruct (Install.mask_has mask n); [by rewrite mask_has_set_bit, andb_true_r|by rewrite andb_false_r]. }
  rewrite Hn. destruct (Nat.eqb_spec k j) as [<-|Hj]; cbn [andb orb].
  - rewrite Nat.ltb_irrefl, (proj2 (Nat.ltb_lt k (S k))), Hk, orb_false_r by lia. done.
  - destruct (Nat.ltb_spec j k), (Nat.ltb_spec j (S k)); (done || lia).
Qed.

Lemma mask_has_without mask i j : Install.mask_has (without_bit mask i) j = Install.mask_has mask (if (j <? i)%nat then j else j + 1)%nat.
Proof.
  unfold without_bit. rewrite fold_blocks. destruct (shift_bits mask i (length mask * 8)) as (new & -> & Hn). cbn [fst]. rewrite Hn.
  destruct (Nat.ltb_spec j (if (i <? length mask * 8)%nat then length mask * 8 - 1 else length mask * 8)) as [|Hj]; [done|]. symmetry. apply mask_has_beyond.
  destruct (Nat.ltb_spec i (length mask * 8)), (Nat.ltb_spec j i); lia.
Qed.

(** *** The invariant *)

(** The values a file entry can have. *)
Definition file_typed (e : DownloadFileEntry) : Prop :=
  length (encoding_key e) = 16%nat /\ in_u 40 (file_size e) /\ i8 (priority e) /\ forall c, checksum e = Some c -> u32 c.

Record builder_ok (b : DownloadManifestBuilder) : Prop := {
  ok_version : 1 <= b_version b <= 3;
  ok_flags : 0 <= b_flag_size b <= 4 /\ (b_version b = 1 -> b_flag_size b = 0);
  ok_base : i8 (b_base_priority b) /\ (b_version b <> 3 -> b_base_priority b = 0);
  ok_files : Forall file_typed (b_entries b);
  ok_masks : masks_inv (length (b_entries b)) (b_tags b);
  ok_index : tag_name_to_index b = index_of_tags (b_tags b);
}.

(** The arguments have the types of the source. *)
Definition op_typed (o : op) : Prop :=
  match o with
  | WithFlags n => u8 n
  | WithBasePriority p => i8 p
  | AddFile k s p => length k = 16%nat /\ u64 s /\ i8 p
  | SetChecksum _ c => u32 c
  | UpdateKey _ k => length k = 16%nat
  | UpdateSize _ s => u64 s
  | UpdatePriority _ p => i8 p
  | _ => True
  end.

(** An outcome is what the specification says, and keeps the invariant. *)
Definition refines (r : outcome (dresult DownloadManifestBuilder)) (s : dresult Spec) : Prop :=
  exists x, r = Ret x /\ s = (b ← x; Ok (view b)) /\ forall b, x = Ok b -> builder_ok b.

Lemma refines_Ok b s : builder_ok b -> s = view b -> refines (Ret (Ok b)) (Ok s).
Proof. intros Hb ->. eexists. split_and!; [done..|]. by intros ? [= <-]. Qed.

Lemma refines_Err e : refines (Ret (Err e)) (Err e).
Proof. by eexists. Qed.

Lemma with_config_ok b c f p :
  builder_ok b -> 0 <= f <= 4 -> (b_version b = 1 -> f = 0) -> i8 p -> (b_version b <> 3 -> p = 0) -> builder_ok (with_config b c f p).
Proof. intros []. by constructor. Qed.

Lemma with_content_ok b es ts index :
  builder_ok b -> Forall file_typed es -> masks_inv (length es) ts -> index = index_of_tags ts -> builder_ok (with_content b es ts index).
Proof. intros []. by constructor. Qed.

Lemma change_entry_refines b i f :
  builder_ok b -> (forall e, file_typed e -> file_typed (f e)) -> refines (Ret (change_entry b i f)) (s_change (view b) i f).
Proof.
  intros Hb Hf. unfold change_entry, s_change. cbn [view s_files]. destruct (Nat.ltb_spec i (length (b_entries b))) as [L|L].
  - destruct (lookup_lt_is_Some_2 _ _ L) as [e He]. rewrite He. apply refines_Ok.
    + destruct Hb. apply with_content_ok; [done| |by rewrite length_alter|done]. apply Forall_alter; auto.
    + unfold view, with_entries, with_content, s_content. cbn. by rewrite length_alter.
  - rewrite (proj2 (lookup_ge_None _ _)) by done. apply refines_Err.
Qed.

(** An update that reports whether it found the file. *)
Lemma update_entry_refines b i f :
  builder_ok b -> (forall e, file_typed e -> file_typed (f e)) ->
  refines (Ret (Ok (match change_entry b i f with Ok b => (true, b) | Err _ => (false, b) end).2)) (Ok (or_same (view b) (s_change (view b) i f))).
Proof.
  intros Hb Hf. destruct (change_entry_refines b i f Hb Hf) as (x & [= ->] & -> & Hok). destruct x as [b'|]; cbn [snd mbind result_bind or_same];
    (apply refines_Ok; [|done]); [by apply Hok|done].
Qed.

Lemma insert_alter_at {A} (l : list A) i x (f : A -> A) : l !! i = Some x -> <[i := f x]> l = alter f i l.
Proof.
  intros Hx. apply list_eq. intros j. destruct (decide (j = i)) as [->|].
  - rewrite list_lookup_alter_eq, Hx, list_lookup_insert_eq by (by eapply lookup_lt_Some). done.
  - by rewrite list_lookup_alter_ne, list_lookup_insert_ne by done.
Qed.

Lemma change_by_name_ok b f i n v :
  builder_ok b -> (forall i, (i < length (b_entries b))%nat -> sets_bit (length (b_entries b)) i v (fun t => f t i)) ->
  refines (change_by_name f b i n) (s_tag (view b) i n v).
Proof.
  intros Hb Hs. pose proof Hb as []. unfold change_by_name, s_tag. cbn [view s_files s_tags]. rewrite <- index_of_last, <- ok_index0.
  destruct (Nat.leb_spec (length (b_entries b)) i) as [L|L].
  { rewrite (proj2 (Nat.ltb_ge _ _)) by done. apply refines_Err. }
  rewrite (proj2 (Nat.ltb_lt _ _)) by done. destruct (tag_name_to_index b !! n) as [tag|] eqn:En; [|apply refines_Err].
  pose proof (index_of_inv (b_tags b)) as Hi. rewrite <- ok_index0 in Hi. destruct (Hi n tag En) as (t & Ht & _).
  rewrite (vec_modify_nat _ _ t) by done. cbn [mbind outcome_bind]. rewrite (insert_alter_at _ _ t (fun t => f t i)) by done.
  destruct (alter_tags _ i v _ _ _ tag L (Hs i L) ok_masks0 Hi) as (Hm' & _ & Hv). apply refines_Ok.
  - apply with_content_ok; [done..|]. rewrite ok_index0. apply index_of_names. apply list_eq. intros k. rewrite !list_lookup_fmap.
    destruct (decide (k = tag)) as [->|]; [|by rewrite list_lookup_alter_ne]. rewrite list_lookup_alter_eq, Ht. cbn. by rewrite (proj1 (proj1 (Hs i L) t)).
  - unfold view, with_content, s_content. cbn. by rewrite Hv.
Qed.

Lemma add_file_ok b k size p :
  builder_ok b -> op_typed (AddFile k size p) -> refines (Ret (add_file b k size p)) (spec_op (AddFile k size p) (view b)).
Proof.
  intros Hb (Hk & Hs & Hp). pose proof Hb as []. unfold add_file, file_size_new. cbn [spec_op view s_files s_tags s_flag_size].
  change (2 ^ 40) with (MAX_FILE_SIZE + 1). destruct (Z.ltb_spec MAX_FILE_SIZE size) as [L|L].
  { rewrite (proj2 (Z.ltb_ge size _)) by lia. apply refines_Err. }
  rewrite (proj2 (Z.ltb_lt size _)) by lia. cbn [mbind result_bind].
  replace (if b_flag_size b =? 0 then None else Some (replicate (Z.to_nat (b_flag_size b)) 0))
    with (if 0 <? b_flag_size b then Some (zeros (Z.to_nat (b_flag_size b))) else None).
  2: { destruct (Z.ltb_spec 0 (b_flag_size b)), (Z.eqb_spec (b_flag_size b) 0); (done || lia). }
  destruct (grow_tags _ _ ok_masks0) as [Hm Hv]. apply refines_Ok.
  - apply with_content_ok; [done| | |].
    + apply Forall_app. split; [done|]. apply Forall_singleton. split_and!; cbn [encoding_key file_size priority checksum]; [done| |done..].
      unfold in_u in *. change MAX_FILE_SIZE with (2 ^ 40 - 1) in L. lia.
    + rewrite length_app. done.
    + rewrite ok_index0. apply index_of_names. rewrite map_map. apply map_ext. intros t. symmetry. apply name_grow_mask.
  - unfold view, with_content, s_content. cbn [b_version b_has_checksum b_flag_size b_base_priority b_entries b_tags s_version s_checksums s_flag_size s_base_priority].
    rewrite length_app. cbn [length]. by rewrite Hv.
Qed.

Lemma add_tag_ok b n t : builder_ok b -> refines (Ret (Ok (add_tag b n t))) (spec_op (AddTag n t) (view b)).
Proof.
  intros Hb. pose proof Hb as []. destruct (new_tag _ _ _ n t ok_masks0 (index_of_inv _)) as (Hm & _ & Hv). apply refines_Ok.
  - apply with_content_ok; [done..|]. by rewrite ok_index0, index_of_snoc.
  - unfold view, add_tag, with_content, s_content. cbn. rewrite map_app. cbn [map]. by rewrite Hv.
Qed.

Lemma view_remove_file b i :
  builder_ok b -> (i < length (b_entries b))%nat -> builder_ok (remove_file b i).2 /\ view (remove_file b i).2 = s_remove (view b) i.
Proof.
  intros Hb L. pose proof Hb as []. unfold remove_file. rewrite (proj2 (Nat.leb_gt _ _)) by done. cbn [snd].
  assert (length (delete i (b_entries b)) = length (b_entries b) - 1)%nat as Hd by (apply length_delete; by apply lookup_lt_is_Some_2). rewrite Hd.
  destruct (shrink_tags _ _ i (fun mask => Install.resize (Install.mask_size (length (b_entries b) - 1)) (without_bit mask i)) L ok_masks0) as [Hm Hv].
  { intros t Ht. split_and!; [apply length_resize| |].
    - intros j Hj. rewrite mask_has_cut by (by apply mask_size_spec). apply mask_has_without.
    - intros j Hj. destruct (Nat.lt_ge_cases (j / 8) (Install.mask_size (length (b_entries b) - 1))).
      + rewrite mask_has_cut, mask_has_without, (proj2 (Nat.ltb_ge _ _)) by lia. eapply Forall_forall in ok_masks0 as [_ Hno]; [|done]. apply Hno. lia.
      + apply mask_has_beyond. rewrite length_resize. pose proof (Nat.div_mod_eq j 8). lia. }
  split.
  - apply with_content_ok; [done|by apply Forall_delete|by rewrite Hd|]. rewrite ok_index0. apply index_of_names. by rewrite map_map.
  - unfold view, with_content, s_remove, s_content.
    cbn [b_version b_has_checksum b_flag_size b_base_priority b_entries b_tags s_version s_checksums s_flag_size s_base_priority s_files s_tags]. by rewrite Hd, Hv.
Qed.

Lemma remove_file_ok b i : builder_ok b -> refines (Ret (Ok (remove_file b i).2)) (spec_op (RemoveFile i) (view b)).
Proof.
  intros Hb. cbn [spec_op view s_files]. destruct (Nat.ltb_spec i (length (b_entries b))) as [L|L].
  - destruct (view_remove_file b i Hb L) as [Hok Hv]. by apply refines_Ok.
  - unfold remove_file. rewrite (proj2 (Nat.leb_le _ _)) by done. by apply refines_Ok.
Qed.

Lemma remove_file_by_key_ok b k : builder_ok b -> refines (Ret (Ok (remove_file_by_key b k).2)) (spec_op (RemoveFileByKey k) (view b)).
Proof.
  intros Hb. unfold remove_file_by_key, find_file_index. cbn [spec_op view s_files]. destruct (list_find _ _) as [[i e]|] eqn:E; cbn.
  - apply list_find_Some in E as (L%lookup_lt_Some & _). destruct (view_remove_file b i Hb L) as [Hok Hv]. by apply refines_Ok.
  - by apply refines_Ok.
Qed.

Lemma remove_tag_ok b n : builder_ok b -> refines (r ← remove_tag b n; Ret (Ok r.2)) (spec_op (RemoveTag n) (view b)).
Proof.
  intros Hb. pose proof Hb as []. unfold remove_tag. cbn [spec_op view s_tags]. rewrite <- index_of_last, <- ok_index0.
  destruct (tag_name_to_index b !! n) as [tag|] eqn:En; cbn [mbind outcome_bind snd]; [|by apply refines_Ok].
  pose proof (index_of_inv (b_tags b)) as Hi. rewrite <- ok_index0 in Hi. destruct (Hi n tag En) as (t & Ht%lookup_lt_Some & _).
  rewrite (proj2 (Nat.leb_gt _ _)) by done. cbn [mbind outcome_bind snd]. apply refines_Ok.
  - apply with_content_ok; [done..| |done]. by apply Forall_delete.
  - unfold view, with_content, s_content. cbn. by rewrite <- list_fmap_delete.
Qed.

Lemma config_ok b o :
  match o with WithChecksums _ | WithFlags _ | WithBasePriority _ => True | _ => False end ->
  builder_ok b -> op_typed o -> refines (run_op o b) (spec_op o (view b)).
Proof.
  intros Ho Hb Ht. pose proof Hb as [? [? ?] [? ?] ? ? ?]. unfold in_u, i8 in *. destruct o; try done; cbn [run_op spec_op view s_version].
  - apply refines_Ok; [by apply with_config_ok|done].
  - unfold with_flags. replace (b_version b <? 2) with (b_version b =? 1) by (destruct (Z.eqb_spec (b_version b) 1), (Z.ltb_spec (b_version b) 2); (done || lia)).
    destruct (Z.eqb_spec (b_version b) 1) as [Ev|Ev]; cbn [andb]; [rewrite Ev; destruct (Z.ltb_spec 0 size) as [|L]; [apply refines_Err|]|];
      (destruct (Z.leb_spec size 4) as [L4|L4]; [rewrite (proj2 (Z.ltb_ge 4 _)) by lia|rewrite (proj2 (Z.ltb_lt 4 _)) by lia; apply refines_Err]);
      (apply refines_Ok; [|done]); cbn [op_typed] in Ht; unfold in_u, i8 in *; apply with_config_ok; (done || lia).
  - unfold with_base_priority. replace (b_version b <? 3) with (negb (b_version b =? 3)) by (destruct (Z.eqb_spec (b_version b) 3), (Z.ltb_spec (b_version b) 3); (done || lia)).
    destruct (Z.eqb_spec (b_version b) 3), (Z.eqb_spec p 0); cbn [andb orb negb]; try apply refines_Err; (apply refines_Ok; [|done]); cbn [op_typed] in Ht; unfold i8 in *; apply with_config_ok; (done || lia).
Qed.

Lemma download_run_op_ok o b : builder_ok b -> op_typed o -> refines (run_op o b) (spec_op o (view b)).
Proof.
  intros Hb Ht. destruct o; try (by apply config_ok); cbn [run_op].
  - by apply add_file_ok.
  - by apply add_tag_ok.
  - unfold set_file_checksum. cbn [spec_op view s_checksums]. destruct (b_has_checksum b); [|apply refines_Err]. apply change_entry_refines; [done|].
    intros e (? & ? & ? & ?). split_and!; [done..|]. cbn. by intros ? [= <-].
  - unfold set_file_flags. cbn [spec_op view s_flag_size]. destruct (Z.eqb_spec (b_flag_size b) 0); [apply refines_Err|]. pose proof (ok_flags b Hb) as [? _].
    destruct (Nat.eqb_spec (length f) (Z.to_nat (b_flag_size b))), (Z.eqb_spec (Z.of_nat (length f)) (b_flag_size b)); try lia; [|apply refines_Err].
    apply change_entry_refines; [done|]. by intros e' (? & ? & ? & ?).
  - apply change_by_name_ok; [done|]. intros i. apply tag_add_file_sets.
  - apply change_by_name_ok; [done|]. intros i _. apply tag_remove_file_sets.
  - by apply remove_file_ok.
  - by apply remove_file_by_key_ok.
  - by apply remove_tag_ok.
  - apply refines_Ok; [|done]. apply with_content_ok; [done|constructor..|done].
  - apply update_entry_refines; [done|]. by intros e' (? & ? & ? & ?).
  - unfold update_file_size, file_size_new. cbn [spec_op]. change (2 ^ 40) with (MAX_FILE_SIZE + 1). cbn [view s_files].
    destruct (Nat.ltb_spec file (length (b_entries b))) as [L|L].
    + destruct (lookup_lt_is_Some_2 _ _ L) as [e He]. rewrite He. destruct (Z.ltb_spec MAX_FILE_SIZE size); cbn [mbind result_bind andb].
      { rewrite (proj2 (Z.leb_le _ _)) by lia. apply refines_Err. }
      rewrite (proj2 (Z.leb_gt _ _)) by lia. apply change_entry_refines; [done|]. intros e' (? & ? & ? & ?). split_and!; [done| |done..].
      cbn. cbn in Ht. unfold in_u in *. change MAX_FILE_SIZE with (2 ^ 40 - 1) in *. lia.
    + rewrite (proj2 (lookup_ge_None _ _)) by done. cbn [andb]. unfold s_change. cbn [view s_files]. rewrite (proj2 (Nat.ltb_ge _ _)) by done. apply refines_Err.
  - apply update_entry_refines; [done|]. by intros e' (? & ? & ? & ?).
Qed.

Lemma run_ok ops b : builder_ok b -> Forall op_typed ops -> refines (run ops b) (spec_run ops (view b)).
Proof.
  intros Hb Hops. revert b Hb. induction Hops as [|o ops Ho Hops IH]; intros b Hb; cbn [run spec_run]; [by apply refines_Ok|].
  destruct (download_run_op_ok o b Hb Ho) as (x & -> & -> & Hok). destruct x as [b'|]; cbn [try_bind mbind result_bind]; [|apply refines_Err]. by apply IH, Hok.
Qed.

(** *** The operations that combine others *)

Definition if_given {A} (o : option A) (f : A -> list op) : list op := match o with Some a => f a | None => [] end.

Definition configure_ops (i : nat) (c : option Z) (f : option bytes) : list op :=
  if_given c (fun c => [SetChecksum i c]) ++ if_given f (fun f => [SetFlags i f]).

Lemma run_app ops1 ops2 b : run (ops1 ++ ops2) b = (b ←? run ops1 b; run ops2 b).
Proof.
  revert b. induction ops1 as [|o ops1 IH]; intros b; [done|]. cbn [app run]. destruct (run_op o b) as [[]|]; cbn [try_bind]; [apply IH|done..].
Qed.

Lemma configure_file_run b i c f : Ret (configure_file b i c f) = run (configure_ops i c f) b.
Proof.
  unfold configure_file, configure_ops. destruct c as [c|]; cbn [if_some if_given app run run_op mbind result_bind].
  - destruct (set_file_checksum b i c) as [b'|]; cbn [mbind result_bind try_bind]; [|done]. destruct f as [f|]; cbn; [|done]. by destruct (set_file_flags b' i f).
  - destruct f as [f|]; cbn; [|done]. by destruct (set_file_flags b i f).
Qed.

Lemma associate_many_run b i ns : associate_file_with_tags b i ns = run (map (Associate i) ns) b.
Proof.
  revert b. induction ns as [|n ns IH]; intros b; [done|]. cbn [associate_file_with_tags map run run_op].
  destruct (associate_file_with_tag b i n) as [[]|]; cbn [try_bind]; [apply IH|done..].
Qed.

Lemma add_file_with_properties_run b k size p c f ns :
  add_file_with_properties b k size p c f ns =
  run (AddFile k size p :: configure_ops (length (b_entries b)) c f ++ if_given ns (map (Associate (length (b_entries b))))) b.
Proof.
  unfold add_file_with_properties. cbn [run run_op]. destruct (add_file b k size p) as [b1|]; cbn [try_bind]; [|done].
  rewrite run_app, <- configure_file_run. unfold configure_file.
  destruct (if_some c _ b1) as [b2|]; cbn [try_bind mbind result_bind]; [|done]. destruct (if_some f _ b2) as [b3|]; cbn [try_bind]; [|done].
  destruct ns as [ns|]; cbn [if_given run]; [|done]. apply associate_many_run.
Qed.

(** *** Building *)

(** A file has a checksum exactly when checksums are enabled, and flags of the
    configured size exactly when there are flags. *)
Definition complete (s : Spec) (e : DownloadFileEntry) : bool :=
  Bool.eqb (bool_decide (is_Some (checksum e))) (s_checksums s) &&
  match flags e with
  | Some f => (0 <? s_flag_size s) && (Z.of_nat (length f) =? s_flag_size s)
  | None => s_flag_size s =? 0
  end.

Definition buildable (s : Spec) : bool :=
  (Z.of_nat (length (s_files s)) <? 2 ^ 32) && (Z.of_nat (length (s_tags s)) <? 2 ^ 16) && forallb (complete s) (s_files s).

Lemma check_entry_complete b e : 0 <= b_flag_size b -> builder_check_entry b e = Ok tt <-> complete (view b) e = true.
Proof.
  intros H0. unfold builder_check_entry, complete. cbn [view s_checksums s_flag_size].
  destruct (checksum e) as [c|], (b_has_checksum b), (flags e) as [f|]; cbn [andb negb bool_decide decide]; try (split; done);
    destruct (Z.ltb_spec 0 (b_flag_size b)), (Z.eqb_spec (b_flag_size b) 0); try lia; cbn [andb]; try (split; done);
    repeat first [rewrite bool_decide_eq_true_2 by done | rewrite bool_decide_eq_false_2 by (by intros [? ?] || done)]; cbn [andb negb Bool.eqb]; try (split; done);
    destruct (Nat.eqb_spec (length f) (Z.to_nat (b_flag_size b))), (Z.eqb_spec (Z.of_nat (length f)) (b_flag_size b)); (lia || (split; done)).
Qed.

Lemma check_entries_complete b es : 0 <= b_flag_size b -> builder_check_entries b es = Ok tt <-> forallb (complete (view b)) es = true.
Proof.
  intros H0. induction es as [|e es IH]; [done|]. cbn [builder_check_entries forallb]. rewrite andb_true_iff, <- check_entry_complete, <- IH by done.
  destruct (builder_check_entry b e) as [[]|]; cbn [mbind result_bind]; [tauto|]. split; [done|]. by intros [? _].
Qed.

Lemma complete_ok b h e :
  0 <= b_flag_size b -> has_checksum h = b_has_checksum b -> flag_size h = b_flag_size b -> file_typed e -> complete (view b) e = true ->
  entry_ok h e.
Proof.
  intros H0 Hc Hf (Hk & Hs & Hp & Hcs). unfold complete, entry_ok, checksum_ok, flags_ok. cbn [view s_checksums s_flag_size]. rewrite Hc, Hf.
  intros [H1%eqb_prop H2]%andb_true_iff. split_and!; [done..| |].
  - rewrite <- H1. case_bool_decide as E; [destruct E as [c E]; exists c; split; [done|by apply Hcs]|]. destruct (checksum e); [by destruct E|done].
  - destruct (flags e) as [f|].
    + apply andb_true_iff in H2 as [-> H2%Z.eqb_eq]. exists f. split; [done|lia].
    + apply Z.eqb_eq in H2. by rewrite H2.
Qed.

(** The header a builder makes. *)
Definition built_header (b : DownloadManifestBuilder) : DownloadHeader :=
  let n := wrap32 (Z.of_nat (length (b_entries b))) in
  let k := wrap 16 (Z.of_nat (length (b_tags b))) in
  if b_version b =? 1 then new_v1 n k (b_has_checksum b)
  else if b_version b =? 2 then new_v2 n k (b_has_checksum b) (b_flag_size b)
  else new_v3 n k (b_has_checksum b) (b_flag_size b) (b_base_priority b).

Lemma built_header_ok b :
  builder_ok b ->
  let h := built_header b in
  header_ok h /\ validate_header h = Ok tt /\ version h = b_version b /\ has_checksum h = b_has_checksum b /\ flag_size h = b_flag_size b /\
  base_priority h = b_base_priority b /\ entry_count h = wrap32 (Z.of_nat (length (b_entries b))) /\ tag_count h = wrap 16 (Z.of_nat (length (b_tags b))).
Proof.
  intros []. unfold built_header. set (n := wrap32 _). set (k := wrap 16 _).
  assert (u32 n) by apply wrap32_range. assert (u16 k) by (by apply wrap_range).
  assert (forall v : Z, base_ok v (new_base v n k (b_has_checksum b))) as Hb by (intros v; split_and!; cbn; try done; by destruct (b_has_checksum b)).
  assert (forall v, negb (has_checksum_ (new_base v n k (b_has_checksum b)) =? 0) = b_has_checksum b) as Hc by (intros v; cbn; by destruct (b_has_checksum b)).
  destruct ok_flags0 as [Hf Hf1], ok_base0 as [Hp Hp3]. unfold i8 in *.
  destruct (Z.eqb_spec (b_version b) 1) as [Ev|Ev]; [|destruct (Z.eqb_spec (b_version b) 2) as [Ev2|Ev2]]; cbn zeta.
  - split_and!; try done; cbn [flag_size base_priority new_v1 version base]; try lia; [apply Hb|apply Hc].
  - split_and!; try done; cbn [flag_size base_priority new_v2 version base]; try lia.
    + split; [apply Hb|unfold in_u; lia].
    + unfold validate_header. cbn. by rewrite (proj2 (Z.ltb_ge _ _)) by lia.
    + apply Hc.
  - split_and!; try done; cbn [flag_size base_priority new_v3 version base]; try (cbn; lia).
    + split_and!; [apply Hb|unfold in_u; lia|done|done].
    + unfold validate_header. cbn. by rewrite (proj2 (Z.ltb_ge _ _)) by lia.
    + apply Hc.
Qed.

Lemma download_builder_build_eq b :
  builder_ok b ->
  builder_build b =
  (_ ← builder_check_entries b (b_entries b);
   let m := {| header := built_header b; entries := b_entries b; tags := b_tags b |} in
   _ ← validate m; Ok m).
Proof.
  intros []. unfold builder_build, builder_validate. destruct ok_flags0 as [Hf Hf1], ok_base0 as [Hp Hp3].
  assert ((b_version b <? 2) && (0 <? b_flag_size b) = false) as ->.
  { destruct (Z.ltb_spec (b_version b) 2), (Z.ltb_spec 0 (b_flag_size b)); (done || lia). }
  assert ((b_version b <? 3) && negb (b_base_priority b =? 0) = false) as ->.
  { destruct (Z.ltb_spec (b_version b) 3), (Z.eqb_spec (b_base_priority b) 0); (done || lia). }
  destruct (builder_check_entries b (b_entries b)) as [[]|]; cbn [mbind result_bind]; [|done].
  rewrite (proj2 (validate_masks _ _)) by (eapply Forall_impl; [exact ok_masks0|]; by intros t [? _]). cbn [mbind result_bind]. unfold built_header.
  assert (b_version b = 1 \/ b_version b = 2 \/ b_version b = 3) as [-> |[-> | ->]] by lia; done.
Qed.

(** A builder builds exactly when the files are complete and the counts fit; what it
    builds is in order. *)
Lemma builder_build_spec b :
  builder_ok b ->
  if buildable (view b) then
    exists m, builder_build b = Ok m /\ header m = built_header b /\ entries m = b_entries b /\ tags m = b_tags b /\ validate m = Ok tt /\
      Forall (entry_ok (header m)) (entries m)
  else exists e, builder_build b = Err e.
Proof.
  intros Hb. rewrite download_builder_build_eq by done. destruct (built_header_ok b Hb) as (Hh & Hvh & Hv & Hc & Hf & Hp & Hn & Hk). pose proof Hb as [].
  destruct ok_flags0 as [[H0 _] _]. unfold buildable. cbn [view s_files s_tags]. rewrite length_map.
  pose proof (check_entries_complete b (b_entries b) H0) as Hce. destruct (builder_check_entries b (b_entries b)) as [[]|]; cbn [mbind result_bind].
  2: { destruct (forallb _ _); [by specialize (proj2 Hce eq_refl)|]. rewrite andb_false_r. by eexists. }
  rewrite (proj1 Hce eq_refl), andb_true_r. set (m := Build_DownloadManifest _ _ _).
  assert (Forall (entry_ok (built_header b)) (b_entries b)) as He.
  { pose proof (proj1 Hce eq_refl) as Hall. rewrite forallb_forall in Hall. apply Forall_forall. intros e Hin. apply (complete_ok b); [done..| |].
    - by eapply Forall_forall in ok_files0.
    - by apply Hall, list_elem_of_In. }
  destruct (validate m) as [[]|] eqn:Evm; cbn [mbind result_bind].
  - pose proof (proj1 (download_validate_Ok m) Evm) as (_ & E1 & E2 & _). unfold m in E1, E2. cbn [header entries tags] in E1, E2. rewrite Hn in E1. rewrite Hk in E2.
    pose proof (wrap32_range (Z.of_nat (length (b_entries b)))) as R1. pose proof (wrap_range 16 (Z.of_nat (length (b_tags b))) ltac:(lia)) as R2. unfold in_u in *.
    rewrite !(proj2 (Z.ltb_lt _ _)) by lia. cbn [andb]. exists m. by split_and!.
  - destruct (_ && _) eqn:Eb; [|by eexists]. exfalso. apply andb_true_iff in Eb as [E1%Z.ltb_lt E2%Z.ltb_lt].
    assert (validate m = Ok tt) as Hok; [|congruence]. apply download_validate_Ok. unfold m. cbn [header entries tags]. rewrite Hn, Hk. unfold wrap32.
    rewrite !wrap_small by (unfold in_u; lia). split_and!; [done..| |].
    + eapply Forall_impl; [exact ok_masks0|]. by intros t [? _].
    + eapply Forall_impl; [exact He|]. intros e' (_ & _ & _ & ? & ?). apply entry_ok_validate; [lia|done..].
Qed.

(** ** Download plans *)

Definition selected (h : DownloadHeader) (max_priority : option Z) (cats : option (list PriorityCategory)) (e : DownloadFileEntry) : Prop :=
  match max_priority with Some p => effective_priority h e <= p | None => True end /\
  match cats with Some cs => from_priority (effective_priority h e) ∈ cs | None => True end.

#[export] Instance selected_dec h p cs e : Decision (selected h p cs e).
Proof. unfold selected. destruct p, cs; apply _. Defined.

Definition sum_sizes (es : list DownloadFileEntry) : Z := foldr Z.add 0 (map file_size es).

Definition in_category (h : DownloadHeader) (c : PriorityCategory) (es : list DownloadFileEntry) : list DownloadFileEntry :=
  filter (fun e => from_priority (effective_priority h e) = c) es.

Lemma sum_sizes_app es es' : sum_sizes (es ++ es') = sum_sizes es + sum_sizes es'.
Proof. unfold sum_sizes. induction es as [|e es IH]; [done|]. cbn. lia. Qed.

Lemma plan_add_selected h p cs plan ie :
  plan_add h p cs plan ie =
  if decide (selected h p cs ie.2) then
    let category := priority_category h ie.2 in
    let s := default (0%nat, 0) (category_breakdown plan !! category) in
    {| plan_entries := plan_entries plan ++ [(ie.1, category, effective_priority h ie.2)];
       plan_total_size := wrap64 (plan_total_size plan + file_size ie.2);
       plan_essential_size :=
         if blocks_launch category then wrap64 (plan_essential_size plan + file_size ie.2) else plan_essential_size plan;
       category_breakdown := <[category := ((s.1 + 1)%nat, wrap64 (s.2 + file_size ie.2))]> (category_breakdown plan) |}
  else plan.
Proof.
  unfold plan_add, selected, priority_category. destruct p as [p|], cs as [cs|]; try destruct (Z.ltb_spec p (effective_priority h ie.2)); try case_bool_decide;
    case_decide; cbn [negb]; try done; naive_solver lia.
Qed.

(** The sums of a plan as it grows, modulo 2^64. *)
Record plan_inv (h : DownloadHeader) (sel : list (nat * DownloadFileEntry)) (p : DownloadPlan) : Prop := {
  pi_entries : plan_entries p = map (fun ie => (ie.1, priority_category h ie.2, effective_priority h ie.2)) sel;
  pi_total : plan_total_size p = wrap64 (sum_sizes sel.*2);
  pi_essential : plan_essential_size p = wrap64 (sum_sizes (filter (fun e => is_essential h e = true) sel.*2));
  pi_breakdown : forall c, category_breakdown p !! c =
    if bool_decide (in_category h c sel.*2 = []) then None
    else Some (length (in_category h c sel.*2), wrap64 (sum_sizes (in_category h c sel.*2)));
}.

Lemma wrap64_add a b : wrap64 (wrap64 a + b) = wrap64 (a + b).
Proof. unfold wrap64, wrap. apply Zplus_mod_idemp_l. Qed.

Lemma essential_blocks h e : is_essential h e = blocks_launch (priority_category h e).
Proof.
  unfold is_essential, priority_category, from_priority. set (p := effective_priority h e).
  destruct (Z.leb_spec p (-1)), (Z.eqb_spec p 0), (Z.leb_spec p 0); try lia; try done. by destruct (p <=? 2), (p <=? 5).
Qed.

Lemma selected_essential h e : selected h (Some 0) None e <-> selected h None (Some [Critical; Essential]) e.
Proof.
  pose proof (essential_blocks h e) as Hb. unfold is_essential, priority_category in Hb. unfold selected.
  destruct (Z.leb_spec (effective_priority h e) 0), (from_priority (effective_priority h e)); try done; set_solver by lia.
Qed.

Lemma plan_loop h p cs ies : plan_inv h (filter (fun ie => selected h p cs ie.2) ies) (fold_left (plan_add h p cs) ies plan_new).
Proof.
  induction ies as [|ie ies IH] using rev_ind; [constructor; [reflexivity..|]; intros c; cbn; by rewrite lookup_empty|].
  rewrite fold_left_app, filter_app. cbn [fold_left]. rewrite plan_add_selected, filter_cons, filter_nil. case_decide as Es; [|by rewrite app_nil_r].
  destruct IH as [I1 I2 I3 I4]. set (sel := filter _ ies) in *. cbn zeta. constructor; cbn [plan_entries plan_total_size plan_essential_size category_breakdown].
  - by rewrite I1, map_app.
  - rewrite I2, wrap64_add, fmap_app, sum_sizes_app. cbn. by rewrite Z.add_0_r.
  - rewrite <- essential_blocks, I3, fmap_app, filter_app. cbn [fmap list_fmap]. rewrite filter_cons, filter_nil. destruct (is_essential h ie.2) eqn:Ee.
    + rewrite decide_True by done. rewrite wrap64_add, sum_sizes_app. cbn. by rewrite Z.add_0_r.
    + rewrite decide_False by done. by rewrite app_nil_r.
  - intros c. unfold in_category. rewrite fmap_app, filter_app. fold (in_category h c sel.*2). cbn [fmap list_fmap]. rewrite filter_cons, filter_nil, lookup_insert.
    fold (priority_category h ie.2). case_decide as Ec.
    + subst c. rewrite bool_decide_eq_false_2 by (by destruct (in_category h _ _)). rewrite I4, length_app, sum_sizes_app. cbn [length]. case_bool_decide as E0; cbn.
      * rewrite E0. cbn. by rewrite Z.add_0_r.
      * rewrite wrap64_add. cbn. by rewrite Z.add_0_r.
    + by rewrite app_nil_r, I4.
Qed.

Lemma filter_imap_snd (P : DownloadFileEntry -> Prop) `{!forall e, Decision (P e)} (es : list DownloadFileEntry) :
  (filter (fun ie => P ie.2) (imap pair es)).*2 = filter P es.
Proof.
  induction es as [|e es IH] using rev_ind; [done|]. rewrite imap_app, !filter_app, fmap_app, IH. f_equal. cbn [imap].
  rewrite !filter_cons, !filter_nil. cbn [snd]. by case_decide.
Qed.

Lemma sum_sizes_filter (P : DownloadFileEntry -> Prop) `{!forall e, Decision (P e)} es :
  Forall (fun e => 0 <= file_size e) es -> 0 <= sum_sizes (filter P es) <= sum_sizes es.
Proof.
  unfold sum_sizes. induction 1 as [|e es He Hes IH]; [cbn; lia|]. rewrite filter_cons. case_decide; cbn in *; lia.
Qed.

Lemma imap_pair_keys h (P : nat * DownloadFileEntry -> Prop) `{!forall ie, Decision (P ie)} (es : list DownloadFileEntry) :
  NoDup (map (fun x => (x.2, x.1.1)) (map (fun ie => (ie.1, priority_category h ie.2, effective_priority h ie.2)) (filter P (imap pair es)))).
Proof.
  rewrite map_map. cbn. apply (NoDup_fmap_1 snd). rewrite <- list_fmap_compose. change (NoDup ((filter P (imap pair es)).*1)).
  eapply sublist_NoDup; [|apply fmap_sublist, sublist_filter]. induction es as [|e es IH] using rev_ind; [constructor|].
  rewrite imap_app, fmap_app. cbn. rewrite Nat.add_0_r. apply NoDup_snoc; [done|]. intros ([i x] & Ei & Hin)%list_elem_of_fmap.
  apply elem_of_lookup_imap in Hin as (j & y & [= E _] & Hj%lookup_lt_Some). cbn in *. lia.
Qed.

Lemma elem_of_imap_pair {A} (l : list A) i x : (i, x) ∈ imap pair l <-> l !! i = Some x.
Proof.
  rewrite elem_of_lookup_imap. split; [by intros (j & y & [= -> ->] & ?)|]. intros H. by exists i, x.
Qed.

(** The analysis keeps the sums a plan without filters has. *)
Lemma analysis_agrees es h :
  let a := analyze_priorities es h in
  let p := plan_create es h None None in
  a_total_size a = plan_total_size p /\ essential_size a = plan_essential_size p /\
  (fun s => (file_count s, total_size s)) <$> categories a = category_breakdown p.
Proof.
  unfold analyze_priorities, plan_create. cbn zeta. cbn [plan_total_size plan_essential_size category_breakdown].
  assert (forall a, (fun s => (file_count s, total_size s)) <$> categories (analysis_finalize a) = (fun s => (file_count s, total_size s)) <$> categories a) as Hf.
  { intros a. unfold analysis_finalize. destruct (total_files a =? 0)%nat; [done|]. cbn [categories]. rewrite <- map_fmap_compose. apply map_fmap_ext. done. }
  rewrite Hf. clear Hf. set (a := fold_left _ es _).
  assert (forall a, a_total_size (analysis_finalize a) = a_total_size a /\ essential_size (analysis_finalize a) = essential_size a) as Hf.
  { intros a'. unfold analysis_finalize. by destruct (total_files a' =? 0)%nat. }
  destruct (Hf a) as [-> ->]. clear Hf. unfold a. clear a. induction es as [|e es IH] using rev_ind.
  { split_and!; [done..|]. cbn. apply fmap_empty. }
  rewrite imap_app, !fold_left_app. cbn [imap fold_left]. rewrite plan_add_selected, decide_True by done. destruct IH as (I1 & I2 & I3). cbn zeta.
  cbn [analysis_add a_total_size essential_size categories plan_total_size plan_essential_size category_breakdown snd]. rewrite I1, I2. split_and!; [done..|].
  rewrite fmap_insert, I3. f_equal. rewrite <- I3, lookup_fmap. by destruct (categories _ !! _).
Qed.

(** ** Properties *)

(** C17: The binary format of download manifests: in all three versions every manifest
    the format can hold is written, and read back from its bytes whatever follows them;
    and a manifest that was read is one the format can hold, and is written as exactly
    the bytes that were read. *)
Theorem download_manifest_roundtrip :
  (forall m rest, manifest_ok m -> exists data, build m = Ok data /\ parse (data ++ rest) = Ok m) /\
  (forall data m, is_bytes data -> parse data = Ok m -> manifest_ok m /\ exists written rest, build m = Ok written /\ data = written ++ rest).
Proof.
  split.
  - intros m rest Hm. exists (manifest_bytes m). split; [by apply download_build_Ok|by apply download_parse_bytes].
  - intros data m Hb Hp. destruct (download_parse_Ok _ _ Hb Hp) as [Hm [rest ->]]. split; [done|]. exists (manifest_bytes m), rest.
    split; [by apply download_build_Ok|done].
Qed.

(** The run of a new builder, and of its specification. *)
Definition run_new (v : Z) (ops : list op) : outcome (dresult DownloadManifestBuilder) := b ←? Ret (builder_new v); run ops b.

Definition spec_new (v : Z) (ops : list op) : dresult Spec :=
  if (1 <=? v) && (v <=? 3) then
    spec_run ops {| s_version := v; s_checksums := false; s_flag_size := 0; s_base_priority := 0; s_files := []; s_tags := [] |}
  else Err (UnsupportedVersion v).

(** A tag the format can hold: a name without NUL, and a type that its number gives back. *)
Definition writable_tag (t : bytes * Install.TagType * list bool) : Prop :=
  no_nul t.1.1 /\ utf8_valid t.1.1 = true /\ u16 (Install.as_u16 t.1.2) /\ Install.from_u16 (Install.as_u16 t.1.2) = t.1.2.

Lemma run_new_ok v ops : Forall op_typed ops -> refines (run_new v ops) (spec_new v ops).
Proof.
  intros Hops. unfold run_new, spec_new, builder_new. destruct (Z.ltb_spec v 1), (Z.leb_spec 1 v); try lia; cbn [andb orb]; [apply refines_Err|].
  destruct (Z.ltb_spec 3 v), (Z.leb_spec v 3); try lia; [apply refines_Err|]. cbn [try_bind]. set (b := Build_DownloadManifestBuilder _ _ _ _ _ _ _).
  apply (run_ok ops b); [|done]. constructor; cbn; (done || constructor || (unfold i8; lia)).
Qed.

(** C16: The builder of download manifests: every sequence of its operations, of the
    configuration, files, tags and updates, does on the bit masks what the operations
    on lists of files do, with the same error, and never panics; the manifest can be
    built exactly when every file has a checksum or flags as configured and the counts
    fit, and it then has those files, tags and settings.  Its bytes parse to it when the
    format can hold its tags: names in UTF-8 without a NUL, and types that their number
    gives back.  The code does not check the tags, and with a NUL in a name what is read
    back is another manifest ([nul_name_is_misread]). *)
Theorem download_builder_refines v ops :
  Forall op_typed ops ->
  match spec_new v ops with
  | Err e => run_new v ops = Ret (Err e)
  | Ok s =>
      exists b, run_new v ops = Ret (Ok b) /\ view b = s /\
        if buildable s then
          exists m, builder_build b = Ok m /\ entries m = s_files s /\
            map (fun t => (Install.name t, Install.tag_type t, map (Install.has_file t) (seq 0 (length (entries m))))) (tags m) = s_tags s /\
            version (header m) = s_version s /\ has_checksum (header m) = s_checksums s /\ flag_size (header m) = s_flag_size s /\
            base_priority (header m) = s_base_priority s /\
            (Forall writable_tag (s_tags s) -> exists data, build m = Ok data /\ forall rest, parse (data ++ rest) = Ok m)
        else exists e, builder_build b = Err e
  end.
Proof.
  intros Hops. destruct (run_new_ok v ops Hops) as (x & Hr & Hs & Hok). rewrite Hs. destruct x as [b|e]; cbn [mbind result_bind]; [|done].
  exists b. split_and!; [done..|]. specialize (Hok b eq_refl). pose proof (builder_build_spec b Hok) as Hbuild.
  destruct (buildable (view b)); [|done]. destruct Hbuild as (m & Hm & Hh & He & Ht & Hv & Hes). exists m.
  destruct (built_header_ok b Hok) as (Hho & _ & Hver & Hc & Hf & Hp & _). rewrite Hh. split; [done|]. split; [done|]. split; [by rewrite He, Ht|]. split_and!; [done..|].
  intros Hw. assert (manifest_ok m) as Hmok.
  { split_and!; [by rewrite Hh|done| |done]. rewrite Ht. cbn [view s_tags] in Hw. rewrite Forall_map in Hw. eapply Forall_impl; [exact Hw|]. by intros t (? & ? & ? & ?). }
  exists (manifest_bytes m). split; [by apply download_build_Ok|]. intros rest. by apply download_parse_bytes.
Qed.

(** C18: A download plan lists exactly the entries that pass the filters, each with its
    category and effective priority, in the strict order of effective priority and
    index; its sizes and its counts per category are those of the entries chosen, as
    long as the sizes add up to less than 2^64; the analysis of the manifest has the
    sums of the plan without filters, and the plan of essential content is the plan of
    the two categories that block the launch. *)
Theorem download_plan_exact es h max_priority cats :
  Forall (fun e => 0 <= file_size e) es -> sum_sizes es < 2 ^ 64 ->
  let p := plan_create es h max_priority cats in
  let chosen := filter (selected h max_priority cats) es in
  strictly_sorted (fun x => (x.2, x.1.1)) (plan_entries p) /\
  (forall i c q, (i, c, q) ∈ plan_entries p <->
     exists e, es !! i = Some e /\ selected h max_priority cats e /\ c = priority_category h e /\ q = effective_priority h e) /\
  plan_total_size p = sum_sizes chosen /\ plan_essential_size p = sum_sizes (filter (fun e => is_essential h e = true) chosen) /\
  (forall c, category_breakdown p !! c =
     let l := in_category h c chosen in if bool_decide (l = []) then None else Some (length l, sum_sizes l)) /\
  (let a := analyze_priorities es h in
   let all := plan_create es h None None in
   a_total_size a = plan_total_size all /\ essential_size a = plan_essential_size all /\
   (fun s => (file_count s, total_size s)) <$> categories a = category_breakdown all) /\
  essential_only es h = by_categories es h [Critical; Essential].
Proof.
  intros Hn Hsum p chosen. destruct (plan_loop h max_priority cats (imap pair es)) as [I1 I2 I3 I4]. rewrite filter_imap_snd in I2, I3, I4. fold chosen in I2, I3, I4.
  assert (Forall (fun e => 0 <= file_size e) chosen) as Hnc.
  { apply Forall_forall. intros e [_ He]%list_elem_of_filter. by eapply Forall_forall in Hn. }
  assert (forall P `{!forall e, Decision (P e)}, wrap64 (sum_sizes (filter P chosen)) = sum_sizes (filter P chosen)) as Hw.
  { intros P HP. apply wrap_small. pose proof (sum_sizes_filter (selected h max_priority cats) es Hn). pose proof (sum_sizes_filter P chosen Hnc).
    unfold chosen in *. unfold in_u. lia. }
  assert (wrap64 (sum_sizes chosen) = sum_sizes chosen) as Hw0.
  { apply wrap_small. pose proof (sum_sizes_filter (selected h max_priority cats) es Hn). unfold chosen, in_u. lia. }
  unfold p, plan_create. cbn [plan_entries plan_total_size plan_essential_size category_breakdown]. split_and!.
  - apply sort_strict. rewrite I1. apply imap_pair_keys.
  - intros i c q. rewrite sort_by_key_perm, I1, list_elem_of_fmap. split.
    + intros ([i' e] & [= -> -> ->] & [Hs Hin]%list_elem_of_filter). apply elem_of_imap_pair in Hin. by exists e.
    + intros (e & He & Hs & -> & ->). exists (i, e). split; [done|]. apply list_elem_of_filter. split; [done|]. by apply elem_of_imap_pair.
  - by rewrite I2.
  - by rewrite I3, Hw.
  - intros c. rewrite I4. cbn zeta. unfold in_category. by rewrite Hw.
  - apply analysis_agrees.
  - apply analysis_agrees.
  - apply analysis_agrees.
  - unfold essential_only, by_categories, plan_create. assert (forall l plan, fold_left (plan_add h (Some 0) None) l plan =
      fold_left (plan_add h None (Some [Critical; Essential])) l plan) as ->; [|done].
    intros l. induction l as [|ie l IH]; intros plan; [done|]. cbn [fold_left]. rewrite IH. f_equal. rewrite !plan_add_selected.
    pose proof (selected_essential h ie.2). repeat case_decide; tauto.
Qed.

(** ** Concrete manifests *)

Definition sample_ops : list op :=
  [WithChecksums true; WithFlags 2; WithBasePriority (-1); AddTag [119] Install.Platform; AddFile (zeros 16) 1024 0;
   AddFile (replicate 16 1) (2 ^ 33) 5; AddFile (replicate 16 2) 7 (-3); Associate 0 [119]; Associate 1 [119]; Associate 2 [119];
   Disassociate 0 [119]; SetChecksum 0 10; SetChecksum 1 11; SetChecksum 2 12; SetFlags 2 [255; 1]; RemoveFile 1; UpdatePriority 0 4].

Lemma sample_typed : Forall op_typed sample_ops.
Proof. unfold sample_ops. repeat (apply Forall_cons; split; [cbn [op_typed]; try done; unfold i8; cbn; (lia || (split_and!; [done|done|lia]))|]). constructor. Qed.

Definition sample_spec : Spec :=
  {| s_version := 3; s_checksums := true; s_flag_size := 2; s_base_priority := -1;
     s_files := [{| encoding_key := zeros 16; file_size := 1024; priority := 4; checksum := Some 10; flags := Some [0; 0] |};
                 {| encoding_key := replicate 16 2; file_size := 7; priority := -3; checksum := Some 12; flags := Some [255; 1] |}];
     s_tags := [([119], Install.Platform, [false; true])] |}.

Lemma sample_runs : spec_new 3 sample_ops = Ok sample_spec.
Proof. vm_compute. reflexivity. Qed.

Lemma sample_writable : Forall writable_tag (s_tags sample_spec).
Proof.
  apply Forall_singleton. split_and!; cbn [fst snd].
  - repeat (constructor; [discriminate|]). constructor.
  - vm_compute. reflexivity.
  - decide_now.
  - reflexivity.
Qed.

Lemma download_builder_refines_witness :
  exists b m data, run_new 3 sample_ops = Ret (Ok b) /\ builder_build b = Ok m /\ entries m = s_files sample_spec /\ build m = Ok data /\
    parse (data ++ [1; 2; 3]) = Ok m.
Proof.
  pose proof (download_builder_refines 3 sample_ops sample_typed) as H. rewrite sample_runs in H. destruct H as (b & Hr & _ & H).
  replace (buildable sample_spec) with true in H by (vm_compute; reflexivity). destruct H as (m & Hm & He & _ & _ & _ & _ & _ & Hw).
  destruct (Hw sample_writable) as (data & Hd & Hp).
  exists b, m, data. split_and!; [done..|apply Hp].
Defined.

Definition sample_manifest : DownloadManifest :=
  {| header := new_v3 2 1 true 2 (-1); entries := s_files sample_spec;
     tags := [{| Install.name := [119]; Install.tag_type := Install.Platform; Install.bit_mask := [64] |}] |}.

Lemma download_manifest_roundtrip_witness :
  manifest_ok sample_manifest /\ exists data, build sample_manifest = Ok data /\ parse (data ++ [9]) = Ok sample_manifest.
Proof.
  assert (manifest_ok sample_manifest) as Hm.
  { split; [|split; [|split]].
    - cbn [header_ok header sample_manifest new_v3]. unfold base_ok, i8. split_and!; (done || decide_now).
    - repeat (apply Forall_cons; split; [split_and!; [done|decide_now|unfold i8; cbn; lia|eexists; (split; [reflexivity|decide_now])|by eexists]|]). constructor.
    - apply Forall_singleton. exact (Forall_inv sample_writable).
    - vm_compute. reflexivity. }
  split; [done|]. exact (proj1 download_manifest_roundtrip sample_manifest [9] Hm).
Defined.

Lemma download_plan_exact_witness :
  plan_entries (plan_create (entries sample_manifest) (header sample_manifest) (Some 4) None) = [(1%nat, Critical, -2)] /\
  plan_total_size (plan_create (entries sample_manifest) (header sample_manifest) (Some 4) None) = 7.
Proof.
  split; [vm_compute; reflexivity|]. destruct (download_plan_exact (entries sample_manifest) (header sample_manifest) (Some 4) None) as (_ & _ & -> & _).
  - repeat constructor; cbn; lia.
  - vm_compute. reflexivity.
  - vm_compute. reflexivity.
Defined.

(** ** What goes wrong *)

(** The preset for essential content sets the base priority to -10, which is subtracted:
    a file of priority 0, the essential one, becomes optional content. *)
Theorem essential_content_is_low :
  (b ← essential_content; b ← add_file b (zeros 16) 1 0; m ← builder_build b;
   Ok (map (priority_category (header m)) (entries m), essential_download_size m)) = Ok ([Low], 0).
Proof. vm_compute. reflexivity. Qed.

(** A file of the category [High] need not count as one of high priority. *)
Theorem high_is_not_high_priority :
  let h := new_v1 1 0 false in
  let e := {| encoding_key := zeros 16; file_size := 1; priority := 2; checksum := None; flags := None |} in
  priority_category h e = High /\ is_high_priority h e = false.
Proof. done. Qed.

(** An entry with flags of length zero passes the validation of a manifest without
    flags, and is read back without them. *)
Theorem empty_flags_are_lost :
  let e f := {| encoding_key := zeros 16; file_size := 1; priority := 2; checksum := None; flags := f |} in
  (data ← build {| header := new_v2 1 0 false 0; entries := [e (Some [])]; tags := [] |}; parse data) =
  Ok {| header := new_v2 1 0 false 0; entries := [e None]; tags := [] |}.
Proof. vm_compute. reflexivity. Qed.

(** A tag name may hold a NUL: the manifest is built, and what is read back has
    another name and type. *)
Theorem nul_name_is_misread :
  (b ← builder_new 1; m ← builder_build (add_tag b [97; 0; 98] Install.Platform); data ← build m; m ← parse data;
   Ok (map (fun t => (Install.name t, Install.tag_type t)) (tags m))) = Ok [([97], Install.Other 0x6200)].
Proof. vm_compute. reflexivity. Qed.

(** Two tags of one name: the builder associates files with the last, a lookup in the
    manifest finds the first. *)
Theorem duplicate_download_tag_loses_files :
  match run_new 1 [AddTag [119] Install.Platform; AddTag [119] Install.Platform; AddFile (zeros 16) 1 0; Associate 0 [119]] with
  | Ret (Ok b) => m ← builder_build b; Ok (entries_by_tag m [119])
  | _ => Err BinRead
  end = Ok [].
Proof. vm_compute. reflexivity. Qed.
