(* ===== verification/Tvfs.v ===== *)
(** * The TACT virtual file system

    The header, the path table (a serialised tree of names), the VFS table (spans), the
    container file table (encoding keys), the table of encoding specifications, the file
    and its builder (src/crates/cascette-formats/src/tvfs).  Strings are their UTF-8
    bytes.  A parser that works on [data[pos..end]] takes those bytes and [pos], which
    it only reports in errors. *)

From S2P Require Import Prelude Bytes Utf8 Cursor Collections Install Blte.
Local Open Scope Z_scope.

Module Tvfs.

Inductive TvfsError : Type :=
| UnsupportedVersion (v : Z)
| InvalidHeaderSize (got expected : Z)
| InvalidKeySize (ekey pkey : Z)
| PathTableTruncated (pos : nat)
| InvalidPathNode (pos : nat) (why : string)
| VarIntError (pos : nat)
| InvalidSpanCount (count : Z) (offset : nat)
| VfsTableTruncated (pos : nat)
| CftTableTruncated (pos : nat)
| InvalidTableOffset (offset : Z)
| BlteError
| IoError
| BinRw.

Notation tresult := (result TvfsError).

(** ** Variable-length integers *)

(** The loop of [read_varint]; [l] is the data from [offset] on.  At most five bytes
    are read, so five iterations are enough. *)
Fixpoint varint_loop (fuel : nat) (l : bytes) (offset : nat) (res shift : Z) : tresult (Z * nat) :=
  match fuel, l with
  | O, _ | _, [] => Err (VarIntError offset)
  | S fuel, byte :: l =>
      let res := Z.lor res (wrap32 (Z.shiftl (Z.land byte 0x7F) shift)) in
      if Z.land byte 0x80 =? 0 then Ok (res, S offset)
      else if 32 <=? shift + 7 then Err (VarIntError offset)
      else varint_loop fuel l (S offset) res (shift + 7)
  end.

Definition read_varint (data : bytes) (offset : nat) : tresult (Z * nat) := varint_loop 5 (drop offset data) offset 0 0.

Fixpoint varint_bytes (fuel : nat) (value : Z) : bytes :=
  match fuel with
  | O => []
  | S fuel =>
      let byte := Z.land value 0x7F in
      let value := Z.shiftr value 7 in
      if value =? 0 then [byte] else Z.lor byte 0x80 :: varint_bytes fuel value
  end.

(** A [u32] has five groups of seven bits. *)
Definition write_varint (value : Z) : bytes := varint_bytes 5 value.

(** [(32 - value.leading_zeros()).div_ceil(7)]: the number of bits over seven. *)
Definition varint_size (value : Z) : Z := if value =? 0 then 1 else (Z.log2 value + 1 + 6) / 7.

(** ** Header *)

Definition TVFS_FLAG_INCLUDE_CKEY : Z := 0x01.
Definition TVFS_FLAG_ENCODING_SPEC : Z := 0x02.
Definition TVFS_FLAG_PATCH_SUPPORT : Z := 0x04.

Definition has_flag (flags f : Z) : bool := negb (Z.land flags f =? 0).

Record TvfsHeader := {
  magic : bytes;
  format_version : Z;
  header_size : Z;
  ekey_size : Z;
  pkey_size : Z;
  flags : Z;
  path_table_offset : Z;
  path_table_size : Z;
  vfs_table_offset : Z;
  vfs_table_size : Z;
  cft_table_offset : Z;
  cft_table_size : Z;
  max_depth : Z;
  est_table_offset : option Z;
  est_table_size : option Z;
}.

Definition expected_header_size (flags : Z) : Z := if has_flag flags TVFS_FLAG_ENCODING_SPEC then 46 else 38.

Definition header_new (flags : Z) : TvfsHeader :=
  let est := if has_flag flags TVFS_FLAG_ENCODING_SPEC then Some 0 else None in
  {| magic := [84; 86; 70; 83]; format_version := 1; header_size := expected_header_size flags; ekey_size := 9; pkey_size := 9; flags := flags;
     path_table_offset := 0; path_table_size := 0; vfs_table_offset := 0; vfs_table_size := 0; cft_table_offset := 0; cft_table_size := 0;
     max_depth := 0; est_table_offset := est; est_table_size := est |}.

Definition validate_header (h : TvfsHeader) : tresult unit :=
  if negb (format_version h =? 1) then Err (UnsupportedVersion (format_version h))
  else if negb (header_size h =? expected_header_size (flags h)) then Err (InvalidHeaderSize (header_size h) (expected_header_size (flags h)))
  else if negb (ekey_size h =? 9) || negb (pkey_size h =? 9) then Err (InvalidKeySize (ekey_size h) (pkey_size h))
  else Ok tt.

Definition includes_content_keys (h : TvfsHeader) : bool := has_flag (flags h) TVFS_FLAG_INCLUDE_CKEY.
Definition has_encoding_spec (h : TvfsHeader) : bool := has_flag (flags h) TVFS_FLAG_ENCODING_SPEC.
Definition has_patch_support (h : TvfsHeader) : bool := has_flag (flags h) TVFS_FLAG_PATCH_SUPPORT.

(** The flag for write support is the one for the specifications. *)
Definition has_write_support (h : TvfsHeader) : bool := has_flag (flags h) TVFS_FLAG_ENCODING_SPEC.

(** The header with other tables; [update_table_info] and the assignments of [build]. *)
Definition with_tables (h : TvfsHeader) (po ps vo vs co cs depth : Z) (eo es : option Z) : TvfsHeader :=
  {| magic := magic h; format_version := format_version h; header_size := header_size h; ekey_size := ekey_size h; pkey_size := pkey_size h;
     flags := flags h; path_table_offset := po; path_table_size := ps; vfs_table_offset := vo; vfs_table_size := vs; cft_table_offset := co;
     cft_table_size := cs; max_depth := depth; est_table_offset := eo; est_table_size := es |}.

Definition update_table_info (h : TvfsHeader) (po ps vo vs co cs depth : Z) : TvfsHeader :=
  with_tables h po ps vo vs co cs depth (est_table_offset h) (est_table_size h).

Definition with_cft_size (h : TvfsHeader) (n : Z) : TvfsHeader :=
  with_tables h (path_table_offset h) (path_table_size h) (vfs_table_offset h) (vfs_table_size h) (cft_table_offset h) n (max_depth h)
    (est_table_offset h) (est_table_size h).

Definition offset_field_size (size : Z) : Z :=
  if 0xFFFFFF <? size then 4 else if 0xFFFF <? size then 3 else if 0xFF <? size then 2 else 1.

Definition cft_offs_size (h : TvfsHeader) : Z := offset_field_size (cft_table_size h).
Definition est_offs_size (h : TvfsHeader) : Z := offset_field_size (default 0 (est_table_size h)).

Definition cft_entry_size (h : TvfsHeader) : Z :=
  ekey_size h + 4 + (if includes_content_keys h then pkey_size h else 0) + (if has_encoding_spec h then est_offs_size h else 0) +
  (if has_patch_support h then cft_offs_size h else 0).

Definition read_header (input : bytes) : tresult (TvfsHeader * bytes) :=
  '(magic, i) ← read BinRw 4 input;
  if negb (bool_decide (magic = [84; 86; 70; 83])) then Err BinRw
  else
    '(format_version, i) ← read_be BinRw 1 i;
    '(header_size, i) ← read_be BinRw 1 i;
    '(ekey_size, i) ← read_be BinRw 1 i;
    '(pkey_size, i) ← read_be BinRw 1 i;
    '(flags, i) ← read_be BinRw 4 i;
    '(po, i) ← read_be BinRw 4 i;
    '(ps, i) ← read_be BinRw 4 i;
    '(vo, i) ← read_be BinRw 4 i;
    '(vs, i) ← read_be BinRw 4 i;
    '(co, i) ← read_be BinRw 4 i;
    '(cs, i) ← read_be BinRw 4 i;
    '(depth, i) ← read_be BinRw 2 i;
    let header eo es :=
      {| magic := magic; format_version := format_version; header_size := header_size; ekey_size := ekey_size; pkey_size := pkey_size; flags := flags;
         path_table_offset := po; path_table_size := ps; vfs_table_offset := vo; vfs_table_size := vs; cft_table_offset := co; cft_table_size := cs;
         max_depth := depth; est_table_offset := eo; est_table_size := es |} in
    if has_flag flags TVFS_FLAG_ENCODING_SPEC then
      '(eo, i) ← read_be BinRw 4 i;
      '(es, i) ← read_be BinRw 4 i;
      Ok (header (Some eo) (Some es), i)
    else Ok (header None None, i).

(** An optional field that is absent writes nothing. *)
Definition write_opt (o : option Z) : bytes := match o with Some v => to_be_bytes 4 v | None => [] end.

Definition write_header (h : TvfsHeader) : bytes :=
  magic h ++ to_be_bytes 1 (format_version h) ++ to_be_bytes 1 (header_size h) ++ to_be_bytes 1 (ekey_size h) ++ to_be_bytes 1 (pkey_size h) ++
  to_be_bytes 4 (flags h) ++ to_be_bytes 4 (path_table_offset h) ++ to_be_bytes 4 (path_table_size h) ++ to_be_bytes 4 (vfs_table_offset h) ++
  to_be_bytes 4 (vfs_table_size h) ++ to_be_bytes 4 (cft_table_offset h) ++ to_be_bytes 4 (cft_table_size h) ++ to_be_bytes 2 (max_depth h) ++
  (if has_flag (flags h) TVFS_FLAG_ENCODING_SPEC then write_opt (est_table_offset h) ++ write_opt (est_table_size h) else []).

(** ** Integers of one to four bytes *)

Definition read_be_uint (b : bytes) : Z := fold_left (fun val x => Z.lor (wrap32 (Z.shiftl val 8)) x) b 0.

Definition write_be_uint (val width : Z) : bytes := drop (4 - Z.to_nat width) (to_be_bytes 4 val).

(** ** Path table *)

#[warnings="-register-all"] Inductive PathTreeNode : Type := Node (name : bytes) (children : list PathTreeNode) (vfs_offset : option Z).

Definition node_name (n : PathTreeNode) : bytes := let 'Node name _ _ := n in name.
Definition node_children (n : PathTreeNode) : list PathTreeNode := let 'Node _ children _ := n in children.
Definition node_offset (n : PathTreeNode) : option Z := let 'Node _ _ o := n in o.

Record PathFileEntry := { path : bytes; vfs_offset : Z }.

Record PathTable := { path_data : bytes; files : list PathFileEntry; root : PathTreeNode }.

Definition TVFS_FOLDER_NODE : Z := 0x80000000.
Definition TVFS_FOLDER_SIZE_MASK : Z := 0x7FFFFFFF.
Definition NODE_VALUE_MARKER : Z := 0xFF.
Definition PATH_SEPARATOR : Z := 0x00.

(** The fragments of a name, up to the marker; every fragment takes at least a byte. *)
Fixpoint parse_name (fuel : nat) (pos : nat) (l : bytes) (parts : list bytes) : outcome (tresult (nat * bytes * list bytes)) :=
  match fuel with
  | O => Panic
  | S fuel =>
      match l with
      | [] => Ret (Err (PathTableTruncated pos))
      | b :: l' =>
          if b =? NODE_VALUE_MARKER then Ret (Ok (pos, l, parts))
          else
            let name_len := Z.to_nat b in
            if (length l' <? name_len)%nat then Ret (Err (PathTableTruncated (pos + 1)))
            else
              let parts := parts ++ [take name_len l'] in
              let rest := drop name_len l' in
              let pos := (pos + 1 + name_len)%nat in
              match rest with
              | [] => Ret (Err (PathTableTruncated pos))
              | c :: rest' =>
                  if c =? NODE_VALUE_MARKER then Ret (Ok (pos, rest, parts))
                  else if c =? PATH_SEPARATOR then
                    if match rest' with d :: _ => d =? NODE_VALUE_MARKER | [] => false end then Ret (Ok ((pos + 1)%nat, rest', parts))
                    else parse_name fuel (pos + 1) rest' parts
                  else parse_name fuel pos rest parts
              end
      end
  end.

Definition build_name_from_parts (parts : list bytes) : bytes := from_utf8_lossy (concat parts).

(** [format!("{}/{}", ...)] with its two special cases. *)
Definition join_path (current_path name : bytes) : bytes :=
  if (length current_path =? 0)%nat then name
  else if (length name =? 0)%nat then current_path
  else current_path ++ [47] ++ name.

(** What is left of a slice after a leading separator. *)
Definition skip_separator (pos : nat) (l : bytes) : nat * bytes :=
  match l with
  | b :: l' => if b =? PATH_SEPARATOR then ((pos + 1)%nat, l') else (pos, l)
  | [] => (pos, l)
  end.

(** The name and the node value of one entry. *)
Definition parse_entry (fuel pos : nat) (l : bytes) : outcome (tresult (nat * bytes * bytes * Z)) :=
  let '(pos, l) := skip_separator pos l in
  '(pos, l, parts) ←? parse_name fuel pos l [];
  match l with
  | b :: l =>
      if negb (b =? NODE_VALUE_MARKER) then Ret (Err (InvalidPathNode pos "expected 0xFF node value marker"))
      else if (length l <? 4)%nat then Ret (Err (PathTableTruncated (pos + 1)))
      else Ret (Ok ((pos + 5)%nat, drop 4 l, build_name_from_parts parts, from_be_bytes (take 4 l)))
  | [] => Ret (Err (InvalidPathNode pos "expected 0xFF node value marker"))
  end.

(** The files and the children of a directory, in the order they are found. *)
Fixpoint parse_directory (fuel pos : nat) (l current_path : bytes) : outcome (tresult (list PathFileEntry * list PathTreeNode)) :=
  match fuel with
  | O => Panic
  | S fuel =>
      if (length l =? 0)%nat then Ret (Ok ([], []))
      else
        '(pos, l, name, node_value) ←? parse_entry (length l) pos l;
        let full_path := join_path current_path name in
        if has_flag node_value TVFS_FOLDER_NODE then
          let folder_data_len := Z.to_nat (Z.land node_value TVFS_FOLDER_SIZE_MASK) in
          if (folder_data_len <? 4)%nat then Ret (Err (InvalidPathNode (pos - 4) "folder data length too small"))
          else
            let children_len := (folder_data_len - 4)%nat in
            if (length l <? children_len)%nat then Ret (Err (PathTableTruncated pos))
            else
              '(fs, children) ←? parse_directory fuel pos (take children_len l) full_path;
              '(fs', siblings) ←? parse_directory fuel (pos + children_len) (drop children_len l) current_path;
              Ret (Ok (fs ++ fs', Node name children None :: siblings))
        else
          '(fs', siblings) ←? parse_directory fuel pos l current_path;
          Ret (Ok ({| path := full_path; vfs_offset := node_value |} :: fs', Node name [] (Some node_value) :: siblings))
  end.

(** Every entry of a directory takes at least five bytes. *)
Definition path_parse (data : bytes) : outcome (tresult PathTable) :=
  '(fs, children) ←? parse_directory (S (length data)) 0 data [];
  Ret (Ok {| path_data := data; files := fs; root := Node [] children None |}).

Definition path_resolve (t : PathTable) (p : bytes) : option Z := vfs_offset <$> find_by path p (files t).

Definition file_count (t : PathTable) : nat := length (files t).

(** [slice::chunks]; [fuel] is at least the number of bytes. *)
Fixpoint chunks (fuel n : nat) (l : bytes) : list bytes :=
  match fuel, l with
  | O, _ | _, [] => []
  | S fuel, _ => take n l :: chunks fuel n (drop n l)
  end.

Definition write_fragment (s : bytes) : bytes := wrap8 (Z.of_nat (length s)) :: s.

Definition write_name (name : bytes) : bytes :=
  if (length name =? 0)%nat then []
  else PATH_SEPARATOR :: (if (length name <=? 255)%nat then write_fragment name else concat (map write_fragment (chunks (length name) 255 name))).

Fixpoint build_entry (n : PathTreeNode) : bytes :=
  match n with
  | Node name children o =>
      write_name name ++ [NODE_VALUE_MARKER] ++
      match o with
      | Some vfs_offset => to_be_bytes 4 vfs_offset
      | None =>
          let children_data := concat (map build_entry children) in
          let folder_data_len := wrap32 (Z.of_nat (length children_data) + 4) in
          to_be_bytes 4 (Z.lor TVFS_FOLDER_NODE (Z.land folder_data_len TVFS_FOLDER_SIZE_MASK)) ++ children_data
      end
  end.

Definition build_directory (n : PathTreeNode) : bytes := concat (map build_entry (node_children n)).

Definition path_build (root : PathTreeNode) : bytes := build_directory root.

(** ** VFS table *)

Record VfsSpan := { file_offset : Z; span_length : Z; cft_offset : Z }.
Record VfsEntry := { v_offset : Z; spans : list VfsSpan }.
Record VfsTable := { vfs_data : bytes; v_entries : list VfsEntry }.

Definition MAX_FILE_SPAN_COUNT : Z := 224.

Definition span_size (h : TvfsHeader) : nat := (4 + 4 + Z.to_nat (cft_offs_size h))%nat.

(** The [for] loop over the spans of an entry, behind the check that they are there. *)
Fixpoint read_spans (h : TvfsHeader) (n : nat) (l : bytes) : list VfsSpan * bytes :=
  match n with
  | O => ([], l)
  | S n =>
      let width := Z.to_nat (cft_offs_size h) in
      let span := {| file_offset := from_be_bytes (take 4 l); span_length := from_be_bytes (take 4 (drop 4 l));
                     cft_offset := read_be_uint (take width (drop 8 l)) |} in
      let '(ss, rest) := read_spans h n (drop (span_size h) l) in
      (span :: ss, rest)
  end.

(** The [while] loop; every entry takes at least a byte. *)
Fixpoint vfs_loop (fuel : nat) (h : TvfsHeader) (pos : nat) (l : bytes) : outcome (tresult (list VfsEntry)) :=
  match fuel with
  | O => Panic
  | S fuel =>
      match l with
      | [] => Ret (Ok [])
      | span_count :: l =>
          let entry_offset := wrap32 (Z.of_nat pos) in
          let needed := (Z.to_nat span_count * span_size h)%nat in
          if MAX_FILE_SPAN_COUNT <? span_count then
            if (length l <? needed)%nat then Ret (Ok [])
            else vfs_loop fuel h (pos + 1 + needed) (drop needed l)
          else if span_count =? 0 then
            es ←? vfs_loop fuel h (pos + 1) l;
            Ret (Ok ({| v_offset := entry_offset; spans := [] |} :: es))
          else if (length l <? needed)%nat then Ret (Err (VfsTableTruncated (pos + 1)))
          else
            let '(ss, rest) := read_spans h (Z.to_nat span_count) l in
            es ←? vfs_loop fuel h (pos + 1 + needed) rest;
            Ret (Ok ({| v_offset := entry_offset; spans := ss |} :: es))
      end
  end.

Definition vfs_parse (data : bytes) (h : TvfsHeader) : outcome (tresult VfsTable) :=
  es ←? vfs_loop (S (length data)) h 0 data;
  Ret (Ok {| vfs_data := data; v_entries := es |}).

Definition vfs_read_entry_at (data : bytes) (offset : nat) (h : TvfsHeader) : tresult VfsEntry :=
  match drop offset data with
  | [] => Err (VfsTableTruncated offset)
  | span_count :: l =>
      if MAX_FILE_SPAN_COUNT <? span_count then Err (InvalidSpanCount span_count offset)
      else if (length l <? Z.to_nat span_count * span_size h)%nat then Err (VfsTableTruncated (offset + 1))
      else Ok {| v_offset := wrap32 (Z.of_nat offset); spans := (read_spans h (Z.to_nat span_count) l).1 |}
  end.

Definition get_entry_by_index (t : VfsTable) (index : nat) : option VfsEntry := v_entries t !! index.

Definition write_span (h : TvfsHeader) (s : VfsSpan) : bytes :=
  to_be_bytes 4 (file_offset s) ++ to_be_bytes 4 (span_length s) ++ write_be_uint (cft_offset s) (cft_offs_size h).

Definition write_vfs_entry (h : TvfsHeader) (e : VfsEntry) : bytes := wrap8 (Z.of_nat (length (spans e))) :: concat (map (write_span h) (spans e)).

Definition vfs_build (es : list VfsEntry) (h : TvfsHeader) : bytes := concat (map (write_vfs_entry h) es).

Definition vfs_table_size_of (t : VfsTable) : Z := wrap32 (Z.of_nat (length (vfs_data t))).

(** ** Container file table *)

Record ContainerEntry := {
  c_offset : Z;
  ekey : bytes;
  encoded_size : Z;
  content_key : option bytes;
  est_index : option Z;
  patch_offset : option Z;
}.

Record ContainerFileTable := { cft_data : bytes; c_entries : list ContainerEntry }.

Definition container_new (ekey : bytes) (encoded_size : Z) (content_key : option bytes) : ContainerEntry :=
  {| c_offset := 0; ekey := ekey; encoded_size := encoded_size; content_key := content_key; est_index := None; patch_offset := None |}.

Definition has_content_key (e : ContainerEntry) : bool := bool_decide (is_Some (content_key e)).

(** A field that is there when [present], of [n] bytes. *)
Definition read_field {A} (present : bool) (n : nat) (f : bytes -> A) (pos : nat) (l : bytes) : tresult (option A * nat * bytes) :=
  if present then
    if (length l <? n)%nat then Err (CftTableTruncated pos) else Ok (Some (f (take n l)), (pos + n)%nat, drop n l)
  else Ok (None, pos, l).

Definition cft_read_entry_at (data : bytes) (offset : nat) (h : TvfsHeader) : tresult ContainerEntry :=
  let n := Z.to_nat (ekey_size h) in
  let l := drop offset data in
  if (length l <? n)%nat then Err (CftTableTruncated offset)
  else
    let pos := (offset + n)%nat in
    let ekey := take n l in
    let l := drop n l in
    if (length l <? 4)%nat then Err (CftTableTruncated pos)
    else
      let encoded_size := from_be_bytes (take 4 l) in
      '(content_key, pos, l) ← read_field (includes_content_keys h) (Z.to_nat (pkey_size h)) id (pos + 4) (drop 4 l);
      '(est_index, pos, l) ← read_field (has_encoding_spec h) (Z.to_nat (est_offs_size h)) read_be_uint pos l;
      '(patch_offset, _, _) ← read_field (has_patch_support h) (Z.to_nat (cft_offs_size h)) read_be_uint pos l;
      Ok {| c_offset := wrap32 (Z.of_nat offset); ekey := ekey; encoded_size := encoded_size; content_key := content_key; est_index := est_index;
            patch_offset := patch_offset |}.

(** The [while] loop; an entry has at least four bytes, so the length of the data is
    enough. *)
Fixpoint cft_loop (fuel : nat) (h : TvfsHeader) (data : bytes) (offset : nat) : outcome (tresult (list ContainerEntry)) :=
  match fuel with
  | O => Panic
  | S fuel =>
      let entry_size := Z.to_nat (cft_entry_size h) in
      if (length data <? offset + entry_size)%nat then Ret (Ok [])
      else
        e ←? Ret (cft_read_entry_at data offset h);
        es ←? cft_loop fuel h data (offset + entry_size);
        Ret (Ok (e :: es))
  end.

Definition cft_parse (data : bytes) (h : TvfsHeader) : outcome (tresult ContainerFileTable) :=
  es ←? cft_loop (S (length data)) h data 0;
  Ret (Ok {| cft_data := data; c_entries := es |}).

Definition get_entry_at_offset (t : ContainerFileTable) (offset : Z) (h : TvfsHeader) : tresult ContainerEntry :=
  cft_read_entry_at (cft_data t) (Z.to_nat offset) h.

(** [self.data.get(start..end)]; the sum of a [u32] and a key size fits a [usize]. *)
Definition ekey_at (t : ContainerFileTable) (offset : Z) (n : nat) : option bytes :=
  let start := Z.to_nat offset in
  if (start + n <=? length (cft_data t))%nat then Some (take n (drop start (cft_data t))) else None.

Definition get_entry (t : ContainerFileTable) (index : nat) : option ContainerEntry := c_entries t !! index.

Definition cft_calculate_size (h : TvfsHeader) (entry_count : nat) : Z := wrap32 (Z.of_nat entry_count * cft_entry_size h).

(** A key cut or padded to [n] bytes. *)
Definition fit (n : nat) (k : bytes) : bytes := take n k ++ zeros (n - length k).

Definition write_container (h : TvfsHeader) (e : ContainerEntry) : bytes :=
  fit (Z.to_nat (ekey_size h)) (ekey e) ++ to_be_bytes 4 (encoded_size e) ++
  (if includes_content_keys h then fit (Z.to_nat (pkey_size h)) (default [] (content_key e)) else []) ++
  (if has_encoding_spec h then write_be_uint (default 0 (est_index e)) (est_offs_size h) else []) ++
  (if has_patch_support h then write_be_uint (default 0 (patch_offset e)) (cft_offs_size h) else []).

Definition cft_build (es : list ContainerEntry) (h : TvfsHeader) : bytes := concat (map (write_container h) es).

(** ** Encoding specifications *)

(** The specifications are the texts between NULs; empty ones and ones that are not
    UTF-8 are left out, as is what follows the last NUL. *)
Fixpoint est_scan (l current : bytes) : list bytes :=
  match l with
  | [] => []
  | b :: l =>
      if b =? 0 then (if (0 <? length current)%nat && utf8_valid current then [current] else []) ++ est_scan l []
      else est_scan l (current ++ [b])
  end.

Definition est_read (size : nat) (input : bytes) : tresult (list bytes) :=
  '(data, _) ← read BinRw size input; Ok (est_scan data []).

Definition est_write (specs : list bytes) : bytes := concat (map (fun s => s ++ [0]) specs).

Definition get_spec (specs : list bytes) (index : nat) : option bytes := specs !! index.

Definition est_calculate_size (specs : list bytes) : Z := wrap32 (foldr Z.add 0 (map (fun s => Z.of_nat (length s) + 1) specs)).

(** ** The file *)

Record TvfsFile := {
  header : TvfsHeader;
  path_table : PathTable;
  vfs_table : VfsTable;
  container_table : ContainerFileTable;
  est_table : option (list bytes);
}.

(** A table as a slice of the data. *)
Definition table (data : bytes) (offset size : Z) : tresult bytes :=
  if Z.of_nat (length data) <? offset + size then Err (InvalidTableOffset offset) else Ok (slice (Z.to_nat offset) (Z.to_nat (offset + size)) data).

Definition parse (data : bytes) : outcome (tresult TvfsFile) :=
  '(h, _) ←? Ret (read_header data);
  _ ←? Ret (validate_header h);
  path_data ←? Ret (table data (path_table_offset h) (path_table_size h));
  vfs_data ←? Ret (table data (vfs_table_offset h) (vfs_table_size h));
  cft_data ←? Ret (table data (cft_table_offset h) (cft_table_size h));
  path_table ←? path_parse path_data;
  vfs_table ←? vfs_parse vfs_data h;
  container_table ←? cft_parse cft_data h;
  est_table ←? Ret (if has_encoding_spec h then
                      match est_table_offset h, est_table_size h with
                      | Some offset, Some size =>
                          est_data ← table data offset size;
                          specs ← est_read (Z.to_nat size) est_data;
                          Ok (Some specs)
                      | _, _ => Ok None
                      end
                    else Ok None);
  Ret (Ok {| header := h; path_table := path_table; vfs_table := vfs_table; container_table := container_table; est_table := est_table |}).

(** [build]: the layout is header, paths, specifications, containers, spans. *)
Definition build (f : TvfsFile) : bytes :=
  let path_data := path_data (path_table f) in
  let vfs_data := vfs_data (vfs_table f) in
  let cft_data := cft_build (c_entries (container_table f)) (header f) in
  let est_data := est_write <$> est_table f in
  let len (l : bytes) := wrap32 (Z.of_nat (length l)) in
  let path_offset := header_size (header f) in
  let est_offset := wrap32 (path_offset + len path_data) in
  let cft_start := match est_data with Some est => wrap32 (est_offset + len est) | None => est_offset end in
  let h :=
    with_tables (header f) path_offset (len path_data) (wrap32 (cft_start + len cft_data)) (len vfs_data) cft_start (len cft_data)
      (max_depth (header f))
      (match est_data with Some _ => Some est_offset | None => est_table_offset (header f) end)
      (match est_data with Some est => Some (len est) | None => est_table_size (header f) end) in
  write_header h ++ path_data ++ default [] est_data ++ cft_data ++ vfs_data.

(** Euclid's algorithm; [fuel] is more than [b]. *)
Fixpoint gcd_loop (fuel : nat) (a b : Z) : Z :=
  match fuel with
  | O => a
  | S fuel => if b =? 0 then a else gcd_loop fuel b (a mod b)
  end.

Definition gcd (a b : Z) : Z := gcd_loop (S (Z.to_nat b)) a b.

Definition all_offsets (f : TvfsFile) : list Z := concat (map (fun e => map cft_offset (spans e)) (v_entries (vfs_table f))).

Definition cft_stride (f : TvfsFile) : option Z :=
  let stride := fold_left gcd (all_offsets f) 0 in
  if stride =? 0 then None else Some stride.

(** Of the divisor zero only zero is a multiple. *)
Definition is_multiple_of (a b : Z) : bool := if b =? 0 then a =? 0 else a mod b =? 0.

Definition resolve_path (f : TvfsFile) (p : bytes) : option bytes :=
  vfs_offset ← path_resolve (path_table f) p;
  vfs_entry ← find_by v_offset vfs_offset (v_entries (vfs_table f));
  span ← head (spans vfs_entry);
  let stride := default (cft_entry_size (header f)) (cft_stride f) in
  if negb (is_multiple_of (cft_offset span) stride) then None
  else ekey_at (container_table f) (cft_offset span) (Z.to_nat (ekey_size (header f))).

Definition enumerate_files (f : TvfsFile) : list (PathFileEntry * option VfsEntry) :=
  map (fun file => (file, find_by v_offset (vfs_offset file) (v_entries (vfs_table f)))) (files (path_table f)).

Section Load.
Context (zlib_reads : bytes -> list bytes * bool) (lz4_decompress_with_dict : bytes -> nat -> bytes -> option bytes).

Definition load_from_blte (blte_data : bytes) : outcome (tresult TvfsFile) :=
  blte ← Blte.parse blte_data;
  match blte with
  | Err _ => Ret (Err IoError)
  | Ok blte =>
      data ← Blte.decompress zlib_reads lz4_decompress_with_dict blte;
      match data with
      | Err _ => Ret (Err BlteError)
      | Ok data => parse data
      end
  end.

End Load.

(** ** Builder *)

Record FileRecord := {
  f_path : bytes; f_ekey : bytes; f_encoded_size : Z; f_content_size : Z; f_content_key : option bytes; f_est_index : option Z;
}.

Record TvfsBuilder := { b_files : list FileRecord; b_flags : Z; est_specs : list bytes }.

Definition builder_new : TvfsBuilder := {| b_files := []; b_flags := TVFS_FLAG_INCLUDE_CKEY; est_specs := [] |}.
Definition with_flags (flags : Z) : TvfsBuilder := {| b_files := []; b_flags := flags; est_specs := [] |}.

Definition add_est_spec (b : TvfsBuilder) (spec : bytes) : TvfsBuilder :=
  {| b_files := b_files b; b_flags := b_flags b; est_specs := est_specs b ++ [spec] |}.

Definition add_record (b : TvfsBuilder) (r : FileRecord) : TvfsBuilder :=
  {| b_files := b_files b ++ [r]; b_flags := b_flags b; est_specs := est_specs b |}.

Definition add_file (b : TvfsBuilder) (path ekey : bytes) (encoded_size content_size : Z) (content_key : option bytes) : TvfsBuilder :=
  add_record b {| f_path := path; f_ekey := ekey; f_encoded_size := encoded_size; f_content_size := content_size; f_content_key := content_key;
                  f_est_index := None |}.

Definition add_file_with_est (b : TvfsBuilder) (path ekey : bytes) (encoded_size content_size : Z) (content_key : option bytes) (est_index : Z) :
    TvfsBuilder :=
  add_record b {| f_path := path; f_ekey := ekey; f_encoded_size := encoded_size; f_content_size := content_size; f_content_key := content_key;
                  f_est_index := Some est_index |}.

(** [insert_path], on the children of a node: a leaf that is there gets the offset and
    keeps its children; a path continues below whatever node has its name. *)
Fixpoint insert_path (components : list bytes) (o : Z) (children : list PathTreeNode) : list PathTreeNode :=
  match components with
  | [] => children
  | component :: components' =>
      let fix go (l : list PathTreeNode) : list PathTreeNode :=
        match l with
        | [] =>
            [match components' with
             | [] => Node component [] (Some o)
             | _ => Node component (insert_path components' o []) None
             end]
        | Node name below off :: l =>
            if bool_decide (name = component) then
              match components' with
              | [] => Node name below (Some o) :: l
              | _ => Node name (insert_path components' o below) off :: l
              end
            else Node name below off :: go l
        end in
      go children
  end.

Definition components (p : bytes) : list bytes := filter (fun s => (length s =? 0)%nat = false) (Install.split_on 47 p).

Definition build_path_tree (files : list FileRecord) (offsets : list Z) : PathTreeNode :=
  Node [] (fold_left (fun children fo => insert_path (components (f_path fo.1)) fo.2 children) (zip files offsets) []) None.

Fixpoint calculate_max_depth (n : PathTreeNode) (depth : Z) : Z :=
  match n with
  | Node _ children _ => fold_left (fun m child => Z.max m (calculate_max_depth child (wrap 16 (depth + 1)))) children depth
  end.

Definition container_of (r : FileRecord) (offset : Z) : ContainerEntry :=
  {| c_offset := offset; ekey := f_ekey r; encoded_size := f_encoded_size r; content_key := f_content_key r; est_index := f_est_index r;
     patch_offset := None |}.

(** The header the widths of the offsets are taken from: two rounds of estimation. *)
Definition sized_header (flags : Z) (n : nat) : TvfsHeader * Z :=
  let h := header_new flags in
  let h := with_cft_size h (wrap32 (Z.of_nat n * cft_entry_size h)) in
  let entry_size := cft_entry_size h in
  (with_cft_size h (wrap32 (Z.of_nat n * entry_size)), entry_size).

Definition builder_file (b : TvfsBuilder) : TvfsFile :=
  let files := sort_by_key f_path (b_files b) in
  let n := length files in
  let '(h, entry_size) := sized_header (b_flags b) n in
  let cft_entries := imap (fun i r => container_of r (wrap32 (Z.of_nat i * entry_size))) files in
  let span_wire_size := 1 + 4 + 4 + cft_offs_size h in
  let vfs_entries :=
    imap (fun i (rc : FileRecord * ContainerEntry) =>
      {| v_offset := wrap32 (Z.of_nat i * span_wire_size);
         spans := [{| file_offset := 0; span_length := f_content_size rc.1; cft_offset := c_offset rc.2 |}] |}) (zip files cft_entries) in
  let root := build_path_tree files (map v_offset vfs_entries) in
  let path_data := path_build root in
  let vfs_data := vfs_build vfs_entries h in
  let cft_data := cft_build cft_entries h in
  let est_table :=
    if has_flag (b_flags b) TVFS_FLAG_ENCODING_SPEC && negb (length (est_specs b) =? 0)%nat then Some (est_specs b) else None in
  let est_data := est_write <$> est_table in
  let len (l : bytes) := wrap32 (Z.of_nat (length l)) in
  let path_offset := header_size h in
  let est_offset := wrap32 (path_offset + len path_data) in
  let cft_start := match est_data with Some est => wrap32 (est_offset + len est) | None => est_offset end in
  let h :=
    with_tables h path_offset (len path_data) (wrap32 (cft_start + len cft_data)) (len vfs_data) cft_start (len cft_data) (calculate_max_depth root 0)
      (match est_data with Some _ => Some est_offset | None => est_table_offset h end)
      (match est_data with Some est => Some (len est) | None => est_table_size h end) in
  {| header := h; path_table := {| path_data := path_data; files := []; root := root |};
     vfs_table := {| vfs_data := vfs_data; v_entries := vfs_entries |};
     container_table := {| cft_data := cft_data; c_entries := cft_entries |}; est_table := est_table |}.

Definition builder_build (b : TvfsBuilder) : bytes := build (builder_file b).

End Tvfs.
