(* ===== verification/TvfsTheorems.v ===== *)
(** * The TACT virtual file system: the theorems

    Parsing ends on every input; a path table that was written is read back as its
    tree; every file given to the builder is found again, with its encoding key,
    through the path table, the spans and the container table of the file it writes. *)

From S2P Require Import Prelude Bytes Utf8 Cursor Collections Install InstallTheorems Tvfs.
Import Tvfs.
Local Open Scope Z_scope.

(** ** Parsing ends *)

Lemma parse_name_total fuel pos l parts :
  (0 < fuel)%nat -> (length l <= fuel)%nat ->
  exists r, parse_name fuel pos l parts = Ret r /\
    forall pos' l' parts', r = Ok (pos', l', parts') -> (length l' <= length l)%nat /\ exists t, l' = NODE_VALUE_MARKER :: t.
Proof.
  revert pos l parts. induction fuel as [|fuel IH]; intros pos l parts H0 Hf; [lia|]. cbn [parse_name].
  destruct l as [|b l]; [by eexists|]. cbn [length] in Hf. destruct (Z.eqb_spec b NODE_VALUE_MARKER) as [->|_].
  { eexists. split; [done|]. intros ? ? ? [= <- <- <-]. split; [done|by eexists]. }
  destruct (Nat.ltb_spec (length l) (Z.to_nat b)); [by eexists|]. destruct (drop (Z.to_nat b) l) as [|c rest] eqn:Er; [by eexists|].
  assert (S (length rest) <= length l)%nat as Hlen by (apply (f_equal length) in Er; rewrite length_drop in Er; cbn [length] in Er; lia).
  destruct (Z.eqb_spec c NODE_VALUE_MARKER) as [->|_].
  { eexists. split; [done|]. intros ? ? ? [= <- <- <-]. split; [cbn [length]; lia|by eexists]. }
  destruct (Z.eqb_spec c PATH_SEPARATOR) as [_|_].
  - destruct (match rest with d :: _ => d =? NODE_VALUE_MARKER | [] => false end) eqn:Ed.
    + destruct rest as [|d rest]; [done|]. apply Z.eqb_eq in Ed as ->. eexists. split; [done|]. intros ? ? ? [= <- <- <-].
      split; [cbn [length] in *; lia|by eexists].
    + destruct (IH (pos + 1 + Z.to_nat b + 1)%nat rest (parts ++ [take (Z.to_nat b) l])) as (r & -> & Hr); [lia..|]. exists r. split; [done|].
      intros pos' l' parts' E. destruct (Hr _ _ _ E) as [? ?]. split; [cbn [length]; lia|done].
  - destruct (IH (pos + 1 + Z.to_nat b)%nat (c :: rest) (parts ++ [take (Z.to_nat b) l])) as (r & -> & Hr); [lia|cbn [length]; lia|]. exists r. split; [done|].
    intros pos' l' parts' E. destruct (Hr _ _ _ E) as [? ?]. split; [cbn [length] in *; lia|done].
Qed.

Lemma parse_entry_total pos l :
  l <> [] ->
  exists r, parse_entry (length l) pos l = Ret r /\ forall pos' l' name v, r = Ok (pos', l', name, v) -> (length l' + 5 <= length l)%nat.
Proof.
  intros Hl. unfold parse_entry. destruct l as [|b l]; [done|]. assert (exists pos1 l1, skip_separator pos (b :: l) = (pos1, l1) /\ (length l1 <= S (length l))%nat) as (pos1 & l1 & -> & Hl1).
  { unfold skip_separator. destruct (b =? PATH_SEPARATOR); do 2 eexists; (split; [done|]); cbn [length]; lia. }
  destruct (parse_name_total (length (b :: l)) pos1 l1 []) as (r & -> & Hr); [cbn [length]; lia|cbn [length]; lia|]. destruct r as [[[pos2 l2] parts]|e]; cbn [try_bind]; [|by eexists].
  destruct (Hr pos2 l2 parts eq_refl) as [Hl2 (t & ->)]. change (negb (NODE_VALUE_MARKER =? NODE_VALUE_MARKER)) with false. cbn iota.
  destruct (Nat.ltb_spec (length t) 4); [by eexists|]. eexists. split; [done|]. intros ? ? ? ? [= <- <- <- <-]. rewrite length_drop. cbn [length] in *. lia.
Qed.

Lemma parse_directory_total fuel pos l cur : (length l < fuel)%nat -> exists r, parse_directory fuel pos l cur = Ret r.
Proof.
  revert pos l cur. induction fuel as [|fuel IH]; intros pos l cur Hf; [lia|]. cbn [parse_directory]. destruct (Nat.eqb_spec (length l) 0) as [|Hl]; [by eexists|].
  destruct (parse_entry_total pos l) as (r & -> & Hr); [by intros ->|]. destruct r as [[[[pos1 l1] name] v]|e]; cbn [try_bind]; [|by eexists].
  pose proof (Hr _ _ _ _ eq_refl) as Hl1. clear Hr. destruct (has_flag v TVFS_FOLDER_NODE).
  - set (n := Z.to_nat (Z.land v TVFS_FOLDER_SIZE_MASK)). destruct (n <? 4)%nat; [by eexists|]. destruct (length l1 <? n - 4)%nat; [by eexists|].
    destruct (IH pos1 (take (n - 4) l1) (join_path cur name)) as (r & ->); [rewrite length_take; lia|]. destruct r as [[fs ch]|e]; cbn [try_bind]; [|by eexists].
    destruct (IH (pos1 + (n - 4))%nat (drop (n - 4) l1) cur) as (r & ->); [rewrite length_drop; lia|]. destruct r as [[fs' sib]|e]; cbn [try_bind]; by eexists.
  - destruct (IH pos1 l1 cur) as (r & ->); [lia|]. destruct r as [[fs' sib]|e]; cbn [try_bind]; by eexists.
Qed.

Lemma vfs_loop_total fuel h pos l : (length l < fuel)%nat -> exists r, vfs_loop fuel h pos l = Ret r.
Proof.
  revert pos l. induction fuel as [|fuel IH]; intros pos l Hf; [lia|]. cbn [vfs_loop]. destruct l as [|c l]; [by eexists|]. cbn [length] in Hf.
  destruct (MAX_FILE_SPAN_COUNT <? c).
  { destruct (length l <? _)%nat; [by eexists|]. apply IH. rewrite length_drop. lia. }
  destruct (c =? 0). { destruct (IH (pos + 1)%nat l) as (r & ->); [lia|]. destruct r; by eexists. }
  destruct (length l <? _)%nat; [by eexists|]. destruct (read_spans h (Z.to_nat c) l) as [ss rest] eqn:Es.
  assert (length rest <= length l)%nat as Hrest.
  { clear -Es. revert l ss rest Es. induction (Z.to_nat c) as [|n IHn]; intros l ss rest; cbn [read_spans]; [by intros [= _ <-]|].
    destruct (read_spans h n (drop (span_size h) l)) as [ss' rest'] eqn:E. intros [= _ <-]. apply IHn in E. rewrite length_drop in E. lia. }
  match goal with |- context [vfs_loop fuel h ?p rest] => destruct (IH p rest) as (r & ->); [lia|] end. destruct r; by eexists.
Qed.

Lemma cft_entry_size_pos h : validate_header h = Ok tt -> 13 <= cft_entry_size h.
Proof.
  unfold validate_header, cft_entry_size. destruct (negb (format_version h =? 1)); [done|]. destruct (negb (header_size h =? _)); [done|].
  destruct (Z.eqb_spec (ekey_size h) 9) as [->|]; [|done]. destruct (Z.eqb_spec (pkey_size h) 9) as [->|]; [|done]. intros _.
  assert (forall n, 1 <= offset_field_size n) as Ho by (intros n; unfold offset_field_size; repeat case_match; lia).
  pose proof (Ho (default 0 (est_table_size h))). pose proof (Ho (cft_table_size h)). unfold est_offs_size, cft_offs_size. repeat case_match; lia.
Qed.

Lemma cft_loop_total fuel h data offset :
  1 <= cft_entry_size h -> (length data < fuel + offset)%nat -> (0 < fuel)%nat -> exists r, cft_loop fuel h data offset = Ret r.
Proof.
  intros H1. revert offset. induction fuel as [|fuel IH]; intros offset Hf H0; [lia|]. cbn [cft_loop].
  destruct (Nat.ltb_spec (length data) (offset + Z.to_nat (cft_entry_size h))); [by eexists|]. destruct (cft_read_entry_at data offset h); cbn [try_bind]; [|by eexists].
  destruct (IH (offset + Z.to_nat (cft_entry_size h))%nat) as (r & ->); [lia..|]. destruct r; by eexists.
Qed.

(** Parsing arbitrary bytes returns a file or an error. *)
Lemma parse_total data : exists r, parse data = Ret r.
Proof.
  unfold parse. destruct (read_header data) as [[h i]|]; cbn [try_bind]; [|by eexists]. destruct (validate_header h) as [[]|] eqn:Ev; cbn [try_bind]; [|by eexists].
  destruct (table data _ _) as [pd|]; cbn [try_bind]; [|by eexists]. destruct (table data _ _) as [vd|]; cbn [try_bind]; [|by eexists].
  destruct (table data _ _) as [cd|]; cbn [try_bind]; [|by eexists]. unfold path_parse.
  destruct (parse_directory_total (S (length pd)) 0 pd []) as (r & ->); [lia|]. destruct r as [[fs ch]|]; cbn [try_bind]; [|by eexists]. unfold vfs_parse.
  destruct (vfs_loop_total (S (length vd)) h 0 vd) as (r & ->); [lia|]. destruct r as [es|]; cbn [try_bind]; [|by eexists]. unfold cft_parse.
  destruct (cft_loop_total (S (length cd)) h cd 0) as (r & ->); [pose proof (cft_entry_size_pos h Ev); lia|lia|lia|]. destruct r as [ces|]; cbn [try_bind]; [|by eexists].
  destruct (if has_encoding_spec h then _ else _) as [est|]; cbn [try_bind]; by eexists.
Qed.

(** ** Variable-length integers *)

Lemma continuation_bit x : in_u 7 x -> Z.land x 0x80 = 0 /\ Z.land (Z.lor x 0x80) 0x80 = 0x80 /\ Z.land (Z.lor x 0x80) 0x7F = x.
Proof.
  intros Hx. assert (Z.land x 0x80 = 0) as H0.
  { apply Z.bits_inj'. intros i Hi. rewrite Z.land_spec, Z.bits_0. change 0x80 with (2 ^ 7). rewrite Z.pow2_bits_eqb by lia.
    destruct (Z.eqb_spec 7 i) as [<-|]; [|apply andb_false_r]. by rewrite (testbit_u_high 7) by (done || lia). }
  rewrite !Z.land_lor_distr_l, H0. split_and!; [done..|]. change 0x7F with (Z.ones 7). rewrite Z.land_ones by lia. unfold in_u in Hx. rewrite Z.mod_small by lia.
  by rewrite Z.lor_0_r.
Qed.

Lemma varint_loop_bytes n v off res shift rest :
  shift = 7 * (5 - Z.of_nat n) -> (1 <= n <= 5)%nat -> 0 <= v < 2 ^ (32 - shift) -> in_u shift res ->
  varint_loop n (varint_bytes n v ++ rest) off res shift = Ok (res + v * 2 ^ shift, (off + length (varint_bytes n v))%nat).
Proof.
  revert v off res shift. induction n as [|n IH]; intros v off res shift Hsh Hn Hv Hres; [lia|]. cbn [varint_bytes]. change 0x7F with (Z.ones 7).
  rewrite Z.land_ones, Z.shiftr_div_pow2 by lia. pose proof (Z.mod_pos_bound v (2 ^ 7) ltac:(lia)) as Hm. pose proof (Z.div_mod v (2 ^ 7) ltac:(lia)) as Hd.
  assert (2 ^ shift * 2 ^ (32 - shift) = 2 ^ 32) as Hpow by (rewrite <- Z.pow_add_r by lia; f_equal; lia).
  assert (0 < 2 ^ shift) by (apply Z.pow_pos_nonneg; lia). destruct (continuation_bit (v mod 2 ^ 7)) as (H1 & H2 & H3); [unfold in_u; lia|].
  assert (Z.lor res (wrap32 (Z.shiftl (v mod 2 ^ 7) shift)) = res + v mod 2 ^ 7 * 2 ^ shift) as Hlor.
  { unfold wrap32. rewrite Z.shiftl_mul_pow2 by lia. rewrite wrap_small.
    - pose proof (lor_shiftl_add (v mod 2 ^ 7) res shift ltac:(lia) Hres) as Hl. rewrite Z.shiftl_mul_pow2 in Hl by lia. rewrite Z.lor_comm, Hl. lia.
    - unfold in_u. pose proof (Z.mod_le v (2 ^ 7) ltac:(lia) ltac:(lia)). nia. }
  destruct (Z.eqb_spec (v / 2 ^ 7) 0) as [E|E]; cbn [app varint_loop length].
  - change 0x7F with (Z.ones 7). rewrite Z.land_ones, Z.mod_mod, Hlor, H1 by lia. cbn [Z.eqb]. rewrite Nat.add_1_r. do 2 f_equal. nia.
  - rewrite H3, Hlor, H2. cbn [Z.eqb]. assert (0 < v / 2 ^ 7) as Hq by (pose proof (Z.div_pos v (2 ^ 7) ltac:(lia) ltac:(lia)); lia).
    assert (n <> 0%nat) as Hn0. { intros ->. assert (shift = 28) as -> by lia. change (2 ^ (32 - 28)) with 16 in Hv. rewrite Z.div_small in Hq by lia. lia. }
    rewrite (proj2 (Z.leb_gt _ _)) by lia. rewrite IH; [|lia|lia| |].
    + f_equal. f_equal; [|lia]. rewrite (Z.pow_add_r 2 shift 7) by lia. nia.
    + split; [lia|]. apply Z.div_lt_upper_bound; [lia|]. rewrite <- Z.pow_add_r by lia. replace (7 + (32 - (shift + 7))) with (32 - shift) by lia. lia.
    + unfold in_u in *. rewrite (Z.pow_add_r 2 shift 7) by lia. nia.
Qed.

(** What is behind an integer and in front of it is left alone. *)
Theorem varint_roundtrip a v rest :
  u32 v -> read_varint (a ++ write_varint v ++ rest) (length a) = Ok (v, (length a + length (write_varint v))%nat).
Proof.
  intros Hv. unfold read_varint, write_varint. rewrite drop_app_length. rewrite varint_loop_bytes; [|lia|lia|done|unfold in_u; lia]. by rewrite Z.mul_1_r.
Qed.

(** ** The path table *)

(** The files below a node: the names on the way to it, and its offset.  What is below
    a file node is not written. *)
Fixpoint flat_node (n : PathTreeNode) : list (list bytes * Z) :=
  match n with
  | Node name children (Some o) => [([name], o)]
  | Node name children None => map (fun po => (name :: po.1, po.2)) (concat (map flat_node children))
  end.

Definition flat (l : list PathTreeNode) : list (list bytes * Z) := concat (map flat_node l).

(** A name that the format can hold: the length byte is neither zero nor the marker. *)
Definition name_ok (s : bytes) : Prop := (1 <= length s <= 254)%nat /\ utf8_valid s = true.

(** A tree in order: siblings have different names, a file has nothing below it and a
    folder has a file. *)
#[warnings="-register-all"] Inductive node_ok : PathTreeNode -> Prop :=
| file_ok name o : name_ok name -> in_u 31 o -> node_ok (Node name [] (Some o))
| folder_ok name children :
    name_ok name -> Forall node_ok children -> NoDup (map node_name children) -> flat children <> [] -> node_ok (Node name children None).

Lemma node_ok_inv name children off :
  node_ok (Node name children off) ->
  match off with
  | Some o => children = [] /\ name_ok name /\ in_u 31 o
  | None => name_ok name /\ Forall node_ok children /\ NoDup (map node_name children) /\ flat children <> []
  end.
Proof. by inversion 1. Qed.

Definition tree_ok (l : list PathTreeNode) : Prop := Forall node_ok l /\ NoDup (map node_name l).

Lemma write_name_ok s : name_ok s -> write_name s = 0 :: Z.of_nat (length s) :: s.
Proof.
  intros [Hl _]. unfold write_name, write_fragment. rewrite (proj2 (Nat.eqb_neq _ _)), (proj2 (Nat.leb_le _ _)) by lia. unfold wrap8.
  by rewrite wrap_small by (unfold in_u; lia).
Qed.

Lemma parse_written_entry s v rest pos :
  name_ok s -> u32 v -> let l := write_name s ++ [NODE_VALUE_MARKER] ++ to_be_bytes 4 v ++ rest in
  parse_entry (length l) pos l = Ret (Ok ((pos + length s + 7)%nat, rest, s, v)).
Proof.
  intros Hs Hv. cbn zeta. rewrite write_name_ok by done. destruct Hs as [Hl Hu]. unfold parse_entry.
  change (skip_separator pos ((0 :: Z.of_nat (length s) :: s) ++ [NODE_VALUE_MARKER] ++ to_be_bytes 4 v ++ rest))
    with ((pos + 1)%nat, (Z.of_nat (length s) :: s) ++ [NODE_VALUE_MARKER] ++ to_be_bytes 4 v ++ rest).
  cbn [app length parse_name]. rewrite (proj2 (Z.eqb_neq _ NODE_VALUE_MARKER)) by (unfold NODE_VALUE_MARKER; lia). rewrite Nat2Z.id.
  rewrite (proj2 (Nat.ltb_ge _ _)) by (rewrite length_app; lia). rewrite take_app_length, drop_app_length. change (NODE_VALUE_MARKER =? NODE_VALUE_MARKER) with true.
  cbn [try_bind negb app]. rewrite (proj2 (Nat.ltb_ge _ _)) by (rewrite length_app, length_to_be_bytes; lia). unfold build_name_from_parts. cbn [concat]. rewrite app_nil_r.
  rewrite from_utf8_lossy_valid by done. rewrite take_app_length', drop_app_length' by (by rewrite length_to_be_bytes). rewrite (be_roundtrip 4 32) by done.
  do 5 f_equal. lia.
Qed.

Definition path_of (cur : bytes) (names : list bytes) : bytes := fold_left join_path names cur.

Definition files_of (cur : bytes) (fs : list (list bytes * Z)) : list PathFileEntry :=
  map (fun po => {| path := path_of cur po.1; vfs_offset := po.2 |}) fs.

Lemma files_of_app cur a b : files_of cur (a ++ b) = files_of cur a ++ files_of cur b.
Proof. apply map_app. Qed.

Lemma files_of_folder cur name fs : files_of cur (map (fun po => (name :: po.1, po.2)) fs) = files_of (join_path cur name) fs.
Proof. unfold files_of. by rewrite map_map. Qed.

Lemma length_folder_entry name children :
  (length (concat (map build_entry children)) + 5 <= length (build_entry (Node name children None)))%nat.
Proof. cbn [build_entry]. rewrite !length_app, length_to_be_bytes. cbn [length]. lia. Qed.

Lemma length_build_entry n : (5 <= length (build_entry n))%nat.
Proof. destruct n as [name children [o|]]; cbn [build_entry]; rewrite !length_app, length_to_be_bytes; cbn [length]; lia. Qed.

Lemma folder_value n :
  Z.of_nat n + 4 < 2 ^ 31 ->
  let v := Z.lor TVFS_FOLDER_NODE (Z.land (wrap32 (Z.of_nat n + 4)) TVFS_FOLDER_SIZE_MASK) in
  u32 v /\ has_flag v TVFS_FOLDER_NODE = true /\ Z.to_nat (Z.land v TVFS_FOLDER_SIZE_MASK) = (n + 4)%nat.
Proof.
  intros Hn. cbn zeta. unfold wrap32. rewrite wrap_small by (unfold in_u; lia). change TVFS_FOLDER_SIZE_MASK with (Z.ones 31).
  rewrite Z.land_ones, Z.mod_small by lia. change TVFS_FOLDER_NODE with (Z.shiftl 1 31). rewrite lor_shiftl_add by (unfold in_u; lia). split_and!.
  - unfold in_u. lia.
  - unfold has_flag. apply negb_true_iff, Z.eqb_neq. intros E. apply (f_equal (fun z => Z.testbit z 31)) in E. rewrite Z.land_spec, Z.bits_0 in E.
    change (Z.testbit (Z.shiftl 1 31) 31) with true in E. rewrite andb_true_r in E. replace (1 * 2 ^ 31 + (Z.of_nat n + 4)) with (Z.lor (Z.shiftl 1 31) (Z.of_nat n + 4)) in E.
    + rewrite Z.lor_spec in E. done.
    + rewrite lor_shiftl_add by (unfold in_u; lia). done.
  - rewrite Z.land_ones by lia. rewrite Z.add_comm, Z.mod_add, Z.mod_small by lia. lia.
Qed.

Lemma file_value o : in_u 31 o -> u32 o /\ has_flag o TVFS_FOLDER_NODE = false.
Proof.
  intros Ho. split; [unfold in_u in *; lia|]. unfold has_flag. apply negb_false_iff, Z.eqb_eq. apply Z.bits_inj'. intros i Hi. rewrite Z.land_spec, Z.bits_0.
  change TVFS_FOLDER_NODE with (2 ^ 31). rewrite Z.pow2_bits_eqb by lia. destruct (Z.eqb_spec 31 i) as [<-|]; [|apply andb_false_r].
  by rewrite (testbit_u_high 31) by (done || lia).
Qed.

Lemma parse_written_directory fuel pos l cur :
  Forall node_ok l -> (length (concat (map build_entry l)) < fuel)%nat -> Z.of_nat (length (concat (map build_entry l))) < 2 ^ 31 ->
  parse_directory fuel pos (concat (map build_entry l)) cur = Ret (Ok (files_of cur (flat l), l)).
Proof.
  revert pos l cur. induction fuel as [|fuel IH]; intros pos l cur Hok Hf Hs; [lia|]. cbn [parse_directory]. destruct l as [|n l]; [done|].
  apply Forall_cons in Hok as [Hn Hl]. cbn [map concat] in Hf, Hs |- *. rewrite length_app in Hf, Hs. pose proof (length_build_entry n) as H5.
  destruct Hn as [name o Hname Ho|name children Hname Hch _ _].
  - destruct (file_value o Ho) as [Hu Hflag]. cbn [build_entry]. rewrite <- !app_assoc. rewrite parse_written_entry by done.
    rewrite (proj2 (Nat.eqb_neq _ 0)) by (rewrite !length_app; cbn [length]; lia). cbn [try_bind]. rewrite Hflag. rewrite IH; [done|done|lia|lia].
  - pose proof (length_folder_entry name children) as Hlen. set (cd := concat (map build_entry children)) in *.
    destruct (folder_value (length cd) ltac:(lia)) as (Hu & Hflag & Hsize). cbn [build_entry]. fold cd. rewrite <- !app_assoc.
    rewrite parse_written_entry by done. rewrite (proj2 (Nat.eqb_neq _ 0)) by (rewrite !length_app; cbn [length]; lia). cbn [try_bind]. rewrite Hflag, Hsize.
    rewrite (proj2 (Nat.ltb_ge _ _)) by lia. replace (length cd + 4 - 4)%nat with (length cd) by lia. rewrite (proj2 (Nat.ltb_ge _ _)) by (rewrite length_app; lia).
    rewrite take_app_length, drop_app_length. pose proof (fun pos => IH pos children (join_path cur name) Hch) as IHc. fold cd in IHc. rewrite IHc by lia. cbn [try_bind]. rewrite IH; [|done|lia|lia]. cbn [try_bind].
    unfold flat. cbn [map concat flat_node]. by rewrite files_of_app, files_of_folder.
Qed.

Lemma path_parse_build l :
  Forall node_ok l -> Z.of_nat (length (path_build (Node [] l None))) < 2 ^ 31 ->
  path_parse (path_build (Node [] l None)) = Ret (Ok {| path_data := path_build (Node [] l None); files := files_of [] (flat l); root := Node [] l None |}).
Proof.
  intros Hl Hs. unfold path_parse, path_build, build_directory. cbn [node_children]. rewrite parse_written_directory by (done || (unfold path_build, build_directory in Hs; cbn [node_children] in Hs; lia)).
  done.
Qed.

(** ** Inserting paths *)

Lemma flat_cons n l : flat (n :: l) = flat_node n ++ flat l.
Proof. done. Qed.

Lemma flat_node_folder name children : flat_node (Node name children None) = map (fun po => (name :: po.1, po.2)) (flat children).
Proof. done. Qed.

(** No path is a beginning of the other. *)
Definition apart (a b : list bytes) : Prop := ~ a `prefix_of` b /\ ~ b `prefix_of` a.

Lemma apart_cons c a b : apart (c :: a) (c :: b) <-> apart a b.
Proof.
  assert (forall x y, c :: x `prefix_of` c :: y <-> x `prefix_of` y) as H by (intros; split; [apply prefix_cons_inv_2|apply prefix_cons]).
  unfold apart. rewrite !H. tauto.
Qed.

Lemma insert_path_ok cs o l :
  cs <> [] -> Forall name_ok cs -> in_u 31 o -> tree_ok l -> Forall (fun po => apart po.1 cs) (flat l) ->
  tree_ok (insert_path cs o l) /\ flat (insert_path cs o l) ≡ₚ (cs, o) :: flat l /\
  (forall n, n ∈ map node_name (insert_path cs o l) -> n ∈ map node_name l \/ head cs = Some n).
Proof.
  revert l. induction cs as [|c cs IH]; intros l Hne Hcs Ho [Hl Hnd] Hap; [done|]. apply Forall_cons in Hcs as [Hc Hcs].
  cbn [insert_path]. set (go := fix go (l : list PathTreeNode) := _). clear Hne. cbn [head].
  induction l as [|[name below off] l IHl].
  - cbn [go]. destruct cs as [|c' cs'] eqn:Ecs.
    + split_and!; [split; [apply Forall_singleton; by apply file_ok|apply NoDup_singleton]|done|]. intros n. cbn. intros ->%list_elem_of_singleton. by right.
    + rewrite <- Ecs in *. destruct (IH []) as ([H1 H2] & H3 & _); [by rewrite Ecs|done|done|split; constructor|constructor|].
      split_and!; [split; [|apply NoDup_singleton]| |].
      * apply Forall_singleton. apply folder_ok; [done..|]. intros E. rewrite E in H3. by apply Permutation_nil_cons in H3.
      * unfold flat. cbn [map concat]. rewrite flat_node_folder, H3, app_nil_r. done.
      * intros n. cbn. intros ->%list_elem_of_singleton. by right.
  - apply Forall_cons in Hl as [Hn Hl]. cbn [map node_name] in Hnd. apply NoDup_cons in Hnd as [Hnin Hnd]. rewrite flat_cons in Hap. apply Forall_app in Hap as [Hap1 Hap2].
    cbn [go]. case_bool_decide as E.
    + subst name. apply node_ok_inv in Hn. destruct off as [o'|]; [destruct Hn as (-> & _ & _)|destruct Hn as (Hnm & Hch & Hndc & Hfl)].
      { cbn [flat_node] in Hap1. apply Forall_singleton in Hap1 as [Hx _]. exfalso. apply Hx. cbn [fst]. apply prefix_cons, prefix_nil. }
      rewrite flat_node_folder in Hap1. destruct cs as [|c' cs'] eqn:Ecs.
      { exfalso. destruct (flat below) as [|[p o'] fb]; [done|]. cbn [map] in Hap1. apply Forall_cons in Hap1 as [[_ Hx] _]. apply Hx. cbn [fst]. apply prefix_cons, prefix_nil. }
      rewrite <- Ecs in *. destruct (IH below) as ([H1 H2] & H3 & _); [by rewrite Ecs|done|done|done| |].
      { rewrite Forall_map in Hap1. eapply Forall_impl; [exact Hap1|]. cbn [fst]. intros po. apply apart_cons. }
      split_and!.
      * split; [|cbn [map node_name]; by apply NoDup_cons]. constructor; [|done]. apply folder_ok; [done..|]. intros E. rewrite E in H3. by apply Permutation_nil_cons in H3.
      * rewrite !flat_cons, !flat_node_folder, H3. done.
      * intros n. cbn [map node_name]. rewrite !elem_of_cons. tauto.
    + destruct (IHl Hl Hnd Hap2) as ([H1 H2] & H3 & H4). split_and!.
      * split; [by constructor|]. cbn [map node_name]. apply NoDup_cons. split; [|done]. intros [?|[= ?]]%H4; [done|congruence].
      * rewrite !flat_cons, H3. symmetry. apply Permutation_middle.
      * intros n. cbn [map node_name]. rewrite !elem_of_cons. intros [->|[?|?]%H4]; tauto.
Qed.

Lemma insert_all_ok (fs : list (list bytes * Z)) l :
  Forall (fun po => po.1 <> [] /\ Forall name_ok po.1 /\ in_u 31 po.2) fs -> tree_ok l ->
  Forall (fun po => Forall (fun qo => apart qo.1 po.1) (flat l)) fs -> ForallOrdPairs (fun a b => apart a.1 b.1) fs ->
  let l' := fold_left (fun ch po => insert_path po.1 po.2 ch) fs l in tree_ok l' /\ flat l' ≡ₚ fs ++ flat l.
Proof.
  revert l. induction fs as [|[cs o] fs IH]; intros l Hfs Hl Hap Hpairs; [done|]. cbn [fold_left fst snd]. apply Forall_cons in Hfs as [(Hne & Hcs & Ho) Hfs].
  apply Forall_cons in Hap as [Hap1 Hap]. inversion Hpairs as [|? ? Hp1 Hp2]; subst. cbn [fst snd] in *.
  destruct (insert_path_ok cs o l Hne Hcs Ho Hl Hap1) as (Hl' & Hflat & _). destruct (IH _ Hfs Hl') as [H1 H2]; [|done|].
  - rewrite Forall_forall in Hap, Hp1 |- *. intros po Hin. rewrite Hflat. constructor; [|by apply Hap]. cbn [fst]. by apply Hp1.
  - split; [done|]. rewrite H2, Hflat. symmetry. apply Permutation_middle.
Qed.

(** ** Paths as text *)

Lemma path_of_long cur cs : cur <> [] -> Forall (fun c => c <> []) cs -> path_of cur cs = cur ++ concat (map (cons 47) cs).
Proof.
  intros Hcur Hcs. revert cur Hcur. induction Hcs as [|c cs Hc Hcs IH]; intros cur Hcur; [by rewrite app_nil_r|]. unfold path_of in *. cbn [fold_left map concat].
  assert (join_path cur c = cur ++ 47 :: c) as ->.
  { unfold join_path. rewrite (proj2 (Nat.eqb_neq _ 0)) by (by destruct cur). by rewrite (proj2 (Nat.eqb_neq _ 0)) by (by destruct c). }
  rewrite IH by (by destruct cur). by rewrite <- app_assoc.
Qed.

Lemma path_of_joined cs : Forall (fun c => c <> []) cs -> path_of [] cs = joined 47 cs.
Proof.
  intros Hcs. destruct cs as [|c cs]; [done|]. apply Forall_cons in Hcs as [Hc Hcs]. unfold path_of. cbn [fold_left joined].
  change (path_of c cs = c ++ concat (map (cons 47) cs)). by apply path_of_long.
Qed.

Lemma components_ok p : Forall (fun c => c <> [] /\ lacks 47 c) (components p).
Proof.
  unfold components. apply Forall_forall. intros c [Hc Hin]%list_elem_of_filter. pose proof (split_on_parts 47 p) as H. rewrite Forall_forall in H.
  split; [by intros ->|by apply H].
Qed.

Lemma joined_inj p q : components p <> [] -> components q <> [] -> joined 47 (components p) = joined 47 (components q) -> components p = components q.
Proof.
  assert (forall p, Forall (lacks 47) (components p)) as Hns by (intros r; eapply Forall_impl; [apply components_ok|]; by intros c [_ ?]).
  intros Hp Hq E. by rewrite <- (split_on_joined 47 (components p)), E, split_on_joined.
Qed.

(** ** Fields and tables *)

Lemma offset_field_size_range n : 1 <= offset_field_size n <= 4.
Proof. unfold offset_field_size. repeat case_match; lia. Qed.

Lemma offset_field_size_fits n : n < 2 ^ 32 -> n < 256 ^ offset_field_size n.
Proof.
  intros Hn. unfold offset_field_size. destruct (Z.ltb_spec 0xFFFFFF n); [lia|]. destruct (Z.ltb_spec 0xFFFF n); [lia|].
  destruct (Z.ltb_spec 0xFF n); lia.
Qed.

Lemma take_to_le_bytes w n v : (w <= n)%nat -> take w (to_le_bytes n v) = to_le_bytes w v.
Proof.
  revert n v. induction w as [|w IH]; intros n v Hw; [done|]. destruct n as [|n]; [lia|]. cbn [to_le_bytes]. by rewrite firstn_cons, IH by lia.
Qed.

Lemma write_be_uint_be v w : 1 <= w <= 4 -> write_be_uint v w = to_be_bytes (Z.to_nat w) v.
Proof.
  intros Hw. unfold write_be_uint, to_be_bytes. rewrite <- (take_to_le_bytes (Z.to_nat w) 4) by lia.
  assert (forall (l : bytes) k, length l = 4%nat -> (k <= 4)%nat -> drop (4 - k) (reverse l) = reverse (take k l)) as H.
  { intros l k Hl Hk. do 5 (destruct l as [|? l]; try done). do 5 (destruct k as [|k]; try done). }
  apply H; [apply length_to_le_bytes|lia].
Qed.

Lemma from_be_bytes_snoc l b : from_be_bytes (l ++ [b]) = 256 * from_be_bytes l + b.
Proof. unfold from_be_bytes. rewrite reverse_snoc. cbn [from_le_bytes]. lia. Qed.

Lemma read_be_uint_be l : is_bytes l -> (length l <= 4)%nat -> read_be_uint l = from_be_bytes l.
Proof.
  unfold read_be_uint. induction l as [|b l IH] using rev_ind; intros Hb Hl; [done|]. rewrite length_app in Hl. cbn [length] in Hl.
  apply is_bytes_app in Hb as [Hb H1]. apply Forall_inv in H1. rewrite fold_left_app, IH, from_be_bytes_snoc by (done || lia). cbn [fold_left].
  pose proof (from_be_bytes_in_u (length l) (8 * Z.of_nat (length l)) l eq_refl (conj eq_refl Hb)) as Hr.
  assert (2 ^ (8 * Z.of_nat (length l)) <= 2 ^ 24) by (apply Z.pow_le_mono_r; lia). unfold in_u in Hr.
  unfold wrap32. rewrite Z.shiftl_mul_pow2 by lia. rewrite wrap_small by (unfold in_u; lia). rewrite <- Z.shiftl_mul_pow2 by lia. rewrite lor_shiftl_add by (done || lia). lia.
Qed.

Lemma be_uint_roundtrip v w : 1 <= w <= 4 -> 0 <= v < 256 ^ w -> read_be_uint (write_be_uint v w) = v /\ length (write_be_uint v w) = Z.to_nat w.
Proof.
  intros Hw Hv. rewrite write_be_uint_be by done. split; [|apply length_to_be_bytes]. rewrite read_be_uint_be; [|apply to_be_bytes_bytes|rewrite length_to_be_bytes; lia].
  apply (be_roundtrip _ (8 * w)); [lia|]. unfold in_u. replace (2 ^ (8 * w)) with (256 ^ w) by (rewrite Z.pow_mul_r by lia; done). done.
Qed.

Definition span_fits (h : TvfsHeader) (s : VfsSpan) : Prop :=
  u32 (file_offset s) /\ u32 (span_length s) /\ 0 <= cft_offset s < 256 ^ cft_offs_size h.

Lemma length_write_span h s : span_fits h s -> length (write_span h s) = span_size h.
Proof.
  intros (_ & _ & Hc). unfold write_span, span_size. rewrite !length_app, !length_to_be_bytes. destruct (be_uint_roundtrip (cft_offset s) (cft_offs_size h)) as [_ ->]; [apply offset_field_size_range|done|lia].
Qed.

Lemma read_write_spans h ss rest : Forall (span_fits h) ss -> read_spans h (length ss) (concat (map (write_span h) ss) ++ rest) = (ss, rest).
Proof.
  induction 1 as [|s ss Hs Hss IH]; [done|]. cbn [length map concat read_spans]. rewrite <- app_assoc.
  rewrite drop_app_length' by (by rewrite length_write_span). rewrite IH. pose proof Hs as (H1 & H2 & H3). unfold write_span. rewrite <- !app_assoc.
  rewrite take_app_length' by (by rewrite length_to_be_bytes). rewrite (drop_app_length' _ _ 4) by (by rewrite length_to_be_bytes).
  rewrite take_app_length' by (by rewrite length_to_be_bytes). rewrite (app_assoc (to_be_bytes 4 _) (to_be_bytes 4 _)).
  rewrite (drop_app_length' _ _ 8) by (by rewrite length_app, !length_to_be_bytes).
  destruct (be_uint_roundtrip (cft_offset s) (cft_offs_size h)) as [Hr Hl]; [apply offset_field_size_range|done|]. rewrite take_app_length' by done. rewrite Hr.
  rewrite !(be_roundtrip 4 32) by done. by destruct s.
Qed.

(** Entries with their places in the table. *)
Fixpoint placed (h : TvfsHeader) (pos : nat) (es : list VfsEntry) : Prop :=
  match es with
  | [] => True
  | e :: es =>
      v_offset e = Z.of_nat pos /\ (1 <= length (spans e) <= 224)%nat /\ Forall (span_fits h) (spans e) /\
      placed h (pos + 1 + length (spans e) * span_size h) es
  end.

Lemma length_spans h ss : Forall (span_fits h) ss -> length (concat (map (write_span h) ss)) = (length ss * span_size h)%nat.
Proof. induction 1 as [|s ss Hs Hss IH]; [done|]. cbn [map concat length]. rewrite length_app, length_write_span, IH by done. lia. Qed.

Lemma vfs_loop_build fuel h pos es :
  placed h pos es -> (length (vfs_build es h) < fuel)%nat -> Z.of_nat (pos + length (vfs_build es h)) < 2 ^ 32 ->
  vfs_loop fuel h pos (vfs_build es h) = Ret (Ok es).
Proof.
  revert pos es. induction fuel as [|fuel IH]; intros pos es Hp Hf Hs; [lia|]. cbn [vfs_loop]. destruct es as [|e es]; [done|].
  destruct Hp as (Ho & Hn & Hfit & Hp).
  assert (vfs_build (e :: es) h = Z.of_nat (length (spans e)) :: concat (map (write_span h) (spans e)) ++ vfs_build es h) as E.
  { unfold vfs_build. cbn [map concat write_vfs_entry app]. unfold wrap8. by rewrite wrap_small by (unfold in_u; lia). }
  rewrite E in *. cbn [length] in Hf, Hs. rewrite length_app, length_spans in Hf, Hs by done.
  unfold MAX_FILE_SPAN_COUNT. rewrite (proj2 (Z.ltb_ge _ _)), (proj2 (Z.eqb_neq _ _)) by lia. rewrite Nat2Z.id, length_app, length_spans by done.
  rewrite (proj2 (Nat.ltb_ge _ _)) by lia. rewrite read_write_spans by done. rewrite IH; [|done|lia|lia]. cbn [try_bind].
  unfold wrap32. rewrite wrap_small by (unfold in_u; lia). rewrite <- Ho. by destruct e.
Qed.

Definition header_fits (h : TvfsHeader) : Prop :=
  magic h = [84; 86; 70; 83] /\ u8 (format_version h) /\ u8 (header_size h) /\ u8 (ekey_size h) /\ u8 (pkey_size h) /\ u32 (flags h) /\
  u32 (path_table_offset h) /\ u32 (path_table_size h) /\ u32 (vfs_table_offset h) /\ u32 (vfs_table_size h) /\ u32 (cft_table_offset h) /\
  u32 (cft_table_size h) /\ u16 (max_depth h) /\
  if has_encoding_spec h then exists eo es, est_table_offset h = Some eo /\ est_table_size h = Some es /\ u32 eo /\ u32 es
  else est_table_offset h = None /\ est_table_size h = None.

Lemma read_write_tvfs_header h rest : header_fits h -> read_header (write_header h ++ rest) = Ok (h, rest).
Proof.
  intros (Hm & ? & ? & ? & ? & ? & ? & ? & ? & ? & ? & ? & ? & He). unfold read_header, write_header. rewrite <- !app_assoc, read_app by (by rewrite Hm). cbn [mbind result_bind].
  rewrite bool_decide_eq_true_2 by done. cbn [negb]. repeat read_next. unfold has_encoding_spec in He. destruct (has_flag (flags h) TVFS_FLAG_ENCODING_SPEC).
  - destruct He as (eo & es & E1 & E2 & ? & ?). rewrite E1, E2. cbn [write_opt]. rewrite <- !app_assoc. repeat read_next. rewrite <- E1, <- E2. by destruct h.
  - destruct He as [E1 E2]. cbn [app]. rewrite <- E1 at 1. rewrite <- E2 at 1. by destruct h.
Qed.

Lemma length_write_tvfs_header h : header_fits h -> Z.of_nat (length (write_header h)) = expected_header_size (flags h).
Proof.
  intros (Hm & _ & _ & _ & _ & _ & _ & _ & _ & _ & _ & _ & _ & He). unfold write_header, expected_header_size. rewrite !length_app, !length_to_be_bytes, Hm.
  unfold has_encoding_spec in He. destruct (has_flag (flags h) TVFS_FLAG_ENCODING_SPEC).
  - destruct He as (eo & es & -> & -> & _). cbn [write_opt]. by rewrite !length_app, !length_to_be_bytes.
  - done.
Qed.

Lemma table_at data a b c offset size :
  data = a ++ b ++ c -> Z.of_nat (length a) = offset -> Z.of_nat (length b) = size -> table data offset size = Ok b.
Proof.
  intros -> <- <-. unfold table. rewrite (proj2 (Z.ltb_ge _ _)) by (rewrite !length_app; lia). unfold slice. rewrite <- Nat2Z.inj_add, !Nat2Z.id.
  rewrite drop_app_length. replace (length a + length b - length a)%nat with (length b) by lia. by rewrite take_app_length.
Qed.

(** *** Containers *)

Lemma length_fit n k : length (fit n k) = n.
Proof. unfold fit. rewrite length_app, length_take, length_zeros. lia. Qed.

Lemma length_write_be_uint v w : 1 <= w <= 4 -> Z.of_nat (length (write_be_uint v w)) = w.
Proof. intros Hw. rewrite write_be_uint_be, length_to_be_bytes by done. lia. Qed.

Lemma length_write_container h e : 0 <= ekey_size h -> 0 <= pkey_size h -> Z.of_nat (length (write_container h e)) = cft_entry_size h.
Proof.
  intros H1 H2. unfold write_container, cft_entry_size, est_offs_size, cft_offs_size. rewrite !length_app, length_fit, length_to_be_bytes, !Nat2Z.inj_add.
  pose proof (length_write_be_uint (default 0 (est_index e)) _ (offset_field_size_range (default 0 (est_table_size h)))).
  pose proof (length_write_be_uint (default 0 (patch_offset e)) _ (offset_field_size_range (cft_table_size h))).
  destruct (includes_content_keys h), (has_encoding_spec h), (has_patch_support h); cbn [length]; rewrite ?length_fit; lia.
Qed.

(** The entries of a table of the right size are all there. *)
Lemma read_field_present {A} (present : bool) (n : nat) (f : bytes -> A) pos l :
  ((if present then n else 0) <= length l)%nat ->
  exists v pos', read_field present n f pos l = Ok (v, pos', drop (if present then n else 0) l).
Proof. intros Hl. unfold read_field. destruct present; [|by do 2 eexists]. rewrite (proj2 (Nat.ltb_ge _ _)) by done. by do 2 eexists. Qed.

Lemma cft_read_any data offset h :
  0 <= ekey_size h -> 0 <= pkey_size h -> (offset + Z.to_nat (cft_entry_size h) <= length data)%nat -> exists e, cft_read_entry_at data offset h = Ok e.
Proof.
  intros H1 H2 Hl. pose proof (offset_field_size_range (default 0 (est_table_size h))) as He. pose proof (offset_field_size_range (cft_table_size h)) as Hc.
  fold (est_offs_size h) in He. fold (cft_offs_size h) in Hc. unfold cft_read_entry_at.
  assert (Z.to_nat (ekey_size h) + 4 + (if includes_content_keys h then Z.to_nat (pkey_size h) else 0) +
          (if has_encoding_spec h then Z.to_nat (est_offs_size h) else 0) + (if has_patch_support h then Z.to_nat (cft_offs_size h) else 0) <= length (drop offset data))%nat as Hd.
  { rewrite length_drop. unfold cft_entry_size in Hl. destruct (includes_content_keys h), (has_encoding_spec h), (has_patch_support h); lia. }
  generalize dependent (drop offset data). intros l Hd. rewrite !(proj2 (Nat.ltb_ge _ _)) by (rewrite ?length_drop; lia).
  edestruct (read_field_present (includes_content_keys h) (Z.to_nat (pkey_size h)) id) as (ck & p1 & ->); [rewrite !length_drop; lia|]. cbn [mbind result_bind].
  edestruct (read_field_present (has_encoding_spec h) (Z.to_nat (est_offs_size h)) read_be_uint) as (ei & p2 & ->); [rewrite !length_drop; lia|]. cbn [mbind result_bind].
  edestruct (read_field_present (has_patch_support h) (Z.to_nat (cft_offs_size h)) read_be_uint) as (po & p3 & ->); [rewrite !length_drop; lia|]. by eexists.
Qed.

Lemma valid_key_sizes h : validate_header h = Ok tt -> ekey_size h = 9 /\ pkey_size h = 9.
Proof.
  unfold validate_header. destruct (negb (format_version h =? 1)); [done|]. destruct (negb (header_size h =? _)); [done|].
  destruct (Z.eqb_spec (ekey_size h) 9); [|done]. by destruct (Z.eqb_spec (pkey_size h) 9).
Qed.

Lemma cft_parse_any data h : validate_header h = Ok tt -> exists t, cft_parse data h = Ret (Ok t) /\ cft_data t = data.
Proof.
  intros Hv. unfold cft_parse. assert (forall fuel offset, (length data < fuel + offset)%nat -> (0 < fuel)%nat -> exists es, cft_loop fuel h data offset = Ret (Ok es)) as H.
  { induction fuel as [|fuel IH]; intros offset Hf H0; [lia|]. cbn [cft_loop]. pose proof (cft_entry_size_pos h Hv). destruct (valid_key_sizes h Hv).
    destruct (Nat.ltb_spec (length data) (offset + Z.to_nat (cft_entry_size h))); [by eexists|]. destruct (cft_read_any data offset h) as (e & ->); [lia..|].
    destruct (IH (offset + Z.to_nat (cft_entry_size h))%nat) as (es & E); [lia..|]. cbn [try_bind]. rewrite E. by eexists. }
  destruct (H (S (length data)) 0%nat) as (es & ->); [lia..|]. by eexists.
Qed.

(** ** The stride of the container table *)

Lemma gcd_loop_spec fuel a b : 0 <= a -> 0 <= b -> (Z.to_nat b < fuel)%nat -> gcd_loop fuel a b = Z.gcd a b.
Proof.
  revert a b. induction fuel as [|fuel IH]; intros a b Ha Hb Hf; [lia|]. cbn [gcd_loop]. destruct (Z.eqb_spec b 0) as [->|Hne]; [by rewrite Z.gcd_0_r_nonneg|].
  pose proof (Z.mod_pos_bound a b ltac:(lia)). rewrite IH by lia. by rewrite Z.gcd_comm, Z.gcd_mod, Z.gcd_comm by done.
Qed.

Lemma fold_gcd l a :
  0 <= a -> Forall (Z.le 0) l -> let g := fold_left gcd l a in 0 <= g /\ (g | a) /\ Forall (fun o => (g | o)) l.
Proof.
  intros Ha Hl. revert a Ha. induction Hl as [|b l Hb Hl IH]; intros a Ha; [split_and!; [done|apply Z.divide_refl|done]|]. cbn [fold_left].
  assert (gcd a b = Z.gcd a b) as -> by (apply gcd_loop_spec; lia). destruct (IH (Z.gcd a b) (Z.gcd_nonneg _ _)) as (H1 & H2 & H3). split_and!; [done| |].
  - eapply Z.divide_trans; [exact H2|apply Z.gcd_divide_l].
  - constructor; [|done]. eapply Z.divide_trans; [exact H2|apply Z.gcd_divide_r].
Qed.

(** The offset of a span is a multiple of the stride taken from all the spans. *)
Lemma stride_divides f o n : Forall (Z.le 0) (all_offsets f) -> o ∈ all_offsets f -> is_multiple_of o (default n (cft_stride f)) = true.
Proof.
  intros H0 Ho. destruct (fold_gcd _ 0 ltac:(lia) H0) as (_ & _ & Hd). unfold cft_stride. rewrite Forall_forall in Hd. specialize (Hd o Ho).
  destruct (Z.eqb_spec (fold_left gcd (all_offsets f) 0) 0) as [E|E]; unfold is_multiple_of; cbn [default].
  - rewrite E in Hd. apply Z.divide_0_l in Hd as ->. destruct (n =? 0); [done|]. by rewrite Zmod_0_l.
  - rewrite (proj2 (Z.eqb_neq _ _)) by done. by apply Z.eqb_eq, Z.mod_divide.
Qed.

Lemma max_depth_range n depth : u16 depth -> u16 (calculate_max_depth n depth).
Proof.
  revert n depth. fix IH 1. intros [name children off] depth Hd. cbn [calculate_max_depth]. generalize Hd. generalize depth at 1 3.
  induction children as [|c children IHc]; intros m Hm; [done|]. cbn [fold_left]. apply IHc.
  pose proof (IH c (wrap 16 (depth + 1)) (wrap_range 16 (depth + 1) ltac:(lia))). unfold in_u in *. lia.
Qed.

(** ** The builder *)

(** A path without its empty components. *)
Definition normal (p : bytes) : bytes := joined 47 (components p).

Definition record_ok (r : FileRecord) : Prop :=
  length (f_ekey r) = 9%nat /\ u32 (f_content_size r) /\ components (f_path r) <> [] /\ Forall name_ok (components (f_path r)).

(** The offsets of the files are taken from an estimate of the table sizes; a layout is
    stable if the estimate is right.  Without the flags for specifications and for
    patches every layout is. *)
Definition layout_stable (b : TvfsBuilder) : Prop :=
  let sized := sized_header (b_flags b) (length (b_files b)) in
  cft_entry_size sized.1 = sized.2 /\ (has_flag (b_flags b) TVFS_FLAG_ENCODING_SPEC = true -> (length (est_write (est_specs b)) <= 255)%nat).

(** A container has at most 30 bytes, an entry with one span at most 13. *)
Definition total_fits (b : TvfsBuilder) : Prop :=
  46 + Z.of_nat (length (path_data (path_table (builder_file b)))) + Z.of_nat (length (est_write (est_specs b))) + 43 * Z.of_nat (length (b_files b)) < 2 ^ 31.

(** The header of tables of the given sizes behind one another, and its computation on
    [u32]. *)
Definition laid_out (h : TvfsHeader) (depth hs p : Z) (est : option bytes) (c v : Z) : TvfsHeader :=
  let e := Z.of_nat (length (default [] est)) in
  with_tables h hs p (hs + p + e + c) v (hs + p + e) c depth
    (match est with Some _ => Some (hs + p) | None => est_table_offset h end) (match est with Some _ => Some e | None => est_table_size h end).

Lemma laid_out_wrap h depth hs p est c v :
  0 <= hs -> 0 <= p -> 0 <= c -> 0 <= v -> hs + p + Z.of_nat (length (default [] est)) + c + v < 2 ^ 32 ->
  let start := match est with Some est => wrap32 (wrap32 (hs + wrap32 p) + wrap32 (Z.of_nat (length est))) | None => wrap32 (hs + wrap32 p) end in
  with_tables h hs (wrap32 p) (wrap32 (start + wrap32 c)) (wrap32 v) start (wrap32 c) depth
    (match est with Some _ => Some (wrap32 (hs + wrap32 p)) | None => est_table_offset h end)
    (match est with Some est => Some (wrap32 (Z.of_nat (length est))) | None => est_table_size h end) = laid_out h depth hs p est c v.
Proof.
  intros ? ? ? ? Hs. cbn zeta. unfold laid_out, wrap32. rewrite (wrap_small 32 p), (wrap_small 32 c), (wrap_small 32 v), (wrap_small 32 (hs + p)) by (unfold in_u; lia).
  destruct est as [est|]; cbn [default from_option length id] in *.
  - rewrite (wrap_small 32 (Z.of_nat (length est))), (wrap_small 32 (hs + p + _)), (wrap_small 32) by (unfold in_u; lia). done.
  - rewrite (wrap_small 32 (hs + p + c)) by (unfold in_u; lia). f_equal; lia.
Qed.

(** A specification that the NUL-separated table can hold. *)
Definition spec_ok (s : bytes) : Prop := s <> [] /\ utf8_valid s = true /\ Forall (fun c => c <> 0) s.

Lemma est_scan_spec s rest cur :
  Forall (fun c => c <> 0) s ->
  est_scan (s ++ 0 :: rest) cur = (if (0 <? length (cur ++ s))%nat && utf8_valid (cur ++ s) then [cur ++ s] else []) ++ est_scan rest [].
Proof.
  intros Hs. revert cur. induction Hs as [|c s Hc Hs IH]; intros cur; [by rewrite app_nil_r|]. cbn [app est_scan]. rewrite (proj2 (Z.eqb_neq _ _)) by done.
  by rewrite IH, <- app_assoc.
Qed.

Lemma est_scan_write specs : Forall spec_ok specs -> est_scan (est_write specs) [] = specs.
Proof.
  induction 1 as [|s specs (Hne & Hu & Hn) Hs IH]; [done|]. unfold est_write in *. cbn [map concat]. rewrite <- app_assoc. cbn [app]. rewrite est_scan_spec by done.
  cbn [app]. rewrite Hu, IH. destruct s; done.
Qed.

Section Builder.
Context (b : TvfsBuilder).
Context (Hflags : u32 (b_flags b)) (Hrecords : Forall record_ok (b_files b))
  (Hapart : ForallOrdPairs (fun r r' => apart (components (f_path r)) (components (f_path r'))) (b_files b))
  (Hspecs : Forall spec_ok (est_specs b)) (Hstable : layout_stable b) (Hfits : total_fits b).

Definition sorted_files : list FileRecord := sort_by_key f_path (b_files b).
Definition sized : TvfsHeader := (sized_header (b_flags b) (length (b_files b))).1.
Definition width : Z := cft_entry_size sized.
Definition entry_len : Z := 9 + cft_offs_size sized.

Definition placed_containers : list ContainerEntry := imap (fun i r => container_of r (Z.of_nat i * width)) sorted_files.

Definition placed_entry (i : nat) (r : FileRecord) : VfsEntry :=
  {| v_offset := Z.of_nat i * entry_len; spans := [{| file_offset := 0; span_length := f_content_size r; cft_offset := Z.of_nat i * width |}] |}.

Definition placed_entries : list VfsEntry := imap placed_entry sorted_files.

Definition built_root : PathTreeNode := build_path_tree sorted_files (map v_offset placed_entries).

Definition written_est : option (list bytes) :=
  if has_flag (b_flags b) TVFS_FLAG_ENCODING_SPEC && negb (length (est_specs b) =? 0)%nat then Some (est_specs b) else None.

Definition built_header : TvfsHeader :=
  laid_out sized (calculate_max_depth built_root 0) (expected_header_size (b_flags b)) (Z.of_nat (length (path_build built_root)))
    (est_write <$> written_est) (Z.of_nat (length (b_files b)) * width) (Z.of_nat (length (b_files b)) * entry_len).

Lemma length_sorted : length sorted_files = length (b_files b).
Proof. apply Permutation_length, sort_by_key_perm. Qed.

Lemma cft_offs_size_range h : 1 <= cft_offs_size h <= 4.
Proof. apply offset_field_size_range. Qed.

Lemma est_offs_size_range h : 1 <= est_offs_size h <= 4.
Proof. apply offset_field_size_range. Qed.

Lemma new_entry_size h : ekey_size h = 9 -> pkey_size h = 9 -> 13 <= cft_entry_size h <= 30.
Proof.
  intros E1 E2. unfold cft_entry_size. rewrite E1, E2. pose proof (cft_offs_size_range h). pose proof (est_offs_size_range h). repeat case_match; lia.
Qed.

Lemma width_range : 13 <= width <= 30.
Proof. by apply new_entry_size. Qed.

Lemma entry_len_range : 10 <= entry_len <= 13.
Proof. unfold entry_len. pose proof (cft_offs_size_range sized). lia. Qed.

Lemma sized_snd : (sized_header (b_flags b) (length (b_files b))).2 = width.
Proof. destruct Hstable as [H _]. by rewrite <- H. Qed.

Lemma count_fits : Z.of_nat (length (b_files b)) * 43 < 2 ^ 31.
Proof. unfold total_fits in Hfits. lia. Qed.

Lemma index_fits (i : nat) k : (i < length (b_files b))%nat -> 0 <= k <= 43 -> wrap32 (Z.of_nat i * k) = Z.of_nat i * k.
Proof. intros Hi Hk. apply wrap_small. pose proof count_fits. unfold in_u. nia. Qed.

Lemma sized_table : cft_table_size sized = Z.of_nat (length (b_files b)) * width.
Proof.
  pose proof sized_snd as E. unfold sized, sized_header in *. cbn [fst snd with_cft_size with_tables cft_table_size] in *. rewrite E.
  apply wrap_small. pose proof count_fits. pose proof width_range. unfold in_u. nia.
Qed.

Lemma placed_containers_eq : imap (fun i r => container_of r (wrap32 (Z.of_nat i * width))) sorted_files = placed_containers.
Proof.
  apply imap_ext. intros i r Hi%lookup_lt_Some. rewrite length_sorted in Hi. pose proof width_range. by rewrite index_fits by (done || lia).
Qed.

Lemma placed_entries_eq :
  imap (fun i (rc : FileRecord * ContainerEntry) =>
    {| v_offset := wrap32 (Z.of_nat i * (1 + 4 + 4 + cft_offs_size sized));
       spans := [{| file_offset := 0; span_length := f_content_size rc.1; cft_offset := c_offset rc.2 |}] |}) (zip sorted_files placed_containers) = placed_entries.
Proof.
  apply list_eq. intros i. unfold placed_entries, placed_containers. rewrite !list_lookup_imap, lookup_zip_with, list_lookup_imap.
  destruct (sorted_files !! i) as [r|] eqn:Ei; [|done]. apply lookup_lt_Some in Ei. rewrite length_sorted in Ei. pose proof entry_len_range.
  unfold placed_entry. cbn [fmap option_fmap option_map mbind option_bind fst snd container_of c_offset]. change (1 + 4 + 4 + cft_offs_size sized) with entry_len. by rewrite index_fits by (done || lia).
Qed.

Lemma spans_fit i r : sorted_files !! i = Some r -> Forall (span_fits sized) (spans (placed_entry i r)).
Proof.
  intros Hi. apply Forall_singleton. pose proof Hi as Hin%list_elem_of_lookup_2. unfold sorted_files in Hin. rewrite sort_by_key_perm in Hin.
  rewrite Forall_forall in Hrecords. destruct (Hrecords r Hin) as (_ & Hc & _). apply lookup_lt_Some in Hi. rewrite length_sorted in Hi.
  split; [unfold in_u; cbn; lia|]. split; [done|]. cbn [cft_offset]. pose proof width_range. pose proof count_fits.
  assert (cft_table_size sized < 2 ^ 32) as Ht by (rewrite sized_table; nia). apply offset_field_size_fits in Ht. fold (cft_offs_size sized) in Ht.
  rewrite sized_table in Ht. nia.
Qed.

Lemma length_placed_entries : Z.of_nat (length (vfs_build placed_entries sized)) = Z.of_nat (length (b_files b)) * entry_len.
Proof.
  unfold vfs_build, placed_entries. rewrite <- length_sorted. rewrite (length_concat_blocks (Z.to_nat entry_len)).
  - rewrite length_map, length_imap. pose proof entry_len_range. lia.
  - unfold blocks_of. rewrite Forall_map. apply Forall_lookup_2. intros i e. rewrite list_lookup_imap. destruct (sorted_files !! i) as [r|] eqn:Hi; [|done]. intros [= <-].
    cbn [write_vfs_entry length]. rewrite length_spans by (by apply spans_fit). change (length (spans (placed_entry i r))) with 1%nat. unfold entry_len, span_size. pose proof (cft_offs_size_range sized). lia.
Qed.

Lemma containers_blocks h (es : list ContainerEntry) : ekey_size h = 9 -> pkey_size h = 9 -> blocks_of (Z.to_nat (cft_entry_size h)) (map (write_container h) es).
Proof.
  intros E1 E2. unfold blocks_of. rewrite Forall_map. apply Forall_forall. intros e _. pose proof (length_write_container h e ltac:(lia) ltac:(lia)). cbn. lia.
Qed.

Lemma length_placed_containers : Z.of_nat (length (cft_build placed_containers sized)) = Z.of_nat (length (b_files b)) * width.
Proof.
  unfold cft_build. rewrite (length_concat_blocks (Z.to_nat width)) by (by apply containers_blocks). unfold placed_containers.
  rewrite length_map, length_imap, length_sorted. pose proof width_range. lia.
Qed.

Lemma builder_path : path_data (path_table (builder_file b)) = path_build built_root.
Proof.
  unfold builder_file. fold sorted_files. rewrite length_sorted, (surjective_pairing (sized_header _ _)). fold sized. rewrite sized_snd.
  rewrite placed_containers_eq, placed_entries_eq. done.
Qed.

Lemma expected_range : 38 <= expected_header_size (b_flags b) <= 46.
Proof. unfold expected_header_size. case_match; lia. Qed.

Lemma length_written_est : (length (default [] (est_write <$> written_est)) <= length (est_write (est_specs b)))%nat.
Proof. unfold written_est. case_match; cbn; lia. Qed.

Lemma builder_file_eq :
  builder_file b =
  {| header := built_header; path_table := {| path_data := path_build built_root; files := []; root := built_root |};
     vfs_table := {| vfs_data := vfs_build placed_entries sized; v_entries := placed_entries |};
     container_table := {| cft_data := cft_build placed_containers sized; c_entries := placed_containers |}; est_table := written_est |}.
Proof.
  pose proof Hfits as Hf. unfold total_fits in Hf. rewrite builder_path in Hf.
  unfold builder_file. fold sorted_files. rewrite length_sorted, (surjective_pairing (sized_header _ _)). fold sized. rewrite sized_snd.
  rewrite placed_containers_eq, placed_entries_eq. fold built_root. cbn zeta. f_equal. unfold built_header.
  pose proof width_range. pose proof entry_len_range. pose proof expected_range. pose proof length_written_est as He.
  fold written_est. rewrite length_placed_entries, length_placed_containers. change (header_size sized) with (expected_header_size (b_flags b)).
  apply laid_out_wrap; [nia..|]. nia.
Qed.

(** The sizes the entries depend on are those of the estimate. *)
Lemma built_sizes :
  cft_offs_size built_header = cft_offs_size sized /\ (has_encoding_spec sized = true -> est_offs_size built_header = est_offs_size sized).
Proof.
  split; [unfold cft_offs_size; by rewrite sized_table|]. intros He. unfold est_offs_size, built_header, laid_out. cbn [est_table_size with_tables].
  unfold written_est. destruct Hstable as [_ H255]. specialize (H255 He). change (has_flag _ _) with (has_encoding_spec sized). rewrite He. cbn [andb].
  destruct (length (est_specs b) =? 0)%nat; cbn [negb fmap option_fmap option_map]; [done|]. unfold sized, sized_header. cbn.
  assert (forall n, n <= 255 -> offset_field_size n = 1) as H1 by (intros n Hn; unfold offset_field_size; by rewrite !(proj2 (Z.ltb_ge _ _)) by lia).
  rewrite !H1 by (repeat case_match; cbn; lia). done.
Qed.

Lemma built_width : cft_entry_size built_header = width.
Proof.
  destruct built_sizes as [H1 H2]. unfold width, cft_entry_size. rewrite H1. change (has_encoding_spec built_header) with (has_encoding_spec sized).
  destruct (has_encoding_spec sized); [by rewrite H2|done].
Qed.

Lemma built_spans es : vfs_build es sized = vfs_build es built_header.
Proof. unfold vfs_build, write_vfs_entry, write_span. by rewrite (proj1 built_sizes). Qed.

Lemma length_built_containers : length (cft_build placed_containers built_header) = (length (b_files b) * Z.to_nat width)%nat.
Proof.
  unfold cft_build. rewrite (length_concat_blocks (Z.to_nat width)) by (rewrite <- built_width; by apply containers_blocks). unfold placed_containers.
  by rewrite length_map, length_imap, length_sorted.
Qed.

Lemma sizes_fit :
  expected_header_size (b_flags b) + Z.of_nat (length (path_build built_root)) + Z.of_nat (length (default [] (est_write <$> written_est))) +
  Z.of_nat (length (b_files b)) * width + Z.of_nat (length (b_files b)) * entry_len < 2 ^ 31.
Proof.
  pose proof Hfits as Hf. unfold total_fits in Hf. rewrite builder_path in Hf. pose proof length_written_est. pose proof width_range. pose proof entry_len_range.
  pose proof expected_range. nia.
Qed.

Lemma tvfs_builder_bytes :
  builder_build b = write_header built_header ++ path_build built_root ++ default [] (est_write <$> written_est) ++
                    cft_build placed_containers built_header ++ vfs_build placed_entries built_header.
Proof.
  pose proof sizes_fit. pose proof width_range. pose proof entry_len_range. pose proof expected_range. unfold builder_build, build. rewrite builder_file_eq.
  cbn [header path_table vfs_table container_table est_table path_data vfs_data c_entries]. rewrite built_spans. f_equal. f_equal.
  change (header_size built_header) with (expected_header_size (b_flags b)).
  rewrite <- built_spans, length_placed_entries, length_built_containers, Nat2Z.inj_mul, (Z2Nat.id width) by lia. etrans; [apply laid_out_wrap; nia|].
  unfold built_header, laid_out. by destruct written_est.
Qed.

Lemma tvfs_built_valid : validate_header built_header = Ok tt.
Proof. unfold validate_header. cbn. by rewrite Z.eqb_refl. Qed.

Lemma built_fits : header_fits built_header.
Proof.
  pose proof sizes_fit. pose proof width_range. pose proof entry_len_range. pose proof expected_range. unfold header_fits.
  change (flags built_header) with (b_flags b). change (has_encoding_spec built_header) with (has_flag (b_flags b) TVFS_FLAG_ENCODING_SPEC).
  unfold built_header, laid_out.
  cbn [with_tables magic format_version header_size ekey_size pkey_size path_table_offset path_table_size vfs_table_offset vfs_table_size cft_table_offset
       cft_table_size max_depth est_table_offset est_table_size].
  repeat (split; [first [done | (apply max_depth_range; unfold in_u; lia) | (unfold in_u; nia) | (unfold in_u; cbn; lia)]|]).
  unfold written_est in *. destruct (has_flag (b_flags b) TVFS_FLAG_ENCODING_SPEC) eqn:Ef; cbn [andb] in *.
  - destruct (negb (length (est_specs b) =? 0)%nat); cbn [fmap option_fmap option_map default from_option id] in *.
    + do 2 eexists. split_and!; [done|done|unfold in_u; nia..].
    + exists 0, 0. unfold sized, sized_header. cbn. rewrite Ef. split_and!; done.
  - cbn [fmap option_fmap option_map]. unfold sized, sized_header. cbn. by rewrite Ef.
Qed.

(** *** The paths *)

Definition listed : list (list bytes * Z) := imap (fun i r => (components (f_path r), Z.of_nat i * entry_len)) sorted_files.

Lemma built_root_listed : built_root = Node [] (fold_left (fun ch po => insert_path po.1 po.2 ch) listed []) None.
Proof.
  unfold built_root, build_path_tree. f_equal. replace listed with (map (fun fo : FileRecord * Z => (components (f_path fo.1), fo.2)) (zip sorted_files (map v_offset placed_entries))).
  - generalize ([] : list PathTreeNode). induction (zip sorted_files (map v_offset placed_entries)) as [|fo l IH]; intros ch; [done|]. cbn [fold_left map]. apply IH.
  - apply list_eq. intros i. unfold listed, placed_entries. rewrite list_lookup_fmap, lookup_zip_with, list_lookup_fmap, !list_lookup_imap.
    by destruct (sorted_files !! i).
Qed.

Lemma ordpairs_imap {A B} (f : nat -> A -> B) (R : A -> A -> Prop) (R' : B -> B -> Prop) l :
  (forall i j x y, R x y -> R' (f i x) (f j y)) -> ForallOrdPairs R l -> ForallOrdPairs R' (imap f l).
Proof.
  intros H Hl. revert f H. induction Hl as [|x l Hx Hl IH]; intros f H; [constructor|]. cbn [imap]. constructor; [|apply IH; intros; by apply H].
  apply Forall_lookup_2. intros i y. rewrite list_lookup_imap. destruct (l !! i) as [z|] eqn:E; [|done]. intros [= <-]. apply H.
  rewrite Forall_forall in Hx. by eapply Hx, list_elem_of_lookup_2.
Qed.

Lemma sorted_record i r : sorted_files !! i = Some r -> record_ok r /\ (i < length (b_files b))%nat.
Proof.
  intros Hi. split.
  - apply list_elem_of_lookup_2 in Hi. unfold sorted_files in Hi. rewrite sort_by_key_perm in Hi. rewrite Forall_forall in Hrecords. by apply Hrecords.
  - rewrite <- length_sorted. by eapply lookup_lt_Some.
Qed.

Lemma built_tree : exists l, built_root = Node [] l None /\ tree_ok l /\ flat l ≡ₚ listed.
Proof.
  rewrite built_root_listed. eexists. split; [done|]. destruct (insert_all_ok listed []) as [H1 H2].
  - apply Forall_lookup_2. intros i po. unfold listed. rewrite list_lookup_imap. destruct (sorted_files !! i) as [r|] eqn:Ei; [|done]. intros [= <-].
    apply sorted_record in Ei as ((_ & _ & H1 & H2) & Hi). pose proof entry_len_range. pose proof count_fits.
    cbn [fst snd]. split; [done|]. split; [done|]. unfold in_u. nia.
  - split; constructor.
  - apply Forall_forall. intros po _. constructor.
  - apply (ordpairs_imap _ (fun r r' => apart (components (f_path r)) (components (f_path r')))); [done|]. eapply ordpairs_perm; [|symmetry; apply sort_by_key_perm|exact Hapart].
    intros x y [? ?]. by split.
  - split; [done|]. rewrite H2. change (flat []) with (@nil (list bytes * Z)). by rewrite app_nil_r.
Qed.

Lemma listed_paths : map path (files_of [] listed) = map (fun r => normal (f_path r)) sorted_files.
Proof.
  unfold files_of. rewrite map_map. cbn [path]. apply list_eq. intros i. unfold listed. rewrite !list_lookup_fmap, list_lookup_imap.
  destruct (sorted_files !! i) as [r|]; [|done]. cbn [fmap option_fmap option_map fst]. unfold normal. rewrite path_of_joined; [done|].
  eapply Forall_impl; [apply components_ok|]. by intros c [? _].
Qed.

Lemma normals_distinct : NoDup (map (fun r => normal (f_path r)) (b_files b)).
Proof.
  clear -Hrecords Hapart. induction Hapart as [|r l Hr Hl IH]; [constructor|]. apply Forall_cons in Hrecords as [(_ & _ & Hne & _) Hok]. cbn [map]. apply NoDup_cons.
  split; [|by apply IH]. intros (r' & E & Hin)%(list_elem_of_fmap_1 (fun r => normal (f_path r))). rewrite Forall_forall in Hr, Hok.
  destruct (Hok _ Hin) as (_ & _ & Hne' & _). apply joined_inj in E; [|done|done]. destruct (Hr _ Hin) as [Hp _]. by rewrite E in Hp.
Qed.

Lemma entry_offsets_distinct : NoDup (map v_offset placed_entries).
Proof.
  apply NoDup_alt. intros i j o. unfold placed_entries. rewrite !list_lookup_fmap, !list_lookup_imap. destruct (sorted_files !! i), (sorted_files !! j); cbn; try done.
  intros [= <-] [= E]. pose proof entry_len_range. nia.
Qed.

(** The bytes of the key of the [i]-th file. *)
Lemma built_key t i r : cft_data t = cft_build placed_containers built_header -> sorted_files !! i = Some r -> ekey_at t (Z.of_nat i * width) 9 = Some (f_ekey r).
Proof.
  intros Ht Hi. destruct (sorted_record i r Hi) as [(Hk & _) Hlt]. pose proof width_range. unfold ekey_at. rewrite Ht, length_built_containers.
  rewrite Z2Nat.inj_mul, Nat2Z.id by lia. rewrite (proj2 (Nat.leb_le _ _)) by nia. f_equal.
  pose proof (slice_concat (Z.to_nat width) (map (write_container built_header) placed_containers) i (write_container built_header (container_of r (Z.of_nat i * width)))) as Hs.
  unfold slice in Hs. replace (i * Z.to_nat width + Z.to_nat width - i * Z.to_nat width)%nat with (Z.to_nat width) in Hs by lia.
  apply (f_equal (take 9)) in Hs.
  - rewrite take_take in Hs. replace (9 `min` Z.to_nat width)%nat with 9%nat in Hs by lia. unfold cft_build. rewrite Hs. unfold write_container, fit.
    cbn [container_of ekey]. change (Z.to_nat (ekey_size built_header)) with 9%nat. rewrite Hk. cbn [Nat.sub zeros]. rewrite (take_ge (f_ekey r)) by lia.
    rewrite app_nil_r. by rewrite take_app_length'.
  - rewrite <- built_width. by apply containers_blocks.
  - unfold placed_containers. by rewrite list_lookup_fmap, list_lookup_imap, Hi.
Qed.

Definition read_est (data : bytes) : tresult (option (list bytes)) :=
  if has_encoding_spec built_header then
    match est_table_offset built_header, est_table_size built_header with
    | Some offset, Some size =>
        est_data ← table data offset size;
        specs ← est_read (Z.to_nat size) est_data;
        Ok (Some specs)
    | _, _ => Ok None
    end
  else Ok None.

Lemma built_est : read_est (builder_build b) = Ok (if has_flag (b_flags b) TVFS_FLAG_ENCODING_SPEC then Some (est_specs b) else None).
Proof.
  unfold read_est. change (has_encoding_spec built_header) with (has_flag (b_flags b) TVFS_FLAG_ENCODING_SPEC).
  pose proof (length_write_tvfs_header _ built_fits) as Hh. change (flags built_header) with (b_flags b) in Hh. pose proof tvfs_builder_bytes as Hb.
  assert (est_table_offset sized = (if has_flag (b_flags b) TVFS_FLAG_ENCODING_SPEC then Some 0 else None) /\
          est_table_size sized = (if has_flag (b_flags b) TVFS_FLAG_ENCODING_SPEC then Some 0 else None)) as [E1 E2] by done.
  unfold built_header, laid_out at 1 2. cbn [est_table_offset est_table_size with_tables]. rewrite E1, E2.
  unfold written_est in *. destruct (has_flag (b_flags b) TVFS_FLAG_ENCODING_SPEC) eqn:Ef; [|done]. cbn [andb] in *.
  destruct (Nat.eqb_spec (length (est_specs b)) 0) as [E|E]; cbn [negb fmap option_fmap option_map default from_option id] in *.
  - apply nil_length_inv in E as ->. unfold table. by rewrite (proj2 (Z.ltb_ge _ _)) by lia.
  - rewrite (table_at _ (write_header built_header ++ path_build built_root) (est_write (est_specs b)) (cft_build placed_containers built_header ++ vfs_build placed_entries built_header)).
    + cbn [mbind result_bind]. rewrite Nat2Z.id. unfold est_read. rewrite <- (app_nil_r (est_write (est_specs b))) at 2. rewrite read_app by done. cbn [mbind result_bind].
      by rewrite est_scan_write.
    + by rewrite Hb, <- !app_assoc.
    + rewrite length_app. lia.
    + done.
Qed.

Lemma placed_from i l :
  (forall j r, l !! j = Some r -> sorted_files !! (i + j)%nat = Some r) ->
  placed built_header (i * Z.to_nat entry_len) (imap (fun j => placed_entry (i + j)) l).
Proof.
  revert i. induction l as [|r l IH]; intros i Hl; [done|]. cbn [imap placed]. rewrite Nat.add_0_r. pose proof entry_len_range.
  pose proof (Hl 0%nat r eq_refl) as Hi. rewrite Nat.add_0_r in Hi. split_and!; [cbn [placed_entry v_offset]; lia|cbn; lia|cbn; lia| |].
  - pose proof (spans_fit i r Hi) as Hf. eapply Forall_impl; [exact Hf|]. intros sp (? & ? & Hc). unfold span_fits. by rewrite (proj1 built_sizes).
  - change (length (spans (placed_entry i r))) with 1%nat.
    replace (i * Z.to_nat entry_len + 1 + 1 * span_size built_header)%nat with (S i * Z.to_nat entry_len)%nat.
    + rewrite (imap_ext _ (fun j => placed_entry (S i + j))) by (intros j x _; cbn; by rewrite Nat.add_succ_r). apply IH. intros j x Hj.
      replace (S i + j)%nat with (i + S j)%nat by lia. by apply Hl.
    + unfold span_size. rewrite (proj1 built_sizes). unfold entry_len. pose proof (cft_offs_size_range sized). lia.
Qed.

Lemma parse_tvfs_built : exists l t,
  tree_ok l /\ flat l ≡ₚ listed /\ cft_data t = cft_build placed_containers built_header /\
  parse (builder_build b) =
  Ret (Ok {| header := built_header; path_table := {| path_data := path_build built_root; files := files_of [] (flat l); root := Node [] l None |};
             vfs_table := {| vfs_data := vfs_build placed_entries built_header; v_entries := placed_entries |}; container_table := t;
             est_table := if has_flag (b_flags b) TVFS_FLAG_ENCODING_SPEC then Some (est_specs b) else None |}).
Proof.
  destruct built_tree as (l & Hroot & Hl & Hflat). destruct (cft_parse_any (cft_build placed_containers built_header) _ tvfs_built_valid) as (t & Ht & Htd).
  exists l, t. split; [done|]. split; [done|]. split; [done|]. pose proof built_est as He. unfold read_est in He. pose proof tvfs_builder_bytes as Hb.
  pose proof (length_write_tvfs_header _ built_fits) as Hh. change (flags built_header) with (b_flags b) in Hh. pose proof sizes_fit. pose proof width_range. pose proof entry_len_range.
  pose proof length_built_containers as Hc. pose proof length_placed_entries as Hv. rewrite built_spans in Hv. unfold parse. rewrite Hb at 1.
  rewrite read_write_tvfs_header by apply built_fits. cbn [try_bind]. rewrite He, tvfs_built_valid. cbn [try_bind].
  set (w := write_header built_header) in *. set (p := path_build built_root) in *. set (e := default [] (est_write <$> written_est)) in *.
  set (c := cft_build placed_containers built_header) in *. set (v := vfs_build placed_entries built_header) in *.
  rewrite (table_at _ w p (e ++ c ++ v)) by done. cbn [try_bind].
  change (cft_table_offset built_header) with (expected_header_size (b_flags b) + Z.of_nat (length p) + Z.of_nat (length e)).
  change (vfs_table_offset built_header) with (expected_header_size (b_flags b) + Z.of_nat (length p) + Z.of_nat (length e) + Z.of_nat (length (b_files b)) * width).
  change (cft_table_size built_header) with (Z.of_nat (length (b_files b)) * width).
  rewrite (table_at _ (w ++ p ++ e ++ c) v []); [|by rewrite Hb, app_nil_r, <- !app_assoc|rewrite !length_app; lia|done]. cbn [try_bind].
  rewrite (table_at _ (w ++ p ++ e) c v); [|by rewrite Hb, <- !app_assoc|rewrite !length_app; lia|lia]. cbn [try_bind].
  unfold p at 1. rewrite Hroot. rewrite path_parse_build; [|by destruct Hl|rewrite <- Hroot; fold p; lia]. cbn [try_bind].
  unfold vfs_parse. pose proof (placed_from 0 sorted_files) as Hp. rewrite (vfs_loop_build _ built_header 0 placed_entries); [|by apply Hp|unfold v; lia|fold v; lia]. cbn [try_bind].
  rewrite Ht. cbn [try_bind]. unfold p. by rewrite Hroot.
Qed.

Lemma placed_offsets : concat (map (fun e => map cft_offset (spans e)) placed_entries) = imap (fun i _ => Z.of_nat i * width) sorted_files.
Proof.
  unfold placed_entries. change (map ?f) with (fmap (M:=list) f). rewrite fmap_imap.
  assert (forall (f : nat -> FileRecord -> Z) l, concat (imap (fun i r => [f i r]) l) = imap f l) as H; [|apply (H (fun i _ => Z.of_nat i * width))].
  intros f l. revert f. induction l as [|r l IH]; intros f; [done|]. cbn [imap concat app]. f_equal. apply (IH (f ∘ S)).
Qed.

Lemma resolve_built l t r :
  tree_ok l -> flat l ≡ₚ listed -> cft_data t = cft_build placed_containers built_header -> r ∈ b_files b ->
  forall pd rt vd est,
  resolve_path {| header := built_header; path_table := {| path_data := pd; files := files_of [] (flat l); root := rt |};
                  vfs_table := {| vfs_data := vd; v_entries := placed_entries |}; container_table := t; est_table := est |} (normal (f_path r)) = Some (f_ekey r).
Proof.
  intros Hl Hflat Ht Hr pd rt vd est. assert (r ∈ sorted_files) as (i & Hi)%list_elem_of_lookup by (unfold sorted_files; by rewrite sort_by_key_perm).
  assert (files_of [] (flat l) ≡ₚ files_of [] listed) as Hfiles by (unfold files_of; by rewrite Hflat).
  assert (path_of [] (components (f_path r)) = normal (f_path r)) as Hnorm by (apply path_of_joined; eapply Forall_impl; [apply components_ok|]; by intros c [? _]).
  unfold resolve_path, path_resolve. cbn [path_table files vfs_table v_entries container_table header].
  pose proof (find_by_intro path (files_of [] (flat l)) {| path := normal (f_path r); vfs_offset := Z.of_nat i * entry_len |}) as Hf. cbn [path] in Hf. rewrite Hf.
  - cbn [fmap option_fmap option_map mbind option_bind vfs_offset].
    pose proof (find_by_intro v_offset placed_entries (placed_entry i r) entry_offsets_distinct) as Hv. cbn [placed_entry v_offset] in Hv. rewrite Hv.
    + cbn [mbind option_bind spans placed_entry head cft_offset]. rewrite stride_divides.
      * cbn [negb]. by apply built_key.
      * unfold all_offsets. cbn [vfs_table v_entries]. rewrite placed_offsets. apply Forall_lookup_2. intros j o. rewrite list_lookup_imap.
        destruct (sorted_files !! j); [|done]. intros [= <-]. pose proof width_range. lia.
      * unfold all_offsets. cbn [vfs_table v_entries]. rewrite placed_offsets. apply list_elem_of_lookup. exists i. by rewrite list_lookup_imap, Hi.
    + apply list_elem_of_lookup. exists i. unfold placed_entries. by rewrite list_lookup_imap, Hi.
  - rewrite Hfiles, listed_paths. unfold sorted_files. rewrite sort_by_key_perm. apply normals_distinct.
  - rewrite Hfiles. unfold files_of. apply list_elem_of_fmap. exists (components (f_path r), Z.of_nat i * entry_len). cbn [fst snd]. split; [by rewrite Hnorm|].
    apply list_elem_of_lookup. exists i. unfold listed. by rewrite list_lookup_imap, Hi.
Qed.

End Builder.

(** C19: Every file given to a builder is found again.  For 32-bit flags, keys of nine
    bytes, paths of which none is a folder of another and whose components have one to
    254 bytes of UTF-8, specifications without NUL, a stable layout and tables below two
    gigabytes: parsing what the builder writes succeeds, the path table lists exactly
    the given paths, every path resolves through its span and the container table to
    its own encoding key, and the specifications are read back if the flags ask for
    them. *)
Theorem tvfs_builder_roundtrip b :
  u32 (b_flags b) -> Forall record_ok (b_files b) -> ForallOrdPairs (fun r r' => apart (components (f_path r)) (components (f_path r'))) (b_files b) ->
  Forall spec_ok (est_specs b) -> layout_stable b -> total_fits b ->
  exists f, parse (builder_build b) = Ret (Ok f) /\
    map path (files (path_table f)) ≡ₚ map (fun r => normal (f_path r)) (b_files b) /\
    (forall r, r ∈ b_files b -> resolve_path f (normal (f_path r)) = Some (f_ekey r)) /\
    est_table f = (if has_flag (b_flags b) TVFS_FLAG_ENCODING_SPEC then Some (est_specs b) else None).
Proof.
  intros Hflags Hrec Hap Hspecs Hst Hfits. destruct (parse_tvfs_built b Hflags Hrec Hap Hspecs Hst Hfits) as (l & t & Hl & Hflat & Ht & Hp). eexists. split; [exact Hp|].
  cbn [path_table files est_table]. split; [|split; [|done]].
  - trans (map path (files_of [] (listed b))); [unfold files_of; by rewrite Hflat|]. rewrite listed_paths. unfold sorted_files. by rewrite sort_by_key_perm.
  - intros r Hr. by apply resolve_built.
Qed.

Definition sample_builder : TvfsBuilder :=
  let b := add_est_spec (with_flags 7) [122] in
  let b := add_file_with_est b [100; 47; 98] (repeat 2 9) 20 30 (Some (repeat 7 9)) 0 in
  let b := add_file b [47; 100; 47; 97] (repeat 1 9) 10 20 None in
  add_file b [99] (repeat 3 9) 5 6 None.

Lemma tvfs_builder_roundtrip_witness :
  Forall record_ok (b_files sample_builder) /\ layout_stable sample_builder /\
  exists f, parse (builder_build sample_builder) = Ret (Ok f) /\
    map path (files (path_table f)) ≡ₚ [[100; 47; 98]; [100; 47; 97]; [99]] /\
    (forall r, r ∈ b_files sample_builder -> resolve_path f (normal (f_path r)) = Some (f_ekey r)) /\ est_table f = Some [[122]].
Proof.
  assert (Forall record_ok (b_files sample_builder)) as Hr by (unfold record_ok, name_ok, in_u; decide_now).
  assert (layout_stable sample_builder) as Hs by (split; [by vm_compute|]; intros _; vm_compute; lia).
  split; [exact Hr|]. split; [exact Hs|]. apply (tvfs_builder_roundtrip sample_builder); [unfold in_u; cbn; lia|exact Hr| | |exact Hs|vm_compute; reflexivity].
  - unfold apart. repeat constructor; decide_now.
  - unfold spec_ok. decide_now.
Defined.

(** ** Where the builder and the parser disagree *)

Definition key_of (b : TvfsBuilder) (p : bytes) : option bytes :=
  match parse (builder_build b) with Ret (Ok f) => resolve_path f p | _ => None end.

(** The length byte of a fragment of 255 bytes is the node value marker: a table with
    such a name, or with a longer one, which is cut in fragments of 255 bytes, cannot
    be read. *)
Theorem name_of_255_bytes_is_unreadable :
  parse (builder_build (add_file builder_new (repeat 97 255) (repeat 1 9) 1 1 None)) = Ret (Err (PathTableTruncated 203)) /\
  parse (builder_build (add_file builder_new (repeat 97 300) (repeat 1 9) 1 1 None)) = Ret (Err (PathTableTruncated 301)).
Proof. vm_compute. done. Qed.

(** A file whose path is a folder of another hides the other. *)
Theorem file_hides_folder :
  let b := add_file (add_file builder_new [97] (repeat 1 9) 1 1 None) [97; 47; 98] (repeat 2 9) 1 1 None in
  key_of b [97] = Some (repeat 1 9) /\ key_of b [97; 47; 98] = None.
Proof. vm_compute. done. Qed.

(** The builder lays the containers out with an index of one byte into the
    specifications; beyond 255 bytes of them the entries are written wider, and a path
    resolves to bytes that are no key. *)
Theorem large_est_breaks_keys :
  let b := add_file (add_file (add_est_spec (with_flags TVFS_FLAG_ENCODING_SPEC) (repeat 110 300)) [97] (repeat 1 9) 1 1 None) [98] (repeat 2 9) 1 1 None in
  key_of b [98] = Some (0 :: repeat 2 8).
Proof. vm_compute. done. Qed.

(** Two rounds do not always find the width of an entry with a patch offset. *)
Theorem patch_width_unstable : let s := sized_header TVFS_FLAG_PATCH_SUPPORT 4681 in cft_entry_size s.1 = 16 /\ s.2 = 15.
Proof. vm_compute. done. Qed.

(** An empty specification is written but not read: the indices of those behind it are
    wrong. *)
Theorem empty_spec_shifts_indices : est_read 3 (est_write [[]; [110]]) = Ok [[110]] /\ get_spec [[]; [110]] 1 <> get_spec [[110]] 1.
Proof. vm_compute. done. Qed.

(** A separator between two fragments of an entry is dropped. *)
Theorem inner_separator_dropped :
  exists t, path_parse [1; 97; 0; 1; 98; 255; 0; 0; 0; 5] = Ret (Ok t) /\ files t = [{| path := [97; 98]; vfs_offset := 5 |}].
Proof. eexists. split; [vm_compute; reflexivity|done]. Qed.

(** The length of the written table of specifications. *)
Theorem est_size_exact specs : Z.of_nat (length (est_write specs)) < 2 ^ 32 -> est_calculate_size specs = Z.of_nat (length (est_write specs)).
Proof.
  intros Hs. unfold est_calculate_size, est_write in *. assert (foldr Z.add 0 (map (fun s => Z.of_nat (length s) + 1) specs) = Z.of_nat (length (concat (map (fun s => s ++ [0]) specs)))) as ->.
  { clear Hs. induction specs as [|s specs IH]; [done|]. cbn [map foldr concat]. rewrite IH, !length_app. cbn [length]. lia. }
  apply wrap_small. unfold in_u. lia.
Qed.
