(* ===== verification/PatchChain.v ===== *)
(** * Patch chains

    The search for a sequence of patches from one encoding key to another
    (src/crates/cascette-formats/src/patch_chain.rs).  A chain that is found is a chain
    of the given patches without a repeated key; that none is found means that there is
    none. *)

From S2P Require Import Prelude Bytes.
Local Open Scope nat_scope.

Module PatchChain.

Definition MAX_CHAIN_LENGTH : nat := 10.

Record PatchStep := {
  original_ekey : bytes;
  original_size : Z;
  s_patch_key : bytes;
  s_patch_size : Z;
  result_key : bytes;
  result_size : Z;
}.

Record PatchChain := { steps : list PatchStep; start_key : bytes; end_key : bytes }.

Inductive PatchChainError : Type :=
| CycleDetected
| ChainTooLong (length max : nat)
| NoPathFound (from to : bytes).

Notation cresult := (result PatchChainError).

Record PatchEdge := {
  from_ekey : bytes;
  from_size : Z;
  to_ekey : bytes;
  to_size : Z;
  patch_key : bytes;
  patch_size : Z;
}.

Definition step_of (e : PatchEdge) : PatchStep :=
  {| original_ekey := from_ekey e; original_size := from_size e; s_patch_key := patch_key e; s_patch_size := patch_size e;
     result_key := to_ekey e; result_size := to_size e |}.

Section Dfs.
Context (edges : list PatchEdge) (target : bytes).

(** The loop over the edges; [search] is the recursive call. *)
Fixpoint scan (search : bytes -> gset bytes -> list PatchStep -> outcome (cresult (bool * gset bytes * list PatchStep))) (current : bytes)
    (l : list PatchEdge) (visited : gset bytes) (path : list PatchStep) : outcome (cresult (bool * gset bytes * list PatchStep)) :=
  match l with
  | [] => Ret (Ok (false, visited, path))
  | edge :: l =>
      if negb (bool_decide (from_ekey edge = current)) then scan search current l visited path
      else if bool_decide (to_ekey edge ∈ visited) then scan search current l visited path
      else
        let visited := {[to_ekey edge]} ∪ visited in
        let path := path ++ [step_of edge] in
        if bool_decide (to_ekey edge = target) then Ret (Ok (true, visited, path))
        else
          '(found, visited, path) ←? search (to_ekey edge) visited path;
          if found : bool then Ret (Ok (true, visited, path)) else scan search current l visited (removelast path)
  end.

(** Every call adds a step to the path, so the limit and one more is enough fuel. *)
Fixpoint dfs (fuel : nat) (current : bytes) (visited : gset bytes) (path : list PatchStep) : outcome (cresult (bool * gset bytes * list PatchStep)) :=
  match fuel with
  | O => Panic
  | S fuel =>
      if MAX_CHAIN_LENGTH <=? length path then Ret (Err (ChainTooLong (length path + 1) MAX_CHAIN_LENGTH))
      else scan (dfs fuel) current edges visited path
  end.

End Dfs.

Definition build (edges : list PatchEdge) (start end_ : bytes) : outcome (cresult PatchChain) :=
  if bool_decide (start = end_) then Ret (Ok {| steps := []; start_key := start; end_key := end_ |})
  else
    '(found, _, path) ←? dfs edges end_ (S MAX_CHAIN_LENGTH) start {[start]} [];
    if found : bool then Ret (Ok {| steps := path; start_key := start; end_key := end_ |})
    else Ret (Err (NoPathFound start end_)).

Definition chain_len (c : PatchChain) : nat := length (steps c).

Definition is_empty (c : PatchChain) : bool := chain_len c =? 0.

End PatchChain.

Import PatchChain.

(** ** Chains *)

(** The steps lead from one key to another, each by one of the patches. *)
Inductive chain (edges : list PatchEdge) : bytes -> list PatchStep -> bytes -> Prop :=
| chain_nil k : chain edges k [] k
| chain_cons e ss k : e ∈ edges -> chain edges (to_ekey e) ss k -> chain edges (from_ekey e) (step_of e :: ss) k.

(** What a search from [current] promises, with [visited] and [path] as they were
    before it. *)
Definition searched (edges : list PatchEdge) (target current : bytes) (visited : gset bytes) (path : list PatchStep)
    (r : outcome (cresult (bool * gset bytes * list PatchStep))) : Prop :=
  match r with
  | Panic => False
  | Ret (Err e) => e = ChainTooLong 11 10 /\ exists ss k, chain edges current ss k /\ length path + length ss = 10
  | Ret (Ok (true, _, p)) =>
      exists ss, p = path ++ ss /\ chain edges current ss target /\ length p <= 10 /\ NoDup (map result_key ss) /\ Forall (fun s => result_key s ∉ visited) ss
  | Ret (Ok (false, v, p)) =>
      p = path /\ visited ⊆ v /\ (target ∉ v) /\ (forall e, e ∈ edges -> from_ekey e ∈ v -> from_ekey e ∉ visited -> to_ekey e ∈ v)
  end.

(** After a search that found nothing, [l] holds only edges to visited keys. *)
Definition covered (current : bytes) (l : list PatchEdge) (r : outcome (cresult (bool * gset bytes * list PatchStep))) : Prop :=
  forall v p, r = Ret (Ok (false, v, p)) -> forall e, e ∈ l -> from_ekey e = current -> to_ekey e ∈ v.

Lemma scan_spec edges target current search l visited path :
  (forall k v p, k ∈ v -> target ∉ v -> length p = S (length path) ->
    searched edges target k v p (search k v p) /\ covered k edges (search k v p)) ->
  l ⊆ edges -> length path < 10 -> current ∈ visited -> target ∉ visited ->
  searched edges target current visited path (scan target search current l visited path) /\ covered current l (scan target search current l visited path).
Proof.
  intros Hsearch. revert visited. induction l as [|e l IH]; intros visited Hl Hlen Hcur Htgt; cbn [scan].
  { split; [split_and!; [done..|]; by intros e He Hin|]. intros v p _ e He. by apply not_elem_of_nil in He. }
  assert (e ∈ edges) as He by (apply Hl; left). assert (l ⊆ edges) as Hl' by (intros x Hx; apply Hl; by right).
  case_bool_decide as Hfrom; cbn [negb].
  2: { destruct (IH visited Hl' Hlen Hcur Htgt) as [H1 H2]. split; [done|]. intros v p E x [->|Hx]%elem_of_cons Ef; [done|by eapply H2]. }
  case_bool_decide as Hvis.
  { destruct (IH visited Hl' Hlen Hcur Htgt) as [H1 H2]. split; [done|]. intros v p E x [->|Hx]%elem_of_cons Ef; [|by eapply H2].
    rewrite E in H1. destruct H1 as (_ & Hsub & _). by apply Hsub. }
  case_bool_decide as Heq.
  { split; [|done]. exists [step_of e]. rewrite length_app. cbn [length map]. split_and!; [done| |lia|apply NoDup_singleton|by apply Forall_singleton].
    rewrite <- Hfrom, <- Heq. apply chain_cons; [done|apply chain_nil]. }
  destruct (Hsearch (to_ekey e) ({[to_ekey e]} ∪ visited) (path ++ [step_of e])) as [H1 H2]; [set_solver|set_solver|rewrite length_app; cbn; lia|].
  destruct (search _ _ _) as [[[[[] v] p]|err]|] eqn:E; cbn [try_bind]; [| | |done].
  - split; [|done]. destruct H1 as (ss & -> & Hch & Hle & Hnd & Hall). exists (step_of e :: ss). rewrite <- app_assoc. split_and!; [done| |by rewrite <- app_assoc in Hle| |].
    + rewrite <- Hfrom. by apply chain_cons.
    + cbn [map]. apply NoDup_cons. split; [|done]. intros (s & Es & Hs)%(list_elem_of_fmap_1 result_key). rewrite Forall_forall in Hall. apply (Hall s Hs). cbn in Es. rewrite <- Es. set_solver.
    + constructor; [done|]. eapply Forall_impl; [exact Hall|]. set_solver.
  - destruct H1 as (-> & Hsub & Ht & Hclosed). rewrite removelast_last. destruct (IH v) as [H3 H4]; [done|done|set_solver|done|].
    assert (forall x, x ∈ edges -> from_ekey x ∈ v -> from_ekey x ∉ visited -> to_ekey x ∈ v) as Hclosed'.
    { intros x Hx Hin Hnin. destruct (decide (from_ekey x = to_ekey e)) as [Exe|Exe]; [by eapply H2|]. apply Hclosed; [done..|set_solver]. }
    split.
    + destruct (scan _ _ _ _ _ _) as [[[[[] v'] p']|err]|]; [| |done..]; cbn [searched] in *.
      * destruct H3 as (ss & ? & ? & ? & ? & Hall). exists ss. split_and!; [done..|]. eapply Forall_impl; [exact Hall|]. set_solver.
      * destruct H3 as (? & Hvv & ? & Hc). split_and!; [done|set_solver|done|]. intros x Hx Hin Hnin. destruct (decide (from_ekey x ∈ v)) as [Hv|Hv]; [|by apply Hc].
        apply Hvv. by apply Hclosed'.
    + intros v' p' E' x [->|Hx]%elem_of_cons Ef; [|by eapply H4]. rewrite E' in H3. destruct H3 as (_ & Hs & _). apply Hs, Hsub. set_solver.
  - split; [|done]. destruct H1 as (-> & ss & k & Hch & Hle). split; [done|]. exists (step_of e :: ss), k. rewrite <- Hfrom. split; [by apply chain_cons|].
    rewrite length_app in Hle. cbn [length] in *. lia.
Qed.

Lemma dfs_spec edges target fuel current visited path :
  10 < fuel + length path -> length path <= 10 -> current ∈ visited -> target ∉ visited ->
  searched edges target current visited path (dfs edges target fuel current visited path) /\ covered current edges (dfs edges target fuel current visited path).
Proof.
  revert current visited path. induction fuel as [|fuel IH]; intros current visited path Hf Hlen Hcur Htgt; [lia|]. cbn [dfs]. unfold MAX_CHAIN_LENGTH.
  destruct (Nat.leb_spec 10 (length path)) as [Hmax|Hmax].
  - split; [|done]. split; [by replace (length path + 1) with 11 by lia|]. exists [], current. split; [apply chain_nil|cbn [length]; lia].
  - apply scan_spec; [|done..]. intros k v p Hk Ht Hp. apply IH; [lia|lia|done|done].
Qed.

(** The key [b] is the result of applying some patches to [a]. *)
Definition reachable (edges : list PatchEdge) : bytes -> bytes -> Prop := rtc (fun a b => exists e, e ∈ edges /\ from_ekey e = a /\ to_ekey e = b).

Lemma closed_reachable (edges : list PatchEdge) (v : gset bytes) (a b : bytes) :
  (forall e, e ∈ edges -> from_ekey e ∈ v -> to_ekey e ∈ v) -> reachable edges a b -> a ∈ v -> b ∈ v.
Proof. intros Hc. induction 1 as [|x y z (e & He & <- & <-) _ IH]; [done|]. auto. Qed.

(** C20: The search always ends, in one of three ways.  A chain it returns leads by the
    given patches from the start to the end in at most ten steps and visits no key
    twice; it reports that there is no path only if no sequence of patches of any
    length leads from the start to the end; and it reports that the chain is too long
    only if there is a chain of ten steps from the start.  It never panics and never
    reports a cycle. *)
Theorem patch_chain_exact edges start end_ :
  match build edges start end_ with
  | Ret (Ok c) =>
      start_key c = start /\ end_key c = end_ /\ chain edges start (steps c) end_ /\ length (steps c) <= 10 /\ NoDup (start :: map result_key (steps c))
  | Ret (Err (NoPathFound f t)) => f = start /\ t = end_ /\ ~ reachable edges start end_
  | Ret (Err (ChainTooLong n max)) => n = 11 /\ max = 10 /\ exists ss k, chain edges start ss k /\ length ss = 10
  | Ret (Err CycleDetected) | Panic => False
  end.
Proof.
  unfold build. case_bool_decide as E; [subst; cbn; split_and!; [done|done|apply chain_nil|lia|apply NoDup_singleton]|].
  destruct (dfs_spec edges end_ (S MAX_CHAIN_LENGTH) start {[start]} []) as [H1 H2]; [cbn; lia|cbn; lia|set_solver|set_solver|].
  destruct (dfs _ _ _ _ _ _) as [[[[[] v] p]|err]|]; cbn [try_bind]; [| | |done].
  - destruct H1 as (ss & -> & Hch & Hle & Hnd & Hall). cbn [app steps start_key end_key] in *. split_and!; [done..|]. apply NoDup_cons. split; [|done].
    intros (s & Es & Hs)%(list_elem_of_fmap_1 result_key). rewrite Forall_forall in Hall. apply (Hall s Hs). set_solver.
  - destruct H1 as (_ & Hsub & Ht & Hc). split_and!; [done|done|]. intros Hr. apply Ht. eapply closed_reachable; [|exact Hr|set_solver]. intros e He Hin.
    destruct (decide (from_ekey e = start)) as [Es|Es]; [by eapply H2|]. apply Hc; [done|done|set_solver].
  - destruct H1 as (-> & ss & k & Hch & Hle). split_and!; [done|done|]. by exists ss, k.
Qed.

(** ** What the search does not promise *)

Definition sample_edge (a b : Z) : PatchEdge :=
  {| from_ekey := [a]; from_size := 1000; to_ekey := [b]; to_size := 2000; patch_key := [a; b]; patch_size := 500 |}.

(** The chain is the first one found, not the shortest. *)
Theorem chain_is_not_shortest :
  exists c, build [sample_edge 1 2; sample_edge 2 3; sample_edge 1 3] [1%Z] [3%Z] = Ret (Ok c) /\ chain_len c = 2 /\ is_empty c = false /\
  chain [sample_edge 1 2; sample_edge 2 3; sample_edge 1 3] [1%Z] [step_of (sample_edge 1 3)] [3%Z].
Proof.
  eexists. split; [vm_compute; reflexivity|]. split; [done|]. split; [done|]. apply (chain_cons _ (sample_edge 1 3)); [right; right; left|apply chain_nil].
Qed.

(** A branch of ten steps makes the search fail although the patch that leads straight
    to the end is in the list. *)
Theorem long_branch_hides_patch :
  let edges := map (fun i => sample_edge (Z.of_nat i) (Z.of_nat i + 1)) (seq 0 10) ++ [sample_edge 0 99] in
  build edges [0%Z] [99%Z] = Ret (Err (ChainTooLong 11 10)) /\ chain edges [0%Z] [step_of (sample_edge 0 99)] [99%Z].
Proof.
  split; [vm_compute; reflexivity|]. apply (chain_cons _ (sample_edge 0 99)); [|apply chain_nil]. apply elem_of_app. right. left.
Qed.
