(* ===== verification/PatchIndex.v ===== *)
(** * Patch index files

    The header with its block descriptors, the entries of three versions, the blocks,
    the parser and the builder (src/crates/cascette-formats/src/patch_index).  A parser
    that keeps a position takes the rest of the data instead; the sizes in error values
    are kept. *)

From S2P Require Import Prelude Bytes Utf8 Cursor Collections.
Local Open Scope Z_scope.

Module PatchIndex.

Inductive PatchIndexError : Type :=
| DataTooShort (actual minimum : nat)
| TruncatedHeader (header_size : Z) (actual : nat)
| TruncatedData (expected : Z) (actual : nat)
| UnsupportedVersion (version : Z)
| DataSizeMismatch (declared : Z) (actual : nat)
| InvalidBlockVersion (block_type expected actual : Z)
| IoError
| EntryOverflow (block_type needed : Z) (available : nat).

Notation presult := (result PatchIndexError).

(** ** Fields *)

(** [u32::from_le_bytes] of the next four bytes, which are there. *)
Definition take_u32 (l : bytes) : Z * bytes := (from_le_bytes (take 4 l), drop 4 l).

(** [key[..ks].copy_from_slice(&data[pos..pos + ks])] into sixteen zero bytes. *)
Definition take_key (ks : nat) (l : bytes) : outcome (bytes * bytes) :=
  if (16 <? ks)%nat then Panic else Ret (take ks l ++ zeros (16 - ks), drop ks l).

(** [&key[..ks]] of an array of sixteen bytes. *)
Definition key_prefix (ks : nat) (key : bytes) : outcome bytes := if (16 <? ks)%nat then Panic else Ret (take ks key).

(** ** Header *)

Definition MIN_HEADER_SIZE : nat := 14%nat.

Record BlockDescriptor := { block_type : Z; block_size : Z }.

Record PatchIndexHeader := {
  header_size : Z;
  version : Z;
  data_size : Z;
  h_key_size : Z;
  key_data : bytes;
  extra_data : bytes;
  blocks : list BlockDescriptor;
}.

(** The loop over the descriptors; each takes eight bytes, so the length of the data is
    enough. *)
Fixpoint read_blocks (fuel : nat) (e : PatchIndexError) (n : Z) (l : bytes) : presult (list BlockDescriptor) :=
  if n =? 0 then Ok []
  else
    match fuel with
    | O => Err e
    | S fuel =>
        if (length l <? 8)%nat then Err e
        else
          let '(block_type, l) := take_u32 l in
          let '(block_size, l) := take_u32 l in
          bs ← read_blocks fuel e (n - 1) l;
          Ok ({| block_type := block_type; block_size := block_size |} :: bs)
    end.

(** The key, the further data of the extra header, and what is behind it. *)
Definition read_extra (e : PatchIndexError) (extra_header_len : Z) (l : bytes) : presult (Z * bytes * bytes * bytes) :=
  if extra_header_len =? 0 then Ok (0, zeros 16, [], l)
  else
    match l with
    | [] => Err e
    | key_size :: l =>
        let key_bytes := Z.to_nat (Z.min key_size 16) in
        if (length l <? key_bytes)%nat then Err e
        else
          let key_data := take key_bytes l ++ zeros (16 - key_bytes) in
          let l := drop (Z.to_nat key_size) l in
          let consumed := key_size + 1 in
          if consumed <? extra_header_len then
            let remaining := Z.to_nat (extra_header_len - consumed) in
            if (length l <? remaining)%nat then Err e else Ok (key_size, key_data, take remaining l, drop remaining l)
          else Ok (key_size, key_data, [], l)
    end.

Definition total_block_size (bs : list BlockDescriptor) : Z := foldr Z.add 0 (map block_size bs).

Definition header_parse (data : bytes) : presult PatchIndexHeader :=
  if (length data <? MIN_HEADER_SIZE)%nat then Err (DataTooShort (length data) MIN_HEADER_SIZE)
  else
    let '(header_size, l) := take_u32 data in
    let '(version, l) := take_u32 l in
    let '(data_size, l) := take_u32 l in
    let extra_header_len := from_le_bytes (take 2 l) in
    let e := TruncatedHeader header_size (length data) in
    if negb (version =? 1) then Err (UnsupportedVersion version)
    else if Z.of_nat (length data) <? header_size then Err e
    else
      '(key_size, key_data, extra_data, l) ← read_extra e extra_header_len (drop 2 l);
      if (length l <? 4)%nat then Err e
      else
        let '(block_count, l) := take_u32 l in
        blocks ← read_blocks (length l) e block_count l;
        let expected := header_size + total_block_size blocks in
        if Z.of_nat (length data) <? expected then Err (TruncatedData expected (length data))
        else
          Ok {| header_size := header_size; version := version; data_size := data_size; h_key_size := key_size; key_data := key_data;
                extra_data := extra_data; blocks := blocks |}.

Definition write_block (b : BlockDescriptor) : bytes := to_le_bytes 4 (block_type b) ++ to_le_bytes 4 (block_size b).

Definition header_build (h : PatchIndexHeader) : outcome bytes :=
  let extra_len :=
    if (0 <? h_key_size h) || negb (length (extra_data h) =? 0)%nat then wrap 16 (wrap 16 (1 + h_key_size h) + wrap 16 (Z.of_nat (length (extra_data h))))
    else 1 in
  extra ← (if 0 <? extra_len then
             key ← (if 0 <? h_key_size h then key_prefix (Z.to_nat (h_key_size h)) (key_data h) else Ret []);
             Ret (h_key_size h :: key ++ extra_data h)
           else Ret []);
  Ret (to_le_bytes 4 (header_size h) ++ to_le_bytes 4 (version h) ++ to_le_bytes 4 (data_size h) ++ to_le_bytes 2 extra_len ++ extra ++
       to_le_bytes 4 (Z.of_nat (length (blocks h))) ++ concat (map write_block (blocks h))).

(** A sum of sizes of 32 bits; a list would need 2^32 of them to overflow 64. *)
Definition block_offset (h : PatchIndexHeader) (block_index : nat) : Z := header_size h + total_block_size (take block_index (blocks h)).

(** ** Entries *)

Record PatchIndexEntry := {
  source_ekey : bytes;
  source_size : Z;
  target_ekey : bytes;
  target_size : Z;
  encoded_size : Z;
  suffix_offset : Z;
  patch_ekey : bytes;
}.

Definition entry_size (key_size : Z) : Z := 3 * key_size + 13.

Definition entry_parse (key_size : Z) (data : bytes) : outcome (option PatchIndexEntry) :=
  if Z.of_nat (length data) <? entry_size key_size then Ret None
  else
    let ks := Z.to_nat key_size in
    '(source_ekey, l) ← take_key ks data;
    let '(source_size, l) := take_u32 l in
    '(target_ekey, l) ← take_key ks l;
    let '(target_size, l) := take_u32 l in
    let '(encoded_size, l) := take_u32 l in
    let suffix_offset := from_le_bytes (take 1 l) in
    '(patch_ekey, _) ← take_key ks (drop 1 l);
    Ret (Some {| source_ekey := source_ekey; source_size := source_size; target_ekey := target_ekey; target_size := target_size;
                 encoded_size := encoded_size; suffix_offset := suffix_offset; patch_ekey := patch_ekey |}).

Definition entry_build (key_size : Z) (e : PatchIndexEntry) : outcome bytes :=
  let ks := Z.to_nat key_size in
  source ← key_prefix ks (source_ekey e);
  target ← key_prefix ks (target_ekey e);
  patch ← key_prefix ks (patch_ekey e);
  Ret (source ++ to_le_bytes 4 (source_size e) ++ target ++ to_le_bytes 4 (target_size e) ++ to_le_bytes 4 (encoded_size e) ++
       to_le_bytes 1 (suffix_offset e) ++ patch).

Record PatchIndexEntryV2 := {
  v2_target_ekey : bytes;
  espec_offset : Z;
  decoded_size : Z;
  v2_patch_ekey : bytes;
  patch_encoded_size : Z;
  patch_decoded_size : Z;
  original_ekey_offset : Z;
  original_ekey : bytes;
  original_size : Z;
}.

Definition entry_v2_size (key_size : Z) : Z := 3 * key_size + 24.

Definition entry_v2_parse (key_size : Z) (data : bytes) : outcome (option PatchIndexEntryV2) :=
  if Z.of_nat (length data) <? entry_v2_size key_size then Ret None
  else
    let ks := Z.to_nat key_size in
    '(target_ekey, l) ← take_key ks data;
    let '(espec_offset, l) := take_u32 l in
    let '(decoded_size, l) := take_u32 l in
    '(patch_ekey, l) ← take_key ks l;
    let '(patch_encoded_size, l) := take_u32 l in
    let '(patch_decoded_size, l) := take_u32 l in
    let '(original_ekey_offset, l) := take_u32 l in
    '(original_ekey, l) ← take_key ks l;
    let '(original_size, _) := take_u32 l in
    Ret (Some {| v2_target_ekey := target_ekey; espec_offset := espec_offset; decoded_size := decoded_size; v2_patch_ekey := patch_ekey;
                 patch_encoded_size := patch_encoded_size; patch_decoded_size := patch_decoded_size; original_ekey_offset := original_ekey_offset;
                 original_ekey := original_ekey; original_size := original_size |}).

Definition entry_v2_build (key_size : Z) (e : PatchIndexEntryV2) : outcome bytes :=
  let ks := Z.to_nat key_size in
  target ← key_prefix ks (v2_target_ekey e);
  patch ← key_prefix ks (v2_patch_ekey e);
  original ← key_prefix ks (original_ekey e);
  Ret (target ++ to_le_bytes 4 (espec_offset e) ++ to_le_bytes 4 (decoded_size e) ++ patch ++ to_le_bytes 4 (patch_encoded_size e) ++
       to_le_bytes 4 (patch_decoded_size e) ++ to_le_bytes 4 (original_ekey_offset e) ++ original ++ to_le_bytes 4 (original_size e)).

Record PatchIndexEntryV3 := { base : PatchIndexEntryV2; flags : Z }.

Definition V3_FLAG_HAS_ORIGINAL_EKEY_OFFSET : Z := 0x01.
Definition V3_FLAG_HAS_ORIGINAL_EKEY : Z := 0x02.
Definition V3_FLAG_HAS_DECODED_SIZE : Z := 0x04.

Definition has (flags f : Z) : bool := negb (Z.land flags f =? 0).

Definition entry_v3_size (key_size flags : Z) : Z :=
  key_size + 4 + key_size + 4 + 4 + (if has flags V3_FLAG_HAS_DECODED_SIZE then 4 else 0) +
  (if has flags V3_FLAG_HAS_ORIGINAL_EKEY_OFFSET then 4 else 0) + (if has flags V3_FLAG_HAS_ORIGINAL_EKEY then key_size else 0) +
  (if has flags V3_FLAG_HAS_ORIGINAL_EKEY then 4 else 0).

(** A field that is there only if its flag is set, and zero otherwise. *)
Definition take_u32_if (present : bool) (l : bytes) : Z * bytes := if present then take_u32 l else (0, l).

Definition entry_v3_parse (key_size flags : Z) (data : bytes) : outcome (option PatchIndexEntryV3) :=
  if Z.of_nat (length data) <? entry_v3_size key_size flags then Ret None
  else
    let ks := Z.to_nat key_size in
    '(target_ekey, l) ← take_key ks data;
    let '(espec_offset, l) := take_u32 l in
    let '(decoded_size, l) := take_u32_if (has flags V3_FLAG_HAS_DECODED_SIZE) l in
    '(patch_ekey, l) ← take_key ks l;
    let '(patch_encoded_size, l) := take_u32 l in
    let '(patch_decoded_size, l) := take_u32 l in
    let '(original_ekey_offset, l) := take_u32_if (has flags V3_FLAG_HAS_ORIGINAL_EKEY_OFFSET) l in
    '(original_ekey, l) ← (if has flags V3_FLAG_HAS_ORIGINAL_EKEY then take_key ks l else Ret (zeros 16, l));
    let '(original_size, _) := take_u32_if (has flags V3_FLAG_HAS_ORIGINAL_EKEY) l in
    Ret (Some {| base := {| v2_target_ekey := target_ekey; espec_offset := espec_offset; decoded_size := decoded_size; v2_patch_ekey := patch_ekey;
                            patch_encoded_size := patch_encoded_size; patch_decoded_size := patch_decoded_size;
                            original_ekey_offset := original_ekey_offset; original_ekey := original_ekey; original_size := original_size |};
                 flags := flags |}).

Definition entry_v3_build (key_size : Z) (e : PatchIndexEntryV3) : outcome bytes :=
  let ks := Z.to_nat key_size in
  let b := base e in
  let when (f : Z) (bs : bytes) : bytes := if has (flags e) f then bs else [] in
  target ← key_prefix ks (v2_target_ekey b);
  patch ← key_prefix ks (v2_patch_ekey b);
  original ← (if has (flags e) V3_FLAG_HAS_ORIGINAL_EKEY then key_prefix ks (original_ekey b) else Ret []);
  Ret (target ++ to_le_bytes 4 (espec_offset b) ++ when V3_FLAG_HAS_DECODED_SIZE (to_le_bytes 4 (decoded_size b)) ++ patch ++
       to_le_bytes 4 (patch_encoded_size b) ++ to_le_bytes 4 (patch_decoded_size b) ++
       when V3_FLAG_HAS_ORIGINAL_EKEY_OFFSET (to_le_bytes 4 (original_ekey_offset b)) ++
       when V3_FLAG_HAS_ORIGINAL_EKEY (original ++ to_le_bytes 4 (original_size b))).

(** ** Blocks *)

Definition BLOCK_TYPE_SKIP : Z := 1.
Definition BLOCK_TYPE_ENTRIES : Z := 2.
Definition BLOCK_TYPE_V2 : Z := 6.
Definition BLOCK_TYPE_EXTENDED : Z := 8.
Definition BLOCK_TYPE_V3 : Z := 10.

(** The loop over the entries of a block, behind the check that they are there. *)
Fixpoint read_entries {A} (parse : bytes -> outcome (option A)) (bt esize : Z) (available n : nat) (l : bytes) : outcome (presult (list A)) :=
  match n with
  | O => Ret (Ok [])
  | S n =>
      entry ← parse l;
      match entry with
      | None => Ret (Err (EntryOverflow bt (Z.of_nat available - Z.of_nat (length l) + esize) available))
      | Some entry =>
          es ←? read_entries parse bt esize available n (drop (Z.to_nat esize) l);
          Ret (Ok (entry :: es))
      end
  end.

(** The entries from [pos] on, with the check that there are as many as announced. *)
Definition parse_entries {A} (parse : bytes -> outcome (option A)) (bt esize : Z) (data : bytes) (pos : nat) (entry_count : Z) : outcome (presult (list A)) :=
  let needed := Z.of_nat pos + entry_count * esize in
  if Z.of_nat (length data) <? needed then Ret (Err (EntryOverflow bt needed (length data)))
  else read_entries parse bt esize (length data) (Z.to_nat entry_count) (drop pos data).

Definition parse_block2 (data : bytes) : outcome (presult (Z * list PatchIndexEntry)) :=
  if (length data <? 5)%nat then Ret (Err (EntryOverflow BLOCK_TYPE_ENTRIES 5 (length data)))
  else
    let entry_count := from_le_bytes (take 4 data) in
    let key_size := from_le_bytes (slice 4 5 data) in
    es ←? parse_entries (entry_parse key_size) BLOCK_TYPE_ENTRIES (entry_size key_size) data 5 entry_count;
    Ret (Ok (key_size, es)).

Definition parse_block8 (data : bytes) : outcome (presult (Z * list PatchIndexEntry)) :=
  if (length data <? 14)%nat then Ret (Err (EntryOverflow BLOCK_TYPE_EXTENDED 14 (length data)))
  else
    let version := from_le_bytes (take 1 data) in
    if negb (version =? 3) then Ret (Err (InvalidBlockVersion BLOCK_TYPE_EXTENDED 3 version))
    else
      let key_size := from_le_bytes (slice 1 2 data) in
      let data_offset := from_le_bytes (slice 2 4 data) in
      let entry_count := from_le_bytes (slice 4 8 data) in
      es ←? parse_entries (entry_parse key_size) BLOCK_TYPE_EXTENDED (entry_size key_size) data (Z.to_nat data_offset) entry_count;
      Ret (Ok (key_size, es)).

(** The table of encoding specifications at [pos], and where it ends. *)
Definition read_espec (bt : Z) (data : bytes) (pos : nat) (espec_len : Z) : presult (option bytes * nat) :=
  if espec_len =? 0 then Ok (None, pos)
  else if Z.of_nat (length data) <? Z.of_nat pos + espec_len then Err (EntryOverflow bt (Z.of_nat pos + espec_len) (length data))
  else let end_ := (pos + Z.to_nat espec_len)%nat in Ok (Some (from_utf8_lossy (slice pos end_ data)), end_).

Definition parse_block6 (data : bytes) : outcome (presult (Z * list PatchIndexEntryV2 * option bytes)) :=
  if (length data <? 14)%nat then Ret (Err (EntryOverflow BLOCK_TYPE_V2 14 (length data)))
  else
    let identifier := from_le_bytes (take 1 data) in
    if negb (identifier =? 2) then Ret (Err (InvalidBlockVersion BLOCK_TYPE_V2 2 identifier))
    else
      let key_size := from_le_bytes (slice 1 2 data) in
      let entry_count := from_le_bytes (slice 2 6 data) in
      let espec_len := from_le_bytes (slice 10 14 data) in
      '(espec_table, pos) ←? Ret (read_espec BLOCK_TYPE_V2 data 14 espec_len);
      es ←? parse_entries (entry_v2_parse key_size) BLOCK_TYPE_V2 (entry_v2_size key_size) data pos entry_count;
      Ret (Ok (key_size, es, espec_table)).

Definition parse_block10 (data : bytes) : outcome (presult (Z * list PatchIndexEntryV3 * option bytes)) :=
  if (length data <? 15)%nat then Ret (Err (EntryOverflow BLOCK_TYPE_V3 15 (length data)))
  else
    let identifier := from_le_bytes (take 1 data) in
    if negb (identifier =? 2) then Ret (Err (InvalidBlockVersion BLOCK_TYPE_V3 2 identifier))
    else
      let key_size := from_le_bytes (slice 1 2 data) in
      let entry_count := from_le_bytes (slice 2 6 data) in
      let espec_len := from_le_bytes (slice 10 14 data) in
      let flags := from_le_bytes (slice 14 15 data) in
      '(espec_table, pos) ←? Ret (read_espec BLOCK_TYPE_V3 data 15 espec_len);
      es ←? parse_entries (entry_v3_parse key_size flags) BLOCK_TYPE_V3 (entry_v3_size key_size flags) data pos entry_count;
      Ret (Ok (key_size, es, espec_table)).

(** ** The file *)

(** [ParsedPatchIndex] and [PatchIndex]. *)
Record PatchIndex := {
  header : PatchIndexHeader;
  key_size : Z;
  entries : list PatchIndexEntry;
  entries_v2 : list PatchIndexEntryV2;
  entries_v3 : list PatchIndexEntryV3;
  espec_table : option bytes;
}.

Definition with_entries (p : PatchIndex) (ks : Z) (es : list PatchIndexEntry) : PatchIndex :=
  {| header := header p; key_size := ks; entries := es; entries_v2 := entries_v2 p; entries_v3 := entries_v3 p; espec_table := espec_table p |}.

(** A table of specifications replaces the one before if there is one. *)
Definition or_else (a b : option bytes) : option bytes := match a with Some _ => a | None => b end.

Definition parse_block (p : PatchIndex) (found_block2 : bool) (bt : Z) (block_data : bytes) : outcome (presult (PatchIndex * bool)) :=
  if bt =? BLOCK_TYPE_ENTRIES then
    '(ks, es) ←? parse_block2 block_data;
    Ret (Ok (with_entries p ks es, true))
  else if bt =? BLOCK_TYPE_V2 then
    '(ks, es, espec) ←? parse_block6 block_data;
    Ret (Ok ({| header := header p; key_size := ks; entries := entries p; entries_v2 := es; entries_v3 := entries_v3 p;
                espec_table := or_else espec (espec_table p) |}, found_block2))
  else if (bt =? BLOCK_TYPE_EXTENDED) && negb found_block2 then
    '(ks, es) ←? parse_block8 block_data;
    Ret (Ok (with_entries p ks es, found_block2))
  else if bt =? BLOCK_TYPE_V3 then
    '(ks, es, espec) ←? parse_block10 block_data;
    Ret (Ok ({| header := header p; key_size := ks; entries := entries p; entries_v2 := entries_v2 p; entries_v3 := es;
                espec_table := or_else espec (espec_table p) |}, found_block2))
  else Ret (Ok (p, found_block2)).

(** The loop over the descriptors; [offset] is [block_offset] of the first of them. *)
Fixpoint parse_blocks (data : bytes) (offset : Z) (descs : list BlockDescriptor) (p : PatchIndex) (found_block2 : bool) : outcome (presult PatchIndex) :=
  match descs with
  | [] => Ret (Ok p)
  | desc :: descs =>
      let next := offset + block_size desc in
      if Z.of_nat (length data) <? next then Panic
      else
        '(p, found_block2) ←? parse_block p found_block2 (block_type desc) (slice (Z.to_nat offset) (Z.to_nat next) data);
        parse_blocks data next descs p found_block2
  end.

Definition parse_patch_index_full (data : bytes) : outcome (presult PatchIndex) :=
  h ←? Ret (header_parse data);
  if negb (data_size h =? Z.of_nat (length data)) then Ret (Err (DataSizeMismatch (data_size h) (length data)))
  else
    parse_blocks data (block_offset h 0) (blocks h)
      {| header := h; key_size := 16; entries := []; entries_v2 := []; entries_v3 := []; espec_table := None |} false.

Definition parse_patch_index (data : bytes) : outcome (presult (PatchIndexHeader * Z * list PatchIndexEntry)) :=
  p ←? parse_patch_index_full data;
  Ret (Ok (header p, key_size p, entries p)).

Definition find_by_patch_ekey (p : PatchIndex) (k : bytes) : list PatchIndexEntry := filter (fun e => patch_ekey e = k) (entries p).
Definition find_by_source_ekey (p : PatchIndex) (k : bytes) : list PatchIndexEntry := filter (fun e => source_ekey e = k) (entries p).
Definition find_by_target_ekey (p : PatchIndex) (k : bytes) : list PatchIndexEntry := filter (fun e => target_ekey e = k) (entries p).
Definition find_v2_by_target_ekey (p : PatchIndex) (k : bytes) : list PatchIndexEntryV2 := filter (fun e => v2_target_ekey e = k) (entries_v2 p).
Definition find_v3_by_target_ekey (p : PatchIndex) (k : bytes) : list PatchIndexEntryV3 := filter (fun e => v2_target_ekey (base e) = k) (entries_v3 p).

(** [Vec::dedup]: of equal neighbours the first stays. *)
Fixpoint dedup (l : list bytes) : list bytes :=
  match l with
  | x :: l' => x :: match dedup l' with y :: r => if bool_decide (x = y) then r else y :: r | [] => [] end
  | [] => []
  end.

Definition unique_patch_ekeys (p : PatchIndex) : list bytes := dedup (sort_by_key (fun k => k) (map patch_ekey (entries p))).

Definition has_extended_entries (p : PatchIndex) : bool := negb (length (entries_v2 p) =? 0)%nat || negb (length (entries_v3 p) =? 0)%nat.
Definition total_entry_count (p : PatchIndex) : nat := (length (entries p) + length (entries_v2 p) + length (entries_v3 p))%nat.

(** ** Builder *)

Definition BLOCK1_DATA : bytes := [0x03; 0x00; 0x00; 0x00; 0x00; 0x6E; 0x00].

Record PatchIndexBuilder := { b_key_size : Z; b_entries : list PatchIndexEntry }.

Definition builder_new : PatchIndexBuilder := {| b_key_size := 16; b_entries := [] |}.
Definition set_key_size (b : PatchIndexBuilder) (ks : Z) : PatchIndexBuilder := {| b_key_size := ks; b_entries := b_entries b |}.
Definition add_entry (b : PatchIndexBuilder) (e : PatchIndexEntry) : PatchIndexBuilder := {| b_key_size := b_key_size b; b_entries := b_entries b ++ [e] |}.

Fixpoint build_entries (ks : Z) (es : list PatchIndexEntry) : outcome bytes :=
  match es with
  | [] => Ret []
  | e :: es => b ← entry_build ks e; bs ← build_entries ks es; Ret (b ++ bs)
  end.

Definition built_header (block2 block8 : Z) : PatchIndexHeader :=
  {| header_size := 43; version := 1; data_size := wrap32 (43 + 7 + block2 + block8); h_key_size := 0; key_data := zeros 16; extra_data := [];
     blocks := [{| block_type := 1; block_size := 7 |}; {| block_type := 2; block_size := wrap32 block2 |}; {| block_type := 8; block_size := wrap32 block8 |}] |}.

Definition builder_build (b : PatchIndexBuilder) : outcome (presult bytes) :=
  let ks := b_key_size b in
  let count := to_le_bytes 4 (Z.of_nat (length (b_entries b))) in
  data ← build_entries ks (b_entries b);
  let block2 := count ++ to_le_bytes 1 ks ++ data in
  let block8 := to_le_bytes 1 3 ++ to_le_bytes 1 ks ++ to_le_bytes 2 14 ++ count ++ to_le_bytes 4 (entry_size ks + 1) ++ [0x01; 0x02] ++ data in
  h ← header_build (built_header (Z.of_nat (length block2)) (Z.of_nat (length block8)));
  Ret (Ok (h ++ BLOCK1_DATA ++ block2 ++ block8)).

(** [CascFormat::parse] and [CascFormat::build]; writing keeps the entries of version
    one only. *)
Definition parse (data : bytes) : outcome (presult PatchIndex) := parse_patch_index_full data.
Definition build (p : PatchIndex) : outcome (presult bytes) := builder_build (fold_left add_entry (entries p) (set_key_size builder_new (key_size p))).

End PatchIndex.
