(* ===== verification/PatchIndexTheorems.v ===== *)
(** * Patch index files: the theorems

    Entries of all versions are read back as written; a built file parses to the given
    entries, from either of its two copies, and is written again as the same bytes; the
    parser panics only on keys longer than sixteen bytes. *)

From S2P Require Import Prelude Bytes Utf8 Cursor Collections PatchIndex.
Import PatchIndex.
Local Open Scope Z_scope.

(** ** Fields *)

Lemma take_u32_app v l : u32 v -> take_u32 (to_le_bytes 4 v ++ l) = (v, l).
Proof.
  intros Hv. unfold take_u32. rewrite take_app_length', drop_app_length' by (by rewrite length_to_le_bytes). by rewrite (le_roundtrip 4 32).
Qed.

(** A key of [ks] bytes in an array of sixteen. *)
Definition key_ok (ks : Z) (k : bytes) : Prop := length k = 16%nat /\ drop (Z.to_nat ks) k = zeros (16 - Z.to_nat ks).

Lemma key_prefix_ok ks k : 0 <= ks <= 16 -> key_prefix (Z.to_nat ks) k = Ret (take (Z.to_nat ks) k).
Proof. intros Hks. unfold key_prefix. by rewrite (proj2 (Nat.ltb_ge _ _)) by lia. Qed.

Lemma length_key_prefix ks k : 0 <= ks <= 16 -> key_ok ks k -> length (take (Z.to_nat ks) k) = Z.to_nat ks.
Proof. intros Hks [Hl _]. rewrite length_take. lia. Qed.

Lemma take_key_app ks k l : 0 <= ks <= 16 -> key_ok ks k -> take_key (Z.to_nat ks) (take (Z.to_nat ks) k ++ l) = Ret (k, l).
Proof.
  intros Hks Hk. pose proof (length_key_prefix ks k Hks Hk) as Hl. destruct Hk as [Hlen Hz]. unfold take_key. rewrite (proj2 (Nat.ltb_ge _ _)) by lia.
  rewrite take_app_length', drop_app_length' by done. by rewrite <- Hz, take_drop.
Qed.

(** ** Entries *)

Definition entry_ok (ks : Z) (e : PatchIndexEntry) : Prop :=
  key_ok ks (source_ekey e) /\ u32 (source_size e) /\ key_ok ks (target_ekey e) /\ u32 (target_size e) /\ u32 (encoded_size e) /\ u8 (suffix_offset e) /\
  key_ok ks (patch_ekey e).

(** Reads the next field of an entry. *)
Ltac field_next :=
  first [rewrite take_u32_app by done | rewrite take_key_app by done];
  cbn [mbind outcome_bind].

(** An entry is read back, whatever is behind it. *)
Lemma entry_v1_roundtrip ks e :
  0 <= ks <= 16 -> entry_ok ks e ->
  exists b, entry_build ks e = Ret b /\ Z.of_nat (length b) = entry_size ks /\ forall rest, entry_parse ks (b ++ rest) = Ret (Some e).
Proof.
  intros Hks (H1 & H2 & H3 & H4 & H5 & H6 & H7). unfold entry_build. rewrite !key_prefix_ok by done. cbn [mbind outcome_bind]. eexists. split; [done|].
  rewrite !length_app, !length_to_le_bytes, !length_key_prefix by done. unfold entry_size. split; [lia|]. intros rest. unfold entry_parse, entry_size.
  rewrite (proj2 (Z.ltb_ge _ _)) by (rewrite !length_app, !length_to_le_bytes, !length_key_prefix by done; lia).
  rewrite <- !app_assoc. repeat field_next. rewrite take_app_length', drop_app_length' by (by rewrite length_to_le_bytes). rewrite (le_roundtrip 1 8) by done.
  repeat field_next. by destruct e.
Qed.

Definition entry_v2_ok (ks : Z) (e : PatchIndexEntryV2) : Prop :=
  key_ok ks (v2_target_ekey e) /\ u32 (espec_offset e) /\ u32 (decoded_size e) /\ key_ok ks (v2_patch_ekey e) /\ u32 (patch_encoded_size e) /\
  u32 (patch_decoded_size e) /\ u32 (original_ekey_offset e) /\ key_ok ks (original_ekey e) /\ u32 (original_size e).

Lemma entry_v2_roundtrip ks e :
  0 <= ks <= 16 -> entry_v2_ok ks e ->
  exists b, entry_v2_build ks e = Ret b /\ Z.of_nat (length b) = entry_v2_size ks /\ forall rest, entry_v2_parse ks (b ++ rest) = Ret (Some e).
Proof.
  intros Hks (H1 & H2 & H3 & H4 & H5 & H6 & H7 & H8 & H9). unfold entry_v2_build. rewrite !key_prefix_ok by done. cbn [mbind outcome_bind]. eexists. split; [done|].
  rewrite !length_app, !length_to_le_bytes, !length_key_prefix by done. unfold entry_v2_size. split; [lia|]. intros rest. unfold entry_v2_parse, entry_v2_size.
  rewrite (proj2 (Z.ltb_ge _ _)) by (rewrite !length_app, !length_to_le_bytes, !length_key_prefix by done; lia).
  rewrite <- !app_assoc. repeat field_next. by destruct e.
Qed.

(** An entry whose absent fields are zero. *)
Definition entry_v3_ok (ks : Z) (e : PatchIndexEntryV3) : Prop :=
  entry_v2_ok ks (base e) /\ (has (flags e) V3_FLAG_HAS_DECODED_SIZE = false -> decoded_size (base e) = 0) /\
  (has (flags e) V3_FLAG_HAS_ORIGINAL_EKEY_OFFSET = false -> original_ekey_offset (base e) = 0) /\
  (has (flags e) V3_FLAG_HAS_ORIGINAL_EKEY = false -> original_ekey (base e) = zeros 16 /\ original_size (base e) = 0).

Lemma take_u32_if_app (present : bool) v l :
  u32 v -> (present = false -> v = 0) -> take_u32_if present ((if present then to_le_bytes 4 v else []) ++ l) = (v, l).
Proof. intros Hv H0. destruct present; cbn [take_u32_if app]; [by apply take_u32_app|]. by rewrite H0. Qed.

Lemma entry_v3_roundtrip ks e :
  0 <= ks <= 16 -> entry_v3_ok ks e ->
  exists b, entry_v3_build ks e = Ret b /\ Z.of_nat (length b) = entry_v3_size ks (flags e) /\ forall rest, entry_v3_parse ks (flags e) (b ++ rest) = Ret (Some e).
Proof.
  intros Hks ((H1 & H2 & H3 & H4 & H5 & H6 & H7 & H8 & H9) & Hd & Ho & Hk). unfold entry_v3_build. rewrite !key_prefix_ok by done. cbn [mbind outcome_bind].
  set (original := (if has (flags e) V3_FLAG_HAS_ORIGINAL_EKEY then take (Z.to_nat ks) (original_ekey (base e)) else [])).
  assert ((if has (flags e) V3_FLAG_HAS_ORIGINAL_EKEY then Ret (take (Z.to_nat ks) (original_ekey (base e))) else Ret []) = Ret original) as -> by (unfold original; by case_match).
  cbn [mbind outcome_bind]. eexists. split; [done|]. 
  match goal with |- Z.of_nat (length ?b) = _ /\ _ => assert (Z.of_nat (length b) = entry_v3_size ks (flags e)) as Hlen end.
  { unfold entry_v3_size. rewrite !length_app, !length_to_le_bytes, !length_key_prefix by done. unfold original.
    destruct (has _ V3_FLAG_HAS_DECODED_SIZE), (has _ V3_FLAG_HAS_ORIGINAL_EKEY_OFFSET), (has _ V3_FLAG_HAS_ORIGINAL_EKEY); cbn [length];
      rewrite ?length_app, ?length_to_le_bytes, ?length_key_prefix by done; lia. }
  split; [exact Hlen|]. intros rest. unfold entry_v3_parse. rewrite (proj2 (Z.ltb_ge _ _)) by (rewrite length_app; lia). clear Hlen.
  rewrite <- !app_assoc. repeat field_next. rewrite take_u32_if_app by done. repeat field_next. rewrite take_u32_if_app by done. unfold original.
  destruct (has (flags e) V3_FLAG_HAS_ORIGINAL_EKEY) eqn:Ek.
  - rewrite <- !app_assoc. repeat field_next. unfold take_u32_if. repeat field_next. destruct e as [[] ?]. done.
  - destruct (Hk eq_refl) as [E1 E2]. cbn [mbind outcome_bind take_u32_if]. destruct e as [[] ?]. cbn in E1, E2 |- *. by rewrite E1, E2.
Qed.

(** ** Blocks *)

Lemma build_entries_ok ks es :
  0 <= ks <= 16 -> Forall (entry_ok ks) es ->
  exists d, build_entries ks es = Ret d /\ Z.of_nat (length d) = Z.of_nat (length es) * entry_size ks /\
    forall bt available rest, read_entries (entry_parse ks) bt (entry_size ks) available (length es) (d ++ rest) = Ret (Ok es).
Proof.
  intros Hks. induction 1 as [|e es He Hes (d & Hd & Hl & Hr)]; [by exists []|]. cbn [build_entries]. destruct (entry_v1_roundtrip ks e Hks He) as (b & -> & Hb & Hp).
  rewrite Hd. cbn [mbind outcome_bind length]. exists (b ++ d). split; [done|]. rewrite length_app. split; [lia|]. intros bt available rest.
  cbn [read_entries]. rewrite <- app_assoc, Hp. cbn [mbind outcome_bind]. rewrite drop_app_length' by lia. by rewrite Hr.
Qed.

Lemma parse_index_entries_ok ks es d bt a rest :
  (forall available rest, read_entries (entry_parse ks) bt (entry_size ks) available (length es) (d ++ rest) = Ret (Ok es)) ->
  Z.of_nat (length d) = Z.of_nat (length es) * entry_size ks ->
  parse_entries (entry_parse ks) bt (entry_size ks) (a ++ d ++ rest) (length a) (Z.of_nat (length es)) = Ret (Ok es).
Proof.
  intros Hr Hl. unfold parse_entries. rewrite (proj2 (Z.ltb_ge _ _)) by (rewrite !length_app; lia). by rewrite Nat2Z.id, drop_app_length.
Qed.

Lemma slice_mid a b c i j : i = length a -> j = (i + length b)%nat -> slice i j (a ++ b ++ c) = b.
Proof.
  intros -> ->. unfold slice. rewrite drop_app_length. replace (length a + length b - length a)%nat with (length b) by lia. by rewrite take_app_length.
Qed.

Lemma read_blocks_ok bs fuel e rest :
  Forall (fun b => u32 (block_type b) /\ u32 (block_size b)) bs -> (length bs <= fuel)%nat ->
  read_blocks fuel e (Z.of_nat (length bs)) (concat (map write_block bs) ++ rest) = Ok bs.
Proof.
  intros Hbs. revert fuel. induction Hbs as [|b bs [H1 H2] Hbs IH]; intros fuel Hf; [by destruct fuel|]. cbn [length map concat] in *. destruct fuel as [|fuel]; [lia|].
  cbn [read_blocks]. rewrite (proj2 (Z.eqb_neq _ 0)) by lia. change (write_block b) with (to_le_bytes 4 (block_type b) ++ to_le_bytes 4 (block_size b)). rewrite <- !app_assoc.
  rewrite (proj2 (Nat.ltb_ge _ _)) by (rewrite !length_app, !length_to_le_bytes; lia). do 2 (rewrite take_u32_app by done; cbn beta iota).
  replace (Z.of_nat (S (length bs)) - 1) with (Z.of_nat (length bs)) by lia. rewrite IH by lia. by destruct b.
Qed.

(** ** Header *)

Definition header_ok (h : PatchIndexHeader) : Prop :=
  u32 (header_size h) /\ version h = 1 /\ u32 (data_size h) /\ 0 <= h_key_size h <= 16 /\ key_ok (h_key_size h) (key_data h) /\
  1 + h_key_size h + Z.of_nat (length (extra_data h)) < 2 ^ 16 /\ Forall (fun b => u32 (block_type b) /\ u32 (block_size b)) (blocks h) /\
  Z.of_nat (length (blocks h)) < 2 ^ 32.

Definition header_bytes (h : PatchIndexHeader) : bytes :=
  to_le_bytes 4 (header_size h) ++ to_le_bytes 4 (version h) ++ to_le_bytes 4 (data_size h) ++
  to_le_bytes 2 (1 + h_key_size h + Z.of_nat (length (extra_data h))) ++ (h_key_size h :: take (Z.to_nat (h_key_size h)) (key_data h) ++ extra_data h) ++
  to_le_bytes 4 (Z.of_nat (length (blocks h))) ++ concat (map write_block (blocks h)).

Lemma header_build_ok h : header_ok h -> header_build h = Ret (header_bytes h).
Proof.
  intros (_ & _ & _ & Hks & _ & Hx & _ & _). unfold header_build.
  match goal with |- context [to_le_bytes 2 ?e] => assert (e = 1 + h_key_size h + Z.of_nat (length (extra_data h))) as -> end.
  { destruct (Z.ltb_spec 0 (h_key_size h)); cbn [orb]; [|destruct (Nat.eqb_spec (length (extra_data h)) 0); cbn [negb]; [lia|]];
      rewrite (wrap_small 16 (Z.of_nat _)), (wrap_small 16 (1 + _)), wrap_small by (unfold in_u; lia); lia. }
  rewrite (proj2 (Z.ltb_lt 0 _)) by lia. destruct (Z.ltb_spec 0 (h_key_size h)); [by rewrite key_prefix_ok|]. unfold header_bytes.
  by replace (h_key_size h) with 0 by lia.
Qed.

Lemma length_header_bytes h :
  header_ok h -> Z.of_nat (length (header_bytes h)) = 19 + h_key_size h + Z.of_nat (length (extra_data h)) + 8 * Z.of_nat (length (blocks h)).
Proof.
  intros (_ & _ & _ & Hks & Hk & _). unfold header_bytes. cbn [app]. rewrite !length_app, !length_to_le_bytes. cbn [length]. rewrite !length_app, !length_to_le_bytes, length_key_prefix by done.
  rewrite (length_concat_blocks 8); [rewrite length_map; lia|]. unfold blocks_of. rewrite Forall_map. by apply Forall_forall.
Qed.

(** A header reads back if the data it announces is there. *)
Lemma index_header_roundtrip h rest :
  header_ok h -> header_size h + total_block_size (blocks h) <= Z.of_nat (length (header_bytes h ++ rest)) -> header_parse (header_bytes h ++ rest) = Ok h.
Proof.
  intros Hok Hl. pose proof (length_header_bytes h Hok) as Hlen. destruct Hok as (H1 & Hv & H3 & Hks & Hk & Hx & Hbs & Hn). unfold header_parse.
  assert (0 <= total_block_size (blocks h)) as H0.
  { clear -Hbs. unfold total_block_size. induction Hbs as [|b bs [_ Hb] _ IH]; cbn [map foldr]; [lia|]. unfold in_u in Hb. lia. }
  rewrite (proj2 (Nat.ltb_ge _ MIN_HEADER_SIZE)) by (rewrite length_app; unfold MIN_HEADER_SIZE; lia). set (n := length (header_bytes h ++ rest)) in *. clearbody n.
  unfold header_bytes. rewrite <- !app_assoc. do 3 (rewrite take_u32_app by (first [done | (rewrite Hv; unfold in_u; lia)]); cbn beta iota).
  rewrite take_app_length', drop_app_length' by (by rewrite length_to_le_bytes). rewrite (le_roundtrip 2 16) by (unfold in_u; lia). rewrite Hv. cbn [Z.eqb negb].
  rewrite (proj2 (Z.ltb_ge _ _)) by lia. unfold read_extra. rewrite (proj2 (Z.eqb_neq _ 0)) by lia. cbn [app]. rewrite <- !app_assoc.
  rewrite (Z.min_l (h_key_size h)) by lia. pose proof (length_key_prefix _ _ Hks Hk) as Hkl. rewrite (proj2 (Nat.ltb_ge _ _)) by (rewrite length_app; lia).
  rewrite (take_app_length' (take _ _)), (drop_app_length' (take _ _)) by done. rewrite <- (proj2 Hk), take_drop.
  change (negb (1 =? 1)%positive) with false. cbn iota. set (tail := to_le_bytes 4 (Z.of_nat (length (blocks h))) ++ concat (map write_block (blocks h)) ++ rest).
  replace (1 + h_key_size h + Z.of_nat (length (extra_data h)) - (h_key_size h + 1)) with (Z.of_nat (length (extra_data h))) by lia. rewrite Nat2Z.id.
  rewrite take_app_length, drop_app_length. rewrite (proj2 (Nat.ltb_ge _ _)) by (rewrite length_app; lia).
  assert (forall A (x y : A), (if h_key_size h + 1 <? 1 + h_key_size h + Z.of_nat (length (extra_data h)) then x else y) = if (length (extra_data h) =? 0)%nat then y else x) as ->.
  { intros A x y. destruct (Z.ltb_spec (h_key_size h + 1) (1 + h_key_size h + Z.of_nat (length (extra_data h)))), (Nat.eqb_spec (length (extra_data h)) 0); (done || lia). }
  match goal with |- ?m ≫= _ = _ => assert (m = Ok (h_key_size h, key_data h, extra_data h, tail)) as -> end.
  { destruct (Nat.eqb_spec (length (extra_data h)) 0) as [E|E]; [|done]. by apply nil_length_inv in E as ->. }
  cbn [mbind result_bind]. unfold tail. rewrite (proj2 (Nat.ltb_ge _ _)) by (rewrite !length_app, length_to_le_bytes; lia). rewrite take_u32_app by (unfold in_u; lia).
  rewrite read_blocks_ok; [|done|].
  - cbn [mbind result_bind]. rewrite (proj2 (Z.ltb_ge _ _)) by lia. rewrite <- Hv. by destruct h.
  - rewrite length_app, (length_concat_blocks 8); [rewrite length_map; lia|]. unfold blocks_of. rewrite Forall_map. by apply Forall_forall.
Qed.

(** ** Built files *)

Lemma index_fold_add es b : fold_left add_entry es b = {| b_key_size := b_key_size b; b_entries := b_entries b ++ es |}.
Proof. revert b. induction es as [|e es IH]; intros b; cbn [fold_left]; [destruct b; cbn; by rewrite app_nil_r|]. rewrite IH. cbn. by rewrite <- app_assoc. Qed.

(** The two copies of the entries. *)
Lemma block2_ok ks es d :
  0 <= ks <= 16 -> Z.of_nat (length es) < 2 ^ 32 -> Z.of_nat (length d) = Z.of_nat (length es) * entry_size ks ->
  (forall bt available rest, read_entries (entry_parse ks) bt (entry_size ks) available (length es) (d ++ rest) = Ret (Ok es)) ->
  parse_block2 (to_le_bytes 4 (Z.of_nat (length es)) ++ to_le_bytes 1 ks ++ d) = Ret (Ok (ks, es)).
Proof.
  intros Hks Hn Hl Hr. unfold parse_block2. rewrite (proj2 (Nat.ltb_ge _ _)) by (rewrite !length_app, !length_to_le_bytes; lia).
  rewrite take_app_length' by (by rewrite length_to_le_bytes). rewrite (le_roundtrip 4 32) by (unfold in_u; lia).
  rewrite (slice_mid (to_le_bytes 4 _) (to_le_bytes 1 ks) d) by (by rewrite !length_to_le_bytes). rewrite (le_roundtrip 1 8) by (unfold in_u; lia).
  pose proof (parse_index_entries_ok ks es d BLOCK_TYPE_ENTRIES (to_le_bytes 4 (Z.of_nat (length es)) ++ to_le_bytes 1 ks) [] (Hr _) Hl) as Hp.
  rewrite app_nil_r, <- app_assoc, length_app, !length_to_le_bytes in Hp. change (4 + 1)%nat with 5%nat in Hp. by rewrite Hp.
Qed.

Lemma block8_ok ks es d x :
  0 <= ks <= 16 -> Z.of_nat (length es) < 2 ^ 32 -> Z.of_nat (length d) = Z.of_nat (length es) * entry_size ks -> length x = 6%nat ->
  (forall bt available rest, read_entries (entry_parse ks) bt (entry_size ks) available (length es) (d ++ rest) = Ret (Ok es)) ->
  parse_block8 (to_le_bytes 1 3 ++ to_le_bytes 1 ks ++ to_le_bytes 2 14 ++ to_le_bytes 4 (Z.of_nat (length es)) ++ x ++ d) = Ret (Ok (ks, es)).
Proof.
  intros Hks Hn Hl Hx Hr. unfold parse_block8. rewrite (proj2 (Nat.ltb_ge _ _)) by (rewrite !length_app, !length_to_le_bytes; lia).
  set (c := to_le_bytes 4 (Z.of_nat (length es))). assert (length c = 4%nat) as Hc by apply length_to_le_bytes.
  change (from_le_bytes (take 1 _)) with 3. cbn [Z.eqb Pos.eqb negb].
  rewrite (slice_mid (to_le_bytes 1 3) (to_le_bytes 1 ks) _ 1 2) by (by rewrite !length_to_le_bytes). rewrite (le_roundtrip 1 8) by (unfold in_u; lia).
  pose proof (parse_index_entries_ok ks es d BLOCK_TYPE_EXTENDED (to_le_bytes 1 3 ++ to_le_bytes 1 ks ++ to_le_bytes 2 14 ++ c ++ x) [] (Hr _) Hl) as Hp.
  rewrite app_nil_r, <- !app_assoc in Hp. replace (length _) with 14%nat in Hp by (rewrite !length_app, !length_to_le_bytes; lia).
  pose proof (slice_mid (to_le_bytes 1 3 ++ to_le_bytes 1 ks) (to_le_bytes 2 14) (c ++ x ++ d) 2 4) as S1. rewrite <- app_assoc in S1.
  rewrite S1 by (by rewrite ?length_app, ?length_to_le_bytes). rewrite (le_roundtrip 2 16) by (unfold in_u; lia).
  pose proof (slice_mid (to_le_bytes 1 3 ++ to_le_bytes 1 ks ++ to_le_bytes 2 14) c (x ++ d) 4 8) as S2. rewrite <- !app_assoc in S2.
  rewrite S2 by (by rewrite ?length_app, ?length_to_le_bytes). unfold c at 2. rewrite (le_roundtrip 4 32) by (unfold in_u; lia).
  change (Z.to_nat 14) with 14%nat. by rewrite Hp.
Qed.

Lemma index_header_ok n2 n8 : 0 <= n2 -> 0 <= n8 -> 50 + n2 + n8 < 2 ^ 32 -> header_ok (built_header n2 n8).
Proof.
  intros H2 H8 Hs. unfold header_ok. cbn [built_header header_size version data_size h_key_size key_data extra_data blocks length].
  split; [unfold in_u; lia|]. split; [done|]. split; [apply wrap32_range|]. split; [lia|]. split; [by split|]. split; [cbn; lia|]. split; [|cbn; lia].
  repeat constructor; cbn [block_type block_size]; try (unfold in_u; lia); apply wrap32_range.
Qed.

(** C22: What a builder is given, with a key size of at most sixteen, keys of that size
    and a file below four gigabytes, makes a file of the expected size that parses to
    the same key size and entries, in the same order; the extended copy of the entries
    holds them too; and writing the parsed index gives the same bytes. *)
Theorem patch_index_roundtrip b :
  0 <= b_key_size b <= 16 -> Forall (entry_ok (b_key_size b)) (b_entries b) ->
  69 + 2 * (Z.of_nat (length (b_entries b)) * entry_size (b_key_size b)) < 2 ^ 32 ->
  exists data p, builder_build b = Ret (Ok data) /\ Z.of_nat (length data) = 69 + 2 * (Z.of_nat (length (b_entries b)) * entry_size (b_key_size b)) /\
    parse data = Ret (Ok p) /\ key_size p = b_key_size b /\ entries p = b_entries b /\ has_extended_entries p = false /\
    parse_block8 (drop (Z.to_nat (block_offset (header p) 2)) data) = Ret (Ok (b_key_size b, b_entries b)) /\ build p = Ret (Ok data).
Proof.
  intros Hks Hes Hs. destruct b as [ks es]. cbn [b_key_size b_entries] in *. destruct (build_entries_ok ks es Hks Hes) as (d & Hd & Hl & Hr).
  assert (Z.of_nat (length es) < 2 ^ 32) as Hn by (unfold entry_size in *; nia).
  set (c := to_le_bytes 4 (Z.of_nat (length es))). set (b2 := c ++ to_le_bytes 1 ks ++ d).
  set (b8 := to_le_bytes 1 3 ++ to_le_bytes 1 ks ++ to_le_bytes 2 14 ++ c ++ (to_le_bytes 4 (entry_size ks + 1) ++ [0x01; 0x02]) ++ d).
  assert (Z.of_nat (length b2) = 5 + Z.of_nat (length d)) as H2 by (unfold b2, c; rewrite !length_app, !length_to_le_bytes; lia).
  assert (Z.of_nat (length b8) = 14 + Z.of_nat (length d)) as H8 by (unfold b8, c; rewrite !length_app, !length_to_le_bytes; cbn [length]; lia).
  assert (parse_block2 b2 = Ret (Ok (ks, es))) as P2 by (by apply block2_ok). assert (parse_block8 b8 = Ret (Ok (ks, es))) as P8 by (by apply block8_ok).
  set (h := built_header (Z.of_nat (length b2)) (Z.of_nat (length b8))). assert (header_ok h) as Hh by (apply index_header_ok; lia).
  assert (Z.of_nat (length (header_bytes h)) = 43) as Hw by (by rewrite (length_header_bytes h Hh)). set (w := header_bytes h) in *.
  assert (builder_build {| b_key_size := ks; b_entries := es |} = Ret (Ok (w ++ BLOCK1_DATA ++ b2 ++ b8))) as Hb.
  { unfold builder_build. cbn [b_key_size b_entries]. rewrite Hd. cbn [mbind outcome_bind]. fold c. fold b2.
    replace (to_le_bytes 1 3 ++ _) with b8 by (unfold b8; by rewrite <- !app_assoc). fold h. by rewrite header_build_ok. }
  exists (w ++ BLOCK1_DATA ++ b2 ++ b8). eexists {| header := h; key_size := ks; entries := es; entries_v2 := []; entries_v3 := []; espec_table := None |}.
  cbn [key_size entries header]. assert (Z.of_nat (length (w ++ BLOCK1_DATA ++ b2 ++ b8)) = 69 + 2 * Z.of_nat (length d)) as Hlen by (rewrite !length_app; cbn [length BLOCK1_DATA]; lia).
  assert (forall x, 0 <= x < 2 ^ 32 -> wrap32 x = x) as Hwrap by (intros x Hx; by apply wrap_small).
  split; [exact Hb|]. split; [lia|]. split; [|split; [done|split; [done|split; [done|split]]]].
  - unfold parse, parse_patch_index_full. unfold w at 1. rewrite index_header_roundtrip; [|done|].
    2: { fold w. rewrite Hlen. unfold total_block_size, h. cbn [built_header header_size blocks map foldr block_size]. rewrite !Hwrap by lia. lia. }
    cbn [try_bind]. change (data_size h) with (wrap32 (43 + 7 + Z.of_nat (length b2) + Z.of_nat (length b8))). rewrite Hwrap, (proj2 (Z.eqb_eq _ _)) by lia. cbn [negb].
    change (block_offset h 0) with 43. cbn [h built_header blocks parse_blocks block_size block_type]. rewrite !Hwrap by lia.
    rewrite !(proj2 (Z.ltb_ge _ _)) by lia. cbn [parse_block Z.eqb Pos.eqb BLOCK_TYPE_ENTRIES BLOCK_TYPE_V2 BLOCK_TYPE_EXTENDED BLOCK_TYPE_V3 andb negb try_bind].
    rewrite (app_assoc w BLOCK1_DATA). rewrite slice_mid by (rewrite ?length_app; cbn [length BLOCK1_DATA]; lia). by rewrite P2.
  - change (block_offset h 2) with (43 + (7 + (wrap32 (Z.of_nat (length b2)) + 0))). rewrite Hwrap by lia.
    rewrite (app_assoc w BLOCK1_DATA), (app_assoc _ b2). by rewrite drop_app_length' by (rewrite !length_app; cbn [length BLOCK1_DATA]; lia).
  - unfold build. cbn [entries key_size]. rewrite index_fold_add. exact Hb.
Qed.

Definition sample_entry (a : Z) : PatchIndexEntry :=
  {| source_ekey := repeat a 9 ++ zeros 7; source_size := 1000; target_ekey := repeat (a + 1) 9 ++ zeros 7; target_size := 2000; encoded_size := 1500;
     suffix_offset := 1; patch_ekey := repeat (a + 2) 9 ++ zeros 7 |}.

Lemma patch_index_roundtrip_witness :
  exists data p, builder_build {| b_key_size := 9; b_entries := [sample_entry 1; sample_entry 5] |} = Ret (Ok data) /\ parse data = Ret (Ok p) /\
    entries p = [sample_entry 1; sample_entry 5].
Proof.
  destruct (patch_index_roundtrip {| b_key_size := 9; b_entries := [sample_entry 1; sample_entry 5] |}) as (data & p & H1 & _ & H2 & _ & H3 & _).
  - cbn [b_key_size]. lia.
  - cbn [b_key_size b_entries]. unfold entry_ok, key_ok, in_u. decide_now.
  - vm_compute. reflexivity.
  - by exists data, p.
Defined.

(** ** Unique keys *)

Lemma dedup_keys_elem l k : k ∈ dedup l <-> k ∈ l.
Proof.
  induction l as [|x l IH]; [done|]. cbn [dedup]. rewrite !elem_of_cons, <- IH. destruct (dedup l) as [|y r]; [done|]. case_bool_decide as E; [subst y|done].
  rewrite elem_of_cons. tauto.
Qed.

Lemma dedup_keys_sorted l : sorted_by (fun k : bytes => k) l -> strictly_sorted (fun k => k) (dedup l).
Proof.
  unfold sorted_by, strictly_sorted. induction 1 as [|x l Hs IH Hall]; cbn [dedup]; [constructor|]. pose proof (fun k => proj1 (dedup_keys_elem l k)) as Hin.
  destruct (dedup l) as [|y r] eqn:Ed; [repeat constructor|]. apply StronglySorted_inv in IH as [IHr Hy].
  assert (forall k, k ∈ y :: r -> kle x k) as Hx. { intros k Hk. rewrite Forall_forall in Hall. by apply Hall, Hin. }
  case_bool_decide as E.
  - subst y. by constructor.
  - constructor; [by constructor|]. assert (klt x y) as Hxy by (destruct (proj1 (kle_cases x y) (Hx y ltac:(left))); [done|done]).
    constructor; [done|]. eapply Forall_impl; [exact Hy|]. cbn. intros z Hz. eapply klt_kle_trans; [exact Hxy|]. apply kle_cases. by left.
Qed.

(** The keys are listed once each, in order. *)
Theorem unique_patch_ekeys_exact p :
  strictly_sorted (fun k => k) (unique_patch_ekeys p) /\ forall k, k ∈ unique_patch_ekeys p <-> find_by_patch_ekey p k <> [].
Proof.
  unfold unique_patch_ekeys. split; [apply dedup_keys_sorted, sort_by_key_sorted|]. intros k. rewrite dedup_keys_elem, sort_by_key_perm, list_elem_of_fmap. split.
  - intros (e & -> & He). unfold find_by_patch_ekey. intros E. assert (e ∈ filter (fun e' => patch_ekey e' = patch_ekey e) (entries p)) as Hin by (by apply list_elem_of_filter).
    rewrite E in Hin. by apply not_elem_of_nil in Hin.
  - intros Hne. unfold find_by_patch_ekey in Hne. destruct (filter _ _) as [|e l] eqn:E; [done|]. assert (e ∈ filter (fun e' => patch_ekey e' = k) (entries p)) as Hin by (rewrite E; left).
    apply list_elem_of_filter in Hin as [? ?]. by exists e.
Qed.

(** ** Panics *)

Lemma take_key_panic ks l : take_key ks l = Panic -> (16 < ks)%nat.
Proof. unfold take_key. by destruct (Nat.ltb_spec 16 ks). Qed.

(** Steps through a parser to the key that makes it panic. *)
Ltac find_panic :=
  repeat match goal with
    | |- (if _ then _ else _) = Panic -> _ => case_match; [done|]
    | |- context [mbind _ (take_key ?k ?l)] => let E := fresh in destruct (take_key k l) as [[? ?]|] eqn:E; cbn [mbind outcome_bind]; [|intros _; apply take_key_panic in E; lia]
    | |- context [mbind _ (if ?b then _ else _)] => destruct b; [|cbn [mbind outcome_bind]]
    | |- context [let '(_, _) := ?m in _] => destruct m
    end; done.

Lemma entry_parse_panic ks l : entry_parse ks l = Panic -> 16 < ks.
Proof. unfold entry_parse. find_panic. Qed.

Lemma entry_v2_parse_panic ks l : entry_v2_parse ks l = Panic -> 16 < ks.
Proof. unfold entry_v2_parse. find_panic. Qed.

Lemma entry_v3_parse_panic ks fl l : entry_v3_parse ks fl l = Panic -> 16 < ks.
Proof. unfold entry_v3_parse. find_panic. Qed.

Lemma parse_entries_panic {A} (parse : bytes -> outcome (option A)) ks bt esize data pos n :
  (forall l, parse l = Panic -> 16 < ks) -> parse_entries parse bt esize data pos n = Panic -> 16 < ks.
Proof.
  intros Hp. unfold parse_entries. case_match; [done|]. generalize (drop pos data). induction (Z.to_nat n) as [|m IH]; intros l; [done|]. cbn [read_entries].
  destruct (parse l) as [[e|]|] eqn:E; cbn [mbind outcome_bind]; [|done|by intros _; eapply Hp].
  destruct (read_entries _ _ _ _ m _) as [[]|] eqn:Er; cbn [try_bind]; [done|done|]. intros _. by eapply IH.
Qed.

(** A block that announces keys of more than sixteen bytes. *)
Definition long_keys (bt : Z) (block : bytes) : Prop :=
  16 < from_le_bytes (if bt =? BLOCK_TYPE_ENTRIES then slice 4 5 block else slice 1 2 block) /\ bt ∈ [BLOCK_TYPE_ENTRIES; BLOCK_TYPE_V2; BLOCK_TYPE_EXTENDED; BLOCK_TYPE_V3].

Lemma parse_block_panic p f bt block : parse_block p f bt block = Panic -> long_keys bt block.
Proof.
  unfold parse_block, long_keys. destruct (Z.eqb_spec bt BLOCK_TYPE_ENTRIES) as [->|H2].
  { unfold parse_block2. case_match; [done|]. destruct (parse_entries _ _ _ _ _ _) as [[]|] eqn:E; cbn [try_bind]; [done|done|]. intros _.
    split; [|left]. eapply parse_entries_panic; [|exact E]. intros l. apply entry_parse_panic. }
  destruct (Z.eqb_spec bt BLOCK_TYPE_V2) as [->|H6].
  { unfold parse_block6. repeat (case_match; [done|]). destruct (read_espec _ _ _ _) as [[? ?]|]; cbn [try_bind]; [|done].
    destruct (parse_entries _ _ _ _ _ _) as [[]|] eqn:E; cbn [try_bind]; [done|done|]. intros _. split; [|right; left]. eapply parse_entries_panic; [|exact E].
    intros l. apply entry_v2_parse_panic. }
  destruct (Z.eqb_spec bt BLOCK_TYPE_EXTENDED) as [->|H8]; cbn [andb].
  { destruct (negb f); [|done]. unfold parse_block8. repeat (case_match; [done|]). destruct (parse_entries _ _ _ _ _ _) as [[]|] eqn:E; cbn [try_bind]; [done|done|]. intros _.
    split; [|right; right; left]. eapply parse_entries_panic; [|exact E]. intros l. apply entry_parse_panic. }
  destruct (Z.eqb_spec bt BLOCK_TYPE_V3) as [->|H10]; [|done]. unfold parse_block10. repeat (case_match; [done|]). destruct (read_espec _ _ _ _) as [[? ?]|]; cbn [try_bind]; [|done].
  destruct (parse_entries _ _ _ _ _ _) as [[]|] eqn:E; cbn [try_bind]; [done|done|]. intros _. split; [|right; right; right; left]. eapply parse_entries_panic; [|exact E].
  intros l. apply entry_v3_parse_panic.
Qed.

Lemma read_blocks_sizes fuel e n l bs : is_bytes l -> read_blocks fuel e n l = Ok bs -> Forall (fun b => 0 <= block_size b) bs.
Proof.
  revert n l bs. induction fuel as [|fuel IH]; intros n l bs Hl; cbn [read_blocks]; destruct (n =? 0); [by intros [= <-]|done|by intros [= <-]|].
  destruct (length l <? 8)%nat; [done|]. cbn [take_u32]. destruct (read_blocks fuel e (n - 1) _) as [bs'|] eqn:E; cbn [mbind result_bind]; [|done].
  intros [= <-]. constructor; [|eapply IH; [|exact E]; by apply is_bytes_drop, is_bytes_drop]. apply from_le_bytes_range. by apply is_bytes_take, is_bytes_drop.
Qed.

Lemma header_parse_sizes data h :
  is_bytes data -> header_parse data = Ok h ->
  0 <= header_size h /\ header_size h + total_block_size (blocks h) <= Z.of_nat (length data) /\ Forall (fun b => 0 <= block_size b) (blocks h).
Proof.
  intros Hd. unfold header_parse. case_match; [done|]. cbn [take_u32]. case_match; [done|]. case_match; [done|].
  destruct (read_extra _ _ _) as [[[[ks kd] xd] l]|] eqn:Ex; cbn [mbind result_bind]; [|done]. case_match; [done|].
  destruct (read_blocks _ _ _ _) as [bs|] eqn:Eb; cbn [mbind result_bind]; [|done]. destruct (Z.ltb_spec (Z.of_nat (length data)) (from_le_bytes (take 4 data) + total_block_size bs)); [done|].
  intros [= <-]. cbn [header_size blocks]. assert (is_bytes l) as Hl.
  { unfold read_extra in Ex. assert (is_bytes (drop 2 (drop 4 (drop 4 (drop 4 data))))) as Hx by (by do 4 apply is_bytes_drop). revert Hx Ex.
    generalize (drop 2 (drop 4 (drop 4 (drop 4 data)))). intros m Hm. case_match; [by intros [= _ _ _ <-]|]. destruct m as [|k m]; [done|]. apply Forall_cons in Hm as [_ Hm].
    repeat case_match; [done|done|intros [= _ _ _ <-]|intros [= _ _ _ <-]]; repeat apply is_bytes_drop; done. }
  split; [apply from_le_bytes_range; by apply is_bytes_take|]. split; [lia|]. eapply read_blocks_sizes; [|exact Eb]. by apply is_bytes_drop.
Qed.

Lemma parse_blocks_panic data offset descs p f :
  0 <= offset -> Forall (fun b => 0 <= block_size b) descs -> offset + total_block_size descs <= Z.of_nat (length data) ->
  parse_blocks data offset descs p f = Panic -> exists bt i j, long_keys bt (slice i j data).
Proof.
  intros H0 Hd. revert offset p f H0. induction Hd as [|b descs Hb Hd IH]; intros offset p f H0 Hs; [done|]. unfold total_block_size in *. cbn [map foldr parse_blocks] in *.
  assert (0 <= foldr Z.add 0 (map block_size descs)) as Hn by (clear -Hd; induction Hd; cbn [map foldr]; lia).
  rewrite (proj2 (Z.ltb_ge _ _)) by lia. destruct (parse_block _ _ _ _) as [[[p' f']|]|] eqn:E; cbn [try_bind]; [|done|].
  - apply IH; lia.
  - intros _. apply parse_block_panic in E. by do 3 eexists.
Qed.

(** On any bytes the parser panics only if a block announces keys of more than sixteen
    bytes. *)
Theorem parse_panics_only_on_long_keys data : is_bytes data -> parse data = Panic -> exists bt i j, long_keys bt (slice i j data).
Proof.
  intros Hd. unfold parse, parse_patch_index_full. destruct (header_parse data) as [h|] eqn:Eh; cbn [try_bind]; [|done].
  destruct (header_parse_sizes data h Hd Eh) as (H1 & H2 & H3). case_match; [done|]. change (block_offset h 0) with (header_size h + 0). apply parse_blocks_panic; [lia|done|lia].
Qed.

(** Such a block does make it panic: the size is not checked against the array. *)
Theorem long_key_panics : parse_block2 (to_le_bytes 4 1 ++ [17] ++ zeros 64) = Panic.
Proof. vm_compute. done. Qed.

(** Writing a parsed index drops the entries of versions two and three and their table. *)
Theorem extended_entries_are_lost :
  let e := {| v2_target_ekey := zeros 16; espec_offset := 0; decoded_size := 1; v2_patch_ekey := zeros 16; patch_encoded_size := 1; patch_decoded_size := 1;
              original_ekey_offset := 0; original_ekey := zeros 16; original_size := 1 |} in
  let p := {| header := built_header 0 0; key_size := 16; entries := []; entries_v2 := [e]; entries_v3 := [{| base := e; flags := 7 |}]; espec_table := Some [122] |} in
  exists data p', build p = Ret (Ok data) /\ parse data = Ret (Ok p') /\ total_entry_count p = 2%nat /\ total_entry_count p' = 0%nat /\ espec_table p' = None.
Proof. do 2 eexists. split; [vm_compute; reflexivity|]. split; [vm_compute; reflexivity|]. done. Qed.
