(* ===== verification/PatchArchive.v ===== *)
(** * Patch archives

    The manifests that list, block by block, the patches to every file
    (src/crates/cascette-formats/src/patch_archive): header, encoding information, block
    table and blocks, the parser and the builder, the queries and the check of the
    header, the legacy entries and the compression specifications.  Strings are their
    UTF-8 bytes, those of specifications their characters.  A reader is the bytes still
    to be read; a seek starts again from the whole data. *)

From S2P Require Import Prelude Bytes Utf8 Cursor Collections Espec.
Local Open Scope Z_scope.

Module PatchArchive.

Inductive PatchArchiveError : Type :=
| InvalidMagic (magic : bytes)
| UnsupportedVersion (version : Z)
| InvalidKeySize (file old patch : Z)
| InvalidBlockSize (bits : Z)
| UnsupportedFlags (flags : Z)
| BlocksNotSorted (index : nat)
| StringTooLong
| InvalidString
| InvalidCompressionSpec (why : string)
| UnsupportedCompression (c : Z)
| DecompressionError
| PatchVerificationFailed (expected actual : bytes)
| ZbsdiffError
| HeaderHashMismatch (expected actual : bytes)
| BinRw
| InvalidHeader (why : string)
| InvalidEntry (why : string)
| UnexpectedEndOfBlock (offset : Z).

Notation aresult := (result PatchArchiveError).

(** ** Data *)

Record PatchArchiveEncodingInfo := { encoding_ckey : bytes; encoding_ekey : bytes; i_decoded_size : Z; i_encoded_size : Z; espec : bytes }.

Record FilePatch := { source_ekey : bytes; source_decoded_size : Z; patch_ekey : bytes; patch_size : Z; patch_index : Z }.

Record PatchFileEntry := { target_ckey : bytes; decoded_size : Z; patches : list FilePatch }.

Record PatchBlock := { last_file_ckey : bytes; block_md5 : bytes; block_offset : Z; file_entries : list PatchFileEntry }.

Record PatchArchiveHeader := {
  magic : bytes;
  version : Z;
  file_key_size : Z;
  old_key_size : Z;
  patch_key_size : Z;
  block_size_bits : Z;
  block_count : Z;
  flags : Z;
}.

Record PatchArchive := { header : PatchArchiveHeader; encoding_info : option PatchArchiveEncodingInfo; blocks : list PatchBlock }.

(** ** Header *)

Definition STANDARD_BLOCK_SIZE_BITS : Z := 16.
Definition STANDARD_KEY_SIZE : Z := 16.

Definition header_new (block_count : Z) : PatchArchiveHeader :=
  {| magic := [80; 65]; version := 2; file_key_size := STANDARD_KEY_SIZE; old_key_size := STANDARD_KEY_SIZE; patch_key_size := STANDARD_KEY_SIZE;
     block_size_bits := STANDARD_BLOCK_SIZE_BITS; block_count := block_count; flags := 0 |}.

Definition is_plain_data (h : PatchArchiveHeader) : bool := negb (Z.land (flags h) 0x01 =? 0).
Definition has_extended_header (h : PatchArchiveHeader) : bool := negb (Z.land (flags h) 0x02 =? 0).

(** [1 << bits]; without overflow checks the shift is taken modulo 64. *)
Definition block_size (h : PatchArchiveHeader) : Z := Z.shiftl 1 (block_size_bits h mod 64).

Definition bad_key_size (n : Z) : bool := (n =? 0) || (16 <? n).

Definition validate (h : PatchArchiveHeader) : aresult unit :=
  if negb (bool_decide (magic h = [80; 65])) then Err (InvalidMagic (magic h))
  else if (version h =? 0) || (2 <? version h) then Err (UnsupportedVersion (version h))
  else if bad_key_size (file_key_size h) || bad_key_size (old_key_size h) || bad_key_size (patch_key_size h)
  then Err (InvalidKeySize (file_key_size h) (old_key_size h) (patch_key_size h))
  else if (block_size_bits h <? 12) || (24 <? block_size_bits h) then Err (InvalidBlockSize (block_size_bits h))
  else Ok tt.

(** The reader of the header, with the error for the magic as the caller maps it. *)
Definition read_header (input : bytes) : aresult (PatchArchiveHeader * bytes) :=
  '(magic, i) ← read BinRw 2 input;
  if negb (bool_decide (magic = [80; 65])) then Err (InvalidHeader "PA magic assertion failed")
  else
    '(version, i) ← read_be BinRw 1 i;
    '(file_key_size, i) ← read_be BinRw 1 i;
    '(old_key_size, i) ← read_be BinRw 1 i;
    '(patch_key_size, i) ← read_be BinRw 1 i;
    '(block_size_bits, i) ← read_be BinRw 1 i;
    '(block_count, i) ← read_be BinRw 2 i;
    '(flags, i) ← read_be BinRw 1 i;
    Ok ({| magic := magic; version := version; file_key_size := file_key_size; old_key_size := old_key_size; patch_key_size := patch_key_size;
           block_size_bits := block_size_bits; block_count := block_count; flags := flags |}, i).

Definition write_header (h : PatchArchiveHeader) : bytes :=
  magic h ++ to_be_bytes 1 (version h) ++ to_be_bytes 1 (file_key_size h) ++ to_be_bytes 1 (old_key_size h) ++ to_be_bytes 1 (patch_key_size h) ++
  to_be_bytes 1 (block_size_bits h) ++ to_be_bytes 2 (block_count h) ++ to_be_bytes 1 (flags h).

(** ** Fields

    A read that fails is an [io::Error], which the error type takes for a failed
    decompression. *)

Definition read_uint40_be (input : bytes) : aresult (Z * bytes) := read_be DecompressionError 5 input.
Definition write_uint40_be (v : Z) : bytes := to_be_bytes 5 v.

(** A key in an array of sixteen bytes. *)
Definition read_key_or (e : PatchArchiveError) (key_size : Z) (input : bytes) : aresult (bytes * bytes) :=
  '(k, i) ← read e (Z.to_nat key_size) input; Ok (k ++ zeros (16 - Z.to_nat key_size), i).

(** The sizes of a header were validated, so [key[..key_size]] is in range. *)
Definition read_key (key_size : Z) (input : bytes) : aresult (bytes * bytes) := read_key_or DecompressionError key_size input.
Definition write_key (key : bytes) (key_size : Z) : bytes := take (Z.to_nat key_size) key.

(** ** Parser *)

Definition parse_encoding_info (file_key_size : Z) (input : bytes) : aresult (PatchArchiveEncodingInfo * bytes) :=
  '(encoding_ckey, i) ← read_key file_key_size input;
  '(encoding_ekey, i) ← read_key file_key_size i;
  '(decoded_size, i) ← read_be DecompressionError 4 i;
  '(encoded_size, i) ← read_be DecompressionError 4 i;
  '(espec_length, i) ← read_be DecompressionError 1 i;
  '(espec, i) ← read DecompressionError (Z.to_nat espec_length) i;
  if negb (utf8_valid espec) then Err (InvalidEntry "invalid UTF-8")
  else Ok ({| encoding_ckey := encoding_ckey; encoding_ekey := encoding_ekey; i_decoded_size := decoded_size; i_encoded_size := encoded_size; espec := espec |}, i).

Definition read_table_entry (file_key_size : Z) (input : bytes) : aresult (PatchBlock * bytes) :=
  '(last_file_ckey, i) ← read_key file_key_size input;
  '(block_md5, i) ← read DecompressionError 16 i;
  '(block_offset, i) ← read_be DecompressionError 4 i;
  Ok ({| last_file_ckey := last_file_ckey; block_md5 := block_md5; block_offset := block_offset; file_entries := [] |}, i).

Definition parse_block_table (block_count file_key_size : Z) (input : bytes) : aresult (list PatchBlock * bytes) :=
  read_many (Z.to_nat block_count) (read_table_entry file_key_size) input.

Definition read_patch (h : PatchArchiveHeader) (input : bytes) : aresult (FilePatch * bytes) :=
  '(source_ekey, i) ← read_key (old_key_size h) input;
  '(source_decoded_size, i) ← read_uint40_be i;
  '(patch_ekey, i) ← read_key (patch_key_size h) i;
  '(patch_size, i) ← read_be DecompressionError 4 i;
  '(patch_index, i) ← read_be DecompressionError 1 i;
  Ok ({| source_ekey := source_ekey; source_decoded_size := source_decoded_size; patch_ekey := patch_ekey; patch_size := patch_size;
         patch_index := patch_index |}, i).

(** The loop up to the byte zero; an entry takes at least a byte, so the length of the
    data is enough, and without data the read fails. *)
Fixpoint block_loop (fuel : nat) (h : PatchArchiveHeader) (input : bytes) : aresult (list PatchFileEntry) :=
  match fuel with
  | O => Err DecompressionError
  | S fuel =>
      '(num_patches, i) ← read_be DecompressionError 1 input;
      if num_patches =? 0 then Ok []
      else
        '(target_ckey, i) ← read_key (file_key_size h) i;
        '(decoded_size, i) ← read_uint40_be i;
        '(patches, i) ← read_many (Z.to_nat num_patches) (read_patch h) i;
        es ← block_loop fuel h i;
        Ok ({| target_ckey := target_ckey; decoded_size := decoded_size; patches := patches |} :: es)
  end.

Definition parse_block_data (h : PatchArchiveHeader) (input : bytes) : aresult (list PatchFileEntry) := block_loop (S (length input)) h input.

(** [seek(SeekFrom::Start(offset))]: there is nothing to read behind the end. *)
Definition seek (data : bytes) (offset : Z) : bytes := if Z.of_nat (length data) <? offset then [] else drop (Z.to_nat offset) data.

Fixpoint fill_blocks (data : bytes) (h : PatchArchiveHeader) (bs : list PatchBlock) : aresult (list PatchBlock) :=
  match bs with
  | [] => Ok []
  | b :: bs =>
      es ← parse_block_data h (seek data (block_offset b));
      bs ← fill_blocks data h bs;
      Ok ({| last_file_ckey := last_file_ckey b; block_md5 := block_md5 b; block_offset := block_offset b; file_entries := es |} :: bs)
  end.

Definition parse_patch_archive (data : bytes) : aresult PatchArchive :=
  '(h, i) ← read_header data;
  _ ← validate h;
  '(info, i) ← (if has_extended_header h then '(info, i) ← parse_encoding_info (file_key_size h) i; Ok (Some info, i) else Ok (None, i));
  '(table, _) ← parse_block_table (block_count h) (file_key_size h) i;
  bs ← fill_blocks data h table;
  Ok {| header := h; encoding_info := info; blocks := bs |}.

(** ** Queries *)

Definition all_file_entries (a : PatchArchive) : list PatchFileEntry := concat (map file_entries (blocks a)).
Definition total_file_entries (a : PatchArchive) : nat := foldr Nat.add 0%nat (map (fun b => length (file_entries b)) (blocks a)).
Definition find_patches_for_target (a : PatchArchive) (k : bytes) : option PatchFileEntry := find_by target_ckey k (all_file_entries a).

Definition find_patches_from_source (a : PatchArchive) (k : bytes) : list (PatchFileEntry * FilePatch) :=
  concat (map (fun e => map (fun p => (e, p)) (filter (fun p => source_ekey p = k) (patches e))) (all_file_entries a)).

Definition header_region_size (a : PatchArchive) : Z :=
  let extended := match encoding_info a with Some info => 2 * file_key_size (header a) + 9 + Z.of_nat (length (espec info)) | None => 0 end in
  10 + extended + block_count (header a) * (file_key_size (header a) + 20).

(** Neighbours in order; the index reported is always one. *)
Fixpoint sorted_blocks (bs : list PatchBlock) : bool :=
  match bs with
  | b :: bs' =>
      match bs' with
      | c :: _ => match kcmp (last_file_ckey b) (last_file_ckey c) with Gt => false | _ => sorted_blocks bs' end
      | [] => true
      end
  | [] => true
  end.

Definition validate_block_sort_order (a : PatchArchive) : aresult unit := if sorted_blocks (blocks a) then Ok tt else Err (BlocksNotSorted 1).

Record PatchEntry := { old_content_key : bytes; new_content_key : bytes; patch_encoding_key : bytes; compression_info : bytes; additional_data : bytes }.

Definition flatten_entries (a : PatchArchive) : list PatchEntry :=
  let info := default [] (espec <$> encoding_info a) in
  concat (map (fun e => map (fun p => {| old_content_key := source_ekey p; new_content_key := target_ckey e; patch_encoding_key := patch_ekey p;
                                         compression_info := info; additional_data := [] |}) (patches e)) (all_file_entries a)).

(** ** Builder *)

Record PatchArchiveBuilder := { b_version : Z; b_block_size_bits : Z; b_encoding_info : option PatchArchiveEncodingInfo; b_file_entries : list PatchFileEntry }.

Definition builder_new : PatchArchiveBuilder :=
  {| b_version := 2; b_block_size_bits := STANDARD_BLOCK_SIZE_BITS; b_encoding_info := None; b_file_entries := [] |}.

Definition set_version (b : PatchArchiveBuilder) (v : Z) : PatchArchiveBuilder :=
  {| b_version := v; b_block_size_bits := b_block_size_bits b; b_encoding_info := b_encoding_info b; b_file_entries := b_file_entries b |}.
Definition set_block_size_bits (b : PatchArchiveBuilder) (bits : Z) : PatchArchiveBuilder :=
  {| b_version := b_version b; b_block_size_bits := bits; b_encoding_info := b_encoding_info b; b_file_entries := b_file_entries b |}.
Definition set_encoding_info (b : PatchArchiveBuilder) (info : PatchArchiveEncodingInfo) : PatchArchiveBuilder :=
  {| b_version := b_version b; b_block_size_bits := b_block_size_bits b; b_encoding_info := Some info; b_file_entries := b_file_entries b |}.

Definition with_entries (b : PatchArchiveBuilder) (es : list PatchFileEntry) : PatchArchiveBuilder :=
  {| b_version := b_version b; b_block_size_bits := b_block_size_bits b; b_encoding_info := b_encoding_info b; b_file_entries := es |}.

Definition add_entry (b : PatchArchiveBuilder) (e : PatchFileEntry) : PatchArchiveBuilder := with_entries b (b_file_entries b ++ [e]).
Definition add_file_entry (b : PatchArchiveBuilder) (target_ckey : bytes) (decoded_size : Z) (patches : list FilePatch) : PatchArchiveBuilder :=
  add_entry b {| target_ckey := target_ckey; decoded_size := decoded_size; patches := patches |}.
Definition entry_count (b : PatchArchiveBuilder) : nat := length (b_file_entries b).
Definition sort_entries (b : PatchArchiveBuilder) : PatchArchiveBuilder := with_entries b (sort_by_key target_ckey (b_file_entries b)).
Definition clear (b : PatchArchiveBuilder) : PatchArchiveBuilder := with_entries b [].

Definition file_entry_size (e : PatchFileEntry) (file_key_size : Z) : Z := 1 + file_key_size + 5 + (16 + 5 + 16 + 4 + 1) * Z.of_nat (length (patches e)).

(** The loop over the entries, with the block that is being filled and its size. *)
Fixpoint group_loop (block_size file_key_size : Z) (es current : list PatchFileEntry) (current_size : Z) : list (list PatchFileEntry) :=
  match es with
  | [] => [current]
  | e :: es =>
      let entry_size := file_entry_size e file_key_size in
      if negb (length current =? 0)%nat && (block_size <? current_size + entry_size)
      then current :: group_loop block_size file_key_size es [e] entry_size
      else group_loop block_size file_key_size es (current ++ [e]) (current_size + entry_size)
  end.

(** What is left is a block of its own; without entries there is one empty block. *)
Definition group_into_blocks (es : list PatchFileEntry) (block_size file_key_size : Z) : list (list PatchFileEntry) :=
  group_loop block_size file_key_size es [] 0.

Definition write_patch (h : PatchArchiveHeader) (p : FilePatch) : bytes :=
  write_key (source_ekey p) (old_key_size h) ++ write_uint40_be (source_decoded_size p) ++ write_key (patch_ekey p) (patch_key_size h) ++
  to_be_bytes 4 (patch_size p) ++ to_be_bytes 1 (patch_index p).

Definition write_file_entry (h : PatchArchiveHeader) (e : PatchFileEntry) : bytes :=
  to_be_bytes 1 (Z.of_nat (length (patches e))) ++ write_key (target_ckey e) (file_key_size h) ++ write_uint40_be (decoded_size e) ++
  concat (map (write_patch h) (patches e)).

Definition serialize_block_data (es : list PatchFileEntry) (h : PatchArchiveHeader) : bytes := concat (map (write_file_entry h) es) ++ [0].

Definition write_encoding_info (info : PatchArchiveEncodingInfo) (file_key_size : Z) : bytes :=
  write_key (encoding_ckey info) file_key_size ++ write_key (encoding_ekey info) file_key_size ++ to_be_bytes 4 (i_decoded_size info) ++
  to_be_bytes 4 (i_encoded_size info) ++ to_be_bytes 1 (Z.of_nat (length (espec info))) ++ espec info.

Definition encoding_info_size (info : option PatchArchiveEncodingInfo) (file_key_size : Z) : Z :=
  match info with Some info => file_key_size * 2 + 4 + 4 + 1 + Z.of_nat (length (espec info)) | None => 0 end.

(** ** Legacy entries *)

Definition patch_entry_new (old_key new_key patch_key info : bytes) : PatchEntry :=
  {| old_content_key := old_key; new_content_key := new_key; patch_encoding_key := patch_key; compression_info := info; additional_data := [] |}.

(** The bytes up to a NUL, at most 1024 of them. *)
Fixpoint read_string_loop (input acc : bytes) : aresult (bytes * bytes) :=
  match input with
  | [] => Err BinRw
  | b :: i => if b =? 0 then Ok (acc, i) else if (1024 <? length acc + 1)%nat then Err BinRw else read_string_loop i (acc ++ [b])
  end.

Definition read_null_terminated_string (input : bytes) : aresult (bytes * bytes) :=
  '(s, i) ← read_string_loop input []; if utf8_valid s then Ok (s, i) else Err BinRw.

(** The sizes of a legacy entry are the caller's. *)
Definition in_array {A} (key_size : Z) (a : outcome A) : outcome A := if 16 <? key_size then Panic else a.

Definition read_patch_entry (file_key_size old_key_size patch_key_size : Z) (input : bytes) : outcome (aresult (PatchEntry * bytes)) :=
  '(old_key, i) ←? in_array old_key_size (Ret (read_key_or BinRw old_key_size input));
  '(new_key, i) ←? in_array file_key_size (Ret (read_key_or BinRw file_key_size i));
  '(patch_key, i) ←? in_array patch_key_size (Ret (read_key_or BinRw patch_key_size i));
  '(info, i) ←? Ret (read_null_terminated_string i);
  Ret (Ok ({| old_content_key := old_key; new_content_key := new_key; patch_encoding_key := patch_key; compression_info := info; additional_data := [] |}, i)).

Definition write_patch_entry (file_key_size old_key_size patch_key_size : Z) (e : PatchEntry) : outcome bytes :=
  old_key ← in_array old_key_size (Ret (write_key (old_content_key e) old_key_size));
  new_key ← in_array file_key_size (Ret (write_key (new_content_key e) file_key_size));
  patch_key ← in_array patch_key_size (Ret (write_key (patch_encoding_key e) patch_key_size));
  Ret (old_key ++ new_key ++ patch_key ++ compression_info e ++ [0] ++ additional_data e).

(** The sum of the key sizes is a [u8]. *)
Definition serialized_size (file_key_size old_key_size patch_key_size : Z) (e : PatchEntry) : Z :=
  wrap8 (wrap8 (old_key_size + file_key_size) + patch_key_size) + Z.of_nat (length (compression_info e)) + 1 + Z.of_nat (length (additional_data e)).

Section Md5.
Context (md5 : bytes -> bytes).

(** The rows of the block table, with the offsets from [offset] on. *)
Fixpoint table_rows (h : PatchArchiveHeader) (offset : Z) (bs : list (list PatchFileEntry)) : bytes :=
  match bs with
  | [] => []
  | b :: bs =>
      let part := serialize_block_data b h in
      write_key (match last b with Some e => target_ckey e | None => zeros 16 end) (file_key_size h) ++ md5 part ++ to_be_bytes 4 offset ++
      table_rows h (offset + Z.of_nat (length part)) bs
  end.

Definition build_header (b : PatchArchiveBuilder) (n : nat) : PatchArchiveHeader :=
  {| magic := [80; 65]; version := b_version b; file_key_size := STANDARD_KEY_SIZE; old_key_size := STANDARD_KEY_SIZE; patch_key_size := STANDARD_KEY_SIZE;
     block_size_bits := b_block_size_bits b; block_count := wrap 16 (Z.of_nat n); flags := match b_encoding_info b with Some _ => 0x02 | None => 0x00 end |}.

Definition builder_build (b : PatchArchiveBuilder) : aresult bytes :=
  let sorted_entries := sort_by_key target_ckey (b_file_entries b) in
  let blocks := group_into_blocks sorted_entries (Z.shiftl 1 (b_block_size_bits b mod 64)) STANDARD_KEY_SIZE in
  let h := build_header b (length blocks) in
  _ ← validate h;
  let block_table_size := Z.of_nat (length blocks) * (STANDARD_KEY_SIZE + 16 + 4) in
  let block_data_start := Z.of_nat (length (write_header h)) + encoding_info_size (b_encoding_info b) STANDARD_KEY_SIZE + block_table_size in
  Ok (write_header h ++ match b_encoding_info b with Some info => write_encoding_info info STANDARD_KEY_SIZE | None => [] end ++
      table_rows h block_data_start blocks ++ concat (map (fun b => serialize_block_data b h) blocks)).

Definition build_archive (b : PatchArchiveBuilder) : aresult PatchArchive :=
  data ← builder_build b; parse_patch_archive data.

Definition compute_header_hash (a : PatchArchive) (data : bytes) : aresult bytes :=
  let size := header_region_size a in
  if Z.of_nat (length data) <? size then Err (UnexpectedEndOfBlock size) else Ok (md5 (take (Z.to_nat size) data)).

Definition verify_header_hash (a : PatchArchive) (data expected : bytes) : aresult unit :=
  actual ← compute_header_hash a data;
  if negb (bool_decide (actual = expected)) then Err (HeaderHashMismatch expected actual) else Ok tt.

(** [CascFormat::parse] and [CascFormat::build]. *)
Definition parse (data : bytes) : aresult PatchArchive := parse_patch_archive data.

Definition build (a : PatchArchive) : aresult bytes :=
  let b := set_block_size_bits (set_version builder_new (version (header a))) (block_size_bits (header a)) in
  let b := match encoding_info a with Some info => set_encoding_info b info | None => b end in
  builder_build (fold_left add_entry (all_file_entries a) b).

End Md5.

(** ** Compression specifications *)

Definition starts_with (p s : list Z) : bool := bool_decide (take (length p) s = p).
Definition ends_with (c : Z) (s : list Z) : bool := bool_decide (last s = Some c).

Definition parse_compression_spec (info : list Z) : outcome (aresult Espec.ESpec) :=
  let parse_spec s :=
    r ← Espec.parse s;
    Ret (match r with Ok spec => Ok spec | Err _ => Err (InvalidCompressionSpec "invalid specification") end) in
  if starts_with [123] info && ends_with 125 info then parse_spec ([98; 58] ++ info)
  else if starts_with [98; 58] info then parse_spec info
  else Ret (Err (InvalidCompressionSpec "unknown format")).

Definition format_compression_spec (spec : Espec.ESpec) : list Z :=
  let full_spec := Espec.to_string spec in
  if starts_with [98; 58; 123] full_spec && ends_with 125 full_spec then drop 2 full_spec
  else if starts_with [98; 58] full_spec then [123; 42; 61] ++ drop 2 full_spec ++ [125]
  else full_spec.

Section Decompress.
(** The reads a zlib decoder returns, and whether it ends without an error. *)
Context (zlib_reads : bytes -> list bytes * bool).

Definition decompress_zlib (data : bytes) : aresult bytes :=
  let '(reads, ok) := zlib_reads data in if ok : bool then Ok (concat reads) else Err DecompressionError.

Definition decompress_chunk (data : bytes) (spec : Espec.ESpec) : aresult bytes :=
  match spec with
  | Espec.None_ => Ok data
  | Espec.ZLib _ _ _ => decompress_zlib data
  | _ => Err (UnsupportedCompression 63)
  end.

(** The loop over the chunks; a range that ends before it starts panics, which takes an
    overflow. *)
Fixpoint decompress_chunks (data : bytes) (offset : Z) (chunks : list (option Espec.BlockSizeSpec * Espec.ESpec)) : outcome (aresult bytes) :=
  match chunks with
  | [] => Ret (Ok [])
  | (size_spec, spec) :: chunks =>
      let len := Z.of_nat (length data) in
      let chunk_end :=
        match size_spec with
        | Some s => Z.min (wrap64 (offset + wrap64 (Espec.size s * default 1 (Espec.count s)))) len
        | None => len
        end in
      if len <=? offset then Ret (Ok [])
      else if chunk_end <? offset then Panic
      else
        out ←? Ret (decompress_chunk (slice (Z.to_nat offset) (Z.to_nat chunk_end) data) spec);
        rest ←? decompress_chunks data chunk_end chunks;
        Ret (Ok (out ++ rest))
  end.

Definition decompress_patch_data (data : bytes) (spec : Espec.ESpec) : outcome (aresult bytes) :=
  match spec with
  | Espec.None_ => Ret (Ok data)
  | Espec.ZLib _ _ _ => Ret (decompress_zlib data)
  | Espec.BlockTable chunks => decompress_chunks data 0 chunks
  | _ => Ret (Err (UnsupportedCompression 63))
  end.

End Decompress.

(** The chunk whose range has the offset; beyond all ranges the last one. *)
Fixpoint chunk_at (offset current_offset : Z) (chunks : list (option Espec.BlockSizeSpec * Espec.ESpec)) : option Espec.ESpec :=
  match chunks with
  | [] => None
  | (Some s, spec) :: chunks =>
      let chunk_end := wrap64 (current_offset + wrap64 (Espec.size s * default 1 (Espec.count s))) in
      if (current_offset <=? offset) && (offset <? chunk_end) then Some spec else chunk_at offset chunk_end chunks
  | (None, spec) :: _ => Some spec
  end.

Definition get_compression_at_offset (spec : Espec.ESpec) (offset : Z) : Espec.ESpec :=
  match spec with
  | Espec.BlockTable chunks =>
      match chunk_at offset 0 chunks with
      | Some s => s
      | None => match last chunks with Some c => snd c | None => spec end
      end
  | _ => spec
  end.

(** ** Locations *)

Record PatchLocation := { archive_index : Z; offset : Z; l_encoded_size : Z }.

(** The text of a hash is ASCII: a slice never splits a character. *)
Definition cdn_archive_path (archive_hash : bytes) : bytes :=
  if (length archive_hash <? 4)%nat then archive_hash
  else take 2 archive_hash ++ [47] ++ slice 2 4 archive_hash ++ [47] ++ archive_hash.

End PatchArchive.
