(* ===== verification/PatchArchiveTheorems.v ===== *)
(** * Patch archives: the theorems

    What a builder is given is read back from the archive it writes, in the order of
    the targets, with blocks in order and their hashes valid, and the archive read back
    is written as the same bytes.  The last part shows entries the format loses. *)

From S2P Require Import Prelude Bytes Utf8 Cursor Collections Espec PatchArchive.
Import PatchArchive.
Local Open Scope Z_scope.

(** ** Entries *)

Definition key_ok (k : bytes) : Prop := length k = 16%nat.

Definition patch_ok (p : FilePatch) : Prop :=
  key_ok (source_ekey p) /\ in_u 40 (source_decoded_size p) /\ key_ok (patch_ekey p) /\ u32 (patch_size p) /\ u8 (patch_index p).

(** An entry that a block can hold: the count of its patches is a byte, and not the
    end of the block. *)
Definition entry_ok (e : PatchFileEntry) : Prop :=
  key_ok (target_ckey e) /\ in_u 40 (decoded_size e) /\ (1 <= length (patches e) <= 255)%nat /\ Forall patch_ok (patches e).

Lemma archive_read_key k rest : key_ok k -> read_key 16 (k ++ rest) = Ok (k, rest).
Proof. intros Hk. unfold read_key, read_key_or. rewrite read_app by done. cbn [mbind result_bind]. by rewrite app_nil_r. Qed.

Lemma write_key_ok k : key_ok k -> write_key k 16 = k.
Proof. intros Hk. unfold write_key. apply take_ge. by rewrite Hk. Qed.

Lemma read_uint40_app v rest : in_u 40 v -> read_uint40_be (write_uint40_be v ++ rest) = Ok (v, rest).
Proof. intros Hv. by apply (read_be_app _ 5 40). Qed.

(** Read the next field. *)
Ltac field_next :=
  first [rewrite archive_read_key by done; cbn [mbind result_bind] | rewrite read_uint40_app by done; cbn [mbind result_bind] | read_next].

Definition standard (h : PatchArchiveHeader) : Prop := file_key_size h = 16 /\ old_key_size h = 16 /\ patch_key_size h = 16.

Section Blocks.
Context (h : PatchArchiveHeader) (Hh : standard h).

Lemma read_write_patch p rest : patch_ok p -> read_patch h (write_patch h p ++ rest) = Ok (p, rest).
Proof.
  intros (H1 & H2 & H3 & H4 & H5). destruct Hh as (_ & Ho & Hp). unfold read_patch, write_patch. rewrite Ho, Hp, !write_key_ok, <- !app_assoc by done.
  repeat field_next. by destruct p.
Qed.

Lemma length_write_entry e : (1 <= length (write_file_entry h e))%nat.
Proof. unfold write_file_entry. rewrite length_app, length_to_be_bytes. lia. Qed.

Lemma block_loop_ok fuel es rest :
  Forall entry_ok es -> (length (serialize_block_data es h) <= fuel)%nat -> block_loop fuel h (serialize_block_data es h ++ rest) = Ok es.
Proof.
  intros Hes. revert fuel. induction Hes as [|e es He Hes IH]; intros fuel Hf.
  { destruct fuel as [|fuel]; [cbn in Hf; lia|]. done. }
  unfold serialize_block_data in *. cbn [map concat] in *. rewrite !length_app in Hf. pose proof (length_write_entry e). destruct fuel as [|fuel]; [lia|]. cbn [block_loop].
  destruct He as (H1 & H2 & H3 & H4). unfold write_file_entry at 1. rewrite (proj1 Hh), write_key_ok, <- !app_assoc by done.
  rewrite (read_be_app _ 1 8) by (unfold in_u; lia). cbn [mbind result_bind]. rewrite (proj2 (Z.eqb_neq _ 0)) by lia. repeat field_next.
  rewrite Nat2Z.id, (read_many_app _ (write_patch h)).
  - cbn [mbind result_bind]. rewrite (app_assoc _ [0] rest), IH by (rewrite length_app; lia). by destruct e.
  - eapply Forall_impl; [exact H4|]. intros p Hp rest'. by apply read_write_patch.
Qed.

Lemma parse_block_ok es rest : Forall entry_ok es -> parse_block_data h (serialize_block_data es h ++ rest) = Ok es.
Proof. intros Hes. apply block_loop_ok; [done|]. rewrite length_app. lia. Qed.

(** ** The block table *)

Context (md5 : bytes -> bytes) (Hmd5 : forall x, length (md5 x) = 16%nat).

(** The blocks of a table, at the offsets from [off] on. *)
Fixpoint table (off : Z) (bs : list (list PatchFileEntry)) : list PatchBlock :=
  match bs with
  | [] => []
  | b :: bs =>
      {| last_file_ckey := match last b with Some e => target_ckey e | None => zeros 16 end; block_md5 := md5 (serialize_block_data b h); block_offset := off;
         file_entries := b |} :: table (off + Z.of_nat (length (serialize_block_data b h))) bs
  end.

Definition without_entries (b : PatchBlock) : PatchBlock :=
  {| last_file_ckey := last_file_ckey b; block_md5 := block_md5 b; block_offset := block_offset b; file_entries := [] |}.

Definition write_row (b : PatchBlock) : bytes := last_file_ckey b ++ block_md5 b ++ to_be_bytes 4 (block_offset b).

Definition parts (bs : list (list PatchFileEntry)) : bytes := concat (map (fun b => serialize_block_data b h) bs).

Lemma last_key_ok (b : list PatchFileEntry) : Forall entry_ok b -> key_ok (match last b with Some e => target_ckey e | None => zeros 16 end).
Proof.
  intros Hb. destruct (last b) as [e|] eqn:E; [|done]. apply last_Some_elem_of in E. rewrite Forall_forall in Hb. by destruct (Hb e E).
Qed.

Lemma table_rows_eq off bs : Forall (Forall entry_ok) bs -> table_rows md5 h off bs = concat (map write_row (map without_entries (table off bs))).
Proof.
  intros Hbs. revert off. induction Hbs as [|b bs Hb Hbs IH]; intros off; [done|]. cbn [table_rows table map concat]. rewrite IH. unfold write_row at 2.
  cbn [without_entries last_file_ckey block_md5 block_offset]. rewrite (proj1 Hh), write_key_ok by (by apply last_key_ok). by rewrite <- !app_assoc.
Qed.

Lemma length_table off bs : length (table off bs) = length bs.
Proof. revert off. induction bs as [|b bs IH]; intros off; [done|]. cbn [table length]. by rewrite IH. Qed.

Lemma parse_table_ok off bs rest :
  Forall (Forall entry_ok) bs -> 0 <= off -> off + Z.of_nat (length (parts bs)) < 2 ^ 32 ->
  parse_block_table (Z.of_nat (length bs)) 16 (table_rows md5 h off bs ++ rest) = Ok (map without_entries (table off bs), rest).
Proof.
  intros Hbs H0 Hs. unfold parse_block_table. rewrite table_rows_eq, Nat2Z.id by done. rewrite <- (length_table off bs), <- (length_map without_entries).
  apply (read_many_app _ write_row). revert off H0 Hs. induction Hbs as [|b bs Hb Hbs IH]; intros off H0 Hs; cbn [table map]; constructor.
  - intros rest'. unfold read_table_entry, write_row. cbn [without_entries last_file_ckey block_md5 block_offset]. rewrite <- !app_assoc.
    rewrite archive_read_key by (by apply last_key_ok). cbn [mbind result_bind]. rewrite read_app by done. cbn [mbind result_bind].
    rewrite (read_be_app _ 4 32) by (unfold in_u; lia). done.
  - unfold parts in *. cbn [map concat] in Hs. rewrite length_app in Hs. apply IH; lia.
Qed.

Lemma fill_blocks_ok pre off bs rest data :
  data = pre ++ parts bs ++ rest -> Z.of_nat (length pre) = off -> Forall (Forall entry_ok) bs ->
  fill_blocks data h (map without_entries (table off bs)) = Ok (table off bs).
Proof.
  intros Hd Hoff Hbs. revert pre off Hd Hoff. induction Hbs as [|b bs Hb Hbs IH]; intros pre off Hd Hoff; [done|]. unfold parts in *. cbn [table map concat fill_blocks] in *.
  cbn [without_entries block_offset]. rewrite <- Hoff. unfold seek. rewrite Nat2Z.id, (proj2 (Z.ltb_ge _ _)) by (rewrite Hd, length_app; lia).
  rewrite Hd at 1. rewrite drop_app_length, <- app_assoc, parse_block_ok by done. cbn [mbind result_bind].
  rewrite Hoff, (IH (pre ++ serialize_block_data b h)); [done| |].
  - by rewrite Hd, <- !app_assoc.
  - rewrite length_app. lia.
Qed.

Lemma table_entries off bs : concat (map file_entries (table off bs)) = concat bs.
Proof. revert off. induction bs as [|b bs IH]; intros off; [done|]. cbn [table map concat file_entries]. by rewrite IH. Qed.

Lemma table_hashes off bs : Forall (fun b => block_md5 b = md5 (serialize_block_data (file_entries b) h)) (table off bs).
Proof. revert off. induction bs as [|b bs IH]; intros off; [constructor|]. cbn [table]. by constructor. Qed.

End Blocks.

(** ** Grouping *)

Lemma group_loop_concat bsz ks es cur sz : concat (group_loop bsz ks es cur sz) = cur ++ es.
Proof.
  revert cur sz. induction es as [|e es IH]; intros cur sz; cbn [group_loop]; [by cbn; rewrite !app_nil_r|]. case_match.
  - cbn [concat]. by rewrite IH.
  - by rewrite IH, <- app_assoc.
Qed.

Lemma group_loop_filled bsz ks es cur sz : cur <> [] -> Forall (fun b => b <> []) (group_loop bsz ks es cur sz).
Proof.
  revert cur sz. induction es as [|e es IH]; intros cur sz Hc; cbn [group_loop]; [by repeat constructor|]. case_match; [constructor; [done|]|]; apply IH; [done|].
  by destruct cur.
Qed.

(** No entries make one empty block, and otherwise no block is empty. *)
Lemma groups_filled es bsz ks :
  let bs := group_into_blocks es bsz ks in concat bs = es /\ (bs = [[]] \/ Forall (fun b => b <> []) bs).
Proof.
  cbn zeta. unfold group_into_blocks. split; [apply (group_loop_concat _ _ _ [])|]. destruct es as [|e es]; [by left|]. right. cbn [group_loop length Nat.eqb negb andb].
  by apply group_loop_filled.
Qed.

Lemma sorted_blocks_ok h md5 off bs :
  sorted_by target_ckey (concat bs) -> Forall (fun b => b <> []) bs -> sorted_blocks (table h md5 off bs) = true.
Proof.
  intros Hs Hne. revert off Hs. induction Hne as [|b bs Hb Hne IH]; intros off Hs; [done|]. cbn [table sorted_blocks]. cbn [concat] in Hs.
  assert (sorted_by target_ckey (concat bs)) as Hs' by (unfold sorted_by in *; by apply StronglySorted_app_1_r in Hs).
  specialize (IH (off + Z.of_nat (length (serialize_block_data b h))) Hs'). destruct Hne as [|c bs Hc Hne]; [done|]. cbn [table] in IH |- *. rewrite IH. cbn [last_file_ckey].
  destruct (last b) as [x|] eqn:Ex; [|by apply last_None in Ex]. destruct (last c) as [y|] eqn:Ey; [|by apply last_None in Ey].
  apply last_Some_elem_of in Ex, Ey. unfold sorted_by in Hs. assert (kle (target_ckey x) (target_ckey y)) as Hle.
  { eapply (StronglySorted_app_1_elem_of _ _ _ x y Hs); [done|]. cbn [concat]. apply elem_of_app. by left. }
  unfold kle in Hle. by destruct (kcmp (target_ckey x) (target_ckey y)).
Qed.

(** ** Archives *)

Definition info_ok (i : PatchArchiveEncodingInfo) : Prop :=
  key_ok (encoding_ckey i) /\ key_ok (encoding_ekey i) /\ u32 (i_decoded_size i) /\ u32 (i_encoded_size i) /\ (length (espec i) <= 255)%nat /\
  utf8_valid (espec i) = true.

Lemma info_roundtrip i rest : info_ok i -> parse_encoding_info 16 (write_encoding_info i 16 ++ rest) = Ok (i, rest).
Proof.
  intros (H1 & H2 & H3 & H4 & H5 & H6). unfold parse_encoding_info, write_encoding_info. rewrite !write_key_ok, <- !app_assoc by done. repeat field_next.
  rewrite (read_be_app _ 1 8) by (unfold in_u; lia). cbn [mbind result_bind]. rewrite Nat2Z.id, read_app by done. cbn [mbind result_bind]. rewrite H6. by destruct i.
Qed.

Lemma length_info i : info_ok i -> Z.of_nat (length (write_encoding_info i 16)) = encoding_info_size (Some i) 16.
Proof.
  intros (H1 & H2 & _). unfold write_encoding_info, encoding_info_size. rewrite !write_key_ok by done. rewrite !length_app, !length_to_be_bytes, H1, H2. lia.
Qed.

Lemma read_write_pa_header h rest :
  magic h = [80; 65] -> u8 (version h) -> u8 (file_key_size h) -> u8 (old_key_size h) -> u8 (patch_key_size h) -> u8 (block_size_bits h) -> u16 (block_count h) ->
  u8 (flags h) -> read_header (write_header h ++ rest) = Ok (h, rest).
Proof.
  intros Hm H1 H2 H3 H4 H5 H6 H7. unfold read_header, write_header. rewrite <- !app_assoc, read_app by (by rewrite Hm). cbn [mbind result_bind].
  rewrite bool_decide_eq_true_2 by done. cbn [negb]. repeat read_next. by destruct h.
Qed.

Section Archive.
Context (md5 : bytes -> bytes) (Hmd5 : forall x, length (md5 x) = 16%nat) (b : PatchArchiveBuilder).

Definition sorted_entries : list PatchFileEntry := sort_by_key target_ckey (b_file_entries b).
Definition groups : list (list PatchFileEntry) := group_into_blocks sorted_entries (Z.shiftl 1 (b_block_size_bits b mod 64)) 16.

(** What the format can hold. *)
Definition builder_ok : Prop :=
  1 <= b_version b <= 2 /\ 12 <= b_block_size_bits b <= 24 /\ Forall entry_ok (b_file_entries b) /\
  match b_encoding_info b with Some i => info_ok i | None => True end /\ Z.of_nat (length groups) < 2 ^ 16 /\
  forall data, builder_build md5 b = Ok data -> Z.of_nat (length data) < 2 ^ 32.

Context (Hb : builder_ok).

Definition built : PatchArchiveHeader := build_header b (length groups).

Definition info_bytes : bytes := match b_encoding_info b with Some i => write_encoding_info i 16 | None => [] end.

Definition data_start : Z := 10 + encoding_info_size (b_encoding_info b) 16 + Z.of_nat (length groups) * 36.

Definition archive : PatchArchive := {| header := built; encoding_info := b_encoding_info b; blocks := table built md5 data_start groups |}.

Definition archive_bytes : bytes := write_header built ++ info_bytes ++ table_rows md5 built data_start groups ++ parts built groups.

Lemma archive_header_valid : validate built = Ok tt.
Proof.
  destruct Hb as (Hv & Hbits & _). unfold validate, built, build_header. cbn [magic version file_key_size old_key_size patch_key_size block_size_bits]. rewrite bool_decide_eq_true_2 by done.
  cbn [negb]. rewrite (proj2 (Z.eqb_neq _ 0)), (proj2 (Z.ltb_ge 2 _)) by lia. cbn. by rewrite !(proj2 (Z.ltb_ge _ _)) by lia.
Qed.

Lemma builder_build_bytes : builder_build md5 b = Ok archive_bytes.
Proof. unfold builder_build. fold sorted_entries. change (group_into_blocks sorted_entries _ STANDARD_KEY_SIZE) with groups. fold built. rewrite archive_header_valid. done. Qed.

Lemma groups_ok : Forall (Forall entry_ok) groups.
Proof.
  destruct (groups_filled sorted_entries (Z.shiftl 1 (b_block_size_bits b mod 64)) 16) as [Hc _]. fold groups in Hc. apply Forall_forall. intros g Hg. apply Forall_forall. intros e He.
  assert (e ∈ sorted_entries) as Hin by (rewrite <- Hc; apply list_elem_of_In, in_concat; exists g; split; by apply list_elem_of_In).
  unfold sorted_entries in Hin. rewrite sort_by_key_perm in Hin. destruct Hb as (_ & _ & H & _). rewrite Forall_forall in H. by apply H.
Qed.

Lemma length_info_bytes : Z.of_nat (length info_bytes) = encoding_info_size (b_encoding_info b) 16.
Proof. destruct Hb as (_ & _ & _ & Hi & _). unfold info_bytes. destruct (b_encoding_info b); [by apply length_info|done]. Qed.

Lemma length_rows off bs : Forall (Forall entry_ok) bs -> length (table_rows md5 built off bs) = (length bs * 36)%nat.
Proof.
  intros Hbs. rewrite table_rows_eq by done. rewrite (length_concat_blocks 36); [by rewrite !length_map, length_table|]. unfold blocks_of. rewrite Forall_map, Forall_map.
  revert off. induction Hbs as [|g bs Hg Hbs IH]; intros off; cbn [table]; constructor; [|apply IH]. unfold write_row. cbn [without_entries last_file_ckey block_md5 block_offset].
  rewrite !length_app, length_to_be_bytes, Hmd5. rewrite (last_key_ok g) by done. done.
Qed.

Lemma parse_archive_bytes : parse archive_bytes = Ok archive.
Proof.
  destruct Hb as (Hv & Hbits & _ & Hi & Hn & Hs). specialize (Hs _ builder_build_bytes). unfold parse, parse_patch_archive. 
  change (read_header archive_bytes) with (read_header (write_header built ++ info_bytes ++ table_rows md5 built data_start groups ++ parts built groups)).
  rewrite read_write_pa_header; [|done|unfold in_u; cbn; lia|done|done|done|unfold in_u; cbn; lia|cbn; apply wrap_range; lia|cbn; case_match; done]. cbn [mbind result_bind].
  rewrite archive_header_valid. cbn [mbind result_bind].
  assert ((if has_extended_header built then '(info, i) ← parse_encoding_info (file_key_size built) (info_bytes ++ table_rows md5 built data_start groups ++ parts built groups); Ok (Some info, i)
           else Ok (None, info_bytes ++ table_rows md5 built data_start groups ++ parts built groups)) =
          Ok (b_encoding_info b, table_rows md5 built data_start groups ++ parts built groups)) as E.
  { unfold has_extended_header, built, build_header, info_bytes. cbn [flags file_key_size]. destruct (b_encoding_info b) as [i|]; [|done]. cbn [Z.land Z.eqb negb].
    change (negb (Z.pos _ =? 0)) with true. cbn iota. by rewrite info_roundtrip. }
  rewrite E. clear E. cbn [mbind result_bind]. change (file_key_size built) with 16.
  assert (block_count built = Z.of_nat (length groups)) as -> by (apply wrap_small; unfold in_u; lia).
  assert (Z.of_nat (length (write_header built)) = 10) as Hw by done. pose proof length_info_bytes as Hil. pose proof (length_rows data_start groups groups_ok) as Hr.
  assert (Z.of_nat (length (write_header built ++ info_bytes ++ table_rows md5 built data_start groups)) = data_start) as Hstart.
  { rewrite !length_app, Hr. unfold data_start. lia. }
  assert (archive_bytes = (write_header built ++ info_bytes ++ table_rows md5 built data_start groups) ++ parts built groups ++ []) as Ha.
  { unfold archive_bytes. by rewrite app_nil_r, <- !app_assoc. }
  rewrite parse_table_ok; [|done|done|apply groups_ok|rewrite <- Hstart; lia|].
  2: { rewrite Ha, length_app, app_nil_r in Hs. lia. }
  cbn [mbind result_bind]. rewrite (fill_blocks_ok built ltac:(done) md5 _ data_start groups [] archive_bytes Ha Hstart groups_ok). done.
Qed.

Lemma archive_entries : all_file_entries archive = sorted_entries.
Proof.
  unfold all_file_entries, archive. cbn [blocks]. rewrite table_entries. by destruct (groups_filled sorted_entries (Z.shiftl 1 (b_block_size_bits b mod 64)) 16).
Qed.

Lemma archive_sorted : validate_block_sort_order archive = Ok tt.
Proof.
  unfold validate_block_sort_order, archive. cbn [blocks]. destruct (groups_filled sorted_entries (Z.shiftl 1 (b_block_size_bits b mod 64)) 16) as [Hc Hf]. fold groups in Hc, Hf.
  destruct Hf as [E|Hf]; [by rewrite E|]. rewrite sorted_blocks_ok; [done| |done]. rewrite Hc. apply sort_by_key_sorted.
Qed.

Lemma archive_fold_add es c : fold_left add_entry es c = with_entries c (b_file_entries c ++ es).
Proof. revert c. induction es as [|e es IH]; intros c; cbn [fold_left]; [destruct c; cbn; by rewrite app_nil_r|]. rewrite IH. destruct c. cbn. by rewrite <- app_assoc. Qed.

(** The sorted entries make the same archive. *)
Lemma build_sorted : build md5 archive = builder_build md5 b.
Proof.
  unfold build. rewrite archive_entries, archive_fold_add. unfold archive. cbn [header encoding_info version block_size_bits built build_header].
  assert (forall c : PatchArchiveBuilder, b_version c = b_version b -> b_block_size_bits c = b_block_size_bits b -> b_encoding_info c = b_encoding_info b ->
          b_file_entries c = [] -> builder_build md5 (with_entries c (b_file_entries c ++ sorted_entries)) = builder_build md5 b) as H.
  { intros c H1 H2 H3 H4. rewrite H4. unfold builder_build, build_header. cbn [with_entries b_version b_block_size_bits b_encoding_info b_file_entries app]. rewrite H1, H2, H3.
    unfold sorted_entries. rewrite (sort_by_key_id _ (sort_by_key _ _)) by apply sort_by_key_sorted. done. }
  destruct (b_encoding_info b) eqn:E; apply H; done.
Qed.

End Archive.

(** C21: A builder whose entries have one to 255 patches, keys of sixteen bytes and sizes
    of 40 bits, with a supported version and block size, fewer than 2^16 blocks and a
    file below four gigabytes makes an archive that parses; the parsed archive has the
    encoding information and exactly the given entries, in the stable order of their
    targets; its blocks are in order, each with the MD5 of its data; every target with
    an entry of its own is found; the header region ends where the first block starts,
    and the parsed archive is written as the same bytes. *)
Theorem patch_archive_roundtrip md5 b :
  (forall x, length (md5 x) = 16%nat) -> builder_ok md5 b ->
  exists data a, builder_build md5 b = Ok data /\ parse data = Ok a /\ encoding_info a = b_encoding_info b /\
    all_file_entries a = sort_by_key target_ckey (b_file_entries b) /\ validate_block_sort_order a = Ok tt /\
    Forall (fun blk => block_md5 blk = md5 (serialize_block_data (file_entries blk) (header a))) (blocks a) /\
    (NoDup (map target_ckey (b_file_entries b)) -> forall e, e ∈ b_file_entries b -> find_patches_for_target a (target_ckey e) = Some e) /\
    block_offset <$> head (blocks a) = Some (header_region_size a) /\ build md5 a = Ok data.
Proof.
  intros Hmd5 Hb. exists (archive_bytes md5 b), (archive md5 b). split; [by apply builder_build_bytes|]. split; [by apply parse_archive_bytes|]. split; [done|].
  split; [apply archive_entries|]. split; [apply archive_sorted|]. split; [apply table_hashes|]. split; [|split].
  - intros Hnd e He. unfold find_patches_for_target. rewrite archive_entries. unfold sorted_entries. apply find_by_intro.
    + change (map target_ckey) with (fmap (M:=list) target_ckey). by rewrite sort_by_key_perm.
    + by rewrite sort_by_key_perm.
  - destruct Hb as (_ & _ & _ & _ & Hn & _). unfold header_region_size, archive. cbn [header encoding_info blocks file_key_size block_count built build_header].
    assert (wrap 16 (Z.of_nat (length (groups b))) = Z.of_nat (length (groups b))) as -> by (apply wrap_small; unfold in_u; lia).
    destruct (groups_filled (sorted_entries b) (Z.shiftl 1 (b_block_size_bits b mod 64)) 16) as [_ Hf]. fold (groups b) in Hf.
    destruct (groups b) as [|g gs] eqn:Eg; [destruct Hf as [Hf|_]; [done|]|].
    + unfold groups, group_into_blocks in Eg. by destruct (sorted_entries b) as [|e es]; cbn [group_loop length Nat.eqb negb andb] in Eg; [|apply (f_equal (@concat _)) in Eg; rewrite group_loop_concat in Eg].
    + unfold data_start, encoding_info_size. rewrite Eg. cbn [table head fmap option_fmap option_map block_offset]. by f_equal.
  - rewrite build_sorted. by apply builder_build_bytes.
Qed.

Definition sample_patch (k : Z) : FilePatch :=
  {| source_ekey := repeat k 16; source_decoded_size := 1000; patch_ekey := repeat (k + 100) 16; patch_size := 20; patch_index := 1 |}.

Definition sample_builder : PatchArchiveBuilder :=
  let b := set_encoding_info (set_block_size_bits builder_new 12)
             {| encoding_ckey := repeat 1 16; encoding_ekey := repeat 2 16; i_decoded_size := 5; i_encoded_size := 6; espec := [122] |} in
  let b := add_file_entry b (repeat 9 16) 2000 [sample_patch 3; sample_patch 4] in
  let b := add_file_entry b (repeat 7 16) (2 ^ 32) (repeat (sample_patch 5) 100) in
  add_file_entry b (repeat 8 16) 10 [sample_patch 6].

(** The length of what a builder writes. *)
Definition built_length (md5 : bytes -> bytes) (b : PatchArchiveBuilder) : Z :=
  match builder_build md5 b with Ok data => Z.of_nat (length data) | Err _ => 0 end.

Lemma patch_archive_roundtrip_witness :
  exists data a, builder_build (fun _ => zeros 16) sample_builder = Ok data /\ parse data = Ok a /\
    find_patches_for_target a (repeat 8 16) = Some {| target_ckey := repeat 8 16; decoded_size := 10; patches := [sample_patch 6] |}.
Proof.
  assert (builder_ok (fun _ => zeros 16) sample_builder) as Hb.
  { split; [cbn; lia|]. split; [cbn; lia|]. split; [unfold entry_ok, patch_ok, key_ok, in_u; decide_now|]. split; [unfold info_ok, key_ok, in_u; decide_now|].
    split; [vm_compute; reflexivity|]. intros data E. assert (built_length (fun _ => zeros 16) sample_builder < 2 ^ 32) as H by (vm_compute; reflexivity).
    unfold built_length in H. rewrite E in H. exact H. }
  destruct (patch_archive_roundtrip (fun _ => zeros 16) sample_builder ltac:(done) Hb) as (data & a & H1 & H2 & _ & _ & _ & _ & H3 & _ & _).
  exists data, a. split; [exact H1|]. split; [exact H2|]. apply (H3 ltac:(decide_now) {| target_ckey := repeat 8 16; decoded_size := 10; patches := [sample_patch 6] |}).
  right. right. left.
Defined.

(** ** What the format loses *)

(** An entry without patches ends its block: the entries behind it are lost. *)
Theorem entry_without_patches_ends_block :
  let b := add_file_entry (add_file_entry builder_new (repeat 1 16) 10 []) (repeat 2 16) 10 [sample_patch 3] in
  exists a, build_archive (fun _ => zeros 16) b = Ok a /\ entry_count b = 2%nat /\ total_file_entries a = 0%nat.
Proof. eexists. split; [vm_compute; reflexivity|]. done. Qed.

(** A specification of 256 bytes is written with the length zero; what follows is read
    at the wrong place. *)
Theorem long_espec_is_misread :
  let info := {| encoding_ckey := repeat 1 16; encoding_ekey := repeat 2 16; i_decoded_size := 5; i_encoded_size := 6; espec := repeat 110 256 |} in
  build_archive (fun _ => zeros 16) (add_file_entry (set_encoding_info builder_new info) (repeat 1 16) 10 [sample_patch 3]) = Err DecompressionError.
Proof. vm_compute. done. Qed.

(** The additional data of a legacy entry is written but not read. *)
Theorem additional_data_is_not_read :
  let e := {| old_content_key := zeros 16; new_content_key := zeros 16; patch_encoding_key := zeros 16; compression_info := [122]; additional_data := [1; 2] |} in
  exists w e', write_patch_entry 16 16 16 e = Ret w /\ read_patch_entry 16 16 16 w = Ret (Ok (e', [1; 2])) /\ additional_data e' = [].
Proof. do 2 eexists. split; [vm_compute; reflexivity|]. split; [vm_compute; reflexivity|]. done. Qed.

(** Without it an entry reads back, up to 1024 bytes of compression information. *)
Theorem patch_entry_roundtrip e rest :
  key_ok (old_content_key e) -> key_ok (new_content_key e) -> key_ok (patch_encoding_key e) -> additional_data e = [] ->
  Forall (fun c => c <> 0) (compression_info e) -> (length (compression_info e) <= 1024)%nat -> utf8_valid (compression_info e) = true ->
  exists w, write_patch_entry 16 16 16 e = Ret w /\ read_patch_entry 16 16 16 (w ++ rest) = Ret (Ok (e, rest)) /\ Z.of_nat (length w) = serialized_size 16 16 16 e.
Proof.
  intros H1 H2 H3 Ha Hz Hl Hu. unfold write_patch_entry, in_array. cbn [Z.ltb Z.compare Pos.compare Pos.compare_cont mbind outcome_bind]. rewrite !write_key_ok by done.
  eexists. split; [done|]. split.
  - unfold read_patch_entry, in_array. cbn [Z.ltb Z.compare Pos.compare Pos.compare_cont]. rewrite Ha, app_nil_r, <- !app_assoc.
    assert (forall k i, key_ok k -> read_key_or BinRw 16 (k ++ i) = Ok (k, i)) as Hk.
    { intros k i Hk. unfold read_key_or. rewrite read_app by done. cbn [mbind result_bind]. by rewrite app_nil_r. }
    rewrite !Hk by done. cbn [try_bind]. rewrite Hk by done. cbn [try_bind]. rewrite Hk by done. cbn [try_bind]. unfold read_null_terminated_string.
    assert (forall s acc, Forall (fun c => c <> 0) s -> (length acc + length s <= 1024)%nat -> read_string_loop (s ++ [0] ++ rest) acc = Ok (acc ++ s, rest)) as Hr.
    { intros s acc Hs. revert acc. induction Hs as [|c s Hc Hs IH]; intros acc Hlen; cbn [app read_string_loop length] in *; [by rewrite app_nil_r|].
      rewrite (proj2 (Z.eqb_neq _ _)), (proj2 (Nat.ltb_ge _ _)) by (done || lia). rewrite IH by (rewrite length_app; cbn [length]; lia). by rewrite <- app_assoc. }
    rewrite Hr by (done || (cbn [length]; lia)). cbn [mbind result_bind app]. rewrite Hu. cbn [try_bind]. rewrite <- Ha. by destruct e.
  - unfold serialized_size. rewrite !length_app, H1, H2, H3. cbn [length]. change (wrap8 (wrap8 (16 + 16) + 16)) with 48. lia.
Qed.

(** ** Compression specifications *)

(** The text of a block table in braces, stored without its prefix, is read as the
    specification. *)
Theorem compression_spec_stored spec x :
  Espec.to_string spec = [98; 58; 123] ++ x ++ [125] ->
  format_compression_spec spec = [123] ++ x ++ [125] /\
  parse_compression_spec (format_compression_spec spec) =
    (r ← Espec.parse (Espec.to_string spec); Ret (match r with Ok s => Ok s | Err _ => Err (InvalidCompressionSpec "invalid specification") end)).
Proof.
  intros E. assert (forall p, ends_with 125 (p ++ x ++ [125]) = true) as He by (intros p; unfold ends_with; rewrite app_assoc, last_snoc; by apply bool_decide_eq_true_2).
  assert (format_compression_spec spec = [123] ++ x ++ [125]) as Hf.
  { unfold format_compression_spec. rewrite E, He. unfold starts_with. cbn [app length firstn]. by rewrite bool_decide_eq_true_2. }
  split; [done|]. rewrite Hf. unfold parse_compression_spec. rewrite He. unfold starts_with at 1. cbn [app length firstn]. rewrite bool_decide_eq_true_2 by done. cbn [andb app].
  by rewrite E.
Qed.

(** Data under the specification of no compression, whole or as one open block, is
    returned as it is. *)
Theorem decompress_plain zlib_reads data :
  decompress_patch_data zlib_reads data Espec.None_ = Ret (Ok data) /\
  decompress_patch_data zlib_reads data (Espec.BlockTable [(None, Espec.None_)]) = Ret (Ok data).
Proof.
  split; [done|]. cbn [decompress_patch_data decompress_chunks]. destruct data as [|c data]; [done|]. rewrite (proj2 (Z.leb_gt _ _)) by (cbn [length]; lia).
  rewrite (proj2 (Z.ltb_ge _ _)) by lia. cbn [decompress_chunk try_bind]. rewrite app_nil_r, Nat2Z.id. unfold slice. by rewrite drop_0, Nat.sub_0_r, take_ge.
Qed.
