(* ===== verification/Lines.v ===== *)
(** * Lines of text

    What the text formats share: white space and [trim], [split] and [join], decimal
    numbers as [str::parse] reads them, and the lines of a text.  Strings are their UTF-8
    bytes. *)

From S2P Require Import Prelude Bytes Text Utf8 Install InstallTheorems.
Local Open Scope Z_scope.

(** The characters with the property [White_Space]. *)
Definition white_space : list bytes :=
  [[9]; [10]; [11]; [12]; [13]; [32]; [0xC2; 0x85]; [0xC2; 0xA0]; [0xE1; 0x9A; 0x80]] ++
  map (fun i => [0xE2; 0x80; 0x80 + Z.of_nat i]) (seq 0 11) ++ [[0xE2; 0x80; 0xA8]; [0xE2; 0x80; 0xA9]; [0xE2; 0x80; 0xAF]; [0xE2; 0x81; 0x9F]; [0xE3; 0x80; 0x80]].

Fixpoint strip (ws : list bytes) (s : bytes) : option bytes :=
  match ws with
  | [] => None
  | w :: ws => if Install.starts_with s w then Some (drop (length w) s) else strip ws s
  end.

(** Every step takes a byte at least. *)
Fixpoint strip_all (fuel : nat) (ws : list bytes) (s : bytes) : bytes :=
  match fuel with
  | O => s
  | S fuel => match strip ws s with Some s => strip_all fuel ws s | None => s end
  end.

Definition trim_start (s : bytes) : bytes := strip_all (length s) white_space s.
Definition trim_end (s : bytes) : bytes := reverse (strip_all (length s) (map reverse white_space) (reverse s)).
Definition trim (s : bytes) : bytes := trim_end (trim_start s).

(** [join] of texts. *)
Fixpoint join (c : Z) (l : list bytes) : bytes :=
  match l with
  | [] => []
  | [x] => x
  | x :: l => x ++ c :: join c l
  end.

(** [str::parse] of an unsigned integer up to [max]. *)
Definition parse_digits (max : Z) (s : bytes) : option Z :=
  if (length s =? 0)%nat then None
  else if forallb is_digit s then (let n := parse_decimal s in if n <=? max then Some n else None) else None.

Definition parse_unsigned (max : Z) (s : bytes) : option Z := match s with 43 :: s' => parse_digits max s' | _ => parse_digits max s end.

(** [str::parse::<i64>]. *)
Definition parse_i64 (s : bytes) : option Z :=
  match s with
  | 45 :: s' => Z.opp <$> parse_digits (2 ^ 63) s'
  | 43 :: s' => parse_digits (2 ^ 63 - 1) s'
  | _ => parse_digits (2 ^ 63 - 1) s
  end.

Definition show_i64 (n : Z) : bytes := if n <? 0 then 45 :: show (- n) else show n.

(** The text behind the first [c]. *)
Fixpoint after (c : Z) (s : bytes) : option bytes :=
  match s with
  | [] => None
  | x :: s => if x =? c then Some s else after c s
  end.

(** [str::split_whitespace]: [skip] bytes of a white-space character are still to be passed. *)
Fixpoint scan_words (skip : nat) (cur s : bytes) : list bytes :=
  match s with
  | [] => if (length cur =? 0)%nat then [] else [cur]
  | c :: s' =>
      match skip with
      | S skip => scan_words skip cur s'
      | O =>
          match strip white_space s with
          | Some rest => (if (length cur =? 0)%nat then [] else [cur]) ++ scan_words (length s' - length rest) [] s'
          | None => scan_words 0 (cur ++ [c]) s'
          end
      end
  end.

Definition split_whitespace (s : bytes) : list bytes := scan_words 0 [] s.

(** [split_once] on a text. *)
Fixpoint split_once (sep s : bytes) : option (bytes * bytes) :=
  if Install.starts_with s sep then Some ([], drop (length sep) s)
  else match s with [] => None | c :: s => '(a, b) ← split_once sep s; Some (c :: a, b) end.

(** The bytes of an ASCII literal. *)
Definition text (s : string) : bytes := map (fun a => Z.of_nat (Ascii.nat_of_ascii a)) (String.list_ascii_of_string s).

(** The lines [read_line] returns, without their ends; a last line may have none. *)
Definition read_lines (content : bytes) : list bytes :=
  match last (Install.split_on 10 content) with
  | Some [] => removelast (Install.split_on 10 content)
  | _ => Install.split_on 10 content
  end.

(** ** White space *)

(** Every white-space character starts, and ends, outside the printable ASCII range. *)
Definition outer (w : bytes) : Prop := exists x t, w = x :: t /\ (x <= 32 \/ 128 <= x).

Lemma white_space_outer : Forall outer white_space /\ Forall outer (map reverse white_space).
Proof.
  assert (forall l, forallb (fun w => match w with x :: _ => (x <=? 32) || (128 <=? x) | [] => false end) l = true -> Forall outer l) as H; [|split; by apply H].
  intros l Hl. apply Forall_forall. intros [|x t] Hw; rewrite forallb_forall in Hl; specialize (Hl _ (proj1 (list_elem_of_In _ _) Hw)); [done|].
  exists x, t. split; [done|]. apply orb_true_iff in Hl. lia.
Qed.

Lemma strip_printable ws c s : Forall outer ws -> 33 <= c < 128 -> strip ws (c :: s) = None.
Proof.
  intros Hws Hc. induction Hws as [|w ws (x & t & -> & Hx) Hws IH]; [done|]. cbn [strip]. unfold Install.starts_with. cbn [length take].
  rewrite bool_decide_eq_false_2; [done|]. intros [= -> _]. lia.
Qed.

Lemma strip_all_printable fuel ws c s : Forall outer ws -> 33 <= c < 128 -> strip_all fuel ws (c :: s) = c :: s.
Proof. intros Hws Hc. destruct fuel; cbn [strip_all]; [done|]. by rewrite strip_printable. Qed.

Lemma trim_start_printable c s : 33 <= c < 128 -> trim_start (c :: s) = c :: s.
Proof. intros Hc. apply strip_all_printable; [apply white_space_outer|done]. Qed.

Lemma trim_end_printable s c : 33 <= c < 128 -> trim_end (s ++ [c]) = s ++ [c].
Proof.
  intros Hc. unfold trim_end. rewrite reverse_app. cbn [app]. change (reverse [c] ++ reverse s) with (c :: reverse s).
  rewrite strip_all_printable by (done || apply white_space_outer). by rewrite reverse_cons, reverse_involutive.
Qed.

Lemma trim_start_space s : trim_start (32 :: s) = trim_start s.
Proof. unfold trim_start. cbn [length strip_all]. assert (strip white_space (32 :: s) = Some s) as -> by done. done. Qed.

Lemma strip_suffix ws s s' : strip ws s = Some s' -> s' `suffix_of` s.
Proof. induction ws as [|w ws IH]; [done|]. cbn [strip]. destruct (Install.starts_with s w); [|done]. intros [= <-]. exists (take (length w) s). by rewrite take_drop. Qed.

Lemma strip_all_suffix fuel ws s : strip_all fuel ws s `suffix_of` s.
Proof.
  revert s. induction fuel as [|fuel IH]; intros s; cbn [strip_all]; [done|]. destruct (strip ws s) as [s'|] eqn:E; [|done].
  etrans; [apply IH|by eapply strip_suffix].
Qed.

(** A text that trimming leaves as it is has no white space at its end. *)
Lemma trimmed_end s : trim s = s -> trim_end s = s.
Proof.
  intros H. assert (trim_start s = s) as E; [|by unfold trim in H; rewrite E in H].
  destruct (strip_all_suffix (length s) white_space s) as [k Ek]. fold (trim_start s) in Ek.
  destruct (strip_all_suffix (length (trim_start s)) (map reverse white_space) (reverse (trim_start s))) as [k' Ek'].
  unfold trim, trim_end in H. apply (f_equal length) in H, Ek'. rewrite length_reverse in H. rewrite length_reverse, length_app in Ek'.
  assert (k = []) as ->; [|done]. apply length_zero_iff_nil. apply (f_equal length) in Ek. rewrite length_app in Ek. lia.
Qed.

(** ** Numbers *)

Lemma parse_digits_show max n : 0 <= n < 2 ^ 64 -> n <= max -> parse_digits max (show n) = Some n.
Proof.
  intros Hn Hm. unfold parse_digits. destruct (show_cons n) as (c & l & E). rewrite E. cbn [length Nat.eqb]. rewrite <- E.
  assert (forallb is_digit (show n) = true) as ->. { apply forallb_forall. intros x Hx. pose proof (show_digits n ltac:(lia)) as H. rewrite List.Forall_forall in H. by apply H. }
  rewrite show_value by done. cbv zeta. by rewrite (proj2 (Z.leb_le _ _)).
Qed.

Lemma show_digit_head n : 0 <= n -> exists c l, show n = c :: l /\ 48 <= c <= 57.
Proof.
  intros Hn. destruct (show_cons n) as (c & l & E). exists c, l. split; [done|]. pose proof (show_digits n Hn) as H. rewrite E in H.
  apply Forall_cons in H as [H _]. unfold is_digit, in_rng in H. apply andb_true_iff in H. lia.
Qed.

Lemma parse_unsigned_show max n : 0 <= n < 2 ^ 64 -> n <= max -> parse_unsigned max (show n) = Some n.
Proof.
  intros Hn Hm. rewrite <- (parse_digits_show max n Hn Hm). destruct (show_digit_head n ltac:(lia)) as (c & l & -> & Hc). unfold parse_unsigned.
  repeat case_match; subst; try lia; done.
Qed.

Lemma parse_i64_show n : - 2 ^ 63 <= n < 2 ^ 63 -> parse_i64 (show_i64 n) = Some n.
Proof.
  intros Hn. unfold show_i64. destruct (Z.ltb_spec n 0).
  - cbn [parse_i64]. rewrite parse_digits_show by lia. cbn. f_equal. lia.
  - rewrite <- (parse_digits_show (2 ^ 63 - 1) n) by lia. destruct (show_digit_head n ltac:(lia)) as (c & l & -> & Hc). unfold parse_i64.
    repeat case_match; subst; try lia; done.
Qed.

(** ** Characters of the parts *)

Lemma lacks_range lo hi c s : Forall (fun b => lo <= b <= hi) s -> ~ lo <= c <= hi -> lacks c s.
Proof. intros H Hc. eapply Forall_impl; [exact H|]. cbn. intros; lia. Qed.

Lemma show_range n : 0 <= n -> Forall (fun b => 48 <= b <= 57) (show n).
Proof. intros Hn. eapply Forall_impl; [by apply show_digits|]. unfold is_digit, in_rng. intros x Hx%andb_true_iff. lia. Qed.

Lemma show_i64_range n : Forall (fun b => 45 <= b <= 57) (show_i64 n).
Proof.
  assert (forall m, 0 <= m -> Forall (fun b => 45 <= b <= 57) (show m)) as H by (intros m Hm; eapply Forall_impl; [by apply show_range|]; cbn; lia).
  unfold show_i64. destruct (Z.ltb_spec n 0); [constructor; [lia|]|]; apply H; lia.
Qed.

Lemma hex_range b : is_bytes b -> Forall (fun b => 48 <= b <= 102) (hex_encode b).
Proof.
  intros Hb. eapply Forall_impl; [by apply hex_encode_digits|]. unfold is_hexdigit, is_digit, in_rng. intros x Hx.
  rewrite !orb_true_iff, !andb_true_iff in Hx. cbn. lia.
Qed.

Lemma valid_range lo hi s : Forall (fun b => lo <= b <= hi) s -> hi < 128 -> utf8_valid s = true.
Proof. intros H Hh. apply utf8_valid_ascii. eapply Forall_impl; [exact H|]. cbn. lia. Qed.

Lemma join_joined c l : join c l = joined c l.
Proof. destruct l as [|x l]; [done|]. cbn [joined]. revert x. induction l as [|y l IH]; intros x; [by rewrite app_nil_r|]. cbn [map concat app]. by rewrite <- IH. Qed.

Lemma lacks_app c a b : lacks c a -> lacks c b -> lacks c (a ++ b).
Proof. intros Ha Hb. by apply Forall_app. Qed.

Lemma join_lacks c d l : c <> d -> Forall (lacks c) l -> lacks c (join d l).
Proof. intros Hcd. induction 1 as [|x l Hx Hl IH]; [constructor|]. destruct l as [|y l]; [done|]. change (lacks c (x ++ d :: join d (y :: l))). apply lacks_app; [done|]. by constructor. Qed.

Lemma join_valid d l : d < 128 -> Forall (fun s => utf8_valid s = true) l -> utf8_valid (join d l) = true.
Proof.
  intros Hd. induction 1 as [|x l Hx Hl IH]; [done|]. destruct l as [|y l]; [done|]. change (utf8_valid (x ++ d :: join d (y :: l)) = true).
  apply utf8_valid_app; [done|]. cbn [utf8_valid]. by rewrite (proj2 (Z.ltb_lt _ _)).
Qed.

(** The last part ends the text. *)
Lemma join_last d l x : exists p, join d (l ++ [x]) = p ++ x.
Proof.
  induction l as [|y l [p IH]]; [by exists []|]. cbn [app]. destruct (l ++ [x]) as [|z k] eqn:E; [by destruct l|].
  exists (y ++ d :: p). change (y ++ d :: join d (z :: k) = (y ++ d :: p) ++ x). by rewrite IH, <- app_assoc.
Qed.

Lemma show_end n : 0 <= n -> exists s c, show n = s ++ [c] /\ 48 <= c <= 57.
Proof.
  intros Hn. destruct (show_cons n) as (x & l & E). destruct (exists_last (l := show n)) as (s & c & Es); [by rewrite E|]. exists s, c. split; [done|].
  pose proof (show_range n Hn) as H. rewrite Es in H. by apply Forall_app in H as [_ H%Forall_cons%proj1].
Qed.

Lemma trim_number n : 0 <= n -> trim (show n) = show n.
Proof.
  intros Hn. unfold trim. destruct (show_digit_head n Hn) as (c & l & E & Hc). rewrite E, trim_start_printable, <- E by lia.
  destruct (show_end n Hn) as (s & d & -> & Hd). apply trim_end_printable. lia.
Qed.

(** ** The lines *)

Lemma read_lines_concat lines : Forall (lacks 10) lines -> read_lines (concat (map (fun l => l ++ [10]) lines)) = lines.
Proof.
  intros H. assert (Install.split_on 10 (concat (map (fun l => l ++ [10]) lines)) = lines ++ [[]]) as E.
  { induction H as [|l lines Hl H IH]; [done|]. cbn [map concat]. rewrite <- app_assoc. cbn [app]. by rewrite split_on_cut, IH. }
  unfold read_lines. rewrite E, last_snoc. apply removelast_last.
Qed.

(** ** Words *)

(** No white-space character starts inside. *)
Fixpoint no_space (v : bytes) : bool :=
  match v with
  | [] => true
  | _ :: v' => match strip white_space v with None => no_space v' | Some _ => false end
  end.

Definition word (v : bytes) : Prop := v <> [] /\ no_space v = true /\ utf8_valid v = true.

(** A white-space character has several bytes only outside of ASCII. *)
Definition wide (w : bytes) : Prop := w <> [] /\ (length w = 1%nat \/ Forall (fun b => 128 <= b) w).

Lemma white_space_wide : Forall wide white_space.
Proof.
  assert (forall l, forallb (fun w => negb (length w =? 0)%nat && ((length w =? 1)%nat || forallb (fun b => 128 <=? b) w)) l = true -> Forall wide l) as H; [|by apply H].
  intros l Hl. apply Forall_forall. intros w Hw. rewrite forallb_forall in Hl. specialize (Hl _ (proj1 (list_elem_of_In _ _) Hw)). apply andb_true_iff in Hl as [H1 H2].
  split; [by intros ->|]. apply orb_true_iff in H2 as [H2|H2]; [left; by apply Nat.eqb_eq|right]. rewrite forallb_forall in H2. apply List.Forall_forall. intros b Hb. specialize (H2 b Hb). lia.
Qed.

Lemma strip_None ws s : strip ws s = None <-> Forall (fun w => Install.starts_with s w = false) ws.
Proof.
  induction ws as [|w ws IH]; [done|]. cbn [strip]. rewrite Forall_cons. destruct (Install.starts_with s w) eqn:E; [split; [done|by intros [? _]]|]. by rewrite IH; intuition.
Qed.

Lemma starts_with_spec s w : Install.starts_with s w = true <-> exists t, s = w ++ t.
Proof.
  unfold Install.starts_with. rewrite bool_decide_eq_true. split; [intros E; exists (drop (length w) s); by rewrite <- E at 1; rewrite take_drop|].
  intros [t ->]. apply take_app_length.
Qed.

(** White space does not straddle the end of a text before an ASCII character. *)
Lemma strip_app s c t : s <> [] -> strip white_space s = None -> 0 <= c < 128 -> strip white_space (s ++ c :: t) = None.
Proof.
  rewrite !strip_None, !Forall_forall. intros Hs H Hc w Hw. specialize (H w Hw). pose proof white_space_wide as Hwide. rewrite Forall_forall in Hwide.
  destruct (Hwide w Hw) as [Hne Hlen]. apply not_true_iff_false. intros [r E]%starts_with_spec. apply not_true_iff_false in H. apply H, starts_with_spec.
  apply app_eq_inv in E as [(k & -> & E)|(k & -> & E)]; [by exists k|]. destruct k as [|b k]; [exists []; by rewrite !app_nil_r|]. exfalso.
  injection E as <- _. destruct Hlen as [Hlen|Hlen].
  - rewrite length_app in Hlen. destruct s; [done|]. simpl in Hlen. lia.
  - apply Forall_app in Hlen as [_ Hb%Forall_cons%proj1]. lia.
Qed.

Lemma scan_words_app v cur c s : no_space v = true -> 0 <= c < 128 -> scan_words 0 cur (v ++ c :: s) = scan_words 0 (cur ++ v) (c :: s).
Proof.
  intros Hv Hc. revert cur Hv. induction v as [|b v IH]; intros cur Hv; [by rewrite app_nil_r|]. cbn [no_space] in Hv.
  destruct (strip white_space (b :: v)) eqn:E; [done|]. change ((b :: v) ++ c :: s) with (b :: (v ++ c :: s)). cbn [scan_words].
  rewrite (strip_app (b :: v) c s ltac:(done) E Hc : strip white_space (b :: (v ++ c :: s)) = None). rewrite IH by done. by rewrite <- app_assoc.
Qed.

Lemma scan_words_end v cur : no_space v = true -> cur ++ v <> [] -> scan_words 0 cur v = [cur ++ v].
Proof.
  revert cur. induction v as [|b v IH]; intros cur Hv Hne.
  - cbn [scan_words]. rewrite app_nil_r in *. by destruct cur.
  - cbn [no_space] in Hv. cbn [scan_words]. destruct (strip white_space (b :: v)); [done|]. rewrite IH by (done || by destruct cur). by rewrite <- app_assoc.
Qed.

Lemma split_whitespace_join vs : Forall word vs -> split_whitespace (join 32 vs) = vs.
Proof.
  induction 1 as [|v vs (Hne & Hv & _) Hvs IH]; [done|]. destruct vs as [|x vs]; [by apply scan_words_end|].
  change (join 32 (v :: x :: vs)) with (v ++ 32 :: join 32 (x :: vs)). unfold split_whitespace in *. rewrite scan_words_app by done. cbn [app].
  cbn [scan_words]. assert (forall t, strip white_space (32 :: t) = Some t) as -> by done. rewrite Nat.sub_diag, IH. by destruct v.
Qed.

Lemma no_space_drop i v : no_space v = true -> (i < length v)%nat -> strip white_space (drop i v) = None.
Proof.
  revert i. induction v as [|b v IH]; intros i Hv Hi; [simpl in Hi; lia|]. cbn [no_space] in Hv. destruct (strip white_space (b :: v)) eqn:E; [done|].
  destruct i as [|i]; [done|]. apply IH; [done|]. simpl in Hi. lia.
Qed.

(** A text that starts and ends with words is not trimmed. *)
Lemma trim_start_word v s : v <> [] -> no_space v = true -> (s = [] \/ exists c t, s = c :: t /\ 0 <= c < 128) -> trim_start (v ++ s) = v ++ s.
Proof.
  intros Hne Hv Hs. unfold trim_start. destruct (length (v ++ s)); cbn [strip_all]; [done|].
  pose proof (no_space_drop 0 v Hv ltac:(destruct v; [done|simpl; lia])) as E. rewrite drop_0 in E.
  destruct Hs as [->|(c & t & -> & Hc)]; [by rewrite app_nil_r, E|by rewrite strip_app].
Qed.

Abbreviation white_ends := (map reverse white_space).

Lemma trim_end_fixed s : strip white_ends (reverse s) = None -> trim_end s = s.
Proof. intros E. unfold trim_end. destruct (length s); cbn [strip_all]; [|rewrite E]; by rewrite reverse_involutive. Qed.

Lemma fixed_trim_end v : v <> [] -> trim_end v = v -> strip white_ends (reverse v) = None.
Proof.
  intros Hne E. destruct (strip white_ends (reverse v)) as [s'|] eqn:Es; [|done]. exfalso. apply (f_equal length) in E. unfold trim_end in E. rewrite length_reverse in E.
  destruct (length v) as [|n] eqn:El; [by destruct v|]. cbn [strip_all] in E. rewrite Es in E.
  destruct (strip_all_suffix n white_ends s') as [k Ek]. apply (f_equal length) in Ek. rewrite length_app in Ek.
  assert (forall ws s s', Forall outer ws -> s <> [] -> strip ws s = Some s' -> (length s' < length s)%nat) as Hlt.
  { clear. intros ws s s' Hws Hs. induction Hws as [|w ws (x & t & -> & _) Hws IH]; [done|]. cbn [strip]. destruct (Install.starts_with s (x :: t)); [|done].
    intros [= <-]. rewrite length_drop. destruct s; [done|]. simpl. lia. }
  assert (reverse v <> []) as Hr by (intros Hr; apply (f_equal length) in Hr; rewrite length_reverse, El in Hr; done).
  pose proof (Hlt _ _ _ (proj2 white_space_outer) Hr Es) as H. rewrite length_reverse in H. lia.
Qed.

(** White space does not straddle the start of a text behind an ASCII character. *)
Lemma trim_end_app p v : v <> [] -> trim_end v = v -> (p = [] \/ exists t c, p = t ++ [c] /\ 0 <= c < 128) -> trim_end (p ++ v) = p ++ v.
Proof.
  intros Hne Hv Hp. apply trim_end_fixed. pose proof (fixed_trim_end v Hne Hv) as H. rewrite strip_None, Forall_map, Forall_forall in *. intros w Hw. specialize (H w Hw). cbn in *.
  apply not_true_iff_false. intros [t E]%starts_with_spec. apply not_true_iff_false in H. apply H, starts_with_spec. clear H.
  apply (f_equal reverse) in E. rewrite reverse_involutive, reverse_app, reverse_involutive in E. pose proof white_space_wide as Hwide. rewrite Forall_forall in Hwide.
  destruct (Hwide w Hw) as [Hwne Hlen]. apply app_eq_inv in E as [(k & -> & E)|(k & E1 & ->)]; [|exists (reverse k); by rewrite reverse_app].
  destruct (decide (k = [])) as [->|Hk]; [cbn [app] in E; subst w; exists []; by rewrite app_nil_r|].
  destruct Hlen as [Hlen|Hlen]; [subst w; rewrite length_app in Hlen; destruct k, v; simpl in Hlen; (done || lia)|].
  destruct Hp as [Hp|(u & c & Hp & Hc)]; [by destruct (reverse t), k|].
  destruct (exists_last Hk) as (k' & b & ->). rewrite app_assoc in Hp. apply app_inj_tail in Hp as [_ ->]. subst w.
  rewrite <- app_assoc in Hlen. apply Forall_app in Hlen as [_ Hb%Forall_cons%proj1]. lia.
Qed.

Lemma trim_end_no_space v : no_space v = true -> trim_end v = v.
Proof.
  intros Hv. apply trim_end_fixed, strip_None, Forall_map, Forall_forall. intros w Hw. cbn. apply not_true_iff_false. intros [t E]%starts_with_spec.
  apply (f_equal reverse) in E. rewrite reverse_involutive, reverse_app, reverse_involutive in E. pose proof white_space_wide as Hwide. rewrite Forall_forall in Hwide.
  destruct (Hwide w Hw) as [Hwne _]. subst v.
  pose proof (no_space_drop (length (reverse t)) _ Hv ltac:(rewrite length_app; destruct w; [done|simpl; lia])) as H. rewrite drop_app_length, strip_None, Forall_forall in H.
  specialize (H w Hw). apply not_true_iff_false in H. apply H, starts_with_spec. exists []. by rewrite app_nil_r.
Qed.

(** Words with single spaces between them. *)
Lemma join_word_ends vs : vs <> [] -> Forall word vs ->
  (exists v s, join 32 vs = v ++ s /\ word v /\ (s = [] \/ exists c t, s = c :: t /\ 0 <= c < 128)) /\
  (exists p v, join 32 vs = p ++ v /\ word v /\ (p = [] \/ exists t c, p = t ++ [c] /\ 0 <= c < 128)).
Proof.
  intros Hne. induction 1 as [|v vs Hv Hvs IH]; [done|]. destruct vs as [|x vs].
  - split; [exists v, []|exists [], v]; (split_and!; [by rewrite ?app_nil_r|done|by left]).
  - specialize (IH ltac:(done)) as [_ (p & y & E & Hy & Hp)]. change (join 32 (v :: x :: vs)) with (v ++ 32 :: join 32 (x :: vs)). split.
    + exists v, (32 :: join 32 (x :: vs)). split_and!; [done..|]. right. by eexists _, _.
    + exists (v ++ 32 :: p), y. rewrite E, <- app_assoc. split_and!; [done..|]. right. destruct Hp as [->|(t & c & -> & Hc)]; [by exists v, 32|].
      exists (v ++ 32 :: t), c. by rewrite <- app_assoc.
Qed.

Lemma trim_words vs : vs <> [] -> Forall word vs -> trim (join 32 vs) = join 32 vs.
Proof.
  intros Hne Hvs. destruct (join_word_ends vs Hne Hvs) as [(v & s & E & (? & ? & _) & Hs) (p & y & E' & (? & ? & _) & Hp)].
  unfold trim. rewrite E, trim_start_word by done. rewrite <- E, E'. apply trim_end_app; [done|by apply trim_end_no_space|done].
Qed.

(** The words of a line lack its end. *)
Lemma no_space_lacks v : no_space v = true -> lacks 10 v.
Proof.
  induction v as [|b v IH]; [constructor|]. cbn [no_space]. destruct (strip white_space (b :: v)) eqn:E; [done|]. intros Hv. constructor; [|by apply IH].
  intros ->. by cbn in E.
Qed.

Lemma words_text vs : Forall word vs -> lacks 10 (join 32 vs) /\ utf8_valid (join 32 vs) = true.
Proof.
  intros H. split; [apply join_lacks|apply join_valid]; try done; (eapply Forall_impl; [exact H|]); intros v (_ & Hv & Hu); [by apply no_space_lacks|done].
Qed.

Lemma split_once_lacks a c sep s : lacks c a -> split_once (c :: sep) (a ++ (c :: sep) ++ s) = Some (a, s).
Proof.
  intros Ha. assert (forall t, split_once (c :: sep) ((c :: sep) ++ t) = Some ([], t)) as H0.
  { intros t. cbn [split_once app]. rewrite (proj2 (starts_with_spec (c :: sep ++ t) (c :: sep))) by (by exists t). cbn [length skipn]. by rewrite drop_app_length. }
  induction Ha as [|b a Hb Ha IH]; [apply H0|]. cbn [app split_once]. unfold Install.starts_with. cbn [length take]. rewrite bool_decide_eq_false_2 by (by intros [= ? _]).
  change (a ++ c :: sep ++ s) with (a ++ (c :: sep) ++ s). by rewrite IH.
Qed.
