(* ===== verification/Bpsv.v ===== *)
(** * BPSV documents

    Tables of pipe-separated values with a typed header
    (src/crates/cascette-formats/src/bpsv): types, fields, values, schema, rows,
    document, reader, writer and builder.  Strings are their UTF-8 bytes; the Unicode
    upper-case map of [str::to_uppercase] is a parameter. *)

From S2P Require Import Prelude Bytes Text Utf8 Install InstallTheorems Lines.
Local Open Scope Z_scope.

Module Bpsv.

Inductive BpsvError : Type :=
| InvalidTypeSpec (spec : bytes)
| UnknownType (name : bytes)
| InvalidFieldSpec (spec : bytes)
| InvalidHexValue (raw : bytes)
| InvalidHexLength (raw : bytes)
| InvalidDecValue (raw : bytes)
| EmptyDocument
| MissingHeader
| InvalidHeader (why : string)
| FieldCountMismatch (expected actual : nat)
| InvalidSequenceNumber (line : bytes)
| FieldNotFound (name : bytes)
| RowIndexOutOfBounds (i : nat)
| ColumnIndexOutOfBounds (i : nat).

Notation bresult := (result BpsvError).

(** ** Types, fields and values *)

Inductive BpsvType := TString (size : Z) | THex (size : Z) | TDec (size : Z).

Definition STRING : bytes := [83; 84; 82; 73; 78; 71].
Definition HEX : bytes := [72; 69; 88].
Definition DEC : bytes := [68; 69; 67].

Definition type_to_spec (t : BpsvType) : bytes :=
  match t with
  | TString size => STRING ++ 58 :: show size
  | THex size => HEX ++ 58 :: show size
  | TDec size => DEC ++ 58 :: show size
  end.

Definition size_hint (t : BpsvType) : Z := match t with TString size | THex size | TDec size => size end.

Record BpsvField := { name : bytes; field_type : BpsvType }.

Definition field_to_spec (f : BpsvField) : bytes := name f ++ 33 :: type_to_spec (field_type f).

Inductive BpsvValue := VString (s : bytes) | VHex (b : bytes) | VDec (n : Z) | VEmpty.

Definition value_parse (raw : bytes) (t : BpsvType) : bresult BpsvValue :=
  if (length raw =? 0)%nat then Ok VEmpty
  else
    match t with
    | TString _ => Ok (VString raw)
    | THex _ =>
        if negb (Nat.even (length raw)) then Err (InvalidHexLength raw)
        else match hex_decode raw with Some b => Ok (VHex b) | None => Err (InvalidHexValue raw) end
    | TDec _ => match parse_i64 raw with Some n => Ok (VDec n) | None => Err (InvalidDecValue raw) end
    end.

Definition as_string (v : BpsvValue) : option bytes := match v with VString s => Some s | _ => None end.
Definition as_hex (v : BpsvValue) : option bytes := match v with VHex b => Some b | _ => None end.
Definition as_dec (v : BpsvValue) : option Z := match v with VDec n => Some n | _ => None end.
Definition value_is_empty (v : BpsvValue) : bool := match v with VEmpty => true | _ => false end.

Definition value_to_string (v : BpsvValue) : bytes :=
  match v with
  | VString s => s
  | VHex b => hex_encode b
  | VDec n => show_i64 n
  | VEmpty => []
  end.

(** ** Schema *)

Record BpsvSchema := { fields : list BpsvField; field_map : gmap bytes nat }.

Definition schema_new (fields : list BpsvField) : BpsvSchema :=
  {| fields := fields; field_map := fold_left (fun m (p : nat * BpsvField) => <[name p.2 := p.1]> m) (imap pair fields) ∅ |}.

Definition field_count (s : BpsvSchema) : nat := length (fields s).
Definition get_field (s : BpsvSchema) (i : nat) : option BpsvField := fields s !! i.
Definition get_field_index (s : BpsvSchema) (n : bytes) : option nat := field_map s !! n.
Definition get_field_by_name (s : BpsvSchema) (n : bytes) : option BpsvField := i ← field_map s !! n; fields s !! i.
Definition has_field (s : BpsvSchema) (n : bytes) : bool := bool_decide (is_Some (field_map s !! n)).
Definition field_names (s : BpsvSchema) : list bytes := map name (fields s).
Definition to_header (s : BpsvSchema) : bytes := join 124 (map field_to_spec (fields s)).

Definition validate_row (s : BpsvSchema) (values : list bytes) : bresult unit :=
  if negb (length values =? length (fields s))%nat then Err (FieldCountMismatch (length (fields s)) (length values)) else Ok tt.

Section Parse.
Context (to_uppercase : bytes -> bytes).

Definition type_parse (spec : bytes) : bresult BpsvType :=
  match Install.split_on 58 spec with
  | [type_name; size] =>
      match parse_unsigned (2 ^ 64 - 1) size with
      | None => Err (InvalidTypeSpec spec)
      | Some n =>
          let type_name := to_uppercase type_name in
          if bool_decide (type_name = STRING) then Ok (TString n)
          else if bool_decide (type_name = HEX) then Ok (THex n)
          else if bool_decide (type_name = DEC) then Ok (TDec n)
          else Err (UnknownType type_name)
      end
  | _ => Err (InvalidTypeSpec spec)
  end.

Definition field_parse (spec : bytes) : bresult BpsvField :=
  match Install.split_on 33 spec with
  | [n; t] => ft ← type_parse t; Ok {| name := n; field_type := ft |}
  | _ => Err (InvalidFieldSpec spec)
  end.

Fixpoint fields_parse (specs : list bytes) : bresult (list BpsvField) :=
  match specs with
  | [] => Ok []
  | spec :: specs => f ← field_parse spec; fs ← fields_parse specs; Ok (f :: fs)
  end.

Definition schema_parse (header : bytes) : bresult BpsvSchema :=
  if (length header =? 0)%nat then Err EmptyDocument
  else
    let field_specs := Install.split_on 124 header in
    if (length field_specs =? 0)%nat then Err (InvalidHeader "No fields found in header")
    else fs ← fields_parse field_specs; Ok (schema_new fs).

(** ** Rows *)

Record BpsvRow := { values : list BpsvValue; raw_values : list bytes }.

Fixpoint values_parse (s : BpsvSchema) (i : nat) (raws : list bytes) : bresult (list BpsvValue) :=
  match raws with
  | [] => Ok []
  | raw :: raws =>
      match get_field s i with
      | None => Err (ColumnIndexOutOfBounds i)
      | Some f => v ← value_parse raw (field_type f); vs ← values_parse s (S i) raws; Ok (v :: vs)
      end
  end.

Definition row_parse (raw_values : list bytes) (s : BpsvSchema) : bresult BpsvRow :=
  if negb (length raw_values =? field_count s)%nat then Err (FieldCountMismatch (field_count s) (length raw_values))
  else vs ← values_parse s 0 raw_values; Ok {| values := vs; raw_values := raw_values |}.

Definition row_from_values (vs : list BpsvValue) : BpsvRow := {| values := vs; raw_values := map value_to_string vs |}.

Definition row_get (r : BpsvRow) (i : nat) : option BpsvValue := values r !! i.
Definition get_raw (r : BpsvRow) (i : nat) : option bytes := raw_values r !! i.
Definition get_by_name (r : BpsvRow) (n : bytes) (s : BpsvSchema) : option BpsvValue := i ← get_field_index s n; values r !! i.
Definition get_raw_by_name (r : BpsvRow) (n : bytes) (s : BpsvSchema) : option bytes := i ← get_field_index s n; raw_values r !! i.

Definition to_map (r : BpsvRow) (s : BpsvSchema) : gmap bytes BpsvValue :=
  fold_left (fun m (p : BpsvField * BpsvValue) => <[name p.1 := p.2]> m) (zip (fields s) (values r)) ∅.

Definition to_line (r : BpsvRow) : bytes := join 124 (raw_values r).
Definition row_len (r : BpsvRow) : nat := length (values r).
Definition row_is_empty (r : BpsvRow) : bool := (row_len r =? 0)%nat.

(** ** Document *)

Record BpsvDocument := { schema : BpsvSchema; rows : list BpsvRow; sequence_number : option Z }.

Definition document_new (s : BpsvSchema) : BpsvDocument := {| schema := s; rows := []; sequence_number := None |}.
Definition with_rows (s : BpsvSchema) (rs : list BpsvRow) : BpsvDocument := {| schema := s; rows := rs; sequence_number := None |}.

Definition push_row (d : BpsvDocument) (r : BpsvRow) : BpsvDocument := {| schema := schema d; rows := rows d ++ [r]; sequence_number := sequence_number d |}.

Definition add_row (d : BpsvDocument) (r : BpsvRow) : bresult BpsvDocument :=
  if negb (row_len r =? field_count (schema d))%nat then Err (FieldCountMismatch (field_count (schema d)) (row_len r)) else Ok (push_row d r).

Definition add_raw_row (d : BpsvDocument) (raws : list bytes) : bresult BpsvDocument := r ← row_parse raws (schema d); Ok (push_row d r).

Definition get_row (d : BpsvDocument) (i : nat) : option BpsvRow := rows d !! i.
Definition row_count (d : BpsvDocument) : nat := length (rows d).
Definition set_sequence_number (d : BpsvDocument) (n : Z) : BpsvDocument := {| schema := schema d; rows := rows d; sequence_number := Some n |}.
Definition clear_sequence_number (d : BpsvDocument) : BpsvDocument := {| schema := schema d; rows := rows d; sequence_number := None |}.
Definition clear_rows (d : BpsvDocument) : BpsvDocument := {| schema := schema d; rows := []; sequence_number := sequence_number d |}.

(** ["## seqn"] and [" = "]. *)
Definition SEQN : bytes := [35; 35; 32; 115; 101; 113; 110].
Definition EQUALS : bytes := [32; 61; 32].

(** [Display], which is also what [write_document] writes. *)
Definition format (d : BpsvDocument) : bytes :=
  to_header (schema d) ++ [10] ++
  match sequence_number d with Some n => SEQN ++ EQUALS ++ show n ++ [10] | None => [] end ++
  concat (map (fun r => to_line r ++ [10]) (rows d)).

(** ** Reader *)

Definition parse_sequence_line (line : bytes) : bresult (option Z) :=
  if negb (Install.starts_with line SEQN) then Err (InvalidSequenceNumber line)
  else
    let after_seqn := trim_start (drop (length SEQN) line) in
    if (length after_seqn =? 0)%nat then Err (InvalidSequenceNumber line)
    else
      let number_str :=
        match after 61 after_seqn with
        | Some s => trim s
        | None => match after 58 after_seqn with Some s => trim s | None => after_seqn end
        end in
      match parse_unsigned (2 ^ 32 - 1) number_str with Some n => Ok (Some n) | None => Err (InvalidSequenceNumber line) end.

Fixpoint read_rows (d : BpsvDocument) (lines : list bytes) : bresult BpsvDocument :=
  match lines with
  | [] => Ok d
  | line :: lines =>
      let trimmed := trim line in
      if (length trimmed =? 0)%nat then read_rows d lines
      else if Install.starts_with trimmed SEQN then
        seqn ← parse_sequence_line trimmed;
        read_rows (match seqn with Some n => set_sequence_number d n | None => d end) lines
      else if Install.starts_with trimmed [35] then read_rows d lines
      else
        d ← add_raw_row d (Install.split_on 124 trimmed);
        read_rows d lines
  end.

(** A line that is not UTF-8 is an input error, which becomes [EmptyDocument]. *)
Definition read_document (content : bytes) : bresult BpsvDocument :=
  let lines := read_lines content in
  if negb (forallb utf8_valid lines) then Err EmptyDocument
  else
    match map trim_end lines with
    | [] => Err EmptyDocument
    | header_line :: lines =>
        if negb (Install.contains header_line [33]) then Err (InvalidHeader "Header must contain field type specifications")
        else s ← schema_parse header_line; read_rows (document_new s) lines
    end.

(** The first line that is neither blank nor a comment. *)
Fixpoint read_schema_loop (lines : list bytes) : bresult BpsvSchema :=
  match lines with
  | [] => Err EmptyDocument
  | line :: lines =>
      if negb (utf8_valid line) then Err EmptyDocument
      else
        let trimmed := trim line in
        if negb (length trimmed =? 0)%nat && negb (Install.starts_with trimmed [35]) then schema_parse trimmed else read_schema_loop lines
  end.

Definition read_schema (content : bytes) : bresult BpsvSchema := read_schema_loop (read_lines content).

Definition parse (content : bytes) : bresult BpsvDocument := read_document content.

(** [CascFormat::parse]: bytes that are not UTF-8 are an error of their own. *)
Definition casc_parse (data : bytes) : bresult BpsvDocument + unit := if utf8_valid data then inl (parse data) else inr tt.
Definition parse_schema (content : bytes) : bresult BpsvSchema := read_schema content.

End Parse.

(** ** Writer and builder *)

Definition write_document (d : BpsvDocument) : bytes := format d.
Definition casc_build (d : BpsvDocument) : bytes := format d.
Definition write_schema (s : BpsvSchema) : bytes := to_header s ++ [10].
Definition write_row (r : BpsvRow) : bytes := to_line r ++ [10].
Definition write_sequence (n : Z) : bytes := SEQN ++ EQUALS ++ show n ++ [10].
Definition write_comment (c : bytes) : bytes := [35; 32] ++ c ++ [10].

Record BpsvBuilder := { b_fields : list BpsvField; b_rows : list (list BpsvValue); b_sequence : option Z }.

Definition builder_new : BpsvBuilder := {| b_fields := []; b_rows := []; b_sequence := None |}.
Definition add_fields (b : BpsvBuilder) (fs : list BpsvField) : BpsvBuilder := {| b_fields := b_fields b ++ fs; b_rows := b_rows b; b_sequence := b_sequence b |}.
Definition add_field (b : BpsvBuilder) (f : BpsvField) : BpsvBuilder := add_fields b [f].
Definition set_sequence (b : BpsvBuilder) (n : Z) : BpsvBuilder := {| b_fields := b_fields b; b_rows := b_rows b; b_sequence := Some n |}.

Definition builder_add_row (b : BpsvBuilder) (vs : list BpsvValue) : bresult BpsvBuilder :=
  if negb (length vs =? length (b_fields b))%nat then Err (FieldCountMismatch (length (b_fields b)) (length vs))
  else Ok {| b_fields := b_fields b; b_rows := b_rows b ++ [vs]; b_sequence := b_sequence b |}.

(** A row that does not fit fails the [expect]. *)
Fixpoint build_rows (d : BpsvDocument) (rs : list (list BpsvValue)) : outcome BpsvDocument :=
  match rs with
  | [] => Ret d
  | vs :: rs => match add_row d (row_from_values vs) with Ok d => build_rows d rs | Err _ => Panic end
  end.

Definition builder_build (b : BpsvBuilder) : outcome BpsvDocument :=
  let d := document_new (schema_new (b_fields b)) in
  build_rows (match b_sequence b with Some n => set_sequence_number d n | None => d end) (b_rows b).

End Bpsv.
