(* ===== verification/BpsvTheorems.v ===== *)
(** * BPSV documents: the theorems

    A document the builder makes is written and read back as the same document; what
    the reader makes of rows that look like comments, blank lines or more columns. *)

From S2P Require Import Prelude Bytes Text Utf8 Install InstallTheorems Lines Bpsv.
Import Bpsv.
Local Open Scope Z_scope.

(** ** Values *)

(** A value of the column's type whose text is one cell of a line. *)
Definition value_ok (t : BpsvType) (v : BpsvValue) : Prop :=
  match t, v with
  | _, VEmpty => True
  | TString _, VString s => s <> [] /\ lacks 124 s /\ lacks 10 s /\ utf8_valid s = true
  | THex _, VHex b => b <> [] /\ is_bytes b
  | TDec _, VDec n => - 2 ^ 63 <= n < 2 ^ 63
  | _, _ => False
  end.

Lemma value_roundtrip t v : value_ok t v -> value_parse (value_to_string v) t = Ok v.
Proof.
  unfold value_parse. destruct v as [s|b|n|]; [| | |done]; destruct t; cbn [value_ok value_to_string]; try done.
  - intros (Hs & _). by destruct s.
  - intros [Hb Hbs]. rewrite length_hex_encode, hex_roundtrip by done. rewrite (proj2 (Nat.eqb_neq _ 0)) by (destruct b; simpl; [done|lia]).
    by rewrite (proj2 (Nat.even_spec _)) by (by exists (length b)).
  - intros Hn. assert (show_i64 n <> []) as Hne by (unfold show_i64; destruct (n <? 0); [done|]; by destruct (show_cons n) as (c & l & ->)).
    rewrite (proj2 (Nat.eqb_neq _ 0)) by (by destruct (show_i64 n)). by rewrite parse_i64_show.
Qed.

Lemma value_text t v : value_ok t v -> lacks 124 (value_to_string v) /\ lacks 10 (value_to_string v) /\ utf8_valid (value_to_string v) = true.
Proof.
  destruct v as [s|b|n|]; cbn [value_to_string]; intros H.
  - destruct t; [|done..]. by destruct H as (_ & ? & ? & ?).
  - assert (is_bytes b) as Hb by (by destruct t; [|destruct H|]). pose proof (hex_range b Hb).
    split_and!; [eapply lacks_range; [done|lia]..|by eapply valid_range].
  - pose proof (show_i64_range n). split_and!; [eapply lacks_range; [done|lia]..|by eapply valid_range].
  - split_and!; constructor.
Qed.

(** ** Rows *)

Definition types (fs : list BpsvField) : list BpsvType := map field_type fs.

Lemma values_roundtrip fs pre vs :
  Forall2 value_ok (types fs) vs -> values_parse (schema_new (pre ++ fs)) (length pre) (map value_to_string vs) = Ok vs.
Proof.
  revert pre vs. induction fs as [|f fs IH]; intros pre vs H; [by apply Forall2_nil_inv_l in H as ->|].
  apply Forall2_cons_inv_l in H as (v & vs' & Hv & Hvs & ->). cbn [map values_parse]. unfold get_field at 1. cbn [fields schema_new].
  rewrite list_lookup_middle by done. rewrite (value_roundtrip _ _ Hv). cbn [mbind result_bind].
  specialize (IH (pre ++ [f]) vs' Hvs). rewrite <- app_assoc, length_app in IH. cbn [app length] in IH. rewrite Nat.add_1_r in IH. by rewrite IH.
Qed.

Lemma row_roundtrip fs vs : Forall2 value_ok (types fs) vs -> row_parse (map value_to_string vs) (schema_new fs) = Ok (row_from_values vs).
Proof.
  intros H. unfold row_parse, field_count. cbn [fields schema_new]. assert (length vs = length fs) as E by (by rewrite <- (Forall2_length _ _ _ H); unfold types; rewrite length_map).
  rewrite length_map, E, Nat.eqb_refl. cbn [negb].
  by rewrite (values_roundtrip fs [] vs H : values_parse (schema_new fs) 0 _ = _).
Qed.

Lemma row_cells fs vs :
  Forall2 value_ok (types fs) vs ->
  Forall (fun s => lacks 124 s /\ lacks 10 s /\ utf8_valid s = true) (map value_to_string vs).
Proof. intros H. induction H; constructor; [by eapply value_text|done]. Qed.

(** A row whose line is read as a row: it is not blank, no comment, and trimming keeps it. *)
Definition line_ok (line : bytes) : Prop := trim line = line /\ exists c s, line = c :: s /\ c <> 35.

Definition row_ok (fs : list BpsvField) (vs : list BpsvValue) : Prop :=
  Forall2 value_ok (types fs) vs /\ line_ok (to_line (row_from_values vs)).

Lemma starts_with_hash c s p : c <> 35 -> Install.starts_with (c :: s) (35 :: p) = false.
Proof. intros Hc. apply bool_decide_eq_false. cbn [length take]. by intros [= ? _]. Qed.

Lemma read_row fs d vs lines :
  schema d = schema_new fs -> row_ok fs vs -> read_rows d (to_line (row_from_values vs) :: lines) = read_rows (push_row d (row_from_values vs)) lines.
Proof.
  intros Hd [Hvs (Ht & c & s & E & Hc)]. cbn [read_rows]. cbv zeta. rewrite Ht, E. cbn [length Nat.eqb].
  unfold SEQN. rewrite !starts_with_hash by done. rewrite <- E. unfold to_line, add_raw_row. cbn [raw_values row_from_values].
  assert (map value_to_string vs <> []) as Hne. { intros E0. unfold to_line in E. cbn [raw_values row_from_values] in E. by rewrite E0 in E. }
  rewrite join_joined, split_on_joined; [|done|]. { by rewrite Hd, row_roundtrip. }
  eapply Forall_impl; [by apply (row_cells fs)|]. by intros x [? _].
Qed.

Lemma read_rows_all fs d vss :
  schema d = schema_new fs -> Forall (row_ok fs) vss ->
  read_rows d (map (fun vs => to_line (row_from_values vs)) vss) = Ok {| schema := schema d; rows := rows d ++ map row_from_values vss; sequence_number := sequence_number d |}.
Proof.
  intros Hd H. revert d Hd. induction H as [|vs vss Hvs Hvss IH]; intros d Hd; [destruct d; cbn; by rewrite app_nil_r|]. cbn [map].
  rewrite (read_row fs) by done. rewrite IH by done. unfold push_row. cbn [schema rows sequence_number]. by rewrite <- app_assoc.
Qed.

(** ** The sequence number *)

Lemma read_sequence d n lines : u32 n -> read_rows d ((SEQN ++ EQUALS ++ show n) :: lines) = read_rows (set_sequence_number d n) lines.
Proof.
  unfold in_u. intros Hn. assert (trim (SEQN ++ EQUALS ++ show n) = SEQN ++ EQUALS ++ show n) as Ht.
  { unfold trim. rewrite (trim_start_printable 35 _ ltac:(lia) : trim_start (SEQN ++ EQUALS ++ show n) = _). destruct (show_end n ltac:(lia)) as (s & c & -> & Hc). change (35 :: _) with (SEQN ++ EQUALS ++ s ++ [c]). rewrite !app_assoc. apply trim_end_printable. lia. }
  cbn [read_rows]. cbv zeta. rewrite Ht. cbn [app SEQN length Nat.eqb]. assert (forall s, Install.starts_with (SEQN ++ s) SEQN = true) as Hs by (intros s; by apply bool_decide_eq_true).
  change (35 :: 35 :: 32 :: 115 :: 101 :: 113 :: 110 :: EQUALS ++ show n) with (SEQN ++ EQUALS ++ show n). rewrite Hs. unfold parse_sequence_line. rewrite Hs. cbn [negb].
  rewrite drop_app_length. change (EQUALS ++ show n) with (32 :: 61 :: 32 :: show n). rewrite trim_start_space, trim_start_printable by lia. cbn [length Nat.eqb after Z.eqb Pos.eqb].
  assert (trim (32 :: show n) = show n) as ->. { unfold trim. rewrite trim_start_space. apply trim_number. lia. }
  by rewrite parse_unsigned_show by lia.
Qed.

(** ** The header *)

Definition field_ok (f : BpsvField) : Prop :=
  lacks 33 (name f) /\ lacks 124 (name f) /\ lacks 10 (name f) /\ utf8_valid (name f) = true /\ in_u 64 (size_hint (field_type f)).

(** What the parser relies on of [str::to_uppercase]. *)
Definition upper_ok (to_uppercase : bytes -> bytes) : Prop := to_uppercase STRING = STRING /\ to_uppercase HEX = HEX /\ to_uppercase DEC = DEC.

Definition type_name (t : BpsvType) : bytes := match t with TString _ => STRING | THex _ => HEX | TDec _ => DEC end.

Lemma type_spec t : type_to_spec t = type_name t ++ 58 :: show (size_hint t).
Proof. by destruct t. Qed.

Lemma field_text f :
  field_ok f -> lacks 124 (field_to_spec f) /\ lacks 10 (field_to_spec f) /\ utf8_valid (field_to_spec f) = true /\
  exists s c, field_to_spec f = s ++ [c] /\ 33 <= c < 128.
Proof.
  intros (_ & H1 & H2 & H3 & Hn). unfold field_to_spec. rewrite type_spec. unfold in_u in Hn. pose proof (show_range (size_hint (field_type f)) ltac:(lia)) as Hs.
  assert (forall c, ~ 33 <= c <= 90 -> lacks c (33 :: type_name (field_type f) ++ 58 :: show (size_hint (field_type f)))) as Hl.
  { intros c Hc. apply (lacks_range 33 90); [|done]. constructor; [lia|]. apply Forall_app. split; [destruct (field_type f); repeat (constructor; [lia|]); constructor|].
    constructor; [lia|]. eapply Forall_impl; [exact Hs|]. cbn. lia. }
  split_and!; [apply lacks_app; [done|apply Hl; lia]..| |].
  - apply utf8_valid_app; [done|]. change (33 :: ?a) with ([33] ++ a). apply utf8_valid_app; [done|]. apply utf8_valid_app; [by destruct (field_type f)|].
    change (58 :: ?a) with ([58] ++ a). apply utf8_valid_app; [done|]. by eapply valid_range.
  - destruct (show_end (size_hint (field_type f)) ltac:(lia)) as (s & c & -> & Hc). exists (name f ++ 33 :: type_name (field_type f) ++ 58 :: s), c.
    split; [by rewrite <- !app_assoc; cbn [app]; rewrite <- !app_assoc|lia].
Qed.

Section Document.
Context (to_uppercase : bytes -> bytes) (Hupper : upper_ok to_uppercase).

Lemma field_roundtrip f : field_ok f -> field_parse to_uppercase (field_to_spec f) = Ok f.
Proof.
  intros (H1 & _ & _ & _ & Hn). unfold field_parse, field_to_spec. rewrite split_on_cut by done. rewrite type_spec. unfold in_u in Hn.
  pose proof (show_range (size_hint (field_type f)) ltac:(lia)) as Hs.
  rewrite split_on_lacks. 2:{ apply lacks_app; [destruct (field_type f); by repeat constructor|]. constructor; [done|]. eapply lacks_range; [exact Hs|lia]. }
  unfold type_parse. rewrite split_on_cut by (destruct (field_type f); by repeat constructor).
  rewrite split_on_lacks by (eapply lacks_range; [exact Hs|lia]). rewrite parse_unsigned_show by lia. cbv zeta. destruct Hupper as (E1 & E2 & E3).
  destruct f as [n [size|size|size]]; cbn [type_name field_type size_hint name]; rewrite ?E1, ?E2, ?E3; done.
Qed.

Lemma fields_roundtrip fs : Forall field_ok fs -> fields_parse to_uppercase (map field_to_spec fs) = Ok fs.
Proof. induction 1 as [|f fs Hf Hfs IH]; [done|]. cbn [map fields_parse]. rewrite field_roundtrip by done. cbn [mbind result_bind]. by rewrite IH. Qed.

Lemma header_text fs :
  fs <> [] -> Forall field_ok fs ->
  lacks 10 (to_header (schema_new fs)) /\ utf8_valid (to_header (schema_new fs)) = true /\ trim_end (to_header (schema_new fs)) = to_header (schema_new fs) /\
  Install.contains (to_header (schema_new fs)) [33] = true.
Proof.
  intros Hne Hfs. unfold to_header. cbn [fields schema_new]. split_and!.
  - apply join_lacks; [done|]. apply Forall_map. eapply Forall_impl; [exact Hfs|]. intros f Hf. by apply (field_text f Hf).
  - apply join_valid; [done|]. apply Forall_map. eapply Forall_impl; [exact Hfs|]. intros f Hf. by apply (field_text f Hf).
  - destruct (exists_last Hne) as (l & f & ->). rewrite map_app. cbn [map]. destruct (join_last 124 (map field_to_spec l) (field_to_spec f)) as [p ->].
    apply Forall_app in Hfs as [_ [Hf _]%Forall_cons]. destruct (field_text f Hf) as (_ & _ & _ & s & c & -> & Hc). rewrite app_assoc. by apply trim_end_printable.
  - destruct fs as [|f fs]; [done|]. assert (exists t, join 124 (map field_to_spec (f :: fs)) = name f ++ 33 :: t) as [t ->].
    { destruct fs as [|g fs]; [eexists; reflexivity|]. eexists. change (join 124 (map field_to_spec (f :: g :: fs))) with (field_to_spec f ++ 124 :: join 124 (map field_to_spec (g :: fs))).
      unfold field_to_spec at 1. rewrite <- app_assoc. reflexivity. }
    induction (name f) as [|x s IH]; [done|]. cbn [app Install.contains]. by rewrite IH, orb_true_r.
Qed.

Lemma schema_roundtrip fs : fs <> [] -> Forall field_ok fs -> schema_parse to_uppercase (to_header (schema_new fs)) = Ok (schema_new fs).
Proof.
  intros Hne Hfs. destruct (header_text fs Hne Hfs) as (_ & _ & _ & Hh). unfold schema_parse. rewrite (proj2 (Nat.eqb_neq _ 0)) by (by destruct (to_header _)).
  unfold to_header. cbn [fields schema_new]. rewrite join_joined, split_on_joined; [|by destruct fs|].
  - cbv zeta. rewrite length_map, (proj2 (Nat.eqb_neq _ 0)) by (by destruct fs). by rewrite fields_roundtrip.
  - apply Forall_map. eapply Forall_impl; [exact Hfs|]. intros f Hf. by apply (field_text f Hf).
Qed.

(** ** Documents *)

Record builder_ok (b : BpsvBuilder) : Prop := {
  b_has_fields : b_fields b <> [];
  b_fields_ok : Forall field_ok (b_fields b);
  b_rows_ok : Forall (row_ok (b_fields b)) (b_rows b);
  b_sequence_ok : match b_sequence b with Some n => u32 n | None => True end
}.

(** The document of a builder. *)
Definition document_of (b : BpsvBuilder) : BpsvDocument :=
  {| schema := schema_new (b_fields b); rows := map row_from_values (b_rows b); sequence_number := b_sequence b |}.

Lemma build_rows_spec fs d vss :
  schema d = schema_new fs -> Forall (fun vs => length vs = length fs) vss ->
  build_rows d vss = Ret {| schema := schema d; rows := rows d ++ map row_from_values vss; sequence_number := sequence_number d |}.
Proof.
  intros Hd H. revert d Hd. induction H as [|vs vss Hvs Hvss IH]; intros d Hd; [destruct d; cbn; by rewrite app_nil_r|]. cbn [build_rows]. unfold add_row, row_len, field_count.
  rewrite Hd. cbn [values row_from_values fields schema_new]. rewrite Hvs, Nat.eqb_refl. cbn [negb]. rewrite IH by done. cbn [push_row rows schema sequence_number map].
  by rewrite <- app_assoc, Hd.
Qed.

Lemma bpsv_build_spec b : Forall (fun vs => length vs = length (b_fields b)) (b_rows b) -> builder_build b = Ret (document_of b).
Proof. intros H. unfold builder_build. rewrite (build_rows_spec (b_fields b)); [|by destruct (b_sequence b)|done]. by destruct b as [fs rs [n|]]. Qed.

Definition sequence_line (s : option Z) : list bytes := match s with Some n => [SEQN ++ EQUALS ++ show n] | None => [] end.

Lemma format_lines d : format d = concat (map (fun l => l ++ [10]) (to_header (schema d) :: sequence_line (sequence_number d) ++ map to_line (rows d))).
Proof.
  unfold format. cbn [map concat]. rewrite <- app_assoc. do 2 f_equal. rewrite map_app, concat_app, map_map. f_equal. destruct (sequence_number d); [|done].
  cbn [sequence_line map concat]. by rewrite app_nil_r, <- !app_assoc.
Qed.

Lemma lines_text b :
  builder_ok b ->
  Forall (fun l => lacks 10 l /\ utf8_valid l = true /\ trim_end l = l)
    (to_header (schema_new (b_fields b)) :: sequence_line (b_sequence b) ++ map to_line (map row_from_values (b_rows b))).
Proof.
  intros [Hne Hfs Hrs Hseq]. constructor; [by destruct (header_text _ Hne Hfs) as (? & ? & ? & _)|]. apply Forall_app. split.
  - destruct (b_sequence b) as [n|]; [|constructor]. constructor; [|constructor]. unfold in_u in Hseq. pose proof (show_range n ltac:(lia)) as Hn.
    split_and!; [apply lacks_app; [by repeat constructor|]; apply lacks_app; [by repeat constructor|]; eapply lacks_range; [done|lia]
      |apply utf8_valid_app; [done|]; apply utf8_valid_app; [done|by eapply valid_range]|].
    destruct (show_end n ltac:(lia)) as (s & c & -> & Hc). rewrite !app_assoc. apply trim_end_printable. lia.
  - rewrite map_map. apply Forall_map. eapply Forall_impl; [exact Hrs|]. intros vs [Hvs [Ht _]]. pose proof (row_cells _ _ Hvs) as Hc.
    split_and!; [apply join_lacks; [done|]|apply join_valid; [done|]|by apply trimmed_end]; (eapply Forall_impl; [exact Hc|]; by intros x (_ & ? & ?)).
Qed.

Lemma trim_end_lines lines : Forall (fun l => lacks 10 l /\ utf8_valid l = true /\ trim_end l = l) lines -> map trim_end lines = lines /\ forallb utf8_valid lines = true.
Proof. induction 1 as [|l lines (_ & Hu & Ht) H [IH1 IH2]]; [done|]. cbn [map forallb]. by rewrite Ht, IH1, Hu, IH2. Qed.

Lemma document_roundtrip b : builder_ok b -> parse to_uppercase (format (document_of b)) = Ok (document_of b).
Proof.
  intros Hb. pose proof (lines_text b Hb) as Hl. destruct (trim_end_lines _ Hl) as [Et Eu]. destruct Hb as [Hne Hfs Hrs Hseq].
  unfold parse, read_document. rewrite format_lines. cbn [schema rows sequence_number document_of].
  rewrite read_lines_concat by (eapply Forall_impl; [exact Hl|]; by intros l [? _]). cbv zeta. rewrite Et, Eu. cbn [negb].
  destruct (header_text _ Hne Hfs) as (_ & _ & _ & ->). cbn [negb]. rewrite schema_roundtrip by done. cbn [mbind result_bind]. rewrite map_map.
  unfold sequence_line. destruct (b_sequence b) as [n|] eqn:En; cbn [app]; [rewrite read_sequence by done|]; rewrite (read_rows_all (b_fields b)) by done;
    cbn [document_new set_sequence_number schema rows sequence_number app]; unfold document_of; by rewrite En.
Qed.

End Document.

(** C23: A builder whose fields have names without separators and whose rows fit the fields,
    with lines the reader takes as rows, builds a document without panicking; the document
    holds exactly the fields, the values and the sequence number given, and its text, in
    valid UTF-8, is read back as the same document, cell texts and typed values alike. *)
Theorem bpsv_roundtrip to_uppercase b :
  upper_ok to_uppercase -> builder_ok b ->
  exists d, builder_build b = Ret d /\ fields (schema d) = b_fields b /\ map values (rows d) = b_rows b /\ sequence_number d = b_sequence b /\
            casc_parse to_uppercase (casc_build d) = inl (Ok d).
Proof.
  intros Hu Hb. exists (document_of b). split_and!; [|done| |done|].
  - apply bpsv_build_spec. eapply Forall_impl; [apply Hb|]. intros vs [Hvs%Forall2_length _]. by rewrite <- Hvs; unfold types; rewrite length_map.
  - cbn [rows document_of]. rewrite map_map. apply map_id.
  - unfold casc_parse, casc_build. rewrite document_roundtrip by done. rewrite format_lines. cbn [schema sequence_number rows document_of].
    pose proof (lines_text b Hb) as Hl. assert (forall lines, Forall (fun l => lacks 10 l /\ utf8_valid l = true /\ trim_end l = l) lines ->
      utf8_valid (concat (map (fun l => l ++ [10]) lines)) = true) as ->; [|done|done].
    clear. induction 1 as [|l lines (_ & Hv & _) H IH]; [done|]. cbn [map concat]. apply utf8_valid_app; [by apply utf8_valid_app|done].
Qed.

(** Two fields, three rows, a sequence number. *)
Definition sample_builder : BpsvBuilder :=
  {| b_fields := [{| name := [82]; field_type := TString 0 |}; {| name := [72]; field_type := THex 2 |}; {| name := [73]; field_type := TDec 4 |}];
     b_rows := [[VString [117; 115]; VHex [171; 205]; VDec (-17)]; [VString [0xC3; 0xA9]; VEmpty; VDec 0]; [VEmpty; VHex [0]; VEmpty]];
     b_sequence := Some 4294967295 |}.

Definition ascii_upper (s : bytes) : bytes := map (fun c => if in_rng 97 122 c then c - 32 else c) s.

Lemma bpsv_roundtrip_witness :
  exists d, builder_build sample_builder = Ret d /\ fields (schema d) = b_fields sample_builder /\ map values (rows d) = b_rows sample_builder /\
            sequence_number d = Some 4294967295 /\ casc_parse ascii_upper (casc_build d) = inl (Ok d).
Proof.
  apply (bpsv_roundtrip ascii_upper sample_builder); [done|]. constructor; [done| | |vm_compute; done].
  - repeat constructor; vm_compute; try done; intros [=].
  - repeat constructor; try (vm_compute; done); try (eexists _, _; split; [vm_compute; reflexivity|done]); vm_compute; try done; intros [=].
Defined.

(** ** What the text loses *)

Definition one_column (vss : list (list BpsvValue)) : BpsvBuilder :=
  {| b_fields := [{| name := [82]; field_type := TString 0 |}]; b_rows := vss; b_sequence := None |}.

Definition reread (b : BpsvBuilder) : bresult (list (list BpsvValue)) :=
  match builder_build b with Ret d => d ← parse ascii_upper (format d); Ok (map values (rows d)) | Panic => Err EmptyDocument end.

(** A row that starts with ['#'] is read as a comment, and a row of one empty value as a
    blank line: both are lost.  White space around a line is lost. *)
Theorem rows_are_lost :
  reread (one_column [[VString [35; 49]]; [VEmpty]; [VString [97]]]) = Ok [[VString [97]]] /\
  reread (one_column [[VString [32; 97; 32]]]) = Ok [[VString [97]]].
Proof. vm_compute. done. Qed.

(** A separator in a value is not quoted: the line is read as more cells, or more lines. *)
Theorem separators_are_not_quoted :
  reread (one_column [[VString [97; 124; 98]]]) = Err (FieldCountMismatch 1 2) /\
  reread (one_column [[VString [97; 10; 98]]]) = Ok [[VString [97]]; [VString [98]]].
Proof. vm_compute. done. Qed.

(** [add_row] checks a row against the fields added so far: a field added later makes
    [build] panic. *)
Theorem late_field_panics f g v :
  exists b, builder_add_row (add_field builder_new f) [v] = Ok b /\ builder_build (add_field b g) = Panic.
Proof. eexists. split; reflexivity. Qed.

(** Two fields of one name: the name finds the last one. *)
Theorem duplicate_names_find_the_last f t :
  get_field_index (schema_new [f; {| name := name f; field_type := t |}]) (name f) = Some 1%nat.
Proof. unfold get_field_index. cbn [schema_new field_map imap fold_left name fst snd]. apply lookup_insert_eq. Qed.

(** [parse_schema] skips blank and comment lines in front of the header, [parse] does
    not: it refuses the text whose schema [parse_schema] reads. *)
Theorem leading_comment_is_refused :
  let text := [35; 32; 120; 10] ++ to_header (schema_new (b_fields sample_builder)) ++ [10] in
  parse_schema ascii_upper text = Ok (schema_new (b_fields sample_builder)) /\ parse ascii_upper text = Err (InvalidHeader "Header must contain field type specifications").
Proof. vm_compute. done. Qed.
