(* ===== verification/BuildInfo.v ===== *)
(** * The file .build.info

    What is installed (src/crates/cascette-client-storage/src/build_info.rs): a BPSV
    document with one row per build, the accessors of its known columns, and the active
    build.  A file written as a BPSV document is read with the values it was written
    with. *)

From S2P Require Import Prelude Bytes Text Utf8 Install InstallTheorems Lines Bpsv BpsvTheorems.
Local Open Scope Z_scope.

Module BuildInfo.
Import Bpsv.

(** [StorageError::InvalidFormat] around the error of the document. *)
Inductive StorageError := InvalidFormat (e : BpsvError).

(** A row with the schema it is read by. *)
Record BuildInfoEntry := { row : BpsvRow; entry_schema : BpsvSchema }.

Definition parse_str (to_uppercase : bytes -> bytes) (content : bytes) : result StorageError BpsvDocument :=
  match parse to_uppercase content with Ok d => Ok d | Err e => Err (InvalidFormat e) end.

Definition get_raw (e : BuildInfoEntry) (n : bytes) : option bytes := get_raw_by_name (row e) n (entry_schema e).

Definition branch (e : BuildInfoEntry) : option bytes := get_raw e (text "Branch").
Definition is_active (e : BuildInfoEntry) : bool := match get_raw e (text "Active") with Some v => bool_decide (v = text "1") | None => false end.
Definition build_key (e : BuildInfoEntry) : option bytes := get_raw e (text "Build Key").
Definition cdn_key (e : BuildInfoEntry) : option bytes := get_raw e (text "CDN Key").
Definition install_key (e : BuildInfoEntry) : option bytes := get_raw e (text "Install Key").
Definition install_size (e : BuildInfoEntry) : option Z := s ← get_raw e (text "IM Size"); parse_unsigned (2 ^ 64 - 1) s.
Definition cdn_path (e : BuildInfoEntry) : option bytes := get_raw e (text "CDN Path").
Definition cdn_hosts (e : BuildInfoEntry) : list bytes := match get_raw e (text "CDN Hosts") with Some s => split_whitespace s | None => [] end.
Definition cdn_servers (e : BuildInfoEntry) : list bytes := match get_raw e (text "CDN Servers") with Some s => split_whitespace s | None => [] end.
Definition tags (e : BuildInfoEntry) : option bytes := get_raw e (text "Tags").
Definition armadillo (e : BuildInfoEntry) : option bytes := get_raw e (text "Armadillo").
Definition last_activated (e : BuildInfoEntry) : option bytes := get_raw e (text "Last Activated").
Definition version (e : BuildInfoEntry) : option bytes := get_raw e (text "Version").
Definition product (e : BuildInfoEntry) : option bytes := get_raw e (text "Product").

Definition entry_count (d : BpsvDocument) : nat := row_count d.
Definition entries (d : BpsvDocument) : list BuildInfoEntry := map (fun r => {| row := r; entry_schema := schema d |}) (rows d).
Definition has_column (d : BpsvDocument) (n : bytes) : bool := has_field (schema d) n.

Fixpoint find_active (s : BpsvSchema) (rs : list BpsvRow) : option BuildInfoEntry :=
  match rs with
  | [] => None
  | r :: rs =>
      match get_raw_by_name r (text "Active") s with
      | Some active => if bool_decide (active = text "1") then Some {| row := r; entry_schema := s |} else find_active s rs
      | None => find_active s rs
      end
  end.

Definition active_entry (d : BpsvDocument) : option BuildInfoEntry := find_active (schema d) (rows d).

End BuildInfo.

Import Bpsv BuildInfo.

(** The active entry is the first that [is_active] accepts. *)
Theorem active_entry_is_first d : active_entry d = head (filter (fun e => is_active e = true) (entries d)).
Proof.
  unfold active_entry, entries. induction (rows d) as [|r rs IH]; [done|]. cbn [find_active map]. rewrite filter_cons.
  assert (is_active {| row := r; entry_schema := schema d |} = match get_raw_by_name r (text "Active") (schema d) with Some v => bool_decide (v = text "1") | None => false end) as Ea by done.
  destruct (get_raw_by_name r (text "Active") (schema d)) as [v|]; [case_bool_decide|].
  - by rewrite decide_True.
  - rewrite decide_False by (by rewrite Ea). apply IH.
  - rewrite decide_False by (by rewrite Ea). apply IH.
Qed.

(** The position of a column. *)
Lemma schema_index fs i f : fs !! i = Some f -> (forall j g, fs !! j = Some g -> name g = name f -> j = i) -> get_field_index (schema_new fs) (name f) = Some i.
Proof.
  intros Hi Hu. unfold get_field_index. cbn [schema_new field_map].
  assert (forall off l (m : gmap bytes nat), (forall j g, l !! j = Some g -> name g = name f -> (off + j)%nat = i) ->
    ((exists j g, l !! j = Some g /\ name g = name f) \/ m !! name f = Some i) ->
    fold_left (fun m (p : nat * BpsvField) => <[name p.2 := p.1]> m) (imap (fun j g => ((off + j)%nat, g)) l) m !! name f = Some i) as H.
  { intros off l. revert off. induction l as [|g l IH]; intros off m H Hex; [destruct Hex as [(j & g & ? & _)|?]; done|].
    cbn [imap fold_left fst snd]. rewrite (imap_ext _ (fun j h => ((S off + j)%nat, h))) by (intros; cbn; f_equal; lia).
    apply IH; [intros j h Hj Hnm; rewrite <- (H (S j) h Hj Hnm); lia|].
    destruct (decide (name g = name f)) as [Hg|Hg]; [right; rewrite <- (H 0%nat g eq_refl Hg), Hg; apply lookup_insert_eq|].
    rewrite lookup_insert_ne by done. destruct Hex as [([|j] & h & Hj & Hnm)|?]; [by injection Hj as ->|left; by exists j, h|by right]. }
  apply (H 0%nat fs ∅); [intros j g Hj Hnm; by apply (Hu j g)|]. left. by exists i, f.
Qed.

(** What was written in a column is what the file read back has in it: the text of the
    value, in every row, under the name of the column. *)
Theorem build_info_columns to_uppercase b i f vs r v :
  upper_ok to_uppercase -> builder_ok b -> b_fields b !! i = Some f ->
  (forall j g, b_fields b !! j = Some g -> name g = name f -> j = i) ->
  b_rows b !! r = Some vs -> vs !! i = Some v ->
  exists d e, builder_build b = Ret d /\ parse_str to_uppercase (format d) = Ok d /\ entries d !! r = Some e /\ get_raw e (name f) = Some (value_to_string v).
Proof.
  intros Hu Hb Hf Hn Hr Hv. exists (document_of b). eexists. split_and!.
  - apply bpsv_build_spec. eapply Forall_impl; [apply Hb|]. intros x [Hx%Forall2_length _]. by rewrite <- Hx; unfold types; rewrite length_map.
  - unfold parse_str. by rewrite document_roundtrip.
  - unfold entries. cbn [rows schema document_of]. change map with (@fmap list list_fmap) at 1. rewrite !list_lookup_fmap, Hr. reflexivity.
  - unfold get_raw, get_raw_by_name. cbn [entry_schema row schema document_of]. rewrite (schema_index _ i f) by done. cbn [mbind option_bind raw_values row_from_values].
    change (map value_to_string vs) with (value_to_string <$> vs). by rewrite list_lookup_fmap, Hv.
Qed.
