(* ===== verification/Config.v ===== *)
(** * Configuration files

    The key-value files that lead to the content
    (src/crates/cascette-formats/src/config): build, CDN, patch and keyring
    configuration, with their readers, writers, queries and validation.  A hash map is a
    finite map; where the code walks one, the order is a parameter.  Which characters
    outside of ASCII are alphanumeric is a parameter. *)

From S2P Require Import Prelude Bytes Text Utf8 Collections Install InstallTheorems Lines.
Local Open Scope Z_scope.

Module Config.

(** ** Lines *)

(** [str::chars], each character as its bytes. *)
Fixpoint chars (fuel : nat) (s : bytes) : list bytes :=
  match fuel, s with
  | S fuel, a :: l => let n := (utf8_step a l).2 in take n s :: chars fuel (drop n s)
  | _, _ => []
  end.

Definition is_valid_md5_hex (hash : bytes) : bool := (length hash =? 32)%nat && forallb is_hexdigit hash.

(** The key-value pairs of a file, and of one that maps keys to word lists. *)
Abbreviation config_map := (gmap bytes (list bytes)).

Definition first_of (m : config_map) (k : bytes) : option bytes := v ← m !! k; head v.
Definition u64_of (s : bytes) : option Z := parse_unsigned (2 ^ 64 - 1) s.
Definition sizes_of (m : config_map) (k : bytes) : list Z := match m !! k with Some v => omap u64_of v | None => [] end.

(** [HashMap::keys] without the keys of [order], sorted. *)
Definition remaining {A} (order : list bytes) (m : gmap bytes A) : list bytes :=
  sort_by_key (fun k => k) (filter (fun k => k ∉ order) (map fst (map_to_list m))).

(** The keys in the order they are written. *)
Definition written_keys {A} (order : list bytes) (m : gmap bytes A) : list bytes := order ++ remaining order m.

Definition write_entry (k v : bytes) : bytes := k ++ text " = " ++ v ++ [10].

Definition write_entries {A} (show_value : A -> bytes) (order : list bytes) (m : gmap bytes A) : bytes :=
  concat (map (fun k => match m !! k with Some v => write_entry k (show_value v) | None => [] end) (written_keys order m)).

Section Parse.
Context (wide_alphanumeric : bytes -> bool).

Definition key_char (c : bytes) : bool :=
  match c with
  | [b] => is_alnum b || (b =? 45) || (b =? 95)
  | _ => wide_alphanumeric c
  end.

Definition is_valid_key (key : bytes) : bool := forallb key_char (chars (length key) key).

Definition parse_line (line : bytes) : option (bytes * bytes) :=
  '(key, value) ← split_once (text " = ") line;
  let key := trim key in
  let value := trim value in
  if is_valid_key key then Some (key, value) else None.

(** The lines of a reader, trimmed, without blank lines and comments; a line that is not
    UTF-8 is an input error. *)
Fixpoint config_lines (lines : list bytes) : option (list bytes) :=
  match lines with
  | [] => Some []
  | line :: lines =>
      if negb (utf8_valid line) then None
      else
        let line := trim line in
        rest ← config_lines lines;
        Some (if (length line =? 0)%nat || Install.starts_with line [35] then rest else line :: rest)
  end.

(** ** Build configuration *)

(** One line: a later line of the same key replaces the earlier. *)
Definition build_line (m : config_map) (line : bytes) : config_map :=
  match parse_line line with Some (key, value) => <[key := split_whitespace value]> m | None => m end.

Definition build_parse (content : bytes) : option config_map := lines ← config_lines (read_lines content); Some (fold_left build_line lines ∅).

(** ** CDN configuration *)

(** One line: a later line of the same key extends the earlier. *)
Definition cdn_line (m : config_map) (line : bytes) : config_map :=
  match parse_line line with Some (key, value) => <[key := default [] (m !! key) ++ split_whitespace value]> m | None => m end.

Definition cdn_parse (content : bytes) : option config_map := lines ← config_lines (read_lines content); Some (fold_left cdn_line lines ∅).

(** ** Keyring configuration *)

Record KeyringEntry := { key_id : bytes; key_value : bytes }.

Definition to_ascii_lowercase (s : bytes) : bytes := map (fun c => if in_rng 65 90 c then c + 32 else c) s.

Definition KEY_PREFIX : bytes := text "key-".

Definition keyring_add_entry (ks : list KeyringEntry) (id value : bytes) : list KeyringEntry :=
  ks ++ [{| key_id := to_ascii_lowercase id; key_value := to_ascii_lowercase value |}].

Definition keyring_line (ks : list KeyringEntry) (line : bytes) : list KeyringEntry :=
  match parse_line line with
  | Some (key, value) => if Install.starts_with key KEY_PREFIX then keyring_add_entry ks (drop (length KEY_PREFIX) key) value else ks
  | None => ks
  end.

Definition keyring_parse (content : bytes) : option (list KeyringEntry) := lines ← config_lines (read_lines content); Some (fold_left keyring_line lines []).

(** ** Patch configuration *)

Record PatchRecord := { original_ekey : bytes; original_size : Z; patch_key : bytes; patch_size : Z }.

Record PatchEntry := {
  entry_type : bytes; pe_content_key : bytes; content_size : Z; pe_encoding_key : bytes; encoded_size : Z; espec : bytes; patch_records : list PatchRecord
}.

Record PatchConfig := { properties : gmap bytes bytes; pc_entries : list PatchEntry }.

Inductive PatchConfigError : Type :=
| IoError
| InvalidPatchEntry (why : string)
| InvalidSize (s : bytes)
| InvalidHash (s : bytes)
| MissingPatch
| MissingPatchSize
| EmptyEntryType.

Notation presult := (result PatchConfigError).

Definition parse_size (s : bytes) : presult Z := match u64_of s with Some n => Ok n | None => Err (InvalidSize s) end.
Definition check_hash (s : bytes) : presult unit := if is_valid_md5_hex s then Ok tt else Err (InvalidHash s).

(** Groups of four; that there are no other is checked before. *)
Fixpoint parse_records (parts : list bytes) : presult (list PatchRecord) :=
  match parts with
  | ekey :: size :: key :: psize :: parts =>
      _ ← check_hash ekey;
      osize ← parse_size size;
      _ ← check_hash key;
      psize ← parse_size psize;
      rs ← parse_records parts;
      Ok ({| original_ekey := ekey; original_size := osize; patch_key := key; patch_size := psize |} :: rs)
  | _ => Ok []
  end.

Definition parse_patch_entry (line : bytes) : presult PatchEntry :=
  match split_whitespace line with
  | keyword :: eq :: ty :: ckey :: csize :: ekey :: rest =>
      if bool_decide (keyword <> text "patch-entry" \/ eq <> text "=") then Err (InvalidPatchEntry "Invalid patch-entry format")
      else
        csize ← parse_size csize;
        _ ← check_hash ckey;
        _ ← check_hash ekey;
        '(esize, spec, records) ←
          match rest with
          | [] => Ok (csize, [], [])
          | [esize] => esize ← parse_size esize; Ok (esize, [], [])
          | esize :: spec :: records => esize ← parse_size esize; Ok (esize, spec, records)
          end;
        if negb (length records mod 4 =? 0)%nat then Err (InvalidPatchEntry "Patch records must be groups of 4 fields")
        else
          rs ← parse_records records;
          Ok {| entry_type := ty; pe_content_key := ckey; content_size := csize; pe_encoding_key := ekey; encoded_size := esize; espec := spec; patch_records := rs |}
  | _ => Err (InvalidPatchEntry "Expected at least 6 parts")
  end.

Definition parse_key_value (line : bytes) : option (bytes * bytes) := parse_line line.

(** The loop over the lines stops at the first that fails. *)
Fixpoint patch_lines (c : PatchConfig) (lines : list bytes) : presult PatchConfig :=
  match lines with
  | [] => Ok c
  | line :: lines =>
      if negb (utf8_valid line) then Err IoError
      else
        let line := trim line in
        if (length line =? 0)%nat || Install.starts_with line [35] then patch_lines c lines
        else if Install.starts_with line (text "patch-entry") then
          e ← parse_patch_entry line;
          patch_lines {| properties := properties c; pc_entries := pc_entries c ++ [e] |} lines
        else
          patch_lines
            (match parse_key_value line with
             | Some (key, value) => {| properties := <[key := value]> (properties c); pc_entries := pc_entries c |}
             | None => c
             end) lines
  end.

Definition patch_new : PatchConfig := {| properties := ∅; pc_entries := [] |}.
Definition patch_parse (content : bytes) : presult PatchConfig := patch_lines patch_new (read_lines content).

End Parse.

(** ** Build configuration: writer and queries *)

Definition build_order : list bytes :=
  map text
    ["root"; "install"; "install-size"; "install-high-ver"; "install-high-ver-size"; "download"; "download-size"; "size"; "size-size"; "encoding"; "encoding-size";
     "patch"; "patch-size"; "patch-config"; "patch-index"; "patch-index-size"; "build-name"; "build-uid"; "build-product"; "build-file-db"; "build-file-db-size";
     "build-partial-priority"; "build-playtime-url"; "build-product-espec"; "client-version"; "feature-placeholder"; "feature-use-hardlinks"; "no-frame-encoding";
     "key-layout-index-bits"; "vfs-root"; "vfs-root-size"; "vfs-root-espec"]%string.

Definition build_build (m : config_map) : bytes :=
  text "# Build Configuration" ++ [10; 10] ++ write_entries (join 32) build_order m ++ [10; 10].

Record BuildInfo := { content_key : bytes; encoding_key : option bytes; size : option Z }.

(** The file of a key with its size, the word [i] of the size key. *)
Definition file_info (m : config_map) (key size_key : bytes) (i : nat) : option BuildInfo :=
  values ← m !! key;
  ckey ← head values;
  Some {| content_key := ckey; encoding_key := values !! 1%nat; size := v ← m !! size_key; s ← v !! i; u64_of s |}.

(** [chunks(2)], numbered. *)
Fixpoint pair_infos (sizes : list Z) (i : nat) (values : list bytes) : list BuildInfo :=
  match values with
  | [] => []
  | [ckey] => [{| content_key := ckey; encoding_key := None; size := sizes !! i |}]
  | ckey :: ekey :: values => {| content_key := ckey; encoding_key := Some ekey; size := sizes !! i |} :: pair_infos sizes (S i) values
  end.

Definition file_infos (m : config_map) (key size_key : bytes) : list BuildInfo := pair_infos (sizes_of m size_key) 0 (default [] (m !! key)).

Definition root (m : config_map) : option bytes := first_of m (text "root").
Definition encoding (m : config_map) : option BuildInfo := file_info m (text "encoding") (text "encoding-size") 1.
Definition get_encoding_key (m : config_map) : option bytes := v ← m !! text "encoding"; v !! 1%nat.
Definition install (m : config_map) : list BuildInfo := file_infos m (text "install") (text "install-size").
Definition download (m : config_map) : list BuildInfo := file_infos m (text "download") (text "download-size").
Definition patch (m : config_map) : option BuildInfo := file_info m (text "patch") (text "patch-size") 0.
Definition patch_config (m : config_map) : option bytes := first_of m (text "patch-config").
Definition patch_index (m : config_map) : list BuildInfo := file_infos m (text "patch-index") (text "patch-index-size").
Definition build_name (m : config_map) : option bytes := first_of m (text "build-name").
Definition build_uid (m : config_map) : option bytes := first_of m (text "build-uid").
Definition build_product (m : config_map) : option bytes := first_of m (text "build-product").
Definition size_file (m : config_map) : option BuildInfo := file_info m (text "size") (text "size-size") 1.
Definition vfs_root (m : config_map) : option BuildInfo := file_info m (text "vfs-root") (text "vfs-root-size") 1.
Definition vfs_root_espec (m : config_map) : option bytes := first_of m (text "vfs-root-espec").
Definition vfs_espec (m : config_map) (index : Z) : option bytes := first_of m (text "vfs-" ++ show index ++ text "-espec").
Definition build_playtime_url (m : config_map) : option bytes := first_of m (text "build-playtime-url").
Definition build_product_espec (m : config_map) : option bytes := first_of m (text "build-product-espec").
Definition build_file_db (m : config_map) : option BuildInfo := file_info m (text "build-file-db") (text "build-file-db-size") 1.
Definition client_version (m : config_map) : option bytes := first_of m (text "client-version").
Definition install_high_ver (m : config_map) : option BuildInfo := file_info m (text "install-high-ver") (text "install-high-ver-size") 1.
Definition key_layout_index_bits (m : config_map) : option Z := s ← first_of m (text "key-layout-index-bits"); parse_unsigned (2 ^ 32 - 1) s.

Definition flag (m : config_map) (k : bytes) : bool :=
  match first_of m k with Some v => bool_decide (v = text "true") || bool_decide (v = text "1") | None => false end.

Definition feature_use_hardlinks (m : config_map) : bool := flag m (text "feature-use-hardlinks").
Definition feature_placeholder (m : config_map) : bool := flag m (text "feature-placeholder").
Definition no_frame_encoding (m : config_map) : bool := flag m (text "no-frame-encoding").

(** [loop] over the numbers from [index]: [found] is the body, which stops at [None].
    The fuel is more than the keys there are. *)
Fixpoint numbered {A} (found : Z -> option A) (fuel : nat) (index : Z) : list (Z * A) :=
  match fuel with
  | O => []
  | S fuel => match found index with Some x => (index, x) :: numbered found fuel (wrap32 (index + 1)) | None => [] end
  end.

Definition chunk_entries (m : config_map) : list (Z * list bytes) := numbered (fun i => m !! (text "chunk-" ++ show i)) (S (base.size m)) 0.
Definition key_layout_entries (m : config_map) : list (Z * list bytes) := numbered (fun i => m !! (text "key-layout-" ++ show i)) (S (base.size m)) 0.

Definition vfs_entries (m : config_map) : list (Z * BuildInfo) :=
  numbered (fun i => file_info m (text "vfs-" ++ show i) (text "vfs-" ++ show i ++ text "-size") 1) (S (base.size m)) 1.

Record PartialPriority := { pp_key : bytes; priority : Z }.

Definition partial_priority (entry : bytes) : option PartialPriority :=
  i ← Install.rfind (fun c => c =? 58) entry;
  n ← parse_unsigned (2 ^ 32 - 1) (drop (i + 1) entry);
  Some {| pp_key := take i entry; priority := n |}.

Definition build_partial_priority (m : config_map) : list PartialPriority :=
  match m !! text "build-partial-priority" with None => [] | Some values => omap partial_priority values end.

Inductive BuildError := MissingRoot | MissingEncoding | InvalidEncoding | InvalidBuildHash (s : bytes).

Fixpoint first_invalid (ok : bytes -> bool) (values : list bytes) : option bytes :=
  match values with [] => None | v :: values => if ok v then first_invalid ok values else Some v end.

Definition not_a_hash_field (key : bytes) : bool :=
  Install.starts_with key (text "build-") || Install.starts_with key (text "feature-") || Install.starts_with key (text "key-layout") ||
  Install.starts_with key (text "chunk-") || Install.ends_with key (text "-size") || Install.ends_with key (text "-espec") ||
  bool_decide (key = text "client-version") || bool_decide (key = text "no-frame-encoding").

Fixpoint check_fields (fields : list (bytes * list bytes)) : result BuildError unit :=
  match fields with
  | [] => Ok tt
  | (key, values) :: fields =>
      if not_a_hash_field key then check_fields fields
      else
        match first_invalid (fun v => forallb is_digit v || is_valid_md5_hex v) values with
        | Some v => Err (InvalidBuildHash v)
        | None => check_fields fields
        end
  end.

(** [order] is the order in which the hash map is walked. *)
Definition build_validate (order : list (bytes * list bytes) -> list (bytes * list bytes)) (m : config_map) : result BuildError unit :=
  match m !! text "root" with
  | None => Err MissingRoot
  | Some _ =>
      match m !! text "encoding" with
      | None => Err MissingEncoding
      | Some encoding =>
          if (length encoding <? 2)%nat then Err InvalidEncoding
          else match first_invalid is_valid_md5_hex encoding with Some v => Err (InvalidBuildHash v) | None => check_fields (order (map_to_list m)) end
      end
  end.

Definition config_get (m : config_map) (key : bytes) : option (list bytes) := m !! key.
Definition config_set (m : config_map) (key : bytes) (values : list bytes) : config_map := <[key := values]> m.

(** ** CDN configuration: writer and queries *)

Definition cdn_order : list bytes :=
  map text
    ["archives"; "archives-index-size"; "archive-group"; "archive-group-index-size"; "patch-archives"; "patch-archives-index-size"; "patch-archive-group";
     "patch-archive-group-index-size"; "file-index"; "file-index-size"; "patch-file-index"; "patch-file-index-size"]%string.

Definition cdn_build (m : config_map) : bytes := write_entries (join 32) cdn_order m.

Record ArchiveInfo := { ai_content_key : bytes; index_size : option Z }.

Definition archive_infos (m : config_map) (key size_key : bytes) : list ArchiveInfo :=
  imap (fun i ckey => {| ai_content_key := ckey; index_size := sizes_of m size_key !! i |}) (default [] (m !! key)).

Definition first_size (m : config_map) (key : bytes) : option Z := s ← first_of m key; u64_of s.

Definition archives (m : config_map) : list ArchiveInfo := archive_infos m (text "archives") (text "archives-index-size").
Definition archive_group (m : config_map) : option bytes := first_of m (text "archive-group").
Definition archive_group_index_size (m : config_map) : option Z := first_size m (text "archive-group-index-size").
Definition patch_archive_group (m : config_map) : option bytes := first_of m (text "patch-archive-group").
Definition patch_archive_group_index_size (m : config_map) : option Z := first_size m (text "patch-archive-group-index-size").
Definition has_patch_archives (m : config_map) : bool := bool_decide (is_Some (m !! text "patch-archives")).
Definition patch_archives (m : config_map) : list ArchiveInfo := archive_infos m (text "patch-archives") (text "patch-archives-index-size").
Definition file_index (m : config_map) : option bytes := first_of m (text "file-index").
Definition file_indices (m : config_map) : list ArchiveInfo := archive_infos m (text "file-index") (text "file-index-size").
Definition archive_count (m : config_map) : nat := match m !! text "archives" with Some v => length v | None => 0 end.
Definition has_file_indices (m : config_map) : bool := bool_decide (is_Some (m !! text "file-index")).
Definition patch_file_index (m : config_map) : option bytes := first_of m (text "patch-file-index").
Definition patch_file_index_size (m : config_map) : option Z := first_size m (text "patch-file-index-size").
Definition patch_file_indices (m : config_map) : list ArchiveInfo := archive_infos m (text "patch-file-index") (text "patch-file-index-size").

(** [while index_sizes.last() == Some("") { pop }], on the reversed list. *)
Fixpoint pop_empty (l : list bytes) : list bytes := match l with [] :: l => pop_empty l | _ => l end.

Definition set_archives (m : config_map) (infos : list ArchiveInfo) : config_map :=
  let index_sizes := map (fun a => match index_size a with Some n => show n | None => [] end) infos in
  let has_any_size := existsb (fun a => match index_size a with Some _ => true | None => false end) infos in
  let m := <[text "archives" := map ai_content_key infos]> m in
  if has_any_size then
    let index_sizes := reverse (pop_empty (reverse index_sizes)) in
    if (length index_sizes =? 0)%nat then m else <[text "archives-index-size" := index_sizes]> m
  else m.

Definition set_archive_group (m : config_map) (hash : bytes) : config_map := <[text "archive-group" := [hash]]> m.

Inductive CdnError := NoArchives | SizeMismatch (archives sizes : nat) | PatchSizeMismatch (archives sizes : nat) | InvalidCdnHash (s : bytes).

Definition check_archives (mismatch : nat -> nat -> CdnError) (archives : list bytes) (sizes : option (list bytes)) : result CdnError unit :=
  let hashes := match first_invalid is_valid_md5_hex archives with Some v => Err (InvalidCdnHash v) | None => Ok tt end in
  match sizes with
  | Some sizes => if negb (length archives =? length sizes)%nat then Err (mismatch (length archives) (length sizes)) else hashes
  | None => hashes
  end.

Definition cdn_validate (m : config_map) : result CdnError unit :=
  match m !! text "archives" with
  | None => Err NoArchives
  | Some archives =>
      _ ← check_archives SizeMismatch archives (m !! text "archives-index-size");
      match m !! text "patch-archives" with
      | Some patch_archives => check_archives PatchSizeMismatch patch_archives (m !! text "patch-archives-index-size")
      | None => Ok tt
      end
  end.

(** ** Keyring configuration: writer and queries *)

Definition keyring_build (ks : list KeyringEntry) : bytes := concat (map (fun e => write_entry (KEY_PREFIX ++ key_id e) (key_value e)) ks).

Inductive KeyringError := IdLength (index actual : nat) | IdFormat (index : nat) (value : bytes) | KeyValue (index : nat) (id : bytes).

Fixpoint keyring_validate_from (i : nat) (ks : list KeyringEntry) : result KeyringError unit :=
  match ks with
  | [] => Ok tt
  | e :: ks =>
      if negb (length (key_id e) =? 16)%nat then Err (IdLength i (length (key_id e)))
      else if negb (forallb is_hexdigit (key_id e)) then Err (IdFormat i (key_id e))
      else if negb (is_valid_md5_hex (key_value e)) then Err (KeyValue i (key_id e))
      else keyring_validate_from (S i) ks
  end.

Definition keyring_validate (ks : list KeyringEntry) : result KeyringError unit := keyring_validate_from 0 ks.

Fixpoint find_key (id : bytes) (ks : list KeyringEntry) : option bytes :=
  match ks with
  | [] => None
  | e :: ks => if bool_decide (key_id e = id) then Some (key_value e) else find_key id ks
  end.

Definition get_key (ks : list KeyringEntry) (id : bytes) : option bytes := find_key (to_ascii_lowercase id) ks.
Definition get_key_by_id (ks : list KeyringEntry) (id : Z) : option bytes := get_key ks (hex_be 8 id).

(** ** Patch configuration: writer and queries *)

Definition patch_order : list bytes := map text ["patch"; "patch-size"]%string.

Definition show_record (r : PatchRecord) : bytes :=
  32 :: original_ekey r ++ 32 :: show (original_size r) ++ 32 :: patch_key r ++ 32 :: show (patch_size r).

Definition write_patch_entry (e : PatchEntry) : bytes :=
  text "patch-entry = " ++ entry_type e ++ 32 :: pe_content_key e ++ 32 :: show (content_size e) ++ 32 :: pe_encoding_key e ++ 32 :: show (encoded_size e) ++
  (if (length (espec e) =? 0)%nat && (length (patch_records e) =? 0)%nat then []
   else 32 :: (if (length (espec e) =? 0)%nat then text "n" else espec e) ++ concat (map show_record (patch_records e))) ++ [10].

Definition patch_build (c : PatchConfig) : bytes :=
  text "# Patch Configuration" ++ [10] ++ write_entries (fun v => v) patch_order (properties c) ++ concat (map write_patch_entry (pc_entries c)).

Definition get_property (c : PatchConfig) (key : bytes) : option bytes := properties c !! key.
Definition patch_hash (c : PatchConfig) : option bytes := get_property c (text "patch").
Definition get_patch_size (c : PatchConfig) : option Z := s ← get_property c (text "patch-size"); u64_of s.
Definition is_type (e : PatchEntry) (ty : bytes) : bool := bool_decide (entry_type e = ty).
Definition entries_by_type (c : PatchConfig) (ty : bytes) : list PatchEntry := filter (fun e => entry_type e = ty) (pc_entries c).
Definition set_property (c : PatchConfig) (key value : bytes) : PatchConfig := {| properties := <[key := value]> (properties c); pc_entries := pc_entries c |}.
Definition set_patch_hash (c : PatchConfig) (hash : bytes) : PatchConfig := set_property c (text "patch") hash.
Definition set_patch_size (c : PatchConfig) (size : Z) : PatchConfig := set_property c (text "patch-size") (show size).
Definition patch_add_entry (c : PatchConfig) (e : PatchEntry) : PatchConfig := {| properties := properties c; pc_entries := pc_entries c ++ [e] |}.
Definition remove_entries_by_type (c : PatchConfig) (ty : bytes) : PatchConfig :=
  {| properties := properties c; pc_entries := filter (fun e => entry_type e <> ty) (pc_entries c) |}.
Definition patch_is_empty (c : PatchConfig) : bool := (base.size (properties c) =? 0)%nat && (length (pc_entries c) =? 0)%nat.
Definition entry_count (c : PatchConfig) : nat := length (pc_entries c).
Definition property_count (c : PatchConfig) : nat := base.size (properties c).
Definition clear_entries (c : PatchConfig) : PatchConfig := {| properties := properties c; pc_entries := [] |}.
Definition clear_properties (c : PatchConfig) : PatchConfig := {| properties := ∅; pc_entries := pc_entries c |}.

Definition with_espec (ty ckey : bytes) (csize : Z) (ekey : bytes) (esize : Z) (spec : bytes) : PatchEntry :=
  {| entry_type := ty; pe_content_key := ckey; content_size := csize; pe_encoding_key := ekey; encoded_size := esize; espec := spec; patch_records := [] |}.
Definition entry_new (ty ckey : bytes) (csize : Z) (ekey : bytes) (esize : Z) : PatchEntry := with_espec ty ckey csize ekey esize [].
Definition has_patch_records (e : PatchEntry) : bool := negb (length (patch_records e) =? 0)%nat.
Definition patch_chain_length (e : PatchEntry) : nat := length (patch_records e).

Fixpoint check_entries (es : list PatchEntry) : result PatchConfigError unit :=
  match es with
  | [] => Ok tt
  | e :: es =>
      _ ← check_hash (pe_content_key e);
      _ ← check_hash (pe_encoding_key e);
      if (length (entry_type e) =? 0)%nat then Err EmptyEntryType else check_entries es
  end.

Definition patch_validate (c : PatchConfig) : result PatchConfigError unit :=
  match patch_hash c with
  | None => Err MissingPatch
  | Some hash =>
      _ ← check_hash hash;
      match get_patch_size c with None => Err MissingPatchSize | Some _ => check_entries (pc_entries c) end
  end.

End Config.
