(* ===== verification/ConfigTheorems.v ===== *)
(** * Configuration files: the theorems

    What is written is read back, for all four kinds of file; the numbered keys are read up
    to the first gap; and what the text or the queries lose. *)

From S2P Require Import Prelude Bytes Text Utf8 Collections Install InstallTheorems Lines Config.
Import Config.
Local Open Scope Z_scope.

(** ** Lines *)

Definition key_byte (b : Z) : bool := is_alnum b || (b =? 45) || (b =? 95).

(** Keys of ASCII letters, digits, hyphens and underscores. *)
Definition key_ok (k : bytes) : Prop := k <> [] /\ Forall (fun b => key_byte b = true) k.

(** Texts that a line can hold behind its separator. *)
Definition cell (v : bytes) : Prop := v <> [] /\ trim v = v /\ lacks 10 v /\ utf8_valid v = true.

Lemma words_cell vs : vs <> [] -> Forall word vs -> cell (join 32 vs).
Proof.
  intros Hne H. destruct (words_text vs H) as [H1 H2]. split_and!; [|by apply trim_words|done|done].
  destruct H as [|v [|x vs] (Hv & _) H]; [done..|]. by destruct v.
Qed.

Lemma key_byte_range b : key_byte b = true -> 33 <= b < 128 /\ b <> 35.
Proof. unfold key_byte, is_alnum, is_digit, in_rng. rewrite !orb_true_iff, !andb_true_iff. lia. Qed.

Lemma key_range k : key_ok k -> Forall (fun b => 33 <= b <= 127) k.
Proof. intros [_ H]. eapply Forall_impl; [exact H|]. intros b Hb%key_byte_range. cbn. lia. Qed.

Lemma chars_ascii n s : (length s <= n)%nat -> Forall (fun b => b < 128) s -> chars n s = map (fun b => [b]) s.
Proof.
  revert s. induction n as [|n IH]; intros [|b s] Hn H; [done|simpl in Hn; lia|done|]. apply Forall_cons in H as [Hb H]. cbn [chars map]. unfold utf8_step.
  rewrite (proj2 (Z.ltb_lt _ _)) by done. cbv zeta. cbn [snd firstn skipn]. rewrite take_0, drop_0. by rewrite IH by (done || (simpl in Hn; lia)).
Qed.

Lemma key_valid W k : key_ok k -> is_valid_key W k = true.
Proof.
  intros Hk. unfold is_valid_key. rewrite chars_ascii; [|done|eapply Forall_impl; [by apply key_range|cbn; lia]]. destruct Hk as [_ H].
  induction H as [|b k Hb H IH]; [done|]. cbn [map forallb key_char]. unfold key_byte in Hb. by rewrite Hb, IH.
Qed.

Lemma key_trim k : key_ok k -> trim k = k.
Proof.
  intros Hk. pose proof (key_range k Hk) as Hr. destruct Hk as [Hne _]. unfold trim. destruct k as [|c s] eqn:E; [done|].
  rewrite trim_start_printable by (apply Forall_cons in Hr as [? _]; lia). rewrite <- E in *. destruct (exists_last Hne) as (p & d & E').
  rewrite E' in *. apply trim_end_printable. apply Forall_app in Hr as [_ [? _]%Forall_cons]. lia.
Qed.

Lemma key_word k : key_ok k -> word k.
Proof.
  intros Hk. pose proof (key_range k Hk) as Hr. split_and!; [apply Hk| |eapply valid_range; [done|lia]]. clear Hk.
  induction Hr as [|b k Hb Hr IH]; [done|]. cbn [no_space]. by rewrite strip_printable by (apply white_space_outer || lia).
Qed.

Definition line_of (k v : bytes) : bytes := k ++ text " = " ++ v.

(** A line a reader of configurations does not skip. *)
Definition data_line (line : bytes) : Prop :=
  utf8_valid line = true /\ lacks 10 line /\ trim line = line /\ exists c s, line = c :: s /\ c <> 35.

Lemma line_of_data k v : key_ok k -> cell v -> data_line (line_of k v).
Proof.
  intros Hk (Hne & Ht & Hl & Hu). pose proof (key_range k Hk) as Hr. split_and!.
  - apply utf8_valid_app; [eapply valid_range; [done|lia]|]. by apply utf8_valid_app.
  - apply lacks_app; [eapply lacks_range; [done|lia]|]. apply lacks_app; [by repeat constructor|done].
  - unfold trim. assert (trim_start (line_of k v) = line_of k v) as ->.
    { unfold line_of. destruct k as [|c s]; [by destruct Hk|]. apply trim_start_printable. apply Forall_cons in Hr as [? _]. lia. }
    unfold line_of. rewrite app_assoc. apply trim_end_app; [done|by apply trimmed_end|]. right. exists (k ++ [32; 61]), 32. split; [by rewrite <- app_assoc|lia].
  - unfold line_of. destruct k as [|c s]; [by destruct Hk|]. destruct Hk as [_ [Hc%key_byte_range _]%Forall_cons]. eexists c, _. split; [reflexivity|lia].
Qed.

Lemma parse_line_of W k v : key_ok k -> trim v = v -> parse_line W (line_of k v) = Some (k, v).
Proof.
  intros Hk Ht. unfold parse_line, line_of. change (text " = ") with (32 :: [61; 32]). rewrite split_once_lacks by (eapply lacks_range; [by apply key_range|lia]).
  cbn [mbind option_bind]. by rewrite key_trim, Ht, key_valid.
Qed.

Lemma data_line_read line : data_line line -> (length line =? 0)%nat || Install.starts_with line [35] = false.
Proof.
  intros (_ & _ & _ & c & s & -> & Hc). apply bool_decide_eq_false. cbn [length take]. by intros [= ?].
Qed.

Lemma config_lines_data lines : Forall data_line lines -> config_lines lines = Some lines.
Proof.
  induction 1 as [|l lines Hl H IH]; [done|]. cbn [config_lines]. pose proof (data_line_read l Hl) as Hr. destruct Hl as (Hu & _ & Ht & _).
  rewrite Hu. cbn [negb]. cbv zeta. rewrite Ht, IH. cbn [mbind option_bind]. by rewrite Hr.
Qed.

Lemma config_lines_app l1 l2 r1 r2 : config_lines l1 = Some r1 -> config_lines l2 = Some r2 -> config_lines (l1 ++ l2) = Some (r1 ++ r2).
Proof.
  revert r1. induction l1 as [|l l1 IH]; intros r1 H1 H2; [by injection H1 as <-|]. cbn [app config_lines] in *. destruct (utf8_valid l); [|done]. cbn [negb] in *. cbv zeta in *.
  destruct (config_lines l1) as [r|]; [|done]. cbn [mbind option_bind] in *. rewrite (IH r) by done. cbn. injection H1 as <-. by destruct (_ || _).
Qed.

(** ** Written entries *)

Definition written_lines {A} (show_value : A -> bytes) (order : list bytes) (m : gmap bytes A) : list bytes :=
  omap (fun k => v ← m !! k; Some (line_of k (show_value v))) (written_keys order m).

Lemma write_entries_lines {A} (f : A -> bytes) order m : write_entries f order m = concat (map (fun l => l ++ [10]) (written_lines f order m)).
Proof.
  unfold write_entries, written_lines. induction (written_keys order m) as [|k ks IH]; [done|]. cbn [map concat omap list_omap]. rewrite IH.
  destruct (m !! k) as [v|]; [|done]. cbn [mbind option_bind map concat]. f_equal. unfold write_entry, line_of. by rewrite <- !app_assoc.
Qed.

Lemma remaining_spec {A} (order : list bytes) (m : gmap bytes A) : NoDup (remaining order m) /\ forall k, (k ∈ remaining order m) <-> (k ∉ order) /\ is_Some (m !! k).
Proof.
  unfold remaining. split.
  - rewrite sort_by_key_perm. apply NoDup_filter. apply NoDup_fst_map_to_list.
  - intros k. rewrite sort_by_key_perm, list_elem_of_filter. change (map fst (map_to_list m)) with ((map_to_list m).*1). split.
    + intros [Hk ((k' & v) & -> & Hin)%list_elem_of_fmap]. split; [done|]. apply elem_of_map_to_list in Hin. by eexists.
    + intros [Hk [v Hv]]. split; [done|]. apply list_elem_of_fmap. exists (k, v). split; [done|]. by apply elem_of_map_to_list.
Qed.

Lemma written_keys_spec {A} (order : list bytes) (m : gmap bytes A) : NoDup order -> NoDup (written_keys order m) /\ forall k, is_Some (m !! k) -> k ∈ written_keys order m.
Proof.
  intros Ho. destruct (remaining_spec order m) as [Hn Hin]. unfold written_keys. split.
  - apply NoDup_app. split_and!; [done| |done]. intros k Hk [Hk' _]%Hin. done.
  - intros k Hk. apply elem_of_app. destruct (decide (k ∈ order)); [by left|right]. by apply Hin.
Qed.

(** Reading the lines one after the other fills the map. *)
Lemma fold_written {A} (step : gmap bytes A -> bytes -> gmap bytes A) (f : A -> bytes) (m : gmap bytes A) ks acc :
  (forall k v acc, m !! k = Some v -> acc !! k = None -> step acc (line_of k (f v)) = <[k := v]> acc) ->
  NoDup ks -> (forall k, k ∈ ks -> acc !! k = None) ->
  forall k, fold_left step (omap (fun k => v ← m !! k; Some (line_of k (f v))) ks) acc !! k = if decide (k ∈ ks) then m !! k else acc !! k.
Proof.
  intros Hstep Hn. revert acc. induction Hn as [|x ks Hx Hn IH]; intros acc Hacc k; [done|]. cbn [omap list_omap].
  assert (forall acc' : gmap bytes A, (forall j, j <> x -> acc' !! j = acc !! j) -> forall j, j ∈ ks -> acc' !! j = None) as Hstay.
  { intros acc' H j Hj. rewrite H by (by intros ->). apply Hacc. by right. }
  destruct (m !! x) as [v|] eqn:Ev; cbn [mbind option_bind].
  - cbn [fold_left]. rewrite Hstep by (done || (apply Hacc; by left)). rewrite IH by (apply Hstay; intros j Hj; by apply lookup_insert_ne).
    destruct (decide (k = x)) as [->|Hk]; [rewrite decide_False, lookup_insert_eq, decide_True by (done || by left); done|].
    rewrite lookup_insert_ne by done. destruct (decide (k ∈ ks)); [rewrite decide_True by (by right); done|]. rewrite decide_False; [done|]. by intros [?|?]%elem_of_cons.
  - rewrite IH by (by apply Hstay). destruct (decide (k = x)) as [->|Hk].
    + rewrite decide_False, decide_True by (done || by left). rewrite Ev. apply Hacc. by left.
    + destruct (decide (k ∈ ks)); [rewrite decide_True by (by right); done|]. rewrite decide_False; [done|]. by intros [?|?]%elem_of_cons.
Qed.

Lemma fold_written_all {A} (step : gmap bytes A -> bytes -> gmap bytes A) (f : A -> bytes) (order : list bytes) (m : gmap bytes A) :
  NoDup order -> (forall k v acc, m !! k = Some v -> acc !! k = None -> step acc (line_of k (f v)) = <[k := v]> acc) ->
  fold_left step (written_lines f order m) ∅ = m.
Proof.
  intros Ho Hstep. destruct (written_keys_spec order m Ho) as [Hn Hin]. apply map_eq. intros k. unfold written_lines. rewrite fold_written by done.
  destruct (decide (k ∈ written_keys order m)) as [|Hk]; [done|]. rewrite lookup_empty. destruct (m !! k) eqn:E; [|done]. destruct Hk. apply Hin. by eexists.
Qed.

(** ** Build and CDN configuration *)

(** Keys with at least one word. *)
Definition config_ok (m : config_map) : Prop := map_Forall (fun k vs => key_ok k /\ vs <> [] /\ Forall word vs) m.

Lemma written_data {A} (f : A -> bytes) (order : list bytes) (m : gmap bytes A) :
  map_Forall (fun k v => key_ok k /\ cell (f v)) m -> Forall data_line (written_lines f order m).
Proof.
  intros H. unfold written_lines. induction (written_keys order m) as [|k ks IH]; [constructor|]. cbn [omap list_omap].
  destruct (m !! k) as [v|] eqn:E; [|done]. cbn [mbind option_bind]. constructor; [|done]. destruct (H k v E). by apply line_of_data.
Qed.

Lemma config_cells m : config_ok m -> map_Forall (fun k vs => key_ok k /\ cell (join 32 vs)) m.
Proof. intros H k vs E. destruct (H k vs E) as (Hk & Hne & Hvs). split; [done|by apply words_cell]. Qed.

Lemma read_data pre post lines :
  Forall (lacks 10) (pre ++ lines ++ post) -> config_lines pre = Some [] -> config_lines post = Some [] -> Forall data_line lines ->
  config_lines (read_lines (concat (map (fun l => l ++ [10]) (pre ++ lines ++ post)))) = Some lines.
Proof.
  intros Hl H1 H2 Hd. rewrite read_lines_concat by done. rewrite (config_lines_app pre _ [] lines); [done..|]. rewrite <- (app_nil_r lines) at 2.
  apply config_lines_app; [by apply config_lines_data|done].
Qed.

Lemma data_lacks lines : Forall data_line lines -> Forall (lacks 10) lines.
Proof. intros H. eapply Forall_impl; [exact H|]. by intros l (_ & ? & _). Qed.

Lemma entry_values W m k vs : config_ok m -> m !! k = Some vs -> parse_line W (line_of k (join 32 vs)) = Some (k, join 32 vs) /\ split_whitespace (join 32 vs) = vs.
Proof.
  intros Hm E. destruct (Hm k vs E) as (Hk & Hne & Hvs). split; [apply parse_line_of; [done|by apply trim_words]|by apply split_whitespace_join].
Qed.

Lemma cdn_roundtrip W m : config_ok m -> cdn_parse W (cdn_build m) = Some m.
Proof.
  intros Hm. pose proof (written_data (join 32) cdn_order m (config_cells m Hm)) as Hd. unfold cdn_parse, cdn_build. rewrite write_entries_lines.
  pose proof (read_data [] [] _ ltac:(rewrite app_nil_r; by apply data_lacks) eq_refl eq_refl Hd) as E. rewrite app_nil_r in E. cbn [app] in E. rewrite E. cbn [mbind option_bind].
  f_equal. apply fold_written_all; [decide_now|]. intros k vs acc Hk Ha. unfold cdn_line. destruct (entry_values W m k vs Hm Hk) as [-> ->]. by rewrite Ha.
Qed.

Lemma build_roundtrip W m : config_ok m -> build_parse W (build_build m) = Some m.
Proof.
  intros Hm. pose proof (written_data (join 32) build_order m (config_cells m Hm)) as Hd. unfold build_parse, build_build. rewrite write_entries_lines.
  set (pre := [text "# Build Configuration"; []]). set (post := [[]; []] : list bytes).
  assert (text "# Build Configuration" ++ [10; 10] ++ concat (map (fun l => l ++ [10]) (written_lines (join 32) build_order m)) ++ [10; 10] =
          concat (map (fun l => l ++ [10]) (pre ++ written_lines (join 32) build_order m ++ post))) as ->.
  { rewrite !map_app, !concat_app. unfold pre, post. cbn [map concat app]. by rewrite <- !app_assoc. }
  rewrite (read_data pre post) by (done || (repeat (apply Forall_app; split); [by repeat constructor|by apply data_lacks|by repeat constructor])). cbn [mbind option_bind].
  f_equal. apply fold_written_all; [decide_now|]. intros k vs acc Hk Ha. unfold build_line. by destruct (entry_values W m k vs Hm Hk) as [-> ->].
Qed.

(** The keys that are written first, in this order. *)
Definition known_build_keys : list bytes :=
  map text
    ["root"; "install"; "install-size"; "install-high-ver"; "install-high-ver-size"; "download"; "download-size"; "size"; "size-size";
     "encoding"; "encoding-size"; "patch"; "patch-size"; "patch-config"; "patch-index"; "patch-index-size"; "build-name"; "build-uid";
     "build-product"; "build-file-db"; "build-file-db-size"; "build-partial-priority"; "build-playtime-url"; "build-product-espec";
     "client-version"; "feature-placeholder"; "feature-use-hardlinks"; "no-frame-encoding"; "key-layout-index-bits"; "vfs-root";
     "vfs-root-size"; "vfs-root-espec"]%string.

Definition known_cdn_keys : list bytes :=
  map text
    ["archives"; "archives-index-size"; "archive-group"; "archive-group-index-size"; "patch-archives"; "patch-archives-index-size";
     "patch-archive-group"; "patch-archive-group-index-size"; "file-index"; "file-index-size"; "patch-file-index"; "patch-file-index-size"]%string.

(** The entries of [m], each once: those with a key of [order] in its order, the others
    behind them, sorted by key. *)
Definition in_order (order : list bytes) (m : config_map) (es : list (bytes * list bytes)) : Prop :=
  es ≡ₚ map_to_list m /\
  exists known others, es = known ++ others /\ known.*1 = filter (fun k => is_Some (m !! k)) order /\
    Forall (fun k => k ∉ order) others.*1 /\ sorted_by (fun k => k) others.*1.

(** [key = word word ..]. *)
Definition text_of (es : list (bytes * list bytes)) : bytes :=
  concat (map (fun e => e.1 ++ text " = " ++ join 32 e.2 ++ [10]) es).

Definition entries_at (m : config_map) (ks : list bytes) : list (bytes * list bytes) := omap (fun k => vs ← m !! k; Some (k, vs)) ks.

Lemma entries_at_keys m ks : (entries_at m ks).*1 = filter (fun k => is_Some (m !! k)) ks.
Proof.
  induction ks as [|k ks IH]; [done|]. cbn [entries_at omap list_omap]. rewrite filter_cons. destruct (m !! k) as [vs|] eqn:E; cbn [mbind option_bind].
  - rewrite decide_True by done. cbn. by rewrite <- IH.
  - rewrite decide_False by (by intros []). done.
Qed.

Lemma entries_at_elem m ks k vs : (k, vs) ∈ entries_at m ks <-> k ∈ ks /\ m !! k = Some vs.
Proof.
  unfold entries_at. rewrite list_elem_of_omap. split.
  - intros (k' & Hk & E). destruct (m !! k') eqn:Ek; simplify_eq/=. done.
  - intros [Hk E]. exists k. split; [done|]. by rewrite E.
Qed.

Lemma write_entries_text (order : list bytes) (m : config_map) : write_entries (join 32) order m = text_of (entries_at m (written_keys order m)).
Proof.
  unfold write_entries, text_of, entries_at. induction (written_keys order m) as [|k ks IH]; [done|]. cbn [map concat omap list_omap]. rewrite IH.
  by destruct (m !! k) as [vs|].
Qed.

Lemma written_in_order (order : list bytes) (m : config_map) : NoDup order -> in_order order m (entries_at m (written_keys order m)).
Proof.
  intros Ho. destruct (written_keys_spec order m Ho) as [Hn Hin]. destruct (remaining_spec order m) as [Hrn Hrin]. split.
  - apply NoDup_Permutation; [|apply NoDup_map_to_list|].
    + apply (NoDup_fmap_1 fst). rewrite entries_at_keys. by apply NoDup_filter.
    + intros [k vs]. rewrite entries_at_elem, elem_of_map_to_list. split; [by intros []|]. intros E. split; [|done]. apply Hin. by eexists.
  - exists (entries_at m order), (entries_at m (remaining order m)). split_and!.
    + unfold written_keys, entries_at. by rewrite omap_app.
    + apply entries_at_keys.
    + rewrite entries_at_keys. apply Forall_forall. intros k [_ Hk]%list_elem_of_filter. by apply Hrin in Hk as [? _].
    + rewrite entries_at_keys. assert (filter (fun k => is_Some (m !! k)) (remaining order m) = remaining order m) as ->.
      { assert (forall k, k ∈ remaining order m -> is_Some (m !! k)) as Hall by (intros k Hk; by apply Hrin in Hk as [_ ?]). clear -Hall.
        induction (remaining order m) as [|k ks IH]; [done|]. rewrite filter_cons, decide_True by (apply Hall; by left). f_equal. apply IH. intros. apply Hall. by right. }
      apply sort_by_key_sorted.
Qed.

(** C24: A build configuration and a CDN configuration whose keys are of letters, digits,
    hyphens and underscores, each with one word or more, are written as one line per
    entry, the known keys first in their fixed order and the others behind them in the
    order of their bytes, and read back as the same map, whatever other characters count
    as alphanumeric. *)
Theorem config_roundtrip W m :
  config_ok m ->
  (exists es, in_order known_build_keys m es /\ build_build m = text "# Build Configuration" ++ [10; 10] ++ text_of es ++ [10; 10]) /\
  (exists es, in_order known_cdn_keys m es /\ cdn_build m = text_of es) /\
  build_parse W (build_build m) = Some m /\ cdn_parse W (cdn_build m) = Some m.
Proof.
  intros Hm. split_and!; [| |by apply build_roundtrip|by apply cdn_roundtrip].
  - exists (entries_at m (written_keys build_order m)). split; [apply written_in_order; decide_now|]. unfold build_build. by rewrite write_entries_text.
  - exists (entries_at m (written_keys cdn_order m)). split; [apply written_in_order; decide_now|]. unfold cdn_build. by rewrite write_entries_text.
Qed.

Definition sample_config : config_map :=
  <[text "archives" := [text "ab"; text "cd"]]> (<[text "vfs-1" := [[0xC3; 0xA9]]]> (<[text "build-name" := [text "Retail"; text "="; text "1.0"]]> ∅)).

Lemma config_roundtrip_witness :
  (exists es, in_order known_build_keys sample_config es /\
    build_build sample_config = text "# Build Configuration" ++ [10; 10] ++ text_of es ++ [10; 10]) /\
  build_parse (fun _ => false) (build_build sample_config) = Some sample_config /\ cdn_parse (fun _ => false) (cdn_build sample_config) = Some sample_config.
Proof.
  destruct (config_roundtrip (fun _ => false) sample_config) as (H1 & _ & H2).
  - apply map_Forall_to_list. vm_compute. repeat constructor; intros [=].
  - split; [exact H1|exact H2].
Defined.

(** ** Keyring configuration *)

Definition lower_hex (s : bytes) : Prop := Forall (fun c => in_rng 48 57 c || in_rng 97 102 c = true) s.

Definition keyring_ok (ks : list KeyringEntry) : Prop := Forall (fun e => key_id e <> [] /\ lower_hex (key_id e) /\ key_value e <> [] /\ lower_hex (key_value e)) ks.

Lemma lower_hex_key s : lower_hex s -> Forall (fun b => key_byte b = true) s /\ to_ascii_lowercase s = s.
Proof.
  intros H. split.
  - eapply Forall_impl; [exact H|]. intros c. unfold key_byte, is_alnum, is_digit, in_rng. rewrite !orb_true_iff, !andb_true_iff. lia.
  - induction H as [|c s Hc H IH]; [done|]. cbn [to_ascii_lowercase map]. change (map _ s) with (to_ascii_lowercase s). rewrite IH. f_equal.
    unfold in_rng in *. rewrite orb_true_iff, !andb_true_iff in Hc. case_match eqn:E; [|done]. apply andb_true_iff in E. lia.
Qed.

(** The keys of a keyring are written and read back in their order. *)
Theorem keyring_roundtrip W ks : keyring_ok ks -> keyring_parse W (keyring_build ks) = Some ks.
Proof.
  intros Hks. set (lines := map (fun e => line_of (KEY_PREFIX ++ key_id e) (key_value e)) ks).
  assert (forall e, key_id e <> [] /\ lower_hex (key_id e) /\ key_value e <> [] /\ lower_hex (key_value e) -> key_ok (KEY_PREFIX ++ key_id e) /\ key_ok (key_value e)) as Hkey.
  { intros e (H1 & H2 & H3 & H4). split; (split; [by destruct (key_id e) || done|]); [apply Forall_app; split; [by repeat constructor|]|]; by apply lower_hex_key. }
  assert (Forall data_line lines) as Hd.
  { apply Forall_map. eapply Forall_impl; [exact Hks|]. intros e [Hk Hv]%Hkey. apply line_of_data; [done|]. apply (words_cell [key_value e]); [done|]. by repeat constructor; apply key_word. }
  unfold keyring_parse. assert (keyring_build ks = concat (map (fun l => l ++ [10]) lines)) as ->.
  { unfold keyring_build, lines. rewrite map_map. f_equal. apply map_ext. intros e. unfold write_entry, line_of. by rewrite <- !app_assoc. }
  pose proof (read_data [] [] lines ltac:(rewrite app_nil_r; by apply data_lacks) eq_refl eq_refl Hd) as E. rewrite app_nil_r in E. cbn [app] in E. rewrite E. cbn [mbind option_bind].
  f_equal. clear E Hd. unfold lines. change ks with ([] ++ ks) at 2. generalize (@nil KeyringEntry). induction Hks as [|e ks He Hks IH]; intros acc; [by rewrite app_nil_r|].
  cbn [map fold_left]. destruct (Hkey e He) as [Hk Hv]. unfold keyring_line at 2. rewrite parse_line_of by (done || by apply key_trim).
  rewrite (proj2 (starts_with_spec _ KEY_PREFIX)) by (by eexists). rewrite drop_app_length. unfold keyring_add_entry. destruct He as (_ & H2 & _ & H4).
  rewrite (proj2 (lower_hex_key _ H2)), (proj2 (lower_hex_key _ H4)). rewrite IH, <- app_assoc. by destruct e.
Qed.

Lemma find_key_app id l1 l2 : find_key id (l1 ++ l2) = match find_key id l1 with Some v => Some v | None => find_key id l2 end.
Proof. induction l1 as [|e l1 IH]; [done|]. cbn [app find_key]. by destruct (bool_decide _). Qed.

(** A key added under a new id, in whatever case, is the one found under it. *)
Theorem keyring_lookup ks id value :
  get_key ks id = None -> get_key (keyring_add_entry ks id value) id = Some (to_ascii_lowercase value).
Proof.
  unfold get_key, keyring_add_entry. intros H. rewrite find_key_app, H. cbn [find_key key_id key_value]. by rewrite bool_decide_eq_true_2.
Qed.

(** ** Patch configuration *)

Definition hash_ok (h : bytes) : Prop := is_valid_md5_hex h = true.

Definition record_ok (r : PatchRecord) : Prop := hash_ok (original_ekey r) /\ in_u 64 (original_size r) /\ hash_ok (patch_key r) /\ in_u 64 (patch_size r).

Definition entry_ok (e : PatchEntry) : Prop :=
  word (entry_type e) /\ hash_ok (pe_content_key e) /\ in_u 64 (content_size e) /\ hash_ok (pe_encoding_key e) /\ in_u 64 (encoded_size e) /\
  (word (espec e) \/ espec e = [] /\ patch_records e = []) /\ Forall record_ok (patch_records e).

Definition record_words (r : PatchRecord) : list bytes := [original_ekey r; show (original_size r); patch_key r; show (patch_size r)].

Definition entry_words (e : PatchEntry) : list bytes :=
  [text "patch-entry"; text "="; entry_type e; pe_content_key e; show (content_size e); pe_encoding_key e; show (encoded_size e)] ++
  (if (length (espec e) =? 0)%nat then [] else espec e :: concat (map record_words (patch_records e))).

Lemma hash_word h : hash_ok h -> word h.
Proof.
  unfold hash_ok, is_valid_md5_hex. intros [Hl Hh]%andb_true_iff. apply key_word. split; [by intros ->|].
  apply List.Forall_forall. rewrite forallb_forall in Hh. intros b Hb. specialize (Hh b Hb). revert Hh.
  unfold is_hexdigit, key_byte, is_alnum, is_digit, in_rng. rewrite !orb_true_iff, !andb_true_iff. lia.
Qed.

Lemma show_word n : 0 <= n -> word (show n).
Proof.
  intros Hn. apply key_word. split; [by destruct (show_cons n) as (c & l & ->)|]. eapply Forall_impl; [by apply show_digits|]. intros c Hc.
  unfold key_byte, is_alnum. by rewrite Hc.
Qed.

Lemma entry_words_ok e : entry_ok e -> Forall word (entry_words e).
Proof.
  intros (H1 & H2 & H3 & H4 & H5 & H6 & H7). unfold in_u in *. unfold entry_words. apply Forall_app. split.
  - assert (word (text "patch-entry") /\ word (text "=")) as [W1 W2] by (by vm_compute).
    repeat (constructor; [first [done|by apply hash_word|apply show_word; lia]|]). constructor.
  - destruct H6 as [Hw|[-> _]]; [|constructor]. assert (length (espec e) <> 0)%nat by (destruct Hw, (espec e); simpl; (done || lia)).
    rewrite (proj2 (Nat.eqb_neq _ 0)) by done. constructor; [done|]. induction H7 as [|r rs (R1 & R2 & R3 & R4) Hr IH]; [constructor|]. unfold in_u in *.
    cbn [map concat]. apply Forall_app. split; [|done]. repeat (constructor; [first [by apply hash_word|apply show_word; lia]|]). constructor.
Qed.

Lemma join_cons_concat x l : join 32 (x :: l) = x ++ concat (map (cons 32) l).
Proof. by rewrite join_joined. Qed.

Lemma write_patch_entry_join e : entry_ok e -> write_patch_entry e = join 32 (entry_words e) ++ [10].
Proof.
  intros (_ & _ & _ & _ & _ & H6 & _). unfold write_patch_entry, entry_words. cbn [app]. rewrite join_cons_concat.
  assert ((length (espec e) =? 0)%nat = true -> (length (patch_records e) =? 0)%nat = true) as Hz. { destruct H6 as [[Hne _]|[_ ->]]; [|done]. by destruct (espec e). }
  destruct (length (espec e) =? 0)%nat eqn:El.
  - rewrite Hz by done. cbn [andb map concat app]. rewrite app_nil_r. change (text "patch-entry = ") with (text "patch-entry" ++ [32; 61; 32]). by repeat (rewrite <- !app_assoc; cbn [app]).
  - cbn [andb app map concat]. change (text "patch-entry = ") with (text "patch-entry" ++ [32; 61; 32]).
    assert (concat (map show_record (patch_records e)) = concat (map (cons 32) (concat (map record_words (patch_records e))))) as ->.
    { clear. induction (patch_records e) as [|r rs IH]; [done|]. cbn [map concat]. rewrite map_app, concat_app, <- IH. unfold show_record, record_words. cbn [map concat app].
      rewrite app_nil_r. by repeat (rewrite <- !app_assoc; cbn [app]). }
    by repeat (rewrite <- !app_assoc; cbn [app]).
Qed.

Lemma parse_size_show n : in_u 64 n -> parse_size (show n) = Ok n.
Proof. unfold in_u. intros Hn. unfold parse_size, u64_of. by rewrite parse_unsigned_show by lia. Qed.

Lemma check_hash_ok h : hash_ok h -> check_hash h = Ok tt.
Proof. unfold hash_ok, check_hash. by intros ->. Qed.

Lemma parse_records_words rs : Forall record_ok rs -> parse_records (concat (map record_words rs)) = Ok rs.
Proof.
  induction 1 as [|r rs (R1 & R2 & R3 & R4) Hr IH]; [done|]. cbn [map concat record_words app parse_records].
  rewrite !check_hash_ok, !parse_size_show, IH by done. by destruct r.
Qed.

Lemma parse_patch_entry_words e : entry_ok e -> parse_patch_entry (join 32 (entry_words e)) = Ok e.
Proof.
  intros He. unfold parse_patch_entry. rewrite split_whitespace_join by (by apply entry_words_ok). destruct He as (H1 & H2 & H3 & H4 & H5 & H6 & H7).
  unfold entry_words. cbn [app]. rewrite bool_decide_eq_false_2 by (by intros [[]|[]]). rewrite !parse_size_show, !check_hash_ok by done. cbn [mbind result_bind].
  destruct (length (espec e) =? 0)%nat eqn:El.
  - rewrite ?parse_size_show by done. cbn. destruct H6 as [[Hne _]|[E1 E2]]; [by destruct (espec e)|]. destruct e. cbn in E1, E2. by subst.
  - rewrite ?parse_size_show by done. cbn [mbind result_bind].
    assert (length (concat (map record_words (patch_records e))) = 4 * length (patch_records e))%nat as ->.
    { clear. induction (patch_records e) as [|r rs IH]; [done|]. cbn [map concat]. rewrite length_app, IH. simpl. lia. }
    rewrite Nat.mul_comm, Nat.Div0.mod_mul. cbn [Nat.eqb negb]. rewrite parse_records_words by done. by destruct e.
Qed.

(** Properties are not named like the lines of entries. *)
Definition patch_ok (c : PatchConfig) : Prop :=
  map_Forall (fun k v => (key_ok k /\ Install.starts_with k (text "patch-entry") = false) /\ cell v) (properties c) /\ Forall entry_ok (pc_entries c).

Lemma starts_with_cut k s w : lacks 32 w -> Install.starts_with (k ++ 32 :: s) w = true -> Install.starts_with k w = true.
Proof.
  intros Hw [t E]%starts_with_spec. apply starts_with_spec. apply app_eq_inv in E as [(x & -> & E)|(x & -> & E)]; [by exists x|].
  destruct x as [|b x]; [exists []; by rewrite !app_nil_r|]. injection E as <- _. apply Forall_app in Hw as [_ [? _]%Forall_cons]. done.
Qed.

Definition property_line (W : bytes -> bool) (m : gmap bytes bytes) (line : bytes) : gmap bytes bytes := match parse_line W line with Some (k, v) => <[k := v]> m | None => m end.

Lemma patch_lines_properties (W : bytes -> bool) c lines rest :
  Forall (fun l => data_line l /\ Install.starts_with l (text "patch-entry") = false) lines ->
  patch_lines W c (lines ++ rest) = patch_lines W {| properties := fold_left (property_line W) lines (properties c); pc_entries := pc_entries c |} rest.
Proof.
  intros H. revert c. induction H as [|l lines [Hl He] H IH]; intros c; [by destruct c|]. cbn [app patch_lines fold_left]. pose proof (data_line_read l Hl) as Hr.
  destruct Hl as (Hu & _ & Ht & _). rewrite Hu. cbn [negb]. cbv zeta. rewrite Ht, Hr, He, IH. unfold property_line at 3, parse_key_value. by destruct (parse_line W l) as [[k v]|].
Qed.

Lemma entry_line_data e : entry_ok e -> data_line (join 32 (entry_words e)) /\ Install.starts_with (join 32 (entry_words e)) (text "patch-entry") = true.
Proof.
  intros He. pose proof (entry_words_ok e He) as Hw. destruct (words_cell (entry_words e) ltac:(done) Hw) as (_ & Ht & Hl & Hu).
  assert (exists s, join 32 (entry_words e) = text "patch-entry" ++ s) as [s E] by (eexists; unfold entry_words; cbn [app]; by rewrite join_cons_concat).
  split; [split_and!; [done..|]|by apply starts_with_spec; exists s]. rewrite E. eexists 112, _. split; [reflexivity|done].
Qed.

Lemma patch_lines_entries W c es : Forall entry_ok es ->
  patch_lines W c (map (fun e => join 32 (entry_words e)) es) = Ok {| properties := properties c; pc_entries := pc_entries c ++ es |}.
Proof.
  intros H. revert c. induction H as [|e es He H IH]; intros c; [destruct c; cbn; by rewrite app_nil_r|]. destruct (entry_line_data e He) as [Hd Hs].
  pose proof (data_line_read _ Hd) as Hr. destruct Hd as (Hu & _ & Ht & _). cbn [map patch_lines]. rewrite Hu. cbn [negb]. cbv zeta. rewrite Ht, Hr, Hs, parse_patch_entry_words by done.
  cbn [mbind result_bind]. rewrite IH. cbn [properties pc_entries]. by rewrite <- app_assoc.
Qed.

(** A patch configuration is written and read back, its entries with their
    specifications and records in their order. *)
Theorem patch_config_roundtrip W c : patch_ok c -> patch_parse W (patch_build c) = Ok c.
Proof.
  intros [Hp He]. set (props := written_lines (fun v => v) patch_order (properties c)). set (entries := map (fun e => join 32 (entry_words e)) (pc_entries c)).
  assert (Forall (fun l => data_line l /\ Install.starts_with l (text "patch-entry") = false) props) as Hprops.
  { unfold props, written_lines. induction (written_keys _ _) as [|k ks IH]; [constructor|]. cbn [omap list_omap]. destruct (properties c !! k) as [v|] eqn:E; [|done].
    cbn [mbind option_bind]. constructor; [|done]. destruct (Hp k v E) as [[Hk Hs] Hv]. split; [by apply line_of_data|]. apply not_true_iff_false. intros H.
    apply (starts_with_cut k (61 :: 32 :: v)) in H; [congruence|]. by repeat constructor. }
  assert (Forall data_line entries) as Hent by (apply Forall_map; eapply Forall_impl; [exact He|]; intros e Hd; by apply entry_line_data).
  assert (patch_build c = concat (map (fun l => l ++ [10]) (text "# Patch Configuration" :: props ++ entries))) as ->.
  { unfold patch_build. rewrite write_entries_lines. cbn [map concat]. rewrite map_app, concat_app, <- app_assoc. do 3 f_equal. fold props. unfold entries. rewrite map_map.
    f_equal. clear -He. induction He as [|e es H He IH]; [done|]. cbn [map]. rewrite IH. f_equal. by apply write_patch_entry_join. }
  unfold patch_parse. rewrite read_lines_concat.
  2:{ constructor; [by repeat constructor|]. apply Forall_app. split; [|by apply data_lacks]. apply data_lacks. eapply Forall_impl; [exact Hprops|]. by intros l [? _]. }
  change (patch_lines W patch_new (text "# Patch Configuration" :: props ++ entries)) with (patch_lines W patch_new (props ++ entries)).
  rewrite patch_lines_properties by done. unfold entries. rewrite patch_lines_entries by done. cbn [properties pc_entries patch_new app].
  unfold props. rewrite fold_written_all; [by destruct c|decide_now|]. intros k v acc E Ha. destruct (Hp k v E) as [[Hk _] (_ & Ht & _)]. unfold property_line. by rewrite parse_line_of.
Qed.

(** ** Numbered keys *)

Lemma numbered_prefix {A} (found : Z -> option A) fuel start :
  0 <= start -> start + Z.of_nat fuel <= 2 ^ 32 ->
  exists n xs, (n <= fuel)%nat /\ length xs = n /\ numbered found fuel start = imap (fun i x => (start + Z.of_nat i, x)) xs /\
    (forall i x, xs !! i = Some x -> found (start + Z.of_nat i) = Some x) /\ (n = fuel \/ found (start + Z.of_nat n) = None).
Proof.
  revert start. induction fuel as [|fuel IH]; intros start H0 Hs; [exists 0%nat, []; by split_and!; [lia| | | |left]|]. cbn [numbered].
  destruct (found start) as [x|] eqn:E; [|exists 0%nat, []; split_and!; [lia|done|done|done|right; by rewrite Z.add_0_r]].
  assert (numbered found fuel (wrap32 (start + 1)) = numbered found fuel (start + 1)) as ->.
  { destruct fuel; [done|]. f_equal. unfold wrap32, wrap. apply Z.mod_small. lia. }
  destruct (IH (start + 1) ltac:(lia) ltac:(lia)) as (n & xs & Hn & Hl & -> & Hx & Hend). exists (S n), (x :: xs). split_and!; [lia|simpl; lia| | |].
  - cbn [imap]. rewrite Z.add_0_r. f_equal. apply imap_ext. intros i y _. cbn. f_equal. lia.
  - intros [|i] y; [intros [= <-]; by rewrite Z.add_0_r|]. intros H. rewrite Nat2Z.inj_succ. replace (start + Z.succ (Z.of_nat i)) with (start + 1 + Z.of_nat i) by lia. by apply Hx.
  - destruct Hend as [->|Hend]; [by left|right]. by replace (start + Z.of_nat (S n)) with (start + 1 + Z.of_nat n) by lia.
Qed.

Lemma show_inj a b : 0 <= a < 2 ^ 64 -> 0 <= b < 2 ^ 64 -> show a = show b -> a = b.
Proof. intros Ha Hb E. by rewrite <- (show_value a Ha), E, show_value. Qed.

(** The loop over the numbered keys of a map of fewer than 2^32 keys ends at the first
    number without a key: the fuel, one more than the keys, is enough. *)
Theorem numbered_keys_exact (m : config_map) (prefix : bytes) :
  Z.of_nat (base.size m) < 2 ^ 32 ->
  exists xs, numbered (fun i => m !! (prefix ++ show i)) (S (base.size m)) 0 = imap (fun i x => (Z.of_nat i, x)) xs /\
    (forall i x, xs !! i = Some x -> m !! (prefix ++ show (Z.of_nat i)) = Some x) /\ m !! (prefix ++ show (Z.of_nat (length xs))) = None.
Proof.
  intros Hm. destruct (numbered_prefix (fun i => m !! (prefix ++ show i)) (S (base.size m)) 0 ltac:(lia) ltac:(lia)) as (n & xs & Hn & Hl & E & Hx & Hend).
  exists xs. split_and!; [exact E|exact Hx|]. destruct Hend as [->|Hend]; [exfalso|by rewrite Hl].
  set (keys := map (fun i => prefix ++ show (Z.of_nat i)) (seq 0 (length xs))).
  assert (NoDup keys) as Hnd.
  { apply NoDup_fmap_2_strong; [|apply NoDup_seq]. intros i j Hi%elem_of_seq Hj%elem_of_seq Eij. apply app_inv_head in Eij. apply show_inj in Eij; lia. }
  assert (list_to_set keys ⊆ dom m) as Hsub.
  { intros k Hk. apply elem_of_list_to_set, list_elem_of_fmap in Hk as (i & -> & Hi%elem_of_seq). apply elem_of_dom.
    destruct (lookup_lt_is_Some_2 xs i ltac:(lia)) as [x Hxi]. exists x. by apply (Hx i). }
  apply subseteq_size in Hsub. rewrite size_list_to_set in Hsub by done. rewrite size_dom in Hsub. unfold keys in Hsub. rewrite length_map, length_seq in Hsub. lia.
Qed.

(** ** What is lost *)

(** A key without values is written as a line that is not read: the key is lost. *)
Theorem empty_value_is_lost W : build_parse W (build_build (<[text "root" := []]> ∅)) = Some ∅.
Proof. by vm_compute. Qed.

(** [set_archives] writes an empty size for an archive without one, to keep the positions;
    [archives] leaves it out and gives the sizes to the wrong archives. *)
Theorem missing_size_shifts a b n :
  in_u 64 n ->
  archives (set_archives ∅ [{| ai_content_key := a; index_size := None |}; {| ai_content_key := b; index_size := Some n |}]) =
  [{| ai_content_key := a; index_size := Some n |}; {| ai_content_key := b; index_size := None |}].
Proof.
  unfold in_u. intros Hn. unfold set_archives. cbn [map existsb index_size ai_content_key orb]. destruct (show_cons n) as (c & l & E).
  assert (reverse (pop_empty (reverse [[]; show n])) = [[]; show n]) as -> by (rewrite E; reflexivity). cbn [length Nat.eqb].
  unfold archives, archive_infos, sizes_of. rewrite lookup_insert_eq, lookup_insert_ne, lookup_insert_eq by done. cbn [default imap omap list_omap].
  assert (u64_of [] = None) as -> by done. assert (u64_of (show n) = Some n) as -> by (unfold u64_of; apply parse_unsigned_show; lia). done.
Qed.

(** An entry with records and no specification is read back with the specification "n". *)
Theorem missing_espec_becomes_n :
  let r := {| original_ekey := replicate 32 97; original_size := 1; patch_key := replicate 32 98; patch_size := 2 |} in
  let e spec := {| entry_type := text "root"; pe_content_key := replicate 32 99; content_size := 3; pe_encoding_key := replicate 32 100; encoded_size := 4; espec := spec; patch_records := [r] |} in
  patch_parse (fun _ => false) (patch_build {| properties := ∅; pc_entries := [e []] |}) = Ok {| properties := ∅; pc_entries := [e (text "n")] |}.
Proof. by vm_compute. Qed.

(** Of two lines with the same key a build configuration keeps the last, a CDN
    configuration the words of both. *)
Theorem duplicate_keys_differ W :
  build_parse W (text "a = x" ++ [10] ++ text "a = y") = Some {[ text "a" := [text "y"] ]} /\
  cdn_parse W (text "a = x" ++ [10] ++ text "a = y") = Some {[ text "a" := [text "x"; text "y"] ]}.
Proof. by vm_compute. Qed.
