(* ===== verification/Keys.v ===== *)
(** * Encryption keys

    The keys that encrypted blocks are decrypted with (src/crates/cascette-crypto/src:
    keys.rs, store_trait.rs, armadillo.rs, murmur3.rs): the store with its text files, the
    interface of key providers as a class, its implementations, the chain of providers, and
    the key files.  A hash table is a finite map; the order in which one is walked is a
    parameter, as is MD5. *)

From S2P Require Import Prelude Bytes Text Utf8 Install InstallTheorems Lines KeyState KeyStateTheorems.
Local Open Scope Z_scope.

Module Keys.

Inductive CryptoError : Type :=
| InvalidKeySize (expected actual : nat)
| InvalidIvSize (expected actual : nat)
| KeyNotFound (id : Z)
| InvalidKeyFormat (why : string)
| RandomGenerationFailed.

Notation cresult := (result CryptoError).

Record TactKey := { id : Z; key : bytes }.

(** [hex::decode] refuses an odd length and other characters. *)
Definition from_hex (i : Z) (hex : bytes) : cresult TactKey :=
  match hex_decode (trim hex) with
  | None => Err (InvalidKeyFormat "invalid hex")
  | Some bytes => if negb (length bytes =? 16)%nat then Err (InvalidKeySize 16 (length bytes)) else Ok {| id := i; key := bytes |}
  end.

(** [u64::from_str_radix] of base sixteen. *)
Definition hex_value (s : bytes) : Z := fold_left (fun acc c => acc * 16 + default 0 (digit_val c)) s 0.

Definition parse_hex_digits (s : bytes) : option Z :=
  if (length s =? 0)%nat then None
  else if forallb is_hexdigit s then (let n := hex_value s in if n <? 2 ^ 64 then Some n else None) else None.

Definition from_str_radix_16 (s : bytes) : option Z := match s with 43 :: s' => parse_hex_digits s' | _ => parse_hex_digits s end.

Definition parse_key_id (s : bytes) : cresult Z :=
  let s := trim s in
  if Install.starts_with s (text "0x") || Install.starts_with s (text "0X") then
    match from_str_radix_16 (drop 2 s) with Some n => Ok n | None => Err (InvalidKeyFormat "invalid hex key ID") end
  else if forallb is_hexdigit s && (length s =? 16)%nat then
    match from_str_radix_16 s with Some n => Ok n | None => Err (InvalidKeyFormat "invalid hex key ID") end
  else match parse_unsigned (2 ^ 64 - 1) s with Some n => Ok n | None => Err (InvalidKeyFormat "invalid decimal key ID") end.

(** ** The store *)

Abbreviation TactKeyStore := (gmap Z bytes).

Definition add_key_from_hex (s : TactKeyStore) (i : Z) (hex : bytes) : TactKeyStore :=
  match from_hex i hex with Ok k => <[id k := key k]> s | Err _ => s end.

Definition hardcoded : list (Z * string) :=
  [(0xFA505078126ACB3E, "BDC51862ABED79B2DE48C8E7E66C6200"); (0xFF813F7D062AC0BC, "AA0B5C77F088CCC2D39049BD267F066D");
   (0xD1E9B5EDF9283668, "8E4A2579894E38B4AB9058BA5C7328EE"); (0xB76729641141CB34, "9849D1AA7B1FD09819C5C66283A326EC");
   (0xFFB9469FF16E6BF8, "D514BD1909A9E5DC8703F4B8BB1DFD9A"); (0x0EBE36B5010DFD7F, "9A89CC7E3ACB29CF14C60BC13B1E4616");
   (0xDEE3A0521EFF6F03, "AD740CE3FFFF9231468126985708E1B9"); (0x4F0FE18E9FA1AC1A, "89381C748F6531BBFCD97753D06CC3CD");
   (0x7758B2CF1E4E3E1B, "3DE60D37C664723595F27C5CDBF08BFA"); (0xE5317801B3561125, "7D1E61BF5FD58346972365D53ACC66DC")]%string.

Definition load_hardcoded_keys (s : TactKeyStore) : TactKeyStore := fold_left (fun s p => add_key_from_hex s p.1 (text p.2)) hardcoded s.

Definition store_new : TactKeyStore := load_hardcoded_keys ∅.
Definition store_get (s : TactKeyStore) (i : Z) : option bytes := s !! i.
Definition store_add (s : TactKeyStore) (k : TactKey) : TactKeyStore := <[id k := key k]> s.
Definition store_remove (s : TactKeyStore) (i : Z) : option bytes * TactKeyStore := (s !! i, delete i s).
Definition store_len (s : TactKeyStore) : nat := size s.

(** One line of a file: the store and the number of keys loaded so far. *)
Definition load_pair (st : TactKeyStore * Z) (id_text hex : bytes) : TactKeyStore * Z :=
  match parse_key_id id_text with
  | Ok i => match from_hex i hex with Ok k => (store_add st.1 k, st.2 + 1) | Err _ => st end
  | Err _ => st
  end.

Definition csv_line (st : TactKeyStore * Z) (line : bytes) : TactKeyStore * Z :=
  let line := trim line in
  if (length line =? 0)%nat || Install.starts_with line [35] then st
  else match Install.split_on 44 line with [a; b] => load_pair st (trim a) (trim b) | _ => st end.

Definition txt_line (st : TactKeyStore * Z) (line : bytes) : TactKeyStore * Z :=
  let line := trim line in
  if (length line =? 0)%nat || Install.starts_with line [35] || Install.starts_with line (text "//") then st
  else match split_whitespace line with a :: b :: _ => load_pair st a b | _ => st end.

Definition load_from_csv (s : TactKeyStore) (content : bytes) : TactKeyStore * Z := fold_left csv_line (read_lines content) (s, 0).
Definition load_from_txt (s : TactKeyStore) (content : bytes) : TactKeyStore * Z := fold_left txt_line (read_lines content) (s, 0).

(** ** Providers *)

Class TactKeyProvider (P : Type) : Type := {
  get_key : P -> Z -> cresult (option bytes);
  add_key : P -> TactKey -> cresult unit * P;
  remove_key : P -> Z -> cresult (option bytes) * P;
  key_count : P -> cresult nat;
  list_key_ids : P -> cresult (list Z)
}.

Definition is_empty {P} `{!TactKeyProvider P} (p : P) : cresult bool := n ← key_count p; Ok (n =? 0)%nat.
Definition contains_key {P} `{!TactKeyProvider P} (p : P) (i : Z) : cresult bool := k ← get_key p i; Ok (match k with Some _ => true | None => false end).

(** What a provider over one store promises: it is a finite map. *)
Class KeyMap (P : Type) `{!TactKeyProvider P} : Type := {
  view : P -> gmap Z bytes;
  get_view p i : get_key p i = Ok (view p !! i);
  add_view p k : (add_key p k).1 = Ok tt /\ view (add_key p k).2 = <[id k := key k]> (view p);
  remove_view p i : (remove_key p i).1 = Ok (view p !! i) /\ view (remove_key p i).2 = delete i (view p);
  count_view p : key_count p = Ok (size (view p));
  list_view p : exists l, list_key_ids p = Ok l /\ l ≡ₚ (map_to_list (view p)).*1
}.

Section Store.
(** The order in which the store is walked. *)
Context (order : list Z -> list Z).

#[export] Instance store_provider : TactKeyProvider TactKeyStore := {|
  get_key s i := Ok (store_get s i);
  add_key s k := (Ok tt, store_add s k);
  remove_key s i := let '(r, s) := store_remove s i in (Ok r, s);
  key_count s := Ok (store_len s);
  list_key_ids s := Ok (order (map_to_list s).*1)
|}.
End Store.

(** A provider in front of any other. *)
Record UnifiedKeyStore (T : Type) := Unified { backend : T }.
Arguments Unified {T}.
Arguments backend {T}.

#[export] Instance unified_provider {T} `{!TactKeyProvider T} : TactKeyProvider (UnifiedKeyStore T) := {|
  get_key u i := get_key (backend u) i;
  add_key u k := let '(r, b) := add_key (backend u) k in (r, Unified b);
  remove_key u i := let '(r, b) := remove_key (backend u) i in (r, Unified b);
  key_count u := key_count (backend u);
  list_key_ids u := list_key_ids (backend u)
|}.

(** [Box<dyn TactKeyProvider>]: a value with its implementation. *)
Record provider : Type := Provider { carrier : Type; impl : TactKeyProvider carrier; value : carrier }.

Definition ChainedKeyProvider : Type := list provider.

Definition chain_new (primary : provider) : ChainedKeyProvider := [primary].
Definition chain_push (c : ChainedKeyProvider) (p : provider) : ChainedKeyProvider := c ++ [p].

Fixpoint chain_get_key (c : ChainedKeyProvider) (i : Z) : cresult (option bytes) :=
  match c with
  | [] => Ok None
  | p :: c => k ← @get_key _ (impl p) (value p) i; match k with Some k => Ok (Some k) | None => chain_get_key c i end
  end.

Definition chain_add_key (c : ChainedKeyProvider) (k : TactKey) : cresult unit * ChainedKeyProvider :=
  match c with
  | [] => (Err (InvalidKeyFormat "no providers in chain"), [])
  | p :: c => let '(r, v) := @add_key _ (impl p) (value p) k in (r, Provider (carrier p) (impl p) v :: c)
  end.

Definition chain_remove_key (c : ChainedKeyProvider) (i : Z) : cresult (option bytes) * ChainedKeyProvider :=
  match c with
  | [] => (Ok None, [])
  | p :: c => let '(r, v) := @remove_key _ (impl p) (value p) i in (r, Provider (carrier p) (impl p) v :: c)
  end.

Fixpoint chain_key_count (c : ChainedKeyProvider) : cresult nat :=
  match c with
  | [] => Ok 0%nat
  | p :: c => n ← @key_count _ (impl p) (value p); m ← chain_key_count c; Ok (n + m)%nat
  end.

Fixpoint chain_seen (c : ChainedKeyProvider) (seen : gset Z) : cresult (gset Z) :=
  match c with
  | [] => Ok seen
  | p :: c => l ← @list_key_ids _ (impl p) (value p); chain_seen c (seen ∪ list_to_set l)
  end.

#[export] Instance chained_provider (order : list Z -> list Z) : TactKeyProvider ChainedKeyProvider := {|
  get_key := chain_get_key;
  add_key := chain_add_key;
  remove_key := chain_remove_key;
  key_count := chain_key_count;
  list_key_ids c := seen ← chain_seen c ∅; Ok (order (elements seen))
|}.

(** ** Key files and the hash of a key id *)

Definition murmur3_fmix64 (k : Z) : Z :=
  let k := Z.lxor k (Z.shiftr k 33) in
  let k := wrap64 (k * 0xff51afd7ed558ccd) in
  let k := Z.lxor k (Z.shiftr k 33) in
  let k := wrap64 (k * 0xc4ceb9fe1a85ec53) in
  Z.lxor k (Z.shiftr k 33).

Inductive ArmadilloError := InvalidHexLength (n : nat) | InvalidHex | InvalidFileSize (n : nat) | ChecksumMismatch.

Definition parse_hex_key (hex : bytes) : result ArmadilloError bytes :=
  if negb (length hex =? 32)%nat then Err (InvalidHexLength (length hex))
  else match hex_decode hex with Some k => Ok k | None => Err InvalidHex end.

Section Armadillo.
Context (md5 : bytes -> bytes).

Definition parse_ak_file (data : bytes) : result ArmadilloError bytes :=
  if negb (length data =? 20)%nat then Err (InvalidFileSize (length data))
  else
    let key_data := take 16 data in
    let stored_checksum := slice 16 20 data in
    if bool_decide (stored_checksum = take 4 (md5 key_data)) then Ok key_data else Err ChecksumMismatch.

Definition write_ak_file (key : bytes) : bytes := key ++ take 4 (md5 key).
End Armadillo.

End Keys.
