(* ===== verification/KeysTheorems.v ===== *)
(** * Encryption keys: the theorems

    A store is a finite map, and so is a provider in front of one; a chain of providers
    looks keys up in the union of its providers; the text files load exactly their keys. *)

From S2P Require Import Prelude Bytes Text Utf8 Install InstallTheorems Lines KeyState KeyStateTheorems Config ConfigTheorems Keys.
Import Keys.
Local Open Scope Z_scope.

(** ** Providers *)

(** The store is a finite map, in whatever order it is walked. *)
#[export, refine] Instance store_key_map order (Horder : forall l : list Z, order l ≡ₚ l) : @KeyMap TactKeyStore (store_provider order) := {| view s := s |}.
Proof.
  - done.
  - done.
  - done.
  - done.
  - intros s. eexists. split; [reflexivity|]. apply Horder.
Defined.

(** A provider in front of a finite map is that map. *)
#[export, refine] Instance unified_key_map {T} `{!TactKeyProvider T} {K : KeyMap T} : KeyMap (UnifiedKeyStore T) := {| view u := view (backend u) |}.
Proof.
  - intros u i. apply (get_view (backend u)).
  - intros u k. cbn. destruct (add_view (backend u) k) as [H1 H2]. by destruct (add_key (backend u) k).
  - intros u i. cbn. destruct (remove_view (backend u) i) as [H1 H2]. by destruct (remove_key (backend u) i).
  - intros u. apply (count_view (backend u)).
  - intros u. apply (list_view (backend u)).
Defined.

(** Providers that are finite maps. *)
Record mapped : Type := Mapped { m_carrier : Type; m_impl : TactKeyProvider m_carrier; m_laws : @KeyMap m_carrier m_impl; m_value : m_carrier }.

Definition provider_of (p : mapped) : provider := Provider (m_carrier p) (m_impl p) (m_value p).
Definition map_of (p : mapped) : gmap Z bytes := @view _ (m_impl p) (m_laws p) (m_value p).
Definition chain_of (ps : list mapped) : ChainedKeyProvider := map provider_of ps.

(** Earlier providers hide later ones. *)
Definition union_of (ps : list mapped) : gmap Z bytes := foldr (fun p m => map_of p ∪ m) ∅ ps.

Lemma chain_get ps i : chain_get_key (chain_of ps) i = Ok (union_of ps !! i).
Proof.
  induction ps as [|p ps IH]; [done|]. cbn [chain_of map chain_get_key union_of foldr]. change (map provider_of ps) with (chain_of ps).
  cbn [carrier impl value provider_of]. rewrite (@get_view _ _ (m_laws p)). cbn [mbind result_bind]. fold (map_of p). fold (union_of ps). rewrite lookup_union.
  destruct (map_of p !! i) as [k|] eqn:E; rewrite ?E; [by destruct (union_of ps !! i)|]. rewrite IH. by destruct (union_of ps !! i).
Qed.

Lemma chain_seen_all ps seen : exists s, chain_seen (chain_of ps) seen = Ok s /\ forall i, i ∈ s <-> i ∈ seen \/ is_Some (union_of ps !! i).
Proof.
  revert seen. induction ps as [|p ps IH]; intros seen.
  - exists seen. split; [done|]. intros i. cbn [union_of foldr]. rewrite lookup_empty. split; [by left|]. intros [?|[? ?]]; done.
  - cbn [chain_of map chain_seen]. change (map provider_of ps) with (chain_of ps). cbn [carrier impl value provider_of].
    destruct (@list_view _ _ (m_laws p) (m_value p)) as (l & -> & Hl). cbn [mbind result_bind]. destruct (IH (seen ∪ list_to_set l)) as (s & -> & Hs). exists s. split; [done|].
    intros i. rewrite Hs, elem_of_union, elem_of_list_to_set, Hl. fold (map_of p). cbn [union_of foldr]. fold (union_of ps). rewrite lookup_union_is_Some.
    assert (i ∈ (map_to_list (map_of p)).*1 <-> is_Some (map_of p !! i)) as ->; [|tauto].
    rewrite list_elem_of_fmap. split.
    + intros ([j v] & -> & Hj%elem_of_map_to_list). by exists v.
    + intros [v Hv]. exists (i, v). split; [done|]. by apply elem_of_map_to_list.
Qed.

(** A chain of providers that are finite maps looks keys up in their union, the first
    provider first; a key that is added is found; the ids listed are those of the union. *)
Theorem chain_is_union order ps :
  (forall l : list Z, order l ≡ₚ l) ->
  (forall i, @get_key _ (chained_provider order) (chain_of ps) i = Ok (union_of ps !! i)) /\
  (exists l, @list_key_ids _ (chained_provider order) (chain_of ps) = Ok l /\ NoDup l /\ forall i, (i ∈ l) <-> is_Some (union_of ps !! i)) /\
  (forall k, ps <> [] -> exists ps', chain_add_key (chain_of ps) k = (Ok tt, chain_of ps') /\ union_of ps' = <[id k := key k]> (union_of ps)).
Proof.
  intros Horder. split_and!; [intros i; apply chain_get| |].
  - cbn [list_key_ids chained_provider]. destruct (chain_seen_all ps ∅) as (s & -> & Hs). cbn [mbind result_bind]. eexists. split; [reflexivity|].
    split; [rewrite Horder; apply NoDup_elements|]. intros i. rewrite Horder, elem_of_elements, Hs. split; [by intros [?%elem_of_empty|?]|by right].
  - intros k Hps. destruct ps as [|p ps]; [done|]. cbn [chain_of map chain_add_key]. cbn [impl value carrier provider_of].
    destruct (@add_view _ _ (m_laws p) (m_value p) k) as [H1 H2]. destruct (@add_key _ (m_impl p) (m_value p) k) as [r v] eqn:E. cbn [fst snd] in H1, H2. subst r.
    exists (Mapped (m_carrier p) (m_impl p) (m_laws p) v :: ps). split; [done|]. cbn [union_of foldr]. fold (union_of ps). unfold map_of at 1. cbn [m_value m_laws m_impl m_carrier].
    rewrite H2. by rewrite insert_union_l.
Qed.

Definition two_stores (k1 k2 : bytes) : list mapped :=
  [Mapped _ (store_provider (fun l => l)) (store_key_map (fun l => l) (fun l => reflexivity l)) {[ 7 := k1 ]}; Mapped _ (store_provider (fun l => l)) (store_key_map (fun l => l) (fun l => reflexivity l)) {[ 7 := k2 ]}].

(** Removing a key from the chain removes it from the first provider only: the key of a
    later one takes its place; and the count of the chain counts a key once per provider. *)
Theorem removed_key_reappears k1 k2 :
  let '(r, c) := chain_remove_key (chain_of (two_stores k1 k2)) 7 in
  r = Ok (Some k1) /\ chain_get_key c 7 = Ok (Some k2) /\ chain_key_count (chain_of (two_stores k1 k2)) = Ok 2%nat /\ size (union_of (two_stores k1 k2)) = 1%nat.
Proof. split_and!; reflexivity. Qed.

(** ** Text files *)

Definition key_ok (k : TactKey) : Prop := u64 (id k) /\ is_array 16 (key k).

(** An id as sixteen hexadecimal digits. *)
Definition show_id (i : Z) : bytes := hex_be 8 i.

Lemma hex_value_encode l a : is_bytes l ->
  fold_left (fun acc c => acc * 16 + default 0 (digit_val c)) (hex_encode l) a = fold_left (fun acc b => acc * 256 + b) l a.
Proof.
  intros H. revert a. induction H as [|b l Hb H IH]; intros a; [done|]. unfold hex_encode in *. cbn [map concat hex_byte app fold_left]. unfold in_u in Hb.
  assert (0 <= b / 16 < 16) by (split; [apply Z.div_pos; lia|apply Z.div_lt_upper_bound; lia]). pose proof (Z.mod_pos_bound b 16 ltac:(lia)).
  rewrite !digit_val_hex_digit by lia. assert (forall x : Z, default 0 (Some x) = x) as Hd by done. rewrite !Hd, IH. f_equal. pose proof (Z.div_mod b 16 ltac:(lia)). lia.
Qed.

Lemma fold_be l : fold_left (fun acc b => acc * 256 + b) l 0 = from_be_bytes l.
Proof.
  unfold from_be_bytes. induction l as [|b l IH] using rev_ind; [done|]. rewrite fold_left_app, reverse_app. cbn [fold_left]. rewrite IH.
  change (reverse [b] ++ reverse l) with (b :: reverse l). cbn [from_le_bytes]. lia.
Qed.

Lemma show_id_text i : u64 i -> length (show_id i) = 16%nat /\ forallb is_hexdigit (show_id i) = true /\ from_str_radix_16 (show_id i) = Some i.
Proof.
  intros Hi. pose proof (to_be_bytes_bytes 8 i) as Hb. assert (length (show_id i) = 16%nat) as Hl by (change (length (hex_encode (to_be_bytes 8 i)) = 16%nat); by rewrite length_hex_encode, length_to_be_bytes).
  assert (forallb is_hexdigit (show_id i) = true) as Hh.
  { apply forallb_forall. intros c Hc. pose proof (hex_encode_digits _ Hb) as H. rewrite List.Forall_forall in H. by apply H. }
  split_and!; [done..|]. assert (from_str_radix_16 (show_id i) = parse_hex_digits (show_id i)) as ->.
  { destruct (show_id i) as [|c s]; [done|]. cbn [forallb] in Hh. apply andb_true_iff in Hh as [Hc _]. unfold from_str_radix_16. repeat case_match; subst; try done. }
  unfold parse_hex_digits. rewrite Hl, Hh. cbn [Nat.eqb]. unfold hex_value, show_id, hex_be. change (concat (map hex_byte (to_be_bytes 8 i))) with (hex_encode (to_be_bytes 8 i)).
  rewrite hex_value_encode, fold_be by done. rewrite (be_roundtrip 8 64) by done. cbv zeta. by rewrite (proj2 (Z.ltb_lt _ _)) by (unfold in_u in Hi; lia).
Qed.

Lemma hex_word l : is_bytes l -> l <> [] -> word (hex_encode l) /\ trim (hex_encode l) = hex_encode l.
Proof.
  intros Hl Hne. assert (ConfigTheorems.key_ok (hex_encode l)) as Hk.
  { split; [destruct l; [done|]; unfold hex_encode; by cbn|]. eapply Forall_impl; [by apply hex_encode_digits|]. intros c.
    unfold is_hexdigit, key_byte, is_alnum, is_digit, in_rng. rewrite !orb_true_iff, !andb_true_iff. lia. }
  split; [by apply key_word|by apply key_trim].
Qed.

Lemma load_pair_key st k : key_ok k -> load_pair st (show_id (id k)) (hex_encode (key k)) = (store_add st.1 k, st.2 + 1).
Proof.
  intros [Hi [Hl Hb]]. unfold load_pair, parse_key_id. destruct (show_id_text (id k) Hi) as (H1 & H2 & H3).
  assert (trim (show_id (id k)) = show_id (id k)) as -> by (apply hex_word; [apply to_be_bytes_bytes|]; intros E; apply (f_equal length) in E; by rewrite length_to_be_bytes in E).
  assert (forall c, is_hexdigit c = false -> forall d, Install.starts_with (show_id (id k)) [d; c] = false) as Hx.
  { intros c Hc d. apply not_true_iff_false. intros [t E]%starts_with_spec. rewrite E in H2. cbn [app forallb] in H2. by rewrite Hc, andb_false_r in H2. }
  cbv zeta. change (text "0x") with [48; 120]. change (text "0X") with [48; 88]. rewrite !Hx by done. rewrite H1, H2, H3. cbn [orb andb Nat.eqb]. unfold from_hex.
  rewrite (proj2 (hex_word (key k) Hb ltac:(by intros E; rewrite E in Hl))), hex_roundtrip by done. rewrite Hl. cbn [Nat.eqb negb]. by destruct k.
Qed.

Definition txt_of (k : TactKey) : bytes := join 32 [show_id (id k); hex_encode (key k)].
Definition csv_of (k : TactKey) : bytes := show_id (id k) ++ 44 :: hex_encode (key k).

Lemma hex_words k : key_ok k -> Forall word [show_id (id k); hex_encode (key k)].
Proof.
  intros [Hi [Hl Hb]]. constructor; [|constructor; [|constructor]]; apply hex_word; [apply to_be_bytes_bytes| |done|by intros E; rewrite E in Hl].
  intros E. apply (f_equal length) in E. by rewrite length_to_be_bytes in E.
Qed.

Lemma hex_first k : key_ok k -> exists c s, show_id (id k) = c :: s /\ is_hexdigit c = true.
Proof.
  intros [Hi _]. destruct (show_id_text (id k) Hi) as (H1 & H2 & _). destruct (show_id (id k)) as [|c s]; [done|]. exists c, s. split; [done|]. by apply andb_true_iff in H2 as [? _].
Qed.

(** What a loaded file does to a store. *)
Definition loaded (s : TactKeyStore) (ks : list TactKey) : TactKeyStore * Z := (fold_left store_add ks s, Z.of_nat (length ks)).

Lemma fold_loaded step (show_key : TactKey -> bytes) ks s n :
  (forall st k, key_ok k -> step st (show_key k) = (store_add st.1 k, st.2 + 1)) -> Forall key_ok ks ->
  fold_left step (map show_key ks) (s, n) = (fold_left store_add ks s, n + Z.of_nat (length ks)).
Proof.
  intros Hstep H. revert s n. induction H as [|k ks Hk H IH]; intros s n; [cbn; by rewrite Z.add_0_r|]. cbn [map fold_left]. rewrite Hstep by done. cbn [fst snd]. rewrite IH. f_equal. simpl. lia.
Qed.

Lemma txt_line_key st k : key_ok k -> txt_line st (txt_of k) = (store_add st.1 k, st.2 + 1).
Proof.
  intros Hk. pose proof (hex_words k Hk) as Hw. unfold txt_line. cbv zeta. unfold txt_of. rewrite trim_words by done. destruct (hex_first k Hk) as (c & s & E & Hc).
  assert (forall t, Install.starts_with (join 32 [show_id (id k); hex_encode (key k)]) (35 :: t) = false /\ Install.starts_with (join 32 [show_id (id k); hex_encode (key k)]) (47 :: t) = false) as Hs.
  { intros t. split; apply not_true_iff_false; intros [u Eu]%starts_with_spec; rewrite E in Eu; injection Eu as -> _; done. }
  destruct (Hs []) as [-> _]. change (text "//") with (47 :: [47]). destruct (Hs [47]) as [_ ->].
  assert ((length (join 32 [show_id (id k); hex_encode (key k)]) =? 0)%nat = false) as -> by (rewrite E; done). cbn [orb].
  rewrite split_whitespace_join by done. by apply load_pair_key.
Qed.

(** A file with one key per line, the id as sixteen digits, loads exactly its keys, a later
    one over an earlier of the same id, and counts them. *)
Theorem txt_keys_loaded s ks : Forall key_ok ks -> load_from_txt s (concat (map (fun k => txt_of k ++ [10]) ks)) = loaded s ks.
Proof.
  intros H. unfold load_from_txt. rewrite <- (map_map txt_of (fun l => l ++ [10])). rewrite read_lines_concat.
  - rewrite (fold_loaded txt_line txt_of) by (done || apply txt_line_key). done.
  - apply Forall_map. eapply Forall_impl; [exact H|]. intros k Hk. by apply words_text, hex_words.
Qed.

Lemma csv_line_key st k : key_ok k -> csv_line st (csv_of k) = (store_add st.1 k, st.2 + 1).
Proof.
  intros Hk. pose proof (hex_words k Hk) as Hw. apply Forall_cons in Hw as [Hw1 [Hw2 _]%Forall_cons]. destruct (hex_first k Hk) as (c & s & E & Hc).
  assert (is_hexdigit c = true -> 48 <= c < 128) as Hr by (unfold is_hexdigit, is_digit, in_rng; rewrite !orb_true_iff, !andb_true_iff; lia). specialize (Hr Hc).
  assert (trim (csv_of k) = csv_of k) as Ht.
  { unfold trim, csv_of. rewrite E. cbn [app]. rewrite trim_start_printable by lia. rewrite (app_comm_cons s (44 :: hex_encode (key k)) c), <- E.
    change (44 :: hex_encode (key k)) with ([44] ++ hex_encode (key k)). rewrite app_assoc. destruct Hw2 as (Hne & Hns & _).
    apply trim_end_app; [done|by apply trim_end_no_space|]. right. by exists (show_id (id k)), 44. }
  unfold csv_line. cbv zeta. rewrite Ht. assert ((length (csv_of k) =? 0)%nat || Install.starts_with (csv_of k) [35] = false) as ->.
  { unfold csv_of. rewrite E. apply bool_decide_eq_false. cbn [app length take]. intros [= ->]. done. }
  destruct Hk as [Hi [Hl Hb]]. assert (forall l, is_bytes l -> lacks 44 (hex_encode l)) as Hlack by (intros l H; eapply lacks_range; [by apply hex_range|lia]).
  unfold csv_of. rewrite split_on_cut by (apply (Hlack (to_be_bytes 8 (id k))), to_be_bytes_bytes). rewrite split_on_lacks by (by apply Hlack).
  assert (forall l, is_bytes l -> l <> [] -> trim (hex_encode l) = hex_encode l) as Htr by (intros l H1 H2; by apply hex_word).
  rewrite Htr by (done || (by intros E0; rewrite E0 in Hl)).
  assert (trim (show_id (id k)) = show_id (id k)) as -> by (apply Htr; [apply to_be_bytes_bytes|]; intros E0; apply (f_equal length) in E0; by rewrite length_to_be_bytes in E0).
  by apply load_pair_key.
Qed.

Theorem csv_keys_loaded s ks : Forall key_ok ks -> load_from_csv s (concat (map (fun k => csv_of k ++ [10]) ks)) = loaded s ks.
Proof.
  intros H. unfold load_from_csv. rewrite <- (map_map csv_of (fun l => l ++ [10])). rewrite read_lines_concat.
  - rewrite (fold_loaded csv_line csv_of) by (done || apply csv_line_key). done.
  - apply Forall_map. eapply Forall_impl; [exact H|]. intros k [Hi [Hl Hb]]. apply lacks_app; [|constructor; [done|]]; (eapply lacks_range; [apply hex_range|lia]); [apply to_be_bytes_bytes|done].
Qed.

(** The built-in keys are all well formed: none is skipped. *)
Theorem hardcoded_keys_loaded :
  size store_new = 10%nat /\ Forall (fun p => store_get store_new p.1 = hex_decode (text p.2)) hardcoded.
Proof. by vm_compute; repeat constructor. Qed.

(** A decimal id of sixteen digits is taken for a hexadecimal one. *)
Theorem sixteen_digits_are_hexadecimal :
  parse_key_id (text "1000000000000000") = Ok (2 ^ 60) /\ parse_key_id (text "100000000000000") = Ok (10 ^ 14) /\ parse_key_id (text "10000000000000000") = Ok (10 ^ 16).
Proof. by vm_compute. Qed.

(** ** The hash of a key id and the key files *)

(** The mixer of key ids is the one of the residency database, and a bijection. *)
Theorem fmix64_bijective k : u64 k -> murmur3_fmix64 k = Residency.murmurhash3_finalize k /\ u64 (murmur3_fmix64 k) /\ unfinalize (murmur3_fmix64 k) = k.
Proof. intros Hk. split_and!; [done|by apply murmur_range|by apply unfinalize_murmur]. Qed.

(** A key file is accepted exactly when it is what writing its key gives. *)
Theorem ak_file_exact md5 data k :
  (forall l, length (md5 l) = 16%nat) -> parse_ak_file md5 data = Ok k <-> length k = 16%nat /\ data = write_ak_file md5 k.
Proof.
  intros Hmd5. unfold parse_ak_file, write_ak_file. assert (forall l, length (take 4 (md5 l)) = 4%nat) as H4 by (intros l; rewrite length_take, Hmd5; lia). split.
  - destruct (Nat.eqb_spec (length data) 20) as [Hl|]; cbn [negb]; [|done]. cbv zeta. destruct (bool_decide _) eqn:E; [|done]. intros [= <-]. apply bool_decide_eq_true in E.
    split; [rewrite length_take; lia|]. rewrite <- E. rewrite <- (take_drop 16 data) at 1. f_equal. unfold slice. rewrite take_ge; [done|]. rewrite length_drop. lia.
  - intros [Hk ->]. rewrite length_app, H4, Hk. cbn [Nat.eqb negb Nat.add]. cbv zeta. rewrite take_app_length' by done. unfold slice. rewrite drop_app_length' by done.
    rewrite (take_ge (take 4 (md5 k))) by (rewrite H4; lia). by rewrite bool_decide_eq_true_2.
Qed.
