(* ===== verification/Root.v ===== *)
(** * Root files

    The table from file identifiers and name hashes to content keys in its four
    versions (src/crates/cascette-formats/src/root): version detection, headers, blocks,
    delta-coded identifiers, lookup tables, parser and builder.  Locale and content
    flags are their bits.  Unicode upper-casing and the iteration order of a [HashMap]
    are parameters. *)

From S2P Require Import Prelude Bytes Collections Cursor Jenkins.
Local Open Scope Z_scope.

Module Root.

Inductive RootError : Type :=
| InvalidMagic (magic : bytes)
| UnsupportedVersion (v : Z)
| TruncatedBlock (offset : Z)
| InvalidDelta
| CorruptedBlockHeader (why : string)
| InvalidFlags (content locale : Z)
| NameHashError (path : bytes)
| LookupError
| Io
| BinRw.

Notation rresult := (result RootError).

(** ** Versions *)

Inductive RootVersion : Type := V1 | V2 | V3 | V4.

#[export] Instance RootVersion_eq_dec : EqDecision RootVersion.
Proof. solve_decision. Defined.

Definition MFST : bytes := [77; 70; 83; 84].
Definition TSFM : bytes := [84; 83; 70; 77].

(** A [u32] in the order the magic tells. *)
Definition read_u32 (little : bool) (input : bytes) : rresult (Z * bytes) := if little then read_le Io 4 input else read_be Io 4 input.
Definition write_u32 (little : bool) (v : Z) : bytes := if little then to_le_bytes 4 v else to_be_bytes 4 v.

Definition detect_v2_v3_v4 (little : bool) (input : bytes) : rresult RootVersion :=
  '(value1, i) ← read_u32 little input;
  '(value2, _) ← read_u32 little i;
  if (16 <=? value1) && (value1 <? 100) && (1 <=? value2) && (value2 <=? 4) then
    Ok (if value2 <=? 2 then V2 else if value2 =? 3 then V3 else V4)
  else Ok V2.

Definition detect (data : bytes) : rresult RootVersion :=
  '(magic, i) ← read Io 4 data;
  if bool_decide (magic = MFST) then detect_v2_v3_v4 false i
  else if bool_decide (magic = TSFM) then detect_v2_v3_v4 true i
  else Ok V1.

Definition has_header (v : RootVersion) : bool := match v with V1 => false | _ => true end.
Definition uses_separated_arrays (v : RootVersion) : bool := match v with V1 => false | _ => true end.
Definition supports_extended_content_flags (v : RootVersion) : bool := match v with V4 => true | _ => false end.
Definition content_flags_size (v : RootVersion) : nat := match v with V4 => 5%nat | _ => 4%nat end.
Definition to_u32 (v : RootVersion) : Z := match v with V1 => 1 | V2 => 2 | V3 => 3 | V4 => 4 end.
Definition from_u32 (value : Z) : option RootVersion :=
  match value with 1 => Some V1 | 2 => Some V2 | 3 => Some V3 | 4 => Some V4 | _ => None end.

(** ** Flags *)

Definition NO_NAME_HASH : Z := 0x10000000.

Definition has (value flag : Z) : bool := negb (Z.land value flag =? 0).
Definition has_name_hashes (content : Z) : bool := negb (has content NO_NAME_HASH).

Definition read_v4 (input : bytes) : rresult (Z * bytes) :=
  '(low, i) ← read_le BinRw 4 input;
  '(high, i) ← read_le BinRw 1 i;
  Ok (Z.lor low (Z.shiftl high 32), i).

Definition write_v4 (value : Z) : bytes := to_le_bytes 4 (Z.land value 0xFFFFFFFF) ++ to_le_bytes 1 (Z.land (Z.shiftr value 32) 0xFF).

(** ** Header *)

Inductive RootMagic : Type := Mfst | Tsfm.

Definition magic_bytes (m : RootMagic) : bytes := match m with Mfst => MFST | Tsfm => TSFM end.
Definition is_little_endian (m : RootMagic) : bool := match m with Mfst => false | Tsfm => true end.

Record RootHeaderInfo := { info_total_files : Z; info_named_files : Z }.

Inductive RootHeader : Type :=
| HeaderV2 (magic : RootMagic) (info : RootHeaderInfo)
| HeaderV3V4 (magic : RootMagic) (header_size version : Z) (info : RootHeaderInfo) (padding : Z).

Definition new_v2 (total_files named_files : Z) : RootHeader :=
  HeaderV2 Tsfm {| info_total_files := total_files; info_named_files := named_files |}.

Definition new_v3v4 (version total_files named_files : Z) : RootHeader :=
  HeaderV3V4 Tsfm 20 version {| info_total_files := total_files; info_named_files := named_files |} 0.

Definition header_info (h : RootHeader) : RootHeaderInfo := match h with HeaderV2 _ i | HeaderV3V4 _ _ _ i _ => i end.
Definition header_total_files (h : RootHeader) : Z := info_total_files (header_info h).
Definition header_named_files (h : RootHeader) : Z := info_named_files (header_info h).

Definition header_version (h : RootHeader) : RootVersion :=
  match h with
  | HeaderV2 _ _ => V2
  | HeaderV3V4 _ _ v _ _ => if (v =? 1) || (v =? 2) then V2 else if v =? 3 then V3 else if 4 <=? v then V4 else V3
  end.

Definition read_info (little : bool) (input : bytes) : rresult (RootHeaderInfo * bytes) :=
  '(total, i) ← read_u32 little input;
  '(named, i) ← read_u32 little i;
  Ok ({| info_total_files := total; info_named_files := named |}, i).

(** What a header longer than twenty bytes has behind its fields: a word, if there is
    room for one, and the rest skipped. *)
Definition read_padding (little : bool) (header_size : Z) (input : bytes) : rresult (Z * bytes) :=
  if 20 <? header_size then
    let skip := header_size - 20 in
    if 4 <=? skip then
      '(val, i) ← read_u32 little input;
      if 4 <? skip then '(_, i) ← read Io (Z.to_nat (skip - 4)) i; Ok (val, i) else Ok (val, i)
    else '(_, i) ← read Io (Z.to_nat skip) input; Ok (0, i)
  else Ok (0, input).

Definition is_extended_header (value1 value2 : Z) : bool := (16 <=? value1) && (value1 <? 100) && (value2 <? 10) && (value2 <? value1).

(** [unreachable!] for V1, which the caller excludes. *)
Definition read_header (input : bytes) : rresult (RootHeader * bytes) :=
  '(mb, i) ← read Io 4 input;
  let magic := if bool_decide (mb = TSFM) then Tsfm else Mfst in
  let little := is_little_endian magic in
  '(value1, i) ← read_u32 little i;
  '(value2, i) ← read_u32 little i;
  if is_extended_header value1 value2 then
    '(info, i) ← read_info little i;
    '(padding, i) ← read_padding little value1 i;
    Ok (HeaderV3V4 magic value1 value2 info padding, i)
  else Ok (HeaderV2 magic {| info_total_files := value1; info_named_files := value2 |}, i).

Definition write_info (little : bool) (i : RootHeaderInfo) : bytes := write_u32 little (info_total_files i) ++ write_u32 little (info_named_files i).

Definition write_header (h : RootHeader) : bytes :=
  match h with
  | HeaderV2 m i => magic_bytes m ++ write_info (is_little_endian m) i
  | HeaderV3V4 m size v i padding =>
      let l := is_little_endian m in
      magic_bytes m ++ write_u32 l size ++ write_u32 l v ++ write_info l i ++ (if 20 <? size then write_u32 l padding else [])
  end.

(** ** Records and blocks *)

Record RootRecord := { file_data_id : Z; content_key : bytes; name_hash : option Z }.

Record RootBlockHeader := { num_records : Z; content_flags : Z; locale_flags : Z }.

Record RootBlock := { block_header : RootBlockHeader; records : list RootRecord }.

Definition block_content (b : RootBlock) : Z := content_flags (block_header b).
Definition block_locale (b : RootBlock) : Z := locale_flags (block_header b).
Definition block_count (b : RootBlock) : Z := num_records (block_header b).

Definition block_new (content locale : Z) : RootBlock :=
  {| block_header := {| num_records := 0; content_flags := content; locale_flags := locale |}; records := [] |}.

Definition block_add_record (b : RootBlock) (r : RootRecord) : RootBlock :=
  let records := records b ++ [r] in
  {| block_header := {| num_records := wrap32 (Z.of_nat (length records)); content_flags := block_content b; locale_flags := block_locale b |};
     records := records |}.

Definition with_records (b : RootBlock) (rs : list RootRecord) : RootBlock := {| block_header := block_header b; records := rs |}.

Definition sort_records (b : RootBlock) : RootBlock := with_records b (sort_by_key file_data_id (records b)).

Definition block_has_name_hashes (b : RootBlock) (v : RootVersion) (has_named_files : bool) : bool :=
  match v with V1 => true | _ => has_named_files && has_name_hashes (block_content b) end.

Definition calculate_size (b : RootBlock) (v : RootVersion) (has_named_files : bool) : nat :=
  let header_size := match v with V1 => 12 | V2 | V3 => 17 | V4 => 18 end%nat in
  let count := length (records b) in
  if (count =? 0)%nat then header_size
  else (header_size + count * 4 + count * 16 + (if block_has_name_hashes b v has_named_files then count * 8 else 0))%nat.

(** [currentId += delta; fileId = currentId++]. *)
Fixpoint decode_file_data_ids_tact (current_id : Z) (deltas : list Z) : list Z :=
  match deltas with
  | [] => []
  | delta :: deltas =>
      let file_id := wrap32 (current_id + delta) in
      file_id :: decode_file_data_ids_tact (wrap32 (file_id + 1)) deltas
  end.

Fixpoint encode_rest (prev : Z) (fdids : list Z) : list Z :=
  match fdids with
  | [] => []
  | current :: fdids => wrap32 (wrap32 (current - prev) - 1) :: encode_rest current fdids
  end.

Definition encode_file_data_ids_tact (fdids : list Z) : list Z :=
  match fdids with
  | [] => []
  | first :: fdids => first :: encode_rest first fdids
  end.

(** The records of V1: the deltas, then key and hash of each record. *)
Definition read_v1_record (input : bytes) : rresult (bytes * Z * bytes) :=
  '(k, i) ← read BinRw 16 input;
  '(h, i) ← read_le BinRw 8 i;
  Ok (k, h, i).

Definition parse_v1_block (header : RootBlockHeader) (count : nat) (input : bytes) : rresult (RootBlock * bytes) :=
  '(deltas, i) ← read_many count (read_le BinRw 4) input;
  let fdids := decode_file_data_ids_tact 0 deltas in
  '(keys, i) ← read_many (length fdids) read_v1_record i;
  Ok ({| block_header := header;
         records := zip_with (fun fdid kh => {| file_data_id := fdid; content_key := kh.1; name_hash := Some kh.2 |}) fdids keys |}, i).

(** The three arrays of the later versions. *)
Definition parse_v2_block (header : RootBlockHeader) (count : nat) (content : Z) (input : bytes) : rresult (RootBlock * bytes) :=
  '(deltas, i) ← read_many count (read_le BinRw 4) input;
  let fdids := decode_file_data_ids_tact 0 deltas in
  '(content_keys, i) ← read_many count (read BinRw 16) i;
  '(name_hashes, i) ←
    (if has_name_hashes content then '(hs, i) ← read_many count (read_le BinRw 8) i; Ok (map Some hs, i)
     else Ok (replicate count None, i));
  Ok ({| block_header := header;
         records := zip_with (fun fk h => {| file_data_id := fk.1; content_key := fk.2; name_hash := h |}) (zip fdids content_keys) name_hashes |}, i).

Definition MAX_RECORDS : Z := 1000000.

(** A count of zero or above a million is a block without records. *)
Definition dispatch (header : RootBlockHeader) (input : bytes) (k : nat -> rresult (RootBlock * bytes)) : rresult (RootBlock * bytes) :=
  if (num_records header =? 0) || (MAX_RECORDS <? num_records header) then Ok ({| block_header := header; records := [] |}, input)
  else k (Z.to_nat (num_records header)).

Definition parse_v1_header (input : bytes) : rresult (RootBlock * bytes) :=
  '(n, i) ← read_le BinRw 4 input;
  '(content, i) ← read_le BinRw 4 i;
  '(locale, i) ← read_le BinRw 4 i;
  let header := {| num_records := n; content_flags := content; locale_flags := locale |} in
  dispatch header i (fun count => parse_v1_block header count i).

Definition reconstruct_v2_content_flags (f1 f2 f3 : Z) : Z := Z.lor (Z.lor f1 f2) (Z.shiftl f3 17).

Definition parse_v2v3_header (input : bytes) : rresult (RootBlock * bytes) :=
  '(n, i) ← read_le BinRw 4 input;
  '(locale, i) ← read_le BinRw 4 i;
  '(f1, i) ← read_le BinRw 4 i;
  '(f2, i) ← read_le BinRw 4 i;
  '(f3, i) ← read_le BinRw 1 i;
  let content := reconstruct_v2_content_flags f1 f2 f3 in
  let header := {| num_records := n; content_flags := content; locale_flags := locale |} in
  dispatch header i (fun count => parse_v2_block header count content i).

Definition parse_v4_header (input : bytes) : rresult (RootBlock * bytes) :=
  '(n, i) ← read_le BinRw 4 input;
  '(locale, i) ← read_le BinRw 4 i;
  '(content, i) ← read_v4 i;
  '(_, i) ← read_le BinRw 4 i;
  '(_, i) ← read_le BinRw 1 i;
  let header := {| num_records := n; content_flags := content; locale_flags := locale |} in
  dispatch header i (fun count => parse_v2_block header count content i).

Definition parse_block (v : RootVersion) (input : bytes) : rresult (RootBlock * bytes) :=
  match v with
  | V1 => parse_v1_header input
  | V2 | V3 => parse_v2v3_header input
  | V4 => parse_v4_header input
  end.

Definition write_deltas (rs : list RootRecord) : bytes :=
  concat (map (to_le_bytes 4) (encode_file_data_ids_tact (map file_data_id rs))).

Definition write_hash (r : RootRecord) : bytes := to_le_bytes 8 (default 0 (name_hash r)).

Definition write_v1_block (rs : list RootRecord) : bytes :=
  write_deltas rs ++ concat (map (fun r => content_key r ++ write_hash r) rs).

Definition write_v2_v3_block (rs : list RootRecord) (content : Z) : bytes :=
  write_deltas rs ++ concat (map content_key rs) ++ (if has_name_hashes content then concat (map write_hash rs) else []).

Definition write_block (v : RootVersion) (b : RootBlock) : bytes :=
  let n := to_le_bytes 4 (block_count b) in
  let locale := to_le_bytes 4 (block_locale b) in
  let flags := to_le_bytes 4 (Z.land (block_content b) 0xFFFFFFFF) in
  match v with
  | V1 => n ++ flags ++ locale ++ write_v1_block (records b)
  | V2 | V3 => n ++ locale ++ flags ++ to_le_bytes 4 0 ++ to_le_bytes 1 0 ++ write_v2_v3_block (records b) (block_content b)
  | V4 => n ++ locale ++ write_v4 (block_content b) ++ to_le_bytes 4 0 ++ to_le_bytes 1 0 ++ write_v2_v3_block (records b) (block_content b)
  end.

(** ** Lookup tables *)

Record RootEntry := { block_index : nat; e_content_key : bytes; e_locale : Z; e_content : Z }.

(** Any common locale; all of the content flags asked for. *)
Definition flags_match (block_locale_ block_content_ locale content : Z) : bool :=
  negb (Z.land block_locale_ locale =? 0) && (Z.land block_content_ content =? content).

Definition entry_matches (e : RootEntry) (locale content : Z) : bool := flags_match (e_locale e) (e_content e) locale content.

Record RootLookupTables := { fdid_map : gmap Z (list RootEntry); name_map : gmap Z (list RootEntry) }.

Definition lookups_new : RootLookupTables := {| fdid_map := ∅; name_map := ∅ |}.

(** [map.entry(k).or_default().push(e)]. *)
Definition push_entry (k : Z) (e : RootEntry) (m : gmap Z (list RootEntry)) : gmap Z (list RootEntry) := <[k := default [] (m !! k) ++ [e]]> m.

Definition add_entry (t : RootLookupTables) (fdid : Z) (hash : option Z) (e : RootEntry) : RootLookupTables :=
  {| fdid_map := push_entry fdid e (fdid_map t);
     name_map := match hash with Some h => push_entry h e (name_map t) | None => name_map t end |}.

Definition resolve_in (m : gmap Z (list RootEntry)) (k locale content : Z) : option bytes :=
  es ← m !! k;
  match list_find (fun e => entry_matches e locale content = true) es with Some (_, e) => Some (e_content_key e) | None => None end.

Definition resolve_by_id (t : RootLookupTables) (fdid locale content : Z) : option bytes := resolve_in (fdid_map t) fdid locale content.
Definition resolve_by_hash (t : RootLookupTables) (hash locale content : Z) : option bytes := resolve_in (name_map t) hash locale content.

Definition add_block (t : RootLookupTables) (ib : nat * RootBlock) : RootLookupTables :=
  fold_left (fun t r =>
    add_entry t (file_data_id r) (name_hash r)
      {| block_index := ib.1; e_content_key := content_key r; e_locale := block_locale ib.2; e_content := block_content ib.2 |})
    (records ib.2) t.

Definition build_lookups (blocks : list RootBlock) : RootLookupTables := fold_left add_block (imap pair blocks) lookups_new.

Section Names.
Context (to_uppercase : bytes -> bytes).

Definition calculate_name_hash (path : bytes) : outcome Z :=
  h ← Jenkins.hash (map (fun c => if c =? 47 then 92 else c) (to_uppercase path)); Ret (Jenkins.hash64 h).

Definition resolve_by_path (t : RootLookupTables) (path : bytes) (locale content : Z) : outcome (option bytes) :=
  h ← calculate_name_hash path; Ret (resolve_by_hash t h locale content).

End Names.

(** ** The file *)

Record RootFile := { version : RootVersion; header : option RootHeader; blocks : list RootBlock; lookups : RootLookupTables }.

(** The block loop: empty blocks are skipped, and an error ends the file once there is
    a block. *)
Fixpoint parse_blocks (fuel : nat) (v : RootVersion) (acc : list RootBlock) (input : bytes) : rresult (list RootBlock) :=
  match fuel, input with
  | O, _ | _, [] => Ok acc
  | S fuel, _ =>
      match parse_block v input with
      | Ok (b, rest) => parse_blocks fuel v (if 0 <? block_count b then acc ++ [b] else acc) rest
      | Err e => if (length acc =? 0)%nat then Err e else Ok acc
      end
  end.

Definition parse (data : bytes) : rresult RootFile :=
  detected ← detect data;
  '(header, i) ← (if has_header detected then '(h, i) ← read_header data; Ok (Some h, i) else Ok (None, data));
  let v := match header with Some h => header_version h | None => detected end in
  blocks ← parse_blocks (length data) v [] i;
  Ok {| version := v; header := header; blocks := blocks; lookups := build_lookups blocks |}.

Definition count_named (b : RootBlock) : Z := wrap32 (Z.of_nat (length (filter (fun r => is_Some (name_hash r)) (records b)))).

Definition sum32 (l : list Z) : Z := fold_left (fun a x => wrap32 (a + x)) l 0.

Definition total_files (f : RootFile) : Z :=
  match header f with Some h => header_total_files h | None => sum32 (map block_count (blocks f)) end.

Definition named_files (f : RootFile) : Z :=
  match header f with Some h => header_named_files h | None => sum32 (map count_named (blocks f)) end.

Fixpoint ascending (prev : option Z) (rs : list RootRecord) : bool :=
  match rs with
  | [] => true
  | r :: rs => match prev with Some p => negb (file_data_id r <? p) | None => true end && ascending (Some (file_data_id r)) rs
  end.

Definition validate_block (f : RootFile) (b : RootBlock) : rresult unit :=
  if negb (block_count b =? wrap32 (Z.of_nat (length (records b)))) then Err (CorruptedBlockHeader "record count")
  else if negb (ascending None (records b)) then Err InvalidDelta
  else
    let has_names := block_has_name_hashes b (version f) (0 <? named_files f) in
    if forallb (fun r => eqb (bool_decide (is_Some (name_hash r))) has_names) (records b) then Ok tt
    else Err (CorruptedBlockHeader "name hash").

Fixpoint validate_blocks (f : RootFile) (bs : list RootBlock) : rresult unit :=
  match bs with
  | [] => Ok tt
  | b :: bs => _ ← validate_block f b; validate_blocks f bs
  end.

Definition validate (f : RootFile) : rresult unit :=
  if match header f with Some h => negb (bool_decide (header_version h = version f)) | None => false end
  then Err (CorruptedBlockHeader "version mismatch")
  else
    _ ← validate_blocks f (blocks f);
    match header f with
    | None => Ok tt
    | Some h =>
        if negb (header_total_files h =? total_files f) then Err (CorruptedBlockHeader "total files")
        else if negb (header_named_files h =? named_files f) then Err (CorruptedBlockHeader "named files")
        else Ok tt
    end.

(** ** Builder

    The map of blocks by locale and content flags, as the list of its bindings. *)

Record RootBuilder := { b_version : RootVersion; b_blocks : list (Z * Z * RootBlock) }.

Definition builder_new (v : RootVersion) : RootBuilder := {| b_version := v; b_blocks := [] |}.
Definition set_version (b : RootBuilder) (v : RootVersion) : RootBuilder := {| b_version := v; b_blocks := b_blocks b |}.
Definition with_blocks (b : RootBuilder) (bs : list (Z * Z * RootBlock)) : RootBuilder := {| b_version := b_version b; b_blocks := bs |}.
Definition clear (b : RootBuilder) : RootBuilder := with_blocks b [].

(** [blocks.entry(key).or_insert_with(...)] and the record pushed on it. *)
Fixpoint add_to_block (r : RootRecord) (locale content : Z) (bs : list (Z * Z * RootBlock)) : list (Z * Z * RootBlock) :=
  match bs with
  | [] => [((locale, content), block_add_record (block_new content locale) r)]
  | (k, b) :: bs =>
      if bool_decide (k = (locale, content)) then (k, block_add_record b r) :: bs else (k, b) :: add_to_block r locale content bs
  end.

Definition add_record (b : RootBuilder) (r : RootRecord) (locale content : Z) : RootBuilder :=
  with_blocks b (add_to_block r locale content (b_blocks b)).

(** [add_file_with_hash] and [add_file_in_block]. *)
Definition add_file_with_hash (b : RootBuilder) (fdid : Z) (ckey : bytes) (hash : option Z) (locale content : Z) : RootBuilder :=
  add_record b {| file_data_id := fdid; content_key := ckey; name_hash := hash |} locale content.

(** [add_file]: the name hash is that of the path. *)
Definition add_file (to_uppercase : bytes -> bytes) (b : RootBuilder) (fdid : Z) (ckey : bytes) (path : option bytes) (locale content : Z) : outcome RootBuilder :=
  match path with
  | None => Ret (add_file_with_hash b fdid ckey None locale content)
  | Some p => h ← calculate_name_hash to_uppercase p; Ret (add_file_with_hash b fdid ckey (Some h) locale content)
  end.

Definition builder_header (v : RootVersion) (total named : Z) : option RootHeader :=
  match v with
  | V1 => None
  | V2 => Some (new_v2 total named)
  | V3 => Some (new_v3v4 3 total named)
  | V4 => Some (new_v3v4 4 total named)
  end.

(** The blocks in the order they are written, their records sorted. *)
Definition sorted_blocks (b : RootBuilder) : list RootBlock :=
  map (fun kb => sort_records kb.2) (sort_by_key fst (b_blocks b)).

(** What the builder is left with is [optimize_blocks] of it: the records of its
    blocks are sorted in place. *)
Definition build (b : RootBuilder) : rresult bytes :=
  if (length (b_blocks b) =? 0)%nat then Err (CorruptedBlockHeader "No blocks to build")
  else
    let total := sum32 (map (fun kb => block_count kb.2) (b_blocks b)) in
    let named := sum32 (map (fun kb => count_named kb.2) (b_blocks b)) in
    Ok (match builder_header (b_version b) total named with Some h => write_header h | None => [] end ++
        concat (map (write_block (b_version b)) (sorted_blocks b))).

(** The records are filtered; the count in the block header is not. *)
Definition retain_block (fdid : Z) (b : RootBlock) : RootBlock := with_records b (filter (fun r => file_data_id r <> fdid) (records b)).

Definition remove_file (b : RootBuilder) (fdid : Z) : bool * RootBuilder :=
  let bs := map (fun kb => (kb.1, retain_block fdid kb.2)) (b_blocks b) in
  (existsb (fun kb => existsb (fun r => file_data_id r =? fdid) (records kb.2)) (b_blocks b),
   with_blocks b (filter (fun kb => records kb.2 <> []) bs)).

Fixpoint remove_from (fdid : Z) (key : Z * Z) (bs : list (Z * Z * RootBlock)) : bool * list (Z * Z * RootBlock) :=
  match bs with
  | [] => (false, [])
  | (k, b) :: bs =>
      if bool_decide (k = key) then
        let b' := retain_block fdid b in
        ((length (records b') <? length (records b))%nat, match records b' with [] => bs | _ => (k, b') :: bs end)
      else let '(r, bs) := remove_from fdid key bs in (r, (k, b) :: bs)
  end.

Definition remove_file_from_block (b : RootBuilder) (fdid locale content : Z) : bool * RootBuilder :=
  let '(r, bs) := remove_from fdid (locale, content) (b_blocks b) in (r, with_blocks b bs).

Definition has_file_in_block (b : RootBuilder) (fdid locale content : Z) : bool :=
  existsb (fun kb => bool_decide (kb.1 = (locale, content)) && existsb (fun r => file_data_id r =? fdid) (records kb.2)) (b_blocks b).

Definition has_file (b : RootBuilder) (fdid : Z) : bool :=
  existsb (fun kb => existsb (fun r => file_data_id r =? fdid) (records kb.2)) (b_blocks b).

(** In the order of the map. *)
Definition find_file (order : list (Z * Z * RootBlock) -> list (Z * Z * RootBlock)) (b : RootBuilder) (fdid : Z) : option bytes :=
  content_key <$> find_by file_data_id fdid (concat (map (fun kb => records kb.2) (order (b_blocks b)))).

Definition find_all_entries (order : list (Z * Z * RootBlock) -> list (Z * Z * RootBlock)) (b : RootBuilder) (fdid : Z) : list (Z * Z * bytes) :=
  concat (map (fun kb => map (fun r => (kb.1, content_key r)) (filter (fun r => file_data_id r = fdid) (records kb.2))) (order (b_blocks b))).

Definition update_record (fdid : Z) (ckey : bytes) (r : RootRecord) : RootRecord :=
  if file_data_id r =? fdid then {| file_data_id := file_data_id r; content_key := ckey; name_hash := name_hash r |} else r.

Definition update_file (b : RootBuilder) (fdid : Z) (ckey : bytes) : nat * RootBuilder :=
  (sum_list (map (fun kb => length (filter (fun r => file_data_id r = fdid) (records kb.2))) (b_blocks b)),
   with_blocks b (map (fun kb => (kb.1, with_records kb.2 (map (update_record fdid ckey) (records kb.2)))) (b_blocks b))).

Definition optimize_blocks (b : RootBuilder) : RootBuilder := with_blocks b (map (fun kb => (kb.1, sort_records kb.2)) (b_blocks b)).

Definition estimate_size (b : RootBuilder) : nat :=
  let header_size := match b_version b with V1 => 0 | V2 => 12 | V3 | V4 => 20 end%nat in
  let named := sum32 (map (fun kb => count_named kb.2) (b_blocks b)) in
  (header_size + sum_list (map (fun kb => calculate_size kb.2 (b_version b) (0 <? named)%Z) (b_blocks b)))%nat.

(** [from_root_file], and the record loop of [CascFormat::build]. *)
Definition from_root_file (f : RootFile) : RootBuilder :=
  fold_left (fun b blk => fold_left (fun b r => add_record b r (block_locale blk) (block_content blk)) (records blk) b)
    (blocks f) (builder_new (version f)).

Definition builder_validate (b : RootBuilder) : rresult unit :=
  if (length (b_blocks b) =? 0)%nat then Err (CorruptedBlockHeader "No blocks to validate")
  else if forallb (fun kb => negb (length (records kb.2) =? 0)%nat && bool_decide (NoDup (map file_data_id (records kb.2)))) (b_blocks b)
  then Ok tt else Err (CorruptedBlockHeader "block").

End Root.
