(* ===== verification/RootTheorems.v ===== *)
(** * Root files: the theorems

    What a builder holds is read back from the file it writes, in each of the four
    versions, and resolving an identifier or a name hash through the lookup tables is a
    search through the blocks in order. *)

From S2P Require Import Prelude Bytes Collections Cursor Jenkins Root.
Import Root.
Local Open Scope Z_scope.

(** ** Delta-coded identifiers *)

Lemma decode_encode_rest prev ids :
  u32 prev -> Forall u32 ids -> decode_file_data_ids_tact (wrap32 (prev + 1)) (encode_rest prev ids) = ids.
Proof.
  intros Hp H. revert prev Hp. induction H as [|id ids Hid H IH]; intros prev Hp; [done|]. cbn [encode_rest decode_file_data_ids_tact].
  assert (wrap32 (wrap32 (prev + 1) + wrap32 (wrap32 (id - prev) - 1)) = id) as ->.
  { unfold wrap32, wrap. rewrite Zplus_mod_idemp_l, Zplus_mod_idemp_r. replace (prev + 1 + ((id - prev) mod 2 ^ 32 - 1)) with (prev + (id - prev) mod 2 ^ 32) by lia.
    rewrite Zplus_mod_idemp_r. replace (prev + (id - prev)) with id by lia. apply Z.mod_small. done. }
  f_equal. by apply IH.
Qed.

(** Any sequence of identifiers, in whatever order, is read back from its deltas. *)
Lemma decode_encode_ids ids : Forall u32 ids -> decode_file_data_ids_tact 0 (encode_file_data_ids_tact ids) = ids.
Proof.
  destruct 1 as [|id ids Hid H]; [done|]. cbn [encode_file_data_ids_tact decode_file_data_ids_tact]. rewrite Z.add_0_l.
  unfold wrap32 at 1. rewrite wrap_small by done. f_equal. unfold wrap32 at 2. rewrite wrap_small by done. by apply decode_encode_rest.
Qed.

Lemma encode_ids_u32 ids : Forall u32 ids -> Forall u32 (encode_file_data_ids_tact ids) /\ length (encode_file_data_ids_tact ids) = length ids.
Proof.
  destruct 1 as [|id ids Hid H]; [done|]. cbn [encode_file_data_ids_tact].
  assert (Forall u32 (encode_rest id ids) /\ length (encode_rest id ids) = length ids) as [Hr Hl].
  { clear Hid. revert id. induction H as [|x ids Hx H IH]; intros id; [done|]. cbn [encode_rest length]. destruct (IH x) as [? ->]. split; [constructor; [apply wrap32_range|done]|done]. }
  split; [by constructor|]. simpl. by rewrite Hl.
Qed.

(** ** Blocks *)

(** A block the version can hold, with its records counted in its header. *)
Definition record_ok (v : RootVersion) (content : Z) (r : RootRecord) : Prop :=
  u32 (file_data_id r) /\ length (content_key r) = 16%nat /\
  if match v with V1 => true | _ => has_name_hashes content end then exists h, name_hash r = Some h /\ in_u 64 h else name_hash r = None.

Definition block_ok (v : RootVersion) (b : RootBlock) : Prop :=
  block_count b = Z.of_nat (length (records b)) /\ 1 <= block_count b <= MAX_RECORDS /\ u32 (block_locale b) /\
  in_u (match v with V4 => 40 | _ => 32 end) (block_content b) /\ Forall (record_ok v (block_content b)) (records b).

Lemma read_write_deltas rs rest :
  Forall (fun r => u32 (file_data_id r)) rs ->
  read_many (length rs) (read_le BinRw 4) (write_deltas rs ++ rest) = Ok (encode_file_data_ids_tact (map file_data_id rs), rest).
Proof.
  intros H. unfold write_deltas. destruct (encode_ids_u32 (map file_data_id rs)) as [He Hl]; [by apply Forall_map|]. rewrite length_map in Hl. rewrite <- Hl.
  apply read_many_app. eapply Forall_impl; [exact He|]. intros d Hd rest'. by apply (read_le_app _ 4 32).
Qed.

Lemma zip_records {A} (f : Z -> A -> RootRecord) (g : RootRecord -> A) rs :
  Forall (fun r => f (file_data_id r) (g r) = r) rs -> zip_with f (map file_data_id rs) (map g rs) = rs.
Proof. induction 1 as [|r rs Hr H IH]; [done|]. cbn [map zip_with]. by rewrite Hr, IH. Qed.

Lemma parse_write_v1 header rs rest :
  Forall (record_ok V1 (content_flags header)) rs ->
  parse_v1_block header (length rs) (write_v1_block rs ++ rest) = Ok ({| block_header := header; records := rs |}, rest).
Proof.
  intros H. assert (Forall (fun r => u32 (file_data_id r)) rs) as Hus by (eapply Forall_impl; [exact H|]; by intros r (? & _)).
  assert (Forall u32 (map file_data_id rs)) as Hids by (by apply Forall_map).
  unfold parse_v1_block, write_v1_block. rewrite <- app_assoc, read_write_deltas by done. cbn [mbind result_bind].
  rewrite decode_encode_ids by done. rewrite length_map.
  pose proof (read_many_app (E := RootError) read_v1_record (fun kh => kh.1 ++ to_le_bytes 8 kh.2) (map (fun r => (content_key r, default 0 (name_hash r))) rs) rest) as Hm.
  rewrite length_map, map_map in Hm. cbn [fst snd] in Hm. unfold write_hash. rewrite Hm.
  - cbn [mbind result_bind]. do 3 f_equal. apply zip_records. eapply Forall_impl; [exact H|]. intros r (_ & _ & h & Hh & _). cbn [fst snd].
    rewrite Hh. destruct r. cbn in *. by subst.
  - apply Forall_map. eapply Forall_impl; [exact H|]. intros r (_ & Hk & h & Hh & Hu) rest'. cbn [fst snd]. unfold read_v1_record. rewrite <- app_assoc, read_app by done.
    cbn [mbind result_bind]. rewrite Hh. cbn [from_option]. by rewrite (read_le_app _ 8 64).
Qed.

Lemma zip_arrays rs (g : RootRecord -> option Z) :
  Forall (fun r => name_hash r = g r) rs ->
  zip_with (fun fk h => {| file_data_id := fk.1; content_key := fk.2; name_hash := h |}) (zip (map file_data_id rs) (map content_key rs)) (map g rs) = rs.
Proof. induction 1 as [|r rs Hr H IH]; [done|]. cbn [map zip_with fst snd]. rewrite IH, <- Hr. by destruct r. Qed.

Lemma map_const_replicate {A B} (x : B) (l : list A) : map (fun _ => x) l = replicate (length l) x.
Proof. induction l; simpl; congruence. Qed.

Lemma later_version v (x : bool) : v <> V1 -> (match v with V1 => true | _ => x end) = x.
Proof. by destruct v. Qed.

Lemma parse_write_v2 v header rs rest :
  v <> V1 -> Forall (record_ok v (content_flags header)) rs ->
  parse_v2_block header (length rs) (content_flags header) (write_v2_v3_block rs (content_flags header) ++ rest) =
  Ok ({| block_header := header; records := rs |}, rest).
Proof.
  intros Hv H. assert (Forall (fun r => u32 (file_data_id r)) rs) as Hus by (eapply Forall_impl; [exact H|]; by intros r (? & _)).
  assert (Forall u32 (map file_data_id rs)) as Hids by (by apply Forall_map).
  unfold parse_v2_block, write_v2_v3_block. rewrite <- !app_assoc, read_write_deltas by done. cbn [mbind result_bind].
  rewrite decode_encode_ids by done.
  pose proof (fun rest => read_many_app (E := RootError) (read BinRw 16) (fun k => k) (map content_key rs) rest) as Hm. rewrite length_map, map_id in Hm. rewrite Hm.
  2: { apply Forall_map. eapply Forall_impl; [exact H|]. intros r (_ & Hk & _) rest'. by apply read_app. }
  cbn [mbind result_bind]. destruct (has_name_hashes (content_flags header)) eqn:Eh.
  - pose proof (read_many_app (E := RootError) (read_le BinRw 8) (to_le_bytes 8) (map (fun r => default 0 (name_hash r)) rs) rest) as Hn.
    rewrite length_map, map_map in Hn. unfold write_hash. rewrite Hn.
    2: { apply Forall_map. eapply Forall_impl; [exact H|]. intros r (_ & _ & Hh) rest'. rewrite later_version, Eh in Hh by done.
         destruct Hh as (h & Hh & Hu). rewrite Hh. by apply (read_le_app _ 8 64). }
    cbn [mbind result_bind]. do 3 f_equal. rewrite map_map. apply zip_arrays. eapply Forall_impl; [exact H|]. intros r (_ & _ & Hh).
    rewrite later_version, Eh in Hh by done. destruct Hh as (h & -> & _). done.
  - cbn [app mbind result_bind]. do 3 f_equal. rewrite <- (map_const_replicate None rs). apply zip_arrays. eapply Forall_impl; [exact H|]. intros r (_ & _ & Hh).
    by rewrite later_version, Eh in Hh by done.
Qed.

Lemma land_u32 x : in_u 32 x -> Z.land x 0xFFFFFFFF = x.
Proof. intros H. change 0xFFFFFFFF with (Z.ones 32). rewrite land_ones_mod by done. by apply Z.mod_small. Qed.

Lemma read_write_v4 x rest : in_u 40 x -> read_v4 (write_v4 x ++ rest) = Ok (x, rest).
Proof.
  intros H. unfold read_v4, write_v4. rewrite <- app_assoc.
  assert (u32 (Z.land x 0xFFFFFFFF) /\ u8 (Z.land (Z.shiftr x 32) 0xFF)) as [H1 H2].
  { change 0xFF with (Z.ones 8). change 0xFFFFFFFF with (Z.ones 32). rewrite !land_ones_mod by done. split; apply (wrap_range _ _); lia. }
  repeat read_next_le. do 2 f_equal. change 0xFF with (Z.ones 8). change 0xFFFFFFFF with (Z.ones 32). rewrite !land_ones_mod by done.
  rewrite Z.shiftr_div_pow2 by done. rewrite (Z.mod_small (x / 2 ^ 32)).
  - rewrite Z.lor_comm, lor_shiftl_add; [|lia|apply Z.mod_pos_bound; lia]. pose proof (Z.div_mod x (2 ^ 32)). lia.
  - unfold in_u in H. split; [apply Z.div_pos; lia|]. apply Z.div_lt_upper_bound; lia.
Qed.

Lemma dispatch_records v b rest (k : nat -> rresult (RootBlock * bytes)) :
  block_ok v b -> k (length (records b)) = Ok (b, rest) -> forall input, dispatch (block_header b) input k = Ok (b, rest).
Proof.
  intros (Hn & Hr & _) Hk input. unfold dispatch. change (num_records (block_header b)) with (block_count b).
  rewrite (proj2 (Z.eqb_neq _ _)), (proj2 (Z.ltb_ge _ _)) by lia. cbn [orb]. by rewrite Hn, Nat2Z.id.
Qed.

(** Every block a version can hold is read back from what the version writes. *)
Lemma parse_write_block v b rest : block_ok v b -> parse_block v (write_block v b ++ rest) = Ok (b, rest).
Proof.
  intros Hb. pose proof Hb as (Hn & Hr & Hl & Hc & Hrec). assert (u32 (block_count b)) by (unfold in_u, MAX_RECORDS in *; lia).
  assert ({| num_records := block_count b; content_flags := block_content b; locale_flags := block_locale b |} = block_header b) as Eh
    by (unfold block_count, block_content, block_locale; by destruct (block_header b)).
  assert (b = {| block_header := block_header b; records := records b |}) as Eb by (by destruct b).
  destruct v; cbn [parse_block write_block]; rewrite <- !app_assoc.
  - unfold parse_v1_header. rewrite land_u32 by done. repeat read_next_le. rewrite Eh. apply (dispatch_records V1); [done|]. rewrite parse_write_v1 by done. by rewrite <- Eb.
  - unfold parse_v2v3_header. rewrite land_u32 by done. repeat read_next_le. unfold reconstruct_v2_content_flags. rewrite !Z.lor_0_r, Eh.
    apply (dispatch_records V2); [done|]. rewrite (parse_write_v2 V2) by done. by rewrite <- Eb.
  - unfold parse_v2v3_header. rewrite land_u32 by done. repeat read_next_le. unfold reconstruct_v2_content_flags. rewrite !Z.lor_0_r, Eh.
    apply (dispatch_records V3); [done|]. rewrite (parse_write_v2 V3) by done. by rewrite <- Eb.
  - unfold parse_v4_header. repeat read_next_le. rewrite read_write_v4 by done. cbn [mbind result_bind]. repeat read_next_le. rewrite Eh.
    apply (dispatch_records V4); [done|]. rewrite (parse_write_v2 V4) by done. by rewrite <- Eb.
Qed.

(** ** Files *)

Lemma length_write_block v b : (12 <= length (write_block v b))%nat.
Proof. destruct v; cbn [write_block]; rewrite !length_app; autorewrite with casc; rewrite ?length_to_le_bytes; lia. Qed.

Lemma parse_blocks_written v bs : Forall (block_ok v) bs -> forall fuel acc,
  (length (concat (map (write_block v) bs)) <= fuel)%nat ->
  parse_blocks fuel v acc (concat (map (write_block v) bs)) = Ok (acc ++ bs).
Proof.
  induction 1 as [|b bs Hb H IH]; intros fuel acc Hf; [rewrite app_nil_r; by destruct fuel|].
  cbn [map concat] in *. pose proof (length_write_block v b) as Hw. rewrite length_app in Hf. destruct fuel as [|fuel]; [lia|].
  pose proof (parse_write_block v b (concat (map (write_block v) bs)) Hb) as Hp.
  destruct (write_block v b ++ _) as [|x input] eqn:E; [destruct (write_block v b); simpl in *; [lia|done]|].
  cbn [parse_blocks]. rewrite Hp. destruct Hb as (_ & Hr & _). rewrite (proj2 (Z.ltb_lt 0 _)) by lia.
  rewrite IH by lia. by rewrite <- app_assoc.
Qed.

Lemma read_u32_written v rest : u32 v -> read_u32 true (write_u32 true v ++ rest) = Ok (v, rest).
Proof. intros. by apply (read_le_app _ 4 32). Qed.

(** The header of a builder and what it reads back as. *)
Lemma read_write_root_header v total named rest h :
  u32 total -> u32 named -> (v = V2 -> is_extended_header total named = false) -> builder_header v total named = Some h ->
  read_header (write_header h ++ rest) = Ok (h, rest) /\ header_version h = v.
Proof.
  intros Ht Hn He Hh.
  destruct v; [done|injection Hh as <-..]; (split; [|done]); unfold new_v2, new_v3v4, write_header, read_header, write_info; cbn [magic_bytes is_little_endian info_total_files info_named_files];
    rewrite <- !app_assoc, (read_app Io 4 TSFM) by done; cbn [mbind result_bind]; rewrite bool_decide_true by done; cbn [is_little_endian].
  - rewrite read_u32_written by done. cbn [mbind result_bind]. rewrite read_u32_written by done. cbn [mbind result_bind]. by rewrite He.
  - do 2 (rewrite read_u32_written by done; cbn [mbind result_bind]). change (is_extended_header 20 3) with true. cbn [negb]. unfold read_info.
    do 2 (rewrite read_u32_written by done; cbn [mbind result_bind]). done.
  - do 2 (rewrite read_u32_written by done; cbn [mbind result_bind]). change (is_extended_header 20 4) with true. unfold read_info.
    do 2 (rewrite read_u32_written by done; cbn [mbind result_bind]). done.
Qed.

Lemma detect_header h rest : (exists total named v, builder_header v total named = Some h /\ u32 total /\ u32 named) ->
  exists v, detect (write_header h ++ rest) = Ok v /\ has_header v = true.
Proof.
  intros (total & named & v & Hh & Ht & Hn). unfold detect.
  assert (exists x y rest', u32 x /\ u32 y /\ write_header h ++ rest = TSFM ++ write_u32 true x ++ write_u32 true y ++ rest') as (x & y & rest' & Hx & Hy & ->).
  { destruct v; [done|injection Hh as <-..]; unfold new_v2, new_v3v4, write_header, write_info; cbn [magic_bytes is_little_endian info_total_files info_named_files];
      [exists total, named, rest|eexists 20, 3, _|eexists 20, 4, _]; (split; [done|]); (split; [done|]); by rewrite <- !app_assoc. }
  rewrite read_app by done. cbn [mbind result_bind]. rewrite bool_decide_false by done. rewrite bool_decide_true by done.
  unfold detect_v2_v3_v4. do 2 (rewrite read_u32_written by done; cbn [mbind result_bind]).
  repeat case_match; eauto.
Qed.

(** A file of V1 starts with a count, which is never one of the magics. *)
Lemma detect_v1 b rest : block_ok V1 b -> detect (write_block V1 b ++ rest) = Ok V1.
Proof.
  intros (_ & Hr & _). unfold detect. cbn [write_block]. rewrite <- !app_assoc, read_app by apply length_to_le_bytes. cbn [mbind result_bind].
  assert (forall m, to_le_bytes 4 (block_count b) = m -> from_le_bytes m = block_count b) as Hm.
  { intros m <-. apply (le_roundtrip 4 32); [done|]. unfold MAX_RECORDS, in_u in *. lia. }
  rewrite bool_decide_false by (intros ?%Hm; vm_compute (from_le_bytes MFST) in *; unfold MAX_RECORDS in *; lia).
  by rewrite bool_decide_false by (intros ?%Hm; vm_compute (from_le_bytes TSFM) in *; unfold MAX_RECORDS in *; lia).
Qed.

(** Any file of valid blocks behind the header of its version is read back. *)
Lemma root_parse_written v total named bs :
  u32 total -> u32 named -> (v = V2 -> is_extended_header total named = false) -> bs <> [] -> Forall (block_ok v) bs ->
  let h := builder_header v total named in
  parse (match h with Some h => write_header h | None => [] end ++ concat (map (write_block v) bs)) =
  Ok {| version := v; header := h; blocks := bs; lookups := build_lookups bs |}.
Proof.
  intros Ht Hn He Hne Hbs h. unfold parse. subst h. destruct (builder_header v total named) as [h|] eqn:Eh.
  - destruct (detect_header h (concat (map (write_block v) bs))) as (d & -> & Hd); [by eauto 6|]. cbn [mbind result_bind]. rewrite Hd.
    destruct (read_write_root_header v total named (concat (map (write_block v) bs)) h) as [-> <-]; [done..|]. cbn [mbind result_bind].
    rewrite parse_blocks_written; [done..|]. rewrite length_app. lia.
  - assert (v = V1) as -> by (by destruct v). cbn [app]. destruct bs as [|b bs]; [done|]. pose proof Hbs as [Hb _]%Forall_cons. cbn [map concat].
    rewrite detect_v1 by done. cbn [mbind result_bind has_header]. change (write_block V1 b ++ concat (map (write_block V1) bs)) with (concat (map (write_block V1) (b :: bs))).
    by rewrite parse_blocks_written.
Qed.

(** ** What a builder holds

    A file is a record with the locale and content flags it was added under. *)

Notation file := (RootRecord * (Z * Z))%type.

Definition files_of (b : RootBlock) : list file := map (fun r => (r, (block_locale b, block_content b))) (records b).
Definition block_files (bs : list RootBlock) : list file := concat (map files_of bs).
Definition file_key (a : file) : Z * Z * Z := (a.2, file_data_id a.1).
Definition add_files (v : RootVersion) (adds : list file) : RootBuilder := fold_left (fun b a => add_record b a.1 a.2.1 a.2.2) adds (builder_new v).

Definition file_ok (v : RootVersion) (a : file) : Prop :=
  u32 a.2.1 /\ in_u (match v with V4 => 40 | _ => 32 end) a.2.2 /\ record_ok v a.2.2 a.1.

(** A binding of the builder's map after at most [n] additions. *)
Definition binding_ok (v : RootVersion) (n : nat) (kb : Z * Z * RootBlock) : Prop :=
  kb.1 = (block_locale kb.2, block_content kb.2) /\ (length (records kb.2) <= n)%nat /\ block_ok v kb.2.

Lemma block_add_record_ok v b r :
  Z.of_nat (length (records b)) < MAX_RECORDS -> u32 (block_locale b) -> in_u (match v with V4 => 40 | _ => 32 end) (block_content b) ->
  Forall (record_ok v (block_content b)) (records b) -> record_ok v (block_content b) r -> block_ok v (block_add_record b r).
Proof.
  intros Hn Hl Hc Hrs Hr. unfold block_ok, block_count, block_locale, block_content, block_add_record in *. cbn in *. rewrite length_app. cbn [length].
  unfold wrap32. rewrite wrap_small by (unfold in_u, MAX_RECORDS in *; lia).
  split_and!; [done|lia|lia|done|done|]. apply Forall_app. split; [done|by constructor].
Qed.

Lemma add_to_block_ok v n a bs :
  Z.of_nat n < MAX_RECORDS -> file_ok v a -> Forall (binding_ok v n) bs -> Forall (binding_ok v (S n)) (add_to_block a.1 a.2.1 a.2.2 bs).
Proof.
  destruct a as [r [l c]]. cbn [fst snd]. intros Hn (Hl & Hc & Hr) H. induction H as [|[k b] bs (Hk & Hlen & Hb) H IH]; cbn [add_to_block].
  - constructor; [|done]. split; [done|]. split; [simpl; lia|]. apply block_add_record_ok; [unfold MAX_RECORDS; simpl; lia|done..].
  - cbn [fst snd] in *. case_bool_decide as E.
    + assert (block_locale b = l /\ block_content b = c) as [<- <-] by (split; congruence).
      constructor; [|eapply Forall_impl; [exact H|]; intros kb (? & ? & ?); split_and!; [done|lia|done]].
      destruct Hb as (_ & _ & ? & ? & ?). split; [done|]. split; [simpl; rewrite length_app; simpl; lia|]. apply block_add_record_ok; [lia|done..].
    + constructor; [split_and!; [done|simpl; lia|done]|done].
Qed.

Lemma add_to_block_keys r l c bs : NoDup bs.*1 -> NoDup (add_to_block r l c bs).*1 /\ (forall k, k ∈ (add_to_block r l c bs).*1 -> k = (l, c) \/ k ∈ bs.*1).
Proof.
  induction bs as [|[k b] bs IH]; intros Hnd; cbn [add_to_block].
  - split; [apply NoDup_singleton|]. intros k Hk. left. by apply list_elem_of_singleton in Hk.
  - apply NoDup_cons in Hnd as [Hk Hnd]. destruct (IH Hnd) as [IH1 IH2]. case_bool_decide as E; rewrite !fmap_cons; cbn [fst] in *.
    + split; [by constructor|]. intros k' ?. by right.
    + split; [constructor; [|done]; intros [?|?]%IH2; done|]. set_solver.
Qed.

Lemma elem_of_block_files a bs : a ∈ block_files bs <-> exists b, b ∈ bs /\ a.1 ∈ records b /\ a.2 = (block_locale b, block_content b).
Proof.
  unfold block_files, files_of. rewrite list_elem_of_In, in_concat. setoid_rewrite in_map_iff. split.
  - intros (l & (b & <- & Hb) & (r & <- & Hr)%in_map_iff). exists b. rewrite !list_elem_of_In. done.
  - intros (b & Hb & Hr & Ha). exists (map (fun r => (r, (block_locale b, block_content b))) (records b)). split; [exists b; by rewrite <- list_elem_of_In|].
    apply in_map_iff. exists a.1. rewrite <- list_elem_of_In, <- Ha. by destruct a.
Qed.

Notation keyed := (fun kb : Z * Z * RootBlock => kb.1 = (block_locale kb.2, block_content kb.2)).

Lemma files_elsewhere k bs : Forall keyed bs -> k.1 ∉ bs.*1 -> at_key file_key k (block_files bs.*2) = [].
Proof.
  intros H Hk. apply at_key_nil. intros a (b & ([k' b'] & -> & Hb)%list_elem_of_fmap & _ & Ha)%elem_of_block_files <-. apply Hk.
  rewrite Forall_forall in H. specialize (H _ Hb). cbn in *. apply list_elem_of_fmap. exists (k', b'). split; [|done]. cbn. by rewrite Ha.
Qed.

(** A file is added behind those of its key. *)
Lemma files_add_to_block r l c bs k :
  NoDup bs.*1 -> Forall keyed bs -> at_key file_key k (block_files (add_to_block r l c bs).*2) = at_key file_key k (block_files bs.*2 ++ [(r, (l, c))]).
Proof.
  intros Hnd H. induction H as [|[k' b] bs Hk H IH]; [done|]. apply NoDup_cons in Hnd as [Hk' Hnd]. cbn [add_to_block fst snd] in *.
  case_bool_decide as E; rewrite !fmap_cons; unfold block_files; cbn [snd map concat]; fold (block_files (bs.*2)); rewrite <- !(assoc_L (++)), at_key_app.
  - unfold files_of at 1. cbn [records block_add_record]. rewrite map_app. cbn [map]. rewrite at_key_app, <- (assoc_L (++)), at_key_app. f_equal.
    assert (block_locale b = l /\ block_content b = c) as [<- <-] by (split; congruence).
    change (block_locale (block_add_record b r)) with (block_locale b). change (block_content (block_add_record b r)) with (block_content b).
    rewrite at_key_app. destruct (decide (k.1 = k')) as [<-|Hne].
    + rewrite (files_elsewhere k bs) by done. by rewrite app_nil_r.
    + rewrite (at_key_nil _ k [_]); [by rewrite app_nil_r|]. intros a ->%list_elem_of_singleton <-. by destruct Hne.
  - rewrite at_key_app. f_equal. by apply IH.
Qed.

Record builder_ok (v : RootVersion) (n : nat) (b : RootBuilder) : Prop := {
  ok_version : b_version b = v;
  ok_keys : NoDup (b_blocks b).*1;
  ok_bindings : Forall (binding_ok v n) (b_blocks b);
}.

Lemma bindings_keyed v n bs : Forall (binding_ok v n) bs -> Forall keyed bs.
Proof. intros H. eapply Forall_impl; [exact H|]. by intros kb (? & _). Qed.

Lemma add_files_ok v adds b n :
  builder_ok v n b -> Forall (file_ok v) adds -> Z.of_nat (n + length adds) <= MAX_RECORDS ->
  let b' := fold_left (fun b a => add_record b a.1 a.2.1 a.2.2) adds b in
  builder_ok v (n + length adds) b' /\
  forall k, at_key file_key k (block_files (b_blocks b').*2) = at_key file_key k (block_files (b_blocks b).*2 ++ adds).
Proof.
  revert b n. induction adds as [|[r [l c]] adds IH]; intros b n Hb Ha Hn; cbn [fold_left length].
  - rewrite Nat.add_0_r. split; [done|]. intros k. by rewrite app_nil_r.
  - apply Forall_cons in Ha as [Ha Has]. destruct Hb as [Hv Hk Hbs]. destruct (IH (add_record b r l c) (S n)) as [H1 H2]; [|done|simpl in Hn; lia|].
    + constructor; [done|by apply add_to_block_keys|]. apply (add_to_block_ok v n (r, (l, c))); [simpl in Hn; lia|done..].
    + rewrite Nat.add_succ_r. split; [done|]. intros k. rewrite H2, !at_key_app. cbn [b_blocks add_record with_blocks].
      rewrite files_add_to_block, at_key_app, <- (assoc_L (++)), <- at_key_app; [done..|by apply (bindings_keyed v n)].
Qed.

(** ** The blocks in order *)

Lemma sort_files_of b : files_of (sort_records b) = sort_by_key file_key (files_of b).
Proof.
  unfold files_of. change (block_locale (sort_records b)) with (block_locale b). change (block_content (sort_records b)) with (block_content b).
  change (records (sort_records b)) with (sort_by_key file_data_id (records b)). generalize (records b) as rs, (block_locale b, block_content b) as p. intros rs p.
  assert (forall x l, map (fun r => (r, p)) (sort_insert file_data_id x l) = sort_insert file_key (x, p) (map (fun r => (r, p)) l)) as Hins.
  { intros x l. induction l as [|y l IH]; [done|]. cbn [sort_insert map].
    assert (kcmp (file_key (x, p)) (file_key (y, p)) = kcmp (file_data_id x) (file_data_id y)) as ->.
    { change (match kcmp p p with Eq => kcmp (file_data_id x) (file_data_id y) | c => c end = kcmp (file_data_id x) (file_data_id y)). by rewrite kcmp_refl. }
    destruct (kcmp (file_data_id x) (file_data_id y)); cbn [map]; by rewrite ?IH. }
  induction rs as [|x rs IH]; [done|]. cbn [sort_by_key foldr map]. fold (sort_by_key file_data_id rs) (sort_by_key file_key (map (fun r => (r, p)) rs)). by rewrite Hins, IH.
Qed.

Lemma files_of_elsewhere k b : k.1 <> (block_locale b, block_content b) -> at_key file_key k (files_of b) = [].
Proof. intros H. apply at_key_nil. unfold files_of. intros a (r & -> & _)%list_elem_of_fmap <-. by apply H. Qed.

Lemma files_sort_blocks k bs : Forall keyed bs -> at_key file_key k (block_files (sort_by_key fst bs).*2) = at_key file_key k (block_files bs.*2).
Proof.
  assert (forall x l, keyed x -> Forall keyed l ->
    at_key file_key k (block_files (sort_insert fst x l).*2) = at_key file_key k (files_of x.2) ++ at_key file_key k (block_files l.*2)) as Hins.
  { intros x l Hx H. induction H as [|y l Hy H IH]; [unfold block_files; simpl; by rewrite at_key_app|]. cbn [sort_insert].
    destruct (kcmp x.1 y.1) eqn:E; [unfold block_files; simpl; by rewrite !at_key_app..|].
    change (at_key file_key k (files_of y.2 ++ block_files (sort_insert fst x l).*2) = at_key file_key k (files_of x.2) ++ at_key file_key k (files_of y.2 ++ block_files l.*2)).
    rewrite !at_key_app, IH, !(assoc_L (++)). f_equal. destruct (decide (k.1 = x.1)) as [Ek|Hne].
    - rewrite (files_of_elsewhere k y.2); [by rewrite app_nil_r|]. rewrite <- Hy, Ek. intros Exy. by rewrite Exy, kcmp_refl in E.
    - rewrite (files_of_elsewhere k x.2); [by rewrite app_nil_r|]. by rewrite <- Hx. }
  induction 1 as [|x bs Hx H IH]; [done|]. cbn [sort_by_key foldr]. rewrite Hins; [|done|].
  - fold (sort_by_key fst bs). rewrite IH. unfold block_files. simpl. by rewrite at_key_app.
  - fold (sort_by_key fst bs). by rewrite sort_by_key_perm.
Qed.

Lemma files_sort_records k bs : at_key file_key k (block_files (map sort_records bs)) = at_key file_key k (block_files bs).
Proof.
  induction bs as [|b bs IH]; [done|]. unfold block_files in *. cbn [map concat]. rewrite !at_key_app, IH, sort_files_of. by rewrite at_key_sort_by_key.
Qed.

Lemma sorted_block_files bs : Forall keyed bs -> strictly_sorted fst bs -> sorted_by file_key (block_files (map (fun kb => sort_records kb.2) bs)).
Proof.
  intros Hk Hs. induction Hs as [|x bs Hs IH Hall]; [constructor|]. apply Forall_cons in Hk as [Hx Hk]. unfold block_files in *. cbn [map concat].
  rewrite sort_files_of. apply sorted_app; [apply sort_by_key_sorted|by apply IH|]. fold (block_files (map (fun kb => sort_records kb.2) bs)).
  intros a a' Ha (b & (kb & -> & Hb)%list_elem_of_fmap & _ & Ha')%elem_of_block_files. rewrite sort_by_key_perm in Ha.
  unfold files_of in Ha. apply list_elem_of_fmap in Ha as (r & -> & _). rewrite Forall_forall in Hall, Hk.
  apply kle_cases. left. apply prod_klt. left. cbn. rewrite Ha'. change (klt (block_locale x.2, block_content x.2) (block_locale kb.2, block_content kb.2)).
  rewrite <- Hx, <- (Hk kb Hb). by apply Hall.
Qed.

(** The files in the blocks of a builder are those added, ordered by locale, content
    flags and identifier, and among equals by the order of addition. *)
Lemma sorted_blocks_files v adds :
  Forall (file_ok v) adds -> Z.of_nat (length adds) <= MAX_RECORDS -> block_files (sorted_blocks (add_files v adds)) = sort_by_key file_key adds.
Proof.
  intros Ha Hn. destruct (add_files_ok v adds (builder_new v) 0) as [[_ Hk Hb] Hf]; [by constructor; [done|constructor|constructor]|done|done|]. cbn [Nat.add] in *.
  fold (add_files v adds) in *. apply bindings_keyed in Hb. apply sort_by_key_unique.
  - apply sorted_block_files; [by rewrite sort_by_key_perm|]. apply sorted_nodup_strict; [apply sort_by_key_sorted|]. change (NoDup (sort_by_key fst (b_blocks (add_files v adds))).*1).
    by rewrite sort_by_key_perm.
  - intros k. unfold sorted_blocks. rewrite <- (map_map snd sort_records), files_sort_records. change (map snd) with (fmap (M := list) (@snd (Z * Z) RootBlock)).
    by rewrite files_sort_blocks, Hf.
Qed.

(** ** Resolution *)

(** A locale in common, and all of the content flags asked for, bit by bit. *)
Definition shares_locale (l locale : Z) : bool := existsb (fun i => Z.testbit l i && Z.testbit locale i) (seqZ 0 32).
Definition includes_flags (c content : Z) : bool := forallb (fun i => implb (Z.testbit content i) (Z.testbit c i)) (seqZ 0 64).

Lemma testbit_high w x i : in_u w x -> 0 <= w <= i -> Z.testbit x i = false.
Proof.
  intros [Hx Hw] Hi. destruct (decide (x = 0)) as [->|]; [apply Z.bits_0|]. apply Z.bits_above_log2; [done|].
  apply Z.log2_lt_pow2; [lia|]. pose proof (Z.pow_le_mono_r 2 w i). lia.
Qed.

Lemma flags_match_bits l c locale content :
  u32 locale -> u64 content -> flags_match l c locale content = shares_locale l locale && includes_flags c content.
Proof.
  intros Hl Hc. unfold flags_match. f_equal.
  - unfold shares_locale. destruct (existsb _ _) eqn:E.
    + apply existsb_exists in E as (i & _ & E). apply negb_true_iff, Z.eqb_neq. intros H0. by rewrite <- Z.land_spec, H0, Z.bits_0 in E.
    + apply negb_false_iff, Z.eqb_eq, Z.bits_inj_0. intros i. rewrite Z.land_spec. destruct (Z.testbit l i && Z.testbit locale i) eqn:Ei; [|done].
      rewrite <- E. symmetry. apply existsb_exists. exists i. split; [|done]. apply list_elem_of_In, elem_of_seqZ. apply andb_true_iff in Ei as [_ Ei].
      destruct (decide (i < 0)); [by rewrite Z.testbit_neg_r in Ei|]. destruct (decide (32 <= i)); [by rewrite (testbit_high 32) in Ei by (done || lia)|lia].
  - apply eq_true_iff_eq. unfold includes_flags. rewrite Z.eqb_eq, forallb_forall. split.
    + intros Heq i _. rewrite <- Heq at 1. rewrite Z.land_spec. by destruct (Z.testbit c i), (Z.testbit content i).
    + intros H. apply Z.bits_inj. intros i. rewrite Z.land_spec. destruct (Z.testbit content i) eqn:E; [|by rewrite andb_false_r].
      destruct (decide (i < 0)); [by rewrite Z.testbit_neg_r in E|]. destruct (decide (64 <= i)); [by rewrite (testbit_high 64) in E by (done || lia)|].
      specialize (H i). rewrite E in H. cbn [implb] in H. rewrite H; [done|]. apply list_elem_of_In, elem_of_seqZ. lia.
Qed.

(** The first of the files that a test and the flags asked for select. *)
Definition first_file (p : file -> bool) (locale content : Z) (l : list file) : option bytes :=
  (fun a : file => content_key a.1) <$> head (filter (fun a : file => p a && (shares_locale a.2.1 locale && includes_flags a.2.2 content) = true) l).

Definition by_id (fdid : Z) (a : file) : bool := file_data_id a.1 =? fdid.
Definition by_hash (h : Z) (a : file) : bool := bool_decide (name_hash a.1 = Some h).

Lemma push_entry_lookup k k' e m : default [] (push_entry k e m !! k') = default [] (m !! k') ++ (if k =? k' then [e] else []).
Proof.
  unfold push_entry. destruct (Z.eqb_spec k k') as [<-|Hne]; [by rewrite lookup_insert_eq|]. rewrite lookup_insert_ne by done. by rewrite app_nil_r.
Qed.

(** The content keys a table answers with, in order. *)
Definition answers (m : gmap Z (list RootEntry)) (k locale content : Z) : list bytes :=
  map e_content_key (filter (fun e => entry_matches e locale content = true) (default [] (m !! k))).

Lemma resolve_in_answers m k locale content : resolve_in m k locale content = head (answers m k locale content).
Proof.
  unfold resolve_in, answers. destruct (m !! k) as [es|]; [|done]. cbn [mbind option_bind default from_option id].
  induction es as [|e es IH]; [done|]. cbn [list_find]. rewrite filter_cons. destruct (decide _); [done|]. rewrite <- IH. by destruct (list_find _ es) as [[]|].
Qed.

Lemma answers_push k k' e m locale content :
  answers (push_entry k e m) k' locale content =
  answers m k' locale content ++ (if (k =? k') && entry_matches e locale content then [e_content_key e] else []).
Proof.
  unfold answers. rewrite push_entry_lookup, filter_app, map_app. f_equal. destruct (k =? k'); [|done]. cbn [andb]. rewrite filter_cons.
  by destruct (entry_matches e locale content).
Qed.

Definition selected (p : file -> bool) (locale content : Z) (l : list file) : list bytes :=
  map (fun a : file => content_key a.1) (filter (fun a : file => p a && flags_match a.2.1 a.2.2 locale content = true) l).

Lemma selected_app p locale content l1 l2 : selected p locale content (l1 ++ l2) = selected p locale content l1 ++ selected p locale content l2.
Proof. unfold selected. by rewrite filter_app, map_app. Qed.

Lemma selected_cons p locale content (a : file) l :
  selected p locale content (a :: l) = (if p a && flags_match a.2.1 a.2.2 locale content then [content_key a.1] else []) ++ selected p locale content l.
Proof. unfold selected. rewrite filter_cons. by destruct (p a && flags_match a.2.1 a.2.2 locale content). Qed.

Lemma add_block_answers t ib k locale content :
  answers (fdid_map (add_block t ib)) k locale content = answers (fdid_map t) k locale content ++ selected (by_id k) locale content (files_of ib.2) /\
  answers (name_map (add_block t ib)) k locale content = answers (name_map t) k locale content ++ selected (by_hash k) locale content (files_of ib.2).
Proof.
  destruct ib as [i b]. unfold add_block, files_of. cbn [fst snd]. generalize (records b) as rs. intros rs. revert t. induction rs as [|r rs IH]; intros t; cbn [fold_left map].
  - split; by rewrite app_nil_r.
  - destruct (IH (add_entry t (file_data_id r) (name_hash r) {| block_index := i; e_content_key := content_key r; e_locale := block_locale b; e_content := block_content b |})) as [H1 H2].
    rewrite H1, H2. rewrite !selected_cons, !(assoc_L (++)). cbn [add_entry fdid_map name_map fst snd]. split; f_equal.
    + by rewrite answers_push.
    + unfold by_hash. cbn [fst]. destruct (name_hash r) as [h|] eqn:Eh; [|by rewrite app_nil_r]. rewrite answers_push.
      f_equal. destruct (Z.eqb_spec h k) as [->|Hne]; [by rewrite bool_decide_true by done|]. by rewrite bool_decide_false by congruence.
Qed.

Lemma build_lookups_answers bs k locale content :
  answers (fdid_map (build_lookups bs)) k locale content = selected (by_id k) locale content (block_files bs) /\
  answers (name_map (build_lookups bs)) k locale content = selected (by_hash k) locale content (block_files bs).
Proof.
  unfold build_lookups. assert (forall ibs t,
    answers (fdid_map (fold_left add_block ibs t)) k locale content = answers (fdid_map t) k locale content ++ selected (by_id k) locale content (block_files ibs.*2) /\
    answers (name_map (fold_left add_block ibs t)) k locale content = answers (name_map t) k locale content ++ selected (by_hash k) locale content (block_files ibs.*2)) as H.
  { intros ibs. induction ibs as [|ib ibs IH]; intros t; [split; by rewrite app_nil_r|]. cbn [fold_left]. destruct (IH (add_block t ib)) as [-> ->].
    destruct (add_block_answers t ib k locale content) as [-> ->]. unfold block_files. rewrite fmap_cons. cbn [map concat]. rewrite !selected_app. split; by rewrite (assoc_L (++)). }
  assert ((imap pair bs).*2 = bs) as Hb by (rewrite <- (list_fmap_id bs) at 2; rewrite fmap_imap; apply imap_const).
  destruct (H (imap pair bs) lookups_new) as [-> ->]. by rewrite Hb.
Qed.

Lemma selected_first p locale content l : u32 locale -> u64 content -> head (selected p locale content l) = first_file p locale content l.
Proof.
  intros Hl Hc. unfold selected, first_file. induction l as [|a l IH]; [done|]. rewrite !filter_cons. rewrite <- flags_match_bits by done.
  by destruct (decide (p a && flags_match a.2.1 a.2.2 locale content = true)).
Qed.

Lemma resolve_is_search bs k locale content :
  u32 locale -> u64 content ->
  resolve_by_id (build_lookups bs) k locale content = first_file (by_id k) locale content (block_files bs) /\
  resolve_by_hash (build_lookups bs) k locale content = first_file (by_hash k) locale content (block_files bs).
Proof.
  intros Hl Hc. unfold resolve_by_id, resolve_by_hash. rewrite !resolve_in_answers. destruct (build_lookups_answers bs k locale content) as [-> ->].
  split; by apply selected_first.
Qed.

(** ** Counts *)

Definition is_named (a : file) : Prop := is_Some (name_hash a.1).
#[export] Instance is_named_dec a : Decision (is_named a).
Proof. unfold is_named. apply _. Defined.

Lemma sum32_wrapped {A} (g : A -> nat) l : sum32 (map (fun x => wrap32 (Z.of_nat (g x))) l) = wrap32 (Z.of_nat (sum_list (map g l))).
Proof.
  unfold sum32. assert (forall a, fold_left (fun a x => wrap32 (a + x)) (map (fun x => wrap32 (Z.of_nat (g x))) l) (wrap32 a) = wrap32 (a + Z.of_nat (sum_list (map g l)))) as H.
  { induction l as [|x l IH]; intros a; cbn [map fold_left sum_list foldr]; [by rewrite Z.add_0_r|].
    assert (wrap32 (wrap32 a + wrap32 (Z.of_nat (g x))) = wrap32 (a + Z.of_nat (g x))) as -> by (unfold wrap32, wrap; by rewrite <- Zplus_mod).
    rewrite IH. f_equal. simpl. lia. }
  exact (H 0).
Qed.

Lemma length_block_files bs : length (block_files bs) = sum_list (map (fun b => length (records b)) bs).
Proof. induction bs as [|b bs IH]; [done|]. unfold block_files, files_of in *. cbn [map concat]. rewrite length_app, length_map, IH. done. Qed.

Lemma named_block_files bs : length (filter is_named (block_files bs)) = sum_list (map (fun b => length (filter (fun r => is_Some (name_hash r)) (records b))) bs).
Proof.
  assert (forall p rs, length (filter is_named (map (fun r => (r, p)) rs)) = length (filter (fun r => is_Some (name_hash r)) rs)) as Hm.
  { intros p rs. induction rs as [|r rs IH]; [done|]. cbn [map]. rewrite !filter_cons.
    destruct (decide (is_named (r, p))) as [H|H], (decide (is_Some (name_hash r))) as [H'|H']; try done. cbn [length]. by rewrite IH. }
  induction bs as [|b bs IH]; [done|]. unfold block_files, files_of in *. cbn [map concat]. rewrite filter_app, length_app, IH, Hm. done.
Qed.

Lemma block_counts bs :
  Forall (fun b => block_count b = Z.of_nat (length (records b)) /\ u32 (block_count b)) bs ->
  sum32 (map block_count bs) = wrap32 (Z.of_nat (length (block_files bs))) /\
  sum32 (map count_named bs) = wrap32 (Z.of_nat (length (filter is_named (block_files bs)))).
Proof.
  intros H. rewrite length_block_files, named_block_files, <- !sum32_wrapped. split; [|done]. f_equal. apply map_ext_in. intros b Hb%list_elem_of_In.
  rewrite Forall_forall in H. destruct (H b Hb) as [Hc Hu]. rewrite <- Hc. unfold wrap32. by rewrite wrap_small.
Qed.

Lemma block_files_perm bs bs' : bs ≡ₚ bs' -> block_files bs ≡ₚ block_files bs'.
Proof.
  induction 1 as [|b bs bs' H IH|b b' bs|]; [done| | |by etrans]; unfold block_files in *; cbn [map concat]; [by rewrite IH|].
  rewrite !(assoc_L (++)). by rewrite (comm (++) (files_of b')).
Qed.

Lemma sorted_blocks_perm b : block_files (sorted_blocks b) ≡ₚ block_files (b_blocks b).*2.
Proof.
  unfold sorted_blocks. rewrite <- (block_files_perm (sort_by_key fst (b_blocks b)).*2 (b_blocks b).*2) by (by rewrite sort_by_key_perm).
  induction (sort_by_key fst (b_blocks b)) as [|kb bs IH]; [done|]. unfold block_files in *. rewrite fmap_cons. cbn [map concat].
  by rewrite IH, sort_files_of, sort_by_key_perm.
Qed.

Lemma sort_records_ok v b : block_ok v b -> block_ok v (sort_records b).
Proof.
  intros (Hn & Hr & Hl & Hc & Hrs). unfold block_ok. change (block_count (sort_records b)) with (block_count b). change (block_content (sort_records b)) with (block_content b).
  change (records (sort_records b)) with (sort_by_key file_data_id (records b)). rewrite !sort_by_key_perm. done.
Qed.

Lemma written_counts v bs adds :
  Forall (block_ok v) bs -> adds ≡ₚ block_files bs -> Z.of_nat (length adds) <= MAX_RECORDS ->
  sum32 (map block_count bs) = Z.of_nat (length adds) /\ sum32 (map count_named bs) = Z.of_nat (length (filter is_named adds)).
Proof.
  intros Hb Hp Hn. rewrite Hp. pose proof (length_filter is_named (block_files bs)) as Hf. rewrite Hp in Hn.
  destruct (block_counts bs) as [-> ->].
  - eapply Forall_impl; [exact Hb|]. intros b (? & ? & _). split; [done|]. unfold in_u, MAX_RECORDS in *. lia.
  - unfold MAX_RECORDS in *. unfold wrap32. rewrite !wrap_small; [done|unfold in_u; lia..].
Qed.

Definition sample_file (fdid locale content : Z) : file :=
  ({| file_data_id := fdid; content_key := replicate 16 locale; name_hash := Some fdid |}, (locale, content)).

Lemma sample_root_file_ok fdid locale content l :
  u32 fdid -> u32 locale -> in_u 32 content -> has_name_hashes content = true -> Forall (file_ok V3) l -> Forall (file_ok V3) (sample_file fdid locale content :: l).
Proof.
  intros Hf Hl Hc Hn H. constructor; [|done]. split; [done|]. split; [done|]. split; [done|]. split; [done|]. cbn. rewrite Hn. exists fdid. split; [done|].
  unfold in_u in *. lia.
Qed.

(** ** Claims *)

(** C12: Builder and parser of a root file of any version: the files added (at most a
    million, each with what its version stores; in V2 not in numbers that its header
    confuses with a later one) are written into a file that parses back to that version
    and holds exactly them, ordered by locale, content flags and identifier and
    otherwise as they were added, with their numbers; resolving an identifier or a name
    hash through the lookup tables finds the first of them whose locale is shared and
    whose content flags include those asked for. *)
Theorem root_builder_roundtrip v adds :
  adds <> [] -> Forall (file_ok v) adds -> Z.of_nat (length adds) <= MAX_RECORDS ->
  (v = V2 -> is_extended_header (Z.of_nat (length adds)) (Z.of_nat (length (filter is_named adds))) = false) ->
  exists data f, build (add_files v adds) = Ok data /\ parse data = Ok f /\ version f = v /\
    let files := sort_by_key file_key adds in
    block_files (blocks f) = files /\
    total_files f = Z.of_nat (length adds) /\ named_files f = Z.of_nat (length (filter is_named adds)) /\
    (forall fdid locale content, u32 locale -> u64 content -> resolve_by_id (lookups f) fdid locale content = first_file (by_id fdid) locale content files) /\
    (forall hash locale content, u32 locale -> u64 content -> resolve_by_hash (lookups f) hash locale content = first_file (by_hash hash) locale content files).
Proof.
  intros Hne Ha Hn He. pose proof (sorted_blocks_files v adds Ha Hn) as Hf. pose proof (sorted_blocks_perm (add_files v adds)) as Hp.
  destruct (add_files_ok v adds (builder_new v) 0) as [[Hv _ Hb] _]; [by constructor; [done|constructor|constructor]|done|done|]. fold (add_files v adds) in *.
  rewrite Hf, sort_by_key_perm in Hp.
  assert (Forall (block_ok v) (b_blocks (add_files v adds)).*2) as Hok.
  { apply Forall_fmap. eapply Forall_impl; [exact Hb|]. by intros kb (_ & _ & ?). }
  assert (Forall (block_ok v) (sorted_blocks (add_files v adds))) as Hsok.
  { unfold sorted_blocks. rewrite <- (map_map snd sort_records). apply Forall_map. change (map snd) with (fmap (M := list) (@snd (Z * Z) RootBlock)).
    rewrite sort_by_key_perm. eapply Forall_impl; [exact Hok|]. apply sort_records_ok. }
  destruct (written_counts v _ adds Hok Hp Hn) as [Ht1 Hn1]. destruct (written_counts v _ adds Hsok) as [Ht2 Hn2]; [by rewrite Hf, sort_by_key_perm|done|].
  assert (b_blocks (add_files v adds) <> [] /\ sorted_blocks (add_files v adds) <> []) as [Hbn Hsn].
  { split; intros E; apply Hne; [rewrite E in Hp; by apply Permutation_nil_r in Hp|].
    apply Permutation_nil_r. rewrite <- (sort_by_key_perm file_key adds), <- Hf, E. done. }
  change ((b_blocks (add_files v adds)).*2) with (map snd (b_blocks (add_files v adds))) in Ht1, Hn1. rewrite map_map in Ht1, Hn1.
  unfold build. rewrite Hv, (proj2 (Nat.eqb_neq _ _)) by (by intros ?%length_zero_iff_nil). cbn zeta. rewrite Ht1, Hn1.
  pose proof (length_filter is_named adds) as Hl. eexists _, _. split; [done|]. split.
  { apply root_parse_written; [unfold in_u, MAX_RECORDS in *; lia..|done|done|done]. }
  split; [done|]. cbn zeta. cbn [blocks lookups]. rewrite <- Hf. split; [done|].
  unfold total_files, named_files. cbn [header blocks]. split; [by destruct v|]. split; [by destruct v|].
  split; intros; by apply resolve_is_search.
Qed.

Lemma root_builder_roundtrip_witness : let files := [sample_file 7 1 4; sample_file 5 1 4; sample_file 7 2 0] in
  exists f, version f = V3 /\ block_files (blocks f) = [sample_file 5 1 4; sample_file 7 1 4; sample_file 7 2 0] /\
    resolve_by_id (lookups f) 7 3 0 = Some (replicate 16 1) /\ resolve_by_id (lookups f) 7 2 0 = Some (replicate 16 2) /\
    resolve_by_hash (lookups f) 5 1 4 = Some (replicate 16 1).
Proof.
  intros files. destruct (root_builder_roundtrip V3 files) as (data & f & _ & _ & Hv & Hf & _ & _ & Hi & Hh); [done|by repeat apply sample_root_file_ok|done|done|].
  exists f. rewrite Hv, Hf, !Hi, Hh by done. repeat split.
Defined.

(** ** Findings *)

(** Removing a file leaves the count in the header of its block: the file that is
    built can not be read. *)
Example removed_file_breaks_the_file :
  let b := (remove_file (add_files V1 [sample_file 5 1 4; sample_file 7 1 4]) 7).2 in
  has_file b 5 = true /\ (exists data, build b = Ok data /\ parse data = Err BinRw).
Proof. split; [done|]. eexists. split; [reflexivity|by vm_compute]. Qed.

Definition sample_many (n : nat) : list file := map (fun i => ({| file_data_id := Z.of_nat i; content_key := replicate 16 0; name_hash := None |}, (1, NO_NAME_HASH))) (seq 0 n).

(** A V2 file with 16 to 99 files, less than ten of them named, is read as one of
    another version, with the first bytes of its blocks taken for its counts. *)
Example small_v2_file_is_misread : exists data f,
  build (add_files V2 (sample_many 20)) = Ok data /\ parse data = Ok f /\ version f = V3 /\ block_files (blocks f) <> sample_many 20.
Proof. eexists _, _. split; [vm_compute; reflexivity|]. split; [vm_compute; reflexivity|]. by vm_compute. Qed.

(** A file cut in its second block is read as its first. *)
Example truncated_file_is_accepted : exists data f,
  build (add_files V3 [sample_file 5 1 4; sample_file 7 2 4]) = Ok data /\ parse (take (length data - 1) data) = Ok f /\ total_files f = 2 /\ length (blocks f) = 1%nat.
Proof. eexists _, _. split; [vm_compute; reflexivity|]. split; [vm_compute; reflexivity|]. by vm_compute. Qed.

(** [validate] compares the counts of the header with themselves: they are never
    checked. *)
Lemma validate_ignores_counts f h :
  header f = Some h -> header_version h = version f -> (forall b, b ∈ blocks f -> validate_block f b = Ok tt) -> validate f = Ok tt.
Proof.
  intros Hh Hv Hb. unfold validate. rewrite Hh, bool_decide_true by done. cbn [negb]. assert (validate_blocks f (blocks f) = Ok tt) as ->.
  { induction (blocks f) as [|b bs IH]; [done|]. cbn [validate_blocks]. rewrite Hb by (by left). cbn [mbind result_bind]. apply IH. intros b' ?. apply Hb. by right. }
  cbn [mbind result_bind]. unfold total_files, named_files. rewrite Hh. by rewrite !Z.eqb_refl.
Qed.
