(* ===== verification/Resolver.v ===== *)
(** * Content resolution

    From a path or a file id to the key of the encoded content
    (src/crates/cascette-client-storage/src/resolver.rs): a root file, an encoding file and
    the maps in front of them.  Every map and lock is taken for one access, so a call is the
    sequence of its accesses; here it is one step. *)

From S2P Require Import Prelude Bytes Collections Cursor Jenkins Encoding Root.
Local Open Scope Z_scope.

Module Resolver.

Record ContentResolver := {
  root_file : option Root.RootFile;
  encoding_file : option Encoding.EncodingFile;
  path_cache : gmap bytes bytes;
  content_cache : gmap bytes bytes;
  file_data_id_map : gmap Z bytes
}.

Inductive StorageError := RootNotParsed (e : Root.RootError) | EncodingNotParsed (e : Encoding.EncodingError).

Definition resolver_new : ContentResolver := {| root_file := None; encoding_file := None; path_cache := ∅; content_cache := ∅; file_data_id_map := ∅ |}.

(** The records of all blocks, and the entries of all pages. *)
Definition all_records (f : Root.RootFile) : list Root.RootRecord := concat (map Root.records (Root.blocks f)).
Definition all_entries (f : Encoding.EncodingFile) : list Encoding.CKeyPageEntry := concat (map Encoding.page_entries (Encoding.ckey_pages f)).

Definition map_record (m : gmap Z bytes) (r : Root.RootRecord) : gmap Z bytes := <[Root.file_data_id r := Root.content_key r]> m.

Definition load_root_file (r : ContentResolver) (data : bytes) : result StorageError unit * ContentResolver :=
  match Root.parse data with
  | Err e => (Err (RootNotParsed e), r)
  | Ok root =>
      (Ok tt, {| root_file := Some root; encoding_file := encoding_file r; path_cache := path_cache r; content_cache := content_cache r;
                 file_data_id_map := fold_left map_record (all_records root) (file_data_id_map r) |})
  end.

(** The first encoding key of an entry that has one. *)
Definition cache_entry (m : gmap bytes bytes) (e : Encoding.CKeyPageEntry) : gmap bytes bytes :=
  match head (Encoding.encoding_keys e) with Some ekey => <[Encoding.content_key e := ekey]> m | None => m end.

Definition with_content_cache (r : ContentResolver) (m : gmap bytes bytes) : ContentResolver :=
  {| root_file := root_file r; encoding_file := encoding_file r; path_cache := path_cache r; content_cache := m; file_data_id_map := file_data_id_map r |}.

Definition with_path_cache (r : ContentResolver) (m : gmap bytes bytes) : ContentResolver :=
  {| root_file := root_file r; encoding_file := encoding_file r; path_cache := m; content_cache := content_cache r; file_data_id_map := file_data_id_map r |}.

Section Md5.
Context (md5 : bytes -> bytes).

Definition load_encoding_file (r : ContentResolver) (data : bytes) : result StorageError unit * ContentResolver :=
  match Encoding.parse md5 data with
  | Err e => (Err (EncodingNotParsed e), r)
  | Ok enc =>
      (Ok tt, {| root_file := root_file r; encoding_file := Some enc; path_cache := path_cache r;
                 content_cache := fold_left cache_entry (all_entries enc) (content_cache r); file_data_id_map := file_data_id_map r |})
  end.

End Md5.

(** The content key of the first record with the hash. *)
Fixpoint find_name (h : Z) (rs : list Root.RootRecord) : option bytes :=
  match rs with
  | [] => None
  | r :: rs => if bool_decide (Root.name_hash r = Some h) then Some (Root.content_key r) else find_name h rs
  end.

Definition resolve_path (r : ContentResolver) (path : bytes) : outcome (option bytes * ContentResolver) :=
  match path_cache r !! path with
  | Some k => Ret (Some k, r)
  | None =>
      k ← match root_file r with
          | None => Ret None
          | Some root => h ← Jenkins.hash path; Ret (find_name (Jenkins.hash64 h) (all_records root))
          end;
      Ret (k, match k with Some k => with_path_cache r (<[path := k]> (path_cache r)) | None => r end)
  end.

Definition resolve_file_data_id (r : ContentResolver) (fdid : Z) : option bytes := file_data_id_map r !! fdid.

(** The first encoding key of the first entry of the key that has one. *)
Fixpoint find_content (key : bytes) (es : list Encoding.CKeyPageEntry) : option bytes :=
  match es with
  | [] => None
  | e :: es =>
      if bool_decide (Encoding.content_key e = key) then
        match head (Encoding.encoding_keys e) with Some ekey => Some ekey | None => find_content key es end
      else find_content key es
  end.

Definition resolve_content_key (r : ContentResolver) (key : bytes) : option bytes * ContentResolver :=
  match content_cache r !! key with
  | Some ekey => (Some ekey, r)
  | None =>
      match encoding_file r with
      | None => (None, r)
      | Some enc =>
          match find_content key (all_entries enc) with
          | Some ekey => (Some ekey, with_content_cache r (<[key := ekey]> (content_cache r)))
          | None => (None, r)
          end
      end
  end.

Definition resolve_path_to_encoding (r : ContentResolver) (path : bytes) : outcome (option bytes * ContentResolver) :=
  '(k, r) ← resolve_path r path;
  Ret (match k with Some k => resolve_content_key r k | None => (None, r) end).

Definition resolve_fdid_to_encoding (r : ContentResolver) (fdid : Z) : option bytes * ContentResolver :=
  match resolve_file_data_id r fdid with Some k => resolve_content_key r k | None => (None, r) end.

Fixpoint find_size (key : bytes) (es : list Encoding.CKeyPageEntry) : option Z :=
  match es with
  | [] => None
  | e :: es => if bool_decide (Encoding.content_key e = key) then Some (Encoding.c_file_size e) else find_size key es
  end.

Definition get_content_size (r : ContentResolver) (key : bytes) : option Z := enc ← encoding_file r; find_size key (all_entries enc).

Record FileInfo := { fi_path : bytes; fi_content_key : bytes; fi_encoding_key : bytes; fi_size : Z }.

Definition get_file_info (r : ContentResolver) (path : bytes) : outcome (option FileInfo * ContentResolver) :=
  '(k, r) ← resolve_path r path;
  match k with
  | None => Ret (None, r)
  | Some k =>
      let '(ekey, r) := resolve_content_key r k in
      Ret (match ekey with
           | None => None
           | Some ekey => Some {| fi_path := path; fi_content_key := k; fi_encoding_key := ekey; fi_size := default 0 (get_content_size r k) |}
           end, r)
  end.

Definition clear_caches (r : ContentResolver) : ContentResolver :=
  {| root_file := root_file r; encoding_file := encoding_file r; path_cache := ∅; content_cache := ∅; file_data_id_map := ∅ |}.

Record ResolverStats := { root_entries : Z; encoding_entries : nat; path_cache_size : nat; content_cache_size : nat }.

Definition stats (r : ContentResolver) : ResolverStats :=
  {| root_entries := match root_file r with Some root => Root.total_files root | None => 0 end;
     encoding_entries := match encoding_file r with Some e => (length (Encoding.ckey_pages e) + length (Encoding.ekey_pages e)) * 1000 | None => 0 end;
     path_cache_size := size (path_cache r);
     content_cache_size := size (content_cache r) |}.

End Resolver.
