(* ===== verification/ResolverTheorems.v ===== *)
(** * Content resolution: the theorems

    The maps in front of the two files never change an answer; on well-formed files every
    sequence of queries gets the answers of their own lookups; and where resolver and files
    part: clearing, reloading, names and repeated ids. *)

From S2P Require Import Prelude Bytes Collections Cursor Jenkins Root RootTheorems Blte BlteTheorems Encoding EncodingTheorems Resolver.
Import Resolver.
Local Open Scope Z_scope.

(** ** What the resolver answers from

    The content of its maps in terms of the records and entries of the files. *)

Definition ref_path (root : Root.RootFile) (path : bytes) : outcome (option bytes) :=
  h ← Jenkins.hash path; Ret (find_name (Jenkins.hash64 h) (all_records root)).

Fixpoint find_id (i : Z) (rs : list Root.RootRecord) : option bytes :=
  match rs with
  | [] => None
  | r :: rs => if Root.file_data_id r =? i then Some (Root.content_key r) else find_id i rs
  end.

(** Of several records of an id, and of several entries of a content key, the last counts. *)
Definition ref_id (root : Root.RootFile) (i : Z) : option bytes := find_id i (reverse (all_records root)).
Definition ref_content (enc : Encoding.EncodingFile) (k : bytes) : option bytes := find_content k (reverse (all_entries enc)).
Definition ref_size (enc : Encoding.EncodingFile) (k : bytes) : option Z := find_size k (all_entries enc).

Lemma fold_map_record rs m i : fold_left map_record rs m !! i = match find_id i (reverse rs) with Some k => Some k | None => m !! i end.
Proof.
  induction rs as [|r rs IH] using rev_ind; [done|]. rewrite fold_left_app, reverse_app. cbn [fold_left].
  change (reverse [r] ++ reverse rs) with (r :: reverse rs). cbn [find_id]. unfold map_record at 1.
  destruct (Z.eqb_spec (Root.file_data_id r) i) as [->|Hi]; [apply lookup_insert_eq|by rewrite lookup_insert_ne].
Qed.

Lemma fold_cache_entry es m k : fold_left cache_entry es m !! k = match find_content k (reverse es) with Some e => Some e | None => m !! k end.
Proof.
  induction es as [|e es IH] using rev_ind; [done|]. rewrite fold_left_app, reverse_app. cbn [fold_left].
  change (reverse [e] ++ reverse es) with (e :: reverse es). cbn [find_content]. unfold cache_entry at 1.
  destruct (head (Encoding.encoding_keys e)) as [ekey|]; case_bool_decide as Hk; try done; [subst k; apply lookup_insert_eq|by rewrite lookup_insert_ne].
Qed.

Lemma find_content_None k es : find_content k es = None <-> Forall (fun e => Encoding.content_key e = k -> Encoding.encoding_keys e = []) es.
Proof.
  induction es as [|e es IH]; [done|]. cbn [find_content]. rewrite Forall_cons, <- IH. case_bool_decide as Hk.
  - destruct (Encoding.encoding_keys e) eqn:E; cbn [head]; [by split; [|intros [_ ?]]|]. split; [done|]. intros [H _]. by specialize (H Hk).
  - split; [done|by intros [_ ?]].
Qed.

Lemma ref_content_None enc k : ref_content enc k = None -> find_content k (all_entries enc) = None.
Proof. unfold ref_content. rewrite !find_content_None. intros H. rewrite <- (reverse_involutive (all_entries enc)). by apply Forall_reverse. Qed.

(** With every content key once, the last entry is the only one. *)
Lemma find_content_app k a b : find_content k (a ++ b) = match find_content k a with Some e => Some e | None => find_content k b end.
Proof. induction a as [|e a IH]; [done|]. cbn [app find_content]. case_bool_decide; [|done]. by destruct (head (Encoding.encoding_keys e)). Qed.

Lemma ref_content_unique enc k : NoDup (map Encoding.content_key (all_entries enc)) -> ref_content enc k = find_content k (all_entries enc).
Proof.
  unfold ref_content. induction (all_entries enc) as [|e es IH]; [done|]. cbn [map]. intros [Hn Hd]%NoDup_cons. rewrite reverse_cons, find_content_app, IH by done. cbn [find_content].
  case_bool_decide as Hk; [|by destruct (find_content k es)]. assert (find_content k es = None) as ->.
  { apply find_content_None, Forall_forall. intros x Hx Hxk. destruct Hn. subst k. rewrite <- Hxk. apply list_elem_of_fmap. by exists x. }
  by destruct (head (Encoding.encoding_keys e)).
Qed.

(** ** Coherence *)

Record coherent (root : Root.RootFile) (enc : Encoding.EncodingFile) (r : ContentResolver) : Prop := {
  co_root : root_file r = Some root;
  co_enc : encoding_file r = Some enc;
  co_ids : forall i, file_data_id_map r !! i = ref_id root i;
  co_content : forall k, content_cache r !! k = ref_content enc k;
  co_paths : forall p k, path_cache r !! p = Some k -> ref_path root p = Ret (Some k)
}.

Lemma hash_total data : exists h, Jenkins.hash data = Ret h.
Proof. unfold Jenkins.hash. rewrite Jenkins.hashlittle2_eq. destruct (Jenkins.hash_spec _ _) as [[a b] c]. by eexists. Qed.

Lemma resolve_path_ref root enc r p : coherent root enc r -> exists k r', resolve_path r p = Ret (k, r') /\ ref_path root p = Ret k /\ coherent root enc r'.
Proof.
  intros [Hr He Hi Hc Hp]. unfold resolve_path. destruct (path_cache r !! p) as [k|] eqn:E; [exists (Some k), r; split_and!; [done|by apply Hp|by constructor]|].
  rewrite Hr. destruct (hash_total p) as [h Hh]. rewrite Hh. cbn [mbind outcome_bind]. eexists _, _. split; [reflexivity|]. unfold ref_path. rewrite Hh. cbn [mbind outcome_bind]. split; [done|].
  destruct (find_name (Jenkins.hash64 h) (all_records root)) as [k|] eqn:Ek; [|by constructor]. constructor; try done. cbn [path_cache with_path_cache].
  intros q k' [[<- <-]|[_ Hq]]%lookup_insert_Some; [|by apply Hp]. unfold ref_path. rewrite Hh. cbn [mbind outcome_bind]. by rewrite Ek.
Qed.

Lemma resolve_content_ref root enc r k : coherent root enc r -> resolve_content_key r k = (ref_content enc k, r).
Proof.
  intros [Hr He Hi Hc Hp]. unfold resolve_content_key. rewrite Hc. destruct (ref_content enc k) eqn:E; [done|]. by rewrite He, ref_content_None.
Qed.

(** ** Sequences of queries *)

Inductive query := QPath (p : bytes) | QId (i : Z) | QContent (k : bytes) | QPathToEncoding (p : bytes) | QIdToEncoding (i : Z) | QInfo (p : bytes) | QSize (k : bytes).
Inductive answer := AKey (k : option bytes) | AInfo (i : option FileInfo) | ASize (n : option Z).

Definition step (r : ContentResolver) (q : query) : outcome (answer * ContentResolver) :=
  match q with
  | QPath p => '(k, r) ← resolve_path r p; Ret (AKey k, r)
  | QId i => Ret (AKey (resolve_file_data_id r i), r)
  | QContent k => let '(k, r) := resolve_content_key r k in Ret (AKey k, r)
  | QPathToEncoding p => '(k, r) ← resolve_path_to_encoding r p; Ret (AKey k, r)
  | QIdToEncoding i => let '(k, r) := resolve_fdid_to_encoding r i in Ret (AKey k, r)
  | QInfo p => '(i, r) ← get_file_info r p; Ret (AInfo i, r)
  | QSize k => Ret (ASize (get_content_size r k), r)
  end.

Fixpoint run (r : ContentResolver) (qs : list query) : outcome (list answer * ContentResolver) :=
  match qs with
  | [] => Ret ([], r)
  | q :: qs => '(a, r) ← step r q; '(l, r) ← run r qs; Ret (a :: l, r)
  end.

(** The answer of a resolver with nothing but the files. *)
Definition reference (root : Root.RootFile) (enc : Encoding.EncodingFile) (q : query) : outcome answer :=
  match q with
  | QPath p => k ← ref_path root p; Ret (AKey k)
  | QId i => Ret (AKey (ref_id root i))
  | QContent k => Ret (AKey (ref_content enc k))
  | QPathToEncoding p => k ← ref_path root p; Ret (AKey (k ← k; ref_content enc k))
  | QIdToEncoding i => Ret (AKey (k ← ref_id root i; ref_content enc k))
  | QInfo p =>
      k ← ref_path root p;
      Ret (AInfo (k ← k; e ← ref_content enc k; Some {| fi_path := p; fi_content_key := k; fi_encoding_key := e; fi_size := default 0 (ref_size enc k) |}))
  | QSize k => Ret (ASize (ref_size enc k))
  end.

Lemma step_ref root enc r q : coherent root enc r -> exists a r', step r q = Ret (a, r') /\ reference root enc q = Ret a /\ coherent root enc r'.
Proof.
  intros H. destruct q as [p|i|k|p|i|p|k]; cbn [step reference].
  - destruct (resolve_path_ref root enc r p H) as (k & r' & -> & -> & H'). eauto.
  - unfold resolve_file_data_id. rewrite (co_ids _ _ _ H). eauto.
  - rewrite (resolve_content_ref _ _ _ _ H). eauto.
  - unfold resolve_path_to_encoding. destruct (resolve_path_ref root enc r p H) as (k & r' & -> & -> & H'). cbn [mbind outcome_bind].
    destruct k as [k|]; cbn; [|eauto]. rewrite (resolve_content_ref _ _ _ _ H'). eauto.
  - unfold resolve_fdid_to_encoding, resolve_file_data_id. rewrite (co_ids _ _ _ H). destruct (ref_id root i) as [k|]; cbn; [|eauto]. rewrite (resolve_content_ref _ _ _ _ H). eauto.
  - unfold get_file_info. destruct (resolve_path_ref root enc r p H) as (k & r' & -> & -> & H'). cbn [mbind outcome_bind]. destruct k as [k|]; cbn; [|eauto].
    rewrite (resolve_content_ref _ _ _ _ H'). cbn. unfold get_content_size. rewrite (co_enc _ _ _ H'). destruct (ref_content enc k); cbn; eauto.
  - unfold get_content_size. rewrite (co_enc _ _ _ H). cbn. eauto.
Qed.

Lemma run_ref root enc r qs : coherent root enc r -> exists l r', run r qs = Ret (l, r') /\ Forall2 (fun q a => reference root enc q = Ret a) qs l /\ coherent root enc r'.
Proof.
  revert r. induction qs as [|q qs IH]; intros r H; [exists [], r; by split_and!|]. destruct (step_ref root enc r q H) as (a & r1 & E1 & E2 & H1).
  destruct (IH r1 H1) as (l & r2 & E3 & E4 & H2). exists (a :: l), r2. cbn [run]. rewrite E1. cbn [mbind outcome_bind]. rewrite E3. split_and!; [done|by constructor|done].
Qed.

(** The maps never change an answer, for every query on every pair of files. *)
Lemma resolver_answers md5 root_data enc_data root enc (root_first : bool) qs :
  Root.parse root_data = Ok root -> Encoding.parse md5 enc_data = Ok enc ->
  exists r l r',
    (if root_first then load_encoding_file md5 (load_root_file resolver_new root_data).2 enc_data
     else load_root_file (load_encoding_file md5 resolver_new enc_data).2 root_data) = (Ok tt, r) /\
    run r qs = Ret (l, r') /\ Forall2 (fun q a => reference root enc q = Ret a) qs l.
Proof.
  intros Hr He. unfold load_encoding_file, load_root_file. rewrite Hr, He. cbn [snd]. destruct root_first; (eexists; edestruct (run_ref root enc) as (l & r' & E & F & _);
    [|exists l, r'; split_and!; [reflexivity|exact E|exact F]]); (constructor; cbn [root_file encoding_file file_data_id_map content_cache path_cache resolver_new]; try done).
  all: intros x; rewrite ?fold_map_record, ?fold_cache_entry; unfold ref_id, ref_content; rewrite ?lookup_empty; by case_match.
Qed.

(** ** What the files answer

    With their own lookups: the lookup tables of the root file, asked for any locale and
    no content flags, since a resolver query has neither, and the page index of the
    encoding file. *)

Definition ANY_LOCALE : Z := 0xFFFFFFFF.

(** The entry of a content key, through the page index. *)
Definition encoding_entry (enc : Encoding.EncodingFile) (k : bytes) : outcome (option Encoding.CKeyPageEntry) :=
  page ← Encoding.find_page (Encoding.ckey_index enc) (Encoding.ckey_pages enc) k;
  Ret (page ← page; find_by Encoding.content_key k (Encoding.page_entries page)).

Section Names.
Context (to_uppercase : bytes -> bytes).

Definition path_in_root (root : Root.RootFile) (p : bytes) : outcome (option bytes) :=
  Root.resolve_by_path to_uppercase (Root.lookups root) p ANY_LOCALE 0.

Definition id_in_root (root : Root.RootFile) (i : Z) : option bytes := Root.resolve_by_id (Root.lookups root) i ANY_LOCALE 0.

Definition encoded (enc : Encoding.EncodingFile) (k : option bytes) : outcome (option bytes) :=
  match k with Some k => Encoding.find_encoding enc k | None => Ret None end.

Definition files_answer (root : Root.RootFile) (enc : Encoding.EncodingFile) (q : query) : outcome answer :=
  match q with
  | QPath p => k ← path_in_root root p; Ret (AKey k)
  | QId i => Ret (AKey (id_in_root root i))
  | QContent k => e ← Encoding.find_encoding enc k; Ret (AKey e)
  | QPathToEncoding p => k ← path_in_root root p; e ← encoded enc k; Ret (AKey e)
  | QIdToEncoding i => e ← encoded enc (id_in_root root i); Ret (AKey e)
  | QInfo p =>
      k ← path_in_root root p;
      e ← encoded enc k;
      size ← match k with Some k => encoding_entry enc k | None => Ret None end;
      Ret (AInfo (k ← k; e ← e; Some {| fi_path := p; fi_content_key := k; fi_encoding_key := e; fi_size := default 0 (Encoding.c_file_size <$> size) |}))
  | QSize k => entry ← encoding_entry enc k; Ret (ASize (Encoding.c_file_size <$> entry))
  end.

(** A path as the root file hashes it: upper case, with backslashes. *)
Definition canonical (p : bytes) : Prop := map (fun c => if c =? 47 then 92 else c) (to_uppercase p) = p.

(** Every block is for some locale. *)
Definition located (root : Root.RootFile) : Prop := Forall (fun b => Z.land (Root.block_locale b) ANY_LOCALE <> 0) (Root.blocks root).

(** An encoding file whose index leads to each entry, with every content key once. *)
Definition paged (enc : Encoding.EncodingFile) : Prop :=
  indexed enc /\ NoDup (map Encoding.content_key (all_entries enc)) /\
  Forall (fun page => Forall (fun e =>
    Encoding.find_page (Encoding.ckey_index enc) (Encoding.ckey_pages enc) (Encoding.content_key e) = Ret (Some page))
    (Encoding.page_entries page)) (Encoding.ckey_pages enc).

(** The queries on which resolver and files are meant to agree: canonical paths, and ids
    with one record at most. *)
Definition query_ok (root : Root.RootFile) (q : query) : Prop :=
  match q with
  | QPath p | QPathToEncoding p | QInfo p => canonical p
  | QId i | QIdToEncoding i => (length (filter (fun r => Root.file_data_id r = i) (all_records root)) <= 1)%nat
  | QContent _ | QSize _ => True
  end.

Lemma selected_all (p : Root.RootRecord -> bool) root :
  located root ->
  head (selected (fun a => p a.1) ANY_LOCALE 0 (block_files (Root.blocks root))) =
    Root.content_key <$> head (filter (fun r => p r = true) (all_records root)).
Proof.
  intros H. assert (selected (fun a => p a.1) ANY_LOCALE 0 (block_files (Root.blocks root)) =
    map Root.content_key (filter (fun r => p r = true) (all_records root))) as ->; [|by destruct (filter _ _)].
  unfold located, all_records, block_files in *. induction H as [|b bs Hb H IH]; [done|]. cbn [map concat]. rewrite selected_app, filter_app, map_app, IH. f_equal.
  unfold files_of. induction (Root.records b) as [|r rs IHr]; [done|]. cbn [map]. rewrite selected_cons, filter_cons, IHr. cbn [fst snd].
  unfold Root.flags_match. rewrite Z.land_0_r, (proj2 (Z.eqb_neq _ _) Hb). cbn [negb Z.eqb]. rewrite !andb_true_r. by destruct (p r).
Qed.

Lemma find_name_filter h rs : find_name h rs = Root.content_key <$> head (filter (fun r => bool_decide (Root.name_hash r = Some h) = true) rs).
Proof.
  induction rs as [|r rs IH]; [done|]. cbn [find_name]. rewrite filter_cons. case_bool_decide as E.
  - by rewrite decide_True by done.
  - by rewrite decide_False.
Qed.

Lemma find_id_filter i rs : find_id i rs = Root.content_key <$> head (filter (fun r => (Root.file_data_id r =? i) = true) rs).
Proof. induction rs as [|r rs IH]; [done|]. cbn [find_id]. rewrite filter_cons. destruct (Root.file_data_id r =? i); [done|]. by rewrite IH. Qed.

Lemma parsed_lookups data root : Root.parse data = Ok root -> Root.lookups root = Root.build_lookups (Root.blocks root).
Proof.
  unfold Root.parse. cbv [mbind result_bind]. intros H. destruct (Root.detect data) as [v|]; [|done].
  repeat case_match; simplify_eq; done.
Qed.

Lemma path_same data root p : Root.parse data = Ok root -> located root -> canonical p -> path_in_root root p = ref_path root p.
Proof.
  intros Hp Hl Hc. unfold path_in_root, Root.resolve_by_path, Root.calculate_name_hash, ref_path. rewrite Hc.
  destruct (hash_total p) as [h ->]. cbn [mbind outcome_bind]. f_equal. rewrite (parsed_lookups data root Hp).
  unfold Root.resolve_by_hash. rewrite resolve_in_answers. destruct (build_lookups_answers (Root.blocks root) (Jenkins.hash64 h) ANY_LOCALE 0) as [_ ->].
  rewrite find_name_filter. exact (selected_all (fun r => bool_decide (Root.name_hash r = Some (Jenkins.hash64 h))) root Hl).
Qed.

Lemma id_same data root i :
  Root.parse data = Ok root -> located root -> (length (filter (fun r => Root.file_data_id r = i) (all_records root)) <= 1)%nat ->
  id_in_root root i = ref_id root i.
Proof.
  intros Hp Hl Hone. unfold id_in_root, Root.resolve_by_id. rewrite (parsed_lookups data root Hp), resolve_in_answers.
  destruct (build_lookups_answers (Root.blocks root) i ANY_LOCALE 0) as [-> _]. unfold ref_id. rewrite find_id_filter.
  change (by_id i) with (fun a : Root.RootRecord * (Z * Z) => (fun r => Root.file_data_id r =? i) a.1). rewrite (selected_all _ root Hl). f_equal.
  rewrite (list_filter_iff (fun r => Root.file_data_id r = i) (fun r => (Root.file_data_id r =? i) = true)) in Hone by (intros r; by rewrite Z.eqb_eq).
  assert (forall l : list Root.RootRecord, filter (fun r => (Root.file_data_id r =? i) = true) (reverse l) = reverse (filter (fun r => (Root.file_data_id r =? i) = true) l)) as ->.
  { induction l as [|r l IH]; [done|]. rewrite reverse_cons, filter_app, IH, !filter_cons, filter_nil. case_decide; [by rewrite reverse_cons|by rewrite app_nil_r]. }
  by destruct (filter _ _) as [|r [|]]; simpl in *; [..|lia].
Qed.

Lemma find_by_is_Some {A K} `{EqDecision K} (key : A -> K) l x : x ∈ l -> is_Some (find_by key (key x) l).
Proof.
  induction l as [|y l IH]; [by intros ?%not_elem_of_nil|]. cbn [find_by]. case_bool_decide as E; [by eexists|].
  intros [->|Hx]%elem_of_cons; [done|by apply IH].
Qed.

Lemma elem_all_entries enc e : e ∈ all_entries enc <-> exists page, page ∈ Encoding.ckey_pages enc /\ e ∈ Encoding.page_entries page.
Proof.
  unfold all_entries. split.
  - intros H%list_elem_of_In. apply in_concat in H as (l & Hl & He). apply in_map_iff in Hl as (page & <- & Hp). exists page. by rewrite !list_elem_of_In.
  - intros (page & Hp%list_elem_of_In & He%list_elem_of_In). apply list_elem_of_In, in_concat. exists (Encoding.page_entries page). split; [by apply in_map|done].
Qed.

Lemma entry_same enc k : paged enc -> encoding_entry enc k = Ret (find_by Encoding.content_key k (all_entries enc)).
Proof.
  intros (Hi & Hd & Hp). unfold encoding_entry. destruct (find_by Encoding.content_key k (all_entries enc)) as [e|] eqn:E.
  - apply find_by_Some in E as [He <-]. pose proof He as (page & Hpg & Hpe)%elem_all_entries. rewrite Forall_forall in Hp. specialize (Hp page Hpg).
    rewrite Forall_forall in Hp. rewrite (Hp e Hpe). cbn [mbind outcome_bind option_bind]. f_equal.
    destruct (find_by_is_Some Encoding.content_key _ e Hpe) as [e' Ee']. rewrite Ee'. apply find_by_Some in Ee' as [He' Ek].
    assert (e' ∈ all_entries enc) as Hin by (apply elem_all_entries; eauto).
    pose proof (find_by_intro Encoding.content_key _ e Hd He) as E1. pose proof (find_by_intro Encoding.content_key _ e' Hd Hin) as E2. rewrite Ek, E1 in E2. done.
  - destruct Hi as (Hs & Hlen & _). pose proof (find_page_scan (Encoding.ckey_index enc) (Encoding.ckey_pages enc) k Hs Hlen) as Hscan.
    destruct (scan _ _ k) as [page|]; rewrite Hscan; [|done]. cbn [mbind outcome_bind option_bind]. f_equal.
    apply find_by_none. intros e He Hk. assert (page ∈ Encoding.ckey_pages enc) as Hpg.
    { unfold Encoding.find_page in Hscan. destruct (Encoding.partition_point _ _); [done|]. destruct (Encoding.ckey_pages enc !! n) eqn:En; [|done].
      injection Hscan as <-. by eapply list_elem_of_lookup_2. }
    assert (e ∈ all_entries enc) as Hin by (apply elem_all_entries; eauto). rewrite <- Hk, (find_by_intro _ _ e Hd Hin) in E. done.
Qed.

Lemma find_content_by k es : NoDup (map Encoding.content_key es) -> find_content k es = (e ← find_by Encoding.content_key k es; head (Encoding.encoding_keys e)).
Proof.
  induction es as [|e es IH]; [done|]. cbn [map find_content find_by]. intros [Hn Hd]%NoDup_cons. case_bool_decide as E; [|by apply IH]. cbn [mbind option_bind].
  destruct (head (Encoding.encoding_keys e)); [done|]. rewrite IH by done. rewrite find_by_none; [done|]. intros x Hx Hk. apply Hn. rewrite E, <- Hk.
  by apply list_elem_of_fmap_2.
Qed.

Lemma content_same enc k : paged enc -> Encoding.find_encoding enc k = Ret (ref_content enc k).
Proof.
  intros H. pose proof (entry_same enc k H) as E. destruct H as (_ & Hd & _). rewrite ref_content_unique, find_content_by by done.
  unfold encoding_entry in E. unfold Encoding.find_encoding. destruct (Encoding.find_page _ _ k) as [page|]; [|done]. cbn [mbind outcome_bind] in *.
  injection E as E. f_equal. rewrite <- E. by destruct page.
Qed.

Lemma size_same enc k : paged enc -> encoding_entry enc k = Ret (find_by Encoding.content_key k (all_entries enc)) /\
  ref_size enc k = Encoding.c_file_size <$> find_by Encoding.content_key k (all_entries enc).
Proof.
  intros H. split; [by apply entry_same|]. unfold ref_size. induction (all_entries enc) as [|e es IH]; [done|]. cbn [find_size find_by]. by case_bool_decide.
Qed.

Lemma answers_same data root enc q :
  Root.parse data = Ok root -> located root -> paged enc -> query_ok root q -> files_answer root enc q = reference root enc q.
Proof.
  intros Hp Hl He Hq. assert (forall k, encoded enc k = Ret (k ← k; ref_content enc k)) as Henc.
  { intros [k|]; [by apply content_same|done]. }
  destruct q as [p|i|k|p|i|p|k]; cbn [files_answer reference query_ok] in *.
  - by rewrite (path_same data).
  - by rewrite (id_same data).
  - by rewrite content_same.
  - rewrite (path_same data) by done. destruct (ref_path root p) as [k|]; [|done]. cbn [mbind outcome_bind]. by rewrite Henc.
  - by rewrite (id_same data), Henc.
  - rewrite (path_same data) by done. destruct (ref_path root p) as [[k|]|]; [|done|done]. cbn [mbind outcome_bind]. rewrite Henc. cbn [mbind outcome_bind option_bind].
    destruct (size_same enc k He) as [-> ->]. done.
  - destruct (size_same enc k He) as [-> ->]. done.
Qed.

End Names.

(** C15: A resolver with a root file and an encoding file loaded, in either order, answers
    every sequence of queries without panicking, and as the lookups of the files
    themselves do: a path and an id as the lookup tables of the root file for any locale,
    a content key as the page index of the encoding file; what the maps in front of the
    files hold never shows.  Assumed are: a root file with a locale in each block; an
    encoding file whose index leads to each of its entries and in which no content key
    has two; paths in the form the root file hashes (upper case, with backslashes), which
    the resolver does not establish itself ([path_is_not_normalized]); and ids with at
    most one record: of several the resolver answers with the last, the root file with the
    first ([last_record_answers]). *)
Theorem resolver_refines md5 to_uppercase root_data enc_data root enc (root_first : bool) qs :
  Root.parse root_data = Ok root -> Encoding.parse md5 enc_data = Ok enc ->
  located root -> paged enc -> Forall (query_ok to_uppercase root) qs ->
  exists r l r',
    (if root_first then load_encoding_file md5 (load_root_file resolver_new root_data).2 enc_data
     else load_root_file (load_encoding_file md5 resolver_new enc_data).2 root_data) = (Ok tt, r) /\
    run r qs = Ret (l, r') /\ Forall2 (fun q a => files_answer to_uppercase root enc q = Ret a) qs l.
Proof.
  intros Hr He Hl Hpg Hq. destruct (resolver_answers md5 root_data enc_data root enc root_first qs Hr He) as (r & l & r' & E1 & E2 & HF).
  exists r, l, r'. split; [done|]. split; [done|]. clear E1 E2. induction HF as [|q a qs l Ha HF IH]; [done|]. apply Forall_cons in Hq as [Hq1 Hq].
  constructor; [|by apply IH]. by rewrite (answers_same to_uppercase root_data).
Qed.

(** ** A concrete pair of files *)

Definition path_hash (p : bytes) : Z := match Jenkins.hash p with Ret h => Jenkins.hash64 h | Panic => 0 end.

(** The file 7, named by the hash given, with the content key 9 of the sample encoding file. *)
Definition root_with (hash : Z) (ckey : bytes) : bytes :=
  match Root.build (Root.add_file_with_hash (Root.builder_new Root.V1) 7 ckey (Some hash) 1 0) with Ok d => d | Err _ => [] end.

Definition parsed_root (data : bytes) : Root.RootFile :=
  match Root.parse data with Ok f => f | Err _ => {| Root.version := Root.V1; Root.header := None; Root.blocks := []; Root.lookups := Root.lookups_new |} end.

Definition sample_root : bytes := root_with (path_hash [65]) (sample_key 9).

Definition ascii_upper (s : bytes) : bytes := map (fun c => if in_rng 97 122 c then c - 32 else c) s.

Lemma sample_paged : paged sample_file.
Proof.
  split; [apply sample_indexed|]. split; [decide_now|]. apply Forall_forall. intros page Hp%list_elem_of_In. vm_compute in Hp.
  repeat destruct Hp as [<-|Hp]; [..|done]; apply Forall_forall; intros e He%list_elem_of_In; simpl in He;
    repeat destruct He as [<-|He]; try done; vm_compute; reflexivity.
Qed.

Lemma resolver_refines_witness :
  exists r l r',
    load_encoding_file zero_md5 (load_root_file resolver_new sample_root).2 sample_data = (Ok tt, r) /\
    run r [QPathToEncoding [65]; QPathToEncoding [65]; QIdToEncoding 7; QPath [66]; QInfo [65]] = Ret (l, r') /\
    Forall2 (fun q a => files_answer ascii_upper (parsed_root sample_root) sample_file q = Ret a)
      [QPathToEncoding [65]; QPathToEncoding [65]; QIdToEncoding 7; QPath [66]; QInfo [65]] l /\
    l = [AKey (Some (sample_key 3)); AKey (Some (sample_key 3)); AKey (Some (sample_key 3)); AKey None;
         AInfo (Some {| fi_path := [65]; fi_content_key := sample_key 9; fi_encoding_key := sample_key 3; fi_size := 70000 |})].
Proof.
  destruct (resolver_refines zero_md5 ascii_upper sample_root sample_data (parsed_root sample_root) sample_file true
    [QPathToEncoding [65]; QPathToEncoding [65]; QIdToEncoding 7; QPath [66]; QInfo [65]]) as (r & l & r' & E1 & E2 & HF).
  - vm_compute. reflexivity.
  - vm_compute. reflexivity.
  - unfold located. decide_now.
  - apply sample_paged.
  - repeat (apply Forall_cons; split); try apply Forall_nil; first [apply Nat.leb_le; vm_compute; reflexivity|vm_compute; reflexivity].
  - exists r, l, r'. split; [exact E1|]. split; [exact E2|]. split; [exact HF|]. clear E1 E2.
    repeat match goal with
    | H : Forall2 _ (_ :: _) _ |- _ => apply Forall2_cons_inv_l in H as (? & ? & ?%(f_equal (fun o => match o with Ret a => Some a | Panic => None end)) & H & ->)
    | H : Forall2 _ [] _ |- _ => apply Forall2_nil_inv_l in H as ->
    end. vm_compute in H, H0, H1, H2, H3. simplify_eq. reflexivity.
Defined.

(** ** What clearing, reloading and names do *)

(** [clear_caches] empties the map of file ids, which is not a cache: no id is found any
    more although the root file is still loaded. *)
Theorem clear_caches_loses_ids r i : root_file (clear_caches r) = root_file r /\ resolve_file_data_id (clear_caches r) i = None.
Proof. done. Qed.

(** A path that was resolved once keeps its content key when another root file is loaded,
    and an id that the new file does not have keeps its old one. *)
Theorem reload_keeps_old_answers r p k data root i :
  path_cache r !! p = Some k -> Root.parse data = Ok root -> ref_id root i = None ->
  let r' := (load_root_file r data).2 in
  root_file r' = Some root /\ (exists r'', resolve_path r' p = Ret (Some k, r'')) /\ resolve_file_data_id r' i = resolve_file_data_id r i.
Proof.
  intros Hp Hd Hi r'. unfold r', load_root_file. rewrite Hd. cbn [snd]. split; [done|]. split.
  - unfold resolve_path. cbn [path_cache]. rewrite Hp. by eexists.
  - unfold resolve_file_data_id. cbn [file_data_id_map]. rewrite fold_map_record. unfold ref_id in Hi. by rewrite Hi.
Qed.

(** The root file names a file by the hash of its path in upper case; the resolver hashes
    the path as it is: a file the builder added under a name is not found under it. *)
Theorem path_is_not_normalized :
  let hash := match Root.calculate_name_hash ascii_upper [97] with Ret h => h | Panic => 0 end in
  let r := (load_root_file resolver_new (root_with hash (sample_key 9))).2 in
  match resolve_path r [97] with Ret (k, _) => k = None | Panic => False end /\ match resolve_path r [65] with Ret (k, _) => k = Some (sample_key 9) | Panic => False end.
Proof. vm_compute. split; reflexivity. Qed.

(** Of several records of an id the resolver answers with the last, the lookup tables of
    the root file with the first. *)
Theorem last_record_answers :
  let data := match Root.build (Root.add_file_with_hash (Root.add_file_with_hash (Root.builder_new Root.V1) 7 (sample_key 9) (Some 1) 1 0)
                                  7 (sample_key 5) (Some 2) 2 0) with Ok d => d | Err _ => [] end in
  resolve_file_data_id (load_root_file resolver_new data).2 7 = Some (sample_key 5) /\
  id_in_root (parsed_root data) 7 = Some (sample_key 9).
Proof. vm_compute. split; reflexivity. Qed.
