(* ===== verification/Agent.v ===== *)
(** * The agent: operations, products, queue, runner and executors

    The background service that installs, updates, repairs, verifies and removes
    products (src/crates/cascette-agent/src: models, state, executor, and the handlers
    that queue operations).  The database is two tables: operations as rows of text the
    way they are stored, products by code.  The clock advances with each reading.  What an
    executor gets from the network, the installation pipelines and the file system is an
    input of it: the result of the preparation and that of the pipeline.  Calls of the
    database itself succeed. *)

From S2P Require Import Prelude Bytes Collections.
Local Open Scope Z_scope.

Module Agent.

Inductive AgentError : Type :=
| Database
| InvalidTransition (from to : string)
| ProductNotFound (code : bytes)
| OperationNotFound (id : Z)
| ActiveOperationExists (product : bytes) (operation_type : string)
| InvalidProductState (product : bytes) (status operation : string)
| GameProcessRunning (product : bytes) (operation : string)
| Schema (what : string)
| InvalidConfig (why : string)
| Cancelled_
| Pipeline (why : bytes).

Notation aresult := (result AgentError).

(** ** Operations *)

Inductive OperationType : Type := Install | Update | Repair | Verify | Uninstall | Backfill | Extract.
Inductive OperationState : Type := Queued | Initializing | Downloading | Verifying | Complete | Failed | Cancelled.
Inductive Priority : Type := Low | Normal | High.

#[export] Instance OperationState_eq_dec : EqDecision OperationState.
Proof. solve_decision. Defined.

Definition type_string (t : OperationType) : string :=
  match t with
  | Install => "install" | Update => "update" | Repair => "repair" | Verify => "verify"
  | Uninstall => "uninstall" | Backfill => "backfill" | Extract => "extract"
  end.

Definition state_string (s : OperationState) : string :=
  match s with
  | Queued => "queued" | Initializing => "initializing" | Downloading => "downloading" | Verifying => "verifying"
  | Complete => "complete" | Failed => "failed" | Cancelled => "cancelled"
  end.

Definition priority_string (p : Priority) : string := match p with Low => "low" | Normal => "normal" | High => "high" end.

Definition from_agent_priority (value : Z) : Priority := if 900 <=? value then High else if 500 <=? value then Normal else Low.

Definition can_transition_to (self target : OperationState) : bool :=
  match self, target with
  | Queued, (Initializing | Cancelled)
  | (Initializing | Verifying), Downloading
  | Downloading, (Verifying | Queued | Cancelled | Failed)
  | Verifying, (Complete | Queued | Cancelled | Failed)
  | Initializing, (Queued | Cancelled | Failed) => true
  | _, _ => false
  end.

Definition is_terminal (s : OperationState) : bool := match s with Complete | Failed | Cancelled => true | _ => false end.
Definition is_active (s : OperationState) : bool := match s with Queued | Initializing | Downloading | Verifying => true | _ => false end.

Record ErrorInfo := { code : string; message : AgentError }.

(** The members of a JSON object that are strings, or [null]. *)
Definition json := list (string * option bytes).

Fixpoint get_str (k : string) (j : json) : option bytes :=
  match j with
  | [] => None
  | (k', v) :: j => if bool_decide (k = k') then v else get_str k j
  end.

Record Operation := {
  operation_id : Z; product_code : bytes; operation_type : OperationType; state : OperationState; priority : Priority;
  parameters : option json; metadata : option (list Z); progress : option bytes; error : option ErrorInfo;
  created_at : Z; updated_at : Z; started_at : option Z; completed_at : option Z;
}.

Definition operation_new (id now : Z) (product : bytes) (t : OperationType) (p : Priority) (params : option json) : Operation :=
  {| operation_id := id; product_code := product; operation_type := t; state := Queued; priority := p; parameters := params;
     metadata := None; progress := None; error := None; created_at := now; updated_at := now; started_at := None; completed_at := None |}.

Definition transition_to (now : Z) (o : Operation) (new_state : OperationState) : aresult Operation :=
  if negb (can_transition_to (state o) new_state) then Err (InvalidTransition (state_string (state o)) (state_string new_state))
  else Ok {| operation_id := operation_id o; product_code := product_code o; operation_type := operation_type o; state := new_state;
             priority := priority o; parameters := parameters o; metadata := metadata o; progress := progress o; error := error o;
             created_at := created_at o; updated_at := now;
             started_at := match new_state, started_at o with Initializing, None => Some now | _, s => s end;
             completed_at := match new_state with Complete | Failed | Cancelled => Some now | _ => completed_at o end |}.

Definition with_error (o : Operation) (e : ErrorInfo) : Operation :=
  {| operation_id := operation_id o; product_code := product_code o; operation_type := operation_type o; state := state o;
     priority := priority o; parameters := parameters o; metadata := metadata o; progress := progress o; error := Some e;
     created_at := created_at o; updated_at := updated_at o; started_at := started_at o; completed_at := completed_at o |}.

Definition with_metadata (o : Operation) (m : list Z) : Operation :=
  {| operation_id := operation_id o; product_code := product_code o; operation_type := operation_type o; state := state o;
     priority := priority o; parameters := parameters o; metadata := Some m; progress := progress o; error := error o;
     created_at := created_at o; updated_at := updated_at o; started_at := started_at o; completed_at := completed_at o |}.

(** The error is set before the transition is tried. *)
Definition fail (now : Z) (o : Operation) (e : ErrorInfo) : aresult unit * Operation :=
  let o := with_error o e in
  match transition_to now o Failed with Ok o' => (Ok tt, o') | Err e => (Err e, o) end.

Definition update_progress (now : Z) (o : Operation) (p : bytes) : Operation :=
  {| operation_id := operation_id o; product_code := product_code o; operation_type := operation_type o; state := state o;
     priority := priority o; parameters := parameters o; metadata := metadata o; progress := Some p; error := error o;
     created_at := created_at o; updated_at := now; started_at := started_at o; completed_at := completed_at o |}.

(** ** Products *)

Inductive ProductStatus : Type :=
| Available | Installing | Installed | Updating | Repairing | PVerifying | Uninstalling | Corrupted.

Inductive InstallationMode : Type := Casc | Containerless.

#[export] Instance ProductStatus_eq_dec : EqDecision ProductStatus.
Proof. solve_decision. Defined.

Definition status_string (s : ProductStatus) : string :=
  match s with
  | Available => "available" | Installing => "installing" | Installed => "installed" | Updating => "updating"
  | Repairing => "repairing" | PVerifying => "verifying" | Uninstalling => "uninstalling" | Corrupted => "corrupted"
  end.

Definition status_can_transition_to (self target : ProductStatus) : bool :=
  match self, target with
  | Available, Installing
  | (Installing | Updating | Repairing | PVerifying | Uninstalling), Installed
  | (Installing | Uninstalling), Available
  | Installed, (Updating | Repairing | PVerifying | Uninstalling)
  | (PVerifying | Repairing), Corrupted
  | Corrupted, (Repairing | Uninstalling) => true
  | _, _ => false
  end.

Definition is_busy (s : ProductStatus) : bool := match s with Installing | Updating | Repairing | PVerifying | Uninstalling => true | _ => false end.
Definition is_installed (s : ProductStatus) : bool := match s with Installed | Updating | Repairing | PVerifying | Corrupted => true | _ => false end.

(** The registration data that no operation changes is one field. *)
Record Product := {
  p_code : bytes; name : bytes; status : ProductStatus; version : option bytes; install_path : option bytes; size_bytes : option Z;
  region : option bytes; locale : option bytes; installation_mode : option InstallationMode; is_update_available : bool;
  available_version : option bytes; build_config : option bytes; cdn_config : option bytes; product_config_hash : option bytes;
  registration : json;
}.

Definition product_new (code name : bytes) : Product :=
  {| p_code := code; name := name; status := Available; version := None; install_path := None; size_bytes := None; region := None; locale := None;
     installation_mode := None; is_update_available := false; available_version := None; build_config := None; cdn_config := None;
     product_config_hash := None; registration := [] |}.

Definition with_status (p : Product) (s : ProductStatus) : Product :=
  {| p_code := p_code p; name := name p; status := s; version := version p; install_path := install_path p; size_bytes := size_bytes p;
     region := region p; locale := locale p; installation_mode := installation_mode p; is_update_available := is_update_available p;
     available_version := available_version p; build_config := build_config p; cdn_config := cdn_config p;
     product_config_hash := product_config_hash p; registration := registration p |}.

Definition product_transition_to (p : Product) (s : ProductStatus) : aresult Product :=
  if status_can_transition_to (status p) s then Ok (with_status p s) else Err (InvalidTransition (status_string (status p)) (status_string s)).

(** ** Database *)

Record OpRow := {
  r_id : Z; r_product : bytes; r_type : string; r_state : string; r_priority : string; r_parameters : option json;
  r_metadata : option (list Z); r_progress : option bytes; r_error : option ErrorInfo;
  r_created : Z; r_updated : Z; r_started : option Z; r_completed : option Z;
}.

Record Db := { operations : list OpRow; products : gmap bytes Product; clock : Z }.

Definition with_operations (d : Db) (rs : list OpRow) : Db := {| operations := rs; products := products d; clock := clock d |}.
Definition with_products (d : Db) (ps : gmap bytes Product) : Db := {| operations := operations d; products := ps; clock := clock d |}.
Definition tick (d : Db) : Db := {| operations := operations d; products := products d; clock := clock d + 1 |}.

Definition parse_operation_type (s : string) : aresult OperationType :=
  if bool_decide (s = "install") then Ok Install else if bool_decide (s = "update") then Ok Update
  else if bool_decide (s = "repair") then Ok Repair else if bool_decide (s = "verify") then Ok Verify
  else if bool_decide (s = "uninstall") then Ok Uninstall else if bool_decide (s = "backfill") then Ok Backfill
  else Err (Schema s).

Definition parse_operation_state (s : string) : aresult OperationState :=
  if bool_decide (s = "queued") then Ok Queued else if bool_decide (s = "initializing") then Ok Initializing
  else if bool_decide (s = "downloading") then Ok Downloading else if bool_decide (s = "verifying") then Ok Verifying
  else if bool_decide (s = "complete") then Ok Complete else if bool_decide (s = "failed") then Ok Failed
  else if bool_decide (s = "cancelled") then Ok Cancelled else Err (Schema s).

Definition parse_priority (s : string) : aresult Priority :=
  if bool_decide (s = "low") then Ok Low else if bool_decide (s = "normal") then Ok Normal
  else if bool_decide (s = "high") then Ok High else Err (Schema s).

Definition row_to_operation (r : OpRow) : aresult Operation :=
  t ← parse_operation_type (r_type r);
  s ← parse_operation_state (r_state r);
  p ← parse_priority (r_priority r);
  Ok {| operation_id := r_id r; product_code := r_product r; operation_type := t; state := s; priority := p; parameters := r_parameters r;
        metadata := r_metadata r; progress := r_progress r; error := r_error r; created_at := r_created r; updated_at := r_updated r;
        started_at := r_started r; completed_at := r_completed r |}.

(** ** Operation queue *)

Definition inactive (s : string) : bool := bool_decide (s = "complete") || bool_decide (s = "failed") || bool_decide (s = "cancelled").

Definition active_for (product : bytes) (r : OpRow) : bool := bool_decide (r_product r = product) && negb (inactive (r_state r)).

Definition queue_get (d : Db) (id : Z) : aresult Operation :=
  match list_find (fun r => r_id r = id) (operations d) with Some (_, r) => row_to_operation r | None => Err (OperationNotFound id) end.

Definition find_active_for_product (d : Db) (product : bytes) : aresult (option Operation) :=
  match sort_by_key (fun r => - r_created r) (filter (fun r => active_for product r = true) (operations d)) with
  | r :: _ => o ← row_to_operation r; Ok (Some o)
  | [] => Ok None
  end.

Definition priority_rank (s : string) : Z := if bool_decide (s = "high") then 0 else if bool_decide (s = "normal") then 1 else 2.

Fixpoint rows_to_operations (rs : list OpRow) : aresult (list Operation) :=
  match rs with
  | [] => Ok []
  | r :: rs => o ← row_to_operation r; os ← rows_to_operations rs; Ok (o :: os)
  end.

Definition queued_rows (d : Db) : list OpRow :=
  sort_by_key (fun r => (priority_rank (r_priority r), r_created r)) (filter (fun r => r_state r = "queued"%string) (operations d)).

Definition get_queued (d : Db) : aresult (list Operation) := rows_to_operations (queued_rows d).

Definition list_for_product (d : Db) (product : bytes) : aresult (list Operation) :=
  rows_to_operations (sort_by_key (fun r => - r_created r) (filter (fun r => r_product r = product) (operations d))).

Definition insert_row (now : Z) (o : Operation) : OpRow :=
  {| r_id := operation_id o; r_product := product_code o; r_type := type_string (operation_type o); r_state := state_string (state o);
     r_priority := priority_string (priority o); r_parameters := parameters o; r_metadata := metadata o; r_progress := progress o;
     r_error := error o; r_created := now; r_updated := now; r_started := started_at o; r_completed := completed_at o |}.

(** The [INSERT]: the identifier is the primary key. *)
Definition queue_put (o : Operation) (d : Db) : aresult unit * Db :=
  if existsb (fun r => r_id r =? operation_id o) (operations d) then (Err Database, tick d)
  else (Ok tt, tick (with_operations d (operations d ++ [insert_row (clock d) o]))).

(** An active operation with the same product code is looked for first, in a statement
    of its own. *)
Definition queue_insert (o : Operation) (d : Db) : aresult unit * Db :=
  match find_active_for_product d (product_code o) with
  | Err e => (Err e, d)
  | Ok (Some active) => (Err (ActiveOperationExists (product_code o) (type_string (operation_type active))), d)
  | Ok None => queue_put o d
  end.

Definition update_row (now : Z) (o : Operation) (r : OpRow) : OpRow :=
  if r_id r =? operation_id o then
    {| r_id := r_id r; r_product := r_product r; r_type := r_type r; r_state := state_string (state o); r_priority := priority_string (priority o);
       r_parameters := r_parameters r; r_metadata := metadata o; r_progress := progress o; r_error := error o; r_created := r_created r;
       r_updated := now; r_started := started_at o; r_completed := completed_at o |}
  else r.

Definition queue_update (o : Operation) (d : Db) : Db := tick (with_operations d (map (update_row (clock d) o) (operations d))).

Definition DAY : Z := 86400000.

Definition cleanup_old (retention_days : Z) (d : Db) : nat * Db :=
  let cutoff := clock d - retention_days * DAY in
  let old (r : OpRow) := inactive (r_state r) && match r_completed r with Some c => c <? cutoff | None => false end in
  (length (filter (fun r => old r = true) (operations d)), tick (with_operations d (filter (fun r => old r = false) (operations d)))).

(** ** Product registry *)

Definition lower (c : Z) : Z := if (65 <=? c) && (c <=? 90) then c + 32 else c.
Definition to_ascii_lowercase (s : bytes) : bytes := map lower s.

Definition registry_get (d : Db) (code : bytes) : aresult Product :=
  match products d !! to_ascii_lowercase code with Some p => Ok p | None => Err (ProductNotFound (to_ascii_lowercase code)) end.

Definition with_code (p : Product) (c : bytes) : Product :=
  {| p_code := c; name := name p; status := status p; version := version p; install_path := install_path p; size_bytes := size_bytes p;
     region := region p; locale := locale p; installation_mode := installation_mode p; is_update_available := is_update_available p;
     available_version := available_version p; build_config := build_config p; cdn_config := cdn_config p;
     product_config_hash := product_config_hash p; registration := registration p |}.

Definition registry_insert (p : Product) (d : Db) : aresult unit * Db :=
  let c := to_ascii_lowercase (p_code p) in
  match products d !! c with
  | Some _ => (Err Database, tick d)
  | None => (Ok tt, tick (with_products d (<[c := with_code p c]> (products d))))
  end.

Definition registry_update (p : Product) (d : Db) : Db :=
  let c := to_ascii_lowercase (p_code p) in
  match products d !! c with
  | Some _ => tick (with_products d (<[c := with_code p c]> (products d)))
  | None => tick d
  end.

Definition registry_exists (d : Db) (code : bytes) : bool := bool_decide (is_Some (products d !! to_ascii_lowercase code)).

Definition register (p : Product) (d : Db) : aresult bool * Db :=
  if registry_exists d (p_code p) then (Ok false, registry_update p d)
  else match registry_insert p d with (Ok _, d) => (Ok true, d) | (Err e, d) => (Err e, d) end.

Definition find_by_install_path (d : Db) (path : bytes) : list Product :=
  filter (fun p => install_path p = Some path) (map snd (map_to_list (products d))).

(** At start: operations that were running are queued again, products that were being
    installed or updated go back. *)
Definition reset_row (now : Z) (r : OpRow) : OpRow :=
  if bool_decide (r_state r = "initializing") || bool_decide (r_state r = "downloading") || bool_decide (r_state r = "verifying") then
    {| r_id := r_id r; r_product := r_product r; r_type := r_type r; r_state := "queued"; r_priority := r_priority r;
       r_parameters := r_parameters r; r_metadata := r_metadata r; r_progress := r_progress r; r_error := r_error r; r_created := r_created r;
       r_updated := now; r_started := r_started r; r_completed := r_completed r |}
  else r.

Definition reset_product (p : Product) : Product :=
  match status p with Installing => with_status p Available | Updating => with_status p Installed | _ => p end.

Definition reset_inflight_operations (d : Db) : Db :=
  {| operations := map (reset_row (clock d)) (operations d); products := reset_product <$> products d; clock := clock d + 3 |}.

(** ** Executors

    A task has its own copy of the operation and works on the shared database; what it
    did to either is kept when it fails. *)

Record Ctx := { op : Operation; db : Db }.

Definition task (A : Type) : Type := Ctx -> aresult A * Ctx.

#[export] Instance task_ret : MRet task := fun A a c => (Ok a, c).
#[export] Instance task_bind : MBind task := fun A B f m c => match m c with (Ok a, c) => f a c | (Err e, c) => (Err e, c) end.

Definition throw {A} (e : AgentError) : task A := fun c => (Err e, c).
Definition lift {A} (r : aresult A) : task A := fun c => (r, c).
Definition ignore {A} (m : task A) : task unit := fun c => let '(_, c) := m c in (Ok tt, c).
Definition get_op : task Operation := fun c => (Ok (op c), c).
Definition set_op (o : Operation) : task unit := fun c => (Ok tt, {| op := o; db := db c |}).
Definition get_product (code : bytes) : task Product := fun c => (registry_get (db c) code, c).
Definition put_product (p : Product) : task unit := fun c => (Ok tt, {| op := op c; db := registry_update p (db c) |}).
Definition save_op : task unit := fun c => (Ok tt, {| op := op c; db := queue_update (op c) (db c) |}).

(** [operation.transition_to(s)?] *)
Definition op_transition (s : OperationState) : task unit := fun c =>
  match transition_to (clock (db c)) (op c) s with
  | Ok o => (Ok tt, {| op := o; db := tick (db c) |})
  | Err e => (Err e, c)
  end.

(** ... followed by [state.queue.update(operation).await?]. *)
Definition op_to (s : OperationState) : task unit := _ ← op_transition s; save_op.

(** [let mut product = get(code)?; product.transition_to(s)?; update(&product)?] *)
Definition begin_product (code : bytes) (s : ProductStatus) : task unit :=
  p ← get_product code; p ← lift (product_transition_to p s); put_product p.

(** [if let Ok(mut product) = get(code)] around what is done to it. *)
Definition if_product (code : bytes) (f : Product -> task unit) : task unit := fun c =>
  match registry_get (db c) code with Ok p => f p c | Err _ => (Ok tt, c) end.

(** The product becomes [s] with [f] applied behind the transition, or the error is the
    task's. *)
Definition end_product (code : bytes) (s : ProductStatus) (f : Product -> Product) : task unit :=
  if_product code (fun p => p ← lift (product_transition_to p s); put_product (f p)).

(** On failure the transition is tried and what there is is saved. *)
Definition revert_product (code : bytes) (s : ProductStatus) (f : Product -> Product) : task unit :=
  if_product code (fun p => put_product (match product_transition_to (f p) s with Ok p => p | Err _ => f p end)).

Inductive PipelineResult (R : Type) : Type :=
| Done (report : R)
| Broken (e : AgentError)
| CancelledByToken.
Arguments Done {R}. Arguments Broken {R}. Arguments CancelledByToken {R}.

Definition install_path_of (o : Operation) (what : string) (p : Product) : task bytes :=
  match install_path p with Some path => mret path | None => throw (InvalidProductState (product_code o) (status_string (status p)) what) end.

Definition same (p : Product) : Product := p.

(** The report counts the invalid and the missing files. *)
Definition execute_verify (pipeline : PipelineResult (Z * Z)) : task unit :=
  o ← get_op;
  p ← get_product (product_code o);
  _ ← install_path_of o "verify" p;
  _ ← begin_product (product_code o) PVerifying;
  _ ← op_to Downloading;
  _ ← op_to Verifying;
  match pipeline with
  | CancelledByToken => throw Cancelled_
  | Done (invalid, missing) =>
      o ← get_op;
      _ ← set_op (with_metadata o [invalid; missing]);
      _ ← op_to Complete;
      end_product (product_code o) (if (0 <? invalid) || (0 <? missing) then Corrupted else Installed) same
  | Broken e => _ ← revert_product (product_code o) Installed same; throw e
  end.

(** The report counts the corrupted entries and the failed downloads. *)
Definition execute_repair (prepare : aresult unit) (pipeline : PipelineResult (Z * Z)) : task unit :=
  o ← get_op;
  p ← get_product (product_code o);
  _ ← install_path_of o "repair" p;
  _ ← begin_product (product_code o) Repairing;
  _ ← op_to Downloading;
  _ ← lift prepare;
  match pipeline with
  | CancelledByToken => throw Cancelled_
  | Done (corrupted, redownload_failed) =>
      o ← get_op;
      _ ← set_op (with_metadata o [corrupted; redownload_failed]);
      _ ← op_to Verifying;
      _ ← op_to Complete;
      end_product (product_code o) (if (corrupted =? 0) || (redownload_failed =? 0) then Installed else Corrupted) same
  | Broken e => _ ← revert_product (product_code o) Corrupted same; throw (InvalidConfig "repair failed")
  end.

Definition uninstalled (p : Product) : Product :=
  {| p_code := p_code p; name := name p; status := status p; version := None; install_path := None; size_bytes := None;
     region := region p; locale := locale p; installation_mode := None; is_update_available := false; available_version := None;
     build_config := build_config p; cdn_config := cdn_config p; product_config_hash := product_config_hash p; registration := registration p |}.

(** Whether the game runs is asked of the system and of the session tracker; the files
    are removed without an effect on the result. *)
Definition execute_uninstall (running : bool) : task unit :=
  o ← get_op;
  if running then throw (GameProcessRunning (product_code o) "uninstall")
  else
    _ ← get_product (product_code o);
    _ ← begin_product (product_code o) Uninstalling;
    _ ← op_to Downloading;
    _ ← op_to Verifying;
    _ ← op_to Complete;
    end_product (product_code o) Available uninstalled.

Definition has_other_product_at_path (d : Db) (this : bytes) (path : bytes) : bool :=
  existsb (fun p => negb (bool_decide (p_code p = this)) && bool_decide (install_path p = Some path) &&
                    (bool_decide (status p = Installed) || bool_decide (status p = Corrupted))) (map snd (map_to_list (products d))).

Record Target := { t_version : bytes; t_build : bytes; t_cdn : bytes; t_product_config : option bytes }.

Definition updated (t : Target) (p : Product) : Product :=
  {| p_code := p_code p; name := name p; status := status p; version := Some (t_version t); install_path := install_path p;
     size_bytes := size_bytes p; region := region p; locale := locale p; installation_mode := installation_mode p; is_update_available := false;
     available_version := None; build_config := Some (t_build t); cdn_config := Some (t_cdn t); product_config_hash := product_config_hash p;
     registration := registration p |}.

Definition no_update (p : Product) : Product :=
  {| p_code := p_code p; name := name p; status := status p; version := version p; install_path := install_path p;
     size_bytes := size_bytes p; region := region p; locale := locale p; installation_mode := installation_mode p; is_update_available := false;
     available_version := available_version p; build_config := build_config p; cdn_config := cdn_config p;
     product_config_hash := product_config_hash p; registration := registration p |}.

Definition custom_target (o : Operation) : bool :=
  match parameters o with
  | Some j => bool_decide (is_Some (get_str "build_config" j)) && bool_decide (is_Some (get_str "cdn_config" j))
  | None => false
  end.

(** A product at the version that was resolved needs nothing, unless the target was
    given. *)
Definition execute_update (resolve : aresult Target) (prepare : aresult unit) (pipeline : PipelineResult unit) : task unit :=
  o ← get_op;
  p ← get_product (product_code o);
  _ ← install_path_of o "update" p;
  _ ← begin_product (product_code o) Updating;
  _ ← op_to Downloading;
  t ← lift resolve;
  if negb (custom_target o) && bool_decide (version p = Some (t_version t)) then
    _ ← op_to Verifying;
    _ ← op_to Complete;
    end_product (product_code o) Installed no_update
  else
    _ ← lift prepare;
    match pipeline with
    | CancelledByToken => throw Cancelled_
    | Done _ =>
        _ ← op_to Verifying;
        _ ← op_to Complete;
        end_product (product_code o) Installed (updated t)
    | Broken e => _ ← revert_product (product_code o) Installed same; throw e
    end.

Definition at_path (path : bytes) (p : Product) : Product :=
  {| p_code := p_code p; name := name p; status := status p; version := version p; install_path := Some path;
     size_bytes := size_bytes p; region := region p; locale := locale p; installation_mode := installation_mode p;
     is_update_available := is_update_available p; available_version := available_version p; build_config := build_config p;
     cdn_config := cdn_config p; product_config_hash := product_config_hash p; registration := registration p |}.

Definition installed (path reg loc : bytes) (hash : Product -> option bytes) (t : Target) (p : Product) : Product :=
  {| p_code := p_code p; name := name p; status := status p; version := Some (t_version t); install_path := Some path;
     size_bytes := size_bytes p; region := Some reg; locale := Some loc; installation_mode := Some Casc;
     is_update_available := is_update_available p; available_version := available_version p; build_config := Some (t_build t);
     cdn_config := Some (t_cdn t); product_config_hash := hash p; registration := registration p |}.

(** [install] and [backfill]: the same but for the hash of the product configuration,
    which only [install] stores. *)
Definition execute_installing (store_hash : bool) (default_locale us : bytes) (resolve : aresult Target) (pipeline : PipelineResult unit) : task unit :=
  o ← get_op;
  match parameters o with
  | None => throw (InvalidConfig "operation missing parameters")
  | Some j =>
      match get_str "install_path" j with
      | None => throw (InvalidConfig "missing install_path parameter")
      | Some path =>
          let reg := default us (get_str "region" j) in
          let loc := default default_locale (get_str "locale" j) in
          _ ← if_product (product_code o) (fun p => p ← lift (product_transition_to p Installing); put_product p);
          _ ← op_to Downloading;
          t ← lift resolve;
          match pipeline with
          | CancelledByToken => throw Cancelled_
          | Done _ =>
              _ ← op_to Verifying;
              _ ← op_to Complete;
              end_product (product_code o) Installed (installed path reg loc (fun p => if store_hash then t_product_config t else product_config_hash p) t)
          | Broken e => _ ← revert_product (product_code o) Available (at_path path); throw e
          end
      end
  end.

Definition execute_extract (prepare : aresult unit) (pipeline : PipelineResult unit) : task unit :=
  o ← get_op;
  match parameters o with
  | None => throw (InvalidConfig "extract operation missing parameters")
  | Some j =>
      match get_str "install_path" j, get_str "output_path" j with
      | Some _, Some _ =>
          p ← (fun c => match registry_get (db c) (product_code o) with Ok p => (Ok p, c) | Err _ => (Err (InvalidConfig "product not found in registry"), c) end) : task Product;
          match build_config p, cdn_config p with
          | Some _, Some _ =>
              _ ← op_to Downloading;
              _ ← lift prepare;
              match pipeline with
              | CancelledByToken => throw Cancelled_
              | Done _ => _ ← op_to Verifying; op_to Complete
              | Broken e => throw e
              end
          | _, _ => throw (InvalidConfig "product has no stored configuration; install first")
          end
      | _, _ => throw (InvalidConfig "missing path parameter")
      end
  end.

(** ** Runner *)

(** What the world outside gives to one run of an executor. *)
Record Outside := {
  game_running : bool; prepared : aresult unit; resolved : aresult Target; outcome_ : PipelineResult unit; counts : Z * Z; default_locale : bytes; us : bytes;
}.

Definition with_counts (e : Outside) : PipelineResult (Z * Z) :=
  match outcome_ e with Done _ => Done (counts e) | Broken x => Broken x | CancelledByToken => CancelledByToken end.

Definition execute (t : OperationType) (e : Outside) : task unit :=
  match t with
  | Install => execute_installing true (default_locale e) (us e) (resolved e) (outcome_ e)
  | Backfill => execute_installing false (default_locale e) (us e) (resolved e) (outcome_ e)
  | Update => execute_update (resolved e) (prepared e) (outcome_ e)
  | Repair => execute_repair (prepared e) (with_counts e)
  | Verify => execute_verify (with_counts e)
  | Uninstall => execute_uninstall (game_running e)
  | Extract => execute_extract (prepared e) (outcome_ e)
  end.

(** The first half of a spawned task: the operation is marked as started. *)
Definition start (o : Operation) (d : Db) : option (Operation * Db) :=
  match op_to Initializing {| op := o; db := d |} with
  | (Ok _, c) => Some (op c, db c)
  | (Err _, _) => None
  end.

(** The second half: the executor, and on an error the operation is marked as failed. *)
Definition finish (o : Operation) (e : Outside) (d : Db) : aresult unit * Operation * Db :=
  match execute (operation_type o) e {| op := o; db := d |} with
  | (Ok _, c) => (Ok tt, op c, db c)
  | (Err x, c) =>
      let '(_, o) := fail (clock (db c)) (op c) {| code := "execution_error"; message := x |} in
      (Err x, o, queue_update o (tick (db c)))
  end.

Definition run_task (o : Operation) (e : Outside) (d : Db) : option (aresult unit * Operation * Db) :=
  match start o d with Some (o, d) => Some (finish o e d) | None => None end.

(** One pass over the queue: as many operations as there are permits left are spawned,
    in the order of the queue. *)
Definition process_queue (permits : nat) (d : Db) : list Operation := match get_queued d with Ok os => take permits os | Err _ => [] end.

(** ** Requests *)

Inductive Reply : Type := Accepted | InvalidRequest | DirectoryConflict.

Definition submit (o : Operation) (d : Db) : Reply * Db := match queue_insert o d with (Ok _, d) => (Accepted, d) | (Err _, d) => (InvalidRequest, d) end.

(** The guard on the status of the product. *)
Definition handle_if (guard : ProductStatus -> bool) (code : bytes) (t : OperationType) (id prio : Z) (params : option json) (d : Db) : Reply * Db :=
  match registry_get d code with
  | Ok p => if guard (status p) then submit (operation_new id (clock d) code t (from_agent_priority prio) params) (tick d) else (InvalidRequest, d)
  | Err _ => (InvalidRequest, d)
  end.

Definition handle_update (code : bytes) (id prio : Z) (build cdn : option bytes) : Db -> Reply * Db :=
  handle_if (fun s => bool_decide (s = Installed)) code Update id prio
    (match build, cdn with None, None => None | _, _ => Some [("build_config"%string, build); ("cdn_config"%string, cdn)] end).

Definition handle_repair (code : bytes) (id prio : Z) : Db -> Reply * Db :=
  handle_if (fun s => is_installed s && negb (bool_decide (s = Repairing))) code Repair id prio None.

Definition handle_uninstall (code : bytes) (id prio : Z) : Db -> Reply * Db := handle_if is_installed code Uninstall id prio None.

Definition handle_backfill (code : bytes) (id prio : Z) : Db -> Reply * Db := handle_if (fun s => bool_decide (s = Installed)) code Backfill id prio None.

Definition handle_extract (code : bytes) (id prio : Z) (output_path : bytes) (pattern : option bytes) (d : Db) : Reply * Db :=
  match registry_get d code with
  | Ok p =>
      match install_path p with
      | Some path =>
          handle_if (fun s => bool_decide (s = Installed)) code Extract id prio
            (Some ([("install_path"%string, Some path); ("output_path"%string, Some output_path)] ++
                   match pattern with Some x => [("pattern"%string, Some x)] | None => [] end)) d
      | None => (InvalidRequest, d)
      end
  | Err _ => (InvalidRequest, d)
  end.

Definition first_some {A} (a b : option A) : option A := match a with Some _ => a | None => b end.

Definition handle_install (code : bytes) (id prio : Z) (path game_dir build cdn : option bytes) (d : Db) : Reply * Db :=
  match registry_get d code with
  | Err _ => (InvalidRequest, d)
  | Ok p =>
      if negb (bool_decide (status p = Available)) then (InvalidRequest, d)
      else
        let conflict :=
          match install_path p with
          | Some path => existsb (fun q => negb (bool_decide (p_code q = code)) && is_installed (status q)) (find_by_install_path d path)
          | None => false
          end in
        if conflict then (DirectoryConflict, d)
        else
          submit (operation_new id (clock d) code Install (from_agent_priority prio)
            (Some [("install_path"%string, first_some (first_some path game_dir) (install_path p)); ("region"%string, region p);
                   ("locale"%string, locale p); ("build_config"%string, build); ("cdn_config"%string, cdn)])) (tick d)
  end.

(** [POST /register]: an existing product is overwritten, a new one is installed. *)
Record RegisterRequest := {
  rq_uid : bytes; rq_product : bytes; rq_install_dir : bytes; rq_region : bytes; rq_patch_url : bytes; rq_protocol : bytes;
  rq_locale : option bytes; rq_build : option bytes; rq_cdn : option bytes; rq_mode : option bytes; rq_registration : json;
}.

Definition NGDP : bytes := [110; 103; 100; 112].
Definition hex_or_empty (x : option bytes) : bool :=
  match x with Some s => forallb (fun c => in_rng 48 57 c || in_rng 65 70 c || in_rng 97 102 c) s | None => true end.

Definition registered_product (q : RegisterRequest) : Product :=
  {| p_code := rq_uid q; name := rq_product q; status := Available; version := None; install_path := Some (rq_install_dir q); size_bytes := None;
     region := Some (rq_region q); locale := rq_locale q; installation_mode := None; is_update_available := false; available_version := None;
     build_config := rq_build q; cdn_config := rq_cdn q; product_config_hash := None; registration := rq_registration q |}.

Definition post_register (q : RegisterRequest) (id : Z) (d : Db) : Reply * Db :=
  let empty (s : bytes) := (length s =? 0)%nat in
  if empty (rq_uid q) || empty (rq_product q) || empty (rq_install_dir q) then (InvalidRequest, d)
  else if negb (bool_decide (to_ascii_lowercase (rq_protocol q) = NGDP)) || empty (rq_patch_url q) || empty (rq_region q) then (InvalidRequest, d)
  else if negb (hex_or_empty (rq_build q)) || negb (hex_or_empty (rq_cdn q)) then (InvalidRequest, d)
  else
    let duplicate :=
      match registry_get d (rq_uid q) with
      | Ok p => match install_path p with Some path => negb (bool_decide (path = rq_install_dir q)) | None => false end
      | Err _ => false
      end in
    if duplicate then (InvalidRequest, d)
    else
      match register (registered_product q) d with
      | (Err _, d) => (InvalidRequest, d)
      | (Ok false, d) => (Accepted, d)
      | (Ok true, d) =>
          let params := [("install_path"%string, Some (rq_install_dir q)); ("region"%string, Some (rq_region q)); ("locale"%string, rq_locale q);
                         ("build_config"%string, rq_build q); ("cdn_config"%string, rq_cdn q); ("mode"%string, rq_mode q)] in
          let '(_, d) := submit (operation_new id (clock d) (rq_uid q) Install (from_agent_priority 700) (Some params)) (tick d) in (Accepted, d)
      end.

(** ** The running agent *)

Inductive Request : Type :=
| RInstall (code : bytes) (prio : Z) (path game_dir build cdn : option bytes)
| RUpdate (code : bytes) (prio : Z) (build cdn : option bytes)
| RRepair (code : bytes) (prio : Z)
| RUninstall (code : bytes) (prio : Z)
| RBackfill (code : bytes) (prio : Z)
| RExtract (code : bytes) (prio : Z) (output_path : bytes) (pattern : option bytes)
| RRegister (q : RegisterRequest).

Definition handle (r : Request) (id : Z) (d : Db) : Reply * Db :=
  match r with
  | RInstall code prio path game_dir build cdn => handle_install code id prio path game_dir build cdn d
  | RUpdate code prio build cdn => handle_update code id prio build cdn d
  | RRepair code prio => handle_repair code id prio d
  | RUninstall code prio => handle_uninstall code id prio d
  | RBackfill code prio => handle_backfill code id prio d
  | RExtract code prio out pattern => handle_extract code id prio out pattern d
  | RRegister q => post_register q id d
  end.

(** The database; the operations of the tasks that were spawned and have not run yet,
    and of those that have marked theirs as started, each of which holds a permit; and
    the operations that have passed the check of [queue.insert] and are not inserted
    yet. *)
Record System := { sys_db : Db; spawned : list Operation; running : list Operation; pending : list Operation }.

(** A pass over the queue takes what permits are left. *)
Definition dispatch (max_concurrent : nat) (s : System) : System :=
  {| sys_db := sys_db s;
     spawned := spawned s ++ process_queue (max_concurrent - (length (spawned s) + length (running s))) (sys_db s);
     running := running s; pending := pending s |}.

(** What can happen, in any order.  A request is handled as a whole ([step_request]), or
    other steps come between the check and the [INSERT] of its operation ([step_check],
    [step_put]); a spawned task starts at any later time; the statements of one executor
    are taken together. *)
Inductive step (max_concurrent : nat) : System -> System -> Prop :=
| step_request r id s :
    step max_concurrent s {| sys_db := (handle r id (sys_db s)).2; spawned := spawned s; running := running s; pending := pending s |}
| step_check o s :
    state o = Queued -> find_active_for_product (sys_db s) (product_code o) = Ok None ->
    step max_concurrent s {| sys_db := sys_db s; spawned := spawned s; running := running s; pending := o :: pending s |}
| step_put o before after d sp run :
    step max_concurrent {| sys_db := d; spawned := sp; running := run; pending := before ++ o :: after |}
      {| sys_db := (queue_put o d).2; spawned := sp; running := run; pending := before ++ after |}
| step_dispatch s : step max_concurrent s (dispatch max_concurrent s)
| step_start o before after d run pend :
    step max_concurrent {| sys_db := d; spawned := before ++ o :: after; running := run; pending := pend |}
      match start o d with
      | Some (o, d) => {| sys_db := d; spawned := before ++ after; running := run ++ [o]; pending := pend |}
      | None => {| sys_db := d; spawned := before ++ after; running := run; pending := pend |}
      end
| step_finish o e before after d sp pend :
    step max_concurrent {| sys_db := d; spawned := sp; running := before ++ o :: after; pending := pend |}
      {| sys_db := (finish o e d).2; spawned := sp; running := before ++ after; pending := pend |}
| step_restart s :
    step max_concurrent s {| sys_db := reset_inflight_operations (sys_db s); spawned := []; running := []; pending := [] |}
| step_cleanup days s :
    step max_concurrent s {| sys_db := (cleanup_old days (sys_db s)).2; spawned := spawned s; running := running s; pending := pending s |}.

Definition initial : System :=
  {| sys_db := {| operations := []; products := ∅; clock := 0 |}; spawned := []; running := []; pending := [] |}.

End Agent.
