(* ===== verification/AgentTheorems.v ===== *)
(** * The agent: the theorems

    Each executor implements a plan that says, of the product it is for, whether the
    operation succeeds and what becomes of the product; every operation that is started
    ends.  In every run of requests, polls, finished tasks, restarts and clean-ups a
    product has at most one operation that has not ended. *)

From S2P Require Import Prelude Bytes Collections Agent.
Import Agent.
Local Open Scope Z_scope.

(** ** Rows *)

(** What the task of operation [id] can do to the table. *)
Definition row_rel (id : Z) (r r' : OpRow) : Prop :=
  r_id r' = r_id r /\ r_product r' = r_product r /\ r_type r' = r_type r /\ r_parameters r' = r_parameters r /\ r_created r' = r_created r /\
  (r_id r <> id -> r' = r).

Definition rows_rel (id : Z) : list OpRow -> list OpRow -> Prop := Forall2 (row_rel id).

#[export] Instance row_rel_preorder id : PreOrder (row_rel id).
Proof.
  split; [by intros r; repeat split|]. intros r1 r2 r3 (H1 & H2 & H3 & H4 & H5 & H6) (G1 & G2 & G3 & G4 & G5 & G6). split_and!; try congruence.
  intros Hne. rewrite G6 by congruence. by apply H6.
Qed.

#[export] Instance rows_rel_preorder id : PreOrder (rows_rel id).
Proof. unfold rows_rel. apply _. Qed.

Lemma update_rows_rel now o rs : rows_rel (operation_id o) rs (map (update_row now o) rs).
Proof.
  induction rs as [|r rs IH]; constructor; [|done]. unfold row_rel, update_row. destruct (Z.eqb_spec (r_id r) (operation_id o)); split_and!; done.
Qed.

(** The rows of operation [id] are in state [s]. *)
Definition saved (id : Z) (s : OperationState) (rs : list OpRow) : Prop := Forall (fun r => r_id r = id -> r_state r = state_string s) rs.

Lemma update_rows_saved now o rs : saved (operation_id o) (state o) (map (update_row now o) rs).
Proof.
  apply Forall_map, Forall_forall. intros r _. unfold update_row. destruct (Z.eqb_spec (r_id r) (operation_id o)); done.
Qed.

(** ** Tasks *)

Definition same_operation (o o' : Operation) : Prop :=
  operation_id o' = operation_id o /\ product_code o' = product_code o /\ operation_type o' = operation_type o /\ parameters o' = parameters o.

(** The task of [o0] that found the table [rs0]: its operation and its row are in state
    [s], the products are [ps], and nothing else has changed. *)
Record at_state (o0 : Operation) (rs0 : list OpRow) (s : OperationState) (ps : gmap bytes Product) (c : Ctx) : Prop := {
  at_same : same_operation o0 (op c);
  at_op : state (op c) = s;
  at_products : products (db c) = ps;
  at_rows : rows_rel (operation_id o0) rs0 (operations (db c));
  at_saved : saved (operation_id o0) s (operations (db c));
}.

Lemma lower_idempotent s : to_ascii_lowercase (to_ascii_lowercase s) = to_ascii_lowercase s.
Proof.
  unfold to_ascii_lowercase. rewrite map_map. apply map_ext. intros c. unfold lower. destruct ((65 <=? c) && (c <=? 90)) eqn:E; [|by rewrite E].
  apply andb_true_iff in E as [?%Z.leb_le ?%Z.leb_le]. rewrite (proj2 (Z.leb_gt (c + 32) 90)) by lia. by rewrite andb_false_r.
Qed.

(** Products are stored under their code in lower case. *)
Definition registry_ok (ps : gmap bytes Product) : Prop := forall c p, ps !! c = Some p -> p_code p = c /\ to_ascii_lowercase c = c.

Section Task.
Context (o0 : Operation) (rs0 : list OpRow).

Lemma save_at o d : same_operation o0 o -> rows_rel (operation_id o0) rs0 (operations d) -> at_state o0 rs0 (state o) (products d) {| op := o; db := queue_update o d |}.
Proof.
  intros Hs Hr. pose proof Hs as (Hi & _). constructor; cbn [op db queue_update tick with_operations operations products]; [done..| |].
  - etrans; [exact Hr|]. rewrite <- Hi. apply update_rows_rel.
  - rewrite <- Hi. apply update_rows_saved.
Qed.

Lemma op_to_at s s' ps c :
  at_state o0 rs0 s ps c -> can_transition_to s s' = true -> exists c', op_to s' c = (Ok tt, c') /\ at_state o0 rs0 s' ps c'.
Proof.
  intros [(Hi & Hc & Ht & Hp) Ho Hps Hr Hs] Hcan. unfold op_to. cbv [mbind task_bind]. unfold op_transition, transition_to, save_op.
  rewrite Ho, Hcan. cbn [negb op db]. match goal with |- context [queue_update ?o ?d] => pose proof (save_at o d) as Hsave end.
  eexists. split; [reflexivity|]. cbn [state products tick operations] in Hsave. rewrite Hps in Hsave. apply Hsave; [|done]. by repeat split.
Qed.

Lemma set_metadata_at s ps c m :
  at_state o0 rs0 s ps c -> exists c', set_op (with_metadata (op c) m) c = (Ok tt, c') /\ at_state o0 rs0 s ps c'.
Proof. intros [(? & ? & ? & ?) Ho ? ? ?]. eexists. split; [reflexivity|]. by constructor. Qed.

Definition stored (p : Product) (ps : gmap bytes Product) : gmap bytes Product :=
  let c := to_ascii_lowercase (p_code p) in match ps !! c with Some _ => <[c := with_code p c]> ps | None => ps end.

Lemma put_product_at s ps c p : at_state o0 rs0 s ps c -> exists c', put_product p c = (Ok tt, c') /\ at_state o0 rs0 s (stored p ps) c'.
Proof.
  intros [(? & ? & ? & ?) Ho Hps ? ?]. eexists. split; [reflexivity|]. unfold registry_update, stored. rewrite Hps.
  destruct (ps !! to_ascii_lowercase (p_code p)); constructor; cbn [op db products tick with_products operations]; done.
Qed.

Notation key := (to_ascii_lowercase (product_code o0)).

Lemma stored_insert ps p p' : registry_ok ps -> ps !! key = Some p -> p_code p' = p_code p -> stored p' ps = <[key := p']> ps.
Proof.
  intros Hok Hp Hc. destruct (Hok _ _ Hp) as [Hk _]. unfold stored. rewrite Hc, Hk, lower_idempotent, Hp. f_equal. unfold with_code. rewrite <- Hk, <- Hc. by destruct p'.
Qed.

Lemma registry_ok_insert ps p p' : registry_ok ps -> ps !! key = Some p -> p_code p' = p_code p -> registry_ok (<[key := p']> ps).
Proof.
  intros Hok Hp Hc c q. destruct (decide (c = key)) as [->|Hne]; [rewrite lookup_insert_eq; intros [= <-]; rewrite Hc; by apply Hok|].
  rewrite lookup_insert_ne by done. apply Hok.
Qed.

(** A task ends: with success and the operation complete, or with an error from a state
    that can fail. *)
Definition runs (m : task unit) (c : Ctx) (success : bool) (ps : gmap bytes Product) : Prop :=
  exists r s c', m c = (r, c') /\ at_state o0 rs0 s ps c' /\
    if success then r = Ok tt /\ s = Complete else (exists x, r = Err x) /\ can_transition_to s Failed = true.

Lemma task_runs_bind {A} (m : task A) (f : A -> task unit) c c1 a b ps : m c = (Ok a, c1) -> runs (f a) c1 b ps -> runs (m ≫= f) c b ps.
Proof. intros Hm (r & s & c' & Hf & H). exists r, s, c'. split; [|done]. cbv [mbind task_bind]. by rewrite Hm. Qed.

Lemma runs_bind_ext {A} (m m' : task A) (f : A -> task unit) c b ps : m c = m' c -> runs (m' ≫= f) c b ps -> runs (m ≫= f) c b ps.
Proof. intros Hm (r & s & c' & Hf & H). exists r, s, c'. split; [|done]. cbv [mbind task_bind] in *. by rewrite Hm. Qed.

Lemma runs_error {A} (m : task A) (f : A -> task unit) c x s ps :
  m c = (Err x, c) -> at_state o0 rs0 s ps c -> can_transition_to s Failed = true -> runs (m ≫= f) c false ps.
Proof. intros Hm Hc Hs. exists (Err x), s, c. split; [|by eauto]. cbv [mbind task_bind]. by rewrite Hm. Qed.

Lemma runs_throw x c s ps : at_state o0 rs0 s ps c -> can_transition_to s Failed = true -> runs (throw x) c false ps.
Proof. intros. exists (Err x), s, c. eauto. Qed.

Lemma runs_op_to s s' (f : unit -> task unit) c b ps ps' :
  at_state o0 rs0 s ps c -> can_transition_to s s' = true -> (forall c', at_state o0 rs0 s' ps c' -> runs (f tt) c' b ps') -> runs (op_to s' ≫= f) c b ps'.
Proof. intros Hc Hs Hf. destruct (op_to_at _ _ _ _ Hc Hs) as (c' & Hm & Hc'). by eapply task_runs_bind; [exact Hm|apply Hf]. Qed.

Lemma registry_get_at s ps c : at_state o0 rs0 s ps c -> registry_get (db c) (product_code o0) = match ps !! key with Some p => Ok p | None => Err (ProductNotFound key) end.
Proof. intros Hc. unfold registry_get. by rewrite (at_products _ _ _ _ _ Hc). Qed.

Lemma runs_begin s t (f : unit -> task unit) c b ps ps' p :
  at_state o0 rs0 s ps c -> registry_ok ps -> ps !! key = Some p -> status_can_transition_to (status p) t = true ->
  (forall c', at_state o0 rs0 s (<[key := with_status p t]> ps) c' -> runs (f tt) c' b ps') -> runs (begin_product (product_code o0) t ≫= f) c b ps'.
Proof.
  intros Hc Hok Hp Ht Hf. destruct (put_product_at _ _ _ (with_status p t) Hc) as (c' & Hm & Hc'). rewrite (stored_insert _ p) in Hc' by done.
  eapply task_runs_bind; [|by apply Hf]. unfold begin_product, get_product, lift, product_transition_to. cbv [mbind task_bind]. by rewrite (registry_get_at _ _ _ Hc), Hp, Ht.
Qed.

Lemma runs_begin_error s t (f : unit -> task unit) c ps :
  at_state o0 rs0 s ps c -> can_transition_to s Failed = true -> (forall p, ps !! key = Some p -> status_can_transition_to (status p) t = false) ->
  runs (begin_product (product_code o0) t ≫= f) c false ps.
Proof.
  intros Hc Hs Hp. destruct (ps !! key) as [p|] eqn:E.
  - eapply runs_error; [|done..]. unfold begin_product, get_product, lift, product_transition_to. cbv [mbind task_bind]. by rewrite (registry_get_at _ _ _ Hc), E, Hp.
  - eapply runs_error; [|done..]. unfold begin_product, get_product. cbv [mbind task_bind]. by rewrite (registry_get_at _ _ _ Hc), E.
Qed.

(** What becomes of the product of the operation. *)
Definition replaced (ps : gmap bytes Product) (mp : option Product) : gmap bytes Product := match mp with Some p => <[key := p]> ps | None => ps end.

Lemma runs_end t f c ps p :
  at_state o0 rs0 Complete ps c -> registry_ok ps -> ps !! key = Some p -> status_can_transition_to (status p) t = true -> (forall p, p_code (f p) = p_code p) ->
  runs (end_product (product_code o0) t f) c true (<[key := f (with_status p t)]> ps).
Proof.
  intros Hc Hok Hp Ht Hf. destruct (put_product_at _ _ _ (f (with_status p t)) Hc) as (c' & Hm & Hc'). rewrite (stored_insert _ p) in Hc' by (done || by rewrite Hf).
  exists (Ok tt), Complete, c'. split; [|done]. unfold end_product, if_product, lift, product_transition_to. cbv [mbind task_bind].
  by rewrite (registry_get_at _ _ _ Hc), Hp, Ht.
Qed.

Lemma runs_end_missing t f c ps : at_state o0 rs0 Complete ps c -> ps !! key = None -> runs (end_product (product_code o0) t f) c true ps.
Proof. intros Hc Hp. exists (Ok tt), Complete, c. split; [|done]. unfold end_product, if_product. by rewrite (registry_get_at _ _ _ Hc), Hp. Qed.

Lemma runs_revert s t f (k : unit -> task unit) c b ps ps' p :
  at_state o0 rs0 s ps c -> registry_ok ps -> ps !! key = Some p -> status_can_transition_to (status (f p)) t = true -> (forall p, p_code (f p) = p_code p) ->
  (forall c', at_state o0 rs0 s (<[key := with_status (f p) t]> ps) c' -> runs (k tt) c' b ps') -> runs (revert_product (product_code o0) t f ≫= k) c b ps'.
Proof.
  intros Hc Hok Hp Ht Hf Hk. destruct (put_product_at _ _ _ (with_status (f p) t) Hc) as (c' & Hm & Hc').
  rewrite (stored_insert _ p) in Hc' by (done || apply Hf). eapply task_runs_bind; [|by apply Hk]. unfold revert_product, if_product, product_transition_to.
  by rewrite (registry_get_at _ _ _ Hc), Hp, Ht.
Qed.

Lemma runs_revert_missing s t f (k : unit -> task unit) c b ps ps' :
  at_state o0 rs0 s ps c -> ps !! key = None -> runs (k tt) c b ps' -> runs (revert_product (product_code o0) t f ≫= k) c b ps'.
Proof. intros Hc Hp Hk. eapply task_runs_bind; [|done]. unfold revert_product, if_product. by rewrite (registry_get_at _ _ _ Hc), Hp. Qed.

End Task.

(** ** The plan of an operation

    Whether it succeeds and what becomes of its product, if there is one. *)

Definition entered (mp : option Product) (s : ProductStatus) (k : Product -> bool * Product) : bool * option Product :=
  match mp with
  | Some p => if status_can_transition_to (status p) s then let '(b, p) := k (with_status p s) in (b, Some p) else (false, Some p)
  | None => (false, None)
  end.

Definition has_path (mp : option Product) : bool := match mp with Some p => bool_decide (is_Some (install_path p)) | None => false end.

Definition plan_verify (e : Outside) (mp : option Product) : bool * option Product :=
  if has_path mp then
    entered mp PVerifying (fun p =>
      match outcome_ e with
      | CancelledByToken => (false, p)
      | Broken _ => (false, with_status p Installed)
      | Done _ => (true, with_status p (if (0 <? (counts e).1) || (0 <? (counts e).2) then Corrupted else Installed))
      end)
  else (false, mp).

Definition plan_repair (e : Outside) (mp : option Product) : bool * option Product :=
  if has_path mp then
    entered mp Repairing (fun p =>
      match prepared e, outcome_ e with
      | Err _, _ | _, CancelledByToken => (false, p)
      | _, Broken _ => (false, with_status p Corrupted)
      | _, Done _ => (true, with_status p (if ((counts e).1 =? 0) || ((counts e).2 =? 0) then Installed else Corrupted))
      end)
  else (false, mp).

Definition plan_uninstall (e : Outside) (mp : option Product) : bool * option Product :=
  if game_running e then (false, mp) else entered mp Uninstalling (fun p => (true, uninstalled (with_status p Available))).

Definition plan_update (o : Operation) (e : Outside) (mp : option Product) : bool * option Product :=
  if has_path mp then
    entered mp Updating (fun p =>
      match resolved e with
      | Err _ => (false, p)
      | Ok t =>
          if negb (custom_target o) && bool_decide (version p = Some (t_version t)) then (true, no_update (with_status p Installed))
          else
            match prepared e, outcome_ e with
            | Err _, _ | _, CancelledByToken => (false, p)
            | _, Broken _ => (false, with_status p Installed)
            | _, Done _ => (true, updated t (with_status p Installed))
            end
      end)
  else (false, mp).

Definition plan_installing (store_hash : bool) (o : Operation) (e : Outside) (mp : option Product) : bool * option Product :=
  match j ← parameters o; path ← get_str "install_path" j; Some (j, path) with
  | None => (false, mp)
  | Some (j, path) =>
      let body (p : Product) :=
        match resolved e, outcome_ e with
        | Err _, _ | _, CancelledByToken => (false, p)
        | Ok t, Broken _ => (false, with_status (at_path path p) Available)
        | Ok t, Done _ =>
            (true, installed path (default (us e) (get_str "region" j)) (default (default_locale e) (get_str "locale" j))
                     (fun p => if store_hash then t_product_config t else product_config_hash p) t (with_status p Installed))
        end in
      match mp with
      | Some _ => entered mp Installing body
      | None => (match resolved e, outcome_ e with Ok _, Done _ => true | _, _ => false end, None)
      end
  end.

Definition plan_extract (o : Operation) (e : Outside) (mp : option Product) : bool * option Product :=
  (match j ← parameters o; _ ← get_str "install_path" j; _ ← get_str "output_path" j; p ← mp; _ ← build_config p; cdn_config p with
   | Some _ => match prepared e, outcome_ e with Ok _, Done _ => true | _, _ => false end
   | None => false
   end, mp).

Definition plan (o : Operation) (e : Outside) (mp : option Product) : bool * option Product :=
  match operation_type o with
  | Install => plan_installing true o e mp
  | Backfill => plan_installing false o e mp
  | Update => plan_update o e mp
  | Repair => plan_repair e mp
  | Verify => plan_verify e mp
  | Uninstall => plan_uninstall e mp
  | Extract => plan_extract o e mp
  end.

Section Executors.
Context (o0 : Operation) (rs0 : list OpRow) (ps : gmap bytes Product) (c0 : Ctx) (e : Outside).
Context (Hop : op c0 = o0) (Hc0 : at_state o0 rs0 Initializing ps c0) (Hok : registry_ok ps).
Notation key := (to_ascii_lowercase (product_code o0)).
Notation follows m pl := (runs o0 rs0 m c0 (fst pl) (replaced o0 ps (snd pl))).

Lemma replaced_same : replaced o0 ps (ps !! key) = ps.
Proof. unfold replaced. destruct (ps !! key) as [p|] eqn:E; [by apply insert_id|done]. Qed.

Ltac reads_op := eapply task_runs_bind; [unfold get_op; rewrite Hop; reflexivity|].
Ltac moves := eapply runs_op_to; [eassumption|reflexivity|intros ? ?].

(** The product is read, and has a path or the task ends. *)
Lemma path_follows what (k : Product -> task unit) pl :
  (forall p, ps !! key = Some p -> follows (k p) pl) ->
  follows (p ← get_product (product_code o0); _ ← install_path_of o0 what p; k p) (if has_path (ps !! key) then pl else (false, ps !! key)).
Proof.
  intros Hk. pose proof (registry_get_at _ _ _ _ _ Hc0) as Hg. destruct (ps !! key) as [p|] eqn:Ep; cbn [has_path].
  2: { eapply runs_error; [|exact Hc0|done]. unfold get_product. by rewrite Hg. }
  eapply task_runs_bind; [unfold get_product; by rewrite Hg|]. destruct (install_path p) as [path|] eqn:Epath.
  - eapply task_runs_bind; [unfold install_path_of; by rewrite Epath|]. by apply Hk.
  - cbn. rewrite insert_id by done. eapply runs_error; [unfold install_path_of; by rewrite Epath|exact Hc0|done].
Qed.

(** The product enters the status of the operation, or the task ends. *)
Lemma entered_follows s (f : unit -> task unit) (k : Product -> bool * Product) :
  (forall p c, ps !! key = Some p -> status_can_transition_to (status p) s = true -> at_state o0 rs0 Initializing (<[key := with_status p s]> ps) c ->
     runs o0 rs0 (f tt) c (k (with_status p s)).1 (<[key := (k (with_status p s)).2]> ps)) ->
  follows (begin_product (product_code o0) s ≫= f) (entered (ps !! key) s k).
Proof.
  intros Hf. unfold entered. destruct (ps !! key) as [p|] eqn:Ep; [|cbn; by apply (runs_begin_error _ _ Initializing); [done|done|intros p' Hp'; congruence]].
  destruct (status_can_transition_to (status p) s) eqn:Es.
  - eapply runs_begin; [done..|]. intros c Hc. specialize (Hf p c eq_refl Es Hc). by destruct (k (with_status p s)).
  - cbn. rewrite insert_id by done. apply (runs_begin_error _ _ Initializing); [done|done|intros p' Hp'; congruence].
Qed.

Lemma at_product_entered p s : (<[key := with_status p s]> ps : gmap bytes Product) !! key = Some (with_status p s).
Proof. by rewrite lookup_insert_eq. Qed.

(** The ends of an operation whose product [p] is in status [s]: it stays as it is, goes
    back, or is left as the operation says. *)
Lemma stays_follows p s x st c :
  at_state o0 rs0 st (<[key := with_status p s]> ps) c -> can_transition_to st Failed = true ->
  runs o0 rs0 (throw x) c false (<[key := with_status p s]> ps).
Proof. apply runs_throw. Qed.

Lemma reverts_follows p s t f x st c :
  ps !! key = Some p -> at_state o0 rs0 st (<[key := with_status p s]> ps) c -> can_transition_to st Failed = true ->
  status_can_transition_to (status (f (with_status p s))) t = true -> (forall p, p_code (f p) = p_code p) ->
  runs o0 rs0 (_ ← revert_product (product_code o0) t f; throw x) c false (<[key := with_status (f (with_status p s)) t]> ps).
Proof.
  intros Hp Hc Hs Ht Hf. eapply runs_revert; [exact Hc|by eapply registry_ok_insert|apply at_product_entered|done|done|]. intros c' Hc'.
  rewrite insert_insert_eq in Hc'. by eapply runs_throw.
Qed.

Lemma ends_follows p s t f c :
  ps !! key = Some p -> at_state o0 rs0 Complete (<[key := with_status p s]> ps) c -> status_can_transition_to s t = true -> (forall p, p_code (f p) = p_code p) ->
  runs o0 rs0 (end_product (product_code o0) t f) c true (<[key := f (with_status (with_status p s) t)]> ps).
Proof.
  intros Hp Hc Ht Hf. rewrite <- (insert_insert_eq ps key _ (with_status p s)). eapply runs_end; [exact Hc|by eapply registry_ok_insert|apply at_product_entered|done|done].
Qed.

Ltac finishes p Hp :=
  match goal with
  | |- context [revert_product _ ?t ?f] => eapply (reverts_follows p _ t f); [exact Hp|eassumption|reflexivity|reflexivity|reflexivity]
  | |- context [end_product _ ?t ?f] => eapply (ends_follows p _ t f); [exact Hp|eassumption|reflexivity|reflexivity]
  | _ => eapply runs_throw; [eassumption|reflexivity]
  end.

Ltac same_code :=
  match goal with H : at_state _ _ _ _ ?c |- context [product_code (op ?c)] => rewrite (proj1 (proj2 (at_same _ _ _ _ _ H))) end.

Lemma verify_follows : follows (execute_verify (with_counts e)) (plan_verify e (ps !! key)).
Proof.
  unfold execute_verify, plan_verify, with_counts. reads_op. apply path_follows. intros _ _. apply entered_follows. intros p c Hp Hs Hc. moves. moves.
  destruct (outcome_ e) as [[]|x|]; cbn [fst snd]; [|finishes p Hp..]. destruct (counts e) as [invalid missing].
  eapply task_runs_bind; [reflexivity|]. same_code. edestruct set_metadata_at as (? & Hm & ?); [eassumption|]. eapply task_runs_bind; [exact Hm|]. moves. cbn [fst snd].
  destruct ((0 <? invalid) || (0 <? missing)); finishes p Hp.
Qed.

Lemma repair_follows : follows (execute_repair (prepared e) (with_counts e)) (plan_repair e (ps !! key)).
Proof.
  unfold execute_repair, plan_repair, with_counts. reads_op. apply path_follows. intros _ _. apply entered_follows. intros p c Hp Hs Hc. moves.
  destruct (prepared e) as [[]|x]; cbn [fst snd]; [|eapply runs_error; [reflexivity|eassumption|reflexivity]]. eapply task_runs_bind; [reflexivity|].
  destruct (outcome_ e) as [[]|x|]; cbn [fst snd]; [|finishes p Hp..]. destruct (counts e) as [corrupted failed].
  eapply task_runs_bind; [reflexivity|]. same_code. edestruct set_metadata_at as (? & Hm & ?); [eassumption|]. eapply task_runs_bind; [exact Hm|]. moves. moves. cbn [fst snd].
  destruct ((corrupted =? 0) || (failed =? 0)); finishes p Hp.
Qed.

Lemma uninstall_follows : follows (execute_uninstall (game_running e)) (plan_uninstall e (ps !! key)).
Proof.
  unfold execute_uninstall, plan_uninstall. reads_op. destruct (game_running e); cbn [fst snd]; [rewrite replaced_same; by eapply runs_throw|].
  pose proof (registry_get_at _ _ _ _ _ Hc0) as Hg. destruct (ps !! key) as [p0|] eqn:Ep.
  - eapply task_runs_bind; [unfold get_product; by rewrite Hg|]. rewrite <- Ep. apply entered_follows. intros p c Hp Hs Hc. do 3 moves. cbn [fst snd]. finishes p Hp.
  - eapply runs_error; [unfold get_product; by rewrite Hg|exact Hc0|done].
Qed.

Lemma update_follows : follows (execute_update (resolved e) (prepared e) (outcome_ e)) (plan_update o0 e (ps !! key)).
Proof.
  unfold execute_update, plan_update. reads_op. apply path_follows. intros p0 Hp0. apply entered_follows. intros p c Hp Hs Hc. moves. assert (p0 = p) as -> by congruence.
  destruct (resolved e) as [t|x]; cbn [fst snd]; [|eapply runs_error; [reflexivity|eassumption|reflexivity]]. eapply task_runs_bind; [reflexivity|].
  change (version (with_status p Updating)) with (version p). destruct (negb (custom_target o0) && bool_decide (version p = Some (t_version t))); cbn [fst snd].
  { do 2 moves. finishes p Hp. }
  destruct (prepared e) as [[]|x]; cbn [fst snd]; [|eapply runs_error; [reflexivity|eassumption|reflexivity]]. eapply task_runs_bind; [reflexivity|].
  destruct (outcome_ e) as [[]|x|]; cbn [fst snd]; [|finishes p Hp..]. do 2 moves. finishes p Hp.
Qed.

Lemma installing_follows store_hash :
  follows (execute_installing store_hash (default_locale e) (us e) (resolved e) (outcome_ e)) (plan_installing store_hash o0 e (ps !! key)).
Proof.
  unfold execute_installing, plan_installing. reads_op. destruct (parameters o0) as [j|]; cbn [mbind option_bind fst snd]; [|rewrite replaced_same; by eapply runs_throw].
  destruct (get_str "install_path" j) as [path|]; cbn [mbind option_bind fst snd]; [|rewrite replaced_same; by eapply runs_throw].
  destruct (ps !! key) as [p0|] eqn:Ep.
  - rewrite <- Ep. eapply (runs_bind_ext _ _ _ (begin_product (product_code o0) Installing)).
    { unfold begin_product, if_product, get_product. cbv [mbind task_bind]. by rewrite (registry_get_at _ _ _ _ _ Hc0), Ep. }
    apply entered_follows. intros p c Hp Hs Hc. moves.
    destruct (resolved e) as [t|x]; cbn [fst snd]; [|eapply runs_error; [reflexivity|eassumption|reflexivity]]. eapply task_runs_bind; [reflexivity|].
    destruct (outcome_ e) as [[]|x|]; cbn [fst snd]; [|finishes p Hp..]. do 2 moves. finishes p Hp.
  - eapply task_runs_bind; [unfold if_product; by rewrite (registry_get_at _ _ _ _ _ Hc0), Ep|]. moves. cbn [fst snd replaced].
    destruct (resolved e) as [t|x]; [|eapply runs_error; [reflexivity|eassumption|reflexivity]]. eapply task_runs_bind; [reflexivity|].
    destruct (outcome_ e) as [[]|x|]; [do 2 moves; by eapply runs_end_missing| |by eapply runs_throw].
    eapply runs_revert_missing; [eassumption|done|]. by eapply runs_throw.
Qed.

Lemma extract_follows : follows (execute_extract (prepared e) (outcome_ e)) (plan_extract o0 e (ps !! key)).
Proof.
  unfold execute_extract, plan_extract. reads_op. cbn [fst snd]. rewrite replaced_same.
  destruct (parameters o0) as [j|]; cbn [mbind option_bind]; [|by eapply runs_throw].
  destruct (get_str "install_path" j), (get_str "output_path" j); cbn [mbind option_bind]; [|by eapply runs_throw..].
  destruct (ps !! key) as [p|] eqn:Ep; cbn [mbind option_bind]; [|eapply runs_error; [by rewrite (registry_get_at _ _ _ _ _ Hc0), Ep|exact Hc0|done]].
  eapply task_runs_bind; [by rewrite (registry_get_at _ _ _ _ _ Hc0), Ep|].
  destruct (build_config p), (cdn_config p); cbn [mbind option_bind]; [|by eapply runs_throw..]. moves.
  destruct (prepared e) as [[]|x]; [|eapply runs_error; [reflexivity|eassumption|reflexivity]]. eapply task_runs_bind; [reflexivity|].
  destruct (outcome_ e) as [[]|x|]; [|by eapply runs_throw..]. moves.
  edestruct op_to_at as (c2 & Hm & Hc2); [eassumption| |by exists (Ok tt), Complete, c2]. done.
Qed.

(** Every executor follows its plan. *)
Lemma execute_follows : follows (execute (operation_type o0) e) (plan o0 e (ps !! key)).
Proof.
  unfold execute, plan. destruct (operation_type o0); auto using verify_follows, repair_follows, uninstall_follows, update_follows, installing_follows, extract_follows.
Qed.

End Executors.

(** ** Tasks end *)

Lemma finish_follows o e rs0 d :
  at_state o rs0 Initializing (products d) {| op := o; db := d |} -> registry_ok (products d) ->
  let pl := plan o e (products d !! to_ascii_lowercase (product_code o)) in
  exists r o' d', finish o e d = (r, o', d') /\ (if pl.1 then r = Ok tt else (exists x, r = Err x /\ error o' = Some {| code := "execution_error"; message := x |})) /\
    at_state o rs0 (if pl.1 then Complete else Failed) (replaced o (products d) pl.2) {| op := o'; db := d' |}.
Proof.
  intros Hc Hok pl. destruct (execute_follows o rs0 (products d) {| op := o; db := d |} e) as (r & s & c' & Hex & Hc' & Hr); [done..|]. fold pl in Hc', Hr.
  unfold finish. rewrite Hex. destruct pl.1.
  - destruct Hr as [-> ->]. exists (Ok tt), (op c'), (db c'). split; [done|]. split; [done|]. by destruct c'.
  - destruct Hr as [(x & ->) Hs]. destruct Hc' as [(Hi & Hp & Ht & Hpar) Hst Hps Hrows Hsaved]. unfold fail, transition_to. cbn [state with_error]. rewrite Hst, Hs. cbn [negb].
    match goal with |- context [queue_update ?o1 ?d1] => pose proof (save_at o rs0 o1 d1) as Hsave end.
    eexists _, _, _. split; [reflexivity|]. split; [by eexists|]. rewrite <- Hps. apply Hsave; [by repeat split|done].
Qed.

Lemma start_follows o d :
  state o = Queued -> exists o' d', start o d = Some (o', d') /\ at_state o (operations d) Initializing (products d) {| op := o'; db := d' |}.
Proof.
  intros Hs. unfold start, op_to. cbv [mbind task_bind]. unfold op_transition, transition_to, save_op. cbn [op db]. rewrite Hs. cbn [can_transition_to negb op db].
  match goal with |- context [queue_update ?o1 ?d1] => pose proof (save_at o (operations d) o1 d1) as Hsave end.
  eexists _, _. split; [reflexivity|]. apply Hsave; [by repeat split|done].
Qed.

(** The task of the started operation is that of the queued one. *)
Lemma at_state_start o o' rs s ps d : at_state o rs s ps {| op := o'; db := d |} -> at_state o' (operations d) s ps {| op := o'; db := d |}.
Proof.
  intros [(Hi & Hp & Ht & Hpar) Hs Hps Hr Hsv]. constructor; cbn [op db] in *; [by repeat split|done|done|done|]. by rewrite Hi.
Qed.

(** ** One operation of a product at a time *)

Definition active_row (r : OpRow) : Prop := inactive (r_state r) = false.

Definition one_active (rs : list OpRow) : Prop :=
  forall r1 r2, r1 ∈ rs -> r2 ∈ rs -> active_row r1 -> active_row r2 -> r_product r1 = r_product r2 -> r1 = r2.

(** The row of an operation whose task runs. *)
Definition in_flight (rs : list OpRow) (o : Operation) : Prop :=
  state o = Initializing /\ exists r, r ∈ rs /\ r_id r = operation_id o /\ r_product r = product_code o /\ r_state r = "initializing"%string.

(** An operation as it was read from the queue. *)
Definition waiting (rs : list OpRow) (o : Operation) : Prop :=
  state o = Queued /\ exists r, r ∈ rs /\ r_id r = operation_id o /\ r_product r = product_code o /\ r_state r = "queued"%string.

Lemma rows_rel_ids id rs rs' : rows_rel id rs rs' -> map r_id rs' = map r_id rs.
Proof. induction 1 as [|r r' rs rs' (Hi & _) H IH]; [done|]. cbn [map]. by rewrite Hi, IH. Qed.

Lemma rows_rel_elem id rs rs' r' : rows_rel id rs rs' -> r' ∈ rs' -> exists r, r ∈ rs /\ row_rel id r r'.
Proof.
  intros H Hr. apply list_elem_of_lookup in Hr as [i Hi]. destruct (Forall2_lookup_r _ _ _ _ _ H Hi) as (r & Hl & Hrel). exists r. split; [by eapply list_elem_of_lookup_2|done].
Qed.

Lemma rows_rel_elem' id rs rs' r : rows_rel id rs rs' -> r ∈ rs -> exists r', r' ∈ rs' /\ row_rel id r r'.
Proof.
  intros H Hr. apply list_elem_of_lookup in Hr as [i Hi]. destruct (Forall2_lookup_l _ _ _ _ _ H Hi) as (r' & Hl & Hrel). exists r'. split; [by eapply list_elem_of_lookup_2|done].
Qed.

Lemma nodup_ids_inj rs r1 r2 : NoDup (map r_id rs) -> r1 ∈ rs -> r2 ∈ rs -> r_id r1 = r_id r2 -> r1 = r2.
Proof.
  induction rs as [|r rs IH]; intros Hnd; [by intros ?%not_elem_of_nil|]. apply NoDup_cons in Hnd as [Hn Hnd].
  intros [-> |H1]%elem_of_cons [-> |H2]%elem_of_cons E; auto; exfalso; apply Hn; [rewrite E|rewrite <- E]; by apply list_elem_of_fmap_2.
Qed.

(** A task that keeps its row active where it was active keeps the products apart. *)
Lemma one_active_rel id rs rs' :
  NoDup (map r_id rs) -> rows_rel id rs rs' -> one_active rs ->
  (forall r r', r ∈ rs -> row_rel id r r' -> r' ∈ rs' -> active_row r' -> active_row r) -> one_active rs'.
Proof.
  intros Hnd Hrel H1 Hact a b Ha Hb Aa Ab Hp. destruct (rows_rel_elem _ _ _ _ Hrel Ha) as (a0 & Ha0 & Ra), (rows_rel_elem _ _ _ _ Hrel Hb) as (b0 & Hb0 & Rb).
  apply (nodup_ids_inj rs'); [by rewrite (rows_rel_ids _ _ _ Hrel)|done|done|]. rewrite (proj1 Ra), (proj1 Rb). f_equal.
  apply H1; [done|done|by eapply Hact|by eapply Hact|]. by rewrite <- (proj1 (proj2 Ra)), <- (proj1 (proj2 Rb)).
Qed.

Lemma in_flight_other id rs rs' o : rows_rel id rs rs' -> operation_id o <> id -> in_flight rs o -> in_flight rs' o.
Proof.
  intros Hrel Hne (Hs & r & Hr & Hi & Hp & Hst). split; [done|]. destruct (rows_rel_elem' _ _ _ _ Hrel Hr) as (r' & Hr' & _ & _ & _ & _ & _ & Hsame).
  rewrite Hsame in Hr' by congruence. eauto.
Qed.

Lemma state_string_inj s s' : state_string s = state_string s' -> s = s'.
Proof. by destruct s, s'. Qed.

Lemma inactive_terminal s : inactive (state_string s) = is_terminal s.
Proof. by destruct s. Qed.

Lemma plan_code o e mp : match (plan o e mp).2, mp with Some p', Some p => p_code p' = p_code p | None, None => True | _, _ => False end.
Proof.
  unfold plan, plan_installing, plan_update, plan_repair, plan_verify, plan_uninstall, plan_extract, entered.
  destruct mp as [p|]; destruct (operation_type o); repeat case_match; simplify_eq/=; repeat case_match; simplify_eq/=; done.
Qed.

Lemma replaced_registry o ps e : registry_ok ps -> registry_ok (replaced o ps (plan o e (ps !! to_ascii_lowercase (product_code o))).2).
Proof.
  intros Hok. pose proof (plan_code o e (ps !! to_ascii_lowercase (product_code o))) as Hc.
  destruct (plan _ _ _).2 as [p'|] eqn:Ep, (ps !! to_ascii_lowercase (product_code o)) as [p|] eqn:E; try done. by eapply registry_ok_insert.
Qed.

(** *** What every sequence of steps keeps *)

Section Inv.

Context (I : Db -> Prop).
Hypothesis I_tick : forall d, I d -> I (tick d).
Hypothesis I_insert : forall o d, I d -> I (queue_insert o d).2.
Hypothesis I_register : forall p d, I d -> I (register p d).2.
Hypothesis I_queue_update : forall o d, I d -> I (queue_update o d).
Hypothesis I_registry_update : forall p d, I d -> I (registry_update p d).

Lemma submit_inv o d : I d -> I (submit o d).2.
Proof. intros H. pose proof (I_insert o d H) as Hi. unfold submit. by destruct (queue_insert o d) as [[]]. Qed.

Lemma handle_if_inv guard code t id prio params d : I d -> I (handle_if guard code t id prio params d).2.
Proof. intros H. unfold handle_if. destruct (registry_get d code); [|done]. case_match; [|done]. by apply submit_inv, I_tick. Qed.

Lemma handle_inv rq id d : I d -> I (handle rq id d).2.
Proof.
  intros H. destruct rq; cbn [handle]; try by apply handle_if_inv.
  - unfold handle_install. repeat case_match; try done; by apply submit_inv, I_tick.
  - unfold handle_extract. repeat case_match; try done; by apply handle_if_inv.
  - unfold post_register. pose proof (I_register (registered_product q) d H) as Hd. destruct (register (registered_product q) d) as [rr dd]. cbn [snd] in Hd.
    repeat match goal with |- I (if ?b then _ else _).2 => destruct b; [done|] end. destruct rr as [[]|]; [|done|done].
    match goal with |- context [submit ?o ?d] => pose proof (submit_inv o d (I_tick _ Hd)) as Hs; destruct (submit o d) end. done.
Qed.

(** A task keeps the invariant, whatever it returns. *)
Definition keeps {A} (m : task A) : Prop := forall c, I (db c) -> I (db (m c).2).

Lemma keeps_bind {A B} (m : task A) (f : A -> task B) : keeps m -> (forall a, keeps (f a)) -> keeps (m ≫= f).
Proof. intros Hm Hf c Hc. specialize (Hm c Hc). unfold mbind, task_bind. destruct (m c) as [[a|e] c']; [by apply Hf|done]. Qed.

Lemma keeps_pure {A} (r : aresult A) (f : Ctx -> Operation) : keeps (fun c => (r, {| op := f c; db := db c |})).
Proof. by intros c Hc. Qed.

Lemma keeps_same {A} (g : Ctx -> aresult A) : keeps (fun c => (g c, c)).
Proof. by intros c Hc. Qed.

Lemma keeps_put p : keeps (put_product p).
Proof. intros c Hc. by apply I_registry_update. Qed.

Lemma keeps_op_to s : keeps (op_to s).
Proof. intros c Hc. unfold op_to, mbind, task_bind, op_transition. destruct (transition_to _ _ _); [|done]. by apply I_queue_update, I_tick. Qed.

Lemma keeps_if_product code f : (forall p, keeps (f p)) -> keeps (if_product code f).
Proof. intros Hf c Hc. unfold if_product. destruct (registry_get _ _); [by apply Hf|done]. Qed.

End Inv.

Lemma find_active_none d code : find_active_for_product d code = Ok None -> forall r, r ∈ operations d -> active_row r -> r_product r <> code.
Proof.
  unfold find_active_for_product. intros H r Hr Ha Hp. destruct (sort_by_key _ _) as [|r' l] eqn:E.
  - assert (r ∈ filter (fun r => active_for code r = true) (operations d)) as Hin.
    { apply list_elem_of_filter. split; [|done]. unfold active_for. rewrite bool_decide_true by done. unfold active_row in Ha. by rewrite Ha. }
    rewrite <- (sort_by_key_perm (fun r => - r_created r)), E in Hin. by apply not_elem_of_nil in Hin.
  - cbv [mbind result_bind] in H. by destruct (row_to_operation r').
Qed.

Definition db_ok (d : Db) (run wait : list Operation) : Prop :=
  NoDup (map r_id (operations d)) /\ one_active (operations d) /\ Forall (in_flight (operations d)) run /\
  Forall (waiting (operations d)) wait /\ registry_ok (products d).

Definition weak_ok (d : Db) : Prop := NoDup (map r_id (operations d)) /\ registry_ok (products d).

Lemma queue_put_weak o d : weak_ok d -> weak_ok (queue_put o d).2.
Proof.
  intros [Hids Hreg]. unfold queue_put. destruct (existsb _ _) eqn:Ee; [done|]. split; cbn [snd operations products tick with_operations]; [|done].
  rewrite map_app. cbn [map]. apply NoDup_snoc; [done|]. intros (x & Hi & Hx)%list_elem_of_fmap. cbn in Hi.
  enough (existsb (fun r => r_id r =? operation_id o) (operations d) = true) by congruence. apply existsb_exists. exists x.
  split; [by apply list_elem_of_In|]. apply Z.eqb_eq. congruence.
Qed.

Lemma queue_insert_weak o d : weak_ok d -> weak_ok (queue_insert o d).2.
Proof. intros H. unfold queue_insert. repeat case_match; try done; by apply queue_put_weak. Qed.

Lemma queue_insert_ok run wait o d : db_ok d run wait -> db_ok (queue_insert o d).2 run wait.
Proof.
  intros (Hids & Hone & Hrun & Hwait & Hreg). destruct (queue_insert_weak o d (conj Hids Hreg)) as [Hids' Hreg']. revert Hids' Hreg'.
  unfold queue_insert. destruct (find_active_for_product d (product_code o)) as [[a|]|x] eqn:Ef; [done| |done].
  unfold queue_put. destruct (existsb _ _); [done|]. cbn [snd operations products tick with_operations]. intros Hids' Hreg'.
  split_and!; cbn [operations products tick with_operations]; [done| | | |done].
  - pose proof (find_active_none _ _ Ef) as Hn. intros r1 r2. rewrite !elem_of_app, !list_elem_of_singleton. intros [H1| ->] [H2| ->] A1 A2 Hp; [by apply Hone| | |done].
    + exfalso. by eapply Hn; [exact H1|done|].
    + exfalso. by eapply Hn; [exact H2|done|].
  - eapply Forall_impl; [exact Hrun|]. intros o' (Hs & r & Hr & ?). split; [done|]. exists r. split; [by apply elem_of_app; left|done].
  - eapply Forall_impl; [exact Hwait|]. intros o' (Hs & r & Hr & ?). split; [done|]. exists r. split; [by apply elem_of_app; left|done].
Qed.

Lemma registry_ok_store ps c p : registry_ok ps -> registry_ok (<[to_ascii_lowercase c := with_code p (to_ascii_lowercase c)]> ps).
Proof.
  intros Hok c' p'. destruct (decide (c' = to_ascii_lowercase c)) as [->|Hne]; [rewrite lookup_insert_eq; intros [= <-]; split; [done|apply lower_idempotent]|].
  rewrite lookup_insert_ne by done. apply Hok.
Qed.

Lemma registry_update_weak p d : weak_ok d -> weak_ok (registry_update p d).
Proof. intros [Hids Hreg]. unfold registry_update. case_match; [|done]. split; [done|]. by apply registry_ok_store. Qed.

Lemma queue_update_weak o d : weak_ok d -> weak_ok (queue_update o d).
Proof.
  intros [Hids Hreg]. split; [|done]. unfold queue_update. cbn [operations tick with_operations]. rewrite map_map. erewrite map_ext; [exact Hids|].
  intros r. unfold update_row. by destruct (_ =? _).
Qed.

Lemma register_same p d : operations (register p d).2 = operations d /\ (registry_ok (products d) -> registry_ok (products (register p d).2)).
Proof.
  unfold register, registry_update, registry_insert. repeat case_match; simplify_eq/=; split; try done; intros H'; by apply registry_ok_store.
Qed.

Lemma register_weak p d : weak_ok d -> weak_ok (register p d).2.
Proof. intros [Hids Hreg]. destruct (register_same p d) as [Ho Hr]. split; [by rewrite Ho|by apply Hr]. Qed.

Lemma register_ok run wait p d : db_ok d run wait -> db_ok (register p d).2 run wait.
Proof. intros (H1 & H2 & H3 & H4 & H5). destruct (register_same p d) as [Ho Hr]. unfold db_ok. rewrite Ho. split_and!; try done. by apply Hr. Qed.

Lemma handle_weak rq id d : weak_ok d -> weak_ok (handle rq id d).2.
Proof. apply handle_inv; [done|apply queue_insert_weak|apply register_weak]. Qed.

Lemma handle_ok run wait rq id d : db_ok d run wait -> db_ok (handle rq id d).2 run wait.
Proof. apply (handle_inv (fun d => db_ok d run wait)); [done|apply queue_insert_ok|apply register_ok]. Qed.

(** *** Tasks *)

(** Whatever task runs, on whatever copy of its operation: identifiers stay distinct and
    products stay under their codes. *)
Ltac task_keeps :=
  repeat first
    [ apply (keeps_put weak_ok registry_update_weak) | apply (keeps_op_to weak_ok (fun d H => H) queue_update_weak)
    | apply keeps_bind; [|intros ?]
    | apply keeps_if_product; intros ? | apply keeps_same | apply keeps_pure
    | match goal with |- keeps _ (match ?x with _ => _ end) => destruct x end
    | (intros ? ?; by case_match) ].

Lemma execute_weak t e : keeps weak_ok (execute t e).
Proof.
  destruct t; unfold execute, execute_installing, execute_update, execute_repair, execute_verify, execute_uninstall, execute_extract,
    end_product, revert_product, begin_product, install_path_of; task_keeps.
Qed.

Lemma finish_weak o e d : weak_ok d -> weak_ok (finish o e d).2.
Proof.
  intros H. unfold finish. pose proof (execute_weak (operation_type o) e {| op := o; db := d |} H) as He.
  destruct (execute _ _ _) as [[[]|x] c]; [done|]. cbn [snd] in He. destruct (fail _ _ _) as [? o']. by apply queue_update_weak.
Qed.

Lemma start_weak o d o' d' : weak_ok d -> start o d = Some (o', d') -> weak_ok d'.
Proof.
  intros H. unfold start. pose proof (keeps_op_to weak_ok (fun d H => H) queue_update_weak Initializing {| op := o; db := d |} H) as Hk.
  destruct (op_to _ _) as [[[]|] c]; [|done]. by intros [= <- <-].
Qed.

Lemma waiting_other id rs rs' o : rows_rel id rs rs' -> operation_id o <> id -> waiting rs o -> waiting rs' o.
Proof.
  intros Hrel Hne (Hs & r & Hr & Hi & Hp & Hst). split; [done|]. destruct (rows_rel_elem' _ _ _ _ Hrel Hr) as (r' & Hr' & _ & _ & _ & _ & _ & Hsame).
  rewrite Hsame in Hr' by congruence. eauto.
Qed.

Lemma Forall_other (P : list OpRow -> Operation -> Prop) id rs rs' os :
  (forall o, operation_id o <> id -> P rs o -> P rs' o) -> id ∉ map operation_id os -> Forall (P rs) os -> Forall (P rs') os.
Proof.
  intros HP Hni. rewrite !Forall_forall. intros H o Ho. apply HP; [|by apply H]. intros Heq. apply Hni. rewrite <- Heq. by apply list_elem_of_fmap_2.
Qed.

Lemma finish_ok o e d before after wait :
  db_ok d (before ++ o :: after) wait -> NoDup (map operation_id ((before ++ o :: after) ++ wait)) -> db_ok (finish o e d).2 (before ++ after) wait.
Proof.
  intros (Hids & Hone & Hrun & Hwait & Hreg) Hnd. apply Forall_app in Hrun as [Hb [Ho Ha]%Forall_cons]. pose proof Ho as (Hs & r0 & Hr0 & Hi0 & Hp0 & Hst0).
  assert (at_state o (operations d) Initializing (products d) {| op := o; db := d |}) as Hat.
  { constructor; cbn [op db]; [by repeat split|done..|]. apply Forall_forall. intros r Hr Hir.
    assert (r = r0) as -> by (apply (nodup_ids_inj (operations d)); [done..|congruence]). done. }
  destruct (finish_follows o e _ d Hat Hreg) as (r & o' & d' & -> & _ & [_ _ Hps Hrows Hsaved]). cbn [snd op db] in *.
  assert ((operation_id o ∉ map operation_id (before ++ after)) /\ (operation_id o ∉ map operation_id wait)) as [Hna Hnw].
  { rewrite !map_app, map_cons, <- !(assoc_L (++)) in Hnd. cbn [app] in Hnd. rewrite map_app. apply NoDup_app in Hnd as (_ & Hx & Hnd).
    apply NoDup_cons in Hnd as [Hn _]. specialize (Hx (operation_id o)). rewrite elem_of_app in *. set_solver. }
  split_and!; [by rewrite (rows_rel_ids _ _ _ Hrows)| | | |rewrite Hps; by apply replaced_registry].
  - eapply one_active_rel; [done|exact Hrows|done|]. intros r1 r2 H1 Hrel H2 Ha2. destruct (decide (r_id r1 = operation_id o)) as [Heq|Hne].
    + assert (r1 = r0) as -> by (apply (nodup_ids_inj (operations d)); [done..|congruence]). unfold active_row. by rewrite Hst0.
    + destruct Hrel as (_ & _ & _ & _ & _ & Hsame). by rewrite <- Hsame.
  - eapply Forall_other; [|exact Hna|by apply Forall_app]. intros b. by apply in_flight_other.
  - eapply Forall_other; [|exact Hnw|exact Hwait]. intros b. by apply waiting_other.
Qed.

(** *** Passes over the queue *)

Lemma start_ok o d run before after :
  db_ok d run (before ++ o :: after) -> NoDup (map operation_id (run ++ before ++ o :: after)) ->
  exists o' d', start o d = Some (o', d') /\ operation_id o' = operation_id o /\ db_ok d' (run ++ [o']) (before ++ after).
Proof.
  intros (Hids & Hone & Hrun & Hwait & Hreg) Hnd. apply Forall_app in Hwait as [Hwb [Ho Hwa]%Forall_cons].
  destruct Ho as (Hs & r0 & Hr0 & Hi0 & Hp0 & Hst0).
  assert ((operation_id o ∉ map operation_id run) /\ (operation_id o ∉ map operation_id (before ++ after))) as [Hni Hnw].
  { rewrite !map_app, map_cons in Hnd. rewrite map_app. apply NoDup_app in Hnd as (_ & Hx & Hnd). apply NoDup_app in Hnd as (_ & Hy & Hnd).
    apply NoDup_cons in Hnd as [Hn _]. specialize (Hx (operation_id o)). specialize (Hy (operation_id o)). rewrite ?elem_of_app in *. set_solver. }
  destruct (start_follows o d Hs) as (o' & d' & -> & [(Hi & Hc & _) Ho Hps Hrows Hsaved]). cbn [op db] in *. exists o', d'. split; [done|]. split; [done|].
  split_and!; [by rewrite (rows_rel_ids _ _ _ Hrows)| | | |by rewrite Hps].
  - eapply one_active_rel; [done|exact Hrows|done|]. intros r1 r2 H1 Hrel H2 Ha2. destruct (decide (r_id r1 = operation_id o)) as [Heq|Hne].
    + assert (r1 = r0) as -> by (apply (nodup_ids_inj (operations d)); [done..|congruence]). unfold active_row. by rewrite Hst0.
    + destruct Hrel as (_ & _ & _ & _ & _ & Hsame). by rewrite <- Hsame.
  - apply Forall_app. split; [eapply Forall_other; [|exact Hni|exact Hrun]; intros b; by apply in_flight_other|].
    apply Forall_singleton. split; [done|]. destruct (rows_rel_elem' _ _ _ _ Hrows Hr0) as (r' & Hr' & Hid & Hpr & _). exists r'.
    split_and!; [done|congruence|congruence|]. unfold saved in Hsaved. rewrite Forall_forall in Hsaved. apply (Hsaved r'); [done|congruence].
  - eapply Forall_other; [|exact Hnw|by apply Forall_app]. intros b. by apply waiting_other.
Qed.

Lemma row_to_operation_ok r o : row_to_operation r = Ok o -> operation_id o = r_id r /\ product_code o = r_product r /\ (r_state r = "queued"%string -> state o = Queued).
Proof.
  unfold row_to_operation. cbv [mbind result_bind]. intros H. destruct (parse_operation_type (r_type r)); [|done]. destruct (parse_operation_state (r_state r)) eqn:E; [|done].
  destruct (parse_priority (r_priority r)); [|done]. simplify_eq/=. split_and!; [done..|]. intros Hq. rewrite Hq in E. vm_compute in E. congruence.
Qed.

Lemma rows_to_operations_ok rs os : rows_to_operations rs = Ok os -> Forall2 (fun r o => row_to_operation r = Ok o) rs os.
Proof.
  revert os. induction rs as [|r rs IH]; intros os H; cbn [rows_to_operations] in H; [simplify_eq; constructor|]. cbv [mbind result_bind] in H.
  destruct (row_to_operation r) as [o|] eqn:E; [|done]. destruct (rows_to_operations rs) as [os'|]; [|done]. simplify_eq. constructor; [done|by apply IH].
Qed.

Lemma queued_rows_elem d r : r ∈ queued_rows d -> r ∈ operations d /\ r_state r = "queued"%string.
Proof. unfold queued_rows. rewrite sort_by_key_perm. rewrite list_elem_of_filter. tauto. Qed.

Lemma queued_rows_nodup d : NoDup (map r_id (operations d)) -> NoDup (map r_id (queued_rows d)).
Proof.
  intros H. unfold queued_rows. change (NoDup (r_id <$> sort_by_key (fun r => (priority_rank (r_priority r), r_created r)) (filter (fun r => r_state r = "queued"%string) (operations d)))).
  rewrite sort_by_key_perm. eapply sublist_NoDup; [exact H|]. apply fmap_sublist, sublist_filter.
Qed.

Lemma process_queue_ok d k :
  NoDup (map r_id (operations d)) -> Forall (waiting (operations d)) (process_queue k d) /\ NoDup (map operation_id (process_queue k d)) /\ (length (process_queue k d) <= k)%nat.
Proof.
  intros Hnd. unfold process_queue, get_queued. destruct (rows_to_operations (queued_rows d)) as [os|] eqn:E; [|split_and!; [constructor|constructor|simpl; lia]].
  apply rows_to_operations_ok in E. assert (map operation_id os = map r_id (queued_rows d)) as Hmap.
  { clear Hnd. induction E as [|r o rs os (Hi & _)%row_to_operation_ok H IH]; [done|]. cbn [map]. by rewrite Hi, IH. }
  split_and!; [|change (NoDup (operation_id <$> take k os)); rewrite fmap_take; change (operation_id <$> os) with (map operation_id os); rewrite Hmap; eapply sublist_NoDup; [by apply queued_rows_nodup|apply sublist_take]|rewrite length_take; lia].
  apply Forall_take, Forall_forall. intros o Ho. apply list_elem_of_lookup in Ho as [i Hi]. destruct (Forall2_lookup_r _ _ _ _ _ E Hi) as (r & Hr & Hrow).
  apply list_elem_of_lookup_2, queued_rows_elem in Hr as [Hr Hq]. apply row_to_operation_ok in Hrow as (H1 & H2 & H3). split; [by apply H3|]. exists r. done.
Qed.

(** *** Restart and clean-up *)

Lemma reset_row_same now r : r_id (reset_row now r) = r_id r /\ r_product (reset_row now r) = r_product r /\ inactive (r_state (reset_row now r)) = inactive (r_state r).
Proof.
  unfold reset_row. destruct (_ || _) eqn:E; [|done]. split_and!; [done..|]. cbn [r_state].
  apply orb_true_iff in E as [[E|E]%orb_true_iff|E]; apply bool_decide_eq_true in E; by rewrite E.
Qed.

Lemma reset_ids d : map r_id (operations (reset_inflight_operations d)) = map r_id (operations d).
Proof. cbn [reset_inflight_operations operations]. rewrite map_map. apply map_ext. intros r. apply reset_row_same. Qed.

Lemma restart_weak d : weak_ok d -> weak_ok (reset_inflight_operations d).
Proof.
  intros [Hids Hreg]. split; [by rewrite reset_ids|]. intros c p. cbn [reset_inflight_operations products]. rewrite lookup_fmap.
  destruct (products d !! c) as [q|] eqn:E; [|done]. intros [= <-]. unfold reset_product. destruct (Hreg c q E). by destruct (status q).
Qed.

Lemma restart_ok d run wait : db_ok d run wait -> db_ok (reset_inflight_operations d) [] [].
Proof.
  intros (Hids & Hone & _ & _ & Hreg). destruct (restart_weak d (conj Hids Hreg)) as [H1 H2]. split_and!; [done| |constructor|constructor|done].
  intros r1 r2 (a & -> & Ha)%list_elem_of_fmap (b & -> & Hb)%list_elem_of_fmap. unfold active_row. pose proof (reset_row_same (clock d) a) as (_ & -> & ->).
  pose proof (reset_row_same (clock d) b) as (_ & -> & ->). intros A1 A2 Hp. f_equal. by apply Hone.
Qed.

Lemma cleanup_weak days d : weak_ok d -> weak_ok (cleanup_old days d).2.
Proof. intros [Hids Hreg]. split; [|done]. eapply sublist_NoDup; [exact Hids|]. apply (fmap_sublist r_id), sublist_filter. Qed.

Lemma cleanup_ok days d run wait : db_ok d run wait -> db_ok (cleanup_old days d).2 run wait.
Proof.
  intros (Hids & Hone & Hrun & Hwait & Hreg). destruct (cleanup_weak days d (conj Hids Hreg)) as [H1 H2]. split_and!; [done| | | |done];
    cbn [cleanup_old snd tick with_operations operations].
  - intros r1 r2 [_ Hr1]%list_elem_of_filter [_ Hr2]%list_elem_of_filter. by apply Hone.
  - eapply Forall_impl; [exact Hrun|]. intros o (Hs & r & Hr & Hi & Hp & Hst). split; [done|]. exists r. split; [|done]. apply list_elem_of_filter. split; [|done].
    by rewrite Hst.
  - eapply Forall_impl; [exact Hwait|]. intros o (Hs & r & Hr & Hi & Hp & Hst). split; [done|]. exists r. split; [|done]. apply list_elem_of_filter. split; [|done].
    by rewrite Hst.
Qed.

(** *** Every run *)

Definition run_ok (max : nat) (s : System) : Prop := weak_ok (sys_db s) /\ (length (spawned s) + length (running s) <= max)%nat.

Lemma process_queue_length k d : (length (process_queue k d) <= k)%nat.
Proof. unfold process_queue. destruct (get_queued d); [rewrite length_take; lia|simpl; lia]. Qed.

Lemma step_run_ok max s s' : run_ok max s -> step max s s' -> run_ok max s'.
Proof.
  intros [Hd Hm] H. destruct H as [r id s|o s Hs Hc|o before after d sp run|s|o before after d run pend|o e before after d sp pend|s|days s];
    unfold run_ok; cbn [sys_db spawned running pending dispatch] in *.
  - split; [by apply handle_weak|done].
  - done.
  - split; [by apply queue_put_weak|done].
  - split; [done|]. rewrite length_app. pose proof (process_queue_length (max - (length (spawned s) + length (running s))) (sys_db s)). lia.
  - destruct (start o d) as [[o' d']|] eqn:E; cbn [sys_db spawned running].
    + split; [by eapply start_weak|]. rewrite !length_app in *. simpl in *. lia.
    + split; [done|]. rewrite !length_app in *. simpl in *. lia.
  - split; [by apply finish_weak|]. rewrite !length_app in *. simpl in *. lia.
  - split; [by apply restart_weak|simpl; lia].
  - split; [by apply cleanup_weak|done].
Qed.

(** *** Serial runs *)

(** The check of an insertion and its [INSERT] are not separated, and no pass over the
    queue spawns tasks while spawned ones have not started. *)
Definition serial (max : nat) (s s' : System) : Prop :=
  step max s s' /\ pending s' = [] /\ (spawned s = [] \/ (length (spawned s') <= length (spawned s))%nat).

Definition serial_ok (s : System) : Prop :=
  pending s = [] /\ db_ok (sys_db s) (running s) (spawned s) /\ NoDup (map operation_id (running s ++ spawned s)).

Lemma dispatch_ok max s :
  serial_ok s -> spawned s = [] \/ (length (spawned (dispatch max s)) <= length (spawned s))%nat -> serial_ok (dispatch max s).
Proof.
  intros (Hp & Hd & Hnd) Hsp. pose proof Hd as (Hids & _ & Hrun & _ & _).
  destruct (process_queue_ok (sys_db s) (max - (length (spawned s) + length (running s))) Hids) as (Hw & Hndq & _).
  unfold serial_ok. cbn [dispatch sys_db spawned running pending] in *. set (os := process_queue _ _) in *. destruct Hsp as [E|Hle].
  - rewrite E in *. cbn [app]. split; [done|]. destruct Hd as (H1 & H2 & H3 & _ & H5). split; [by split_and!|].
    rewrite app_nil_r in Hnd. rewrite map_app. apply NoDup_app. split_and!; [done| |done]. intros id (o & -> & Ho)%list_elem_of_fmap (o' & Heq & Ho')%list_elem_of_fmap.
    eapply Forall_forall in Hrun as (_ & r & Hr & Hi & _ & Hst); [|exact Ho]. eapply Forall_forall in Hw as (_ & r' & Hr' & Hi' & _ & Hst'); [|exact Ho'].
    assert (r = r') as -> by (apply (nodup_ids_inj (operations (sys_db s))); [done..|congruence]). congruence.
  - rewrite length_app in Hle. assert (os = []) as -> by (destruct os; [done|simpl in Hle; lia]). by rewrite app_nil_r.
Qed.

Lemma serial_step_ok max s s' : serial_ok s -> serial max s s' -> serial_ok s'.
Proof.
  intros Hs (H & Hp & Hsp). destruct H as [r id s|o s Hq Hc|o before after d sp run|s|o before after d run pend|o e before after d sp pend|s|days s];
    cbn [sys_db spawned running pending] in *.
  - destruct Hs as (H1 & H2 & H3). split; [done|]. split; [by apply handle_ok|done].
  - done.
  - destruct Hs as (Hs & _). cbn [pending] in Hs. by destruct before.
  - by apply dispatch_ok.
  - destruct Hs as (H1 & H2 & H3). cbn [sys_db spawned running pending] in *.
    destruct (start_ok o d run before after H2 H3) as (o' & d' & -> & Hi & Hd'). split; [done|]. split; [done|]. cbn [running spawned].
    eapply NoDup_Permutation_proper; [|exact H3]. rewrite !map_app, !map_cons, Hi. cbn [map app]. rewrite <- (assoc_L (++)). cbn [app].
    apply Permutation_app_head. apply Permutation_middle.
  - destruct Hs as (H1 & H2 & H3). cbn [sys_db spawned running pending] in *. split; [done|]. split; [by apply finish_ok|]. cbn [running spawned].
    eapply sublist_NoDup; [exact H3|]. apply (fmap_sublist operation_id). apply sublist_app; [|done]. apply sublist_app; [done|by constructor].
  - destruct Hs as (H1 & H2 & H3). split; [done|]. split; [by eapply restart_ok|constructor].
  - destruct Hs as (H1 & H2 & H3). split; [done|]. split; [by apply cleanup_ok|done].
Qed.

Lemma initial_db_ok : db_ok (sys_db initial) [] [].
Proof. split_and!; [constructor|by intros ? ? ?%not_elem_of_nil|constructor|constructor|done]. Qed.

Lemma one_active_count rs code :
  NoDup (map r_id rs) -> one_active rs -> (length (filter (fun r => active_for code r = true) rs) <= 1)%nat.
Proof.
  intros Hids Hone. destruct (filter _ rs) as [|r1 [|r2 l]] eqn:E; [simpl; lia..|]. exfalso.
  assert (forall r, r ∈ r1 :: r2 :: l -> r ∈ rs /\ active_row r /\ r_product r = code) as Hin.
  { intros r. rewrite <- E, list_elem_of_filter. unfold active_for, active_row. intros [[Hp%bool_decide_eq_true Ha%negb_true_iff]%andb_true_iff Hr]. done. }
  destruct (Hin r1) as (H1 & A1 & P1); [by left|]. destruct (Hin r2) as (H2 & A2 & P2); [right; by left|].
  assert (r1 = r2) as -> by (apply Hone; congruence || done).
  assert (NoDup (map r_id (filter (fun r => active_for code r = true) rs))) as Hn
    by (eapply sublist_NoDup; [exact Hids|apply (fmap_sublist r_id), sublist_filter]).
  rewrite E in Hn. apply NoDup_cons in Hn as [Hn _]. apply Hn. by left.
Qed.

(** ** Samples *)

Definition sample_request : RegisterRequest :=
  {| rq_uid := [87]; rq_product := [87]; rq_install_dir := [47]; rq_region := [117]; rq_patch_url := [104]; rq_protocol := [78; 71; 68; 80];
     rq_locale := None; rq_build := None; rq_cdn := None; rq_mode := None; rq_registration := [] |}.

Definition sample_target : Target := {| t_version := [49]; t_build := [98]; t_cdn := [99]; t_product_config := None |}.

Definition sample_outside : Outside :=
  {| game_running := false; prepared := Ok tt; resolved := Ok sample_target; outcome_ := Done tt; counts := (0, 0); default_locale := [101]; us := [117] |}.

(** A product is registered, and its installation queued. *)
Definition sample_db : Db := (post_register sample_request 1 (sys_db initial)).2.
Definition sample_op : Operation := default (operation_new 0 0 [] Verify Low None) (head (process_queue 1 sample_db)).

(** ... and done. *)
Definition installed_db : Db := match run_task sample_op sample_outside sample_db with Some (_, _, d) => d | None => sample_db end.

Lemma sample_registry : registry_ok (products sample_db).
Proof. destruct initial_db_ok as (H1 & _ & _ & _ & H2). apply (handle_weak (RRegister sample_request) 1 (sys_db initial) (conj H1 H2)). Qed.

(** ** Claims *)




(** A request, a pass over the queue and the start of the task it spawned. *)
Definition sample_dispatched : System := dispatch 1 {| sys_db := sample_db; spawned := []; running := []; pending := [] |}.
Definition sample_started : System :=
  match start sample_op sample_db with
  | Some (o, d) => {| sys_db := d; spawned := []; running := [o]; pending := [] |}
  | None => sample_dispatched
  end.


(** ** Findings *)

(** Operations of the type [extract] are stored but not read back: one of them in the
    queue, and no operation is started any more. *)
Lemma extract_stops_queue d r k : r ∈ operations d -> r_type r = "extract"%string -> r_state r = "queued"%string -> process_queue k d = [].
Proof.
  intros Hr Ht Hs. unfold process_queue, get_queued. assert (r ∈ queued_rows d) as Hq by (unfold queued_rows; rewrite sort_by_key_perm, list_elem_of_filter; done).
  destruct (rows_to_operations (queued_rows d)) as [os|] eqn:E; [|done]. apply rows_to_operations_ok in E. apply list_elem_of_lookup in Hq as [i Hi].
  destruct (Forall2_lookup_l _ _ _ _ _ E Hi) as (o & _ & Ho). unfold row_to_operation in Ho. rewrite Ht in Ho. vm_compute in Ho. done.
Qed.

Example extract_request_stops_queue : let d := (handle_extract [119] 2 700 [47] None installed_db).2 in
  (handle_extract [119] 2 700 [47] None installed_db).1 = Accepted /\ process_queue 4 d = [] /\ length (queued_rows d) = 1%nat.
Proof. by vm_compute. Qed.

(** A product that is in the middle of an operation is not changed by any further
    operation; of those statuses a restart clears only two. *)
Lemma busy_product_is_stuck o e p : is_busy (status p) = true -> (plan o e (Some p)).2 = Some p.
Proof.
  intros Hb. unfold plan, plan_installing, plan_update, plan_repair, plan_verify, plan_uninstall, plan_extract, entered.
  destruct (operation_type o); repeat case_match; simplify_eq/=; try done; by destruct (status p).
Qed.

Lemma restart_keeps_busy p : status p = Repairing \/ status p = PVerifying \/ status p = Uninstalling -> reset_product p = p.
Proof. unfold reset_product. intros [-> |[-> | ->]]; done. Qed.

(** ... and an operation that is cancelled, or whose preparation fails, leaves its product
    in such a status. *)
Lemma cancelled_repair_leaves_busy e p :
  is_Some (install_path p) -> status p = Installed -> outcome_ e = CancelledByToken -> plan_repair e (Some p) = (false, Some (with_status p Repairing)).
Proof.
  intros [x Hx] Hs Hc. unfold plan_repair, has_path, entered. rewrite bool_decide_true by (by rewrite Hx). rewrite Hs, Hc. cbn. by destruct (prepared e).
Qed.

(** A backfill is queued without parameters, which its executor demands. *)
Lemma backfill_never_succeeds o e mp : operation_type o = Backfill -> parameters o = None -> (plan o e mp).1 = false.
Proof. intros Ht Hp. unfold plan, plan_installing. by rewrite Ht, Hp. Qed.

(** Registering an installed product again makes it one that is not installed. *)
Example registering_again_uninstalls :
  (status <$> products installed_db !! [119]) = Some Installed /\
  (post_register sample_request 2 installed_db).1 = Accepted /\
  (let d := (post_register sample_request 2 installed_db).2 in
   (status <$> products d !! [119]) = Some Available /\ (products d !! [119] ≫= version) = None).
Proof. by vm_compute. Qed.

(** Two passes over the queue before the first task has marked its operation: the second
    task finds the product installed and marks the completed operation as failed. *)
Example dispatched_twice :
  process_queue 2 sample_db = [sample_op] /\ (r_state <$> operations installed_db) = ["complete"%string] /\
  (match run_task sample_op sample_outside installed_db with Some (_, _, d) => r_state <$> operations d | None => [] end) = ["failed"%string].
Proof. by vm_compute. Qed.

(** A run of the agent that the theorem above leaves out. *)
Definition two_active (code : bytes) (s : System) : Prop :=
  length (filter (fun r => active_for code r = true) (operations (sys_db s))) = 2%nat.

Definition installed_system : System := {| sys_db := installed_db; spawned := []; running := []; pending := [] |}.

(** Two requests for one product whose checks both come before the first [INSERT] queue
    two operations. *)
Theorem races_queue_two : exists s, rtc (step 2) installed_system s /\ two_active [87] s.
Proof.
  set (o1 := operation_new 2 10 [87] Update Normal None). set (o2 := operation_new 3 11 [87] Verify Normal None).
  exists {| sys_db := (queue_put o2 (queue_put o1 installed_db).2).2; spawned := []; running := []; pending := [] |}. split; [|by vm_compute].
  eapply rtc_l; [apply (step_check 2 o2); [done|by vm_compute]|]. eapply rtc_l; [apply (step_check 2 o1); [done|by vm_compute]|].
  eapply rtc_l; [apply (step_put 2 o1 [] [o2])|]. eapply rtc_l; [apply (step_put 2 o2 [] [])|]. apply rtc_refl.
Qed.

(** Two passes over the queue before the task starts spawn two tasks for one operation:
    the second marks the operation as started again after it is complete, next to the
    operation that was queued in between. *)
Theorem dispatch_revives_operation : exists s, rtc (step 2) initial s /\ two_active [87] s.
Proof.
  destruct (start sample_op sample_db) as [[o1 d1]|] eqn:E1; [|by vm_compute in E1].
  pose (d2 := (finish o1 sample_outside d1).2). pose (d3 := (handle (RUpdate [87] 500 None None) 2 d2).2).
  destruct (start sample_op d3) as [[o3 d4]|] eqn:E3;
    [|apply (f_equal (fun o => match o with Some _ => true | None => false end)) in E3; vm_compute in E1; injection E1 as <- <-; by vm_compute in E3].
  exists {| sys_db := d4; spawned := []; running := [o3]; pending := [] |}. split.
  - eapply rtc_l; [apply (step_request 2 (RRegister sample_request) 1)|]. change (rtc (step 2) {| sys_db := sample_db; spawned := []; running := []; pending := [] |} {| sys_db := d4; spawned := []; running := [o3]; pending := [] |}).
    eapply rtc_l; [apply step_dispatch|]. eapply rtc_l; [apply step_dispatch|].
    change (rtc (step 2) {| sys_db := sample_db; spawned := [sample_op; sample_op]; running := []; pending := [] |} {| sys_db := d4; spawned := []; running := [o3]; pending := [] |}).
    eapply rtc_l; [apply (step_start 2 sample_op [] [sample_op] sample_db [] [])|]. rewrite E1. cbn [app].
    eapply rtc_l; [apply (step_finish 2 o1 sample_outside [] [] d1 [sample_op] [])|]. cbn [app].
    eapply rtc_l; [apply (step_request 2 (RUpdate [87] 500 None None) 2)|]. cbn [sys_db spawned running pending].
    eapply rtc_l; [apply (step_start 2 sample_op [] [] d3 [] [])|]. rewrite E3. apply rtc_refl.
  - vm_compute in E1. injection E1 as <- <-. vm_compute in E3. injection E3 as <- <-. by vm_compute.
Qed.

(** Codes are compared as they are written, products by their lower-case form: two
    operations of one product are queued under two spellings. *)
Theorem case_queues_two :
  let d := (handle (RRepair [119] 500) 3 (handle (RUpdate [87] 500 None None) 2 installed_db).2).2 in
  (handle (RUpdate [87] 500 None None) 2 installed_db).1 = Accepted /\ length (queued_rows d) = 2%nat /\
  registry_get d [87] = registry_get d [119] /\ (r_product <$> queued_rows d) = [[87]; [119]].
Proof. by vm_compute. Qed.
